(* ===== verification/_CoqProject ===== *)
-Q . S2P
Prelude.v
Clist.v
Bits.v
Mem.v
Str.v
Printk.v
Rbtree.v
RbtreeSpec.v
RbtreeOps.v
VmRegion.v
VmSpace.v
VmSystem.v
Page.v
Buddy.v
Ppm.v
PpmSystem.v
Pmm.v
PmmAlloc.v
Cow.v
CowTables.v
CowSpec.v
CowSystem.v
CowAlloc.v
Isolation.v
Heap.v
Kcm.v
KcmSpec.v
Objects.v
Radix.v
RadixSpec.v
Fifo.v
Threads.v
Mapper.v
MapperSys.v
MapperIo.v
Keysdb.v
KeysdbSys.v
Vmm.v
VmmSpec.v
VmmSystem.v
VmmFork.v
Lock.v
Spinlock.v
Mcs.v
RemoteFifo.v
Sched.v
SchedSpec.v
SchedSafe.v
SchedSys.v
RoundRobin.v
WaitView.v
Sync.v
SemSys.v
Cond.v
RwSys.v
