(* ===== verification/Prelude.v ===== *)
(** * Verification of the ALMOS-MK kernel

    ALMOS-MK is a kernel for manycore machines whose cores are grouped in clusters, each with its
    own memory; it runs on 32-bit MIPS (TSAR).  This development models the parts of
    src/kernel that hold its data structures, its memory management, its locks and its scheduler.
    The C functions are translated to Rocq functions of the same names; the theorems say what they
    guarantee, alone and together.

    ** The program and its models

    - Libraries (src/kernel/libk).  [Clist]: intrusive lists of list.h.  [Bits]: bitmaps of
      bits.c.  [Mem], [Str], [Printk]: memcpy, memset, strings, atoi, iprintk and sprintk.
      [Rbtree], [RbtreeSpec], [RbtreeOps]: the red-black trees of rbtree.c.
    - Physical memory (src/kernel/mm).  [Page]: page descriptors, their states, the page lock and
      the list of dirty pages (page.c).  [Buddy], [Ppm], [PpmSystem]: the buddy allocator of each
      cluster (ppm.c).  [Heap]: the kernel heap (heap_manager.c).  [Kcm], [KcmSpec]: the caches of
      kernel objects (kcm.c).  [Objects]: what the users of these caches rely on.
    - Virtual memory.  [Pmm], [PmmAlloc]: two-level page tables (src/kernel/arch/tsar/pmm.c).
      [VmRegion], [VmSpace], [VmSystem]: the regions of an address space (vm_region.c).  [Cow],
      [CowTables], [CowSpec], [CowSystem], [CowAlloc], [Isolation]: page faults, copy on write,
      fork and migration (vmm.c, vm_region.c, ppn.c).  [Keysdb], [KeysdbSys]: the database that
      finds the region of an address (src/kernel/kern/keysdb.c).  [Vmm], [VmmSpec], [VmmSystem],
      [VmmFork]: the virtual memory manager on top of all of them: mmap, munmap, sbrk, the fault
      handler, and fork and the end of an address space (vmm.c, sys_mmap.c, sys_sbrk.c).
    - Page cache.  [Radix], [RadixSpec]: the radix tree of src/kernel/kern/radix.c.  [Mapper],
      [MapperSys]: the pages of a file under concurrent requests; [MapperIo]: reading and writing
      through them (src/kernel/mm/mapper.c).
    - Communication (src/kernel/kern).  [Fifo]: the lock-free ring of kfifo.c and the byte ring
      of mwmr.c.  [RemoteFifo]: the ring of remote messages of remote_fifo.c, on the ticket lock of
      [Mcs].
    - Locks.  [Threads]: interleavings of threads on shared memory.  [Lock]: what a lock promises.
      [Spinlock]: spinlock.c and distlock.c.  [Mcs]: mcs_sync.c.
    - Scheduling.  [Sched], [SchedSpec], [SchedSafe], [SchedSys]: scheduler.c, rr-sched_locked.c
      and wait_queue.c.  [RoundRobin]: the turns of the user threads.  [WaitView]: what the
      owner of a wait queue relies on.
    - Synchronisation of threads.  [Sync], [SemSys], [Cond], [RwSys]: semaphore.c, cond_var.c and
      rwlock.c on the scheduler.

    ** How the code is modelled

    A machine word is an integer in [Z] and every operation that may wrap is written with [u32],
    [s32] or the width of the field.  A pointer is the address or the index of the object; a
    shared store is a finite map, an array is a list with bounds ([aget], [aset] below).  A
    function that may fault returns an [option]: [None] is the access to memory that is not
    there, a failed [assert], or a loop that used up its fuel, and the theorems show that it does
    not happen; an error code of the kernel is a value of the result.  Code that runs without
    interference is a function from state to state.  Where interleavings matter each access to
    shared memory is one step of a transition system over the threads: the rings, the spinlocks,
    ticket locks and barriers, the lock bit of page table entries, the installation of page
    tables, and the critical sections of the page cache.  Functions that run under a lock are
    single steps of such systems; [Lock] derives from mutual exclusion that this is right.

    Components meet at interfaces.  The page tables take their memory from a [FrameAllocator], and
    the fault handlers their pages from [PageRefs]; [PmmAlloc] and [CowAlloc] show that the
    physical pages manager meets them.  The object caches and the page cache take pages from a
    [PageSource]; the radix tree, the database of keys and the virtual memory manager take their
    objects from an [ObjectSource], which the object caches implement.  The theorem on critical
    sections is proved for every [Lock] with its [LockLaws].  The semaphores, condition
    variables and reader-writer locks see the scheduler through [WaitView].

    ** What the theorems show

    - Virtual memory as a whole: tasks that map and unmap private anonymous memory, access it, take
      page faults and fork within [call_ok] see the machine that only knows the mapped
      ranges and the contents of their pages
      ([address_spaces_refine]); its parts follow.
    - Isolation of tasks: loads, stores, fork, the release of regions and migration over shared
      pages are those of a machine where every task has its own memory, and no [allowed] action of
      a task changes what another one sees ([tasks_memory_refines], [tasks_isolated]).
    - Physical memory: from boot on, clients of the page allocator never own the same page, no
      page is lost and freed neighbours are merged ([ppm_system_safe], [ppm_init_correct],
      [ppm_do_alloc_correct], [ppm_free_correct], [ppm_alloc_pages_correct]); the same for the
      heap ([heap_system_safe]) and the object caches ([kcm_system_safe], [kcm_alloc_correct]);
      the states, the lock and the dirty list of pages ([page_lock_exclusive],
      [dirty_list_invariant], [sync_all_pages_flushes]).
    - Page tables: mapping changes one translation, also when processors race for a directory
      entry ([pmm_set_page_maps], [pmm_set_huge_maps], [pte_lock_exclusive], [pmm_unlock_wipes]).
    - Regions: list and tree agree, regions are disjoint, the searches agree and attachment
      follows its specification on every branch ([vm_space_well_formed],
      [vm_region_find_correct], [vm_region_attach_correct], [map_unmap_roundtrip]).  The database
      of keys loses no key when threads insert at the same time ([keysdb_inserts_concurrent]).
    - Page cache: the radix tree is a finite map ([radix_tree_refines]); threads that ask for the
      same page get the same one, loaded once, and none is left asleep ([page_cache_coherent]);
      reads and writes that keep in step with the pages move the right bytes and no others, and a
      page that cannot be had ends them with an error ([mapper_request_transfers]).
    - Red-black trees: insertion and removal keep order and balance and touch nothing else
      ([rb_insert_correct], [rb_erase_correct]).
    - Rings: every interleaving is that of a queue, whose tests are exact except for
      [kfifo_isFull] ([kfifo_spsc_correct], [remote_fifo_correct],
      [mwmr_refines_queue]).
    - Locks and barriers: mutual exclusion, service in the order of the tickets, and atomicity of
      critical sections ([spinlock_mutex], [mcs_lock_fifo], [mcs_barrier_correct],
      [critical_sections_atomic]).
    - Scheduler: a thread is at one place only, the counters but [rq_u_runnable] are right, nothing
      faults ([sched_safe]), and user threads that yield take turns as long as no kernel thread is
      ready and none wakes up ([yield_round_robin]).
    - Semaphores, reader-writer locks, condition variables: exclusion, counting and no lost
      wake-up under the interleavings in which a thread is not preempted between [wait_on] and
      [sched_sleep] ([sem_mutex], [sem_counts], [rwlock_correct], [cv_no_lost_wakeup]).
    - Libraries: [memcpy_is_copy], [iprintk_renders], [conversions_fit_buffer],
      [sprintk_atoi_roundtrip].

    Lemmas next to them record where the code does not do what it means to do, with the input or
    the interleaving that shows it: among others [pmm_lock_page_livelock],
    [pmm_huge_frame_truncated], [kfifo_mr_aba], [kfifo_mw_unwritten_slot],
    [ppm_free_reads_past_table], [fixed_overlap_accepted], [oversized_mapping_accepted],
    [aod_discards_page], [fork_skips_migrating], [ex_limit_granted], [ex_last_page_leaks],
    [ex_partial_unmap], [ex_child_cannot_unmap], [delete_last_faults], [delete_garbage_loses],
    [gang_lookup_repeats], [first_load_error_faults], [unaligned_requests], [io_error_keeps_lock],
    [kfifo_isFull_wrong], [wrong_slot_size], [rq_u_runnable_drifts], [preempted_waiter_corrupts],
    [kcm_small_blocks_overflow], [heap_malloc_overflow] and [compute_dec64_wraps].  A theorem whose
    conclusion fails in such a case has a condition that excludes it, and its comment names the
    condition and the lemma: [call_ok] and [allowed] for the tasks, [admissible] for the regions,
    [may_remove] and [removable] for the radix tree and the page cache, [in_step] for its requests,
    [enabled] for the scheduler.

    ** Fuel and bounds

    Loops over a list run with the size of the store of links as fuel, which no ring exceeds;
    loops over a string with the number of mapped bytes; loops of the trees with a fuel above
    twice the logarithm of the number of nodes, the bound on the height; those of the radix tree
    with its height, at most 6; the copies of a request with its size; [ppm_alloc_pages] with
    264, above the largest number of attempts 255 + 8; the loops over orders, pages of a region
    and words of a bitmap are structural on their number of iterations.  An access of a task is
    given two tries, and the theorem shows that the second one succeeds or is refused.  The
    theorems about these functions state that they return.

    ** What is not modelled

    Input and output: drivers, file systems, the virtual file system, regions backed by the page
    cache, block queues.  In the page cache: the migration of shared pages, dirty pages and the
    end of a mapper; its requests from another cluster.  Code that is about
    registers and traps: context switches,
    exceptions, system call entry, signals, creation and migration of threads.  Communication
    between clusters by remote procedure calls, and the load balancing of the DQDT; where an
    allocation may go to another cluster the model has the managers of all clusters, and the
    fault handlers run in one of them.  The calls of the virtual memory manager run one after the
    other; only their parts that have no lock (page table entries, the database of keys) are
    interleaved.
    Configurations that the build does not choose (schedulers without lock, load balancing,
    statistics, traces).  Assembly: atomic instructions are atomic steps of the models, TLB and
    cache operations have no effect in them. *)

From Stdlib Require Export ZArith Lia.
From stdpp Require Export base option list list_numbers numbers gmap.

Open Scope Z_scope.


(** ** Machine integers

    The kernel runs on 32-bit MIPS: [uint_t], [size_t] and pointers are
    unsigned 32-bit values, [sint_t] and [error_t] signed ones. *)

Definition wsize : Z := 2 ^ 32.

Definition u32 (x : Z) : Z := x mod wsize.

Definition s32 (x : Z) : Z :=
  let y := u32 x in if y <? 2 ^ 31 then y else y - wsize.

Definition u8 (x : Z) : Z := x mod 256.

(** Error codes (src/kernel/libk/errno.h). *)
Definition EPERM : Z := 1.
Definition EAGAIN : Z := 11.
Definition ENOMEM : Z := 12.
Definition EEXIST : Z := 17.
Definition EBUSY : Z := 16.
Definition EINVAL : Z := 22.
Definition EDEADLK : Z := 35.

(** Pages of 4 KB (src/kernel/arch/tsar/arch-pmm.h). *)
Definition PMM_PAGE_SHIFT : Z := 12.
Definition PMM_PAGE_SIZE : Z := 0x1000.

(** C truth values: [0] is false, every other value is true. *)
Definition ctrue (x : Z) : bool := negb (x =? 0).

Lemma u32_small x : 0 ≤ x < wsize → u32 x = x.
Proof. intros. by apply Z.mod_small. Qed.

Lemma u32_bound x : 0 ≤ u32 x < wsize.
Proof. by apply Z.mod_pos_bound. Qed.

Lemma u32_add_l x y : u32 (u32 x + y) = u32 (x + y).
Proof. unfold u32. by rewrite Zplus_mod_idemp_l. Qed.

Lemma u8_small x : 0 ≤ x < 256 → u8 x = x.
Proof. intros. by apply Z.mod_small. Qed.

Lemma s32_small x : - 2 ^ 31 ≤ x < 2 ^ 31 → s32 x = x.
Proof.
  intros Hx. unfold s32, u32, wsize.
  destruct (Z.ltb_spec (x mod 2 ^ 32) (2 ^ 31)) as [Hlt|Hge];
    destruct (Z.neg_nonneg_cases x) as [Hn|Hn].
  - rewrite <- (Z.mod_unique x (2 ^ 32) (-1) (x + 2 ^ 32)) in Hlt; lia.
  - rewrite Z.mod_small; lia.
  - rewrite <- (Z.mod_unique x (2 ^ 32) (-1) (x + 2 ^ 32)); lia.
  - rewrite Z.mod_small in Hge; lia.
Qed.

(** ** Memory faults

    An operation that reads or writes through a pointer, an index or a list
    link returns an [option]: [None] is a wild access or a failed [assert].
    The development uses the option monad of stdpp ([x ← m; k]). *)

(** [assert]: a failed assertion ends the operation. *)
Definition cassert (b : bool) : option unit := if b then Some () else None.

(** Arrays of the C code are lists indexed by a [Z]. *)
Definition aget {A} (l : list A) (i : Z) : option A :=
  if 0 <=? i then l !! Z.to_nat i else None.

Definition aset {A} (l : list A) (i : Z) (x : A) : option (list A) :=
  if (0 <=? i) && (i <? Z.of_nat (length l))
  then Some (<[Z.to_nat i := x]> l) else None.

Section arrays.
Context {A : Type}.
Implicit Types (l : list A) (i j : Z) (x : A).

Lemma aget_Some_range l i x : aget l i = Some x → 0 ≤ i < Z.of_nat (length l).
Proof.
  unfold aget. case_match; [|done]. intros ?%lookup_lt_Some. lia.
Qed.

Lemma aget_range l i : 0 ≤ i < Z.of_nat (length l) → is_Some (aget l i).
Proof.
  intros. unfold aget. rewrite (proj2 (Z.leb_le 0 i)) by lia.
  apply lookup_lt_is_Some. lia.
Qed.

Lemma aget_None l i : i < 0 ∨ Z.of_nat (length l) ≤ i → aget l i = None.
Proof.
  unfold aget. intros Hi. case_match; [|done]. apply lookup_ge_None. lia.
Qed.

Lemma aset_Some l i x :
  0 ≤ i < Z.of_nat (length l) → aset l i x = Some (<[Z.to_nat i := x]> l).
Proof.
  intros. unfold aset.
  by rewrite (proj2 (Z.leb_le 0 i)), (proj2 (Z.ltb_lt i _)) by lia.
Qed.

Lemma aset_inv l i x l' :
  aset l i x = Some l' →
  0 ≤ i < Z.of_nat (length l) ∧ l' = <[Z.to_nat i := x]> l.
Proof. unfold aset. case_match; [|done]. intros [= <-]. split; [lia|done]. Qed.

Lemma aset_length l i x l' : aset l i x = Some l' → length l' = length l.
Proof. intros [_ ->]%aset_inv. apply length_insert. Qed.

Lemma aget_aset_eq l i x l' : aset l i x = Some l' → aget l' i = Some x.
Proof.
  intros [Hi ->]%aset_inv. unfold aget. rewrite (proj2 (Z.leb_le 0 i)) by lia.
  apply list_lookup_insert_eq. lia.
Qed.

Lemma aget_aset_ne l i j x l' :
  i ≠ j → aset l i x = Some l' → aget l' j = aget l j.
Proof.
  intros Hij [Hi ->]%aset_inv. unfold aget. case_match; [|done].
  apply list_lookup_insert_ne. lia.
Qed.

Lemma aget_insert_eq l i x :
  0 ≤ i < Z.of_nat (length l) → aget (<[Z.to_nat i := x]> l) i = Some x.
Proof. intros. by eapply aget_aset_eq, aset_Some. Qed.

Lemma aget_insert_ne l i j x :
  0 ≤ i < Z.of_nat (length l) → i ≠ j →
  aget (<[Z.to_nat i := x]> l) j = aget l j.
Proof. intros. eapply aget_aset_ne; [|by apply aset_Some]. done. Qed.
End arrays.

(** ** Sequences *)

Lemma filter_ne_notin (i : Z) (l : list Z) : i ∉ l → filter (λ j, j ≠ i) l = l.
Proof.
  induction l as [|x l IH]; [done|]. intros Hi.
  rewrite filter_cons, decide_True by set_solver. f_equal. apply IH. set_solver.
Qed.

Lemma filter_ne_split (i : Z) (l1 l2 : list Z) :
  i ∉ l1 → i ∉ l2 → filter (λ j, j ≠ i) (l1 ++ i :: l2) = l1 ++ l2.
Proof.
  intros. rewrite filter_app, filter_cons, decide_False by naive_solver.
  by rewrite !filter_ne_notin.
Qed.

(** ** Automation *)

Create HintDb almos.
#[export] Hint Resolve u32_bound : almos.

(** Run the option binds of the goal whose scrutinee is known. *)
Ltac run_option :=
  repeat (match goal with
          | H : ?m = Some _ |- context [mbind _ ?m] => rewrite H; cbn
          | H : ?m = None |- context [mbind _ ?m] => rewrite H; cbn
          end; cbn).

(** Destruct the successful binds of a hypothesis. *)
Ltac inv_option H :=
  repeat (match type of H with
          | mbind _ ?m = Some _ =>
              let E := fresh "E" in
              destruct m eqn:E; cbn in H; [|discriminate H]
          end).

(** ** Finite maps *)

(** A list of different keys is no longer than the map. *)
Lemma nodup_size {A} (q : list Z) (m : gmap Z A) :
  NoDup q → (∀ t, t ∈ q → is_Some (m !! t)) → (length q ≤ size m)%nat.
Proof.
  intros Hn Hq. rewrite <- (size_dom (D := gset Z)), <- (size_list_to_set (C := gset Z) q Hn).
  apply subseteq_size. intros t. rewrite elem_of_list_to_set, elem_of_dom. auto.
Qed.
