(* ===== verification/Clist.v ===== *)
(** * Circular linked lists (src/kernel/libk/list.h)

    Every component of the kernel chains its objects on the intrusive lists of
    [list.h].  This file models the store of all [struct list_entry] cells as
    one finite map from addresses to cells, translates the operations to
    functions on that store, and shows that they implement the operations on
    mathematical sequences: [dlist h r l] says that in the store [h] the ring
    rooted at [r] holds exactly the entries [l], in order.  A link that leaves
    the store ([NULL], or one of the poison values written by [list_unlink]) is
    never followed: following it is a fault ([None]). *)

From S2P Require Import Prelude.

Open Scope Z_scope.

Section clist.
Context {K : Type} `{Countable K}.

(** ** Cells and pointers *)

(** [struct list_entry *]: [NULL], the poison values [LIST_NEXT_DEAD] and
    [LIST_PRED_DEAD], or the address of a cell. *)
Inductive lptr :=
  | Null
  | NextDead
  | PredDead
  | At (k : K).

Record list_entry := Entry { next : lptr; pred : lptr }.

#[global] Instance lptr_eq_dec : EqDecision lptr.
Proof. solve_decision. Defined.

Abbreviation lheap := (gmap K list_entry).

Implicit Types (h : lheap) (k r e a b : K) (l : list K) (p q : lptr).

(** Reads and writes through a pointer. *)
Definition rd_next (h : lheap) (p : lptr) : option lptr :=
  match p with At k => next <$> h !! k | _ => None end.

Definition rd_pred (h : lheap) (p : lptr) : option lptr :=
  match p with At k => pred <$> h !! k | _ => None end.

Definition wr_next (h : lheap) (p v : lptr) : option lheap :=
  match p with
  | At k => c ← h !! k; Some (<[k := Entry v (pred c)]> h)
  | _ => None
  end.

Definition wr_pred (h : lheap) (p v : lptr) : option lheap :=
  match p with
  | At k => c ← h !! k; Some (<[k := Entry (next c) v]> h)
  | _ => None
  end.

(** ** Operations of list.h *)

Definition list_next (h : lheap) (root current : lptr) : option lptr :=
  rn ← rd_next h root;
  if decide (root = rn) then Some Null else
  cn ← rd_next h current;
  if decide (cn = root) then Some Null else Some cn.

Definition list_pred (h : lheap) (root current : lptr) : option lptr :=
  rn ← rd_next h root;
  if decide (root = rn) then Some Null else
  cp ← rd_pred h current;
  if decide (cp = root) then Some Null else Some cp.

Definition list_root_init (h : lheap) (root : lptr) : option lheap :=
  h ← wr_next h root root;
  wr_pred h root root.

Definition list_entry_init (h : lheap) (entry : lptr) : option lheap :=
  h ← wr_next h entry Null;
  wr_pred h entry Null.

Definition list_add (h : lheap) (root entry : lptr) : option lheap :=
  let pred_entry := root in
  next_entry ← rd_next h root;
  h ← wr_next h entry next_entry;
  h ← wr_pred h entry pred_entry;
  h ← wr_next h pred_entry entry;
  wr_pred h next_entry entry.

Definition list_add_first (h : lheap) (root entry : lptr) : option lheap :=
  list_add h root entry.

Definition list_add_last (h : lheap) (root entry : lptr) : option lheap :=
  last ← rd_pred h root;
  list_add h last entry.

Definition list_empty (h : lheap) (root : lptr) : option bool :=
  n ← rd_next h root;
  Some (bool_decide (root = n)).

Definition list_first (h : lheap) (root : lptr) : option lptr := rd_next h root.

Definition list_last (h : lheap) (root : lptr) : option lptr := rd_pred h root.

Definition list_unlink (h : lheap) (entry : lptr) : option lheap :=
  pred_entry ← rd_pred h entry;
  next_entry ← rd_next h entry;
  h ← wr_next h pred_entry next_entry;
  h ← wr_pred h next_entry pred_entry;
  h ← wr_next h entry NextDead;
  wr_pred h entry PredDead.

Definition list_replace (h : lheap) (current new : lptr) : option lheap :=
  pred_entry ← rd_pred h current;
  next_entry ← rd_next h current;
  h ← wr_next h new next_entry;
  h ← wr_pred h new pred_entry;
  h ← wr_next h pred_entry new;
  wr_pred h next_entry new.

(** ** Links *)

Definition next_of h k : option lptr := next <$> h !! k.
Definition pred_of h k : option lptr := pred <$> h !! k.

(** Consecutive cells of [c] are linked both ways. *)
Fixpoint path h (c : list K) : Prop :=
  match c with
  | x :: ((y :: _) as c') =>
      next_of h x = Some (At y) ∧ pred_of h y = Some (At x) ∧ path h c'
  | _ => True
  end.

(** The ring rooted at [r] holds the entries [l]. *)
Definition dlist h r l : Prop := NoDup (r :: l) ∧ path h (r :: l ++ [r]).

Lemma wr_next_At h k v c :
  h !! k = Some c → wr_next h (At k) v = Some (<[k := Entry v (pred c)]> h).
Proof. intros E. simpl. by rewrite E. Qed.

Lemma wr_pred_At h k v c :
  h !! k = Some c → wr_pred h (At k) v = Some (<[k := Entry (next c) v]> h).
Proof. intros E. simpl. by rewrite E. Qed.

Lemma is_Some_next_of h k : is_Some (next_of h k) ↔ is_Some (h !! k).
Proof. unfold next_of. by rewrite fmap_is_Some. Qed.

(** Effect of one write on the links. *)
Lemma wr_next_spec h k v :
  is_Some (h !! k) →
  ∃ h', wr_next h (At k) v = Some h' ∧
    (∀ j, next_of h' j = if decide (j = k) then Some v else next_of h j) ∧
    (∀ j, pred_of h' j = pred_of h j) ∧
    (∀ j, is_Some (h' !! j) ↔ is_Some (h !! j)) ∧
    (∀ j, j ≠ k → h' !! j = h !! j).
Proof.
  intros [c Hc]. exists (<[k := Entry v (pred c)]> h).
  unfold next_of, pred_of. split_and!; intros.
  - by apply wr_next_At.
  - rewrite lookup_insert. repeat case_decide; subst; naive_solver.
  - rewrite lookup_insert. case_decide; subst; [by rewrite Hc|done].
  - rewrite lookup_insert. case_decide; subst; [rewrite Hc|done].
    split; eauto.
  - by rewrite lookup_insert_ne.
Qed.

Lemma wr_pred_spec h k v :
  is_Some (h !! k) →
  ∃ h', wr_pred h (At k) v = Some h' ∧
    (∀ j, pred_of h' j = if decide (j = k) then Some v else pred_of h j) ∧
    (∀ j, next_of h' j = next_of h j) ∧
    (∀ j, is_Some (h' !! j) ↔ is_Some (h !! j)) ∧
    (∀ j, j ≠ k → h' !! j = h !! j).
Proof.
  intros [c Hc]. exists (<[k := Entry (next c) v]> h).
  unfold next_of, pred_of. split_and!; intros.
  - by apply wr_pred_At.
  - rewrite lookup_insert. repeat case_decide; subst; naive_solver.
  - rewrite lookup_insert. case_decide; subst; [by rewrite Hc|done].
  - rewrite lookup_insert. case_decide; subst; [rewrite Hc|done].
    split; eauto.
  - by rewrite lookup_insert_ne.
Qed.

(** ** Paths *)

Lemma path_cons2 h x y c :
  path h (x :: y :: c) ↔
  next_of h x = Some (At y) ∧ pred_of h y = Some (At x) ∧ path h (y :: c).
Proof. done. Qed.

Lemma path_app h c1 x c2 :
  path h (c1 ++ x :: c2) ↔ path h (c1 ++ [x]) ∧ path h (x :: c2).
Proof.
  induction c1 as [|y [|z c1] IH]; simpl.
  - naive_solver.
  - naive_solver.
  - rewrite <- (app_comm_cons c1), <- (app_comm_cons c1) in IH. naive_solver.
Qed.

Lemma path_app2 h c1 x y c2 :
  path h (c1 ++ x :: y :: c2) ↔
  path h (c1 ++ [x]) ∧ next_of h x = Some (At y) ∧ pred_of h y = Some (At x) ∧
  path h (y :: c2).
Proof. by rewrite path_app, path_cons2. Qed.

Lemma elem_mid1 (c c1 c2 : list K) k k' : c = c1 ++ k :: k' :: c2 → k ∈ c.
Proof. intros ->. set_solver. Qed.

Lemma elem_mid2 (c c1 c2 : list K) k k' : c = c1 ++ k' :: k :: c2 → k ∈ c.
Proof. intros ->. set_solver. Qed.

Lemma path_ext h h' c :
  (∀ k c1 k' c2, c = c1 ++ k :: k' :: c2 → next_of h' k = next_of h k) →
  (∀ k c1 k' c2, c = c1 ++ k' :: k :: c2 → pred_of h' k = pred_of h k) →
  path h c → path h' c.
Proof.
  induction c as [|x [|y c] IH]; [done..|]. intros Hn Hp (?&?&?).
  apply path_cons2. split_and!.
  - by rewrite (Hn x [] y c).
  - by rewrite (Hp y [] x c).
  - apply IH; [| |done].
    + intros k c1 k' c2 E. apply (Hn k (x :: c1) k' c2). by rewrite E.
    + intros k c1 k' c2 E. apply (Hp k (x :: c1) k' c2). by rewrite E.
Qed.

(** The links of a path are determined by the cells other than its ends. *)
Lemma path_ext_in h h' c :
  (∀ k, k ∈ c → h' !! k = h !! k) → path h c → path h' c.
Proof.
  intros Heq. unfold next_of, pred_of in *.
  apply path_ext; intros k c1 k' c2 ->; unfold next_of, pred_of;
    rewrite Heq; [done|set_solver|done|set_solver].
Qed.

Lemma path_mem h c k : path h c → (2 ≤ length c)%nat → k ∈ c → is_Some (h !! k).
Proof.
  intros Hp Hl Hk. destruct c as [|x [|y c]]; [simpl in Hl; lia..|clear Hl].
  revert x y Hp Hk. induction c as [|z c IH]; intros x y Hp Hk.
  - destruct Hp as (Hx&Hy&_). apply fmap_Some in Hx as (?&?&_).
    apply fmap_Some in Hy as (?&?&_).
    rewrite !elem_of_cons in Hk. destruct Hk as [->|[->|Hk]]; eauto.
    by apply elem_of_nil in Hk.
  - destruct Hp as (Hx&_&Hp). apply fmap_Some in Hx as (?&?&_).
    apply elem_of_cons in Hk as [->|Hk]; eauto.
Qed.

(** ** Rings *)

Lemma dlist_mem h r l k : dlist h r l → k ∈ r :: l → is_Some (h !! k).
Proof.
  intros [_ Hp] Hk. eapply path_mem; [exact Hp| |set_solver].
  simpl. rewrite length_app. simpl. lia.
Qed.

Lemma dlist_frame h h' r l :
  (∀ k, k ∈ r :: l → h' !! k = h !! k) → dlist h r l → dlist h' r l.
Proof.
  intros Heq [Hnd Hp]. split; [done|].
  eapply path_ext_in; [|exact Hp]. set_solver.
Qed.

Lemma dlist_root_not_in h r l : dlist h r l → r ∉ l.
Proof. intros [Hnd _]. by apply NoDup_cons in Hnd as [? _]. Qed.

Lemma dlist_NoDup h r l : dlist h r l → NoDup l.
Proof. intros [Hnd _]. by apply NoDup_cons in Hnd as [_ ?]. Qed.

(** The cells around a link of the ring occur once on each side. *)
Lemma ring_split_NoDup r l c1 a b c2 :
  NoDup (r :: l) → r :: l ++ [r] = c1 ++ a :: b :: c2 →
  a ∉ c1 ∧ b ∉ c2 ∧
  (∀ k d1 k' d2, c1 ++ [a] = d1 ++ k :: k' :: d2 → k ≠ a) ∧
  (∀ k d1 k' d2, c1 ++ [a] = d1 ++ k' :: k :: d2 → k ≠ b) ∧
  (∀ k d1 k' d2, b :: c2 = d1 ++ k :: k' :: d2 → k ≠ a) ∧
  (∀ k d1 k' d2, b :: c2 = d1 ++ k' :: k :: d2 → k ≠ b).
Proof.
  intros Hnd E.
  assert (Hnd2 : NoDup (l ++ [r])).
  { rewrite NoDup_cons in Hnd. apply NoDup_app. split_and!; [naive_solver| |].
    - intros x Hx ->%list_elem_of_singleton. naive_solver.
    - apply NoDup_singleton. }
  (* everything before [b] is a prefix of [r :: l] *)
  assert (Hpre : ∃ s, r :: l = c1 ++ a :: s ∧ b :: c2 = s ++ [r]).
  { destruct (exists_last (l := b :: c2)) as (s&z&Es); [done|].
    exists s. assert (r :: l ++ [r] = (c1 ++ a :: s) ++ [z]) as E2.
    { rewrite E, Es. by rewrite <- app_assoc. }
    change (r :: l ++ [r]) with ((r :: l) ++ [r]) in E2.
    apply app_inj_tail in E2 as [-> ->]. by rewrite Es. }
  destruct Hpre as (s&Es&Es2).
  (* everything after [a] is a suffix of [l ++ [r]] *)
  assert (Hsuf : ∃ s', c1 ++ [a] = r :: s' ∧ l ++ [r] = s' ++ b :: c2).
  { destruct c1 as [|z c1]; injection E as -> E.
    - exists []. by rewrite E.
    - exists (c1 ++ [a]). by rewrite E, <- app_assoc. }
  destruct Hsuf as (s'&Es'&Es'2).
  rewrite Es in Hnd. rewrite Es'2 in Hnd2.
  rewrite NoDup_app, NoDup_cons in Hnd. rewrite NoDup_app, NoDup_cons in Hnd2.
  destruct Hnd as (Hc1&Hdis&Has&Hs). destruct Hnd2 as (Hs'&Hdis'&Hbc&Hc2).
  split_and!; [set_solver|set_solver| | | |].
  - intros k d1 k' d2 Ed ->.
    destruct (exists_last (l := k' :: d2)) as (t&z&Et); [done|].
    rewrite Et in Ed. rewrite app_comm_cons, app_assoc in Ed.
    apply app_inj_tail in Ed as [-> ->]. set_solver.
  - intros k d1 k' d2 Ed ->. rewrite Es' in Ed.
    destruct d1 as [|z d1]; simplify_eq/=; set_solver.
  - intros k d1 k' d2 Ed ->.
    destruct (exists_last (l := k' :: d2)) as (t&z&Et); [done|].
    rewrite Et, app_comm_cons, app_assoc, Es2 in Ed.
    apply app_inj_tail in Ed as [-> ->]. set_solver.
  - intros k d1 k' d2 Ed ->.
    destruct d1 as [|z d1]; simplify_eq/=; set_solver.
Qed.

(** ** Effect of the operations on the links *)

(** The links determine the entries. *)
Lemma path_unique h r l l' x :
  r ∉ l → r ∉ l' → path h (x :: l ++ [r]) → path h (x :: l' ++ [r]) → l = l'.
Proof.
  revert x l'. induction l as [|y l IH]; intros x l' Hl Hl' Hp Hp'; destruct l' as [|y' l'];
    [done|..]; simpl in Hp, Hp'; destruct Hp as (N&_&Hp), Hp' as (N'&_&Hp').
  - simplify_eq. set_solver.
  - simplify_eq. set_solver.
  - assert (y = y') as -> by congruence. f_equal. apply (IH y'); [set_solver..|done|done].
Qed.

Lemma dlist_unique h r l l' : dlist h r l → dlist h r l' → l = l'.
Proof.
  intros [N P] [N' P']. apply NoDup_cons in N as [N _], N' as [N' _].
  by eapply path_unique.
Qed.

(** [h'] has the cells of [h] and differs from it at most on [ks]. *)
Definition frame h h' (ks : list K) : Prop :=
  (∀ k, is_Some (h' !! k) ↔ is_Some (h !! k)) ∧
  (∀ k, k ∉ ks → h' !! k = h !! k).

Lemma frame_refl h ks : frame h h ks.
Proof. done. Qed.

Lemma frame_trans h1 h2 h3 ks :
  frame h1 h2 ks → frame h2 h3 ks → frame h1 h3 ks.
Proof.
  intros [D1 F1] [D2 F2]. split; intros.
  - by rewrite D2, D1.
  - by rewrite F2, F1.
Qed.

Lemma frame_mono h h' ks ks' : ks ⊆ ks' → frame h h' ks → frame h h' ks'.
Proof. intros Hs [D F]. split; [done|]. intros k Hk. apply F. set_solver. Qed.

Lemma frame_dlist h h' ks r l :
  frame h h' ks → (∀ k, k ∈ ks → k ∉ r :: l) → dlist h r l → dlist h' r l.
Proof.
  intros [_ F] Hdis. apply dlist_frame. intros k Hk. apply F. set_solver.
Qed.

Lemma list_root_init_links h r :
  is_Some (h !! r) →
  ∃ h', list_root_init h (At r) = Some h' ∧
    next_of h' r = Some (At r) ∧ pred_of h' r = Some (At r) ∧ frame h h' [r].
Proof.
  intros Hr. unfold list_root_init.
  destruct (wr_next_spec h r (At r) Hr) as (h1&->&N1&P1&D1&F1). cbn [mbind option_bind].
  destruct (wr_pred_spec h1 r (At r)) as (h2&->&P2&N2&D2&F2); [by apply D1|].
  exists h2. split_and!; [done| | |split].
  - rewrite N2, N1. by rewrite decide_True.
  - rewrite P2. by rewrite decide_True.
  - intros. by rewrite D2, D1.
  - intros k Hk. rewrite F2, F1; set_solver.
Qed.

Lemma list_add_links h a b e :
  next_of h a = Some (At b) → is_Some (h !! b) → is_Some (h !! e) →
  e ≠ a → e ≠ b →
  ∃ h', list_add h (At a) (At e) = Some h' ∧
    (∀ j, next_of h' j = if decide (j = a) then Some (At e)
                         else if decide (j = e) then Some (At b) else next_of h j) ∧
    (∀ j, pred_of h' j = if decide (j = b) then Some (At e)
                         else if decide (j = e) then Some (At a) else pred_of h j) ∧
    frame h h' [e; a; b].
Proof.
  intros Ha Hb He Hea Heb. unfold list_add.
  change (rd_next h (At a)) with (next_of h a). rewrite Ha. cbn [mbind option_bind].
  assert (is_Some (h !! a)) by (apply is_Some_next_of; eauto).
  destruct (wr_next_spec h e (At b) He) as (h1&->&N1&P1&D1&F1). cbn [mbind option_bind].
  destruct (wr_pred_spec h1 e (At a)) as (h2&->&P2&N2&D2&F2); [by apply D1|].
  cbn [mbind option_bind].
  destruct (wr_next_spec h2 a (At e)) as (h3&->&N3&P3&D3&F3); [by apply D2, D1|].
  cbn [mbind option_bind].
  destruct (wr_pred_spec h3 b (At e)) as (h4&->&P4&N4&D4&F4);
    [by apply D3, D2, D1|].
  exists h4. split_and!; [done| | |split].
  - intros j. rewrite N4, N3, N2, N1. repeat case_decide; congruence.
  - intros j. rewrite P4, P3, P2, P1. repeat case_decide; congruence.
  - intros. by rewrite D4, D3, D2, D1.
  - intros k Hk. rewrite F4, F3, F2, F1; set_solver.
Qed.

Lemma list_unlink_links h a e b :
  pred_of h e = Some (At a) → next_of h e = Some (At b) →
  is_Some (h !! a) → is_Some (h !! b) → e ≠ a → e ≠ b →
  ∃ h', list_unlink h (At e) = Some h' ∧
    (∀ j, next_of h' j = if decide (j = e) then Some NextDead
                         else if decide (j = a) then Some (At b) else next_of h j) ∧
    (∀ j, pred_of h' j = if decide (j = e) then Some PredDead
                         else if decide (j = b) then Some (At a) else pred_of h j) ∧
    frame h h' [e; a; b].
Proof.
  intros Ha Hb Hea Heb ??. unfold list_unlink.
  change (rd_pred h (At e)) with (pred_of h e). rewrite Ha. cbn [mbind option_bind].
  change (rd_next h (At e)) with (next_of h e). rewrite Hb. cbn [mbind option_bind].
  assert (is_Some (h !! e)) by (apply is_Some_next_of; eauto).
  destruct (wr_next_spec h a (At b)) as (h1&->&N1&P1&D1&F1); [done|].
  cbn [mbind option_bind].
  destruct (wr_pred_spec h1 b (At a)) as (h2&->&P2&N2&D2&F2); [by apply D1|].
  cbn [mbind option_bind].
  destruct (wr_next_spec h2 e NextDead) as (h3&->&N3&P3&D3&F3); [by apply D2, D1|].
  cbn [mbind option_bind].
  destruct (wr_pred_spec h3 e PredDead) as (h4&->&P4&N4&D4&F4);
    [by apply D3, D2, D1|].
  exists h4. split_and!; [done| | |split].
  - intros j. rewrite N4, N3, N2, N1. repeat case_decide; congruence.
  - intros j. rewrite P4, P3, P2, P1. repeat case_decide; congruence.
  - intros. by rewrite D4, D3, D2, D1.
  - intros k Hk. rewrite F4, F3, F2, F1; set_solver.
Qed.

(** ** The operations on rings *)

Lemma list_root_init_spec h r :
  is_Some (h !! r) →
  ∃ h', list_root_init h (At r) = Some h' ∧ dlist h' r [] ∧ frame h h' [r].
Proof.
  intros Hr. destruct (list_root_init_links h r Hr) as (h'&E&Hn&Hp&F).
  exists h'. split_and!; [done| |done]. split; [apply NoDup_singleton|].
  by repeat split.
Qed.

(** Inserting [e] across any link of the ring. *)
Lemma ring_insert h r l c1 a b c2 e :
  dlist h r l → (r :: l ++ [r]) = c1 ++ a :: b :: c2 →
  e ∉ r :: l → is_Some (h !! e) →
  ∃ h', list_add h (At a) (At e) = Some h' ∧
        path h' (c1 ++ a :: e :: b :: c2) ∧ frame h h' [e; a; b].
Proof.
  intros Hd E He Hhe. pose proof Hd as [Hnd Hp].
  assert (Hin : ∀ k, k ∈ c1 ++ a :: b :: c2 → k ∈ r :: l).
  { intros k. rewrite <- E. set_solver. }
  assert (e ≠ a ∧ e ≠ b ∧ e ∉ c1 ∧ e ∉ c2) as (?&?&?&?).
  { split_and!; intros Hx; apply He; subst; apply Hin; set_solver. }
  rewrite E in Hp. apply path_app2 in Hp as (Hp1&Hab&Hba&Hp2).
  destruct (ring_split_NoDup _ _ _ _ _ _ Hnd E) as (_&_&N1&P1&N2&P2).
  destruct (list_add_links h a b e) as (h'&Eh&HN&HP&F); [done|..]; try done.
  { eapply dlist_mem; [done|]. apply Hin. set_solver. }
  assert (e ∉ c1 ++ [a]) by (rewrite elem_of_app, list_elem_of_singleton; naive_solver).
  assert (e ∉ b :: c2) by (rewrite elem_of_cons; naive_solver).
  exists h'. split_and!; [done| |done].
  apply path_app2. split_and!.
  - eapply path_ext; [..|exact Hp1]; intros k d1 k' d2 Ed.
    + rewrite HN. rewrite decide_False by eauto. rewrite decide_False; [done|].
      intros ->. by apply elem_mid1 in Ed.
    + rewrite HP. rewrite decide_False by eauto. rewrite decide_False; [done|].
      intros ->. by apply elem_mid2 in Ed.
  - rewrite HN. by rewrite decide_True.
  - rewrite HP. rewrite decide_False by done. by rewrite decide_True.
  - apply path_cons2. split_and!.
    + rewrite HN. rewrite decide_False by done. by rewrite decide_True.
    + rewrite HP. by rewrite decide_True.
    + eapply path_ext; [..|exact Hp2]; intros k d1 k' d2 Ed.
      * rewrite HN. rewrite decide_False by eauto. rewrite decide_False; [done|].
        intros ->. by apply elem_mid1 in Ed.
      * rewrite HP. rewrite decide_False by eauto. rewrite decide_False; [done|].
        intros ->. by apply elem_mid2 in Ed.
Qed.

Lemma list_add_spec h r l e :
  dlist h r l → e ∉ r :: l → is_Some (h !! e) →
  ∃ h', list_add h (At r) (At e) = Some h' ∧ dlist h' r (e :: l) ∧
        frame h h' (e :: r :: l).
Proof.
  intros Hd He Hhe.
  destruct (l ++ [r]) as [|b c2] eqn:E; [by destruct l|].
  destruct (ring_insert h r l [] r b c2 e) as (h'&Eh&Hp&F); try done.
  { by rewrite E. }
  assert (b ∈ r :: l).
  { assert (b ∈ l ++ [r]) by (rewrite E; set_solver). set_solver. }
  exists h'. split_and!; [done| |eapply frame_mono; [|done]; set_solver].
  split.
  - destruct Hd as [Hnd _]. rewrite NoDup_cons in Hnd |- *.
    rewrite NoDup_cons. set_solver.
  - simpl. rewrite E. exact Hp.
Qed.

Lemma list_add_last_spec h r l e :
  dlist h r l → e ∉ r :: l → is_Some (h !! e) →
  ∃ h', list_add_last h (At r) (At e) = Some h' ∧ dlist h' r (l ++ [e]) ∧
        frame h h' (e :: r :: l).
Proof.
  intros Hd He Hhe.
  destruct (exists_last (l := r :: l)) as (c1&a&E); [done|].
  assert (Er : (r :: l ++ [r]) = c1 ++ a :: r :: []).
  { change (r :: l ++ [r]) with ((r :: l) ++ [r]). by rewrite E, <- app_assoc. }
  destruct (ring_insert h r l c1 a r [] e) as (h'&Eh&Hp&F); try done.
  assert (a ∈ r :: l) by (rewrite E; set_solver).
  assert (Ha : rd_pred h (At r) = Some (At a)).
  { destruct Hd as [_ Hpa]. rewrite Er, path_app2 in Hpa. naive_solver. }
  exists h'. unfold list_add_last. rewrite Ha. cbn [mbind option_bind].
  split_and!; [done| |eapply frame_mono; [|done]; set_solver].
  split.
  - destruct Hd as [Hnd _]. rewrite NoDup_cons in Hnd |- *.
    rewrite NoDup_app. split_and!; [set_solver|naive_solver|set_solver|].
    apply NoDup_singleton.
  - replace (r :: (l ++ [e]) ++ [r]) with (c1 ++ [a; e; r]); [exact Hp|].
    rewrite <- app_assoc. change (r :: l ++ [e] ++ [r]) with ((r :: l) ++ [e; r]).
    by rewrite E, <- app_assoc.
Qed.

Lemma list_unlink_spec h r l1 e l2 :
  dlist h r (l1 ++ e :: l2) →
  ∃ h', list_unlink h (At e) = Some h' ∧ dlist h' r (l1 ++ l2) ∧
        frame h h' (r :: l1 ++ e :: l2).
Proof.
  intros Hd. pose proof Hd as [Hnd Hp].
  destruct (exists_last (l := r :: l1)) as (c1&a&E1); [done|].
  destruct (l2 ++ [r]) as [|b c2] eqn:E2; [by destruct l2|].
  assert (Er : (r :: (l1 ++ e :: l2) ++ [r]) = c1 ++ a :: e :: b :: c2).
  { rewrite <- app_assoc. simpl. rewrite E2.
    change (r :: l1 ++ e :: b :: c2) with ((r :: l1) ++ e :: b :: c2).
    by rewrite E1, <- app_assoc. }
  rewrite Er in Hp. rewrite path_app2, path_cons2 in Hp.
  destruct Hp as (Hp1&Hae&Hea&Heb&Hbe&Hp2).
  pose proof (ring_split_NoDup _ _ _ _ _ _ Hnd Er) as (Nc1&Nec&N1&P1&N2&P2).
  assert (Er' : (r :: (l1 ++ e :: l2) ++ [r]) = (c1 ++ [a]) ++ e :: b :: c2).
  { by rewrite Er, <- app_assoc. }
  pose proof (ring_split_NoDup _ _ _ _ _ _ Hnd Er') as (Nc1'&_&N1'&P1'&N2'&P2').
  assert (a ∈ r :: l1) by (rewrite E1; set_solver).
  assert (b ∈ r :: l2).
  { assert (b ∈ l2 ++ [r]) by (rewrite E2; set_solver). set_solver. }
  destruct (list_unlink_links h a e b) as (h'&Eh&HN&HP&F); [done|done| | | | |].
  { eapply dlist_mem; [done|]. set_solver. }
  { eapply dlist_mem; [done|]. set_solver. }
  { set_solver. }
  { set_solver. }
  exists h'. split_and!; [done| |eapply frame_mono; [|done]; set_solver].
  split.
  { rewrite NoDup_cons, NoDup_app, NoDup_cons in Hnd.
    rewrite NoDup_cons, NoDup_app. destruct Hnd as (?&?&?&?&?).
    split_and!; [set_solver|done|set_solver|done]. }
  replace (r :: (l1 ++ l2) ++ [r]) with (c1 ++ a :: b :: c2).
  2:{ rewrite <- app_assoc, E2.
      change (r :: l1 ++ b :: c2) with ((r :: l1) ++ b :: c2).
      by rewrite E1, <- app_assoc. }
  assert (a ≠ e) by (intros ->; set_solver).
  assert (b ≠ e) by (intros ->; set_solver).
  apply path_app2. split_and!.
  - eapply path_ext; [..|exact Hp1]; intros k d1 k' d2 Ed.
    + rewrite HN, decide_False; [by rewrite decide_False by eauto|].
      intros ->. by apply elem_mid1 in Ed.
    + rewrite HP, decide_False; [rewrite decide_False; [done|]|].
      * apply (P1' k d1 k' (d2 ++ [e])). by rewrite Ed, <- app_assoc.
      * intros ->. by apply elem_mid2 in Ed.
  - rewrite HN, decide_False by done. by rewrite decide_True.
  - rewrite HP, decide_False by done. by rewrite decide_True.
  - eapply path_ext; [..|exact Hp2]; intros k d1 k' d2 Ed.
    + rewrite HN, decide_False, decide_False; [done| |].
      * apply (N2 k (e :: d1) k' d2). by rewrite Ed.
      * intros ->. by apply elem_mid1 in Ed.
    + rewrite HP, decide_False; [by rewrite decide_False by eauto|].
      intros ->. by apply elem_mid2 in Ed.
Qed.

Lemma list_replace_links h a e b n :
  pred_of h e = Some (At a) → next_of h e = Some (At b) →
  is_Some (h !! a) → is_Some (h !! b) → is_Some (h !! n) → n ≠ a → n ≠ b →
  ∃ h', list_replace h (At e) (At n) = Some h' ∧
    (∀ j, next_of h' j = if decide (j = a) then Some (At n)
                         else if decide (j = n) then Some (At b) else next_of h j) ∧
    (∀ j, pred_of h' j = if decide (j = b) then Some (At n)
                         else if decide (j = n) then Some (At a) else pred_of h j) ∧
    frame h h' [n; a; b].
Proof.
  intros Ha Hb ?????. unfold list_replace.
  change (rd_pred h (At e)) with (pred_of h e). rewrite Ha. cbn [mbind option_bind].
  change (rd_next h (At e)) with (next_of h e). rewrite Hb. cbn [mbind option_bind].
  destruct (wr_next_spec h n (At b)) as (h1&->&N1&P1&D1&F1); [done|].
  cbn [mbind option_bind].
  destruct (wr_pred_spec h1 n (At a)) as (h2&->&P2&N2&D2&F2); [by apply D1|].
  cbn [mbind option_bind].
  destruct (wr_next_spec h2 a (At n)) as (h3&->&N3&P3&D3&F3); [by apply D2, D1|].
  cbn [mbind option_bind].
  destruct (wr_pred_spec h3 b (At n)) as (h4&->&P4&N4&D4&F4);
    [by apply D3, D2, D1|].
  exists h4. split_and!; [done| | |split].
  - intros j. rewrite N4, N3, N2, N1. repeat case_decide; congruence.
  - intros j. rewrite P4, P3, P2, P1. repeat case_decide; congruence.
  - intros. by rewrite D4, D3, D2, D1.
  - intros k Hk. rewrite F4, F3, F2, F1; set_solver.
Qed.

(** Moving a whole list to a fresh root: [list_replace] of a non-empty root, as
    [wait_queue_init2] uses it. *)
Lemma list_replace_root h r x l n :
  dlist h r (x :: l) → n ∉ r :: x :: l → is_Some (h !! n) →
  ∃ h', list_replace h (At r) (At n) = Some h' ∧ dlist h' n (x :: l).
Proof.
  intros Hd Hn Hhn. pose proof Hd as [Hnd Hp].
  destruct (exists_last (l := x :: l)) as (c1&a&E); [done|].
  assert (Er : (r :: (x :: l) ++ [r]) = (r :: c1) ++ a :: r :: []).
  { rewrite E, <- app_assoc. done. }
  assert (a ∈ x :: l) by (rewrite E; set_solver).
  assert (Ha : pred_of h r = Some (At a)).
  { rewrite Er, path_app2 in Hp. naive_solver. }
  change (r :: (x :: l) ++ [r]) with (r :: x :: (l ++ [r])) in Hp.
  apply path_cons2 in Hp as (Hx&Hrx&Hp).
  destruct (list_replace_links h a r x n) as (h'&Eh&HN&HP&_); [done|done|..].
  { eapply dlist_mem; [done|set_solver]. }
  { eapply dlist_mem; [done|set_solver]. }
  { done. } { set_solver. } { set_solver. }
  exists h'. split; [done|]. rewrite !NoDup_cons in Hnd.
  destruct Hnd as (Hr&Hxl&Hl). split.
  { rewrite !NoDup_cons. set_solver. }
  assert (Hp1 : path h' (x :: l)).
  { change (x :: l ++ [r]) with ((x :: l) ++ [r]) in Hp. rewrite E in Hp.
    rewrite <- app_assoc in Hp. apply path_app2 in Hp as [Hp _].
    rewrite <- E in Hp. eapply path_ext; [..|exact Hp]; intros k d1 k' d2 Ed.
    - rewrite HN. rewrite decide_False; [rewrite decide_False; [done|]|].
      + intros ->. apply elem_mid1 in Ed. set_solver.
      + intros ->. assert (Hnd : NoDup (x :: l)) by (by rewrite NoDup_cons).
        assert (Ea : c1 ++ [a] = d1 ++ a :: k' :: d2) by (by rewrite <- E, Ed).
        destruct (exists_last (l := k' :: d2)) as (t&z&Et); [done|].
        rewrite Et, app_comm_cons, app_assoc in Ea.
        apply app_inj_tail in Ea as [-> ->]. rewrite E in Hnd.
        rewrite NoDup_app in Hnd. set_solver.
    - rewrite HP. rewrite decide_False; [rewrite decide_False; [done|]|].
      + intros ->. apply elem_mid2 in Ed. set_solver.
      + intros ->. destruct d1 as [|z d1]; simplify_eq/=; set_solver. }
  change (n :: (x :: l) ++ [n]) with (n :: x :: (l ++ [n])).
  apply path_cons2. split_and!.
  - rewrite HN, decide_False by set_solver. by rewrite decide_True.
  - rewrite HP. by rewrite decide_True.
  - change (x :: l ++ [n]) with ((x :: l) ++ [n]). rewrite E, <- app_assoc.
    apply path_app2. split_and!; [by rewrite <- E| | |done].
    + rewrite HN. by rewrite decide_True.
    + rewrite HP, decide_False by set_solver. by rewrite decide_True.
Qed.

(** ** Reading a ring *)

Lemma dlist_next_root h r l :
  dlist h r l → rd_next h (At r) = Some (At (default r (head l))).
Proof. intros [_ Hp]. destruct l as [|x l]; simpl in Hp; naive_solver. Qed.

Lemma dlist_next_mem h r l1 e l2 :
  dlist h r (l1 ++ e :: l2) → rd_next h (At e) = Some (At (default r (head l2))).
Proof.
  intros [_ Hp]. destruct l2 as [|x l2].
  - replace (r :: (l1 ++ [e]) ++ [r]) with ((r :: l1) ++ e :: r :: []) in Hp
      by (simpl; by rewrite <- app_assoc).
    apply path_app2 in Hp. naive_solver.
  - replace (r :: (l1 ++ e :: x :: l2) ++ [r])
      with ((r :: l1) ++ e :: x :: (l2 ++ [r])) in Hp
      by (simpl; by rewrite <- app_assoc).
    apply path_app2 in Hp. naive_solver.
Qed.

Lemma dlist_pred_root h r l :
  dlist h r l → rd_pred h (At r) = Some (At (default r (last l))).
Proof.
  intros [_ Hp]. destruct l as [|x l _] using rev_ind; [simpl in Hp; naive_solver|].
  rewrite last_snoc.
  replace (r :: (l ++ [x]) ++ [r]) with ((r :: l) ++ x :: r :: []) in Hp
    by (simpl; by rewrite <- app_assoc).
  apply path_app2 in Hp. naive_solver.
Qed.

Lemma list_empty_spec h r l :
  dlist h r l → list_empty h (At r) = Some (bool_decide (l = [])).
Proof.
  intros Hd. unfold list_empty. rewrite (dlist_next_root _ _ _ Hd). simpl. f_equal.
  apply bool_decide_ext. destruct l as [|x l]; simpl; [done|].
  split; [|done]. intros [= ->]. apply dlist_root_not_in in Hd. set_solver.
Qed.

Lemma list_first_spec h r x l :
  dlist h r (x :: l) → list_first h (At r) = Some (At x).
Proof. apply dlist_next_root. Qed.

Lemma list_last_spec h r l x :
  dlist h r (l ++ [x]) → list_last h (At r) = Some (At x).
Proof. intros Hd. unfold list_last. by rewrite (dlist_pred_root _ _ _ Hd), last_snoc. Qed.

Lemma list_next_spec h r l1 e l2 :
  dlist h r (l1 ++ e :: l2) →
  list_next h (At r) (At e) =
    Some (match l2 with [] => Null | x :: _ => At x end).
Proof.
  intros Hd. unfold list_next. rewrite (dlist_next_root _ _ _ Hd). cbn [mbind option_bind].
  pose proof (dlist_root_not_in _ _ _ Hd) as Hr.
  rewrite decide_False.
  2:{ intros [= Heq]. destruct l1; simpl in Heq; set_solver. }
  rewrite (dlist_next_mem _ _ _ _ _ Hd). cbn [mbind option_bind].
  destruct l2 as [|x l2]; simpl; [by rewrite decide_True|].
  rewrite decide_False; [done|]. intros [= ->]. set_solver.
Qed.

(** ** Traversal: [list_foreach]

    The macro saves the successor of the current entry before the body runs, so
    that the body may unlink the entry.  The body returns the new state and
    whether it leaves the loop. *)
Section foreach.
Context {St : Type} (hp : St → lheap) (body : K → St → option (St * bool)).

Fixpoint foreach_loop (fuel : nat) (root iter ptr : lptr) (st : St) : option St :=
  match fuel with
  | O => None
  | S fuel =>
      if decide (iter = root) then Some st else
      match iter with
      | At k =>
          '(st, leave) ← body k st;
          if (leave : bool) then Some st else
          ptr' ← rd_next (hp st) ptr;
          foreach_loop fuel root ptr ptr' st
      | _ => None
      end
  end.

Definition list_foreach (fuel : nat) (root : lptr) (st : St) : option St :=
  iter ← rd_next (hp st) root;
  ptr ← rd_next (hp st) iter;
  foreach_loop fuel root iter ptr st.

(** More fuel does not change a result. *)
Lemma foreach_loop_fuel n m root iter ptr st st' :
  foreach_loop n root iter ptr st = Some st' → (n ≤ m)%nat →
  foreach_loop m root iter ptr st = Some st'.
Proof.
  revert m iter ptr st. induction n as [|n IH]; intros [|m] iter ptr st E Hm; try done; try lia.
  cbn [foreach_loop] in *. destruct (decide (iter = root)); [done|]. destruct iter; try done.
  destruct (body k st) as [[st1 []]|]; try done. cbn [mbind option_bind] in *.
  destruct (rd_next (hp st1) ptr); [|done]. apply IH; [done|lia].
Qed.

Lemma list_foreach_fuel n m root st st' :
  list_foreach n root st = Some st' → (n ≤ m)%nat → list_foreach m root st = Some st'.
Proof.
  unfold list_foreach. destruct (rd_next (hp st) root) as [i|]; [|done]. cbn [mbind option_bind].
  destruct (rd_next (hp st) i); [|done]. apply foreach_loop_fuel.
Qed.

(** A body that consumes the ring entry by entry empties it. *)
Lemma list_foreach_consume r (I : list K → St → Prop) l st :
  (∀ l st, I l st → dlist (hp st) r l) →
  (∀ k l st, I (k :: l) st → ∃ st', body k st = Some (st', false) ∧ I l st') →
  I l st →
  ∃ st', list_foreach (S (length l)) (At r) st = Some st' ∧ I [] st'.
Proof.
  intros Hd Hb HI. unfold list_foreach.
  rewrite (dlist_next_root _ _ _ (Hd _ _ HI)). cbn [mbind option_bind].
  destruct l as [|x l].
  { change (default r (head [])) with r. rewrite (dlist_next_root _ _ _ (Hd _ _ HI)). cbn [mbind option_bind foreach_loop].
    rewrite decide_True by done. eauto. }
  change (default r (head (x :: l))) with x.
  rewrite (dlist_next_mem _ _ [] x l (Hd _ _ HI)). cbn [mbind option_bind].
  revert x st HI. induction l as [|y l IH]; intros x st HI;
    cbn [foreach_loop length]; (rewrite decide_False;
      [|intros [= ->]; pose proof (dlist_root_not_in _ _ _ (Hd _ _ HI)); set_solver]);
    destruct (Hb _ _ _ HI) as (st'&->&HI'); cbn [mbind option_bind].
  - change (default r (head [])) with r.
    rewrite (dlist_next_root _ _ _ (Hd _ _ HI')). cbn [mbind option_bind].
    rewrite decide_True by done. eauto.
  - change (default r (head (y :: l))) with y.
    rewrite (dlist_next_mem _ _ [] y l (Hd _ _ HI')).
    cbn [mbind option_bind]. by apply IH.
Qed.

(** A body that consumes the ring entry by entry until it leaves the loop. *)
Lemma list_foreach_while r (I : list K → St → Prop) l st :
  (∀ l st, I l st → dlist (hp st) r l) →
  (∀ k l st, I (k :: l) st → ∃ st' (b : bool), body k st = Some (st', b) ∧
                                              if b then I (k :: l) st' else I l st') →
  I l st →
  ∃ st' l', list_foreach (S (length l)) (At r) st = Some st' ∧ I l' st' ∧
    (l' = [] ∨ ∃ k l'' st0, l' = k :: l'' ∧ body k st0 = Some (st', true)).
Proof.
  intros Hd Hb HI. unfold list_foreach.
  rewrite (dlist_next_root _ _ _ (Hd _ _ HI)). cbn [mbind option_bind].
  destruct l as [|x l].
  { change (default r (head [])) with r. rewrite (dlist_next_root _ _ _ (Hd _ _ HI)).
    cbn [mbind option_bind foreach_loop]. rewrite decide_True by done. exists st, []. auto. }
  change (default r (head (x :: l))) with x.
  rewrite (dlist_next_mem _ _ [] x l (Hd _ _ HI)). cbn [mbind option_bind].
  revert x st HI. induction l as [|y l IH]; intros x st HI;
    cbn [foreach_loop length]; (rewrite decide_False;
      [|intros [= ->]; pose proof (dlist_root_not_in _ _ _ (Hd _ _ HI)); set_solver]);
    destruct (Hb _ _ _ HI) as (st'&[]&E&HI'); rewrite E; cbn [mbind option_bind].
  - exists st', [x]. split_and!; [done..|]. right. by exists x, [], st.
  - change (default r (head [])) with r.
    rewrite (dlist_next_root _ _ _ (Hd _ _ HI')). cbn [mbind option_bind].
    rewrite decide_True by done. exists st', []. auto.
  - exists st', (x :: y :: l). split_and!; [done..|]. right. by exists x, (y :: l), st.
  - change (default r (head (y :: l))) with y.
    rewrite (dlist_next_mem _ _ [] y l (Hd _ _ HI')).
    cbn [mbind option_bind]. by apply IH.
Qed.

Lemma dlist_next_at h r l1 l2 : dlist h r (l1 ++ l2) → is_Some (rd_next h (At (default r (head l2)))).
Proof.
  intros Hd. destruct l2 as [|y l2].
  - change (default r (head [])) with r. rewrite (dlist_next_root _ _ _ Hd). eauto.
  - change (default r (head (y :: l2))) with y. rewrite (dlist_next_mem _ _ _ _ _ Hd). eauto.
Qed.

(** A body that leaves the links alone visits the entries in order; [J] holds if it left the
    loop. *)
Lemma list_foreach_visit r h (I : list K → St → Prop) (J : St → Prop) l st :
  dlist h r l → hp st = h → I [] st →
  (∀ l1 k l2 st, l = l1 ++ k :: l2 → hp st = h → I l1 st →
     ∃ st' (b : bool), body k st = Some (st', b) ∧ hp st' = h ∧ if b then J st' else I (l1 ++ [k]) st') →
  ∃ st', list_foreach (S (length l)) (At r) st = Some st' ∧ (I l st' ∨ J st').
Proof.
  intros Hd Eh HI Hb. unfold list_foreach. rewrite Eh, (dlist_next_root _ _ _ Hd). cbn [mbind option_bind].
  assert (Hgen : ∀ l2 l1 st, l = l1 ++ l2 → hp st = h → I l1 st →
    ∃ st', foreach_loop (S (length l2)) (At r) (At (default r (head l2)))
             (default Null (rd_next h (At (default r (head l2))))) st = Some st' ∧ (I l st' ∨ J st')).
  { clear st Eh HI. intros l2. induction l2 as [|x l2 IH]; intros l1 st E Eh HI.
    { cbn [foreach_loop length]. rewrite decide_True by done. rewrite app_nil_r in E. subst. eauto. }
    change (default r (head (x :: l2))) with x. pose proof Hd as Hdx. rewrite E in Hdx. rewrite (dlist_next_mem _ _ _ _ _ Hdx).
    change (default Null (Some (At (default r (head l2))))) with (At (default r (head l2))). cbn [foreach_loop length].
    rewrite decide_False by (intros [= ->]; apply dlist_root_not_in in Hdx; set_solver).
    destruct (Hb l1 x l2 st E Eh HI) as (st' & b & -> & Eh' & Hst). cbn [mbind option_bind]. destruct b; [by eauto|].
    rewrite Eh'. assert (l = (l1 ++ [x]) ++ l2) as E' by (by rewrite <- app_assoc).
    pose proof Hd as Hd2. rewrite E' in Hd2. destruct (dlist_next_at _ _ _ _ Hd2) as [q Eq].
    destruct (IH (l1 ++ [x]) st' E' Eh' Hst) as (st'' & E2 & H2). rewrite Eq in E2 |- *. cbn [mbind option_bind]. eauto. }
  destruct (dlist_next_at h r [] l Hd) as [q Eq]. destruct (Hgen l [] st eq_refl Eh HI) as (st' & E & Hst).
  rewrite Eq in E |- *. cbn [mbind option_bind]. eauto.
Qed.

(** A body that only reads stops at the first entry it accepts. *)
Lemma list_foreach_search r (P : K → bool) (found : K → St) l st :
  dlist (hp st) r l →
  (∀ k, k ∈ l → body k st = Some (if P k then (found k, true) else (st, false))) →
  list_foreach (S (length l)) (At r) st =
    Some (match list_find P l with Some (_, k) => found k | None => st end).
Proof.
  intros Hd Hb. unfold list_foreach.
  rewrite (dlist_next_root _ _ _ Hd). cbn [mbind option_bind].
  assert (Hgen : ∀ l2 l1, l = l1 ++ l2 →
    foreach_loop (S (length l2)) (At r) (At (default r (head l2)))
      (default Null (rd_next (hp st) (At (default r (head l2))))) st =
    Some (match list_find P l2 with Some (_, k) => found k | None => st end)).
  { intros l2. induction l2 as [|x l2 IH]; intros l1 ->.
    { cbn [foreach_loop length]. by rewrite decide_True. }
    change (default r (head (x :: l2))) with x.
    rewrite (dlist_next_mem _ _ _ _ _ Hd).
    change (default Null (Some (At (default r (head l2)))))
      with (At (default r (head l2))).
    cbn [foreach_loop length].
    rewrite decide_False.
    2:{ intros [= ->]. apply dlist_root_not_in in Hd. set_solver. }
    rewrite Hb by set_solver. simpl list_find. destruct (P x) eqn:EP.
    { by rewrite decide_True. }
    rewrite decide_False by (intros []). cbn [mbind option_bind].
    specialize (IH (l1 ++ [x])). rewrite <- app_assoc in IH. specialize (IH eq_refl).
    assert (is_Some (rd_next (hp st) (At (default r (head l2))))) as [q Eq].
    { destruct l2 as [|y l2].
      - change (default r (head [])) with r. rewrite (dlist_next_root _ _ _ Hd). eauto.
      - change (default r (head (y :: l2))) with y.
        assert (Hd' : dlist (hp st) r ((l1 ++ [x]) ++ y :: l2))
          by (by rewrite <- app_assoc).
        rewrite (dlist_next_mem _ _ _ _ _ Hd'). eauto. }
    rewrite Eq in IH |- *. cbn [mbind option_bind].
    change (default Null (Some q)) with q in IH.
    etransitivity; [exact IH|]. by destruct (list_find P l2) as [[]|]. }
  specialize (Hgen l [] eq_refl).
  assert (is_Some (rd_next (hp st) (At (default r (head l))))) as [q Eq].
  { destruct l as [|y l].
    - change (default r (head [])) with r. rewrite (dlist_next_root _ _ _ Hd). eauto.
    - change (default r (head (y :: l))) with y.
      rewrite (dlist_next_mem _ _ [] y l Hd). eauto. }
  rewrite Eq in Hgen |- *. exact Hgen.
Qed.
End foreach.
End clist.

Arguments lptr : clear implicits.
Arguments list_entry : clear implicits.
Arguments Entry {K} _ _.
Arguments next {K} _.
Arguments pred {K} _.
Arguments Null {K}.
Arguments NextDead {K}.
Arguments PredDead {K}.
Arguments At {K} _.

#[export] Hint Resolve frame_refl : almos.

(** ** Addresses of cells

    A cell is either the root of the [i]-th list of a component, or the link
    field embedded in its [i]-th object ([list_element] is then the identity on
    indices). *)
Inductive lnode := Root (i : Z) | Obj (i : Z).

#[export] Instance lnode_eq_dec : EqDecision lnode.
Proof. solve_decision. Defined.

#[export] Instance lnode_countable : Countable lnode.
Proof.
  apply (inj_countable'
    (λ n, match n with Root i => inl i | Obj i => inr i end)
    (λ s, match s with inl i => Root i | inr i => Obj i end)).
  by intros [].
Defined.

#[export] Instance Obj_inj : Inj (=) (=) Obj.
Proof. by intros ?? [= ->]. Qed.

(** The object a link points into. *)
Definition obj_of (p : lptr lnode) : option Z :=
  match p with At (Obj i) => Some i | _ => None end.

(** Objects [l] on the list rooted at [Root r]. *)
Definition olist (h : gmap lnode (list_entry lnode)) (r : Z) (l : list Z) : Prop :=
  dlist h (Root r) (Obj <$> l).

Lemma Root_not_Obj r (l : list Z) : Root r ∉ Obj <$> l.
Proof. rewrite list_elem_of_fmap. naive_solver. Qed.

Lemma elem_of_Obj i (l : list Z) : Obj i ∈ Obj <$> l ↔ i ∈ l.
Proof. rewrite list_elem_of_fmap. naive_solver. Qed.

Lemma olist_NoDup h r l : olist h r l → NoDup l.
Proof. intros Hd%dlist_NoDup. by apply NoDup_fmap_1 in Hd. Qed.

Lemma olist_root_init h r :
  is_Some (h !! Root r) →
  ∃ h', list_root_init h (At (Root r)) = Some h' ∧ olist h' r [] ∧ frame h h' [Root r].
Proof. apply list_root_init_spec. Qed.

Lemma olist_add h r l i :
  olist h r l → i ∉ l → is_Some (h !! Obj i) →
  ∃ h', list_add h (At (Root r)) (At (Obj i)) = Some h' ∧ olist h' r (i :: l) ∧
        frame h h' (Root r :: (Obj <$> i :: l)).
Proof.
  intros Hd Hi Hh. destruct (list_add_spec h (Root r) (Obj <$> l) (Obj i))
    as (h'&E&Hd'&F); [done| |done|].
  { rewrite elem_of_cons, elem_of_Obj. naive_solver. }
  exists h'. split_and!; [done..|]. eapply frame_mono; [|done]. set_solver.
Qed.

Lemma olist_add_last h r l i :
  olist h r l → i ∉ l → is_Some (h !! Obj i) →
  ∃ h', list_add_last h (At (Root r)) (At (Obj i)) = Some h' ∧ olist h' r (l ++ [i]) ∧
        frame h h' (Root r :: (Obj <$> i :: l)).
Proof.
  intros Hd Hi Hh. destruct (list_add_last_spec h (Root r) (Obj <$> l) (Obj i))
    as (h'&E&Hd'&F); [done| |done|].
  { rewrite elem_of_cons, elem_of_Obj. naive_solver. }
  exists h'. unfold olist. rewrite fmap_app. split_and!; [done..|].
  eapply frame_mono; [|done]. set_solver.
Qed.

Lemma olist_unlink h r l1 i l2 :
  olist h r (l1 ++ i :: l2) →
  ∃ h', list_unlink h (At (Obj i)) = Some h' ∧ olist h' r (l1 ++ l2) ∧
        frame h h' (Root r :: (Obj <$> l1 ++ i :: l2)).
Proof.
  unfold olist. rewrite !fmap_app. simpl. intros Hd.
  destruct (list_unlink_spec _ _ _ _ _ Hd) as (h'&E&Hd'&F). eauto.
Qed.

Lemma olist_first h r i l :
  olist h r (i :: l) → list_first h (At (Root r)) = Some (At (Obj i)).
Proof. apply list_first_spec. Qed.

Lemma olist_empty h r l :
  olist h r l → list_empty h (At (Root r)) = Some (bool_decide (l = [])).
Proof.
  intros Hd. rewrite (list_empty_spec _ _ _ Hd). f_equal.
  apply bool_decide_ext. by destruct l.
Qed.

Lemma olist_unique h r l l' : olist h r l → olist h r l' → l = l'.
Proof. intros H1 H2. eapply (inj (fmap Obj)). by eapply dlist_unique. Qed.

(** Two lists with different roots share no object. *)
Lemma olist_frame h h' r r' l l' :
  frame h h' (Root r' :: (Obj <$> l')) → r ≠ r' → (∀ i, i ∈ l → i ∉ l') →
  olist h r l → olist h' r l.
Proof.
  intros F Hr Hdis. eapply frame_dlist; [exact F|]. intros k Hk Hk2.
  rewrite elem_of_cons, list_elem_of_fmap in Hk, Hk2. naive_solver.
Qed.

#[export] Hint Resolve Root_not_Obj olist_NoDup : almos.

(** ** Several lists

    A component with [n] lists keeps each of its objects on at most one of them. *)
Record rings (h : gmap lnode (list_entry lnode)) (n : Z) (L : Z → list Z) : Prop := {
  rings_list r : 0 ≤ r < n → olist h r (L r);
  rings_dis r r' x : 0 ≤ r < n → 0 ≤ r' < n → x ∈ L r → x ∈ L r' → r = r';
}.

Definition upd_ring (L : Z → list Z) (r : Z) (l : list Z) : Z → list Z :=
  λ r', if r' =? r then l else L r'.

Lemma rings_ext h n L L' :
  (∀ r, 0 ≤ r < n → L r = L' r) → rings h n L → rings h n L'.
Proof.
  intros E [H1 H2]. split.
  - intros r Hr. rewrite <- E by done. by apply H1.
  - intros r r' x Hr Hr'. rewrite <- !E by done. by apply H2.
Qed.

Lemma rings_upd h h' n L r l ks :
  rings h n L → 0 ≤ r < n → olist h' r l →
  frame h h' (Root r :: (Obj <$> ks)) →
  (∀ x, x ∈ ks → ∀ r', 0 ≤ r' < n → r' ≠ r → x ∉ L r') → (∀ x, x ∈ l → x ∈ ks) →
  rings h' n (upd_ring L r l).
Proof.
  intros [H1 H2] Hr Hl F Hks Hsub. unfold upd_ring. split.
  - intros r' Hr'. destruct (Z.eqb_spec r' r) as [->|Hne]; [done|].
    eapply olist_frame; [exact F|done| |by apply H1].
    intros x Hx Hk. by eapply Hks.
  - intros r1 r2 x Hr1 Hr2.
    destruct (Z.eqb_spec r1 r) as [->|], (Z.eqb_spec r2 r) as [->|]; intros Hx1 Hx2.
    + done.
    + destruct (Hks x (Hsub _ Hx1) r2); done.
    + destruct (Hks x (Hsub _ Hx2) r1); done.
    + by eapply H2.
Qed.

Lemma rings_unlink h n L r l1 x l2 :
  rings h n L → 0 ≤ r < n → L r = l1 ++ x :: l2 →
  ∃ h', list_unlink h (At (Obj x)) = Some h' ∧ rings h' n (upd_ring L r (l1 ++ l2)) ∧
    frame h h' (Root r :: (Obj <$> L r)) ∧
    ∀ r', 0 ≤ r' < n → x ∉ upd_ring L r (l1 ++ l2) r'.
Proof.
  intros Hrg Hr E. pose proof (rings_list _ _ _ Hrg r Hr) as Hl. rewrite E in Hl.
  destruct (olist_unlink _ _ _ _ _ Hl) as (h' & Eh & Hl' & F).
  assert (Hdis : ∀ y r', y ∈ L r → 0 ≤ r' < n → r' ≠ r → y ∉ L r').
  { intros y r' Hy Hr' Hne Hy'. by destruct Hne; eapply rings_dis. }
  exists h'. split_and!; [done| |by rewrite E|].
  - eapply rings_upd; [done..|exact F| |set_solver].
    intros y Hy r' Hr' Hne. apply Hdis; [by rewrite E|done..].
  - intros r' Hr'. unfold upd_ring. destruct (Z.eqb_spec r' r) as [->|Hne].
    + apply olist_NoDup in Hl. apply NoDup_app in Hl as (_ & Hl & [? _]%NoDup_cons).
      rewrite elem_of_app. intros [Hx|?]; [|done]. apply (Hl x Hx). set_solver.
    + apply Hdis; [rewrite E; set_solver|done..].
Qed.

Lemma rings_add h n L r x :
  rings h n L → 0 ≤ r < n → (∀ r', 0 ≤ r' < n → x ∉ L r') → is_Some (h !! Obj x) →
  ∃ h', list_add h (At (Root r)) (At (Obj x)) = Some h' ∧
    rings h' n (upd_ring L r (x :: L r)) ∧ frame h h' (Root r :: (Obj <$> x :: L r)).
Proof.
  intros Hrg Hr Hx Hc. destruct (olist_add h r (L r) x) as (h' & Eh & Hl & F);
    [by apply Hrg|by apply Hx|done|].
  exists h'. split_and!; [done| |done]. eapply rings_upd; [done..|exact F| |done].
  intros y [->|Hy]%elem_of_cons r' Hr' Hne; [by apply Hx|].
  intros Hy'. by destruct Hne; eapply rings_dis.
Qed.

Lemma rings_add_last h n L r x :
  rings h n L → 0 ≤ r < n → (∀ r', 0 ≤ r' < n → x ∉ L r') → is_Some (h !! Obj x) →
  ∃ h', list_add_last h (At (Root r)) (At (Obj x)) = Some h' ∧
    rings h' n (upd_ring L r (L r ++ [x])) ∧ frame h h' (Root r :: (Obj <$> x :: L r)).
Proof.
  intros Hrg Hr Hx Hc. destruct (olist_add_last h r (L r) x) as (h' & Eh & Hl & F);
    [by apply Hrg|by apply Hx|done|].
  exists h'. split_and!; [done| |done]. eapply rings_upd; [done..|exact F| |set_solver].
  intros y [->|Hy]%elem_of_cons r' Hr' Hne; [by apply Hx|].
  intros Hy'. by destruct Hne; eapply rings_dis.
Qed.

(** A cell that is on no list may be overwritten. *)
Lemma rings_fresh h n L x e :
  rings h n L → (∀ r, 0 ≤ r < n → x ∉ L r) → rings (<[Obj x := e]> h) n L.
Proof.
  intros [H1 H2] Hx. split; [|done]. intros r Hr.
  eapply dlist_frame; [|by apply H1]. intros k Hk. rewrite lookup_insert_ne; [done|].
  intros <-. apply elem_of_cons in Hk as [?|Hk%elem_of_Obj]; [done|]. by eapply Hx.
Qed.
