(* ===== verification/Bits.v ===== *)
(** * Bitmaps and bit arithmetic (src/kernel/libk/bits.h, bits.c)

    A bitmap is an array of 32-bit words.  [wbit bm n] is its [n]-th bit; the
    theorems describe every operation by its effect on the bits, so that the
    slab allocator and the radix tree never look at words. *)

From S2P Require Import Prelude.

Open Scope Z_scope.

Definition CPU_WIDTH : Z := 32.

(** ** Rounding *)

Definition ARROUND_UP (val size : Z) : Z :=
  if ctrue (Z.land val (u32 (size - 1)))
  then u32 (Z.land val (u32 (Z.lnot (size - 1))) + size) else val.

Definition ARROUND_DOWN (val size : Z) : Z :=
  Z.land val (u32 (Z.lnot (size - 1))).

Definition MIN (x y : Z) : Z := if x <? y then x else y.
Definition MAX (x y : Z) : Z := if x <? y then y else x.
Definition ABS (x : Z) : Z := if x <? 0 then - x else x.

(** ** Single bits *)

Definition bitmap_set (bitmap : list Z) (index : Z) : option (list Z) :=
  let i := index / CPU_WIDTH in
  let index := index mod CPU_WIDTH in
  w ← aget bitmap i;
  aset bitmap i (Z.lor w (Z.shiftl 1 index)).

Definition bitmap_clear (bitmap : list Z) (index : Z) : option (list Z) :=
  let i := index / CPU_WIDTH in
  let index := index mod CPU_WIDTH in
  w ← aget bitmap i;
  aset bitmap i (Z.land w (u32 (Z.lnot (Z.shiftl 1 index)))).

Definition bitmap_state (bitmap : list Z) (index : Z) : option bool :=
  let i := index / CPU_WIDTH in
  let index := index mod CPU_WIDTH in
  w ← aget bitmap i;
  Some (ctrue (Z.land w (Z.shiftl 1 index))).

(** ** Searches *)

(** [for(; j < __CPU_WIDTH; j++) if(hit) return ...], [n] iterations left. *)
Fixpoint scan_word (hit : Z → bool) (n : nat) (j : Z) : option Z :=
  match n with
  | O => None
  | S n => if hit j then Some j else scan_word hit n (j + 1)
  end.

(** [for(; i < size/__CPU_WIDTH; i++)], [n] iterations left; a word for which
    [skip] holds is not scanned.  The result is [-1] when no bit is found. *)
Fixpoint scan_words (skip : Z → bool) (hit : Z → Z → bool)
    (bitmap : list Z) (n : nat) (i : Z) : option Z :=
  match n with
  | O => Some (-1)
  | S n =>
      w ← aget bitmap i;
      if skip w then scan_words skip hit bitmap n (i + 1) else
      match scan_word (hit w) (Z.to_nat CPU_WIDTH) 0 with
      | Some j => Some (i * CPU_WIDTH + j)
      | None => scan_words skip hit bitmap n (i + 1)
      end
  end.

(** The common shape of [bitmap_ffs2] and [bitmap_ffc2]: the partial first
    word, then the whole words. *)
Definition scan_from (skip : Z → bool) (hit : Z → Z → bool)
    (bitmap : list Z) (index size : Z) : option Z :=
  let i := index / CPU_WIDTH in
  let j := index mod CPU_WIDTH in
  let size := u32 (Z.shiftl size 3) in
  let words i := scan_words skip hit bitmap (Z.to_nat (size / CPU_WIDTH - i)) i in
  if ctrue j then
    w ← aget bitmap i;
    match scan_word (hit w) (Z.to_nat (CPU_WIDTH - j)) j with
    | Some j => Some (i * CPU_WIDTH + j)
    | None => words (i + 1)
    end
  else words i.

Definition is_set (w j : Z) : bool := ctrue (Z.land w (Z.shiftl 1 j)).
Definition is_clear (w j : Z) : bool := Z.land w (Z.shiftl 1 j) =? 0.

Definition bitmap_ffs2 (bitmap : list Z) (index size : Z) : option Z :=
  scan_from (λ w, w =? 0) is_set bitmap index size.

Definition bitmap_ffc2 (bitmap : list Z) (index size : Z) : option Z :=
  scan_from (λ w, w =? u32 (-1)) is_clear bitmap index size.

Definition bitmap_ffs (bitmap : list Z) (size : Z) : option Z :=
  let size := u32 (Z.shiftl size 3) in
  scan_words (λ w, w =? 0) is_set bitmap (Z.to_nat (size / CPU_WIDTH)) 0.

Definition bitmap_ffc (bitmap : list Z) (size : Z) : option Z :=
  let size := u32 (Z.shiftl size 3) in
  scan_words (λ w, w =? u32 (-1)) is_clear bitmap (Z.to_nat (size / CPU_WIDTH)) 0.

(** ** Ranges *)

(** [val << index] for the bits [index .. 31] of a word. *)
Definition high_mask (index : Z) : Z :=
  let val := if index =? 0 then u32 (-1)
             else u32 (Z.shiftl 1 (CPU_WIDTH - index) - 1) in
  u32 (Z.shiftl val index).

Definition low_mask (len index : Z) : Z :=
  u32 (Z.shiftl (u32 (Z.shiftl 1 len) - 1) index).

(** The [while(len > 0)] loop; [upd w m] merges the mask [m] into the word. *)
Fixpoint range_loop (upd : Z → Z → Z) (fuel : nat)
    (bitmap : list Z) (i index len : Z) : option (list Z) :=
  match fuel with
  | O => None
  | S fuel =>
      if 0 <? len then
        w ← aget bitmap i;
        if CPU_WIDTH <=? len + index then
          bitmap ← aset bitmap i (upd w (high_mask index));
          range_loop upd fuel bitmap (i + 1) 0 (len - (CPU_WIDTH - index))
        else aset bitmap i (upd w (low_mask len index))
      else Some bitmap
  end.

Definition bitmap_set_range (bitmap : list Z) (index len : Z) : option (list Z) :=
  range_loop (λ w m, Z.lor w m) (S (Z.to_nat len)) bitmap
    (index / CPU_WIDTH) (index mod CPU_WIDTH) len.

Definition bitmap_clear_range (bitmap : list Z) (index len : Z) : option (list Z) :=
  range_loop (λ w m, Z.land w (u32 (Z.lnot m))) (S (Z.to_nat len)) bitmap
    (index / CPU_WIDTH) (index mod CPU_WIDTH) len.

(** ** Logarithm *)

Fixpoint bits_nr_loop (fuel : nat) (val i : Z) : Z :=
  match fuel with
  | O => i
  | S fuel => if 0 <? val then bits_nr_loop fuel (Z.shiftr val 1) (i + 1) else i
  end.

(** A 32-bit value is zero after 32 shifts. *)
Definition bits_nr (val : Z) : Z := bits_nr_loop 32 val 0.

Definition bits_log2 (val : Z) : Z :=
  if val =? 0 then 1 else bits_nr val - 1.

(** ** Words *)

Lemma ctrue_true x : ctrue x = true ↔ x ≠ 0.
Proof. unfold ctrue. destruct (Z.eqb_spec x 0); naive_solver. Qed.

Lemma ctrue_false x : ctrue x = false ↔ x = 0.
Proof. unfold ctrue. destruct (Z.eqb_spec x 0); naive_solver. Qed.

Lemma u32_testbit x k : 0 ≤ k → Z.testbit (u32 x) k = (k <? 32) && Z.testbit x k.
Proof.
  intros Hk. unfold u32, wsize. destruct (Z.ltb_spec k 32).
  - by rewrite Z.mod_pow2_bits_low.
  - by rewrite Z.mod_pow2_bits_high by lia.
Qed.

Lemma testbit_one_shift j k : 0 ≤ j → 0 ≤ k → Z.testbit (Z.shiftl 1 j) k = (k =? j).
Proof.
  intros. rewrite Z.shiftl_1_l. rewrite Z.pow2_bits_eqb by done.
  by rewrite Z.eqb_sym.
Qed.

Lemma is_set_spec w j : 0 ≤ j → is_set w j = Z.testbit w j.
Proof.
  intros Hj. unfold is_set. destruct (Z.testbit w j) eqn:E.
  - apply ctrue_true. intros H0. apply (f_equal (λ x, Z.testbit x j)) in H0.
    rewrite Z.land_spec, testbit_one_shift, E, Z.eqb_refl, Z.bits_0 in H0 by done.
    done.
  - apply ctrue_false. apply Z.bits_inj'. intros k Hk.
    rewrite Z.land_spec, testbit_one_shift, Z.bits_0 by done.
    destruct (Z.eqb_spec k j) as [->|]; [by rewrite E|by rewrite andb_false_r].
Qed.

Lemma is_clear_spec w j : 0 ≤ j → is_clear w j = negb (Z.testbit w j).
Proof.
  intros Hj. rewrite <- is_set_spec by done. unfold is_set, is_clear, ctrue.
  by rewrite negb_involutive.
Qed.

Lemma ones_testbit n k : 0 ≤ n → 0 ≤ k → Z.testbit (Z.shiftl 1 n - 1) k = (k <? n).
Proof.
  intros. rewrite Z.shiftl_1_l, Z.sub_1_r, <- Z.ones_equiv.
  destruct (Z.ltb_spec k n); [by apply Z.ones_spec_low|by apply Z.ones_spec_high].
Qed.

Lemma high_mask_spec index k :
  0 ≤ index < 32 → 0 ≤ k →
  Z.testbit (high_mask index) k = (index <=? k) && (k <? 32).
Proof.
  intros Hi Hk. unfold high_mask, CPU_WIDTH. rewrite u32_testbit by done.
  rewrite Z.shiftl_spec by done. rewrite andb_comm.
  destruct (Z.ltb_spec k 32); [|by rewrite !andb_false_r].
  rewrite !andb_true_r.
  destruct (Z.leb_spec index k); [|by rewrite Z.testbit_neg_r by lia].
  case_match.
  - rewrite u32_testbit, Z.bits_m1 by lia. lia.
  - rewrite u32_testbit, ones_testbit by lia. lia.
Qed.

Lemma low_mask_spec len index k :
  0 ≤ index → 0 < len → len + index < 32 → 0 ≤ k →
  Z.testbit (low_mask len index) k = (index <=? k) && (k <? index + len).
Proof.
  intros ? ? ? Hk. unfold low_mask.
  assert (1 ≤ Z.shiftl 1 len < wsize).
  { rewrite Z.shiftl_1_l. split.
    - pose proof (Z.pow_pos_nonneg 2 len). lia.
    - apply Z.pow_lt_mono_r; lia. }
  rewrite (u32_small (Z.shiftl 1 len)) by lia.
  rewrite u32_testbit, Z.shiftl_spec by done.
  destruct (Z.leb_spec index k); [|by rewrite Z.testbit_neg_r, andb_false_r by lia].
  rewrite ones_testbit by lia. lia.
Qed.

(** ** Bits of a bitmap *)

Definition wbit (bm : list Z) (n : Z) : bool :=
  match aget bm (n / CPU_WIDTH) with
  | Some w => Z.testbit w (n mod CPU_WIDTH)
  | None => false
  end.

Definition bm_bits (bm : list Z) : Z := CPU_WIDTH * Z.of_nat (length bm).

Lemma bm_index bm n :
  0 ≤ n < bm_bits bm →
  0 ≤ n / CPU_WIDTH < Z.of_nat (length bm) ∧ 0 ≤ n mod CPU_WIDTH < CPU_WIDTH.
Proof.
  unfold bm_bits, CPU_WIDTH. intros. split.
  - split; [apply Z.div_pos; lia|]. apply Z.div_lt_upper_bound; lia.
  - apply Z.mod_pos_bound. lia.
Qed.

Lemma wbit_out bm n : n < 0 ∨ bm_bits bm ≤ n → wbit bm n = false.
Proof.
  unfold wbit, bm_bits, CPU_WIDTH. intros Hn. rewrite aget_None; [done|].
  destruct Hn; [left; apply Z.div_lt_upper_bound; lia|right].
  apply Z.div_le_lower_bound; lia.
Qed.

Lemma wbit_word bm i w j :
  aget bm i = Some w → 0 ≤ j < CPU_WIDTH → wbit bm (i * CPU_WIDTH + j) = Z.testbit w j.
Proof.
  intros Hw Hj. unfold wbit. unfold CPU_WIDTH in *.
  rewrite Z.div_add_l, (Z.add_comm _ j), Z.mod_add by lia.
  rewrite Z.div_small, Z.mod_small, Z.add_0_r by lia. by rewrite Hw.
Qed.

(** Changing one word changes the bits of that word. *)
Lemma wbit_aset bm i w bm' n :
  aset bm i w = Some bm' →
  wbit bm' n = if n / CPU_WIDTH =? i then Z.testbit w (n mod CPU_WIDTH) else wbit bm n.
Proof.
  intros Hs. unfold wbit. destruct (Z.eqb_spec (n / CPU_WIDTH) i) as [->|Hne].
  - by rewrite (aget_aset_eq _ _ _ _ Hs).
  - by rewrite (aget_aset_ne _ i _ _ _ (not_eq_sym Hne) Hs).
Qed.

Lemma same_bit m n :
  (m / CPU_WIDTH =? n / CPU_WIDTH) && (m mod CPU_WIDTH =? n mod CPU_WIDTH) = (m =? n).
Proof.
  unfold CPU_WIDTH. destruct (Z.eqb_spec m n) as [->|Hne]; [by rewrite !Z.eqb_refl|].
  destruct (Z.eqb_spec (m / 32) (n / 32)), (Z.eqb_spec (m mod 32) (n mod 32)); try done.
  destruct Hne. pose proof (Z.div_mod m 32). pose proof (Z.div_mod n 32). lia.
Qed.

Lemma bitmap_set_spec bm n :
  0 ≤ n < bm_bits bm →
  ∃ bm', bitmap_set bm n = Some bm' ∧ length bm' = length bm ∧
         ∀ m, wbit bm' m = (m =? n) || wbit bm m.
Proof.
  intros Hn. destruct (bm_index _ _ Hn) as [Hi Hj]. unfold bitmap_set.
  destruct (aget_range bm (n / CPU_WIDTH) Hi) as [w Hw]. rewrite Hw.
  cbn [mbind option_bind]. rewrite aset_Some by done.
  set (w' := Z.lor _ _). set (bm' := <[_ := _]> _).
  assert (Hs : aset bm (n / CPU_WIDTH) w' = Some bm') by (by apply aset_Some).
  exists bm'. split_and!; [done|by eapply aset_length|].
  intros m. rewrite (wbit_aset _ _ _ _ m Hs). subst w'.
  assert (0 ≤ m mod CPU_WIDTH) by (apply Z.mod_pos_bound; done).
  rewrite Z.lor_spec, testbit_one_shift by lia. rewrite <- (same_bit m n).
  destruct (Z.eqb_spec (m / CPU_WIDTH) (n / CPU_WIDTH)) as [E|E]; [|done].
  unfold wbit. rewrite E, Hw. simpl. apply orb_comm.
Qed.

Lemma bitmap_clear_spec bm n :
  0 ≤ n < bm_bits bm →
  ∃ bm', bitmap_clear bm n = Some bm' ∧ length bm' = length bm ∧
         ∀ m, wbit bm' m = negb (m =? n) && wbit bm m.
Proof.
  intros Hn. destruct (bm_index _ _ Hn) as [Hi Hj]. unfold bitmap_clear.
  destruct (aget_range bm (n / CPU_WIDTH) Hi) as [w Hw]. rewrite Hw.
  cbn [mbind option_bind]. rewrite aset_Some by done.
  set (w' := Z.land _ _). set (bm' := <[_ := _]> _).
  assert (Hs : aset bm (n / CPU_WIDTH) w' = Some bm') by (by apply aset_Some).
  exists bm'. split_and!; [done|by eapply aset_length|].
  intros m. rewrite (wbit_aset _ _ _ _ m Hs). subst w'.
  assert (0 ≤ m mod CPU_WIDTH < 32) as Hm by (apply Z.mod_pos_bound; done).
  rewrite Z.land_spec, u32_testbit, Z.lnot_spec, testbit_one_shift by lia.
  rewrite (proj2 (Z.ltb_lt _ 32)) by lia. rewrite <- (same_bit m n).
  destruct (Z.eqb_spec (m / CPU_WIDTH) (n / CPU_WIDTH)) as [E|E]; [|done].
  unfold wbit. rewrite E, Hw. simpl. apply andb_comm.
Qed.

Lemma bitmap_state_spec bm n :
  0 ≤ n < bm_bits bm → bitmap_state bm n = Some (wbit bm n).
Proof.
  intros Hn. destruct (bm_index _ _ Hn) as [Hi Hj]. unfold bitmap_state, wbit.
  destruct (aget_range bm (n / CPU_WIDTH) Hi) as [w Hw]. rewrite Hw. simpl.
  f_equal. apply is_set_spec. lia.
Qed.

(** ** Searches find the first bit *)

(** [r] is the first index of [[lo, hi)] where [P] holds, or [-1]. *)
Definition first_from (P : Z → bool) (lo hi r : Z) : Prop :=
  (r = -1 ∧ ∀ n, lo ≤ n < hi → P n = false) ∨
  (lo ≤ r < hi ∧ P r = true ∧ ∀ n, lo ≤ n < r → P n = false).

Lemma scan_word_spec hit n j :
  match scan_word hit n j with
  | Some r => j ≤ r < j + Z.of_nat n ∧ hit r = true ∧ ∀ m, j ≤ m < r → hit m = false
  | None => ∀ m, j ≤ m < j + Z.of_nat n → hit m = false
  end.
Proof.
  revert j. induction n as [|n IH]; intros j; simpl; [lia|].
  destruct (hit j) eqn:E; [split_and!; [lia..|done|lia]|].
  specialize (IH (j + 1)). destruct (scan_word hit n (j + 1)) as [r|].
  - destruct IH as (?&?&Hm). split_and!; [lia..|done|]. intros m ?.
    destruct (decide (m = j)) as [->|]; [done|]. apply Hm. lia.
  - intros m ?. destruct (decide (m = j)) as [->|]; [done|]. apply IH. lia.
Qed.

Section search.
Context (skip : Z → bool) (hit : Z → Z → bool) (P : bool → bool).
Context (hit_P : ∀ w j, 0 ≤ j → hit w j = P (Z.testbit w j)).
Context (skip_P : ∀ w j, skip w = true → 0 ≤ j < CPU_WIDTH → P (Z.testbit w j) = false).

Lemma scan_words_spec bm n i :
  0 ≤ i → i + Z.of_nat n ≤ Z.of_nat (length bm) →
  ∃ r, scan_words skip hit bm n i = Some r ∧
       first_from (λ m, P (wbit bm m)) (i * CPU_WIDTH) ((i + Z.of_nat n) * CPU_WIDTH) r.
Proof.
  revert i. induction n as [|n IH]; intros i Hi Hn; cbn [scan_words].
  { exists (-1). split; [done|]. left. split; [done|]. unfold CPU_WIDTH. lia. }
  destruct (aget_range bm i) as [w Hw]; [lia|]. rewrite Hw. cbn [mbind option_bind].
  destruct (IH (i + 1)) as (r&Er&Hr); [lia..|].
  (* the bits of the word [i] do not match: continue *)
  assert (Hcont : (∀ j, 0 ≤ j < CPU_WIDTH → P (Z.testbit w j) = false) →
    first_from (λ m, P (wbit bm m)) (i * CPU_WIDTH)
      ((i + Z.of_nat (S n)) * CPU_WIDTH) r).
  { intros Hno. assert (Hlow : ∀ m, i * CPU_WIDTH ≤ m < (i + 1) * CPU_WIDTH →
      P (wbit bm m) = false).
    { intros m Hm. replace m with (i * CPU_WIDTH + (m - i * CPU_WIDTH)) by lia.
      rewrite (wbit_word _ _ w) by (done || lia). apply Hno. lia. }
    unfold first_from in Hr |- *. replace (i + 1 + Z.of_nat n) with (i + Z.of_nat (S n))
      in Hr by lia. destruct Hr as [[-> Hall]|(Hr&HP&Hall)]; [left|right].
    - split; [done|]. intros m Hm.
      destruct (Z.lt_ge_cases m ((i + 1) * CPU_WIDTH)); [apply Hlow; lia|apply Hall; lia].
    - unfold CPU_WIDTH in *. split; [lia|]. split; [done|]. intros m Hm.
      destruct (Z.lt_ge_cases m ((i + 1) * 32)); [apply Hlow; lia|apply Hall; lia]. }
  destruct (skip w) eqn:Esk.
  { exists r. split; [done|]. apply Hcont. intros. by apply skip_P. }
  pose proof (scan_word_spec (hit w) (Z.to_nat CPU_WIDTH) 0) as Hs.
  destruct (scan_word (hit w) (Z.to_nat CPU_WIDTH) 0) as [j|].
  - exists (i * CPU_WIDTH + j). split; [done|]. right.
    destruct Hs as (Hj&Hhit&Hall). unfold CPU_WIDTH in *. split_and!; [lia..| |].
    + rewrite (wbit_word _ _ w) by (done || unfold CPU_WIDTH; lia).
      by rewrite <- hit_P by lia.
    + intros m Hm. replace m with (i * 32 + (m - i * 32)) by lia.
      rewrite (wbit_word _ _ w) by (done || unfold CPU_WIDTH; lia).
      rewrite <- hit_P by lia. apply Hall. lia.
  - exists r. split; [done|]. apply Hcont. intros j Hj.
    rewrite <- hit_P by lia. apply Hs. unfold CPU_WIDTH in *. lia.
Qed.

Lemma scan_from_spec bm index size :
  8 * size = bm_bits bm → 8 * size < wsize → 0 ≤ index ≤ 8 * size →
  ∃ r, scan_from skip hit bm index size = Some r ∧
       first_from (λ m, P (wbit bm m)) index (8 * size) r.
Proof.
  intros Hsz Hov Hix. unfold scan_from.
  replace (u32 (Z.shiftl size 3)) with (8 * size).
  2:{ rewrite Z.shiftl_mul_pow2 by done. rewrite u32_small; lia. }
  unfold bm_bits in Hsz. set (i := index / CPU_WIDTH). set (j := index mod CPU_WIDTH).
  assert (Hdm : index = i * CPU_WIDTH + j) 
    by (subst i j; unfold CPU_WIDTH; pose proof (Z.div_mod index 32); lia).
  assert (0 ≤ j < CPU_WIDTH) by (subst j; apply Z.mod_pos_bound; done).
  assert (Hsz' : 8 * size = 32 * Z.of_nat (length bm)) by done.
  clearbody i j. rewrite Hsz.
  replace (CPU_WIDTH * Z.of_nat (length bm) / CPU_WIDTH) with (Z.of_nat (length bm))
    by (by rewrite Z.mul_comm, Z.div_mul).
  unfold CPU_WIDTH in Hix, Hdm, H. destruct (ctrue j) eqn:Ej.
  - apply ctrue_true in Ej.
    destruct (aget_range bm i) as [w Hw]; [unfold CPU_WIDTH in *; lia|].
    rewrite Hw. cbn [mbind option_bind].
    pose proof (scan_word_spec (hit w) (Z.to_nat (CPU_WIDTH - j)) j) as Hs.
    assert (Hin : ∀ m, index ≤ m < (i + 1) * 32 → P (wbit bm m) = hit w (m - i * 32)).
    { intros m Hm. rewrite hit_P by lia. f_equal.
      rewrite <- (wbit_word bm i w) by (done || unfold CPU_WIDTH; lia).
      f_equal. unfold CPU_WIDTH. lia. }
    destruct (scan_word (hit w) (Z.to_nat (CPU_WIDTH - j)) j) as [j'|].
    + exists (i * CPU_WIDTH + j'). split; [done|]. right. unfold CPU_WIDTH in *.
      destruct Hs as (Hj'&Hhit&Hall). split_and!; [lia..| |].
      * rewrite Hin by lia. by replace (i * 32 + j' - i * 32) with j' by lia.
      * intros n Hn. rewrite Hin by lia. apply Hall. lia.
    + destruct (scan_words_spec bm (Z.to_nat (Z.of_nat (length bm) - (i + 1))) (i + 1))
        as (r&Er&Hr); [lia..|]. unfold CPU_WIDTH in *.
      exists r. split; [done|].
      replace (i + 1 + Z.of_nat (Z.to_nat (Z.of_nat (length bm) - (i + 1))))
        with (Z.of_nat (length bm)) in Hr by lia.
      unfold first_from in Hr |- *. destruct Hr as [[-> Hall]|(Hr&HP&Hall)]; [left|right].
      * split; [done|]. intros n Hn. destruct (Z.lt_ge_cases n ((i + 1) * 32)).
        -- rewrite Hin by lia. apply Hs. lia.
        -- apply Hall. lia.
      * split_and!; [lia..|done|]. intros n Hn.
        destruct (Z.lt_ge_cases n ((i + 1) * 32)).
        -- rewrite Hin by lia. apply Hs. lia.
        -- apply Hall. lia.
  - apply ctrue_false in Ej. subst j.
    destruct (scan_words_spec bm (Z.to_nat (Z.of_nat (length bm) - i)) i)
      as (r&Er&Hr); [lia..|]. exists r. split; [done|].
    replace (i + Z.of_nat (Z.to_nat (Z.of_nat (length bm) - i)))
      with (Z.of_nat (length bm)) in Hr by lia.
    unfold CPU_WIDTH in *. replace (i * 32) with index in Hr by lia.
    by rewrite (Z.mul_comm 32).
Qed.
End search.

Lemma ffs_skip w j : (w =? 0) = true → 0 ≤ j < CPU_WIDTH → Z.testbit w j = false.
Proof. intros ->%Z.eqb_eq _. apply Z.bits_0. Qed.

Lemma ffc_skip w j :
  (w =? u32 (-1)) = true → 0 ≤ j < CPU_WIDTH → negb (Z.testbit w j) = false.
Proof.
  unfold CPU_WIDTH. intros ->%Z.eqb_eq Hj. rewrite u32_testbit, Z.bits_m1 by lia.
  by rewrite (proj2 (Z.ltb_lt j 32)) by lia.
Qed.

Lemma bitmap_ffs2_spec bm index size :
  8 * size = bm_bits bm → 8 * size < wsize → 0 ≤ index ≤ 8 * size →
  ∃ r, bitmap_ffs2 bm index size = Some r ∧ first_from (wbit bm) index (8 * size) r.
Proof.
  intros. apply (scan_from_spec _ _ (λ b, b)); [apply is_set_spec|apply ffs_skip|done..].
Qed.

Lemma bitmap_ffc2_spec bm index size :
  8 * size = bm_bits bm → 8 * size < wsize → 0 ≤ index ≤ 8 * size →
  ∃ r, bitmap_ffc2 bm index size = Some r ∧
       first_from (λ n, negb (wbit bm n)) index (8 * size) r.
Proof.
  intros. apply (scan_from_spec _ _ negb); [apply is_clear_spec|apply ffc_skip|done..].
Qed.

(** The one-argument searches are the searches from bit [0]. *)
Lemma bitmap_ffs_ffs2 bm size : bitmap_ffs bm size = bitmap_ffs2 bm 0 size.
Proof.
  unfold bitmap_ffs, bitmap_ffs2, scan_from, CPU_WIDTH. simpl. by rewrite Z.sub_0_r.
Qed.

Lemma bitmap_ffc_ffc2 bm size : bitmap_ffc bm size = bitmap_ffc2 bm 0 size.
Proof.
  unfold bitmap_ffc, bitmap_ffc2, scan_from, CPU_WIDTH. simpl. by rewrite Z.sub_0_r.
Qed.

(** ** Range updates *)

Section range.
Context (upd : Z → Z → Z) (v : bool).
Context (upd_bit : ∀ w m k, 0 ≤ k < CPU_WIDTH →
  Z.testbit (upd w m) k = if Z.testbit m k then v else Z.testbit w k).

Lemma range_loop_spec fuel bm i index len :
  0 ≤ i → 0 ≤ index < CPU_WIDTH → 0 ≤ len →
  i * CPU_WIDTH + index + len ≤ bm_bits bm → len < Z.of_nat fuel →
  ∃ bm', range_loop upd fuel bm i index len = Some bm' ∧ length bm' = length bm ∧
    ∀ n, wbit bm' n =
      if (i * CPU_WIDTH + index <=? n) && (n <? i * CPU_WIDTH + index + len)
      then v else wbit bm n.
Proof.
  revert bm i index len.
  induction fuel as [|fuel IH]; intros bm i index len Hi Hx Hl Hb Hf; [lia|].
  cbn [range_loop]. unfold bm_bits, CPU_WIDTH in *.
  destruct (Z.ltb_spec 0 len) as [Hpos|Hz].
  2:{ exists bm. split_and!; [done..|]. intros n. by replace (_ && _) with false by lia. }
  destruct (aget_range bm i) as [w Hw]; [lia|]. rewrite Hw. cbn [mbind option_bind].
  assert (Hdiv : ∀ n, 0 ≤ n mod 32 < 32 ∧ n = n / 32 * 32 + n mod 32).
  { intros n. pose proof (Z.mod_pos_bound n 32). pose proof (Z.div_mod n 32). lia. }
  assert (Hword : ∀ n, n / 32 = i → wbit bm n = Z.testbit w (n mod 32)).
  { intros n Hn. unfold wbit, CPU_WIDTH. by rewrite Hn, Hw. }
  destruct (Z.leb_spec 32 (len + index)) as [Hfull|Hpart].
  - destruct (aset bm i (upd w (high_mask index))) as [bm1|] eqn:Es.
    2:{ rewrite aset_Some in Es by lia. done. }
    cbn [mbind option_bind]. pose proof (aset_length _ _ _ _ Es) as Hlen.
    destruct (IH bm1 (i + 1) 0 (len - (32 - index))) as (bm2&E2&Hlen2&Hbits); [lia..|].
    exists bm2. split_and!; [done|lia|]. intros n. rewrite Hbits.
    rewrite (wbit_aset _ _ _ _ n Es). destruct (Hdiv n) as [Hm Hn]. unfold CPU_WIDTH.
    rewrite upd_bit, high_mask_spec by (unfold CPU_WIDTH; lia).
    destruct (Z.eqb_spec (n / 32) i) as [En|En].
    + rewrite (Hword n) by done. rewrite (proj2 (Z.ltb_lt (n mod 32) 32)) by lia.
      rewrite andb_true_r.
      destruct (Z.leb_spec index (n mod 32)).
      * rewrite (proj2 (andb_true_iff (i * 32 + index <=? n) _)) by lia.
        by case_match.
      * replace ((i * 32 + index <=? n) && _) with false by lia.
        by replace (((i + 1) * 32 + 0 <=? n) && _) with false by lia.
    + replace (((i + 1) * 32 + 0 <=? n) && (n <? (i + 1) * 32 + 0 + (len - (32 - index))))
        with ((i * 32 + index <=? n) && (n <? i * 32 + index + len)); [done|].
      f_equal; lia.
  - destruct (aset bm i (upd w (low_mask len index))) as [bm1|] eqn:Es.
    2:{ rewrite aset_Some in Es by lia. done. }
    exists bm1. split_and!; [done|by eapply aset_length|].
    intros n. rewrite (wbit_aset _ _ _ _ n Es). destruct (Hdiv n) as [Hm Hn].
    unfold CPU_WIDTH. rewrite upd_bit, low_mask_spec by (unfold CPU_WIDTH; lia).
    destruct (Z.eqb_spec (n / 32) i) as [En|En].
    + rewrite (Hword n) by done.
      replace ((i * 32 + index <=? n) && (n <? i * 32 + index + len))
        with ((index <=? n mod 32) && (n mod 32 <? index + len)); [done|].
      f_equal; lia.
    + by replace ((i * 32 + index <=? n) && (n <? i * 32 + index + len)) with false by lia.
Qed.
End range.

Lemma bitmap_set_range_spec bm index len :
  0 ≤ index → 0 ≤ len → index + len ≤ bm_bits bm →
  ∃ bm', bitmap_set_range bm index len = Some bm' ∧ length bm' = length bm ∧
    ∀ n, wbit bm' n = ((index <=? n) && (n <? index + len)) || wbit bm n.
Proof.
  intros Hi Hl Hb. unfold bitmap_set_range.
  pose proof (Z.mod_pos_bound index CPU_WIDTH). pose proof (Z.div_mod index CPU_WIDTH).
  assert (0 ≤ index / CPU_WIDTH) by (apply Z.div_pos; unfold CPU_WIDTH; lia).
  destruct (range_loop_spec (λ w m, Z.lor w m) true) with
    (fuel := S (Z.to_nat len)) (bm := bm) (i := index / CPU_WIDTH)
    (index := index mod CPU_WIDTH) (len := len) as (bm'&E&Hlen&Hbits);
    [|unfold CPU_WIDTH in *; lia..|].
  { intros w m k _. rewrite Z.lor_spec. by destruct (Z.testbit m k), (Z.testbit w k). }
  exists bm'. split_and!; [done..|]. intros n. rewrite Hbits.
  replace (index / CPU_WIDTH * CPU_WIDTH + index mod CPU_WIDTH) with index
    by (unfold CPU_WIDTH in *; lia).
  by destruct (_ && _).
Qed.

Lemma bitmap_clear_range_spec bm index len :
  0 ≤ index → 0 ≤ len → index + len ≤ bm_bits bm →
  ∃ bm', bitmap_clear_range bm index len = Some bm' ∧ length bm' = length bm ∧
    ∀ n, wbit bm' n = negb ((index <=? n) && (n <? index + len)) && wbit bm n.
Proof.
  intros Hi Hl Hb. unfold bitmap_clear_range.
  pose proof (Z.mod_pos_bound index CPU_WIDTH). pose proof (Z.div_mod index CPU_WIDTH).
  assert (0 ≤ index / CPU_WIDTH) by (apply Z.div_pos; unfold CPU_WIDTH; lia).
  destruct (range_loop_spec (λ w m, Z.land w (u32 (Z.lnot m))) false) with
    (fuel := S (Z.to_nat len)) (bm := bm) (i := index / CPU_WIDTH)
    (index := index mod CPU_WIDTH) (len := len) as (bm'&E&Hlen&Hbits);
    [|unfold CPU_WIDTH in *; lia..|].
  { intros w m k Hk. unfold CPU_WIDTH in Hk.
    rewrite Z.land_spec, u32_testbit, Z.lnot_spec by lia.
    rewrite (proj2 (Z.ltb_lt k 32)) by lia.
    by destruct (Z.testbit m k), (Z.testbit w k). }
  exists bm'. split_and!; [done..|]. intros n. rewrite Hbits.
  replace (index / CPU_WIDTH * CPU_WIDTH + index mod CPU_WIDTH) with index
    by (unfold CPU_WIDTH in *; lia).
  by destruct (_ && _).
Qed.

(** ** Rounding and logarithms *)

Lemma u32_lnot_mask val k :
  0 ≤ k → 0 ≤ val < wsize →
  Z.land val (u32 (Z.lnot (2 ^ k - 1))) = val - val mod 2 ^ k.
Proof.
  intros Hk Hv.
  transitivity (Z.ldiff val (Z.ones k)).
  - apply Z.bits_inj'. intros j Hj.
    rewrite Z.land_spec, u32_testbit, Z.lnot_spec, Z.ldiff_spec by done.
    rewrite Z.sub_1_r, <- Z.ones_equiv.
    destruct (Z.ltb_spec j 32); [done|].
    rewrite <- (u32_small val), u32_testbit by done.
    by rewrite (proj2 (Z.ltb_ge j 32)) by lia.
  - rewrite Z.ldiff_ones_r, Z.shiftl_mul_pow2, Z.shiftr_div_pow2 by done.
    pose proof (Z.div_mod val (2 ^ k)). pose proof (Z.pow_pos_nonneg 2 k). lia.
Qed.

Lemma ARROUND_DOWN_spec val k :
  0 ≤ k → 0 ≤ val < wsize → ARROUND_DOWN val (2 ^ k) = val - val mod 2 ^ k.
Proof. intros. by apply u32_lnot_mask. Qed.

(** The least multiple of [2^k] not below [val], when it fits a word. *)
Lemma ARROUND_UP_spec val k :
  0 ≤ k ≤ 32 → 0 ≤ val → val + 2 ^ k ≤ wsize →
  (2 ^ k | ARROUND_UP val (2 ^ k)) ∧ val ≤ ARROUND_UP val (2 ^ k) < val + 2 ^ k.
Proof.
  intros Hk Hv Hov. unfold ARROUND_UP.
  assert (0 < 2 ^ k) by (apply Z.pow_pos_nonneg; lia).
  pose proof (Z.mod_pos_bound val (2 ^ k)).
  assert (Hm : Z.land val (u32 (2 ^ k - 1)) = val mod 2 ^ k).
  { rewrite u32_small by lia.
    by rewrite Z.sub_1_r, <- Z.ones_equiv, Z.land_ones by lia. }
  rewrite Hm, u32_lnot_mask by lia.
  destruct (ctrue (val mod 2 ^ k)) eqn:E.
  - apply ctrue_true in E. rewrite u32_small by lia. split; [|lia].
    pose proof (Z.div_mod val (2 ^ k)). exists (val / 2 ^ k + 1). lia.
  - apply ctrue_false in E. split; [|lia]. apply Z.mod_divide; [lia|done].
Qed.

Lemma bits_nr_loop_spec fuel val i :
  0 ≤ val < 2 ^ Z.of_nat fuel →
  bits_nr_loop fuel val i = i + (if val =? 0 then 0 else Z.log2 val + 1).
Proof.
  revert val i. induction fuel as [|fuel IH]; intros val i Hv.
  { simpl in *. replace val with 0 by lia. simpl. lia. }
  cbn [bits_nr_loop]. destruct (Z.ltb_spec 0 val); [|replace val with 0 by lia; simpl; lia].
  assert (Hs : Z.shiftr val 1 = val / 2) by (by rewrite Z.shiftr_div_pow2).
  rewrite Nat2Z.inj_succ, Z.pow_succ_r in Hv by lia.
  rewrite IH.
  2:{ rewrite Hs. split; [apply Z.div_pos; lia|apply Z.div_lt_upper_bound; lia]. }
  rewrite (proj2 (Z.eqb_neq val 0)) by lia.
  destruct (Z.eqb_spec (Z.shiftr val 1) 0) as [E|E].
  - assert (val = 1) as ->; [|simpl; lia]. pose proof (Z.div_mod val 2).
    pose proof (Z.mod_pos_bound val 2). lia.
  - rewrite Z.log2_shiftr by lia.
    assert (1 ≤ Z.log2 val).
    { apply Z.log2_le_pow2; [done|]. destruct (decide (val = 1)) as [->|]; [done|].
      simpl. lia. }
    lia.
Qed.

Lemma bits_log2_spec val : 0 < val < wsize → bits_log2 val = Z.log2 val.
Proof.
  intros Hv. unfold bits_log2, bits_nr.
  rewrite (proj2 (Z.eqb_neq val 0)) by lia.
  rewrite bits_nr_loop_spec by (change (2 ^ Z.of_nat 32) with wsize; lia).
  rewrite (proj2 (Z.eqb_neq val 0)) by lia. lia.
Qed.
