(* ===== verification/Mem.v ===== *)
(** * Memory blocks (src/kernel/libk/memcpy.c, src/kernel/libk/memset.c)

    A memory of bytes; an access to an address that is not mapped, or a word access that is not
    aligned, is a fault.  The functions copy and fill by groups of eight words, then by words,
    then by bytes; they are shown to be the plain copy and the plain fill. *)

From S2P Require Import Prelude.

Open Scope Z_scope.

Notation mem := (gmap Z Z).

Definition load8 (m : mem) (a : Z) : option Z := m !! a.

Definition store8 (m : mem) (a v : Z) : option mem := _ ← m !! a; Some (<[a := u8 v]> m).

(** The processor is little-endian. *)
Definition load32 (m : mem) (a : Z) : option Z :=
  _ ← cassert (a mod 4 =? 0);
  b0 ← load8 m a; b1 ← load8 m (a + 1); b2 ← load8 m (a + 2); b3 ← load8 m (a + 3);
  Some (b0 + 2 ^ 8 * b1 + 2 ^ 16 * b2 + 2 ^ 24 * b3).

Definition store32 (m : mem) (a v : Z) : option mem :=
  _ ← cassert (a mod 4 =? 0);
  m ← store8 m a v; m ← store8 m (a + 1) (v / 2 ^ 8); m ← store8 m (a + 2) (v / 2 ^ 16);
  store8 m (a + 3) (v / 2 ^ 24).

(** ** The code *)

(** [for(; i < size; i++)] over bytes; [n] is the number of iterations left. *)
Fixpoint copy_bytes (n : nat) (dest src i : Z) (m : mem) : option mem :=
  match n with
  | O => Some m
  | S n =>
      b ← load8 m (src + i);
      m ← store8 m (dest + i) b;
      copy_bytes n dest src (i + 1) m
  end.

(** The same over words. *)
Fixpoint copy_words (n : nat) (dest src i : Z) (m : mem) : option mem :=
  match n with
  | O => Some m
  | S n =>
      w ← load32 m (src + 4 * i);
      m ← store32 m (dest + 4 * i) w;
      copy_words n dest src (i + 1) m
  end.

(** Eight loads, then eight stores. *)
Fixpoint load_words (n : nat) (m : mem) (a : Z) : option (list Z) :=
  match n with
  | O => Some []
  | S n => w ← load32 m a; ws ← load_words n m (a + 4); Some (w :: ws)
  end.

Fixpoint store_words (ws : list Z) (m : mem) (a : Z) : option mem :=
  match ws with
  | [] => Some m
  | w :: ws => m ← store32 m a w; store_words ws m (a + 4)
  end.

Fixpoint do_memcpy_8 (count : nat) (dst src : Z) (m : mem) : option mem :=
  match count with
  | O => Some m
  | S count =>
      ws ← load_words 8 m src;
      m ← store_words ws m dst;
      do_memcpy_8 count (dst + 32) (src + 32) m
  end.

(** [memcpy]: the memory and the pointer that is returned. *)
Definition memcpy (dest src size : Z) (m : mem) : option (mem * Z) :=
  if ctrue (Z.land dest 3) || ctrue (Z.land src 3) then
    m ← copy_bytes (Z.to_nat size) dest src 0 m;
    Some (m, dest)
  else
    let isize := Z.shiftr size 5 in
    m ← (if negb (isize =? 0) then do_memcpy_8 (Z.to_nat isize) dest src m else Some m);
    let count := u32 (Z.shiftl isize 5) in
    let size := u32 (size - count) in
    if size =? 0 then Some (m, dest) else
    let dest := u32 (dest + count) in
    let src := u32 (src + count) in
    let isize := Z.shiftr size 2 in
    m ← copy_words (Z.to_nat isize) dest src 0 m;
    let i := u32 (Z.shiftl isize 2) in
    m ← copy_bytes (Z.to_nat (size - i)) dest src i m;
    Some (m, dest).

(** [memset] *)

Fixpoint set_bytes (n : nat) (ptr c : Z) (m : mem) : option mem :=
  match n with
  | O => Some m
  | S n => m ← store8 m ptr c; set_bytes n (ptr + 1) c m
  end.

Fixpoint set_words (n : nat) (wptr val : Z) (m : mem) : option mem :=
  match n with
  | O => Some m
  | S n => m ← store32 m wptr val; set_words n (wptr + 4) val m
  end.

Fixpoint do_memset_8 (size : nat) (dst val : Z) (m : mem) : option mem :=
  match size with
  | O => Some m
  | S size => m ← store_words (replicate 8 val) m dst; do_memset_8 size (dst + 32) val m
  end.

(** [while(((uint32_t) ptr & 0x3) && size && size--)]; three iterations align the pointer. *)
Fixpoint set_head (fuel : nat) (ptr size c : Z) (m : mem) : option (mem * Z * Z) :=
  if ctrue (Z.land ptr 3) && ctrue size then
    match fuel with
    | O => None
    | S fuel => m ← store8 m ptr c; set_head fuel (u32 (ptr + 1)) (u32 (size - 1)) c m
    end
  else Some (m, ptr, size).

Definition memset (s c size : Z) (m : mem) : option (mem * Z) :=
  let c := Z.land c 0xFF in
  '(m, ptr, size) ← set_head 3 s size c m;
  if size =? 0 then Some (m, s) else
  let val := u32 (Z.lor (Z.lor (Z.lor (Z.shiftl c 24) (Z.shiftl c 16)) (Z.shiftl c 8))
                        (Z.land c 0xFF)) in
  let isize := Z.shiftr size 5 in
  m ← (if negb (isize =? 0) then do_memset_8 (Z.to_nat isize) ptr val m else Some m);
  let count := u32 (Z.shiftl isize 5) in
  let size := u32 (size - count) in
  if size =? 0 then Some (m, s) else
  let wptr := u32 (ptr + count) in
  let isize := Z.shiftr size 2 in
  m ← set_words (Z.to_nat isize) wptr val m;
  let size := u32 (size - u32 (Z.shiftl isize 2)) in
  let ptr := u32 (wptr + 4 * isize) in
  m ← set_bytes (Z.to_nat size) ptr c m;
  Some (m, s).

(** ** The reference: every byte of a range at once *)

Definition copied (m : mem) (d s n : Z) : mem :=
  map_imap (λ a v, if (d <=? a) && (a <? d + n) then m !! (s + (a - d)) else Some v) m.

Definition filled (m : mem) (d n c : Z) : mem :=
  map_imap (λ a v, Some (if (d <=? a) && (a <? d + n) then c else v)) m.

Definition mapped (m : mem) (a n : Z) : Prop := ∀ k, 0 ≤ k < n → is_Some (m !! (a + k)).

Definition bytes (m : mem) : Prop := ∀ a b, m !! a = Some b → 0 ≤ b < 256.

Definition apart (d s n : Z) : Prop := d + n ≤ s ∨ s + n ≤ d.

(** ** Proofs *)

Ltac word_lookup :=
  rewrite ?lookup_insert_eq; repeat (rewrite lookup_insert_ne by lia);
  rewrite ?lookup_insert_eq.

Section copy.
Implicit Types (m : mem) (d s n a : Z).

Lemma lookup_copied m d s n a :
  copied m d s n !! a =
  v ← m !! a; if (d <=? a) && (a <? d + n) then m !! (s + (a - d)) else Some v.
Proof. apply map_lookup_imap. Qed.

Lemma lookup_filled m d n c a :
  filled m d n c !! a = v ← m !! a; Some (if (d <=? a) && (a <? d + n) then c else v).
Proof. apply map_lookup_imap. Qed.

Lemma mapped_app m a n1 n2 :
  0 ≤ n1 → 0 ≤ n2 → mapped m a (n1 + n2) ↔ mapped m a n1 ∧ mapped m (a + n1) n2.
Proof.
  intros H1 H2. split.
  - intros Hm. split; intros k Hk; [apply Hm; lia|].
    replace (a + n1 + k) with (a + (n1 + k)) by lia. apply Hm. lia.
  - intros [Ha Hb] k Hk. destruct (decide (k < n1)); [apply Ha; lia|].
    replace (a + k) with (a + n1 + (k - n1)) by lia. apply Hb. lia.
Qed.

Lemma mapped_sub m a n b k : mapped m a n → a ≤ b → b + k ≤ a + n → mapped m b k.
Proof.
  intros Hm H1 H2 i Hi. replace (b + i) with (a + (b - a + i)) by lia. apply Hm. lia.
Qed.

Lemma mapped_copied m d s n a k :
  mapped m s n → mapped m a k → mapped (copied m d s n) a k.
Proof.
  intros Hs Ha i Hi. rewrite lookup_copied. destruct (Ha i Hi) as [v Ev]. rewrite Ev. cbn.
  destruct (d <=? a + i) eqn:E1; [|eauto]. destruct (a + i <? d + n) eqn:E2; [|eauto]. cbn.
  apply (Hs (a + i - d)). lia.
Qed.

Lemma mapped_filled m d n c a k : mapped m a k → mapped (filled m d n c) a k.
Proof.
  intros Ha i Hi. rewrite lookup_filled. destruct (Ha i Hi) as [v ->]. cbn. eauto.
Qed.

Lemma bytes_copied m d s n : bytes m → bytes (copied m d s n).
Proof.
  intros Hb a b. rewrite lookup_copied. destruct (m !! a) as [v|] eqn:Ev; [|done]. cbn.
  destruct (_ && _); [apply Hb|]. intros [= <-]. by apply (Hb a).
Qed.

Lemma copied_0 m d s : copied m d s 0 = m.
Proof.
  apply map_eq. intros a. rewrite lookup_copied. destruct (m !! a) as [v|]; [|done]. cbn.
  destruct (Z.leb_spec d a), (Z.ltb_spec a (d + 0)); cbn; try done. lia.
Qed.

Lemma filled_0 m d c : filled m d 0 c = m.
Proof.
  apply map_eq. intros a. rewrite lookup_filled. destruct (m !! a) as [v|]; [|done]. cbn.
  destruct (Z.leb_spec d a), (Z.ltb_spec a (d + 0)); cbn; try done. lia.
Qed.

(** Ranges are copied and filled piece by piece. *)
Lemma copied_app m d s n1 n2 :
  0 ≤ n1 → 0 ≤ n2 → apart d s (n1 + n2) → mapped m s n1 →
  copied (copied m d s n1) (d + n1) (s + n1) n2 = copied m d s (n1 + n2).
Proof.
  intros H1 H2 Hap Hs. apply map_eq. intros a. rewrite !lookup_copied.
  destruct (m !! a) as [v|] eqn:Ev; [|done]. cbn.
  destruct (Z.leb_spec d a), (Z.ltb_spec a (d + n1)), (Z.leb_spec (d + n1) a),
    (Z.ltb_spec a (d + n1 + n2)), (Z.ltb_spec a (d + (n1 + n2))); cbn; try done; try lia.
  - destruct (Hs (a - d)) as [w Ew]; [lia|]. rewrite Ew. done.
  - replace (s + n1 + (a - (d + n1))) with (s + (a - d)) by lia.
    destruct (m !! (s + (a - d))) as [w|] eqn:Ew; [|done]. cbn.
    destruct (Z.leb_spec d (s + (a - d))), (Z.ltb_spec (s + (a - d)) (d + n1)); cbn; try done.
    destruct Hap; lia.
Qed.

Lemma filled_app m d n1 n2 c :
  0 ≤ n1 → 0 ≤ n2 → filled (filled m d n1 c) (d + n1) n2 c = filled m d (n1 + n2) c.
Proof.
  intros H1 H2. apply map_eq. intros a. rewrite !lookup_filled.
  destruct (m !! a) as [v|] eqn:Ev; [|done]. cbn.
  destruct (Z.leb_spec d a), (Z.ltb_spec a (d + n1)), (Z.leb_spec (d + n1) a),
    (Z.ltb_spec a (d + n1 + n2)), (Z.ltb_spec a (d + (n1 + n2))); cbn; try done; lia.
Qed.

Lemma store8_Some m a v : is_Some (m !! a) → store8 m a v = Some (<[a := u8 v]> m).
Proof. unfold store8. by intros [w ->]. Qed.

Lemma store8_copied m d s : is_Some (m !! d) → bytes m →
  ∀ b, m !! s = Some b → store8 m d b = Some (copied m d s 1).
Proof.
  intros Hd Hb b Es. rewrite store8_Some by done. f_equal. apply map_eq. intros a.
  rewrite lookup_copied. destruct (decide (a = d)) as [->|Hne].
  - destruct Hd as [v ->]. rewrite lookup_insert_eq. cbn.
    rewrite (proj2 (Z.leb_le d d)), (proj2 (Z.ltb_lt d (d + 1))), Z.sub_diag, Z.add_0_r, Es by lia.
    cbn. by rewrite u8_small by (by eapply Hb).
  - rewrite lookup_insert_ne by done. destruct (m !! a); [|done]. cbn.
    destruct (Z.leb_spec d a), (Z.ltb_spec a (d + 1)); cbn; try done. lia.
Qed.

Lemma copy_bytes_spec k dest src i m :
  bytes m → apart (dest + i) (src + i) (Z.of_nat k) → mapped m (dest + i) (Z.of_nat k) →
  mapped m (src + i) (Z.of_nat k) →
  copy_bytes k dest src i m = Some (copied m (dest + i) (src + i) (Z.of_nat k)).
Proof.
  revert i m. induction k as [|k IH]; intros i m Hb Hap Hd Hs; [by rewrite copied_0|].
  cbn [copy_bytes]. unfold load8. destruct (Hs 0) as [b Eb]; [lia|]. rewrite Z.add_0_r in Eb.
  rewrite Eb. cbn [mbind option_bind].
  assert (is_Some (m !! (dest + i))) as Hd0.
  { replace (dest + i) with (dest + i + 0) by lia. apply Hd. lia. }
  rewrite (store8_copied m (dest + i) (src + i) Hd0 Hb b Eb). cbn [mbind option_bind].
  assert (mapped m (src + i) 1) as Hs1 by (apply (mapped_sub _ _ _ _ _ Hs); lia).
  rewrite IH.
  - f_equal. rewrite Nat2Z.inj_succ, <- Z.add_1_l, !Z.add_assoc.
    apply copied_app; try lia; [|done]. rewrite Nat2Z.inj_succ, <- Z.add_1_l in Hap. done.
  - by apply bytes_copied.
  - unfold apart in *. lia.
  - apply mapped_copied; [done|]. apply (mapped_sub _ _ _ _ _ Hd); lia.
  - apply mapped_copied; [done|]. apply (mapped_sub _ _ _ _ _ Hs); lia.
Qed.

(** The bytes of a word. *)
Lemma word_bytes b0 b1 b2 b3 :
  0 ≤ b0 < 256 → 0 ≤ b1 < 256 → 0 ≤ b2 < 256 → 0 ≤ b3 < 256 →
  let w := b0 + 2 ^ 8 * b1 + 2 ^ 16 * b2 + 2 ^ 24 * b3 in
  u8 w = b0 ∧ u8 (w / 2 ^ 8) = b1 ∧ u8 (w / 2 ^ 16) = b2 ∧ u8 (w / 2 ^ 24) = b3.
Proof.
  intros H0 H1 H2 H3 w. unfold u8.
  assert (w / 2 ^ 8 = b1 + 2 ^ 8 * b2 + 2 ^ 16 * b3) as E1
    by (symmetry; apply (Z.div_unique w _ _ b0); lia).
  assert (w / 2 ^ 16 = b2 + 2 ^ 8 * b3) as E2
    by (symmetry; apply (Z.div_unique w _ _ (b0 + 2 ^ 8 * b1)); lia).
  assert (w / 2 ^ 24 = b3) as E3
    by (symmetry; apply (Z.div_unique w _ _ (b0 + 2 ^ 8 * b1 + 2 ^ 16 * b2)); lia).
  rewrite E1, E2, E3. split_and!; symmetry.
  - apply (Z.mod_unique w 256 (b1 + 2 ^ 8 * b2 + 2 ^ 16 * b3)); lia.
  - apply (Z.mod_unique _ 256 (b2 + 2 ^ 8 * b3)); lia.
  - apply (Z.mod_unique _ 256 b3); lia.
  - apply (Z.mod_unique _ 256 0); lia.
Qed.

Lemma store32_Some m a w :
  a mod 4 = 0 → mapped m a 4 →
  store32 m a w = Some (<[a + 3 := u8 (w / 2 ^ 24)]> (<[a + 2 := u8 (w / 2 ^ 16)]>
    (<[a + 1 := u8 (w / 2 ^ 8)]> (<[a := u8 w]> m)))).
Proof.
  intros Ha Hm. unfold store32. rewrite Ha. cbn [Z.eqb cassert mbind option_bind].
  assert (is_Some (m !! a)) as H0 by (replace a with (a + 0) by lia; apply Hm; lia).
  rewrite store8_Some by done. cbn [mbind option_bind].
  rewrite store8_Some by (rewrite lookup_insert_ne by lia; apply Hm; lia). cbn [mbind option_bind].
  rewrite store8_Some by (rewrite !lookup_insert_ne by lia; apply Hm; lia). cbn [mbind option_bind].
  by rewrite store8_Some by (rewrite !lookup_insert_ne by lia; apply Hm; lia).
Qed.

(** The four addresses of a word. *)
Lemma word_cases d a : d ≤ a < d + 4 → a = d ∨ a = d + 1 ∨ a = d + 2 ∨ a = d + 3.
Proof. lia. Qed.

Lemma copy_word m d s w :
  bytes m → d mod 4 = 0 → mapped m d 4 → load32 m s = Some w →
  store32 m d w = Some (copied m d s 4).
Proof.
  intros Hb Hd Hm El. rewrite store32_Some by done. unfold load32 in El.
  destruct (cassert _); [|done]. cbn in El. unfold load8 in El.
  destruct (m !! s) as [b0|] eqn:E0; [|done]. cbn in El.
  destruct (m !! (s + 1)) as [b1|] eqn:E1; [|done]. cbn in El.
  destruct (m !! (s + 2)) as [b2|] eqn:E2; [|done]. cbn in El.
  destruct (m !! (s + 3)) as [b3|] eqn:E3; [|done]. injection El as <-.
  destruct (word_bytes b0 b1 b2 b3) as (F0 & F1 & F2 & F3);
    [by eapply Hb|by eapply Hb|by eapply Hb|by eapply Hb|].
  cbn zeta in F0, F1, F2, F3.
  change (Z.pow_pos 2 8) with (2 ^ 8); change (Z.pow_pos 2 16) with (2 ^ 16);
    change (Z.pow_pos 2 24) with (2 ^ 24).
  rewrite F0, F1, F2, F3. clear F0 F1 F2 F3. f_equal. apply map_eq. intros a.
  rewrite lookup_copied.
  destruct (Z.leb_spec d a), (Z.ltb_spec a (d + 4)); cbn [andb];
    try (word_lookup; by destruct (m !! a)).
  destruct (Hm (a - d)) as [v Ev]; [lia|]. rewrite Zplus_minus in Ev. rewrite Ev. cbn.
  destruct (word_cases d a) as [->|[->|[->| ->]]]; [lia|..]; word_lookup.
  - by replace (s + (d - d)) with s by lia.
  - by replace (s + (d + 1 - d)) with (s + 1) by lia.
  - by replace (s + (d + 2 - d)) with (s + 2) by lia.
  - by replace (s + (d + 3 - d)) with (s + 3) by lia.
Qed.

Lemma load32_mapped m s : s mod 4 = 0 → mapped m s 4 → ∃ w, load32 m s = Some w.
Proof.
  intros Hs Hm. unfold load32, load8. rewrite Hs. cbn.
  destruct (Hm 0) as [b0 E0]; [lia|]. rewrite Z.add_0_r in E0. rewrite E0. cbn.
  destruct (Hm 1) as [b1 ->]; [lia|]. destruct (Hm 2) as [b2 ->]; [lia|].
  destruct (Hm 3) as [b3 ->]; [lia|]. cbn. eauto.
Qed.

Lemma copy_words_spec k dest src i m :
  bytes m → let d := dest + 4 * i in let s := src + 4 * i in let n := 4 * Z.of_nat k in
  d mod 4 = 0 → s mod 4 = 0 → apart d s n → mapped m d n → mapped m s n →
  copy_words k dest src i m = Some (copied m d s n).
Proof.
  revert i m. induction k as [|k IH]; intros i m Hb d s n Hd Hs Hap Md Ms.
  { subst n. cbn. by rewrite copied_0. }
  subst d s n. cbn [copy_words].
  assert (mapped m (src + 4 * i) 4) as Ms4 by (apply (mapped_sub _ _ _ _ _ Ms); lia).
  destruct (load32_mapped m (src + 4 * i)) as [w Ew]; [done..|]. rewrite Ew. cbn [mbind option_bind].
  rewrite (copy_word m _ _ _ Hb Hd) by (done || (apply (mapped_sub _ _ _ _ _ Md); lia)).
  cbn [mbind option_bind].
  replace (4 * Z.of_nat (S k)) with (4 + 4 * Z.of_nat k) in * by lia.
  assert (dest + 4 * (i + 1) = dest + 4 * i + 4) as Ed by lia.
  assert (src + 4 * (i + 1) = src + 4 * i + 4) as Es by lia.
  rewrite IH; rewrite ?Ed, ?Es.
  - f_equal. apply copied_app; try lia; done.
  - by apply bytes_copied.
  - rewrite <- Zplus_mod_idemp_l, Hd. done.
  - rewrite <- Zplus_mod_idemp_l, Hs. done.
  - unfold apart in *. lia.
  - apply mapped_copied; [done|]. apply (mapped_sub _ _ _ _ _ Md); lia.
  - apply mapped_copied; [done|]. apply (mapped_sub _ _ _ _ _ Ms); lia.
Qed.

Lemma load_words_frame k m m' s :
  (∀ a, s ≤ a < s + 4 * Z.of_nat k → m' !! a = m !! a) → load_words k m' s = load_words k m s.
Proof.
  revert s. induction k as [|k IH]; intros s Hf; [done|]. cbn [load_words].
  unfold load32, load8. rewrite !Hf by lia. rewrite IH; [done|]. intros a Ha. apply Hf. lia.
Qed.

Lemma load_words_mapped k m s :
  s mod 4 = 0 → mapped m s (4 * Z.of_nat k) → ∃ ws, load_words k m s = Some ws.
Proof.
  revert s. induction k as [|k IH]; intros s Hs Hm; [by eexists|]. cbn [load_words].
  destruct (load32_mapped m s) as [w ->]; [done|apply (mapped_sub _ _ _ _ _ Hm); lia|].
  destruct (IH (s + 4)) as [ws ->]; [by rewrite <- Zplus_mod_idemp_l, Hs| |by eexists].
  apply (mapped_sub _ _ _ _ _ Hm); lia.
Qed.

Lemma store_words_spec k m d s ws :
  bytes m → d mod 4 = 0 → load_words k m s = Some ws → apart d s (4 * Z.of_nat k) →
  mapped m d (4 * Z.of_nat k) → mapped m s (4 * Z.of_nat k) →
  store_words ws m d = Some (copied m d s (4 * Z.of_nat k)).
Proof.
  revert m d s ws. induction k as [|k IH]; intros m d s ws Hb Hd El Hap Md Ms.
  { injection El as <-. cbn. by rewrite copied_0. }
  cbn [load_words] in El. destruct (load32 m s) as [w|] eqn:Ew; [|done]. cbn in El.
  destruct (load_words k m (s + 4)) as [ws'|] eqn:Ews; [|done]. injection El as <-.
  cbn [store_words].
  replace (4 * Z.of_nat (S k)) with (4 + 4 * Z.of_nat k) in * by lia.
  apply mapped_app in Md as [Md1 Md2]; [|lia..]. apply mapped_app in Ms as [Ms1 Ms2]; [|lia..].
  rewrite (copy_word m d s w Hb Hd Md1 Ew). cbn [mbind option_bind].
  rewrite (IH (copied m d s 4) (d + 4) (s + 4) ws').
  - f_equal. apply copied_app; try lia; done.
  - by apply bytes_copied.
  - by rewrite <- Zplus_mod_idemp_l, Hd.
  - rewrite <- Ews. apply load_words_frame. intros a Ha. rewrite lookup_copied.
    destruct (m !! a); [|done]. cbn.
    destruct (Z.leb_spec d a), (Z.ltb_spec a (d + 4)); cbn; try done. unfold apart in Hap. lia.
  - unfold apart in *. lia.
  - by apply mapped_copied.
  - by apply mapped_copied.
Qed.

Lemma do_memcpy_8_spec k m d s :
  bytes m → d mod 4 = 0 → s mod 4 = 0 → let n := 32 * Z.of_nat k in
  apart d s n → mapped m d n → mapped m s n → do_memcpy_8 k d s m = Some (copied m d s n).
Proof.
  revert m d s. induction k as [|k IH]; intros m d s Hb Hd Hs n Hap Md Ms.
  { subst n. cbn. by rewrite copied_0. }
  subst n. cbn [do_memcpy_8].
  replace (32 * Z.of_nat (S k)) with (32 + 32 * Z.of_nat k) in * by lia.
  apply mapped_app in Md as [Md1 Md2]; [|lia..]. apply mapped_app in Ms as [Ms1 Ms2]; [|lia..].
  destruct (load_words_mapped 8 m s Hs Ms1) as [ws Ews]. rewrite Ews. cbn [mbind option_bind].
  rewrite (store_words_spec 8 m d s ws Hb Hd Ews); [|unfold apart in *; lia|done|done].
  change (4 * Z.of_nat 8) with 32. cbn [mbind option_bind].
  rewrite IH.
  - f_equal. apply copied_app; try lia; done.
  - by apply bytes_copied.
  - by rewrite <- Zplus_mod_idemp_l, Hd.
  - by rewrite <- Zplus_mod_idemp_l, Hs.
  - unfold apart in *. lia.
  - by apply mapped_copied.
  - by apply mapped_copied.
Qed.

Lemma land_3 a : ctrue (Z.land a 3) = negb (a mod 4 =? 0).
Proof. unfold ctrue. change 3 with (Z.ones 2). by rewrite Z.land_ones by lia. Qed.

(** The size, cut in groups of eight words, words and bytes. *)
Lemma size_parts size :
  0 ≤ size < wsize →
  let isize := Z.shiftr size 5 in
  0 ≤ isize ∧ u32 (Z.shiftl isize 5) = 32 * isize ∧
  u32 (size - 32 * isize) = size - 32 * isize ∧ 0 ≤ size - 32 * isize < 32.
Proof.
  intros Hs. cbn. rewrite (Z.shiftr_div_pow2 size 5), Z.shiftl_mul_pow2 by lia.
  change (2 ^ 5) with 32. pose proof (Z.div_mod size 32 ltac:(lia)).
  pose proof (Z.mod_pos_bound size 32 ltac:(lia)). unfold wsize in *.
  rewrite !u32_small by (unfold wsize; lia). lia.
Qed.

Lemma word_parts size :
  0 ≤ size < wsize →
  let isize := Z.shiftr size 2 in
  0 ≤ isize ∧ u32 (Z.shiftl isize 2) = 4 * isize ∧
  u32 (size - 4 * isize) = size - 4 * isize ∧ 0 ≤ size - 4 * isize < 4.
Proof.
  intros Hs. cbn. rewrite (Z.shiftr_div_pow2 size 2), Z.shiftl_mul_pow2 by lia.
  change (2 ^ 2) with 4. pose proof (Z.div_mod size 4 ltac:(lia)).
  pose proof (Z.mod_pos_bound size 4 ltac:(lia)). unfold wsize in *.
  rewrite !u32_small by (unfold wsize; lia). lia.
Qed.
End copy.

Lemma memcpy_spec m dest src size :
  bytes m → 0 ≤ dest → 0 ≤ src → 0 ≤ size → dest + size < wsize → src + size < wsize →
  apart dest src size → mapped m dest size → mapped m src size →
  memcpy dest src size m = Some (copied m dest src size,
    if (dest mod 4 =? 0) && (src mod 4 =? 0) && negb (size mod 32 =? 0)
    then dest + 32 * (size / 32) else dest).
Proof.
  intros Hb Hd0 Hs0 Hn Hd Hs Hap Md Ms. unfold memcpy. rewrite !land_3.
  destruct (Z.eqb_spec (dest mod 4) 0) as [Ad|Ad], (Z.eqb_spec (src mod 4) 0) as [As|As];
    cbn [negb orb andb];
    try (rewrite copy_bytes_spec; rewrite ?Z.add_0_r, ?Z2Nat.id; done).
  assert (size / 32 = Z.shiftr size 5) as -> by (by rewrite Z.shiftr_div_pow2 by lia).
  assert (size mod 32 = size - 32 * Z.shiftr size 5) as ->
    by (rewrite Z.shiftr_div_pow2 by lia; apply Z.mod_eq; lia).
  destruct (size_parts size ltac:(lia)) as (Hi & -> & -> & Hr). cbn zeta in *.
  set (k := Z.shiftr size 5) in *.
  replace size with (32 * k + (size - 32 * k)) in Md, Ms, Hap by lia.
  pose proof Hap as Hap'.
  apply mapped_app in Md as [Md1 Md2]; [|lia..]. apply mapped_app in Ms as [Ms1 Ms2]; [|lia..].
  assert ((if negb (k =? 0) then do_memcpy_8 (Z.to_nat k) dest src m else Some m) =
    Some (copied m dest src (32 * k))) as ->.
  { destruct (Z.eqb_spec k 0) as [E|E]; cbn; [by rewrite E, copied_0|].
    rewrite do_memcpy_8_spec; rewrite ?Z2Nat.id by lia; try done. unfold apart in *. lia. }
  cbn [mbind option_bind]. destruct (Z.eqb_spec (size - 32 * k) 0) as [E0|E0].
  { cbn [negb]. by replace size with (32 * k) by lia. }
  cbn [negb].
  rewrite (u32_small (dest + 32 * k)), (u32_small (src + 32 * k)) by lia.
  set (m1 := copied m dest src (32 * k)). set (r := size - 32 * k) in *.
  destruct (word_parts r ltac:(unfold wsize; lia)) as (Hj & Ej & _ & Hr2). cbn zeta in *. rewrite Ej.
  set (j := Z.shiftr r 2) in *.
  assert (mapped m1 (dest + 32 * k) r) as N1 by (by apply mapped_copied).
  assert (mapped m1 (src + 32 * k) r) as N2 by (by apply mapped_copied).
  assert (bytes m1) as Hb1 by (by apply bytes_copied).
  assert (apart (dest + 32 * k) (src + 32 * k) r) as Hap1 by (unfold apart in *; lia).
  rewrite copy_words_spec; rewrite ?Z.mul_0_r, ?Z.add_0_r, ?Z2Nat.id by lia; try done.
  - cbn [mbind option_bind].
    rewrite copy_bytes_spec; rewrite ?Z2Nat.id by lia.
    + cbn [mbind option_bind]. do 2 f_equal.
      rewrite copied_app; [|lia|lia| |apply (mapped_sub _ _ _ _ _ N2); lia].
      * unfold m1. replace (4 * j + (r - 4 * j)) with r by lia.
        rewrite copied_app by (done || lia). f_equal. lia.
      * by replace (4 * j + (r - 4 * j)) with r by lia.
    + by apply bytes_copied.
    + unfold apart in *. lia.
    + apply mapped_copied; [apply (mapped_sub _ _ _ _ _ N2); lia|].
      apply (mapped_sub _ _ _ _ _ N1); lia.
    + apply mapped_copied; [apply (mapped_sub _ _ _ _ _ N2); lia|].
      apply (mapped_sub _ _ _ _ _ N2); lia.
  - rewrite <- Zplus_mod_idemp_l, Ad. replace (32 * k) with (8 * k * 4) by lia.
    by rewrite Z.add_0_l, Z_mod_mult.
  - rewrite <- Zplus_mod_idemp_l, As. replace (32 * k) with (8 * k * 4) by lia.
    by rewrite Z.add_0_l, Z_mod_mult.
  - unfold apart in *. lia.
  - apply (mapped_sub _ _ _ _ _ N1); lia.
  - apply (mapped_sub _ _ _ _ _ N2); lia.
Qed.

(** C37. [memcpy] is the plain copy of a range of bytes: on ranges that are mapped and do not
    overlap, with any alignment and any size, it never faults, makes no unaligned word access,
    gives every destination byte its source byte and changes nothing else.  The pointer it
    returns is [dest], except for an aligned copy whose size is not a multiple of 32, where it
    is the end of the part copied by groups of eight words. *)
Theorem memcpy_is_copy m dest src size :
  bytes m → 0 ≤ dest → 0 ≤ src → 0 ≤ size → dest + size < wsize → src + size < wsize →
  apart dest src size → mapped m dest size → mapped m src size →
  memcpy dest src size m = Some (copied m dest src size,
    if (dest mod 4 =? 0) && (src mod 4 =? 0) && negb (size mod 32 =? 0)
    then dest + 32 * (size / 32) else dest).
Proof. exact (memcpy_spec m dest src size). Qed.

(** ** Filling *)

Section fill.
Implicit Types (m : mem) (d n a c : Z).

Lemma store8_filled m d c : 0 ≤ c < 256 → is_Some (m !! d) → store8 m d c = Some (filled m d 1 c).
Proof.
  intros Hc Hd. rewrite store8_Some by done. f_equal. apply map_eq. intros a.
  rewrite lookup_filled. destruct (decide (a = d)) as [->|Hne].
  - destruct Hd as [v ->]. rewrite lookup_insert_eq. cbn.
    by rewrite (proj2 (Z.leb_le d d)), (proj2 (Z.ltb_lt d (d + 1))), u8_small by lia.
  - rewrite lookup_insert_ne by done. destruct (m !! a); [|done]. cbn.
    destruct (Z.leb_spec d a), (Z.ltb_spec a (d + 1)); cbn; try done. lia.
Qed.

Lemma set_bytes_spec k m d c :
  0 ≤ c < 256 → mapped m d (Z.of_nat k) → set_bytes k d c m = Some (filled m d (Z.of_nat k) c).
Proof.
  intros Hc. revert m d. induction k as [|k IH]; intros m d Hm; [by rewrite filled_0|].
  cbn [set_bytes]. replace (Z.of_nat (S k)) with (1 + Z.of_nat k) in * by lia.
  apply mapped_app in Hm as [H1 H2]; [|lia..].
  rewrite store8_filled; [|done|replace d with (d + 0) by lia; apply H1; lia].
  cbn [mbind option_bind]. rewrite IH by (by apply mapped_filled).
  by rewrite filled_app by lia.
Qed.

(** The word made of four times the byte [c]. *)
Lemma fill_word c :
  0 ≤ c < 256 →
  let v := u32 (Z.lor (Z.lor (Z.lor (Z.shiftl c 24) (Z.shiftl c 16)) (Z.shiftl c 8))
                      (Z.land c 0xFF)) in
  u8 v = c ∧ u8 (v / 2 ^ 8) = c ∧ u8 (v / 2 ^ 16) = c ∧ u8 (v / 2 ^ 24) = c.
Proof.
  intros Hc. cbv zeta.
  assert (forallb (λ n : nat, let c := Z.of_nat n in
    let v := u32 (Z.lor (Z.lor (Z.lor (Z.shiftl c 24) (Z.shiftl c 16)) (Z.shiftl c 8))
                        (Z.land c 0xFF)) in
    (u8 v =? c) && (u8 (v / 2 ^ 8) =? c) && (u8 (v / 2 ^ 16) =? c) && (u8 (v / 2 ^ 24) =? c))
    (seq 0 256) = true) as Hall by (by vm_compute).
  rewrite forallb_forall in Hall. specialize (Hall (Z.to_nat c)). cbv zeta in Hall.
  rewrite Z2Nat.id in Hall by lia.
  destruct (andb_prop _ _ (Hall ltac:(apply in_seq; lia))) as [Ha H4].
  apply andb_prop in Ha as [Ha H3]. apply andb_prop in Ha as [H1 H2].
  split_and!; by apply Z.eqb_eq.
Qed.

(** A word all of whose bytes are [c]. *)
Definition all_bytes (v c : Z) : Prop :=
  u8 v = c ∧ u8 (v / 2 ^ 8) = c ∧ u8 (v / 2 ^ 16) = c ∧ u8 (v / 2 ^ 24) = c.

Lemma store32_filled m d v c :
  all_bytes v c → d mod 4 = 0 → mapped m d 4 → store32 m d v = Some (filled m d 4 c).
Proof.
  intros (F0 & F1 & F2 & F3) Hd Hm. rewrite store32_Some by done.
  rewrite F0, F1, F2, F3. f_equal. apply map_eq. intros a. rewrite lookup_filled.
  destruct (Z.leb_spec d a), (Z.ltb_spec a (d + 4)); cbn [andb];
    try (word_lookup; by destruct (m !! a)).
  destruct (Hm (a - d)) as [w Ew]; [lia|]. rewrite Zplus_minus in Ew. rewrite Ew. cbn.
  destruct (word_cases d a) as [->|[->|[->| ->]]]; [lia|..]; by word_lookup.
Qed.

Lemma mod4_add d : d mod 4 = 0 → (d + 4) mod 4 = 0.
Proof. intros E. by rewrite <- Zplus_mod_idemp_l, E. Qed.

Lemma set_words_spec k m d v c :
  all_bytes v c → d mod 4 = 0 → mapped m d (4 * Z.of_nat k) →
  set_words k d v m = Some (filled m d (4 * Z.of_nat k) c).
Proof.
  intros Hv. revert m d. induction k as [|k IH]; intros m d Hd Hm; [by rewrite filled_0|].
  cbn [set_words]. replace (4 * Z.of_nat (S k)) with (4 + 4 * Z.of_nat k) in * by lia.
  apply mapped_app in Hm as [H1 H2]; [|lia..].
  rewrite (store32_filled m d v c) by done. cbn [mbind option_bind].
  rewrite IH by (by apply mod4_add || by apply mapped_filled). by rewrite filled_app by lia.
Qed.

Lemma store_words_filled k m d v c :
  all_bytes v c → d mod 4 = 0 → mapped m d (4 * Z.of_nat k) →
  store_words (replicate k v) m d = Some (filled m d (4 * Z.of_nat k) c).
Proof.
  intros Hv Hd Hm. rewrite <- (set_words_spec k m d v c Hv Hd Hm). clear Hd Hm.
  revert m d. induction k as [|k IH]; intros m d; [done|]. cbn.
  destruct (store32 m d v); [|done]. apply IH.
Qed.

Lemma do_memset_8_spec k m d v c :
  all_bytes v c → d mod 4 = 0 → mapped m d (32 * Z.of_nat k) →
  do_memset_8 k d v m = Some (filled m d (32 * Z.of_nat k) c).
Proof.
  intros Hv. revert m d. induction k as [|k IH]; intros m d Hd Hm; [by rewrite filled_0|].
  cbn [do_memset_8]. replace (32 * Z.of_nat (S k)) with (32 + 32 * Z.of_nat k) in * by lia.
  apply mapped_app in Hm as [H1 H2]; [|lia..].
  rewrite (store_words_filled 8 m d v c Hv Hd H1). change (4 * Z.of_nat 8) with 32.
  cbn [mbind option_bind].
  rewrite IH by (by rewrite <- Zplus_mod_idemp_l, Hd || by apply mapped_filled).
  by rewrite filled_app by lia.
Qed.

(** The head: up to three bytes, until the pointer is aligned or the size is 0. *)
Lemma set_head_spec fuel m d n c :
  0 ≤ c < 256 → 0 ≤ d → 0 ≤ n → d + n < wsize → mapped m d n →
  d mod 4 = 0 ∨ 4 - d mod 4 ≤ Z.of_nat fuel →
  ∃ k, 0 ≤ k ≤ n ∧ set_head fuel d n c m = Some (filled m d k c, d + k, n - k) ∧
    (k = n ∨ (d + k) mod 4 = 0).
Proof.
  intros Hc. revert m d n. induction fuel as [|fuel IH]; intros m d n Hd Hn Hw Hm Hf;
    unfold set_head; fold set_head; rewrite land_3; unfold ctrue;
    destruct (Z.eqb_spec (d mod 4) 0) as [Ed|Ed]; cbn [negb andb];
    try (exists 0; rewrite filled_0, Z.add_0_r, Z.sub_0_r; split; [lia|]; auto; done).
  - exfalso. pose proof (Z.mod_pos_bound d 4 ltac:(lia)). lia.
  - destruct (Z.eqb_spec n 0) as [->|En]; cbn [negb].
    { exists 0. rewrite filled_0, Z.add_0_r. split; [lia|]. auto. }
    rewrite !u32_small by lia.
    replace n with (1 + (n - 1)) in Hm by lia. apply mapped_app in Hm as [H1 H2]; [|lia..].
    rewrite store8_filled; [|done|replace d with (d + 0) by lia; apply H1; lia].
    cbn [mbind option_bind].
    destruct (IH (filled m d 1 c) (d + 1) (n - 1)) as (k & Hk & E & Hend);
      [lia|lia|lia|by apply mapped_filled| |].
    + pose proof (Z.div_mod d 4 ltac:(lia)) as E4.
      pose proof (Z.mod_pos_bound d 4 ltac:(lia)) as B4.
      destruct (decide (d mod 4 = 3)) as [E3|E3].
      * left. symmetry. apply (Z.mod_unique _ 4 (d / 4 + 1)); lia.
      * right. rewrite <- (Z.mod_unique (d + 1) 4 (d / 4) (d mod 4 + 1)); lia.
    + exists (1 + k). split; [lia|]. rewrite E, filled_app by lia. split.
      { by rewrite Z.add_assoc, Z.sub_add_distr. }
      destruct Hend; [left; lia|right]. by rewrite Z.add_assoc.
Qed.
End fill.

(** [memset] is the plain fill of a range of bytes with the low byte of [c]: with any alignment
    and any size it never faults, makes no unaligned word access, changes nothing outside the
    range and returns its argument. *)
Theorem memset_is_fill m s c size :
  0 ≤ s → 0 ≤ size → s + size < wsize → mapped m s size →
  memset s c size m = Some (filled m s size (Z.land c 0xFF), s).
Proof.
  intros Hs Hn Hw Hm. unfold memset. cbv zeta.
  assert (0 ≤ Z.land c 0xFF < 256) as Hc.
  { change 0xFF with (Z.ones 8). rewrite Z.land_ones by lia. by apply Z.mod_pos_bound. }
  set (b := Z.land c 0xFF) in *.
  destruct (set_head_spec 3 m s size b) as (k & Hk & -> & Hend); try done.
  { pose proof (Z.mod_pos_bound s 4 ltac:(lia)). lia. }
  cbn [mbind option_bind]. destruct (Z.eqb_spec (size - k) 0) as [E|E].
  { by replace k with size by lia. }
  destruct Hend as [|Ha]; [lia|]. pose proof (fill_word b Hc) as Hv. cbv zeta in Hv.
  set (v := u32 _) in *. set (r := size - k) in *.
  assert (∀ k' n, 0 ≤ k' → 0 ≤ n → k' + n ≤ size → mapped (filled m s k' b) (s + k') n) as Hmp.
  { intros k' n H1 H2 H3. apply mapped_filled, (mapped_sub _ _ _ _ _ Hm); lia. }
  destruct (size_parts r ltac:(lia)) as (Hi & Ei & Er & Hr). cbv zeta in *. rewrite Ei, Er.
  set (i := Z.shiftr r 5) in *.
  assert ((if negb (i =? 0) then do_memset_8 (Z.to_nat i) (s + k) v (filled m s k b)
           else Some (filled m s k b)) = Some (filled m s (k + 32 * i) b)) as ->.
  { rewrite <- filled_app by lia. destruct (Z.eqb_spec i 0) as [E0|E0]; cbn [negb].
    - by rewrite E0, filled_0.
    - rewrite (do_memset_8_spec _ _ _ v b); rewrite ?Z2Nat.id by lia; try done. apply Hmp; lia. }
  cbn [mbind option_bind]. destruct (Z.eqb_spec (r - 32 * i) 0) as [E0|E0].
  { do 3 f_equal. lia. }
  rewrite (u32_small (s + k + 32 * i)) by lia. set (r2 := r - 32 * i) in *.
  destruct (word_parts r2 ltac:(unfold wsize; lia)) as (Hj & Ej & Er2 & Hr2). cbv zeta in *.
  rewrite Ej, Er2. set (j := Z.shiftr r2 2) in *.
  rewrite (u32_small (s + k + 32 * i + 4 * j)) by lia.
  replace (s + k + 32 * i) with (s + (k + 32 * i)) by lia.
  rewrite (set_words_spec _ _ _ v b); rewrite ?Z2Nat.id by lia; try done.
  - rewrite filled_app by lia. cbn [mbind option_bind].
    replace (s + (k + 32 * i) + 4 * j) with (s + (k + 32 * i + 4 * j)) by lia.
    rewrite set_bytes_spec; rewrite ?Z2Nat.id by lia; [|done|apply Hmp; lia].
    rewrite filled_app by lia. cbn [mbind option_bind]. do 3 f_equal. lia.
  - replace (s + (k + 32 * i)) with (s + k + 8 * i * 4) by lia. by rewrite Z_mod_plus_full.
  - apply Hmp; lia.
Qed.

(** ** An example memory *)

Definition mem_ex : mem := list_to_map ((λ a, (a, a mod 251)) <$> seqZ 0x100 0x100).

Lemma mapped_check m a n :
  forallb (λ k, bool_decide (is_Some (m !! (a + k)))) (seqZ 0 n) = true → mapped m a n.
Proof.
  rewrite forallb_forall. intros Hall k Hk. eapply bool_decide_eq_true, Hall.
  apply list_elem_of_In, elem_of_seqZ. lia.
Qed.

Lemma bytes_check m :
  forallb (λ x : Z * Z, (0 <=? x.2) && (x.2 <? 256)) (map_to_list m) = true → bytes m.
Proof.
  rewrite forallb_forall. intros Hall a b Hab.
  apply elem_of_map_to_list, list_elem_of_In in Hab. specialize (Hall _ Hab). cbn in Hall. lia.
Qed.

(** 43 bytes from an aligned address: one group of eight words, two words and three bytes. *)
Lemma memcpy_is_copy_witness :
  (λ r : mem * Z, (r.1 !! 0x12A, r.1 !! 0x12B, r.2)) <$> memcpy 0x100 0x180 43 mem_ex =
    Some (Some ((0x180 + 0x2A) mod 251), Some (0x12B mod 251), 0x120) ∧
  memcpy 0x100 0x180 43 mem_ex = Some (copied mem_ex 0x100 0x180 43, 0x120).
Proof.
  split; [vm_compute; reflexivity|].
  apply (memcpy_is_copy mem_ex 0x100 0x180 43); try (unfold wsize, apart; lia).
  - apply bytes_check. vm_compute. reflexivity.
  - apply mapped_check. vm_compute. reflexivity.
  - apply mapped_check. vm_compute. reflexivity.
Defined.

Lemma memset_is_fill_witness :
  memset 0x103 0x1AB 50 mem_ex = Some (filled mem_ex 0x103 50 0xAB, 0x103).
Proof.
  apply (memset_is_fill mem_ex 0x103 0x1AB 50); try (unfold wsize; lia).
  apply mapped_check. vm_compute. reflexivity.
Defined.
