(* ===== verification/Str.v ===== *)
(** * C strings (src/kernel/libk/str*.c, atoi.c, ctype.c)

    The string functions of the kernel library on the memory of [Mem].  A loop that runs up to
    the end of a string gets as fuel the number of mapped bytes: a string is no longer. *)

From S2P Require Import Prelude Mem.

Open Scope Z_scope.

(** [char] is signed. *)
Definition schar (b : Z) : Z := if b <? 128 then b else b - 256.

Definition str_fuel (m : mem) : nat := S (size m).

(** ** The code *)

Fixpoint strlen_loop (fuel : nat) (m : mem) (ptr : Z) : option Z :=
  match fuel with
  | O => None
  | S fuel => c ← load8 m ptr; if c =? 0 then Some ptr else strlen_loop fuel m (ptr + 1)
  end.

Definition strlen (m : mem) (str : Z) : option Z :=
  if str =? 0 then Some 0 else
  ptr ← strlen_loop (str_fuel m) m str;
  Some (ptr - str).

(** [while( *ptr && (count-- > 0)) ptr++;] *)
Fixpoint strnlen_loop (fuel : nat) (m : mem) (ptr count : Z) : option Z :=
  match fuel with
  | O => None
  | S fuel =>
      c ← load8 m ptr;
      if negb (c =? 0) && (count >? 0) then strnlen_loop fuel m (ptr + 1) (count - 1)
      else Some ptr
  end.

Definition strnlen (m : mem) (str count : Z) : option Z :=
  if str =? 0 then Some 0 else
  ptr ← strnlen_loop (str_fuel m) m str count;
  Some (ptr - str).

Fixpoint strcmp_loop (fuel : nat) (m : mem) (s1 s2 : Z) : option Z :=
  match fuel with
  | O => None
  | S fuel =>
      c1 ← load8 m s1;
      c2 ← load8 m s2;
      if negb (c1 =? 0) && (c1 =? c2) then strcmp_loop fuel m (s1 + 1) (s2 + 1)
      else Some (schar c1 - schar c2)
  end.

Definition strcmp (m : mem) (s1 s2 : Z) : option Z :=
  if (s1 =? 0) || (s2 =? 0) then Some (s32 (s1 - s2)) else strcmp_loop (str_fuel m) m s1 s2.

Fixpoint strncmp_loop (fuel : nat) (m : mem) (s1 s2 n : Z) : option Z :=
  match fuel with
  | O => None
  | S fuel =>
      c1 ← load8 m s1;
      c2 ← load8 m s2;
      if negb (c1 =? 0) && (c1 =? c2) && (n >? 1)
      then strncmp_loop fuel m (s1 + 1) (s2 + 1) (n - 1)
      else Some (schar c1 - schar c2)
  end.

Definition strncmp (m : mem) (s1 s2 n : Z) : option Z :=
  if (s1 =? 0) || (s2 =? 0) || (n =? 0) then Some (s32 (s1 - s2))
  else strncmp_loop (str_fuel m) m s1 s2 n.

Definition isprint (c : Z) : bool := u8 (c - 32) <? 127 - 32.
Definition isalpha (c : Z) : bool := u8 (Z.lor c 0x20 - 97) <? 26.
Definition isspace (c : Z) : bool := (c =? 32) || (c - 9 <? 5).
Definition toupper (c : Z) : Z := if isalpha c then Z.land c (Z.lnot 0x20) else c.

(** [c1 = toupper( *++str1)]: the pointers are advanced before the first load. *)
Fixpoint strcasecmp_loop (fuel : nat) (m : mem) (str1 str2 : Z) : option Z :=
  match fuel with
  | O => None
  | S fuel =>
      b1 ← load8 m (str1 + 1);
      b2 ← load8 m (str2 + 1);
      let c1 := toupper (schar b1) in
      let c2 := toupper (schar b2) in
      if negb (c1 =? 0) && (c1 =? c2) then strcasecmp_loop fuel m (str1 + 1) (str2 + 1)
      else Some (c1 - c2)
  end.

Definition strcasecmp (m : mem) (str1 str2 : Z) : option Z :=
  if (str1 =? 0) || (str2 =? 0) then Some (s32 (str1 - str2))
  else strcasecmp_loop (str_fuel m) m str1 str2.

(** The result 0 is NULL. *)
Fixpoint strchr_loop (fuel : nat) (m : mem) (s c : Z) : option Z :=
  match fuel with
  | O => None
  | S fuel =>
      b ← load8 m s;
      if negb (b =? 0) && negb (b =? u8 c) then strchr_loop fuel m (s + 1) c
      else Some (if b =? u8 c then s else 0)
  end.

Definition strchr (m : mem) (s c : Z) : option Z :=
  if s =? 0 then Some 0 else strchr_loop (str_fuel m) m s c.

Fixpoint strrchr_loop (fuel : nat) (m : mem) (t c l : Z) : option Z :=
  match fuel with
  | O => None
  | S fuel =>
      b ← load8 m t;
      let l := if b =? u8 c then t else l in
      if b =? 0 then Some l else strrchr_loop fuel m (t + 1) c l
  end.

Definition strrchr (m : mem) (t c : Z) : option Z := strrchr_loop (str_fuel m) m t c 0.

Fixpoint strcpy_loop (fuel : nat) (dst_ptr src_ptr : Z) (m : mem) : option mem :=
  match fuel with
  | O => None
  | S fuel =>
      c ← load8 m src_ptr;
      if c =? 0 then store8 m dst_ptr 0
      else m ← store8 m dst_ptr c; strcpy_loop fuel (dst_ptr + 1) (src_ptr + 1) m
  end.

(** [strcpy] returns [dest]. *)
Definition strcpy (dest src : Z) (m : mem) : option mem :=
  if (dest =? 0) || (src =? 0) then Some m else strcpy_loop (str_fuel m) dest src m.

(** The two loops of [strncpy]; the second one fills the rest with zeros. *)
Fixpoint strncpy_loop (n : nat) (dest src i : Z) (m : mem) : option (mem * Z * nat) :=
  match n with
  | O => Some (m, i, O)
  | S n' =>
      c ← load8 m (src + i);
      if c =? 0 then Some (m, i, n)
      else m ← store8 m (dest + i) c; strncpy_loop n' dest src (i + 1) m
  end.

Definition strncpy (dest src n : Z) (m : mem) : option mem :=
  '(m, i, rest) ← strncpy_loop (Z.to_nat n) dest src 0 m;
  set_bytes rest (dest + i) 0 m.

(** [while(isspace( *nptr));] has an empty body: it ends at once or never. *)
Fixpoint skip_spaces (fuel : nat) (c : Z) : option unit :=
  match fuel with
  | O => None
  | S fuel => if isspace c then skip_spaces fuel c else Some ()
  end.

Fixpoint atoi_loop (fuel : nat) (m : mem) (nptr num : Z) : option Z :=
  match fuel with
  | O => None
  | S fuel =>
      b ← load8 m nptr;
      if b =? 0 then Some num else
      let c := schar b in
      atoi_loop fuel m (nptr + 1)
        (if (48 <=? c) && (c <=? 57) then s32 (num * 10 + (c - 48)) else num)
  end.

Definition atoi (fuel : nat) (m : mem) (nptr : Z) : option Z :=
  b ← load8 m nptr;
  _ ← skip_spaces fuel (schar b);
  num ← atoi_loop (str_fuel m) m nptr 0;
  Some (s32 (num * if schar b =? 45 then -1 else 1)).

(** ** Strings *)

(** The bytes [s], which are not 0, are at [a], followed by 0. *)
Fixpoint cstr (m : mem) (a : Z) (s : list Z) : Prop :=
  match s with
  | [] => m !! a = Some 0
  | b :: s => m !! a = Some b ∧ 0 < b < 256 ∧ cstr m (a + 1) s
  end.

(** The comparison of two strings. *)
Fixpoint compare (s t : list Z) : Z :=
  match s, t with
  | [], [] => 0
  | [], d :: _ => - schar d
  | c :: _, [] => schar c
  | c :: s, d :: t => if c =? d then compare s t else schar c - schar d
  end.

(** The position of the first and of the last occurrence of a byte. *)
Fixpoint first_pos (c : Z) (s : list Z) : option Z :=
  match s with
  | [] => None
  | b :: s => if b =? c then Some 0 else Z.succ <$> first_pos c s
  end.

Definition last_pos (c : Z) (s : list Z) : option Z :=
  (λ i, Z.of_nat (length s) - 1 - i) <$> first_pos c (reverse s).

Section strings.
Implicit Types (m : mem) (a c : Z) (s t : list Z).

Notation len s := (Z.of_nat (length s)).

Lemma cstr_mapped m a s : cstr m a s → mapped m a (len s + 1).
Proof.
  revert a. induction s as [|b s IH]; intros a; cbn [cstr length].
  - intros E k Hk. replace (a + k) with a by lia. eauto.
  - intros (E & _ & Hs) k Hk. destruct (decide (k = 0)) as [->|Hne].
    + rewrite Z.add_0_r. eauto.
    + replace (a + k) with (a + 1 + (k - 1)) by lia. apply IH; [done|lia].
Qed.

Lemma mapped_fuel m a (n : nat) : mapped m a (Z.of_nat n) → (n ≤ size m)%nat.
Proof.
  intros Hm.
  assert (length (seqZ a (Z.of_nat n)) = n) as <- by (rewrite length_seqZ; lia).
  apply nodup_size; [apply NoDup_seqZ|]. intros t [H1 H2]%elem_of_seqZ.
  replace t with (a + (t - a)) by lia. apply Hm. lia.
Qed.

Lemma cstr_fuel m a s : cstr m a s → (length s < str_fuel m)%nat.
Proof.
  intros Hs%cstr_mapped. unfold str_fuel.
  pose proof (mapped_fuel m a (length s) ltac:(apply (mapped_sub _ _ _ _ _ Hs); lia)). lia.
Qed.

Lemma cstr_bytes m a s b : cstr m a s → b ∈ s → 0 < b < 256.
Proof.
  revert a. induction s as [|x s IH]; intros a; [by intros _ ?%elem_of_nil|].
  intros (_ & Hx & Hs) [->|Hb]%elem_of_cons; [done|eauto].
Qed.

Lemma cstr_unique m a s t : cstr m a s → cstr m a t → s = t.
Proof.
  revert a t. induction s as [|b s IH]; intros a [|c t]; cbn; try done.
  - intros E (E' & Hc & _). rewrite E in E'. injection E'. lia.
  - intros (E & Hb & _) E'. rewrite E in E'. injection E'. lia.
  - intros (E & Hb & Hs) (E' & Hc & Ht). f_equal; [congruence|eauto].
Qed.

Lemma byte_eqb_0 b : 0 < b < 256 → (b =? 0) = false.
Proof. lia. Qed.

Lemma strlen_loop_ok fuel m a s :
  cstr m a s → (length s < fuel)%nat → strlen_loop fuel m a = Some (a + len s).
Proof.
  revert fuel a. induction s as [|b s IH]; intros [|fuel] a; cbn [cstr length strlen_loop];
    unfold load8; try lia.
  - intros -> _. cbn. f_equal. lia.
  - intros (-> & Hb & Hs) Hf. cbn. rewrite byte_eqb_0 by done. rewrite IH by (done || lia).
    f_equal. lia.
Qed.

Lemma strlen_ok m a s : cstr m a s → a ≠ 0 → strlen m a = Some (len s).
Proof.
  intros Hs Ha. unfold strlen. rewrite (proj2 (Z.eqb_neq a 0)) by done.
  rewrite (strlen_loop_ok _ _ _ _ Hs) by (by eapply cstr_fuel). cbn. f_equal. lia.
Qed.

Lemma strnlen_loop_ok fuel m a s c :
  cstr m a s → (length s < fuel)%nat →
  strnlen_loop fuel m a c = Some (a + Z.min (len s) (Z.max 0 c)).
Proof.
  revert fuel a c. induction s as [|b s IH]; intros [|fuel] a c;
    cbn [cstr length strnlen_loop]; unfold load8; try lia.
  - intros -> _. cbn. f_equal. lia.
  - intros (-> & Hb & Hs) Hf. cbn. rewrite byte_eqb_0, Z.gtb_ltb by done. cbn.
    destruct (Z.ltb_spec 0 c); [rewrite IH by (done || lia)|]; f_equal; lia.
Qed.

Lemma strnlen_ok m a s c :
  cstr m a s → a ≠ 0 → strnlen m a c = Some (Z.min (len s) (Z.max 0 c)).
Proof.
  intros Hs Ha. unfold strnlen. rewrite (proj2 (Z.eqb_neq a 0)) by done.
  rewrite (strnlen_loop_ok _ _ _ _ _ Hs) by (by eapply cstr_fuel). cbn. f_equal. lia.
Qed.

Lemma strncmp_loop_ok fuel m a b s t n :
  cstr m a s → cstr m b t → (length s < fuel)%nat → 1 ≤ n →
  strncmp_loop fuel m a b n = Some (compare (take (Z.to_nat n) s) (take (Z.to_nat n) t)).
Proof.
  revert fuel a b t n. induction s as [|c s IH]; intros [|fuel] a b [|d t] n;
    cbn [cstr length strncmp_loop]; unfold load8; try lia;
    intros Hs Ht Hf Hn; (destruct (Z.to_nat n) as [|k] eqn:En; [lia|]); cbn [take compare].
  - rewrite Hs, Ht. done.
  - destruct Ht as (Et & Hd & Ht). rewrite Hs, Et. cbn. done.
  - destruct Hs as (Es & Hc & Hs). rewrite Es, Ht. cbn. rewrite byte_eqb_0 by done. cbn.
    by rewrite Z.sub_0_r.
  - destruct Hs as (Es & Hc & Hs), Ht as (Et & Hd & Ht). rewrite Es, Et. cbn.
    rewrite byte_eqb_0 by done. cbn. destruct (Z.eqb_spec c d) as [->|Hne]; [|done]. cbn.
    rewrite Z.gtb_ltb. destruct (Z.ltb_spec 1 n).
    + rewrite (IH fuel _ _ t (n - 1)) by (done || lia). by replace (Z.to_nat (n - 1)) with k by lia.
    + replace k with O by lia. cbn. by rewrite Z.sub_diag.
Qed.

Lemma strcmp_loop_ok fuel m a b s t :
  cstr m a s → cstr m b t → (length s < fuel)%nat →
  strcmp_loop fuel m a b = Some (compare s t).
Proof.
  revert fuel a b t. induction s as [|c s IH]; intros [|fuel] a b [|d t];
    cbn [cstr length strcmp_loop compare]; unfold load8; try lia; intros Hs Ht Hf.
  - rewrite Hs, Ht. done.
  - destruct Ht as (Et & Hd & Ht). rewrite Hs, Et. cbn. done.
  - destruct Hs as (Es & Hc & Hs). rewrite Es, Ht. cbn. rewrite byte_eqb_0 by done. cbn.
    by rewrite Z.sub_0_r.
  - destruct Hs as (Es & Hc & Hs), Ht as (Et & Hd & Ht). rewrite Es, Et. cbn.
    rewrite byte_eqb_0 by done. cbn. destruct (Z.eqb_spec c d) as [->|Hne]; [|done].
    apply IH; [done..|lia].
Qed.

Lemma strcmp_ok m a b s t :
  cstr m a s → cstr m b t → a ≠ 0 → b ≠ 0 → strcmp m a b = Some (compare s t).
Proof.
  intros Hs Ht Ha Hb. unfold strcmp. rewrite !(proj2 (Z.eqb_neq _ 0)) by done. cbn [orb].
  apply strcmp_loop_ok; [done..|by eapply cstr_fuel].
Qed.

Lemma strncmp_ok m a b s t n :
  cstr m a s → cstr m b t → a ≠ 0 → b ≠ 0 → 1 ≤ n →
  strncmp m a b n = Some (compare (take (Z.to_nat n) s) (take (Z.to_nat n) t)).
Proof.
  intros Hs Ht Ha Hb Hn. unfold strncmp. rewrite !(proj2 (Z.eqb_neq _ 0)) by (done || lia). cbn [orb].
  apply strncmp_loop_ok; [done..|by eapply cstr_fuel|done].
Qed.

(** The comparison is 0 on equal strings only. *)
Lemma compare_0 s t :
  (∀ b, b ∈ s → 0 < b < 256) → (∀ b, b ∈ t → 0 < b < 256) → compare s t = 0 ↔ s = t.
Proof.
  revert t. induction s as [|c s IH]; intros [|d t] Hs Ht; cbn; [done| | |].
  - split; [|done]. pose proof (Ht d ltac:(by left)). unfold schar.
    destruct (Z.ltb_spec d 128); lia.
  - split; [|done]. pose proof (Hs c ltac:(by left)). unfold schar.
    destruct (Z.ltb_spec c 128); lia.
  - pose proof (Hs c ltac:(by left)). pose proof (Ht d ltac:(by left)).
    destruct (Z.eqb_spec c d) as [->|Hne].
    + rewrite IH; [naive_solver|..]; intros b Hb; [apply Hs|apply Ht]; by right.
    + split; [|congruence]. unfold schar. destruct (Z.ltb_spec c 128), (Z.ltb_spec d 128); lia.
Qed.

Lemma strchr_loop_ok fuel m a s c :
  cstr m a s → (length s < fuel)%nat →
  strchr_loop fuel m a c =
    Some (match first_pos (u8 c) (s ++ [0]) with Some i => a + i | None => 0 end).
Proof.
  revert fuel a. induction s as [|b s IH]; intros [|fuel] a;
    cbn [cstr length strchr_loop app first_pos]; unfold load8; try lia.
  - intros -> _. cbn [mbind option_bind]. rewrite Z.eqb_refl. cbn [negb andb].
    destruct (0 =? u8 c); [by rewrite Z.add_0_r|done].
  - intros (-> & Hb & Hs) Hf. cbn. rewrite byte_eqb_0 by done. cbn.
    destruct (Z.eqb_spec b (u8 c)); cbn; [by rewrite Z.add_0_r|].
    rewrite IH by (done || lia). destruct (first_pos (u8 c) (s ++ [0])); cbn; [f_equal; lia|done].
Qed.

Lemma strchr_ok m a s c :
  cstr m a s → a ≠ 0 →
  strchr m a c = Some (match first_pos (u8 c) (s ++ [0]) with Some i => a + i | None => 0 end).
Proof.
  intros Hs Ha. unfold strchr. rewrite (proj2 (Z.eqb_neq a 0)) by done.
  apply strchr_loop_ok; [done|by eapply cstr_fuel].
Qed.

(** The last occurrence, or [l]. *)
Fixpoint last_from (c : Z) (s : list Z) (a l : Z) : Z :=
  match s with
  | [] => l
  | b :: s => last_from c s (a + 1) (if b =? c then a else l)
  end.

Lemma strrchr_loop_ok fuel m a s c l :
  cstr m a s → (length s < fuel)%nat →
  strrchr_loop fuel m a c l = Some (last_from (u8 c) (s ++ [0]) a l).
Proof.
  revert fuel a l. induction s as [|b s IH]; intros [|fuel] a l;
    cbn [cstr length strrchr_loop app last_from]; unfold load8; try lia.
  - intros -> _. done.
  - intros (-> & Hb & Hs) Hf. cbn. rewrite byte_eqb_0 by done. apply IH; [done|lia].
Qed.

Lemma first_pos_app c s t :
  first_pos c (s ++ t) =
  match first_pos c s with
  | Some i => Some i
  | None => (λ i, Z.of_nat (length s) + i) <$> first_pos c t
  end.
Proof.
  induction s as [|b s IH]; cbn.
  - by destruct (first_pos c t).
  - destruct (b =? c); [done|]. rewrite IH. destruct (first_pos c s); [done|]. cbn.
    destruct (first_pos c t); cbn; [f_equal; lia|done].
Qed.

Lemma last_from_ok c s a l :
  last_from c s a l = match last_pos c s with Some i => a + i | None => l end.
Proof.
  unfold last_pos. revert a l. induction s as [|b s IH]; intros a l; [done|]. cbn [last_from].
  rewrite IH, reverse_cons, first_pos_app, length_reverse. cbn [length first_pos].
  destruct (first_pos c (reverse s)); cbn; [lia|].
  destruct (b =? c); cbn; [lia|done].
Qed.

Lemma strrchr_ok m a s c :
  cstr m a s →
  strrchr m a c = Some (match last_pos (u8 c) (s ++ [0]) with Some i => a + i | None => 0 end).
Proof.
  intros Hs. unfold strrchr.
  rewrite (strrchr_loop_ok _ _ _ s) by (done || by eapply cstr_fuel). by rewrite last_from_ok.
Qed.

(** A string is where its bytes are. *)
Lemma cstr_frame m m' a s :
  cstr m a s → (∀ k, 0 ≤ k ≤ len s → m' !! (a + k) = m !! (a + k)) → cstr m' a s.
Proof.
  revert a. induction s as [|b s IH]; intros a; cbn [cstr length].
  - intros E Hf. specialize (Hf 0 ltac:(lia)). rewrite Z.add_0_r in Hf. congruence.
  - intros (E & Hb & Hs) Hf. pose proof (Hf 0 ltac:(lia)) as H0. rewrite Z.add_0_r in H0.
    split; [congruence|]. split; [done|]. apply IH; [done|]. intros k Hk.
    replace (a + 1 + k) with (a + (1 + k)) by lia. apply Hf. lia.
Qed.

Lemma cstr_copied m d a s :
  cstr m a s → mapped m d (len s + 1) → cstr (copied m d a (len s + 1)) d s.
Proof.
  intros Hs Hd.
  assert (∀ k, 0 ≤ k ≤ len s → copied m d a (len s + 1) !! (d + k) = m !! (a + k)) as Hc.
  { intros k Hk. rewrite lookup_copied. destruct (Hd k) as [v ->]; [lia|]. cbn.
    rewrite (proj2 (Z.leb_le _ _)), (proj2 (Z.ltb_lt _ _)) by lia. cbn. f_equal. lia. }
  revert Hc. generalize (copied m d a (len s + 1)). clear Hd. intros m'. revert a d Hs.
  induction s as [|b s IH]; intros a d; cbn [cstr length].
  - intros E Hc. specialize (Hc 0 ltac:(lia)). rewrite !Z.add_0_r in Hc. congruence.
  - intros (E & Hb & Hs) Hc. pose proof (Hc 0 ltac:(lia)) as H0. rewrite !Z.add_0_r in H0.
    split; [congruence|]. split; [done|]. apply (IH (a + 1)); [done|]. intros k Hk.
    replace (d + 1 + k) with (d + (1 + k)) by lia. replace (a + 1 + k) with (a + (1 + k)) by lia.
    apply Hc. lia.
Qed.

Lemma cstr_copied_other m d a b t n :
  cstr m b t → (d + n ≤ b ∨ b + len t + 1 ≤ d) → cstr (copied m d a n) b t.
Proof.
  intros Ht Hap. apply (cstr_frame m); [done|]. intros k Hk. rewrite lookup_copied.
  destruct (m !! (b + k)); [|done]. cbn.
  destruct (Z.leb_spec d (b + k)), (Z.ltb_spec (b + k) (d + n)); cbn; try done. lia.
Qed.

Lemma strcpy_loop_ok fuel m d a s :
  bytes m → cstr m a s → (length s < fuel)%nat → apart d a (len s + 1) →
  mapped m d (len s + 1) → strcpy_loop fuel d a m = Some (copied m d a (len s + 1)).
Proof.
  revert fuel m d a. induction s as [|b s IH]; intros [|fuel] m d a; cbn [length strcpy_loop];
    try lia; intros Hb Hs Hf Hap Hd; unfold load8.
  - cbn in Hs. rewrite Hs. cbn. apply (store8_copied m d a); [|done|done].
    specialize (Hd 0). rewrite Z.add_0_r in Hd. apply Hd. lia.
  - pose proof Hs as Hs'. destruct Hs as (E & Hb0 & Hs). rewrite E. cbn.
    rewrite byte_eqb_0 by done.
    replace (Z.of_nat (S (length s)) + 1) with (1 + (len s + 1)) in * by lia.
    apply mapped_app in Hd as [Hd1 Hd2]; [|lia..].
    assert (is_Some (m !! d)) as Hd0.
    { specialize (Hd1 0). rewrite Z.add_0_r in Hd1. apply Hd1. lia. }
    rewrite (store8_copied m d a Hd0 Hb b E). cbn [mbind option_bind].
    assert (mapped m a 1) as Ha1.
    { intros k Hk. replace (a + k) with a by lia. eauto. }
    rewrite IH.
    + f_equal. apply copied_app; try lia; done.
    + by apply bytes_copied.
    + apply cstr_copied_other; [done|]. unfold apart in *. lia.
    + lia.
    + unfold apart in *. lia.
    + by apply mapped_copied.
Qed.

Lemma strcpy_ok m d a s :
  bytes m → cstr m a s → a ≠ 0 → d ≠ 0 → apart d a (len s + 1) → mapped m d (len s + 1) →
  strcpy d a m = Some (copied m d a (len s + 1)).
Proof.
  intros Hb Hs Ha Hd Hap Hm. unfold strcpy. rewrite !(proj2 (Z.eqb_neq _ 0)) by done. cbn [orb].
  apply strcpy_loop_ok; try done. by eapply cstr_fuel.
Qed.

(** [strncpy] copies up to [n] bytes of the string and fills the rest with zeros. *)
Lemma strncpy_loop_ok k m d a s i :
  bytes m → cstr m (a + i) s → apart (d + i) (a + i) (Z.of_nat k) → mapped m (d + i) (Z.of_nat k) →
  (d + i + Z.of_nat k ≤ a + i ∨ a + i + len s + 1 ≤ d + i) →
  let j := Nat.min k (length s) in
  strncpy_loop k d a i m =
    Some (copied m (d + i) (a + i) (Z.of_nat j), i + Z.of_nat j, (k - j)%nat).
Proof.
  revert m i s. induction k as [|k IH]; intros m i s Hb Hs Hap Hd Hap2.
  { cbn. by rewrite copied_0, Z.add_0_r. }
  destruct s as [|b s]; cbn [strncpy_loop length Nat.min]; unfold load8.
  { cbn in Hs. rewrite Hs. cbn. by rewrite copied_0, Z.add_0_r. }
  destruct Hs as (E & Hb0 & Hs). rewrite E. cbn [mbind option_bind]. rewrite byte_eqb_0 by done.
  replace (Z.of_nat (S k)) with (1 + Z.of_nat k) in * by lia.
  apply mapped_app in Hd as [Hd1 Hd2]; [|lia..].
  assert (is_Some (m !! (d + i))) as Hd0.
  { specialize (Hd1 0). rewrite Z.add_0_r in Hd1. apply Hd1. lia. }
  rewrite (store8_copied m (d + i) (a + i) Hd0 Hb b E). cbn [mbind option_bind].
  cbn [length] in Hap2.
  assert (mapped m (a + i) 1) as Ha1 by (intros x Hx; replace (a + i + x) with (a + i) by lia; eauto).
  rewrite (IH (copied m (d + i) (a + i) 1) (i + 1) s).
  - replace (Z.of_nat (S (k `min` length s))) with (1 + Z.of_nat (k `min` length s)) by lia.
    do 3 f_equal; [|lia]. rewrite !Z.add_assoc. apply copied_app; try lia; [|done].
    unfold apart in *. lia.
  - by apply bytes_copied.
  - rewrite Z.add_assoc. apply cstr_copied_other; [done|]. lia.
  - unfold apart in *. lia.
  - rewrite Z.add_assoc. by apply mapped_copied.
  - lia.
Qed.

Lemma strncpy_ok m d a s n :
  bytes m → cstr m a s → 0 ≤ n → apart d a n → mapped m d n →
  (d + n ≤ a ∨ a + len s + 1 ≤ d) →
  let j := Z.min n (len s) in
  strncpy d a n m = Some (filled (copied m d a j) (d + j) (n - j) 0).
Proof.
  intros Hb Hs Hn Hap Hd Hap2 j. unfold strncpy.
  rewrite (strncpy_loop_ok (Z.to_nat n) m d a s 0); rewrite ?Z.add_0_r, ?Z2Nat.id by lia; try done.
  cbn [mbind option_bind]. rewrite Z.add_0_l.
  assert (Z.of_nat (Z.to_nat n `min` length s) = j) as -> by lia.
  rewrite set_bytes_spec; [|done|].
  - do 2 f_equal. lia.
  - apply mapped_copied.
    + intros k Hk. apply (cstr_mapped m a s Hs). lia.
    + apply (mapped_sub _ _ _ _ _ Hd); lia.
Qed.

(** ** Numbers *)

(** The value of the digits of a string; the other characters are skipped. *)
Definition digit_step (num b : Z) : Z :=
  if (48 <=? schar b) && (schar b <=? 57) then num * 10 + (schar b - 48) else num.

Definition digits_value (s : list Z) : Z := foldl digit_step 0 s.

Lemma s32_mul_add x y d : s32 x = s32 y → s32 (x * 10 + d) = s32 (y * 10 + d).
Proof.
  intros E. assert (u32 x = u32 y) as Eu.
  { unfold s32 in E. pose proof (u32_bound x). pose proof (u32_bound y). unfold wsize in *.
    destruct (Z.ltb_spec (u32 x) (2 ^ 31)), (Z.ltb_spec (u32 y) (2 ^ 31)); lia. }
  assert (u32 (x * 10 + d) = u32 (y * 10 + d)) as E2.
  { unfold u32 in *. rewrite <- (Zplus_mod_idemp_l (x * 10)), <- (Zplus_mod_idemp_l (y * 10)).
    by rewrite <- (Zmult_mod_idemp_l x), <- (Zmult_mod_idemp_l y), Eu. }
  unfold s32. by rewrite E2.
Qed.

Lemma s32_s32 x : s32 (s32 x) = s32 x.
Proof.
  apply s32_small. unfold s32. pose proof (u32_bound x). unfold wsize in *.
  destruct (Z.ltb_spec (u32 x) (2 ^ 31)); lia.
Qed.

Lemma atoi_loop_ok fuel m a s num acc :
  cstr m a s → (length s < fuel)%nat → num = s32 acc →
  atoi_loop fuel m a num = Some (s32 (foldl digit_step acc s)).
Proof.
  revert fuel a num acc. induction s as [|b s IH]; intros [|fuel] a num acc;
    cbn [cstr length atoi_loop foldl]; unfold load8; try lia.
  - intros -> _ ->. done.
  - intros (-> & Hb & Hs) Hf ->. cbn [mbind option_bind]. rewrite byte_eqb_0 by done.
    apply IH; [done|lia|]. unfold digit_step. destruct (_ && _); [|done].
    apply s32_mul_add, s32_s32.
Qed.

(** [atoi] on a string that does not start with a space: the value of its digits, with the sign
    of its first character. *)
Lemma atoi_ok fuel m a b s :
  cstr m a (b :: s) → isspace (schar b) = false →
  atoi (S fuel) m a =
    Some (s32 (s32 (digits_value (b :: s)) * if schar b =? 45 then -1 else 1)).
Proof.
  intros Hs Hb. pose proof Hs as (E & _). unfold atoi, load8. rewrite E. cbn [mbind option_bind skip_spaces].
  rewrite Hb. cbn [mbind option_bind].
  by rewrite (atoi_loop_ok _ _ _ (b :: s) 0 0) by (done || by eapply cstr_fuel).
Qed.

(** A leading space, or a string without characters, is never left: the loop that skips spaces
    does not advance. *)
Lemma atoi_hangs fuel m a b :
  m !! a = Some b → isspace (schar b) = true → atoi fuel m a = None.
Proof.
  intros E Hb. unfold atoi, load8. rewrite E. cbn [mbind option_bind].
  assert (skip_spaces fuel (schar b) = None) as ->; [|done].
  induction fuel as [|fuel IH]; [done|]. cbn. by rewrite Hb.
Qed.

Lemma atoi_empty_hangs fuel m a : cstr m a [] → atoi fuel m a = None.
Proof. intros E. by apply (atoi_hangs fuel m a 0). Qed.
End strings.

(** What [strcpy] writes is the same string for [strcmp] and [strlen]: both strings are there
    afterwards, they compare equal and have the same length, and nothing else has changed. *)
Theorem strcpy_roundtrip m d a s :
  bytes m → cstr m a s → a ≠ 0 → d ≠ 0 → let n := Z.of_nat (length s) in
  apart d a (n + 1) → mapped m d (n + 1) →
  ∃ m', strcpy d a m = Some m' ∧ cstr m' d s ∧ cstr m' a s ∧
    strcmp m' d a = Some 0 ∧ strlen m' d = Some n ∧
    ∀ x, x < d ∨ d + n < x → m' !! x = m !! x.
Proof.
  intros Hb Hs Ha Hd n Hap Hm. exists (copied m d a (n + 1)).
  assert (cstr (copied m d a (n + 1)) d s) as H1 by (by apply cstr_copied).
  assert (cstr (copied m d a (n + 1)) a s) as H2.
  { apply cstr_copied_other; [done|]. unfold apart in Hap. lia. }
  split; [by apply strcpy_ok|]. split; [done|]. split; [done|]. split.
  - rewrite (strcmp_ok _ _ _ s s) by done. f_equal. apply compare_0; [..|done];
      intros b; by eapply cstr_bytes.
  - split; [by apply strlen_ok|]. intros x Hx. rewrite lookup_copied.
    destruct (m !! x); [|done]. cbn.
    destruct (Z.leb_spec d x), (Z.ltb_spec x (d + (n + 1))); cbn; try done. lia.
Qed.

(** The string [abc] at 0x100, and room at 0x180. *)
Definition str_ex : mem := <[0x103 := 0]> mem_ex.

Lemma strcpy_roundtrip_witness :
  ∃ m', strcpy 0x180 0x100 str_ex = Some m' ∧ strcmp m' 0x180 0x100 = Some 0 ∧
    strlen m' 0x180 = Some 3.
Proof.
  destruct (strcpy_roundtrip str_ex 0x180 0x100 [5; 6; 7]) as (m' & E & _ & _ & E1 & E2 & _).
  - apply bytes_check. vm_compute. reflexivity.
  - vm_compute. repeat split.
  - lia.
  - lia.
  - right. vm_compute. discriminate.
  - apply mapped_check. vm_compute. reflexivity.
  - exists m'. exact (conj E (conj E1 E2)).
Defined.

(** Two strings that differ in their first character only are equal for [strcasecmp], which
    advances its pointers before the first comparison. *)
Lemma strcasecmp_skips_first :
  let m := list_to_map [(0x10, 97); (0x11, 120); (0x12, 0); (0x20, 98); (0x21, 88); (0x22, 0)] in
  cstr m 0x10 [97; 120] ∧ cstr m 0x20 [98; 88] ∧ strcasecmp m 0x10 0x20 = Some 0.
Proof. vm_compute. repeat split. Qed.

(** [strncmp] of no characters is the difference of the pointers. *)
Lemma strncmp_zero m a b : strncmp m a b 0 = Some (s32 (a - b)).
Proof. unfold strncmp. by rewrite orb_true_r. Qed.
