(* ===== verification/Printk.v ===== *)
(** * Formatted output (src/kernel/libk/iprintk.c, src/kernel/libk/sprintk.c)

    The stores that [iprintk] makes are collected in a list; the strings it reads, the format
    and the arguments of [%s], are in the memory of [Mem], away from the destination.  The
    buffer in which a number is written is the array of [SIZE_OF_BUF] bytes on the stack: the
    digits are put in front of the ones already there, and a byte too many is a fault. *)

From S2P Require Import Prelude Mem Str.

Open Scope Z_scope.

Definition SIZE_OF_BUF : Z := 20.

(** The used end of the buffer [buf], without the final 0; [*--tmp = c]. *)
Definition push (c : Z) (tmp : list Z) : option (list Z) :=
  if Z.of_nat (length tmp) + 1 <? SIZE_OF_BUF then Some (u8 c :: tmp) else None.

(** The destination: the address of the next store, the stores made and [count]. *)
Record out := Out { addr : Z; trace : list (Z * Z); cnt : Z }.

(** [remote_sb(addr, cid, c)] *)
Definition sb (c : Z) (o : out) : out := Out (addr o) (trace o ++ [(addr o, u8 c)]) (cnt o).
Definition adv (inc : Z) (o : out) : out := Out (u32 (addr o + inc)) (trace o) (cnt o).
Definition tally (o : out) : out := Out (addr o) (trace o) (u32 (cnt o + 1)).

Definition putc (inc c : Z) (o : out) : out := tally (adv inc (sb c o)).

Definition u64 (x : Z) : Z := x mod 2 ^ 64.
Definition s64 (x : Z) : Z := let y := u64 x in if y <? 2 ^ 63 then y else y - 2 ^ 64.

(** ** The code *)

(** [do { *--tmp = (val % 10) + '0'; val /= 10; } while (val)]; ten digits are enough. *)
Fixpoint dec_loop (fuel : nat) (val : Z) (tmp : list Z) : option (list Z) :=
  match fuel with
  | O => None
  | S fuel =>
      tmp ← push (val mod 10 + 48) tmp;
      let val := val / 10 in
      if ctrue val then dec_loop fuel val tmp else Some tmp
  end.

Definition compute_dec (inc val : Z) (isSigned : bool) (o : out) : option (list Z * out) :=
  let neg := isSigned && (s32 val <? 0) in
  let '(val, o) := if neg then (u32 (- s32 val), putc inc 45 o) else (val, o) in
  tmp ← dec_loop 10 val [];
  Some (tmp, o).

(** [while(val >= 1000000000UL) { val -= 1000000000UL; count ++; }] *)
Fixpoint sub_loop (fuel : nat) (val count : Z) : option (Z * Z) :=
  match fuel with
  | O => None
  | S fuel =>
      if 1000000000 <=? val then sub_loop fuel (val - 1000000000) (u32 (count + 1))
      else Some (val, count)
  end.

(** The loop for the nine low digits. *)
Fixpoint dec9_loop (fuel : nat) (uval i : Z) (tmp : list Z) : option (list Z) :=
  match fuel with
  | O => None
  | S fuel =>
      tmp ← push (uval mod 10 + 48) tmp;
      let uval := uval / 10 in
      let i := i + 1 in
      if ctrue uval || (i <? 9) then dec9_loop fuel uval i tmp else Some tmp
  end.

Definition compute_dec64 (inc val : Z) (isSigned : bool) (o : out) : option (list Z * out) :=
  let neg := isSigned && (s64 val <? 0) in
  let '(val, o) := if neg then (u64 (- s64 val), putc inc 45 o) else (val, o) in
  '(val, count) ← sub_loop (S (Z.to_nat (val / 1000000000))) val 0;
  tmp ← dec9_loop 10 val 0 [];
  tmp ← dec_loop 10 count tmp;
  Some (tmp, o).

Definition xdigit (d : Z) : Z := if d <? 10 then 48 + d else 87 + d.

Fixpoint hex_loop (fuel : nat) (val i : Z) (tmp : list Z) : option (list Z * Z) :=
  match fuel with
  | O => None
  | S fuel =>
      tmp ← push (xdigit (Z.land val 15)) tmp;
      let val := Z.shiftr val 4 in
      let i := i + 1 in
      if ctrue val then hex_loop fuel val i tmp else Some (tmp, i)
  end.

(** [while (i < 8)] *)
Fixpoint pad_loop (n : nat) (tmp : list Z) : option (list Z) :=
  match n with
  | O => Some tmp
  | S n => tmp ← push (xdigit 0) tmp; pad_loop n tmp
  end.

Definition compute_hex (val : Z) (isPointer : bool) : option (list Z) :=
  '(tmp, i) ← hex_loop 8 val 0 [];
  if isPointer then pad_loop (Z.to_nat (8 - i)) tmp else Some tmp.

(** The arguments: words and 64-bit values. *)
Inductive varg := VWord (v : Z) | VLong (v : Z).

Definition va_word (ap : list varg) : option (Z * list varg) :=
  match ap with VWord v :: ap => Some (v, ap) | _ => None end.

Definition va_long (ap : list varg) : option (Z * list varg) :=
  match ap with VLong v :: ap => Some (v, ap) | _ => None end.

Definition put_str (inc : Z) (s : list Z) (o : out) : out :=
  foldl (λ o c, putc inc c o) o s.

(** [while ( *tmp)] over a string of the memory. *)
Fixpoint put_mem (fuel : nat) (m : mem) (inc tmp : Z) (o : out) : option out :=
  match fuel with
  | O => None
  | S fuel =>
      c ← load8 m tmp;
      if c =? 0 then Some o else put_mem fuel m inc (tmp + 1) (putc inc c o)
  end.

(** "empty str" *)
Definition empty_str : list Z := [101; 109; 112; 116; 121; 32; 115; 116; 114].

(** The conversion for the character [c] after a percent sign. *)
Definition convert (m : mem) (inc c : Z) (ap : list varg) (o : out)
    : option (list varg * out) :=
  let number (r : option (list Z * out)) (ap : list varg) :=
    '(s, o) ← r; Some (ap, put_str inc s o) in
  if c =? 37 then Some (ap, putc inc 37 o)
  else if c =? 99 then '(v, ap) ← va_word ap; Some (ap, putc inc v o)
  else if c =? 100 then '(v, ap) ← va_word ap; number (compute_dec inc v true o) ap
  else if c =? 117 then '(v, ap) ← va_word ap; number (compute_dec inc v false o) ap
  else if c =? 68 then '(v, ap) ← va_long ap; number (compute_dec64 inc v true o) ap
  else if c =? 85 then '(v, ap) ← va_long ap; number (compute_dec64 inc v false o) ap
  else if c =? 115 then
    '(v, ap) ← va_word ap;
    if v =? 0 then Some (ap, put_str inc empty_str o)
    else o ← put_mem (str_fuel m) m inc v o; Some (ap, o)
  else if (c =? 112) || (c =? 120) then
    '(v, ap) ← va_word ap;
    s ← compute_hex v (c =? 112);
    Some (ap, put_str inc s o)
  else Some (ap, tally (sb c o)).

(** The format is read from the memory up to its final 0. *)
Fixpoint iprintk_loop (fuel : nat) (m : mem) (inc fmt : Z) (ap : list varg) (o : out)
    : option out :=
  match fuel with
  | O => None
  | S fuel =>
      c ← load8 m fmt;
      if c =? 0 then Some o
      else if negb (c =? 37) then iprintk_loop fuel m inc (fmt + 1) ap (putc inc c o)
      else
        c ← load8 m (fmt + 1);
        '(ap, o) ← convert m inc c ap o;
        iprintk_loop fuel m inc (fmt + 2) ap o
  end.

(** [iprintk]: the stores and the result. *)
Definition iprintk (m : mem) (a inc fmt : Z) (ap : list varg) : option (list (Z * Z) * Z) :=
  o ← iprintk_loop (str_fuel m) m inc fmt ap (Out a [] 0);
  Some (trace o, s32 (cnt o)).

(** [sprintk]: the final 0 is stored after [count] bytes. *)
Definition sprintk (m : mem) (s fmt : Z) (ap : list varg) : option (list (Z * Z) * Z) :=
  '(tr, count) ← iprintk m s 1 fmt ap;
  Some (tr ++ [(u32 (s + count), 0)], count).

(** ** The reference: a format as a list of pieces *)

(** The digits of [n] in a base, the first one first. *)
Fixpoint digits (fuel : nat) (base n : Z) : list Z :=
  match fuel with
  | O => []
  | S fuel => if n <? base then [n] else digits fuel base (n / base) ++ [n mod base]
  end.

Definition dec (n : Z) : list Z := (λ d, d + 48) <$> digits 20 10 n.
Definition hex (n : Z) : list Z := xdigit <$> digits 8 16 n.

(** Zeros in front, up to [k] characters. *)
Definition zero_pad (k : nat) (s : list Z) : list Z := replicate (k - length s) 48 ++ s.

Inductive piece :=
  | Lit (c : Z)
  | Percent
  | Char (c : Z)
  | Dec (v : Z)             (* a signed 32-bit value *)
  | Udec (v : Z)
  | Dec64 (v : Z)           (* a signed 64-bit value *)
  | Udec64 (v : Z)
  | Hex (v : Z)
  | Pointer (v : Z)
  | String (p : Z) (s : list Z)
  | Null.

Definition fmt_of (p : piece) : list Z :=
  match p with
  | Lit c => [c]
  | Percent => [37; 37]
  | Char _ => [37; 99]
  | Dec _ => [37; 100]
  | Udec _ => [37; 117]
  | Dec64 _ => [37; 68]
  | Udec64 _ => [37; 85]
  | Hex _ => [37; 120]
  | Pointer _ => [37; 112]
  | String _ _ | Null => [37; 115]
  end.

Definition args_of (p : piece) : list varg :=
  match p with
  | Lit _ | Percent => []
  | Char v | Udec v | Hex v | Pointer v => [VWord v]
  | Dec v => [VWord (u32 v)]
  | Dec64 v => [VLong (u64 v)]
  | Udec64 v => [VLong v]
  | String p _ => [VWord p]
  | Null => [VWord 0]
  end.

(** What a conversion should print: the decimal or hexadecimal digits, those of a 64-bit number
    with zeros in front up to ten, those of a pointer up to eight. *)
Definition text_of (p : piece) : list Z :=
  match p with
  | Lit c | Char c => [c]
  | Percent => [37]
  | Dec v => if v <? 0 then 45 :: dec (- v) else dec v
  | Udec v => dec v
  | Dec64 v => if v <? 0 then 45 :: zero_pad 10 (dec (- v)) else zero_pad 10 (dec v)
  | Udec64 v => zero_pad 10 (dec v)
  | Hex v => hex v
  | Pointer v => zero_pad 8 (hex v)
  | String _ s => s
  | Null => empty_str
  end.

(** The values that are printed right; the billions of a 64-bit value are counted on 32 bits. *)
Definition piece_ok (m : mem) (p : piece) : Prop :=
  match p with
  | Lit c => 0 < c < 256 ∧ c ≠ 37
  | Percent | Null => True
  | Char c => 0 ≤ c < 256
  | Dec v => - 2 ^ 31 ≤ v < 2 ^ 31
  | Udec v | Hex v | Pointer v => 0 ≤ v < 2 ^ 32
  | Dec64 v => - (2 ^ 32 * 1000000000) < v < 2 ^ 32 * 1000000000
  | Udec64 v => 0 ≤ v < 2 ^ 32 * 1000000000
  | String p s => p ≠ 0 ∧ cstr m p s
  end.

(** The stores of a text from an address on. *)
Definition stores (a : Z) (txt : list Z) : list (Z * Z) :=
  imap (λ i c, (u32 (a + Z.of_nat i), c)) txt.

Definition outs (a : Z) (txt : list Z) : out :=
  Out (u32 (a + Z.of_nat (length txt))) (stores a txt) (u32 (Z.of_nat (length txt))).

Definition is_byte (c : Z) : Prop := 0 ≤ c < 256.

Lemma stores_snoc a txt c :
  stores a (txt ++ [c]) = stores a txt ++ [(u32 (a + Z.of_nat (length txt)), c)].
Proof. unfold stores. rewrite imap_app. cbn. by rewrite Nat.add_0_r. Qed.

Lemma putc_outs a txt c : is_byte c → putc 1 c (outs a txt) = outs a (txt ++ [c]).
Proof.
  intros Hc. unfold putc, tally, adv, sb, outs. cbn. rewrite stores_snoc, length_app, u8_small by done.
  cbn. rewrite !u32_add_l. f_equal; f_equal; lia.
Qed.

Lemma put_str_outs a txt s :
  Forall is_byte s → put_str 1 s (outs a txt) = outs a (txt ++ s).
Proof.
  intros Hs. revert txt. induction Hs as [|c s Hc Hs IH]; intros txt; cbn; [by rewrite app_nil_r|].
  rewrite putc_outs by done. unfold put_str in IH. rewrite IH, <- app_assoc. done.
Qed.

Lemma put_mem_outs fuel m a txt p s :
  cstr m p s → (length s < fuel)%nat → put_mem fuel m 1 p (outs a txt) = Some (outs a (txt ++ s)).
Proof.
  revert fuel p txt. induction s as [|c s IH]; intros [|fuel] p txt; cbn [cstr length put_mem];
    unfold load8; try lia.
  - intros -> _. cbn. by rewrite app_nil_r.
  - intros (-> & Hc & Hs) Hf. cbn [mbind option_bind]. rewrite byte_eqb_0 by done.
    rewrite putc_outs by (unfold is_byte; lia). rewrite IH by (done || lia).
    by rewrite <- app_assoc.
Qed.

(** ** Numbers *)

Lemma digits_length fuel base n : (length (digits fuel base n) ≤ fuel)%nat.
Proof.
  revert n. induction fuel as [|fuel IH]; intros n; cbn; [done|].
  destruct (n <? base); cbn; [lia|]. rewrite length_app. cbn. pose proof (IH (n / base)). lia.
Qed.

(** Enough fuel does not change the digits. *)
Lemma digits_fuel f1 f2 base n :
  1 < base → 0 ≤ n < base ^ Z.of_nat f1 → (0 < f1 ≤ f2)%nat →
  digits f2 base n = digits f1 base n.
Proof.
  intros Hb. revert f2 n. induction f1 as [|f1 IH]; intros [|f2] n Hn Hf; try lia. cbn.
  destruct (Z.ltb_spec n base); [done|].
  assert (0 < f1)%nat.
  { destruct f1; [|lia]. cbn in Hn. change (Z.of_nat 1) with 1 in Hn. lia. }
  f_equal. apply IH; [|lia]. split; [apply Z.div_pos; lia|].
  apply Z.div_lt_upper_bound; [lia|]. rewrite Nat2Z.inj_succ, Z.pow_succ_r in Hn by lia. lia.
Qed.

Lemma digits_range fuel base n d :
  1 < base → 0 ≤ n → d ∈ digits fuel base n → 0 ≤ d < base.
Proof.
  intros Hb. revert n. induction fuel as [|fuel IH]; intros n Hn; cbn; [by intros ?%elem_of_nil|].
  destruct (Z.ltb_spec n base); [intros ->%list_elem_of_singleton; lia|].
  intros [Hd| ->%list_elem_of_singleton]%elem_of_app.
  - apply (IH (n / base)); [|done]. apply Z.div_pos; lia.
  - apply Z.mod_pos_bound. lia.
Qed.

(** The digits give the number back. *)
Definition from_digits (base : Z) (l : list Z) : Z := foldl (λ n d, n * base + d) 0 l.

Lemma digits_value_ok fuel base n :
  1 < base → 0 ≤ n < base ^ Z.of_nat fuel → (0 < fuel)%nat →
  from_digits base (digits fuel base n) = n.
Proof.
  intros Hb. unfold from_digits. revert n. induction fuel as [|fuel IH]; intros n Hn Hf; [lia|]. cbn.
  destruct (Z.ltb_spec n base); [done|]. rewrite foldl_app. cbn.
  assert (0 < fuel)%nat.
  { destruct fuel; [|lia]. change (Z.of_nat 1) with 1 in Hn. lia. }
  rewrite IH; [pose proof (Z.div_mod n base ltac:(lia)); lia| |done].
  split; [apply Z.div_pos; lia|].
  apply Z.div_lt_upper_bound; [lia|]. rewrite Nat2Z.inj_succ, Z.pow_succ_r in Hn by lia. lia.
Qed.

Lemma push_ok c tmp : is_byte c → (length tmp < 19)%nat → push c tmp = Some (c :: tmp).
Proof.
  intros Hc Hl. unfold push, SIZE_OF_BUF. rewrite (proj2 (Z.ltb_lt _ _)) by lia.
  by rewrite u8_small.
Qed.

Lemma dec_loop_ok fuel val tmp :
  0 ≤ val < 10 ^ Z.of_nat fuel → (0 < fuel)%nat → (fuel + length tmp ≤ 19)%nat →
  dec_loop fuel val tmp = Some (((λ d, d + 48) <$> digits fuel 10 val) ++ tmp).
Proof.
  revert val tmp. induction fuel as [|fuel IH]; intros val tmp Hv Hf Hl; [lia|].
  cbn [dec_loop digits]. pose proof (Z.mod_pos_bound val 10 ltac:(lia)).
  rewrite push_ok by (unfold is_byte; lia). cbn [mbind option_bind]. unfold ctrue.
  destruct (Z.eqb_spec (val / 10) 0) as [E|E]; cbn [negb].
  - rewrite (proj2 (Z.ltb_lt _ _)) by (apply Z.div_small_iff in E; lia). cbn.
    by rewrite Z.mod_small by (apply Z.div_small_iff in E; lia).
  - assert (10 ≤ val) as Hge.
    { destruct (decide (val < 10)); [|lia]. destruct E. apply Z.div_small. lia. }
    rewrite (proj2 (Z.ltb_ge _ _)) by lia.
    assert (0 < fuel)%nat by (destruct fuel; [change (Z.of_nat 1) with 1 in Hv|]; lia).
    rewrite IH; [by rewrite fmap_app, <- app_assoc| |lia|cbn; lia].
    split; [apply Z.div_pos; lia|].
    apply Z.div_lt_upper_bound; [lia|]. rewrite Nat2Z.inj_succ, Z.pow_succ_r in Hv by lia. lia.
Qed.

Lemma dec_digits10 val : 0 ≤ val < 10 ^ 10 → (λ d, d + 48) <$> digits 10 10 val = dec val.
Proof. intros Hv. unfold dec. by rewrite (digits_fuel 10 20) by (done || lia). Qed.

Lemma dec_bytes val : 0 ≤ val → Forall is_byte (dec val).
Proof.
  intros Hv. apply Forall_fmap, Forall_forall. intros d Hd.
  pose proof (digits_range 20 10 val d ltac:(lia) Hv Hd). unfold is_byte. cbn. lia.
Qed.

Lemma compute_dec_unsigned val o :
  0 ≤ val < 2 ^ 32 → compute_dec 1 val false o = Some (dec val, o).
Proof.
  intros Hv. unfold compute_dec. cbn [andb]. rewrite dec_loop_ok by (cbn; lia). cbn [mbind option_bind].
  by rewrite app_nil_r, dec_digits10 by lia.
Qed.

Lemma s32_u32 v : - 2 ^ 31 ≤ v < 2 ^ 31 → s32 (u32 v) = v.
Proof.
  intros Hv. rewrite <- (s32_small v Hv) at 2. unfold s32.
  by rewrite (u32_small (u32 v)) by apply u32_bound.
Qed.

Lemma compute_dec_signed v a txt :
  - 2 ^ 31 ≤ v < 2 ^ 31 →
  compute_dec 1 (u32 v) true (outs a txt) =
    Some (dec (Z.abs v), outs a (txt ++ if v <? 0 then [45] else [])).
Proof.
  intros Hv. unfold compute_dec. rewrite s32_u32 by done. cbn [andb].
  destruct (Z.ltb_spec v 0).
  - rewrite putc_outs by (unfold is_byte; lia). rewrite u32_small by (unfold wsize; lia).
    rewrite dec_loop_ok by (cbn; lia). cbn [mbind option_bind].
    by rewrite app_nil_r, dec_digits10, Z.abs_neq by lia.
  - rewrite app_nil_r, u32_small by (unfold wsize; lia).
    rewrite dec_loop_ok by (cbn; lia). cbn [mbind option_bind].
    by rewrite app_nil_r, dec_digits10, Z.abs_eq by lia.
Qed.

Lemma sub_loop_ok fuel val count :
  0 ≤ val → (Z.to_nat (val / 1000000000) < fuel)%nat →
  sub_loop fuel val count =
    Some (val mod 1000000000,
          if val <? 1000000000 then count else u32 (count + val / 1000000000)).
Proof.
  revert val count. induction fuel as [|fuel IH]; intros val count Hv Hf; [lia|]. cbn [sub_loop].
  destruct (Z.ltb_spec val 1000000000).
  - rewrite (proj2 (Z.leb_gt _ _)), Z.mod_small by lia. done.
  - rewrite (proj2 (Z.leb_le _ _)) by lia.
    assert (val / 1000000000 = (val - 1000000000) / 1000000000 + 1) as E.
    { rewrite <- Z.div_add by lia. f_equal. lia. }
    pose proof (Z.div_pos (val - 1000000000) 1000000000 ltac:(lia) ltac:(lia)).
    rewrite IH by lia. f_equal. f_equal.
    + rewrite <- (Z.mod_add (val - 1000000000) 1) by lia. f_equal. lia.
    + destruct (Z.ltb_spec (val - 1000000000) 1000000000) as [L|L].
      * rewrite E, Z.div_small by lia. done.
      * rewrite u32_add_l. f_equal. lia.
Qed.

(** The last [k] digits. *)
Fixpoint low_digits (k : nat) (n : Z) : list Z :=
  match k with O => [] | S k => low_digits k (n / 10) ++ [n mod 10 + 48] end.

Lemma dec9_loop_ok k fuel uval i tmp :
  0 ≤ uval < 10 ^ Z.of_nat k → i = 9 - Z.of_nat k → (0 < k ≤ 9)%nat → (k ≤ fuel)%nat →
  (k + length tmp ≤ 19)%nat →
  dec9_loop fuel uval i tmp = Some (low_digits k uval ++ tmp).
Proof.
  revert fuel uval i tmp. induction k as [|k IH]; intros [|fuel] uval i tmp Hv Hi Hk Hf Hl; try lia.
  cbn [dec9_loop low_digits]. pose proof (Z.mod_pos_bound uval 10 ltac:(lia)).
  rewrite push_ok by (unfold is_byte; lia). cbn [mbind option_bind]. unfold ctrue.
  rewrite Nat2Z.inj_succ, Z.pow_succ_r in Hv by lia.
  assert (0 ≤ uval / 10 < 10 ^ Z.of_nat k) as Hd.
  { split; [apply Z.div_pos; lia|]. apply Z.div_lt_upper_bound; lia. }
  destruct (decide (k = O)) as [->|Hk0].
  - change (10 ^ Z.of_nat 0) with 1 in Hd. rewrite (proj2 (Z.eqb_eq (uval / 10) 0)) by lia.
    rewrite (proj2 (Z.ltb_ge _ _)) by lia. done.
  - rewrite (proj2 (Z.ltb_lt (i + 1) 9)), orb_true_r by lia.
    rewrite IH by (done || lia || cbn; lia). by rewrite <- app_assoc.
Qed.

Lemma low_digits_length k n : length (low_digits k n) = k.
Proof. revert n. induction k; intros n; cbn; [done|]. rewrite length_app, IHk. cbn. lia. Qed.

Lemma low_digits_bytes k n : Forall is_byte (low_digits k n).
Proof.
  revert n. induction k; intros n; cbn; [done|]. apply Forall_app. split; [done|].
  pose proof (Z.mod_pos_bound n 10 ltac:(lia)). repeat constructor; lia.
Qed.

(** Every 64-bit value is converted without leaving the buffer; the part above 10^9 is taken
    modulo 2^32. *)
Lemma dec_small n : 0 ≤ n < 10 → dec n = [n + 48].
Proof. intros Hn. unfold dec. cbn. by rewrite (proj2 (Z.ltb_lt n 10)) by lia. Qed.

Lemma dec_step n : 10 ≤ n < 10 ^ 19 → dec n = dec (n / 10) ++ [n mod 10 + 48].
Proof.
  intros Hn. unfold dec. assert (0 ≤ n / 10 < 10 ^ 19) as Hd.
  { split; [apply Z.div_pos; lia|]. apply Z.div_lt_upper_bound; lia. }
  rewrite (digits_fuel 19 20 10 (n / 10) ltac:(lia) Hd ltac:(lia)).
  assert (digits 20 10 n = digits 19 10 (n / 10) ++ [n mod 10]) as ->; [|by rewrite fmap_app].
  change (digits 20 10 n) with (if n <? 10 then [n] else digits 19 10 (n / 10) ++ [n mod 10]).
  by rewrite (proj2 (Z.ltb_ge n 10)) by lia.
Qed.

(** A number is its leading digits followed by the last [k] ones. *)
Lemma dec_split k n :
  10 ^ Z.of_nat k ≤ n < 10 ^ 19 →
  dec n = dec (n / 10 ^ Z.of_nat k) ++ low_digits k (n mod 10 ^ Z.of_nat k).
Proof.
  revert n. induction k as [|k IH]; intros n Hn.
  - cbn. by rewrite Z.div_1_r, app_nil_r.
  - pose proof (Z.pow_pos_nonneg 10 (Z.of_nat k) ltac:(lia) ltac:(lia)) as Hp.
    rewrite Nat2Z.inj_succ, Z.pow_succ_r in Hn |- * by lia. cbn [low_digits].
    assert (10 ^ Z.of_nat k ≤ n / 10) by (apply Z.div_le_lower_bound; lia).
    assert (n / 10 < 10 ^ 19) by (apply Z.div_lt_upper_bound; lia).
    rewrite dec_step, IH, Z.div_div, <- app_assoc by lia. f_equal.
    rewrite Z.rem_mul_r by lia. pose proof (Z.mod_pos_bound n 10 ltac:(lia)). f_equal.
    + f_equal. rewrite Z.add_comm, Z.mul_comm, Z.div_add_l, (Z.div_small (n mod 10)) by lia. lia.
    + f_equal. rewrite Z.add_comm, Z.mul_comm, Z.add_comm, Z.mod_add, Z.mod_mod by lia. done.
Qed.

Lemma zero_pad_snoc k s c : zero_pad (S k) (s ++ [c]) = zero_pad k s ++ [c].
Proof.
  unfold zero_pad. rewrite length_app, <- app_assoc. cbn [length]. by rewrite Nat.add_1_r.
Qed.

Lemma low_digits_0 k : low_digits k 0 = replicate k 48.
Proof. induction k as [|k IH]; [done|]. rewrite replicate_S_end, <- IH. done. Qed.

Lemma low_digits_pad k n :
  (0 < k)%nat → 0 ≤ n < 10 ^ Z.of_nat k → n < 10 ^ 19 → low_digits k n = zero_pad k (dec n).
Proof.
  revert n. induction k as [|k IH]; intros n Hk Hn Hn'; [lia|]. cbn [low_digits].
  destruct (decide (n < 10)).
  - rewrite Z.div_small, Z.mod_small, low_digits_0, dec_small by lia.
    unfold zero_pad. cbn. by rewrite Nat.sub_0_r.
  - rewrite dec_step, zero_pad_snoc by lia.
    assert (0 < k)%nat by (destruct k; [cbn in Hn; lia|lia]).
    rewrite Nat2Z.inj_succ, Z.pow_succ_r in Hn by lia.
    rewrite IH; [done|done| |]; [split; [apply Z.div_pos; lia|]|]; apply Z.div_lt_upper_bound; lia.
Qed.

(** The two parts that [compute_dec64] prints are the digits, with zeros in front up to ten. *)
Lemma dec_parts v :
  0 ≤ v < 10 ^ 19 → dec (v / 1000000000) ++ low_digits 9 (v mod 1000000000) = zero_pad 10 (dec v).
Proof.
  intros Hv. destruct (decide (v < 1000000000)) as [Hlt|Hge].
  - rewrite Z.div_small, Z.mod_small, dec_small by lia.
    rewrite <- (low_digits_pad 10) by (change (10 ^ Z.of_nat 10) with 10000000000; lia).
    rewrite low_digits_pad by (change (10 ^ Z.of_nat 9) with 1000000000; lia).
    rewrite low_digits_pad by (change (10 ^ Z.of_nat 10) with 10000000000; lia).
    assert (length (dec v) ≤ 9)%nat as Hl.
    { unfold dec. rewrite length_fmap. rewrite (digits_fuel 9) by
        (change (10 ^ Z.of_nat 9) with 1000000000; lia). apply digits_length. }
    unfold zero_pad. by replace (10 - length (dec v))%nat with (S (9 - length (dec v))) by lia.
  - pose proof (dec_split 9 v ltac:(change (10 ^ Z.of_nat 9) with 1000000000; lia)) as E.
    change (10 ^ Z.of_nat 9) with 1000000000 in E. rewrite <- E. unfold zero_pad.
    assert (10 ≤ length (dec v))%nat as Hl.
    { rewrite E, length_app, low_digits_length. unfold dec. rewrite length_fmap. cbn.
      destruct (_ <? 10); cbn; rewrite ?length_app; cbn; lia. }
    by replace (10 - length (dec v))%nat with 0%nat by lia.
Qed.

Lemma zero_pad_bytes k s : Forall is_byte s → Forall is_byte (zero_pad k s).
Proof.
  intros Hs. apply Forall_app. split; [|done]. apply Forall_replicate. unfold is_byte. lia.
Qed.

Lemma compute_dec64_unsigned inc val o :
  0 ≤ val < 2 ^ 64 →
  compute_dec64 inc val false o =
    Some (dec (u32 (val / 1000000000)) ++ low_digits 9 (val mod 1000000000), o).
Proof.
  intros Hv. unfold compute_dec64. cbn [andb]. rewrite sub_loop_ok by lia.
  cbn [mbind option_bind].
  pose proof (Z.mod_pos_bound val 1000000000 ltac:(lia)).
  rewrite (dec9_loop_ok 9); [|change (10 ^ Z.of_nat 9) with 1000000000; lia|done|lia|lia|cbn; lia].
  cbn [mbind option_bind]. rewrite app_nil_r.
  assert ((if val <? 1000000000 then 0 else u32 (0 + val / 1000000000)) = u32 (val / 1000000000)) as ->.
  { destruct (Z.ltb_spec val 1000000000); [|done]. by rewrite Z.div_small by lia. }
  pose proof (u32_bound (val / 1000000000)) as Hb. unfold wsize in Hb.
  rewrite dec_loop_ok; [|cbn; lia|lia|rewrite low_digits_length; lia]. cbn [mbind option_bind].
  by rewrite dec_digits10 by lia.
Qed.

(** Below 2^32 billions the text is that of the number. *)
Lemma compute_dec64_small inc val o :
  0 ≤ val < 2 ^ 32 * 1000000000 →
  compute_dec64 inc val false o = Some (zero_pad 10 (dec val), o).
Proof.
  intros Hv. rewrite compute_dec64_unsigned by lia.
  pose proof (Z.div_pos val 1000000000 ltac:(lia) ltac:(lia)).
  rewrite u32_small by (unfold wsize; split; [done|]; apply Z.div_lt_upper_bound; lia).
  by rewrite dec_parts by lia.
Qed.

Lemma s64_u64 v : - 2 ^ 63 ≤ v < 2 ^ 63 → s64 (u64 v) = v.
Proof.
  intros Hv. unfold s64, u64. rewrite Z.mod_mod by lia. destruct (decide (0 ≤ v)).
  - rewrite Z.mod_small, (proj2 (Z.ltb_lt _ _)) by lia. done.
  - rewrite <- (Z.mod_add v 1), Z.mod_small, (proj2 (Z.ltb_ge _ _)) by lia. lia.
Qed.

Lemma compute_dec64_signed a txt v :
  - (2 ^ 32 * 1000000000) < v < 2 ^ 32 * 1000000000 →
  compute_dec64 1 (u64 v) true (outs a txt) =
    Some (zero_pad 10 (dec (Z.abs v)), outs a (txt ++ if v <? 0 then [45] else [])).
Proof.
  intros Hv. assert (s64 (u64 v) = v) as Es by (apply s64_u64; lia).
  destruct (Z.ltb_spec v 0) as [Hn|Hn].
  - rewrite <- (compute_dec64_small 1 (Z.abs v)) by lia. unfold compute_dec64.
    rewrite Es, (proj2 (Z.ltb_lt v 0)), putc_outs by (done || lia). cbn [andb].
    assert (u64 (- v) = Z.abs v) as -> by (unfold u64; rewrite Z.mod_small; lia). done.
  - rewrite app_nil_r, <- (compute_dec64_small 1 (Z.abs v)) by lia. unfold compute_dec64.
    rewrite Es, (proj2 (Z.ltb_ge v 0)) by lia. cbn [andb].
    assert (u64 v = Z.abs v) as -> by (unfold u64; rewrite Z.mod_small; lia). done.
Qed.

Lemma xdigit_byte d : 0 ≤ d < 16 → 0 < xdigit d < 256.
Proof. intros Hd. unfold xdigit. destruct (Z.ltb_spec d 10); lia. Qed.

Lemma hex_loop_ok fuel val i tmp :
  0 ≤ val < 16 ^ Z.of_nat fuel → (0 < fuel)%nat → (fuel + length tmp ≤ 19)%nat →
  hex_loop fuel val i tmp =
    Some ((xdigit <$> digits fuel 16 val) ++ tmp, i + Z.of_nat (length (digits fuel 16 val))).
Proof.
  revert val i tmp. induction fuel as [|fuel IH]; intros val i tmp Hv Hf Hl; [lia|].
  cbn [hex_loop digits]. change 15 with (Z.ones 4). rewrite Z.land_ones, Z.shiftr_div_pow2 by lia.
  change (2 ^ 4) with 16. pose proof (Z.mod_pos_bound val 16 ltac:(lia)).
  pose proof (xdigit_byte (val mod 16) ltac:(lia)).
  rewrite push_ok by (unfold is_byte; lia). cbn [mbind option_bind]. unfold ctrue.
  destruct (Z.eqb_spec (val / 16) 0) as [E|E]; cbn [negb].
  - rewrite (proj2 (Z.ltb_lt _ _)) by (apply Z.div_small_iff in E; lia). cbn.
    by rewrite Z.mod_small by (apply Z.div_small_iff in E; lia).
  - assert (16 ≤ val) as Hge.
    { destruct (decide (val < 16)); [|lia]. destruct E. apply Z.div_small. lia. }
    rewrite (proj2 (Z.ltb_ge _ _)) by lia.
    assert (0 < fuel)%nat by (destruct fuel; [change (Z.of_nat 1) with 1 in Hv|]; lia).
    rewrite IH; [|split|lia|cbn; lia].
    + rewrite fmap_app, <- app_assoc, length_app. cbn. do 2 f_equal. lia.
    + apply Z.div_pos; lia.
    + apply Z.div_lt_upper_bound; [lia|]. rewrite Nat2Z.inj_succ, Z.pow_succ_r in Hv by lia. lia.
Qed.

Lemma pad_loop_ok n tmp :
  (n + length tmp ≤ 19)%nat → pad_loop n tmp = Some (replicate n 48 ++ tmp).
Proof.
  revert tmp. induction n as [|n IH]; intros tmp Hl; [done|]. cbn [pad_loop].
  rewrite push_ok by (unfold is_byte; cbn; lia). cbn [mbind option_bind].
  rewrite IH by (cbn; lia). change (xdigit 0) with 48.
  rewrite replicate_S_end, <- app_assoc. done.
Qed.

Lemma compute_hex_ok val (p : bool) :
  0 ≤ val < 2 ^ 32 →
  compute_hex val p =
    Some ((if p then replicate (8 - length (hex val)) 48 else []) ++ hex val).
Proof.
  intros Hv. unfold compute_hex. rewrite hex_loop_ok by (cbn; lia). cbn [mbind option_bind].
  rewrite app_nil_r. fold (hex val). destruct p; [|done].
  pose proof (digits_length 8 16 val). unfold hex. rewrite length_fmap.
  rewrite pad_loop_ok by (rewrite ?length_fmap; lia). do 3 f_equal. lia.
Qed.

Lemma hex_bytes val : 0 ≤ val → Forall is_byte (hex val).
Proof.
  intros Hv. apply Forall_fmap, Forall_forall. intros d Hd.
  pose proof (xdigit_byte d (digits_range 8 16 val d ltac:(lia) Hv Hd)). unfold is_byte. cbn. lia.
Qed.

(** ** The rendering *)

Lemma empty_str_bytes : Forall is_byte empty_str.
Proof. repeat constructor; unfold is_byte; lia. Qed.

Lemma cstr_is_byte m p s : cstr m p s → Forall is_byte s.
Proof. intros Hs. apply Forall_forall. intros b Hb. pose proof (cstr_bytes m p s b Hs Hb). unfold is_byte. lia. Qed.

(** One conversion appends the text of its piece and takes its argument. *)
Lemma convert_ok m a txt p c ap :
  piece_ok m p → fmt_of p = [37; c] →
  convert m 1 c (args_of p ++ ap) (outs a txt) = Some (ap, outs a (txt ++ text_of p)).
Proof.
  unfold convert.
  destruct p as [l| |v|v|v|v|v|v|v|q s|]; cbn [fmt_of piece_ok args_of text_of app]; intros Hp E;
    try discriminate E; injection E as <-; cbn [Z.eqb Pos.eqb orb va_word va_long mbind option_bind].
  - by rewrite putc_outs by (unfold is_byte; lia).
  - by rewrite putc_outs by done.
  - rewrite compute_dec_signed by done. cbn [mbind option_bind].
    rewrite put_str_outs by (apply dec_bytes; lia). rewrite <- app_assoc.
    destruct (Z.ltb_spec v 0); cbn [app]; [by rewrite Z.abs_neq by lia|by rewrite Z.abs_eq by lia].
  - rewrite compute_dec_unsigned by done. cbn [mbind option_bind].
    by rewrite put_str_outs by (apply dec_bytes; lia).
  - rewrite compute_dec64_signed by done. cbn [mbind option_bind].
    rewrite put_str_outs by (apply zero_pad_bytes, dec_bytes; lia). rewrite <- app_assoc.
    destruct (Z.ltb_spec v 0); cbn [app]; [by rewrite Z.abs_neq by lia|by rewrite Z.abs_eq by lia].
  - rewrite compute_dec64_small by done. cbn [mbind option_bind].
    by rewrite put_str_outs by (apply zero_pad_bytes, dec_bytes; lia).
  - rewrite compute_hex_ok by done. cbn [mbind option_bind app].
    by rewrite put_str_outs by (apply hex_bytes; lia).
  - rewrite compute_hex_ok by done. cbn [mbind option_bind].
    by rewrite put_str_outs by (apply zero_pad_bytes, hex_bytes; lia).
  - destruct Hp as [Hq Hs]. rewrite (proj2 (Z.eqb_neq q 0)) by done.
    by rewrite (put_mem_outs _ _ _ _ _ s) by (done || by eapply cstr_fuel).
  - by rewrite put_str_outs by apply empty_str_bytes.
Qed.

Definition format (ps : list piece) : list Z := concat (fmt_of <$> ps).
Definition arguments (ps : list piece) : list varg := concat (args_of <$> ps).
Definition text (ps : list piece) : list Z := concat (text_of <$> ps).

Lemma fmt_of_cases p : (∃ c, p = Lit c) ∨ ∃ c, fmt_of p = [37; c].
Proof. destruct p; eauto. Qed.

Lemma iprintk_loop_ok fuel m a txt fmt ps :
  Forall (piece_ok m) ps → cstr m fmt (format ps) → (length (format ps) < fuel)%nat →
  iprintk_loop fuel m 1 fmt (arguments ps) (outs a txt) = Some (outs a (txt ++ text ps)).
Proof.
  unfold format, arguments, text. intros Hp. revert fuel fmt txt.
  induction Hp as [|p ps Hp Hps IH]; intros [|fuel] fmt txt Hs Hf; cbn in Hs, Hf; try lia.
  - cbn. unfold load8. rewrite Hs. cbn. by rewrite app_nil_r.
  - cbn [fmap list_fmap concat iprintk_loop].
    destruct (fmt_of_cases p) as [(c & ->)|(c & E)].
    + destruct Hs as (E & Hc & Hs), Hp as [_ Hn]. unfold load8. rewrite E. cbn [mbind option_bind].
      rewrite byte_eqb_0, (proj2 (Z.eqb_neq c 37)) by done. cbn [negb].
      rewrite putc_outs by (unfold is_byte; lia). cbn in Hf. cbn [args_of app].
      rewrite IH by (done || lia). by rewrite <- app_assoc.
    + rewrite E in Hs, Hf. destruct Hs as (E1 & _ & E2 & Hc & Hs). unfold load8. rewrite E1.
      cbn [mbind option_bind Z.eqb Pos.eqb negb]. rewrite E2. cbn [mbind option_bind].
      rewrite convert_ok by done. cbn [mbind option_bind]. cbn in Hf.
      rewrite IH; [by rewrite <- app_assoc| |lia]. by replace (fmt + 2) with (fmt + 1 + 1) by lia.
Qed.

(** C38. [iprintk] on a format made of literal characters and of the conversions %% %c %d %u %D %U
    %x %p and %s: the bytes it stores are the text of the pieces, in order, at consecutive
    addresses, and it returns their number; no conversion leaves the 20-byte buffer and no
    argument is read that is not there.  The text of a number is its decimal or hexadecimal
    numeral; %D and %U put zeros in front up to ten digits, also where nothing asks for them, and
    %p up to eight.  For %D and %U the magnitude is below 2^32 billions: beyond that the code
    prints another number ([compute_dec64_wraps]).  The format and the strings are read from a
    memory that the stores do not change: they do not overlap the destination. *)
Theorem iprintk_renders m a fmt ps :
  Forall (piece_ok m) ps → cstr m fmt (format ps) → 0 ≤ a < wsize →
  Z.of_nat (length (text ps)) < 2 ^ 31 →
  iprintk m a 1 fmt (arguments ps) =
    Some (stores a (text ps), Z.of_nat (length (text ps))).
Proof.
  intros Hp Hs Ha Hl. unfold iprintk.
  replace (Out a [] 0) with (outs a []) by (unfold outs; cbn; by rewrite Z.add_0_r, u32_small).
  rewrite iprintk_loop_ok by (done || by eapply cstr_fuel). cbn.
  rewrite u32_small by (unfold wsize; lia). by rewrite s32_small by lia.
Qed.

(** The format [a%d: %s %x%%] at 0x100, the string [ok] at 0x120, room at 0x180, and the format
    [%U%D] at 0x140. *)
Definition fmt_ex : mem :=
  list_to_map (zip (seqZ 0x100 14) [97; 37; 100; 58; 32; 37; 115; 32; 37; 120; 37; 37; 0; 0] ++
    zip (seqZ 0x120 3) [111; 107; 0] ++ zip (seqZ 0x180 32) (replicate 32 7) ++
    zip (seqZ 0x140 5) [37; 85; 37; 68; 0]).

Definition pieces_ex : list piece :=
  [Lit 97; Dec (-42); Lit 58; Lit 32; String 0x120 [111; 107]; Lit 32; Hex 0xbeef; Percent].

Lemma iprintk_renders_witness :
  iprintk fmt_ex 0x180 1 0x100 [VWord (u32 (-42)); VWord 0x120; VWord 0xbeef] =
    Some (stores 0x180 [97; 45; 52; 50; 58; 32; 111; 107; 32; 98; 101; 101; 102; 37], 14) ∧
  iprintk fmt_ex 0x180 1 0x140 [VLong 12345678901; VLong (u64 (-7))] =
    Some (stores 0x180 ([49; 50; 51; 52; 53; 54; 55; 56; 57; 48; 49] ++
                        [45; 48; 48; 48; 48; 48; 48; 48; 48; 48; 55]), 22).
Proof.
  split.
  - apply (iprintk_renders fmt_ex 0x180 0x100 pieces_ex).
    + repeat constructor; cbn; try lia; vm_compute; reflexivity.
    + vm_compute. repeat split.
    + unfold wsize. lia.
    + vm_compute. reflexivity.
  - apply (iprintk_renders fmt_ex 0x180 0x140 [Udec64 12345678901; Dec64 (-7)]).
    + repeat constructor; cbn; lia.
    + vm_compute. repeat split.
    + unfold wsize. lia.
    + vm_compute. reflexivity.
Defined.

(** ** The buffer *)

Lemma dec_length val : 0 ≤ val < 2 ^ 32 → (length (dec val) ≤ 10)%nat.
Proof.
  intros Hv. rewrite <- dec_digits10 by lia. rewrite length_fmap. apply digits_length.
Qed.

Lemma compute_dec_length inc val sg o :
  0 ≤ val < 2 ^ 32 → ∃ s o', compute_dec inc val sg o = Some (s, o') ∧ (length s ≤ 10)%nat.
Proof.
  intros Hv. unfold compute_dec. destruct (sg && _).
  - pose proof (u32_bound (- s32 val)) as Hb. unfold wsize in Hb.
    rewrite dec_loop_ok by (cbn; lia). eexists _, _. split; [done|].
    rewrite app_nil_r, length_fmap. apply digits_length.
  - rewrite dec_loop_ok by (cbn; lia). eexists _, _. split; [done|].
    rewrite app_nil_r, length_fmap. apply digits_length.
Qed.

Lemma compute_dec64_length inc val sg o :
  0 ≤ val < 2 ^ 64 → ∃ s o', compute_dec64 inc val sg o = Some (s, o') ∧ (length s ≤ 19)%nat.
Proof.
  intros Hv.
  assert (∀ v o, 0 ≤ v < 2 ^ 64 → ∃ s o',
    compute_dec64 inc v false o = Some (s, o') ∧ (length s ≤ 19)%nat) as Hu.
  { intros v o1 Hv1. rewrite compute_dec64_unsigned by done. eexists _, _. split; [done|].
    pose proof (u32_bound (v / 1000000000)) as Hb. unfold wsize in Hb.
    rewrite length_app, low_digits_length. pose proof (dec_length _ Hb). lia. }
  destruct (sg && (s64 val <? 0)) eqn:E.
  - pose proof (Z.mod_pos_bound (- s64 val) (2 ^ 64) ltac:(lia)).
    destruct (Hu (u64 (- s64 val)) (putc inc 45 o) ltac:(unfold u64; lia)) as (s & o' & Es & Hs).
    exists s, o'. split; [|done]. rewrite <- Es. unfold compute_dec64. by rewrite E.
  - destruct (Hu val o Hv) as (s & o' & Es & Hs). exists s, o'. split; [|done].
    rewrite <- Es. unfold compute_dec64. by rewrite E.
Qed.

(** C39. The number conversions never leave the stack buffer of [SIZE_OF_BUF] bytes, and always
    return: whatever the value, signed or not, padded or not, its digits and the final 0 fit. *)
Theorem conversions_fit_buffer inc val val64 isSigned isPointer o :
  0 ≤ val < 2 ^ 32 → 0 ≤ val64 < 2 ^ 64 →
  (∃ s o', compute_dec inc val isSigned o = Some (s, o') ∧
     Z.of_nat (length s) + 1 ≤ SIZE_OF_BUF) ∧
  (∃ s o', compute_dec64 inc val64 isSigned o = Some (s, o') ∧
     Z.of_nat (length s) + 1 ≤ SIZE_OF_BUF) ∧
  ∃ s, compute_hex val isPointer = Some s ∧ Z.of_nat (length s) + 1 ≤ SIZE_OF_BUF.
Proof.
  intros Hv Hv64. unfold SIZE_OF_BUF.
  destruct (compute_dec_length inc val isSigned o Hv) as (s & o' & E & Hs).
  destruct (compute_dec64_length inc val64 isSigned o Hv64) as (t & o1 & E1 & Ht).
  split; [exists s, o'; split; [done|lia]|]. split; [exists t, o1; split; [done|lia]|].
  rewrite compute_hex_ok by done. eexists. split; [done|].
  pose proof (digits_length 8 16 val). unfold hex. rewrite length_app, !length_fmap.
  destruct isPointer; rewrite ?length_replicate; cbn [length]; lia.
Qed.

Lemma conversions_fit_buffer_witness :
  (∃ s o', compute_dec 1 0x80000000 true (Out 0 [] 0) = Some (s, o') ∧
     Z.of_nat (length s) + 1 ≤ SIZE_OF_BUF) ∧
  ∃ s o', compute_dec64 1 (2 ^ 64 - 1) true (Out 0 [] 0) = Some (s, o') ∧
     Z.of_nat (length s) + 1 ≤ SIZE_OF_BUF.
Proof.
  destruct (conversions_fit_buffer 1 0x80000000 (2 ^ 64 - 1) true true (Out 0 [] 0)) as (H1 & H2 & _).
  - lia.
  - lia.
  - exact (conj H1 H2).
Defined.

(** A 64-bit number below a billion gets zeros in front. *)
Lemma dec64_leading_zeros inc o :
  compute_dec64 inc 7 false o = Some (replicate 9 48 ++ [55], o).
Proof. rewrite compute_dec64_small by lia. by vm_compute. Qed.

(** The number of billions of a 64-bit value is counted on 32 bits: two values that differ by
    2^32 billions are printed alike. *)
Lemma compute_dec64_wraps inc val o :
  0 ≤ val → val + 2 ^ 32 * 1000000000 < 2 ^ 64 →
  compute_dec64 inc (val + 2 ^ 32 * 1000000000) false o = compute_dec64 inc val false o.
Proof.
  intros H0 H1. rewrite !compute_dec64_unsigned by lia. rewrite Z.div_add, Z.mod_add by lia.
  assert (u32 (val / 1000000000 + 2 ^ 32) = u32 (val / 1000000000)) as ->; [|done].
  unfold u32, wsize. rewrite <- (Z.mod_add (val / 1000000000) 1) by lia. f_equal.
Qed.

(** ** [sprintk] and [atoi] *)

(** The stores, made in the memory. *)
Definition write_all (m : mem) (tr : list (Z * Z)) : option mem :=
  foldl (λ om '(x, c), m ← om; store8 m x c) (Some m) tr.

Lemma write_all_app m tr tr' :
  write_all m (tr ++ tr') = m' ← write_all m tr; write_all m' tr'.
Proof.
  unfold write_all. rewrite foldl_app. destruct (foldl _ _ tr) as [m'|]; [done|].
  cbn. induction tr' as [|[] tr' IH]; [done|]. exact IH.
Qed.

Lemma stores_cons a c txt :
  stores a (c :: txt) = (u32 a, c) :: stores (a + 1) txt.
Proof.
  unfold stores. cbn [imap]. rewrite Z.add_0_r. f_equal. apply imap_ext. intros i x _. cbn.
  do 2 f_equal. lia.
Qed.

(** Writing a text and a final 0 makes it a string of the memory. *)
Lemma write_all_cstr m a txt :
  0 ≤ a → a + Z.of_nat (length txt) < wsize → mapped m a (Z.of_nat (length txt) + 1) →
  Forall (λ b, 0 < b < 256) txt →
  ∃ m', write_all m (stores a (txt ++ [0])) = Some m' ∧ cstr m' a txt ∧
    ∀ x, x < a ∨ a + Z.of_nat (length txt) < x → m' !! x = m !! x.
Proof.
  revert m a. induction txt as [|c txt IH]; intros m a Ha Hw Hm Hb; cbn [length app] in *.
  - destruct (Hm 0 ltac:(lia)) as [b E]. rewrite Z.add_0_r in E.
    exists (<[a := 0]> m). rewrite stores_cons. cbn. unfold store8. rewrite u32_small, E by lia. cbn.
    split; [done|]. split; [by rewrite lookup_insert_eq|]. intros x Hx.
    rewrite lookup_insert_ne by lia. done.
  - apply Forall_cons in Hb as [Hc Hb]. destruct (Hm 0 ltac:(lia)) as [b E]. rewrite Z.add_0_r in E.
    destruct (IH (<[a := c]> m) (a + 1)) as (m' & Em & Hs & Hf); [lia|lia| |done|].
    { intros k Hk. rewrite lookup_insert_ne by lia. replace (a + 1 + k) with (a + (k + 1)) by lia.
      apply Hm. lia. }
    exists m'. rewrite stores_cons. unfold write_all in *. cbn [foldl mbind option_bind].
    unfold store8 at 2. rewrite u32_small, E by lia. cbn [mbind option_bind]. rewrite u8_small by lia.
    split; [done|]. split.
    + split; [|done]. rewrite Hf, lookup_insert_eq by lia. done.
    + intros x Hx. rewrite Hf by lia. by rewrite lookup_insert_ne by lia.
Qed.

Lemma digits_value_dec (ds : list Z) n :
  (∀ d, d ∈ ds → 0 ≤ d < 10) →
  foldl digit_step n ((λ d, d + 48) <$> ds) = foldl (λ n d, n * 10 + d) n ds.
Proof.
  revert n. induction ds as [|d ds IH]; intros n Hd; [done|]. cbn [fmap list_fmap foldl].
  pose proof (Hd d ltac:(left)). rewrite IH by (intros; apply Hd; by right). f_equal.
  unfold digit_step, schar. rewrite (proj2 (Z.ltb_lt _ _)) by lia.
  rewrite (proj2 (Z.leb_le _ _)), (proj2 (Z.leb_le _ _)) by lia. cbn. lia.
Qed.

Lemma dec_value v : 0 ≤ v < 10 ^ 20 → digits_value (dec v) = v.
Proof.
  intros Hv. unfold digits_value, dec.
  rewrite digits_value_dec by (intros d; apply (digits_range 20 10 v d); lia).
  apply (digits_value_ok 20 10); [lia|exact Hv|lia].
Qed.

Lemma dec_chars v b : 0 ≤ v → b ∈ dec v → 48 ≤ b ≤ 57.
Proof.
  intros Hv (d & -> & Hd)%list_elem_of_fmap. pose proof (digits_range 20 10 v d ltac:(lia) Hv Hd). lia.
Qed.

Lemma dec_nonempty v : ∃ b s, dec v = b :: s.
Proof.
  unfold dec. cbn [digits]. destruct (v <? 10); [eexists _, _; done|].
  destruct (_ <$> _) as [|b s] eqn:E; [|eauto].
  rewrite fmap_app in E. by apply app_eq_nil in E as [_ ?].
Qed.

(** The text of a signed number, as [atoi] reads it. *)
Lemma atoi_text m a v :
  - 2 ^ 31 ≤ v < 2 ^ 31 → cstr m a (text_of (Dec v)) → atoi 1 m a = Some v.
Proof.
  intros Hv. cbn [text_of]. destruct (Z.ltb_spec v 0) as [Hn|Hn].
  - intros Hs. rewrite (atoi_ok 0 m a 45 (dec (- v))) by done.
    change (digits_value (45 :: dec (- v))) with (digits_value (dec (- v))).
    rewrite dec_value by lia.
    change (schar 45 =? 45) with true. cbn iota. f_equal.
    destruct (decide (v = - 2 ^ 31)) as [->|]; [done|].
    rewrite (s32_small (- v)) by lia. rewrite s32_small; lia.
  - destruct (dec_nonempty v) as (b & s & E). intros Hs. rewrite E in Hs.
    pose proof (dec_chars v b Hn ltac:(rewrite E; left)).
    assert (schar b = b) as Eb by (unfold schar; by rewrite (proj2 (Z.ltb_lt _ _)) by lia).
    rewrite (atoi_ok 0 m a b s), <- E, dec_value, Eb; [|lia|done|].
    + rewrite (proj2 (Z.eqb_neq b 45)), Z.mul_1_r, s32_s32, s32_small by lia. done.
    + unfold isspace. rewrite Eb, (proj2 (Z.eqb_neq b 32)) by lia. by apply Z.ltb_ge; lia.
Qed.

Lemma text_dec_ok v :
  - 2 ^ 31 ≤ v < 2 ^ 31 →
  Forall (λ b, 0 < b < 256) (text_of (Dec v)) ∧ (length (text_of (Dec v)) ≤ 11)%nat.
Proof.
  intros Hv. cbn [text_of]. destruct (Z.ltb_spec v 0).
  - pose proof (dec_length (- v) ltac:(lia)). split; [|cbn [length]; lia]. constructor; [lia|].
    apply Forall_forall. intros b Hb. pose proof (dec_chars (- v) b ltac:(lia) Hb). lia.
  - pose proof (dec_length v ltac:(lia)). split; [|lia].
    apply Forall_forall. intros b Hb. pose proof (dec_chars v b ltac:(lia) Hb). lia.
Qed.

(** C40. Printing a number and reading it back: [sprintk(s, "%d", v)] stores a string of at most 11
    characters and returns its length, nothing outside of it changes, and [atoi] of that string
    is [v] again, for every 32-bit signed value. *)
Theorem sprintk_atoi_roundtrip m s fmt v :
  - 2 ^ 31 ≤ v < 2 ^ 31 → cstr m fmt [37; 100] → 0 < s → s + 12 ≤ wsize → mapped m s 12 →
  ∃ tr n m', sprintk m s fmt [VWord (u32 v)] = Some (tr, n) ∧ n ≤ 11 ∧
    write_all m tr = Some m' ∧ strlen m' s = Some n ∧ atoi 1 m' s = Some v ∧
    ∀ x, x < s ∨ s + 11 < x → m' !! x = m !! x.
Proof.
  intros Hv Hf Hs Hw Hm. set (txt := text_of (Dec v)).
  destruct (text_dec_ok v Hv) as [Hb Hl]. fold txt in Hb, Hl.
  destruct (write_all_cstr m s txt) as (m' & Em & Hc & Hfr); [lia|lia| |done|].
  { apply (mapped_sub _ _ _ _ _ Hm); lia. }
  exists (stores s (txt ++ [0])), (Z.of_nat (length txt)), m'.
  unfold sprintk. pose proof (iprintk_loop_ok (str_fuel m) m s [] fmt [Dec v]) as E.
  unfold text, format, arguments in E. cbn [fmap list_fmap concat] in E.
  rewrite !app_nil_r in E. specialize (E ltac:(constructor; [exact Hv|constructor]) Hf (cstr_fuel _ _ _ Hf)).
  replace (outs s []) with (Out s [] 0) in E by (unfold outs; cbn; by rewrite Z.add_0_r, u32_small by lia).
  unfold iprintk. cbn [args_of app] in E. rewrite E. cbn [mbind option_bind app trace cnt outs]. fold txt.
  unfold outs. cbn [trace cnt]. rewrite (u32_small (Z.of_nat _)), s32_small by (unfold wsize; lia).
  split; [by rewrite stores_snoc|]. split; [lia|]. split; [done|].
  split; [apply strlen_ok; [done|lia]|]. split; [by apply atoi_text|]. intros x Hx. apply Hfr. lia.
Qed.

(** The format [%d] at 0x100. *)
Definition dec_ex : mem := <[0x100 := 37]> (<[0x101 := 100]> (<[0x102 := 0]> fmt_ex)).

Lemma sprintk_atoi_roundtrip_witness :
  ∃ tr n m', sprintk dec_ex 0x180 0x100 [VWord (u32 (- 2 ^ 31))] = Some (tr, n) ∧
    write_all dec_ex tr = Some m' ∧ atoi 1 m' 0x180 = Some (- 2 ^ 31).
Proof.
  destruct (sprintk_atoi_roundtrip dec_ex 0x180 0x100 (- 2 ^ 31))
    as (tr & n & m' & E & _ & Em & _ & Ea & _).
  - lia.
  - vm_compute. repeat split.
  - lia.
  - unfold wsize. lia.
  - apply mapped_check. vm_compute. reflexivity.
  - exists tr, n, m'. exact (conj E (conj Em Ea)).
Defined.

(** An unknown conversion is stored without advancing: the next character takes its place,
    while [count] is one more, and the final 0 of [sprintk] is one byte too far. *)
Lemma unknown_conversion_overwritten :
  sprintk (<[0x101 := 122]> (<[0x102 := 97]> (<[0x103 := 0]> dec_ex))) 0x180 0x100 [] =
    Some ([(0x180, 122); (0x180, 97); (0x182, 0)], 2).
Proof. vm_compute. reflexivity. Qed.

(** A percent sign at the end of the format makes [iprintk] read past its final 0. *)
Lemma lone_percent_reads_past :
  sprintk (<[0x101 := 0]> (<[0x102 := 97]> (<[0x103 := 0]> dec_ex))) 0x180 0x100 [] =
    Some ([(0x180, 0); (0x180, 97); (0x182, 0)], 2).
Proof. vm_compute. reflexivity. Qed.
