(* ===== verification/Rbtree.v ===== *)
(** * Red-black trees (src/kernel/libk/rbtree.c, src/kernel/libk/rbtree.h)

    The intrusive red-black trees that hold the regions of an address space.  A node keeps its
    two children, and its parent and colour in one word; the store is a finite map from
    addresses to nodes.  [Rbtree] holds the code and the correspondence between the store and a
    mathematical tree; [RbtreeSpec] shows that the insertion and the removal keep the order of
    the nodes and the balance. *)

From S2P Require Import Prelude.

Open Scope Z_scope.

(** ** Nodes *)

Record rb_node := RbNode { rb_parent_color : Z; rb_right : Z; rb_left : Z }.

(** A [struct rb_root] and the nodes in memory. *)
Record rb := Rb { rb_root : Z; nodes : gmap Z rb_node }.

Definition RB_RED : Z := 0.
Definition RB_BLACK : Z := 1.

Definition rb_parent (r : rb_node) : Z := Z.land (rb_parent_color r) (Z.lnot 3).
Definition rb_color (r : rb_node) : Z := Z.land (rb_parent_color r) 1.
Definition rb_is_red (r : rb_node) : bool := rb_color r =? 0.
Definition rb_is_black (r : rb_node) : bool := ctrue (rb_color r).

(** ** Accesses *)

Definition get (a : Z) (s : rb) : option rb_node := nodes s !! a.

Definition put (a : Z) (n : rb_node) (s : rb) : rb := Rb (rb_root s) (<[a := n]> (nodes s)).

Definition upd (a : Z) (f : rb_node → rb_node) (s : rb) : option rb :=
  n ← get a s; Some (put a (f n) s).

Definition set_left (a v : Z) : rb → option rb :=
  upd a (λ n, RbNode (rb_parent_color n) (rb_right n) v).
Definition set_right (a v : Z) : rb → option rb :=
  upd a (λ n, RbNode (rb_parent_color n) v (rb_left n)).
Definition set_word (a v : Z) : rb → option rb :=
  upd a (λ n, RbNode v (rb_right n) (rb_left n)).
Definition set_root (v : Z) (s : rb) : rb := Rb v (nodes s).

Definition rb_set_red (a : Z) : rb → option rb :=
  upd a (λ n, RbNode (Z.land (rb_parent_color n) (Z.lnot 1)) (rb_right n) (rb_left n)).
Definition rb_set_black (a : Z) : rb → option rb :=
  upd a (λ n, RbNode (Z.lor (rb_parent_color n) 1) (rb_right n) (rb_left n)).
Definition rb_set_parent (a p : Z) : rb → option rb :=
  upd a (λ n, RbNode (Z.lor (Z.land (rb_parent_color n) 3) p) (rb_right n) (rb_left n)).
Definition rb_set_color (a color : Z) : rb → option rb :=
  upd a (λ n, RbNode (Z.lor (Z.land (rb_parent_color n) (Z.lnot 1)) color) (rb_right n) (rb_left n)).

(** The address of a pointer to a node: [struct rb_node **]. *)
Inductive rb_ref := RefRoot | RefLeft (a : Z) | RefRight (a : Z).

Definition load_ref (l : rb_ref) (s : rb) : option Z :=
  match l with
  | RefRoot => Some (rb_root s)
  | RefLeft a => rb_left <$> get a s
  | RefRight a => rb_right <$> get a s
  end.

Definition store_ref (l : rb_ref) (v : Z) (s : rb) : option rb :=
  match l with
  | RefRoot => Some (set_root v s)
  | RefLeft a => set_left a v s
  | RefRight a => set_right a v s
  end.

Definition rb_link_node (node parent : Z) (rb_link : rb_ref) (s : rb) : option rb :=
  s ← upd node (λ _, RbNode parent 0 0) s;
  store_ref rb_link node s.

(** ** Rotations *)

Definition __rb_rotate_left (node : Z) (s : rb) : option rb :=
  n ← get node s;
  let right := rb_right n in
  let parent := rb_parent n in
  r ← get right s;
  s ← set_right node (rb_left r) s;
  s ← (if ctrue (rb_left r) then r ← get right s; rb_set_parent (rb_left r) node s else Some s);
  s ← set_left right node s;
  s ← rb_set_parent right parent s;
  s ← (if ctrue parent then
         p ← get parent s;
         if node =? rb_left p then set_left parent right s else set_right parent right s
       else Some (set_root right s));
  rb_set_parent node right s.

Definition __rb_rotate_right (node : Z) (s : rb) : option rb :=
  n ← get node s;
  let left := rb_left n in
  let parent := rb_parent n in
  l ← get left s;
  s ← set_left node (rb_right l) s;
  s ← (if ctrue (rb_right l) then l ← get left s; rb_set_parent (rb_right l) node s else Some s);
  s ← set_right left node s;
  s ← rb_set_parent left parent s;
  s ← (if ctrue parent then
         p ← get parent s;
         if node =? rb_right p then set_right parent left s else set_left parent left s
       else Some (set_root left s));
  rb_set_parent node left s.

(** ** Insertion *)

(** [uncle && rb_is_red(uncle)] *)
Definition is_red_node (a : Z) (s : rb) : option bool :=
  if ctrue a then rb_is_red <$> get a s else Some false.

(** [!node || rb_is_black(node)] *)
Definition is_black_node (a : Z) (s : rb) : option bool :=
  if ctrue a then rb_is_black <$> get a s else Some true.

Fixpoint insert_loop (fuel : nat) (node : Z) (s : rb) : option rb :=
  match fuel with
  | O => None
  | S fuel =>
      n ← get node s;
      let parent := rb_parent n in
      if negb (ctrue parent) then Some s else
      p ← get parent s;
      if negb (rb_is_red p) then Some s else
      let gparent := rb_parent p in
      g ← get gparent s;
      if parent =? rb_left g then
        let uncle := rb_right g in
        red ← is_red_node uncle s;
        if red : bool then
          s ← rb_set_black uncle s;
          s ← rb_set_black parent s;
          s ← rb_set_red gparent s;
          insert_loop fuel gparent s
        else
          '(node, parent, s) ← (if rb_right p =? node then
                                  s ← __rb_rotate_left parent s; Some (parent, node, s)
                                else Some (node, parent, s));
          s ← rb_set_black parent s;
          s ← rb_set_red gparent s;
          s ← __rb_rotate_right gparent s;
          insert_loop fuel node s
      else
        let uncle := rb_left g in
        red ← is_red_node uncle s;
        if red : bool then
          s ← rb_set_black uncle s;
          s ← rb_set_black parent s;
          s ← rb_set_red gparent s;
          insert_loop fuel gparent s
        else
          '(node, parent, s) ← (if rb_left p =? node then
                                  s ← __rb_rotate_right parent s; Some (parent, node, s)
                                else Some (node, parent, s));
          s ← rb_set_black parent s;
          s ← rb_set_red gparent s;
          s ← __rb_rotate_left gparent s;
          insert_loop fuel node s
  end.

(** A loop that climbs the tree makes no more steps than there are nodes. *)
Definition rb_fuel (s : rb) : nat := S (S (size (nodes s))).

Definition rb_insert_color (node : Z) (s : rb) : option rb :=
  s ← insert_loop (rb_fuel s) node s;
  rb_set_black (rb_root s) s.

(** ** Removal *)

Fixpoint erase_loop (fuel : nat) (node parent : Z) (s : rb) : option (Z * rb) :=
  match fuel with
  | O => None
  | S fuel =>
      black ← is_black_node node s;
      if negb ((black : bool) && negb (node =? rb_root s)) then Some (node, s) else
      p ← get parent s;
      if rb_left p =? node then
        let other := rb_right p in
        o ← get other s;
        '(other, s) ← (if rb_is_red o then
                         s ← rb_set_black other s;
                         s ← rb_set_red parent s;
                         s ← __rb_rotate_left parent s;
                         p ← get parent s;
                         Some (rb_right p, s)
                       else Some (other, s));
        o ← get other s;
        bl ← is_black_node (rb_left o) s;
        br ← is_black_node (rb_right o) s;
        if (bl : bool) && (br : bool) then
          s ← rb_set_red other s;
          p ← get parent s;
          erase_loop fuel parent (rb_parent p) s
        else
          '(other, s) ← (if br then
                           s ← rb_set_black (rb_left o) s;
                           s ← rb_set_red other s;
                           s ← __rb_rotate_right other s;
                           p ← get parent s;
                           Some (rb_right p, s)
                         else Some (other, s));
          p ← get parent s;
          s ← rb_set_color other (rb_color p) s;
          s ← rb_set_black parent s;
          o ← get other s;
          s ← rb_set_black (rb_right o) s;
          s ← __rb_rotate_left parent s;
          Some (rb_root s, s)
      else
        let other := rb_left p in
        o ← get other s;
        '(other, s) ← (if rb_is_red o then
                         s ← rb_set_black other s;
                         s ← rb_set_red parent s;
                         s ← __rb_rotate_right parent s;
                         p ← get parent s;
                         Some (rb_left p, s)
                       else Some (other, s));
        o ← get other s;
        bl ← is_black_node (rb_left o) s;
        br ← is_black_node (rb_right o) s;
        if (bl : bool) && (br : bool) then
          s ← rb_set_red other s;
          p ← get parent s;
          erase_loop fuel parent (rb_parent p) s
        else
          '(other, s) ← (if bl then
                           s ← rb_set_black (rb_right o) s;
                           s ← rb_set_red other s;
                           s ← __rb_rotate_left other s;
                           p ← get parent s;
                           Some (rb_left p, s)
                         else Some (other, s));
          p ← get parent s;
          s ← rb_set_color other (rb_color p) s;
          s ← rb_set_black parent s;
          o ← get other s;
          s ← rb_set_black (rb_left o) s;
          s ← __rb_rotate_right parent s;
          Some (rb_root s, s)
  end.

Definition __rb_erase_color (node parent : Z) (s : rb) : option rb :=
  '(node, s) ← erase_loop (rb_fuel s) node parent s;
  if ctrue node then rb_set_black node s else Some s.

(** [while ((left = node->rb_left) != NULL) node = left;] *)
Fixpoint leftmost (fuel : nat) (node : Z) (s : rb) : option Z :=
  match fuel with
  | O => None
  | S fuel => n ← get node s; if ctrue (rb_left n) then leftmost fuel (rb_left n) s else Some node
  end.

Fixpoint rightmost (fuel : nat) (node : Z) (s : rb) : option Z :=
  match fuel with
  | O => None
  | S fuel =>
      n ← get node s; if ctrue (rb_right n) then rightmost fuel (rb_right n) s else Some node
  end.

(** The two ways to take a node out: its child takes its place, or its successor does.  The
    results are [child], [parent] and [color]. *)
Definition erase_one (node child : Z) (s : rb) : option (Z * Z * Z * rb) :=
  n ← get node s;
  let parent := rb_parent n in
  let color := rb_color n in
  s ← (if ctrue child then rb_set_parent child parent s else Some s);
  s ← (if ctrue parent then
         p ← get parent s;
         if rb_left p =? node then set_left parent child s else set_right parent child s
       else Some (set_root child s));
  Some (child, parent, color, s).

Definition erase_two (old : Z) (s : rb) : option (Z * Z * Z * rb) :=
  ol ← get old s;
  node ← leftmost (rb_fuel s) (rb_right ol) s;
  s ← (if ctrue (rb_parent ol) then
         p ← get (rb_parent ol) s;
         if rb_left p =? old then set_left (rb_parent ol) node s
         else set_right (rb_parent ol) node s
       else Some (set_root node s));
  n ← get node s;
  let child := rb_right n in
  let parent := rb_parent n in
  let color := rb_color n in
  '(parent, s) ← (if parent =? old then Some (node, s)
                  else
                    s ← (if ctrue child then rb_set_parent child parent s else Some s);
                    s ← set_left parent child s;
                    ol ← get old s;
                    s ← set_right node (rb_right ol) s;
                    s ← rb_set_parent (rb_right ol) node s;
                    Some (parent, s));
  ol ← get old s;
  s ← set_word node (rb_parent_color ol) s;
  s ← set_left node (rb_left ol) s;
  s ← rb_set_parent (rb_left ol) node s;
  Some (child, parent, color, s).

Definition rb_erase (node : Z) (s : rb) : option rb :=
  n ← get node s;
  '(child, parent, color, s) ←
    (if negb (ctrue (rb_left n)) then erase_one node (rb_right n) s
     else if negb (ctrue (rb_right n)) then erase_one node (rb_left n) s
     else erase_two node s);
  if color =? RB_BLACK then __rb_erase_color child parent s else Some s.

(** ** Traversal *)

Definition rb_first (s : rb) : option Z :=
  let n := rb_root s in
  if negb (ctrue n) then Some 0 else leftmost (rb_fuel s) n s.

Definition rb_last (s : rb) : option Z :=
  let n := rb_root s in
  if negb (ctrue n) then Some 0 else rightmost (rb_fuel s) n s.

(** [while ((parent = rb_parent(node)) && node == parent->rb_right) node = parent;] *)
Fixpoint climb_right (fuel : nat) (node : Z) (s : rb) : option Z :=
  match fuel with
  | O => None
  | S fuel =>
      n ← get node s;
      let parent := rb_parent n in
      if negb (ctrue parent) then Some parent else
      p ← get parent s;
      if node =? rb_right p then climb_right fuel parent s else Some parent
  end.

Fixpoint climb_left (fuel : nat) (node : Z) (s : rb) : option Z :=
  match fuel with
  | O => None
  | S fuel =>
      n ← get node s;
      let parent := rb_parent n in
      if negb (ctrue parent) then Some parent else
      p ← get parent s;
      if node =? rb_left p then climb_left fuel parent s else Some parent
  end.

Definition rb_next (node : Z) (s : rb) : option Z :=
  n ← get node s;
  if rb_parent n =? node then Some 0
  else if ctrue (rb_right n) then leftmost (rb_fuel s) (rb_right n) s
  else climb_right (rb_fuel s) node s.

Definition rb_prev (node : Z) (s : rb) : option Z :=
  n ← get node s;
  if rb_parent n =? node then Some 0
  else if ctrue (rb_left n) then rightmost (rb_fuel s) (rb_left n) s
  else climb_left (rb_fuel s) node s.

Definition rb_replace_node (victim new : Z) (s : rb) : option rb :=
  v ← get victim s;
  let parent := rb_parent v in
  s ← (if ctrue parent then
         p ← get parent s;
         if victim =? rb_left p then set_left parent new s else set_right parent new s
       else Some (set_root new s));
  s ← (if ctrue (rb_left v) then rb_set_parent (rb_left v) new s else Some s);
  s ← (if ctrue (rb_right v) then rb_set_parent (rb_right v) new s else Some s);
  v ← get victim s;
  upd new (λ _, v) s.

(** ** Trees *)

Inductive color := Red | Black.

Inductive tree := E | T (a : Z) (c : color) (l r : tree).

Inductive dir := L | R.

#[export] Instance color_eq_dec : EqDecision color.
Proof. solve_decision. Defined.
#[export] Instance tree_eq_dec : EqDecision tree.
Proof. solve_decision. Defined.
#[export] Instance dir_eq_dec : EqDecision dir.
Proof. solve_decision. Defined.

Definition cval (c : color) : Z := match c with Red => RB_RED | Black => RB_BLACK end.

Definition ptr (t : tree) : Z := match t with E => 0 | T a _ _ _ => a end.

Fixpoint inorder (t : tree) : list Z :=
  match t with E => [] | T a _ l r => inorder l ++ a :: inorder r end.

(** A node whose child on the side [d] is [t] and whose other child is [sib]. *)
Definition mk (d : dir) (a : Z) (c : color) (t sib : tree) : tree :=
  match d with L => T a c t sib | R => T a c sib t end.

(** The way from a subtree up to the root. *)
Record frame := Frame { fdir : dir; faddr : Z; fcolor : color; fsib : tree }.

Fixpoint plug (k : list frame) (t : tree) : tree :=
  match k with [] => t | Frame d a c sib :: k => plug k (mk d a c t sib) end.

Fixpoint before (k : list frame) : list Z :=
  match k with
  | [] => []
  | Frame L _ _ _ :: k => before k
  | Frame R a _ sib :: k => before k ++ inorder sib ++ [a]
  end.

Fixpoint after (k : list frame) : list Z :=
  match k with
  | [] => []
  | Frame L a _ sib :: k => a :: inorder sib ++ after k
  | Frame R _ _ _ :: k => after k
  end.

Definition top (p : Z) (k : list frame) : Z :=
  match k with [] => p | Frame _ a _ _ :: _ => a end.

(** ** The tree in the store *)

(** The word of a node. *)
Definition word (p : Z) (c : color) : Z := p + cval c.

Definition node_of (d : dir) (p : Z) (c : color) (q sib : Z) : rb_node :=
  match d with L => RbNode (word p c) sib q | R => RbNode (word p c) q sib end.

Fixpoint rep (h : gmap Z rb_node) (p : Z) (t : tree) : Prop :=
  match t with
  | E => True
  | T a c l r => h !! a = Some (node_of L p c (ptr l) (ptr r)) ∧ rep h a l ∧ rep h a r
  end.

(** The nodes of a context whose hole holds the pointer [q]. *)
Fixpoint rep_ctx (h : gmap Z rb_node) (q p : Z) (k : list frame) : Prop :=
  match k with
  | [] => True
  | Frame d a c sib :: k =>
      h !! a = Some (node_of d (top p k) c q (ptr sib)) ∧ rep h a sib ∧ rep_ctx h a p k
  end.

Definition good (a : Z) : Prop := a ≠ 0 ∧ a mod 4 = 0.

(** The store [s] holds the tree [t]; the other nodes are as in [o]. *)
Record is_tree (o : gmap Z rb_node) (s : rb) (t : tree) : Prop := IsTree {
  it_root : rb_root s = ptr t;
  it_rep : rep (nodes s) 0 t;
  it_nodup : NoDup (inorder t);
  it_good : Forall good (inorder t);
  it_out : ∀ a, a ∉ inorder t → nodes s !! a = o !! a }.

(** ** Words *)

Lemma cval_range c : 0 ≤ cval c < 4.
Proof. destruct c; unfold cval, RB_RED, RB_BLACK; lia. Qed.

Lemma land_low p c : p mod 4 = 0 → 0 ≤ c < 4 → Z.land p c = 0.
Proof.
  intros Hp Hc. apply Z.bits_inj'. intros i Hi. rewrite Z.land_spec, Z.bits_0.
  destruct (Z.ltb_spec i 2) as [L2|L2].
  - replace p with (p / 4 * 2 ^ 2) by (pose proof (Z.div_mod p 4 ltac:(lia)); lia).
    by rewrite Z.mul_pow2_bits_low by done.
  - rewrite (Z.bits_above_log2 c i), andb_false_r; [done|lia|].
    destruct (decide (c = 0)) as [->|]; [cbn; lia|].
    apply Z.lt_le_trans with 2; [|done]. apply Z.log2_lt_pow2; lia.
Qed.

Lemma word_lor p c : p mod 4 = 0 → word p c = Z.lor p (cval c).
Proof.
  intros Hp. unfold word. pose proof (land_low p (cval c) Hp (cval_range c)) as E.
  by rewrite Z.add_nocarry_lxor, Z.lxor_lor by done.
Qed.

Lemma land_lnot3 p : p mod 4 = 0 → Z.land p (Z.lnot 3) = p.
Proof.
  intros Hp. change (Z.lnot 3) with (Z.lnot (Z.ones 2)). rewrite <- Z.ldiff_land, Z.ldiff_ones_r by lia.
  rewrite Z.shiftl_mul_pow2, Z.shiftr_div_pow2 by lia. change (2 ^ 2) with 4.
  pose proof (Z.div_mod p 4 ltac:(lia)). lia.
Qed.

Lemma land_lnot1 p : p mod 4 = 0 → Z.land p (Z.lnot 1) = p.
Proof.
  intros Hp. rewrite <- (land_lnot3 p Hp), <- Z.land_assoc. by change (Z.land (Z.lnot 3) (Z.lnot 1)) with (Z.lnot 3).
Qed.

Section words.
Context (p : Z) (Hp : p mod 4 = 0).
#[local] Set Default Proof Using "All".

Lemma rb_parent_word c q r : rb_parent (RbNode (word p c) q r) = p.
Proof.
  unfold rb_parent. cbn. rewrite word_lor, Z.land_lor_distr_l, land_lnot3 by done.
  destruct c; cbn; by rewrite Z.lor_0_r.
Qed.

Lemma rb_color_word c q r : rb_color (RbNode (word p c) q r) = cval c.
Proof.
  unfold rb_color. cbn. rewrite word_lor, Z.land_lor_distr_l, land_low by (done || lia).
  by destruct c.
Qed.

Lemma word_set_red c : Z.land (word p c) (Z.lnot 1) = word p Red.
Proof.
  rewrite !word_lor, Z.land_lor_distr_l, land_lnot1 by done. by destruct c.
Qed.

Lemma word_set_black c : Z.lor (word p c) 1 = word p Black.
Proof. rewrite !word_lor, <- Z.lor_assoc by done. by destruct c. Qed.

Lemma word_set_parent c q : q mod 4 = 0 → Z.lor (Z.land (word p c) 3) q = word q c.
Proof.
  intros Hq. rewrite !word_lor, Z.land_lor_distr_l, land_low by (done || lia).
  rewrite Z.lor_comm, Z.lor_0_l. by destruct c.
Qed.

Lemma word_set_color c d : Z.lor (Z.land (word p c) (Z.lnot 1)) (cval d) = word p d.
Proof. rewrite word_set_red, !word_lor by done. cbn. by rewrite Z.lor_0_r. Qed.

Lemma word_red c q r : rb_is_red (RbNode (word p c) q r) = bool_decide (c = Red).
Proof. unfold rb_is_red. rewrite rb_color_word by done. by destruct c. Qed.

Lemma word_black c q r : rb_is_black (RbNode (word p c) q r) = bool_decide (c = Black).
Proof. unfold rb_is_black. rewrite rb_color_word by done. by destruct c. Qed.
End words.

(** ** Contexts *)

Lemma inorder_plug k t : inorder (plug k t) = before k ++ inorder t ++ after k.
Proof.
  revert t. induction k as [|[[] a c sib] k IH]; intros t; cbn; [by rewrite app_nil_r|..];
    rewrite IH; cbn; by rewrite <- ?app_assoc.
Qed.

Lemma plug_app k1 k2 t : plug (k1 ++ k2) t = plug k2 (plug k1 t).
Proof. revert t. induction k1 as [|[d a c sib] k1 IH]; intros t; cbn; [done|apply IH]. Qed.

Lemma rep_mk h p d a c t sib :
  rep h p (mk d a c t sib) ↔
    h !! a = Some (node_of d p c (ptr t) (ptr sib)) ∧ rep h a t ∧ rep h a sib.
Proof. destruct d; cbn; tauto. Qed.

Lemma ptr_mk d a c t sib : ptr (mk d a c t sib) = a.
Proof. by destruct d. Qed.

Lemma rep_plug h p k t : rep h p (plug k t) ↔ rep h (top p k) t ∧ rep_ctx h (ptr t) p k.
Proof.
  revert t. induction k as [|[d a c sib] k IH]; intros t; cbn [plug rep_ctx top]; [tauto|].
  rewrite IH, rep_mk, ptr_mk. tauto.
Qed.

(** The pointer to the whole does not depend on what is in a hole below the root. *)
Lemma ptr_plug_cons f k t t' : ptr (plug (f :: k) t) = ptr (plug (f :: k) t').
Proof.
  destruct f as [d a c sib]. revert d a c sib t t'.
  induction k as [|[d1 a1 c1 sib1] k IH]; intros d a c sib t t'.
  - cbn. by rewrite !ptr_mk.
  - exact (IH d1 a1 c1 sib1 (mk d a c t sib) (mk d a c t' sib)).
Qed.

Lemma rep_insert h p t z n : z ∉ inorder t → rep h p t → rep (<[z := n]> h) p t.
Proof.
  revert p. induction t as [|a c l IHl r IHr]; intros p; cbn [rep inorder]; [done|].
  rewrite elem_of_app, elem_of_cons. intros Hz (Ha & Hl & Hr).
  rewrite lookup_insert_ne by (intros ->; tauto). split; [done|]. split; [apply IHl|apply IHr]; tauto.
Qed.

Lemma rep_ctx_insert h q p k z n :
  z ∉ before k → z ∉ after k → rep_ctx h q p k → rep_ctx (<[z := n]> h) q p k.
Proof.
  revert q. induction k as [|[[] a c sib] k IH]; intros q; cbn [rep_ctx before after]; [done|..];
    rewrite ?elem_of_app, ?elem_of_cons, ?elem_of_app, ?elem_of_cons, ?elem_of_nil;
    intros H1 H2 (Ha & Hs & Hk); rewrite lookup_insert_ne by (intros ->; tauto);
    (split; [done|]; split; [apply rep_insert|apply IH]; tauto).
Qed.

(** ** The focus of an operation *)

Section focus.
Context (o : gmap Z rb_node).
Implicit Types (s : rb) (k : list frame) (t l r : tree).

Lemma top_good s k t : is_tree o s (plug k t) → top 0 k mod 4 = 0.
Proof.
  intros [_ _ _ Hg _]. destruct k as [|[d a c sib] k]; [done|]. cbn [top].
  rewrite inorder_plug in Hg. rewrite Forall_forall in Hg. apply (Hg a).
  destruct d; cbn; set_solver.
Qed.

Lemma focus_good s k a c l r : is_tree o s (plug k (T a c l r)) → good a.
Proof.
  intros [_ _ _ Hg _]. rewrite inorder_plug in Hg. rewrite Forall_forall in Hg. apply (Hg a).
  cbn. set_solver.
Qed.

Lemma focus_get s k a c l r :
  is_tree o s (plug k (T a c l r)) → get a s = Some (node_of L (top 0 k) c (ptr l) (ptr r)).
Proof. intros [_ Hr _ _ _]. apply rep_plug in Hr as [(Ha & _) _]. done. Qed.

Lemma focus_put s k a c c' l r :
  is_tree o s (plug k (T a c l r)) →
  is_tree o (put a (node_of L (top 0 k) c' (ptr l) (ptr r)) s) (plug k (T a c' l r)).
Proof.
  intros [Hroot Hr Hn Hg Ho]. rewrite inorder_plug in *. split.
  - cbn. rewrite Hroot. destruct k as [|f k]; [done|]. apply ptr_plug_cons.
  - apply rep_plug in Hr as [(Ha & Hl & Hr) Hk]. apply rep_plug. cbn in *.
    apply NoDup_app in Hn as (_ & Hb & Hn). apply NoDup_app in Hn as (Hn & Haf & _).
    apply NoDup_app in Hn as (_ & Hln & [Hrn _]%NoDup_cons).
    rewrite lookup_insert_eq. split; [split; [done|split; apply rep_insert; set_solver]|].
    apply rep_ctx_insert; [set_solver..|done].
  - by rewrite inorder_plug.
  - by rewrite inorder_plug.
  - rewrite inorder_plug. intros b Hb. cbn. rewrite lookup_insert_ne by (cbn in Hb; set_solver). auto.
Qed.

Lemma set_red_ok s k a c l r :
  is_tree o s (plug k (T a c l r)) →
  ∃ s', rb_set_red a s = Some s' ∧ is_tree o s' (plug k (T a Red l r)).
Proof.
  intros Ht. unfold rb_set_red, upd. rewrite (focus_get _ _ _ _ _ _ Ht). cbn.
  rewrite (word_set_red (top 0 k)) by (by eapply top_good).
  eexists. split; [done|]. by apply (focus_put s k a c Red).
Qed.

Lemma set_black_ok s k a c l r :
  is_tree o s (plug k (T a c l r)) →
  ∃ s', rb_set_black a s = Some s' ∧ is_tree o s' (plug k (T a Black l r)).
Proof.
  intros Ht. unfold rb_set_black, upd. rewrite (focus_get _ _ _ _ _ _ Ht). cbn.
  rewrite (word_set_black (top 0 k)) by (by eapply top_good).
  eexists. split; [done|]. by apply (focus_put s k a c Black).
Qed.

Lemma set_color_ok s k a c d l r :
  is_tree o s (plug k (T a c l r)) →
  ∃ s', rb_set_color a (cval d) s = Some s' ∧ is_tree o s' (plug k (T a d l r)).
Proof.
  intros Ht. unfold rb_set_color, upd. rewrite (focus_get _ _ _ _ _ _ Ht). cbn.
  rewrite (word_set_color (top 0 k)) by (by eapply top_good).
  eexists. split; [done|]. by apply (focus_put s k a c d).
Qed.
End focus.

(** *** Pointers changed in a subtree *)

Lemma ctrue_ptr h p t : Forall good (inorder t) → rep h p t → ctrue (ptr t) = negb (bool_decide (t = E)).
Proof.
  intros Hg _. destruct t as [|a c l r]; [done|]. cbn in *. apply Forall_app in Hg as [_ [[Ha _] _]%Forall_cons].
  unfold ctrue. by rewrite (proj2 (Z.eqb_neq a 0)).
Qed.

(** The parent of a subtree is changed, when there is a subtree. *)
Lemma reparent_ok s p q t :
  Forall good (inorder t) → NoDup (inorder t) → p mod 4 = 0 → q mod 4 = 0 → rep (nodes s) p t →
  ∃ s', (if ctrue (ptr t) then rb_set_parent (ptr t) q s else Some s) = Some s' ∧
    rep (nodes s') q t ∧ rb_root s' = rb_root s ∧ ∀ a, a ≠ ptr t ∨ t = E → nodes s' !! a = nodes s !! a.
Proof.
  intros Hg Hn Hp Hq Hr. rewrite (ctrue_ptr _ _ _ Hg Hr).
  destruct t as [|a c l r]; [by exists s|]. rewrite bool_decide_false by done. cbn in Hr.
  destruct Hr as (Ha & Hl & Hr). cbn [negb ptr]. unfold rb_set_parent, upd, get. rewrite Ha. cbn.
  eexists. split; [done|]. cbn. apply NoDup_app in Hn as (_ & Hln & [Hrn _]%NoDup_cons).
  rewrite word_set_parent by done. rewrite lookup_insert_eq.
  split; [|split; [done|]].
  - split; [done|]. split; apply rep_insert; set_solver.
  - intros b [Hb|?]; [|done]. by rewrite lookup_insert_ne.
Qed.

(** The child of a parent is changed. *)
Definition change_child (parent old new : Z) (s : rb) : option rb :=
  if ctrue parent then
    p ← get parent s;
    if old =? rb_left p then set_left parent new s else set_right parent new s
  else Some (set_root new s).

Definition change_child_r (parent old new : Z) (s : rb) : option rb :=
  if ctrue parent then
    p ← get parent s;
    if old =? rb_right p then set_right parent new s else set_left parent new s
  else Some (set_root new s).

Definition change (d : dir) : Z → Z → Z → rb → option rb :=
  match d with L => change_child | R => change_child_r end.

(** A node of the context is not a child of another one. *)
Lemma rep_frame h h' p t : (∀ a, a ∈ inorder t → h' !! a = h !! a) → rep h p t → rep h' p t.
Proof.
  revert p. induction t as [|a c l IHl r IHr]; intros p; cbn [rep inorder]; [done|].
  intros Hh (Ha & Hl & Hr). rewrite Hh by set_solver.
  split; [done|]. split; [apply IHl|apply IHr]; set_solver.
Qed.

Lemma rep_ctx_frame h h' q p k :
  (∀ a, a ∈ before k ∨ a ∈ after k → h' !! a = h !! a) → rep_ctx h q p k → rep_ctx h' q p k.
Proof.
  revert q. induction k as [|[[] a c sib] k IH]; intros q; cbn [rep_ctx before after]; [done|..];
    intros Hh (Ha & Hs & Hk); (rewrite Hh by set_solver);
    (split; [done|]; split; [apply (rep_frame h)|apply IH]; set_solver).
Qed.

Lemma change_ok e s k q q' :
  rep_ctx (nodes s) q 0 k → NoDup (before k ++ after k) → Forall good (before k ++ after k) →
  q ≠ 0 → q ∉ before k ++ after k →
  ∃ s', change e (top 0 k) q q' s = Some s' ∧ rep_ctx (nodes s') q' 0 k ∧
    rb_root s' = (match k with [] => q' | _ => rb_root s end) ∧
    ∀ a, a ≠ top 0 k ∨ k = [] → nodes s' !! a = nodes s !! a.
Proof.
  intros Hk Hn Hg Hq Hqk. destruct k as [|[d a c sib] k].
  { exists (set_root q' s). destruct e; done. }
  destruct Hk as (Ha & Hs & Hk).
  assert (good a) as [Ha0 _].
  { rewrite Forall_forall in Hg. apply Hg. destruct d; cbn; set_solver. }
  assert (q ≠ ptr sib) as Hqs.
  { destruct sib as [|b]; [done|]. cbn. intros ->. apply Hqk. destruct d; cbn; set_solver. }
  assert (a ∉ inorder sib ∧ a ∉ before k ∧ a ∉ after k) as (Has & Hab & Haa).
  { destruct d; cbn in Hn.
    - apply NoDup_app in Hn as (_ & Hb & Hn). apply NoDup_cons in Hn as [Hn _]. set_solver.
    - apply NoDup_app in Hn as (Hn & Hb & _). apply NoDup_app in Hn as (_ & Hb1 & Hn).
      apply NoDup_app in Hn as (_ & Hb2 & _). set_solver. }
  assert (∃ n, change e a q q' s = Some (put a n s) ∧ n = node_of d (top 0 k) c q' (ptr sib)) as (n & E1 & ->).
  { eexists. split; [|done]. destruct e, d; cbn [change];
      unfold change_child, change_child_r, set_left, set_right, upd, get, ctrue;
      rewrite (proj2 (Z.eqb_neq a 0)) by done; cbn [negb]; rewrite Ha; cbn [mbind option_bind node_of rb_left rb_right];
      rewrite ?Z.eqb_refl, ?(proj2 (Z.eqb_neq q (ptr sib))) by done; done. }
  exists (put a (node_of d (top 0 k) c q' (ptr sib)) s). split; [done|].
  split; [|split; [done|]].
  - cbn. rewrite lookup_insert_eq. split; [done|].
    split; [by apply rep_insert|by apply rep_ctx_insert].
  - intros b [Hb|?]; [|done]. cbn. by rewrite lookup_insert_ne.
Qed.

Lemma upd_ok a f s n : nodes s !! a = Some n → upd a f s = Some (put a (f n) s).
Proof. unfold upd, get. by intros ->. Qed.

(** ** Rotations *)

Definition rotate (d : dir) : Z → rb → option rb :=
  match d with L => __rb_rotate_left | R => __rb_rotate_right end.

(** The middle part of a rotation, the same for the two sides. *)
Definition set_child (d : dir) : Z → Z → rb → option rb :=
  match d with L => set_left | R => set_right end.
Definition child (d : dir) (n : rb_node) : Z :=
  match d with L => rb_left n | R => rb_right n end.
Definition opp (d : dir) : dir := match d with L => R | R => L end.

Lemma rotate_eq d node s :
  rotate d node s =
    (n ← get node s;
     let right := child (opp d) n in
     let parent := rb_parent n in
     r ← get right s;
     s ← set_child (opp d) node (child d r) s;
     s ← (if ctrue (child d r) then r ← get right s; rb_set_parent (child d r) node s else Some s);
     s ← set_child d right node s;
     s ← rb_set_parent right parent s;
     s ← change d parent node right s;
     rb_set_parent node right s).
Proof. by destruct d. Qed.

Lemma set_child_ok d a v s e p c q sib :
  nodes s !! a = Some (node_of e p c q sib) →
  set_child d a v s =
    Some (put a (if decide (d = e) then node_of e p c v sib else node_of e p c q v) s).
Proof. intros Ha. destruct d, e; cbn; unfold set_left, set_right; by rewrite (upd_ok _ _ _ _ Ha). Qed.

Lemma set_parent_ok a v s d p c q sib :
  nodes s !! a = Some (node_of d p c q sib) → p mod 4 = 0 → v mod 4 = 0 →
  rb_set_parent a v s = Some (put a (node_of d v c q sib) s).
Proof.
  intros Ha Hp Hv. unfold rb_set_parent. rewrite (upd_ok _ _ _ _ Ha).
  destruct d; cbn; by rewrite word_set_parent.
Qed.

Lemma child_node_of d p c q sib : child d (node_of d p c q sib) = q.
Proof. by destruct d. Qed.
Lemma child_opp_node_of d p c q sib : child (opp d) (node_of d p c q sib) = sib.
Proof. by destruct d. Qed.
Lemma parent_node_of d p c q sib : p mod 4 = 0 → rb_parent (node_of d p c q sib) = p.
Proof. intros Hp. destruct d; by apply rb_parent_word. Qed.
Lemma color_node_of d p c q sib : p mod 4 = 0 → rb_color (node_of d p c q sib) = cval c.
Proof. intros Hp. destruct d; by apply rb_color_word. Qed.

Lemma mk_perm d a c t sib : inorder (mk d a c t sib) ≡ₚ a :: inorder t ++ inorder sib.
Proof.
  destruct d; cbn; [|rewrite (Permutation_app_comm (inorder t))]; by rewrite Permutation_middle.
Qed.

Lemma inorder_rotate d x c a y e b f :
  inorder (mk d y e (mk d x c a b) f) = inorder (mk d x c a (mk d y e b f)).
Proof. destruct d; cbn; by rewrite <- ?app_assoc. Qed.

Lemma ptr_notin t a : a ≠ 0 → a ∉ inorder t → a ≠ ptr t.
Proof. intros H0 Hn ->. destruct t; cbn in *; set_solver. Qed.

(** What the absence of repetitions says of the parts of a rotation. *)
Lemma rotate_apart d k x c a y e b f :
  NoDup (inorder (plug k (mk d x c a (mk d y e b f)))) →
  x ≠ y ∧ (∀ z, z ∈ inorder a ++ inorder b ++ inorder f ++ before k ++ after k → z ≠ x ∧ z ≠ y) ∧
  (∀ z, z ∈ inorder b → z ∉ inorder a ∧ z ∉ inorder f ∧ z ∉ before k ∧ z ∉ after k) ∧
  (∀ z, z ∈ before k ++ after k → z ∉ inorder a ∧ z ∉ inorder b ∧ z ∉ inorder f) ∧
  NoDup (inorder b) ∧ NoDup (before k ++ after k).
Proof.
  rewrite inorder_plug. intros Hn.
  assert (NoDup (x :: inorder a ++ y :: inorder b ++ inorder f ++ before k ++ after k)) as H.
  { eapply NoDup_Permutation_proper; [|exact Hn].
    rewrite (Permutation_app_swap_app (before k)), !mk_perm.
    cbn. rewrite <- app_assoc. cbn. by rewrite <- app_assoc. }
  clear Hn. apply NoDup_cons in H as [Hx H]. apply NoDup_app in H as (Ha & Hay & H).
  apply NoDup_cons in H as [Hy H]. apply NoDup_app in H as (Hb & Hbf & H).
  apply NoDup_app in H as (Hf & Hfk & Hk). set_solver.
Qed.

(** The stores of a rotation. *)
Lemma rotate_exec d s k x c a y e b f :
  rep (nodes s) 0 (plug k (mk d x c a (mk d y e b f))) →
  NoDup (inorder (plug k (mk d x c a (mk d y e b f)))) →
  Forall good (x :: y :: inorder b ++ before k ++ after k) → top 0 k mod 4 = 0 →
  ∃ s', rotate d x s = Some s' ∧
    nodes s' !! x = Some (node_of d y c (ptr a) (ptr b)) ∧
    nodes s' !! y = Some (node_of d (top 0 k) e x (ptr f)) ∧
    rep (nodes s') x b ∧ rep_ctx (nodes s') y 0 k ∧
    rb_root s' = (match k with [] => y | _ => rb_root s end) ∧
    ∀ z, z ≠ x → z ≠ y → z ∉ inorder b → z ∉ before k ++ after k → nodes s' !! z = nodes s !! z.
Proof.
  intros Hr Hn Hg Hk4.
  pose proof (rotate_apart _ _ _ _ _ _ _ _ _ Hn) as (Hxy & Hne & HB & HK & HnB & HnK).
  apply Forall_cons in Hg as [[Hx0 Hx4] Hg]. apply Forall_cons in Hg as [[Hy0 Hy4] Hg].
  apply Forall_app in Hg as [HgB HgK].
  apply rep_plug in Hr as [(Hx & Ha & Hr)%rep_mk Hk]. apply rep_mk in Hr as (Hy & Hb & Hf).
  rewrite !ptr_mk in *. rewrite rotate_eq. unfold get. rewrite Hx. cbn [mbind option_bind].
  rewrite child_opp_node_of, parent_node_of, Hy by done. cbn [mbind option_bind].
  rewrite (set_child_ok _ _ _ _ _ _ _ _ _ Hx), child_node_of. cbn [mbind option_bind].
  destruct (decide (opp d = d)) as [Hd|_]; [by destruct d|].
  set (s1 := put x _ s). assert (nodes s1 !! y = nodes s !! y) as -> by (cbn; by rewrite lookup_insert_ne).
  rewrite Hy. cbn [mbind option_bind]. rewrite child_node_of.
  assert (x ∉ inorder b ∧ y ∉ inorder b) as [HxB HyB] by set_solver.
  destruct (reparent_ok s1 y x b HgB HnB Hy4 Hx4) as (s2 & -> & Hb2 & Hroot2 & H2); [by apply rep_insert|].
  cbn [mbind option_bind].
  assert (nodes s2 !! y = Some (node_of d x e (ptr b) (ptr f))) as Hy2.
  { rewrite H2 by (left; by apply ptr_notin). cbn. by rewrite lookup_insert_ne. }
  rewrite (set_child_ok _ _ _ _ _ _ _ _ _ Hy2). destruct (decide (d = d)); [|done]. cbn [mbind option_bind].
  set (s3 := put y _ s2).
  assert (nodes s3 !! y = Some (node_of d x e x (ptr f))) as Hy3 by (cbn; by rewrite lookup_insert_eq).
  rewrite (set_parent_ok _ _ _ _ _ _ _ _ Hy3 Hx4 Hk4). cbn [mbind option_bind]. set (s4 := put y _ s3).
  assert (∀ z, z ≠ x → z ≠ y → z ∉ inorder b → nodes s4 !! z = nodes s !! z) as H4.
  { intros z Hzx Hzy Hzb. cbn. rewrite !lookup_insert_ne by done.
    rewrite H2; [cbn; by rewrite lookup_insert_ne|]. destruct b; [by right|left]. cbn in *. set_solver. }
  destruct (change_ok d s4 k x y) as (s5 & -> & Hk5 & Hroot5 & H5); [|done|done|done|set_solver|].
  { apply (rep_ctx_frame (nodes s)); [|done]. intros z Hz. apply H4; set_solver. }
  cbn [mbind option_bind].
  assert (∀ z, z ∉ before k ++ after k → nodes s5 !! z = nodes s4 !! z) as H5'.
  { intros z Hz. apply H5. destruct k as [|[[] z' cz sib] k]; [by right|left..]; cbn in *; set_solver. }
  assert (nodes s5 !! x = Some (node_of d (top 0 k) c (ptr a) (ptr b))) as Hx5.
  { rewrite H5' by set_solver. cbn. rewrite !lookup_insert_ne, H2 by (done || left; by apply ptr_notin).
    cbn. by rewrite lookup_insert_eq. }
  rewrite (set_parent_ok _ _ _ _ _ _ _ _ Hx5 Hk4 Hy4). eexists. split; [done|]. cbn.
  rewrite lookup_insert_eq, lookup_insert_ne, H5' by (done || set_solver). cbn. rewrite lookup_insert_eq.
  split; [done|]. split; [done|]. split; [|split; [|split]].
  - apply rep_insert; [done|]. apply (rep_frame (nodes s2)); [|done]. intros z Hz.
    rewrite H5' by set_solver. cbn. rewrite !lookup_insert_ne by (intros ->; done). done.
  - apply rep_ctx_insert; [set_solver..|done].
  - rewrite Hroot5. destruct k; [done|]. cbn. by rewrite Hroot2.
  - intros z Hzx Hzy Hzb Hzk. rewrite lookup_insert_ne by done. rewrite H5' by done. by apply H4.
Qed.

Lemma rotate_ok o d s k x c a y e b f :
  is_tree o s (plug k (mk d x c a (mk d y e b f))) →
  ∃ s', rotate d x s = Some s' ∧ is_tree o s' (plug k (mk d y e (mk d x c a b) f)).
Proof.
  intros Ht. pose proof (top_good _ _ _ _ Ht) as Hk4. destruct Ht as [Hroot Hr Hn Hg Ho].
  pose proof (rotate_apart _ _ _ _ _ _ _ _ _ Hn) as (Hxy & Hne & HB & HK & HnB & HnK).
  assert (∀ z, z ∈ inorder (plug k (mk d x c a (mk d y e b f))) ↔
    z = x ∨ z = y ∨ z ∈ inorder a ∨ z ∈ inorder b ∨ z ∈ inorder f ∨ z ∈ before k ++ after k) as Hin.
  { intros z. rewrite inorder_plug. destruct d; cbn; set_solver. }
  destruct (rotate_exec d s k x c a y e b f) as (s' & E & Hx & Hy & Hb & Hk & Hroot' & Hz); [done|done| |done|].
  { rewrite Forall_forall in *. intros z Hz. apply Hg, Hin. set_solver. }
  exists s'. split; [done|].
  apply rep_plug in Hr as [(_ & Ha & Hr)%rep_mk _]. apply rep_mk in Hr as (_ & _ & Hf).
  assert (inorder (plug k (mk d y e (mk d x c a b) f)) = inorder (plug k (mk d x c a (mk d y e b f)))) as EI.
  { by rewrite !inorder_plug, inorder_rotate. }
  split; rewrite ?EI; [..|done|done|].
  - rewrite Hroot'. destruct k as [|fr k]; [cbn [plug]; by rewrite ptr_mk|]. rewrite Hroot. apply ptr_plug_cons.
  - apply rep_plug. rewrite rep_mk, rep_mk, !ptr_mk. split_and!; try done.
    + apply (rep_frame (nodes s)); [|done]. intros z Hza. apply Hz; set_solver.
    + apply (rep_frame (nodes s)); [|done]. intros z Hzf. apply Hz; set_solver.
  - intros z Hzn. rewrite Hin in Hzn. rewrite Hz by set_solver. apply Ho. rewrite Hin. done.
Qed.
