(* ===== verification/RbtreeSpec.v ===== *)
(** * Red-black trees: order and balance

    The operations of [Rbtree] on a store that holds a red-black tree: the insertion of a new
    leaf, the removal of a node, the replacement of a node and the traversal.  Each always
    returns, keeps the sequence of the other nodes, leaves the nodes outside of the tree alone
    and gives a red-black tree, whose height is at most twice the logarithm of its size. *)

From S2P Require Import Prelude Rbtree.

Open Scope Z_scope.

(** ** Balance *)

(** A red-black tree with a root of colour [c] and black height [n]. *)
Inductive rbt : color → nat → tree → Prop :=
  | rbt_E : rbt Black 0 E
  | rbt_red n a l r : rbt Black n l → rbt Black n r → rbt Red n (T a Red l r)
  | rbt_black n a c d l r : rbt c n l → rbt d n r → rbt Black (S n) (T a Black l r).

(** A context for a subtree of black height [n]; [b]: the subtree must have a black root. *)
Inductive ctx_ok : bool → nat → list frame → Prop :=
  | ctx_nil n : ctx_ok true n []
  | ctx_red n d a sib k : rbt Black n sib → ctx_ok false n k → ctx_ok true n (Frame d a Red sib :: k)
  | ctx_black n b d a c sib k :
      rbt c n sib → ctx_ok b (S n) k → ctx_ok false n (Frame d a Black sib :: k).

(** The tree as a whole: its root is black. *)
Definition balanced (t : tree) : Prop := ∃ n, rbt Black n t.

Definition root_color (t : tree) : color := match t with E => Black | T _ c _ _ => c end.

Definition blacken (t : tree) : tree := match t with E => E | T a _ l r => T a Black l r end.

(** Sequences are compared with their parts bracketed to the right. *)
Ltac norm_app := cbn; repeat (rewrite <- app_assoc; cbn).

#[local] Hint Constructors rbt ctx_ok : core.

Lemma rbt_root c n t : rbt c n t → root_color t = c.
Proof. by destruct 1. Qed.

Lemma rbt_mk_red n d a t sib : rbt Black n t → rbt Black n sib → rbt Red n (mk d a Red t sib).
Proof. destruct d; cbn; auto. Qed.

Lemma rbt_mk_black n d a c e t sib :
  rbt c n t → rbt e n sib → rbt Black (S n) (mk d a Black t sib).
Proof. destruct d; cbn; eauto. Qed.

Lemma rbt_blacken c n t : rbt c n t → ∃ m, rbt Black m (blacken t).
Proof. destruct 1; cbn; eauto. Qed.

Lemma plug_balanced b n c k t :
  ctx_ok b n k → rbt c n t → (b = true → c = Black) → balanced (plug k t).
Proof.
  intros Hk. revert c t. induction Hk as [n|n d a sib k Hs Hk IH|n b d a e sib k Hs Hk IH]; intros c t Ht Hc.
  - rewrite (Hc eq_refl) in Ht. by exists n.
  - rewrite (Hc eq_refl) in Ht. apply (IH Red); [by apply rbt_mk_red|done].
  - apply (IH Black); [by eapply rbt_mk_black|done].
Qed.

(** A balanced tree, taken apart. *)
Lemma balanced_plug k t :
  balanced (plug k t) → ∃ b n c, ctx_ok b n k ∧ rbt c n t ∧ (b = true → c = Black).
Proof.
  revert t. induction k as [|[d a e sib] k IH]; intros t Ht; cbn in Ht.
  - destruct Ht as [n Hn]. exists true, n, Black. auto.
  - destruct (IH _ Ht) as (b & n & c & Hk & Hm & Hc).
    destruct d; cbn in Hm; inversion Hm; subst.
    1,3: exists true, n, Black; (split; [|done]); constructor; [done|];
      (destruct b; [by specialize (Hc eq_refl)|done]).
    all: eexists false, _, _; (split; [by econstructor|]; split; [done|done]).
Qed.

(** ** Reading the tree *)

Section reading.
Context (o : gmap Z rb_node).

Lemma mk_get s k d a c t sib :
  is_tree o s (plug k (mk d a c t sib)) → get a s = Some (node_of d (top 0 k) c (ptr t) (ptr sib)).
Proof. destruct d; cbn [mk]; intros Ht; by rewrite (focus_get _ _ _ _ _ _ _ Ht). Qed.

Lemma mk_good s k d a c t sib : is_tree o s (plug k (mk d a c t sib)) → a ≠ 0 ∧ a mod 4 = 0.
Proof. destruct d; intros Ht; by apply (focus_good _ _ _ _ _ _ _ Ht). Qed.

Lemma is_red_node_ok s k t :
  is_tree o s (plug k t) → is_red_node (ptr t) s = Some (bool_decide (root_color t = Red)).
Proof.
  unfold is_red_node. destruct t as [|a c l r]; [done|]. intros Ht. cbn [ptr root_color].
  unfold ctrue. rewrite (proj2 (Z.eqb_neq a 0)) by apply (focus_good _ _ _ _ _ _ _ Ht). cbn [negb].
  rewrite (focus_get _ _ _ _ _ _ _ Ht). cbn. rewrite word_red by (by eapply top_good). done.
Qed.

Lemma is_black_node_ok s k t :
  is_tree o s (plug k t) → is_black_node (ptr t) s = Some (bool_decide (root_color t = Black)).
Proof.
  unfold is_black_node. destruct t as [|a c l r]; [done|]. intros Ht. cbn [ptr root_color].
  unfold ctrue. rewrite (proj2 (Z.eqb_neq a 0)) by apply (focus_good _ _ _ _ _ _ _ Ht). cbn [negb].
  rewrite (focus_get _ _ _ _ _ _ _ Ht). cbn. rewrite word_black by (by eapply top_good). done.
Qed.

Lemma is_tree_size s t : is_tree o s t → (length (inorder t) ≤ size (nodes s))%nat.
Proof.
  intros [_ Hr Hn _ _]. rewrite <- (size_dom (D := gset Z)), <- (size_list_to_set (C := gset Z) (inorder t)) by done.
  apply subseteq_size. intros a. rewrite elem_of_list_to_set, elem_of_dom.
  revert Hr. generalize 0. clear Hn. induction t as [|b c l IHl r IHr]; intros p; cbn; [set_solver|].
  intros (Hb & Hl & Hr) [Ha|[->|Ha]%elem_of_cons]%elem_of_app; eauto.
Qed.

Lemma ctx_length k : (length k ≤ length (before k) + length (after k))%nat.
Proof.
  induction k as [|[[] a c sib] k IH]; cbn; rewrite ?length_app; cbn; [lia|rewrite ?length_app; lia..].
Qed.

Lemma ctx_fuel s k t : is_tree o s (plug k t) → (length k < rb_fuel s)%nat.
Proof.
  intros Ht. pose proof (is_tree_size _ _ Ht) as Hs. rewrite inorder_plug, !length_app in Hs.
  pose proof (ctx_length k). unfold rb_fuel. lia.
Qed.
End reading.

(** ** Insertion *)

(** The branch of the loop for a parent on the side [d] of its own parent. *)
Definition insert_branch (fuel : nat) (d : dir) (node parent gparent : Z) (p g : rb_node) (s : rb)
    : option rb :=
  let uncle := child (opp d) g in
  red ← is_red_node uncle s;
  if red : bool then
    s ← rb_set_black uncle s;
    s ← rb_set_black parent s;
    s ← rb_set_red gparent s;
    insert_loop fuel gparent s
  else
    '(node, parent, s) ← (if child (opp d) p =? node then
                            s ← rotate d parent s; Some (parent, node, s)
                          else Some (node, parent, s));
    s ← rb_set_black parent s;
    s ← rb_set_red gparent s;
    s ← rotate (opp d) gparent s;
    insert_loop fuel node s.

Lemma insert_loop_S fuel node s :
  insert_loop (S fuel) node s =
    (n ← get node s;
     let parent := rb_parent n in
     if negb (ctrue parent) then Some s else
     p ← get parent s;
     if negb (rb_is_red p) then Some s else
     let gparent := rb_parent p in
     g ← get gparent s;
     insert_branch fuel (if parent =? rb_left g then L else R) node parent gparent p g s).
Proof.
  cbn [insert_loop]. destruct (get node s) as [n|]; [|done]. cbn [mbind option_bind].
  destruct (negb _); [done|]. destruct (get (rb_parent n) s) as [p|]; [|done]. cbn [mbind option_bind].
  destruct (negb _); [done|]. destruct (get (rb_parent p) s) as [g|]; [|done]. cbn [mbind option_bind].
  by destruct (_ =? _).
Qed.

Section insertion.
Context (o : gmap Z rb_node).

Lemma mk_opp d a c t sib : mk (opp d) a c t sib = mk d a c sib t.
Proof. by destruct d. Qed.

Lemma mk_set_red s k d a c t sib :
  is_tree o s (plug k (mk d a c t sib)) →
  ∃ s', rb_set_red a s = Some s' ∧ is_tree o s' (plug k (mk d a Red t sib)).
Proof. destruct d; apply set_red_ok. Qed.

Lemma mk_set_black s k d a c t sib :
  is_tree o s (plug k (mk d a c t sib)) →
  ∃ s', rb_set_black a s = Some s' ∧ is_tree o s' (plug k (mk d a Black t sib)).
Proof. destruct d; apply set_black_ok. Qed.

Lemma mk_set_color s k d a c e t sib :
  is_tree o s (plug k (mk d a c t sib)) →
  ∃ s', rb_set_color a (cval e) s = Some s' ∧ is_tree o s' (plug k (mk d a e t sib)).
Proof. destruct d; apply set_color_ok. Qed.

(** The root of a subtree that is not empty is made black. *)
Lemma blacken_ok s k t :
  is_tree o s (plug k t) → t ≠ E →
  ∃ s', rb_set_black (ptr t) s = Some s' ∧ is_tree o s' (plug k (blacken t)).
Proof. destruct t; [done|]. intros Ht _. by apply (set_black_ok _ _ _ _ c). Qed.

(** The end of the loop: the node has no parent, or a black one. *)
Lemma insert_loop_end fuel s k x c l r :
  is_tree o s (plug k (T x c l r)) →
  (∀ d a sib k', k ≠ Frame d a Red sib :: k') →
  insert_loop (S fuel) x s = Some s.
Proof.
  intros Ht Hk. rewrite insert_loop_S, (focus_get _ _ _ _ _ _ _ Ht). cbn [mbind option_bind].
  rewrite parent_node_of by (by eapply top_good). unfold ctrue.
  destruct k as [|[d p [] sib] k]; [done|by destruct (Hk d p sib k)|]. cbn [top]. cbn [plug] in Ht.
  destruct (mk_good _ _ _ _ _ _ _ _ Ht) as [Hp0 _]. rewrite (proj2 (Z.eqb_neq p 0)) by done. cbn [negb].
  rewrite (mk_get _ _ _ _ _ _ _ _ Ht). cbn [mbind option_bind].
  pose proof (top_good _ _ _ _ Ht). destruct d; cbn [node_of]; by rewrite word_red.
Qed.

(** The last steps: the grandparent is rotated. *)
Lemma insert_finish fuel s k d g p z zl zr b u :
  is_tree o s (plug k (mk d g Black (mk d p Red (T z Red zl zr) b) u)) →
  ∃ s', (s ← rb_set_black p s; s ← rb_set_red g s; s ← rotate (opp d) g s; insert_loop (S fuel) z s)
        = Some s' ∧
    is_tree o s' (plug k (mk d p Black (T z Red zl zr) (mk d g Red b u))).
Proof.
  intros Ht.
  destruct (mk_set_black s (Frame d g Black u :: k) d p Red (T z Red zl zr) b Ht) as (s1 & -> & H1).
  destruct (mk_set_red s1 k d g Black _ u H1) as (s2 & E2 & H2). cbn [mbind option_bind]. rewrite E2.
  cbn [mbind option_bind]. rewrite <- (mk_opp d g), <- (mk_opp d p) in H2.
  destruct (rotate_ok _ _ _ _ _ _ _ _ _ _ _ H2) as (s3 & -> & H3). cbn [mbind option_bind].
  rewrite !mk_opp in H3. exists s3. split; [|done].
  by apply (insert_loop_end fuel s3 (Frame d p Black (mk d g Red b u) :: k) z Red zl zr).
Qed.

(** The side of a child is found by comparing pointers. *)
Lemma side_left s k d g c p sib :
  is_tree o s (plug k (mk d g c p sib)) → ptr p ≠ 0 →
  (ptr p =? rb_left (node_of d (top 0 k) c (ptr p) (ptr sib))) = bool_decide (d = L).
Proof.
  intros [_ _ Hn _ _] Hp. destruct d; cbn; [by rewrite Z.eqb_refl|].
  apply Z.eqb_neq. rewrite inorder_plug in Hn. destruct p as [|x cx l r]; [done|].
  destruct sib as [|y cy l' r']; [done|]. cbn in *. intros ->.
  apply NoDup_app in Hn as (_ & _ & Hn). apply NoDup_app in Hn as (Hn & _ & _).
  apply NoDup_app in Hn as (_ & Hn & _). apply (Hn y); set_solver.
Qed.

Lemma side_opp s k d e g c p sib :
  is_tree o s (plug k (mk d g c p sib)) → ptr p ≠ 0 →
  (child e (node_of d (top 0 k) c (ptr p) (ptr sib)) =? ptr p) = bool_decide (d = e).
Proof.
  intros Ht Hp.
  assert (ptr sib ≠ ptr p) as Hne.
  { destruct Ht as [_ _ Hn _ _]. rewrite inorder_plug, mk_perm in Hn.
    destruct p as [|x cx l r]; [done|]. destruct sib as [|y cy l' r']; [cbn in *; lia|]. cbn in *. intros ->.
    apply NoDup_app in Hn as (_ & _ & Hn). apply NoDup_cons in Hn as [_ Hn].
    apply NoDup_app in Hn as (Hn & _ & _).
    apply NoDup_app in Hn as (_ & Hn & _). apply (Hn x); set_solver. }
  destruct d, e; cbn; rewrite ?Z.eqb_refl; try done; by apply Z.eqb_neq.
Qed.

(** What the loop leaves: a tree with the same nodes, balanced once its root is black. *)
Definition almost (io : list Z) (s : rb) : Prop :=
  ∃ t, is_tree o s t ∧ inorder t = io ∧ t ≠ E ∧ balanced (blacken t).

Lemma balanced_blacken t : balanced t → balanced (blacken t).
Proof. intros [n Hn]. destruct (rbt_blacken _ _ _ Hn) as [m Hm]. by exists m. Qed.

Lemma plug_not_E k t : t ≠ E → plug k t ≠ E.
Proof.
  revert t. induction k as [|[d a c sib] k IH]; intros t Ht; [done|]. apply IH. by destruct d.
Qed.

Lemma inorder_plug_eq k t t' : inorder t = inorder t' → inorder (plug k t) = inorder (plug k t').
Proof. rewrite !inorder_plug. by intros ->. Qed.

(** The uncle is red: the problem moves up. *)
Lemma insert_recolor s k d g p e X sib u ua ul ur :
  let P := mk e p Red X sib in u = T ua Red ul ur →
  is_tree o s (plug k (mk d g Black P u)) →
  ∃ s', (s ← rb_set_black ua s; s ← rb_set_black p s; rb_set_red g s) = Some s' ∧
    is_tree o s' (plug k (mk d g Red (mk e p Black X sib) (T ua Black ul ur))).
Proof.
  intros P -> Ht. rewrite <- mk_opp in Ht.
  destruct (set_black_ok o s (Frame (opp d) g Black P :: k) ua Red ul ur Ht) as (s1 & -> & H1).
  cbn [mbind option_bind plug] in *. rewrite mk_opp in H1.
  destruct (mk_set_black s1 (Frame d g Black (T ua Black ul ur) :: k) e p Red X sib H1) as (s2 & -> & H2).
  cbn [mbind option_bind]. by apply (mk_set_red s2 k d g Black).
Qed.

(** The node is an inner grandchild: its parent is rotated first. *)
Lemma insert_inner s k d g p x l r sib u :
  is_tree o s (plug k (mk d g Black (mk (opp d) p Red (T x Red l r) sib) u)) →
  ∃ s' a b, rotate d p s = Some s' ∧
    is_tree o s' (plug k (mk d g Black (mk d x Red (mk d p Red sib a) b) u)) ∧
    mk d x Red a b = T x Red l r.
Proof.
  rewrite mk_opp. intros Ht.
  assert (∃ a b, mk d x Red a b = T x Red l r) as (a & b & E).
  { destruct d; [by exists l, r|by exists r, l]. }
  rewrite <- E in Ht.
  destruct (rotate_ok o d s (Frame d g Black u :: k) p Red sib x Red a b Ht) as (s1 & E1 & H1).
  by exists s1, a, b.
Qed.

(** The parent is red: it has a parent of its own, and the branch depends on its side. *)
Lemma insert_step fuel s k d g e p x l r sib u :
  is_tree o s (plug k (mk d g Black (mk e p Red (T x Red l r) sib) u)) →
  insert_loop (S fuel) x s =
    insert_branch fuel d x p g (node_of e g Red x (ptr sib)) (node_of d (top 0 k) Black p (ptr u)) s.
Proof.
  intros Ht.
  assert (is_tree o s (plug (Frame d g Black u :: k) (mk e p Red (T x Red l r) sib))) as Hp by done.
  assert (is_tree o s (plug (Frame e p Red sib :: Frame d g Black u :: k) (T x Red l r))) as Hx by done.
  destruct (mk_good _ _ _ _ _ _ _ _ Hp) as [Hp0 Hp4]. destruct (mk_good _ _ _ _ _ _ _ _ Ht) as [Hg0 Hg4].
  rewrite insert_loop_S, (focus_get _ _ _ _ _ _ _ Hx). cbn [mbind option_bind top].
  rewrite parent_node_of by done. unfold ctrue. rewrite (proj2 (Z.eqb_neq p 0)) by done. cbn [negb].
  rewrite (mk_get _ _ _ _ _ _ _ _ Hp). cbn [mbind option_bind top ptr].
  assert (rb_is_red (node_of e g Red x (ptr sib)) = true) as ->.
  { destruct e; cbn [node_of]; by rewrite word_red. }
  cbn [negb]. rewrite parent_node_of by done. rewrite (mk_get _ _ _ _ _ _ _ _ Ht). cbn [mbind option_bind].
  pose proof (side_left _ _ _ _ _ _ _ Ht) as Es. rewrite !ptr_mk in *. rewrite Es by done. by destruct d.
Qed.

Lemma insert_branch_recolor fuel s k d g e p x l r sib ua ul ur :
  is_tree o s (plug k (mk d g Black (mk e p Red (T x Red l r) sib) (T ua Red ul ur))) →
  ∃ s', insert_loop (S fuel) x s = insert_loop fuel g s' ∧
    is_tree o s' (plug k (mk d g Red (mk e p Black (T x Red l r) sib) (T ua Black ul ur))).
Proof.
  intros Ht. rewrite (insert_step _ _ _ _ _ _ _ _ _ _ _ _ Ht). unfold insert_branch.
  rewrite child_opp_node_of. cbn [ptr]. pose proof Ht as Hu. rewrite <- mk_opp in Hu.
  pose proof (is_red_node_ok o s (Frame _ _ _ _ :: k) (T ua Red ul ur) Hu) as E. cbn [ptr] in E.
  rewrite E. cbn [mbind option_bind root_color]. rewrite bool_decide_true by done.
  destruct (insert_recolor s k d g p e _ sib _ ua ul ur eq_refl Ht) as (s' & E' & H').
  exists s'. split; [|done].
  destruct (rb_set_black ua s) as [s1|]; [|done]. cbn [mbind option_bind] in *.
  destruct (rb_set_black p s1) as [s2|]; [|done]. cbn [mbind option_bind] in *. by rewrite E'.
Qed.

(** The uncle is black: one or two rotations, and the loop ends. *)
Lemma insert_branch_rotate fuel s k d g e p x l r sib u :
  is_tree o s (plug k (mk d g Black (mk e p Red (T x Red l r) sib) u)) → root_color u = Black →
  ∃ s' y z zl zr b, insert_loop (S (S fuel)) x s = Some s' ∧
    is_tree o s' (plug k (mk d y Black (T z Red zl zr) (mk d g Red b u))) ∧
    inorder (mk d y Black (T z Red zl zr) (mk d g Red b u)) =
      inorder (mk d g Black (mk e p Red (T x Red l r) sib) u) ∧
    ∀ n, rbt Black n l → rbt Black n r → rbt Black n sib →
      rbt Red n (T z Red zl zr) ∧ rbt Black n b.
Proof.
  intros Ht Hu. rewrite (insert_step _ _ _ _ _ _ _ _ _ _ _ _ Ht). unfold insert_branch.
  rewrite child_opp_node_of. pose proof Ht as Hu'. rewrite <- mk_opp in Hu'.
  rewrite (is_red_node_ok o s (Frame _ _ _ _ :: k) u Hu'), Hu. cbn [mbind option_bind].
  rewrite bool_decide_false by done. rewrite <- (Z.eqb_sym x).
  assert (is_tree o s (plug (Frame d g Black u :: k) (mk e p Red (T x Red l r) sib))) as Hp by done.
  assert (x ≠ 0) as Hx0.
  { apply (focus_good o s (Frame e p Red sib :: Frame d g Black u :: k) x Red l r Ht). }
  pose proof (side_opp _ _ _ (opp d) _ _ _ _ Hp Hx0) as Es. cbn [top ptr] in Es. rewrite Z.eqb_sym, Es.
  destruct (decide (e = opp d)) as [->|Hne].
  - rewrite bool_decide_true by done.
    destruct (insert_inner _ _ _ _ _ _ _ _ _ _ Ht) as (s1 & a & b & -> & H1 & E1). cbn [mbind option_bind].
    assert (∃ zl zr, mk d p Red sib a = T p Red zl zr) as (zl & zr & Ez) by (destruct d; eauto).
    rewrite Ez in H1. destruct (insert_finish fuel _ _ _ _ _ _ _ _ _ _ H1) as (s2 & E2 & H2).
    exists s2, x, p, zl, zr, b. split; [done|]. split; [done|]. rewrite <- Ez, <- E1. split.
    + destruct d; by norm_app.
    + intros n Hl Hr Hs. assert (rbt Red n (mk d x Red a b)) as Hm by (rewrite E1; auto).
      split; [apply rbt_mk_red; [done|]|]; destruct d; cbn in Hm; by inversion Hm.
  - rewrite bool_decide_false by done. assert (e = d) as -> by (by destruct d, e).
    cbn [mbind option_bind]. destruct (insert_finish fuel _ _ _ _ _ _ _ _ _ _ Ht) as (s2 & E2 & H2).
    exists s2, p, x, l, r, sib. split; [done|]. split; [done|]. split; [|auto].
    destruct d; by norm_app.
Qed.

Lemma insert_loop_ok fuel s k x l r n m :
  is_tree o s (plug k (T x Red l r)) → rbt Black n l → rbt Black n r → ctx_ok m n k →
  (length k < fuel)%nat →
  ∃ s', insert_loop fuel x s = Some s' ∧ almost (inorder (plug k (T x Red l r))) s'.
Proof.
  revert s k x l r n m. induction fuel as [fuel IH] using lt_wf_ind. intros s k x l r n m Ht Hl Hr Hk Hf.
  destruct fuel as [|fuel]; [lia|].
  destruct Hk as [n|n e p sib k Hs Hk|n b e p c sib k Hs Hk].
  - exists s. rewrite (insert_loop_end _ _ _ _ _ _ _ Ht) by done. split; [done|].
    exists (T x Red l r). split_and!; [done..|]. exists (S n). by econstructor.
  - inversion Hk as [| |? b d g cu u k' Hu Hk']; subst.
    cbn [plug] in *.
    destruct (decide (root_color u = Red)) as [Hc|Hc].
    + destruct u as [|ua uc ul ur]; [done|]. cbn in Hc. subst uc. inversion Hu; subst.
      destruct (insert_branch_recolor fuel _ _ _ _ _ _ _ _ _ _ _ _ _ Ht) as (s1 & -> & H1).
      assert (∃ gl gr, mk d g Red (mk e p Black (T x Red l r) sib) (T ua Black ul ur) = T g Red gl gr ∧
        rbt Black (S n) gl ∧ rbt Black (S n) gr) as (gl & gr & Eg & Hgl & Hgr).
      { assert (rbt Black (S n) (mk e p Black (T x Red l r) sib)) by (eapply rbt_mk_black; eauto).
        destruct d; eexists _, _; eauto. }
      rewrite Eg in H1. cbn in Hf.
      destruct (IH fuel ltac:(lia) s1 k' g gl gr (S n) b H1 Hgl Hgr Hk' ltac:(lia)) as (s2 & E2 & H2).
      exists s2. split; [done|]. rewrite <- Eg in H2.
      replace (inorder (plug k' (mk d g Black _ _))) with
        (inorder (plug k' (mk d g Red (mk e p Black (T x Red l r) sib) (T ua Black ul ur)))); [done|].
      apply inorder_plug_eq. by destruct d, e.
    + cbn in Hf. destruct fuel as [|fuel]; [lia|].
      destruct (insert_branch_rotate fuel _ _ _ _ _ _ _ _ _ _ _ Ht ltac:(by destruct (root_color u)))
        as (s1 & y & z & zl & zr & b' & E1 & H1 & EI & Hb).
      exists s1. split; [done|]. exists (plug k' (mk d y Black (T z Red zl zr) (mk d g Red b' u))).
      split_and!; [done|by apply inorder_plug_eq|apply plug_not_E; by destruct d|].
      apply balanced_blacken. destruct (Hb n Hl Hr Hs) as [Hz Hb'].
      apply (plug_balanced b (S n) Black); [done| |done]. eapply rbt_mk_black; [done|].
      apply rbt_mk_red; [done|]. rewrite (rbt_root _ _ _ Hu) in Hc. by destruct cu.
  - exists s. rewrite (insert_loop_end _ _ _ _ _ _ _ Ht) by done. split; [done|].
    exists (plug (Frame e p Black sib :: k) (T x Red l r)). split_and!; [done..|by apply plug_not_E|].
    apply balanced_blacken. apply (plug_balanced false n Red); [eauto..|done].
Qed.

(** A new red leaf is inserted. *)
Lemma rb_insert_color_ok s k x n m :
  is_tree o s (plug k (T x Red E E)) → ctx_ok m n k → n = O →
  ∃ s' t, rb_insert_color x s = Some s' ∧ is_tree o s' t ∧ balanced t ∧
    inorder t = before k ++ x :: after k.
Proof.
  intros Ht Hk ->. unfold rb_insert_color.
  destruct (insert_loop_ok (rb_fuel s) s k x E E 0 m Ht ltac:(auto) ltac:(auto) Hk
    ltac:(by eapply ctx_fuel)) as (s1 & -> & t & H1 & EI & Hne & Hb). cbn [mbind option_bind].
  rewrite (it_root _ _ _ H1). destruct (blacken_ok s1 [] t H1 Hne) as (s2 & -> & H2).
  exists s2, (blacken t). split_and!; try done. rewrite inorder_plug in EI. cbn in EI. rewrite <- EI.
  by destruct t.
Qed.
End insertion.

(** ** Removal *)

(** The branch of the loop for a node on the side [d] of its parent. *)
Definition sibling_red (d : dir) (parent other : Z) (s : rb) : option (Z * rb) :=
  o ← get other s;
  if rb_is_red o then
    s ← rb_set_black other s;
    s ← rb_set_red parent s;
    s ← rotate d parent s;
    p ← get parent s;
    Some (child (opp d) p, s)
  else Some (other, s).

Definition sibling_far (d : dir) (far : bool) (parent other : Z) (o : rb_node) (s : rb)
    : option (Z * rb) :=
  if far then
    s ← rb_set_black (child d o) s;
    s ← rb_set_red other s;
    s ← rotate (opp d) other s;
    p ← get parent s;
    Some (child (opp d) p, s)
  else Some (other, s).

Definition erase_end (d : dir) (parent other : Z) (s : rb) : option (Z * rb) :=
  p ← get parent s;
  s ← rb_set_color other (rb_color p) s;
  s ← rb_set_black parent s;
  o ← get other s;
  s ← rb_set_black (child (opp d) o) s;
  s ← rotate d parent s;
  Some (rb_root s, s).

Definition erase_branch (fuel : nat) (d : dir) (parent : Z) (p : rb_node) (s : rb)
    : option (Z * rb) :=
  '(other, s) ← sibling_red d parent (child (opp d) p) s;
  o ← get other s;
  bl ← is_black_node (rb_left o) s;
  br ← is_black_node (rb_right o) s;
  if (bl : bool) && (br : bool) then
    s ← rb_set_red other s;
    p ← get parent s;
    erase_loop fuel parent (rb_parent p) s
  else
    '(other, s) ← sibling_far d (match d with L => br | R => bl end) parent other o s;
    erase_end d parent other s.

Lemma erase_loop_S fuel node parent s :
  erase_loop (S fuel) node parent s =
    (black ← is_black_node node s;
     if negb ((black : bool) && negb (node =? rb_root s)) then Some (node, s) else
     p ← get parent s;
     erase_branch fuel (if rb_left p =? node then L else R) parent p s).
Proof.
  cbn [erase_loop]. destruct (is_black_node node s) as [b|]; [|done]. cbn [mbind option_bind].
  destruct (negb _); [done|]. destruct (get parent s) as [p|]; [|done]. cbn [mbind option_bind].
  unfold erase_branch, sibling_red. destruct (_ =? node); cbn [child opp].
  - by destruct (get (rb_right p) s).
  - by destruct (get (rb_left p) s).
Qed.

Section removal.
Context (o : gmap Z rb_node).

(** *** The sibling *)

(** After the first step the sibling is black. *)
Lemma sibling_red_ok s k d p c t sib m n :
  is_tree o s (plug k (mk d p c t sib)) → ctx_ok m (S n) (Frame d p c sib :: k) →
  ∃ s' k' c' sib', sibling_red d p (ptr sib) s = Some (ptr sib', s') ∧
    is_tree o s' (plug k' (mk d p c' t sib')) ∧ rbt Black (S n) sib' ∧
    inorder (plug k' (mk d p c' t sib')) = inorder (plug k (mk d p c t sib)) ∧
    (∃ m', ctx_ok m' (S n) (Frame d p c' sib' :: k')) ∧ (c' = Red ∨ k' = k).
Proof.
  intros Ht Hk. unfold sibling_red.
  destruct (decide (root_color sib = Red)) as [Hc|Hc].
  - assert (∃ w x y, sib = mk d w Red x y) as (w & x & y & ->).
    { destruct sib as [|w cw l r]; [done|]. cbn in Hc. subst cw.
      destruct d; [by exists w, l, r|by exists w, r, l]. }
    assert (is_tree o s (plug (Frame (opp d) p c t :: k) (mk d w Red x y))) as Hw.
    { cbn [plug]. by rewrite mk_opp. }
    destruct (mk_good _ _ _ _ _ _ _ _ Ht) as [Hp0 Hp4].
    rewrite ptr_mk, (mk_get _ _ _ _ _ _ _ _ Hw). cbn [mbind option_bind top].
    assert (rb_is_red (node_of d p Red (ptr x) (ptr y)) = true) as ->.
    { destruct d; cbn [node_of]; by rewrite word_red. }
    destruct (mk_set_black _ _ _ _ _ _ _ _ Hw) as (s1 & -> & H1). cbn [mbind option_bind plug] in *.
    rewrite mk_opp in H1. destruct (mk_set_red _ _ _ _ _ _ _ _ H1) as (s2 & -> & H2). cbn [mbind option_bind].
    destruct (rotate_ok _ _ _ _ _ _ _ _ _ _ _ H2) as (s3 & -> & H3). cbn [mbind option_bind].
    change (plug k (mk d w Black (mk d p Red t x) y)) with (plug (Frame d w Black y :: k) (mk d p Red t x)) in H3.
    rewrite (mk_get _ _ _ _ _ _ _ _ H3). cbn [mbind option_bind]. rewrite child_opp_node_of.
    exists s3, (Frame d w Black y :: k), Red, x. split; [done|]. split; [done|].
    assert (c = Black ∧ rbt Black (S n) x ∧ rbt Black (S n) y ∧ ∃ b, ctx_ok b (S (S n)) k) as (-> & Hx & Hy & b & Hk').
    { inversion Hk as [|? ? ? ? ? Hs|? ? ? ? ? ? ? Hs Hk']; subst; destruct d; cbn in Hs; inversion Hs; subst; eauto. }
    split; [done|]. split; [cbn [plug]; apply inorder_plug_eq; destruct d; by norm_app|].
    split; [|by left]. exists true. constructor; [done|]. by econstructor.
  - assert (rbt Black (S n) sib) as Hs.
    { inversion Hk as [|? ? ? ? ? Hs|? ? ? ? e ? ? Hs ?]; subst; [done|].
      pose proof (rbt_root _ _ _ Hs). destruct e; [congruence|done]. }
    assert (∃ w l r, sib = T w Black l r) as (w & l & r & ->) by (inversion Hs; eauto).
    assert (is_tree o s (plug (Frame (opp d) p c t :: k) (T w Black l r))) as Hw.
    { cbn [plug]. by rewrite mk_opp. }
    destruct (mk_good _ _ _ _ _ _ _ _ Ht) as [Hp0 Hp4].
    cbn [ptr]. rewrite (focus_get _ _ _ _ _ _ _ Hw). cbn [mbind option_bind top node_of].
    rewrite word_red by done. rewrite bool_decide_false by done.
    exists s, k, c, (T w Black l r). split_and!; [done..|by exists m|by right].
Qed.

(** A black sibling with a red child on the near side only is rotated. *)
Lemma sibling_far_ok s k d p c t w x y n (far : bool) cx cy :
  is_tree o s (plug k (mk d p c t (mk d w Black x y))) → rbt cx n x → rbt cy n y →
  far = bool_decide (root_color y = Black) → (far = true → cx = Red) →
  ∃ s' w' a z zl zr ca,
    sibling_far d far p w (node_of d p Black (ptr x) (ptr y)) s = Some (w', s') ∧
    is_tree o s' (plug k (mk d p c t (mk d w' Black a (T z Red zl zr)))) ∧
    rbt ca n a ∧ rbt Red n (T z Red zl zr) ∧
    inorder (mk d w' Black a (T z Red zl zr)) = inorder (mk d w Black x y).
Proof.
  intros Ht Hx Hy -> Hfar. unfold sibling_far. rewrite (rbt_root _ _ _ Hy) in *.
  destruct cy.
  - rewrite bool_decide_false by done. inversion Hy; subst. by eexists _, _, _, _, _, _, _.
  - rewrite bool_decide_true in * by done. rewrite (Hfar eq_refl) in Hx.
    assert (∃ v x1 x2, x = mk d v Red x1 x2 ∧ rbt Black n x1 ∧ rbt Black n x2) as (v & x1 & x2 & -> & H1 & H2).
    { inversion Hx; subst. destruct d; eexists _, _, _; eauto. }
    rewrite child_node_of, ptr_mk.
    assert (is_tree o s (plug (Frame d w Black y :: Frame (opp d) p c t :: k) (mk d v Red x1 x2))) as Hv.
    { cbn [plug]. by rewrite mk_opp. }
    destruct (mk_set_black _ _ _ _ _ _ _ _ Hv) as (s1 & -> & Hs1). cbn [mbind option_bind].
    change (plug (Frame d w Black y :: ?k) ?x) with (plug k (mk d w Black x y)) in Hs1.
    destruct (mk_set_red _ _ _ _ _ _ _ _ Hs1) as (s2 & -> & Hs2). cbn [mbind option_bind].
    rewrite <- (mk_opp d w), <- (mk_opp d v) in Hs2.
    destruct (rotate_ok _ _ _ _ _ _ _ _ _ _ _ Hs2) as (s3 & -> & Hs3). cbn [mbind option_bind plug] in *.
    rewrite !mk_opp in Hs3. rewrite (mk_get _ _ _ _ _ _ _ _ Hs3). cbn [mbind option_bind].
    rewrite child_opp_node_of, ptr_mk.
    assert (∃ zl zr, mk d w Red x2 y = T w Red zl zr) as (zl & zr & Ez) by (destruct d; eauto).
    exists s3, v, x1, w, zl, zr, Black. rewrite <- Ez. split_and!; try done.
    + by apply rbt_mk_red.
    + destruct d; by norm_app.
Qed.

(** The last rotation. *)
Lemma erase_end_ok s k d p c t w a z zl zr :
  is_tree o s (plug k (mk d p c t (mk d w Black a (T z Red zl zr)))) →
  ∃ s', erase_end d p w s = Some (rb_root s', s') ∧
    is_tree o s' (plug k (mk d w c (mk d p Black t a) (T z Black zl zr))).
Proof.
  intros Ht. unfold erase_end. rewrite (mk_get _ _ _ _ _ _ _ _ Ht). cbn [mbind option_bind].
  rewrite color_node_of by (by eapply top_good).
  assert (is_tree o s (plug (Frame (opp d) p c t :: k) (mk d w Black a (T z Red zl zr)))) as Hw.
  { cbn [plug]. by rewrite mk_opp. }
  destruct (mk_set_color _ _ _ _ _ _ c _ _ Hw) as (s1 & -> & H1). cbn [mbind option_bind plug] in *.
  rewrite mk_opp in H1. destruct (mk_set_black _ _ _ _ _ _ _ _ H1) as (s2 & -> & H2).
  cbn [mbind option_bind].
  assert (is_tree o s2 (plug (Frame (opp d) p Black t :: k) (mk d w c a (T z Red zl zr)))) as H2'.
  { cbn [plug]. by rewrite mk_opp. }
  rewrite (mk_get _ _ _ _ _ _ _ _ H2'). cbn [mbind option_bind]. rewrite child_opp_node_of. cbn [ptr].
  assert (is_tree o s2 (plug (Frame (opp d) w c a :: Frame (opp d) p Black t :: k) (T z Red zl zr))) as H2z.
  { cbn [plug]. by rewrite !mk_opp. }
  destruct (set_black_ok _ _ _ _ _ _ _ H2z) as (s3 & -> & H3). cbn [mbind option_bind plug] in *.
  rewrite !mk_opp in H3. destruct (rotate_ok _ _ _ _ _ _ _ _ _ _ _ H3) as (s4 & -> & H4). by exists s4.
Qed.

(** *** The loop *)

(** A subtree that lacks one black level: black, or red with the right height once black. *)
Definition lacks (n : nat) (t : tree) : Prop :=
  rbt Black n t ∨ root_color t = Red ∧ rbt Black (S n) (blacken t).

(** What the loop leaves: the node it returns is to be made black. *)
Definition almost_at (io : list Z) (node : Z) (s : rb) : Prop :=
  ∃ k t, is_tree o s (plug k t) ∧ node = ptr t ∧ inorder (plug k t) = io ∧ balanced (plug k (blacken t)).

Lemma ptr_plug_in f k t : ptr (plug (f :: k) t) ∈ before (f :: k) ++ after (f :: k).
Proof.
  destruct f as [d a c sib]. revert d a c sib t.
  induction k as [|[d1 a1 c1 sib1] k IH]; intros d a c sib t.
  - cbn. rewrite ptr_mk. destruct d; cbn; set_solver.
  - specialize (IH d1 a1 c1 sib1 (mk d a c t sib)). destruct d, d1; cbn in *; set_solver.
Qed.

Lemma root_focus s k t : is_tree o s (plug k t) → (ptr t =? rb_root s) = bool_decide (k = []).
Proof.
  intros [Hroot _ Hn Hg _]. rewrite Hroot. destruct k as [|f k]; [cbn; by rewrite Z.eqb_refl|].
  rewrite bool_decide_false by done. apply Z.eqb_neq. intros Eq.
  pose proof (ptr_plug_in f k t) as Hin. rewrite <- Eq in Hin. rewrite inorder_plug in *.
  destruct t as [|a c l r].
  - rewrite Forall_forall in Hg. destruct (Hg 0) as [? _]; [cbn in *; set_solver|done].
  - cbn in Hin. apply NoDup_app in Hn as (_ & Hb & Hn). apply NoDup_app in Hn as (_ & Ha & _).
    apply elem_of_app in Hin as [Hin|Hin]; [apply (Hb a Hin)|apply (Ha a); [|done]]; cbn; set_solver.
Qed.

Lemma side_erase s k d p c t sib :
  is_tree o s (plug k (mk d p c t sib)) → sib ≠ E →
  (rb_left (node_of d (top 0 k) c (ptr t) (ptr sib)) =? ptr t) = bool_decide (d = L).
Proof.
  intros Ht Hs. destruct d; cbn [node_of rb_left]; [by rewrite Z.eqb_refl|].
  rewrite <- (mk_opp R) in Ht.
  assert (ptr sib ≠ 0) as H0.
  { destruct sib; [done|]. apply (focus_good o s (Frame (opp R) p c t :: k) a c0 sib1 sib2 Ht). }
  rewrite Z.eqb_sym, (Z.eqb_sym (ptr t)).
  pose proof (side_opp _ _ _ _ R _ _ _ _ Ht H0) as Es. cbn in Es. rewrite Z.eqb_sym. exact Es.
Qed.

(** The colours of the children of the sibling, near and far. *)
Definition near_far (d : dir) (fuel : nat) (parent other : Z) (o : rb_node) (bx by_ : bool) (s : rb)
    : option (Z * rb) :=
  if bx && by_ then
    s ← rb_set_red other s;
    p ← get parent s;
    erase_loop fuel parent (rb_parent p) s
  else
    '(other, s) ← sibling_far d by_ parent other o s;
    erase_end d parent other s.

Lemma erase_branch_black fuel s s1 k d p c t w x y pn :
  sibling_red d p (child (opp d) pn) s = Some (w, s1) →
  is_tree o s1 (plug k (mk d p c t (mk d w Black x y))) →
  erase_branch fuel d p pn s =
    near_far d fuel p w (node_of d p Black (ptr x) (ptr y))
      (bool_decide (root_color x = Black)) (bool_decide (root_color y = Black)) s1.
Proof.
  intros E Ht. unfold erase_branch. rewrite E. cbn [mbind option_bind].
  assert (is_tree o s1 (plug (Frame (opp d) p c t :: k) (mk d w Black x y))) as Hw.
  { cbn [plug]. by rewrite mk_opp. }
  rewrite (mk_get _ _ _ _ _ _ _ _ Hw). cbn [mbind option_bind top].
  assert (is_black_node (ptr x) s1 = Some (bool_decide (root_color x = Black))) as Ex.
  { by apply (is_black_node_ok o s1 (Frame d w Black y :: Frame (opp d) p c t :: k)). }
  assert (is_black_node (ptr y) s1 = Some (bool_decide (root_color y = Black))) as Ey.
  { apply (is_black_node_ok o s1 (Frame (opp d) w Black x :: Frame (opp d) p c t :: k)).
    cbn [plug]. by rewrite !mk_opp in *. }
  unfold near_far. destruct d; cbn [node_of rb_left rb_right]; rewrite Ex, Ey; cbn [mbind option_bind];
    [done|by rewrite andb_comm].
Qed.

(** The sibling has two black children: it becomes red. *)
Lemma near_far_red fuel s k d p c t w x y on :
  is_tree o s (plug k (mk d p c t (mk d w Black x y))) →
  ∃ s', near_far d fuel p w on true true s = erase_loop fuel p (top 0 k) s' ∧
    is_tree o s' (plug k (mk d p c t (mk d w Red x y))).
Proof.
  intros Ht. unfold near_far. cbn [andb].
  assert (is_tree o s (plug (Frame (opp d) p c t :: k) (mk d w Black x y))) as Hw.
  { cbn [plug]. by rewrite mk_opp. }
  destruct (mk_set_red _ _ _ _ _ _ _ _ Hw) as (s1 & -> & H1). cbn [mbind option_bind plug] in *.
  rewrite mk_opp in H1. rewrite (mk_get _ _ _ _ _ _ _ _ H1). cbn [mbind option_bind].
  rewrite parent_node_of by (by eapply top_good). by exists s1.
Qed.

Lemma near_far_end fuel s k d p c t w x y n cx cy m :
  is_tree o s (plug k (mk d p c t (mk d w Black x y))) → rbt cx n x → rbt cy n y →
  rbt Black n t → ctx_ok m (S n) (Frame d p c (mk d w Black x y) :: k) → cx = Red ∨ cy = Red →
  ∃ node s', near_far d fuel p w (node_of d p Black (ptr x) (ptr y))
      (bool_decide (root_color x = Black)) (bool_decide (root_color y = Black)) s = Some (node, s') ∧
    almost_at (inorder (plug k (mk d p c t (mk d w Black x y)))) node s'.
Proof.
  intros Ht Hx Hy Htb Hk Hc. unfold near_far.
  assert (bool_decide (root_color x = Black) && bool_decide (root_color y = Black) = false) as ->.
  { rewrite (rbt_root _ _ _ Hx), (rbt_root _ _ _ Hy). destruct cx, cy; try done. by destruct Hc. }
  destruct (sibling_far_ok s k d p c t w x y n _ cx cy Ht Hx Hy eq_refl)
    as (s1 & v & a & z & zl & zr & ca & -> & H1 & Ha & Hz & EI).
  { rewrite (rbt_root _ _ _ Hy). destruct cy; [done|]. intros _. by destruct Hc. }
  cbn [mbind option_bind]. destruct (erase_end_ok _ _ _ _ _ _ _ _ _ _ _ H1) as (s2 & E2 & H2).
  exists (rb_root s2), s2. split; [done|].
  exists [], (plug k (mk d v c (mk d p Black t a) (T z Black zl zr))). cbn [plug].
  split; [done|]. split; [apply (it_root _ _ _ H2)|]. split.
  - apply inorder_plug_eq. transitivity (inorder (mk d p c t (mk d v Black a (T z Red zl zr)))).
    + destruct d; by norm_app.
    + destruct d; cbn in *; by rewrite EI.
  - apply balanced_blacken. inversion Hz; subst.
    assert (rbt Black (S n) (mk d p Black t a)) as Hp by (by eapply rbt_mk_black).
    assert (rbt Black (S n) (T z Black zl zr)) as Hz' by eauto.
    inversion Hk; subst.
    + eapply plug_balanced; [done|by apply rbt_mk_red|done].
    + eapply plug_balanced; [done|by eapply rbt_mk_black|done].
Qed.

Lemma erase_loop_end fuel s k t par n m :
  is_tree o s (plug k t) → lacks n t → ctx_ok m (S n) k → k = [] ∨ root_color t = Red →
  erase_loop (S fuel) (ptr t) par s = Some (ptr t, s) ∧
  almost_at (inorder (plug k t)) (ptr t) s.
Proof.
  intros Ht Hl Hk Hend. split.
  - rewrite erase_loop_S, (is_black_node_ok _ _ _ _ Ht), (root_focus _ _ _ Ht). cbn [mbind option_bind].
    destruct Hend as [->| ->].
    + rewrite (bool_decide_true ([] = [])) by done. by rewrite andb_false_r.
    + by rewrite (bool_decide_false (Red = Black)) by done.
  - exists k, t. split_and!; try done. destruct Hl as [Hb|[Hr Hb]].
    + destruct Hend as [->|Hr]; [|by rewrite (rbt_root _ _ _ Hb) in Hr].
      apply balanced_blacken. by exists n.
    + by apply (plug_balanced m (S n) Black).
Qed.

Lemma erase_loop_ok fuel s k t n m :
  is_tree o s (plug k t) → ctx_ok m (S n) k → lacks n t → (length k < fuel)%nat →
  ∃ node s', erase_loop fuel (ptr t) (top 0 k) s = Some (node, s') ∧
    almost_at (inorder (plug k t)) node s'.
Proof.
  revert s k t n m. induction fuel as [|fuel IH]; intros s k t n m Ht Hk Hl Hf; [lia|].
  destruct (decide (k = [] ∨ root_color t = Red)) as [Hend|Hgo].
  { destruct (erase_loop_end fuel s k t (top 0 k) n m Ht Hl Hk Hend) as [E Ha]. eauto. }
  destruct k as [|[d p c sib] k]; [tauto|]. cbn [plug] in *.
  destruct Hl as [Hb|[Hr _]]; [|tauto].
  rewrite erase_loop_S, (is_black_node_ok o s (Frame d p c sib :: k) t Ht),
    (root_focus s (Frame d p c sib :: k) t Ht), (rbt_root _ _ _ Hb).
  cbn [mbind option_bind top]. rewrite (mk_get _ _ _ _ _ _ _ _ Ht). cbn [mbind option_bind].
  assert (sib ≠ E) as Hs0 by (intros ->; inversion Hk as [|? ? ? ? ? Hs|? ? ? ? ? ? ? Hs]; inversion Hs).
  rewrite (side_erase _ _ _ _ _ _ _ Ht Hs0).
  assert ((if bool_decide (d = L) then L else R) = d) as -> by (by destruct d).
  destruct (sibling_red_ok _ _ _ _ _ _ _ _ _ Ht Hk) as (s1 & k1 & c1 & sib1 & E1 & H1 & Hs1 & EI & (m1 & Hk1) & Hc1).
  assert (∃ w x y cx cy, sib1 = mk d w Black x y ∧ rbt cx n x ∧ rbt cy n y) as (w & x & y & cx & cy & -> & Hx & Hy).
  { inversion Hs1; subst. destruct d; eexists _, _, _, _, _; eauto. }
  rewrite ptr_mk in E1. cbn in Hf.
  match goal with |- context [negb ?b] => change (negb b) with false end. cbn iota.
  rewrite (erase_branch_black fuel s s1 k1 d p c1 t w x y) by (rewrite ?child_opp_node_of; done).
  rewrite <- EI. destruct (decide (cx = Red ∨ cy = Red)) as [Hc|Hc].
  { by eapply near_far_end. }
  assert (cx = Black ∧ cy = Black) as [-> ->] by (destruct cx, cy; tauto).
  rewrite (rbt_root _ _ _ Hx), (rbt_root _ _ _ Hy), (bool_decide_true (Black = Black)) by done.
  destruct (near_far_red fuel s1 k1 d p c1 t w x y (node_of d p Black (ptr x) (ptr y)) H1) as (s2 & -> & H2).
  assert (rbt Red n (mk d w Red x y)) as Hw by (by apply rbt_mk_red).
  replace (inorder (plug k1 (mk d p c1 t (mk d w Black x y)))) with
    (inorder (plug k1 (mk d p c1 t (mk d w Red x y)))) by (apply inorder_plug_eq; by destruct d).
  assert (∃ m2 n2, ctx_ok m2 (S n2) k1 ∧ lacks n2 (mk d p c1 t (mk d w Red x y)) ∧ (c1 = Red → n2 = n))
    as (m2 & n2 & Hk2 & Hl2 & _).
  { inversion Hk1; subst.
    - eexists _, n. split; [done|]. split; [|done]. right. split; [by destruct d|].
      destruct d; cbn; eauto.
    - eexists _, (S n). split; [done|]. split; [|done]. left. by eapply rbt_mk_black. }
  destruct Hc1 as [->| ->].
  - destruct fuel as [|fuel]; [lia|].
    destruct (erase_loop_end fuel s2 k1 _ (top 0 k1) _ _ H2 Hl2 Hk2) as [E Ha]; [right; by destruct d|].
    rewrite ptr_mk in *. eauto.
  - destruct (IH s2 k _ _ _ H2 Hk2 Hl2) as (node & s3 & E3 & H3); [lia|]. rewrite ptr_mk in *. eauto.
Qed.

Lemma erase_color_ok s k t n m :
  is_tree o s (plug k t) → ctx_ok m (S n) k → lacks n t →
  ∃ s' t', __rb_erase_color (ptr t) (top 0 k) s = Some s' ∧ is_tree o s' t' ∧ balanced t' ∧
    inorder t' = inorder (plug k t).
Proof.
  intros Ht Hk Hl. unfold __rb_erase_color.
  destruct (erase_loop_ok (rb_fuel s) s k t n m Ht Hk Hl ltac:(by eapply ctx_fuel))
    as (node & s1 & -> & k1 & t1 & H1 & -> & EI & Hb). cbn [mbind option_bind].
  destruct t1 as [|a c l r].
  - exists s1, (plug k1 E). done.
  - cbn [ptr]. unfold ctrue. rewrite (proj2 (Z.eqb_neq a 0)) by apply (focus_good _ _ _ _ _ _ _ H1). cbn [negb].
    destruct (set_black_ok _ _ _ _ _ _ _ H1) as (s2 & -> & H2). exists s2, (plug k1 (T a Black l r)).
    split_and!; [done..|]. rewrite <- EI. by apply inorder_plug_eq.
Qed.
End removal.

(** *** Taking a node out *)

Section take_out.
Context (o : gmap Z rb_node).

Lemma erase_one_eq node child s :
  erase_one node child s =
    (n ← get node s;
     s ← (if ctrue child then rb_set_parent child (rb_parent n) s else Some s);
     s ← change L (rb_parent n) node child s;
     Some (child, rb_parent n, rb_color n, s)).
Proof.
  unfold erase_one, change, change_child. destruct (get node s) as [n|]; [|done]. cbn [mbind option_bind].
  destruct (if ctrue child then _ else _) as [s1|]; [|done]. cbn [mbind option_bind].
  destruct (ctrue (rb_parent n)); [|done]. destruct (get (rb_parent n) s1) as [p|]; [|done].
  cbn [mbind option_bind]. by rewrite Z.eqb_sym.
Qed.

(** What a tree is made of, around a node. *)
Lemma focus_parts s k x c l r :
  is_tree o s (plug k (T x c l r)) →
  NoDup (x :: inorder l ++ inorder r ++ before k ++ after k) ∧
  Forall good (x :: inorder l ++ inorder r ++ before k ++ after k).
Proof.
  intros [_ _ Hn Hg _].
  assert (inorder (plug k (T x c l r)) ≡ₚ x :: inorder l ++ inorder r ++ before k ++ after k) as E.
  { rewrite inorder_plug, (Permutation_app_swap_app (before k)). change (T x c l r) with (mk L x c l r).
    rewrite mk_perm. cbn. by rewrite <- app_assoc. }
  by rewrite <- E.
Qed.

(** A tree with a hole filled again, around one node less. *)
Lemma refill s s' k x c l r t :
  is_tree o s (plug k (T x c l r)) →
  rep (nodes s') (top 0 k) t → rep_ctx (nodes s') (ptr t) 0 k →
  rb_root s' = (match k with [] => ptr t | _ => rb_root s end) →
  inorder t = inorder l ++ inorder r → ∀ nd, nodes s' !! x = Some nd →
  (∀ a, a ∉ inorder (plug k (T x c l r)) → nodes s' !! a = nodes s !! a) →
  is_tree (<[x := nd]> o) s' (plug k t).
Proof.
  intros Ht Hr Hk Hroot EI nd Hx Hout. pose proof (focus_parts _ _ _ _ _ _ Ht) as [Hn Hg].
  destruct Ht as [Hroot0 _ Hn0 Hg0 Ho].
  assert (x :: inorder (plug k t) ≡ₚ x :: inorder l ++ inorder r ++ before k ++ after k) as E.
  { f_equiv. rewrite inorder_plug, (Permutation_app_swap_app (before k)), EI. by rewrite <- app_assoc. }
  assert (x :: inorder (plug k t) ≡ₚ inorder (plug k (T x c l r))) as E'.
  { rewrite E, inorder_plug, (Permutation_app_swap_app (before k)).
    change (T x c l r) with (mk L x c l r). rewrite mk_perm. cbn. by rewrite <- app_assoc. }
  rewrite <- E in Hn, Hg. apply NoDup_cons in Hn as [Hxn Hn]. apply Forall_cons in Hg as [_ Hg].
  split; [|by apply rep_plug|done|done|].
  - rewrite Hroot. destruct k as [|f k]; [done|]. rewrite Hroot0. apply ptr_plug_cons.
  - intros a Ha. destruct (decide (a = x)) as [->|Hne]; [by rewrite lookup_insert_eq|].
    rewrite lookup_insert_ne by done.
    assert (a ∉ inorder (plug k (T x c l r))) as Ha' by (rewrite <- E'; set_solver).
    rewrite Hout by done. by apply Ho.
Qed.

Lemma erase_one_ok s k x c l r ch :
  is_tree o s (plug k (T x c l r)) → (l = E ∧ ch = r) ∨ (r = E ∧ ch = l) →
  ∃ s', erase_one x (ptr ch) s = Some (ptr ch, top 0 k, cval c, s') ∧
    is_tree (<[x := node_of L (top 0 k) c (ptr l) (ptr r)]> o) s' (plug k ch).
Proof.
  intros Ht Hch. pose proof (top_good _ _ _ _ Ht) as Hk4. pose proof (focus_parts _ _ _ _ _ _ Ht) as [Hn Hg].
  assert (NoDup (x :: inorder ch ++ before k ++ after k)) as Hnc.
  { destruct Hch as [[-> ->]|[-> ->]]; done. }
  assert (Forall good (x :: inorder ch ++ before k ++ after k)) as Hgc.
  { destruct Hch as [[-> ->]|[-> ->]]; done. }
  pose proof (it_rep _ _ _ Ht) as Hr. apply rep_plug in Hr as [(Hx & Hl & Hr) Hk]. cbn [ptr] in Hk.
  assert (rep (nodes s) x ch) as Hc by (by destruct Hch as [[_ ->]|[_ ->]]).
  apply NoDup_cons in Hnc as [Hxn Hnc]. apply NoDup_app in Hnc as (Hnc & Hck & Hnk).
  apply Forall_cons in Hgc as [[Hx0 Hx4] Hgc]. apply Forall_app in Hgc as [Hgc Hgk].
  rewrite erase_one_eq. unfold get. rewrite Hx. cbn [mbind option_bind].
  rewrite parent_node_of, color_node_of by done.
  destruct (reparent_ok s x (top 0 k) ch Hgc Hnc Hx4 Hk4 Hc) as (s1 & -> & Hc1 & Hroot1 & H1).
  cbn [mbind option_bind].
  assert (∀ a, a ∉ inorder ch → nodes s1 !! a = nodes s !! a) as H1'.
  { intros a Ha. apply H1. destruct ch; [by right|left]. cbn in *. set_solver. }
  destruct (change_ok L s1 k x (ptr ch)) as (s2 & -> & Hk2 & Hroot2 & H2); [|done|done|done|set_solver|].
  { apply (rep_ctx_frame (nodes s)); [|done]. intros a Ha. apply H1'. set_solver. }
  assert (∀ a, a ∉ before k ++ after k → nodes s2 !! a = nodes s1 !! a) as H2'.
  { intros a Ha. apply H2. destruct k as [|[[] b cb sib] k]; [by right|left..]; cbn in *; set_solver. }
  exists s2. split; [done|]. apply (refill s s2 k x c l r ch); try done.
  - apply (rep_frame (nodes s1)); [|done]. intros a Ha. apply H2'. set_solver.
  - by rewrite Hroot2, Hroot1.
  - destruct Hch as [[-> ->]|[-> ->]]; [done|by rewrite app_nil_r].
  - rewrite H2', H1' by set_solver. done.
  - intros a Ha. rewrite inorder_plug in Ha. cbn in Ha.
    rewrite H2', H1'; [done|destruct Hch as [[-> ->]|[-> ->]]; set_solver|set_solver].
Qed.

(** The successor of a node is the leftmost node on its right. *)
Lemma leftmost_split t :
  t ≠ E → ∃ k y c r, t = plug k (T y c E r) ∧ Forall (λ f, fdir f = L) k.
Proof.
  induction t as [|a c l IHl r IHr]; [done|]. intros _.
  destruct (decide (l = E)) as [->|Hl]; [by exists [], a, c, r|].
  destruct (IHl Hl) as (k & y & cy & yr & -> & Hk).
  exists (k ++ [Frame L a c r]), y, cy, yr. rewrite plug_app. split; [done|].
  apply Forall_app. split; [done|]. by constructor.
Qed.

Lemma lefts_before k : Forall (λ f, fdir f = L) k → before k = [].
Proof. induction 1 as [|[[] b cb sib] k Hd Hk IH]; done. Qed.

Lemma leftmost_ok fuel s p t :
  rep (nodes s) p t → Forall good (inorder t) → t ≠ E → (length (inorder t) ≤ fuel)%nat →
  ∃ y rest, leftmost fuel (ptr t) s = Some y ∧ inorder t = y :: rest.
Proof.
  revert fuel p. induction t as [|a c l IHl r _]; intros fuel p; [done|]. cbn [rep inorder ptr].
  intros (Ha & Hl & Hr) Hg _ Hf. rewrite length_app in Hf. cbn in Hf. destruct fuel as [|fuel]; [lia|].
  cbn [leftmost]. unfold get. rewrite Ha. cbn [mbind option_bind node_of rb_left].
  apply Forall_app in Hg as [Hg _]. rewrite (ctrue_ptr _ _ _ Hg Hl).
  destruct (decide (l = E)) as [->|Hne]; [by exists a, (inorder r)|].
  rewrite bool_decide_false by done. cbn [negb].
  destruct (IHl fuel a Hl Hg Hne ltac:(lia)) as (y & rest & E & ->). eauto.
Qed.

(** The end of the second way: the successor [y] takes the word and the left child of [x]. *)
Lemma erase_two_tail s s1 k x c l r r' y :
  is_tree o s (plug k (T x c l r)) → l ≠ E →
  inorder l ++ y :: inorder r' = inorder l ++ inorder r →
  nodes s1 !! x = Some (node_of L (top 0 k) c (ptr l) (ptr r)) →
  (∃ q v, nodes s1 !! y = Some (RbNode q (ptr r') v)) →
  rep_ctx (nodes s1) y 0 k → rep (nodes s1) y r' → rep (nodes s1) x l →
  rb_root s1 = (match k with [] => y | _ => rb_root s end) →
  (∀ a, a ∉ inorder (plug k (T x c l r)) → nodes s1 !! a = nodes s !! a) →
  ∃ s', (s ← set_word y (word (top 0 k) c) s1; s ← set_left y (ptr l) s; rb_set_parent (ptr l) y s) = Some s' ∧
    is_tree (<[x := node_of L (top 0 k) c (ptr l) (ptr r)]> o) s' (plug k (T y c l r')).
Proof.
  intros Ht Hl0 EI Hx (q & v & Hy) Hk Hr Hl Hroot Hout.
  pose proof (focus_parts _ _ _ _ _ _ Ht) as [Hn Hg].
  rewrite app_assoc, <- EI, <- app_assoc in Hn, Hg. cbn [app] in Hn, Hg.
  apply Forall_cons in Hg as [[Hx0 Hx4] Hg]. apply Forall_app in Hg as [Hgl Hg].
  apply Forall_cons in Hg as [[Hy0 Hy4] Hg]. apply Forall_app in Hg as [Hgr Hgk].
  apply NoDup_cons in Hn as [Hxn Hn]. apply NoDup_app in Hn as (Hnl & Hlk & Hn).
  apply NoDup_cons in Hn as [Hyn Hn]. apply NoDup_app in Hn as (Hnr & Hrk & Hnk).
  unfold set_word, set_left. rewrite (upd_ok _ _ _ _ Hy). cbn [mbind option_bind rb_right rb_left].
  erewrite upd_ok by (cbn; by rewrite lookup_insert_eq). cbn [mbind option_bind rb_parent_color rb_right].
  set (s2 := put y _ (put y _ s1)).
  assert (nodes s2 !! y = Some (node_of L (top 0 k) c (ptr l) (ptr r'))) as Hy2 by (cbn; by rewrite lookup_insert_eq).
  assert (∀ a, a ≠ y → nodes s2 !! a = nodes s1 !! a) as H2 by (intros a Ha; cbn; by rewrite !lookup_insert_ne).
  assert (rep (nodes s2) x l) as Hl2.
  { apply (rep_frame (nodes s1)); [|done]. intros a Ha. apply H2. set_solver. }
  destruct (reparent_ok s2 x y l Hgl Hnl Hx4 Hy4 Hl2) as (s3 & E3 & Hl3 & Hroot3 & H3).
  rewrite (ctrue_ptr _ _ _ Hgl Hl2), bool_decide_false in E3 by done. cbn [negb] in E3. rewrite E3.
  exists s3. split; [done|].
  assert (∀ a, a ∉ inorder l → nodes s3 !! a = nodes s2 !! a) as H3'.
  { intros a Ha. apply H3. left. destruct l; [done|]. cbn in *. set_solver. }
  apply (refill s s3 k x c l r); try done.
  - cbn [rep]. rewrite H3' by set_solver. split; [done|]. split; [done|].
    apply (rep_frame (nodes s1)); [|done]. intros a Ha. rewrite H3', H2 by set_solver. done.
  - cbn [ptr]. apply (rep_ctx_frame (nodes s1)); [|done]. intros a Ha. rewrite H3', H2 by set_solver. done.
  - by rewrite Hroot3.
  - rewrite H3', H2 by set_solver. done.
  - intros a Ha. rewrite <- (Hout a Ha). rewrite inorder_plug in Ha. cbn in Ha.
    assert (a ∉ inorder l ∧ a ≠ y) as [? ?].
    { split; [set_solver|]. intros ->. apply Ha. apply app_inv_head in EI. rewrite <- EI. set_solver. }
    by rewrite H3', H2.
Qed.

Lemma erase_two_eq old s :
  erase_two old s =
    (ol ← get old s;
     node ← leftmost (rb_fuel s) (rb_right ol) s;
     s ← change L (rb_parent ol) old node s;
     n ← get node s;
     let child := rb_right n in
     '(parent, s) ← (if rb_parent n =? old then Some (node, s)
                     else
                       s ← (if ctrue child then rb_set_parent child (rb_parent n) s else Some s);
                       s ← set_left (rb_parent n) child s;
                       ol ← get old s;
                       s ← set_right node (rb_right ol) s;
                       s ← rb_set_parent (rb_right ol) node s;
                       Some (rb_parent n, s));
     ol ← get old s;
     s ← set_word node (rb_parent_color ol) s;
     s ← set_left node (rb_left ol) s;
     s ← rb_set_parent (rb_left ol) node s;
     Some (child, parent, rb_color n, s)).
Proof.
  unfold erase_two, change, change_child. destruct (get old s) as [ol|]; [|done]. cbn [mbind option_bind].
  destruct (leftmost _ _ s) as [node|]; [|done]. cbn [mbind option_bind].
  destruct (ctrue (rb_parent ol)); [|done]. destruct (get (rb_parent ol) s) as [p|]; [|done].
  cbn [mbind option_bind]. by rewrite (Z.eqb_sym old).
Qed.

(** The successor is further down: its right child takes its place, then it gets the right
    subtree of [x]. *)
Lemma erase_two_splice s x p c lp y cy yr w cw sib k2 :
  let f := Frame L w cw sib in
  let r := plug (f :: k2) (T y cy E yr) in
  let r' := plug (f :: k2) yr in
  Forall (λ f, fdir f = L) k2 →
  rep (nodes s) x r → NoDup (x :: inorder r) → Forall good (x :: inorder r) →
  nodes s !! x = Some (node_of L p c lp (ptr r)) →
  ∃ s', (s ← (if ctrue (ptr yr) then rb_set_parent (ptr yr) w s else Some s);
         s ← set_left w (ptr yr) s;
         ol ← get x s;
         s ← set_right y (rb_right ol) s;
         s ← rb_set_parent (rb_right ol) y s;
         Some (w, s)) = Some (w, s') ∧
    rep (nodes s') y r' ∧ (∃ q v, nodes s' !! y = Some (RbNode q (ptr r') v)) ∧
    rb_root s' = rb_root s ∧ ∀ a, a ∉ inorder r → nodes s' !! a = nodes s !! a.
Proof.
  intros f r r' Hk2 Hr Hn Hg Hx. pose proof (lefts_before _ Hk2) as Hb2.
  assert (inorder r = y :: inorder r') as EI.
  { unfold r, r'. rewrite !inorder_plug. cbn. by rewrite Hb2. }
  assert (inorder r' = inorder yr ++ w :: inorder sib ++ after k2) as EI'.
  { unfold r'. rewrite inorder_plug. cbn. by rewrite Hb2. }
  assert (ptr r' = ptr r) as Ep by apply ptr_plug_cons.
  rewrite EI in Hn, Hg |- *.
  apply Forall_cons in Hg as [[Hx0 Hx4] [[Hy0 Hy4] Hg]%Forall_cons].
  apply NoDup_cons in Hn as [Hxn [Hyn Hn]%NoDup_cons]. apply not_elem_of_cons in Hxn as [Hxy Hxn].
  pose proof Hg as Hg'. pose proof Hn as Hn'. rewrite EI' in Hg', Hn'.
  apply Forall_app in Hg' as [Hgy [[Hw0 Hw4] _]%Forall_cons].
  apply NoDup_app in Hn' as (Hny & Hyd & [Hwn _]%NoDup_cons).
  apply rep_plug in Hr as [(Hy & _ & Hyr) (Hw & Hs & Hk)]. cbn [top ptr] in *.
  assert (w ∈ inorder r' ∧ (∀ a, a ∈ inorder yr → a ∈ inorder r')) as [Hwr Hyrr] by (rewrite EI'; set_solver).
  destruct (reparent_ok s y w yr Hgy Hny Hy4 Hw4 Hyr) as (s2 & -> & Hyr2 & Hroot2 & H2). cbn [mbind option_bind].
  assert (∀ a, a ∉ inorder yr → nodes s2 !! a = nodes s !! a) as H2'.
  { intros a Ha. apply H2. destruct yr; [by right|left]. cbn in *. set_solver. }
  unfold set_left, set_right, get. erewrite upd_ok by (rewrite H2' by set_solver; exact Hw).
  cbn [mbind option_bind]. set (s3 := put w _ s2).
  assert (∀ a, a ∉ inorder r' → nodes s3 !! a = nodes s !! a) as H3.
  { intros a Ha. cbn. rewrite lookup_insert_ne by (intros ->; done). apply H2'. set_solver. }
  rewrite H3, Hx by done. cbn [mbind option_bind node_of rb_right].
  erewrite upd_ok by (rewrite H3 by done; exact Hy). cbn [mbind option_bind]. set (s4 := put y _ s3).
  assert (rep (nodes s4) x r') as Hr4.
  { apply rep_insert; [done|]. apply rep_plug. cbn [top]. split.
    - apply rep_insert; [set_solver|done].
    - split; [cbn; by rewrite lookup_insert_eq|]. split.
      + apply rep_insert; [set_solver|]. apply (rep_frame (nodes s)); [|done]. intros a Ha. apply H2'. set_solver.
      + apply rep_ctx_insert; [rewrite Hb2; set_solver|set_solver|].
        apply (rep_ctx_frame (nodes s)); [|done]. intros a Ha. rewrite Hb2 in Ha. apply H2'. set_solver. }
  destruct (reparent_ok s4 x y r' Hg Hn Hx4 Hy4 Hr4) as (s5 & E5 & Hr5 & Hroot5 & H5).
  rewrite (ctrue_ptr _ _ _ Hg Hr4), bool_decide_false, Ep in E5 by (intros E; by rewrite E in Hwr; apply elem_of_nil in Hwr).
  cbn [negb] in E5. rewrite E5. exists s5. cbn [mbind option_bind].
  assert (∀ a, a ∉ inorder r' → nodes s5 !! a = nodes s4 !! a) as H5'.
  { intros a Ha. apply H5. destruct r'; [by right|left]. cbn in *. set_solver. }
  split; [done|]. split; [done|]. split; [|split].
  - rewrite H5', Ep by done. cbn [nodes s4 put]. rewrite lookup_insert_eq. eauto.
  - by rewrite Hroot5.
  - intros a [Hay Ha]%not_elem_of_cons. rewrite H5' by done. cbn [nodes s4 put].
    rewrite lookup_insert_ne by done. by apply H3.
Qed.

(** The first steps: the successor is found and takes the place of [x] above. *)
Lemma erase_two_start s k x c l r :
  is_tree o s (plug k (T x c l r)) → r ≠ E →
  ∃ s1 k2 y cy yr, r = plug k2 (T y cy E yr) ∧ Forall (λ f, fdir f = L) k2 ∧
    inorder r = y :: inorder (plug k2 yr) ∧ top x k2 mod 4 = 0 ∧
    leftmost (rb_fuel s) (ptr r) s = Some y ∧ change L (top 0 k) x y s = Some s1 ∧
    rep_ctx (nodes s1) y 0 k ∧ rep (nodes s1) x r ∧ rep (nodes s1) x l ∧
    nodes s1 !! x = Some (node_of L (top 0 k) c (ptr l) (ptr r)) ∧
    rb_root s1 = (match k with [] => y | _ => rb_root s end) ∧
    ∀ a, a ∉ before k ++ after k → nodes s1 !! a = nodes s !! a.
Proof.
  intros Ht Hr0. pose proof (focus_parts _ _ _ _ _ _ Ht) as [Hn Hg].
  pose proof (is_tree_size _ _ _ Ht) as Hsz. rewrite inorder_plug, !length_app in Hsz. cbn in Hsz. rewrite length_app in Hsz.
  pose proof (it_rep _ _ _ Ht) as Hrep. apply rep_plug in Hrep as [(Hx & Hl & Hr) Hk]. cbn [ptr] in Hk.
  destruct (leftmost_split r Hr0) as (k2 & y & cy & yr & Er & Hk2).
  assert (inorder r = y :: inorder (plug k2 yr)) as EI.
  { rewrite Er, !inorder_plug, (lefts_before _ Hk2). done. }
  apply Forall_cons in Hg as [[Hx0 Hx4] Hg]. apply Forall_app in Hg as [Hgl Hg]. apply Forall_app in Hg as [Hgr Hgk].
  apply NoDup_cons in Hn as [Hxn Hn]. apply NoDup_app in Hn as (Hnl & Hlk & Hn).
  apply NoDup_app in Hn as (Hnr & Hrk & Hnk).
  destruct (leftmost_ok (rb_fuel s) s x r Hr Hgr Hr0) as (y' & rest & El & Ey).
  { unfold rb_fuel. cbn in Hsz. lia. }
  rewrite EI in Ey. injection Ey as <- <-.
  destruct (change_ok L s k x y Hk Hnk Hgk Hx0 ltac:(set_solver)) as (s1 & E1 & Hk1 & Hroot1 & H1).
  assert (∀ a, a ∉ before k ++ after k → nodes s1 !! a = nodes s !! a) as H1'.
  { intros a Ha. apply H1. destruct k as [|[[] b cb sib] k]; [by right|left..]; cbn in *; set_solver. }
  exists s1, k2, y, cy, yr. split_and!; try done.
  - destruct k2 as [|[d w cw sib] k2]; [done|]. cbn. rewrite Forall_forall in Hgr. apply Hgr.
    rewrite Er, inorder_plug. destruct d; cbn; set_solver.
  - apply (rep_frame (nodes s)); [|done]. intros a Ha. apply H1'. set_solver.
  - apply (rep_frame (nodes s)); [|done]. intros a Ha. apply H1'. set_solver.
  - rewrite H1' by set_solver. done.
Qed.

Lemma erase_two_ok s k x c l r :
  is_tree o s (plug k (T x c l r)) → l ≠ E → r ≠ E →
  ∃ s' y cy yr k2, erase_two x s = Some (ptr yr, top y k2, cval cy, s') ∧
    is_tree (<[x := node_of L (top 0 k) c (ptr l) (ptr r)]> o) s' (plug (k2 ++ Frame R y c l :: k) yr) ∧
    r = plug k2 (T y cy E yr) ∧ inorder r = y :: inorder (plug k2 yr).
Proof.
  intros Ht Hl0 Hr0. pose proof (top_good _ _ _ _ Ht) as Hk4. pose proof (focus_parts _ _ _ _ _ _ Ht) as [Hn Hg].
  destruct (erase_two_start _ _ _ _ _ _ Ht Hr0) as
    (s1 & k2 & y & cy & yr & Er & Hk2 & EI & Htx4 & El & E1 & Hk1 & Hr1 & Hl1 & Hx1 & Hroot1 & H1).
  assert (∀ a, a ∈ inorder l ∨ a ∈ before k ∨ a ∈ after k → a ∉ inorder r) as Hap.
  { clear - Hn. apply NoDup_cons in Hn as [_ Hn]. apply NoDup_app in Hn as (_ & Hl & Hn).
    apply NoDup_app in Hn as (_ & Hr & _). set_solver. }
  assert (∀ a, a ∉ inorder (plug k (T x c l r)) → a ∉ before k ++ after k) as Hout.
  { intros a. rewrite inorder_plug. set_solver. }
  rewrite erase_two_eq, (focus_get _ _ _ _ _ _ _ Ht). cbn [mbind option_bind].
  rewrite parent_node_of by done. cbn [node_of rb_right]. rewrite El. cbn [mbind option_bind]. rewrite E1.
  cbn [mbind option_bind]. pose proof Hr1 as Hy. rewrite Er in Hy. apply rep_plug in Hy as [(Hy & _ & Hyr) _].
  change (get y s1) with (nodes s1 !! y). rewrite Hy. cbn [mbind option_bind node_of rb_right].
  rewrite rb_parent_word, rb_color_word by done.
  destruct k2 as [|[d w cw sib] k2].
  - cbn [top plug] in *. rewrite Z.eqb_refl. cbn [mbind option_bind]. unfold get. rewrite Hx1.
    cbn [mbind option_bind node_of rb_parent_color rb_left].
    destruct (erase_two_tail s s1 k x c l r yr y) as (s' & E' & H'); try done.
    { by rewrite EI. }
    { eexists _, _. exact Hy. }
    { intros a Ha. apply H1. auto. }
    destruct (set_word _ _ s1) as [s2|]; [|done]. cbn [mbind option_bind] in *.
    destruct (set_left _ _ s2) as [s3|]; [|done]. cbn [mbind option_bind] in *. rewrite E'.
    exists s', y, cy, yr, []. done.
  - apply Forall_cons in Hk2 as [Hd Hk2]. cbn in Hd. subst d. cbn [top].
    assert (NoDup (x :: inorder r) ∧ Forall good (x :: inorder r)) as [Hnr Hgr].
    { split.
      - apply NoDup_cons in Hn as [Hxn Hn]. apply NoDup_cons. split; [set_solver|].
        apply NoDup_app in Hn as (_ & _ & Hn). by apply NoDup_app in Hn as (Hn & _ & _).
      - rewrite Forall_forall in *. intros a Ha. apply Hg. set_solver. }
    assert (w ∈ inorder r) as Hw by (rewrite Er, inorder_plug; cbn; set_solver).
    rewrite (proj2 (Z.eqb_neq w x)) by (apply NoDup_cons in Hnr as [Hxr _]; intros ->; done).
    rewrite Er in Hr1, Hnr, Hgr, Hx1.
    destruct (erase_two_splice s1 x _ _ _ y cy yr w cw sib k2 Hk2 Hr1 Hnr Hgr Hx1)
      as (s2 & -> & Hr2 & Hy2 & Hroot2 & H2). rewrite <- Er in *. cbn [mbind option_bind].
    assert (x ∉ inorder r) as Hxr by (by apply NoDup_cons in Hnr as [Hxr _]).
    unfold get. rewrite H2, Hx1 by done. cbn [mbind option_bind node_of rb_parent_color rb_left].
    destruct (erase_two_tail s s2 k x c l r (plug (Frame L w cw sib :: k2) yr) y) as (s' & E' & H'); try done.
    { by rewrite EI. }
    { rewrite H2 by done. done. }
    { apply (rep_ctx_frame (nodes s1)); [|done]. intros a Ha. apply H2, Hap. tauto. }
    { apply (rep_frame (nodes s1)); [|done]. intros a Ha. apply H2, Hap. tauto. }
    { by rewrite Hroot2. }
    { intros a Ha. rewrite H2; [by apply H1; auto|]. rewrite inorder_plug in Ha. cbn in Ha. clear - Ha. set_solver. }
    destruct (set_word _ _ s2) as [s3|]; [|done]. cbn [mbind option_bind] in *.
    destruct (set_left _ _ s3) as [s4|]; [|done]. cbn [mbind option_bind] in *. rewrite E'.
    exists s', y, cy, yr, (Frame L w cw sib :: k2). rewrite plug_app. done.
Qed.
End take_out.

(** ** The operations on a tree *)

Lemma elem_focus t x : x ∈ inorder t → ∃ k c l r, t = plug k (T x c l r).
Proof.
  induction t as [|a c l IHl r IHr]; cbn; [by intros ?%elem_of_nil|].
  intros [Hx|[->|Hx]%elem_of_cons]%elem_of_app.
  - destruct (IHl Hx) as (k & cx & lx & rx & ->). exists (k ++ [Frame L a c r]), cx, lx, rx.
    by rewrite plug_app.
  - by exists [], c, l, r.
  - destruct (IHr Hx) as (k & cx & lx & rx & ->). exists (k ++ [Frame R a c l]), cx, lx, rx.
    by rewrite plug_app.
Qed.

Lemma rbt_lacks c n t : rbt c n t → lacks n t.
Proof. destruct 1; [left; auto|right; cbn; eauto|left; eauto]. Qed.

Lemma ctx_ok_rename b n k1 d x y c t k2 :
  ctx_ok b n (k1 ++ Frame d x c t :: k2) → ctx_ok b n (k1 ++ Frame d y c t :: k2).
Proof.
  revert b n. induction k1 as [|f k1 IH]; intros b n; cbn; inversion 1; subst; econstructor; eauto.
Qed.

Lemma top_app p k1 d a c t k2 : top p (k1 ++ Frame d a c t :: k2) = top a k1.
Proof. by destruct k1 as [|[]]. Qed.

(** A node with at most one child has been replaced by its child. *)
Lemma rb_erase_balance o s k x c l r ch :
  is_tree o s (plug k ch) → balanced (plug k (T x c l r)) → (l = E ∧ ch = r) ∨ (r = E ∧ ch = l) →
  ∃ s' t, (if cval c =? RB_BLACK then __rb_erase_color (ptr ch) (top 0 k) s else Some s) = Some s' ∧
    is_tree o s' t ∧ balanced t ∧ inorder t = inorder (plug k ch).
Proof.
  intros Ht Hb Hch. destruct (balanced_plug _ _ Hb) as (b & n & c' & Hk & Hx & Hc).
  inversion Hx as [|? ? ? ? Hl Hr|n' ? cl cr ? ? Hl Hr]; subst.
  - exists s, (plug k ch). cbn. split; [done|]. split; [done|]. split; [|done].
    apply (plug_balanced b n Black); [done|by destruct Hch as [[_ ->]|[_ ->]]|done].
  - cbn. destruct (erase_color_ok o s k ch n' b Ht Hk) as (s' & t & E1 & H1 & H2 & H3); [|by exists s', t].
    destruct Hch as [[_ ->]|[_ ->]]; by eapply rbt_lacks.
Qed.

Lemma rb_erase_ok o s t x :
  is_tree o s t → balanced t → x ∈ inorder t →
  ∃ s' t' nd l1 l2, rb_erase x s = Some s' ∧ is_tree (<[x := nd]> o) s' t' ∧ balanced t' ∧
    inorder t = l1 ++ x :: l2 ∧ inorder t' = l1 ++ l2.
Proof.
  intros Ht Hb (k & c & l & r & ->)%elem_focus. unfold rb_erase.
  rewrite (focus_get _ _ _ _ _ _ _ Ht). cbn [mbind option_bind node_of rb_left rb_right].
  pose proof (it_rep _ _ _ Ht) as Hrep. apply rep_plug in Hrep as [(_ & Hl & Hr) _].
  pose proof (focus_parts _ _ _ _ _ _ _ Ht) as [_ Hg]. apply Forall_cons in Hg as [_ [Hgl Hg]%Forall_app].
  apply Forall_app in Hg as [Hgr _]. rewrite (ctrue_ptr _ _ _ Hgl Hl), (ctrue_ptr _ _ _ Hgr Hr), !negb_involutive.
  assert (∀ ch, (l = E ∧ ch = r) ∨ (r = E ∧ ch = l) → inorder (plug k ch) = (before k ++ inorder l) ++ inorder r ++ after k) as EI.
  { intros ch Hch. rewrite inorder_plug. destruct Hch as [[-> ->]|[-> ->]]; cbn; by rewrite ?app_nil_r, ?app_assoc. }
  assert (inorder (plug k (T x c l r)) = (before k ++ inorder l) ++ x :: inorder r ++ after k) as EI0.
  { rewrite inorder_plug. by norm_app. }
  assert (∀ ch, (l = E ∧ ch = r) ∨ (r = E ∧ ch = l) → ∃ s' t' nd,
    ('(child, parent, color, s) ← erase_one x (ptr ch) s;
     if color =? RB_BLACK then __rb_erase_color child parent s else Some s) = Some s' ∧
    is_tree (<[x := nd]> o) s' t' ∧ balanced t' ∧ inorder t' = inorder (plug k ch)) as Hone.
  { intros ch Hch. destruct (erase_one_ok _ _ _ _ _ _ _ ch Ht Hch) as (s1 & -> & H1). cbn [mbind option_bind].
    destruct (rb_erase_balance _ _ _ _ _ _ _ _ H1 Hb Hch) as (s2 & t2 & E2 & H2). eauto. }
  destruct (decide (l = E)) as [Hl0|Hl0]; [|destruct (decide (r = E)) as [Hr0|Hr0]].
  - rewrite bool_decide_true by done. destruct (Hone r ltac:(by left)) as (s' & t' & nd & E' & H1 & H2 & H3).
    exists s', t', nd, (before k ++ inorder l), (inorder r ++ after k). rewrite H3, (EI r) by (by left). done.
  - rewrite bool_decide_false, bool_decide_true by done.
    destruct (Hone l ltac:(by right)) as (s' & t' & nd & E' & H1 & H2 & H3).
    exists s', t', nd, (before k ++ inorder l), (inorder r ++ after k). rewrite H3, (EI l) by (by right). done.
  - rewrite !bool_decide_false by done.
    destruct (erase_two_ok _ _ _ _ _ _ _ Ht Hl0 Hr0) as (s1 & y & cy & yr & k2 & -> & H1 & Er & EIr).
    cbn [mbind option_bind]. rewrite <- (top_app 0 k2 R y c l k).
    destruct (rb_erase_balance _ _ _ y cy E yr yr H1) as (s2 & t2 & -> & H2 & Hb2 & EI2); [|by left|].
    + rewrite Er in Hb. change (T x c l ?r) with (plug [Frame R x c l] r) in Hb.
      rewrite <- !plug_app in Hb. rewrite <- ?app_assoc in Hb. cbn [app] in Hb.
      destruct (balanced_plug _ _ Hb) as (b & n & c' & Hk & Hy & Hc).
      apply (plug_balanced b n c'); [by eapply ctx_ok_rename|done..].
    + eexists s2, t2, _, (before k ++ inorder l), (inorder r ++ after k). split_and!; try done.
      rewrite EI2, plug_app, inorder_plug. cbn [plug mk inorder]. rewrite EIr. by norm_app.
Qed.
