(* ===== verification/RbtreeOps.v ===== *)
(** * Red-black trees: the operations as a whole

    The insertion of a node, from the link at a free place to the balanced tree, the traversal
    in order, the replacement of a node and the bound on the height, for the trees of
    [Rbtree]. *)

From S2P Require Import Prelude Rbtree RbtreeSpec.

Open Scope Z_scope.

(** The pointer that holds the subtree of a context. *)
Definition hole_ref (k : list frame) : rb_ref :=
  match k with
  | [] => RefRoot
  | Frame L a _ _ :: _ => RefLeft a
  | Frame R a _ _ :: _ => RefRight a
  end.

Section link.
Context (o : gmap Z rb_node).

Lemma rb_link_ok s k x :
  is_tree o s (plug k E) → good x → x ∉ inorder (plug k E) → is_Some (nodes s !! x) →
  ∃ s', rb_link_node x (top 0 k) (hole_ref k) s = Some s' ∧ is_tree o s' (plug k (T x Red E E)).
Proof.
  intros [Hroot Hr Hn Hg Ho] Hx Hxn [nx Ex]. rewrite inorder_plug in Hn, Hg, Hxn, Ho. cbn in Hn, Hg, Hxn, Ho.
  apply rep_plug in Hr as [_ Hk]. cbn [ptr] in Hk. unfold rb_link_node.
  rewrite (upd_ok _ _ _ _ Ex). cbn [mbind option_bind].
  assert (∃ s', store_ref (hole_ref k) x (put x (RbNode (top 0 k) 0 0) s) = Some s' ∧
    rep_ctx (nodes s') x 0 k ∧ nodes s' !! x = Some (node_of L (top 0 k) Red 0 0) ∧
    rb_root s' = ptr (plug k (T x Red E E)) ∧
    ∀ a, a ≠ x → a ∉ before k ++ after k → nodes s' !! a = nodes s !! a) as (s' & E' & Hk' & Hx' & Hroot' & Ho').
  { assert (node_of L (top 0 k) Red 0 0 = RbNode (top 0 k) 0 0) as ->.
    { cbn. unfold word. cbn. by rewrite Z.add_0_r. }
    destruct k as [|[d a c sib] k].
    - eexists. split; [done|]. cbn. rewrite lookup_insert_eq. split_and!; try done.
      intros a Ha _. by rewrite lookup_insert_ne.
    - destruct Hk as (Ha & Hs & Hk).
      assert (a ≠ x ∧ a ∉ inorder sib ∧ x ∉ inorder sib ∧ a ∉ before k ∧ x ∉ before k ∧ a ∉ after k ∧ x ∉ after k)
        as (Hax & Has & Hxs & Hab & Hxb & Haa & Hxa).
      { destruct d; cbn in Hn, Hxn.
        - apply NoDup_app in Hn as (_ & Hb & [Hn _]%NoDup_cons). set_solver.
        - apply NoDup_app in Hn as (Hn & Hb & _). apply NoDup_app in Hn as (_ & Hb1 & Hn).
          apply NoDup_app in Hn as (_ & Hb2 & _). set_solver. }
      assert (store_ref (hole_ref (Frame d a c sib :: k)) x (put x (RbNode a 0 0) s) =
        Some (put a (node_of d (top 0 k) c x (ptr sib)) (put x (RbNode a 0 0) s))) as E1.
      { destruct d; cbn [hole_ref store_ref]; unfold set_left, set_right;
          (erewrite upd_ok by (cbn; rewrite lookup_insert_ne by done; exact Ha)); done. }
      eexists. split; [exact E1|]. cbn [nodes put rb_root rep_ctx]. rewrite lookup_insert_eq, lookup_insert_ne by done.
      rewrite lookup_insert_eq. split_and!; try done.
      + do 2 (apply rep_insert; [done|]). done.
      + do 2 (apply rep_ctx_insert; [done..|]). done.
      + rewrite Hroot. apply ptr_plug_cons.
      + intros b Hb Hbk. rewrite !lookup_insert_ne; [done|done|]. destruct d; cbn in Hbk; set_solver. }
  exists s'. split; [done|]. split; try done.
  - apply rep_plug. split; [|done]. done.
  - rewrite inorder_plug. cbn. apply NoDup_app in Hn as (H1 & H2 & H3). apply NoDup_app.
    split; [done|]. split; [set_solver|]. apply NoDup_cons. split; [set_solver|done].
  - rewrite inorder_plug. cbn. apply Forall_app in Hg as [H1 H2]. apply Forall_app. split; [done|]. by constructor.
  - rewrite inorder_plug. cbn. intros a Ha. rewrite Ho' by set_solver. apply Ho. set_solver.
Qed.

(** The context of a free place is one for a subtree of height 0. *)
Lemma hole_ctx k : balanced (plug k E) → ∃ m, ctx_ok m 0 k.
Proof.
  intros Hb. destruct (balanced_plug _ _ Hb) as (b & n & c & Hk & Ht & _). inversion Ht; subst. eauto.
Qed.

Lemma rb_insert_ok s k x :
  is_tree o s (plug k E) → balanced (plug k E) → good x → x ∉ inorder (plug k E) → is_Some (nodes s !! x) →
  ∃ s' t, (s ← rb_link_node x (top 0 k) (hole_ref k) s; rb_insert_color x s) = Some s' ∧
    is_tree o s' t ∧ balanced t ∧ inorder t = before k ++ x :: after k.
Proof.
  intros Ht Hb Hx Hn Hs. destruct (rb_link_ok s k x Ht Hx Hn Hs) as (s1 & -> & H1). cbn [mbind option_bind].
  destruct (hole_ctx k Hb) as [m Hm]. by apply (rb_insert_color_ok o s1 k x 0 m).
Qed.
End link.

(** ** Traversal *)

Section traversal.
Context (o : gmap Z rb_node).

Lemma rightmost_ok fuel s p t :
  rep (nodes s) p t → Forall good (inorder t) → t ≠ E → (length (inorder t) ≤ fuel)%nat →
  ∃ y rest, rightmost fuel (ptr t) s = Some y ∧ inorder t = rest ++ [y].
Proof.
  revert fuel p. induction t as [|a c l _ r IHr]; intros fuel p; [done|]. cbn [rep inorder ptr].
  intros (Ha & Hl & Hr) Hg _ Hf. rewrite length_app in Hf. cbn in Hf. destruct fuel as [|fuel]; [lia|].
  cbn [rightmost]. unfold get. rewrite Ha. cbn [mbind option_bind node_of rb_right].
  apply Forall_app in Hg as [_ [_ Hg]%Forall_cons]. rewrite (ctrue_ptr _ _ _ Hg Hr).
  destruct (decide (r = E)) as [->|Hne]; [by exists a, (inorder l)|].
  rewrite bool_decide_false by done. cbn [negb].
  destruct (IHr fuel a Hr Hg Hne ltac:(lia)) as (y & rest & E & ->).
  exists y, (inorder l ++ a :: rest). split; [done|]. by rewrite <- app_assoc.
Qed.

(** Going up to the first ancestor on the other side. *)
Lemma climb_right_ok fuel s k t :
  is_tree o s (plug k t) → t ≠ E → (length k < fuel)%nat →
  climb_right fuel (ptr t) s = Some (hd 0 (after k)).
Proof.
  revert fuel t. induction k as [|[d p c sib] k IH]; intros [|fuel] t Ht Ht0 Hf; cbn in Hf; try lia;
    (destruct t as [|x cx l r]; [done|]); cbn [ptr climb_right];
    rewrite (focus_get _ _ _ _ _ _ _ Ht); cbn [mbind option_bind];
    (rewrite parent_node_of by (by eapply top_good)); [done|].
  cbn [top]. cbn [plug] in Ht. unfold ctrue.
  rewrite (proj2 (Z.eqb_neq p 0)) by apply (mk_good _ _ _ _ _ _ _ _ Ht). cbn [negb].
  rewrite (mk_get _ _ _ _ _ _ _ _ Ht). cbn [mbind option_bind ptr].
  assert (x ≠ 0) as Hx0 by apply (focus_good o s (Frame d p c sib :: k) x cx l r Ht).
  pose proof (side_opp o _ _ _ R _ _ _ _ Ht Hx0) as Es. cbn [child ptr] in Es. rewrite Z.eqb_sym, Es.
  destruct d; [done|]. rewrite bool_decide_true by done.
  apply (IH fuel (mk R p c (T x cx l r) sib)); [done|done|lia].
Qed.

Lemma climb_left_ok fuel s k t :
  is_tree o s (plug k t) → t ≠ E → (length k < fuel)%nat →
  climb_left fuel (ptr t) s = Some (List.last (before k) 0).
Proof.
  revert fuel t. induction k as [|[d p c sib] k IH]; intros [|fuel] t Ht Ht0 Hf; cbn in Hf; try lia;
    (destruct t as [|x cx l r]; [done|]); cbn [ptr climb_left];
    rewrite (focus_get _ _ _ _ _ _ _ Ht); cbn [mbind option_bind];
    (rewrite parent_node_of by (by eapply top_good)); [done|].
  cbn [top]. cbn [plug] in Ht. unfold ctrue.
  rewrite (proj2 (Z.eqb_neq p 0)) by apply (mk_good _ _ _ _ _ _ _ _ Ht). cbn [negb].
  rewrite (mk_get _ _ _ _ _ _ _ _ Ht). cbn [mbind option_bind ptr].
  assert (x ≠ 0) as Hx0 by apply (focus_good o s (Frame d p c sib :: k) x cx l r Ht).
  pose proof (side_opp o _ _ _ L _ _ _ _ Ht Hx0) as Es. cbn [child ptr] in Es. rewrite Z.eqb_sym, Es.
  destruct d; cbn [bool_decide decide_rel before].
  - rewrite bool_decide_true by done.
    apply (IH fuel (mk L p c (T x cx l r) sib)); [done|done|lia].
  - rewrite bool_decide_false by done. by rewrite app_assoc, List.last_last.
Qed.

Lemma nodup_split {A} (l1 l2 l1' l2' : list A) x :
  NoDup (l1 ++ x :: l2) → l1 ++ x :: l2 = l1' ++ x :: l2' → l1 = l1' ∧ l2 = l2'.
Proof.
  revert l1'. induction l1 as [|a l1 IH]; intros [|b l1'] Hn E; cbn in *.
  - by injection E.
  - injection E as <- ->. apply NoDup_cons in Hn as [Hn _]. set_solver.
  - injection E as -> <-. apply NoDup_cons in Hn as [Hn _]. set_solver.
  - injection E as -> E. apply NoDup_cons in Hn as [_ Hn]. destruct (IH l1' Hn E) as [-> ->]. done.
Qed.

(** The parts of the sequence around a node. *)
Lemma focus_split s t l1 x l2 :
  is_tree o s t → inorder t = l1 ++ x :: l2 →
  ∃ k c l r, t = plug k (T x c l r) ∧ l1 = before k ++ inorder l ∧ l2 = inorder r ++ after k.
Proof.
  intros Ht E. destruct (elem_focus t x) as (k & c & l & r & ->); [rewrite E; set_solver|].
  exists k, c, l, r. split; [done|]. pose proof (it_nodup _ _ _ Ht) as Hn. rewrite E in Hn.
  apply (nodup_split _ _ _ _ x); [done|]. rewrite <- E, inorder_plug. by norm_app.
Qed.

Lemma top_not_self s k x c l r : is_tree o s (plug k (T x c l r)) → (top 0 k =? x) = false.
Proof.
  intros Ht. pose proof (focus_parts _ _ _ _ _ _ _ Ht) as [Hn _]. apply NoDup_cons in Hn as [Hn _].
  destruct (focus_good _ _ _ _ _ _ _ Ht) as [Hx0 _]. apply Z.eqb_neq.
  destruct k as [|[[] a ca sib] k]; cbn in *; [done|set_solver..].
Qed.

Lemma inorder_fuel s k t : is_tree o s (plug k t) → (length (inorder t) ≤ rb_fuel s)%nat.
Proof.
  intros Ht. pose proof (is_tree_size _ _ _ Ht) as Hs. rewrite inorder_plug, !length_app in Hs.
  unfold rb_fuel. lia.
Qed.

Lemma rb_next_ok s t l1 x l2 :
  is_tree o s t → inorder t = l1 ++ x :: l2 → rb_next x s = Some (hd 0 l2).
Proof.
  intros Ht EQ. destruct (focus_split _ _ _ _ _ Ht EQ) as (k & c & l & r & -> & _ & ->).
  unfold rb_next. rewrite (focus_get _ _ _ _ _ _ _ Ht). cbn [mbind option_bind].
  rewrite parent_node_of, (top_not_self _ _ _ _ _ _ Ht) by (by eapply top_good). cbn [node_of rb_right].
  pose proof (it_rep _ _ _ Ht) as Hr. apply rep_plug in Hr as [(_ & _ & Hr) _].
  pose proof (focus_parts _ _ _ _ _ _ _ Ht) as [_ Hg]. apply Forall_cons in Hg as [_ [_ [Hg _]%Forall_app]%Forall_app].
  rewrite (ctrue_ptr _ _ _ Hg Hr). destruct (decide (r = E)) as [->|Hne].
  - rewrite bool_decide_true by done. cbn [negb].
    apply (climb_right_ok (rb_fuel s) s k (T x c l E)); [done|done|by eapply ctx_fuel].
  - rewrite bool_decide_false by done. cbn [negb].
    destruct (leftmost_ok (rb_fuel s) s x r Hr Hg Hne) as (y & rest & -> & ->); [|done].
    apply (inorder_fuel s (Frame R x c l :: k)). done.
Qed.

Lemma rb_prev_ok s t l1 x l2 :
  is_tree o s t → inorder t = l1 ++ x :: l2 → rb_prev x s = Some (List.last l1 0).
Proof.
  intros Ht EQ. destruct (focus_split _ _ _ _ _ Ht EQ) as (k & c & l & r & -> & -> & _).
  unfold rb_prev. rewrite (focus_get _ _ _ _ _ _ _ Ht). cbn [mbind option_bind].
  rewrite parent_node_of, (top_not_self _ _ _ _ _ _ Ht) by (by eapply top_good). cbn [node_of rb_left].
  pose proof (it_rep _ _ _ Ht) as Hr. apply rep_plug in Hr as [(_ & Hl & _) _].
  pose proof (focus_parts _ _ _ _ _ _ _ Ht) as [_ Hg]. apply Forall_cons in Hg as [_ [Hg _]%Forall_app].
  rewrite (ctrue_ptr _ _ _ Hg Hl). destruct (decide (l = E)) as [->|Hne].
  - rewrite bool_decide_true by done. cbn [negb inorder]. rewrite app_nil_r.
    apply (climb_left_ok (rb_fuel s) s k (T x c E r)); [done|done|by eapply ctx_fuel].
  - rewrite bool_decide_false by done. cbn [negb].
    destruct (rightmost_ok (rb_fuel s) s x l Hl Hg Hne) as (y & rest & -> & ->).
    + apply (inorder_fuel s (Frame L x c r :: k)). done.
    + by rewrite app_assoc, List.last_last.
Qed.

Lemma rb_first_ok s t : is_tree o s t → rb_first s = Some (hd 0 (inorder t)).
Proof.
  intros Ht. unfold rb_first. rewrite (it_root _ _ _ Ht), (ctrue_ptr _ _ _ (it_good _ _ _ Ht) (it_rep _ _ _ Ht)).
  destruct (decide (t = E)) as [->|Hne]; [done|]. rewrite bool_decide_false by done. cbn [negb].
  destruct (leftmost_ok (rb_fuel s) s 0 t (it_rep _ _ _ Ht) (it_good _ _ _ Ht) Hne) as (y & rest & -> & ->); [|done].
  by apply (inorder_fuel s []).
Qed.

Lemma rb_last_ok s t : is_tree o s t → rb_last s = Some (List.last (inorder t) 0).
Proof.
  intros Ht. unfold rb_last. rewrite (it_root _ _ _ Ht), (ctrue_ptr _ _ _ (it_good _ _ _ Ht) (it_rep _ _ _ Ht)).
  destruct (decide (t = E)) as [->|Hne]; [done|]. rewrite bool_decide_false by done. cbn [negb].
  destruct (rightmost_ok (rb_fuel s) s 0 t (it_rep _ _ _ Ht) (it_good _ _ _ Ht) Hne) as (y & rest & -> & ->).
  - by apply (inorder_fuel s []).
  - by rewrite List.last_last.
Qed.
End traversal.

(** ** Height *)

Fixpoint height (t : tree) : nat :=
  match t with E => 0 | T _ _ l r => S (height l `max` height r) end.

Lemma rbt_size c n t : rbt c n t → (2 ^ n ≤ S (length (inorder t)))%nat.
Proof.
  induction 1 as [|n a l r _ IHl _ IHr|n a c d l r _ IHl _ IHr]; cbn; rewrite ?length_app; cbn in *; lia.
Qed.

Lemma rbt_height c n t :
  rbt c n t → (height t ≤ 2 * n + match c with Red => 1 | Black => 0 end)%nat.
Proof.
  induction 1 as [|n a l r _ IHl _ IHr|n a c d l r _ IHl _ IHr]; cbn [height]; [lia..|].
  destruct c, d; lia.
Qed.

Lemma balanced_height t :
  balanced t → (height t ≤ 2 * Nat.log2 (S (length (inorder t))))%nat.
Proof.
  intros [n Hn]. pose proof (rbt_height _ _ _ Hn) as Hh. pose proof (rbt_size _ _ _ Hn) as Hs. cbn in Hh.
  apply Nat.log2_le_mono in Hs. rewrite Nat.log2_pow2 in Hs by lia. lia.
Qed.

(** ** Replacement *)

Lemma rb_replace_ok o s k x c l r y :
  is_tree o s (plug k (T x c l r)) → good y → y ∉ inorder (plug k (T x c l r)) → is_Some (nodes s !! y) →
  ∃ s', rb_replace_node x y s = Some s' ∧
    is_tree (<[x := node_of L (top 0 k) c (ptr l) (ptr r)]> o) s' (plug k (T y c l r)).
Proof.
  intros Ht Hy Hyn [ny Ey]. pose proof (top_good _ _ _ _ Ht) as Hk4.
  pose proof (focus_parts _ _ _ _ _ _ _ Ht) as [Hn Hg]. rewrite inorder_plug in Hyn. cbn in Hyn.
  apply NoDup_cons in Hn as [Hxn Hn]. apply NoDup_app in Hn as (Hnl & Hlk & Hn). apply NoDup_app in Hn as (Hnr & Hrk & Hnk).
  apply Forall_cons in Hg as [[Hx0 Hx4] [Hgl [Hgr Hgk]%Forall_app]%Forall_app].
  pose proof (it_rep _ _ _ Ht) as Hrep. apply rep_plug in Hrep as [(Hx & Hl & Hr) Hk]. cbn [ptr] in Hk.
  unfold rb_replace_node, get. rewrite Hx. cbn [mbind option_bind]. rewrite parent_node_of by done.
  destruct (change_ok L s k x y Hk Hnk Hgk Hx0 ltac:(set_solver)) as (s1 & E1 & Hk1 & Hroot1 & H1).
  unfold change, change_child, get in E1. rewrite E1. cbn [mbind option_bind node_of rb_left rb_right].
  assert (∀ a, a ∉ before k ++ after k → nodes s1 !! a = nodes s !! a) as H1'.
  { intros a Ha. apply H1. destruct k as [|[[] b cb sib] k]; [by right|left..]; cbn in *; set_solver. }
  destruct (reparent_ok s1 x y l Hgl Hnl Hx4 (proj2 Hy)) as (s2 & -> & Hl2 & Hroot2 & H2).
  { apply (rep_frame (nodes s)); [|done]. intros a Ha. apply H1'. set_solver. }
  assert (∀ a, a ∉ inorder l → nodes s2 !! a = nodes s1 !! a) as H2'.
  { intros a Ha. apply H2. destruct l; [by right|left]. cbn in *. set_solver. }
  cbn [mbind option_bind].
  destruct (reparent_ok s2 x y r Hgr Hnr Hx4 (proj2 Hy)) as (s3 & -> & Hr3 & Hroot3 & H3).
  { apply (rep_frame (nodes s)); [|done]. intros a Ha. rewrite H2', H1' by set_solver. done. }
  assert (∀ a, a ∉ inorder r → nodes s3 !! a = nodes s2 !! a) as H3'.
  { intros a Ha. apply H3. destruct r; [by right|left]. cbn in *. set_solver. }
  cbn [mbind option_bind]. rewrite H3', H2', H1', Hx by set_solver. cbn [mbind option_bind].
  erewrite upd_ok by (rewrite H3', H2', H1' by set_solver; exact Ey). eexists. split; [done|].
  split; cbn [rb_root nodes put].
  - rewrite Hroot3, Hroot2, Hroot1. destruct k as [|f k]; [done|]. rewrite (it_root _ _ _ Ht). apply ptr_plug_cons.
  - apply rep_plug. split.
    + cbn [rep]. rewrite lookup_insert_eq. split; [done|]. split; (apply rep_insert; [set_solver|]); [|done].
      apply (rep_frame (nodes s2)); [|done]. intros a Ha. apply H3'. set_solver.
    + apply rep_ctx_insert; [set_solver..|]. apply (rep_ctx_frame (nodes s1)); [|done].
      intros a Ha. rewrite H3', H2' by set_solver. done.
  - rewrite inorder_plug. pose proof (it_nodup _ _ _ Ht) as Hn0. rewrite inorder_plug in Hn0. cbn in *.
    eapply NoDup_Permutation_proper with (y :: inorder l ++ inorder r ++ before k ++ after k).
    + rewrite (Permutation_app_swap_app (before k)). rewrite <- (Permutation_middle (inorder l)).
      cbn. by rewrite <- app_assoc.
    + apply NoDup_cons. split; [set_solver|]. apply NoDup_app. split; [done|]. split; [done|]. by apply NoDup_app.
  - rewrite inorder_plug. pose proof (it_good _ _ _ Ht) as Hg0. rewrite inorder_plug in Hg0. cbn in *.
    rewrite !Forall_app, !Forall_cons in *. tauto.
  - rewrite inorder_plug. cbn. intros a Ha. rewrite lookup_insert_ne by set_solver.
    destruct (decide (a = x)) as [->|Hax].
    + rewrite lookup_insert_eq, H3', H2', H1', Hx by set_solver. done.
    + rewrite lookup_insert_ne by done. rewrite H3', H2', H1' by set_solver. apply (it_out _ _ _ Ht).
      rewrite inorder_plug. cbn. set_solver.
Qed.

(** ** The tree as a sequence

    What a tree promises to its users: it is a sequence of nodes; the nodes that are not in it
    are left alone. *)
Definition rb_seq (s : rb) (l : list Z) : Prop :=
  ∃ o t, is_tree o s t ∧ balanced t ∧ inorder t = l.

Definition same_outside (l : list Z) (s s' : rb) : Prop :=
  ∀ a, a ∉ l → nodes s' !! a = nodes s !! a.

(** The walk along the nodes with [rb_next] or [rb_prev]. *)
Fixpoint rb_walk (fuel : nat) (step : Z → rb → option Z) (x : Z) (s : rb) : option (list Z) :=
  match fuel with
  | O => None
  | S fuel => if x =? 0 then Some [] else y ← step x s; l ← rb_walk fuel step y s; Some (x :: l)
  end.

Lemma walk_next_ok o s t l1 l2 fuel :
  is_tree o s t → inorder t = l1 ++ l2 → (length l2 < fuel)%nat → rb_walk fuel rb_next (hd 0 l2) s = Some l2.
Proof.
  intros Ht. revert l1 l2. induction fuel as [|fuel IH]; intros l1 l2 EQ Hf; [lia|].
  destruct l2 as [|x l2]; [done|]. cbn [rb_walk hd].
  pose proof (it_good _ _ _ Ht) as Hg. rewrite EQ in Hg. apply Forall_app in Hg as [_ [[Hx _] _]%Forall_cons].
  rewrite (proj2 (Z.eqb_neq x 0)) by done. rewrite (rb_next_ok o s t l1 x l2 Ht EQ). cbn [mbind option_bind].
  rewrite (IH (l1 ++ [x]) l2); [done| |cbn in Hf; lia]. by rewrite EQ, <- app_assoc.
Qed.

Lemma walk_prev_ok o s t l1 l2 fuel :
  is_tree o s t → inorder t = l1 ++ l2 → (length l1 < fuel)%nat →
  rb_walk fuel rb_prev (List.last l1 0) s = Some (reverse l1).
Proof.
  intros Ht. revert l1 l2. induction fuel as [|fuel IH]; intros l1 l2 EQ Hf; [lia|].
  destruct l1 as [|x l1 _] using rev_ind; [done|]. rewrite List.last_last. cbn [rb_walk].
  pose proof (it_good _ _ _ Ht) as Hg. rewrite EQ in Hg.
  apply Forall_app in Hg as [[_ [[Hx _] _]%Forall_cons]%Forall_app _].
  rewrite (proj2 (Z.eqb_neq x 0)) by done. rewrite <- app_assoc in EQ.
  rewrite (rb_prev_ok o s t l1 x l2 Ht EQ). cbn [mbind option_bind].
  rewrite length_app in Hf. cbn in Hf. rewrite (IH l1 (x :: l2) EQ) by lia. by rewrite reverse_snoc.
Qed.

(** C13. A node linked at any free place of the tree and balanced with [rb_insert_color] becomes part
    of the sequence at that place; the tree is balanced again and no node outside changes. *)
Theorem rb_insert_correct o s k x :
  is_tree o s (plug k E) → balanced (plug k E) → good x → x ∉ inorder (plug k E) → is_Some (nodes s !! x) →
  rb_seq s (before k ++ after k) ∧
  ∃ s', (s ← rb_link_node x (top 0 k) (hole_ref k) s; rb_insert_color x s) = Some s' ∧
    rb_seq s' (before k ++ x :: after k) ∧ same_outside (x :: before k ++ after k) s s'.
Proof.
  intros Ht Hb Hx Hn Hs. split; [exists o, (plug k E); by rewrite inorder_plug|].
  destruct (rb_insert_ok o s k x Ht Hb Hx Hn Hs) as (s' & t & EQ & Ht' & Hb' & El). exists s'. split_and!; [done|by exists o, t|].
  intros a Ha. rewrite inorder_plug in Hn. cbn in Hn.
  rewrite (it_out _ _ _ Ht'), (it_out _ _ _ Ht); [done| |].
  - rewrite inorder_plug. cbn. set_solver.
  - rewrite El. set_solver.
Qed.

(** C8. [rb_erase] takes a node out of the sequence, wherever it is; the tree is balanced again and
    no node outside changes. *)
Theorem rb_erase_correct s l1 x l2 :
  rb_seq s (l1 ++ x :: l2) →
  ∃ s', rb_erase x s = Some s' ∧ rb_seq s' (l1 ++ l2) ∧ same_outside (l1 ++ x :: l2) s s'.
Proof.
  intros (o & t & Ht & Hb & El).
  destruct (rb_erase_ok o s t x Ht Hb) as (s' & t' & nd & m1 & m2 & EQ & Ht' & Hb' & Em & Em'); [rewrite El; set_solver|].
  pose proof (it_nodup _ _ _ Ht) as Hn. rewrite El in Em, Hn. destruct (nodup_split _ _ _ _ _ Hn Em) as [<- <-].
  exists s'. split_and!; [done|by eexists _, t'|]. intros a Ha.
  rewrite (it_out _ _ _ Ht'), (it_out _ _ _ Ht), lookup_insert_ne; [done| | |].
  - intros ->. set_solver.
  - by rewrite El.
  - rewrite Em'. set_solver.
Qed.

(** The walk from [rb_first] with [rb_next] gives the sequence, the walk from [rb_last] with
    [rb_prev] its reverse, and the depth of the tree is logarithmic. *)
Theorem rb_walk_correct s l :
  rb_seq s l →
  (x ← rb_first s; rb_walk (S (length l)) rb_next x s) = Some l ∧
  (x ← rb_last s; rb_walk (S (length l)) rb_prev x s) = Some (reverse l) ∧
  ∃ o t, is_tree o s t ∧ inorder t = l ∧ (height t ≤ 2 * Nat.log2 (S (length l)))%nat.
Proof.
  intros (o & t & Ht & Hb & <-). rewrite (rb_first_ok o s t Ht), (rb_last_ok o s t Ht). cbn [mbind option_bind].
  split_and!; [apply (walk_next_ok o s t []); auto|eapply walk_prev_ok; [done|by rewrite app_nil_r|lia]|].
  exists o, t. split_and!; [done|done|by apply balanced_height].
Qed.

(** ** Examples *)

(** The nodes 4 .. 28, of which 4, 8, 12, 16 are in the tree; 20 is free. *)
Definition ex_tree : tree := T 8 Black (T 4 Black E E) (T 12 Black E (T 16 Red E E)).
Definition ex_rb : rb :=
  Rb 8 (list_to_map [(8, RbNode 1 12 4); (4, RbNode 9 0 0); (12, RbNode 9 16 0); (16, RbNode 12 0 0); (20, RbNode 0 0 0)]).

Lemma ex_rb_ok : is_tree (nodes ex_rb) ex_rb ex_tree ∧ balanced ex_tree.
Proof.
  split; [|exists 2%nat; repeat econstructor]. split; [done|vm_compute; auto 10| | |done].
  - apply (bool_decide_unpack _). vm_compute. exact I.
  - repeat constructor; done.
Qed.

Lemma ex_rb_seq : rb_seq ex_rb [4; 8; 12; 16].
Proof. exists (nodes ex_rb), ex_tree. split; [apply ex_rb_ok|]. split; [apply ex_rb_ok|done]. Qed.

Definition ex_hole : list frame := [Frame R 16 Red E; Frame R 12 Black E; Frame R 8 Black (T 4 Black E E)].

Lemma rb_insert_correct_witness :
  plug ex_hole E = ex_tree ∧
  ∃ s', (s ← rb_link_node 20 16 (RefRight 16) ex_rb; rb_insert_color 20 s) = Some s' ∧
    rb_seq s' [4; 8; 12; 16; 20].
Proof.
  split; [reflexivity|].
  destruct (rb_insert_correct (nodes ex_rb) ex_rb ex_hole 20 (proj1 ex_rb_ok) (proj2 ex_rb_ok))
    as (_ & s' & H1 & H2 & _); [by split|apply (bool_decide_unpack _); vm_compute; exact I|vm_compute; eauto|].
  exists s'. split; [exact H1|exact H2].
Defined.

Lemma rb_erase_correct_witness :
  rb_seq ex_rb [4; 8; 12; 16] ∧ ∃ s', rb_erase 8 ex_rb = Some s' ∧ rb_seq s' [4; 12; 16].
Proof.
  split; [exact ex_rb_seq|]. destruct (rb_erase_correct ex_rb [4] 8 [12; 16] ex_rb_seq) as (s' & H1 & H2 & _).
  exists s'. split; [exact H1|exact H2].
Defined.

Lemma rb_walk_correct_witness :
  rb_seq ex_rb [4; 8; 12; 16] ∧ (x ← rb_first ex_rb; rb_walk 5 rb_next x ex_rb) = Some [4; 8; 12; 16].
Proof.
  split; [exact ex_rb_seq|]. exact (proj1 (rb_walk_correct ex_rb [4; 8; 12; 16] ex_rb_seq)).
Defined.
