(* ===== verification/VmRegion.v ===== *)
(** * Regions of an address space (src/kernel/mm/vm_region.c, vm_region.h)

    The regions of a task are at the same time on a list, in the order of their addresses, and
    in a red-black tree, which [vm_region_find] and [vm_region_find_prepare] search.  The region
    descriptors, the list and the tree are three parts of the state; a region is known by its
    address in all of them.  The address-space invariant [vmm_ok] says that list and tree agree
    and that the regions are disjoint. *)

From S2P Require Import Prelude Clist Bits Rbtree RbtreeSpec RbtreeOps.

Open Scope Z_scope.

(** ** Constants *)

Definition VM_REG_SHARED : Z := 0x0001.
Definition VM_REG_ANON : Z := 0x0004.
Definition VM_REG_HUGETLB : Z := 0x0020.
Definition VM_REG_FIXED : Z := 0x0040.
Definition VM_REG_LAZY : Z := 0x0200.
Definition VM_REG_INIT : Z := 0x0400.
Definition VM_REG_HEAP : Z := 0x0800.

Definition VM_REG_NON : Z := 0x00.
Definition VM_REG_RD : Z := 0x01.
Definition VM_REG_WR : Z := 0x02.
Definition VM_REG_EX : Z := 0x04.

Definition CONFIG_VM_REGION_KEYWIDTH : Z := 16.
Definition CONFIG_TASK_HEAP_MAX_SIZE : Z := 0x30000000.
Definition CONFIG_USR_LIMIT : Z := 0x80000000.

(** Attributes of pages (arch-pmm.h). *)
Definition PMM_READ : Z := Z.shiftl 1 31.
Definition PMM_HUGE_BIT : Z := Z.shiftl 1 30.
Definition PMM_ACCESSED : Z := Z.lor (Z.shiftl 1 29) (Z.shiftl 1 28).
Definition PMM_CACHED : Z := Z.shiftl 1 27.
Definition PMM_WRITE : Z := Z.shiftl 1 26.
Definition PMM_EXECUTE : Z := Z.shiftl 1 25.
Definition PMM_USER : Z := Z.shiftl 1 24.
Definition PMM_DIRTY : Z := Z.shiftl 1 22.

(** ** State *)

Record vm_region_s := Region {
  vm_begin : Z; vm_end : Z; vm_start : Z; vm_limit : Z;
  vm_prot : Z; vm_pgprot : Z; vm_flags : Z; vm_offset : Z; vm_refcount : Z }.

(** The part of [struct vmm_s] that holds the regions: the tree, the cells of the list, whose
    root is [Root 0], and the descriptors. *)
Record vmm_s := Vmm {
  regions_tree : rb;
  regions_list : gmap lnode (list_entry lnode);
  regions : gmap Z vm_region_s;
  last_mmap : Z;
  last_region : Z }.

Definition with_tree (v : vmm_s) (s : rb) : vmm_s :=
  Vmm s (regions_list v) (regions v) (last_mmap v) (last_region v).
Definition with_list (v : vmm_s) (h : gmap lnode (list_entry lnode)) : vmm_s :=
  Vmm (regions_tree v) h (regions v) (last_mmap v) (last_region v).
Definition with_region (v : vmm_s) (a : Z) (r : vm_region_s) : vmm_s :=
  Vmm (regions_tree v) (regions_list v) (<[a := r]> (regions v)) (last_mmap v) (last_region v).
Definition with_last_mmap (v : vmm_s) (a : Z) : vmm_s :=
  Vmm (regions_tree v) (regions_list v) (regions v) a (last_region v).
Definition with_last_region (v : vmm_s) (a : Z) : vmm_s :=
  Vmm (regions_tree v) (regions_list v) (regions v) (last_mmap v) a.

Definition flag (x f : Z) : bool := ctrue (Z.land x f).

(** ** Initialisation *)

Definition vm_region_init (vma_start vma_end prot offset flags : Z) : vm_region_s :=
  let regsize := Z.shiftl 1 CONFIG_VM_REGION_KEYWIDTH in
  let vm_end := if flag flags VM_REG_HEAP then ARROUND_UP CONFIG_TASK_HEAP_MAX_SIZE regsize
                else ARROUND_UP vma_end regsize in
  let pgprot := Z.lor (Z.lor (Z.lor PMM_USER PMM_CACHED) PMM_ACCESSED) PMM_DIRTY in
  let '(prot, pgprot) := if flag prot VM_REG_WR
                         then (Z.lor prot VM_REG_RD, Z.lor pgprot PMM_WRITE) else (prot, pgprot) in
  let pgprot := if flag prot VM_REG_RD then Z.lor pgprot PMM_READ else pgprot in
  let pgprot := if flag prot VM_REG_EX then Z.lor pgprot PMM_EXECUTE else pgprot in
  let pgprot := if negb (prot =? VM_REG_NON) then Z.lor pgprot PMM_READ else pgprot in
  let pgprot := if flag flags VM_REG_HUGETLB then Z.lor pgprot PMM_HUGE_BIT else pgprot in
  Region (ARROUND_DOWN vma_start regsize) vm_end vma_start vma_end prot pgprot flags offset 1.

(** ** Search *)

Fixpoint find_loop (fuel : nat) (v : vmm_s) (node vaddr reg : Z) : option Z :=
  match fuel with
  | O => None
  | S fuel =>
      if node =? 0 then Some reg else
      p ← regions v !! node;
      n ← get node (regions_tree v);
      if vaddr <? vm_end p then
        let reg := node in
        if vm_begin p <=? vaddr then Some reg
        else find_loop fuel v (rb_left n) vaddr reg
      else find_loop fuel v (rb_right n) vaddr reg
  end.

Definition vm_region_find (v : vmm_s) (vaddr : Z) : option Z :=
  find_loop (rb_fuel (regions_tree v)) v (rb_root (regions_tree v)) vaddr 0.

(** [vm_region_find_list]: the region found also becomes [last_region]. *)
Definition find_list_body (vaddr : Z) (k : lnode) (st : vmm_s * Z) : option (vmm_s * Z * bool) :=
  match k with
  | Root _ => None
  | Obj i =>
      r ← regions (fst st) !! i;
      Some (if vaddr <? vm_end r then (with_last_region (fst st) i, i, true) else (st, false))
  end.

Definition vm_region_find_list (v : vmm_s) (vaddr : Z) : option (vmm_s * Z) :=
  list_foreach (λ st : vmm_s * Z, regions_list (fst st)) (find_list_body vaddr)
    (S (size (regions_list v))) (At (Root 0)) (v, 0).

(** What [vm_region_find_prepare] returns: the region, [*pprev], [*rb_link] and [*rb_parent]. *)
Record found := Found { f_vma : Z; f_prev : Z; f_link : rb_ref; f_parent : Z }.

Fixpoint prepare_loop (fuel : nat) (v : vmm_s) (addr : Z) (f : found) : option found :=
  match fuel with
  | O => None
  | S fuel =>
      node ← load_ref (f_link f) (regions_tree v);
      if node =? 0 then Some f else
      p ← regions v !! node;
      if addr <? vm_end p then
        if vm_begin p <=? addr then Some (Found node (f_prev f) (f_link f) node)
        else prepare_loop fuel v addr (Found node (f_prev f) (RefLeft node) node)
      else prepare_loop fuel v addr (Found (f_vma f) node (RefRight node) node)
  end.

Definition vm_region_find_prepare (v : vmm_s) (addr : Z) : option found :=
  prepare_loop (rb_fuel (regions_tree v)) v addr (Found 0 0 RefRoot 0).

(** ** Attachment *)

Definition __vma_link_rb (v : vmm_s) (vma : Z) (f : found) : option vmm_s :=
  s ← rb_link_node vma (f_parent f) (f_link f) (regions_tree v);
  s ← rb_insert_color vma s;
  Some (with_tree v s).

(** [list_add_pred] and [list_add_next] on the region list. *)
Definition add_pred (reg region : Z) (v : vmm_s) : option vmm_s :=
  h ← list_add_last (regions_list v) (At (Obj reg)) (At (Obj region)); Some (with_list v h).
Definition add_next (reg region : Z) (v : vmm_s) : option vmm_s :=
  h ← list_add (regions_list v) (At (Obj reg)) (At (Obj region)); Some (with_list v h).
Definition add_last (region : Z) (v : vmm_s) : option vmm_s :=
  h ← list_add_last (regions_list v) (At (Root 0)) (At (Obj region)); Some (with_list v h).

(** The search for a free range: [start] moves to the end of each region that is in the way.
    The result holds [start] and what the last search found, if there was one. *)
Fixpoint solve_loop (fuel : nat) (v : vmm_s) (size limit start : Z) (last : option found)
    : option (Z * option found) :=
  match fuel with
  | O => None
  | S fuel =>
      if negb (start <=? limit) then Some (start, last) else
      f ← vm_region_find_prepare v start;
      if f_vma f =? 0 then Some (start, Some f) else
      r ← regions v !! f_vma f;
      if u32 (start + size) <? vm_begin r then Some (start, Some f)
      else solve_loop fuel v size limit (vm_end r) (Some f)
  end.

Definition vm_region_solve (v : vmm_s) (region : Z) : option (vmm_s * Z) :=
  rg ← regions v !! region;
  let size := vm_end rg in
  let limit := u32 (CONFIG_USR_LIMIT - size) in
  '(start, last) ← solve_loop (rb_fuel (regions_tree v)) v size limit (last_mmap v) None;
  if limit <? start then Some (v, ENOMEM) else
  let v := with_region v region
             (Region start (u32 (start + size)) start (u32 (vm_limit rg + start))
                (vm_prot rg) (vm_pgprot rg) (vm_flags rg) (vm_offset rg) (vm_refcount rg)) in
  f ← last;
  v ← __vma_link_rb v region f;
  v ← (if negb (f_vma f =? 0) then
         r ← regions v !! f_vma f;
         if start <? vm_begin r then add_pred (f_vma f) region v else add_next (f_vma f) region v
       else add_last region v);
  Some (v, 0).

Definition vm_region_attach_rbtree (v : vmm_s) (region : Z) : option (vmm_s * Z) :=
  rg ← regions v !! region;
  if flag (vm_flags rg) VM_REG_FIXED then
    f ← vm_region_find_prepare v (vm_begin rg);
    exist ← (if f_vma f =? 0 then Some false
             else r ← regions v !! f_vma f; Some (vm_begin r <=? vm_begin rg));
    if exist : bool then Some (v, EEXIST) else
    v ← (if f_vma f =? 0 then add_last region v else add_pred (f_vma f) region v);
    v ← __vma_link_rb v region f;
    Some (v, 0)
  else vm_region_solve v region.

Definition vm_region_attach (v : vmm_s) (region : Z) : option (vmm_s * Z) :=
  '(v, err) ← vm_region_attach_rbtree v region;
  if ctrue err then Some (v, err) else
  rg ← regions v !! region;
  Some (with_last_mmap v (vm_begin rg), 0).

(** ** Detachment

    [vm_region_detach] up to the release of the lock: the region leaves the list and the
    tree. *)
Definition detach_links (v : vmm_s) (region : Z) : option vmm_s :=
  h ← list_unlink (regions_list v) (At (Obj region));
  let v := with_list v h in
  s ← rb_erase region (regions_tree v);
  let v := with_tree v s in
  let v := if last_region v =? region then with_last_region v 0 else v in
  rg ← regions v !! region;
  Some (if vm_end rg <? last_mmap v then with_last_mmap v (vm_begin rg) else v).
