(* ===== verification/VmSpace.v ===== *)
(** * Address spaces: the regions are disjoint and found

    The invariant of the regions of a task and what the operations of [VmRegion] do under it:
    the searches, in the tree and on the list, give the region with the lowest end above an
    address; an attached region gets its place in both; a region placed by the kernel is
    disjoint from the others and within the user space; a detached region leaves the others as
    they were. *)

From stdpp Require Import sorting.
From S2P Require Import Prelude Clist Bits Rbtree RbtreeSpec RbtreeOps VmRegion.

Open Scope Z_scope.

(** ** The invariant *)

#[export] Instance vm_region_inhabited : Inhabited vm_region_s := populate (Region 0 0 0 0 0 0 0 0 0).

Definition region_ok (R : gmap Z vm_region_s) (a : Z) : Prop :=
  is_Some (R !! a) ∧ 0 ≤ vm_begin (R !!! a) < vm_end (R !!! a) ∧ vm_end (R !!! a) < wsize.

(** The region [a] is below the region [b]. *)
Definition below (R : gmap Z vm_region_s) (a b : Z) : Prop :=
  vm_end (R !!! a) ≤ vm_begin (R !!! b).

(** The list and the tree hold the regions [l]. *)
Definition linked (v : vmm_s) (l : list Z) : Prop :=
  (∃ o t, is_tree o (regions_tree v) t ∧ balanced t ∧ inorder t = l) ∧
  olist (regions_list v) 0 l.

Record vmm_ok (v : vmm_s) (l : list Z) : Prop := VmmOk {
  vo_linked : linked v l;
  vo_regions : Forall (region_ok (regions v)) l;
  vo_sorted : StronglySorted (below (regions v)) l }.

(** A descriptor that is not attached. *)
Record detached (v : vmm_s) (l : list Z) (a : Z) : Prop := Detached {
  de_new : a ∉ l;
  de_good : good a;
  de_node : is_Some (nodes (regions_tree v) !! a);
  de_cell : is_Some (regions_list v !! Obj a);
  de_region : is_Some (regions v !! a) }.

Definition above (R : gmap Z vm_region_s) (addr a : Z) : Prop := addr < vm_end (R !!! a).

#[export] Instance above_dec R addr a : Decision (above R addr a).
Proof. unfold above. apply _. Defined.

(** The first region that ends above an address. *)
Definition first_above (R : gmap Z vm_region_s) (addr : Z) (l : list Z) : Z :=
  hd 0 (filter (above R addr) l).

Lemma region_lookup R a : region_ok R a → R !! a = Some (R !!! a).
Proof. intros [[r Hr] _]. by rewrite (lookup_total_correct _ _ _ Hr). Qed.

Lemma filter_none {A} (P : A → Prop) `{∀ x, Decision (P x)} l :
  Forall (λ x, ¬ P x) l → filter P l = [].
Proof. induction 1 as [|x l Hx _ IH]; [done|]. by rewrite filter_cons_False. Qed.

Lemma filter_all {A} (P : A → Prop) `{∀ x, Decision (P x)} l : Forall P l → filter P l = l.
Proof. induction 1 as [|x l Hx _ IH]; [done|]. by rewrite filter_cons_True, IH. Qed.

Lemma first_above_spec R addr l :
  StronglySorted (below R) l →
  first_above R addr l = 0 ∧ (∀ b, b ∈ l → vm_end (R !!! b) ≤ addr) ∨
  first_above R addr l ∈ l ∧ addr < vm_end (R !!! first_above R addr l) ∧
    ∀ b, b ∈ l → addr < vm_end (R !!! b) → b = first_above R addr l ∨ below R (first_above R addr l) b.
Proof.
  unfold first_above. induction 1 as [|a l Hs IH Ha]; [left; split; [done|set_solver]|].
  destruct (decide (above R addr a)) as [Hab|Hab].
  - right. rewrite filter_cons_True by done. cbn [hd]. split_and!; [set_solver|done|].
    rewrite Forall_forall in Ha. intros b [->|Hb]%elem_of_cons; auto.
  - rewrite filter_cons_False by done. unfold above in Hab.
    destruct IH as [[E IH]|(E & IH1 & IH2)]; [left|right]; split_and!; try done.
    + intros b [->|Hb]%elem_of_cons; [lia|auto].
    + set_solver.
    + intros b [->|Hb]%elem_of_cons ?; [lia|auto].
Qed.

Lemma first_above_other (R R' : gmap Z vm_region_s) addr l :
  (∀ b, b ∈ l → R' !! b = R !! b) → first_above R' addr l = first_above R addr l.
Proof.
  intros HR. unfold first_above. f_equal. induction l as [|a l IH]; [done|].
  assert (R' !!! a = R !!! a) as Ea by (by rewrite !lookup_total_alt, HR by set_solver).
  specialize (IH (λ b Hb, HR b (list_elem_of_further _ _ _ Hb))). destruct (decide (above R addr a)).
  - rewrite !filter_cons_True; [by rewrite IH|done|]. unfold above in *. by rewrite Ea.
  - rewrite !filter_cons_False; [done|done|]. unfold above in *. by rewrite Ea.
Qed.

(** ** Search in the tree *)

Section search.
Context (o : gmap Z rb_node) (v : vmm_s) (addr : Z).
#[local] Abbreviation RG := (regions v).
#[local] Abbreviation TR := (regions_tree v).

(** The place of an address: what is on the left ends at or below it, what is on the right
    above. *)
Definition place (k : list frame) : Prop :=
  Forall (λ a, ¬ above RG addr a) (before k) ∧ Forall (above RG addr) (after k).

(** The parts of the sequence around a node are below and above it. *)
Lemma around k a c l r :
  Forall (region_ok RG) (inorder (plug k (T a c l r))) →
  StronglySorted (below RG) (inorder (plug k (T a c l r))) →
  region_ok RG a ∧ Forall (λ b, vm_end (RG !!! b) ≤ vm_begin (RG !!! a)) (inorder l) ∧
  Forall (λ b, vm_end (RG !!! a) < vm_end (RG !!! b)) (inorder r).
Proof.
  rewrite inorder_plug. cbn [inorder]. intros Hok Hs.
  apply Forall_app in Hok as [_ [[_ [Ha Hr]%Forall_cons]%Forall_app _]%Forall_app].
  apply StronglySorted_app_1_r, StronglySorted_app_1_l in Hs. apply StronglySorted_app in Hs as (Hl & _ & Hs).
  apply StronglySorted_cons in Hs as [Hs _]. split; [done|]. split.
  - apply Forall_forall. intros b Hb. apply Hl; [done|]. left.
  - rewrite Forall_forall in *. intros b Hb. specialize (Hs b Hb). destruct (Hr b Hb) as (_ & ? & _).
    unfold below in Hs. lia.
Qed.

(** One step of a search. *)
Lemma place_left k a c r :
  place k → above RG addr a → Forall (λ b, vm_end (RG !!! a) < vm_end (RG !!! b)) (inorder r) →
  place (Frame L a c r :: k).
Proof.
  intros [Hb Ha] H1 H2. split; [done|]. cbn. constructor; [done|]. apply Forall_app. split; [|done].
  eapply Forall_impl; [exact H2|]. unfold above in *. cbn. lia.
Qed.

Lemma place_right k a c l :
  place k → ¬ above RG addr a → region_ok RG a →
  Forall (λ b, vm_end (RG !!! b) ≤ vm_begin (RG !!! a)) (inorder l) →
  place (Frame R a c l :: k).
Proof.
  intros [Hb Ha] H1 (_ & H3 & _) H2. split; [|done]. cbn. apply Forall_app. split; [done|].
  apply Forall_app. split; [|by constructor].
  eapply Forall_impl; [exact H2|]. unfold above in *. cbn. lia.
Qed.

Lemma first_above_left k a c l r :
  place k → above RG addr a → vm_begin (RG !!! a) ≤ addr →
  Forall (λ b, vm_end (RG !!! b) ≤ vm_begin (RG !!! a)) (inorder l) →
  first_above RG addr (inorder (plug k (T a c l r))) = a.
Proof.
  intros [Hb _] Ha Hle Hl. unfold first_above. rewrite inorder_plug. cbn [inorder].
  rewrite !filter_app, (filter_none _ _ Hb), (filter_none _ (inorder l)).
  - by rewrite filter_cons_True.
  - eapply Forall_impl; [exact Hl|]. unfold above. cbn. lia.
Qed.

Lemma first_above_hole k : place k → first_above RG addr (inorder (plug k E)) = hd 0 (after k).
Proof.
  intros [Hb Ha]. unfold first_above. rewrite inorder_plug. cbn [inorder app].
  by rewrite filter_app, (filter_none _ _ Hb), (filter_all _ _ Ha).
Qed.

Lemma find_loop_ok fuel k t :
  is_tree o TR (plug k t) → Forall (region_ok RG) (inorder (plug k t)) →
  StronglySorted (below RG) (inorder (plug k t)) → place k → (height t < fuel)%nat →
  find_loop fuel v (ptr t) addr (hd 0 (after k)) =
    Some (first_above RG addr (inorder (plug k t))).
Proof.
  revert fuel k. induction t as [|a c l IHl r IHr]; intros [|fuel] k Ht Hok Hs Hk Hf; cbn [height] in Hf; try lia.
  - cbn [find_loop ptr]. by rewrite first_above_hole.
  - cbn [find_loop ptr]. destruct (focus_good _ _ _ _ _ _ _ Ht) as [Ha0 _]. rewrite (proj2 (Z.eqb_neq a 0)) by done.
    destruct (around _ _ _ _ _ Hok Hs) as (Ha & Hl & Hr). rewrite (region_lookup _ _ Ha). cbn [mbind option_bind].
    rewrite (focus_get _ _ _ _ _ _ _ Ht). cbn [mbind option_bind node_of rb_left rb_right].
    destruct (Z.ltb_spec addr (vm_end (RG !!! a))) as [Hlt|Hge].
    + destruct (Z.leb_spec (vm_begin (RG !!! a)) addr); [by rewrite first_above_left|].
      apply (IHl fuel (Frame L a c r :: k)); try done; [|lia]. by apply place_left.
    + apply (IHr fuel (Frame R a c l :: k)); try done; [|lia].
      apply place_right; [done|unfold above; lia|done|done].
Qed.

(** The outcome of [vm_region_find_prepare]: a region that holds the address, or the free place
    where a region that starts there belongs. *)
Definition hole_found (k : list frame) : found :=
  Found (hd 0 (after k)) (List.last (before k) 0) (hole_ref k) (top 0 k).

Definition prepared (t : tree) (f : found) : Prop :=
  (f_vma f ∈ inorder t ∧ vm_begin (RG !!! f_vma f) ≤ addr < vm_end (RG !!! f_vma f)) ∨
  (∃ k, t = plug k E ∧ place k ∧ f = hole_found k ∧
     Forall (λ a, addr < vm_begin (RG !!! a)) (after k)).

Lemma load_hole k t : is_tree o TR (plug k t) → load_ref (hole_ref k) TR = Some (ptr t).
Proof.
  intros Ht. destruct k as [|[[] a c sib] k]; cbn [hole_ref load_ref plug] in *.
  - by rewrite (it_root _ _ _ Ht).
  - by rewrite (mk_get _ _ _ _ _ _ _ _ Ht).
  - by rewrite (mk_get _ _ _ _ _ _ _ _ Ht).
Qed.

Lemma prepare_loop_ok fuel k t :
  is_tree o TR (plug k t) → Forall (region_ok RG) (inorder (plug k t)) →
  StronglySorted (below RG) (inorder (plug k t)) → place k →
  Forall (λ a, addr < vm_begin (RG !!! a)) (after k) → (height t < fuel)%nat →
  ∃ f, prepare_loop fuel v addr (hole_found k) = Some f ∧ prepared (plug k t) f.
Proof.
  revert fuel k. induction t as [|a c l IHl r IHr]; intros [|fuel] k Ht Hok Hs Hk Hb Hf; cbn [height] in Hf; try lia;
    cbn [prepare_loop hole_found f_link]; rewrite (load_hole _ _ Ht); cbn [mbind option_bind ptr].
  - exists (hole_found k). split; [done|]. right. by exists k.
  - destruct (focus_good _ _ _ _ _ _ _ Ht) as [Ha0 _]. rewrite (proj2 (Z.eqb_neq a 0)) by done.
    destruct (around _ _ _ _ _ Hok Hs) as (Ha & Hl & Hr). rewrite (region_lookup _ _ Ha). cbn [mbind option_bind].
    assert (a ∈ inorder (plug k (T a c l r))) as Hin by (rewrite inorder_plug; cbn; set_solver).
    destruct (Z.ltb_spec addr (vm_end (RG !!! a))) as [Hlt|Hge].
    + destruct (Z.leb_spec (vm_begin (RG !!! a)) addr).
      { eexists. split; [done|]. left. split; [done|]. cbn. lia. }
      apply (IHl fuel (Frame L a c r :: k)); try done; [by apply place_left| |lia].
      cbn. constructor; [done|]. apply Forall_app. split; [|done].
      rewrite inorder_plug in Hs. cbn in Hs. apply StronglySorted_app_1_r, StronglySorted_app_1_l in Hs.
      apply StronglySorted_app in Hs as (_ & _ & Hs). apply StronglySorted_cons in Hs as [Hs _].
      eapply Forall_impl; [exact Hs|]. unfold below. destruct Ha as (_ & ? & _). lia.
    + destruct (IHr fuel (Frame R a c l :: k)) as (f & E & Hp); try done; [|lia|].
      { apply place_right; [done|unfold above; lia|done|done]. }
      exists f. split; [|done]. rewrite <- E. f_equal. unfold hole_found. cbn. by rewrite app_assoc, List.last_last.
Qed.
End search.

(** ** The searches, on an address space *)

Lemma sorted_parts v l : vmm_ok v l → ∃ o t, is_tree o (regions_tree v) t ∧ balanced t ∧ inorder t = l ∧
  (height t < rb_fuel (regions_tree v))%nat.
Proof.
  intros [[(o & t & Ht & Hb & El) _] _ _]. exists o, t. split_and!; try done.
  pose proof (is_tree_size _ _ _ Ht). unfold rb_fuel.
  enough (height t ≤ length (inorder t))%nat by lia.
  clear. induction t as [|a c l IHl r IHr]; cbn; [lia|]. rewrite length_app. cbn. lia.
Qed.

Lemma place_nil v addr : place v addr [].
Proof. by split. Qed.

Lemma vm_region_find_ok v l addr :
  vmm_ok v l → vm_region_find v addr = Some (first_above (regions v) addr l).
Proof.
  intros Hv. destruct (sorted_parts v l Hv) as (o & t & Ht & _ & <- & Hh). destruct Hv as [_ Hok Hs].
  unfold vm_region_find. rewrite (it_root _ _ _ Ht).
  exact (find_loop_ok o v addr _ [] t Ht Hok Hs (place_nil v addr) Hh).
Qed.

Lemma vm_region_find_prepare_ok v l addr :
  vmm_ok v l → ∃ o t f, is_tree o (regions_tree v) t ∧ balanced t ∧ inorder t = l ∧
    vm_region_find_prepare v addr = Some f ∧ prepared v addr t f.
Proof.
  intros Hv. destruct (sorted_parts v l Hv) as (o & t & Ht & Hb & <- & Hh). destruct Hv as [_ Hok Hs].
  destruct (prepare_loop_ok o v addr (rb_fuel (regions_tree v)) [] t Ht Hok Hs (place_nil v addr)) as (f & E & Hf); [done|done|].
  exists o, t, f. done.
Qed.

Lemma olist_fuel (h : gmap lnode (list_entry lnode)) r l : olist h r l → (length l ≤ size h)%nat.
Proof.
  intros Hd. rewrite <- (length_fmap Obj), <- (size_dom (D := gset lnode)).
  rewrite <- (size_list_to_set (C := gset lnode) (Obj <$> l)).
  - apply subseteq_size. intros k. rewrite elem_of_list_to_set, elem_of_dom. intros Hk.
    eapply (dlist_mem h (Root r) (Obj <$> l)); [done|]. by right.
  - by apply dlist_NoDup in Hd.
Qed.

(** The search on the list finds the same region as the search in the tree. *)
Lemma vm_region_find_list_ok v l addr :
  vmm_ok v l →
  vm_region_find_list v addr =
    Some (let a := first_above (regions v) addr l in (if a =? 0 then v else with_last_region v a, a)).
Proof.
  intros [[(o & t & Ht & _ & El) Hl] Hok _]. unfold vm_region_find_list.
  pose proof (list_foreach_search (λ st : vmm_s * Z, regions_list (fst st)) (find_list_body addr) (Root 0)
    (λ k, match k with Obj i => addr <? vm_end (regions v !!! i) | Root _ => false end)
    (λ k, match k with Obj i => (with_last_region v i, i) | Root _ => (v, 0) end) (Obj <$> l) (v, 0)) as E.
  eapply list_foreach_fuel; [rewrite E|].
  - f_equal. assert (Forall good l) as Hg by (rewrite <- El; apply (it_good _ _ _ Ht)). clear - Hg.
    unfold first_above. induction l as [|a l IH]; [done|]. apply Forall_cons in Hg as [[Ha _] Hg].
    cbn [fmap list_fmap list_find]. destruct (Z.ltb_spec addr (vm_end (regions v !!! a))) as [Hlt|Hge].
    + rewrite decide_True by done. rewrite filter_cons_True by done. cbn. by rewrite (proj2 (Z.eqb_neq a 0)).
    + rewrite decide_False by (intros []). rewrite filter_cons_False by (unfold above; lia).
      rewrite <- IH by done. change (list_fmap Z lnode Obj l) with (Obj <$> l).
      match goal with |- context [list_find ?P (Obj <$> l)] => by destruct (list_find P (Obj <$> l)) as [[? []]|] end.
  - done.
  - intros k (i & -> & Hi)%list_elem_of_fmap. cbn. rewrite Forall_forall in Hok.
    rewrite (region_lookup _ _ (Hok i Hi)). cbn. by destruct (addr <? _).
  - rewrite length_fmap. apply le_n_S. by eapply olist_fuel.
Qed.

(** ** Attachment *)

Lemma olist_add_pred (h : gmap lnode (list_entry lnode)) r l1 i l2 e :
  olist h r (l1 ++ i :: l2) → e ∉ l1 ++ i :: l2 → is_Some (h !! Obj e) →
  ∃ h', list_add_last h (At (Obj i)) (At (Obj e)) = Some h' ∧ olist h' r (l1 ++ e :: i :: l2).
Proof.
  unfold olist. rewrite !fmap_app, !fmap_cons. intros Hd He Hh.
  destruct (exists_last (l := Root r :: (Obj <$> l1))) as (c1 & a & E1); [done|].
  assert (Root r :: ((Obj <$> l1) ++ Obj i :: (Obj <$> l2)) ++ [Root r] =
    c1 ++ a :: Obj i :: ((Obj <$> l2) ++ [Root r])) as Er.
  { rewrite <- app_assoc. cbn. change (Root r :: (Obj <$> l1) ++ ?x) with ((Root r :: (Obj <$> l1)) ++ x).
    by rewrite E1, <- app_assoc. }
  assert (rd_pred h (At (Obj i)) = Some (At a)) as Ea.
  { destruct Hd as [_ Hp]. rewrite Er, path_app2 in Hp. naive_solver. }
  destruct (ring_insert h _ _ c1 a (Obj i) _ (Obj e) Hd Er) as (h' & E' & Hp & _); [|done|].
  { intros [?|Hin]%elem_of_cons; [done|]. apply He. rewrite !elem_of_app, !elem_of_cons in *.
    rewrite !elem_of_Obj in Hin. naive_solver. }
  exists h'. unfold list_add_last. rewrite Ea. cbn [mbind option_bind]. split; [done|]. split.
  - destruct Hd as [Hn _]. rewrite <- fmap_cons, <- fmap_app in Hn.
    apply NoDup_cons in Hn as [_ Hn]. apply NoDup_fmap_1 in Hn.
    change (Obj e :: Obj i :: (Obj <$> l2)) with (Obj <$> e :: i :: l2). rewrite <- fmap_app.
    apply NoDup_cons. split; [apply Root_not_Obj|]. apply NoDup_fmap_2; [apply _|].
    rewrite <- Permutation_middle. apply NoDup_cons. done.
  - replace (Root r :: _ ++ [Root r]) with (c1 ++ a :: Obj e :: Obj i :: ((Obj <$> l2) ++ [Root r])); [done|].
    change (Root r :: ((Obj <$> l1) ++ ?x) ++ ?y) with (((Root r :: (Obj <$> l1)) ++ x) ++ y).
    by rewrite E1, <- !app_assoc.
Qed.

(** The new region goes before the first region above it, or last. *)
Definition list_place (k : list frame) (a : Z) (v : vmm_s) : option vmm_s :=
  if hd 0 (after k) =? 0 then add_last a v else add_pred (hd 0 (after k)) a v.

Lemma list_place_ok v k a :
  olist (regions_list v) 0 (before k ++ after k) → Forall good (after k) →
  a ∉ before k ++ after k → is_Some (regions_list v !! Obj a) →
  ∃ h, list_place k a v = Some (with_list v h) ∧ olist h 0 (before k ++ a :: after k).
Proof.
  intros Hl Hg Ha Hc. unfold list_place. destruct (after k) as [|b l2]; cbn [hd].
  - rewrite app_nil_r in *. destruct (olist_add_last _ _ _ _ Hl Ha Hc) as (h & E & Hl' & _).
    exists h. unfold add_last. rewrite Z.eqb_refl. by rewrite E.
  - apply Forall_cons in Hg as [[Hb _] _]. rewrite (proj2 (Z.eqb_neq b 0)) by done.
    destruct (olist_add_pred _ _ _ _ _ _ Hl Ha Hc) as (h & E & Hl').
    exists h. unfold add_pred. by rewrite E.
Qed.

Lemma tree_place_ok o v k a :
  is_tree o (regions_tree v) (plug k E) → balanced (plug k E) → good a → a ∉ before k ++ after k →
  is_Some (nodes (regions_tree v) !! a) →
  ∃ s t, __vma_link_rb v a (hole_found k) = Some (with_tree v s) ∧
    is_tree o s t ∧ balanced t ∧ inorder t = before k ++ a :: after k.
Proof.
  intros Ht Hb Hg Ha Hn. destruct (rb_insert_ok o (regions_tree v) k a Ht Hb Hg) as (s & t & E & H1 & H2 & H3); [|done|].
  { by rewrite inorder_plug. }
  exists s, t. unfold __vma_link_rb. cbn [f_parent f_link hole_found].
  destruct (rb_link_node _ _ _ _) as [s1|]; [|done]. cbn [mbind option_bind] in *. by rewrite E.
Qed.

(** Changing a descriptor that is not attached keeps the invariant. *)
Lemma region_ok_other (R R' : gmap Z vm_region_s) (l : list Z) :
  (∀ b, b ∈ l → R' !! b = R !! b) → Forall (region_ok R) l → Forall (region_ok R') l.
Proof.
  intros HR Hl. rewrite Forall_forall in *. intros b Hb. destruct (Hl b Hb) as (H1 & H2 & H3).
  unfold region_ok. rewrite !lookup_total_alt, (HR b Hb), <- !lookup_total_alt. done.
Qed.

Lemma sorted_other (R R' : gmap Z vm_region_s) (l : list Z) :
  (∀ b, b ∈ l → R' !! b = R !! b) → StronglySorted (below R) l → StronglySorted (below R') l.
Proof.
  intros HR Hs. induction Hs as [|a l Hs IH Ha]; [constructor|]. constructor; [apply IH; set_solver|].
  rewrite Forall_forall in *. intros b Hb. unfold below. rewrite !lookup_total_alt, !HR by set_solver.
  rewrite <- !lookup_total_alt. by apply Ha.
Qed.

(** A region that is disjoint from the others fits between its neighbours. *)
Lemma sorted_insert (R : gmap Z vm_region_s) l1 a l2 :
  StronglySorted (below R) (l1 ++ l2) → Forall (λ b, below R b a) l1 → Forall (below R a) l2 →
  StronglySorted (below R) (l1 ++ a :: l2).
Proof.
  intros (H1 & H2 & H3)%StronglySorted_app Hl Hr. rewrite Forall_forall in Hl. apply StronglySorted_app.
  split; [|split; [done|by constructor]]. intros x y Hx [->|Hy]%elem_of_cons; auto.
Qed.

Lemma sorted_delete (R : gmap Z vm_region_s) l1 a l2 :
  StronglySorted (below R) (l1 ++ a :: l2) → StronglySorted (below R) (l1 ++ l2).
Proof.
  intros (H1 & H2 & [_ H3]%StronglySorted_cons)%StronglySorted_app. apply StronglySorted_app.
  split; [|done]. intros x y Hx Hy. apply H1; [done|by right].
Qed.

Lemma after_head (R : gmap Z vm_region_s) k b :
  StronglySorted (below R) (before k ++ after k) → Forall (region_ok R) (after k) →
  hd 0 (after k) = b → b ≠ 0 →
  b ∈ after k ∧ ∀ x, x ∈ after k → vm_begin (R !!! b) ≤ vm_begin (R !!! x).
Proof.
  intros Hs Hok Hb Hb0. apply StronglySorted_app_1_r in Hs. destruct (after k) as [|c l]; cbn in Hb; [done|].
  subst c. split; [left|]. apply StronglySorted_cons in Hs as [Hs _]. apply Forall_cons in Hok as [(_ & ? & _) _].
  intros x [->|Hx]%elem_of_cons; [done|]. rewrite Forall_forall in Hs. specialize (Hs x Hx). unfold below in Hs. lia.
Qed.

(** What an attached region looks like, between the regions below and above it. *)
Definition attached (v v' : vmm_s) (l : list Z) (a : Z) (rg : vm_region_s) (l1 l2 : list Z) : Prop :=
  l = l1 ++ l2 ∧ linked v' (l1 ++ a :: l2) ∧ regions v' = <[a := rg]> (regions v) ∧
  last_mmap v' = vm_begin rg ∧ Forall (λ b, vm_end (regions v !!! b) ≤ vm_begin rg) l1.

Lemma attach_fixed_ok v l a rg :
  vmm_ok v l → detached v l a → regions v !! a = Some rg → flag (vm_flags rg) VM_REG_FIXED = true →
  ∃ v' err, vm_region_attach v a = Some (v', err) ∧
    ((err = EEXIST ∧ v' = v ∧
      ∃ b, b ∈ l ∧ vm_begin (regions v !!! b) ≤ vm_begin rg < vm_end (regions v !!! b)) ∨
     (err = 0 ∧ ∃ l1 l2, attached v v' l a rg l1 l2 ∧
        Forall (λ b, vm_begin rg < vm_begin (regions v !!! b)) l2)).
Proof.
  intros Hv Hd Ea Hfix. unfold vm_region_attach, vm_region_attach_rbtree. rewrite Ea. cbn [mbind option_bind].
  rewrite Hfix. destruct (vm_region_find_prepare_ok v l (vm_begin rg) Hv) as (o & t & f & Ht & Hb & El & -> & Hf).
  cbn [mbind option_bind]. destruct Hv as [[_ Hl] Hok Hs]. destruct Hd as [Hn Hg Hnode Hcell _].
  destruct Hf as [[Hin Hr]|(k & -> & [Hkb Hka] & -> & Hkg)].
  - rewrite El in Hin. rewrite Forall_forall in Hok.
    assert (f_vma f ≠ 0) as H0.
    { pose proof (it_good _ _ _ Ht) as Hgt. rewrite El, Forall_forall in Hgt. by apply Hgt. }
    rewrite (proj2 (Z.eqb_neq _ 0)), (region_lookup _ _ (Hok _ Hin)) by done. cbn [mbind option_bind].
    rewrite (proj2 (Z.leb_le _ _)) by lia. cbn [mbind option_bind ctrue]. exists v, EEXIST. split; [done|].
    left. split; [done|]. split; [done|]. by exists (f_vma f).
  - assert (before k ++ after k = l) as El' by (rewrite <- El, inorder_plug; done).
    assert (Forall good (after k)) as Hga.
    { pose proof (it_good _ _ _ Ht) as Hgt. rewrite inorder_plug in Hgt. by apply Forall_app in Hgt as [_ Hgt]. }
    assert ((if f_vma (hole_found k) =? 0 then Some false
      else r ← regions v !! f_vma (hole_found k); Some (vm_begin r <=? vm_begin rg)) = Some false) as ->.
    { cbn [f_vma hole_found]. destruct (after k) as [|b la] eqn:Eb; [done|]. cbn [hd].
      apply Forall_cons in Hga as [[Hb0 _] _]. rewrite (proj2 (Z.eqb_neq b 0)) by done.
      rewrite Forall_forall in Hok. rewrite (region_lookup _ _ (Hok b ltac:(rewrite <- El'; set_solver))). cbn [mbind option_bind].
      apply Forall_cons in Hkg as [Hkg _]. by rewrite (proj2 (Z.leb_gt _ _)). }
    cbn [mbind option_bind]. rewrite <- El' in Hl, Hn.
    destruct (list_place_ok v k a Hl Hga Hn Hcell) as (h & E1 & Hl1). unfold list_place in E1.
    cbn [f_vma hole_found]. rewrite E1. cbn [mbind option_bind].
    destruct (tree_place_ok o (with_list v h) k a Ht Hb Hg Hn Hnode) as (s & t' & -> & H1 & H2 & H3).
    cbn [mbind option_bind ctrue Z.eqb negb with_tree with_list regions]. rewrite Ea. cbn [mbind option_bind].
    eexists _, 0. split; [done|]. right. split; [done|]. exists (before k), (after k). split; [|done].
    split; [done|]. split; [split; [by exists o, t'|done]|]. cbn. rewrite insert_id by done. split; [done|]. split; [done|].
    eapply Forall_impl; [exact Hkb|]. unfold above. lia.
Qed.

(** ** Placement by the kernel *)

Lemma filter_shorter {A} (P Q : A → Prop) `{∀ x, Decision (P x)} `{∀ x, Decision (Q x)} l x :
  (∀ y, Q y → P y) → x ∈ l → P x → ¬ Q x → (length (filter Q l) < length (filter P l))%nat.
Proof.
  intros HQP Hx HP HQ. induction l as [|y l IH]; [by apply elem_of_nil in Hx|].
  assert (length (filter Q l) ≤ length (filter P l))%nat as Hle.
  { clear - HQP. induction l as [|z l IH]; [done|]. rewrite !filter_cons.
    destruct (decide (Q z)), (decide (P z)); cbn; try lia. naive_solver. }
  rewrite !filter_cons. apply elem_of_cons in Hx as [<-|Hx].
  - destruct (decide (Q x)), (decide (P x)); cbn; (done || lia).
  - specialize (IH Hx). destruct (decide (Q y)), (decide (P y)); cbn; try lia. naive_solver.
Qed.

(** A start is blocked by a region when the range that starts there would not end before it. *)
Definition blocked (R : gmap Z vm_region_s) (l : list Z) (size x : Z) : Prop :=
  ∃ b, b ∈ l ∧ x < vm_end (R !!! b) ∧ vm_begin (R !!! b) ≤ x + size.

Lemma solve_loop_ok v l size limit fuel start last :
  vmm_ok v l → 0 < size ≤ CONFIG_USR_LIMIT → limit = CONFIG_USR_LIMIT - size → 0 ≤ start →
  (length (filter (above (regions v) start) l) < fuel)%nat →
  ∃ start' last', solve_loop fuel v size limit start last = Some (start', last') ∧ start ≤ start' ∧
    (∀ x, start ≤ x < start' → x ≤ limit → blocked (regions v) l size x) ∧
    (limit < start' ∨
     start' ≤ limit ∧ ∃ o k, last' = Some (hole_found k) ∧ is_tree o (regions_tree v) (plug k E) ∧
       balanced (plug k E) ∧ inorder (plug k E) = l ∧ place v start' k ∧
       Forall (λ b, start' + size < vm_begin (regions v !!! b)) (after k)).
Proof.
  intros Hv Hsize Hlim. revert start last. induction fuel as [|fuel IH]; intros start last H0 Hf; [lia|].
  cbn [solve_loop]. destruct (Z.leb_spec start limit) as [Hle|Hgt]; cbn [negb]; [|eexists _, _; split; [done|]; split; [done|]; split; [lia|by left]].
  destruct (vm_region_find_prepare_ok v l start Hv) as (o & t & f & Ht & Hb & El & -> & Hf').
  cbn [mbind option_bind].
  assert (∀ b, b ∈ l → b ≠ 0 ∧ region_ok (regions v) b) as Hall.
  { intros b Hbl. pose proof (it_good _ _ _ Ht) as Hg. rewrite El, Forall_forall in Hg. split; [by apply Hg|].
    pose proof (vo_regions _ _ Hv) as Hok. rewrite Forall_forall in Hok. auto. }
  assert (∀ b, b ∈ l → start < vm_end (regions v !!! b) → vm_begin (regions v !!! b) ≤ start + size →
    ∃ start' last', solve_loop fuel v size limit (vm_end (regions v !!! b)) (Some f) = Some (start', last') ∧ start ≤ start' ∧
    (∀ x, start ≤ x < start' → x ≤ limit → blocked (regions v) l size x) ∧
    (limit < start' ∨
     start' ≤ limit ∧ ∃ o k, last' = Some (hole_found k) ∧ is_tree o (regions_tree v) (plug k E) ∧
       balanced (plug k E) ∧ inorder (plug k E) = l ∧ place v start' k ∧
       Forall (λ b, start' + size < vm_begin (regions v !!! b)) (after k))) as Hgo.
  { intros b Hbl Hend Hbeg.
    destruct (IH (vm_end (regions v !!! b)) (Some f)) as (start' & last' & E & Hs & Hx & Hr); [lia| |].
    - enough (length (filter (above (regions v) (vm_end (regions v !!! b))) l) <
        length (filter (above (regions v) start) l))%nat by lia.
      apply (filter_shorter _ _ l b); [|done|done|]; unfold above; [|lia].
      intros y Hy. lia.
    - exists start', last'. split_and!; try done; [lia|]. intros x Hxs Hxl.
      destruct (Z.le_gt_cases (vm_end (regions v !!! b)) x); [apply Hx; lia|]. exists b. split_and!; [done|lia|lia]. }
  destruct Hf' as [[Hin Hr]|(k & -> & Hk & -> & Hkg)].
  - rewrite El in Hin. destruct (Hall _ Hin) as [Hf0 Hok]. rewrite (proj2 (Z.eqb_neq _ 0)), (region_lookup _ _ Hok) by done.
    cbn [mbind option_bind]. rewrite u32_small by (unfold wsize, CONFIG_USR_LIMIT in *; lia).
    rewrite (proj2 (Z.ltb_ge _ _)) by lia. apply Hgo; [done|lia|lia].
  - cbn [f_vma hole_found]. pose proof (vo_sorted _ _ Hv) as Hs. rewrite <- El, inorder_plug in Hs. cbn in Hs.
    assert (∀ b, b ∈ after k → b ∈ l) as Hal by (intros b Hbk; rewrite <- El, inorder_plug; set_solver).
    destruct (Z.eqb_spec (hd 0 (after k)) 0) as [Eh|Eh].
    + eexists _, _. split; [done|]. split; [done|]. split; [lia|]. right. split; [done|]. exists o, k.
      split_and!; try done. destruct (after k) as [|b la]; [done|]. cbn in Eh. subst b. by destruct (Hall 0 ltac:(set_solver)).
    + destruct (after_head (regions v) k (hd 0 (after k)) Hs) as [Hin Hmin]; [|done|done|].
      { apply Forall_forall. intros b Hbk. apply Hall. auto. }
      destruct (Hall _ (Hal _ Hin)) as [_ Hok]. rewrite (region_lookup _ _ Hok). cbn [mbind option_bind].
      rewrite u32_small by (unfold wsize, CONFIG_USR_LIMIT in *; lia).
      destruct (Z.ltb_spec (start + size) (vm_begin (regions v !!! hd 0 (after k)))) as [Hlt|Hge].
      * eexists _, _. split; [done|]. split; [done|]. split; [lia|]. right. split; [done|]. exists o, k.
        split_and!; try done. apply Forall_forall. intros b Hbk. specialize (Hmin b Hbk). lia.
      * apply Hgo; [auto| |done]. destruct Hk as [_ Hka]. rewrite Forall_forall in Hka. by apply Hka.
Qed.

Lemma filter_fuel v l addr : vmm_ok v l →
  (length (filter (above (regions v) addr) l) < rb_fuel (regions_tree v))%nat.
Proof.
  intros [[(o & t & Ht & _ & El) _] _ _]. pose proof (is_tree_size _ _ _ Ht) as Hs. rewrite El in Hs.
  pose proof (length_filter (above (regions v) addr) l). unfold rb_fuel. lia.
Qed.

(** The descriptor of a placed region. *)
Definition placed (rg : vm_region_s) (start : Z) : vm_region_s :=
  Region start (start + vm_end rg) start (u32 (vm_limit rg + start))
    (vm_prot rg) (vm_pgprot rg) (vm_flags rg) (vm_offset rg) (vm_refcount rg).

Lemma attach_solve_ok v l a rg :
  vmm_ok v l → detached v l a → regions v !! a = Some rg → flag (vm_flags rg) VM_REG_FIXED = false →
  0 < vm_end rg ≤ CONFIG_USR_LIMIT → 0 ≤ last_mmap v →
  ∃ v' err, vm_region_attach v a = Some (v', err) ∧
    ((err = ENOMEM ∧ v' = v ∧
      ∀ x, last_mmap v ≤ x ≤ CONFIG_USR_LIMIT - vm_end rg → blocked (regions v) l (vm_end rg) x) ∨
     (err = 0 ∧ ∃ l1 l2 start, attached v v' l a (placed rg start) l1 l2 ∧
        last_mmap v ≤ start ∧ start + vm_end rg ≤ CONFIG_USR_LIMIT ∧
        Forall (λ b, start + vm_end rg < vm_begin (regions v !!! b)) l2 ∧
        ∀ x, last_mmap v ≤ x < start → blocked (regions v) l (vm_end rg) x)).
Proof.
  intros Hv Hd Ea Hfix Hsize Hlast. unfold vm_region_attach, vm_region_attach_rbtree. rewrite Ea. cbn [mbind option_bind].
  rewrite Hfix. unfold vm_region_solve. rewrite Ea. cbn [mbind option_bind].
  rewrite (u32_small (CONFIG_USR_LIMIT - vm_end rg)) by (unfold wsize, CONFIG_USR_LIMIT in *; lia).
  destruct (solve_loop_ok v l (vm_end rg) _ (rb_fuel (regions_tree v)) (last_mmap v) None Hv Hsize eq_refl Hlast
    (filter_fuel v l _ Hv)) as (start & last & -> & Hst & Hbl & Hres). cbn [mbind option_bind].
  destruct Hres as [Hlt|(Hle & o & k & -> & Ht & Hb & El & Hk & Hka)].
  - rewrite (proj2 (Z.ltb_lt _ _)) by done. cbn [mbind option_bind ctrue]. exists v, ENOMEM. split; [done|].
    left. split; [done|]. split; [done|]. intros x Hx. apply Hbl; lia.
  - rewrite (proj2 (Z.ltb_ge _ _)) by done. rewrite (u32_small (start + vm_end rg)) by (unfold wsize, CONFIG_USR_LIMIT in *; lia).
    fold (placed rg start). cbn [mbind option_bind]. destruct Hv as [[_ Hl] Hok Hs]. destruct Hd as [Hn Hg Hnode Hcell _].
    rewrite inorder_plug in El. cbn in El. rewrite <- El in Hl, Hn, Hs, Hok.
    assert (Forall good (after k)) as Hga.
    { pose proof (it_good _ _ _ Ht) as Hgt. rewrite inorder_plug in Hgt. by apply Forall_app in Hgt as [_ Hgt]. }
    destruct (tree_place_ok o (with_region v a (placed rg start)) k a Ht Hb Hg Hn Hnode) as (s & t' & -> & H1 & H2 & H3).
    cbn [mbind option_bind]. set (v1 := with_tree _ s).
    destruct (list_place_ok v1 k a Hl Hga Hn Hcell) as (h & E1 & Hl1).
    assert ((if negb (f_vma (hole_found k) =? 0) then
       r ← regions v1 !! f_vma (hole_found k);
       if start <? vm_begin r then add_pred (f_vma (hole_found k)) a v1 else add_next (f_vma (hole_found k)) a v1
     else add_last a v1) = Some (with_list v1 h)) as ->.
    { rewrite <- E1. unfold list_place. cbn [f_vma hole_found]. destruct (after k) as [|b la] eqn:Eb; [done|]. cbn [hd].
      apply Forall_cons in Hga as [[Hb0 _] _]. rewrite (proj2 (Z.eqb_neq b 0)) by done. cbn [negb].
      assert (b ≠ a) by set_solver. cbn [regions v1 with_tree with_region]. rewrite lookup_insert_ne by done.
      rewrite Forall_forall in Hok. rewrite (region_lookup _ _ (Hok b ltac:(set_solver))). cbn [mbind option_bind].
      apply Forall_cons in Hka as [Hka _]. by rewrite (proj2 (Z.ltb_lt _ _)) by lia. }
    cbn [mbind option_bind ctrue Z.eqb negb v1 with_tree with_list with_region regions]. rewrite lookup_insert_eq. cbn [mbind option_bind].
    eexists _, 0. split; [done|]. right. split; [done|]. exists (before k), (after k), start.
    split; [|split_and!; [done|lia|done|intros x Hx; apply Hbl; lia]].
    split; [done|]. split; [split; [by exists o, t'|done]|]. split; [done|]. split; [done|].
    destruct Hk as [Hkb _]. eapply Forall_impl; [exact Hkb|]. unfold above. cbn. lia.
Qed.

(** ** Detachment *)

Lemma detach_ok v l1 a l2 :
  vmm_ok v (l1 ++ a :: l2) →
  ∃ v', detach_links v a = Some v' ∧ vmm_ok v' (l1 ++ l2) ∧ detached v' (l1 ++ l2) a ∧
    regions v' = regions v ∧
    last_region v' = (if last_region v =? a then 0 else last_region v) ∧
    last_mmap v' =
      (if vm_end (regions v !!! a) <? last_mmap v then vm_begin (regions v !!! a) else last_mmap v).
Proof.
  intros [[(o & t & Ht & Hb & El) Hl] Hok Hs]. unfold detach_links.
  destruct (olist_unlink _ _ _ _ _ Hl) as (h & -> & Hl' & Hfr). cbn [mbind option_bind regions_tree with_list].
  destruct (rb_erase_ok o (regions_tree v) t a Ht Hb) as (s & t' & nd & m1 & m2 & -> & Ht' & Hb' & Em & Em');
    [rewrite El; set_solver|]. cbn [mbind option_bind].
  pose proof (it_nodup _ _ _ Ht) as Hn. rewrite El in Em, Hn. destruct (nodup_split _ _ _ _ _ Hn Em) as [<- <-].
  assert (region_ok (regions v) a) as Ha by (rewrite Forall_forall in Hok; apply Hok; set_solver).
  assert (regions (if last_region (with_tree (with_list v h) s) =? a then
      with_last_region (with_tree (with_list v h) s) 0 else with_tree (with_list v h) s) = regions v) as ER by (by case_match).
  rewrite ER, (region_lookup _ _ Ha). cbn [mbind option_bind]. eexists. split; [done|].
  set (v1 := if last_region _ =? a then _ else _). set (v2 := if _ <? last_mmap v1 then _ else _).
  assert (regions_tree v2 = s ∧ regions_list v2 = h ∧ regions v2 = regions v ∧ last_mmap v1 = last_mmap v) as (E1 & E2 & E3 & E4).
  { unfold v2, v1. by repeat case_match. }
  assert (a ∉ l1 ++ l2) as Han.
  { rewrite <- Permutation_middle in Hn. by apply NoDup_cons in Hn as [Hn _]. }
  assert (good a) as Hg by (pose proof (it_good _ _ _ Ht) as Hg; rewrite El, Forall_forall in Hg; apply Hg; set_solver).
  split; [|split; [|split_and!]].
  - split; unfold linked; rewrite ?E1, ?E2, ?E3.
    + split; [|done]. by exists (<[a := nd]> o), t'.
    + rewrite <- Permutation_middle in Hok. by apply Forall_cons in Hok as [_ Hok].
    + by eapply sorted_delete.
  - split; rewrite ?E1, ?E2, ?E3; try done.
    + rewrite (it_out _ _ _ Ht' a) by (by rewrite Em'). rewrite lookup_insert_eq. eauto.
    + apply (proj1 Hfr). eapply (dlist_mem _ (Root 0)); [exact Hl|]. right. rewrite elem_of_Obj. set_solver.
    + by destruct Ha as [Ha _].
  - done.
  - unfold v2, v1. cbn. by repeat case_match.
  - unfold v2, v1. repeat case_match; cbn in *; congruence.
Qed.
