(* ===== verification/VmSystem.v ===== *)
(** * Address spaces as a system

    The commands of a task on its address space, as the callers in src/kernel/mm/vmm.c issue
    them: a region is initialised and attached, where the kernel or where the task chooses, or
    detached.  Every sequence of commands keeps the address space well formed and none of them
    faults. *)

From stdpp Require Import sorting.
From S2P Require Import Prelude Clist Bits Rbtree RbtreeSpec RbtreeOps VmRegion VmSpace.

Open Scope Z_scope.

(** ** The operations of a task on its address space *)

(** The kernel chooses the address, or the caller does; a region is named by the address of its
    descriptor. *)
Inductive vm_cmd :=
  | Map (a length prot offset flags : Z)
  | MapAt (a addr length prot offset flags : Z)
  | Unmap (a : Z).

(** The descriptor is initialised and attached, or detached. *)
Definition vm_exec (c : vm_cmd) (v : vmm_s) : option (vmm_s * Z) :=
  match c with
  | Map a length prot offset flags =>
      vm_region_attach (with_region v a (vm_region_init 0 length prot offset flags)) a
  | MapAt a addr length prot offset flags =>
      vm_region_attach (with_region v a (vm_region_init addr (u32 (addr + length)) prot offset flags)) a
  | Unmap a => v ← detach_links v a; Some (v, 0)
  end.

(** What the callers respect: lengths are not zero and stay within the user space; a fixed
    range is free above its start (its start itself is tested by the code). *)
Definition admissible (v : vmm_s) (l : list Z) (c : vm_cmd) : Prop :=
  match c with
  | Map a length _ _ flags =>
      detached v l a ∧ 0 < length ≤ CONFIG_USR_LIMIT ∧
      flag flags VM_REG_HEAP = false ∧ flag flags VM_REG_FIXED = false
  | MapAt a addr length _ _ flags =>
      detached v l a ∧ 0 ≤ addr ∧ 0 < length ∧ addr + length ≤ CONFIG_USR_LIMIT ∧
      flag flags VM_REG_HEAP = false ∧ flag flags VM_REG_FIXED = true ∧
      let r := vm_region_init addr (addr + length) 0 0 flags in
      ∀ b, b ∈ l → vm_begin r < vm_begin (regions v !!! b) → vm_end r ≤ vm_begin (regions v !!! b)
  | Unmap a => a ∈ l
  end.

(** Steps: an admissible command, on the regions that are on the list. *)
Inductive vm_step (v : vmm_s) : vmm_s → Prop :=
  vm_step_intro l c v' err :
    olist (regions_list v) 0 l → admissible v l c → vm_exec c v = Some (v', err) → vm_step v v'.

Definition space_ok (v : vmm_s) : Prop := ∃ l, vmm_ok v l ∧ 0 ≤ last_mmap v.

(** ** Well-formedness *)

Lemma regsize_pow : Z.shiftl 1 CONFIG_VM_REGION_KEYWIDTH = 2 ^ 16.
Proof. done. Qed.

Lemma round_limit x : 0 < x ≤ CONFIG_USR_LIMIT → 0 < ARROUND_UP x (2 ^ 16) ≤ CONFIG_USR_LIMIT ∧ x ≤ ARROUND_UP x (2 ^ 16).
Proof.
  intros Hx. unfold CONFIG_USR_LIMIT in *. destruct (ARROUND_UP_spec x 16) as ([q Hq] & H1); [lia|lia|unfold wsize; lia|].
  split; [|lia]. split; [lia|]. rewrite Hq in *. assert (q ≤ 0x8000); lia.
Qed.

Lemma with_region_ok v l a r :
  vmm_ok v l → detached v l a → vmm_ok (with_region v a r) l ∧ detached (with_region v a r) l a.
Proof.
  intros [Hl Hok Hs] [Hn Hg Hnd Hc _].
  assert (∀ b, b ∈ l → regions (with_region v a r) !! b = regions v !! b) as HR.
  { intros b Hb. cbn. rewrite lookup_insert_ne; [done|]. intros ->. done. }
  split; [split; [done|by eapply region_ok_other|by eapply sorted_other]|].
  split; try done. cbn. rewrite lookup_insert_eq. eauto.
Qed.

(** A region attached between its neighbours extends the invariant. *)
Lemma attached_ok v v' l a rg l1 l2 :
  vmm_ok v l → a ∉ l → attached v v' l a rg l1 l2 → 0 ≤ vm_begin rg < vm_end rg → vm_end rg < wsize →
  Forall (λ b, vm_end rg ≤ vm_begin (regions v !!! b)) l2 → vmm_ok v' (l1 ++ a :: l2).
Proof.
  intros [_ Hok Hs] Hn (-> & Hl' & ER & _ & Hb1) Hr Hw Hb2.
  assert (∀ b, b ∈ l1 ++ l2 → regions v' !! b = regions v !! b) as HR.
  { intros b Hb. rewrite ER, lookup_insert_ne; [done|]. intros ->. done. }
  assert (∀ b, b ∈ l1 ++ l2 → regions v' !!! b = regions v !!! b) as HT.
  { intros b Hb. by rewrite !lookup_total_alt, HR. }
  assert (regions v' !!! a = rg) as Ea by (by rewrite lookup_total_alt, ER, lookup_insert_eq).
  split; [done| |].
  - pose proof (region_ok_other _ _ _ HR Hok) as Hok'. apply Forall_app in Hok' as [H1 H2]. apply Forall_app. split; [done|].
    constructor; [|done]. unfold region_ok. rewrite Ea, ER, lookup_insert_eq. split; [eauto|]. lia.
  - apply sorted_insert; [by eapply sorted_other|..]; rewrite Forall_forall in *; intros b Hb; unfold below;
      rewrite Ea, HT by set_solver; auto.
Qed.

(** The rounded bounds of an initialised region. *)
Lemma init_bounds start end_ prot offset flags :
  flag flags VM_REG_HEAP = false → 0 ≤ start < end_ → end_ ≤ CONFIG_USR_LIMIT →
  let r := vm_region_init start end_ prot offset flags in
  vm_flags r = flags ∧ 0 ≤ vm_begin r ≤ start ∧ end_ ≤ vm_end r ≤ CONFIG_USR_LIMIT.
Proof.
  intros Hh Hs He. unfold vm_region_init. rewrite Hh, regsize_pow.
  destruct (flag prot VM_REG_WR); cbn [vm_flags vm_begin vm_end]; split; try done;
    (split; [|pose proof (round_limit end_); lia]);
    (rewrite (ARROUND_DOWN_spec start 16) by (unfold CONFIG_USR_LIMIT, wsize in *; lia));
    pose proof (Z.mod_pos_bound start (2 ^ 16)); pose proof (Z.mod_le start (2 ^ 16)); lia.
Qed.

(** What a mapping placed by the kernel does. *)
Lemma map_cases v l a length prot offset flags :
  vmm_ok v l → 0 ≤ last_mmap v → admissible v l (Map a length prot offset flags) →
  let v0 := with_region v a (vm_region_init 0 length prot offset flags) in
  ∃ v' err, vm_exec (Map a length prot offset flags) v = Some (v', err) ∧
    (err = ENOMEM ∧ v' = v0 ∧ vmm_ok v0 l ∨
     err = 0 ∧ ∃ l1 l2 rg, l = l1 ++ l2 ∧ vmm_ok v' (l1 ++ a :: l2) ∧
       regions v' = <[a := rg]> (regions v) ∧ 0 ≤ last_mmap v').
Proof.
  intros Hv Hm (Hd & Hlen & Hh & Hf) v0. set (rg := vm_region_init 0 length prot offset flags) in v0.
  destruct (with_region_ok v l a rg Hv Hd) as [Hv1 Hd1].
  destruct (init_bounds 0 length prot offset flags) as (Efl & Hb & He); [done|lia|lia|]. fold rg in Efl, Hb, He.
  destruct (attach_solve_ok v0 l a rg) as (v' & err & Ex & Hc); [done|done|apply lookup_insert_eq|by rewrite Efl|lia|done|].
  exists v', err. split; [done|]. destruct Hc as [(-> & -> & _)|(-> & l1 & l2 & start & Hat & H1 & H2 & H3 & _)]; [by left|].
  right. split; [done|]. exists l1, l2, (placed rg start). pose proof Hat as (El & _ & ER & Em & _).
  cbn in *. split_and!; [done| |by rewrite ER, insert_insert_eq|lia].
  eapply attached_ok; [exact Hv1|by destruct Hd|exact Hat|cbn; lia|cbn; unfold CONFIG_USR_LIMIT, wsize in *; lia|].
  eapply Forall_impl; [exact H3|]. cbn. lia.
Qed.

Lemma map_ok v l a length prot offset flags :
  vmm_ok v l → 0 ≤ last_mmap v → admissible v l (Map a length prot offset flags) →
  ∃ v' err, vm_exec (Map a length prot offset flags) v = Some (v', err) ∧ space_ok v'.
Proof.
  intros Hv Hm Ha. destruct (map_cases v l a length prot offset flags Hv Hm Ha)
    as (v' & err & Ex & [(_ & -> & Hv')|(_ & l1 & l2 & rg & _ & Hv' & _ & Hm')]);
    exists v', err || (eexists _, err); (split; [exact Ex|]); eexists; split; try exact Hv'; done.
Qed.

Lemma init_same start end_ prot offset prot' offset' flags :
  vm_begin (vm_region_init start end_ prot offset flags) = vm_begin (vm_region_init start end_ prot' offset' flags) ∧
  vm_end (vm_region_init start end_ prot offset flags) = vm_end (vm_region_init start end_ prot' offset' flags).
Proof. unfold vm_region_init. by destruct (flag prot VM_REG_WR), (flag prot' VM_REG_WR). Qed.

Lemma map_at_ok v l a addr length prot offset flags :
  vmm_ok v l → 0 ≤ last_mmap v → admissible v l (MapAt a addr length prot offset flags) →
  ∃ v' err, vm_exec (MapAt a addr length prot offset flags) v = Some (v', err) ∧ space_ok v'.
Proof.
  intros Hv Hm (Hd & Ha & Hlen & Hlim & Hh & Hf & Hfree). cbn [vm_exec].
  rewrite (u32_small (addr + length)) by (unfold CONFIG_USR_LIMIT, wsize in *; lia).
  set (rg := vm_region_init addr (addr + length) prot offset flags).
  destruct (with_region_ok v l a rg Hv Hd) as [Hv1 Hd1].
  destruct (init_bounds addr (addr + length) prot offset flags) as (Efl & Hb & He); [done|lia|lia|]. fold rg in Efl, Hb, He.
  destruct (attach_fixed_ok (with_region v a rg) l a rg) as (v' & err & Ex & Hc); [done|done|apply lookup_insert_eq|by rewrite Efl|].
  exists v', err. split; [done|]. destruct Hc as [(-> & -> & _)|(-> & l1 & l2 & Hat & H2)]; [by exists l|].
  exists (l1 ++ a :: l2). split; [|destruct Hat as (_ & _ & _ & -> & _); cbn in *; lia].
  eapply attached_ok; [exact Hv1|by destruct Hd|exact Hat|lia|unfold CONFIG_USR_LIMIT, wsize in *; lia|].
  destruct Hat as (-> & _). destruct (init_same addr (addr + length) prot offset 0 0 flags) as [E1 E2]. fold rg in E1, E2.
  rewrite Forall_forall in H2 |- *. intros b Hb2. specialize (H2 b Hb2).
  assert (b ∈ l1 ++ l2) as Hbl by set_solver. specialize (Hfree b Hbl).
  assert (regions (with_region v a rg) !!! b = regions v !!! b) as Eb.
  { cbn. rewrite !lookup_total_alt, lookup_insert_ne; [done|]. intros ->. by destruct Hd. }
  rewrite Eb in H2 |- *. lia.
Qed.

Lemma unmap_ok v l a :
  vmm_ok v l → 0 ≤ last_mmap v → a ∈ l → ∃ v' err, vm_exec (Unmap a) v = Some (v', err) ∧ space_ok v'.
Proof.
  intros Hv Hm (l1 & l2 & ->)%list_elem_of_split. destruct (detach_ok v l1 a l2 Hv) as (v' & Ex & Hv' & _ & _ & _ & Em).
  exists v', 0. cbn [vm_exec]. rewrite Ex. split; [done|]. exists (l1 ++ l2). split; [done|]. rewrite Em.
  case_match; [|done]. destruct Hv as [_ Hok _]. rewrite Forall_forall in Hok. destruct (Hok a) as (_ & ? & _); [set_solver|lia].
Qed.

Lemma admissible_ok v l c :
  vmm_ok v l → 0 ≤ last_mmap v → admissible v l c → ∃ v' err, vm_exec c v = Some (v', err) ∧ space_ok v'.
Proof. destruct c; eauto using map_ok, map_at_ok, unmap_ok. Qed.

Lemma vm_step_ok v v' : space_ok v → vm_step v v' → space_ok v'.
Proof.
  intros (l & Hv & Hm) [l' c v1 err Hl' Ha Ex]. assert (l' = l) as ->.
  { destruct Hv as [[_ Hl] _ _]. by eapply olist_unique. }
  destruct (admissible_ok v l c Hv Hm Ha) as (v2 & err2 & E2 & H2). by simplify_eq.
Qed.

(** An address space without regions. *)
Record vm_empty (v : vmm_s) : Prop := VmEmpty {
  ve_root : rb_root (regions_tree v) = 0;
  ve_list : olist (regions_list v) 0 [];
  ve_mmap : 0 ≤ last_mmap v }.

Lemma vm_empty_ok v : vm_empty v → space_ok v.
Proof.
  intros [Hr Hl Hm]. exists []. split; [|done]. split; [|done|constructor]. split; [|done].
  exists (nodes (regions_tree v)), E. split_and!; [|exists O; constructor|done].
  split; try done; constructor.
Qed.

(** ** Results *)

(** C9. Whatever a task maps and unmaps, starting from an empty address space: the regions on the
    list are the regions in the balanced tree, in the order of their addresses, they are
    disjoint, and the next command does not fault.  The commands are the [admissible] ones: lengths
    are not zero and stay within the user space ([oversized_mapping_accepted] shows why), and a
    fixed range does not run over a region that begins above its start, which the code does not
    test ([fixed_overlap_accepted]); a fixed range whose start lies in a region may be tried and is
    refused. *)
Theorem vm_space_well_formed v0 v :
  vm_empty v0 → rtc vm_step v0 v →
  ∃ l, linked v l ∧ Forall (region_ok (regions v)) l ∧
    (∀ i j a b, (i < j)%nat → l !! i = Some a → l !! j = Some b →
       vm_end (regions v !!! a) ≤ vm_begin (regions v !!! b)) ∧
    ∀ c, admissible v l c → ∃ v' err, vm_exec c v = Some (v', err).
Proof.
  intros H0%vm_empty_ok Hs. assert (space_ok v) as (l & Hv & Hm).
  { induction Hs as [|v1 v2 v3 H _ IH]; eauto using vm_step_ok. }
  exists l. destruct Hv as [Hl Hok Hss] eqn:EHv. split_and!; [done|done| |].
  - intros i j a b Hij Ha Hb. clear - Hss Hij Ha Hb. revert i j Hij Ha Hb. induction Hss as [|x l _ IH Hx]; [done|].
    intros [|i] [|j] Hij Ha Hb; try lia; cbn in Ha, Hb; [|by apply (IH i j); auto with lia].
    simplify_eq. rewrite Forall_forall in Hx. apply Hx. by eapply list_elem_of_lookup_2.
  - intros c Hc. destruct (admissible_ok v l c Hv Hm Hc) as (v' & err & E' & _). eauto.
Qed.

(** C20. The search in the tree gives what the search on the list gives, the lowest region that ends
    above the address if there is one; the number of nodes it visits is logarithmic in the
    number of regions. *)
Theorem vm_region_find_correct v l addr :
  vmm_ok v l →
  ∃ r, vm_region_find v addr = Some r ∧ snd <$> vm_region_find_list v addr = Some r ∧
    find_loop (S (2 * Nat.log2 (S (length l)))) v (rb_root (regions_tree v)) addr 0 = Some r ∧
    (r = 0 ∧ (∀ b, b ∈ l → vm_end (regions v !!! b) ≤ addr) ∨
     r ∈ l ∧ addr < vm_end (regions v !!! r) ∧
       ∀ b, b ∈ l → addr < vm_end (regions v !!! b) → b = r ∨ below (regions v) r b).
Proof.
  intros Hv. exists (first_above (regions v) addr l). split_and!.
  - by apply vm_region_find_ok.
  - by rewrite (vm_region_find_list_ok v l).
  - destruct (sorted_parts v l Hv) as (o & t & Ht & Hb & <- & _). destruct Hv as [_ Hok Hs].
    rewrite (it_root _ _ _ Ht). apply (find_loop_ok o v addr _ [] t Ht Hok Hs (place_nil v addr)).
    apply Nat.lt_succ_r. by apply balanced_height.
  - by apply first_above_spec; apply Hv.
Qed.


(** A mapping that is removed again leaves no trace: every address is found as before. *)
Theorem map_unmap_roundtrip v l a length prot offset flags v1 :
  vmm_ok v l → 0 ≤ last_mmap v → admissible v l (Map a length prot offset flags) →
  vm_exec (Map a length prot offset flags) v = Some (v1, 0) →
  ∃ v2, vm_exec (Unmap a) v1 = Some (v2, 0) ∧ vmm_ok v2 l ∧
    ∀ addr, vm_region_find v2 addr = vm_region_find v addr.
Proof.
  intros Hv Hm Ha Ex. destruct (map_cases v l a length prot offset flags Hv Hm Ha)
    as (v' & err & Ex' & Hc). rewrite Ex in Ex'. injection Ex' as <- <-.
  destruct Hc as [(? & _)|(_ & l1 & l2 & rg & -> & Hv1 & ER & _)]; [done|].
  destruct (detach_ok v1 l1 a l2 Hv1) as (v2 & E2 & Hv2 & Hd2 & ER2 & _).
  exists v2. cbn [vm_exec]. rewrite E2. split_and!; [done|done|]. intros addr.
  rewrite (vm_region_find_ok _ _ _ Hv2), (vm_region_find_ok _ _ _ Hv), ER2, ER. f_equal.
  apply first_above_other. intros b Hb. rewrite lookup_insert_ne; [done|]. intros ->. by destruct Hd2.
Qed.

(** ** Examples *)

(** Three descriptors and no region. *)
Definition ex_empty : vmm_s :=
  Vmm (Rb 0 (list_to_map ((λ a, (a, RbNode 0 0 0)) <$> [8; 16; 24])))
    (list_to_map ((λ n, (n, Entry (At n) (At n))) <$> [Root 0; Obj 8; Obj 16; Obj 24]))
    (list_to_map ((λ a, (a, Region 0 0 0 0 0 0 0 0 0)) <$> [8; 16; 24])) 0 0.

Fixpoint vm_run (cs : list vm_cmd) (v : vmm_s) : option vmm_s :=
  match cs with
  | [] => Some v
  | c :: cs => '(v, _) ← vm_exec c v; vm_run cs v
  end.

Definition ex_cmds : list vm_cmd :=
  [Map 8 0x1234 VM_REG_RD 0 VM_REG_ANON; MapAt 16 0x100000 0x20000 VM_REG_WR 0 VM_REG_FIXED].
Definition ex_two : vmm_s := default ex_empty (vm_run ex_cmds ex_empty).

Lemma ex_empty_ok : vm_empty ex_empty.
Proof. split; [done| |done]. split; [by apply NoDup_singleton|]. by split. Qed.

Definition ex_one : vmm_s := default ex_empty (vm_run (take 1 ex_cmds) ex_empty).

Lemma ex_olists : olist (regions_list ex_one) 0 [8] ∧ olist (regions_list ex_two) 0 [8; 16].
Proof. split; (split; [apply (bool_decide_unpack _); vm_compute; exact I|]); vm_compute; auto 10. Qed.

Lemma ex_detached : detached ex_empty [] 8 ∧ detached ex_one [8] 16 ∧ detached ex_two [8; 16] 24.
Proof.
  split_and!; (split; [apply (bool_decide_unpack _); vm_compute; exact I|by split|..]);
    vm_compute; eauto.
Qed.

Lemma ex_two_ok : vmm_ok ex_two [8; 16].
Proof.
  split; [split; [|apply ex_olists]|..].
  - exists (nodes (regions_tree ex_two)), (T 8 Black E (T 16 Red E E)). split; [|split; [|done]].
    + split; [by vm_compute|vm_compute; auto|apply (bool_decide_unpack _); vm_compute; exact I| |done].
      repeat constructor; done.
    + exists 1%nat. repeat econstructor.
  - repeat constructor; try (by vm_compute); vm_compute; eauto.
  - repeat constructor; by vm_compute.
Qed.

Lemma ex_steps : rtc vm_step ex_empty ex_two.
Proof.
  eapply (rtc_l _ _ ex_one).
  { eapply (vm_step_intro _ [] (Map 8 0x1234 VM_REG_RD 0 VM_REG_ANON) _ 0); [apply ex_empty_ok| |by vm_compute].
    split; [apply ex_detached|]. by vm_compute. }
  eapply rtc_once, (vm_step_intro _ [8] (MapAt 16 0x100000 0x20000 VM_REG_WR 0 VM_REG_FIXED) _ 0); [apply ex_olists| |by vm_compute].
  split; [apply ex_detached|]. do 5 (split; [by vm_compute|]). intros r b ->%list_elem_of_singleton. by vm_compute.
Qed.

Lemma vm_space_well_formed_witness :
  vm_empty ex_empty ∧ rtc vm_step ex_empty ex_two ∧ ∃ l, linked ex_two l ∧ Forall (region_ok (regions ex_two)) l.
Proof.
  split; [exact ex_empty_ok|]. split; [exact ex_steps|].
  destruct (vm_space_well_formed ex_empty ex_two ex_empty_ok ex_steps) as (l & H1 & H2 & _). by exists l.
Defined.

Lemma vm_region_find_correct_witness :
  vmm_ok ex_two [8; 16] ∧ vm_region_find ex_two 0x110000 = Some 16 ∧
  ∃ r, vm_region_find ex_two 0x110000 = Some r ∧ snd <$> vm_region_find_list ex_two 0x110000 = Some r.
Proof.
  split; [exact ex_two_ok|]. split; [by vm_compute|].
  destruct (vm_region_find_correct ex_two [8; 16] 0x110000 ex_two_ok) as (r & H1 & H2 & _).
  exists r. split; [exact H1|exact H2].
Defined.




Definition ex_three : vmm_s :=
  default ex_two (vm_run [Map 24 0x100000 VM_REG_RD 0 VM_REG_ANON] ex_two).

Lemma map_unmap_roundtrip_witness :
  vm_exec (Map 24 0x100000 VM_REG_RD 0 VM_REG_ANON) ex_two = Some (ex_three, 0) ∧
  ∃ v2, vm_exec (Unmap 24) ex_three = Some (v2, 0) ∧ vmm_ok v2 [8; 16].
Proof.
  assert (admissible ex_two [8; 16] (Map 24 0x100000 VM_REG_RD 0 VM_REG_ANON)) as Ha
    by (split; [apply ex_detached|by vm_compute]).
  assert (vm_exec (Map 24 0x100000 VM_REG_RD 0 VM_REG_ANON) ex_two = Some (ex_three, 0)) as Ex by (vm_compute; reflexivity).
  split; [exact Ex|]. assert (0 ≤ last_mmap ex_two) as Hm by (vm_compute; discriminate).
  destruct (map_unmap_roundtrip ex_two [8; 16] 24 0x100000 VM_REG_RD 0 VM_REG_ANON ex_three ex_two_ok Hm Ha Ex)
    as (v2 & H1 & H2 & _). exists v2. split; [exact H1|exact H2].
Defined.

(** ** Divergences *)

(** Only the start of a fixed region is tested: a range that covers mapped regions is accepted,
    and the region it covers stays attached. *)
Lemma fixed_overlap_accepted :
  ∃ v, vm_exec (MapAt 24 0x80000 0x100000 VM_REG_RD 0 VM_REG_FIXED) ex_two = Some (v, 0) ∧
    olist (regions_list v) 0 [8; 24; 16] ∧
    vm_begin (regions v !!! 24) < vm_begin (regions v !!! 16) ∧
    vm_end (regions v !!! 16) ≤ vm_end (regions v !!! 24).
Proof.
  eexists. split; [by vm_compute|]. split; [|by vm_compute].
  split; [apply (bool_decide_unpack _); vm_compute; exact I|]. vm_compute. auto 20.
Qed.

(** The subtraction that gives the last start wraps around: a length that exceeds the user space
    is accepted and the region ends beyond it. *)
Lemma oversized_mapping_accepted :
  ∃ v, vm_exec (Map 8 0x90000000 VM_REG_RD 0 VM_REG_ANON) ex_empty = Some (v, 0) ∧
    CONFIG_USR_LIMIT < vm_end (regions v !!! 8).
Proof. eexists. split; by vm_compute. Qed.
