(* ===== verification/Page.v ===== *)
(** * Page descriptors (src/kernel/mm/page.h, page.c)

    The descriptor of a physical page, its reference count, its state machine
    ([page_state_set]), its sleeping lock ([page_lock], [page_unlock]) and the
    global list of dirty pages. *)

From S2P Require Import Prelude Clist.

Open Scope Z_scope.

(** ** Reference counts (src/kernel/kern/atomic.c)

    [cpu_atomic_inc] and [cpu_atomic_dec] return the value before the update. *)

Definition refcount_init : Z := 0.
Definition refcount_up (count : Z) : Z * Z := (count, u32 (count + 1)).
Definition refcount_down (count : Z) : Z * Z := (count, u32 (count - 1)).
Definition refcount_set (count new_val : Z) : Z * Z := (count, u32 new_val).
Definition refcount_get (count : Z) : Z := count.

(** ** Descriptors *)

Inductive page_state_t :=
  | PGINIT | PGRESERVED | PGFREE | PGINVALID | PGVALID | PGLOCKEDIO | PGLOCKED.

#[export] Instance page_state_eq_dec : EqDecision page_state_t.
Proof. solve_decision. Defined.

Definition PG_DIRTY : Z := 0x080.
Definition PG_LOCKED : Z := 0x100.

(** Threads are identified by integers. [mapper] is [0] for [NULL]. *)
Record page_s := Page {
  state : page_state_t;
  flags : Z;
  cid : Z;
  order : Z;
  wait_queue : list Z;
  index : Z;
  mapper : Z;
  private : Z;
  count : Z;
}.

Definition set_state (s : page_state_t) (p : page_s) : page_s :=
  Page s (flags p) (cid p) (order p) (wait_queue p) (index p) (mapper p)
    (private p) (count p).
Definition set_flags (f : Z) (p : page_s) : page_s :=
  Page (state p) f (cid p) (order p) (wait_queue p) (index p) (mapper p)
    (private p) (count p).
Definition set_order (o : Z) (p : page_s) : page_s :=
  Page (state p) (flags p) (cid p) o (wait_queue p) (index p) (mapper p)
    (private p) (count p).
Definition set_wait_queue (w : list Z) (p : page_s) : page_s :=
  Page (state p) (flags p) (cid p) (order p) w (index p) (mapper p)
    (private p) (count p).
Definition set_index (i : Z) (p : page_s) : page_s :=
  Page (state p) (flags p) (cid p) (order p) (wait_queue p) i (mapper p)
    (private p) (count p).
Definition set_count (c : Z) (p : page_s) : page_s :=
  Page (state p) (flags p) (cid p) (order p) (wait_queue p) (index p) (mapper p)
    (private p) c.

Definition page_init (cid : Z) : page_s :=
  {| state := PGINIT; flags := 0; cid := cid mod 2 ^ 12; order := 0; wait_queue := [];
     index := 0; mapper := 0; private := 0; count := refcount_init |}.

Definition page_state_get (p : page_s) : page_state_t := state p.
Definition page_refcount_get (p : page_s) : Z := refcount_get (count p).

Definition page_refcount_up (p : page_s) : Z * page_s :=
  let '(old, c) := refcount_up (count p) in (old, set_count c p).

Definition page_refcount_down (p : page_s) : Z * page_s :=
  let '(old, c) := refcount_down (count p) in (old, set_count c p).

(** [flags] is a 12-bit field. *)
Definition PAGE_SET (p : page_s) (flag : Z) : page_s :=
  set_flags (Z.lor (flags p) flag) p.
Definition PAGE_CLEAR (p : page_s) (flag : Z) : page_s :=
  set_flags (Z.land (flags p) (Z.lnot flag mod 2 ^ 12)) p.
Definition PAGE_IS (p : page_s) (flag : Z) : bool := ctrue (Z.land (flags p) flag).

(** The copy-on-write share count lives in the union with [index] and is only
    meaningful for an anonymous page. *)
Definition page_shared_init (p : page_s) : option page_s :=
  _ ← cassert (mapper p =? 0);
  Some (set_index 1 p).

Definition page_shared_get (p : page_s) : option Z :=
  _ ← cassert (mapper p =? 0);
  Some (index p).

Definition page_shared_up (p : page_s) : option (Z * page_s) :=
  _ ← cassert (mapper p =? 0);
  Some (index p, set_index (u32 (index p + 1)) p).

Definition page_shared_down (p : page_s) : option (Z * page_s) :=
  _ ← cassert (mapper p =? 0);
  Some (index p, set_index (u32 (index p - 1)) p).

(** ** The sleeping lock

    [page_lock] of thread [this] either takes the lock or puts the thread on the
    wait queue and sleeps ([true]); [page_unlock] hands the lock to the first
    sleeper, which it wakes, or clears the flag. *)

Definition page_lock (this : Z) (p : page_s) : page_s * bool :=
  if PAGE_IS p PG_LOCKED
  then (set_wait_queue (wait_queue p ++ [this]) p, true)
  else (PAGE_SET p PG_LOCKED, false).

Definition page_unlock (p : page_s) : page_s * option Z :=
  match wait_queue p with
  | t :: w => (set_wait_queue w p, Some t)
  | [] => (PAGE_CLEAR p PG_LOCKED, None)
  end.

(** ** The state machine *)

(** What a state change did besides changing the descriptor: the thread it woke,
    and whether the caller now sleeps inside [page_lock]. *)
Record outcome := Outcome { pg : page_s; woken : option Z; asleep : bool }.

Definition quiet (p : page_s) : outcome := Outcome p None false.

Definition page_to_free (p : page_s) : option outcome :=
  _ ← cassert (bool_decide (state p = PGINVALID ∨ state p = PGVALID ∨ state p = PGINIT));
  Some (quiet (set_state PGFREE p)).

Definition page_to_invalid (p : page_s) : option outcome :=
  _ ← cassert (bool_decide (state p = PGFREE ∨ state p = PGVALID ∨ state p = PGLOCKEDIO));
  if decide (state p = PGLOCKEDIO) then
    let '(p, w) := page_unlock (set_state PGINVALID p) in Some (Outcome p w false)
  else Some (quiet (set_state PGINVALID p)).

Definition page_to_valid (p : page_s) : option outcome :=
  _ ← cassert (bool_decide (state p = PGINVALID ∨ state p = PGLOCKED ∨ state p = PGLOCKEDIO));
  if decide (state p = PGINVALID) then Some (quiet (set_state PGVALID p)) else
  let '(p, w) := page_unlock (set_state PGVALID p) in Some (Outcome p w false).

(** A caller that sleeps in [page_lock] writes the new state when it runs again:
    [page_resume] below. *)
Definition page_to_locked_io (this : Z) (p : page_s) : option outcome :=
  _ ← cassert (bool_decide (state p = PGINVALID ∨ state p = PGVALID));
  let '(p, sleep) := page_lock this p in
  Some (Outcome (if sleep then p else set_state PGLOCKEDIO p) None sleep).

Definition page_to_locked (this : Z) (p : page_s) : option outcome :=
  _ ← cassert (bool_decide (state p = PGVALID));
  let '(p, sleep) := page_lock this p in
  Some (Outcome (if sleep then p else set_state PGLOCKED p) None sleep).

Definition page_state_set (this : Z) (p : page_s) (new_state : page_state_t)
    : option outcome :=
  match new_state with
  | PGFREE => page_to_free p
  | PGINVALID => page_to_invalid p
  | PGVALID => page_to_valid p
  | PGLOCKEDIO => page_to_locked_io this p
  | PGLOCKED => page_to_locked this p
  | PGRESERVED =>
      Some (quiet (set_state PGRESERVED (set_count (snd (refcount_set (count p) 1)) p)))
  | PGINIT => Some (quiet (set_state PGINIT p))
  end.

(** The end of [page_to_locked_io] or [page_to_locked] after the sleep. *)
Definition page_resume (p : page_s) (new_state : page_state_t) : page_s :=
  set_state new_state p.

(** Flag of a page held by a thread: the two locked states. *)
Definition locked_state (s : page_state_t) : bool :=
  match s with PGLOCKEDIO | PGLOCKED => true | _ => false end.

(** ** Dirty pages

    [dirty_pages.root] chains the [private_list] fields of the dirty pages. *)

Abbreviation links := (gmap lnode (list_entry lnode)).

Record dirty_s := Dirty { d_pages : list page_s; d_links : links }.

Definition dirty_root : lptr lnode := At (Root 0).

Definition dirty_pages_init (pages : list page_s) (h : links) : option dirty_s :=
  h ← list_root_init h dirty_root;
  Some (Dirty pages h).

Definition page_set_dirty (d : dirty_s) (page : Z) : option (dirty_s * bool) :=
  p ← aget (d_pages d) page;
  if PAGE_IS p PG_DIRTY then Some (d, false) else
  pages ← aset (d_pages d) page (PAGE_SET p PG_DIRTY);
  h ← list_add_first (d_links d) dirty_root (At (Obj page));
  Some (Dirty pages h, true).

Definition page_clear_dirty (d : dirty_s) (page : Z) : option (dirty_s * bool) :=
  p ← aget (d_pages d) page;
  if PAGE_IS p PG_DIRTY then
    pages ← aset (d_pages d) page (PAGE_CLEAR p PG_DIRTY);
    h ← list_unlink (d_links d) (At (Obj page));
    Some (Dirty pages h, true)
  else Some (d, false).

(** The locking of a page of the store around a flush.  A page that another thread
    has locked would put the caller to sleep: [None]. *)
Definition dirty_lock (this : Z) (d : dirty_s) (page : Z) : option dirty_s :=
  p ← aget (d_pages d) page;
  let '(p, sleep) := page_lock this p in
  _ ← cassert (negb sleep);
  pages ← aset (d_pages d) page p;
  Some (Dirty pages (d_links d)).

Definition dirty_unlock (d : dirty_s) (page : Z) : option dirty_s :=
  p ← aget (d_pages d) page;
  pages ← aset (d_pages d) page (fst (page_unlock p));
  Some (Dirty pages (d_links d)).

(** [sync_all_pages]: while the list is not empty, flush its first page.
    [sync_page] is the operation of the page's mapper, called through
    [mapper->m_ops].  The result is [true] when the loop has ended and [false] when
    [fuel] iterations were not enough. *)
Fixpoint sync_all_pages (this : Z) (sync_page : dirty_s → Z → option dirty_s)
    (fuel : nat) (d : dirty_s) : option (bool * dirty_s) :=
  e ← list_empty (d_links d) dirty_root;
  if (e : bool) then Some (true, d) else
  match fuel with
  | O => Some (false, d)
  | S fuel =>
      f ← list_first (d_links d) dirty_root;
      page ← obj_of f;
      d ← dirty_lock this d page;
      d ← sync_page d page;
      d ← dirty_unlock d page;
      sync_all_pages this sync_page fuel d
  end.

(** ** Flags *)

Lemma PAGE_IS_SET p f : 0 < f → PAGE_IS (PAGE_SET p f) f = true.
Proof.
  intros Hf. unfold PAGE_IS, PAGE_SET, ctrue. simpl.
  rewrite Z.land_lor_distr_l, Z.land_diag.
  destruct (Z.eqb_spec (Z.lor (Z.land (flags p) f) f) 0) as [E|]; [|done].
  apply Z.lor_eq_0_iff in E. lia.
Qed.

Lemma lnot12_land f : 0 ≤ f < 2 ^ 12 → Z.land (Z.lnot f mod 2 ^ 12) f = 0.
Proof.
  intros Hf. apply Z.bits_inj'. intros k Hk. rewrite Z.land_spec, Z.bits_0.
  destruct (Z.lt_ge_cases k 12).
  - rewrite Z.mod_pow2_bits_low by lia. rewrite Z.lnot_spec by done.
    by destruct (Z.testbit f k).
  - by rewrite Z.mod_pow2_bits_high by lia.
Qed.

Lemma PAGE_IS_CLEAR p f : 0 ≤ f < 2 ^ 12 → PAGE_IS (PAGE_CLEAR p f) f = false.
Proof.
  intros Hf. unfold PAGE_IS, PAGE_CLEAR, ctrue. simpl flags.
  by rewrite <- Z.land_assoc, lnot12_land, Z.land_0_r.
Qed.

#[export] Hint Resolve PAGE_IS_SET PAGE_IS_CLEAR : almos.

(** ** The lock protocol

    The threads of the system as seen by one page: the ones that hold the lock,
    and the ones asleep in [page_lock], which are exactly the wait queue. *)
Module PageLock.

Record sys := Sys { page : page_s; holders : list Z }.

Inductive step : sys → sys → Prop :=
  | step_lock s t p' :
      t ∉ holders s → t ∉ wait_queue (page s) →
      page_lock t (page s) = (p', false) →
      step s (Sys p' (t :: holders s))
  | step_sleep s t p' :
      t ∉ holders s → t ∉ wait_queue (page s) →
      page_lock t (page s) = (p', true) →
      step s (Sys p' (holders s))
  | step_unlock s h1 t h2 p' w :
      holders s = h1 ++ t :: h2 →
      page_unlock (page s) = (p', w) →
      step s (Sys p' (option_list w ++ h1 ++ h2)).

Definition inv (s : sys) : Prop :=
  NoDup (wait_queue (page s)) ∧
  match holders s with
  | [] => PAGE_IS (page s) PG_LOCKED = false ∧ wait_queue (page s) = []
  | [t] => PAGE_IS (page s) PG_LOCKED = true ∧ t ∉ wait_queue (page s)
  | _ => False
  end.

Lemma step_inv s s' : step s s' → inv s → inv s'.
Proof.
  intros Hs [Hnd Hi]. destruct Hs as [s t p' Ht Hw E|s t p' Ht Hw E|s h1 t h2 p' w Eh E];
    unfold inv; simpl.
  - unfold page_lock in E.
    destruct (PAGE_IS (page s) PG_LOCKED) eqn:EL; simplify_eq. simpl.
    destruct (holders s) as [|t0 [|]]; [|naive_solver..].
    split; [done|]. split; [by apply PAGE_IS_SET|]. by destruct Hi as [_ ->].
  - unfold page_lock in E.
    destruct (PAGE_IS (page s) PG_LOCKED) eqn:EL; simplify_eq. simpl.
    destruct (holders s) as [|t0 [|]]; [naive_solver| |done].
    split; [|split; [done|set_solver]].
    apply NoDup_app. split_and!; [done|set_solver|apply NoDup_singleton].
  - unfold page_unlock in E. rewrite Eh in Hi.
    assert (h1 = [] ∧ h2 = []) as [-> ->].
    { destruct h1 as [|? []], h2; simpl in Hi; naive_solver. }
    simpl in Hi. destruct (wait_queue (page s)) as [|t' q] eqn:Eq; simplify_eq; simpl.
    + rewrite Eq. split; [done|]. split; [by apply PAGE_IS_CLEAR|done].
    + rewrite NoDup_cons in Hnd. naive_solver.
Qed.

(** A page nobody holds or waits for. *)
Definition initial (s : sys) : Prop :=
  PAGE_IS (page s) PG_LOCKED = false ∧ wait_queue (page s) = [] ∧ holders s = [].

Lemma reachable_inv s0 s : initial s0 → rtc step s0 s → inv s.
Proof.
  intros (Hf&Hw&Hh) Hr. assert (inv s0) as Hi.
  { unfold inv. rewrite Hh, Hw. split; [apply NoDup_nil_2|done]. }
  clear Hf Hw Hh. induction Hr as [|s0 s1 s2 H1 _ IH]; [done|].
  apply IH. by eapply step_inv.
Qed.

Lemma initial_page cid : initial (Sys (page_init cid) []).
Proof. done. Qed.
End PageLock.

(** Mutual exclusion of the page lock.  From a freshly initialised page, in every
    reachable state at most one thread holds the lock, the flag [PG_LOCKED] is set
    exactly when somebody holds it, and nobody sleeps while the lock is free. *)
Theorem page_lock_exclusive c s :
  rtc PageLock.step (PageLock.Sys (page_init c) []) s →
  (length (PageLock.holders s) ≤ 1)%nat ∧
  (PAGE_IS (PageLock.page s) PG_LOCKED = true ↔ PageLock.holders s ≠ []) ∧
  (wait_queue (PageLock.page s) ≠ [] → PageLock.holders s ≠ []).
Proof.
  intros Hr. pose proof (PageLock.reachable_inv _ _ (PageLock.initial_page c) Hr) as [_ Hi].
  destruct (PageLock.holders s) as [|t [|]]; [| |done]; destruct Hi as [-> Hw];
    (split; [simpl; lia|]); (split; [done|]); [by rewrite Hw|done].
Qed.

Lemma page_lock_exclusive_witness :
  ∃ s, rtc PageLock.step (PageLock.Sys (page_init 0) []) s ∧
       PageLock.holders s = [7] ∧ wait_queue (PageLock.page s) = [8] ∧
       (length (PageLock.holders s) ≤ 1)%nat.
Proof.
  set (p1 := fst (page_lock 7 (page_init 0))). set (p2 := fst (page_lock 8 p1)).
  assert (rtc PageLock.step (PageLock.Sys (page_init 0) []) (PageLock.Sys p2 [7])) as Hr.
  { eapply rtc_l; [eapply (PageLock.step_lock _ 7 p1)|].
    - apply not_elem_of_nil.
    - apply not_elem_of_nil.
    - reflexivity.
    - eapply rtc_l; [eapply (PageLock.step_sleep _ 8 p2)|apply rtc_refl].
      + vm_compute. intros H. by apply list_elem_of_singleton in H.
      + apply not_elem_of_nil.
      + reflexivity. }
  exists (PageLock.Sys p2 [7]). split_and!; [exact Hr|reflexivity|reflexivity|].
  apply (page_lock_exclusive _ _ Hr).
Defined.

(** Hand-over is first come first served: the thread that has slept longest in
    [page_lock] is the one an unlock wakes, and it owns the lock when it wakes (the
    flag stays set); with nobody asleep the flag is cleared. *)
Theorem page_unlock_handover p :
  match wait_queue p with
  | t :: q => page_unlock p = (set_wait_queue q p, Some t) ∧
              PAGE_IS (fst (page_unlock p)) PG_LOCKED = PAGE_IS p PG_LOCKED
  | [] => snd (page_unlock p) = None ∧
          PAGE_IS (fst (page_unlock p)) PG_LOCKED = false
  end.
Proof.
  unfold page_unlock. destruct (wait_queue p); simpl; [|done].
  split; [done|]. by apply PAGE_IS_CLEAR.
Qed.

(** ** Invariant of the dirty list *)

Definition dirty_inv (d : dirty_s) (l : list Z) : Prop :=
  olist (d_links d) 0 l ∧
  (∀ i, i ∈ l ↔ ∃ p, aget (d_pages d) i = Some p ∧ PAGE_IS p PG_DIRTY = true) ∧
  (∀ i p, aget (d_pages d) i = Some p → is_Some (d_links d !! Obj i)).

(** Updating one descriptor, as the two dirty operations do. *)
Lemma dirty_flags_update pages i p' pages' (l l' : list Z) :
  aset pages i p' = Some pages' →
  (∀ j, j ∈ l ↔ ∃ p, aget pages j = Some p ∧ PAGE_IS p PG_DIRTY = true) →
  (i ∈ l' ↔ PAGE_IS p' PG_DIRTY = true) → (∀ j, j ≠ i → j ∈ l' ↔ j ∈ l) →
  ∀ j, j ∈ l' ↔ ∃ p, aget pages' j = Some p ∧ PAGE_IS p PG_DIRTY = true.
Proof.
  intros Hs Hl Hi Hj j. destruct (decide (j = i)) as [->|Hne].
  - rewrite (aget_aset_eq _ _ _ _ Hs), Hi. naive_solver.
  - rewrite (aget_aset_ne _ _ _ _ _ (not_eq_sym Hne) Hs), Hj by done. apply Hl.
Qed.

Lemma dirty_links_update (pages pages' : list page_s) i p' (h h' : links) ks :
  aset pages i p' = Some pages' → frame h h' ks →
  (∀ j p, aget pages j = Some p → is_Some (h !! Obj j)) →
  ∀ j p, aget pages' j = Some p → is_Some (h' !! Obj j).
Proof.
  intros Hs [D _] Hl j p Hj. apply D. pose proof (aset_length _ _ _ _ Hs) as Hlen.
  apply aget_Some_range in Hj. destruct (aget_range pages j) as [q Hq]; [lia|eauto].
Qed.

Lemma page_set_dirty_spec d l i p :
  dirty_inv d l → aget (d_pages d) i = Some p →
  ∃ d' b, page_set_dirty d i = Some (d', b) ∧ b = negb (PAGE_IS p PG_DIRTY) ∧
    dirty_inv d' (if PAGE_IS p PG_DIRTY then l else i :: l).
Proof.
  intros (Hl&Hf&Hh) Hp. unfold page_set_dirty. rewrite Hp. cbn [mbind option_bind].
  destruct (PAGE_IS p PG_DIRTY) eqn:Ed; [exists d, false; by split_and!|].
  destruct (aset (d_pages d) i (PAGE_SET p PG_DIRTY)) as [pages'|] eqn:Es.
  2:{ rewrite aset_Some in Es; [done|by eapply aget_Some_range]. }
  cbn [mbind option_bind].
  assert (i ∉ l) as Hi by (rewrite Hf; naive_solver congruence).
  destruct (olist_add (d_links d) 0 l i) as (h'&Eh&Hl'&F); [done..|eauto|].
  unfold list_add_first, dirty_root. rewrite Eh. cbn [mbind option_bind].
  eexists _, _. split_and!; [done..|]. split_and!; simpl; [done| |].
  - eapply dirty_flags_update; [done..| |set_solver].
    rewrite PAGE_IS_SET by done. set_solver.
  - by eapply dirty_links_update.
Qed.

Lemma page_clear_dirty_spec d l i p :
  dirty_inv d l → aget (d_pages d) i = Some p →
  ∃ d' b, page_clear_dirty d i = Some (d', b) ∧ b = PAGE_IS p PG_DIRTY ∧
    dirty_inv d' (filter (λ j, j ≠ i) l).
Proof.
  intros (Hl&Hf&Hh) Hp. unfold page_clear_dirty. rewrite Hp. cbn [mbind option_bind].
  destruct (PAGE_IS p PG_DIRTY) eqn:Ed.
  2:{ exists d, false. split_and!; [done..|].
      rewrite filter_ne_notin; [by split_and!|]. rewrite Hf. naive_solver congruence. }
  destruct (aset (d_pages d) i (PAGE_CLEAR p PG_DIRTY)) as [pages'|] eqn:Es.
  2:{ rewrite aset_Some in Es; [done|by eapply aget_Some_range]. }
  cbn [mbind option_bind].
  assert (i ∈ l) as Hi by (rewrite Hf; eauto).
  pose proof (olist_NoDup _ _ _ Hl) as Hnd.
  apply list_elem_of_split in Hi as (l1&l2&->).
  apply NoDup_app in Hnd as (?&Hdis&[? ?]%NoDup_cons).
  destruct (olist_unlink _ _ _ _ _ Hl) as (h'&Eh&Hl'&F). rewrite Eh.
  cbn [mbind option_bind]. eexists _, _. split_and!; [done..|].
  rewrite filter_ne_split by set_solver.
  split_and!; simpl; [done| |].
  - eapply dirty_flags_update; [done..| |set_solver].
    rewrite PAGE_IS_CLEAR by done. set_solver.
  - by eapply dirty_links_update.
Qed.

(** The flag [PG_DIRTY] of every page and the list of dirty pages stay in step:
    [page_set_dirty] marks and queues a clean page and leaves a dirty one alone,
    [page_clear_dirty] unmarks and dequeues exactly the given page, and neither
    follows a link that leaves the list. *)
Theorem dirty_list_invariant d l i p :
  dirty_inv d l → aget (d_pages d) i = Some p →
  (∃ d1, page_set_dirty d i = Some (d1, negb (PAGE_IS p PG_DIRTY)) ∧
         dirty_inv d1 (if PAGE_IS p PG_DIRTY then l else i :: l)) ∧
  (∃ d2, page_clear_dirty d i = Some (d2, PAGE_IS p PG_DIRTY) ∧
         dirty_inv d2 (filter (λ j, j ≠ i) l)).
Proof.
  intros Hi Hp. split.
  - destruct (page_set_dirty_spec _ _ _ _ Hi Hp) as (d'&b&?&->&?). eauto.
  - destruct (page_clear_dirty_spec _ _ _ _ Hi Hp) as (d'&b&?&->&?). eauto.
Qed.

(** A concrete store of two clean pages. *)
Definition dirty_ex_links : links :=
  <[Root 0 := Entry (At (Root 0)) (At (Root 0))]>
  (<[Obj 0 := Entry Null Null]> (<[Obj 1 := Entry Null Null]> ∅)).

Definition dirty_ex : dirty_s := Dirty [page_init 0; page_init 0] dirty_ex_links.

Lemma dirty_ex_inv : dirty_inv dirty_ex [].
Proof.
  split_and!.
  - split; [apply NoDup_singleton|]. by repeat split.
  - intros i. split; [by intros ?%elem_of_nil|]. intros (p&Hp&Hd). exfalso.
    unfold aget in Hp. case_match; [|done]. simpl in Hp.
    destruct (Z.to_nat i) as [|[|]]; simpl in Hp; simplify_eq; done.
  - intros i p Hp. apply aget_Some_range in Hp. simpl in Hp.
    assert (i = 0 ∨ i = 1) as [-> | ->] by lia; vm_compute; eauto.
Qed.

Lemma dirty_list_invariant_witness :
  ∃ d1, page_set_dirty dirty_ex 1 = Some (d1, true) ∧ dirty_inv d1 [1].
Proof.
  destruct (dirty_list_invariant dirty_ex [] 1 (page_init 0) dirty_ex_inv eq_refl)
    as [(d1&E&Hd1) _].
  exists d1. split; [exact E|exact Hd1].
Defined.

(** ** Flushing *)

Lemma lock_keeps_dirty this p : PAGE_IS (fst (page_lock this p)) PG_DIRTY = PAGE_IS p PG_DIRTY.
Proof.
  unfold page_lock. destruct (PAGE_IS p PG_LOCKED); [done|].
  unfold PAGE_IS, PAGE_SET. cbn [fst flags set_flags].
  by rewrite Z.land_lor_distr_l, Z.lor_0_r.
Qed.

Lemma unlock_keeps_dirty p : PAGE_IS (fst (page_unlock p)) PG_DIRTY = PAGE_IS p PG_DIRTY.
Proof.
  unfold page_unlock. destruct (wait_queue p); [|done].
  unfold PAGE_IS, PAGE_CLEAR. cbn [fst flags set_flags]. by rewrite <- Z.land_assoc.
Qed.

Lemma dirty_touch d l i p p' pages' :
  dirty_inv d l → aget (d_pages d) i = Some p → aset (d_pages d) i p' = Some pages' →
  PAGE_IS p' PG_DIRTY = PAGE_IS p PG_DIRTY → dirty_inv (Dirty pages' (d_links d)) l.
Proof.
  intros (Hl&Hf&Hh) Hp Hs Hd. split_and!; [done| |]; simpl.
  - eapply dirty_flags_update; [done..| |done]. rewrite Hd, Hf. naive_solver.
  - eapply dirty_links_update; [done|apply (frame_refl _ [])|done].
Qed.

(** Nobody holds or waits for the lock of a page. *)
Definition unlocked (d : dirty_s) : Prop :=
  ∀ j p, aget (d_pages d) j = Some p → PAGE_IS p PG_LOCKED = false ∧ wait_queue p = [].

(** A flush leaves the locks alone. *)
Definition same_locks (d d' : dirty_s) : Prop :=
  ∀ j, (λ p, (PAGE_IS p PG_LOCKED, wait_queue p)) <$> aget (d_pages d') j =
       (λ p, (PAGE_IS p PG_LOCKED, wait_queue p)) <$> aget (d_pages d) j.

(** One flush of the first page: the lock is taken, the page flushed, the lock released. *)
Lemma flush_first this sync_page d i l l' :
  (∀ d, dirty_inv d (i :: l) →
     ∃ d', sync_page d i = Some d' ∧ dirty_inv d' l' ∧ same_locks d d') →
  dirty_inv d (i :: l) → unlocked d →
  ∃ d1 d2 d3, dirty_lock this d i = Some d1 ∧ sync_page d1 i = Some d2 ∧
    dirty_unlock d2 i = Some d3 ∧ dirty_inv d3 l' ∧ unlocked d3.
Proof.
  intros Hsync Hd Hu. pose proof Hd as (_&Hf&_).
  destruct (proj1 (Hf i)) as (p&Hp&_); [set_solver|].
  destruct (Hu _ _ Hp) as [Hlk Hw]. pose proof (aget_Some_range _ _ _ Hp) as Hr.
  assert (El : page_lock this p = (PAGE_SET p PG_LOCKED, false)).
  { unfold page_lock. by rewrite Hlk. }
  set (d1 := Dirty (<[Z.to_nat i := PAGE_SET p PG_LOCKED]> (d_pages d)) (d_links d)).
  assert (Hd1 : dirty_inv d1 (i :: l)).
  { eapply dirty_touch; [done..|by apply aset_Some|].
    pose proof (lock_keeps_dirty this p) as Hk. by rewrite El in Hk. }
  destruct (Hsync d1 Hd1) as (d2&E2&Hd2&Hsl).
  assert (H2 : ∃ p2, aget (d_pages d2) i = Some p2 ∧ wait_queue p2 = []).
  { pose proof (Hsl i) as Hi. simpl in Hi. rewrite aget_insert_eq in Hi by done.
    destruct (aget (d_pages d2) i) as [p2|]; [|done]. simpl in Hi. simplify_eq.
    exists p2. split; [done|congruence]. }
  destruct H2 as (p2&Hp2&Hw2).
  pose proof (aset_Some _ _ (fst (page_unlock p2)) (aget_Some_range _ _ _ Hp2)) as E3.
  eexists d1, d2, _. split_and!; [|done| | |].
  - unfold dirty_lock. rewrite Hp. cbn [mbind option_bind]. rewrite El. simpl.
    by rewrite aset_Some.
  - unfold dirty_unlock. rewrite Hp2. cbn [mbind option_bind]. by rewrite E3.
  - eapply dirty_touch; [done..|apply unlock_keeps_dirty].
  - intros j q. simpl. destruct (decide (i = j)) as [<-|Hij].
    + rewrite aget_insert_eq by (by eapply aget_Some_range). intros [= <-].
      unfold page_unlock. rewrite Hw2. simpl. split; [by apply PAGE_IS_CLEAR|done].
    + rewrite aget_insert_ne by (done || by eapply aget_Some_range). intros Hq.
      pose proof (Hsl j) as Hj. rewrite Hq in Hj. simpl in Hj.
      rewrite aget_insert_ne in Hj by done.
      destruct (aget (d_pages d) j) as [q'|] eqn:Hq'; [|done]. simpl in Hj.
      destruct (Hu _ _ Hq'). split; congruence.
Qed.

(** C33. [sync_all_pages] flushes every dirty page: if no page is locked at the start and
    the mapper's [sync_page] takes the flushed page off the list, the loop ends after one flush per dirty page with
    no page left dirty and no page left locked. *)
Theorem sync_all_pages_flushes this (sync_page : dirty_s → Z → option dirty_s) d l :
  (∀ d i l, dirty_inv d (i :: l) →
     ∃ d', sync_page d i = Some d' ∧ dirty_inv d' l ∧ same_locks d d') →
  dirty_inv d l → unlocked d →
  ∃ d', sync_all_pages this sync_page (length l) d = Some (true, d') ∧
        dirty_inv d' [] ∧ unlocked d'.
Proof.
  intros Hsync. revert d. induction l as [|i l IH]; intros d Hd Hu;
    cbn [sync_all_pages length]; pose proof Hd as (Hl&_&_); unfold dirty_root;
    rewrite (olist_empty _ _ _ Hl); cbn [mbind option_bind]; [by eauto|].
  rewrite (olist_first _ _ _ _ Hl). cbn [mbind option_bind obj_of].
  destruct (flush_first this sync_page d i l l (λ d, Hsync d i l) Hd Hu)
    as (d1&d2&d3&->&E2&E3&Hd3&Hu3). cbn [mbind option_bind]. rewrite E2.
  cbn [mbind option_bind]. rewrite E3. cbn [mbind option_bind]. by apply IH.
Qed.

(** A [sync_page] that writes the page and clears its dirty flag. *)
Definition sync_ok (d : dirty_s) (i : Z) : option dirty_s := fst <$> page_clear_dirty d i.

Lemma clear_keeps_lock p : PAGE_IS (PAGE_CLEAR p PG_DIRTY) PG_LOCKED = PAGE_IS p PG_LOCKED.
Proof. unfold PAGE_IS, PAGE_CLEAR. cbn [flags set_flags]. by rewrite <- Z.land_assoc. Qed.

Lemma sync_ok_spec d i l :
  dirty_inv d (i :: l) → ∃ d', sync_ok d i = Some d' ∧ dirty_inv d' l ∧ same_locks d d'.
Proof.
  intros Hd. pose proof Hd as (Hl&Hf&_). pose proof (olist_NoDup _ _ _ Hl) as Hnd.
  destruct (proj1 (Hf i)) as (p&Hp&Hpd); [set_solver|].
  destruct (page_clear_dirty_spec _ _ _ _ Hd Hp) as (d'&b&E&_&Hd').
  exists d'. unfold sync_ok. rewrite E. split_and!; [done| |].
  - apply NoDup_cons in Hnd as [Hi _]. change (i :: l) with ([] ++ i :: l) in Hd'.
    by rewrite filter_ne_split in Hd' by set_solver.
  - intros j. unfold page_clear_dirty in E. rewrite Hp in E. cbn [mbind option_bind] in E.
    rewrite Hpd in E. inv_option E. injection E as <- <-. cbn [d_pages].
    destruct (decide (i = j)) as [<-|Hij].
    + rewrite (aget_aset_eq _ _ _ _ E0), Hp. cbn. by rewrite clear_keeps_lock.
    + by rewrite (aget_aset_ne _ _ _ _ _ Hij E0).
Qed.

Lemma dirty_ex_dirty :
  ∃ d1, page_set_dirty dirty_ex 1 = Some (d1, true) ∧ dirty_inv d1 [1] ∧ unlocked d1.
Proof.
  destruct (page_set_dirty_spec dirty_ex [] 1 (page_init 0) dirty_ex_inv eq_refl)
    as (d1&b&E&Hb&Hd1).
  exists d1. subst b. split_and!; [done..|]. vm_compute in E. injection E as <-.
  intros j p Hp. unfold aget in Hp. case_match; [|done]. simpl in Hp.
  destruct (Z.to_nat j) as [|[|]]; simpl in Hp; simplify_eq; done.
Qed.

Lemma sync_all_pages_flushes_witness :
  ∃ d1 d2, page_set_dirty dirty_ex 1 = Some (d1, true) ∧
           sync_all_pages 5 sync_ok 1 d1 = Some (true, d2) ∧ dirty_inv d2 [] ∧ unlocked d2.
Proof.
  destruct dirty_ex_dirty as (d1&E&Hd1&Hu1).
  destruct (sync_all_pages_flushes 5 sync_ok d1 [1] sync_ok_spec Hd1 Hu1) as (d2&E2&Hd2).
  exists d1, d2. split; [exact E|]. split; [exact E2|exact Hd2].
Defined.

(** When the write fails, [sync_page] returns with the page still on the list
    ([mapper_default_sync_page] in mapper.c), and [sync_all_pages] picks the same page
    again: however many iterations it is given, it is still running. *)
Theorem sync_all_pages_write_error this d i l :
  dirty_inv d (i :: l) → unlocked d →
  ∀ fuel, ∃ d', sync_all_pages this (λ d _, Some d) fuel d = Some (false, d') ∧
                dirty_inv d' (i :: l).
Proof.
  intros Hd Hu fuel. revert d Hd Hu. induction fuel as [|fuel IH]; intros d Hd Hu;
    pose proof Hd as (Hl&_&_); cbn [sync_all_pages]; unfold dirty_root;
    rewrite (olist_empty _ _ _ Hl); cbn [mbind option_bind]; [by eauto|].
  rewrite (olist_first _ _ _ _ Hl). cbn [mbind option_bind obj_of].
  destruct (flush_first this (λ d _, Some d) d i l (i :: l)) as (d1&d2&d3&->&E2&E3&Hd3&Hu3);
    [intros d0 Hd0; exists d0; by split_and!|done..|].
  cbn [mbind option_bind]. simplify_eq. rewrite E3. cbn [mbind option_bind].
  by apply IH.
Qed.

Lemma sync_all_pages_write_error_witness :
  ∃ d1, page_set_dirty dirty_ex 1 = Some (d1, true) ∧
        ∀ fuel, ∃ d', sync_all_pages 5 (λ d _, Some d) fuel d1 = Some (false, d') ∧
                      dirty_inv d' [1].
Proof.
  destruct dirty_ex_dirty as (d1&E&Hd1&Hu1).
  exists d1. split; [exact E|].
  apply (sync_all_pages_write_error 5 d1 1 [] Hd1 Hu1).
Defined.

(** ** States and the lock *)

(** A page in a locked state has its lock taken. *)
Definition page_wf (p : page_s) : Prop :=
  locked_state (state p) = true → PAGE_IS p PG_LOCKED = true.

(** State changes respect the page lock: a change that succeeds leaves a page in
    a locked state only with the lock held; entering a locked state either takes the
    lock at once or leaves the state alone and sleeps; and whoever leaves a locked
    state hands the lock to the first sleeper. *)
Theorem page_state_set_lock this p st o :
  page_wf p → page_state_set this p st = Some o →
  page_wf (pg o) ∧
  (asleep o = true → state (pg o) = state p ∧ this ∈ wait_queue (pg o)) ∧
  (asleep o = false → state (pg o) = st) ∧
  (locked_state (state p) = true → locked_state st = false → st ≠ PGINIT →
   st ≠ PGRESERVED → woken o = head (wait_queue p)).
Proof.
  intros Hwf H. unfold page_wf in *.
  destruct st; simpl in H; unfold page_to_free, page_to_invalid, page_to_valid,
    page_to_locked_io, page_to_locked, page_lock, page_unlock in H;
    destruct (state p) eqn:Es; simpl in H; simplify_eq/=; try done;
    repeat (case_match; simplify_eq/=; try done);
    split_and!; try done; intros; try congruence; try set_solver;
    try (by apply PAGE_IS_SET); rewrite ?Es in *; try done; auto.
Qed.

(** A page in I/O whose lock thread 9 waits for. *)
Definition page_in_io : page_s :=
  set_wait_queue [9] (PAGE_SET (set_state PGLOCKEDIO (page_init 0)) PG_LOCKED).

Lemma page_state_set_lock_witness :
  ∃ o, page_state_set 3 page_in_io PGVALID = Some o ∧
       page_wf (pg o) ∧ state (pg o) = PGVALID ∧ woken o = Some 9.
Proof.
  eexists. split; [reflexivity|].
  destruct (page_state_set_lock 3 page_in_io PGVALID _ ltac:(done) eq_refl)
    as (Hwf&_&_&Hw).
  split_and!; [exact Hwf|reflexivity|]. by apply Hw.
Defined.
