(* ===== verification/Buddy.v ===== *)
(** * Partitions of memory into buddy blocks

    The abstract view of the physical page allocator: the pages [0 .. n) of a
    cluster are partitioned into aligned blocks of [2^k] pages.  A block is free,
    used by a client, or held by the allocator in the middle of an operation.
    [Ppm] shows that the free lists and page descriptors of ppm.c represent such a
    partition. *)

From S2P Require Import Prelude.

Open Scope Z_scope.

Definition PPM_MAX_ORDER : Z := 10.
Definition PPM_LAST_ORDER : Z := PPM_MAX_ORDER - 1.

Inductive kind := Kfree | Kused | Kheld.

#[export] Instance kind_eq_dec : EqDecision kind.
Proof. solve_decision. Defined.

(** Blocks by the index of their first page: order and kind. *)
Abbreviation blocks := (gmap Z (Z * kind)).

Implicit Types (bm : blocks) (i j k m p n : Z) (c d : kind).

(** ** Well-formed partitions *)

Definition in_block p i k : Prop := i ≤ p < i + 2 ^ k.

Record partition (n : Z) (bm : blocks) : Prop := {
  part_block i k c :
    bm !! i = Some (k, c) → 0 ≤ k < PPM_MAX_ORDER ∧ 0 ≤ i ∧ (2 ^ k | i) ∧ i + 2 ^ k ≤ n;
  part_disj i k c j m d :
    bm !! i = Some (k, c) → bm !! j = Some (m, d) → i ≠ j →
    i + 2 ^ k ≤ j ∨ j + 2 ^ m ≤ i;
  part_cover p :
    0 ≤ p < n → ∃ i k c, bm !! i = Some (k, c) ∧ in_block p i k;
}.

Lemma pow2_pos k : 0 ≤ k → 0 < 2 ^ k.
Proof. intros. by apply Z.pow_pos_nonneg. Qed.

Lemma pow2_S k : 0 ≤ k → 2 ^ (k + 1) = 2 * 2 ^ k.
Proof. intros. rewrite Z.add_1_r. by rewrite Z.pow_succ_r. Qed.

#[export] Hint Resolve pow2_pos : almos.

Lemma pow2_divide k m : 0 ≤ k ≤ m → (2 ^ k | 2 ^ m).
Proof.
  intros. exists (2 ^ (m - k)). rewrite <- Z.pow_add_r by lia. f_equal. lia.
Qed.

(** An aligned address strictly inside an aligned block of larger size. *)
Lemma aligned_inside k m i j :
  0 ≤ k → 0 ≤ m → (2 ^ k | i) → (2 ^ m | j) → in_block i j m → m ≤ k → i = j.
Proof.
  intros Hk Hm Hi Hj [H1 H2] Hmk.
  assert (2 ^ m | i) as Hi' by (transitivity (2 ^ k); [apply pow2_divide; lia|done]).
  destruct Hi' as [a ->], Hj as [b ->]. pose proof (pow2_pos m Hm).
  assert (b ≤ a) by nia. assert (a < b + 1) by nia. f_equal. lia.
Qed.

(** ** Buddies *)

Definition buddy i k : Z := Z.lxor i (Z.shiftl 1 k).

Lemma aligned_testbit k q : 0 ≤ k → Z.testbit (q * 2 ^ k) k = Z.odd q.
Proof.
  intros. rewrite Z.mul_pow2_bits by done. rewrite Z.sub_diag. by rewrite Z.bit0_odd.
Qed.

Lemma buddy_cases i k :
  0 ≤ k → 0 ≤ i → (2 ^ k | i) →
  ((2 ^ (k + 1) | i) ∧ buddy i k = i + 2 ^ k ∧ Z.land i (buddy i k) = i) ∨
  ((2 ^ (k + 1) | i - 2 ^ k) ∧ 2 ^ k ≤ i ∧ buddy i k = i - 2 ^ k ∧
   Z.land i (buddy i k) = i - 2 ^ k).
Proof.
  intros Hk Hi [q ->]. unfold buddy. rewrite Z.shiftl_1_l.
  pose proof (pow2_pos k Hk) as Hp.
  assert (Hbit : ∀ j, 0 ≤ j → Z.testbit (2 ^ k) j = (k =? j)).
  { intros. by apply Z.pow2_bits_eqb. }
  destruct (Z.odd q) eqn:Eq.
  - right. assert (Hl : Z.lxor (q * 2 ^ k) (2 ^ k) = q * 2 ^ k - 2 ^ k).
    { rewrite Z.sub_nocarry_ldiff.
      - apply Z.bits_inj'. intros j Hj. rewrite Z.lxor_spec, Z.ldiff_spec, Hbit by done.
        destruct (Z.eqb_spec k j) as [<-|]; [by rewrite aligned_testbit, Eq|].
        by destruct (Z.testbit (q * 2 ^ k) j).
      - apply Z.bits_inj'. intros j Hj. rewrite Z.ldiff_spec, Hbit, Z.bits_0 by done.
        destruct (Z.eqb_spec k j) as [<-|]; [by rewrite aligned_testbit, Eq|done]. }
    rewrite pow2_S by done. apply Z.odd_spec in Eq as [r ->].
    assert (0 ≤ 2 * r + 1) by (apply (Z.mul_le_mono_pos_r _ _ (2 ^ k)); lia).
    split_and!; [exists r; ring|nia|done|]. rewrite Hl.
    apply Z.bits_inj'. intros j Hj. rewrite Z.land_spec, <- Hl, Z.lxor_spec, Hbit by done.
    destruct (Z.eqb_spec k j) as [<-|];
      [rewrite aligned_testbit by done; by rewrite Z.odd_add, Z.odd_mul|].
    by destruct (Z.testbit _ j).
  - left. assert (Hl : Z.lxor (q * 2 ^ k) (2 ^ k) = q * 2 ^ k + 2 ^ k).
    { symmetry. apply Z.add_nocarry_lxor. apply Z.bits_inj'. intros j Hj.
      rewrite Z.land_spec, Hbit, Z.bits_0 by done.
      destruct (Z.eqb_spec k j) as [<-|]; [by rewrite aligned_testbit, Eq|].
      by rewrite andb_false_r. }
    split_and!; [|done|].
    + rewrite pow2_S by done.
      assert (Z.Even q) as [r ->] by (apply Z.even_spec; by rewrite <- Z.negb_odd, Eq).
      exists r. ring.
    + rewrite Hl. apply Z.bits_inj'. intros j Hj.
      rewrite Z.land_spec, <- Hl, Z.lxor_spec, Hbit by done.
      destruct (Z.eqb_spec k j) as [<-|]; [by rewrite aligned_testbit, Eq|].
      by destruct (Z.testbit _ j).
Qed.

Lemma buddy_ne i k : 0 ≤ k → 0 ≤ i → (2 ^ k | i) → buddy i k ≠ i.
Proof.
  intros Hk Hi Ha. pose proof (pow2_pos k Hk).
  destruct (buddy_cases i k Hk Hi Ha) as [(_&?&_)|(_&_&?&_)]; lia.
Qed.

(** A block of a memory that is a multiple of the largest block has its buddy
    inside the memory. *)
Lemma parent_in_range n i k :
  0 ≤ k < PPM_LAST_ORDER → (2 ^ PPM_LAST_ORDER | n) → 0 ≤ i → (2 ^ (k + 1) | i) →
  i < n → i + 2 ^ (k + 1) ≤ n.
Proof.
  unfold PPM_LAST_ORDER, PPM_MAX_ORDER. intros Hk Hn Hi [q ->] Hlt.
  assert (2 ^ (k + 1) | n) as [r ->].
  { transitivity (2 ^ (10 - 1)); [|done]. apply pow2_divide. lia. }
  pose proof (pow2_pos (k + 1) ltac:(lia)). assert (q < r) by nia. nia.
Qed.

Lemma buddy_in_range n i k :
  0 ≤ k < PPM_LAST_ORDER → (2 ^ PPM_LAST_ORDER | n) → 0 ≤ i → (2 ^ k | i) →
  i + 2 ^ k ≤ n → 0 ≤ buddy i k ∧ buddy i k + 2 ^ k ≤ n.
Proof.
  intros Hk Hn Hi Ha Hle.
  pose proof (pow2_pos k ltac:(lia)). pose proof (pow2_S k ltac:(lia)).
  destruct (buddy_cases i k) as [(H1&->&_)|(H1&H2&->&_)]; [lia|done|done| |].
  - pose proof (parent_in_range n i k Hk Hn Hi H1). lia.
  - lia.
Qed.

(** ** Operations on partitions *)

Lemma part_range n bm i k c :
  partition n bm → bm !! i = Some (k, c) →
  0 ≤ k < PPM_MAX_ORDER ∧ 0 ≤ i ∧ (2 ^ k | i) ∧ i + 2 ^ k ≤ n ∧ 0 < 2 ^ k ∧ i < n.
Proof.
  intros Hp Hi. destruct (part_block _ _ Hp _ _ _ Hi) as (?&?&?&?).
  pose proof (pow2_pos k ltac:(lia)). split_and!; try done; lia.
Qed.

Lemma partition_relabel n bm i k c d :
  partition n bm → bm !! i = Some (k, c) → partition n (<[i := (k, d)]> bm).
Proof.
  intros Hp Hi. assert (Hl : ∀ j m e, <[i := (k, d)]> bm !! j = Some (m, e) →
    ∃ e', bm !! j = Some (m, e')).
  { intros j m e. rewrite lookup_insert. case_decide; naive_solver. }
  split.
  - intros j m e (e'&Hj)%Hl. by eapply part_block.
  - intros j m e j' m' e2 (?&?)%Hl (?&?)%Hl. by eapply part_disj.
  - intros p Hn. destruct (part_cover _ _ Hp p Hn) as (j&m&e&Hj&Hb).
    destruct (decide (i = j)) as [<-|Hne].
    + exists i, k, d. rewrite lookup_insert_eq. simplify_eq. done.
    + exists j, m, e. by rewrite lookup_insert_ne.
Qed.

Lemma partition_split n bm i k c d :
  partition n bm → 0 ≤ k → bm !! i = Some (k + 1, c) →
  partition n (<[i + 2 ^ k := (k, d)]> (<[i := (k, c)]> bm)).
Proof.
  intros Hp Hk Hi. destruct (part_range _ _ _ _ _ Hp Hi) as (Hk1&Hi0&Ha&Hle&_&_).
  pose proof (pow2_pos k Hk). rewrite pow2_S in Ha, Hle by done.
  assert (2 ^ k | i) as Hai by (destruct Ha as [q ->]; exists (2 * q); ring).
  assert (Hnone : ∀ m e, bm !! (i + 2 ^ k) ≠ Some (m, e)).
  { intros m e Hb. destruct (part_range _ _ _ _ _ Hp Hb) as (?&?&?&?&?&?).
    pose proof (part_disj _ _ Hp _ _ _ _ _ _ Hi Hb) as Hd.
    rewrite pow2_S in Hd by done. lia. }
  assert (Hl : ∀ j m e, <[i + 2 ^ k := (k, d)]> (<[i := (k, c)]> bm) !! j = Some (m, e) →
    (j = i + 2 ^ k ∧ m = k) ∨ (j = i ∧ m = k) ∨ (j ≠ i ∧ j ≠ i + 2 ^ k ∧ bm !! j = Some (m, e))).
  { intros j m e. rewrite !lookup_insert. repeat case_decide; naive_solver. }
  assert (Hfar : ∀ j m e, bm !! j = Some (m, e) → j ≠ i →
    j + 2 ^ m ≤ i ∨ i + 2 * 2 ^ k ≤ j).
  { intros j m e Hj Hne. pose proof (part_disj _ _ Hp _ _ _ _ _ _ Hj Hi Hne) as Hd.
    rewrite pow2_S in Hd by done. lia. }
  split.
  - intros j m e [[-> ->]|[[-> ->]|(?&?&Hj)]]%Hl; [| |by eapply part_block].
    + split_and!; [lia..| |lia]. by apply Z.divide_add_r.
    + split_and!; [lia..|done|lia].
  - intros j m e j' m' e' Hj%Hl Hj'%Hl Hne.
    destruct Hj as [[-> ->]|[[-> ->]|(?&?&Hj)]], Hj' as [[-> ->]|[[-> ->]|(?&?&Hj')]];
      try lia; try (pose proof (Hfar _ _ _ Hj); lia);
      try (pose proof (Hfar _ _ _ Hj'); lia). by eapply part_disj.
  - intros p Hn. destruct (part_cover _ _ Hp p Hn) as (j&m&e&Hj&Hb).
    destruct (decide (j = i)) as [->|Hne].
    + assert (m = k + 1) as -> by congruence. unfold in_block in *.
      rewrite pow2_S in Hb by done. destruct (Z.lt_ge_cases p (i + 2 ^ k)).
      * exists i, k, c. rewrite lookup_insert_ne by lia. rewrite lookup_insert_eq.
        split; [done|lia].
      * exists (i + 2 ^ k), k, d. rewrite lookup_insert_eq. split; [done|lia].
    + exists j, m, e. rewrite lookup_insert_ne by congruence.
      by rewrite lookup_insert_ne.
Qed.

Lemma partition_merge n bm i k c d :
  partition n bm → k < PPM_LAST_ORDER →
  bm !! i = Some (k, c) → bm !! (buddy i k) = Some (k, d) →
  partition n (<[Z.land i (buddy i k) := (k + 1, c)]> (delete i (delete (buddy i k) bm))).
Proof.
  intros Hp Hk Hi Hb. destruct (part_range _ _ _ _ _ Hp Hi) as (Hk0&Hi0&Ha&Hle&Hpos&_).
  destruct (part_range _ _ _ _ _ Hp Hb) as (_&Hb0&_&Hble&_&_).
  set (b := buddy i k) in *. set (j := Z.land i b).
  (* the parent is the lower of the two halves *)
  assert (Hj : (2 ^ (k + 1) | j) ∧ 0 ≤ j ∧
    ((j = i ∧ b = i + 2 ^ k) ∨ (j = b ∧ i = b + 2 ^ k))).
  { destruct (buddy_cases i k) as [(Hd&Eb&El)|(Hd&Hge&Eb&El)]; [lia|done|done|..];
      fold b in Eb, El; fold j in El.
    - split_and!; [by rewrite El|lia|left; lia].
    - split_and!; [by rewrite El|lia|right; lia]. }
  destruct Hj as (Hja&Hj0&Hcase).
  assert (Hl : ∀ x m e, <[j := (k + 1, c)]> (delete i (delete b bm)) !! x = Some (m, e) →
    (x = j ∧ m = k + 1) ∨ (x ≠ i ∧ x ≠ b ∧ bm !! x = Some (m, e))).
  { intros x m e. rewrite lookup_insert, !lookup_delete. repeat case_decide; naive_solver. }
  assert (Hfar : ∀ x m e, bm !! x = Some (m, e) → x ≠ i → x ≠ b →
    x + 2 ^ m ≤ j ∨ j + 2 * 2 ^ k ≤ x).
  { intros x m e Hx Hne Hne'.
    destruct (part_range _ _ _ _ _ Hp Hx) as (?&?&?&?&?&?).
    pose proof (part_disj _ _ Hp _ _ _ _ _ _ Hx Hi Hne).
    pose proof (part_disj _ _ Hp _ _ _ _ _ _ Hx Hb Hne'). lia. }
  assert (HS : 2 ^ (k + 1) = 2 * 2 ^ k) by (apply pow2_S; lia).
  split.
  - intros x m e [[-> ->]|(?&?&Hx)]%Hl; [|by eapply part_block].
    unfold PPM_LAST_ORDER in Hk. split_and!; [lia..|done|lia].
  - intros x m e x' m' e' Hx%Hl Hx'%Hl Hne.
    destruct Hx as [[-> ->]|(?&?&Hx)], Hx' as [[-> ->]|(?&?&Hx')];
      [lia|pose proof (Hfar _ _ _ Hx'); lia|pose proof (Hfar _ _ _ Hx); lia|].
    by eapply part_disj.
  - intros p Hn. destruct (part_cover _ _ Hp p Hn) as (x&m&e&Hx&Hin). unfold in_block in *.
    destruct (decide (x = i)) as [->|Hne]; [|destruct (decide (x = b)) as [->|Hne']].
    + assert (m = k) as -> by congruence. exists j, (k + 1), c. rewrite lookup_insert_eq. split; [done|lia].
    + assert (m = k) as -> by congruence. exists j, (k + 1), c. rewrite lookup_insert_eq.
      split; [done|lia].
    + exists x, m, e. rewrite lookup_insert_ne by lia.
      by rewrite !lookup_delete_ne by done.
Qed.

(** The buddy of a block is the first page of a block that is not larger. *)
Lemma buddy_is_head n bm i k c :
  partition n bm → (2 ^ PPM_LAST_ORDER | n) → k < PPM_LAST_ORDER →
  bm !! i = Some (k, c) →
  ∃ m d, bm !! (buddy i k) = Some (m, d) ∧ m ≤ k.
Proof.
  intros Hp Hn Hk Hi. destruct (part_range _ _ _ _ _ Hp Hi) as (Hk0&Hi0&Ha&Hle&Hpos&_).
  destruct (buddy_in_range n i k) as [Hb0 Hb1]; [lia|done..|].
  destruct (part_cover _ _ Hp (buddy i k)) as (j&m&d&Hj&Hin); [lia|].
  destruct (part_range _ _ _ _ _ Hp Hj) as (Hm&Hj0&Haj&_&_&_).
  assert (HS : 2 ^ (k + 1) = 2 * 2 ^ k) by (apply pow2_S; lia).
  assert (Hba : (2 ^ k | buddy i k) ∧ buddy i k ≠ i).
  { split; [|apply buddy_ne; [lia|done..]].
    destruct (buddy_cases i k) as [(_&->&_)|(_&_&->&_)]; [lia|done|done|..].
    - by apply Z.divide_add_r.
    - by apply Z.divide_sub_r. }
  destruct Hba as [Hba Hbne].
  destruct (Z.le_gt_cases m k) as [Hmk|Hmk].
  { assert (buddy i k = j) as -> by (apply (aligned_inside k m); (done || lia)). eauto. }
  (* a larger block around the buddy would also contain the block itself *)
  exfalso. assert (Hj' : j ≠ i).
  { intros ->. rewrite Hi in Hj. simplify_eq. lia. }
  pose proof (part_disj _ _ Hp _ _ _ _ _ _ Hj Hi Hj') as Hd.
  assert (∃ q, j = q * (2 * 2 ^ k)) as [q Eq].
  { assert (2 ^ (k + 1) | j) as [q ->]; [|exists q; by rewrite HS].
    transitivity (2 ^ m); [apply pow2_divide; lia|done]. }
  assert (∃ r, 2 ^ m = r * (2 * 2 ^ k)) as [r Er].
  { destruct (pow2_divide (k + 1) m) as [r Er]; [lia|]. exists r. by rewrite Er, HS. }
  unfold in_block in Hin.
  destruct (buddy_cases i k) as [([s Es]&Eb&_)|([s Es]&_&Eb&_)]; [lia|done|done|..];
    rewrite HS in Es; rewrite Eb in Hin; rewrite Er, Eq in Hin, Hd;
    assert (q ≤ s) by nia; assert (s < q + r) by nia; destruct Hd; nia.
Qed.

(** ** Free pages *)

Definition is_free bm p : Prop :=
  ∃ i k, bm !! i = Some (k, Kfree) ∧ in_block p i k.

Lemma is_free_hold n bm i k c p :
  partition n bm → bm !! i = Some (k, Kfree) → c ≠ Kfree →
  is_free (<[i := (k, c)]> bm) p ↔ is_free bm p ∧ ¬ in_block p i k.
Proof.
  intros Hp Hi Hc. split.
  - intros (j&m&Hj&Hin). rewrite lookup_insert in Hj. case_decide as Hij; [congruence|].
    split; [by exists j, m|]. intros Hin'. unfold in_block in *.
    destruct (part_disj _ _ Hp _ _ _ _ _ _ Hi Hj Hij); lia.
  - intros [(j&m&Hj&Hin) Hno]. exists j, m. split; [|done].
    rewrite lookup_insert_ne; [done|]. intros ->. by simplify_eq.
Qed.

Lemma is_free_release bm i k c p :
  bm !! i = Some (k, c) → c ≠ Kfree →
  is_free (<[i := (k, Kfree)]> bm) p ↔ is_free bm p ∨ in_block p i k.
Proof.
  intros Hi Hc. split.
  - intros (j&m&Hj&Hin). rewrite lookup_insert in Hj. case_decide; simplify_eq; [by right|].
    left. by exists j, m.
  - intros [(j&m&Hj&Hin)|Hin].
    + exists j, m. rewrite lookup_insert_ne; [done|]. intros ->. congruence.
    + exists i, k. by rewrite lookup_insert_eq.
Qed.

Lemma is_free_relabel bm i k m c d p :
  bm !! i = Some (k, c) → c ≠ Kfree → d ≠ Kfree →
  is_free (<[i := (m, d)]> bm) p ↔ is_free bm p.
Proof.
  intros Hi Hc Hd. split; intros (j&m'&Hj&Hin); exists j, m'; split; try done.
  - rewrite lookup_insert in Hj. case_decide; congruence.
  - rewrite lookup_insert_ne; [done|]. congruence.
Qed.

Lemma is_free_split n bm i k p :
  partition n bm → 0 ≤ k → bm !! i = Some (k + 1, Kheld) →
  is_free (<[i + 2 ^ k := (k, Kfree)]> (<[i := (k, Kheld)]> bm)) p ↔
  is_free bm p ∨ in_block p (i + 2 ^ k) k.
Proof.
  intros Hp Hk Hi. pose proof (pow2_pos k Hk).
  assert (Hnone : bm !! (i + 2 ^ k) = None).
  { apply eq_None_not_Some. intros [[m e] Hb].
    destruct (part_range _ _ _ _ _ Hp Hb) as (?&?&?&?&?&?).
    pose proof (part_disj _ _ Hp _ _ _ _ _ _ Hi Hb) as Hd.
    rewrite pow2_S in Hd by done. lia. }
  split.
  - intros (j&m&Hj&Hin). rewrite lookup_insert in Hj.
    case_decide; simplify_eq; [by right|]. left.
    apply (is_free_relabel bm i (k + 1) k Kheld Kheld); [done..|]. by exists j, m.
  - intros [(j&m&Hj&Hin)|Hin].
    + exists j, m. rewrite !lookup_insert_ne; [done|congruence..].
    + exists (i + 2 ^ k), k. by rewrite lookup_insert_eq.
Qed.

Lemma is_free_merge n bm i k p :
  partition n bm → bm !! i = Some (k, Kheld) → bm !! (buddy i k) = Some (k, Kfree) →
  is_free (<[Z.land i (buddy i k) := (k + 1, Kheld)]> (delete i (delete (buddy i k) bm))) p
  ↔ is_free bm p ∧ ¬ in_block p (buddy i k) k.
Proof.
  intros Hp Hi Hb. destruct (part_range _ _ _ _ _ Hp Hi) as (?&?&?&_).
  assert (Hj : Z.land i (buddy i k) = i ∨ Z.land i (buddy i k) = buddy i k).
  { destruct (buddy_cases i k) as [(_&->&->)|(_&_&->&->)]; [lia|done|done|..]; auto. }
  set (j := Z.land i (buddy i k)) in *. split.
  - intros (x&m&Hx&Hin). rewrite lookup_insert, !lookup_delete in Hx.
    repeat case_decide; simplify_eq. split; [by exists x, m|]. intros Hin'.
    unfold in_block in *.
    destruct (part_disj _ _ Hp _ _ _ _ _ _ Hx Hb); [congruence|lia..].
  - intros [(x&m&Hx&Hin) Hno]. exists x, m. split; [|done].
    assert (x ≠ buddy i k) by (intros ->; simplify_eq; done).
    assert (x ≠ i) by congruence.
    rewrite lookup_insert_ne by (destruct Hj; congruence).
    by rewrite !lookup_delete_ne.
Qed.

(** ** Counting free pages *)

Definition bsize (kc : Z * kind) : Z :=
  match snd kc with Kfree => 2 ^ fst kc | _ => 0 end.

Definition free_sum bm : Z := map_fold (λ _ kc acc, bsize kc + acc) 0 bm.

Lemma free_sum_insert bm i kc :
  bm !! i = None → free_sum (<[i := kc]> bm) = bsize kc + free_sum bm.
Proof. intros. unfold free_sum. rewrite map_fold_insert_L; [done|intros; lia|done]. Qed.

Lemma free_sum_delete bm i kc :
  bm !! i = Some kc → free_sum (delete i bm) = free_sum bm - bsize kc.
Proof.
  intros Hi. rewrite <- (insert_delete_id bm i kc Hi) at 2.
  rewrite free_sum_insert by apply lookup_delete_eq. lia.
Qed.

Lemma free_sum_update bm i kc kc' :
  bm !! i = Some kc → free_sum (<[i := kc']> bm) = free_sum bm - bsize kc + bsize kc'.
Proof.
  intros Hi. rewrite <- insert_delete_eq.
  rewrite free_sum_insert by apply lookup_delete_eq.
  rewrite (free_sum_delete _ _ _ Hi). lia.
Qed.

Definition block_set i k : gset Z := list_to_set (seqZ i (2 ^ k)).

Lemma elem_of_block_set p i k : p ∈ block_set i k ↔ in_block p i k.
Proof. unfold block_set, in_block. rewrite elem_of_list_to_set, elem_of_seqZ. done. Qed.

Lemma size_block_set i k : 0 ≤ k → Z.of_nat (size (block_set i k)) = 2 ^ k.
Proof.
  intros Hk. unfold block_set. rewrite size_list_to_set by apply NoDup_seqZ.
  rewrite length_seqZ. pose proof (pow2_pos k Hk). lia.
Qed.

(** Blocks of a map that are pairwise disjoint. *)
Definition separated bm : Prop :=
  (∀ i k c, bm !! i = Some (k, c) → 0 ≤ k) ∧
  (∀ i k c j m d, bm !! i = Some (k, c) → bm !! j = Some (m, d) → i ≠ j →
     i + 2 ^ k ≤ j ∨ j + 2 ^ m ≤ i).

Lemma free_count bm :
  separated bm →
  ∃ S : gset Z, (∀ p, p ∈ S ↔ is_free bm p) ∧ Z.of_nat (size S) = free_sum bm.
Proof.
  induction bm as [|i [k c] bm Hi Hfirst IH] using map_first_key_ind; intros [Hk Hd].
  - exists ∅. split; [|done]. intros p. split; [set_solver|].
    intros (?&?&Hj&_). by rewrite lookup_empty in Hj.
  - destruct IH as (S&HS&Hsz).
    { split.
      - intros j m d Hj. apply (Hk j m d). rewrite lookup_insert_ne; congruence.
      - intros j m d j' m' d' Hj Hj' Hne. apply (Hd j m d j' m' d');
          [rewrite lookup_insert_ne; congruence..|done]. }
    assert (Hki : 0 ≤ k) by (apply (Hk i k c); by rewrite lookup_insert_eq).
    assert (Hdis : ∀ p, is_free bm p → ¬ in_block p i k).
    { intros p (j&m&Hj&Hin) Hin'. unfold in_block in *.
      destruct (Hd i k c j m Kfree); [by rewrite lookup_insert_eq| |congruence|lia..].
      rewrite lookup_insert_ne; congruence. }
    rewrite free_sum_insert by done. destruct c.
    + exists (block_set i k ∪ S). split.
      * intros p. rewrite elem_of_union, elem_of_block_set, HS. split.
        -- intros [Hin|(j&m&Hj&Hin)]; [exists i, k; by rewrite lookup_insert_eq|].
           exists j, m. rewrite lookup_insert_ne by congruence. done.
        -- intros (j&m&Hj&Hin). rewrite lookup_insert in Hj.
           case_decide; simplify_eq; [by left|right; by exists j, m].
      * rewrite size_union.
        -- rewrite Nat2Z.inj_add, size_block_set by done. simpl. by rewrite Hsz.
        -- intros p. rewrite elem_of_block_set, HS. naive_solver.
    + exists S. split; [|done]. intros p. rewrite HS.
      split; intros (j&m&Hj&Hin); exists j, m.
      * rewrite lookup_insert_ne by congruence. done.
      * rewrite lookup_insert in Hj. case_decide; naive_solver.
    + exists S. split; [|done]. intros p. rewrite HS.
      split; intros (j&m&Hj&Hin); exists j, m.
      * rewrite lookup_insert_ne by congruence. done.
      * rewrite lookup_insert in Hj. case_decide; naive_solver.
Qed.

Lemma partition_separated n bm : partition n bm → separated bm.
Proof.
  intros Hp. split.
  - intros i k c Hi. destruct (part_range _ _ _ _ _ Hp Hi); lia.
  - exact (part_disj _ _ Hp).
Qed.

Lemma free_sum_bound n bm : 0 ≤ n → partition n bm → 0 ≤ free_sum bm ≤ n.
Proof.
  intros Hn Hp. destruct (free_count bm) as (S&HS&<-); [by eapply partition_separated|].
  split; [lia|]. assert (S ⊆ list_to_set (seqZ 0 n)) as Hsub.
  { intros p (i&k&Hi&Hin)%HS. rewrite elem_of_list_to_set, elem_of_seqZ.
    destruct (part_range _ _ _ _ _ Hp Hi) as (?&?&?&?&?&?). unfold in_block in Hin. lia. }
  apply subseteq_size in Hsub. rewrite size_list_to_set in Hsub by apply NoDup_seqZ.
  rewrite length_seqZ in Hsub. lia.
Qed.

(** The number of free pages is determined by the set of free pages. *)
Lemma free_sum_add n bm bm' i k :
  partition n bm → partition n bm' → 0 ≤ k →
  (∀ p, is_free bm' p ↔ is_free bm p ∨ in_block p i k) →
  (∀ p, is_free bm p → ¬ in_block p i k) →
  free_sum bm' = free_sum bm + 2 ^ k.
Proof.
  intros Hp Hp' Hk Hf Hd.
  destruct (free_count bm (partition_separated _ _ Hp)) as (S&HS&<-).
  destruct (free_count bm' (partition_separated _ _ Hp')) as (S'&HS'&<-).
  assert (S' = S ∪ block_set i k) as ->.
  { apply set_eq. intros p. by rewrite HS', Hf, elem_of_union, elem_of_block_set, HS. }
  rewrite size_union.
  - rewrite Nat2Z.inj_add, size_block_set by done. done.
  - intros p Hp1 Hp2. apply elem_of_block_set in Hp2. apply (Hd p); [by apply HS|done].
Qed.

(** A page belongs to one block only. *)
Lemma in_block_unique n bm p i k c j m d :
  partition n bm → bm !! i = Some (k, c) → bm !! j = Some (m, d) →
  in_block p i k → in_block p j m → i = j.
Proof.
  intros Hp Hi Hj Hin Hjn. destruct (decide (i = j)) as [|Hne]; [done|].
  unfold in_block in *. destruct (part_disj _ _ Hp _ _ _ _ _ _ Hi Hj Hne); lia.
Qed.

(** ** Coalescing

    No two buddies are free at the same time: they would have been merged. *)

Definition coalesced bm : Prop :=
  ∀ i k, bm !! i = Some (k, Kfree) → k < PPM_LAST_ORDER → bm !! buddy i k ≠ Some (k, Kfree).

Lemma buddy_involutive i k : buddy (buddy i k) k = i.
Proof. unfold buddy. by rewrite Z.lxor_assoc, Z.lxor_nilpotent, Z.lxor_0_r. Qed.

Lemma buddy_of_upper i k :
  0 ≤ k → 0 ≤ i → (2 ^ (k + 1) | i) → buddy (i + 2 ^ k) k = i.
Proof.
  intros Hk Hi Ha. pose proof (pow2_pos k Hk).
  assert (2 ^ k | i) as Hk1 by (transitivity (2 ^ (k + 1)); [apply pow2_divide; lia|done]).
  destruct (buddy_cases i k Hk Hi Hk1) as [(_&<-&_)|([q Hq]&_)]; [apply buddy_involutive|].
  destruct Ha as [r Hr]. rewrite pow2_S in * by done.
  assert ((2 * (r - q) - 1) * 2 ^ k = 0) as H0 by lia. apply Z.mul_eq_0 in H0. lia.
Qed.

(** Removing free blocks preserves the property. *)
Lemma coalesced_mono bm bm' :
  coalesced bm → (∀ i k, bm' !! i = Some (k, Kfree) → bm !! i = Some (k, Kfree)) →
  coalesced bm'.
Proof. intros Hc Hs i k Hi Hk Hb. apply (Hc i k); auto. Qed.

(** Adding a block whose buddy is not free does too. *)
Lemma coalesced_add bm i k :
  coalesced bm → (k < PPM_LAST_ORDER → bm !! buddy i k ≠ Some (k, Kfree)) →
  0 ≤ k → 0 ≤ i → (2 ^ k | i) →
  coalesced (<[i := (k, Kfree)]> bm).
Proof.
  intros Hc Hb Hk Hi Ha j m Hj Hm. pose proof (buddy_ne i k Hk Hi Ha) as Hne.
  rewrite lookup_insert in *. destruct (decide (i = j)) as [<-|Hij].
  - simplify_eq. rewrite decide_False by congruence. auto.
  - destruct (decide (i = buddy j m)) as [->|Hib]; [|by apply Hc].
    intros [= ->]. apply Hb; [done|]. by rewrite buddy_involutive.
Qed.

(** A block inside an aligned range has its buddy in the range. *)
Lemma buddy_inside i k j m :
  0 ≤ m < k → 0 ≤ i → 0 ≤ j → (2 ^ k | i) → (2 ^ m | j) → i ≤ j → j + 2 ^ m ≤ i + 2 ^ k →
  i ≤ buddy j m ∧ buddy j m + 2 ^ m ≤ i + 2 ^ k.
Proof.
  intros Hm Hi0 Hj0 Hi Hj H1 H2. pose proof (pow2_pos m ltac:(lia)).
  assert (2 ^ (m + 1) | 2 ^ k) as [c Hc] by (apply pow2_divide; lia).
  pose proof (pow2_S m ltac:(lia)) as HS. destruct Hi as [a ->].
  destruct (buddy_cases j m) as [([q Hq]&->&_)|([q Hq]&_&->&_)]; [lia|done|done|..].
  - split; [lia|]. rewrite Hq in *. assert (q < (a + 1) * c) by nia. nia.
  - split; [|lia]. assert (j = q * 2 ^ (m + 1) + 2 ^ m) as -> by lia.
    assert (a * c ≤ q) by nia. nia.
Qed.

(** In a coalesced partition, a free aligned range lies in one free block. *)
Lemma coalesced_complete n bm i k :
  partition n bm → (2 ^ PPM_LAST_ORDER | n) → coalesced bm →
  0 ≤ k < PPM_MAX_ORDER → 0 ≤ i → (2 ^ k | i) →
  (∀ p, in_block p i k → is_free bm p) →
  ∃ j m, bm !! j = Some (m, Kfree) ∧ k ≤ m.
Proof.
  intros Hp Hn Hc Hk Hi0 Hi Hf. pose proof (pow2_pos k ltac:(lia)).
  assert (Hno : ∀ m, 0 ≤ m → m < k → ∀ j, bm !! j = Some (m, Kfree) → i ≤ j →
                  j + 2 ^ m ≤ i + 2 ^ k → False).
  { intros m Hm0. pattern m. apply Z_lt_induction; [|done]. clear m Hm0.
    intros m IH Hmk j Hj Hij Hji.
    destruct (part_range _ _ _ _ _ Hp Hj) as (Hm&Hj0&Ha&_).
    assert (m < PPM_LAST_ORDER) as HmL by (unfold PPM_LAST_ORDER; lia).
    destruct (buddy_is_head n bm j m Kfree Hp Hn HmL Hj) as (m'&d&Hb&Hm').
    destruct (buddy_inside i k j m) as [Hb1 Hb2]; [lia|done..|].
    pose proof (part_range _ _ _ _ _ Hp Hb) as (Hm'0&_&_&_&Hpos&_).
    pose proof (pow2_pos m ltac:(lia)).
    destruct (Hf (buddy j m)) as (x&mx&Hx&Hin); [unfold in_block; lia|].
    assert (x = buddy j m) as ->.
    { eapply in_block_unique; [exact Hp|exact Hx|exact Hb|exact Hin|unfold in_block; lia]. }
    assert (d = Kfree) as -> by congruence.
    destruct (decide (m' = m)) as [->|]; [by apply (Hc j m)|].
    assert (2 ^ m' ≤ 2 ^ m) by (apply Z.pow_le_mono_r; lia).
    apply (IH m') with (j := buddy j m); [lia|lia|done|lia..]. }
  destruct (Hf i) as (j&m&Hj&Hin); [unfold in_block; lia|].
  exists j, m. split; [done|]. destruct (Z.le_gt_cases k m) as [|Hlt]; [done|].
  destruct (part_range _ _ _ _ _ Hp Hj) as (Hm&Hj0&Ha&_&_&_).
  assert (i = j) as <- by (eapply (aligned_inside k m); [lia..|done|done|done|lia]).
  exfalso. apply (Hno m) with (j := i); [lia|done|done|lia|].
  assert (2 ^ m ≤ 2 ^ k) by (apply Z.pow_le_mono_r; lia). lia.
Qed.
