(* ===== verification/Ppm.v ===== *)
(** * The per-cluster physical pages manager (src/kernel/mm/ppm.c, ppm.h)

    A binary buddy allocator.  The record [ppm_s] is the manager of one cluster:
    page descriptors are named by their index in [pages_tbl], the free list of
    order [k] is rooted at [Root k] and chains the [list] fields [Obj i] of the
    descriptors.  [None] is a memory fault or a failed assertion.  The operations
    run under [ppm->lock] and are modelled as single steps. *)

From S2P Require Import Prelude Clist Bits Page Buddy.

Open Scope Z_scope.

Definition PPM_ID : Z := 0xF0F0A5A5.
Definition PPM_MAX_WAIT : Z := PPM_MAX_ORDER.

(** Percentages of free pages kept back from lower priorities. *)
Definition CONFIG_PPM_UPRIO_PGMIN : Z := 80.
Definition CONFIG_PPM_KPRIO_PGMIN : Z := 15.
Definition CONFIG_PPM_URGENT_PGMIN : Z := 5.

(** ** State *)

(** [free_pages[k].pages_nr] is [free_nr !! k]; [wait_tbl] holds the threads asleep
    in each wait queue. *)
Record ppm_s := Ppm {
  signature : Z;
  ppn_start : Z;
  vaddr_begin : Z;
  vaddr_start : Z;
  free_nr : list Z;
  plinks : links;
  pages_tbl : list page_s;
  pages_nr : Z;
  free_pages_nr : Z;
  uprio_pages_min : Z;
  kprio_pages_min : Z;
  urgent_pages_min : Z;
  pbegin : Z;
  wait_tbl : list (list Z);
}.

(** The fields the operations write. *)
Definition upd_free (l : list Z) (h : links) (s : ppm_s) : ppm_s :=
  Ppm (signature s) (ppn_start s) (vaddr_begin s) (vaddr_start s) l h (pages_tbl s)
    (pages_nr s) (free_pages_nr s) (uprio_pages_min s) (kprio_pages_min s)
    (urgent_pages_min s) (pbegin s) (wait_tbl s).
Definition upd_pages (t : list page_s) (s : ppm_s) : ppm_s :=
  Ppm (signature s) (ppn_start s) (vaddr_begin s) (vaddr_start s) (free_nr s) (plinks s) t
    (pages_nr s) (free_pages_nr s) (uprio_pages_min s) (kprio_pages_min s)
    (urgent_pages_min s) (pbegin s) (wait_tbl s).
Definition upd_free_pages_nr (n : Z) (s : ppm_s) : ppm_s :=
  Ppm (signature s) (ppn_start s) (vaddr_begin s) (vaddr_start s) (free_nr s) (plinks s)
    (pages_tbl s) (pages_nr s) n (uprio_pages_min s) (kprio_pages_min s)
    (urgent_pages_min s) (pbegin s) (wait_tbl s).
Definition upd_wait_tbl (w : list (list Z)) (s : ppm_s) : ppm_s :=
  Ppm (signature s) (ppn_start s) (vaddr_begin s) (vaddr_start s) (free_nr s) (plinks s)
    (pages_tbl s) (pages_nr s) (free_pages_nr s) (uprio_pages_min s) (kprio_pages_min s)
    (urgent_pages_min s) (pbegin s) w.
Definition upd_mins (u k g : Z) (s : ppm_s) : ppm_s :=
  Ppm (signature s) (ppn_start s) (vaddr_begin s) (vaddr_start s) (free_nr s) (plinks s)
    (pages_tbl s) (pages_nr s) (free_pages_nr s) u k g (pbegin s) (wait_tbl s).

(** ** Access to descriptors and free lists *)

(** [page->order = order]; the field has four bits. *)
Definition set_page_order (s : ppm_s) (page order : Z) : option ppm_s :=
  p ← aget (pages_tbl s) page;
  t ← aset (pages_tbl s) page (set_order (order mod 16) p);
  Some (upd_pages t s).

Definition set_page_state (this : Z) (s : ppm_s) (page : Z) (st : page_state_t)
    : option ppm_s :=
  p ← aget (pages_tbl s) page;
  o ← page_state_set this p st;
  t ← aset (pages_tbl s) page (pg o);
  Some (upd_pages t s).

(** [list_unlink(&block->list)] and the counter of the list. *)
Definition take_block (s : ppm_s) (block order : Z) : option ppm_s :=
  h ← list_unlink (plinks s) (At (Obj block));
  n ← aget (free_nr s) order;
  l ← aset (free_nr s) order (u32 (n - 1));
  Some (upd_free l h s).

(** [list_add(&ppm->free_pages[order].root, &block->list)] and its counter. *)
Definition put_block (s : ppm_s) (block order : Z) : option ppm_s :=
  h ← list_add (plinks s) (At (Root order)) (At (Obj block));
  n ← aget (free_nr s) order;
  l ← aset (free_nr s) order (u32 (n + 1));
  Some (upd_free l h s).

(** ** Freeing *)

(** The loop of [ppm_free_pages_nolock]; [n] bounds the iterations left, the
    condition [current_order < PPM_LAST_ORDER] being [n > 0].  Returns
    [page_index] and [current_order] at the exit. *)
Fixpoint merge_loop (n : nat) (s : ppm_s) (page_index current_order : Z)
    : option (ppm_s * Z * Z) :=
  match n with
  | O => Some (s, page_index, current_order)
  | S n =>
      let block_index := Z.lxor page_index (Z.shiftl 1 current_order) in
      block ← aget (pages_tbl s) block_index;
      if bool_decide (page_state_get block ≠ PGFREE) || negb (order block =? current_order)
      then Some (s, page_index, current_order) else
      s ← take_block s block_index current_order;
      s ← set_page_order s block_index 0;
      merge_loop n s (Z.land page_index block_index) (current_order + 1)
  end.

Definition ppm_free_pages_nolock (this : Z) (s : ppm_s) (page order index : Z)
    : option ppm_s :=
  s ← set_page_state this s page PGFREE;
  let s := upd_free_pages_nr (u32 (free_pages_nr s + Z.shiftl 1 order)) s in
  '(s, page_index, current_order) ←
    merge_loop (Z.to_nat (PPM_LAST_ORDER - order)) s index order;
  s ← set_page_order s page_index current_order;
  put_block s page_index current_order.

(** The reference count is the one of the first descriptor of the block;
    [page - ppm->pages_tbl] is the index itself. *)
Definition ppm_free_pages (this : Z) (s : ppm_s) (page : Z) : option ppm_s :=
  p ← aget (pages_tbl s) page;
  let '(old, p) := page_refcount_down p in
  t ← aset (pages_tbl s) page p;
  let s := upd_pages t s in
  if 1 <? old then Some s else
  ppm_free_pages_nolock this s page (order p) page.

(** ** Allocation *)

(** The search loop: first non-empty list of order at least [current_order].  The
    block found is unlinked; its list's counter is decremented by the caller. *)
Fixpoint search_loop (n : nat) (s : ppm_s) (current_order : Z)
    : option (ppm_s * option (Z * Z)) :=
  match n with
  | O => Some (s, None)
  | S n =>
      e ← list_empty (plinks s) (At (Root current_order));
      if (e : bool) then search_loop n s (current_order + 1) else
      f ← list_first (plinks s) (At (Root current_order));
      block ← obj_of f;
      h ← list_unlink (plinks s) (At (Obj block));
      Some (upd_free (free_nr s) h s, Some (block, current_order))
  end.

(** The splitting loop, [n = current_order - order] iterations. *)
Fixpoint split_loop (n : nat) (s : ppm_s) (block current_order current_size : Z)
    : option ppm_s :=
  match n with
  | O => Some s
  | S n =>
      let current_order := current_order - 1 in
      let current_size := Z.shiftr current_size 1 in
      let remaining_block := block + current_size in
      s ← set_page_order s remaining_block current_order;
      s ← put_block s remaining_block current_order;
      split_loop n s block current_order current_size
  end.

Definition set_refcount_up (s : ppm_s) (page : Z) : option ppm_s :=
  p ← aget (pages_tbl s) page;
  t ← aset (pages_tbl s) page (snd (page_refcount_up p));
  Some (upd_pages t s).

(** The result is the manager and the block, [None] for [NULL].  The argument
    [flags] of the source is not used by its body. *)
Definition ppm_do_alloc_pages (this : Z) (s : ppm_s) (order : Z)
    : option (ppm_s * option Z) :=
  _ ← cassert (signature s =? PPM_ID);
  '(s, found) ← search_loop (Z.to_nat (PPM_MAX_ORDER - order)) s order;
  match found with
  | None => Some (s, None)
  | Some (block, current_order) =>
      let s := upd_free_pages_nr (u32 (free_pages_nr s - Z.shiftl 1 order)) s in
      n ← aget (free_nr s) current_order;
      l ← aset (free_nr s) current_order (u32 (n - 1));
      let s := upd_free l (plinks s) s in
      s ← split_loop (Z.to_nat (current_order - order)) s block current_order
            (Z.shiftl 1 current_order);
      s ← set_page_state this s block PGINVALID;
      s ← set_refcount_up s block;
      s ← set_page_order s block order;
      Some (s, Some block)
  end.

(** ** Addresses

    [ppm_page2addr] and its siblings; a descriptor is its index. *)

Definition ppm_page2addr (s : ppm_s) (page : Z) : Z :=
  u32 (page * PMM_PAGE_SIZE + vaddr_begin s).
Definition ppm_addr2page (s : ppm_s) (addr : Z) : Z :=
  Z.shiftr (u32 (addr - vaddr_begin s)) PMM_PAGE_SHIFT.
Definition ppm_page2ppn (s : ppm_s) (page : Z) : Z := u32 (page + ppn_start s).
Definition ppm_vma2ppn (s : ppm_s) (vma : Z) : Z :=
  u32 (Z.shiftr (u32 (vma - vaddr_begin s)) PMM_PAGE_SHIFT + ppn_start s).

(** The platform: the identifier of the cluster the code runs in, and the table
    [Arch_cid_To_Almos_cid] of src/kernel/arch/tsar. *)
Record platform := Platform { current_cid : Z; arch_cids : list Z }.

Definition PMM_CID_SHIFT : Z := 20.

Definition pmm_ppn2cid (pf : platform) (ppn : Z) : option Z :=
  aget (arch_cids pf) (Z.shiftr ppn PMM_CID_SHIFT).

Definition ppm_ppn2page (pf : platform) (s : ppm_s) (ppn : Z) : option Z :=
  c ← pmm_ppn2cid pf ppn;
  _ ← cassert (current_cid pf =? c);
  Some (u32 (ppn - ppn_start s)).

Definition ppm_ppn2vma (pf : platform) (s : ppm_s) (ppn : Z) : option Z :=
  c ← pmm_ppn2cid pf ppn;
  _ ← cassert (current_cid pf =? c);
  Some (u32 (Z.shiftl (u32 (ppn - ppn_start s)) PMM_PAGE_SHIFT + vaddr_begin s)).

(** ** Initialisation *)

Record boot_info_s := BootInfo {
  local_cluster_id : Z; boot_cluster_id : Z; reserved_start : Z; reserved_end : Z }.

(** [for(i=0; i < n; i++) page_state_set(&pages_tbl[i], PGRESERVED)], from [i]. *)
Fixpoint reserve_loop (n : nat) (this : Z) (s : ppm_s) (i : Z) : option ppm_s :=
  match n with
  | O => Some s
  | S n => s ← set_page_state this s i PGRESERVED; reserve_loop n this s (i + 1)
  end.

(** Pages that hold the table of descriptors and what precedes it.  [page_size] is
    [sizeof(struct page_s)]. *)
Definition reserved_pages_nr (page_size : Z) (s : ppm_s) : Z :=
  u32 (Z.shiftr (ARROUND_UP (u32 (pages_nr s * page_size)) PMM_PAGE_SIZE) PMM_PAGE_SHIFT
       + Z.shiftr (u32 (vaddr_start s - vaddr_begin s)) PMM_PAGE_SHIFT).

Definition ppm_init_pages (page_size this : Z) (s : ppm_s) (cid : Z) : option ppm_s :=
  let s := upd_pages (replicate (Z.to_nat (pages_nr s)) (page_init cid)) s in
  reserve_loop (Z.to_nat (reserved_pages_nr page_size s)) this s 0.

(** The loop over [reserved_start .. reserved_end]; [n] is the fuel. *)
Fixpoint reserve_range (n : nat) (pf : platform) (info : boot_info_s) (this : Z)
    (s : ppm_s) (reserved : Z) : option ppm_s :=
  if reserved <? reserved_end info then
    match n with
    | O => None
    | S n =>
        page ← (if local_cluster_id info =? boot_cluster_id info
                then ppm_ppn2page pf s (ppm_vma2ppn s reserved)
                else Some (ppm_addr2page s reserved));
        s ← set_page_state this s page PGRESERVED;
        reserve_range n pf info this s (u32 (reserved + PMM_PAGE_SIZE))
    end
  else Some s.

(** [for(i=0; i < ppm->pages_nr; i++)]: every page that is not reserved is freed. *)
Fixpoint free_loop (n : nat) (this : Z) (s : ppm_s) (i : Z) : option ppm_s :=
  match n with
  | O => Some s
  | S n =>
      page ← aget (pages_tbl s) i;
      s ← (if bool_decide (page_state_get page ≠ PGRESERVED)
           then ppm_free_pages_nolock this s i (order page) i else Some s);
      free_loop n this s (i + 1)
  end.

Definition range_fuel (info : boot_info_s) : nat :=
  Z.to_nat ((reserved_end info - reserved_start info) / PMM_PAGE_SIZE + 1).

(** [current_cluster->ppm] is the manager being initialised. *)
Definition ppm_init_finalize (page_size : Z) (pf : platform) (this : Z) (s : ppm_s)
    (info : boot_info_s) : option ppm_s :=
  s ← ppm_init_pages page_size this s (local_cluster_id info);
  s ← reserve_range (range_fuel info) pf info this s (reserved_start info);
  free_loop (Z.to_nat (pages_nr s)) this s 0.

Fixpoint init_roots (n : nat) (h : links) (i : Z) : option links :=
  match n with
  | O => Some h
  | S n => h ← list_root_init h (At (Root i)); init_roots n h (i + 1)
  end.

(** The manager as [ppm_init] sets it up before [ppm_init_finalize]; [begin] and
    [limit] are 64-bit physical addresses. *)
Definition ppm_fresh (h : links) (begin limit vbegin vstart : Z) : ppm_s :=
  {| signature := PPM_ID;
     ppn_start := u32 (Z.shiftr begin PMM_PAGE_SHIFT);
     vaddr_begin := vbegin; vaddr_start := vstart;
     free_nr := replicate (Z.to_nat PPM_MAX_ORDER) 0; plinks := h;
     pages_tbl := [];
     pages_nr := Z.shiftr (u32 (limit - begin)) PMM_PAGE_SHIFT;
     free_pages_nr := 0;
     uprio_pages_min := 0; kprio_pages_min := 0; urgent_pages_min := 0;
     pbegin := begin;
     wait_tbl := replicate (Z.to_nat PPM_MAX_WAIT) [] |}.

(** [h] is the memory of the list fields.  The function always returns 0. *)
Definition ppm_init (page_size : Z) (pf : platform) (this : Z) (h : links)
    (begin limit vbegin vstart : Z) (info : boot_info_s) : option ppm_s :=
  h ← init_roots (Z.to_nat PPM_MAX_ORDER) h 0;
  s ← ppm_init_finalize page_size pf this (ppm_fresh h begin limit vbegin vstart) info;
  Some (upd_mins (u32 (free_pages_nr s * CONFIG_PPM_UPRIO_PGMIN) / 100)
                 (u32 (free_pages_nr s * CONFIG_PPM_KPRIO_PGMIN) / 100)
                 (u32 (free_pages_nr s * CONFIG_PPM_URGENT_PGMIN) / 100) s).

(** ** Waiting for a page (src/kernel/mm/ppm.h) *)

(** The hash of the address of the descriptor. *)
Definition wait_index (page_addr : Z) : Z :=
  let index := u32 (Z.shiftl page_addr 16) in
  let index := Z.shiftr index 18 in
  let index := Z.lxor (Z.shiftr index 8) (u32 (Z.shiftl index 8)) in
  index mod PPM_MAX_WAIT.

Definition ppm_wait_on (this : Z) (s : ppm_s) (page_addr : Z) : option ppm_s :=
  w ← aget (wait_tbl s) (wait_index page_addr);
  t ← aset (wait_tbl s) (wait_index page_addr) (w ++ [this]);
  Some (upd_wait_tbl t s).

(** The woken threads; the source returns their number. *)
Definition ppm_wakeup_all (s : ppm_s) (page_addr : Z) : option (ppm_s * list Z) :=
  w ← aget (wait_tbl s) (wait_index page_addr);
  t ← aset (wait_tbl s) (wait_index page_addr) [];
  Some (upd_wait_tbl t s, w).

(** ** The invariant *)

(** The free lists and their counters represent the free blocks of [bm]. *)
Definition lists (h : links) (fn : list Z) (bm : blocks) : Prop :=
  ∀ k, 0 ≤ k < PPM_MAX_ORDER →
  ∃ l, olist h k l ∧ (∀ i, i ∈ l ↔ bm !! i = Some (k, Kfree)) ∧
       aget fn k = Some (Z.of_nat (length l)).

(** The manager represents the partition [bm]: descriptors of block heads carry
    the order of the block, the heads of used blocks are the descriptors that are
    not in state [PGFREE]. *)
Record core (s : ppm_s) (bm : blocks) : Prop := {
  c_len : Z.of_nat (length (pages_tbl s)) = pages_nr s;
  c_div : (2 ^ PPM_LAST_ORDER | pages_nr s);
  c_max : pages_nr s < wsize;
  c_part : partition (pages_nr s) bm;
  c_order i k c p :
    bm !! i = Some (k, c) → c ≠ Kheld → aget (pages_tbl s) i = Some p → order p = k;
  c_state i p :
    aget (pages_tbl s) i = Some p → (state p ≠ PGFREE ↔ ∃ k, bm !! i = Some (k, Kused));
  c_lists : lists (plinks s) (free_nr s) bm;
  c_cells i : 0 ≤ i < pages_nr s → is_Some (plinks s !! Obj i);
}.

(** No operation is in progress and the page count is exact. *)
Record ppm_ok (s : ppm_s) (bm : blocks) : Prop := {
  ok_core : core s bm;
  ok_settled i k : bm !! i ≠ Some (k, Kheld);
  ok_coalesced : coalesced bm;
  ok_count : free_pages_nr s = free_sum bm;
  ok_sign : signature s = PPM_ID;
}.

(** Only the free and used blocks of the partition are constrained. *)
Lemma core_held s bm bm' :
  core s bm → partition (pages_nr s) bm' →
  (∀ i k c, c ≠ Kheld → bm' !! i = Some (k, c) ↔ bm !! i = Some (k, c)) →
  core s bm'.
Proof.
  intros [] Hp Heq. split; try done.
  - intros i k c p Hi Hc. apply Heq in Hi; [|done]. eauto.
  - intros i p Hi. rewrite c_state0 by done. by setoid_rewrite Heq.
  - intros k Hk. destruct (c_lists0 k Hk) as (l&Hl&Hm&Hn). exists l.
    split_and!; [done| |done]. intros i. by rewrite Hm, Heq.
Qed.

Lemma free_list_length n (h : links) k l :
  0 ≤ n → olist h k l → (∀ i, i ∈ l → 0 ≤ i < n) → Z.of_nat (length l) ≤ n.
Proof.
  intros Hn Hl Hm. apply olist_NoDup in Hl.
  assert (length l ≤ length (seqZ 0 n))%nat as Hle.
  { apply submseteq_length, NoDup_submseteq; [done|].
    intros i Hi. apply elem_of_seqZ. apply Hm in Hi. lia. }
  rewrite length_seqZ in Hle. lia.
Qed.

Lemma lists_range n bm k (l : list Z) :
  partition n bm → (∀ i, i ∈ l ↔ bm !! i = Some (k, Kfree)) → ∀ i, i ∈ l → 0 ≤ i < n.
Proof.
  intros Hp Hm i Hi. apply Hm in Hi.
  destruct (part_range _ _ _ _ _ Hp Hi) as (?&?&?&?&?&?). lia.
Qed.

(** The free lists determine the free blocks. *)
Lemma lists_unique h fn fn' n bm n' bm' i k :
  partition n bm → partition n' bm' → lists h fn bm → lists h fn' bm' →
  bm !! i = Some (k, Kfree) → bm' !! i = Some (k, Kfree).
Proof.
  intros Hp Hp' Hl Hl' Hi. destruct (part_range _ _ _ _ _ Hp Hi) as (Hk&_).
  destruct (Hl k Hk) as (l&Ho&Hm&_), (Hl' k Hk) as (l'&Ho'&Hm'&_).
  apply Hm'. rewrite (olist_unique _ _ _ _ Ho' Ho). by apply Hm.
Qed.

(** Unlinking a free block. *)
Lemma lists_take n h fn bm i k :
  partition n bm → 0 ≤ n < wsize → lists h fn bm → bm !! i = Some (k, Kfree) →
  ∃ h' c fn', list_unlink h (At (Obj i)) = Some h' ∧
    (∀ x, is_Some (h' !! x) ↔ is_Some (h !! x)) ∧
    aget fn k = Some c ∧ aset fn k (u32 (c - 1)) = Some fn' ∧
    lists h' fn' (<[i := (k, Kheld)]> bm).
Proof.
  intros Hp Hn Hls Hi. destruct (part_range _ _ _ _ _ Hp Hi) as (Hk&_).
  destruct (Hls k Hk) as (l&Hl&Hm&Hc).
  pose proof (free_list_length n h k l ltac:(lia) Hl
                (lists_range n bm k l Hp Hm)) as Hlen.
  pose proof (olist_NoDup _ _ _ Hl) as Hnd.
  pose proof (proj2 (Hm i) Hi) as Hil.
  apply list_elem_of_split in Hil as (l1&l2&->).
  destruct (olist_unlink _ _ _ _ _ Hl) as (h'&E&Hl'&F).
  rewrite length_app in *. simpl in *. pose proof (aget_Some_range _ _ _ Hc).
  eexists h', _, _. split_and!; [done|apply F|done|by apply aset_Some|].
  intros m Hm10. destruct (decide (m = k)) as [->|Hmk].
  - exists (l1 ++ l2). split_and!; [done| |].
    + intros j. rewrite lookup_insert. pose proof (Hm j) as Hmj. case_decide as Hj.
      * subst. split; [|done]. apply NoDup_app in Hnd as (_&Hd1&Hd2).
        apply NoDup_cons in Hd2 as [Hd2 _]. set_solver.
      * rewrite <- Hmj. set_solver.
    + rewrite aget_insert_eq by done. rewrite u32_small by (unfold wsize in *; lia).
      f_equal. rewrite length_app. lia.
  - destruct (Hls m Hm10) as (lm&Hlm&Hmm&Hcm). exists lm. split_and!.
    + eapply olist_frame; [exact F|done| |done]. intros j Hj Hj'.
      apply Hmm in Hj. apply Hm in Hj'. congruence.
    + intros j. rewrite Hmm, lookup_insert. case_decide; [|done]. subst.
      split; congruence.
    + by rewrite aget_insert_ne.
Qed.

(** Linking a held block. *)
Lemma lists_put n h fn bm i k :
  partition n bm → 0 ≤ n < wsize → lists h fn bm → bm !! i = Some (k, Kheld) →
  is_Some (h !! Obj i) →
  ∃ h' c fn', list_add h (At (Root k)) (At (Obj i)) = Some h' ∧
    (∀ x, is_Some (h' !! x) ↔ is_Some (h !! x)) ∧
    aget fn k = Some c ∧ aset fn k (u32 (c + 1)) = Some fn' ∧
    lists h' fn' (<[i := (k, Kfree)]> bm).
Proof.
  intros Hp Hn Hls Hi Hcell. destruct (part_range _ _ _ _ _ Hp Hi) as (Hk&_&_&_&_&Hin).
  destruct (part_range _ _ _ _ _ Hp Hi) as (_&Hi0&_).
  destruct (Hls k Hk) as (l&Hl&Hm&Hc).
  assert (Hil : i ∉ l) by (rewrite Hm; congruence).
  destruct (olist_add _ _ _ _ Hl Hil Hcell) as (h'&E&Hl'&F).
  pose proof (aget_Some_range _ _ _ Hc).
  assert (Hlen : Z.of_nat (length (i :: l)) ≤ n).
  { apply (free_list_length n h' k); [lia|done|].
    intros j [->|Hj]%elem_of_cons; [lia|]. by eapply (lists_range n bm k l). }
  eexists h', _, _. split_and!; [done|apply F|done|by apply aset_Some|].
  intros m Hm10. destruct (decide (m = k)) as [->|Hmk].
  - exists (i :: l). split_and!; [done| |].
    + intros j. rewrite lookup_insert, elem_of_cons, Hm. case_decide; naive_solver.
    + rewrite aget_insert_eq by done. simpl in *.
      rewrite u32_small by (unfold wsize in *; lia). f_equal. lia.
  - destruct (Hls m Hm10) as (lm&Hlm&Hmm&Hcm). exists lm. split_and!.
    + eapply olist_frame; [exact F|done| |done]. intros j Hj Hj'.
      apply Hmm in Hj. apply elem_of_cons in Hj' as [->|Hj']; [congruence|].
      apply Hm in Hj'. congruence.
    + intros j. rewrite Hmm, lookup_insert. case_decide; [|done]. subst.
      split; congruence.
    + by rewrite aget_insert_ne.
Qed.

(** The fields of the descriptors other than [order] and all the fields of the
    manager other than the free lists are untouched. *)
Definition orders_only (s s' : ppm_s) : Prop :=
  ∃ l h t, s' = upd_pages t (upd_free l h s) ∧
    ∀ j, set_order 0 <$> aget t j = set_order 0 <$> aget (pages_tbl s) j.

Lemma orders_only_refl s : orders_only s s.
Proof. exists (free_nr s), (plinks s), (pages_tbl s). by destruct s. Qed.

Lemma orders_only_trans s1 s2 s3 :
  orders_only s1 s2 → orders_only s2 s3 → orders_only s1 s3.
Proof.
  intros (l&h&t&->&H1) (l'&h'&t'&->&H2). exists l', h', t'. split; [done|].
  intros j. by rewrite H2, <- H1.
Qed.

Lemma orders_only_free s l h : orders_only s (upd_free l h s).
Proof. exists l, h, (pages_tbl s). by destruct s. Qed.

Lemma orders_only_order s i o p t :
  aget (pages_tbl s) i = Some p → aset (pages_tbl s) i (set_order o p) = Some t →
  orders_only s (upd_pages t s).
Proof.
  intros Hp Ht. exists (free_nr s), (plinks s), t. split; [by destruct s|].
  intros j. destruct (decide (i = j)) as [->|Hij].
  - by rewrite (aget_aset_eq _ _ _ _ Ht), Hp.
  - by rewrite (aget_aset_ne _ _ _ _ _ Hij Ht).
Qed.

#[export] Hint Resolve orders_only_refl orders_only_free orders_only_order : almos.

(** ** The primitive steps on the invariant *)

Lemma core_take s bm i k :
  core s bm → bm !! i = Some (k, Kfree) →
  ∃ h c l, list_unlink (plinks s) (At (Obj i)) = Some h ∧
    aget (free_nr s) k = Some c ∧ aset (free_nr s) k (u32 (c - 1)) = Some l ∧
    core (upd_free l h s) (<[i := (k, Kheld)]> bm).
Proof.
  intros C Hi. destruct C. destruct (part_range _ _ _ _ _ c_part0 Hi) as (Hk&Hi0&_&_&_&Hin).
  destruct (lists_take (pages_nr s) _ _ _ _ _ c_part0 ltac:(lia) c_lists0 Hi)
    as (h&c&l&E1&Hcell&E2&E3&Hls).
  exists h, c, l. split_and!; [done..|]. split; simpl; try done.
  - by eapply partition_relabel.
  - intros j m d p Hj Hd. rewrite lookup_insert in Hj. case_decide; [congruence|eauto].
  - intros j p Hj. rewrite c_state0 by done. setoid_rewrite lookup_insert.
    case_decide; [subst; rewrite Hi; naive_solver|done].
  - intros j Hj. apply Hcell. auto.
Qed.

Lemma core_take_block s bm i k :
  core s bm → bm !! i = Some (k, Kfree) →
  ∃ s', take_block s i k = Some s' ∧ core s' (<[i := (k, Kheld)]> bm) ∧ orders_only s s'
        ∧ pages_tbl s' = pages_tbl s.
Proof.
  intros C Hi. destruct (core_take _ _ _ _ C Hi) as (h&c&l&E1&E2&E3&C').
  eexists. split_and!; [|exact C'|apply orders_only_free|done].
  unfold take_block. rewrite E1. cbn. rewrite E2. cbn. rewrite E3. done.
Qed.

Lemma core_put_block s bm i k :
  core s bm → bm !! i = Some (k, Kheld) →
  (∀ p, aget (pages_tbl s) i = Some p → order p = k) →
  ∃ s', put_block s i k = Some s' ∧ core s' (<[i := (k, Kfree)]> bm) ∧ orders_only s s'.
Proof.
  intros C Hi Ho. destruct C. destruct (part_range _ _ _ _ _ c_part0 Hi) as (Hk&Hi0&_&_&_&Hin).
  destruct (lists_put (pages_nr s) (plinks s) (free_nr s) bm i k)
    as (h&c&l&E1&Hcell&E2&E3&Hls); [done|lia|done|done|apply c_cells0; lia|].
  exists (upd_free l h s). split_and!; [|split|apply orders_only_free]; simpl; try done.
  - unfold put_block. rewrite E1. cbn. rewrite E2. cbn. rewrite E3. done.
  - by eapply partition_relabel.
  - intros j m d p Hj Hd Hp. rewrite lookup_insert in Hj. case_decide; [|eauto].
    simplify_eq. by apply Ho.
  - intros j p Hj. rewrite c_state0 by done. setoid_rewrite lookup_insert.
    case_decide; [subst; rewrite Hi; naive_solver|done].
  - intros j Hj. apply Hcell. auto.
Qed.

(** Writing the order of a descriptor that is no head of a settled block. *)
Lemma core_set_order s bm i o :
  core s bm → 0 ≤ i < pages_nr s → (∀ k c, bm !! i = Some (k, c) → c = Kheld) →
  ∃ s', set_page_order s i o = Some s' ∧ core s' bm ∧ orders_only s s' ∧
        (∀ p, aget (pages_tbl s') i = Some p → order p = o mod 16).
Proof.
  intros C Hi Hh. destruct C. destruct (aget_range (pages_tbl s) i) as [p Hp]; [lia|].
  pose proof (aget_Some_range _ _ _ Hp) as Hr.
  pose proof (aset_Some (pages_tbl s) i (set_order (o mod 16) p) Hr) as Ht.
  eexists. split_and!.
  - unfold set_page_order. rewrite Hp. cbn [mbind option_bind]. by rewrite Ht.
  - split; simpl; try done.
    + by rewrite length_insert.
    + intros j k c q Hj Hc. assert (i ≠ j) by (intros ->; naive_solver).
      rewrite aget_insert_ne by done. eauto.
    + intros j q. destruct (decide (i = j)) as [->|Hij].
      * rewrite aget_insert_eq by done. intros [= <-]. simpl. eauto.
      * rewrite aget_insert_ne by done. eauto.
  - by eapply orders_only_order.
  - simpl. intros q. rewrite aget_insert_eq by done. by intros [= <-].
Qed.

Lemma core_merge s bm i k :
  core s bm → k < PPM_LAST_ORDER →
  bm !! i = Some (k, Kheld) → bm !! buddy i k = Some (k, Kheld) →
  core s (<[Z.land i (buddy i k) := (k + 1, Kheld)]> (delete i (delete (buddy i k) bm))).
Proof.
  intros C Hk Hi Hb. destruct (part_range _ _ _ _ _ (c_part _ _ C) Hi) as (?&?&?&_).
  eapply core_held; [exact C|by eapply partition_merge; [apply C|..]|].
  assert (Hj : Z.land i (buddy i k) = i ∨ Z.land i (buddy i k) = buddy i k).
  { destruct (buddy_cases i k) as [(_&->&->)|(_&_&->&->)]; [lia|done|done|..]; auto. }
  intros x m d Hd. rewrite lookup_insert, !lookup_delete.
  destruct (decide (i = x)) as [Ei|], (decide (buddy i k = x)) as [Eb|];
    case_decide; split; try congruence. naive_solver.
Qed.

Lemma core_split s bm i k :
  core s bm → 0 ≤ k → bm !! i = Some (k + 1, Kheld) →
  core s (<[i + 2 ^ k := (k, Kheld)]> (<[i := (k, Kheld)]> bm)).
Proof.
  intros C Hk Hi. pose proof (c_part _ _ C) as Hp.
  eapply core_held; [exact C|by apply partition_split|].
  intros x m d Hd. rewrite !lookup_insert. repeat case_decide; subst; try naive_solver.
  split; [naive_solver|]. intros Hx. pose proof (pow2_pos k Hk).
  destruct (part_range _ _ _ _ _ Hp Hx) as (?&?&?&?&?&?).
  pose proof (part_disj _ _ Hp _ _ _ _ _ _ Hi Hx) as Hdis.
  rewrite pow2_S in Hdis by done. lia.
Qed.

Lemma is_free_unique s bm bm' q : ppm_ok s bm → ppm_ok s bm' → is_free bm q → is_free bm' q.
Proof.
  intros [C _ _ _ _] [C' _ _ _ _] (i&k&Hi&Hin). exists i, k. split; [|done].
  eapply (lists_unique (plinks s)); [apply C|apply C'|apply C|apply C'|done].
Qed.

(** ** The loops *)

Definition only_held (bm : blocks) (i : Z) : Prop :=
  ∀ j m, bm !! j = Some (m, Kheld) → j = i.

Definition same_used (bm bm' : blocks) : Prop :=
  ∀ j m, bm' !! j = Some (m, Kused) ↔ bm !! j = Some (m, Kused).

Definition sub_free (bm bm' : blocks) : Prop :=
  ∀ j m, bm' !! j = Some (m, Kfree) → bm !! j = Some (m, Kfree).

Lemma sub_free_refl bm : sub_free bm bm.
Proof. by intros j m. Qed.

#[export] Hint Resolve sub_free_refl : almos.

(** One iteration of the merge: the free buddy is taken, its order is reset and
    the two blocks become one held block of the next order. *)
Lemma merge_step s bm i k :
  core s bm → k < PPM_LAST_ORDER → bm !! i = Some (k, Kheld) → only_held bm i →
  bm !! buddy i k = Some (k, Kfree) →
  let bm' := <[Z.land i (buddy i k) := (k + 1, Kheld)]> (delete i (delete (buddy i k) bm)) in
  ∃ s1 s2, take_block s (buddy i k) k = Some s1 ∧
    set_page_order s1 (buddy i k) 0 = Some s2 ∧
    core s2 bm' ∧ orders_only s s2 ∧ only_held bm' (Z.land i (buddy i k)) ∧
    same_used bm bm' ∧
    sub_free bm bm' ∧
    (∀ p, is_free bm' p ∨ in_block p (Z.land i (buddy i k)) (k + 1) ↔
          is_free bm p ∨ in_block p i k).
Proof.
  intros C Hk Hi Ho Hb bm'. pose proof (c_part _ _ C) as Hp.
  destruct (part_range _ _ _ _ _ Hp Hi) as (Hk0&Hi0&Ha&_).
  pose proof (part_range _ _ _ _ _ Hp Hb) as (_&Hb0&_&_&_&Hbn).
  destruct (core_take_block _ _ _ _ C Hb) as (s1&E1&C1&O1&_).
  destruct (core_set_order s1 _ (buddy i k) 0 C1) as (s2&E2&C2&O2&_).
  { destruct O1 as (?&?&?&->&_). simpl. lia. }
  { intros m c. rewrite lookup_insert_eq. congruence. }
  assert (Hne : buddy i k ≠ i) by (apply buddy_ne; [lia|done..]).
  exists s1, s2. split_and!; [done|done| |by eapply orders_only_trans| | | |].
  - apply (core_merge _ _ i k) in C2; [|done|by rewrite lookup_insert_ne|apply lookup_insert_eq].
    by rewrite delete_insert_eq in C2.
  - intros j m. unfold bm'. rewrite lookup_insert, !lookup_delete.
    repeat case_decide; try done. intros Hj%Ho. congruence.
  - intros j m. unfold bm'. rewrite lookup_insert, !lookup_delete.
    destruct (buddy_cases i k) as [(_&Eb&->)|(_&_&Eb&->)]; [lia|done|done|..];
      rewrite <- ?Eb; repeat case_decide; subst; try done; split; congruence.
  - intros j m. unfold bm'. rewrite lookup_insert, !lookup_delete. by repeat case_decide.
  - intros p. unfold bm'. rewrite (is_free_merge _ _ _ _ _ Hp Hi Hb).
    assert (in_block p (Z.land i (buddy i k)) (k + 1) ↔
            in_block p i k ∨ in_block p (buddy i k) k) as ->.
    { unfold in_block. rewrite pow2_S by lia.
      destruct (buddy_cases i k) as [(_&->&->)|(_&_&->&->)]; [lia|done|done|..]; lia. }
    assert (in_block p (buddy i k) k → is_free bm p) by (intros; by exists (buddy i k), k).
    destruct (decide (buddy i k ≤ p < buddy i k + 2 ^ k)); unfold in_block in *; tauto.
Qed.

Lemma merge_loop_spec n s bm i k :
  n = Z.to_nat (PPM_LAST_ORDER - k) → core s bm → bm !! i = Some (k, Kheld) →
  only_held bm i →
  ∃ s' i' k' bm', merge_loop n s i k = Some (s', i', k') ∧
    core s' bm' ∧ orders_only s s' ∧ bm' !! i' = Some (k', Kheld) ∧ only_held bm' i' ∧
    same_used bm bm' ∧ sub_free bm bm' ∧
    (k' < PPM_LAST_ORDER → bm' !! buddy i' k' ≠ Some (k', Kfree)) ∧
    (∀ p, is_free bm' p ∨ in_block p i' k' ↔ is_free bm p ∨ in_block p i k).
Proof.
  revert s bm i k. induction n as [|n IH]; intros s bm i k Hn C Hi Ho.
  - exists s, i, k, bm. split_and!; try done; auto with almos. intros; lia.
  - pose proof (c_part _ _ C) as Hp. unfold PPM_LAST_ORDER, PPM_MAX_ORDER in Hn.
    assert (Hk : k < PPM_LAST_ORDER) by (unfold PPM_LAST_ORDER, PPM_MAX_ORDER; lia).
    destruct (buddy_is_head _ _ _ _ _ Hp (c_div _ _ C) Hk Hi) as (m&d&Hb&Hm).
    destruct (part_range _ _ _ _ _ Hp Hb) as (_&Hb0&_&_&_&Hbn).
    destruct (part_range _ _ _ _ _ Hp Hi) as (Hk0&Hi0&Ha&_).
    destruct (aget_range (pages_tbl s) (buddy i k)) as [q Hq].
    { rewrite (c_len _ _ C). lia. }
    assert (Hd : d ≠ Kheld).
    { intros ->. apply Ho in Hb. revert Hb. apply buddy_ne; [lia|done..]. }
    pose proof (c_order _ _ C _ _ _ _ Hb Hd Hq) as Hqo.
    pose proof (c_state _ _ C _ _ Hq) as Hqs.
    simpl. fold (buddy i k). rewrite Hq. cbn [mbind option_bind].
    destruct (bool_decide_reflect (page_state_get q ≠ PGFREE)) as [Hs|Hs];
      [|destruct (Z.eqb_spec (order q) k) as [Hok|Hok]]; simpl.
    + exists s, i, k, bm. split_and!; try done; auto with almos.
      apply Hqs in Hs as [? ?]. congruence.
    + assert (d = Kfree) as ->.
      { destruct d; [done| |done]. exfalso. apply Hs, Hqs. eauto. }
      assert (m = k) as -> by lia.
      destruct (merge_step _ _ _ _ C Hk Hi Ho Hb) as (s1&s2&->&E2&C2&O2&H2&U2&B2&F2).
      cbn [mbind option_bind]. rewrite E2. cbn [mbind option_bind].
      destruct (IH s2 _ _ (k + 1) ltac:(unfold PPM_LAST_ORDER, PPM_MAX_ORDER; lia) C2
                  (lookup_insert_eq _ _ _) H2) as (s'&i'&k'&bm'&E&C'&O'&Hi'&Ho'&U'&B'&M'&F').
      exists s', i', k', bm'.
      split_and!; [exact E|done|by eapply orders_only_trans|done|done| | |done|].
      * intros j x. by rewrite (U' j x), (U2 j x).
      * intros j x Hj. by apply B2, B'.
      * intros p. by rewrite F', F2.
    + exists s, i, k, bm. split_and!; try done; auto with almos.
      intros _ Hb'. simplify_eq.
Qed.

(** ** Freeing a block *)

Lemma core_upd_free_pages_nr s bm n : core s bm → core (upd_free_pages_nr n s) bm.
Proof. by intros []. Qed.

(** States from which [page_to_free] accepts a page. *)
Definition freeable (st : page_state_t) : Prop :=
  st = PGINVALID ∨ st = PGVALID ∨ st = PGINIT.

#[export] Instance freeable_dec st : Decision (freeable st).
Proof. unfold freeable. apply _. Defined.

Lemma core_release s bm this i k p :
  core s bm → bm !! i = Some (k, Kused) →
  aget (pages_tbl s) i = Some p → freeable (state p) →
  ∃ t, set_page_state this s i PGFREE = Some (upd_pages t s) ∧
       aset (pages_tbl s) i (set_state PGFREE p) = Some t ∧
       core (upd_pages t s) (<[i := (k, Kheld)]> bm).
Proof.
  intros C Hi Hp Hf. pose proof (aget_Some_range _ _ _ Hp) as Hr.
  pose proof (aset_Some (pages_tbl s) i (set_state PGFREE p) Hr) as Ht.
  eexists. split_and!; [|exact Ht|].
  - unfold set_page_state. rewrite Hp. cbn. unfold page_to_free, cassert.
    rewrite bool_decide_true by exact Hf. cbn. by rewrite Ht.
  - destruct C. split; simpl; try done.
    + by rewrite length_insert.
    + by eapply partition_relabel.
    + intros j m d q Hj Hd. rewrite lookup_insert in Hj. case_decide as Hij; [congruence|].
      rewrite aget_insert_ne by done. eauto.
    + intros j q. destruct (decide (i = j)) as [<-|Hij].
      * rewrite aget_insert_eq by done. intros [= <-]. rewrite lookup_insert_eq. naive_solver.
      * rewrite aget_insert_ne, lookup_insert_ne by done. eauto.
    + intros m Hm. destruct (c_lists0 m Hm) as (l&Hl&Hlm&Hlc). exists l.
      split_and!; [done| |done]. intros j. rewrite Hlm, lookup_insert.
      case_decide; [subst; rewrite Hi; naive_solver|done].
Qed.

Lemma mod16 k : 0 ≤ k < PPM_MAX_ORDER → k mod 16 = k.
Proof. unfold PPM_MAX_ORDER. intros. apply Z.mod_small. lia. Qed.

Lemma ppm_free_pages_nolock_spec this s bm i k p :
  ppm_ok s bm → bm !! i = Some (k, Kused) →
  aget (pages_tbl s) i = Some p → freeable (state p) →
  ∃ t s' bm',
    ppm_free_pages_nolock this s i k i = Some s' ∧ ppm_ok s' bm' ∧
    (∀ j m, bm' !! j = Some (m, Kused) ↔ bm !! j = Some (m, Kused) ∧ j ≠ i) ∧
    (∀ q, is_free bm' q ↔ is_free bm q ∨ in_block q i k) ∧
    aset (pages_tbl s) i (set_state PGFREE p) = Some t ∧
    orders_only (upd_free_pages_nr (free_pages_nr s + 2 ^ k) (upd_pages t s)) s'.
Proof.
  intros [C Hset Hcoal Hcnt Hsg] Hi Hp Hf. pose proof (c_part _ _ C) as Hpart.
  destruct (part_range _ _ _ _ _ Hpart Hi) as (Hk&Hi0&_&Hile&Hpos&Hin).
  destruct (core_release _ _ this _ _ _ C Hi Hp Hf) as (t&E1&Ht&C1).
  set (s1 := upd_free_pages_nr (u32 (free_pages_nr s + Z.shiftl 1 k)) (upd_pages t s)).
  apply (core_upd_free_pages_nr _ _ (u32 (free_pages_nr s + Z.shiftl 1 k))) in C1.
  destruct (merge_loop_spec _ s1 _ i k eq_refl C1 (lookup_insert_eq _ _ _))
    as (s2&i'&k'&bm2&E2&C2&O2&Hi2&Ho2&U2&B2&M2&F2).
  { intros j m. rewrite lookup_insert. case_decide; [done|]. intros Hj. by apply Hset in Hj. }
  destruct (part_range _ _ _ _ _ (c_part _ _ C2) Hi2) as (Hk'&Hi'0&_&_&_&Hi'n).
  destruct (core_set_order s2 bm2 i' k' C2) as (s3&E3&C3&O3&Ho3); [lia|congruence|].
  rewrite mod16 in Ho3 by done.
  destruct (core_put_block s3 bm2 i' k' C3 Hi2 Ho3) as (s4&E4&C4&O4).
  assert (Hfree : ∀ q, is_free (<[i':=(k', Kfree)]> bm2) q ↔ is_free bm q ∨ in_block q i k).
  { intros q. rewrite (is_free_release _ _ _ _ _ Hi2), F2 by done.
    by rewrite (is_free_relabel bm i k k Kused Kheld q Hi). }
  assert (Hnr : pages_nr s4 = pages_nr s).
  { destruct O4 as (?&?&?&->&_), O3 as (?&?&?&->&_), O2 as (?&?&?&->&_). done. }
  assert (Hsum : free_sum (<[i':=(k', Kfree)]> bm2) = free_sum bm + 2 ^ k).
  { apply (free_sum_add (pages_nr s) _ _ i); [done| |lia|done|].
    - rewrite <- Hnr. apply C4.
    - intros q (j&m&Hj&Hjin) Hq.
      assert (i = j) as -> by (by eapply in_block_unique). congruence. }
  assert (Hbd : u32 (free_pages_nr s + Z.shiftl 1 k) = free_pages_nr s + 2 ^ k).
  { rewrite Z.shiftl_1_l, Hcnt, <- Hsum. apply u32_small.
    pose proof (free_sum_bound (pages_nr s) (<[i':=(k', Kfree)]> bm2) ltac:(lia)) as Hb.
    rewrite <- Hnr in Hb at 1. specialize (Hb (c_part _ _ C4)).
    pose proof (c_max _ _ C). lia. }
  assert (O : orders_only s1 s4) by eauto using orders_only_trans.
  unfold s1 in O. rewrite Hbd in O.
  exists t, s4, (<[i':=(k', Kfree)]> bm2). split_and!; [| |intros j m|exact Hfree|done|exact O].
  - unfold ppm_free_pages_nolock. rewrite E1. cbn [mbind option_bind].
    change (free_pages_nr (upd_pages t s)) with (free_pages_nr s). fold s1. rewrite E2.
    cbn [mbind option_bind]. rewrite E3. cbn [mbind option_bind]. exact E4.
  - split; [done| | | |].
    + intros j m. rewrite lookup_insert. case_decide; [done|]. intros Hj%Ho2. congruence.
    + destruct (part_range _ _ _ _ _ (c_part _ _ C2) Hi2) as (_&_&Ha&_).
      apply coalesced_add; [|done|lia|done|done].
      eapply coalesced_mono; [exact Hcoal|]. intros j m Hj%B2.
      rewrite lookup_insert in Hj. by case_decide.
    + rewrite Hsum, <- Hcnt. by destruct O as (?&?&?&->&_).
    + by destruct O as (?&?&?&->&_).
  - rewrite lookup_insert. case_decide as Hj.
    + subst j. split; [done|]. intros [Hj1 Hj2]. exfalso.
      assert (bm2 !! i' = Some (m, Kused)) by (apply U2; by rewrite lookup_insert_ne).
      congruence.
    + rewrite (U2 j m), lookup_insert. case_decide; naive_solver.
Qed.

(** ** Allocating a block *)

Lemma search_loop_spec n s bm k :
  n = Z.to_nat (PPM_MAX_ORDER - k) → 0 ≤ k → core s bm →
  (search_loop n s k = Some (s, None) ∧ ∀ i m, bm !! i = Some (m, Kfree) → m < k) ∨
  (∃ b m h, search_loop n s k = Some (upd_free (free_nr s) h s, Some (b, m)) ∧
     k ≤ m ∧ bm !! b = Some (m, Kfree) ∧ list_unlink (plinks s) (At (Obj b)) = Some h ∧
     ∀ i m', bm !! i = Some (m', Kfree) → k ≤ m' → m ≤ m').
Proof.
  revert k. induction n as [|n IH]; intros k Hn Hk C.
  - left. split; [done|]. intros i m Hi.
    destruct (part_range _ _ _ _ _ (c_part _ _ C) Hi). lia.
  - destruct (c_lists _ _ C k ltac:(lia)) as (l&Hl&Hm&_). cbn [search_loop].
    rewrite (olist_empty _ _ _ Hl). cbn [mbind option_bind].
    destruct l as [|b l].
    + rewrite bool_decide_true by done.
      assert (Hno : ∀ i m, bm !! i = Some (m, Kfree) → k ≤ m → k + 1 ≤ m).
      { intros i m Hi Hle. destruct (decide (m = k)) as [->|]; [|lia].
        apply Hm in Hi. by apply elem_of_nil in Hi. }
      destruct (IH (k + 1)) as [[E H]|(b&m&h&E&Hle&Hb&Hu&Hmin)]; [lia|lia|done|left|right].
      * split; [done|]. intros i m Hi. specialize (H i m Hi). specialize (Hno i m Hi). lia.
      * exists b, m, h. split_and!; [done|lia|done|done|]. intros i m' Hi Hle'.
        apply (Hmin i m' Hi). by apply (Hno i).
    + rewrite bool_decide_false by done. right.
      rewrite (olist_first _ _ _ _ Hl). cbn [mbind option_bind obj_of].
      assert (Hb : bm !! b = Some (k, Kfree)) by (apply Hm; set_solver).
      destruct (core_take _ _ _ _ C Hb) as (h&_&_&Eu&_). rewrite Eu.
      exists b, k, h. by split_and!.
Qed.

Lemma split_step s bm b k :
  core s bm → 0 ≤ k → bm !! b = Some (k + 1, Kheld) → only_held bm b →
  let bm' := <[b + 2 ^ k := (k, Kfree)]> (<[b := (k, Kheld)]> bm) in
  ∃ s1 s2, set_page_order s (b + 2 ^ k) k = Some s1 ∧
    put_block s1 (b + 2 ^ k) k = Some s2 ∧ core s2 bm' ∧ orders_only s s2 ∧
    bm' !! b = Some (k, Kheld) ∧ only_held bm' b ∧ same_used bm bm' ∧
    (coalesced bm → coalesced bm') ∧
    (∀ p, is_free bm' p ∨ in_block p b k ↔ is_free bm p ∨ in_block p b (k + 1)).
Proof.
  intros C Hk Hb Ho bm'. pose proof (c_part _ _ C) as Hp.
  destruct (part_range _ _ _ _ _ Hp Hb) as (Hk1&Hb0&Ha&Hle&_&_).
  pose proof (pow2_pos k Hk). rewrite pow2_S in Hle by done.
  pose proof (core_split _ _ _ _ C Hk Hb) as C0.
  destruct (core_set_order s _ (b + 2 ^ k) k C0) as (s1&E1&C1&O1&Hord); [lia| |].
  { intros m c. rewrite lookup_insert_eq. congruence. }
  rewrite mod16 in Hord by lia.
  destruct (core_put_block s1 _ (b + 2 ^ k) k C1 (lookup_insert_eq _ _ _) Hord)
    as (s2&E2&C2&O2).
  rewrite insert_insert_eq in C2. exists s1, s2.
  split_and!; [done|done|done|by eapply orders_only_trans| | | | |].
  - unfold bm'. by rewrite lookup_insert_ne, lookup_insert_eq by lia.
  - intros j m. unfold bm'. rewrite !lookup_insert. repeat case_decide; naive_solver.
  - intros j m. unfold bm'. rewrite !lookup_insert. repeat case_decide; subst; try naive_solver.
    split; [done|]. intros Hj. exfalso.
    destruct (part_range _ _ _ _ _ Hp Hj) as (?&?&?&?&?&?).
    pose proof (part_disj _ _ Hp _ _ _ _ _ _ Hb Hj) as Hd. rewrite pow2_S in Hd by done. lia.
  - intros Hc. pose proof Ha as Ha'. rewrite pow2_S in Ha' by done.
    assert (2 ^ k | b) as Hak by (destruct Ha' as [q ->]; exists (2 * q); ring).
    unfold bm'. apply coalesced_add; [| |done|lia|by apply Z.divide_add_r].
    + eapply coalesced_mono; [exact Hc|]. intros j m. rewrite lookup_insert.
      by case_decide.
    + intros _. rewrite (buddy_of_upper b k), lookup_insert_eq by done. done.
  - intros p. unfold bm'. rewrite (is_free_split _ _ _ _ _ Hp Hk Hb).
    unfold in_block. rewrite pow2_S by done.
    assert (b ≤ p < b + 2 * 2 ^ k ↔ b ≤ p < b + 2 ^ k ∨ b + 2 ^ k ≤ p < b + 2 ^ k + 2 ^ k)
      as -> by lia. tauto.
Qed.

Lemma split_loop_spec n s bm b k :
  0 ≤ k → core s bm → bm !! b = Some (k + Z.of_nat n, Kheld) → only_held bm b →
  ∃ s' bm', split_loop n s b (k + Z.of_nat n) (2 ^ (k + Z.of_nat n)) = Some s' ∧
    core s' bm' ∧ orders_only s s' ∧ bm' !! b = Some (k, Kheld) ∧ only_held bm' b ∧
    same_used bm bm' ∧ (coalesced bm → coalesced bm') ∧
    (∀ p, is_free bm' p ∨ in_block p b k ↔ is_free bm p ∨ in_block p b (k + Z.of_nat n)).
Proof.
  revert s bm. induction n as [|n IH]; intros s bm Hk C Hb Ho.
  - rewrite Z.add_0_r in *. exists s, bm. by split_and!; [| |apply orders_only_refl|..].
  - replace (k + Z.of_nat (S n)) with (k + Z.of_nat n + 1) in * by lia.
    destruct (split_step s bm b (k + Z.of_nat n) C ltac:(lia) Hb Ho)
      as (s1&s2&E1&E2&C2&O2&Hb2&Ho2&U2&K2&F2).
    destruct (IH s2 _ Hk C2 Hb2 Ho2) as (s'&bm'&E&C'&O'&Hb'&Ho'&U'&K'&F').
    exists s', bm'. split_and!; [|done|by eapply orders_only_trans|done|done| |auto|].
    + cbn [split_loop]. rewrite Z.add_simpl_r, pow2_S by lia.
      rewrite Z.shiftr_div_pow2, Z.mul_comm, Z.div_mul by lia.
      rewrite E1. cbn [mbind option_bind]. rewrite E2. exact E.
    + intros j m. by rewrite (U' j m), (U2 j m).
    + intros p. by rewrite F', F2.
Qed.

(** The descriptor handed out: state, reference count and order are written. *)
Definition grab (o : Z) (p : page_s) : page_s :=
  set_order o (snd (page_refcount_up (set_state PGINVALID p))).

Lemma core_grab s bm this b k :
  core s bm → bm !! b = Some (k, Kheld) →
  ∃ p t s1 s2, aget (pages_tbl s) b = Some p ∧
    set_page_state this s b PGINVALID = Some s1 ∧ set_refcount_up s1 b = Some s2 ∧
    set_page_order s2 b k = Some (upd_pages t s) ∧
    aset (pages_tbl s) b (grab k p) = Some t ∧
    core (upd_pages t s) (<[b := (k, Kused)]> bm).
Proof.
  intros C Hb. destruct (part_range _ _ _ _ _ (c_part _ _ C) Hb) as (Hk&Hb0&_&_&_&Hbn).
  destruct (aget_range (pages_tbl s) b) as [p Hp]; [rewrite (c_len _ _ C); lia|].
  assert (Hst : state p = PGFREE).
  { destruct (decide (state p = PGFREE)) as [|H]; [done|].
    apply (c_state _ _ C _ _ Hp) in H as [m Hm]. congruence. }
  pose proof (aget_Some_range _ _ _ Hp) as Hr.
  pose proof (λ q, aset_Some (pages_tbl s) b q Hr) as Ht.
  eexists p, _, _, _. split_and!; [done| | | |apply Ht|].
  - unfold set_page_state, page_state_set, page_to_invalid, cassert.
    rewrite Hp. cbn [mbind option_bind]. rewrite bool_decide_true by (by left).
    cbn [mbind option_bind]. rewrite decide_False by congruence.
    cbn [mbind option_bind pg quiet]. rewrite Ht. done.
  - unfold set_refcount_up. simpl. rewrite aget_insert_eq by done. cbn [mbind option_bind].
    rewrite aset_Some by (by rewrite length_insert). by rewrite list_insert_insert_eq.
  - unfold set_page_order. simpl. rewrite aget_insert_eq by done. cbn [mbind option_bind].
    rewrite aset_Some by (by rewrite length_insert). rewrite list_insert_insert_eq.
    by rewrite mod16.
  - destruct C. split; simpl; try done.
    + by rewrite length_insert.
    + by eapply partition_relabel.
    + intros j m d q Hj Hd. destruct (decide (b = j)) as [<-|].
      * rewrite aget_insert_eq by done. rewrite lookup_insert_eq in Hj. naive_solver.
      * rewrite aget_insert_ne by done. rewrite lookup_insert_ne in Hj by done. eauto.
    + intros j q. destruct (decide (b = j)) as [<-|Hij].
      * rewrite aget_insert_eq by done. intros [= <-]. rewrite lookup_insert_eq. naive_solver.
      * rewrite aget_insert_ne, lookup_insert_ne by done. eauto.
    + intros m Hm. destruct (c_lists0 m Hm) as (l&Hl&Hlm&Hlc). exists l.
      split_and!; [done| |done]. intros j. rewrite Hlm, lookup_insert.
      case_decide; [subst; rewrite Hb; naive_solver|done].
Qed.

(** What a successful allocation of a block [b] of order [k] does to the partition:
    [b] was made of free pages, it is used now, nothing else changed. *)
Record allocated (bm : blocks) (k b : Z) (bm' : blocks) : Prop := {
  al_free q : in_block q b k → is_free bm q;
  al_rest q : is_free bm' q ↔ is_free bm q ∧ ¬ in_block q b k;
  al_used j m : bm' !! j = Some (m, Kused) ↔ bm !! j = Some (m, Kused) ∨ (j = b ∧ m = k);
}.

(** The part of [ppm_do_alloc_pages] after the search. *)
Lemma alloc_found this s bm k b m :
  ppm_ok s bm → 0 ≤ k ≤ m → bm !! b = Some (m, Kfree) →
  ∃ h c l s1 s2 s3 s4 t p bm',
    list_unlink (plinks s) (At (Obj b)) = Some h ∧
    aget (free_nr s) m = Some c ∧ aset (free_nr s) m (u32 (c - 1)) = Some l ∧
    split_loop (Z.to_nat (m - k)) (upd_free_pages_nr (free_pages_nr s - 2 ^ k) (upd_free l h s))
      b m (2 ^ m) = Some s1 ∧
    set_page_state this s1 b PGINVALID = Some s2 ∧ set_refcount_up s2 b = Some s3 ∧
    set_page_order s3 b k = Some s4 ∧ s4 = upd_pages t s1 ∧
    orders_only (upd_free_pages_nr (free_pages_nr s - 2 ^ k) s) s1 ∧
    aget (pages_tbl s1) b = Some p ∧ aset (pages_tbl s1) b (grab k p) = Some t ∧
    ppm_ok s4 bm' ∧ allocated bm k b bm'.
Proof.
  intros [C Hset Hcoal Hcnt Hsg] Hk Hb. pose proof (c_part _ _ C) as Hp.
  destruct (core_take _ _ _ _ C Hb) as (h&c&l&Eh&Ec&El&C1).
  apply (core_upd_free_pages_nr _ _ (free_pages_nr s - 2 ^ k)) in C1.
  destruct (part_range _ _ _ _ _ Hp Hb) as (Hm&_).
  destruct (split_loop_spec (Z.to_nat (m - k)) _ _ b k ltac:(lia) C1)
    as (s1&bm1&E1&C2&O1&Hb1&Ho1&U1&K1&F1).
  { rewrite lookup_insert_eq. do 2 f_equal. lia. }
  { intros j x. rewrite lookup_insert. case_decide; [done|]. intros Hj. by apply Hset in Hj. }
  replace (k + Z.of_nat (Z.to_nat (m - k))) with m in * by lia.
  destruct (core_grab _ _ this _ _ C2 Hb1) as (p&t&s2&s3&Hpb&E2&E3&E4&Ht&C3).
  assert (Hdis : ∀ q, is_free bm1 q → ¬ in_block q b k).
  { intros q (j&x&Hj&Hj') Hq. assert (b = j) as ->; [|congruence].
    eapply in_block_unique; [apply C2|exact Hb1|exact Hj|done|done]. }
  assert (Hall : ∀ q, is_free bm q ↔ is_free bm1 q ∨ in_block q b k).
  { intros q. rewrite F1, (is_free_hold _ _ _ _ _ _ Hp Hb) by done.
    assert (in_block q b m → is_free bm q) by (intros; by exists b, m).
    unfold in_block in *. destruct (decide (b ≤ q < b + 2 ^ m)); tauto. }
  assert (Hnr : pages_nr s1 = pages_nr s) by (destruct O1 as (?&?&?&->&_); done).
  assert (Hrel : ∀ q, is_free (<[b := (k, Kused)]> bm1) q ↔ is_free bm1 q).
  { intros q. by apply (is_free_relabel _ _ k k Kheld Kused). }
  assert (O2 : orders_only (upd_free_pages_nr (free_pages_nr s - 2 ^ k) s) s1).
  { destruct O1 as (l1&h1&t1&->&Ht1). by exists l1, h1, t1. }
  eexists h, c, l, s1, s2, s3, _, t, p, (<[b := (k, Kused)]> bm1).
  split_and!; try done; [split|split].
  - done.
  - intros j x. rewrite lookup_insert. case_decide; [done|]. intros Hj%Ho1. congruence.
  - eapply coalesced_mono; [apply K1|].
    + eapply coalesced_mono; [exact Hcoal|]. intros j x. rewrite lookup_insert. by case_decide.
    + intros j x. rewrite lookup_insert. by case_decide.
  - assert (free_sum bm = free_sum (<[b := (k, Kused)]> bm1) + 2 ^ k) as Hs.
    { apply (free_sum_add (pages_nr s) _ _ b); [rewrite <- Hnr; apply C3|done|lia|..];
        intros q; rewrite Hrel; auto. }
    destruct O2 as (?&?&?&->&_). simpl. lia.
  - by destruct O2 as (?&?&?&->&_).
  - intros q Hq. apply Hall. by right.
  - intros q. rewrite Hrel, Hall. specialize (Hdis q). tauto.
  - intros j x. rewrite lookup_insert. case_decide as Hj.
    + subst j. split; [intros [= ->]; by right|]. intros [Hu|[_ ->]]; [congruence|done].
    + rewrite (U1 j x), lookup_insert. case_decide; naive_solver.
Qed.

Lemma ppm_do_alloc_pages_spec this s bm k :
  ppm_ok s bm → 0 ≤ k →
  (ppm_do_alloc_pages this s k = Some (s, None) ∧
   ∀ i m, bm !! i = Some (m, Kfree) → m < k) ∨
  (∃ b s1 p t bm', ppm_do_alloc_pages this s k = Some (upd_pages t s1, Some b) ∧
     orders_only (upd_free_pages_nr (free_pages_nr s - 2 ^ k) s) s1 ∧
     aget (pages_tbl s1) b = Some p ∧ aset (pages_tbl s1) b (grab k p) = Some t ∧
     ppm_ok (upd_pages t s1) bm' ∧ allocated bm k b bm').
Proof.
  intros Hok Hk. pose proof (ok_core _ _ Hok) as C. unfold ppm_do_alloc_pages, cassert.
  rewrite (ok_sign _ _ Hok), Z.eqb_refl. cbn [mbind option_bind].
  destruct (search_loop_spec _ s bm k eq_refl Hk C) as [[-> Hno]|(b&m&h&->&Hle&Hb&Hu&_)];
    cbn [mbind option_bind]; [by left|right].
  destruct (alloc_found this s bm k b m Hok ltac:(lia) Hb)
    as (h'&c&l&s1&s2&s3&s4&t&p&bm'&Eh&Ec&El&E1&E2&E3&E4&->&O&Hp&Ht&Hok'&Hal).
  assert (h' = h) as -> by congruence.
  exists b, s1, p, t, bm'. split_and!; try done.
  change (free_nr (upd_free_pages_nr _ _)) with (free_nr s).
  change (plinks (upd_free_pages_nr _ _)) with h.
  change (free_pages_nr (upd_free (free_nr s) h s)) with (free_pages_nr s).
  rewrite Ec. cbn [mbind option_bind]. rewrite El. cbn [mbind option_bind].
  rewrite !Z.shiftl_1_l.
  assert (u32 (free_pages_nr s - 2 ^ k) = free_pages_nr s - 2 ^ k) as ->.
  { destruct O as (?&?&?&->&_). pose proof (ok_count _ _ Hok') as Hc. simpl in Hc.
    pose proof (c_part _ _ (ok_core _ _ Hok')) as Hpart. simpl in Hpart.
    assert (0 ≤ pages_nr s) by (rewrite <- (c_len _ _ C); lia).
    pose proof (free_sum_bound _ _ ltac:(done) Hpart). pose proof (c_max _ _ C).
    apply u32_small. lia. }
  change (upd_free l h (upd_free_pages_nr _ _))
    with (upd_free_pages_nr (free_pages_nr s - 2 ^ k) (upd_free l h s)).
  rewrite E1. cbn [mbind option_bind]. rewrite E2. cbn [mbind option_bind].
  rewrite E3. cbn [mbind option_bind]. by rewrite E4.
Qed.

(** ** Initialisation establishes the invariant *)

Lemma init_roots_spec n (h : links) i :
  (∀ k, i ≤ k < i + Z.of_nat n → is_Some (h !! Root k)) →
  ∃ h', init_roots n h i = Some h' ∧ frame h h' (Root <$> seqZ i (Z.of_nat n)) ∧
        ∀ k, i ≤ k < i + Z.of_nat n → olist h' k [].
Proof.
  revert h i. induction n as [|n IH]; intros h i Hc.
  - exists h. split_and!; [done|apply frame_refl|]. intros. lia.
  - destruct (olist_root_init h i) as (h1&E1&H1&F1); [apply Hc; lia|].
    destruct (IH h1 (i + 1)) as (h2&E2&F2&H2).
    { intros k Hk. apply F1, Hc. lia. }
    rewrite (seqZ_cons i) by lia. replace (Z.pred (Z.of_nat (S n))) with (Z.of_nat n) by lia.
    rewrite <- Z.add_1_r. exists h2. split_and!.
    + cbn [init_roots]. rewrite E1. exact E2.
    + eapply frame_trans; (eapply frame_mono; [|eassumption]); set_solver.
    + intros k Hk. destruct (decide (k = i)) as [->|]; [|apply H2; lia].
      eapply frame_dlist; [exact F2| |exact H1]. intros x Hx ->%list_elem_of_singleton.
      apply list_elem_of_fmap in Hx as (y&[= <-]&Hy%elem_of_seqZ). lia.
Qed.

(** Descriptors during initialisation: order 0, reserved exactly on [R]. *)
Definition raw (R : Z → Prop) (t : list page_s) : Prop :=
  ∀ j p, aget t j = Some p →
    order p = 0 ∧ (state p = PGINIT ∨ state p = PGRESERVED) ∧ (state p = PGRESERVED ↔ R j).

Lemma raw_init cid n : raw (λ _, False) (replicate n (page_init cid)).
Proof.
  intros j p. unfold aget. case_match; [|done].
  intros [-> _]%lookup_replicate. simpl. naive_solver.
Qed.

Lemma raw_reserve this s i R :
  raw R (pages_tbl s) → 0 ≤ i < Z.of_nat (length (pages_tbl s)) →
  ∃ t, set_page_state this s i PGRESERVED = Some (upd_pages t s) ∧
       length t = length (pages_tbl s) ∧ raw (λ j, R j ∨ j = i) t.
Proof.
  intros HR Hi. destruct (aget_range _ _ Hi) as [p Hp].
  eexists. unfold set_page_state. rewrite Hp. cbn [mbind option_bind page_state_set].
  rewrite aset_Some by done. split_and!; [done|by rewrite length_insert|].
  intros j q. destruct (decide (i = j)) as [<-|Hij].
  - rewrite aget_insert_eq by done. intros [= <-]. simpl.
    destruct (HR _ _ Hp) as (?&?&?). naive_solver.
  - rewrite aget_insert_ne by done. intros Hq. destruct (HR _ _ Hq) as (?&?&Hs).
    split_and!; [done..|]. rewrite Hs. split; [by left|intros [|]; congruence].
Qed.

Lemma raw_iff R R' t : raw R t → (∀ j, R j ↔ R' j) → raw R' t.
Proof. intros HR HI j p Hp. rewrite <- HI. by apply HR. Qed.

Lemma reserve_loop_spec n this s i R :
  raw R (pages_tbl s) → 0 ≤ i → i + Z.of_nat n ≤ Z.of_nat (length (pages_tbl s)) →
  ∃ t, reserve_loop n this s i = Some (upd_pages t s) ∧
       length t = length (pages_tbl s) ∧ raw (λ j, R j ∨ i ≤ j < i + Z.of_nat n) t.
Proof.
  revert s i R. induction n as [|n IH]; intros s i R HR Hi Hle.
  - exists (pages_tbl s). split_and!; [by destruct s|done|].
    eapply raw_iff; [exact HR|]. intros j. split; [by left|intros [|]; [done|lia]].
  - destruct (raw_reserve this s i R HR ltac:(lia)) as (t&E&Hl&HR1).
    destruct (IH (upd_pages t s) (i + 1) _ HR1) as (t'&E'&Hl'&HR'); [lia|simpl; lia|].
    exists t'. split_and!.
    + cbn [reserve_loop]. rewrite E. exact E'.
    + by rewrite Hl'.
    + eapply raw_iff; [exact HR'|]. intros j. split.
      * intros [[|]|]; [by left|right; lia..].
      * intros [|]; [by left; left|]. destruct (decide (j = i)); [by left; right|right; lia].
Qed.

(** The page the reservation loop marks for the address [a]. *)
Definition page_of (s : ppm_s) (a : Z) : Z := (a - vaddr_begin s) / PMM_PAGE_SIZE.

(** Where [reserve_range] can run: the range lies in the memory of the manager, whose
    pages all belong to the current cluster. *)
Record range_ok (pf : platform) (s : ppm_s) (info : boot_info_s) : Prop := {
  r_begin : 0 ≤ vaddr_begin s ≤ reserved_start info;
  r_end : reserved_end info ≤ vaddr_begin s + pages_nr s * PMM_PAGE_SIZE;
  r_width : reserved_end info + PMM_PAGE_SIZE < wsize;
  r_ppn : 0 ≤ ppn_start s ∧ ppn_start s + pages_nr s < wsize;
  r_cid ppn : ppn_start s ≤ ppn < ppn_start s + pages_nr s →
              pmm_ppn2cid pf ppn = Some (current_cid pf);
}.

Lemma reserved_index pf s info a :
  range_ok pf s info → vaddr_begin s ≤ a < reserved_end info →
  (if local_cluster_id info =? boot_cluster_id info
   then ppm_ppn2page pf s (ppm_vma2ppn s a) else Some (ppm_addr2page s a))
  = Some (page_of s a) ∧ 0 ≤ page_of s a < pages_nr s.
Proof.
  intros [Hb He Hw Hp Hc] Ha. unfold PMM_PAGE_SIZE in *.
  assert (Hi : 0 ≤ page_of s a < pages_nr s).
  { unfold page_of, PMM_PAGE_SIZE. split; [apply Z.div_pos; lia|].
    apply Z.div_lt_upper_bound; lia. }
  split; [|done].
  assert (Hx : ppm_addr2page s a = page_of s a).
  { unfold ppm_addr2page, page_of, PMM_PAGE_SHIFT, PMM_PAGE_SIZE.
    rewrite Z.shiftr_div_pow2, u32_small by (unfold wsize in *; lia). done. }
  case_match; [|by rewrite Hx].
  unfold ppm_vma2ppn. change (Z.shiftr _ _) with (ppm_addr2page s a). rewrite Hx.
  rewrite u32_small by lia. unfold ppm_ppn2page. rewrite Hc by lia.
  cbn. rewrite Z.eqb_refl. cbn. rewrite Z.add_simpl_r, u32_small by lia. done.
Qed.

Lemma reserve_range_spec n pf info this s a R :
  range_ok pf s info → raw R (pages_tbl s) →
  Z.of_nat (length (pages_tbl s)) = pages_nr s → vaddr_begin s ≤ a →
  reserved_end info - a < PMM_PAGE_SIZE * Z.of_nat n →
  ∃ t, reserve_range n pf info this s a = Some (upd_pages t s) ∧
       length t = length (pages_tbl s) ∧
       raw (λ j, R j ∨ ∃ m, 0 ≤ m ∧ a + PMM_PAGE_SIZE * m < reserved_end info ∧
                            j = page_of s (a + PMM_PAGE_SIZE * m)) t.
Proof.
  revert s a R. induction n as [|n IH]; intros s a R Hr HR Hl Ha Hn; cbn [reserve_range];
    destruct (Z.ltb_spec a (reserved_end info)) as [Hlt|Hge]; try (exfalso; lia).
  1, 3: exists (pages_tbl s); split_and!; [by destruct s|done|];
    (eapply raw_iff; [exact HR|]); intros j; (split; [by left|]);
    unfold PMM_PAGE_SIZE; intros [|(?&?&?&?)]; [done|lia].
  destruct (reserved_index pf s info a Hr ltac:(lia)) as [-> Hi]. cbn [mbind option_bind].
  destruct (raw_reserve this s _ R HR ltac:(rewrite Hl; exact Hi)) as (t&E&Hlt'&HR1).
  rewrite E. cbn [mbind option_bind].
  assert (u32 (a + PMM_PAGE_SIZE) = a + PMM_PAGE_SIZE) as ->.
  { destruct Hr. unfold PMM_PAGE_SIZE in *. apply u32_small. lia. }
  destruct (IH (upd_pages t s) (a + PMM_PAGE_SIZE) (λ j, R j ∨ j = page_of s a)) as (t'&E'&Hl'&HR');
    [|exact HR1|simpl; lia|unfold PMM_PAGE_SIZE; simpl; lia|unfold PMM_PAGE_SIZE in *; lia|].
  { by destruct Hr. }
  exists t'. split_and!; [exact E'|by rewrite Hl'|]. eapply raw_iff; [exact HR'|].
  intros j. change (page_of (upd_pages t s)) with (page_of s). split.
  - intros [[?| ->]|(m&Hm&Hlt2&->)]; [by left|right; exists 0|right; exists (m + 1)].
    + unfold PMM_PAGE_SIZE in *. split_and!; [lia|lia|f_equal; lia].
    + unfold PMM_PAGE_SIZE in *. split_and!; [lia|lia|f_equal; lia].
  - intros [|(m&Hm&Hlt2&->)]; [by left; left|].
    destruct (decide (m = 0)) as [->|].
    + left. right. f_equal. lia.
    + unfold PMM_PAGE_SIZE in *. right. exists (m - 1). split_and!; [lia|lia|f_equal; lia].
Qed.

(** Before the first page is freed every page is a used block of its own. *)
Definition all_used (n : Z) : blocks := gset_to_gmap (0, Kused) (list_to_set (seqZ 0 n)).

Lemma all_used_lookup n i kc : all_used n !! i = Some kc ↔ 0 ≤ i < n ∧ kc = (0, Kused).
Proof.
  unfold all_used. rewrite lookup_gset_to_gmap_Some, elem_of_list_to_set, elem_of_seqZ.
  naive_solver lia.
Qed.

Lemma all_used_partition n : partition n (all_used n).
Proof.
  split.
  - intros i k c [Hi [= -> ->]]%all_used_lookup. unfold PPM_MAX_ORDER.
    split_and!; try lia. apply Z.divide_1_l.
  - intros i k c j m d [Hi [= -> ->]]%all_used_lookup [Hj [= -> ->]]%all_used_lookup. lia.
  - intros p Hp. exists p, 0, Kused. rewrite all_used_lookup. unfold in_block. split; [done|lia].
Qed.

Lemma all_used_not_free n q : ¬ is_free (all_used n) q.
Proof. intros (i&k&[_ [=]]%all_used_lookup&_). Qed.

Lemma all_used_sum n : free_sum (all_used n) = 0.
Proof.
  destruct (free_count (all_used n)) as (S&HS&<-).
  { eapply partition_separated, all_used_partition. }
  assert (S = ∅) as ->; [|done]. apply set_eq. intros q. rewrite HS.
  split; [intros []%all_used_not_free|set_solver].
Qed.

(** The manager before the first page is freed. *)
Lemma all_used_ok s R :
  Z.of_nat (length (pages_tbl s)) = pages_nr s → (2 ^ PPM_LAST_ORDER | pages_nr s) →
  pages_nr s < wsize → signature s = PPM_ID → free_pages_nr s = 0 →
  raw R (pages_tbl s) → (∀ k, 0 ≤ k < PPM_MAX_ORDER → olist (plinks s) k []) →
  free_nr s = replicate (Z.to_nat PPM_MAX_ORDER) 0 →
  (∀ i, 0 ≤ i < pages_nr s → is_Some (plinks s !! Obj i)) →
  ppm_ok s (all_used (pages_nr s)).
Proof.
  intros Hl Hdiv Hmax Hsg Hf HR Hls Hfn Hcells. split; [split; try done|..].
  - apply all_used_partition.
  - intros i k c p [_ [= -> ->]]%all_used_lookup _ Hp. by apply HR in Hp as [? _].
  - intros i p Hp. pose proof (aget_Some_range _ _ _ Hp).
    apply HR in Hp as (_&[-> | ->]&_); split; try done;
      intros _; exists 0; apply all_used_lookup; split; [lia|done|lia|done].
  - intros k Hk. exists []. split_and!; [by apply Hls| |].
    + intros i. rewrite all_used_lookup. set_solver.
    + rewrite Hfn. unfold aget, PPM_MAX_ORDER in *.
      rewrite (proj2 (Z.leb_le 0 k)) by lia. apply lookup_replicate_2. lia.
  - intros i k [_ [=]]%all_used_lookup.
  - intros i k [_ [=]]%all_used_lookup.
  - by rewrite all_used_sum.
  - done.
Qed.

(** Descriptors not visited yet by [free_loop]. *)
Definition pending (s : ppm_s) (bm : blocks) (R : Z → Prop) (i : Z) : Prop :=
  ∀ j p, i ≤ j → aget (pages_tbl s) j = Some p →
    bm !! j = Some (0, Kused) ∧ (state p = PGINIT ∨ state p = PGRESERVED) ∧
    (state p = PGRESERVED ↔ R j).

Lemma aget_orders_only s s' j p' :
  orders_only s s' → aget (pages_tbl s') j = Some p' →
  ∃ p, aget (pages_tbl s) j = Some p ∧ set_order 0 p' = set_order 0 p.
Proof.
  intros (l&h&t&->&Ht) Hp. specialize (Ht j). simpl in Hp. rewrite Hp in Ht.
  destruct (aget (pages_tbl s) j) as [p|]; [|done]. exists p.
  split; [done|]. by apply (inj Some).
Qed.

Lemma free_loop_spec n this s bm i R :
  i + Z.of_nat n = pages_nr s → 0 ≤ i → ppm_ok s bm → pending s bm R i →
  ∃ s' bm', free_loop n this s i = Some s' ∧ ppm_ok s' bm' ∧ pages_nr s' = pages_nr s ∧
    (∀ q, is_free bm' q ↔ is_free bm q ∨ (i ≤ q < pages_nr s ∧ ¬ R q)).
Proof.
  revert s bm i. induction n as [|n IH]; intros s bm i Hn Hi Hok HP.
  - exists s, bm. split_and!; [done..|]. intros q. split; [by left|]. intros [|[? _]]; [done|lia].
  - pose proof (ok_core _ _ Hok) as C.
    destruct (aget_range (pages_tbl s) i) as [p Hp]; [rewrite (c_len _ _ C); lia|].
    destruct (HP i p ltac:(lia) Hp) as (Hb&Hst&HRi). cbn [free_loop]. rewrite Hp.
    cbn [mbind option_bind]. unfold page_state_get.
    destruct (bool_decide_reflect (state p ≠ PGRESERVED)) as [Hs|Hs].
    + rewrite (c_order _ _ C _ _ _ _ Hb ltac:(done) Hp).
      destruct (ppm_free_pages_nolock_spec this s bm i 0 p Hok Hb Hp)
        as (t&s1&bm1&->&Hok1&U1&F1&Ht&O1); [unfold freeable; naive_solver|].
      cbn [mbind option_bind].
      assert (Hnr : pages_nr s1 = pages_nr s) by (destruct O1 as (?&?&?&->&_); done).
      destruct (IH s1 bm1 (i + 1)) as (s'&bm'&E&Hok'&Hnr'&F'); [lia|lia|done| |].
      { intros j p1 Hj Hp1. destruct (aget_orders_only _ _ _ _ O1 Hp1) as (p0&Hp0&Hpo).
        simpl in Hp0. rewrite (aget_aset_ne _ i j _ _ ltac:(lia) Ht) in Hp0.
        destruct (HP j p0 ltac:(lia) Hp0) as (Hb0&Hs0&HR0).
        replace (state p1) with (state p0) by (destruct p0, p1; simplify_eq/=; done).
        split_and!; [apply U1; split; [done|lia]|done..]. }
      exists s', bm'. split_and!; [done|done|lia|]. intros q. rewrite F', F1, Hnr.
      unfold in_block. change (2 ^ 0) with 1. split.
      * intros [[|]|[??]]; [by left|right..]; [|split; [lia|done]].
        assert (q = i) as -> by lia. split; [lia|]. by rewrite <- HRi.
      * intros [|[??]]; [by left; left|]. destruct (decide (q = i)); [left; right; lia|].
        right. split; [lia|done].
    + cbn [mbind option_bind].
      destruct (IH s bm (i + 1)) as (s'&bm'&E&Hok'&Hnr'&F'); [lia|lia|done| |].
      { intros j q Hj. apply HP. lia. }
      assert (R i) by (apply HRi; by destruct (decide (state p = PGRESERVED))).
      exists s', bm'. split_and!; [done..|]. intros q. rewrite F'.
      split; [intros [|[??]]; [by left|right; split; [lia|done]]|].
      intros [|[??]]; [by left|right]. split; [|done]. destruct (decide (q = i)); [congruence|lia].
Qed.

(** Memory in which [ppm_init] can work. *)
Record memory_ok (page_size : Z) (pf : platform) (h : links) (s : ppm_s)
    (info : boot_info_s) : Prop := {
  m_div : (2 ^ PPM_LAST_ORDER | pages_nr s);
  m_roots k : 0 ≤ k < PPM_MAX_ORDER → is_Some (h !! Root k);
  m_cells i : 0 ≤ i < pages_nr s → is_Some (h !! Obj i);
  m_table : reserved_pages_nr page_size s ≤ pages_nr s;
  m_range : range_ok pf s info;
}.

(** The pages [ppm_init] keeps out of the allocator. *)
Definition reserved_page (page_size : Z) (s : ppm_s) (info : boot_info_s) (q : Z) : Prop :=
  q < reserved_pages_nr page_size s ∨
  ∃ m, 0 ≤ m ∧ reserved_start info + PMM_PAGE_SIZE * m < reserved_end info ∧
       q = page_of s (reserved_start info + PMM_PAGE_SIZE * m).

Lemma fresh_pages_nr h begin limit vb vs :
  0 ≤ pages_nr (ppm_fresh h begin limit vb vs) < 2 ^ 20.
Proof.
  simpl. unfold PMM_PAGE_SHIFT. rewrite Z.shiftr_div_pow2 by done.
  pose proof (u32_bound (limit - begin)) as Hu. change wsize with (2 ^ 12 * 2 ^ 20) in Hu.
  destruct Hu. split; [by apply Z.div_pos|]. by apply Z.div_lt_upper_bound.
Qed.

Lemma reserved_nr_nonneg page_size s : 0 ≤ reserved_pages_nr page_size s.
Proof. apply u32_bound. Qed.

Lemma ppm_init_finalize_spec page_size pf this h s info :
  memory_ok page_size pf h s info → 0 ≤ pages_nr s < 2 ^ 20 →
  signature s = PPM_ID → free_pages_nr s = 0 →
  free_nr s = replicate (Z.to_nat PPM_MAX_ORDER) 0 →
  frame h (plinks s) (Root <$> seqZ 0 PPM_MAX_ORDER) →
  (∀ k, 0 ≤ k < PPM_MAX_ORDER → olist (plinks s) k []) →
  ∃ s' bm, ppm_init_finalize page_size pf this s info = Some s' ∧ ppm_ok s' bm ∧
    pages_nr s' = pages_nr s ∧
    (∀ q, is_free bm q ↔ 0 ≤ q < pages_nr s ∧ ¬ reserved_page page_size s info q).
Proof.
  intros [Hdiv Hroots Hcells Htab Hrange] Hnr Hsig Hf0 Hfn Hframe Hls.
  pose proof (reserved_nr_nonneg page_size s) as Hres.
  set (s0 := upd_pages (replicate (Z.to_nat (pages_nr s)) (page_init (local_cluster_id info))) s).
  assert (Hl0 : Z.of_nat (length (pages_tbl s0)) = pages_nr s).
  { simpl. rewrite length_replicate. lia. }
  destruct (reserve_loop_spec (Z.to_nat (reserved_pages_nr page_size s)) this s0 0
              (λ _, False)) as (t1&E1&Hl1&HR1); [apply raw_init|done|rewrite Hl0; lia|].
  assert (Hrange1 : range_ok pf (upd_pages t1 s) info) by (by destruct Hrange).
  destruct (reserve_range_spec (range_fuel info) pf info this (upd_pages t1 s)
              (reserved_start info) _ Hrange1 HR1) as (t2&E2&Hl2&HR2).
  { simpl. rewrite Hl1. done. }
  { apply Hrange. }
  { unfold range_fuel, PMM_PAGE_SIZE.
    pose proof (Z.div_mod (reserved_end info - reserved_start info) 0x1000 ltac:(done)).
    pose proof (Z.mod_pos_bound (reserved_end info - reserved_start info) 0x1000 ltac:(done)).
    lia. }
  simpl in Hl2.
  assert (Hok : ppm_ok (upd_pages t2 s) (all_used (pages_nr s))).
  { eapply (all_used_ok (upd_pages t2 s)); try done.
    - simpl. rewrite Hl2, Hl1. done.
    - simpl. unfold wsize. simpl in Hnr. lia.
    - intros i Hi. apply Hframe. by apply Hcells. }
  destruct (free_loop_spec (Z.to_nat (pages_nr s)) this (upd_pages t2 s) (all_used (pages_nr s)) 0
              (reserved_page page_size s info))
    as (s'&bm&E3&Hok'&Hnr'&Hfree); [simpl; lia|done|exact Hok| |].
  { intros j p Hj Hp. pose proof (aget_Some_range _ _ _ Hp) as Hr. simpl in Hr.
    destruct (HR2 j p Hp) as (_&Hst&HRj). split_and!; [|done|].
    - apply all_used_lookup. split; [simpl in *; lia|done].
    - rewrite HRj. unfold reserved_page. change (page_of (upd_pages t1 s)) with (page_of s).
      split; [intros [[[]|]|]; [left; lia|by right]|].
      intros [|]; [left; right; lia|by right]. }
  exists s', bm. split_and!; [|done|done|].
  - unfold ppm_init_finalize, ppm_init_pages. fold s0.
    change (reserved_pages_nr page_size s0) with (reserved_pages_nr page_size s).
    rewrite E1. cbn [mbind option_bind].
    change (upd_pages t1 s0) with (upd_pages t1 s). rewrite E2. exact E3.
  - intros q. rewrite Hfree. pose proof (all_used_not_free (pages_nr s) q). tauto.
Qed.

Lemma ppm_ok_mins s bm u k g : ppm_ok s bm → ppm_ok (upd_mins u k g s) bm.
Proof. by intros [[] ]. Qed.

Lemma ppm_init_spec page_size pf this h begin limit vb vs info :
  let s0 := ppm_fresh h begin limit vb vs in
  memory_ok page_size pf h s0 info →
  ∃ s bm, ppm_init page_size pf this h begin limit vb vs info = Some s ∧ ppm_ok s bm ∧
    pages_nr s = pages_nr s0 ∧
    (∀ q, is_free bm q ↔ 0 ≤ q < pages_nr s0 ∧ ¬ reserved_page page_size s0 info q) ∧
    urgent_pages_min s ≤ kprio_pages_min s ≤ uprio_pages_min s ∧
    uprio_pages_min s ≤ free_pages_nr s.
Proof.
  intros s0 Hm. destruct (init_roots_spec (Z.to_nat PPM_MAX_ORDER) h 0) as (h'&Eh&Fh&Hls).
  { intros k Hk. by apply Hm. }
  pose proof (fresh_pages_nr h' begin limit vb vs) as Hnr.
  destruct (ppm_init_finalize_spec page_size pf this h (ppm_fresh h' begin limit vb vs) info)
    as (s&bm&Es&Hok&Hn&Hfree); try done.
  { by destruct Hm as [? ? ? ? []]. }
  eexists _, bm. split_and!; [|apply ppm_ok_mins; exact Hok|exact Hn|exact Hfree|..].
  { unfold ppm_init. rewrite Eh. cbn [mbind option_bind]. by rewrite Es. }
  all: destruct Hok as [C _ _ Hcnt _]; rewrite <- Hn in Hnr;
    pose proof (free_sum_bound (pages_nr s) bm ltac:(lia) (c_part _ _ C));
    unfold CONFIG_PPM_UPRIO_PGMIN, CONFIG_PPM_KPRIO_PGMIN, CONFIG_PPM_URGENT_PGMIN;
    cbn [urgent_pages_min kprio_pages_min uprio_pages_min free_pages_nr upd_mins];
    rewrite Hcnt, !u32_small by (unfold wsize; lia).
  - apply Z.div_le_mono; lia.
  - apply Z.div_le_mono; lia.
  - apply Z.div_le_upper_bound; lia.
Qed.
