(* ===== verification/PpmSystem.v ===== *)
(** * Clients of the physical pages manager

    The front end [ppm_alloc_pages] with its priorities and retries, and the whole
    system: clients that allocate blocks, change the state of their pages, share
    them and free them, in any order. *)

From S2P Require Import Prelude Clist Bits Page Buddy Ppm.

Open Scope Z_scope.

(** ** The front end (src/kernel/mm/ppm.c, ppm_alloc_pages) *)

Definition AF_TTL_MASK : Z := 0xFF.
Definition AF_TTL_LOW : Z := 0x8.
Definition AF_TTL_HIGH : Z := 0x80.
Definition AF_USR : Z := 0x20000.
Definition AF_PRIO : Z := 0x100000.
Definition AF_AFFINITY : Z := 0x800000.
Definition AF_GETTTL (flags : Z) : Z := Z.land flags AF_TTL_MASK.

Definition PT_ATTR_MEM_PRIO : Z := 0x008.
Definition PT_ATTR_INTERLEAVE_SEQ : Z := 0x010.
Definition PT_ATTR_INTERLEAVE_ALL : Z := 0x020.
Definition PT_ATTR_MEM_CID_RR : Z := 0x100.

(** The managers of all the clusters, by cluster identifier. *)
Abbreviation managers := (gmap Z ppm_s).

(** What does not change during a call: the caller ([thread], its attribute flags and
    its cluster [here]), the manager asked, the request, the number of clusters. *)
Record request := Request {
  thread : Z; attr_flags : Z; here : Z;
  ppm : Z; rorder : Z; rflags : Z; onln_clstrs : Z;
  isInterleave : bool; isSeqNextCID : bool }.

(** [dqdt_mem_request] in the configuration without DQDT (dqdt.c): no error, and the
    current cluster. *)
Definition dqdt_mem_request (r : request) : Z * Z := (0, here r).

(** The threshold, and the cluster the attempt uses. *)
Definition attempt (r : request) (p : ppm_s) (useUPRIO : bool) (last_cid cid current : Z)
    : Z * Z * Z * Z :=
  if useUPRIO then (uprio_pages_min p, last_cid, cid, current)
  else if ctrue (Z.land (rflags r) AF_USR) then
    if isInterleave r
    then (kprio_pages_min p, u32 (last_cid + 1), last_cid mod onln_clstrs r, here r)
    else (kprio_pages_min p, last_cid, cid, current)
  else if ctrue (Z.land (rflags r) AF_PRIO)
  then (urgent_pages_min p, last_cid, cid, current)
  else (0, last_cid, cid, current).

Fixpoint alloc_loop (fuel : nat) (r : request) (m : managers)
    (last_cid cntr cid current : Z) (useUPRIO : bool)
    : option (managers * Z * option (Z * Z)) :=
  if cntr =? 0 then Some (m, last_cid, None) else
  match fuel with
  | O => None
  | S fuel =>
      let cntr := cntr - 1 in
      p ← m !! ppm r;
      let '(threshold, last_cid, cid, current) :=
        attempt r p useUPRIO last_cid cid current in
      c ← m !! current;
      '(m, ptr) ← (if threshold <? free_pages_nr c
                   then '(c, b) ← ppm_do_alloc_pages (thread r) c (rorder r);
                        Some (<[current := c]> m, b)
                   else Some (m, None));
      match ptr with
      | Some b => Some (m, last_cid, Some (current, b))
      | None =>
          if (cntr =? 0) && useUPRIO
          then alloc_loop fuel r m last_cid AF_TTL_LOW (ppm r) (ppm r) false
          else if isSeqNextCID r
          then alloc_loop fuel r m last_cid cntr ((cid + 1) mod onln_clstrs r) (here r) useUPRIO
          else
            let '(err, acid) := dqdt_mem_request r in
            if err =? 0
            then alloc_loop fuel r m last_cid cntr acid (here r) useUPRIO
            else alloc_loop fuel r m last_cid cntr ((cid + 1) mod onln_clstrs r) (here r) false
      end
  end.

Definition alloc_fuel : nat := 264.

(** The result: the managers, [ppm_last_cid] of the caller, and the cluster and index
    of the block, [None] for [NULL]. *)
Definition ppm_alloc_pages (this attr last_cid cur_cid onln : Z) (m : managers)
    (pcid order flags : Z) : option (managers * Z * option (Z * Z)) :=
  let affinity := ctrue (Z.land flags AF_AFFINITY) in
  let useUPRIO := affinity && ctrue (Z.land attr PT_ATTR_MEM_PRIO) in
  let cntr := if useUPRIO then AF_GETTTL AF_TTL_HIGH else AF_GETTTL flags in
  let r := {| thread := this; attr_flags := attr; here := cur_cid;
              ppm := pcid; rorder := order; rflags := flags; onln_clstrs := onln;
              isInterleave := affinity && (ctrue (Z.land attr PT_ATTR_INTERLEAVE_ALL)
                                        || ctrue (Z.land attr PT_ATTR_INTERLEAVE_SEQ));
              isSeqNextCID := affinity && ctrue (Z.land attr PT_ATTR_MEM_CID_RR) |} in
  alloc_loop alloc_fuel r m last_cid (if cntr =? 0 then 1 else cntr) pcid pcid useUPRIO.

(** The threshold of a request on the manager [p]. *)
Definition low_threshold (p : ppm_s) (flags : Z) : Z :=
  if ctrue (Z.land flags AF_USR) then kprio_pages_min p
  else if ctrue (Z.land flags AF_PRIO) then urgent_pages_min p else 0.

Definition all_ok (m : managers) : Prop := ∀ c s, m !! c = Some s → ∃ bm, ppm_ok s bm.

(** A block [b] of order [k] came from the manager of cluster [c]. *)
Definition came_from (this : Z) (m m' : managers) (k c b : Z) : Prop :=
  ∃ s s' bm bm', m !! c = Some s ∧ m' = <[c := s']> m ∧
    ppm_do_alloc_pages this s k = Some (s', Some b) ∧
    ppm_ok s bm ∧ ppm_ok s' bm' ∧ allocated bm k b bm'.

Lemma attempt_current r p u l i c th l' i' c' :
  attempt r p u l i c = (th, l', i', c') →
  (c' = c ∨ c' = here r) ∧
  (th = uprio_pages_min p ∨ th = low_threshold p (rflags r)).
Proof.
  unfold attempt, low_threshold. intros E.
  destruct u; simplify_eq/=; [by auto|].
  destruct (ctrue (Z.land (rflags r) AF_USR)); [destruct (isInterleave r)|];
    [..|destruct (ctrue (Z.land (rflags r) AF_PRIO))]; simplify_eq/=; auto.
Qed.

Lemma all_ok_insert (m : managers) (c : Z) s bm : all_ok m → ppm_ok s bm → all_ok (<[c := s]> m).
Proof.
  intros Hm Hs c' s'. rewrite lookup_insert. case_decide; [|by apply Hm].
  intros [= <-]. eauto.
Qed.

Lemma alloc_loop_spec fuel r (m : managers) p last cntr cid cur (u : bool) :
  all_ok m → 0 ≤ rorder r → m !! ppm r = Some p → is_Some (m !! here r) →
  cur = ppm r ∨ cur = here r →
  0 ≤ cntr → cntr + (if u then AF_TTL_LOW else 0) ≤ Z.of_nat fuel →
  ∃ m' last' res, alloc_loop fuel r m last cntr cid cur u = Some (m', last', res) ∧
    match res with
    | None => m' = m
    | Some (c, b) =>
        (c = ppm r ∨ c = here r) ∧ came_from (thread r) m m' (rorder r) c b ∧
        ∃ s, m !! c = Some s ∧
          (uprio_pages_min p < free_pages_nr s ∨ low_threshold p (rflags r) < free_pages_nr s)
    end.
Proof.
  intros Hok Hk Hp Hh. revert last cntr cid cur u.
  induction fuel as [|fuel IH]; intros last cntr cid cur u Hcur Hc Hf.
  - assert (cntr = 0) as -> by (unfold AF_TTL_LOW in *; destruct u; lia).
    exists m, last, None. done.
  - cbn [alloc_loop]. destruct (Z.eqb_spec cntr 0) as [->|Hc0]; [by exists m, last, None|].
    rewrite Hp. cbn [mbind option_bind].
    destruct (attempt r p u last cid cur) as [[[th l'] i'] c'] eqn:Ea.
    destruct (attempt_current _ _ _ _ _ _ _ _ _ _ Ea) as [Hc' Hth].
    assert (Hc'' : c' = ppm r ∨ c' = here r) by (destruct Hc' as [->| ->]; auto).
    assert (is_Some (m !! c')) as [s Hs] by (destruct Hc'' as [->| ->]; [by eexists|done]).
    rewrite Hs. cbn [mbind option_bind].
    assert (Hnext : ∃ m' last' res,
      (if (cntr - 1 =? 0) && u
       then alloc_loop fuel r m l' AF_TTL_LOW (ppm r) (ppm r) false
       else if isSeqNextCID r
       then alloc_loop fuel r m l' (cntr - 1) ((i' + 1) mod onln_clstrs r) (here r) u
       else alloc_loop fuel r m l' (cntr - 1) (here r) (here r) u) = Some (m', last', res) ∧
      match res with
      | None => m' = m
      | Some (c, b) =>
        (c = ppm r ∨ c = here r) ∧ came_from (thread r) m m' (rorder r) c b ∧
        ∃ s, m !! c = Some s ∧
          (uprio_pages_min p < free_pages_nr s ∨ low_threshold p (rflags r) < free_pages_nr s)
      end).
    { destruct ((cntr - 1 =? 0) && u) eqn:Eu; [|destruct (isSeqNextCID r)]; apply IH; auto; try lia;
        unfold AF_TTL_LOW in *; destruct u; lia. }
    destruct (Z.ltb_spec th (free_pages_nr s)) as [Hlt|_]; [|exact Hnext].
    destruct (Hok _ _ Hs) as [bm Hbm].
    destruct (ppm_do_alloc_pages_spec (thread r) s bm (rorder r) Hbm Hk)
      as [[E _]|(b&s1&q&t&bm'&E&_&_&_&Hbm'&Hal)]; rewrite E; cbn [mbind option_bind].
    + rewrite insert_id by done. exact Hnext.
    + eexists _, _, (Some (c', b)). split_and!; [done|done| |].
      * exists s, (upd_pages t s1), bm, bm'. by split_and!.
      * exists s. split; [done|]. destruct Hth as [->| ->]; auto.
Qed.

Lemma ppm_alloc_pages_spec this attr last cur onln (m : managers) pcid k flags p :
  all_ok m → 0 ≤ k → m !! pcid = Some p → is_Some (m !! cur) →
  ∃ m' last' res,
    ppm_alloc_pages this attr last cur onln m pcid k flags = Some (m', last', res) ∧
    match res with
    | None => m' = m
    | Some (c, b) =>
        (c = pcid ∨ c = cur) ∧ came_from this m m' k c b ∧
        ∃ s, m !! c = Some s ∧
          (uprio_pages_min p < free_pages_nr s ∨ low_threshold p flags < free_pages_nr s)
    end.
Proof.
  intros Hok Hk Hp Hc. unfold ppm_alloc_pages.
  match goal with |- context [alloc_loop _ ?r _ _ _ _ _ _] => set (req := r) end.
  match goal with |- context [if ?n =? 0 then 1 else _] => set (cntr := n) end.
  set (u := ctrue (Z.land flags AF_AFFINITY) && ctrue (Z.land attr PT_ATTR_MEM_PRIO)) in *.
  assert (Hcn : 0 ≤ cntr < 256).
  { unfold cntr, AF_GETTTL, AF_TTL_MASK. destruct u; [done|].
    change 0xFF with (Z.ones 8). rewrite Z.land_ones by done. by apply Z.mod_pos_bound. }
  apply (alloc_loop_spec alloc_fuel req m p); try done; [by left|case_match; lia|].
  unfold alloc_fuel, AF_TTL_LOW. destruct u; case_match; lia.
Qed.

(** ** The system *)

(** A step of a client changes at most the state and the reference count of the
    first descriptor of a block it owns. *)
Lemma ppm_ok_used s bm b k p p' t :
  ppm_ok s bm → bm !! b = Some (k, Kused) → aget (pages_tbl s) b = Some p →
  aset (pages_tbl s) b p' = Some t → state p' ≠ PGFREE → order p' = order p →
  ppm_ok (upd_pages t s) bm.
Proof.
  intros [C Hset Hcoal Hcnt Hsg] Hb Hp Ht Hst Hord. split; try done.
  apply aset_inv in Ht as [Hr ->]. destruct C. split; simpl; try done.
  - by rewrite length_insert.
  - intros j m d q Hj Hd. destruct (decide (b = j)) as [<-|].
    + rewrite aget_insert_eq by done. intros [= <-]. rewrite Hord. eauto.
    + rewrite aget_insert_ne by done. eauto.
  - intros j q. destruct (decide (b = j)) as [<-|].
    + rewrite aget_insert_eq by done. intros [= <-]. naive_solver.
    + rewrite aget_insert_ne by done. eauto.
Qed.

Lemma page_state_set_keeps this p st o :
  page_state_set this p st = Some o → st ≠ PGFREE → state p ≠ PGFREE →
  state (pg o) ≠ PGFREE ∧ order (pg o) = order p.
Proof.
  intros E Hst Hp.
  destruct st; try done; cbn in E; unfold page_to_invalid, page_to_valid, page_to_locked_io,
    page_to_locked, page_lock, page_unlock in E; inv_option E;
    repeat (case_match; simplify_eq/=); by simplify_eq/=.
Qed.

(** [ppm_free_pages] on the first page of a used block. *)
Lemma ppm_free_pages_spec this s bm b k p :
  ppm_ok s bm → bm !! b = Some (k, Kused) →
  aget (pages_tbl s) b = Some p → freeable (state p) →
  ∃ s' bm', ppm_free_pages this s b = Some s' ∧ ppm_ok s' bm' ∧ pages_nr s' = pages_nr s ∧
    if 1 <? count p then bm' = bm ∧ free_pages_nr s' = free_pages_nr s
    else (∀ j m, bm' !! j = Some (m, Kused) ↔ bm !! j = Some (m, Kused) ∧ j ≠ b) ∧
         (∀ q, is_free bm' q ↔ is_free bm q ∨ in_block q b k) ∧
         free_pages_nr s' = free_pages_nr s + 2 ^ k ∧
         ∃ t, aset (pages_tbl s) b (set_state PGFREE (set_count (u32 (count p - 1)) p)) = Some t ∧
              orders_only (upd_free_pages_nr (free_pages_nr s + 2 ^ k) (upd_pages t s)) s'.
Proof.
  intros Hok Hb Hp Hf. pose proof (aget_Some_range _ _ _ Hp) as Hr.
  set (p' := set_count (u32 (count p - 1)) p).
  pose proof (aset_Some (pages_tbl s) b p' Hr) as Ht.
  assert (Hok' : ppm_ok (upd_pages (<[Z.to_nat b := p']> (pages_tbl s)) s) bm).
  { eapply ppm_ok_used; [done..| |done]. intros E. change (state p = PGFREE) in E.
    rewrite E in Hf. unfold freeable in Hf. naive_solver. }
  unfold ppm_free_pages. rewrite Hp. cbn [mbind option_bind page_refcount_down refcount_down].
  fold p'. rewrite Ht. cbn [mbind option_bind].
  destruct (1 <? count p); [by eexists _, bm|].
  change (order p') with (order p).
  rewrite (c_order _ _ (ok_core _ _ Hok) _ _ _ _ Hb ltac:(done) Hp).
  destruct (ppm_free_pages_nolock_spec this _ bm b k p' Hok' Hb)
    as (t&s'&bm'&E&Hok2&U&F&Ht2&O); [simpl; by rewrite aget_insert_eq|done|].
  simpl in Ht2. rewrite aset_Some, list_insert_insert_eq in Ht2 by (by rewrite length_insert).
  injection Ht2 as <-. pose proof O as O'. destruct O' as (?&?&?&->&_).
  eexists _, bm'. split_and!; [done..|]. eexists. split; [by apply aset_Some|]. exact O.
Qed.

Module PpmSys.

(** The manager, and the blocks in the hands of clients with their order. *)
Record world := World { mgr : ppm_s; ledger : gmap Z Z }.

Inductive step (this : Z) : world → world → Prop :=
  | step_alloc w k b s' :
      0 ≤ k → ppm_do_alloc_pages this (mgr w) k = Some (s', Some b) →
      step this w (World s' (<[b := k]> (ledger w)))
  | step_null w k s' :
      0 ≤ k → ppm_do_alloc_pages this (mgr w) k = Some (s', None) →
      step this w (World s' (ledger w))
  | step_state w b k st s' :
      ledger w !! b = Some k → st ≠ PGFREE →
      set_page_state this (mgr w) b st = Some s' →
      step this w (World s' (ledger w))
  | step_share w b k s' :
      ledger w !! b = Some k → set_refcount_up (mgr w) b = Some s' →
      step this w (World s' (ledger w))
  | step_free w b k p s' :
      ledger w !! b = Some k → aget (pages_tbl (mgr w)) b = Some p → freeable (state p) →
      ppm_free_pages this (mgr w) b = Some s' →
      step this w (World s' (if 1 <? count p then ledger w else delete b (ledger w))).

(** Every page outside [R] is free or belongs to a client's block, the pages of
    [R] are never handed out. *)
Record inv (R : Z → Prop) (n : Z) (w : world) (bm : blocks) : Prop := {
  i_ok : ppm_ok (mgr w) bm;
  i_nr : pages_nr (mgr w) = n;
  i_ledger b k : ledger w !! b = Some k → bm !! b = Some (k, Kused);
  i_owned b k q : ledger w !! b = Some k → in_block q b k → ¬ R q;
  i_free q : is_free bm q → ¬ R q;
  i_all q : 0 ≤ q < n → ¬ R q →
            is_free bm q ∨ ∃ b k, ledger w !! b = Some k ∧ in_block q b k;
}.

Lemma inv_alloc this R n w bm k b s' :
  inv R n w bm → 0 ≤ k → ppm_do_alloc_pages this (mgr w) k = Some (s', Some b) →
  ∃ bm', inv R n (World s' (<[b := k]> (ledger w))) bm'.
Proof.
  intros [] Hk E.
  destruct (ppm_do_alloc_pages_spec this (mgr w) bm k i_ok0 Hk)
    as [[E' _]|(b'&s1&q&t&bm'&E'&O&_&_&Hok'&[Afree Arest Aused])]; [congruence|].
  rewrite E in E'. simplify_eq. exists bm'.
  assert (Hbm : bm !! b' ≠ Some (k, Kused)).
  { intros Hb. destruct (Afree b') as (j&m&Hj&Hin).
    { unfold in_block. pose proof (pow2_pos k Hk). lia. }
    assert (j = b') as ->; [|congruence].
    eapply in_block_unique; [apply (ok_core _ _ i_ok0)|exact Hj|exact Hb|done|].
    unfold in_block. pose proof (pow2_pos k Hk). lia. }
  split; simpl.
  - done.
  - destruct O as (?&?&?&->&_). done.
  - intros j m. rewrite lookup_insert. case_decide.
    + intros [= <-]. apply Aused. auto.
    + intros Hj. apply Aused. auto.
  - intros j m x. rewrite lookup_insert. case_decide.
    + intros [= <-] Hx. subst. by apply i_free0, Afree.
    + by apply i_owned0.
  - intros x Hx. apply i_free0. by apply Arest in Hx as [? _].
  - intros x Hx HR. destruct (i_all0 x Hx HR) as [Hf|(j&m&Hj&Hin)].
    + destruct (decide (b' ≤ x < b' + 2 ^ k)) as [Hin|Hin].
      * right. exists b', k. by rewrite lookup_insert_eq.
      * left. by apply Arest.
    + right. exists j, m. rewrite lookup_insert_ne; [done|]. intros ->.
      pose proof (i_ledger0 _ _ Hj) as Hu.
      destruct (Afree j) as (j'&m'&Hj'&Hin').
      { unfold in_block. pose proof (pow2_pos k Hk). lia. }
      assert (j' = j) as ->; [|congruence].
      destruct (part_range _ _ _ _ _ (c_part _ _ (ok_core _ _ i_ok0)) Hu) as (?&?&?&?&?&?).
      eapply in_block_unique; [apply (ok_core _ _ i_ok0)|exact Hj'|exact Hu|done|].
      unfold in_block. lia.
Qed.

Lemma inv_free this R n w bm b k p s' :
  inv R n w bm → ledger w !! b = Some k → aget (pages_tbl (mgr w)) b = Some p →
  freeable (state p) → ppm_free_pages this (mgr w) b = Some s' →
  ∃ bm', inv R n (World s' (if 1 <? count p then ledger w else delete b (ledger w))) bm'.
Proof.
  intros [] Hb Hp Hf E.
  destruct (ppm_free_pages_spec this (mgr w) bm b k p i_ok0 (i_ledger0 _ _ Hb) Hp Hf)
    as (s2&bm'&E'&Hok'&Hnr&Hres).
  rewrite E in E'. simplify_eq. exists bm'. destruct (1 <? count p).
  - destruct Hres as [-> _]. by split.
  - destruct Hres as (U&F&_). split; simpl; try done.
    + intros j m. rewrite lookup_delete. case_decide; [done|]. intros Hj.
      apply U. split; [by apply i_ledger0|done].
    + intros j m q. rewrite lookup_delete. case_decide; [done|]. by apply i_owned0.
    + intros q [Hq|Hq]%F; [by apply i_free0|by eapply i_owned0].
    + intros q Hq HR. rewrite F. destruct (i_all0 q Hq HR) as [|(j&m&Hj&Hin)]; [by left; left|].
      destruct (decide (b = j)) as [<-|Hbj].
      * assert (m = k) as -> by congruence. by left; right.
      * right. exists j, m. by rewrite lookup_delete_ne.
Qed.

(** Steps that only touch an owned descriptor. *)
Lemma inv_touch R n w bm b k p p' t :
  inv R n w bm → ledger w !! b = Some k → aget (pages_tbl (mgr w)) b = Some p →
  aset (pages_tbl (mgr w)) b p' = Some t → (state p ≠ PGFREE → state p' ≠ PGFREE) →
  order p' = order p → inv R n (World (upd_pages t (mgr w)) (ledger w)) bm.
Proof.
  intros [] Hb Hp Ht Hst Ho. split; try done. simpl.
  eapply ppm_ok_used; [done|by apply i_ledger0|done..| |done].
  apply Hst. apply (c_state _ _ (ok_core _ _ i_ok0) _ _ Hp). eauto.
Qed.

Lemma step_inv_ppm this R n w bm w' :
  inv R n w bm → step this w w' → ∃ bm', inv R n w' bm'.
Proof.
  intros Hi Hs. destruct Hs as [w k b s' Hk E|w k s' Hk E|w b k st s' Hb Hst E|w b k s' Hb E|
    w b k p s' Hb Hp Hf E].
  - by eapply inv_alloc.
  - destruct (ppm_do_alloc_pages_spec this (mgr w) bm k (i_ok _ _ _ _ Hi) Hk)
      as [[E' _]|(?&?&?&?&?&E'&_)]; rewrite E in E'; simplify_eq.
    exists bm. by destruct w.
  - exists bm. unfold set_page_state in E. inv_option E. injection E as <-.
    eapply inv_touch; [done..| |].
    + intros Hp. by eapply page_state_set_keeps in E1 as [? _].
    + eapply page_state_set_keeps in E1 as [_ ?]; [done|done|].
      apply (c_state _ _ (ok_core _ _ (i_ok _ _ _ _ Hi)) _ _ E0).
      exists k. by eapply i_ledger.
  - exists bm. unfold set_refcount_up in E. inv_option E. injection E as <-.
    by eapply inv_touch.
  - by eapply inv_free.
Qed.

Lemma reachable_inv_ppm this R n w bm w' :
  inv R n w bm → rtc (step this) w w' → ∃ bm', inv R n w' bm'.
Proof.
  intros Hi Hr. revert bm Hi. induction Hr as [w|w w1 w2 H1 _ IH]; intros bm Hi; [by exists bm|].
  destruct (step_inv_ppm _ _ _ _ _ _ Hi H1) as [bm1 Hi1]. by eapply IH.
Qed.

End PpmSys.

(** ** Theorems *)

(** A memory of 512 pages: descriptors of 64 bytes, the first 16 KB and two more
    pages reserved. *)
Definition ex_links : links :=
  gset_to_gmap (Entry Null Null)
    (list_to_set ((Root <$> seqZ 0 10) ++ (Obj <$> seqZ 0 512))).
Definition ex_platform : platform := Platform 0 [0].
Definition ex_info : boot_info_s := BootInfo 0 0 0x10000 0x12000.
Definition ex_fresh : ppm_s := ppm_fresh ex_links 0 0x200000 0 0x4000.
Definition ex_init : option ppm_s :=
  ppm_init 64 ex_platform 0 ex_links 0 0x200000 0 0x4000 ex_info.

Lemma ex_cells x : x ∈ (Root <$> seqZ 0 10) ++ (Obj <$> seqZ 0 512) → is_Some (ex_links !! x).
Proof.
  intros Hx. eexists. apply lookup_gset_to_gmap_Some. split; [|done].
  by apply elem_of_list_to_set.
Qed.

Lemma ex_memory : memory_ok 64 ex_platform ex_links ex_fresh ex_info.
Proof.
  split.
  - by exists 1.
  - intros k Hk. apply ex_cells, elem_of_app. left. apply list_elem_of_fmap_2, elem_of_seqZ.
    unfold PPM_MAX_ORDER in Hk. lia.
  - intros i Hi. apply ex_cells, elem_of_app. right. apply list_elem_of_fmap_2, elem_of_seqZ.
    change (pages_nr ex_fresh) with 512 in Hi. lia.
  - by vm_compute.
  - split; [by vm_compute..|].
    intros p Hp. unfold pmm_ppn2cid. cbn [ex_platform arch_cids current_cid].
    rewrite Z.shiftr_div_pow2 by done. unfold PMM_CID_SHIFT.
    change (ppn_start ex_fresh) with 0 in Hp. change (pages_nr ex_fresh) with 512 in Hp.
    rewrite Z.div_small by lia. done.
Qed.

(** C31. [ppm_init] succeeds on every memory whose size is a multiple of the largest block,
    establishes the invariant of the allocator, leaves exactly the pages free that
    neither hold the descriptors nor are reserved by the boot loader, and sets
    ordered thresholds. *)
Theorem ppm_init_correct page_size pf this h begin limit vb vs info :
  memory_ok page_size pf h (ppm_fresh h begin limit vb vs) info →
  ∃ s bm, ppm_init page_size pf this h begin limit vb vs info = Some s ∧ ppm_ok s bm ∧
    (∀ q, is_free bm q ↔
       0 ≤ q < pages_nr s ∧ ¬ reserved_page page_size (ppm_fresh h begin limit vb vs) info q) ∧
    urgent_pages_min s ≤ kprio_pages_min s ≤ uprio_pages_min s ∧
    uprio_pages_min s ≤ free_pages_nr s.
Proof.
  intros Hm. destruct (ppm_init_spec page_size pf this h begin limit vb vs info Hm)
    as (s&bm&E&Hok&Hn&Hf&Ht). rewrite <- Hn in Hf. by exists s, bm.
Qed.

Lemma ppm_init_correct_witness :
  memory_ok 64 ex_platform ex_links ex_fresh ex_info ∧
  ∃ s bm, ex_init = Some s ∧ ppm_ok s bm ∧
    (∀ q, is_free bm q ↔ 0 ≤ q < pages_nr s ∧ ¬ reserved_page 64 ex_fresh ex_info q) ∧
    urgent_pages_min s ≤ kprio_pages_min s ≤ uprio_pages_min s ∧
    uprio_pages_min s ≤ free_pages_nr s.
Proof. split; [apply ex_memory|]. apply ppm_init_correct. apply ex_memory. Defined.

(** C10. [ppm_do_alloc_pages] on a manager that satisfies the invariant never faults.  It
    returns an aligned block of [2^order] pages all of which were free, marks it used,
    keeps every other page as it was and the invariant true; it returns NULL only
    when no aligned run of [2^order] free pages exists. *)
Theorem ppm_do_alloc_correct this s bm k :
  ppm_ok s bm → 0 ≤ k →
  ∃ s' r, ppm_do_alloc_pages this s k = Some (s', r) ∧
    match r with
    | Some b =>
        (∃ bm', ppm_ok s' bm' ∧ allocated bm k b bm') ∧
        (2 ^ k | b) ∧ 0 ≤ b ∧ b + 2 ^ k ≤ pages_nr s ∧
        free_pages_nr s' = free_pages_nr s - 2 ^ k ∧
        ∃ p p', aget (pages_tbl s) b = Some p ∧ aget (pages_tbl s') b = Some p' ∧
          state p' = PGINVALID ∧ order p' = k ∧ count p' = u32 (count p + 1)
    | None =>
        s' = s ∧
        ∀ i, k < PPM_MAX_ORDER → 0 ≤ i → (2 ^ k | i) → ¬ (∀ q, in_block q i k → is_free bm q)
    end.
Proof.
  intros Hok Hk. pose proof (ok_core _ _ Hok) as C.
  destruct (ppm_do_alloc_pages_spec this s bm k Hok Hk)
    as [[E Hno]|(b&s1&p&t&bm'&E&O&Hp&Ht&Hok'&Hal)].
  - exists s, None. split_and!; [done..|]. intros i Hk10 Hi Ha Hall.
    destruct (coalesced_complete (pages_nr s) bm i k) as (j&m&Hj&Hm);
      [apply C|apply C|apply Hok|done..|]. apply Hno in Hj. lia.
  - eexists _, (Some b). split; [exact E|].
    assert (Hu : bm' !! b = Some (k, Kused)) by (apply (al_used _ _ _ _ Hal); auto).
    destruct (part_range _ _ _ _ _ (c_part _ _ (ok_core _ _ Hok')) Hu) as (_&?&?&Hle&_).
    destruct (aget_orders_only _ _ _ _ O Hp) as (p0&Hp0&Hpo).
    pose proof (aget_aset_eq _ _ _ _ Ht) as Hp'.
    destruct O as (?&?&?&->&_). simpl in *.
    split_and!; [by exists bm'|done|done|done|done|].
    exists p0, (grab k p). split_and!; [done..|]. destruct p, p0. by simplify_eq/=.
Qed.

Lemma ppm_do_alloc_correct_witness :
  ∃ s bm s' r, ex_init = Some s ∧ ppm_ok s bm ∧ ppm_do_alloc_pages 0 s 3 = Some (s', r) ∧
    match r with
    | Some b =>
        (∃ bm', ppm_ok s' bm' ∧ allocated bm 3 b bm') ∧
        (2 ^ 3 | b) ∧ 0 ≤ b ∧ b + 2 ^ 3 ≤ pages_nr s ∧
        free_pages_nr s' = free_pages_nr s - 2 ^ 3 ∧
        ∃ p p', aget (pages_tbl s) b = Some p ∧ aget (pages_tbl s') b = Some p' ∧
          state p' = PGINVALID ∧ order p' = 3 ∧ count p' = u32 (count p + 1)
    | None =>
        s' = s ∧
        ∀ i, 3 < PPM_MAX_ORDER → 0 ≤ i → (2 ^ 3 | i) → ¬ (∀ q, in_block q i 3 → is_free bm q)
    end.
Proof.
  destruct (ppm_init_spec 64 ex_platform 0 ex_links 0 0x200000 0 0x4000 ex_info ex_memory)
    as (s&bm&E&Hok&_).
  destruct (ppm_do_alloc_correct 0 s bm 3 Hok ltac:(lia)) as (s'&r&Hr).
  exists s, bm, s', r. exact (conj E (conj Hok Hr)).
Defined.

(** C11. [ppm_free_pages] on the first page of a used block never faults and keeps the
    invariant.  While the page is shared it only drops a reference; the last reference
    makes exactly the pages of the block free again, merged with their free buddies. *)
Theorem ppm_free_correct this s bm b k p :
  ppm_ok s bm → bm !! b = Some (k, Kused) →
  aget (pages_tbl s) b = Some p → freeable (state p) →
  ∃ s' bm', ppm_free_pages this s b = Some s' ∧ ppm_ok s' bm' ∧
    if 1 <? count p then bm' = bm ∧ free_pages_nr s' = free_pages_nr s
    else (∀ j m, bm' !! j = Some (m, Kused) ↔ bm !! j = Some (m, Kused) ∧ j ≠ b) ∧
         (∀ q, is_free bm' q ↔ is_free bm q ∨ in_block q b k) ∧
         free_pages_nr s' = free_pages_nr s + 2 ^ k.
Proof.
  intros Hok Hb Hp Hf.
  destruct (ppm_free_pages_spec this s bm b k p Hok Hb Hp Hf) as (s'&bm'&E&Hok'&_&Hr).
  exists s', bm'. split_and!; [done..|]. destruct (1 <? count p); [done|].
  by destruct Hr as (?&?&?&_).
Qed.

(** A manager whose pages are all in use: nothing has been freed yet. *)
Definition ex_full : ppm_s :=
  upd_pages (replicate 512 (page_init 0))
    (upd_free (replicate 10 0)
       (default ∅ (init_roots 10 ex_links 0)) ex_fresh).

Lemma ex_full_ok : ppm_ok ex_full (all_used 512).
Proof.
  destruct (init_roots_spec 10 ex_links 0) as (h&E&F&Hl).
  { intros k Hk. apply ex_cells, elem_of_app. left.
    apply list_elem_of_fmap_2, elem_of_seqZ. lia. }
  assert (Hh : plinks ex_full = h) by (unfold ex_full; rewrite E; done).
  apply (all_used_ok ex_full (λ _, False)).
  - done.
  - by exists 1.
  - done.
  - done.
  - done.
  - apply raw_init.
  - rewrite Hh. intros k Hk. apply Hl. unfold PPM_MAX_ORDER in Hk. lia.
  - done.
  - intros i Hi. rewrite Hh. apply F, ex_cells, elem_of_app. right.
    apply list_elem_of_fmap_2, elem_of_seqZ. change (pages_nr ex_full) with 512 in Hi. lia.
Qed.

Lemma ppm_free_correct_witness :
  ppm_ok ex_full (all_used 512) ∧
  ∃ s' bm', ppm_free_pages 0 ex_full 5 = Some s' ∧ ppm_ok s' bm' ∧
    (∀ j m, bm' !! j = Some (m, Kused) ↔ all_used 512 !! j = Some (m, Kused) ∧ j ≠ 5) ∧
    (∀ q, is_free bm' q ↔ is_free (all_used 512) q ∨ in_block q 5 0) ∧
    free_pages_nr s' = free_pages_nr ex_full + 2 ^ 0.
Proof.
  split; [apply ex_full_ok|].
  apply (ppm_free_correct 0 ex_full (all_used 512) 5 0 (page_init 0)).
  - apply ex_full_ok.
  - by apply all_used_lookup.
  - done.
  - by right; right.
Defined.

(** Allocating a block nobody references and freeing it again. *)
Lemma ppm_alloc_free_spec this s bm k b s1 :
  ppm_ok s bm → 0 ≤ k → ppm_do_alloc_pages this s k = Some (s1, Some b) →
  (∀ p, aget (pages_tbl s) b = Some p → count p = 0) →
  ∃ s2 bm2, ppm_free_pages this s1 b = Some s2 ∧ ppm_ok s2 bm2 ∧
    (∀ q, is_free bm2 q ↔ is_free bm q) ∧ free_pages_nr s2 = free_pages_nr s ∧
    ppn_start s2 = ppn_start s ∧ pages_nr s2 = pages_nr s ∧
    (∀ q p, aget (pages_tbl s2) q = Some p →
            ∃ p0, aget (pages_tbl s) q = Some p0 ∧ count p = count p0).
Proof.
  intros Hok Hk E Hc.
  destruct (ppm_do_alloc_pages_spec this s bm k Hok Hk)
    as [[E' _]|(b'&s0&p&t&bm'&E'&O&Hp&Ht&Hok'&[Af Ar Au])]; rewrite E in E'; simplify_eq.
  destruct (aget_orders_only _ _ _ _ O Hp) as (p0&Hp0&Hpo).
  assert (Hcnt : count p = 0).
  { rewrite <- (Hc p0 Hp0). destruct p, p0. by simplify_eq/=. }
  assert (Hcg : count (grab k p) = 1) by (simpl; rewrite Hcnt; done).
  destruct (ppm_free_pages_spec this (upd_pages t s0) bm' b' k (grab k p))
    as (s2&bm2&E2&Hok2&Hn2&H2); [done|apply Au; auto|by eapply aget_aset_eq|by left|].
  rewrite Hcg in H2. destruct H2 as (_&F2&Hn&t2&Ht2&O2).
  exists s2, bm2. split_and!; [done..| | | | |].
  - intros q. rewrite F2, Ar. specialize (Af q).
    destruct (decide (b' ≤ q < b' + 2 ^ k)); unfold in_block in *; tauto.
  - rewrite Hn. destruct O as (?&?&?&->&_). simpl. lia.
  - destruct O2 as (?&?&?&->&_), O as (?&?&?&->&_). done.
  - rewrite Hn2. destruct O as (?&?&?&->&_). done.
  - intros q p2 Hp2. destruct (aget_orders_only _ _ _ _ O2 Hp2) as (p3&Hp3&Hp23).
    assert (Ec : count p2 = count p3) by (destruct p2, p3; by simplify_eq/=).
    simpl in Hp3. destruct (decide (b' = q)) as [<-|Hbq].
    + rewrite (aget_aset_eq _ _ _ _ Ht2) in Hp3. simplify_eq. exists p0. split; [done|].
      rewrite Ec, (Hc p0 Hp0).
      done.
    + rewrite (aget_aset_ne _ _ _ _ _ Hbq Ht2) in Hp3. simpl in Hp3.
      rewrite (aget_aset_ne _ _ _ _ _ Hbq Ht) in Hp3.
      destruct (aget_orders_only _ _ _ _ O Hp3) as (p4&Hp4&Hp34).
      exists p4. split; [done|]. rewrite Ec. destruct p3, p4. by simplify_eq/=.
Qed.

(** Allocating a block nobody references and freeing it again gives back the same
    set of free pages. *)
Theorem ppm_alloc_free_roundtrip this s bm k b s1 :
  ppm_ok s bm → 0 ≤ k → ppm_do_alloc_pages this s k = Some (s1, Some b) →
  (∀ p, aget (pages_tbl s) b = Some p → count p = 0) →
  ∃ s2 bm2, ppm_free_pages this s1 b = Some s2 ∧ ppm_ok s2 bm2 ∧
    (∀ q, is_free bm2 q ↔ is_free bm q) ∧ free_pages_nr s2 = free_pages_nr s.
Proof.
  intros Hok Hk E Hc. destruct (ppm_alloc_free_spec this s bm k b s1 Hok Hk E Hc)
    as (s2&bm2&E2&Hok2&Hf&Hn&_). by exists s2, bm2.
Qed.

(** One page of [ex_full] freed, as [ppm_init] frees it. *)
Lemma ppm_alloc_free_roundtrip_witness :
  ∃ s bm s1, ppm_free_pages_nolock 0 ex_full 5 0 5 = Some s ∧ ppm_ok s bm ∧
    ppm_do_alloc_pages 0 s 0 = Some (s1, Some 5) ∧
  ∃ s2 bm2, ppm_free_pages 0 s1 5 = Some s2 ∧ ppm_ok s2 bm2 ∧
    (∀ q, is_free bm2 q ↔ is_free bm q) ∧ free_pages_nr s2 = free_pages_nr s.
Proof.
  destruct (ppm_free_pages_nolock_spec 0 ex_full (all_used 512) 5 0 (page_init 0))
    as (t&s&bm&E&Hok&_); [apply ex_full_ok|by apply all_used_lookup|done|by right; right|].
  assert (H : (s ← ppm_free_pages_nolock 0 ex_full 5 0 5;
               '(_, r) ← ppm_do_alloc_pages 0 s 0;
               Some (r, count <$> aget (pages_tbl s) 5)) = Some (Some 5, Some 0))
    by (by vm_compute).
  rewrite E in H. cbn [mbind option_bind] in H.
  destruct (ppm_do_alloc_pages 0 s 0) as [[s1 r]|] eqn:E1; [|done].
  cbn [mbind option_bind] in H. injection H as -> Hc.
  exists s, bm, s1. split_and!; [done..|].
  apply (ppm_alloc_free_roundtrip 0 s bm 0 5 s1 Hok ltac:(lia) E1).
  intros p Hp. rewrite Hp in Hc. by injection Hc.
Defined.

(** What the system promises to clients: [R] are the reserved pages among [n]. *)
Record system_safe (this : Z) (R : Z → Prop) (n : Z) (w : PpmSys.world) : Prop := {
  ss_block b k : PpmSys.ledger w !! b = Some k →
    (2 ^ k | b) ∧ 0 ≤ b ∧ b + 2 ^ k ≤ n ∧ ∀ q, in_block q b k → ¬ R q;
  ss_disjoint b k c m :
    PpmSys.ledger w !! b = Some k → PpmSys.ledger w !! c = Some m → b ≠ c →
    b + 2 ^ k ≤ c ∨ c + 2 ^ m ≤ b;
  ss_free : ∃ F : gset Z, Z.of_nat (size F) = free_pages_nr (PpmSys.mgr w) ∧
    ∀ q, 0 ≤ q < n → ¬ R q →
         (q ∈ F ↔ ¬ ∃ b k, PpmSys.ledger w !! b = Some k ∧ in_block q b k);
  ss_alloc k : 0 ≤ k → is_Some (ppm_do_alloc_pages this (PpmSys.mgr w) k);
  ss_release b k p :
    PpmSys.ledger w !! b = Some k → aget (pages_tbl (PpmSys.mgr w)) b = Some p →
    freeable (state p) → is_Some (ppm_free_pages this (PpmSys.mgr w) b);
}.

(** C3. The whole allocator.  After [ppm_init], whatever clients allocate, share, use and
    free in any order: the blocks in their hands are aligned, inside the memory, free
    of reserved pages and pairwise disjoint; the pages outside these blocks that are
    not reserved are exactly the free ones and [free_pages_nr] is their number; and
    neither an allocation nor the release of an owned block faults. *)
Theorem ppm_system_safe page_size pf this h begin limit vb vs info s w :
  memory_ok page_size pf h (ppm_fresh h begin limit vb vs) info →
  ppm_init page_size pf this h begin limit vb vs info = Some s →
  rtc (PpmSys.step this) (PpmSys.World s ∅) w →
  system_safe this (reserved_page page_size (ppm_fresh h begin limit vb vs) info)
    (pages_nr s) w.
Proof.
  intros Hm E Hr. set (R := reserved_page _ _ _).
  destruct (ppm_init_spec page_size pf this h begin limit vb vs info Hm)
    as (s'&bm0&E'&Hok0&Hn&Hf0&_). rewrite E in E'. simplify_eq.
  destruct (PpmSys.reachable_inv_ppm this R (pages_nr s') (PpmSys.World s' ∅) bm0 w)
    as [bm [Hok Hnr Hled Hown Hfree Hall]]; [|done|].
  { rewrite <- Hn in Hf0. split; simpl; try done.
    - intros q [_ ?]%Hf0. done.
    - intros q Hq HR. left. by apply Hf0. }
  pose proof (c_part _ _ (ok_core _ _ Hok)) as Hp. split.
  - intros b k Hb. destruct (part_range _ _ _ _ _ Hp (Hled _ _ Hb)) as (_&?&?&?&_).
    rewrite <- Hnr. split_and!; [done..|]. intros q. by apply Hown.
  - intros b k c m Hb Hc. by apply (part_disj _ _ Hp b k Kused c m Kused); apply Hled.
  - destruct (free_count bm (partition_separated _ _ Hp)) as (F&HF&Hsz).
    exists F. split; [by rewrite Hsz, (ok_count _ _ Hok)|]. intros q Hq HR. rewrite HF. split.
    + intros (i&m&Hi&Hin) (b&k&Hb&Hin'). apply Hled in Hb.
      assert (i = b) as -> by (by eapply in_block_unique). congruence.
    + intros Hno. destruct (Hall q Hq HR) as [|H]; [done|]. by destruct Hno.
  - intros k Hk. destruct (ppm_do_alloc_pages_spec this _ _ k Hok Hk)
      as [[-> _]|(?&?&?&?&?&->&_)]; done.
  - intros b k p Hb Hpb Hst.
    destruct (ppm_free_pages_spec this _ _ b k p Hok (Hled _ _ Hb) Hpb Hst) as (?&?&->&_). done.
Qed.

Lemma ppm_system_safe_witness :
  ∃ s s1 b, ex_init = Some s ∧ ppm_do_alloc_pages 0 s 2 = Some (s1, Some b) ∧
    system_safe 0 (reserved_page 64 ex_fresh ex_info) (pages_nr s)
      (PpmSys.World s1 (<[b := 2]> ∅)).
Proof.
  assert (H : (s ← ex_init; '(_, r) ← ppm_do_alloc_pages 0 s 2; r) = Some 20)
    by (by vm_compute).
  destruct ex_init as [s|] eqn:E; [|done]. cbn [mbind option_bind] in H.
  destruct (ppm_do_alloc_pages 0 s 2) as [[s1 r]|] eqn:E1; [|done].
  cbn [mbind option_bind] in H. subst r.
  exists s, s1, 20. split; [reflexivity|]. split; [exact E1|].
  apply (ppm_system_safe 64 ex_platform 0 ex_links 0 0x200000 0 0x4000 ex_info s
           (PpmSys.World s1 (<[20 := 2]> ∅)) ex_memory E).
  apply rtc_once. by apply (PpmSys.step_alloc 0 (PpmSys.World s ∅) 2 20 s1).
Defined.

(** C32. [ppm_alloc_pages] always returns.  A block comes from the manager asked or from the
    one of the current cluster, is allocated there and nowhere else, and that manager
    had more free pages than the threshold of the request (or than the one for
    user-priority threads); NULL leaves every manager untouched. *)
Theorem ppm_alloc_pages_correct this attr last cur onln (m : managers) pcid k flags p :
  all_ok m → 0 ≤ k → m !! pcid = Some p → is_Some (m !! cur) →
  ∃ m' last' res,
    ppm_alloc_pages this attr last cur onln m pcid k flags = Some (m', last', res) ∧
    match res with
    | None => m' = m
    | Some (c, b) =>
        (c = pcid ∨ c = cur) ∧ came_from this m m' k c b ∧
        ∃ s, m !! c = Some s ∧
          (uprio_pages_min p < free_pages_nr s ∨ low_threshold p flags < free_pages_nr s)
    end.
Proof. apply ppm_alloc_pages_spec. Qed.

Lemma ppm_alloc_pages_correct_witness :
  ∃ s, ex_init = Some s ∧ all_ok {[0 := s]} ∧
  ∃ m' last' res,
    ppm_alloc_pages 0 0 0 0 1 {[0 := s]} 0 1 0x100020 = Some (m', last', res) ∧
    match res with
    | None => m' = {[0 := s]}
    | Some (c, b) =>
        (c = 0 ∨ c = 0) ∧ came_from 0 {[0 := s]} m' 1 c b ∧
        ∃ s0, ({[0 := s]} : managers) !! c = Some s0 ∧
          (uprio_pages_min s < free_pages_nr s0 ∨
           low_threshold s 0x100020 < free_pages_nr s0)
    end.
Proof.
  destruct (ppm_init_spec 64 ex_platform 0 ex_links 0 0x200000 0 0x4000 ex_info ex_memory)
    as (s&bm&E&Hok&_).
  assert (Ha : all_ok {[0 := s]}).
  { intros c s' [_ <-]%lookup_singleton_Some. by exists bm. }
  exists s. split; [exact E|]. split; [exact Ha|].
  apply (ppm_alloc_pages_correct 0 0 0 0 1 {[0 := s]} 0 1 0x100020 s Ha ltac:(lia)).
  - apply lookup_singleton_eq.
  - exists s. apply lookup_singleton_eq.
Defined.

(** A manager of three pages, two of which are in use. *)
Definition ex_odd : ppm_s :=
  upd_pages (replicate 3 (page_init 0))
    (upd_free (replicate 10 0) (default ∅ (init_roots 10 ex_links 0))
       (ppm_fresh ex_links 0 0x3000 0 0)).

(** When the number of pages is not a multiple of the largest block, freeing can read
    the descriptor of a buddy beyond the end of [pages_tbl]. *)
Theorem ppm_free_reads_past_table :
  pages_nr ex_odd = 3 ∧ ppm_free_pages_nolock 0 ex_odd 2 0 2 = None ∧
  free_pages_nr <$> ppm_free_pages_nolock 0 ex_odd 0 0 0 = Some 1.
Proof. split; [done|]. split; by vm_compute. Qed.

(** A thread that sleeps on a page is woken by the next wakeup of that page, whatever
    other threads went to sleep in the same queue in between. *)
Theorem ppm_wait_wakeup this others s page s' :
  length (wait_tbl s) = Z.to_nat PPM_MAX_WAIT →
  foldl (λ s t, s ← s; ppm_wait_on t s page) (ppm_wait_on this s page) others = Some s' →
  ∃ s'' woken, ppm_wakeup_all s' page = Some (s'', woken) ∧ this ∈ woken ∧
    aget (wait_tbl s'') (wait_index page) = Some [].
Proof.
  intros Hl. assert (Hi : ∀ l : list (list Z), length l = Z.to_nat PPM_MAX_WAIT →
    0 ≤ wait_index page < Z.of_nat (length l)).
  { intros l ->. unfold wait_index. rewrite Z2Nat.id by done. by apply Z.mod_pos_bound. }
  assert (Hgen : ∀ s1, length (wait_tbl s1) = Z.to_nat PPM_MAX_WAIT →
    (∃ w, aget (wait_tbl s1) (wait_index page) = Some w ∧ this ∈ w) →
    foldl (λ s t, s ← s; ppm_wait_on t s page) (Some s1) others = Some s' →
    length (wait_tbl s') = Z.to_nat PPM_MAX_WAIT ∧
    ∃ w, aget (wait_tbl s') (wait_index page) = Some w ∧ this ∈ w).
  { induction others as [|t ts IH]; intros s1 Hl1 (w&Hw&Hin) E; simpl in E;
      [simplify_eq; by eauto|].
    unfold ppm_wait_on in E at 2. rewrite Hw in E. cbn [mbind option_bind] in E.
    rewrite aset_Some in E by auto. eapply IH; [..|exact E].
    - cbn [wait_tbl upd_wait_tbl]. by rewrite length_insert.
    - cbn [wait_tbl upd_wait_tbl]. rewrite aget_insert_eq by auto. eexists.
      split; [done|]. apply elem_of_app. by left. }
  destruct (aget_range _ _ (Hi _ Hl)) as [w Hw].
  unfold ppm_wait_on at 2. rewrite Hw. cbn [mbind option_bind]. rewrite aset_Some by auto.
  intros E. eapply Hgen in E as (Hl'&w'&Hw'&Hin).
  - eexists _, w'. unfold ppm_wakeup_all. rewrite Hw'. cbn [mbind option_bind].
    rewrite aset_Some by auto. split_and!; [done..|]. cbn [wait_tbl upd_wait_tbl].
    by rewrite aget_insert_eq by auto.
  - cbn [wait_tbl upd_wait_tbl]. by rewrite length_insert.
  - cbn [wait_tbl upd_wait_tbl]. rewrite aget_insert_eq by auto. eexists.
    split; [done|]. apply elem_of_app. right. by apply list_elem_of_singleton.
Qed.

Lemma ppm_wait_wakeup_witness :
  ∃ s', foldl (λ s t, s ← s; ppm_wait_on t s 0x1230) (ppm_wait_on 7 ex_fresh 0x1230) [8; 9]
        = Some s' ∧
  ∃ s'' woken, ppm_wakeup_all s' 0x1230 = Some (s'', woken) ∧ 7 ∈ woken ∧
    aget (wait_tbl s'') (wait_index 0x1230) = Some [].
Proof.
  eexists. split; [reflexivity|].
  by apply (ppm_wait_wakeup 7 [8; 9] ex_fresh 0x1230).
Defined.
