(* ===== verification/Pmm.v ===== *)
(** * Page tables (src/kernel/arch/tsar/pmm.c, arch-pmm.h)

    The two-level page tables of the TSAR MMU.  Physical memory of the cluster is a
    function from byte addresses to 32-bit words; a page directory of 2048 words maps
    2 MB regions to huge pages or to second-level tables of 512 entries of two words.
    Second-level tables come from an allocator known by its interface
    [FrameAllocator]; [PmmAlloc] shows that the physical pages manager meets it. *)

From S2P Require Import Prelude Bits Page.

Open Scope Z_scope.

(** ** Constants *)

Definition PMM_HUGE_PAGE_SHIFT : Z := 21.
Definition PMM_HUGE_PAGE_SIZE : Z := 0x200000.
Definition PMM_HUGE_PAGE_MASK : Z := 0x1FFFFF.

Definition PMM_PRESENT : Z := Z.shiftl 1 31.
Definition PMM_HUGE : Z := Z.shiftl 1 30.
Definition MMU_PTD1 : Z := Z.shiftl 1 30.
Definition PMM_COW : Z := 0x01.
Definition PMM_LOCKED : Z := 0x08.
Definition PMM_CLEAR : Z := 0x10.
Definition MMU_PDE_PPN_MASK : Z := 0x7FFFF.
Definition MMU_PDE_ATTR_MASK : Z := 0xFFC00000.
Definition MMU_PPN_MASK : Z := Z.shiftl 1 28 - 1.

Definition MMU_PDE (vma : Z) : Z := Z.shiftr vma 21.
Definition MMU_PTE (vma : Z) : Z := Z.shiftl (Z.shiftr (Z.land vma 0x1FF000) 12) 3.

(** ** Frames

    [pmm_ppn2vma] in physical mode: the address of a frame is its number shifted, in
    the 32-bit address space of the cluster. *)

Definition pmm_ppn2vma (ppn : Z) : Z := u32 (Z.shiftl ppn PMM_PAGE_SHIFT).

(** The frame of a physical page number in that address space. *)
Definition frame_of (ppn : Z) : Z := ppn mod 2 ^ 20.

(** What the page tables need of the allocator of frames.  [fa_alloc] returns the
    physical page number of a fresh frame or [None] for a failed allocation; the
    outer [option] is a fault.  [fa_used] are the frames in use. *)
Class FrameAllocator (A : Type) := {
  fa_inv : A → Prop;
  fa_used : A → Z → Prop;
  fa_alloc : A → option (A * option Z);
  fa_free : A → Z → option A;
}.

Class FrameAllocatorLaws (A : Type) `{FrameAllocator A} := {
  fa_alloc_law a :
    fa_inv a →
    ∃ a' r, fa_alloc a = Some (a', r) ∧ fa_inv a' ∧
      match r with
      | None => ∀ f, fa_used a' f ↔ fa_used a f
      | Some ppn =>
          0 ≤ ppn < 2 ^ 28 ∧ ¬ fa_used a (frame_of ppn) ∧
          ∀ f, fa_used a' f ↔ fa_used a f ∨ f = frame_of ppn
      end;
  fa_free_law a a' ppn :
    fa_inv a → fa_alloc a = Some (a', Some ppn) →
    ∃ a'', fa_free a' ppn = Some a'' ∧ fa_inv a'' ∧ ∀ f, fa_used a'' f ↔ fa_used a f;
}.

(** ** State and operations *)

Abbreviation memory := (Z → Z).

Definition wr (m : memory) (a v : Z) : memory := λ b, if b =? a then v else m b.

(** A page of zeros ([AF_ZERO]). *)
Definition zero_frame (m : memory) (f : Z) : memory :=
  λ a, if (f * PMM_PAGE_SIZE <=? a) && (a <? f * PMM_PAGE_SIZE + PMM_PAGE_SIZE) then 0 else m a.

(** [struct pmm_page_info_s]: attributes and page number. *)
Record page_info := Info { attr : Z; ppn : Z }.

Definition pde_addr (pgdir vaddr : Z) : Z := pgdir + 4 * MMU_PDE vaddr.
Definition pte_addr (tbl vaddr : Z) : Z := u32 (pmm_ppn2vma tbl + MMU_PTE vaddr).

Definition pmm_get_page (m : memory) (pgdir vaddr : Z) : page_info :=
  let val := m (pde_addr pgdir vaddr) in
  if negb (ctrue (Z.land val PMM_PRESENT)) then Info 0 0
  else if negb (ctrue (Z.land val PMM_HUGE)) then
    Info (Z.lor (Z.land val MMU_PDE_ATTR_MASK) PMM_HUGE)
         (Z.shiftr (Z.lor (u32 (Z.shiftl (Z.land val MMU_PDE_PPN_MASK) PMM_HUGE_PAGE_SHIFT))
                          (Z.land vaddr PMM_HUGE_PAGE_MASK)) PMM_PAGE_SHIFT)
  else
    let pte := pte_addr (Z.land val MMU_PPN_MASK) vaddr in
    Info (m pte) (Z.land (m (u32 (pte + 4))) MMU_PPN_MASK).

Section tables.
Context {A : Type} `{FrameAllocator A}.

Record pstate := PState { pmem : memory; palloc : A }.

(** [pmm_alloc_pages] of order 0: a zeroed frame. *)
Definition pmm_alloc_page (s : pstate) : option (pstate * option Z) :=
  '(a, r) ← fa_alloc (palloc s);
  match r with
  | None => Some (PState (pmem s) a, None)
  | Some ppn => Some (PState (zero_frame (pmem s) (frame_of ppn)) a, Some ppn)
  end.

(** The second-level table of an empty directory entry: allocation, then the
    compare-and-swap.  [env] is what the other processors do to the memory between
    the allocation and the swap; when they have filled the entry, the fresh frame is
    freed and their table is used. *)
Definition pde_fill (env : memory → memory) (s : pstate) (pde : Z)
    : option (pstate * option Z) :=
  '(s, r) ← pmm_alloc_page s;
  match r with
  | None => Some (s, None)
  | Some tbl =>
      let m := env (pmem s) in
      if m pde =? 0
      then Some (PState (wr m pde (Z.lor (Z.lor PMM_PRESENT MMU_PTD1) tbl)) (palloc s),
                 Some tbl)
      else a ← fa_free (palloc s) tbl;
           Some (PState m a, Some (Z.land (m pde) MMU_PPN_MASK))
  end.

(** [__pmm_set_page]; the result is the error code. *)
Definition pmm_set_page (env : memory → memory) (s : pstate) (pgdir vaddr : Z)
    (info : page_info) : option (pstate * Z) :=
  let pde := pde_addr pgdir vaddr in
  let isHuge := ctrue (Z.land (attr info) PMM_HUGE) in
  let '(attr, ppn) :=
    if ctrue (Z.land (attr info) PMM_CLEAR)
    then (if isHuge then PMM_HUGE else 0, 0) else (attr info, ppn info) in
  let pde_val := pmem s pde in
  if isHuge then
    if ctrue ppn && (ctrue pde_val || ctrue (Z.land attr PMM_COW)) then Some (s, EINVAL)
    else Some (PState (wr (pmem s) pde (Z.lor (Z.lxor attr PMM_HUGE) (Z.shiftr ppn 9)))
                      (palloc s), 0)
  else
    '(s, tbl) ← (if pde_val =? 0 then pde_fill env s pde
                 else Some (s, Some (Z.land pde_val MMU_PPN_MASK)));
    match tbl with
    | None => Some (s, ENOMEM)
    | Some tbl =>
        let pte := pte_addr tbl vaddr in
        let m := wr (pmem s) (u32 (pte + 4)) ppn in
        Some (PState (wr m pte attr) (palloc s), 0)
    end.

(** [pmm_lock_page] up to the spinning on the entry: the address of the entry. *)
Definition pmm_lock_entry (env : memory → memory) (s : pstate) (pgdir vaddr : Z)
    : option (pstate * (Z + Z)) :=
  let pde := pde_addr pgdir vaddr in
  let pde_val := pmem s pde in
  if ctrue pde_val && negb (ctrue (Z.land pde_val PMM_HUGE)) then Some (s, inl EINVAL) else
  '(s, tbl) ← (if pde_val =? 0 then pde_fill env s pde
               else Some (s, Some (Z.land pde_val MMU_PPN_MASK)));
  match tbl with
  | None => Some (s, inl ENOMEM)
  | Some tbl => Some (s, inr (pte_addr tbl vaddr))
  end.

(** The compare-and-swap that takes the lock, on an entry that is not locked. *)
Definition pmm_lock_take (s : pstate) (pte : Z) : option (pstate * page_info) :=
  let attr := pmem s pte in
  if ctrue (Z.land attr PMM_LOCKED) then None else
  let m := wr (pmem s) pte (Z.lor attr PMM_LOCKED) in
  Some (PState m (palloc s), Info attr (Z.land (m (u32 (pte + 4))) MMU_PPN_MASK)).

(** [pmm_unlock_page]; [pte] is [info->data]. *)
Definition pmm_unlock_page (s : pstate) (pte : Z) : option (pstate * page_info) :=
  let attr := pmem s pte in
  _ ← cassert (ctrue (Z.land attr PMM_LOCKED));
  (* attr &= !PMM_LOCKED *)
  let attr := Z.land attr (if ctrue PMM_LOCKED then 0 else 1) in
  Some (PState (wr (pmem s) pte attr) (palloc s), Info attr (pmem s (u32 (pte + 4)))).

(** [pmm_region_attr_set], [count] pages left. *)
Fixpoint pmm_region_attr_set (count : nat) (s : pstate) (pgdir vaddr new_attr : Z)
    : option (pstate * Z) :=
  match count with
  | O => Some (s, 0)
  | S count =>
      let page_size := if ctrue (Z.land new_attr PMM_HUGE)
                       then PMM_HUGE_PAGE_SIZE else PMM_PAGE_SIZE in
      let info := pmm_get_page (pmem s) pgdir vaddr in
      '(s, _) ← (if ctrue (ppn info) && ctrue (Z.land (attr info) PMM_PRESENT)
                 then pmm_set_page (λ m, m) s pgdir vaddr (Info new_attr (ppn info))
                 else Some (s, 0));
      pmm_region_attr_set count s pgdir (u32 (vaddr + page_size)) new_attr
  end.

End tables.

Arguments pstate : clear implicits.
Arguments PState {A}.

(** ** Bits of the entries *)

Lemma land_pow2 v k : 0 ≤ k → ctrue (Z.land v (Z.shiftl 1 k)) = Z.testbit v k.
Proof. apply is_set_spec. Qed.

Lemma land_ppn v : Z.land v MMU_PPN_MASK = v mod 2 ^ 28.
Proof. apply (Z.land_ones v 28). done. Qed.

(** The directory entry of a second-level table. *)
Definition pde_table (tbl : Z) : Z := Z.lor (Z.lor PMM_PRESENT MMU_PTD1) tbl.

Lemma pde_table_bits tbl :
  0 ≤ tbl < 2 ^ 28 →
  Z.testbit (pde_table tbl) 31 = true ∧ Z.testbit (pde_table tbl) 30 = true ∧
  pde_table tbl mod 2 ^ 28 = tbl ∧ 0 ≤ pde_table tbl < wsize.
Proof.
  intros Ht. unfold pde_table, PMM_PRESENT, MMU_PTD1. split_and!.
  - by rewrite !Z.lor_spec.
  - by rewrite !Z.lor_spec.
  - rewrite <- Z.land_ones by done. rewrite Z.land_lor_distr_l.
    change (Z.land (Z.lor (Z.shiftl 1 31) (Z.shiftl 1 30)) (Z.ones 28)) with 0.
    rewrite Z.lor_0_l, Z.land_ones by done. by apply Z.mod_small.
  - apply Z.lor_nonneg. split; [done|lia].
  - unfold wsize. apply Z.log2_lt_pow2.
    + assert (Z.lor (Z.lor (Z.shiftl 1 31) (Z.shiftl 1 30)) tbl ≠ 0).
      { intros E. apply Z.lor_eq_0_iff in E as [E _]. done. }
      pose proof (proj2 (Z.lor_nonneg (Z.lor (Z.shiftl 1 31) (Z.shiftl 1 30)) tbl)
                    ltac:(split; [done|lia])). lia.
    + rewrite Z.log2_lor by (done || lia).
      change (Z.log2 (Z.lor (Z.shiftl 1 31) (Z.shiftl 1 30))) with 31.
      assert (Z.log2 tbl < 28); [|lia].
      destruct (decide (tbl = 0)) as [->|]; [done|]. apply Z.log2_lt_pow2; lia.
Qed.

Lemma MMU_PDE_div va : MMU_PDE va = va / 2 ^ 21.
Proof. apply Z.shiftr_div_pow2. done. Qed.

Lemma MMU_PTE_div va : MMU_PTE va = 8 * ((va / 2 ^ 12) mod 512).
Proof.
  unfold MMU_PTE. rewrite Z.shiftr_land.
  change (Z.shiftr 0x1FF000 12) with (Z.ones 9). rewrite Z.land_ones by done.
  rewrite Z.shiftr_div_pow2, Z.shiftl_mul_pow2 by done.
  change (2 ^ 9) with 512. change (2 ^ 3) with 8. apply Z.mul_comm.
Qed.

(** Address of the entry of [va] in the table that fills frame [f]. *)
Definition slot (f va : Z) : Z := f * PMM_PAGE_SIZE + 8 * ((va / 2 ^ 12) mod 512).

Lemma frame_bound p : 0 ≤ frame_of p < 2 ^ 20.
Proof. by apply Z.mod_pos_bound. Qed.

Lemma slot_bound f va : f * PMM_PAGE_SIZE ≤ slot f va ∧ slot f va + 8 ≤ f * PMM_PAGE_SIZE + PMM_PAGE_SIZE.
Proof.
  unfold slot, PMM_PAGE_SIZE. pose proof (Z.mod_pos_bound (va / 2 ^ 12) 512 ltac:(lia)). lia.
Qed.

Lemma pte_addr_slot tbl va :
  pte_addr tbl va = slot (frame_of tbl) va ∧ u32 (slot (frame_of tbl) va + 4) = slot (frame_of tbl) va + 4.
Proof.
  pose proof (slot_bound (frame_of tbl) va) as Hs. pose proof (frame_bound tbl) as Hf.
  assert (E : pmm_ppn2vma tbl = frame_of tbl * PMM_PAGE_SIZE).
  { unfold pmm_ppn2vma, u32, frame_of, PMM_PAGE_SHIFT, PMM_PAGE_SIZE.
    rewrite Z.shiftl_mul_pow2 by done. change wsize with (2 ^ 20 * 2 ^ 12).
    by rewrite Z.mul_mod_distr_r. }
  unfold PMM_PAGE_SIZE in *.
  assert (Hw : slot (frame_of tbl) va + 8 ≤ wsize) by (unfold wsize; lia).
  unfold pte_addr. rewrite E, MMU_PTE_div. fold (slot (frame_of tbl) va).
  change (frame_of tbl * 0x1000 + 8 * ((va / 2 ^ 12) mod 512)) with (slot (frame_of tbl) va).
  rewrite !u32_small by lia. done.
Qed.

(** Different pages have different slots. *)
Lemma slot_apart f va va' :
  0 ≤ va < wsize → 0 ≤ va' < wsize → MMU_PDE va = MMU_PDE va' →
  va / 2 ^ 12 ≠ va' / 2 ^ 12 → slot f va + 8 ≤ slot f va' ∨ slot f va' + 8 ≤ slot f va.
Proof.
  intros Hv Hv' Hp Hne. rewrite !MMU_PDE_div in Hp. unfold slot.
  assert (E : ∀ x, x / 2 ^ 21 = x / 2 ^ 12 / 512).
  { intros x. rewrite Z.div_div by done. done. }
  rewrite !E in Hp.
  pose proof (Z.div_mod (va / 2 ^ 12) 512 ltac:(done)).
  pose proof (Z.div_mod (va' / 2 ^ 12) 512 ltac:(done)). lia.
Qed.

Lemma pde_index va : 0 ≤ va < wsize → 0 ≤ MMU_PDE va < 2048.
Proof.
  intros. rewrite MMU_PDE_div. split; [apply Z.div_pos; lia|].
  apply Z.div_lt_upper_bound; [done|]. unfold wsize in *. lia.
Qed.

(** ** Well-formed page directories *)

(** The frame of the second-level table an entry points to. *)
Definition table_of (v : Z) : option Z :=
  if Z.testbit v 31 && Z.testbit v 30 then Some (frame_of (v mod 2 ^ 28)) else None.

Definition in_frame (a f : Z) : Prop := f * PMM_PAGE_SIZE ≤ a < f * PMM_PAGE_SIZE + PMM_PAGE_SIZE.

(** Frames of the directory itself. *)
Definition dir_frame (pgdir f : Z) : Prop := pgdir ≤ f * PMM_PAGE_SIZE < pgdir + 0x2000.

(** [pgdir] is a directory in the memory [m] whose second-level tables are distinct
    frames among the used ones. *)
Record dir_ok (used : Z → Prop) (m : memory) (pgdir : Z) : Prop := {
  d_range : 0 ≤ pgdir ∧ pgdir + 0x2000 ≤ wsize ∧ (PMM_PAGE_SIZE | pgdir);
  d_used f : dir_frame pgdir f → used f;
  d_entry i : 0 ≤ i < 2048 → m (pgdir + 4 * i) = 0 ∨ Z.testbit (m (pgdir + 4 * i)) 31 = true;
  d_table i f : 0 ≤ i < 2048 → table_of (m (pgdir + 4 * i)) = Some f →
                used f ∧ ¬ dir_frame pgdir f;
  d_inj i j f : 0 ≤ i < 2048 → 0 ≤ j < 2048 → table_of (m (pgdir + 4 * i)) = Some f →
                table_of (m (pgdir + 4 * j)) = Some f → i = j;
}.

Lemma in_frame_inj a f g : in_frame a f → in_frame a g → f = g.
Proof. unfold in_frame, PMM_PAGE_SIZE. lia. Qed.

Lemma slot_in_frame f va : in_frame (slot f va) f ∧ in_frame (slot f va + 4) f.
Proof. unfold in_frame. pose proof (slot_bound f va). lia. Qed.

(** Directory entries lie in the frames of the directory. *)
Lemma dir_entry_frame used m pgdir i f :
  dir_ok used m pgdir → 0 ≤ i < 2048 → in_frame (pgdir + 4 * i) f → dir_frame pgdir f.
Proof.
  intros [(H0&Hle&[q ->]) _ _ _ _] Hi. unfold in_frame, dir_frame, PMM_PAGE_SIZE. intros Hf.
  assert (q * 0x1000 < f * 0x1000 + 0x1000) by lia. assert (q ≤ f) by lia. lia.
Qed.

Lemma get_small m pgdir va f :
  table_of (m (pde_addr pgdir va)) = Some f →
  pmm_get_page m pgdir va = Info (m (slot f va)) (m (slot f va + 4) mod 2 ^ 28).
Proof.
  unfold table_of, pmm_get_page, PMM_PRESENT, PMM_HUGE. intros Ht.
  rewrite !land_pow2 by done.
  destruct (Z.testbit _ 31); [|done]. destruct (Z.testbit _ 30); [|done]. simpl in *.
  injection Ht as <-. rewrite !land_ppn.
  destruct (pte_addr_slot (m (pde_addr pgdir va) mod 2 ^ 28) va) as [-> ->]. done.
Qed.

(** What a reader of [va] sees depends on the entry and, below it, on the slot. *)
Lemma get_ext m m' pgdir va :
  m' (pde_addr pgdir va) = m (pde_addr pgdir va) →
  (∀ f, table_of (m (pde_addr pgdir va)) = Some f →
        m' (slot f va) = m (slot f va) ∧ m' (slot f va + 4) = m (slot f va + 4)) →
  pmm_get_page m' pgdir va = pmm_get_page m pgdir va.
Proof.
  intros He Hs. destruct (table_of (m (pde_addr pgdir va))) as [f|] eqn:Ht.
  - rewrite !(get_small _ _ _ f) by (by rewrite ?He). by destruct (Hs f eq_refl) as [-> ->].
  - unfold pmm_get_page, PMM_PRESENT, PMM_HUGE. rewrite He, !land_pow2 by done.
    unfold table_of in Ht.
    destruct (Z.testbit _ 31); [|done]. destruct (Z.testbit _ 30); [done|done].
Qed.

Lemma get_empty m pgdir va : m (pde_addr pgdir va) = 0 → pmm_get_page m pgdir va = Info 0 0.
Proof. intros E. unfold pmm_get_page. by rewrite E. Qed.

(** Addresses of one page are mapped alike. *)
Lemma get_page_number m pgdir va va' :
  va / 2 ^ 12 = va' / 2 ^ 12 → pmm_get_page m pgdir va = pmm_get_page m pgdir va'.
Proof.
  intros E. assert (Ed : MMU_PDE va = MMU_PDE va').
  { rewrite !MMU_PDE_div. change (2 ^ 21) with (2 ^ 12 * 512).
    rewrite <- !Z.div_div by done. by rewrite E. }
  unfold pmm_get_page, pte_addr, pde_addr. rewrite Ed, !MMU_PTE_div, E.
  case_match; [done|]. case_match; [|done]. f_equal. unfold PMM_PAGE_SHIFT.
  rewrite !Z.shiftr_lor, !Z.shiftr_land, !(Z.shiftr_div_pow2 va), !(Z.shiftr_div_pow2 va') by done.
  by rewrite E.
Qed.

Lemma get_huge_nonempty m pgdir va :
  Z.testbit (m (pde_addr pgdir va)) 31 = true → Z.testbit (m (pde_addr pgdir va)) 30 = false →
  pmm_get_page m pgdir va ≠ Info 0 0.
Proof.
  intros H31 H30. unfold pmm_get_page, PMM_PRESENT, PMM_HUGE.
  rewrite !land_pow2, H31, H30 by done. simpl. intros [= E _].
  apply Z.lor_eq_0_iff in E as [_ E]. done.
Qed.

(** Memory outside the directory and its tables does not matter. *)
Lemma dir_ok_ext used used' m m' pgdir :
  dir_ok used m pgdir → (∀ f, used f → used' f) →
  (∀ i, 0 ≤ i < 2048 → m' (pgdir + 4 * i) = m (pgdir + 4 * i)) →
  dir_ok used' m' pgdir.
Proof.
  intros [] Hu Hm. split; [done|auto|..].
  - intros i Hi. rewrite Hm by done. auto.
  - intros i f Hi. rewrite Hm by done. intros Hf. destruct (d_table0 i f Hi Hf). auto.
  - intros i j f Hi Hj. rewrite !Hm by done. eauto.
Qed.

(** ** Writing a slot *)

Lemma write_slot used m pgdir va f x y :
  dir_ok used m pgdir → 0 ≤ va < wsize → table_of (m (pde_addr pgdir va)) = Some f →
  let m' := wr (wr m (slot f va + 4) y) (slot f va) x in
  dir_ok used m' pgdir ∧ pmm_get_page m' pgdir va = Info x (y mod 2 ^ 28) ∧
  (∀ va', 0 ≤ va' < wsize → va' / 2 ^ 12 ≠ va / 2 ^ 12 →
          pmm_get_page m' pgdir va' = pmm_get_page m pgdir va') ∧
  (∀ i, 0 ≤ i < 2048 → m' (pgdir + 4 * i) = m (pgdir + 4 * i)).
Proof.
  intros Hd Hva Ht m'. destruct (slot_in_frame f va) as [Hs1 Hs2].
  destruct (d_table _ _ _ Hd (MMU_PDE va) f (pde_index _ Hva) Ht) as [_ Hnd].
  assert (Hother : ∀ a g, in_frame a g → g ≠ f → m' a = m a).
  { intros a g Ha Hg. unfold m', wr.
    destruct (Z.eqb_spec a (slot f va)) as [->|_]; [by destruct Hg; eapply in_frame_inj|].
    destruct (Z.eqb_spec a (slot f va + 4)) as [->|_]; [|done].
    by destruct Hg; eapply in_frame_inj. }
  assert (Hdir : ∀ i, 0 ≤ i < 2048 → m' (pgdir + 4 * i) = m (pgdir + 4 * i)).
  { intros i Hi. set (g := (pgdir + 4 * i) / PMM_PAGE_SIZE).
    assert (Hg : in_frame (pgdir + 4 * i) g).
    { unfold in_frame, g, PMM_PAGE_SIZE. pose proof (Z.div_mod (pgdir + 4 * i) 0x1000 ltac:(done)).
      pose proof (Z.mod_pos_bound (pgdir + 4 * i) 0x1000 ltac:(done)). lia. }
    apply (Hother _ g Hg). intros ->. by apply Hnd, (dir_entry_frame _ _ _ i _ Hd). }
  split_and!.
  - eapply dir_ok_ext; [exact Hd|done|exact Hdir].
  - rewrite (get_small _ _ _ f) by (unfold pde_addr; rewrite Hdir by (by apply pde_index); done).
    unfold m', wr. rewrite !Z.eqb_refl.
    destruct (Z.eqb_spec (slot f va + 4) (slot f va)); [lia|done].
  - intros va' Hva' Hne. apply get_ext; [by apply Hdir, pde_index|]. intros g Hg.
    destruct (slot_in_frame g va') as [Hg1 Hg2].
    destruct (decide (g = f)) as [->|Hgf]; [|split; by eapply Hother].
    assert (MMU_PDE va' = MMU_PDE va) as Hp.
    { eapply (d_inj _ _ _ Hd); [by apply pde_index..|done|done]. }
    destruct (slot_apart f va va' Hva Hva' (eq_sym Hp) (not_eq_sym Hne)); unfold m', wr;
      repeat (match goal with |- context [?a =? ?b] => destruct (Z.eqb_spec a b); [lia|] end);
      done.
  - exact Hdir.
Qed.

(** ** Huge pages *)

Lemma testbit_above n x k : 0 ≤ n ≤ k → 0 ≤ x < 2 ^ n → Z.testbit x k = false.
Proof.
  intros Hk Hx. rewrite <- (Z.mod_small x (2 ^ n)) by done.
  by apply Z.mod_pow2_bits_high.
Qed.

Lemma testbit_below n x k : 0 ≤ k < n → x mod 2 ^ n = 0 → Z.testbit x k = false.
Proof.
  intros Hk Hx. rewrite <- (Z.mod_pow2_bits_low x n) by lia. by rewrite Hx, Z.bits_0.
Qed.

Lemma lor_add_low n q r : 0 ≤ n → 0 ≤ r < 2 ^ n → Z.lor (q * 2 ^ n) r = q * 2 ^ n + r.
Proof.
  intros Hn Hr. assert (E : Z.land (q * 2 ^ n) r = 0).
  { apply Z.bits_inj'. intros k Hk. rewrite Z.land_spec, Z.bits_0.
    destruct (Z.lt_ge_cases k n).
    - by rewrite Z.mul_pow2_bits_low.
    - by rewrite (testbit_above n r), andb_false_r by lia. }
  by rewrite Z.add_nocarry_lxor, Z.lxor_lor.
Qed.

Lemma ones_shift_bit a b k :
  0 ≤ a → 0 ≤ b → 0 ≤ k → Z.testbit (Z.shiftl (Z.ones a) b) k = (b <=? k) && (k <? b + a).
Proof.
  intros. destruct (Z.leb_spec b k).
  - rewrite Z.shiftl_spec by done. destruct (Z.ltb_spec k (b + a)).
    + rewrite Z.ones_spec_low by lia. done.
    + rewrite Z.ones_spec_high by lia. done.
  - by rewrite Z.shiftl_spec_low.
Qed.

(** Attributes a directory entry can hold, with the huge-page bit. *)
Definition huge_attr (x : Z) : Prop :=
  0 ≤ x < 2 ^ 32 ∧ x mod 2 ^ 22 = 0 ∧ Z.testbit x 31 = true ∧ Z.testbit x 30 = true.

(** The directory entry of a huge page. *)
Definition pde_huge (x p : Z) : Z := Z.lor (Z.lxor x PMM_HUGE) (Z.shiftr p 9).

Lemma pde_huge_bit x p k :
  huge_attr x → 0 ≤ p < 2 ^ 28 → 0 ≤ k →
  Z.testbit (pde_huge x p) k =
  if 22 <=? k then xorb (Z.testbit x k) (k =? 30) else Z.testbit p (k + 9).
Proof.
  intros (Hx&Hlow&_&_) Hp Hk. unfold pde_huge, PMM_HUGE.
  rewrite Z.lor_spec, Z.lxor_spec, testbit_one_shift, Z.shiftr_spec by done.
  destruct (Z.leb_spec 22 k).
  - rewrite (testbit_above 28 p) by lia. apply orb_false_r.
  - rewrite (testbit_below 22 x) by lia. destruct (Z.eqb_spec k 30); [lia|done].
Qed.

Lemma pde_huge_decode x p :
  huge_attr x → 0 ≤ p < 2 ^ 28 →
  Z.testbit (pde_huge x p) 31 = true ∧ Z.testbit (pde_huge x p) 30 = false ∧
  Z.lor (Z.land (pde_huge x p) MMU_PDE_ATTR_MASK) PMM_HUGE = x ∧
  Z.land (pde_huge x p) MMU_PDE_PPN_MASK = p / 2 ^ 9.
Proof.
  intros Hx Hp. pose proof Hx as (Hb&Hlow&H31&H30). split_and!.
  - by rewrite pde_huge_bit, H31 by done.
  - by rewrite pde_huge_bit, H30 by done.
  - apply Z.bits_inj'. intros k Hk. unfold PMM_HUGE.
    change MMU_PDE_ATTR_MASK with (Z.shiftl (Z.ones 10) 22).
    rewrite Z.lor_spec, Z.land_spec, testbit_one_shift, ones_shift_bit, pde_huge_bit by done.
    change (22 + 10) with 32.
    destruct (Z.leb_spec 22 k); simpl.
    + destruct (Z.ltb_spec k 32).
      * destruct (Z.eqb_spec k 30) as [->|]; [by rewrite H30|].
        by destruct (Z.testbit x k).
      * rewrite (testbit_above 32 x) by lia. destruct (Z.eqb_spec k 30); [lia|done].
    + rewrite (testbit_below 22 x) by lia. destruct (Z.eqb_spec k 30); [lia|].
      by destruct (Z.testbit p (k + 9)).
  - rewrite <- Z.shiftr_div_pow2 by done. apply Z.bits_inj'. intros k Hk.
    change MMU_PDE_PPN_MASK with (Z.shiftl (Z.ones 19) 0).
    rewrite Z.land_spec, ones_shift_bit, pde_huge_bit, Z.shiftr_spec by done.
    change (0 + 19) with 19.
    destruct (Z.leb_spec 0 k); [|lia]. simpl.
    destruct (Z.leb_spec 22 k), (Z.ltb_spec k 19); try lia; simpl.
    + rewrite (testbit_above 28 p) by lia. by destruct (xorb _ _).
    + by destruct (Z.testbit p (k + 9)).
    + by rewrite (testbit_above 28 p) by lia.
Qed.

(** Reading through a huge entry; the frame number is cut to the 32-bit address. *)
Lemma get_huge m pgdir va x p :
  huge_attr x → 0 ≤ p < 2 ^ 28 → p mod 2 ^ 9 = 0 → 0 ≤ va →
  m (pde_addr pgdir va) = pde_huge x p →
  pmm_get_page m pgdir va = Info x (p mod 2 ^ 20 + (va mod 2 ^ 21) / 2 ^ 12).
Proof.
  intros Hx Hp Hal Hva E. destruct (pde_huge_decode x p Hx Hp) as (B31&B30&Ba&Bp).
  unfold pmm_get_page. rewrite E. unfold PMM_PRESENT. rewrite land_pow2 by done.
  rewrite B31. change PMM_HUGE with (Z.shiftl 1 30). rewrite land_pow2, B30 by done.
  cbn [negb]. change (Z.shiftl 1 30) with PMM_HUGE. rewrite Ba, Bp. f_equal.
  unfold PMM_HUGE_PAGE_SHIFT, PMM_PAGE_SHIFT. change PMM_HUGE_PAGE_MASK with (Z.ones 21).
  rewrite Z.land_ones, Z.shiftl_mul_pow2 by done. unfold u32.
  change wsize with (2 ^ 11 * 2 ^ 21). rewrite Z.mul_mod_distr_r by done.
  pose proof (Z.mod_pos_bound va (2 ^ 21) ltac:(done)).
  rewrite lor_add_low by done. rewrite Z.shiftr_div_pow2 by done.
  change (2 ^ 21) with (2 ^ 9 * 2 ^ 12) at 1. rewrite Z.mul_assoc, Z.div_add_l by done.
  f_equal. change (2 ^ 20) with (2 ^ 11 * 2 ^ 9).
  rewrite <- Z.mul_mod_distr_r by done. f_equal.
  pose proof (Z.div_mod p (2 ^ 9) ltac:(done)). lia.
Qed.

(** ** Installing a second-level table *)

Section correctness.
Context {A : Type} `{FrameAllocatorLaws A}.
Implicit Types (s : pstate A) (pgdir va : Z).

Definition tables_ok s pgdir : Prop :=
  fa_inv (palloc s) ∧ dir_ok (fa_used (palloc s)) (pmem s) pgdir.

(** Two states show the same mappings. *)
Definition same_view (m m' : memory) pgdir : Prop :=
  ∀ va, 0 ≤ va < wsize → pmm_get_page m' pgdir va = pmm_get_page m pgdir va.

(** What the other processors may do while this one installs a table: they keep the
    directory well formed and the mappings as they are, and they neither use nor
    write the frame just allocated here.  They may install a table in the same entry. *)
Definition env_ok (env : memory → memory) s pgdir : Prop :=
  ∀ a tbl, fa_alloc (palloc s) = Some (a, Some tbl) →
  let m := zero_frame (pmem s) (frame_of tbl) in
  dir_ok (fa_used a) (env m) pgdir ∧ same_view m (env m) pgdir ∧
  (∀ x, in_frame x (frame_of tbl) → env m x = m x) ∧
  (∀ i, 0 ≤ i < 2048 → table_of (env m (pgdir + 4 * i)) ≠ Some (frame_of tbl)).

Lemma zero_frame_in m f a : in_frame a f → zero_frame m f a = 0.
Proof.
  unfold in_frame, zero_frame. intros Ha.
  destruct (Z.leb_spec (f * PMM_PAGE_SIZE) a), (Z.ltb_spec a (f * PMM_PAGE_SIZE + PMM_PAGE_SIZE)); done || lia.
Qed.

Lemma zero_frame_out m f a : ¬ in_frame a f → zero_frame m f a = m a.
Proof.
  unfold in_frame, zero_frame. intros Ha.
  destruct (Z.leb_spec (f * PMM_PAGE_SIZE) a), (Z.ltb_spec a (f * PMM_PAGE_SIZE + PMM_PAGE_SIZE)); done || lia.
Qed.

Lemma zero_frame_dir used m pgdir f i :
  dir_ok used m pgdir → ¬ used f → 0 ≤ i < 2048 →
  zero_frame m f (pgdir + 4 * i) = m (pgdir + 4 * i).
Proof.
  intros Hd Hf Hi. apply zero_frame_out. intros Hin. apply Hf, Hd.
  by eapply dir_entry_frame.
Qed.

(** Zeroing an unused frame changes no mapping. *)
Lemma zero_frame_view used m pgdir f :
  dir_ok used m pgdir → ¬ used f → same_view m (zero_frame m f) pgdir.
Proof.
  intros Hd Hf va Hva. apply get_ext; [by eapply zero_frame_dir, pde_index|].
  intros g Hg. destruct (d_table _ _ _ Hd (MMU_PDE va) g (pde_index _ Hva) Hg) as [Hu _].
  destruct (slot_in_frame g va) as [H1 H2].
  rewrite !zero_frame_out; [done|..]; intros Hin; apply Hf;
    (assert (f = g) as -> by (by eapply in_frame_inj)); done.
Qed.

Lemma env_id s pgdir : tables_ok s pgdir → env_ok (λ m, m) s pgdir.
Proof.
  intros [Hi Hd] a tbl E m. destruct (fa_alloc_law _ Hi) as (a'&r&E'&_&Hr).
  rewrite E in E'. simplify_eq. destruct Hr as (_&Hn&Hu).
  assert (Hm : ∀ i, 0 ≤ i < 2048 → m (pgdir + 4 * i) = pmem s (pgdir + 4 * i)).
  { intros i Hi'. by eapply zero_frame_dir. }
  split_and!; [|done|done|].
  - eapply dir_ok_ext; [exact Hd| |done]. intros f. rewrite Hu. by left.
  - intros i Hi'. rewrite Hm by done. intros Ht.
    by destruct (d_table _ _ _ Hd i _ Hi' Ht) as [? _].
Qed.

(** Writing the entry of a fresh zeroed table changes no mapping either. *)
Lemma install_table used m pgdir va tbl :
  dir_ok used m pgdir → 0 ≤ va < wsize → 0 ≤ tbl < 2 ^ 28 → used (frame_of tbl) →
  ¬ dir_frame pgdir (frame_of tbl) →
  (∀ i, 0 ≤ i < 2048 → table_of (m (pgdir + 4 * i)) ≠ Some (frame_of tbl)) →
  (∀ x, in_frame x (frame_of tbl) → m x = 0) → m (pde_addr pgdir va) = 0 →
  let m' := wr m (pde_addr pgdir va) (pde_table tbl) in
  dir_ok used m' pgdir ∧ same_view m m' pgdir ∧
  table_of (m' (pde_addr pgdir va)) = Some (frame_of tbl).
Proof.
  intros Hd Hva Htbl Hu Hnd Hfresh Hz Hp0 m'.
  destruct (pde_table_bits tbl Htbl) as (B31&B30&Bm&_).
  pose proof (pde_index va Hva) as Hp.
  assert (Ht : table_of (pde_table tbl) = Some (frame_of tbl)).
  { unfold table_of. by rewrite B31, B30, Bm. }
  assert (Hm : ∀ i, m' (pgdir + 4 * i) =
                    if decide (i = MMU_PDE va) then pde_table tbl else m (pgdir + 4 * i)).
  { intros i. unfold m', wr, pde_addr. case_decide; destruct (Z.eqb_spec (pgdir + 4 * i)
      (pgdir + 4 * MMU_PDE va)); done || lia. }
  assert (Hframe : ∀ a g, in_frame a g → ¬ dir_frame pgdir g → m' a = m a).
  { intros a g Ha Hg. unfold m', wr. destruct (Z.eqb_spec a (pde_addr pgdir va)) as [->|]; [|done].
    destruct Hg. by eapply (dir_entry_frame _ _ _ (MMU_PDE va)). }
  split_and!.
  - destruct Hd as [Hr Hdu He Hdt Hinj]. split; [done|done|..].
    + intros i Hi. rewrite Hm. case_decide; [by right|by apply He].
    + intros i f Hi. rewrite Hm. case_decide; [|by apply Hdt]. rewrite Ht. by intros [= <-].
    + intros i j f Hi Hj. rewrite !Hm. repeat case_decide; subst; try done; rewrite ?Ht.
      * intros [= <-] Hj'. by apply Hfresh in Hj'.
      * intros Hi' [= <-]. by apply Hfresh in Hi'.
      * by apply Hinj.
  - intros va' Hva'. destruct (decide (MMU_PDE va' = MMU_PDE va)) as [E|E].
    + assert (Ea : pde_addr pgdir va' = pde_addr pgdir va) by (unfold pde_addr; by rewrite E).
      rewrite (get_empty m) by (by rewrite Ea).
      rewrite (get_small m' pgdir va' (frame_of tbl)).
      2:{ rewrite Ea. unfold m', wr. by rewrite Z.eqb_refl. }
      destruct (slot_in_frame (frame_of tbl) va') as [H1 H2].
      rewrite (Hframe _ _ H1 Hnd), (Hframe _ _ H2 Hnd). by rewrite !Hz.
    + apply get_ext; [unfold pde_addr; rewrite Hm, decide_False by done; done|].
      intros f Hf. destruct (slot_in_frame f va') as [H1 H2].
      destruct (d_table _ _ _ Hd (MMU_PDE va') f (pde_index _ Hva') Hf) as [_ Hnf].
      split; by eapply Hframe.
  - unfold m', wr. by rewrite Z.eqb_refl.
Qed.

Lemma pde_fill_spec env s pgdir va :
  tables_ok s pgdir → env_ok env s pgdir → 0 ≤ va < wsize →
  pmem s (pde_addr pgdir va) = 0 →
  ∃ s' r, pde_fill env s (pde_addr pgdir va) = Some (s', r) ∧ tables_ok s' pgdir ∧
    same_view (pmem s) (pmem s') pgdir ∧
    match r with
    | None => pmem s' = pmem s
    | Some tbl => table_of (pmem s' (pde_addr pgdir va)) = Some (frame_of tbl)
    end.
Proof.
  intros [Hi Hd] Henv Hva Hz0. unfold pde_fill, pmm_alloc_page.
  destruct (fa_alloc_law _ Hi) as (a&r&E&Hi'&Hr). rewrite E. cbn [mbind option_bind].
  destruct r as [tbl|]; cbn [mbind option_bind pmem palloc].
  2:{ eexists _, None. split; [done|]. split_and!; [split; [done|]|done|done].
      eapply dir_ok_ext; [exact Hd| |done]. intros f. by rewrite Hr. }
  destruct Hr as (Htbl&Hn&Hu). destruct (Henv a tbl E) as (Hd1&Hv1&Hz1&Hf1).
  set (m := zero_frame (pmem s) (frame_of tbl)) in *.
  assert (Hv : same_view (pmem s) (env m) pgdir).
  { intros x Hx. rewrite Hv1 by done. by eapply zero_frame_view. }
  assert (Hnd : ¬ dir_frame pgdir (frame_of tbl)) by (intros Hf; by apply Hn, Hd).
  destruct (Z.eqb_spec (env m (pde_addr pgdir va)) 0) as [He|He].
  - destruct (install_table (fa_used a) (env m) pgdir va tbl) as (Hd2&Hv2&Ht2);
      [done|done|done|apply Hu; by right|done|done| |done|].
    { intros x Hx. rewrite Hz1 by done. by apply zero_frame_in. }
    eexists _, (Some tbl). split; [done|]. split_and!; [done| |exact Ht2].
    intros x Hx. simpl. rewrite Hv2 by done. by apply Hv.
  - destruct (fa_free_law _ _ _ Hi E) as (a''&->&Hi''&Hu''). cbn [mbind option_bind].
    eexists _, (Some _). split; [done|]. split_and!; [split; [done|]|exact Hv|].
    + destruct Hd1 as [Hr1 Hdu1 He1 Hdt1 Hinj1]. split; [done| |done| |done].
      * intros f Hf. apply Hu''. by apply Hd.
      * intros i f Hi1 Hf. destruct (Hdt1 i f Hi1 Hf) as [Hua Hndf]. split; [|done].
        apply Hu''. apply Hu in Hua as [?| ->]; [done|]. by apply Hf1 in Hf.
    + simpl. pose proof (pde_index va Hva) as Hp.
      destruct (d_entry _ _ _ Hd1 (MMU_PDE va) Hp) as [|Hb]; [done|].
      fold (pde_addr pgdir va) in Hb. unfold table_of. rewrite Hb, land_ppn.
      destruct (Z.testbit (env m (pde_addr pgdir va)) 30) eqn:Eb; [done|].
      pose proof (Hv va Hva) as Hg. rewrite (get_empty (pmem s)) in Hg by done.
      exfalso. by apply (get_huge_nonempty (env m) pgdir va).
Qed.

(** ** Mapping a page *)

(** The attributes of a small page to map. *)
Definition small_attr (x : Z) : Prop :=
  Z.testbit x 30 = false ∧ Z.testbit x 4 = false.

(** The write of the entry, once its table is known. *)
Lemma write_entry s pgdir va tbl info :
  tables_ok s pgdir → 0 ≤ va < wsize →
  table_of (pmem s (pde_addr pgdir va)) = Some (frame_of tbl) →
  let s' := PState (wr (wr (pmem s) (u32 (pte_addr tbl va + 4)) (ppn info))
                       (pte_addr tbl va) (attr info)) (palloc s) in
  tables_ok s' pgdir ∧
  pmm_get_page (pmem s') pgdir va = Info (attr info) (ppn info mod 2 ^ 28) ∧
  (∀ va', 0 ≤ va' < wsize → va' / 2 ^ 12 ≠ va / 2 ^ 12 →
          pmm_get_page (pmem s') pgdir va' = pmm_get_page (pmem s) pgdir va') ∧
  (∀ i, 0 ≤ i < 2048 → pmem s' (pgdir + 4 * i) = pmem s (pgdir + 4 * i)).
Proof.
  intros [Hi Hd] Hva Ht s'. destruct (pte_addr_slot tbl va) as [E1 E2].
  destruct (write_slot _ _ _ _ _ (attr info) (ppn info) Hd Hva Ht) as (Hd2&Hrest).
  unfold s'. simpl. rewrite E1, E2. done.
Qed.

(** A small page below an existing table: no allocation, no error. *)
Lemma set_small_table env s pgdir va info :
  tables_ok s pgdir → 0 ≤ va < wsize → small_attr (attr info) →
  is_Some (table_of (pmem s (pde_addr pgdir va))) →
  ∃ s', pmm_set_page env s pgdir va info = Some (s', 0) ∧ tables_ok s' pgdir ∧
    pmm_get_page (pmem s') pgdir va = Info (attr info) (ppn info mod 2 ^ 28) ∧
    (∀ va', 0 ≤ va' < wsize → va' / 2 ^ 12 ≠ va / 2 ^ 12 →
            pmm_get_page (pmem s') pgdir va' = pmm_get_page (pmem s) pgdir va') ∧
    (∀ i, 0 ≤ i < 2048 → pmem s' (pgdir + 4 * i) = pmem s (pgdir + 4 * i)).
Proof.
  intros Hok Hva [H30 H4] [f Hf]. unfold pmm_set_page.
  change PMM_HUGE with (Z.shiftl 1 30). change PMM_CLEAR with (Z.shiftl 1 4).
  rewrite !land_pow2, H30, H4 by done.
  destruct (Z.eqb_spec (pmem s (pde_addr pgdir va)) 0) as [E0|E0].
  { rewrite E0 in Hf. done. }
  cbn [mbind option_bind].
  assert (table_of (pmem s (pde_addr pgdir va)) =
          Some (frame_of (Z.land (pmem s (pde_addr pgdir va)) MMU_PPN_MASK))) as Hf'.
  { rewrite land_ppn. unfold table_of in *. by destruct (_ && _). }
  destruct (write_entry s pgdir va _ info Hok Hva Hf') as (Hok2&Hrest).
  eexists. split; [done|]. by split.
Qed.

(** A small page below an empty entry: a table is installed first. *)
Lemma set_small_empty env s pgdir va info :
  tables_ok s pgdir → env_ok env s pgdir → 0 ≤ va < wsize → small_attr (attr info) →
  pmem s (pde_addr pgdir va) = 0 →
  ∃ s' err, pmm_set_page env s pgdir va info = Some (s', err) ∧ tables_ok s' pgdir ∧
    ((err = 0 ∧ pmm_get_page (pmem s') pgdir va = Info (attr info) (ppn info mod 2 ^ 28) ∧
      ∀ va', 0 ≤ va' < wsize → va' / 2 ^ 12 ≠ va / 2 ^ 12 →
             pmm_get_page (pmem s') pgdir va' = pmm_get_page (pmem s) pgdir va') ∨
     (err = ENOMEM ∧ pmem s' = pmem s)).
Proof.
  intros Hok Henv Hva [H30 H4] E0. unfold pmm_set_page.
  change PMM_HUGE with (Z.shiftl 1 30). change PMM_CLEAR with (Z.shiftl 1 4).
  rewrite !land_pow2, H30, H4, E0 by done. cbn [Z.eqb].
  destruct (pde_fill_spec env s pgdir va Hok Henv Hva E0) as (s1&r&->&Hok1&Hv1&Hr).
  cbn [mbind option_bind]. destruct r as [tbl|].
  - destruct (write_entry s1 pgdir va tbl info Hok1 Hva Hr) as (Hok2&Hg&Ho&_).
    eexists _, _. split; [done|]. split; [done|]. left. split_and!; [done|done|].
    intros va' Hva' Hne. rewrite Ho by done. by apply Hv1.
  - eexists _, _. split; [done|]. split; [done|]. by right.
Qed.

(** ** Changing the attributes of a region *)

(** Small pages only, in [count] pages from [va]. *)
Definition small_region (m : memory) pgdir va (count : nat) : Prop :=
  ∀ j, 0 ≤ j < Z.of_nat count →
    m (pde_addr pgdir (va + j * PMM_PAGE_SIZE)) = 0 ∨
    is_Some (table_of (m (pde_addr pgdir (va + j * PMM_PAGE_SIZE)))).

(** What the attributes of a mapping become. *)
Definition with_attr (x : Z) (i : page_info) : page_info :=
  if ctrue (ppn i) && Z.testbit (attr i) 31 then Info x (ppn i) else i.

Lemma get_ppn_small m pgdir va :
  is_Some (table_of (m (pde_addr pgdir va))) →
  ppn (pmm_get_page m pgdir va) mod 2 ^ 28 = ppn (pmm_get_page m pgdir va).
Proof.
  intros [f Hf]. rewrite (get_small _ _ _ f Hf). simpl. by apply Z.mod_mod.
Qed.

Lemma page_of_step va j :
  (va + j * PMM_PAGE_SIZE) / 2 ^ 12 = va / 2 ^ 12 + j.
Proof. unfold PMM_PAGE_SIZE. change (2 ^ 12) with 0x1000. by rewrite Z.div_add. Qed.

Lemma region_attr_step s pgdir va x :
  tables_ok s pgdir → small_attr x → 0 ≤ va < wsize →
  pmem s (pde_addr pgdir va) = 0 ∨ is_Some (table_of (pmem s (pde_addr pgdir va))) →
  let info := pmm_get_page (pmem s) pgdir va in
  ∃ s1, tables_ok s1 pgdir ∧
    (if ctrue (ppn info) && ctrue (Z.land (attr info) PMM_PRESENT)
     then pmm_set_page (λ m, m) s pgdir va (Info x (ppn info)) else Some (s, 0)) = Some (s1, 0) ∧
    (∀ i, 0 ≤ i < 2048 → pmem s1 (pgdir + 4 * i) = pmem s (pgdir + 4 * i)) ∧
    ∀ va', 0 ≤ va' < wsize → pmm_get_page (pmem s1) pgdir va' =
      if decide (va' / 2 ^ 12 = va / 2 ^ 12) then with_attr x (pmm_get_page (pmem s) pgdir va')
      else pmm_get_page (pmem s) pgdir va'.
Proof.
  intros Hok Hx Hva Hpde info. unfold PMM_PRESENT. rewrite land_pow2 by done.
  assert (Hw : ∀ va', va' / 2 ^ 12 = va / 2 ^ 12 →
    with_attr x (pmm_get_page (pmem s) pgdir va') = with_attr x info).
  { intros va' E. by rewrite (get_page_number _ _ _ va E). }
  unfold with_attr in Hw. destruct (ctrue (ppn info) && Z.testbit (attr info) 31) eqn:Em.
  - assert (Ht : is_Some (table_of (pmem s (pde_addr pgdir va)))).
    { destruct Hpde as [E|]; [|done]. unfold info in Em. by rewrite get_empty in Em. }
    destruct (set_small_table (λ m, m) s pgdir va (Info x (ppn info)) Hok Hva Hx Ht)
      as (s1&E1&Hok1&Hg1&Ho1&Hd1).
    exists s1. split_and!; [done..|]. intros va' Hva'. case_decide as Hn; [|by apply Ho1].
    rewrite (get_page_number _ _ _ va Hn), Hg1. unfold with_attr. rewrite Hw by done.
    simpl. f_equal. by apply get_ppn_small.
  - exists s. split_and!; [done..|]. intros va' Hva'. case_decide as Hn; [|done].
    unfold with_attr. rewrite Hw by done. by rewrite (get_page_number _ _ _ va Hn).
Qed.

Lemma region_attr_set_spec count s pgdir va x :
  tables_ok s pgdir → small_attr x → 0 ≤ va → va + Z.of_nat count * PMM_PAGE_SIZE ≤ wsize →
  small_region (pmem s) pgdir va count →
  ∃ s', pmm_region_attr_set count s pgdir va x = Some (s', 0) ∧ tables_ok s' pgdir ∧
    ∀ va', 0 ≤ va' < wsize →
      pmm_get_page (pmem s') pgdir va' =
      if decide (va / 2 ^ 12 ≤ va' / 2 ^ 12 < va / 2 ^ 12 + Z.of_nat count)
      then with_attr x (pmm_get_page (pmem s) pgdir va')
      else pmm_get_page (pmem s) pgdir va'.
Proof.
  revert s va. induction count as [|count IH]; intros s va Hok Hx Hva Hle Hreg.
  { exists s. split_and!; [done..|]. intros va' _. rewrite decide_False by lia. done. }
  assert (Hva1 : 0 ≤ va < wsize) by (unfold PMM_PAGE_SIZE in Hle; lia).
  set (info := pmm_get_page (pmem s) pgdir va).
  assert (Hstep : ∃ s1, tables_ok s1 pgdir ∧
    (if ctrue (ppn info) && ctrue (Z.land (attr info) PMM_PRESENT)
     then pmm_set_page (λ m, m) s pgdir va (Info x (ppn info)) else Some (s, 0)) = Some (s1, 0) ∧
    (∀ i, 0 ≤ i < 2048 → pmem s1 (pgdir + 4 * i) = pmem s (pgdir + 4 * i)) ∧
    ∀ va', 0 ≤ va' < wsize → pmm_get_page (pmem s1) pgdir va' =
      if decide (va' / 2 ^ 12 = va / 2 ^ 12) then with_attr x (pmm_get_page (pmem s) pgdir va')
      else pmm_get_page (pmem s) pgdir va').
  { apply region_attr_step; [done..|]. specialize (Hreg 0 ltac:(lia)).
    by rewrite Z.mul_0_l, Z.add_0_r in Hreg. }
  destruct Hstep as (s1&Hok1&E1&Hdir1&Hg1).
  assert (Hn : 0 < Z.of_nat count → va + PMM_PAGE_SIZE < wsize) by (unfold PMM_PAGE_SIZE in *; lia).
  destruct (decide (count = 0%nat)) as [->|Hc].
  { exists s1. split_and!; [|done|].
    - cbn [pmm_region_attr_set]. fold info. rewrite E1. done.
    - intros va' Hva'. rewrite Hg1 by done. repeat case_decide; try done; lia. }
  destruct (IH s1 (va + PMM_PAGE_SIZE)) as (s'&E&Hok'&Hg'); [done|done|unfold PMM_PAGE_SIZE; lia|lia| |].
  { intros j Hj. specialize (Hreg (j + 1) ltac:(lia)).
    replace (va + (j + 1) * PMM_PAGE_SIZE) with (va + PMM_PAGE_SIZE + j * PMM_PAGE_SIZE) in Hreg by lia.
    unfold pde_addr in *. rewrite Hdir1; [done|]. apply pde_index. unfold PMM_PAGE_SIZE in *. lia. }
  exists s'. split_and!; [|done|].
  - cbn [pmm_region_attr_set]. fold info. rewrite E1. cbn [mbind option_bind].
    change PMM_HUGE with (Z.shiftl 1 30). rewrite land_pow2 by done.
    destruct Hx as [-> _]. cbv iota. rewrite (u32_small (va + PMM_PAGE_SIZE)) by (unfold PMM_PAGE_SIZE in *; lia). exact E.
  - intros va' Hva'. rewrite Hg', Hg1 by done.
    replace (va + PMM_PAGE_SIZE) with (va + 1 * PMM_PAGE_SIZE) by lia. rewrite page_of_step.
    repeat case_decide; try done; lia.
Qed.

(** ** Mapping a huge page *)

Lemma set_huge_spec env s pgdir va x p :
  tables_ok s pgdir → 0 ≤ va < wsize → huge_attr x → 0 ≤ p < 2 ^ 28 →
  pmem s (pde_addr pgdir va) = 0 →
  ∃ s', pmm_set_page env s pgdir va (Info x p) = Some (s', 0) ∧ tables_ok s' pgdir ∧
    pmem s' = wr (pmem s) (pde_addr pgdir va) (pde_huge x p) ∧
    (∀ va', 0 ≤ va' < wsize → MMU_PDE va' ≠ MMU_PDE va →
            pmm_get_page (pmem s') pgdir va' = pmm_get_page (pmem s) pgdir va').
Proof.
  intros [Hi Hd] Hva Hx Hp E0. pose proof Hx as (Hb&Hlow&H31&H30).
  destruct (pde_huge_decode x p Hx Hp) as (B31&B30&_&_).
  set (m' := wr (pmem s) (pde_addr pgdir va) (pde_huge x p)).
  assert (Hm : ∀ i, m' (pgdir + 4 * i) =
                if decide (i = MMU_PDE va) then pde_huge x p else pmem s (pgdir + 4 * i)).
  { intros i. unfold m', wr, pde_addr. case_decide; destruct (Z.eqb_spec (pgdir + 4 * i)
      (pgdir + 4 * MMU_PDE va)); done || lia. }
  assert (Ht : table_of (pde_huge x p) = None) by (unfold table_of; by rewrite B31, B30).
  exists (PState m' (palloc s)). split_and!; [| |done|].
  - unfold pmm_set_page. cbn [attr ppn].
    change PMM_CLEAR with (Z.shiftl 1 4). change PMM_COW with (Z.shiftl 1 0).
    rewrite (land_pow2 x 4), (testbit_below 22 x) by (done || lia). cbv iota.
    unfold PMM_HUGE at 1. rewrite !land_pow2, H30, !(testbit_below 22 x), E0 by (done || lia).
    by destruct (ctrue p).
  - split; [done|]. destruct Hd as [Hr Hdu He Hdt Hinj]. split; [done|done|..]; simpl.
    + intros i Hii. rewrite Hm. case_decide; [by right|by apply He].
    + intros i f Hii. rewrite Hm. case_decide; [by rewrite Ht|by apply Hdt].
    + intros i j f Hii Hj. rewrite !Hm. repeat case_decide; rewrite ?Ht; try done. by apply Hinj.
  - intros va' Hva' Hne. apply get_ext; simpl.
    + unfold pde_addr. by rewrite Hm, decide_False.
    + intros f Hf. destruct (slot_in_frame f va') as [F1 F2].
      destruct (d_table _ _ _ Hd (MMU_PDE va') f (pde_index _ Hva') Hf) as [_ Hnf].
      assert (Hw : ∀ a, in_frame a f → m' a = pmem s a).
      { intros a Ha. unfold m', wr. destruct (Z.eqb_spec a (pde_addr pgdir va)) as [->|]; [|done].
        destruct Hnf. eapply (dir_entry_frame _ _ _ (MMU_PDE va) _ Hd); [by apply pde_index|done]. }
      split; by apply Hw.
Qed.

End correctness.

(** ** The lock of a page table entry

    The end of [pmm_lock_page] run by several processors on one entry.  A thread is
    outside, has read the attributes [a] (variable [attr]), or holds the lock. *)
Module PteLock.

Inductive pc := Out | Have (a : Z) | Crit.

(** One access to the entry by a thread in the loop. *)
Definition lock_step (w : Z) (p : pc) : Z * pc :=
  match p with
  | Out => (w, Have w)
  | Have a =>
      if ctrue (Z.land a PMM_LOCKED) then (w, Have w)
      else if w =? a then (Z.lor a PMM_LOCKED, Crit) else (w, Have a)
  | Crit => (w, Crit)
  end.

Record sys := Sys { word : Z; pcs : Z → pc }.

Definition set_pc (f : Z → pc) (t : Z) (p : pc) : Z → pc := λ u, if u =? t then p else f u.

(** The holder releases by writing attributes without the lock bit: [pmm_set_page] of
    the new mapping, or [pmm_unlock_page]. *)
Inductive step : sys → sys → Prop :=
  | step_loop s t w' p' :
      pcs s t ≠ Crit → lock_step (word s) (pcs s t) = (w', p') →
      step s (Sys w' (set_pc (pcs s) t p'))
  | step_release s t v :
      pcs s t = Crit → Z.testbit v 3 = false →
      step s (Sys v (set_pc (pcs s) t Out)).

Definition initial (s : sys) : Prop := Z.testbit (word s) 3 = false ∧ ∀ t, pcs s t = Out.

Definition inv (s : sys) : Prop :=
  (∀ t u, pcs s t = Crit → pcs s u = Crit → t = u) ∧
  (∀ t, pcs s t = Crit → Z.testbit (word s) 3 = true) ∧
  (Z.testbit (word s) 3 = true → ∃ t, pcs s t = Crit).

Lemma locked_bit a : ctrue (Z.land a PMM_LOCKED) = Z.testbit a 3.
Proof. apply (land_pow2 a 3). done. Qed.

Lemma set_pc_eq f t p : set_pc f t p t = p.
Proof. unfold set_pc. by rewrite Z.eqb_refl. Qed.

Lemma set_pc_ne f t p u : u ≠ t → set_pc f t p u = f u.
Proof. unfold set_pc. by destruct (Z.eqb_spec u t). Qed.

(** A step of the loop that does not enter leaves the word and the holders alone. *)
Lemma inv_outside s t p' :
  inv s → pcs s t ≠ Crit → p' ≠ Crit → inv (Sys (word s) (set_pc (pcs s) t p')).
Proof.
  intros (Hu&Hb&He) Ht Hp. assert (Hiff : ∀ u, set_pc (pcs s) t p' u = Crit ↔ pcs s u = Crit).
  { intros u. unfold set_pc. destruct (Z.eqb_spec u t) as [->|]; [|done]. tauto. }
  split_and!; cbn [word pcs].
  - intros u v Hu1%Hiff Hv1%Hiff. by apply Hu.
  - intros u Hu1%Hiff. by eapply Hb.
  - intros Hw. destruct (He Hw) as [u Hu1]. exists u. by apply Hiff.
Qed.

Lemma step_inv_pte s s' : step s s' → inv s → inv s'.
Proof.
  intros Hs Hi. destruct Hs as [s t w' p' Ht E|s t v Ht Hv].
  - unfold lock_step in E. destruct (pcs s t) as [|a|] eqn:Ep; [| |done].
    + simplify_eq. by apply inv_outside; rewrite ?Ep.
    + rewrite locked_bit in E. destruct (Z.testbit a 3) eqn:Ea.
      { simplify_eq. by apply inv_outside; rewrite ?Ep. }
      destruct (Z.eqb_spec (word s) a) as [Ew|_]; simplify_eq; [|by apply inv_outside; rewrite ?Ep].
      destruct Hi as (_&Hb&_).
      assert (Hno : ∀ u, pcs s u ≠ Crit) by (intros u Hu%Hb; congruence).
      split_and!; cbn [word pcs].
      * intros u v. unfold set_pc.
        destruct (Z.eqb_spec u t), (Z.eqb_spec v t); intros; try congruence; by destruct (Hno u).
      * intros _ _. by rewrite Z.lor_spec, orb_true_r.
      * intros _. exists t. by rewrite set_pc_eq.
  - destruct Hi as (Hu&_&_). split_and!; cbn [word pcs].
    + intros u v0 Hu1 Hv1. unfold set_pc in *.
      destruct (Z.eqb_spec u t), (Z.eqb_spec v0 t); try done; eauto.
    + intros u. unfold set_pc. destruct (Z.eqb_spec u t); [done|]. intros Hu1.
      by rewrite (Hu u t Hu1 Ht) in *.
    + congruence.
Qed.

Lemma reachable_inv_pte s0 s : initial s0 → rtc step s0 s → inv s.
Proof.
  intros [Hw Hp] Hr. assert (inv s0) as Hi.
  { split_and!; [intros t u; by rewrite Hp|intros t; by rewrite Hp|congruence]. }
  clear Hw Hp. induction Hr as [|x y z Hxy _ IH]; [done|]. apply IH. by eapply step_inv_pte.
Qed.

End PteLock.
