(* ===== verification/PmmAlloc.v ===== *)
(** * Page tables on top of the physical pages manager

    The allocator of second-level tables ([pmm_alloc_pages] in pmm.c, through
    [kmem_alloc] of type [KMEM_PAGE]) implements the interface [FrameAllocator] with
    the managers of [PpmSystem]; then the theorems on page tables. *)

From S2P Require Import Prelude Clist Bits Page Buddy Ppm PpmSystem Pmm.

Open Scope Z_scope.

(** ** The allocator of a cluster *)

(** The managers, the cluster and the thread the kernel code runs in. *)
Record cluster_mem := ClusterMem {
  cl_managers : managers; cl_cid : Z; cl_this : Z; cl_onln : Z }.

Definition with_managers (c : cluster_mem) (m : managers) : cluster_mem :=
  ClusterMem m (cl_cid c) (cl_this c) (cl_onln c).

(** [AF_KERNEL | AF_ZERO | AF_REMOTE] *)
Definition PMM_ALLOC_FLAGS : Z := 0x550020.

(** [kmem_alloc] of one page by a thread with the memory attributes [attr], whose
    [ppm_last_cid] is [last]. *)
Definition cluster_alloc (attr last flags : Z) (c : cluster_mem)
    : option (cluster_mem * Z * option Z) :=
  '(m, last, r) ← ppm_alloc_pages (cl_this c) attr last (cl_cid c) (cl_onln c) (cl_managers c)
                    (cl_cid c) 0 flags;
  match r with
  | None => Some (with_managers c m, last, None)
  | Some (cid, b) =>
      s ← m !! cid;
      Some (with_managers c m, last, Some (ppm_page2ppn s b))
  end.

(** The page of a table, zeroed by [pmm_alloc_page].  The request has no [AF_AFFINITY]: the
    attributes of the thread are not used. *)
Definition frame_alloc (c : cluster_mem) : option (cluster_mem * option Z) :=
  '(c, _, r) ← cluster_alloc 0 0 PMM_ALLOC_FLAGS c; Some (c, r).

(** [ppm_free_pages] of the page just allocated. *)
Definition frame_free (c : cluster_mem) (ppn : Z) : option cluster_mem :=
  s ← cl_managers c !! cl_cid c;
  s ← ppm_free_pages (cl_this c) s (u32 (ppn - ppn_start s));
  Some (with_managers c (<[cl_cid c := s]> (cl_managers c))).

Definition free_page (s : ppm_s) (q : Z) : Prop := ∃ bm, ppm_ok s bm ∧ is_free bm q.

(** Free pages are not referenced, and frame numbers fit the page table entries. *)
Record frames_ok (s : ppm_s) : Prop := {
  fo_ok : ∃ bm, ppm_ok s bm;
  fo_start : 0 ≤ ppn_start s ∧ ppn_start s + pages_nr s ≤ 2 ^ 28;
  fo_size : pages_nr s ≤ 2 ^ 20;
  fo_clean q p : free_page s q → aget (pages_tbl s) q = Some p → count p = 0;
}.

Definition frame_inv (c : cluster_mem) : Prop :=
  all_ok (cl_managers c) ∧ ∃ s, cl_managers c !! cl_cid c = Some s ∧ frames_ok s.

Definition frame_used (c : cluster_mem) (f : Z) : Prop :=
  ∀ s q, cl_managers c !! cl_cid c = Some s → free_page s q → f ≠ frame_of (q + ppn_start s).

#[export] Instance ppm_frame_allocator : FrameAllocator cluster_mem := {
  fa_inv := frame_inv; fa_used := frame_used; fa_alloc := frame_alloc; fa_free := frame_free }.

Lemma free_page_iff s bm q : ppm_ok s bm → free_page s q ↔ is_free bm q.
Proof.
  intros Hok. split; [|by exists bm]. intros (bm'&Hok'&Hq). by eapply is_free_unique.
Qed.

Lemma free_page_range s q : free_page s q → 0 ≤ q < pages_nr s.
Proof.
  intros (bm&Hok&i&k&Hi&Hin).
  destruct (part_range _ _ _ _ _ (c_part _ _ (ok_core _ _ Hok)) Hi) as (?&?&?&?&?&?).
  unfold in_block in Hin. lia.
Qed.

(** Pages of one manager have different frames. *)
Lemma frame_inj s q r :
  frames_ok s → 0 ≤ q < pages_nr s → 0 ≤ r < pages_nr s →
  frame_of (q + ppn_start s) = frame_of (r + ppn_start s) → q = r.
Proof.
  intros [_ Hs Hn _] Hq Hr. unfold frame_of. intros E.
  pose proof (Z.div_mod (q + ppn_start s) (2 ^ 20) ltac:(done)).
  pose proof (Z.div_mod (r + ppn_start s) (2 ^ 20) ltac:(done)).
  assert ((q + ppn_start s) / 2 ^ 20 = (r + ppn_start s) / 2 ^ 20); [|lia].
  assert (q - r = 2 ^ 20 * ((q + ppn_start s) / 2 ^ 20 - (r + ppn_start s) / 2 ^ 20)) by lia.
  nia.
Qed.

(** A successful allocation of one page, seen from the manager. *)
Lemma frame_alloc_one c s b m :
  frames_ok s → cl_managers c !! cl_cid c = Some s →
  came_from (cl_this c) (cl_managers c) m 0 (cl_cid c) b →
  ∃ s', m = <[cl_cid c := s']> (cl_managers c) ∧ frames_ok s' ∧ ppn_start s' = ppn_start s ∧
    pages_nr s' = pages_nr s ∧ free_page s b ∧
    (∀ q, free_page s' q ↔ free_page s q ∧ q ≠ b) ∧
    ppm_do_alloc_pages (cl_this c) s 0 = Some (s', Some b).
Proof.
  intros Hf Hs (s0&s'&bm&bm'&Hs0&->&E&Hok&Hok'&[Af Ar _]). assert (s0 = s) as -> by congruence.
  exists s'.
  destruct (ppm_do_alloc_pages_spec (cl_this c) s bm 0 Hok ltac:(lia))
    as [[E' _]|(b'&s1&p&t&bm1&E'&O&Hp&Ht&_)]; rewrite E in E'; simplify_eq.
  assert (Hb : ∀ q, in_block q b' 0 ↔ q = b') by (intros q; unfold in_block; lia).
  assert (Hfree : ∀ q, free_page (upd_pages t s1) q ↔ free_page s q ∧ q ≠ b').
  { intros q. rewrite (free_page_iff _ _ _ Hok'), (free_page_iff _ _ _ Hok), Ar, Hb. done. }
  assert (Hst : ppn_start (upd_pages t s1) = ppn_start s ∧ pages_nr (upd_pages t s1) = pages_nr s).
  { destruct O as (?&?&?&->&_). done. }
  destruct Hst as [Hst Hnr]. split_and!; try done.
  - split; [by exists bm'|by rewrite Hst, Hnr; apply Hf|rewrite Hnr; apply Hf|].
    intros q p' [Hq Hne]%Hfree Hp'. simpl in Hp'.
    rewrite (aget_aset_ne _ b' q _ _ (not_eq_sym Hne) Ht) in Hp'.
    destruct (aget_orders_only _ _ _ _ O Hp') as (p0&Hp0&Hpo).
    rewrite <- (fo_clean _ Hf q p0 Hq Hp0). destruct p', p0. by simplify_eq/=.
  - apply (free_page_iff _ _ _ Hok), Af, Hb. done.
Qed.

Lemma ppn_of_page s b :
  frames_ok s → 0 ≤ b < pages_nr s →
  ppm_page2ppn s b = b + ppn_start s ∧ 0 ≤ b + ppn_start s < 2 ^ 28 ∧
  u32 (b + ppn_start s - ppn_start s) = b.
Proof.
  intros [_ Hs Hn _] Hb. unfold ppm_page2ppn. rewrite !u32_small by (unfold wsize; lia).
  split_and!; lia.
Qed.

(** The two outcomes of [cluster_alloc]. *)
Lemma cluster_alloc_cases attr last flags c s :
  all_ok (cl_managers c) → cl_managers c !! cl_cid c = Some s → frames_ok s →
  ∃ last', cluster_alloc attr last flags c = Some (with_managers c (cl_managers c), last', None) ∨
  ∃ s' b, cluster_alloc attr last flags c
          = Some (with_managers c (<[cl_cid c := s']> (cl_managers c)), last', Some (b + ppn_start s)) ∧
    frames_ok s' ∧ ppn_start s' = ppn_start s ∧ pages_nr s' = pages_nr s ∧ free_page s b ∧
    (∀ q, free_page s' q ↔ free_page s q ∧ q ≠ b) ∧
    ppm_do_alloc_pages (cl_this c) s 0 = Some (s', Some b).
Proof.
  intros Hall Hs Hf. unfold cluster_alloc.
  destruct (ppm_alloc_pages_spec (cl_this c) attr last (cl_cid c) (cl_onln c) (cl_managers c)
              (cl_cid c) 0 flags s Hall) as (m'&l'&r&->&Hr);
    [done|done|by eexists|]. cbn [mbind option_bind]. exists l'.
  destruct r as [[cid b]|]; [|left; by subst].
  destruct Hr as (Hc&Hcame&_). assert (cid = cl_cid c) as -> by tauto.
  destruct (frame_alloc_one c s b m' Hf Hs Hcame) as (s'&->&Hf'&Hst&Hnr&Hb&Hfree&E).
  right. exists s', b. rewrite lookup_insert_eq. cbn [mbind option_bind].
  rewrite <- Hst at 1.
  destruct (ppn_of_page s' b Hf') as (->&_); [rewrite Hnr; by apply free_page_range|].
  by split_and!.
Qed.

Lemma frame_alloc_cases c s :
  all_ok (cl_managers c) → cl_managers c !! cl_cid c = Some s → frames_ok s →
  frame_alloc c = Some (with_managers c (cl_managers c), None) ∨
  ∃ s' b, frame_alloc c = Some (with_managers c (<[cl_cid c := s']> (cl_managers c)),
                                Some (b + ppn_start s)) ∧
    frames_ok s' ∧ ppn_start s' = ppn_start s ∧ pages_nr s' = pages_nr s ∧ free_page s b ∧
    (∀ q, free_page s' q ↔ free_page s q ∧ q ≠ b) ∧
    ppm_do_alloc_pages (cl_this c) s 0 = Some (s', Some b).
Proof.
  intros Hall Hs Hf. unfold frame_alloc.
  destruct (cluster_alloc_cases 0 0 PMM_ALLOC_FLAGS c s Hall Hs Hf) as (l'&[->|(s'&b&->&H)]);
    [by left|right]. by exists s', b.
Qed.

(** The manager [s] of the cluster gave the page [b] and became [s']. *)
Lemma took_frame c s s' b :
  frame_inv c → cl_managers c !! cl_cid c = Some s → frames_ok s' →
  ppn_start s' = ppn_start s → free_page s b → (∀ q, free_page s' q ↔ free_page s q ∧ q ≠ b) →
  let c' := with_managers c (<[cl_cid c := s']> (cl_managers c)) in
  let ppn := b + ppn_start s in
  frame_inv c' ∧ 0 ≤ ppn < 2 ^ 28 ∧ ¬ frame_used c (frame_of ppn) ∧
  ∀ f, frame_used c' f ↔ frame_used c f ∨ f = frame_of ppn.
Proof.
  intros (Hall&s0&Hs0&Hf) Hs Hf' Hst Hb Hfree c' ppn. assert (s0 = s) as -> by congruence.
  pose proof (free_page_range _ _ Hb) as Hbr.
  destruct (ppn_of_page s b Hf Hbr) as (_&Hppn&_). split; [split|split; [done|split]].
  - destruct (fo_ok _ Hf') as [bm' Hok']. by eapply all_ok_insert.
  - exists s'. split; [apply lookup_insert_eq|done].
  - intros Hu. by apply (Hu s b Hs Hb).
  - intros f. split.
    + intros Hu. destruct (decide (f = frame_of (b + ppn_start s))) as [->|Hne]; [by right|].
      left. intros s1 q Hs1 Hq. assert (s1 = s) as -> by congruence.
      destruct (decide (q = b)) as [->|Hqb]; [done|].
      rewrite <- Hst. apply (Hu s' q); [apply lookup_insert_eq|]. by apply Hfree.
    + intros Hu s1 q Hs1 Hq. cbn [c' with_managers cl_managers cl_cid] in Hs1.
      rewrite lookup_insert_eq in Hs1. simplify_eq.
      apply Hfree in Hq as [Hq Hqb]. rewrite Hst. destruct Hu as [Hu| ->]; [by apply Hu|].
      intros E. apply Hqb. symmetry.
      apply (frame_inj s b q Hf Hbr (free_page_range _ _ Hq) E).
Qed.

Lemma frame_alloc_fresh c :
  frame_inv c →
  ∃ c' r, frame_alloc c = Some (c', r) ∧ frame_inv c' ∧
    match r with
    | None => ∀ f, frame_used c' f ↔ frame_used c f
    | Some ppn =>
        0 ≤ ppn < 2 ^ 28 ∧ ¬ frame_used c (frame_of ppn) ∧
        ∀ f, frame_used c' f ↔ frame_used c f ∨ f = frame_of ppn
    end.
Proof.
  intros Hi. pose proof Hi as (Hall&s&Hs&Hf).
  destruct (frame_alloc_cases c s Hall Hs Hf) as [->|(s'&b&->&Hf'&Hst&_&Hb&Hfree&_)];
    eexists _, _; (split; [reflexivity|]); [by destruct c|].
  apply (took_frame c s s' b Hi Hs Hf' Hst Hb Hfree).
Qed.

Lemma frame_alloc_free c c' ppn :
  frame_inv c → frame_alloc c = Some (c', Some ppn) →
  ∃ c'', frame_free c' ppn = Some c'' ∧ frame_inv c'' ∧ ∀ f, frame_used c'' f ↔ frame_used c f.
Proof.
  intros (Hall&s&Hs&Hf) E.
  destruct (frame_alloc_cases c s Hall Hs Hf)
    as [E'|(s'&b&E'&Hf'&Hst&Hnr&Hb&Hfree&Ea)]; rewrite E in E'; [done|].
  injection E' as -> ->. pose proof (free_page_range _ _ Hb) as Hbr.
  destruct (ppn_of_page s b Hf Hbr) as (_&Hppn&Hidx).
  destruct (fo_ok _ Hf) as [bm Hok].
  destruct (ppm_alloc_free_spec (cl_this c) s bm 0 b s' Hok ltac:(lia) Ea)
    as (s2&bm2&E2&Hok2&Hfree2&_&Hst2&Hnr2&Hcnt2).
  { intros p Hp. by eapply (fo_clean _ Hf). }
  assert (Hfp : ∀ q, free_page s2 q ↔ free_page s q).
  { intros q. by rewrite (free_page_iff _ _ _ Hok2), (free_page_iff _ _ _ Hok), Hfree2. }
  exists (with_managers c (<[cl_cid c := s2]> (cl_managers c))). split; [|split; [split|]].
  - unfold frame_free. cbn [with_managers cl_managers cl_cid cl_this].
    rewrite lookup_insert_eq. cbn [mbind option_bind].
    rewrite Hst, Hidx, E2. cbn [mbind option_bind]. by rewrite insert_insert_eq.
  - by eapply all_ok_insert.
  - exists s2. split; [apply lookup_insert_eq|].
    split; [by exists bm2|rewrite Hst2, Hnr2; apply Hf|rewrite Hnr2; apply Hf|].
    intros q p Hq%Hfp Hp. destruct (Hcnt2 q p Hp) as (p0&Hp0&->). by eapply (fo_clean _ Hf).
  - intros f. split; intros Hu s0 q Hs0 Hq; cbn [with_managers cl_managers cl_cid] in *.
    + assert (s0 = s) as -> by congruence.
      rewrite <- Hst2. apply (Hu s2 q); [apply lookup_insert_eq|by apply Hfp].
    + rewrite lookup_insert_eq in Hs0. simplify_eq.
      rewrite Hst2. apply Hu; [done|by apply Hfp].
Qed.

#[export] Instance ppm_frame_allocator_laws : FrameAllocatorLaws cluster_mem := {
  fa_alloc_law := frame_alloc_fresh; fa_free_law := frame_alloc_free }.

(** ** Theorems *)

(** C19. Mapping a small page.  On a well-formed directory [pmm_set_page] never faults: it
    either maps exactly the page asked, with the attributes and the frame given, and
    leaves every other translation as it was, or it runs out of memory and changes no
    memory; in both cases the directory stays well formed.  Other processors may
    install a table in the same directory entry at the same time. *)
Theorem pmm_set_page_maps {A} `{FrameAllocatorLaws A} env (s : pstate A) pgdir va info :
  tables_ok s pgdir → env_ok env s pgdir → 0 ≤ va < wsize → small_attr (attr info) →
  pmem s (pde_addr pgdir va) = 0 ∨ is_Some (table_of (pmem s (pde_addr pgdir va))) →
  ∃ s' err, pmm_set_page env s pgdir va info = Some (s', err) ∧ tables_ok s' pgdir ∧
    ((err = 0 ∧
      ∀ va', 0 ≤ va' < wsize →
        pmm_get_page (pmem s') pgdir va' =
        if decide (va' / 2 ^ 12 = va / 2 ^ 12) then Info (attr info) (ppn info mod 2 ^ 28)
        else pmm_get_page (pmem s) pgdir va') ∨
     (err = ENOMEM ∧ pmem s' = pmem s)).
Proof.
  intros Hok Henv Hva Hx [E0|Ht].
  - destruct (set_small_empty env s pgdir va info Hok Henv Hva Hx E0)
      as (s'&err&E&Hok'&[(->&Hg&Ho)|Herr]); exists s', err || exists s', 0;
      (split; [done|]); (split; [done|]); [left|by right].
    split; [done|]. intros va' Hva'. case_decide as Hn; [|by apply Ho].
    by rewrite (get_page_number _ _ _ va Hn).
  - destruct (set_small_table env s pgdir va info Hok Hva Hx Ht) as (s'&E&Hok'&Hg&Ho&_).
    exists s', 0. split; [done|]. split; [done|]. left.
    split; [done|]. intros va' Hva'. case_decide as Hn; [|by apply Ho].
    by rewrite (get_page_number _ _ _ va Hn).
Qed.

(** The memory of [ex_full] with page 5 free, and a directory in frames 8 to 11. *)
Definition ex_cluster (s : ppm_s) : cluster_mem := ClusterMem {[0 := s]} 0 0 1.
Definition ex_dir : Z := 0x8000.

Lemma ex_cluster_ok :
  ∃ s, tables_ok (PState (λ _, 0) (ex_cluster s)) ex_dir ∧
       ∀ f, f ≠ 5 → fa_used (ex_cluster s) f.
Proof.
  destruct (ppm_free_pages_nolock_spec 0 ex_full (all_used 512) 5 0 (page_init 0))
    as (t&s&bm&_&Hok&_&Hfree&Ht&O); [apply ex_full_ok|by apply all_used_lookup|done|by right; right|].
  exists s.
  assert (Hst : ppn_start s = 0 ∧ pages_nr s = 512)
    by (destruct O as (?&?&?&->&_); split; reflexivity).
  destruct Hst as [Hst Hnr].
  assert (Hfp : ∀ q, free_page s q → q = 5).
  { intros q Hq. apply (free_page_iff _ _ _ Hok) in Hq.
    apply Hfree in Hq as [[]%all_used_not_free|Hq]. unfold in_block in Hq. lia. }
  assert (Hused : ∀ f, f ≠ 5 → fa_used (ex_cluster s) f).
  { intros f Hf s' q. cbn [ex_cluster cl_managers].
    intros [_ <-]%lookup_singleton_Some Hq%Hfp. subst q. by rewrite Hst. }
  split; [split; [split|split]|exact Hused]; cbn [pmem palloc].
  - intros c s'. cbn [ex_cluster cl_managers].
    intros [_ <-]%lookup_singleton_Some. by exists bm.
  - exists s. split; [done|]. split; [by exists bm|rewrite Hst, Hnr; done|by rewrite Hnr|].
    intros q p Hq%Hfp Hp. subst q. destruct (aget_orders_only _ _ _ _ O Hp) as (p0&Hp0&Hpo).
    simpl in Hp0. rewrite (aget_aset_eq _ _ _ _ Ht) in Hp0. simplify_eq.
    destruct p. by simplify_eq/=.
  - unfold ex_dir. split; [done|]. split; [done|]. by exists 8.
  - intros f Hf. apply Hused. unfold dir_frame, ex_dir, PMM_PAGE_SIZE in Hf. lia.
  - by left.
  - done.
  - done.
Qed.

Lemma pmm_set_page_maps_witness :
  ∃ s, tables_ok (PState (λ _, 0) (ex_cluster s)) ex_dir ∧
  ∃ s' err, pmm_set_page (λ m, m) (PState (λ _, 0) (ex_cluster s)) ex_dir 0x403000
              (Info 0x8C000000 0x77) = Some (s', err) ∧ tables_ok s' ex_dir ∧
    ((err = 0 ∧
      ∀ va', 0 ≤ va' < wsize →
        pmm_get_page (pmem s') ex_dir va' =
        if decide (va' / 2 ^ 12 = 0x403000 / 2 ^ 12) then Info 0x8C000000 (0x77 mod 2 ^ 28)
        else pmm_get_page (λ _, 0) ex_dir va') ∨
     (err = ENOMEM ∧ pmem s' = (λ _, 0))).
Proof.
  destruct ex_cluster_ok as (s&Hok&_). exists s. split; [exact Hok|].
  apply (pmm_set_page_maps (λ m, m) (PState (λ _, 0) (ex_cluster s)) ex_dir 0x403000
           (Info 0x8C000000 0x77) Hok (env_id _ _ Hok)).
  - done.
  - by split.
  - by left.
Defined.

(** Mapping a huge page in an empty directory entry whose frame lies below 4 GB: every
    address of the 2 MB region is translated to the corresponding frame with the
    attributes given, the other translations are untouched. *)
Theorem pmm_set_huge_maps {A} `{FrameAllocatorLaws A} env (s : pstate A) pgdir va x p :
  tables_ok s pgdir → 0 ≤ va < wsize → huge_attr x → 0 ≤ p < 2 ^ 20 → p mod 2 ^ 9 = 0 →
  pmem s (pde_addr pgdir va) = 0 →
  ∃ s', pmm_set_page env s pgdir va (Info x p) = Some (s', 0) ∧ tables_ok s' pgdir ∧
    ∀ va', 0 ≤ va' < wsize →
      pmm_get_page (pmem s') pgdir va' =
      if decide (MMU_PDE va' = MMU_PDE va) then Info x (p + (va' mod 2 ^ 21) / 2 ^ 12)
      else pmm_get_page (pmem s) pgdir va'.
Proof.
  intros Hok Hva Hx Hp Hal E0.
  destruct (set_huge_spec env s pgdir va x p Hok Hva Hx ltac:(lia) E0) as (s'&E&Hok'&Em&Ho).
  exists s'. split; [done|]. split; [done|]. intros va' Hva'. case_decide as Hn; [|by apply Ho].
  rewrite (get_huge _ _ _ x p Hx); [|lia|done|lia|].
  - by rewrite (Z.mod_small p) by done.
  - rewrite Em. unfold wr, pde_addr. by rewrite Hn, Z.eqb_refl.
Qed.

Lemma pmm_set_huge_maps_witness :
  ∃ s, tables_ok (PState (λ _, 0) (ex_cluster s)) ex_dir ∧
  ∃ s', pmm_set_page (λ m, m) (PState (λ _, 0) (ex_cluster s)) ex_dir 0x400000
          (Info 0xCC000000 0x200) = Some (s', 0) ∧ tables_ok s' ex_dir ∧
    ∀ va', 0 ≤ va' < wsize →
      pmm_get_page (pmem s') ex_dir va' =
      if decide (MMU_PDE va' = MMU_PDE 0x400000)
      then Info 0xCC000000 (0x200 + (va' mod 2 ^ 21) / 2 ^ 12)
      else pmm_get_page (λ _, 0) ex_dir va'.
Proof.
  destruct ex_cluster_ok as (s&Hok&_). exists s. split; [exact Hok|].
  by apply (pmm_set_huge_maps (λ m, m) (PState (λ _, 0) (ex_cluster s)) ex_dir 0x400000
              0xCC000000 0x200 Hok).
Defined.

(** The frame number of a huge page does not survive when it needs more than 20 bits,
    as in every cluster but the first: [pmm_get_page] shifts it in 32 bits and returns
    another frame than the one [pmm_set_page] was given. *)
Theorem pmm_huge_frame_truncated {A} `{FrameAllocatorLaws A} env (s : pstate A) pgdir va x p :
  tables_ok s pgdir → 0 ≤ va < wsize → huge_attr x → 2 ^ 20 ≤ p < 2 ^ 28 → p mod 2 ^ 9 = 0 →
  pmem s (pde_addr pgdir va) = 0 →
  ∃ s', pmm_set_page env s pgdir va (Info x p) = Some (s', 0) ∧
    ppn (pmm_get_page (pmem s') pgdir va) = p mod 2 ^ 20 + (va mod 2 ^ 21) / 2 ^ 12 ∧
    ppn (pmm_get_page (pmem s') pgdir va) ≠ p + (va mod 2 ^ 21) / 2 ^ 12.
Proof.
  intros Hok Hva Hx Hp Hal E0.
  destruct (set_huge_spec env s pgdir va x p Hok Hva Hx ltac:(lia) E0) as (s'&E&Hok'&Em&Ho).
  exists s'. split; [done|]. rewrite (get_huge _ _ _ x p Hx); [|lia|done|lia|].
  - simpl. split; [done|]. pose proof (Z.mod_pos_bound p (2 ^ 20) ltac:(done)). lia.
  - rewrite Em. unfold wr. by rewrite Z.eqb_refl.
Qed.

Lemma pmm_huge_frame_truncated_witness :
  ∃ s, tables_ok (PState (λ _, 0) (ex_cluster s)) ex_dir ∧
  ∃ s', pmm_set_page (λ m, m) (PState (λ _, 0) (ex_cluster s)) ex_dir 0x400000
          (Info 0xCC000000 0x100200) = Some (s', 0) ∧
    ppn (pmm_get_page (pmem s') ex_dir 0x400000)
      = 0x100200 mod 2 ^ 20 + (0x400000 mod 2 ^ 21) / 2 ^ 12 ∧
    ppn (pmm_get_page (pmem s') ex_dir 0x400000) ≠ 0x100200 + (0x400000 mod 2 ^ 21) / 2 ^ 12.
Proof.
  destruct ex_cluster_ok as (s&Hok&_). exists s. split; [exact Hok|].
  by apply (pmm_huge_frame_truncated (λ m, m) (PState (λ _, 0) (ex_cluster s)) ex_dir 0x400000
              0xCC000000 0x100200 Hok).
Defined.

(** Changing the attributes of a region of small pages: every mapped page of the region
    gets the new attributes and keeps its frame, the pages that are not mapped and the
    pages outside the region are untouched, and no memory is needed. *)
Theorem pmm_region_attr_set_correct {A} `{FrameAllocatorLaws A} count (s : pstate A) pgdir va x :
  tables_ok s pgdir → small_attr x → 0 ≤ va → va + Z.of_nat count * PMM_PAGE_SIZE ≤ wsize →
  small_region (pmem s) pgdir va count →
  ∃ s', pmm_region_attr_set count s pgdir va x = Some (s', 0) ∧ tables_ok s' pgdir ∧
    ∀ va', 0 ≤ va' < wsize →
      pmm_get_page (pmem s') pgdir va' =
      if decide (va / 2 ^ 12 ≤ va' / 2 ^ 12 < va / 2 ^ 12 + Z.of_nat count)
      then with_attr x (pmm_get_page (pmem s) pgdir va')
      else pmm_get_page (pmem s) pgdir va'.
Proof. apply region_attr_set_spec. Qed.

Lemma pmm_region_attr_set_correct_witness :
  ∃ s, tables_ok (PState (λ _, 0) (ex_cluster s)) ex_dir ∧
  ∃ s', pmm_region_attr_set 3 (PState (λ _, 0) (ex_cluster s)) ex_dir 0x5000 0x84000000
        = Some (s', 0) ∧ tables_ok s' ex_dir ∧
    ∀ va', 0 ≤ va' < wsize →
      pmm_get_page (pmem s') ex_dir va' =
      if decide (0x5000 / 2 ^ 12 ≤ va' / 2 ^ 12 < 0x5000 / 2 ^ 12 + Z.of_nat 3)
      then with_attr 0x84000000 (pmm_get_page (λ _, 0) ex_dir va')
      else pmm_get_page (λ _, 0) ex_dir va'.
Proof.
  destruct ex_cluster_ok as (s&Hok&_). exists s. split; [exact Hok|].
  apply (pmm_region_attr_set_correct 3 (PState (λ _, 0) (ex_cluster s)) ex_dir 0x5000 0x84000000
           Hok).
  - by split.
  - done.
  - done.
  - intros j Hj. by left.
Defined.

(** C35. Unlocking an entry wipes it: [pmm_unlock_page] masks the attributes with
    [!PMM_LOCKED], which is 0, instead of [~PMM_LOCKED].  Whatever was mapped when the
    entry was locked is not present any more after the unlock. *)
Theorem pmm_unlock_wipes {A} `{FrameAllocatorLaws A} (s : pstate A) pgdir va f s1 info :
  tables_ok s pgdir → 0 ≤ va < wsize → table_of (pmem s (pde_addr pgdir va)) = Some f →
  pmm_lock_take s (slot f va) = Some (s1, info) →
  ∃ s2 info', pmm_unlock_page s1 (slot f va) = Some (s2, info') ∧
    attr info = attr (pmm_get_page (pmem s) pgdir va) ∧
    attr (pmm_get_page (pmem s2) pgdir va) = 0.
Proof.
  intros [_ Hd] Hva Ht E. unfold pmm_lock_take in E. rewrite PteLock.locked_bit in E.
  destruct (Z.testbit (pmem s (slot f va)) 3) eqn:Eb; [done|]. injection E as <- <-.
  unfold pmm_unlock_page. cbn [pmem palloc]. rewrite PteLock.locked_bit.
  assert (Ew : wr (pmem s) (slot f va) (Z.lor (pmem s (slot f va)) PMM_LOCKED) (slot f va)
               = Z.lor (pmem s (slot f va)) PMM_LOCKED) by (unfold wr; by rewrite Z.eqb_refl).
  rewrite Ew, Z.lor_spec, orb_true_r. eexists _, _. split; [reflexivity|]. cbn [pmem attr].
  rewrite (get_small _ _ _ f Ht). split; [done|].
  destruct (slot_in_frame f va) as [F _].
  destruct (d_table _ _ _ Hd (MMU_PDE va) f (pde_index _ Hva) Ht) as [_ Hnf].
  assert (Hpde : slot f va ≠ pde_addr pgdir va).
  { intros E. apply Hnf. rewrite E in F.
    eapply (dir_entry_frame _ _ _ (MMU_PDE va) _ Hd); [by apply pde_index|done]. }
  rewrite (get_small _ _ _ f); cbn [attr]; unfold wr.
  - rewrite Z.eqb_refl. apply Z.land_0_r.
  - destruct (Z.eqb_spec (pde_addr pgdir va) (slot f va)); [congruence|].
    by destruct (Z.eqb_spec (pde_addr pgdir va) (slot f va)).
Qed.

(** A directory whose entry 2 points to a table in frame 12 with one page mapped. *)
Definition ex_mapped : memory :=
  wr (wr (wr (λ _, 0) (ex_dir + 8) (pde_table 12)) (12 * 0x1000 + 24) 0x8C000000)
     (12 * 0x1000 + 28) 0x77.

Lemma ex_mapped_table i :
  ex_mapped (ex_dir + 4 * i) = if decide (i = 2) then pde_table 12 else
    if decide (i = 0x1006) then 0x8C000000 else if decide (i = 0x1007) then 0x77 else 0.
Proof.
  unfold ex_mapped, wr, ex_dir. repeat case_decide;
    repeat (match goal with |- context [?a =? ?b] => destruct (Z.eqb_spec a b) end); lia || done.
Qed.

Lemma ex_mapped_ok :
  ∃ s, tables_ok (PState ex_mapped (ex_cluster s)) ex_dir.
Proof.
  destruct ex_cluster_ok as (s&[Hi Hd]&Hused). exists s. split; [exact Hi|].
  destruct Hd as [Hr Hu _ _ _]. cbn [pmem palloc] in *.
  pose proof (Hused 12 ltac:(lia)) as Hu12.
  assert (Hdir12 : ¬ dir_frame ex_dir 12) by (unfold dir_frame, ex_dir, PMM_PAGE_SIZE; lia).
  assert (Htab : ∀ i f, 0 ≤ i < 2048 → table_of (ex_mapped (ex_dir + 4 * i)) = Some f →
                        i = 2 ∧ f = 12).
  { intros i f Hi' Hf. rewrite ex_mapped_table in Hf.
    repeat case_decide; [|lia|lia|done]. vm_compute in Hf. by simplify_eq. }
  split; [done|done|..].
  - intros i Hi'. rewrite ex_mapped_table. repeat case_decide; [by right|lia|lia|by left].
  - intros i f Hi' Hf. destruct (Htab i f Hi' Hf) as [_ ->]. done.
  - intros i j f Hi' Hj Hf Hg. destruct (Htab i f Hi' Hf) as [-> _], (Htab j f Hj Hg) as [-> _].
    done.
Qed.

Lemma pmm_unlock_wipes_witness :
  ∃ s, tables_ok (PState ex_mapped (ex_cluster s)) ex_dir ∧
  ∃ s1 s2 info info',
    pmm_lock_take (PState ex_mapped (ex_cluster s)) (slot 12 0x403000) = Some (s1, info) ∧
    pmm_unlock_page s1 (slot 12 0x403000) = Some (s2, info') ∧
    attr info = attr (pmm_get_page ex_mapped ex_dir 0x403000) ∧
    attr (pmm_get_page (pmem s2) ex_dir 0x403000) = 0 ∧
    attr (pmm_get_page ex_mapped ex_dir 0x403000) = 0x8C000000.
Proof.
  destruct ex_mapped_ok as (s&Hok). exists s. split; [exact Hok|].
  destruct (pmm_unlock_wipes (PState ex_mapped (ex_cluster s)) ex_dir 0x403000 12
              (PState (wr ex_mapped (slot 12 0x403000) 0x8C000008) (ex_cluster s))
              (Info 0x8C000000 0x77) Hok) as (s2&i2&E2&Ha&Hw); [done|done|reflexivity|].
  eexists _, s2, _, i2. split; [reflexivity|]. split; [exact E2|]. split; [exact Ha|].
  split; [exact Hw|]. by vm_compute.
Defined.

(** C34. Mutual exclusion on a page table entry: whatever processors run [pmm_lock_page] on
    it, at most one of them holds it, and the lock bit is set exactly then. *)
Theorem pte_lock_exclusive w s :
  Z.testbit w 3 = false → rtc PteLock.step (PteLock.Sys w (λ _, PteLock.Out)) s →
  (∀ t u, PteLock.pcs s t = PteLock.Crit → PteLock.pcs s u = PteLock.Crit → t = u) ∧
  (Z.testbit (PteLock.word s) 3 = true ↔ ∃ t, PteLock.pcs s t = PteLock.Crit).
Proof.
  intros Hw Hr.
  assert (Hi : PteLock.initial (PteLock.Sys w (λ _, PteLock.Out))) by (by split).
  destruct (PteLock.reachable_inv_pte _ _ Hi Hr) as (H1&H2&H3). split; [done|]. split; [done|]. intros [t Ht]. by eapply H2.
Qed.

(** Two threads fault on the same unmapped page: 1 reads the entry, 2 takes the lock. *)
Definition ex_race : PteLock.sys :=
  PteLock.Sys (Z.lor 0 PMM_LOCKED)
    (PteLock.set_pc (PteLock.set_pc (PteLock.set_pc (λ _, PteLock.Out) 1 (PteLock.Have 0))
       2 (PteLock.Have 0)) 2 PteLock.Crit).

Lemma ex_race_reachable :
  rtc PteLock.step (PteLock.Sys 0 (λ _, PteLock.Out)) ex_race.
Proof.
  eapply rtc_l; [by apply (PteLock.step_loop _ 1 0 (PteLock.Have 0))|].
  eapply rtc_l; [by apply (PteLock.step_loop _ 2 0 (PteLock.Have 0))|].
  eapply rtc_l; [by apply (PteLock.step_loop _ 2 (Z.lor 0 PMM_LOCKED) PteLock.Crit)|].
  apply rtc_refl.
Qed.

Lemma pte_lock_exclusive_witness :
  rtc PteLock.step (PteLock.Sys 0 (λ _, PteLock.Out)) ex_race ∧
  (∀ t u, PteLock.pcs ex_race t = PteLock.Crit → PteLock.pcs ex_race u = PteLock.Crit → t = u) ∧
  (Z.testbit (PteLock.word ex_race) 3 = true ↔ ∃ t, PteLock.pcs ex_race t = PteLock.Crit).
Proof.
  split; [apply ex_race_reachable|].
  apply (pte_lock_exclusive 0 ex_race eq_refl ex_race_reachable).
Defined.

(** After thread 2 has mapped the page, thread 1 spins for ever although the lock is
    free: its compare-and-swap expects the attributes read before, and the loop of
    [pmm_lock_page] only reads them again while the old value has the lock bit. *)
Theorem pmm_lock_page_livelock v :
  v ≠ 0 → Z.testbit v 3 = false →
  ∃ s, rtc PteLock.step (PteLock.Sys 0 (λ _, PteLock.Out)) s ∧ PteLock.word s = v ∧
    (∀ t, PteLock.pcs s t ≠ PteLock.Crit) ∧ PteLock.pcs s 1 = PteLock.Have 0 ∧
    PteLock.lock_step (PteLock.word s) (PteLock.pcs s 1) = (PteLock.word s, PteLock.pcs s 1).
Proof.
  intros Hv Hb. exists (PteLock.Sys v (PteLock.set_pc (PteLock.pcs ex_race) 2 PteLock.Out)).
  split_and!; [|done| |done|].
  - eapply rtc_r; [apply ex_race_reachable|]. by apply (PteLock.step_release ex_race 2 v).
  - intros t. cbn. unfold PteLock.set_pc.
    destruct (Z.eqb_spec t 2); [done|]. by destruct (Z.eqb_spec t 1).
  - cbn. by destruct (Z.eqb_spec v 0).
Qed.

Lemma pmm_lock_page_livelock_witness :
  ∃ s, rtc PteLock.step (PteLock.Sys 0 (λ _, PteLock.Out)) s ∧ PteLock.word s = 0x8C000000 ∧
    (∀ t, PteLock.pcs s t ≠ PteLock.Crit) ∧ PteLock.pcs s 1 = PteLock.Have 0 ∧
    PteLock.lock_step (PteLock.word s) (PteLock.pcs s 1) = (PteLock.word s, PteLock.pcs s 1).
Proof. by apply (pmm_lock_page_livelock 0x8C000000). Defined.
