(* ===== verification/Cow.v ===== *)
(** * Page faults and fork (src/kernel/mm/vmm.c, vm_region.c, ppn.c)

    The pages of private anonymous regions: a page is allocated by the first fault on it
    ([vmm_do_aod]), shared with the child by fork ([vm_region_dup]), copied by the first write
    of one of its owners ([vmm_do_cow]), marked to be migrated ([vmm_madvise_migrate]) and taken
    back by the next fault ([vmm_do_migrate]), and released with its region
    ([vm_region_unmap]).  The page tables are those of [Pmm]; physical pages are counted by an
    allocator known by its interface [PageRefs].  The code runs in one cluster; statistics and
    TLB operations are left out.  A fault or a failed assertion is [None]. *)

From S2P Require Import Prelude Bits Page Pmm VmRegion.

Open Scope Z_scope.

(** ** Constants *)

Definition PMM_MIGRATE : Z := 0x02.

Definition pmm_except_isWrite (flags : Z) : bool := Z.land flags 0x1000 =? 0.
Definition pmm_except_isExecute (flags : Z) : bool := ctrue (Z.land flags 0x0010).
Definition pmm_except_isPresent (flags : Z) : bool := ctrue (Z.land flags 0x0003).
Definition pmm_except_isRights (flags : Z) : bool := ctrue (Z.land flags 0x0004).

(** ** Counted pages *)

(** What the fault handlers need of the physical pages manager: [pr_alloc] is [kmem_alloc] of a
    page with [AF_PGFAULT], [pr_page] gives the reference count and the mapper of a page,
    [pr_anon] clears the mapper, [pr_up] and [pr_down] are [ppn_refcount_up] and
    [ppn_refcount_down], and [pr_down] is [kmem_free] of a page too.  Pages are physical page
    numbers; [pr_held] are the pages allocated to users. *)
Class PageRefs (A : Type) `{FrameAllocator A} := {
  pr_held : A → Z → Prop;
  pr_local : A → Z → bool;
  pr_page : A → Z → option (Z * Z);
  pr_alloc : A → option (A * option Z);
  pr_anon : A → Z → option A;
  pr_up : A → Z → option A;
  pr_down : A → Z → option A;
}.

(** The pages that satisfy [P] stay allocated, with the count and mapper they have. *)
Definition pages_kept {A} `{PageRefs A} (P : Z → Prop) (a a' : A) : Prop :=
  ∀ q, P q → pr_held a q → pr_held a' q ∧ pr_page a' q = pr_page a q.

Class PageRefsLaws (A : Type) `{PageRefs A} := {
  pr_held_law a p :
    fa_inv a → pr_held a p →
    0 < p < 2 ^ 28 ∧ fa_used a (frame_of p) ∧ pr_local a p = true ∧
    ∃ c m, pr_page a p = Some (c, m) ∧ 1 ≤ c < wsize;
  pr_inj_law a p q :
    fa_inv a → pr_held a p → pr_held a q → frame_of p = frame_of q → p = q;
  pr_table_law a a' r :
    fa_inv a → fa_alloc a = Some (a', r) → pages_kept (λ _, True) a a';
  pr_alloc_law a :
    fa_inv a →
    ∃ a' r, pr_alloc a = Some (a', r) ∧ fa_inv a' ∧ pages_kept (λ _, True) a a' ∧
      match r with
      | None => ∀ f, fa_used a' f ↔ fa_used a f
      | Some p =>
          ¬ fa_used a (frame_of p) ∧ (∀ f, fa_used a' f ↔ fa_used a f ∨ f = frame_of p) ∧
          pr_held a' p ∧ ∃ m, pr_page a' p = Some (1, m)
      end;
  pr_anon_law a p c m :
    fa_inv a → pr_held a p → pr_page a p = Some (c, m) →
    ∃ a', pr_anon a p = Some a' ∧ fa_inv a' ∧ (∀ f, fa_used a' f ↔ fa_used a f) ∧
      pages_kept (λ q, q ≠ p) a a' ∧ pr_held a' p ∧ pr_page a' p = Some (c, 0);
  pr_up_law a p c m :
    fa_inv a → pr_held a p → pr_page a p = Some (c, m) → c + 1 < wsize →
    ∃ a', pr_up a p = Some a' ∧ fa_inv a' ∧ (∀ f, fa_used a' f ↔ fa_used a f) ∧
      pages_kept (λ q, q ≠ p) a a' ∧ pr_held a' p ∧ pr_page a' p = Some (c + 1, m);
  pr_down_law a p c m :
    fa_inv a → pr_held a p → pr_page a p = Some (c, m) →
    ∃ a', pr_down a p = Some a' ∧ fa_inv a' ∧ pages_kept (λ q, q ≠ p) a a' ∧
      if 1 <? c
      then (∀ f, fa_used a' f ↔ fa_used a f) ∧ pr_held a' p ∧ pr_page a' p = Some (c - 1, m)
      else ∀ f, fa_used a' f ↔ fa_used a f ∧ f ≠ frame_of p;
}.

(** ** Operations *)

Section operations.
Context {A : Type} `{PageRefs A}.
Implicit Types (s : pstate A) (pgdir vaddr : Z).

(** The memory is that of the cluster: [ppn_copy] between its pages. *)
Definition copy_frame (m : memory) (dst src : Z) : memory :=
  λ a, if (dst * PMM_PAGE_SIZE <=? a) && (a <? dst * PMM_PAGE_SIZE + PMM_PAGE_SIZE)
       then m (a - dst * PMM_PAGE_SIZE + src * PMM_PAGE_SIZE) else m a.

Definition ppn_copy s (dest src : Z) : option (pstate A) :=
  if pr_local (palloc s) dest && pr_local (palloc s) src
  then Some (PState (copy_frame (pmem s) (frame_of dest) (frame_of src)) (palloc s))
  else None.

Definition ppn_refcount_up s (ppn : Z) : option (pstate A) :=
  a ← pr_up (palloc s) ppn; Some (PState (pmem s) a).
Definition ppn_refcount_down s (ppn : Z) : option (pstate A) :=
  a ← pr_down (palloc s) ppn; Some (PState (pmem s) a).

(** [kmem_alloc] of a page for a fault, and the assignment of [NULL] to its mapper;
    [zero] is [AF_ZERO]. *)
Definition new_page s (zero : bool) : option (pstate A * option Z) :=
  '(a, r) ← pr_alloc (palloc s);
  match r with
  | None => Some (PState (pmem s) a, None)
  | Some page =>
      a ← pr_anon a page;
      Some (PState (if zero then zero_frame (pmem s) (frame_of page) else pmem s) a, Some page)
  end.

(** No other thread changes the page table between two steps. *)
Abbreviation set_page := (pmm_set_page (λ m : memory, m)).

(** [pmm_lock_page]: the entry and its address. *)
Definition pmm_lock_page s pgdir vaddr : option (pstate A * (Z + page_info * Z)) :=
  '(s, r) ← pmm_lock_entry (λ m, m) s pgdir vaddr;
  match r with
  | inl err => Some (s, inl err)
  | inr pte => '(s, info) ← pmm_lock_take s pte; Some (s, inr (info, pte))
  end.

(** The page is local, anonymous and nobody else refers to it. *)
Definition last_owner s (ppn : Z) : option bool :=
  if pr_local (palloc s) ppn then
    '(count, mapper) ← pr_page (palloc s) ppn;
    Some ((mapper =? 0) && (count =? 1))
  else Some false.

(** [vmm_do_cow] for a region with the page attributes [pgprot].  The entry that could not be
    locked is unlocked through a pointer that was never set. *)
Definition vmm_do_cow s pgdir (pgprot vaddr : Z) : option (pstate A * Z) :=
  '(s, r) ← pmm_lock_page s pgdir vaddr;
  match r with
  | inl _ => None
  | inr (old, pte) =>
      if negb (ctrue (Z.land (attr old) PMM_COW)) then
        '(s, _) ← pmm_unlock_page s pte; Some (s, 0)
      else
      reuse ← last_owner s (ppn old);
      '(s, newpage) ← (if reuse then Some (s, Some (ppn old)) else new_page s false);
      match newpage with
      | None => '(s, _) ← pmm_unlock_page s pte; Some (s, ENOMEM)
      | Some page =>
          s ← (if reuse then Some s else ppn_copy s page (ppn old));
          let attr := Z.land (Z.lor pgprot PMM_WRITE) (Z.lnot (Z.lor PMM_COW PMM_MIGRATE)) in
          '(s, err) ← set_page s pgdir vaddr (Info attr page);
          if ctrue err then
            '(s, _) ← pmm_unlock_page s pte;
            s ← (if (reuse : bool) then None else ppn_refcount_down s page);
            Some (s, err)
          else
          s ← (if (reuse : bool) then Some s else ppn_refcount_down s (ppn old));
          Some (s, 0)
      end
  end.

(** [vmm_do_aod]: the first access to an anonymous page. *)
Definition vmm_do_aod s pgdir (pgprot vaddr : Z) : option (pstate A * Z) :=
  '(s, r) ← pmm_lock_page s pgdir vaddr;
  match r with
  | inl err => Some (s, err)
  | inr (old, pte) =>
      '(s, newpage) ← new_page s true;
      match newpage with
      | None => '(s, _) ← pmm_unlock_page s pte; Some (s, ENOMEM)
      | Some page =>
          '(s, err) ← set_page s pgdir vaddr (Info pgprot page);
          if ctrue err then
            '(s, _) ← pmm_unlock_page s pte;
            s ← ppn_refcount_down s page;
            Some (s, err)
          else Some (s, 0)
      end
  end.

(** [vmm_do_migrate] for the entry [pinfo] seen by the handler. *)
Definition vmm_do_migrate s pgdir (pinfo : page_info) (vaddr : Z) : option (pstate A * Z) :=
  _ ← cassert (ctrue (ppn pinfo));
  '(s, r) ← pmm_lock_page s pgdir vaddr;
  match r with
  | inl _ => None
  | inr (current, pte) =>
      if negb (ppn current =? ppn pinfo) || negb (ctrue (Z.land (attr current) PMM_MIGRATE)) then
        '(s, _) ← pmm_unlock_page s pte; Some (s, 0)
      else
      '(s, newpage) ← (if pr_local (palloc s) (ppn pinfo) then Some (s, None) else new_page s false);
      '(s, current) ←
        match newpage with
        | None => Some (s, current)
        | Some page =>
            s ← ppn_copy s page (ppn pinfo);
            let x := if ctrue (Z.land (attr current) PMM_COW)
                     then Z.land (Z.lor (attr current) PMM_WRITE) (Z.lnot PMM_COW)
                     else attr current in
            Some (s, Info x page)
        end;
      let x := Z.land (Z.land (Z.lor (attr current) PMM_PRESENT) (Z.lnot PMM_MIGRATE))
                 (Z.lnot PMM_LOCKED) in
      '(s, err) ← set_page s pgdir vaddr (Info x (ppn current));
      if ctrue err then
        '(s, _) ← pmm_unlock_page s pte;
        s ← match newpage with Some page => ppn_refcount_down s page | None => None end;
        Some (s, err)
      else
      s ← (if newpage then ppn_refcount_down s (ppn pinfo) else Some s);
      Some (s, 0)
  end.

(** [vmm_default_pagefault] of a region without mapper. *)
Definition vmm_default_pagefault s pgdir (pgprot vaddr flags : Z) : option (pstate A * Z) :=
  let info := pmm_get_page (pmem s) pgdir vaddr in
  if ctrue (attr info) && ctrue (ppn info) then
    if ctrue (Z.land (attr info) PMM_COW) && pmm_except_isWrite flags
    then vmm_do_cow s pgdir pgprot vaddr
    else if ctrue (Z.land (attr info) PMM_MIGRATE) then vmm_do_migrate s pgdir info vaddr
    else Some (s, 0)
  else vmm_do_aod s pgdir pgprot vaddr.

(** [vm_region_update]. *)
Definition vm_region_update s pgdir (region : vm_region_s) (vaddr flags : Z)
    : option (pstate A * Z) :=
  if pmm_except_isRights flags then Some (s, -1001) else
  if pmm_except_isPresent flags && negb (flag (vm_prot region) VM_REG_RD) then Some (s, -1002) else
  if pmm_except_isWrite flags && negb (flag (vm_prot region) VM_REG_WR) then Some (s, -1003) else
  if pmm_except_isExecute flags && negb (flag (vm_prot region) VM_REG_EX) then Some (s, -1004) else
  if flag (vm_flags region) VM_REG_INIT then Some (s, -1005) else
  vmm_default_pagefault s pgdir (vm_pgprot region) vaddr flags.

(** The page loop of [vm_region_dup]; [src] and [dst] are the two directories. *)
Definition dup_page s (src dst vaddr : Z) : option (pstate A * Z) :=
  let info := pmm_get_page (pmem s) src vaddr in
  if ctrue (Z.land (attr info) PMM_PRESENT) then
    let info := Info (Z.land (Z.lor (attr info) PMM_COW) (Z.lnot PMM_WRITE)) (ppn info) in
    '(s, err) ← set_page s dst vaddr info;
    if ctrue err then Some (s, err) else
    '(s, err) ← set_page s src vaddr info;
    if ctrue err then Some (s, err) else
    s ← ppn_refcount_up s (ppn info); Some (s, 0)
  else Some (s, 0).

Fixpoint dup_loop (count : nat) s (src dst vaddr : Z) : option (pstate A * Z) :=
  match count with
  | O => Some (s, 0)
  | S count =>
      '(s, err) ← dup_page s src dst vaddr;
      if ctrue err then Some (s, err)
      else dup_loop count s src dst (u32 (vaddr + PMM_PAGE_SIZE))
  end.

(** The loop of [vm_region_unmap]. *)
Definition unmap_page s pgdir (isLazy : bool) (vaddr : Z) : option (pstate A) :=
  let info := pmm_get_page (pmem s) pgdir vaddr in
  if ctrue (Z.land (attr info) PMM_PRESENT) then
    s ← (if isLazy then Some s else '(s, _) ← set_page s pgdir vaddr (Info 0 0); Some s);
    ppn_refcount_down s (ppn info)
  else Some s.

Fixpoint unmap_loop (count : nat) s pgdir (isLazy : bool) (vaddr : Z) : option (pstate A) :=
  match count with
  | O => Some s
  | S count =>
      s ← unmap_page s pgdir isLazy vaddr;
      unmap_loop count s pgdir isLazy (u32 (vaddr + PMM_PAGE_SIZE))
  end.

(** Number of pages of a region. *)
Definition region_pages (region : vm_region_s) : nat :=
  Z.to_nat (Z.shiftr (u32 (vm_limit region - vm_start region)) PMM_PAGE_SHIFT).

Definition vm_region_dup_pages s (src dst : Z) (region : vm_region_s) : option (pstate A * Z) :=
  dup_loop (region_pages region) s src dst (vm_start region).

Definition vm_region_unmap s pgdir (region : vm_region_s) : option (pstate A) :=
  unmap_loop (region_pages region) s pgdir (flag (vm_flags region) VM_REG_LAZY) (vm_start region).

(** [vmm_madvise_migrate]. *)
Definition madvise_page s pgdir (vaddr : Z) : option (pstate A) :=
  let info := pmm_get_page (pmem s) pgdir vaddr in
  if ctrue (Z.land (attr info) PMM_PRESENT) then
    let x := Z.lor (Z.land (attr info) (Z.lnot PMM_PRESENT)) PMM_MIGRATE in
    '(s, _) ← set_page s pgdir vaddr (Info x (ppn info)); Some s
  else Some s.

Fixpoint madvise_loop (count : nat) s pgdir (vaddr : Z) : option (pstate A) :=
  match count with
  | O => Some s
  | S count =>
      s ← madvise_page s pgdir vaddr;
      madvise_loop count s pgdir (u32 (vaddr + PMM_PAGE_SIZE))
  end.

Definition vmm_madvise_migrate s pgdir (start len : Z) : option (pstate A * Z) :=
  let count := Z.shiftr (ARROUND_UP len PMM_PAGE_SIZE) PMM_PAGE_SHIFT in
  s ← madvise_loop (Z.to_nat count) s pgdir start; Some (s, 0).

(** ** Accesses of a task

    The MMU translates an address with the page tables; an access it refuses is handled by the
    kernel and tried again, as long as the kernel resolves the faults.  [mmu_report] is the
    exception report the hardware gives for an entry and an access. *)

Definition translate s pgdir (write : bool) (vaddr : Z) : option Z :=
  let info := pmm_get_page (pmem s) pgdir vaddr in
  if Z.testbit (attr info) 31 && (negb write || Z.testbit (attr info) 26)
  then Some (frame_of (ppn info) * PMM_PAGE_SIZE + vaddr mod PMM_PAGE_SIZE) else None.

Inductive access := Done (a : Z) | Refused (err : Z).

Fixpoint user_access (mmu_report : page_info → bool → Z) (fuel : nat) s pgdir
    (region : vm_region_s) (write : bool) (vaddr : Z) : option (pstate A * access) :=
  match fuel with
  | O => None
  | S fuel =>
      match translate s pgdir write vaddr with
      | Some a => Some (s, Done a)
      | None =>
          let flags := mmu_report (pmm_get_page (pmem s) pgdir vaddr) write in
          '(s, err) ← vm_region_update s pgdir region vaddr flags;
          if ctrue err then Some (s, Refused err)
          else user_access mmu_report fuel s pgdir region write vaddr
      end
  end.

Definition user_store mmu_report fuel s pgdir region (vaddr v : Z)
    : option (pstate A * access) :=
  '(s, r) ← user_access mmu_report fuel s pgdir region true vaddr;
  Some (match r with Done a => PState (wr (pmem s) a v) (palloc s) | Refused _ => s end, r).

End operations.
