(* ===== verification/CowTables.v ===== *)
(** * Several address spaces in one memory

    The page tables of [Pmm] for a set of page directories that share the memory and the
    allocator: an operation on one directory writes only its own frames and fresh ones, so the
    other address spaces and the pages of the tasks stay as they are. *)

From S2P Require Import Prelude Bits Page Pmm VmRegion Cow.

Open Scope Z_scope.

Section tables.
Context {A : Type} `{FrameAllocatorLaws A} `{!PageRefs A} `{!PageRefsLaws A}.
Implicit Types (s : pstate A) (D : gset Z) (d e va f : Z).

(** The frames of the directory and of its tables. *)
Definition owns (m : memory) d f : Prop :=
  dir_frame d f ∨ ∃ i, 0 ≤ i < 2048 ∧ table_of (m (d + 4 * i)) = Some f.

(** Directories without huge pages that share no frame. *)
Record tabs D s : Prop := Tabs {
  tb_inv : fa_inv (palloc s);
  tb_dir d : d ∈ D → dir_ok (fa_used (palloc s)) (pmem s) d;
  tb_small d i : d ∈ D → 0 ≤ i < 2048 →
    pmem s (d + 4 * i) = 0 ∨ is_Some (table_of (pmem s (d + 4 * i)));
  tb_sep d e f : d ∈ D → e ∈ D → owns (pmem s) d f → owns (pmem s) e f → d = e }.

(** Memory changes only in the frames [P]. *)
Definition changed (P : Z → Prop) (m m' : memory) : Prop :=
  ∀ x f, in_frame x f → ¬ P f → m' x = m x.

(** A step on the tables of [d]. *)
Record tstep D d s s' : Prop := TStep {
  ts_tabs : tabs D s';
  ts_changed : changed (λ f, owns (pmem s) d f ∨ ¬ fa_used (palloc s) f) (pmem s) (pmem s');
  ts_owns e f : e ∈ D → owns (pmem s') e f → owns (pmem s) e f ∨ ¬ fa_used (palloc s) f;
  ts_used f : fa_used (palloc s) f → fa_used (palloc s') f;
  ts_pages : pages_kept (λ _, True) (palloc s) (palloc s') }.

Lemma in_frame_div x : in_frame x (x / PMM_PAGE_SIZE).
Proof.
  unfold in_frame, PMM_PAGE_SIZE. pose proof (Z.div_mod x 0x1000 ltac:(done)).
  pose proof (Z.mod_pos_bound x 0x1000 ltac:(done)). lia.
Qed.

Lemma owns_used D s d f : tabs D s → d ∈ D → owns (pmem s) d f → fa_used (palloc s) f.
Proof.
  intros T Hd [Hf|(i & Hi & Ht)]; [by apply (tb_dir _ _ T d Hd)|].
  by apply (d_table _ _ _ (tb_dir _ _ T d Hd) i f Hi Ht).
Qed.

Lemma pages_kept_refl P (a : A) : pages_kept P a a.
Proof. by intros q _ Hq. Qed.

Lemma pages_kept_trans P (a b c : A) : pages_kept P a b → pages_kept P b c → pages_kept P a c.
Proof. intros H1 H2 q Hq Hh. destruct (H1 q Hq Hh) as [H3 E3], (H2 q Hq H3) as [H4 E4]. by rewrite E4. Qed.

Lemma pages_kept_weaken (P Q : Z → Prop) (a b : A) : (∀ q, Q q → P q) → pages_kept P a b → pages_kept Q a b.
Proof. intros HPQ HP q Hq. by apply HP, HPQ. Qed.

Lemma tstep_refl D d s : tabs D s → tstep D d s s.
Proof. intros T. split; [done|by intros x f|by left|done|apply pages_kept_refl]. Qed.

Lemma tstep_trans D d s1 s2 s3 : d ∈ D → tstep D d s1 s2 → tstep D d s2 s3 → tstep D d s1 s3.
Proof.
  intros Hd [T2 C2 O2 U2 K2] [T3 C3 O3 U3 K3]. split; [done| | |auto|by eapply pages_kept_trans].
  - intros x f Hx Hn. rewrite C3 with (f := f); [by apply (C2 x f)|done|].
    intros [Ho|Hu]; apply Hn; [by apply O2|by right; auto].
  - intros e f He Ho. destruct (O3 e f He Ho) as [Ho2|Hu]; [by apply O2|right; auto].
Qed.

(** An address space whose frames are left alone. *)
Lemma dir_untouched (used : Z → Prop) m m' P e i :
  dir_ok used m e → changed P m m' → (∀ f, owns m e f → ¬ P f) → 0 ≤ i < 2048 →
  m' (e + 4 * i) = m (e + 4 * i).
Proof.
  intros Hd Hc HP Hi. apply (Hc _ _ (in_frame_div _)), HP. left. by eapply dir_entry_frame, in_frame_div.
Qed.

Lemma view_untouched (used : Z → Prop) m m' P e :
  dir_ok used m e → changed P m m' → (∀ f, owns m e f → ¬ P f) → same_view m m' e.
Proof.
  intros Hd Hc HP va Hva. pose proof (pde_index _ Hva) as Hp.
  apply get_ext; [by eapply (dir_untouched used)|]. intros f Hf.
  assert (owns m e f) as Ho by (right; by exists (MMU_PDE va)).
  destruct (slot_in_frame f va) as [H1 H2]. split; by eapply Hc, HP.
Qed.

Lemma owns_untouched (used : Z → Prop) m m' P e f :
  dir_ok used m e → changed P m m' → (∀ f, owns m e f → ¬ P f) → owns m' e f → owns m e f.
Proof.
  intros Hd Hc HP [Hf|(i & Hi & Ht)]; [by left|]. right. exists i. split; [done|].
  by rewrite <- (dir_untouched used m m' P e i).
Qed.

Lemma others_avoid D s d e f :
  tabs D s → d ∈ D → e ∈ D → e ≠ d → owns (pmem s) e f → ¬ (owns (pmem s) d f ∨ ¬ fa_used (palloc s) f).
Proof.
  intros T Hd He Hne Ho [Ho'|Hu]; [by apply Hne, (tb_sep _ _ T e d f)|]. by apply Hu, (owns_used D s e).
Qed.

(** A change of [d] that keeps it well formed is a step, and the others see nothing of it. *)
Lemma tstep_intro D s d m' (a' : A) :
  tabs D s → d ∈ D → fa_inv a' → (∀ f, fa_used (palloc s) f → fa_used a' f) →
  pages_kept (λ _, True) (palloc s) a' → dir_ok (fa_used a') m' d →
  (∀ i, 0 ≤ i < 2048 → m' (d + 4 * i) = 0 ∨ is_Some (table_of (m' (d + 4 * i)))) →
  changed (λ f, owns (pmem s) d f ∨ ¬ fa_used (palloc s) f) (pmem s) m' →
  (∀ f, owns m' d f → owns (pmem s) d f ∨ ¬ fa_used (palloc s) f) →
  tstep D d s (PState m' a') ∧ ∀ e, e ∈ D → e ≠ d → same_view (pmem s) m' e.
Proof.
  intros T Hd Hi Hu Hk Hok Hsm Hc Ho.
  assert (∀ e f, e ∈ D → owns m' e f → owns (pmem s) e f ∨ ¬ fa_used (palloc s) f) as Hall.
  { intros e f He Hf. destruct (decide (e = d)) as [->|Hne]; [by apply Ho|]. left.
    eapply (owns_untouched _ (pmem s)); [by apply (tb_dir _ _ T)|exact Hc| |done].
    intros g. by eapply others_avoid. }
  split.
  2:{ intros e He Hne. eapply view_untouched; [by apply (tb_dir _ _ T)|exact Hc|]. intros g. by eapply others_avoid. }
  split; cbn; [|done|done|done|done]. split; cbn; [done|..].
  - intros e He. destruct (decide (e = d)) as [->|Hne]; [done|].
    eapply dir_ok_ext; [by apply (tb_dir _ _ T)|done|]. intros i Hi'.
    eapply dir_untouched; [by apply (tb_dir _ _ T)|exact Hc| |done]. intros g. by eapply others_avoid.
  - intros e i He Hi'. destruct (decide (e = d)) as [->|Hne]; [by apply Hsm|].
    rewrite (dir_untouched (fa_used (palloc s)) (pmem s) m' (λ f, owns (pmem s) d f ∨ ¬ fa_used (palloc s) f));
      [by apply (tb_small _ _ T)|by apply (tb_dir _ _ T)|exact Hc| |done]. intros g. by eapply others_avoid.
  - assert (∀ e f, e ∈ D → e ≠ d → owns m' e f → owns (pmem s) e f) as Hother.
    { intros e f He Hne. eapply (owns_untouched _ (pmem s)); [by apply (tb_dir _ _ T)|exact Hc|].
      intros g. by eapply others_avoid. }
    intros e1 e2 f H1 H2 O1 O2. destruct (decide (e1 = d)) as [->|N1], (decide (e2 = d)) as [->|N2]; [done|..].
    + exfalso. apply (others_avoid D s d e2 f T Hd H2 N2); auto.
    + exfalso. apply (others_avoid D s d e1 f T Hd H1 N1); auto.
    + eapply (tb_sep _ _ T); eauto.
Qed.

Lemma tstep_ext D d s m1 m2 (a : A) :
  (∀ x, m2 x = m1 x) → tstep D d s (PState m1 a) → tstep D d s (PState m2 a).
Proof.
  intros Hm [[Ti Td Ts Tp] C O U K]. cbn in *.
  assert (∀ e f, owns m2 e f → owns m1 e f) as Ho.
  { intros e f [Hf|(i & Hi & Ht)]; [by left|right]. exists i. by rewrite <- Hm. }
  split; cbn; [|intros x f Hx Hn; rewrite Hm; by eapply C|eauto|done|done].
  split; cbn; [done|..].
  - intros e He. eapply dir_ok_ext; [by apply Td|done|]. intros i Hi. apply Hm.
  - intros e i He Hi. rewrite Hm. by apply Ts.
  - eauto.
Qed.

(** What the readers see after a step that gives the page of [va] in [d] the entry [i]. *)
Definition sees D d va (i : page_info) (m m' : memory) : Prop :=
  ∀ e va', e ∈ D → 0 ≤ va' < wsize →
    pmm_get_page m' e va' =
    if decide (e = d ∧ va' / 2 ^ 12 = va / 2 ^ 12) then i else pmm_get_page m e va'.

Lemma sees_intro D s d va i m' :
  (∀ e, e ∈ D → e ≠ d → same_view (pmem s) m' e) → pmm_get_page m' d va = i →
  (∀ va', 0 ≤ va' < wsize → va' / 2 ^ 12 ≠ va / 2 ^ 12 →
     pmm_get_page m' d va' = pmm_get_page (pmem s) d va') →
  sees D d va i (pmem s) m'.
Proof.
  intros Ho Hv Hd e va' He Hva'. case_decide as Hc.
  - destruct Hc as [-> E]. by rewrite (get_page_number _ _ _ va E).
  - destruct (decide (e = d)) as [->|Hne]; [|by apply Ho]. apply Hd; [done|]. intros E. by apply Hc.
Qed.

Lemma sees_trans D d va i j m1 m2 m3 : sees D d va i m1 m2 → sees D d va j m2 m3 → sees D d va j m1 m3.
Proof. intros H1 H2 e va' He Hva'. rewrite H2, H1 by done. by case_decide. Qed.

(** ** Writing an entry *)

(** The entry of [va] in an existing table. *)
Lemma write_tabs D s d va f x y :
  tabs D s → d ∈ D → 0 ≤ va < wsize → table_of (pmem s (pde_addr d va)) = Some f →
  let m' := wr (wr (pmem s) (slot f va + 4) y) (slot f va) x in
  tstep D d s (PState m' (palloc s)) ∧ sees D d va (Info x (y mod 2 ^ 28)) (pmem s) m' ∧
  table_of (m' (pde_addr d va)) = Some f.
Proof.
  intros T Hd Hva Hf m'. pose proof (tb_dir _ _ T d Hd) as Hok. pose proof (pde_index _ Hva) as Hp.
  destruct (write_slot _ _ _ _ _ x y Hok Hva Hf) as (Hok' & Hg & Ho & Hdir). fold m' in Hok', Hg, Ho, Hdir.
  destruct (tstep_intro D s d m' (palloc s)) as [Hs Hv]; try done.
  - apply T.
  - intros i Hi. rewrite Hdir by done. by apply (tb_small _ _ T).
  - intros a g Ha Hn. destruct (slot_in_frame f va) as [H1 H2]. unfold m', wr.
    assert (g ≠ f). { intros ->. apply Hn. left. right. by exists (MMU_PDE va). }
    destruct (Z.eqb_spec a (slot f va)) as [->|_]; [by exfalso; eauto using in_frame_inj|].
    destruct (Z.eqb_spec a (slot f va + 4)) as [->|_]; [by exfalso; eauto using in_frame_inj|done].
  - intros g [Hg'|(i & Hi & Ht)]; left; [by left|right]. exists i. by rewrite Hdir in Ht.
  - split; [done|]. split; [by apply sees_intro|]. unfold pde_addr. by rewrite Hdir.
Qed.

(** Its attributes alone. *)
Lemma write_attr D s d va f x :
  tabs D s → d ∈ D → 0 ≤ va < wsize → table_of (pmem s (pde_addr d va)) = Some f →
  let m' := wr (pmem s) (slot f va) x in
  tstep D d s (PState m' (palloc s)) ∧
  sees D d va (Info x (ppn (pmm_get_page (pmem s) d va))) (pmem s) m' ∧
  table_of (m' (pde_addr d va)) = Some f.
Proof.
  intros T Hd Hva Hf m'.
  destruct (write_tabs D s d va f x (pmem s (slot f va + 4)) T Hd Hva Hf) as (Hs & Hv & Ht).
  set (m1 := wr (wr (pmem s) (slot f va + 4) (pmem s (slot f va + 4))) (slot f va) x) in *.
  assert (∀ a, m' a = m1 a) as Hm.
  { intros a. unfold m', m1, wr. destruct (a =? slot f va); [done|]. by destruct (Z.eqb_spec a (slot f va + 4)) as [->|]. }
  split; [by apply (tstep_ext D d s m1 m')|]. split; [|by rewrite Hm].
  rewrite (get_small _ _ _ _ Hf). cbn [ppn]. intros e va' He Hva'. rewrite <- Hv by done.
  apply get_ext; [apply Hm|]. intros g _. by rewrite !Hm.
Qed.

(** ** The table of an address *)

(** [pde_fill] when nobody else fills the entry. *)
Lemma fill_tabs D s d va :
  tabs D s → d ∈ D → 0 ≤ va < wsize → pmem s (pde_addr d va) = 0 →
  ∃ s' r, pde_fill (λ m, m) s (pde_addr d va) = Some (s', r) ∧ tstep D d s s' ∧
    (∀ e, e ∈ D → same_view (pmem s) (pmem s') e) ∧
    match r with
    | None => pmem s' = pmem s
    | Some tbl => table_of (pmem s' (pde_addr d va)) = Some (frame_of tbl)
    end.
Proof.
  intros T Hd Hva Hz0. pose proof (tb_dir _ _ T d Hd) as Hok. pose proof (tb_inv _ _ T) as Hi.
  pose proof (pde_index _ Hva) as Hp. unfold pde_fill, pmm_alloc_page.
  destruct (fa_alloc_law _ Hi) as (a & r & E & Hi' & Hr). pose proof (pr_table_law _ _ _ Hi E) as Hk.
  rewrite E. cbn [mbind option_bind]. destruct r as [tbl|]; cbn [mbind option_bind pmem palloc].
  2:{ eexists _, None. split; [done|]. cbn [pmem]. assert (∀ f, fa_used (palloc s) f → fa_used a f) by (intros f; by rewrite Hr).
      destruct (tstep_intro D s d (pmem s) a) as [Hs _]; try done.
      - eapply dir_ok_ext; [exact Hok|done|done].
      - intros i Hi2. by apply (tb_small _ _ T).
      - intros f Hf. by left. }
  destruct Hr as (Htbl & Hn & Hu). set (m := zero_frame (pmem s) (frame_of tbl)).
  assert (∀ i, 0 ≤ i < 2048 → m (d + 4 * i) = pmem s (d + 4 * i)) as Hm by (intros i Hi2; by eapply zero_frame_dir).
  assert (m (pde_addr d va) = 0) as Hz by (unfold pde_addr in *; by rewrite Hm). rewrite Hz. cbn [Z.eqb].
  assert (¬ owns (pmem s) d (frame_of tbl)) as Hno by (intros Ho; by apply Hn, (owns_used D s d)).
  destruct (install_table (fa_used a) m d va tbl) as (Hd2 & Hv2 & Ht2); try done.
  - eapply dir_ok_ext; [exact Hok|intros f; rewrite Hu; by left|done].
  - apply Hu. by right.
  - intros Hf. apply Hno. by left.
  - intros i Hi2. rewrite Hm by done. intros Ht. apply Hno. right. by exists i.
  - intros x Hx. by apply zero_frame_in.
  - eexists _, (Some tbl). split; [done|]. cbn [pmem palloc]. set (m' := wr m (pde_addr d va) (pde_table tbl)) in *.
    destruct (tstep_intro D s d m' a) as [Hs Hv]; try done.
    + intros f Hf. apply Hu. by left.
    + intros i Hi2. unfold m', wr. destruct (Z.eqb_spec (d + 4 * i) (pde_addr d va)) as [E2|_].
      * right. unfold m', wr in Ht2. rewrite Z.eqb_refl in Ht2. eauto.
      * rewrite Hm by done. by apply (tb_small _ _ T).
    + intros x f Hx Hnf. assert (f ≠ frame_of tbl) by (intros ->; apply Hnf; by right).
      unfold m', wr. destruct (Z.eqb_spec x (pde_addr d va)) as [->|_].
      { exfalso. apply Hnf. left. left. by eapply dir_entry_frame. }
      apply zero_frame_out. intros Hx2. by eauto using in_frame_inj.
    + intros f [Hf|(i & Hi2 & Ht)]; [by left; left|]. unfold m', wr in Ht.
      destruct (Z.eqb_spec (d + 4 * i) (pde_addr d va)) as [E2|_].
      * unfold m', wr in Ht2. rewrite Z.eqb_refl in Ht2. rewrite Ht in Ht2. injection Ht2 as ->. by right.
      * left. right. exists i. by rewrite <- Hm.
    + split; [done|]. split; [|done]. intros e He. destruct (decide (e = d)) as [->|Hne]; [|by apply Hv].
      intros x Hx. rewrite Hv2 by done. by eapply zero_frame_view.
Qed.

Lemma table_tabs D s d va :
  tabs D s → d ∈ D → 0 ≤ va < wsize →
  ∃ s' r, (if pmem s (pde_addr d va) =? 0 then pde_fill (λ m, m) s (pde_addr d va)
           else Some (s, Some (Z.land (pmem s (pde_addr d va)) MMU_PPN_MASK))) = Some (s', r) ∧
    tstep D d s s' ∧ (∀ e, e ∈ D → same_view (pmem s) (pmem s') e) ∧
    (pmem s (pde_addr d va) ≠ 0 → s' = s) ∧
    match r with
    | None => pmem s (pde_addr d va) = 0 ∧ pmem s' = pmem s
    | Some tbl => table_of (pmem s' (pde_addr d va)) = Some (frame_of tbl)
    end.
Proof.
  intros T Hd Hva. destruct (Z.eqb_spec (pmem s (pde_addr d va)) 0) as [E0|E0].
  - destruct (fill_tabs D s d va T Hd Hva E0) as (s' & r & -> & Hs & Hv & Hr). exists s', r.
    split_and!; [done|done|done|done|]. by destruct r.
  - eexists s, (Some _). split_and!; [done|by apply tstep_refl|done|done|].
    destruct (tb_small _ _ T d (MMU_PDE va) Hd (pde_index _ Hva)) as [?|[f Hf]]; [done|].
    fold (pde_addr d va) in Hf. rewrite land_ppn. unfold table_of in *. by destruct (_ && _).
Qed.

(** [pmm_set_page] of a small page. *)
Lemma set_tabs D s d va i :
  tabs D s → d ∈ D → 0 ≤ va < wsize → small_attr (attr i) → 0 ≤ ppn i < 2 ^ 28 →
  ∃ s' err, pmm_set_page (λ m, m) s d va i = Some (s', err) ∧ tstep D d s s' ∧
    (pmem s (pde_addr d va) ≠ 0 → palloc s' = palloc s ∧ err = 0) ∧
    (err = 0 ∧ sees D d va i (pmem s) (pmem s') ∨ err = ENOMEM ∧ pmem s' = pmem s).
Proof.
  intros T Hd Hva [H30 H4] Hppn. unfold pmm_set_page.
  change PMM_HUGE with (Z.shiftl 1 30). change PMM_CLEAR with (Z.shiftl 1 4).
  rewrite !land_pow2, H30, H4 by done.
  destruct (table_tabs D s d va T Hd Hva) as (s1 & r & -> & Hs1 & Hv1 & Hsame & Hr). cbn [mbind option_bind].
  destruct r as [tbl|]; [|destruct Hr; eexists _, _; split_and!; [done|done|done|by right]].
  destruct (write_tabs D s1 d va (frame_of tbl) (attr i) (ppn i) (ts_tabs _ _ _ _ Hs1) Hd Hva Hr) as (Hs2 & Hv2 & _).
  destruct (pte_addr_slot tbl va) as [-> ->]. eexists _, 0. split_and!; [done|by eapply tstep_trans| |left; split; [done|]].
  - intros E0. by rewrite (Hsame E0).
  - intros e va' He Hva'. rewrite Hv2 by done. case_decide; [|by apply Hv1].
    rewrite Z.mod_small by done. by destruct i.
Qed.

(** [pmm_lock_page] on an entry that is not locked. *)
Lemma lock_tabs D s d va :
  tabs D s → d ∈ D → 0 ≤ va < wsize → Z.testbit (attr (pmm_get_page (pmem s) d va)) 3 = false →
  let old := pmm_get_page (pmem s) d va in
  ∃ s' r, pmm_lock_page s d va = Some (s', r) ∧ tstep D d s s' ∧
    match r with
    | inl err => err = ENOMEM ∧ pmem s (pde_addr d va) = 0 ∧ pmem s' = pmem s
    | inr (i, pte) =>
        i = old ∧ (∃ f, table_of (pmem s' (pde_addr d va)) = Some f ∧ pte = slot f va) ∧
        sees D d va (Info (Z.lor (attr old) PMM_LOCKED) (ppn old)) (pmem s) (pmem s') ∧
        (pmem s (pde_addr d va) ≠ 0 → palloc s' = palloc s)
    end.
Proof.
  intros T Hd Hva Hun old. unfold pmm_lock_page, pmm_lock_entry.
  assert (ctrue (pmem s (pde_addr d va)) && negb (ctrue (Z.land (pmem s (pde_addr d va)) PMM_HUGE)) = false) as ->.
  { destruct (tb_small _ _ T d (MMU_PDE va) Hd (pde_index _ Hva)) as [E0|[f Hf]]; fold (pde_addr d va) in *; [by rewrite E0|].
    unfold table_of in Hf. change PMM_HUGE with (Z.shiftl 1 30). rewrite land_pow2 by done.
    destruct (Z.testbit (pmem s (pde_addr d va)) 31), (Z.testbit (pmem s (pde_addr d va)) 30); try done. apply andb_false_r. }
  destruct (table_tabs D s d va T Hd Hva) as (s1 & r & -> & Hs1 & Hv1 & Hsame & Hr). cbn [mbind option_bind].
  destruct r as [tbl|]; cbn [mbind option_bind]; [|by eexists _, (inl ENOMEM)].
  destruct (pte_addr_slot tbl va) as [E3 E4]. rewrite E3 in *. set (f := frame_of tbl) in *.
  pose proof (get_small _ _ _ _ Hr) as Hg. rewrite Hv1 in Hg by done. fold old in Hg.
  unfold pmm_lock_take. change PMM_LOCKED with (Z.shiftl 1 3) at 1. rewrite land_pow2 by done.
  assert (old = Info (pmem s1 (slot f va)) (pmem s1 (slot f va + 4) mod 2 ^ 28)) as Eold by done.
  fold old in Hun. rewrite Eold in Hun. cbn [attr] in Hun. rewrite Hun. cbn [mbind option_bind].
  destruct (write_attr D s1 d va f (Z.lor (pmem s1 (slot f va)) PMM_LOCKED) (ts_tabs _ _ _ _ Hs1) Hd Hva Hr) as (Hs2 & Hv2 & Ht2).
  eexists _, (inr _). split; [done|]. split; [by eapply tstep_trans|]. cbn [pmem palloc]. split_and!.
  - rewrite Eold, land_ppn, E4. unfold wr. destruct (Z.eqb_spec (slot f va + 4) (slot f va)); [lia|done].
  - eauto.
  - intros e va' He Hva'. rewrite Hv2 by done. case_decide; [|by apply Hv1].
    rewrite (Hv1 d Hd va Hva). fold old. by rewrite Eold.
  - intros E0. by rewrite (Hsame E0).
Qed.

(** [pmm_unlock_page] leaves no attribute of the entry. *)
Lemma unlock_tabs D s d va f :
  tabs D s → d ∈ D → 0 ≤ va < wsize → table_of (pmem s (pde_addr d va)) = Some f →
  Z.testbit (attr (pmm_get_page (pmem s) d va)) 3 = true →
  ∃ s' i, pmm_unlock_page s (slot f va) = Some (s', i) ∧ tstep D d s s' ∧ palloc s' = palloc s ∧
    sees D d va (Info 0 (ppn (pmm_get_page (pmem s) d va))) (pmem s) (pmem s').
Proof.
  intros T Hd Hva Hf Hl. pose proof (get_small _ _ _ _ Hf) as Hg. rewrite Hg in Hl |- *. cbn [attr ppn] in *.
  unfold pmm_unlock_page. assert (ctrue (Z.land (pmem s (slot f va)) PMM_LOCKED) = true) as ->.
  { change PMM_LOCKED with (Z.shiftl 1 3). by rewrite land_pow2. }
  cbn [cassert mbind option_bind]. replace (if ctrue PMM_LOCKED then 0 else 1) with 0 by done. rewrite Z.land_0_r. destruct (write_attr D s d va f 0 T Hd Hva Hf) as (Hs2 & Hv2 & _). rewrite Hg in Hv2.
  eexists _, _. by split_and!.
Qed.
End tables.
