(* ===== verification/CowSpec.v ===== *)
(** * Copy on write gives private memory

    The invariant of address spaces that share pages, and what the fault handlers, fork and the
    release of regions do to what the tasks see.  The abstract memory of the tasks maps an
    address space and a page number to the contents of the page; every operation of [Cow] is an
    operation on that memory that concerns one address space only. *)

From S2P Require Import Prelude Bits Page Pmm VmRegion Cow CowTables.

Open Scope Z_scope.

(** ** References *)

(** The page of each address space and page number. *)
Abbreviation mapping := (gmap (Z * Z) Z).

Definition refs (M : mapping) (p : Z) : nat := size (filter (λ kv, kv.2 = p) M).

Lemma refs_insert M k p q :
  M !! k = None → refs (<[k := p]> M) q = (refs M q + if decide (p = q) then 1 else 0)%nat.
Proof.
  intros Hk. unfold refs. case_decide as Hp.
  - rewrite map_filter_insert_True by done. rewrite map_size_insert_None; [lia|].
    apply map_lookup_filter_None. by left.
  - rewrite map_filter_insert_False by done. rewrite delete_id by done. lia.
Qed.

Lemma refs_delete M k p q :
  M !! k = Some p → refs M q = (refs (delete k M) q + if decide (p = q) then 1 else 0)%nat.
Proof.
  intros Hk. rewrite <- (insert_id M k p Hk) at 1. rewrite <- insert_delete_eq.
  apply refs_insert. apply lookup_delete_eq.
Qed.

Lemma refs_le M k q : (refs (delete k M) q ≤ refs M q)%nat.
Proof.
  destruct (M !! k) as [p|] eqn:E; [|by rewrite delete_id]. rewrite (refs_delete M k p q E). lia.
Qed.

Lemma refs_pos M k p : M !! k = Some p → (1 ≤ refs M p)%nat.
Proof. intros E. rewrite (refs_delete M k p p E), decide_True by done. lia. Qed.

Lemma refs_one M p k k' : (refs M p ≤ 1)%nat → M !! k = Some p → M !! k' = Some p → k = k'.
Proof.
  intros H1 Hk Hk'. destruct (decide (k = k')) as [|Hne]; [done|]. exfalso.
  rewrite (refs_delete M k p p Hk), decide_True in H1 by done.
  assert (delete k M !! k' = Some p) as E by (by rewrite lookup_delete_ne).
  apply refs_pos in E. lia.
Qed.

Lemma refs_zero M p : (∀ k, M !! k ≠ Some p) → refs M p = O.
Proof.
  intros Hn. unfold refs. apply map_size_empty_iff, map_empty. intros k.
  apply map_lookup_filter_None. right. intros q Hq Hqp. cbn in Hqp. subst. by eapply Hn.
Qed.

Section cow.
Context {A : Type} `{FrameAllocatorLaws A} `{!PageRefs A} `{!PageRefsLaws A}.
Implicit Types (s : pstate A) (D : gset Z) (d e n p : Z) (M : mapping).

(** ** The invariant *)

(** The entry of a page. *)
Definition entry s d n : page_info := pmm_get_page (pmem s) d (n * PMM_PAGE_SIZE).

Definition page_no n : Prop := 0 ≤ n < 2 ^ 20.

(** Entries of small pages that nobody has locked. *)
Definition clean (x : Z) : Prop := small_attr x ∧ Z.testbit x 3 = false.

Definition maps_to (i : page_info) : option Z := if attr i =? 0 then None else Some (ppn i).

(** A page of a task: allocated, and not a page table. *)
Definition data D s p : Prop := pr_held (palloc s) p ∧ ∀ d, d ∈ D → ¬ owns (pmem s) d (frame_of p).

Record cow_inv D s M : Prop := CowInv {
  ci_tabs : tabs D s;
  ci_dom d n p : M !! (d, n) = Some p → d ∈ D ∧ page_no n;
  ci_map d n : d ∈ D → page_no n → M !! (d, n) = maps_to (entry s d n) ∧ clean (attr (entry s d n));
  ci_data k p : M !! k = Some p → data D s p;
  ci_refs k p c m : M !! k = Some p → pr_page (palloc s) p = Some (c, m) → Z.of_nat (refs M p) ≤ c;
  ci_write d n p k : M !! (d, n) = Some p → Z.testbit (attr (entry s d n)) 26 = true →
    M !! k = Some p → k = (d, n) }.

(** Contents of a frame, and what the tasks see. *)
Definition content (m : memory) (f : Z) : list Z := (λ o, m (f * PMM_PAGE_SIZE + o)) <$> seqZ 0 PMM_PAGE_SIZE.

Definition view s M : gmap (Z * Z) (list Z) := (λ p, content (pmem s) (frame_of p)) <$> M.

Lemma content_ext m m' f : (∀ x, in_frame x f → m' x = m x) → content m' f = content m f.
Proof.
  intros Hm. unfold content. apply list_fmap_ext. intros i o Ho. apply Hm.
  apply lookup_seqZ in Ho as [-> Ho]. unfold in_frame, PMM_PAGE_SIZE in *. lia.
Qed.

Lemma content_zero m f : content (zero_frame m f) f = replicate (Z.to_nat PMM_PAGE_SIZE) 0.
Proof.
  unfold content. apply list_eq_same_length with (n := Z.to_nat PMM_PAGE_SIZE);
    [by rewrite length_replicate|by rewrite length_fmap, length_seqZ|].
  intros j x y Hj. rewrite list_lookup_fmap. intros Hx [-> _]%lookup_replicate.
  destruct (seqZ 0 PMM_PAGE_SIZE !! j) as [o|] eqn:Eo; [|done]. cbn in Hx. injection Hx as <-.
  apply lookup_seqZ in Eo as [-> Ho]. apply zero_frame_in. unfold in_frame, PMM_PAGE_SIZE in *. lia.
Qed.

(** Steps that leave the pages of the tasks alone. *)
Record quiet D s s' : Prop := Quiet {
  q_tabs : tabs D s';
  q_data p : data D s p → data D s' p ∧ content (pmem s') (frame_of p) = content (pmem s) (frame_of p);
  q_pages : pages_kept (λ _, True) (palloc s) (palloc s') }.

Lemma tstep_quiet D d s s' : tabs D s → d ∈ D → tstep D d s s' → quiet D s s'.
Proof.
  intros T Hd [T' C O U K]. split; [done| |done]. intros p [Hh Hn].
  destruct (pr_held_law _ _ (tb_inv _ _ T) Hh) as (_ & Hu & _). destruct (K p I Hh) as [Hh' _]. split; [split; [done|]|].
  - intros e He Ho. destruct (O e _ He Ho) as [?|?]; [by eapply Hn|done].
  - apply content_ext. intros x Hx. apply (C x _ Hx). intros [Ho|?]; [by eapply Hn|done].
Qed.

Lemma quiet_trans D s1 s2 s3 : quiet D s1 s2 → quiet D s2 s3 → quiet D s1 s3.
Proof.
  intros [T2 D2 K2] [T3 D3 K3]. split; [done| |by eapply pages_kept_trans].
  intros p Hp. destruct (D2 p Hp) as [H2 E2], (D3 p H2) as [H3 E3]. split; [done|]. by rewrite E3.
Qed.

Lemma view_quiet D s s' M : quiet D s s' → (∀ k p, M !! k = Some p → data D s p) → view s' M = view s M.
Proof.
  intros Q Hd. apply map_eq. intros k. unfold view. rewrite !lookup_fmap. destruct (M !! k) as [p|] eqn:E; [|done].
  cbn. by rewrite (proj2 (q_data _ _ _ Q p (Hd k p E))).
Qed.

(** ** Updates *)

(** The pages after the entry of [(d, n)] has become [i]. *)
Definition set_map M (k : Z * Z) (i : page_info) : mapping :=
  match maps_to i with Some p => <[k := p]> M | None => delete k M end.

Lemma set_map_eq M k i : set_map M k i !! k = maps_to i.
Proof. unfold set_map. destruct (maps_to i); [apply lookup_insert_eq|apply lookup_delete_eq]. Qed.

Lemma set_map_ne M k i k' : k' ≠ k → set_map M k i !! k' = M !! k'.
Proof. intros Hne. unfold set_map. destruct (maps_to i); [by apply lookup_insert_ne|by apply lookup_delete_ne]. Qed.

Definition entries D s s' d n (i : page_info) : Prop :=
  ∀ e k, e ∈ D → page_no k → entry s' e k = if decide ((e, k) = (d, n)) then i else entry s e k.

Lemma page_va n : page_no n → 0 ≤ n * PMM_PAGE_SIZE < wsize.
Proof. unfold page_no, PMM_PAGE_SIZE, wsize. lia. Qed.

Lemma va_page va : 0 ≤ va < wsize → page_no (va / PMM_PAGE_SIZE).
Proof.
  intros Hva. unfold page_no, PMM_PAGE_SIZE, wsize in *. split; [apply Z.div_pos; lia|].
  apply Z.div_lt_upper_bound; lia.
Qed.

Lemma entry_va s d va : pmm_get_page (pmem s) d va = entry s d (va / PMM_PAGE_SIZE).
Proof.
  apply get_page_number. change PMM_PAGE_SIZE with (2 ^ 12). by rewrite Z.div_mul.
Qed.

Lemma sees_entries D s s' d va i :
  sees D d va i (pmem s) (pmem s') → entries D s s' d (va / PMM_PAGE_SIZE) i.
Proof.
  intros Hs e k He Hk. unfold entry. rewrite (Hs e _ He (page_va k Hk)).
  change PMM_PAGE_SIZE with (2 ^ 12). rewrite Z.div_mul by done.
  destruct (decide (e = d ∧ k = va / 2 ^ 12)) as [[-> ->]|Hn]; [by rewrite decide_True|].
  rewrite decide_False; [done|]. intros [= -> ->]. by apply Hn.
Qed.

Lemma entries_trans D s1 s2 s3 d n i j :
  entries D s1 s2 d n i → entries D s2 s3 d n j → entries D s1 s3 d n j.
Proof. intros H1 H2 e k He Hk. rewrite H2, H1 by done. by case_decide. Qed.

Definition same_entries D s s' : Prop := ∀ e k, e ∈ D → page_no k → entry s' e k = entry s e k.

Lemma same_view_entries D s s' : (∀ e, e ∈ D → same_view (pmem s) (pmem s') e) → same_entries D s s'.
Proof. intros Hv e k He Hk. apply Hv; [done|by apply page_va]. Qed.

Lemma entries_same_l D s1 s2 s3 d n i : same_entries D s1 s2 → entries D s2 s3 d n i → entries D s1 s3 d n i.
Proof. intros H1 H2 e k He Hk. rewrite H2 by done. case_decide; [done|by apply H1]. Qed.

Lemma entries_same_r D s1 s2 s3 d n i : entries D s1 s2 d n i → same_entries D s2 s3 → entries D s1 s3 d n i.
Proof. intros H1 H2 e k He Hk. rewrite H2 by done. by apply H1. Qed.

(** The directories too are the same. *)
Definition same_tables D s s' : Prop :=
  same_entries D s s' ∧ ∀ e i, e ∈ D → 0 ≤ i < 2048 → pmem s' (e + 4 * i) = pmem s (e + 4 * i).

Lemma same_tables_trans D s1 s2 s3 : same_tables D s1 s2 → same_tables D s2 s3 → same_tables D s1 s3.
Proof. intros [E1 W1] [E2 W2]. split; [intros e k He Hk; by rewrite E2, E1|intros e i He Hi; by rewrite W2, W1]. Qed.

(** The invariant after one entry has changed. *)
Lemma inv_step D s M s' d n i :
  cow_inv D s M → d ∈ D → page_no n → tabs D s' → entries D s s' d n i → clean (attr i) →
  let M' := set_map M (d, n) i in
  (∀ k p, M' !! k = Some p → data D s' p) →
  (∀ k p c m, M' !! k = Some p → pr_page (palloc s') p = Some (c, m) → Z.of_nat (refs M' p) ≤ c) →
  (∀ e k, M !! (e, k) = Some (ppn i) → maps_to i = Some (ppn i) → (e, k) ≠ (d, n) →
     Z.testbit (attr (entry s e k)) 26 = false ∧ Z.testbit (attr i) 26 = false) →
  cow_inv D s' M'.
Proof.
  intros [T Hdom Hmap Hdat Href Hwr] Hd Hn T' Hent Hc M' HD HR HW. split; [done|..|done|done|].
  - intros e k p. destruct (decide ((e, k) = (d, n))) as [[= -> ->]|Hne]; [done|].
    unfold M'. rewrite set_map_ne by done. apply Hdom.
  - intros e k He Hk. rewrite (Hent e k He Hk). case_decide as Hne; unfold M'.
    + simplify_eq. by rewrite set_map_eq.
    + rewrite set_map_ne by done. by apply Hmap.
  - intros e k p k' Hp Hw Hp'.
    assert (e ∈ D ∧ page_no k) as [He Hk].
    { destruct (decide ((e, k) = (d, n))) as [[= -> ->]|Hne]; [done|]. unfold M' in Hp. rewrite set_map_ne in Hp by done. by eapply Hdom. }
    rewrite (Hent e k He Hk) in Hw. unfold M' in *.
    destruct (decide ((e, k) = (d, n))) as [[= -> ->]|Hne], (decide (k' = (d, n))) as [->|Hne']; [done|..].
    + rewrite set_map_eq in Hp. rewrite set_map_ne in Hp' by done. destruct k' as [e' n'].
      assert (p = ppn i) as -> by (unfold maps_to in Hp; by destruct (attr i =? 0); simplify_eq).
      destruct (HW e' n' Hp' Hp Hne') as [_ Hf]. congruence.
    + rewrite set_map_eq in Hp'. rewrite set_map_ne in Hp by done.
      assert (p = ppn i) as -> by (unfold maps_to in Hp'; by destruct (attr i =? 0); simplify_eq).
      destruct (HW e k Hp Hp' Hne) as [Hf _]. congruence.
    + rewrite set_map_ne in Hp, Hp' by done. by eapply Hwr.
Qed.

(** ** Pages of the tasks *)

(** The allocator may change as long as the page tables stay allocated. *)
Lemma tabs_alloc D s (a : A) :
  tabs D s → fa_inv a → (∀ d f, d ∈ D → owns (pmem s) d f → fa_used a f) → tabs D (PState (pmem s) a).
Proof.
  intros [Ti Td Ts Tp] Hi Hu. split; cbn; [done| |done|done]. intros d Hd. destruct (Td d Hd) as [Hr Hdu He Ht Hinj].
  split; [done| |done| |done].
  - intros f Hf. apply (Hu d); [done|by left].
  - intros i f Hi' Hf. split; [apply (Hu d); [done|right; by exists i]|by eapply Ht].
Qed.

Lemma tabs_alloc_mono D s (a : A) :
  tabs D s → fa_inv a → (∀ f, fa_used (palloc s) f → fa_used a f) → tabs D (PState (pmem s) a).
Proof. intros T Hi Hu. apply tabs_alloc; [done|done|]. intros d f Hd Ho. by eapply Hu, owns_used. Qed.

Lemma data_frame_inj D s p q : tabs D s → data D s p → data D s q → frame_of p = frame_of q → p = q.
Proof. intros T [Hp _] [Hq _]. by apply (pr_inj_law _ _ _ (tb_inv _ _ T)). Qed.

(** A write to a page of a task. *)
Lemma data_write D s p m' :
  tabs D s → data D s p → changed (λ f, f = frame_of p) (pmem s) m' →
  let s' := PState m' (palloc s) in
  tabs D s' ∧ same_tables D s s' ∧ (∀ q, data D s q → data D s' q) ∧
  ∀ q, data D s q → q ≠ p → content m' (frame_of q) = content (pmem s) (frame_of q).
Proof.
  intros T Hp Hc s'. pose proof Hp as [_ Hno].
  assert (∀ e i, e ∈ D → 0 ≤ i < 2048 → m' (e + 4 * i) = pmem s (e + 4 * i)) as Hdir.
  { intros e i He Hi. eapply dir_untouched; [by apply (tb_dir _ _ T)|exact Hc| |done]. intros f Ho ->. by eapply Hno. }
  assert (∀ e f, e ∈ D → owns m' e f → owns (pmem s) e f) as Ho.
  { intros e f He [Hf|(i & Hi & Ht)]; [by left|right]. exists i. by rewrite <- Hdir. }
  split_and!.
  - destruct T as [Ti Td Ts Tp]. split; cbn; [done|..].
    + intros e He. eapply dir_ok_ext; [by apply Td|done|]. intros i Hi. by apply Hdir.
    + intros e i He Hi. rewrite Hdir by done. by apply Ts.
    + intros e1 e2 f H1 H2 O1 O2. eapply Tp; eauto.
  - split; [|done]. apply same_view_entries. intros e He. eapply view_untouched; [by apply (tb_dir _ _ T)|exact Hc|].
    intros f Hf ->. by eapply Hno.
  - intros q [Hh Hq]. split; [done|]. intros e He Hf. eapply Hq; eauto.
  - intros q Hq Hne. apply content_ext. intros x Hx. apply (Hc x _ Hx). intros E. by apply Hne, (data_frame_inj D s).
Qed.

(** A page for a fault: allocated, anonymous, referred to by nobody. *)
Lemma new_page_ok D s z :
  tabs D s →
  ∃ s' r, new_page s z = Some (s', r) ∧ quiet D s s' ∧ same_tables D s s' ∧
    match r with
    | None => pmem s' = pmem s
    | Some p =>
        data D s' p ∧ ¬ pr_held (palloc s) p ∧ pr_page (palloc s') p = Some (1, 0) ∧
        (z = true → content (pmem s') (frame_of p) = replicate (Z.to_nat PMM_PAGE_SIZE) 0)
    end.
Proof.
  intros T. pose proof (tb_inv _ _ T) as Hi. unfold new_page.
  destruct (pr_alloc_law _ Hi) as (a1 & r & -> & Hi1 & Hk1 & Hr). cbn [mbind option_bind].
  destruct r as [p|].
  2:{ eexists _, None. split; [done|]. assert (tabs D (PState (pmem s) a1)) by (apply tabs_alloc_mono; [done|done|intros f; by rewrite Hr]).
      split_and!; [|done|done]. split; [done| |done]. intros p [Hh Hno]. split; [|done]. split; [by apply (Hk1 p I)|done]. }
  destruct Hr as (Hn & Hu & Hh1 & mp & Hp1).
  destruct (pr_anon_law _ _ _ _ Hi1 Hh1 Hp1) as (a2 & -> & Hi2 & Hu2 & Hk2 & Hh2 & Hp2). cbn [mbind option_bind].
  set (s1 := PState (pmem s) a2).
  assert (∀ f, fa_used (palloc s) f → fa_used a2 f) as Hmono by (intros f Hf; apply Hu2, Hu; by left).
  assert (tabs D s1) as T1 by (by apply tabs_alloc_mono).
  assert (¬ pr_held (palloc s) p) as Hnh by (intros Hh; by apply Hn, (pr_held_law _ _ Hi Hh)).
  assert (data D s1 p) as Hd1.
  { split; [done|]. intros d Hd Ho. by apply Hn, (owns_used D s d). }
  assert (pages_kept (λ _, True) (palloc s) a2) as Hk.
  { intros q _ Hq. destruct (Hk1 q I Hq) as [Hq1 E1]. destruct (Hk2 q) as [Hq2 E2]; [by intros ->|done|]. by rewrite E2. }
  assert (∀ q, data D s q → data D s1 q) as Hdat by (intros q [Hq Hno]; split; [by apply (Hk q I)|done]).
  destruct z.
  - set (m' := zero_frame (pmem s) (frame_of p)).
    destruct (data_write D s1 p m' T1 Hd1) as (T2 & He & Hd & Hc).
    { intros x f Hx Hf. apply zero_frame_out. intros Hx2. by apply Hf, (in_frame_inj x). }
    eexists _, (Some p). split; [done|]. split_and!; [|done|by apply Hd|done|done|].
    + split; [done| |done]. intros q Hq. split; [by apply Hd, Hdat|]. apply Hc; [by apply Hdat|]. intros ->. by destruct Hq.
    + intros _. apply content_zero.
  - eexists _, (Some p). split; [done|]. split_and!; [|done|done|done|done|done].
    split; [done| |done]. intros q Hq. split; [by apply Hdat|done].
Qed.

Lemma copy_frame_out m f g x : ¬ in_frame x f → copy_frame m f g x = m x.
Proof.
  unfold in_frame, copy_frame. intros Hx.
  destruct (Z.leb_spec (f * PMM_PAGE_SIZE) x), (Z.ltb_spec x (f * PMM_PAGE_SIZE + PMM_PAGE_SIZE)); done || lia.
Qed.

Lemma content_copy m f g : content (copy_frame m f g) f = content m g.
Proof.
  unfold content. apply list_fmap_ext. intros i o [-> Ho]%lookup_seqZ. unfold copy_frame, PMM_PAGE_SIZE in *.
  rewrite (proj2 (Z.leb_le _ _)), (proj2 (Z.ltb_lt _ _)) by lia. cbn. f_equal. lia.
Qed.

Lemma ppn_copy_ok D s p q :
  tabs D s → data D s p → data D s q →
  ∃ s', ppn_copy s p q = Some s' ∧ palloc s' = palloc s ∧ tabs D s' ∧ same_tables D s s' ∧
    content (pmem s') (frame_of p) = content (pmem s) (frame_of q) ∧
    (∀ r, data D s r → data D s' r) ∧
    ∀ r, data D s r → r ≠ p → content (pmem s') (frame_of r) = content (pmem s) (frame_of r).
Proof.
  intros T Hp Hq. unfold ppn_copy. pose proof (tb_inv _ _ T) as Hi.
  destruct (pr_held_law _ _ Hi (proj1 Hp)) as (_ & _ & -> & _), (pr_held_law _ _ Hi (proj1 Hq)) as (_ & _ & -> & _). cbn [andb].
  destruct (data_write D s p (copy_frame (pmem s) (frame_of p) (frame_of q)) T Hp) as (T' & He & Hd & Hc).
  { intros x f Hx Hf. apply copy_frame_out. intros Hx2. by apply Hf, (in_frame_inj x). }
  eexists. split; [done|]. split_and!; [done|done|done|apply content_copy|done|done].
Qed.

Lemma data_alloc D s (a : A) p : data D s p → pr_held a p → data D (PState (pmem s) a) p.
Proof. by intros [_ Hno] Hh. Qed.

(** One reference less: the page is freed with the last one. *)
Lemma down_ok D s p c m :
  tabs D s → data D s p → pr_page (palloc s) p = Some (c, m) →
  ∃ s', ppn_refcount_down s p = Some s' ∧ pmem s' = pmem s ∧ tabs D s' ∧
    pages_kept (λ q, q ≠ p) (palloc s) (palloc s') ∧
    (1 < c → pr_held (palloc s') p ∧ pr_page (palloc s') p = Some (c - 1, m)).
Proof.
  intros T Hp Hc. pose proof (tb_inv _ _ T) as Hi. unfold ppn_refcount_down.
  destruct (pr_down_law _ _ _ _ Hi (proj1 Hp) Hc) as (a' & -> & Hi' & Hk & Hr). cbn [mbind option_bind].
  eexists. split; [done|]. split; [done|]. destruct (Z.ltb_spec 1 c) as [H1|H1].
  - destruct Hr as (Hu & Hh & Hpg). split_and!; [|done|done]. apply tabs_alloc_mono; [done|done|]. intros f. by rewrite Hu.
  - split_and!; [|done|lia]. apply tabs_alloc; [done|done|]. intros d f Hd Ho. apply Hr. split; [by eapply owns_used|].
    intros ->. by apply (proj2 Hp d Hd).
Qed.

Lemma up_ok D s p c m :
  tabs D s → data D s p → pr_page (palloc s) p = Some (c, m) → c + 1 < wsize →
  ∃ s', ppn_refcount_up s p = Some s' ∧ pmem s' = pmem s ∧ tabs D s' ∧
    pages_kept (λ q, q ≠ p) (palloc s) (palloc s') ∧
    pr_held (palloc s') p ∧ pr_page (palloc s') p = Some (c + 1, m).
Proof.
  intros T Hp Hc Hmax. pose proof (tb_inv _ _ T) as Hi. unfold ppn_refcount_up.
  destruct (pr_up_law _ _ _ _ Hi (proj1 Hp) Hc Hmax) as (a' & -> & Hi' & Hu & Hk & Hh & Hpg). cbn [mbind option_bind].
  eexists. split; [done|]. split; [done|]. split_and!; [|done|done|done].
  apply tabs_alloc_mono; [done|done|]. intros f. by rewrite Hu.
Qed.

(** ** The lock of an entry *)

(** The entry [i] of [(d, n)], locked at the address [pte]. *)
Definition locked s0 D s d va (pte : Z) : Prop :=
  let old := entry s0 d (va / PMM_PAGE_SIZE) in
  quiet D s0 s ∧ entries D s0 s d (va / PMM_PAGE_SIZE) (Info (Z.lor (attr old) PMM_LOCKED) (ppn old)) ∧
  ∃ f, table_of (pmem s (pde_addr d va)) = Some f ∧ pte = slot f va.

Lemma locked_same s0 D s s' d va pte :
  d ∈ D → 0 ≤ va < wsize → locked s0 D s d va pte → quiet D s0 s' → same_tables D s s' → locked s0 D s' d va pte.
Proof.
  intros Hd Hva (Q & E & f & Ht & Hp) Q' [E' W']. split; [done|]. split; [by eapply entries_same_r|].
  exists f. split; [|done]. unfold pde_addr in *. rewrite W'; [done|done|by apply pde_index].
Qed.

Lemma lock_ok D s M d va :
  cow_inv D s M → d ∈ D → 0 ≤ va < wsize →
  ∃ s' r, pmm_lock_page s d va = Some (s', r) ∧
    match r with
    | inl err => err = ENOMEM ∧ attr (entry s d (va / PMM_PAGE_SIZE)) = 0 ∧ quiet D s s' ∧ same_entries D s s'
    | inr (i, pte) => i = entry s d (va / PMM_PAGE_SIZE) ∧ locked s D s' d va pte
    end.
Proof.
  intros I Hd Hva. pose proof (ci_tabs _ _ _ I) as T.
  destruct (ci_map _ _ _ I d _ Hd (va_page _ Hva)) as [_ [_ Hun]].
  destruct (lock_tabs D s d va T Hd Hva) as (s' & r & E & Hs & Hr); [by rewrite entry_va|].
  exists s', r. split; [done|]. rewrite entry_va in Hr. destruct r as [err|[i pte]].
  - destruct Hr as (-> & E0 & Em). split_and!; [done| |by eapply tstep_quiet|intros e k _ _; unfold entry; by rewrite Em].
    rewrite <- entry_va. by rewrite get_empty.
  - destruct Hr as (-> & Hf & Hv & _). split; [done|]. split; [by eapply tstep_quiet|]. split; [|done].
    by apply sees_entries.
Qed.

Lemma locked_bit_or x : Z.testbit (Z.lor x PMM_LOCKED) 3 = true.
Proof. by rewrite Z.lor_spec, orb_true_r. Qed.

Lemma entry_unlock_ok D s0 s d va pte :
  d ∈ D → 0 ≤ va < wsize → locked s0 D s d va pte →
  ∃ s' i, pmm_unlock_page s pte = Some (s', i) ∧ quiet D s0 s' ∧
    entries D s0 s' d (va / PMM_PAGE_SIZE) (Info 0 (ppn (entry s0 d (va / PMM_PAGE_SIZE)))).
Proof.
  intros Hd Hva (Q & E & f & Ht & ->). pose proof (q_tabs _ _ _ Q) as T.
  assert (entry s d (va / PMM_PAGE_SIZE) = Info (Z.lor (attr (entry s0 d (va / PMM_PAGE_SIZE))) PMM_LOCKED)
            (ppn (entry s0 d (va / PMM_PAGE_SIZE)))) as Ee.
  { rewrite (E d _ Hd (va_page _ Hva)). by rewrite decide_True. }
  destruct (unlock_tabs D s d va f T Hd Hva Ht) as (s' & i & Ex & Hs & _ & Hv).
  { rewrite entry_va, Ee. apply locked_bit_or. }
  exists s', i. split; [done|]. split; [by eapply quiet_trans, tstep_quiet|].
  eapply entries_trans; [exact E|]. apply sees_entries in Hv. rewrite entry_va, Ee in Hv. exact Hv.
Qed.

(** The entry is locked, so its table exists: [pmm_set_page] does not fail. *)
Lemma set_locked D s0 s d va pte i :
  d ∈ D → 0 ≤ va < wsize → locked s0 D s d va pte → small_attr (attr i) → 0 ≤ ppn i < 2 ^ 28 →
  ∃ s', pmm_set_page (λ m, m) s d va i = Some (s', 0) ∧ quiet D s0 s' ∧ palloc s' = palloc s ∧ tstep D d s s' ∧
    entries D s0 s' d (va / PMM_PAGE_SIZE) i.
Proof.
  intros Hd Hva (Q & E & f & Ht & _) Ha Hp. pose proof (q_tabs _ _ _ Q) as T.
  destruct (set_tabs D s d va i T Hd Hva Ha Hp) as (s' & err & Ex & Hs & Hal & Hr).
  destruct Hal as [Hal ->]. { intros E0. rewrite E0 in Ht. done. }
  exists s'. destruct Hr as [[_ Hv]|[? _]]; [|done]. split_and!; [done|by eapply quiet_trans, tstep_quiet|done|done|].
  eapply entries_trans; [exact E|by apply sees_entries].
Qed.

(** ** The new entry of a page *)

(** A page nobody refers to yet. *)
Definition fresh_page D s s' p : Prop :=
  data D s' p ∧ ¬ pr_held (palloc s) p ∧ ∃ m, pr_page (palloc s') p = Some (1, m).

Lemma fresh_unmapped D s s' M p k : cow_inv D s M → fresh_page D s s' p → M !! k ≠ Some p.
Proof. intros HI (_ & Hn & _) Hk. by apply Hn, (ci_data _ _ _ HI k). Qed.

(** The count of a page of a task. *)
Lemma data_count D s M k p :
  cow_inv D s M → M !! k = Some p → ∃ c m, pr_page (palloc s) p = Some (c, m) ∧ Z.of_nat (refs M p) ≤ c.
Proof.
  intros I Hk. destruct (ci_data _ _ _ I k p Hk) as [Hh _].
  destruct (pr_held_law _ _ (tb_inv _ _ (ci_tabs _ _ _ I)) Hh) as (_ & _ & _ & c & m & Hc & _).
  exists c, m. split; [done|]. by eapply ci_refs.
Qed.

Lemma maps_to_ppn i p : maps_to i = Some p → p = ppn i.
Proof. unfold maps_to. by destruct (attr i =? 0); intros; simplify_eq. Qed.

(** The references once [(d, n)] no longer refers to [old]. *)
Lemma refs_set_map M k i old p :
  M !! k = Some old → maps_to i ≠ Some p →
  refs M p = (refs (set_map M k i) p + if decide (old = p) then 1 else 0)%nat.
Proof.
  intros Hk Hp. rewrite (refs_delete M k old p Hk). f_equal. unfold set_map.
  destruct (maps_to i) as [q|]; [|done]. rewrite <- insert_delete_eq, refs_insert by apply lookup_delete_eq.
  rewrite decide_False by congruence. lia.
Qed.

Lemma refs_fresh M k i p : maps_to i = Some p → (∀ j, M !! j ≠ Some p) → refs (set_map M k i) p = 1%nat.
Proof.
  intros E Hn. unfold set_map. rewrite E, <- insert_delete_eq, refs_insert by apply lookup_delete_eq.
  rewrite decide_True, refs_zero; [done| |done]. intros j Hj. apply lookup_delete_Some in Hj as [_ Hj]. by eapply Hn.
Qed.

Lemma view_set_map s' s M k i D :
  quiet D s s' → (∀ k p, M !! k = Some p → data D s p) →
  view s' (set_map M k i) =
    match maps_to i with
    | Some p => <[k := content (pmem s') (frame_of p)]> (view s M)
    | None => delete k (view s M)
    end.
Proof.
  intros Q Hd. unfold set_map. rewrite <- (view_quiet D s s' M Q Hd). unfold view.
  destruct (maps_to i) as [p|]; [by rewrite fmap_insert|by rewrite fmap_delete].
Qed.

(** The entry has been replaced and the reference it stood for is dropped. *)
Lemma inv_unmap D s M s' d n i old :
  cow_inv D s M → d ∈ D → page_no n → M !! (d, n) = Some old → quiet D s s' → entries D s s' d n i →
  clean (attr i) → (∀ p, maps_to i = Some p → fresh_page D s s' p) →
  ∃ s2, ppn_refcount_down s' old = Some s2 ∧ pmem s2 = pmem s' ∧ cow_inv D s2 (set_map M (d, n) i).
Proof.
  intros HI Hd Hn Hold Q He Hc Hfr. pose proof (ci_data _ _ _ HI _ _ Hold) as Hdo.
  destruct (data_count D s M _ _ HI Hold) as (c & m & Hcm & Hrc).
  destruct (q_data _ _ _ Q _ Hdo) as [Hdo' _]. destruct (q_pages _ _ _ Q old I (proj1 Hdo)) as [_ Ep].
  destruct (down_ok D s' old c m (q_tabs _ _ _ Q) Hdo') as (s2 & Ex & Em & T2 & K2 & H2); [by rewrite Ep|].
  exists s2. split; [done|]. split; [done|].
  assert (∀ p, maps_to i = Some p → p ≠ old) as Hne.
  { intros p Hp ->. by apply (fresh_unmapped D s s' M old (d, n) HI (Hfr _ Hp)). }
  assert (∀ k p, set_map M (d, n) i !! k = Some p → maps_to i ≠ Some p →
            M !! k = Some p ∧ (p = old → 1 < c)) as Hrest.
  { intros k p Hk Hp. destruct (decide (k = (d, n))) as [->|Hk']; [by rewrite set_map_eq in Hk|].
    rewrite set_map_ne in Hk by done. split; [done|]. intros ->.
    assert (delete (d, n) M !! k = Some old) as E%refs_pos by (by rewrite lookup_delete_ne).
    rewrite (refs_delete M (d, n) old old Hold), decide_True in Hrc by done. lia. }
  apply (inv_step D s M s2 d n i); try done.
  - intros e k He' Hk. unfold entry. rewrite Em. by apply He.
  - intros k p Hk. unfold data. rewrite Em. destruct (decide (maps_to i = Some p)) as [Ep'|Ep'].
    + destruct (Hfr p Ep') as ([Hh Hno] & _). split; [by apply (K2 p (Hne p Ep'))|done].
    + destruct (Hrest k p Hk Ep') as [HM Hc1]. destruct (q_data _ _ _ Q p (ci_data _ _ _ HI k p HM)) as [[Hh Hno] _].
      split; [|done]. destruct (decide (p = old)) as [->|]; [by apply H2, Hc1|by apply (K2 p)].
  - intros k p c' m' Hk Hcp. destruct (decide (maps_to i = Some p)) as [Ep'|Ep'].
    + destruct (Hfr p Ep') as ([Hh _] & Hnh & m1 & Hp1). destruct (K2 p (Hne p Ep') Hh) as [_ E2].
      rewrite (refs_fresh M (d, n) i p Ep'); [|intros j; by eapply fresh_unmapped, Hfr].
      rewrite E2, Hp1 in Hcp. by simplify_eq.
    + destruct (Hrest k p Hk Ep') as [HM Hc1]. pose proof (refs_set_map M (d, n) i old p Hold Ep') as Hr.
      destruct (ci_data _ _ _ HI k p HM) as [Hh _]. destruct (q_pages _ _ _ Q p I Hh) as [Hh' E1].
      destruct (decide (old = p)) as [<-|Hop].
      * destruct (H2 (Hc1 eq_refl)) as [_ E2]. rewrite E2 in Hcp. simplify_eq. lia.
      * destruct (K2 p (not_eq_sym Hop) Hh') as [_ E2]. rewrite E2, E1 in Hcp.
        pose proof (ci_refs _ _ _ HI k p c' m' HM Hcp). lia.
  - intros e k HM Hi. exfalso. by eapply fresh_unmapped, HM; [|apply Hfr].
Qed.

(** The entry keeps its page. *)
Lemma inv_reattr D s M s' d n i :
  cow_inv D s M → d ∈ D → page_no n → M !! (d, n) = Some (ppn i) → quiet D s s' → entries D s s' d n i →
  clean (attr i) → attr i ≠ 0 → (Z.testbit (attr i) 26 = true → ∀ k, M !! k = Some (ppn i) → k = (d, n)) →
  cow_inv D s' M.
Proof.
  intros HI Hd Hn HM Q He Hc Ha Hw.
  assert (maps_to i = Some (ppn i)) as Hi by (unfold maps_to; by rewrite (proj2 (Z.eqb_neq _ _)) by done).
  assert (set_map M (d, n) i = M) as EM by (unfold set_map; rewrite Hi; by apply insert_id).
  rewrite <- EM. apply (inv_step D s M s' d n i); rewrite ?EM; try done; [apply Q|..].
  - intros k p Hk. by apply (q_data _ _ _ Q), (ci_data _ _ _ HI k).
  - intros k p c m Hk. destruct (ci_data _ _ _ HI k p Hk) as [Hh _].
    rewrite (proj2 (q_pages _ _ _ Q p I Hh)). by apply (ci_refs _ _ _ HI k).
  - intros e k Hk _ Hne. split.
    + destruct (Z.testbit (attr (entry s e k)) 26) eqn:E; [|done]. destruct Hne. symmetry. by eapply ci_write.
    + destruct (Z.testbit (attr i) 26) eqn:E; [|done]. destruct Hne. by apply Hw.
Qed.

(** The entry gets a fresh page or none, and nothing is released. *)
Lemma inv_replace D s M s' d n i :
  cow_inv D s M → d ∈ D → page_no n → quiet D s s' → entries D s s' d n i → clean (attr i) →
  (∀ p, maps_to i = Some p → fresh_page D s s' p) → cow_inv D s' (set_map M (d, n) i).
Proof.
  intros HI Hd Hn Q He Hc Hfr.
  assert (∀ k p, set_map M (d, n) i !! k = Some p → maps_to i ≠ Some p → M !! k = Some p) as Hrest.
  { intros k p Hk Hp. destruct (decide (k = (d, n))) as [->|Hk']; [by rewrite set_map_eq in Hk|]. by rewrite set_map_ne in Hk. }
  apply (inv_step D s M s' d n i); try done; [apply Q|..].
  - intros k p Hk. destruct (decide (maps_to i = Some p)) as [Ep|Ep]; [by apply Hfr|].
    by apply (q_data _ _ _ Q), (ci_data _ _ _ HI k), Hrest.
  - intros k p c m Hk Hcp. destruct (decide (maps_to i = Some p)) as [Ep|Ep].
    + destruct (Hfr p Ep) as (_ & _ & m1 & Hp1). rewrite (refs_fresh M (d, n) i p Ep); [|intros j; by eapply fresh_unmapped, Hfr].
      rewrite Hp1 in Hcp. by simplify_eq.
    + apply Hrest in Hk; [|done]. destruct (ci_data _ _ _ HI k p Hk) as [Hh _].
      rewrite (proj2 (q_pages _ _ _ Q p I Hh)) in Hcp. pose proof (ci_refs _ _ _ HI k p c m Hk Hcp).
      assert (refs (set_map M (d, n) i) p ≤ refs M p)%nat; [|lia]. unfold set_map. destruct (maps_to i) as [q|]; [|apply refs_le].
      rewrite <- insert_delete_eq, refs_insert by apply lookup_delete_eq. rewrite decide_False by congruence.
      pose proof (refs_le M (d, n) p). lia.
  - intros e k HM Hi. exfalso. by eapply fresh_unmapped, HM; [|apply Hfr].
Qed.

(** ** Copy on write *)

Definition cow_attr (pgprot : Z) : Z :=
  Z.land (Z.lor pgprot PMM_WRITE) (Z.lnot (Z.lor PMM_COW PMM_MIGRATE)).

Lemma cow_attr_bit x k : 2 ≤ k → Z.testbit (cow_attr x) k = Z.testbit x k || (k =? 26).
Proof.
  intros Hk. unfold cow_attr, PMM_WRITE. rewrite Z.land_spec, Z.lor_spec, Z.lnot_spec by lia.
  change (Z.lor PMM_COW PMM_MIGRATE) with (Z.ones 2). rewrite Z.ones_spec_high, andb_true_r by lia.
  rewrite Z.shiftl_1_l, Z.pow2_bits_eqb by done. by rewrite Z.eqb_sym.
Qed.

Lemma cow_attr_ok x : clean x → clean (cow_attr x) ∧ cow_attr x ≠ 0 ∧ Z.testbit (cow_attr x) 26 = true ∧
  Z.testbit (cow_attr x) 31 = Z.testbit x 31.
Proof.
  intros [[H30 H4] H3]. unfold clean, small_attr. rewrite !cow_attr_bit, H30, H4, H3 by lia. split_and!; try done.
  - intros E. pose proof (cow_attr_bit x 26 ltac:(lia)) as Hb. rewrite E, orb_true_r in Hb. done.
  - by rewrite orb_true_r.
  - by rewrite orb_false_r.
Qed.

Lemma maps_to_nonzero i p : maps_to i = Some p → attr i ≠ 0 ∧ ppn i = p.
Proof. unfold maps_to. destruct (Z.eqb_spec (attr i) 0); [done|]. by intros [= <-]. Qed.

Lemma maps_to_some i : attr i ≠ 0 → maps_to i = Some (ppn i).
Proof. intros Ha. unfold maps_to. by rewrite (proj2 (Z.eqb_neq _ _)). Qed.

(** What an operation on the page [n] of [d] does: its entry becomes [i] and the tasks see the
    memory [V]. *)
Record effect D s M s' d n (i : page_info) (V : gmap (Z * Z) (list Z)) : Prop := Effect {
  ef_inv : cow_inv D s' (set_map M (d, n) i);
  ef_entries : entries D s s' d n i;
  ef_view : view s' (set_map M (d, n) i) = V }.

Lemma effect_release D s M s' d n i s2 :
  cow_inv D s M → quiet D s s' → entries D s s' d n i → pmem s2 = pmem s' →
  cow_inv D s2 (set_map M (d, n) i) →
  effect D s M s2 d n i
    match maps_to i with
    | Some p => <[(d, n) := content (pmem s') (frame_of p)]> (view s M)
    | None => delete (d, n) (view s M)
    end.
Proof.
  intros HI Q He Em HI2. split; [done|intros e k Hd Hk; unfold entry; rewrite Em; by apply He|].
  assert (∀ M', view s2 M' = view s' M') as Ev by (intros M'; unfold view; by rewrite Em).
  rewrite Ev. apply (view_set_map s' s M (d, n) i D Q), HI.
Qed.

Lemma set_map_id M k i : M !! k = maps_to i → set_map M k i = M.
Proof. intros E. unfold set_map. destruct (maps_to i); [by apply insert_id|by apply delete_id]. Qed.

(** The lock of an entry is given back: its page is lost, the others are not concerned. *)
Lemma unlock_loses D s0 M s d va pte :
  cow_inv D s0 M → d ∈ D → 0 ≤ va < wsize → locked s0 D s d va pte →
  let n := va / PMM_PAGE_SIZE in
  ∃ s' i j, pmm_unlock_page s pte = Some (s', j) ∧ attr i = 0 ∧ effect D s0 M s' d n i (delete (d, n) (view s0 M)).
Proof.
  intros HI Hd Hva Hl n. destruct (entry_unlock_ok D s0 s d va pte Hd Hva Hl) as (s' & j & Ex & Q & He).
  fold n in He. set (i := Info 0 _) in He. exists s', i, j. split; [done|]. split; [done|]. split; [|done|].
  - eapply inv_replace; [done|done|by apply va_page|done|done|done|done].
  - rewrite (view_set_map s' s0 M (d, n) i D Q); [done|apply HI].
Qed.

Lemma last_owner_ok D s M s1 d n p :
  cow_inv D s M → M !! (d, n) = Some p → quiet D s s1 →
  ∃ b : bool, last_owner s1 p = Some b ∧ (b = true → ∀ k, M !! k = Some p → k = (d, n)).
Proof.
  intros HI HM Q. destruct (ci_data _ _ _ HI _ _ HM) as [Hh _]. destruct (q_pages _ _ _ Q p I Hh) as [Hh1 E1].
  destruct (pr_held_law _ _ (tb_inv _ _ (q_tabs _ _ _ Q)) Hh1) as (_ & _ & Hloc & c & m & Hc & _).
  unfold last_owner. rewrite Hloc, Hc. cbn [mbind option_bind]. eexists. split; [done|].
  intros [_ ->%Z.eqb_eq]%andb_true_iff k Hk. rewrite E1 in Hc. pose proof (ci_refs _ _ _ HI _ _ _ _ HM Hc).
  eapply (refs_one M p); [lia|done|done].
Qed.

(** A copy into a fresh page. *)
Lemma copy_fresh D s s2 p q :
  quiet D s s2 → fresh_page D s s2 p → data D s q →
  ∃ s3, ppn_copy s2 p q = Some s3 ∧ quiet D s s3 ∧ same_tables D s2 s3 ∧ fresh_page D s s3 p ∧
    content (pmem s3) (frame_of p) = content (pmem s) (frame_of q).
Proof.
  intros Q (Hp & Hn & m & Hpg) Hq. destruct (q_data _ _ _ Q q Hq) as [Hq2 Eq].
  destruct (ppn_copy_ok D s2 p q (q_tabs _ _ _ Q) Hp Hq2) as (s3 & Ex & Ea & T3 & Hst & Hc & Hd & Ho).
  exists s3. split_and!; [done| |done| |by rewrite Hc].
  - split; [done| |rewrite Ea; apply Q]. intros r Hr. destruct (q_data _ _ _ Q r Hr) as [Hr2 Er].
    split; [by apply Hd|]. rewrite Ho; [done|done|]. intros ->. by apply Hn, Hr.
  - split; [by apply Hd|]. split; [done|]. rewrite Ea. eauto.
Qed.

Lemma new_page_fresh D s s1 s2 p m :
  quiet D s s1 → data D s2 p → ¬ pr_held (palloc s1) p → pr_page (palloc s2) p = Some (1, m) → fresh_page D s s2 p.
Proof. intros Q Hd Hn Hp. split; [done|]. split; [|eauto]. intros Hh. by apply Hn, (q_pages _ _ _ Q p I). Qed.

Lemma fresh_tstep D s d s3 s4 p :
  quiet D s s3 → d ∈ D → tstep D d s3 s4 → fresh_page D s s3 p →
  fresh_page D s s4 p ∧ content (pmem s4) (frame_of p) = content (pmem s3) (frame_of p).
Proof.
  intros Q Hd Hs (Hp & Hn & m & Hpg). pose proof (tstep_quiet D d s3 s4 (q_tabs _ _ _ Q) Hd Hs) as Q4.
  destruct (q_data _ _ _ Q4 p Hp) as [Hp4 Ec]. split; [|done]. split; [done|]. split; [done|].
  exists m. by rewrite (proj2 (q_pages _ _ _ Q4 p I (proj1 Hp))).
Qed.

(** The handler of a write to a shared page: the task gets its own page, with the same
    contents; or there is no page left, and the page of the fault is lost. *)
Lemma cow_ok D s M d va pgprot :
  cow_inv D s M → d ∈ D → 0 ≤ va < wsize → clean pgprot →
  let n := va / PMM_PAGE_SIZE in
  attr (entry s d n) ≠ 0 → ctrue (Z.land (attr (entry s d n)) PMM_COW) = true →
  ∃ s' err i V, vmm_do_cow s d pgprot va = Some (s', err) ∧ effect D s M s' d n i V ∧
    (err = 0 ∧ attr i = cow_attr pgprot ∧ V = view s M ∨
     err = ENOMEM ∧ attr i = 0 ∧ V = delete (d, n) (view s M)).
Proof.
  intros HI Hd Hva Hcl n Ha Hcow. pose proof (va_page _ Hva) as Hn. fold n in Hn.
  destruct (ci_map _ _ _ HI d n Hd Hn) as [HM _]. rewrite maps_to_some in HM by done.
  set (old := entry s d n) in *. destruct (cow_attr_ok pgprot Hcl) as (Hc' & Hc0 & _).
  pose proof (ci_data _ _ _ HI _ _ HM) as Hdo.
  unfold vmm_do_cow. destruct (lock_ok D s M d va HI Hd Hva) as (s1 & r & -> & Hr). fold n old in Hr. cbn [mbind option_bind].
  destruct r as [err|[i pte]]; [by destruct Hr as (_ & ? & _)|]. destruct Hr as [-> Hl]. rewrite Hcow. cbn [negb].
  pose proof Hl as (Q1 & _). destruct (last_owner_ok D s M s1 d n (ppn old) HI HM Q1) as (b & -> & Hb). cbn [mbind option_bind].
  fold (cow_attr pgprot). destruct b; cbn [mbind option_bind].
  - destruct (pr_held_law _ _ (tb_inv _ _ (ci_tabs _ _ _ HI)) (proj1 Hdo)) as (Hrange & _). set (i := Info (cow_attr pgprot) (ppn old)).
    destruct (set_locked D s s1 d va pte i Hd Hva Hl) as (s2 & -> & Q2 & _ & _ & He); [apply Hc'|cbn; lia|].
    cbn [mbind option_bind ctrue Z.eqb negb]. exists s2, 0, i, (view s M). split; [done|]. split; [|left; split_and!; reflexivity].
    assert (set_map M (d, n) i = M) as EM by (apply set_map_id; by rewrite maps_to_some).
    split; rewrite ?EM; [|done|apply (view_quiet D s s2 M Q2), HI]. apply (inv_reattr D s M s2 d n i); auto.
  - destruct (new_page_ok D s1 false (q_tabs _ _ _ Q1)) as (s2 & r & -> & Q12 & Hst2 & Hr). cbn [mbind option_bind].
    pose proof (quiet_trans _ _ _ _ Q1 Q12) as Q2. pose proof (locked_same s D s1 s2 d va pte Hd Hva Hl Q2 Hst2) as Hl2.
    destruct r as [p|].
    2:{ destruct (unlock_loses D s M s2 d va pte HI Hd Hva Hl2) as (s3 & i & j & -> & Hi & Hef). cbn [mbind option_bind].
        exists s3, ENOMEM, i, (delete (d, n) (view s M)). split_and!; [done|done|by right]. }
    destruct Hr as (Hdp & Hnp & Hpp & _).
    destruct (copy_fresh D s s2 p (ppn old) Q2 (new_page_fresh _ _ _ _ _ _ Q1 Hdp Hnp Hpp) Hdo) as (s3 & -> & Q3 & Hst3 & Hf3 & Ec3).
    cbn [mbind option_bind]. pose proof (locked_same s D s2 s3 d va pte Hd Hva Hl2 Q3 Hst3) as Hl3.
    destruct (pr_held_law _ _ (tb_inv _ _ (q_tabs _ _ _ Q3)) (proj1 (proj1 Hf3))) as (Hrange & _). set (i := Info (cow_attr pgprot) p).
    destruct (set_locked D s s3 d va pte i Hd Hva Hl3) as (s4 & -> & Q4 & _ & Ht4 & He); [apply Hc'|cbn; lia|].
    cbn [mbind option_bind ctrue Z.eqb negb]. destruct (fresh_tstep D s d s3 s4 p Q3 Hd Ht4 Hf3) as [Hf4 Ec4].
    assert (maps_to i = Some p) as Hi by (by apply maps_to_some).
    destruct (inv_unmap D s M s4 d n i (ppn old) HI Hd Hn HM Q4 He) as (s5 & -> & Em & HI5); [apply Hc'|by rewrite Hi; intros q [= <-]|].
    cbn [mbind option_bind]. exists s5, 0, i, (view s M). split; [done|]. split; [|left; split_and!; reflexivity].
    pose proof (effect_release D s M s4 d n i s5 HI Q4 He Em HI5) as Hef. rewrite Hi, Ec4, Ec3, insert_id in Hef; [done|].
    unfold view. by rewrite lookup_fmap, HM.
Qed.

(** ** The other faults *)

Definition zero_page : list Z := replicate (Z.to_nat PMM_PAGE_SIZE) 0.

(** [vmm_do_aod] gives the page a fresh page of zeros, whatever the entry was. *)
Lemma aod_ok D s M d va pgprot :
  cow_inv D s M → d ∈ D → 0 ≤ va < wsize → clean pgprot → pgprot ≠ 0 →
  let n := va / PMM_PAGE_SIZE in
  ∃ s' err i V, vmm_do_aod s d pgprot va = Some (s', err) ∧ effect D s M s' d n i V ∧
    (err = 0 ∧ attr i = pgprot ∧ V = <[(d, n) := zero_page]> (view s M) ∨
     err = ENOMEM ∧ attr i = 0 ∧ V = delete (d, n) (view s M)).
Proof.
  intros HI Hd Hva Hcl Hp0 n. pose proof (va_page _ Hva) as Hn. fold n in Hn.
  destruct (ci_map _ _ _ HI d n Hd Hn) as [HM Hcn].
  unfold vmm_do_aod. destruct (lock_ok D s M d va HI Hd Hva) as (s1 & r & -> & Hr). fold n in Hr. cbn [mbind option_bind].
  destruct r as [err|[old pte]].
  { destruct Hr as (-> & Ha & Q1 & He). set (i := entry s d n) in *.
    assert (entries D s s1 d n i) as He' by (intros e k Hd' Hk; rewrite He by done; by case_decide; simplify_eq).
    assert (maps_to i = None) as Hi by (unfold maps_to; by rewrite Ha).
    exists s1, ENOMEM, i, (delete (d, n) (view s M)). split; [done|]. split; [|by right]. split; [|done|].
    - apply (inv_replace D s M s1 d n i HI Hd Hn Q1 He' Hcn). by rewrite Hi.
    - rewrite (view_set_map s1 s M (d, n) i D Q1), Hi; [done|apply HI]. }
  destruct Hr as [-> Hl]. pose proof Hl as (Q1 & _).
  destruct (new_page_ok D s1 true (q_tabs _ _ _ Q1)) as (s2 & r & -> & Q12 & Hst2 & Hr). cbn [mbind option_bind].
  pose proof (quiet_trans _ _ _ _ Q1 Q12) as Q2. pose proof (locked_same s D s1 s2 d va pte Hd Hva Hl Q2 Hst2) as Hl2.
  destruct r as [p|].
  2:{ destruct (unlock_loses D s M s2 d va pte HI Hd Hva Hl2) as (s3 & i & j & -> & Hi & Hef). cbn [mbind option_bind].
      exists s3, ENOMEM, i, (delete (d, n) (view s M)). split_and!; [done|done|by right]. }
  destruct Hr as (Hdp & Hnp & Hpp & Hz). pose proof (new_page_fresh _ _ _ _ _ _ Q1 Hdp Hnp Hpp) as Hf2.
  destruct (pr_held_law _ _ (tb_inv _ _ (q_tabs _ _ _ Q2)) (proj1 Hdp)) as (Hrange & _). set (i := Info pgprot p).
  destruct (set_locked D s s2 d va pte i Hd Hva Hl2) as (s3 & -> & Q3 & _ & Ht3 & He); [apply Hcl|cbn; lia|].
  cbn [mbind option_bind ctrue Z.eqb negb]. destruct (fresh_tstep D s d s2 s3 p Q2 Hd Ht3 Hf2) as [Hf3 Ec3].
  assert (maps_to i = Some p) as Hi by (by apply maps_to_some).
  exists s3, 0, i, (<[(d, n) := zero_page]> (view s M)). split; [done|]. split; [|left; split_and!; reflexivity]. split; [|done|].
  - apply (inv_replace D s M s3 d n i HI Hd Hn Q3 He Hcl). by rewrite Hi; intros q [= <-].
  - rewrite (view_set_map s3 s M (d, n) i D Q3), Hi, Ec3, (Hz eq_refl); [done|apply HI].
Qed.

Definition migrate_attr (x : Z) : Z :=
  Z.land (Z.land (Z.lor x PMM_PRESENT) (Z.lnot PMM_MIGRATE)) (Z.lnot PMM_LOCKED).

Lemma migrate_attr_bit x k : 0 ≤ k →
  Z.testbit (migrate_attr x) k = (Z.testbit x k || (k =? 31)) && negb (k =? 1) && negb (k =? 3).
Proof.
  intros Hk. unfold migrate_attr. rewrite !Z.land_spec, Z.lor_spec, !Z.lnot_spec by done.
  change PMM_PRESENT with (2 ^ 31). change PMM_MIGRATE with (2 ^ 1). change PMM_LOCKED with (2 ^ 3).
  rewrite !Z.pow2_bits_eqb by done. by rewrite (Z.eqb_sym 31), (Z.eqb_sym 1), (Z.eqb_sym 3).
Qed.

(** The page of the fault is taken back; it is in the cluster. *)
Lemma migrate_ok D s M d va :
  cow_inv D s M → d ∈ D → 0 ≤ va < wsize →
  let n := va / PMM_PAGE_SIZE in
  attr (entry s d n) ≠ 0 → ctrue (Z.land (attr (entry s d n)) PMM_MIGRATE) = true →
  ∃ s' i, vmm_do_migrate s d (entry s d n) va = Some (s', 0) ∧ effect D s M s' d n i (view s M) ∧
    attr i = migrate_attr (attr (entry s d n)).
Proof.
  intros HI Hd Hva n Ha Hmg. pose proof (va_page _ Hva) as Hn. fold n in Hn.
  destruct (ci_map _ _ _ HI d n Hd Hn) as [HM [[H30 H4] H3]]. rewrite maps_to_some in HM by done.
  set (old := entry s d n) in *. pose proof (ci_data _ _ _ HI _ _ HM) as Hdo.
  destruct (pr_held_law _ _ (tb_inv _ _ (ci_tabs _ _ _ HI)) (proj1 Hdo)) as (Hrange & _).
  unfold vmm_do_migrate. assert (ctrue (ppn old) = true) as -> by (unfold ctrue; by rewrite (proj2 (Z.eqb_neq _ _)) by lia).
  cbn [cassert mbind option_bind].
  destruct (lock_ok D s M d va HI Hd Hva) as (s1 & r & -> & Hr). fold n old in Hr. cbn [mbind option_bind].
  destruct r as [err|[i pte]]; [by destruct Hr as (_ & ? & _)|]. destruct Hr as [-> Hl]. rewrite Z.eqb_refl, Hmg. cbn [negb orb].
  pose proof Hl as (Q1 & _). destruct (q_data _ _ _ Q1 _ Hdo) as [[Hh1 _] _].
  destruct (pr_held_law _ _ (tb_inv _ _ (q_tabs _ _ _ Q1)) Hh1) as (_ & _ & -> & _). cbn [mbind option_bind].
  fold (migrate_attr (attr old)). set (i := Info (migrate_attr (attr old)) (ppn old)).
  assert (clean (attr i)) as Hci.
  { unfold clean, small_attr, i. cbn [attr]. rewrite !migrate_attr_bit, H30, H4, H3 by done. done. }
  assert (attr i ≠ 0) as Hi0.
  { intros E. pose proof (migrate_attr_bit (attr old) 31 ltac:(lia)) as Hb. unfold i in E. cbn [attr] in E.
    rewrite E, orb_true_r in Hb. done. }
  destruct (set_locked D s s1 d va pte i Hd Hva Hl) as (s2 & -> & Q2 & _ & _ & He); [apply Hci|cbn; lia|].
  cbn [mbind option_bind ctrue Z.eqb negb]. exists s2, i. split; [done|]. split; [|done].
  assert (set_map M (d, n) i = M) as EM by (apply set_map_id; by rewrite maps_to_some).
  split; rewrite ?EM; [|done|apply (view_quiet D s s2 M Q2), HI]. apply (inv_reattr D s M s2 d n i); try done.
  unfold i. cbn [attr]. rewrite migrate_attr_bit by done. cbn. rewrite !orb_false_r, !andb_true_r. intros Hw k Hk.
  by eapply (ci_write _ _ _ HI).
Qed.
End cow.
