(* ===== verification/CowSystem.v ===== *)
(** * Tasks that share pages

    The accesses of tasks to their memory, fork, the release of regions and the requests to
    migrate pages, as operations on the abstract memory of [CowSpec]: every task has its own
    memory, whatever pages are shared below. *)

From S2P Require Import Prelude Bits Page Pmm VmRegion Cow CowTables CowSpec.

Open Scope Z_scope.

#[local] Opaque zero_page.

Section system.
Context {A : Type} `{FrameAllocatorLaws A} `{!PageRefs A} `{!PageRefsLaws A}.
Implicit Types (s : pstate A) (D : gset Z) (d e n p : Z) (M : mapping).
#[local] Abbreviation memory_of_tasks := (gmap (Z * Z) (list Z)).

(** ** Regions *)

(** A region the tasks may read; it has small pages. *)
Record user_region (rg : vm_region_s) : Prop := UserRegion {
  ur_clean : clean (vm_pgprot rg);
  ur_present : Z.testbit (vm_pgprot rg) 31 = true;
  ur_write : Z.testbit (vm_pgprot rg) 26 = flag (vm_prot rg) VM_REG_WR;
  ur_read : flag (vm_prot rg) VM_REG_RD = true;
  ur_init : flag (vm_flags rg) VM_REG_INIT = false }.

(** The attributes an entry may have: present or to be migrated; writable only where the region
    is, and there to be copied unless it is writable. *)
Definition usable_attr (rg : vm_region_s) (x : Z) : Prop :=
  x = 0 ∨ Z.testbit x 31 || Z.testbit x 1 = true ∧
          (flag (vm_prot rg) VM_REG_WR = true → Z.testbit x 26 || Z.testbit x 0 = true) ∧
          (Z.testbit x 26 = true → flag (vm_prot rg) VM_REG_WR = true).

(** The exception reports the handlers rely on. *)
Definition report_ok (mmu_report : page_info → bool → Z) : Prop :=
  ∀ i w, pmm_except_isWrite (mmu_report i w) = w ∧ pmm_except_isRights (mmu_report i w) = false ∧
         pmm_except_isExecute (mmu_report i w) = false.

(** A page is there after the first access to it. *)
Definition touch (V : memory_of_tasks) (k : Z * Z) : memory_of_tasks :=
  match V !! k with Some _ => V | None => <[k := zero_page]> V end.

Lemma cow_bit x : ctrue (Z.land x PMM_COW) = Z.testbit x 0.
Proof. apply (land_pow2 x 0). done. Qed.
Lemma migrate_bit x : ctrue (Z.land x PMM_MIGRATE) = Z.testbit x 1.
Proof. apply (land_pow2 x 1). done. Qed.
Lemma present_bit x : ctrue (Z.land x PMM_PRESENT) = Z.testbit x 31.
Proof. apply (land_pow2 x 31). done. Qed.

Lemma nonzero_bit x k : Z.testbit x k = true → x ≠ 0.
Proof. intros Hb ->. by rewrite Z.testbit_0_l in Hb. Qed.

(** ** Faults *)

(** A fault is resolved at once: the same access succeeds afterwards. *)
Lemma fault_ok D s M d va rg flags (w : bool) :
  cow_inv D s M → d ∈ D → 0 ≤ va < wsize → user_region rg →
  let n := va / PMM_PAGE_SIZE in
  usable_attr rg (attr (entry s d n)) → (w = true → flag (vm_prot rg) VM_REG_WR = true) →
  pmm_except_isWrite flags = w → pmm_except_isRights flags = false → pmm_except_isExecute flags = false →
  translate s d w va = None →
  ∃ s' err i V, vm_region_update s d rg va flags = Some (s', err) ∧ effect D s M s' d n i V ∧
    usable_attr rg (attr i) ∧
    (err = 0 ∧ V = touch (view s M) (d, n) ∧ Z.testbit (attr i) 31 = true ∧ (w = true → Z.testbit (attr i) 26 = true) ∨
     err = ENOMEM ∧ attr i = 0 ∧ V = delete (d, n) (view s M)).
Proof.
  intros HI Hd Hva [Hc H31 Hw HR Hini] n Hus Hwr Hfw Hfr Hfx Htr. pose proof (va_page _ Hva) as Hn. fold n in Hn.
  unfold vm_region_update. rewrite Hfr, Hfx, Hini, HR, Hfw. cbn [negb]. rewrite andb_false_r.
  assert (w && negb (flag (vm_prot rg) VM_REG_WR) = false) as -> by (destruct w; [by rewrite Hwr|done]). cbn [andb].
  unfold vmm_default_pagefault. rewrite entry_va. fold n. rewrite Hfw. set (old := entry s d n) in *.
  destruct (ci_map _ _ _ HI d n Hd Hn) as [HM _]. fold old in HM.
  unfold translate in Htr. rewrite entry_va in Htr. fold n old in Htr.
  destruct (decide (attr old = 0)) as [Ha|Ha].
  - unfold ctrue at 1. rewrite Ha. cbn [Z.eqb negb andb].
    destruct (aod_ok D s M d va (vm_pgprot rg) HI Hd Hva Hc (nonzero_bit _ _ H31)) as (s' & err & i & V & -> & Hef & Hr). fold n in Hef, Hr.
    exists s', err, i, V. split; [done|]. split; [done|].
    assert (view s M !! (d, n) = None) as Hv by (unfold view; rewrite lookup_fmap, HM; unfold maps_to; by rewrite Ha).
    destruct Hr as [(-> & Hi & ->)|(-> & Hi & ->)]; rewrite Hi.
    + split; [right; rewrite H31, Hw; split_and!; [done|by intros ->|done]|]. left. unfold touch. rewrite Hv, Hw. split_and!; auto.
    + split; [by left|]. by right.
  - rewrite maps_to_some in HM by done. destruct (ci_data _ _ _ HI _ _ HM) as [Hh _].
    destruct (pr_held_law _ _ (tb_inv _ _ (ci_tabs _ _ _ HI)) Hh) as (Hrange & _).
    assert (ctrue (attr old) && ctrue (ppn old) = true) as ->.
    { unfold ctrue. by rewrite !(proj2 (Z.eqb_neq _ _)) by lia. }
    assert (touch (view s M) (d, n) = view s M) as Ht by (unfold touch, view; by rewrite lookup_fmap, HM).
    rewrite cow_bit, migrate_bit. destruct Hus as [?|(Hpm & Hcw & Hro)]; [done|].
    destruct (Z.testbit (attr old) 0 && w) eqn:Ecw.
    + apply andb_true_iff in Ecw as [E0 ->].
      destruct (cow_ok D s M d va (vm_pgprot rg) HI Hd Hva Hc Ha) as (s' & err & i & V & -> & Hef & Hr); [by rewrite cow_bit|]. fold n in Hef, Hr.
      exists s', err, i, V. split; [done|]. split; [done|]. destruct (cow_attr_ok _ Hc) as (_ & _ & H26' & H31').
      destruct Hr as [(-> & Hi & ->)|(-> & Hi & ->)]; rewrite Hi.
      * split; [right; rewrite H31', H31, H26', (Hwr eq_refl); done|]. left. rewrite Ht, H31', H26'. done.
      * split; [by left|]. by right.
    + assert (Z.testbit (attr old) 31 = false ∨ w = true) as Hcase by (destruct w, (Z.testbit (attr old) 31); auto; done).
      assert (Z.testbit (attr old) 31 = false) as E31.
      { destruct (Z.testbit (attr old) 31); [|done]. destruct Hcase as [?|Hwt]; [done|]. rewrite Hwt in *. rewrite andb_true_r in Ecw.
        rewrite Ecw, orb_false_r in Hcw. rewrite (Hcw (Hwr eq_refl)), orb_true_r in Htr. done. }
      rewrite E31, orb_false_l in Hpm. rewrite Hpm.
      destruct (migrate_ok D s M d va HI Hd Hva Ha) as (s' & i & Ex & Hef & Hi); [by rewrite migrate_bit|].
      fold n old in Ex, Hef, Hi. rewrite Ex.
      exists s', 0, i, (view s M). split; [done|]. split; [done|]. rewrite Hi. unfold usable_attr. rewrite !migrate_attr_bit by done. cbn [Z.eqb Pos.eqb negb].
      rewrite !orb_false_r, !orb_true_r, !andb_true_r. split; [by right|]. left. split_and!; [done|done|done|].
      intros ->. rewrite andb_true_r in Ecw. rewrite Ecw, orb_false_r in Hcw. by apply Hcw, Hwr.
Qed.

(** ** Accesses *)

Lemma effect_map D s M s' d n i V :
  d ∈ D → page_no n → effect D s M s' d n i V → entry s' d n = i ∧ set_map M (d, n) i !! (d, n) = maps_to i.
Proof. intros Hd Hn Hef. split; [|apply set_map_eq]. rewrite (ef_entries _ _ _ _ _ _ _ _ Hef) by done. by rewrite decide_True. Qed.

(** The entry allows the access. *)
Definition allows (w : bool) (x : Z) : bool := Z.testbit x 31 && (negb w || Z.testbit x 26).

Lemma translate_entry s d w va :
  let i := entry s d (va / PMM_PAGE_SIZE) in
  translate s d w va =
    if allows w (attr i) then Some (frame_of (ppn i) * PMM_PAGE_SIZE + va mod PMM_PAGE_SIZE) else None.
Proof. unfold translate, allows. by rewrite entry_va. Qed.

(** An access takes at most one fault: it gives the address of the byte in the page of the task,
    or there was no page left. *)
Lemma access_ok D s M mmu_report d va rg (w : bool) :
  cow_inv D s M → d ∈ D → 0 ≤ va < wsize → user_region rg → report_ok mmu_report →
  let n := va / PMM_PAGE_SIZE in
  usable_attr rg (attr (entry s d n)) → (w = true → flag (vm_prot rg) VM_REG_WR = true) →
  ∃ s' r i V, user_access mmu_report 2 s d rg w va = Some (s', r) ∧ effect D s M s' d n i V ∧
    usable_attr rg (attr i) ∧
    (r = Done (frame_of (ppn i) * PMM_PAGE_SIZE + va mod PMM_PAGE_SIZE) ∧
       allows w (attr i) = true ∧ V = touch (view s M) (d, n) ∨
     r = Refused ENOMEM ∧ attr i = 0 ∧ V = delete (d, n) (view s M)).
Proof.
  intros HI Hd Hva Hrg Hrep n Hus Hw. pose proof (va_page _ Hva) as Hn. fold n in Hn.
  cbn [user_access]. rewrite (translate_entry s). fold n. destruct (allows w (attr (entry s d n))) eqn:Eal.
  - set (i := entry s d n) in *. destruct (ci_map _ _ _ HI d n Hd Hn) as [HM Hc]. fold i in HM.
    assert (set_map M (d, n) i = M) as EM by (by apply set_map_id).
    eexists s, _, i, (view s M). split; [done|]. split_and!; [|done|left; split_and!; [done|done|]].
    + split; rewrite ?EM; [done| |done]. intros e k He Hk. case_decide; [by simplify_eq|done].
    + unfold touch, view. rewrite lookup_fmap, HM, maps_to_some; [done|].
      apply andb_true_iff in Eal as [E31 _]. by eapply nonzero_bit.
  - destruct (Hrep (pmm_get_page (pmem s) d va) w) as (R1 & R2 & R3).
    destruct (fault_ok D s M d va rg _ w HI Hd Hva Hrg Hus Hw R1 R2 R3) as (s' & err & i & V & -> & Hef & Hus' & Hr);
      [rewrite translate_entry; fold n; by rewrite Eal|]. fold n in Hef, Hr. cbn [mbind option_bind].
    destruct (effect_map D s M s' d n i V Hd Hn Hef) as [He _].
    destruct Hr as [(-> & HV & H31 & H26)|(-> & Hi & HV)]; cbn [ctrue Z.eqb negb].
    + assert (allows w (attr i) = true) as Hal by (unfold allows; rewrite H31; destruct w; [by rewrite H26|done]).
      rewrite translate_entry. fold n. rewrite He, Hal. eexists s', _, i, V. split; [done|]. split_and!; [done|done|]. by left.
    + eexists s', _, i, V. split; [done|]. split_and!; [done|done|]. by right.
Qed.

Lemma content_write m f o v :
  0 ≤ o < PMM_PAGE_SIZE → content (wr m (f * PMM_PAGE_SIZE + o) v) f = <[Z.to_nat o := v]> (content m f).
Proof.
  intros Ho. unfold content. apply list_eq_same_length with (n := Z.to_nat PMM_PAGE_SIZE);
    [by rewrite length_insert, length_fmap, length_seqZ|by rewrite length_fmap, length_seqZ|].
  intros j x y Hj. rewrite list_lookup_fmap. destruct (seqZ 0 PMM_PAGE_SIZE !! j) as [q|] eqn:Eq; [|done]. cbn. intros [= <-].
  pose proof Eq as [-> Hq]%lookup_seqZ. unfold wr. destruct (Z.eqb_spec (f * PMM_PAGE_SIZE + (0 + Z.of_nat j)) (f * PMM_PAGE_SIZE + o)) as [E|E].
  - assert (j = Z.to_nat o) as -> by lia. rewrite list_lookup_insert_eq by (rewrite length_fmap, length_seqZ; lia). congruence.
  - rewrite list_lookup_insert_ne by lia. rewrite list_lookup_fmap, Eq. cbn. congruence.
Qed.

(** A store to the writable page [p] of [(d, n)] is seen by [d] alone. *)
Lemma store_ok D s M d n p o v :
  cow_inv D s M → d ∈ D → page_no n → M !! (d, n) = Some p → Z.testbit (attr (entry s d n)) 26 = true →
  0 ≤ o < PMM_PAGE_SIZE →
  let s' := PState (wr (pmem s) (frame_of p * PMM_PAGE_SIZE + o) v) (palloc s) in
  cow_inv D s' M ∧ same_entries D s s' ∧ view s' M = alter (insert (Z.to_nat o) v) (d, n) (view s M).
Proof.
  intros HI Hd Hn HM H26 Ho s'. pose proof (ci_data _ _ _ HI _ _ HM) as Hp.
  destruct (data_write D s p (pmem s') (ci_tabs _ _ _ HI) Hp) as (T' & [He _] & Hdat & Hc).
  { intros x f Hx Hf. cbn [s' pmem]. unfold wr. destruct (Z.eqb_spec x (frame_of p * PMM_PAGE_SIZE + o)) as [->|]; [|done].
    destruct Hf. eapply (in_frame_inj (frame_of p * PMM_PAGE_SIZE + o)); [done|]. unfold in_frame. lia. }
  change (PState (pmem s') (palloc s)) with s' in *. split_and!; [|done|].
  - destruct HI as [T Hdom Hmap Hda Href Hwr]. split; [done|done| |eauto|done|].
    + intros e k He' Hk. rewrite (He e k He' Hk). by apply Hmap.
    + intros e k q k' Hq Hw. destruct (Hdom _ _ _ Hq). rewrite (He e k) in Hw by done. by apply Hwr.
  - apply map_eq. intros k. unfold view. destruct (decide (k = (d, n))) as [->|Hne].
    + rewrite lookup_alter_eq, !lookup_fmap, HM. cbn. f_equal. by apply content_write.
    + rewrite lookup_alter_ne, !lookup_fmap by done. destruct (M !! k) as [q|] eqn:Eq; [|done]. cbn. f_equal.
      apply Hc; [by eapply ci_data|]. intros ->. by apply Hne, (ci_write _ _ _ HI d n p k).
Qed.

(** ** Loops over the pages of a region *)

Lemma attr_table s d va : attr (entry s d (va / PMM_PAGE_SIZE)) ≠ 0 → pmem s (pde_addr d va) ≠ 0.
Proof. intros Ha E. apply Ha. rewrite <- entry_va. by rewrite get_empty. Qed.

(** An entry that is not empty can be replaced without allocation. *)
Lemma set_mapped D s d va i :
  tabs D s → d ∈ D → 0 ≤ va < wsize → attr (entry s d (va / PMM_PAGE_SIZE)) ≠ 0 →
  small_attr (attr i) → 0 ≤ ppn i < 2 ^ 28 →
  ∃ s', pmm_set_page (λ m, m) s d va i = Some (s', 0) ∧ quiet D s s' ∧ entries D s s' d (va / PMM_PAGE_SIZE) i.
Proof.
  intros T Hd Hva Ha Hs Hp. destruct (set_tabs D s d va i T Hd Hva Hs Hp) as (s' & err & Ex & Ht & Hal & Hr).
  destruct (Hal (attr_table _ _ _ Ha)) as [_ ->]. exists s'. destruct Hr as [[_ Hv]|[? _]]; [|done].
  split_and!; [done|by eapply tstep_quiet|by apply sees_entries].
Qed.

(** The pages of a range. *)
Definition in_range (n : Z) (count : nat) (k : Z * Z) d : Prop := k.1 = d ∧ n ≤ k.2 < n + Z.of_nat count.

#[global] Instance in_range_dec n count k d : Decision (in_range n count k d).
Proof. unfold in_range. apply _. Defined.

(** [count] pages from the page [n] on, which holds the address [va]. *)
Definition pages_at (va n : Z) (count : nat) : Prop :=
  0 ≤ n ∧ n + Z.of_nat count ≤ 2 ^ 20 ∧ (count ≠ O → 0 ≤ va < wsize ∧ va / PMM_PAGE_SIZE = n).

Lemma pages_at_S va n count :
  pages_at va n (S count) → 0 ≤ va < wsize ∧ va / PMM_PAGE_SIZE = n ∧ page_no n ∧
  pages_at (u32 (va + PMM_PAGE_SIZE)) (n + 1) count.
Proof.
  intros (Hn & Hlim & Hva). destruct Hva as [Hva Hd]; [done|]. unfold page_no. split; [done|]. split; [done|]. split; [lia|].
  split; [lia|]. split; [lia|]. intros Hc. unfold PMM_PAGE_SIZE in *.
  pose proof (Z.div_mod va 0x1000 ltac:(done)). pose proof (Z.mod_pos_bound va 0x1000 ltac:(done)).
  rewrite u32_small by (unfold wsize; lia). split; [unfold wsize; lia|].
  replace (va + 0x1000) with (va + 1 * 0x1000) by lia. rewrite Z.div_add by done. lia.
Qed.

Lemma pages_at_page va n count d k : pages_at va n count → in_range n count k d → page_no k.2.
Proof. intros (Hn & Hlim & _) [_ Hk]. unfold page_no. lia. Qed.

(** The entry keeps what it has. *)
Lemma effect_none D s M d n : cow_inv D s M → d ∈ D → page_no n → effect D s M s d n (entry s d n) (view s M).
Proof.
  intros HI Hd Hn. destruct (ci_map _ _ _ HI d n Hd Hn) as [HM _].
  assert (set_map M (d, n) (entry s d n) = M) as EM by (by apply set_map_id).
  split; rewrite ?EM; [done| |done]. intros e k He Hk. case_decide; [by simplify_eq|done].
Qed.

(** *** [vm_region_unmap] *)

Lemma unmap_page_ok D s M d va :
  cow_inv D s M → d ∈ D → 0 ≤ va < wsize →
  let n := va / PMM_PAGE_SIZE in
  attr (entry s d n) = 0 ∨ Z.testbit (attr (entry s d n)) 31 = true →
  ∃ s' i, unmap_page s d false va = Some s' ∧ attr i = 0 ∧ effect D s M s' d n i (delete (d, n) (view s M)).
Proof.
  intros HI Hd Hva n Hc. pose proof (va_page _ Hva) as Hn. fold n in Hn. unfold unmap_page. rewrite entry_va, present_bit. fold n.
  destruct (ci_map _ _ _ HI d n Hd Hn) as [HM _]. destruct Hc as [Ha|H31].
  { rewrite Ha. cbn [Z.testbit]. exists s, (entry s d n). split_and!; [done|done|].
    rewrite delete_id; [by apply effect_none|]. unfold view. rewrite lookup_fmap, HM. unfold maps_to. by rewrite Ha. }
  rewrite H31. pose proof (nonzero_bit _ _ H31) as Ha. rewrite maps_to_some in HM by done.
  destruct (set_mapped D s d va (Info 0 0) (ci_tabs _ _ _ HI) Hd Hva Ha) as (s1 & -> & Q & He); [done|done|]. fold n in He.
  cbn [mbind option_bind].
  destruct (inv_unmap D s M s1 d n (Info 0 0) _ HI Hd Hn HM Q He) as (s2 & -> & Em & HI2); [done|done|].
  exists s2, (Info 0 0). split_and!; [done|done|]. exact (effect_release D s M s1 d n (Info 0 0) s2 HI Q He Em HI2).
Qed.

(** *** [vmm_madvise_migrate] *)

Definition madvise_attr (x : Z) : Z := Z.lor (Z.land x (Z.lnot PMM_PRESENT)) PMM_MIGRATE.

Lemma madvise_attr_bit x k : 0 ≤ k → Z.testbit (madvise_attr x) k = (Z.testbit x k && negb (k =? 31)) || (k =? 1).
Proof.
  intros Hk. unfold madvise_attr. rewrite Z.lor_spec, Z.land_spec, Z.lnot_spec by done.
  change PMM_PRESENT with (2 ^ 31). change PMM_MIGRATE with (2 ^ 1). rewrite !Z.pow2_bits_eqb by done.
  by rewrite (Z.eqb_sym 31), (Z.eqb_sym 1).
Qed.

Lemma madvise_page_ok D s M d va :
  cow_inv D s M → d ∈ D → 0 ≤ va < wsize →
  let n := va / PMM_PAGE_SIZE in
  ∃ s' i, madvise_page s d va = Some s' ∧ effect D s M s' d n i (view s M) ∧
    (attr i = attr (entry s d n) ∨ attr (entry s d n) ≠ 0 ∧ attr i = madvise_attr (attr (entry s d n))).
Proof.
  intros HI Hd Hva n. pose proof (va_page _ Hva) as Hn. fold n in Hn. unfold madvise_page. rewrite entry_va, present_bit. fold n.
  set (i := entry s d n). destruct (Z.testbit (attr i) 31) eqn:H31.
  2:{ exists s, i. split_and!; [done|by apply effect_none|by left]. }
  fold (madvise_attr (attr i)). set (j := Info (madvise_attr (attr i)) (ppn i)). pose proof (nonzero_bit _ _ H31) as Ha.
  destruct (ci_map _ _ _ HI d n Hd Hn) as [HM [[H30 H4] H3]]. fold i in HM, H30, H4, H3. rewrite maps_to_some in HM by done.
  destruct (pr_held_law _ _ (tb_inv _ _ (ci_tabs _ _ _ HI)) (proj1 (ci_data _ _ _ HI _ _ HM))) as (Hrange & _).
  assert (clean (attr j)) as Hcj.
  { unfold clean, small_attr, j. cbn [attr]. rewrite !madvise_attr_bit, H30, H4, H3 by done. done. }
  assert (attr j ≠ 0) as Hj0.
  { apply (nonzero_bit _ 1). unfold j. cbn [attr]. rewrite madvise_attr_bit by done. apply orb_true_r. }
  destruct (set_mapped D s d va j (ci_tabs _ _ _ HI) Hd Hva Ha) as (s1 & -> & Q & He); [apply Hcj|cbn; lia|]. fold n in He.
  exists s1, j. split; [done|]. split; [|by right].
  assert (set_map M (d, n) j = M) as EM by (apply set_map_id; by rewrite maps_to_some).
  split; rewrite ?EM; [|done|apply (view_quiet D s s1 M Q), HI]. apply (inv_reattr D s M s1 d n j); try done.
  unfold j. cbn [attr]. rewrite madvise_attr_bit by done. cbn [Z.eqb Pos.eqb negb]. rewrite orb_false_r, andb_true_r.
  intros Hw k Hk. by eapply (ci_write _ _ _ HI).
Qed.

(** Entries other than those of the range are as before. *)
Definition kept_outside D s s' d n count : Prop :=
  ∀ e k, e ∈ D → page_no k → ¬ in_range n count (e, k) d → entry s' e k = entry s e k.

Lemma range_cons n count k d : in_range n (S count) k d ↔ k = (d, n) ∨ in_range (n + 1) count k d.
Proof.
  unfold in_range. destruct k as [e m]. cbn. split.
  - intros [-> Hm]. destruct (decide (m = n)) as [->|]; [by left|right]. lia.
  - intros [[= -> ->]|[-> Hm]]; (split; [done|lia]).
Qed.

(** What the first page and the others contribute. *)
Lemma kept_cons D s s1 s2 d n count i :
  entries D s s1 d n i → kept_outside D s1 s2 d (n + 1) count → kept_outside D s s2 d n (S count).
Proof.
  intros H1 H2 e k He Hk Hr. rewrite range_cons in Hr. rewrite H2, H1 by naive_solver. rewrite decide_False; naive_solver.
Qed.

Lemma first_kept D s s1 s2 d n count i :
  d ∈ D → page_no n → entries D s s1 d n i → kept_outside D s1 s2 d (n + 1) count → entry s2 d n = i.
Proof.
  intros Hd Hn H1 H2. rewrite H2, H1; [by rewrite decide_True|done..|]. intros [_ ?]. cbn in *. lia.
Qed.

Lemma rest_same D s s1 d n count i k :
  d ∈ D → page_no k.2 → entries D s s1 d n i → in_range (n + 1) count k d → entry s1 d k.2 = entry s d k.2.
Proof. intros Hd Hk H1 [E1 E2]. rewrite H1 by done. rewrite decide_False; [done|]. intros [= ?]. lia. Qed.

Lemma unmap_loop_ok D d count s M va n :
  cow_inv D s M → d ∈ D → pages_at va n count →
  (∀ k, in_range n count k d → attr (entry s d k.2) = 0 ∨ Z.testbit (attr (entry s d k.2)) 31 = true) →
  ∃ s' M', unmap_loop count s d false va = Some s' ∧ cow_inv D s' M' ∧ kept_outside D s s' d n count ∧
    (∀ k, in_range n count k d → attr (entry s' d k.2) = 0) ∧
    ∀ k, view s' M' !! k = if decide (in_range n count k d) then None else view s M !! k.
Proof.
  revert s M va n. induction count as [|count IH]; intros s M va n HI Hd Hp Hpr.
  { exists s, M. split_and!; [done|done|done|intros k [_ ?]; lia|]. intros k. rewrite decide_False; [done|]. intros [_ ?]. lia. }
  destruct (pages_at_S va n count Hp) as (Hva & En & Hn & Hp').
  destruct (unmap_page_ok D s M d va HI Hd Hva) as (s1 & i & E1 & Hi & Hef); [rewrite En; apply (Hpr (d, n)), range_cons; by left|].
  rewrite En in Hef. cbn [unmap_loop]. rewrite E1. cbn [mbind option_bind]. pose proof (ef_entries _ _ _ _ _ _ _ _ Hef) as He.
  destruct (IH s1 _ _ _ (ef_inv _ _ _ _ _ _ _ _ Hef) Hd Hp') as (s2 & M2 & E2 & HI2 & Hk2 & Hz2 & Hv2).
  { intros k Hk. rewrite (rest_same D s s1 d n count i) by eauto using pages_at_page. apply Hpr, range_cons. by right. }
  exists s2, M2. split_and!; [done|done|by eapply kept_cons|..].
  - intros k [->|Hk]%range_cons; [|by apply Hz2]. cbn. by rewrite (first_kept D s s1 s2 d n count i).
  - intros k. rewrite Hv2, (ef_view _ _ _ _ _ _ _ _ Hef).
    destruct (decide (in_range n (S count) k d)) as [Hk|Hk]; rewrite range_cons in Hk.
    + case_decide; [done|]. destruct Hk as [->|?]; [|done]. apply lookup_delete_eq.
    + rewrite decide_False by tauto. apply lookup_delete_ne. naive_solver.
Qed.

(** The memory of the tasks does not change; the pages of the range may be marked. *)
Lemma madvise_loop_ok D d count s M va n :
  cow_inv D s M → d ∈ D → pages_at va n count →
  ∃ s' M', madvise_loop count s d va = Some s' ∧ cow_inv D s' M' ∧ kept_outside D s s' d n count ∧
    (∀ k, in_range n count k d → attr (entry s' d k.2) = attr (entry s d k.2) ∨
            attr (entry s d k.2) ≠ 0 ∧ attr (entry s' d k.2) = madvise_attr (attr (entry s d k.2))) ∧
    view s' M' = view s M.
Proof.
  revert s M va n. induction count as [|count IH]; intros s M va n HI Hd Hp.
  { exists s, M. split_and!; [done|done|done|intros k [_ ?]; lia|done]. }
  destruct (pages_at_S va n count Hp) as (Hva & En & Hn & Hp').
  destruct (madvise_page_ok D s M d va HI Hd Hva) as (s1 & i & E1 & Hef & Hi). rewrite En in Hef, Hi.
  cbn [madvise_loop]. rewrite E1. cbn [mbind option_bind]. pose proof (ef_entries _ _ _ _ _ _ _ _ Hef) as He.
  destruct (IH s1 _ _ _ (ef_inv _ _ _ _ _ _ _ _ Hef) Hd Hp') as (s2 & M2 & E2 & HI2 & Hk2 & Hz2 & Hv2).
  exists s2, M2. split_and!; [done|done|by eapply kept_cons| |by rewrite Hv2, (ef_view _ _ _ _ _ _ _ _ Hef)].
  intros k [->|Hk]%range_cons; cbn; [by rewrite (first_kept D s s1 s2 d n count i)|].
  rewrite <- (rest_same D s s1 d n count i) by eauto using pages_at_page. by apply Hz2.
Qed.

(** *** [vm_region_dup] *)

Definition dup_attr (x : Z) : Z := Z.land (Z.lor x PMM_COW) (Z.lnot PMM_WRITE).

Lemma dup_attr_bit x k : 0 ≤ k → Z.testbit (dup_attr x) k = (Z.testbit x k || (k =? 0)) && negb (k =? 26).
Proof.
  intros Hk. unfold dup_attr. rewrite Z.land_spec, Z.lor_spec, Z.lnot_spec by done.
  change PMM_COW with (2 ^ 0). change PMM_WRITE with (2 ^ 26). rewrite !Z.pow2_bits_eqb by done.
  by rewrite (Z.eqb_sym 0), (Z.eqb_sym 26).
Qed.

(** The entries of the page [n] of [src] and [dst] have become [i]. *)
Definition both D s s' (src dst : Z) n (i : page_info) : Prop :=
  ∀ e k, e ∈ D → page_no k →
    entry s' e k = if decide ((e, k) = (src, n) ∨ (e, k) = (dst, n)) then i else entry s e k.

Lemma both_intro D s s1 s2 src dst n i :
  entries D s s1 dst n i → entries D s1 s2 src n i → both D s s2 src dst n i.
Proof.
  intros H1 H2 e k He Hk. rewrite H2 by done. destruct (decide ((e, k) = (src, n))) as [E|E].
  { rewrite decide_True; [done|by left]. }
  rewrite H1 by done. destruct (decide ((e, k) = (dst, n))) as [E'|E'].
  - rewrite decide_True; [done|by right].
  - rewrite decide_False; [done|]. by intros [?|?].
Qed.

Lemma inv_dup D s M s2 s3 src dst n i p c m :
  cow_inv D s M → src ∈ D → dst ∈ D → src ≠ dst → page_no n → M !! (src, n) = Some p → M !! (dst, n) = None →
  quiet D s s2 → both D s s2 src dst n i → clean (attr i) → attr i ≠ 0 → ppn i = p → Z.testbit (attr i) 26 = false →
  pr_page (palloc s) p = Some (c, m) → tabs D s3 → pmem s3 = pmem s2 →
  pages_kept (λ q, q ≠ p) (palloc s2) (palloc s3) → pr_held (palloc s3) p → pr_page (palloc s3) p = Some (c + 1, m) →
  cow_inv D s3 (<[(dst, n) := p]> M).
Proof.
  intros HI Hs Hd Hne Hn HM HN Q Hb Hc Ha Hpp Hw Hcm T3 Em K3 Hh3 Hp3.
  assert (∀ e k, entry s3 e k = entry s2 e k) as Ee by (intros e k; unfold entry; by rewrite Em).
  pose proof HI as [T Hdom Hmap Hdat Href Hwr].
  assert (∀ k q, <[(dst, n) := p]> M !! k = Some q → ∃ k0, M !! k0 = Some q) as Hval.
  { intros k q. rewrite lookup_insert_Some. intros [[_ <-]|[_ ?]]; eauto. }
  split; [done|..].
  - intros e k q. rewrite lookup_insert_Some. intros [[[= <- <-] _]|[_ ?]]; [done|by eapply Hdom].
  - intros e k He Hk. rewrite Ee, (Hb e k He Hk). case_decide as Hor.
    + split; [|done]. rewrite maps_to_some, Hpp by done. destruct Hor as [[= -> ->]|[= -> ->]]; [|apply lookup_insert_eq].
      rewrite lookup_insert_ne by congruence. done.
    + rewrite lookup_insert_ne by naive_solver. by apply Hmap.
  - intros k q [k0 Hk0]%Hval. destruct (q_data _ _ _ Q q (Hdat _ _ Hk0)) as [[Hh Hno] _]. unfold data. rewrite Em.
    split; [|done]. destruct (decide (q = p)) as [->|]; [done|by apply K3].
  - intros k q c' m' [k0 Hk0]%Hval Hq. rewrite refs_insert by done. destruct (Hdat _ _ Hk0) as [Hh _].
    destruct (q_pages _ _ _ Q q I Hh) as [Hh2 E2]. case_decide as Hpq.
    + subst q. rewrite Hp3 in Hq. simplify_eq. pose proof (Href _ _ _ _ Hk0 Hcm). lia.
    + destruct (K3 q (not_eq_sym Hpq) Hh2) as [_ E3]. rewrite E3, E2 in Hq. pose proof (Href _ _ _ _ Hk0 Hq). lia.
  - intros e k q k' Hq Hw' Hq'. assert (e ∈ D ∧ page_no k) as [He Hk].
    { apply lookup_insert_Some in Hq as [[[= <- <-] _]|[_ Hq]]; [done|by eapply Hdom]. }
    rewrite Ee, (Hb e k He Hk) in Hw'. case_decide as Hor; [congruence|].
    rewrite lookup_insert_ne in Hq by naive_solver. apply lookup_insert_Some in Hq' as [[<- <-]|[_ Hq']]; [|by eapply Hwr].
    exfalso. apply Hor. left. symmetry. by eapply (Hwr e k p (src, n)).
Qed.

(** The page [n] of [src] appears in [dst]. *)
Definition share (V : memory_of_tasks) (src dst n : Z) : memory_of_tasks :=
  match V !! (src, n) with Some pg => <[(dst, n) := pg]> V | None => V end.

(** No reference count grows by more than [b]. *)
Definition counts_grow (b : Z) s s' M M' : Prop :=
  ∀ k p c m, M' !! k = Some p → pr_page (palloc s') p = Some (c, m) →
    ∃ k0 c0 m0, M !! k0 = Some p ∧ pr_page (palloc s) p = Some (c0, m0) ∧ c ≤ c0 + b.

Lemma counts_quiet D b s s' M : 0 ≤ b → cow_inv D s M → quiet D s s' → counts_grow b s s' M M.
Proof.
  intros Hb HI Q k p c m Hk Hp. destruct (ci_data _ _ _ HI k p Hk) as [Hh _].
  rewrite (proj2 (q_pages _ _ _ Q p I Hh)) in Hp. exists k, c, m. split_and!; [done|done|lia].
Qed.

Lemma counts_refl b s M : 0 ≤ b → counts_grow b s s M M.
Proof. intros Hb k p c m Hk Hp. exists k, c, m. split_and!; [done|done|lia]. Qed.

Lemma counts_weaken b b' s s' M M' : counts_grow b s s' M M' → b ≤ b' → counts_grow b' s s' M M'.
Proof. intros Hg Hb k p c m Hk Hp. destruct (Hg k p c m Hk Hp) as (k0 & c0 & m0 & ? & ? & ?). exists k0, c0, m0. split_and!; [done|done|lia]. Qed.

Lemma counts_trans b b' s s1 s2 M M1 M2 : counts_grow b s s1 M M1 → counts_grow b' s1 s2 M1 M2 → counts_grow (b + b') s s2 M M2.
Proof.
  intros H1 H2 k p c m Hk Hp. destruct (H2 k p c m Hk Hp) as (k1 & c1 & m1 & Hk1 & Hp1 & L1).
  destruct (H1 k1 p c1 m1 Hk1 Hp1) as (k0 & c0 & m0 & ? & ? & ?). exists k0, c0, m0. split_and!; [done|done|lia].
Qed.

Lemma inv_quiet D s s' M : cow_inv D s M → quiet D s s' → same_entries D s s' → cow_inv D s' M.
Proof.
  intros HI Q He. pose proof HI as [T Hdom Hmap Hdat Href Hwr]. split; [apply Q|done| | | |].
  - intros d n Hd Hn. rewrite He by done. by apply Hmap.
  - intros k p Hk. by apply (q_data _ _ _ Q), (Hdat k).
  - intros k p c m Hk. rewrite (proj2 (q_pages _ _ _ Q p I (proj1 (Hdat k p Hk)))). by apply (Href k).
  - intros d n p k Hk. destruct (Hdom _ _ _ Hk). rewrite He by done. by apply Hwr.
Qed.

(** The same for the attributes alone. *)
Definition both_attr D s s' (src dst : Z) n (x : Z) : Prop :=
  ∀ e k, e ∈ D → page_no k →
    if decide ((e, k) = (src, n) ∨ (e, k) = (dst, n)) then attr (entry s' e k) = x else entry s' e k = entry s e k.

Lemma dup_page_ok D s M src dst va :
  cow_inv D s M → src ∈ D → dst ∈ D → src ≠ dst → 0 ≤ va < wsize →
  let n := va / PMM_PAGE_SIZE in
  let i := entry s src n in
  M !! (dst, n) = None → attr i = 0 ∨ Z.testbit (attr i) 31 = true →
  (∀ c m, M !! (src, n) = Some (ppn i) → pr_page (palloc s) (ppn i) = Some (c, m) → c + 1 < wsize) →
  ∃ s' err M', dup_page s src dst va = Some (s', err) ∧ cow_inv D s' M' ∧ counts_grow 1 s s' M M' ∧
    (err = 0 ∧ view s' M' = share (view s M) src dst n ∧
       both_attr D s s' src dst n (if attr i =? 0 then 0 else dup_attr (attr i)) ∨
     err = ENOMEM ∧ view s' M' = view s M ∧ same_entries D s s').
Proof.
  intros HI Hs Hd Hne Hva n i HN Hc Hmax. pose proof (va_page _ Hva) as Hn. fold n in Hn. pose proof (ci_tabs _ _ _ HI) as T.
  destruct (ci_map _ _ _ HI src n Hs Hn) as [HM [[H30 H4] H3]]. fold i in HM, H30, H4, H3.
  destruct (ci_map _ _ _ HI dst n Hd Hn) as [HM' _]. rewrite HN in HM'.
  unfold dup_page. rewrite entry_va, present_bit. fold n i. destruct Hc as [Ha|H31].
  { rewrite Ha. cbn [Z.testbit Z.eqb]. exists s, 0, M. split; [done|]. split; [done|].
    split; [by apply (counts_quiet D), (tstep_quiet D src), tstep_refl|]. left. split_and!; [done| |].
    - unfold share, view. rewrite lookup_fmap, HM. unfold maps_to. by rewrite Ha.
    - intros e k He Hk. case_decide as Hor; [|done]. destruct Hor as [[= -> ->]|[= -> ->]]; [done|].
      unfold maps_to in HM'. by destruct (Z.eqb_spec (attr (entry s dst n)) 0). }
  pose proof (nonzero_bit _ _ H31) as Ha. rewrite H31, (proj2 (Z.eqb_neq _ _)) by done. rewrite maps_to_some in HM by done.
  pose proof (ci_data _ _ _ HI _ _ HM) as Hdp.
  destruct (pr_held_law _ _ (tb_inv _ _ T) (proj1 Hdp)) as (Hrange & _ & _ & c & m & Hcm & _). specialize (Hmax c m HM Hcm).
  fold (dup_attr (attr i)). set (j := Info (dup_attr (attr i)) (ppn i)).
  assert (clean (attr j) ∧ attr j ≠ 0 ∧ Z.testbit (attr j) 26 = false) as (Hcj & Hj0 & Hj26).
  { unfold clean, small_attr, j. cbn [attr]. rewrite !dup_attr_bit, H30, H4, H3 by done. split_and!; try done; [|apply andb_false_r].
    apply (nonzero_bit _ 31). by rewrite dup_attr_bit, H31. }
  destruct (set_tabs D s dst va j T Hd Hva (proj1 Hcj)) as (s1 & err & -> & Ht1 & _ & Hr); [cbn; lia|]. cbn [mbind option_bind].
  pose proof (tstep_quiet D dst s s1 T Hd Ht1) as Q1. destruct Hr as [[-> Hv1]|[-> Em1]]; cbn [ctrue Z.eqb negb].
  2:{ exists s1, ENOMEM, M. assert (same_entries D s s1) as Hse by (intros e k _ _; unfold entry; by rewrite Em1).
      split_and!; [done|by eapply inv_quiet|by eapply counts_quiet|]. right. split_and!; [done| |done]. apply (view_quiet D s s1 M Q1), HI. }
  apply sees_entries in Hv1. fold n in Hv1.
  assert (entry s1 src n = i) as Ei by (rewrite Hv1 by done; rewrite decide_False; [done|congruence]).
  destruct (set_mapped D s1 src va j (q_tabs _ _ _ Q1) Hs Hva) as (s2 & -> & Q12 & Hv2); [fold n; by rewrite Ei|apply Hcj|cbn; lia|].
  fold n in Hv2. cbn [mbind option_bind ctrue Z.eqb negb]. pose proof (quiet_trans _ _ _ _ Q1 Q12) as Q2.
  destruct (q_data _ _ _ Q2 _ Hdp) as [Hdp2 Ec2]. destruct (q_pages _ _ _ Q2 _ I (proj1 Hdp)) as [_ Ep2].
  destruct (up_ok D s2 (ppn i) c m (q_tabs _ _ _ Q2) Hdp2) as (s3 & E3 & Em3 & T3 & K3 & Hh3 & Hp3); [by rewrite Ep2|done|].
  change (ppn j) with (ppn i). rewrite E3. cbn [mbind option_bind].
  pose proof (both_intro D s s1 s2 src dst n j Hv1 Hv2) as Hb.
  exists s3, 0, (<[(dst, n) := ppn i]> M). split; [done|]. split; [by eapply (inv_dup D s M s2 s3 src dst n j)|]. split.
  - intros k p c' m' Hk Hp'. assert (∃ k0, M !! k0 = Some p) as [k0 Hk0].
    { apply lookup_insert_Some in Hk as [[_ <-]|[_ ?]]; eauto. }
    destruct (ci_data _ _ _ HI _ _ Hk0) as [Hh _]. destruct (q_pages _ _ _ Q2 p I Hh) as [Hh2 E2].
    destruct (decide (p = ppn i)) as [->|Hpi].
    + rewrite Hp3 in Hp'. injection Hp' as <- <-. exists (src, n), c, m. split_and!; [done|done|lia].
    + destruct (K3 p Hpi Hh2) as [_ E3']. rewrite E3', E2 in Hp'. exists k0, c', m'. split_and!; [done|done|lia].
  - left. split; [done|]. split.
    + assert (∀ M', view s3 M' = view s2 M') as Ev by (intros M'; unfold view; by rewrite Em3). rewrite Ev.
      unfold share. assert (view s M !! (src, n) = Some (content (pmem s) (frame_of (ppn i)))) as -> by (unfold view; by rewrite lookup_fmap, HM).
      rewrite <- (view_quiet D s s2 M Q2), <- Ec2 by apply HI. unfold view. by rewrite fmap_insert.
    + intros e k He Hk. assert (entry s3 e k = entry s2 e k) as -> by (unfold entry; by rewrite Em3).
      rewrite (Hb e k He Hk). by case_decide.
Qed.

(** The pages of the range appear in [dst]. *)
Definition shared_view (V V' : memory_of_tasks) (src dst n : Z) (count : nat) : Prop :=
  ∀ k, V' !! k = if decide (in_range n count k dst) then V !! (src, k.2) else V !! k.

(** Attributes after fork: to be copied, where there is a page. *)
Definition forked_attr (x x' : Z) : Prop := x' = x ∨ x ≠ 0 ∧ x' = dup_attr x.

Lemma dup_attr_idem x : dup_attr (dup_attr x) = dup_attr x.
Proof.
  apply Z.bits_inj'. intros k Hk. rewrite !dup_attr_bit by done.
  destruct (Z.testbit x k), (k =? 0), (k =? 26); done.
Qed.

Lemma forked_trans x y z : forked_attr x y → forked_attr y z → forked_attr x z.
Proof.
  intros [->|[Hx ->]] [->|[Hy ->]]; [by left|by right|by right|right]. split; [done|]. apply dup_attr_idem.
Qed.

Lemma share_ne V src dst n k : k ≠ (dst, n) → share V src dst n !! k = V !! k.
Proof. intros Hk. unfold share. destruct (V !! (src, n)); [by apply lookup_insert_ne|done]. Qed.

Lemma shared_cons V V' src dst n count :
  src ≠ dst → V !! (dst, n) = None →
  shared_view (share V src dst n) V' src dst (n + 1) count → shared_view V V' src dst n (S count).
Proof.
  intros Hne HN Hsv k. rewrite Hsv. destruct (decide (in_range n (S count) k dst)) as [Hk|Hk]; rewrite range_cons in Hk.
  - case_decide as Hr.
    + apply share_ne. congruence.
    + destruct Hk as [->|?]; [|done]. cbn. unfold share. destruct (V !! (src, n)) as [pg|] eqn:E; [by rewrite lookup_insert_eq|done].
  - rewrite decide_False by tauto. apply share_ne. naive_solver.
Qed.

Lemma dup_loop_ok D src dst count s M va n :
  cow_inv D s M → src ∈ D → dst ∈ D → src ≠ dst → pages_at va n count →
  (∀ k, in_range n count k dst → M !! k = None) →
  (∀ k, in_range n count k src → attr (entry s src k.2) = 0 ∨ Z.testbit (attr (entry s src k.2)) 31 = true) →
  (∀ k p c m, M !! k = Some p → pr_page (palloc s) p = Some (c, m) → c + Z.of_nat count < wsize) →
  ∃ s' err M', dup_loop count s src dst va = Some (s', err) ∧ cow_inv D s' M' ∧ counts_grow (Z.of_nat count) s s' M M' ∧
    (∀ e k, e ∈ D → page_no k → e ≠ dst → forked_attr (attr (entry s e k)) (attr (entry s' e k))) ∧
    (∀ k, page_no k → attr (entry s' dst k) = attr (entry s dst k) ∨ in_range n count (dst, k) dst ∧
                       attr (entry s src k) ≠ 0 ∧ attr (entry s' dst k) = dup_attr (attr (entry s src k))) ∧
    (err = 0 ∧ shared_view (view s M) (view s' M') src dst n count ∨
     err = ENOMEM ∧ ∃ done, (done < count)%nat ∧ shared_view (view s M) (view s' M') src dst n done).
Proof.
  revert s M va n. induction count as [|count IH]; intros s M va n HI Hs Hd Hne Hp HN Hpr Hmax.
  { exists s, 0, M. split; [done|]. split; [done|]. split; [apply counts_refl; lia|].
    split_and!; [by left|by left|]. left. split; [done|]. intros k. rewrite decide_False; [done|]. intros [_ ?]. lia. }
  destruct (pages_at_S va n count Hp) as (Hva & En & Hn & Hp').
  destruct (dup_page_ok D s M src dst va HI Hs Hd Hne Hva) as (s1 & err & M1 & E1 & HI1 & Hgr & Hr).
  { rewrite En. apply HN, range_cons. by left. }
  { rewrite En. apply (Hpr (src, n)), range_cons. by left. }
  { intros c m HM Hcm. rewrite En in HM, Hcm. specialize (Hmax _ _ _ _ HM Hcm). lia. }
  rewrite En in Hr. cbn [dup_loop]. rewrite E1. cbn [mbind option_bind].
  destruct Hr as [(-> & Hv1 & Hb1)|(-> & Hv1 & Hse)]; cbn [ctrue Z.eqb negb].
  2:{ exists s1, ENOMEM, M1. split; [done|]. split; [done|]. split; [eapply counts_weaken; [exact Hgr|lia]|].
      split_and!; [intros e k He Hk _; left; by rewrite Hse|intros k Hk; left; by rewrite Hse|].
      right. split; [done|]. exists O. split; [lia|]. intros k. rewrite decide_False, Hv1; [done|]. intros [_ ?]. lia. }
  assert (∀ k, page_no k → k ≠ n → entry s1 src k = entry s src k) as Hsrc.
  { intros k Hk Hkn. specialize (Hb1 src k Hs Hk). rewrite decide_False in Hb1; [done|]. intros [[=]|[=]]; congruence. }
  destruct (IH s1 M1 _ (n + 1) HI1 Hs Hd Hne Hp') as (s2 & err & M2 & E2 & HI2 & Hg2 & Hf2 & Hd2 & Hr2).
  { intros k Hk. assert (view s1 M1 !! k = None) as E0.
    { rewrite Hv1. rewrite share_ne by (intros ->; destruct Hk; cbn in *; lia). unfold view.
      rewrite lookup_fmap, (HN k) by (apply range_cons; by right). done. }
    unfold view in E0. rewrite lookup_fmap in E0. by apply fmap_None in E0. }
  { intros k Hk. rewrite Hsrc; [apply Hpr, range_cons; by right|by eapply pages_at_page|destruct Hk; lia]. }
  { intros k p c m Hk Hcm. destruct (Hgr _ _ _ _ Hk Hcm) as (k0 & c0 & m0 & Hk0 & Hc0 & Hle). specialize (Hmax _ _ _ _ Hk0 Hc0). lia. }
  exists s2, err, M2. split; [done|]. split; [done|].
  split; [rewrite Nat2Z.inj_succ, <- Z.add_1_l; by eapply counts_trans|]. split_and!.
  - intros e k He Hk Hed. eapply forked_trans; [|by apply Hf2]. specialize (Hb1 e k He Hk). case_decide as Hor; [|rewrite Hb1; by left].
    destruct Hor as [[= -> ->]|[= ? _]]; [|done]. rewrite Hb1. destruct (Z.eqb_spec (attr (entry s src n)) 0) as [E0|E0]; [left; by rewrite E0|by right].
  - intros k Hk. destruct (Hd2 k Hk) as [E0|(Hin & Hx & E0)]; rewrite E0.
    + specialize (Hb1 dst k Hd Hk). case_decide as Hor; [|left; by rewrite Hb1]. destruct Hor as [[=]|[= ->]]; [congruence|].
      rewrite Hb1. destruct (Z.eqb_spec (attr (entry s src n)) 0) as [E3|E3]; [left|right].
      * destruct (ci_map _ _ _ HI dst n Hd Hn) as [HM _]. rewrite HN in HM by (apply range_cons; by left).
        unfold maps_to in HM. by destruct (Z.eqb_spec (attr (entry s dst n)) 0).
      * split; [apply range_cons; by left|done].
    + right. split; [apply range_cons; by right|].
      assert (entry s1 src k = entry s src k) as Es by (apply Hsrc; [done|destruct Hin; cbn in *; lia]). by rewrite Es in *.
  - assert (∀ c, shared_view (view s1 M1) (view s2 M2) src dst (n + 1) c → shared_view (view s M) (view s2 M2) src dst n (S c)) as Hsv.
    { intros c. rewrite Hv1. apply shared_cons; [done|]. unfold view. rewrite lookup_fmap, HN; [done|]. apply range_cons. by left. }
    destruct Hr2 as [[-> Hr2]|(-> & dn & Hlt & Hr2)]; [left; auto|right]. split; [done|]. exists (S dn). split; [lia|auto].
Qed.
End system.
