(* ===== verification/CowAlloc.v ===== *)
(** * Counted pages of the physical pages manager

    The pages of the fault handlers ([PageRefs] of [Cow]) are those of the manager of the
    cluster: [kmem_alloc] with [AF_PGFAULT], [ppn_refcount_up], [ppn_refcount_down] and
    [ppn_is_local] of src/kernel/mm/ppn.c, on the manager of [Ppm]. *)

From S2P Require Import Prelude Bits Page Buddy Ppm PpmSystem Pmm PmmAlloc Cow.

Open Scope Z_scope.

(** ** The manager of the cluster *)

(** The cluster, the platform, and what the thread keeps for its allocations. *)
Record node_mem := NodeMem {
  nd_cluster : cluster_mem; nd_platform : platform; nd_attr : Z; nd_last : Z }.

Definition with_cluster (n : node_mem) (c : cluster_mem) : node_mem :=
  NodeMem c (nd_platform n) (nd_attr n) (nd_last n).

(** [current_cluster->ppm] *)
Definition local_ppm (n : node_mem) : option ppm_s :=
  cl_managers (nd_cluster n) !! cl_cid (nd_cluster n).

Definition with_ppm (n : node_mem) (s : ppm_s) : node_mem :=
  let c := nd_cluster n in
  with_cluster n (with_managers c (<[cl_cid c := s]> (cl_managers c))).

(** [AF_USR | AF_AFFINITY | AF_TTL_AVRG] *)
Definition AF_PGFAULT : Z := 0x820040.

Definition fault_alloc (n : node_mem) : option (node_mem * option Z) :=
  '(c, last, r) ← cluster_alloc (nd_attr n) (nd_last n) AF_PGFAULT (nd_cluster n);
  Some (NodeMem c (nd_platform n) (nd_attr n) last, r).

Definition table_alloc (n : node_mem) : option (node_mem * option Z) :=
  '(c, r) ← frame_alloc (nd_cluster n); Some (with_cluster n c, r).

Definition table_free (n : node_mem) (ppn : Z) : option node_mem :=
  c ← frame_free (nd_cluster n) ppn; Some (with_cluster n c).

Definition ppn_is_local (n : node_mem) (ppn : Z) : bool :=
  match pmm_ppn2cid (nd_platform n) ppn with
  | Some c => c =? current_cid (nd_platform n)
  | None => false
  end.

(** [ppm_ppn2page(&current_cluster->ppm, ppn)] and an operation on the page. *)
Definition on_page (n : node_mem) (ppn : Z) (op : ppm_s → Z → option ppm_s) : option node_mem :=
  s ← local_ppm n;
  b ← ppm_ppn2page (nd_platform n) s ppn;
  s ← op s b;
  Some (with_ppm n s).

Definition page_get (n : node_mem) (ppn : Z) : option (Z * Z) :=
  s ← local_ppm n;
  b ← ppm_ppn2page (nd_platform n) s ppn;
  p ← aget (pages_tbl s) b;
  Some (page_refcount_get p, mapper p).

Definition set_mapper (m : Z) (p : page_s) : page_s :=
  Page (state p) (flags p) (cid p) (order p) (wait_queue p) (index p) m (private p) (count p).

(** [page->mapper = NULL] *)
Definition clear_mapper (s : ppm_s) (page : Z) : option ppm_s :=
  p ← aget (pages_tbl s) page;
  t ← aset (pages_tbl s) page (set_mapper 0 p);
  Some (upd_pages t s).

Definition __ppn_refcount_up (n : node_mem) (ppn : Z) : option node_mem := on_page n ppn set_refcount_up.
Definition __ppn_refcount_down (n : node_mem) (ppn : Z) : option node_mem :=
  on_page n ppn (ppm_free_pages (cl_this (nd_cluster n))).

(** ** Invariant and pages of users *)

(** The frames of the cluster are known as such to the platform, and page 0 is never free: a
    null page number is no page. *)
Record node_inv (n : node_mem) : Prop := {
  ni_frames : frame_inv (nd_cluster n);
  ni_cid : current_cid (nd_platform n) = cl_cid (nd_cluster n);
  ni_local s b : local_ppm n = Some s → 0 ≤ b < pages_nr s →
    pmm_ppn2cid (nd_platform n) (b + ppn_start s) = Some (cl_cid (nd_cluster n));
  ni_null s b : local_ppm n = Some s → free_page s b → 0 < b + ppn_start s;
}.

(** A page of a user: a block of one page, with a reference count, in a state the manager takes
    back. *)
Definition counted (s : ppm_s) (b : Z) (p : page_s) : Prop :=
  aget (pages_tbl s) b = Some p ∧ order p = 0 ∧ freeable (state p) ∧ 1 ≤ count p < wsize.

Definition page_held (n : node_mem) (ppn : Z) : Prop :=
  ∃ s b p, local_ppm n = Some s ∧ ppn = b + ppn_start s ∧ 0 < ppn ∧ counted s b p.

#[export] Instance node_frame_allocator : FrameAllocator node_mem := {
  fa_inv := node_inv; fa_used n := frame_used (nd_cluster n);
  fa_alloc := table_alloc; fa_free := table_free }.

#[export] Instance node_page_refs : PageRefs node_mem := {
  pr_held := page_held; pr_local := ppn_is_local; pr_page := page_get; pr_alloc := fault_alloc;
  pr_anon n ppn := on_page n ppn clear_mapper;
  pr_up := __ppn_refcount_up; pr_down := __ppn_refcount_down }.

(** ** Steps of the manager *)

Lemma block_not_free s bm b k : ppm_ok s bm → bm !! b = Some (k, Kused) → ¬ is_free bm b.
Proof.
  intros Hok Hb (i&m&Hi&Hin). pose proof (c_part _ _ (ok_core _ _ Hok)) as Hp.
  destruct (decide (i = b)) as [->|Hne]; [congruence|].
  destruct (part_range _ _ _ _ _ Hp Hb) as (?&?&?&?&?&?).
  pose proof (part_disj _ _ Hp _ _ _ _ _ _ Hi Hb Hne) as Hd. unfold in_block in Hin. lia.
Qed.

Lemma counted_head s bm b p :
  ppm_ok s bm → counted s b p → bm !! b = Some (0, Kused) ∧ ¬ free_page s b ∧ 0 ≤ b < pages_nr s.
Proof.
  intros Hok (Hp&Ho&Hfr&Hc). destruct (proj1 (c_state _ _ (ok_core _ _ Hok) b p Hp)) as [k Hb];
    [intros E; rewrite E in Hfr; by destruct Hfr as [?|[?|?]]|].
  pose proof (c_order _ _ (ok_core _ _ Hok) _ _ _ _ Hb ltac:(done) Hp) as Hk. rewrite Ho in Hk. subst k.
  split; [done|]. split.
  - rewrite (free_page_iff _ _ _ Hok). by eapply block_not_free.
  - destruct (part_range _ _ _ _ _ (c_part _ _ (ok_core _ _ Hok)) Hb) as (?&?&?&?&?&?). lia.
Qed.

(** The counted pages that satisfy [P] are left alone. *)
Record manager_step (P : Z → Prop) (s s' : ppm_s) : Prop := {
  ms_start : ppn_start s' = ppn_start s;
  ms_nr : pages_nr s' = pages_nr s;
  ms_page b p : P b → counted s b p →
    ∃ p', counted s' b p' ∧ count p' = count p ∧ mapper p' = mapper p;
}.

Lemma orders_only_aget s s' j p :
  orders_only s s' → aget (pages_tbl s) j = Some p →
  ∃ p', aget (pages_tbl s') j = Some p' ∧ set_order 0 p' = set_order 0 p.
Proof.
  intros (l&h&t&->&Ht) Hp. specialize (Ht j). simpl. rewrite Hp in Ht.
  destruct (aget t j) as [p'|]; [|done]. exists p'. split; [done|]. by apply (inj Some).
Qed.

Lemma orders_only_frame s s' : orders_only s s' → ppn_start s' = ppn_start s ∧ pages_nr s' = pages_nr s.
Proof. by intros (?&?&?&->&_). Qed.

Lemma same_but_order p p' :
  set_order 0 p' = set_order 0 p → state p' = state p ∧ count p' = count p ∧ mapper p' = mapper p.
Proof. destruct p, p'. cbn. by intros [= -> -> -> -> -> -> -> ->]. Qed.

(** A page that only its order may have changed, and that is still a block of one page. *)
Lemma counted_order s s' bm' b p p' :
  ppm_ok s' bm' → bm' !! b = Some (0, Kused) → counted s b p → aget (pages_tbl s') b = Some p' →
  set_order 0 p' = set_order 0 p → counted s' b p' ∧ count p' = count p ∧ mapper p' = mapper p.
Proof.
  intros Hok Hb (_&_&Hf&Hc) Hp' Ho. destruct (same_but_order _ _ Ho) as (Es&Ec&Em).
  split; [|done]. split; [done|]. rewrite Es, Ec. split; [|done].
  by apply (c_order _ _ (ok_core _ _ Hok) _ _ _ _ Hb).
Qed.

Lemma alloc_step this s s' b bm :
  frames_ok s → ppm_ok s bm → ppm_do_alloc_pages this s 0 = Some (s', Some b) →
  manager_step (λ _, True) s s' ∧ ∃ p, counted s' b p ∧ count p = 1.
Proof.
  intros Hf Hok E. destruct (ppm_do_alloc_pages_spec this s bm 0 Hok ltac:(lia))
    as [[E' _]|(b'&s1&p&t&bm'&E'&O&Hp&Ht&Hok'&Hal)]; rewrite E in E'; [done|].
  injection E' as -> ->. destruct (orders_only_frame _ _ O) as [Hst Hnr].
  assert (Hfb : is_free bm b') by (apply (al_free _ _ _ _ Hal); unfold in_block; lia).
  assert (Hb' : bm' !! b' = Some (0, Kused)) by (apply (al_used _ _ _ _ Hal); by right).
  split; [split|].
  - done.
  - done.
  - intros j pj _ Hcj. destruct (counted_head s bm j pj Hok Hcj) as (Hj&Hnf&_).
    assert (Hne : b' ≠ j) by (intros <-; by apply Hnf, (free_page_iff _ _ _ Hok)).
    destruct (orders_only_aget _ _ _ pj O (proj1 Hcj)) as (p'&Hp'&Ho). exists p'.
    eapply counted_order; [exact Hok'|apply (al_used _ _ _ _ Hal); by left|done| |done].
    cbn. by rewrite (aget_aset_ne _ b' j _ _ Hne Ht).
  - destruct (aget_orders_only _ _ _ _ O Hp) as (p0&Hp0&Hpo). destruct (same_but_order _ _ Hpo) as (_&Ec&_).
    cbn in Hp0. rewrite (fo_clean _ Hf b' p0) in Ec; [|by apply (free_page_iff _ _ _ Hok)|done].
    assert (Hc1 : count (grab 0 p) = 1) by (cbn; rewrite Ec; reflexivity).
    exists (grab 0 p). split; [|done]. split; [exact (aget_aset_eq _ _ _ _ Ht)|].
    split; [done|]. split; [by left|by rewrite Hc1].
Qed.

Lemma touch_step s b p p' bm :
  frames_ok s → ppm_ok s bm → counted s b p →
  state p' = state p → order p' = order p → 1 ≤ count p' < wsize →
  ∃ t, aset (pages_tbl s) b p' = Some t ∧ frames_ok (upd_pages t s) ∧
    manager_step (λ j, j ≠ b) s (upd_pages t s) ∧ counted (upd_pages t s) b p' ∧
    ∀ q, free_page (upd_pages t s) q ↔ free_page s q.
Proof.
  intros Hf Hok Hcp Hst Hor Hc'. destruct (counted_head s bm b p Hok Hcp) as (Hb&Hnf&_).
  destruct Hcp as (Hp&Ho&Hfr&Hc). pose proof (aget_Some_range _ _ _ Hp) as Hr.
  eexists. pose proof (aset_Some (pages_tbl s) b p' Hr) as Ht. split; [exact Ht|].
  assert (Hok' : ppm_ok (upd_pages (<[Z.to_nat b := p']> (pages_tbl s)) s) bm).
  { eapply ppm_ok_used; [done..| |done]. rewrite Hst. intros E. rewrite E in Hfr.
    destruct Hfr as [?|[?|?]]; done. }
  set (s' := upd_pages _ s) in *.
  assert (Hfree : ∀ q, free_page s' q ↔ free_page s q)
    by (intros q; by rewrite (free_page_iff _ _ _ Hok), (free_page_iff _ _ _ Hok')).
  assert (Hget : ∀ j, j ≠ b → aget (pages_tbl s') j = aget (pages_tbl s) j)
    by (intros j Hj; exact (aget_aset_ne _ b j _ _ (not_eq_sym Hj) Ht)).
  assert (Hgb : aget (pages_tbl s') b = Some p') by exact (aget_aset_eq _ _ _ _ Ht).
  split; [|split; [|split]]; [| | |exact Hfree].
  - split; [by exists bm|apply Hf|apply Hf|].
    intros q pq Hq%Hfree Hpq. apply (fo_clean _ Hf q); [done|]. rewrite <- Hget; [done|]. by intros ->.
  - split; [done|done|].
    intros j pj Hj Hcj. exists pj. split; [|done]. destruct Hcj as [Hpj Hcj]. split; [by rewrite Hget|done].
  - split; [done|]. rewrite Hst, Hor. done.
Qed.

Lemma release_step this s b p bm :
  frames_ok s → ppm_ok s bm → counted s b p → count p = 1 →
  ∃ s', ppm_free_pages this s b = Some s' ∧ frames_ok s' ∧ manager_step (λ j, j ≠ b) s s' ∧
    ∀ q, free_page s' q ↔ free_page s q ∨ q = b.
Proof.
  intros Hf Hok Hcp Hc1. destruct (counted_head s bm b p Hok Hcp) as (Hb&Hnf&_).
  destruct Hcp as (Hp&Ho&Hfr&Hc).
  destruct (ppm_free_pages_spec this s bm b 0 p Hok Hb Hp Hfr) as (s'&bm'&E&Hok'&_&Hr).
  rewrite Hc1 in Hr. cbn [Z.ltb] in Hr. destruct Hr as (Hu&Hfree&_&t&Ht&O). exists s'. split; [done|].
  destruct (orders_only_frame _ _ O) as [Hst Hnr].
  assert (Hfp : ∀ q, free_page s' q ↔ free_page s q ∨ q = b).
  { intros q. rewrite (free_page_iff _ _ _ Hok), (free_page_iff _ _ _ Hok'), Hfree. unfold in_block. intuition lia. }
  assert (Hback : ∀ j pj, aget (pages_tbl s') j = Some pj → (j = b ∧ count pj = 0) ∨
            j ≠ b ∧ ∃ p0, aget (pages_tbl s) j = Some p0 ∧ state pj = state p0 ∧ count pj = count p0).
  { intros j pj Hpj. destruct (aget_orders_only _ _ _ _ O Hpj) as (p0&Hp0&Hpo).
    destruct (same_but_order _ _ Hpo) as (Es&Ec&_). cbn in Hp0. destruct (decide (j = b)) as [->|Hne].
    - left. rewrite (aget_aset_eq _ _ _ _ Ht) in Hp0. injection Hp0 as <-. rewrite Ec.
      split; [done|]. reflexivity.
    - right. split; [done|]. exists p0. by rewrite <- (aget_aset_ne _ b j _ _ (not_eq_sym Hne) Ht). }
  split; [|split; [split|exact Hfp]].
  - split; [by exists bm'|rewrite Hst, Hnr; apply Hf|rewrite Hnr; apply Hf|].
    intros q pq Hq Hpq. destruct (Hback q pq Hpq) as [[_ ?]|(Hne&p0&Hp0&_&->)]; [done|].
    apply Hfp in Hq as [Hq|]; [by apply (fo_clean _ Hf q)|done].
  - done.
  - done.
  - intros j pj Hne Hcj. destruct (counted_head s bm j pj Hok Hcj) as (Hj&_&_).
    assert (Hpj : aget t j = Some pj) by (rewrite (aget_aset_ne _ b j _ _ (not_eq_sym Hne) Ht); apply Hcj).
    destruct (orders_only_aget _ _ _ pj O Hpj) as (p'&Hp'&Ho'). exists p'.
    eapply counted_order; [exact Hok'|by apply Hu|done|done|done].
Qed.

(** ** Steps of the cluster *)

Lemma page_index n s b :
  node_inv n → local_ppm n = Some s → 0 ≤ b < pages_nr s →
  ppm_ppn2page (nd_platform n) s (b + ppn_start s) = Some b.
Proof.
  intros Hn Hs Hb. unfold ppm_ppn2page. rewrite (ni_local _ Hn s b Hs Hb). cbn [mbind option_bind].
  rewrite (ni_cid _ Hn). unfold cassert. rewrite Z.eqb_refl. cbn [mbind option_bind].
  destruct (ni_frames _ Hn) as (_&s'&Hs'&Hf). assert (s' = s) as -> by (unfold local_ppm in Hs; congruence).
  by destruct (ppn_of_page s b Hf Hb) as (_&_&->).
Qed.

(** What a held page is, unfolded. *)
Lemma held_page n ppn :
  node_inv n → page_held n ppn →
  ∃ s bm b p, local_ppm n = Some s ∧ frames_ok s ∧ ppm_ok s bm ∧ counted s b p ∧
    ppn = b + ppn_start s ∧ 0 < ppn ∧ 0 ≤ b < pages_nr s ∧ ¬ free_page s b ∧
    page_get n ppn = Some (count p, mapper p) ∧ ∀ op, on_page n ppn op = (s' ← op s b; Some (with_ppm n s')).
Proof.
  intros Hn (s&b&p&Hs&->&H0&Hc).
  destruct (ni_frames _ Hn) as (_&s'&Hs'&Hf). assert (s' = s) as -> by (unfold local_ppm in Hs; congruence).
  destruct (fo_ok _ Hf) as [bm Hok]. destruct (counted_head s bm b p Hok Hc) as (_&Hnf&Hb).
  exists s, bm, b, p. split_and!; try done; [lia|lia|..].
  - unfold page_get. rewrite Hs. cbn [mbind option_bind]. rewrite (page_index n s b Hn Hs Hb).
    cbn [mbind option_bind]. rewrite (proj1 Hc). reflexivity.
  - intros op. unfold on_page. rewrite Hs. cbn [mbind option_bind]. by rewrite (page_index n s b Hn Hs Hb).
Qed.

(** The node after a step of its manager; the thread's allocation cursor may move. *)
Definition stepped (n n' : node_mem) (s' : ppm_s) : Prop :=
  nd_platform n' = nd_platform n ∧ cl_cid (nd_cluster n') = cl_cid (nd_cluster n) ∧
  cl_managers (nd_cluster n') = <[cl_cid (nd_cluster n) := s']> (cl_managers (nd_cluster n)).

Lemma stepped_with n s' : stepped n (with_ppm n s') s'.
Proof. done. Qed.

Lemma stepped_local n n' s' : stepped n n' s' → local_ppm n' = Some s'.
Proof. intros (_&Ec&Em). unfold local_ppm. rewrite Ec, Em. apply lookup_insert_eq. Qed.

Lemma node_step P n n' s s' :
  node_inv n → local_ppm n = Some s → stepped n n' s' → frames_ok s' → manager_step P s s' →
  (∀ q, free_page s' q → free_page s q ∨ 0 < q + ppn_start s) → node_inv n'.
Proof.
  intros Hn Hs Hst Hf' Hms Hq. pose proof (stepped_local _ _ _ Hst) as Hs'. destruct Hst as (Ep&Ec&Em).
  destruct (ni_frames _ Hn) as (Hall&_). destruct (fo_ok _ Hf') as [bm Hok].
  split.
  - split; [rewrite Em; by eapply all_ok_insert|]. exists s'. split; [exact Hs'|done].
  - rewrite Ep, Ec. apply Hn.
  - intros s1 b E Hb. rewrite Hs' in E. injection E as <-. rewrite Ep, Ec, (ms_start _ _ _ Hms).
    apply (ni_local _ Hn s); [done|]. by rewrite <- (ms_nr _ _ _ Hms).
  - intros s1 b E Hb. rewrite Hs' in E. injection E as <-. rewrite (ms_start _ _ _ Hms).
    destruct (Hq b Hb) as [Hfb|]; [by apply (ni_null _ Hn s)|done].
Qed.

Lemma held_step n n' s s' b p :
  node_inv n' → local_ppm n = Some s → stepped n n' s' → ppn_start s' = ppn_start s →
  counted s' b p → 0 < b + ppn_start s →
  page_held n' (b + ppn_start s) ∧ page_get n' (b + ppn_start s) = Some (count p, mapper p).
Proof.
  intros Hn' Hs Hst E Hc H0. pose proof (stepped_local _ _ _ Hst) as Hs'. rewrite <- E in *.
  assert (Hh : page_held n' (b + ppn_start s')) by (by exists s', b, p). split; [done|].
  destruct (held_page n' _ Hn' Hh) as (s1&bm&b1&p1&Hs1&_&_&Hc1&Eb&_&_&_&Eg&_).
  rewrite Hs' in Hs1. injection Hs1 as <-. assert (b1 = b) as -> by lia.
  rewrite Eg. destruct Hc as [Hc _], Hc1 as [Hc1 _]. congruence.
Qed.

Lemma kept_step P n n' s s' :
  node_inv n → node_inv n' → local_ppm n = Some s → stepped n n' s' → manager_step P s s' →
  pages_kept (λ q, P (q - ppn_start s)) n n'.
Proof.
  intros Hn Hn' Hs Hst Hms q HP Hq.
  destruct (held_page n q Hn Hq) as (s1&bm&b&p&Hs1&_&_&Hc&->&H0&_&_&Eg&_).
  rewrite Hs in Hs1. injection Hs1 as <-. rewrite Z.add_simpl_r in HP.
  destruct (ms_page _ _ _ Hms b p HP Hc) as (p'&Hc'&Ec&Em).
  destruct (held_step n n' s s' b p' Hn' Hs Hst (ms_start _ _ _ Hms) Hc' H0) as [Hh Eg'].
  split; [done|]. change (page_get n' (b + ppn_start s) = page_get n (b + ppn_start s)).
  rewrite Eg', Eg. congruence.
Qed.

Lemma used_iff n s f :
  local_ppm n = Some s →
  frame_used (nd_cluster n) f ↔ ∀ q, free_page s q → f ≠ frame_of (q + ppn_start s).
Proof.
  intros Hs. split; intros H; [intros q; by apply H|]. intros s1 q Hs1. unfold local_ppm in Hs.
  assert (s1 = s) as -> by congruence. apply H.
Qed.

(** The manager gave the page [b]. *)
Lemma alloc_node n n' s s' b :
  node_inv n → local_ppm n = Some s → stepped n n' s' → frames_ok s' → ppn_start s' = ppn_start s →
  free_page s b → (∀ q, free_page s' q ↔ free_page s q ∧ q ≠ b) →
  ppm_do_alloc_pages (cl_this (nd_cluster n)) s 0 = Some (s', Some b) →
  let ppn := b + ppn_start s in
  node_inv n' ∧ pages_kept (λ _, True) n n' ∧ 0 ≤ ppn < 2 ^ 28 ∧
  ¬ frame_used (nd_cluster n) (frame_of ppn) ∧
  (∀ f, frame_used (nd_cluster n') f ↔ frame_used (nd_cluster n) f ∨ f = frame_of ppn) ∧
  page_held n' ppn ∧ ∃ m, page_get n' ppn = Some (1, m).
Proof.
  intros Hn Hs Hst Hf' Hps Hb Hfree E ppn.
  destruct (ni_frames _ Hn) as (Hall&s0&Hs0&Hf). assert (s0 = s) as -> by (unfold local_ppm in Hs; congruence).
  destruct (fo_ok _ Hf) as [bm Hok].
  destruct (alloc_step _ s s' b bm Hf Hok E) as (Hms&p&Hc&Hc1).
  assert (Hn' : node_inv n').
  { eapply node_step; [exact Hn|exact Hs|exact Hst|done|exact Hms|]. intros q [Hq _]%Hfree. by left. }
  destruct (took_frame _ s s' b (ni_frames _ Hn) Hs Hf' Hps Hb Hfree) as (_&Hppn&Hnu&Hu).
  split_and!; try done; try lia.
  - intros q _. by apply (kept_step _ n n' s s' Hn Hn' Hs Hst Hms q).
  - intros f. unfold ppn. rewrite <- Hu, (used_iff n' s' f (stepped_local _ _ _ Hst)).
    by rewrite (used_iff (with_ppm n s') s' f (stepped_local _ _ _ (stepped_with n s'))).
  - destruct (held_step n n' s s' b p Hn' Hs Hst Hps Hc (ni_null _ Hn s b Hs Hb)) as [Hh' _]. exact Hh'.
  - destruct (held_step n n' s s' b p Hn' Hs Hst Hps Hc (ni_null _ Hn s b Hs Hb)) as [_ Eg].
    exists (mapper p). by rewrite <- Hc1.
Qed.

(** The manager gave nothing: at most the cursor of the thread moved. *)
Lemma alloc_none n n' s :
  node_inv n → local_ppm n = Some s → stepped n n' s →
  node_inv n' ∧ pages_kept (λ _, True) n n' ∧ ∀ f, frame_used (nd_cluster n') f ↔ frame_used (nd_cluster n) f.
Proof.
  intros Hn Hs Hst.
  destruct (ni_frames _ Hn) as (Hall&s0&Hs0&Hf). assert (s0 = s) as -> by (unfold local_ppm in Hs; congruence).
  assert (Hms : manager_step (λ _, True) s s) by (split; [done|done|intros b p _ Hc; by exists p]).
  assert (Hn' : node_inv n') by (eapply node_step; [exact Hn|exact Hs|exact Hst|done|exact Hms|by left]).
  split; [done|]. split; [intros q _; by apply (kept_step _ n n' s s Hn Hn' Hs Hst Hms q)|].
  intros f. by rewrite (used_iff n' s f (stepped_local _ _ _ Hst)), (used_iff n s f Hs).
Qed.

Lemma stepped_none n c last :
  nd_cluster n = c → ∀ s, local_ppm n = Some s →
  stepped n (NodeMem (with_managers c (cl_managers c)) (nd_platform n) (nd_attr n) last) s.
Proof. intros <- s Hs. split_and!; [done|done|]. cbn. symmetry. by apply insert_id. Qed.

Lemma table_alloc_ok n :
  node_inv n →
  ∃ n' r, table_alloc n = Some (n', r) ∧ node_inv n' ∧ pages_kept (λ _, True) n n' ∧
    match r with
    | None => ∀ f, frame_used (nd_cluster n') f ↔ frame_used (nd_cluster n) f
    | Some ppn =>
        0 ≤ ppn < 2 ^ 28 ∧ ¬ frame_used (nd_cluster n) (frame_of ppn) ∧
        ∀ f, frame_used (nd_cluster n') f ↔ frame_used (nd_cluster n) f ∨ f = frame_of ppn
    end.
Proof.
  intros Hn. destruct (ni_frames _ Hn) as (Hall&s&Hs&Hf). unfold table_alloc.
  destruct (frame_alloc_cases _ s Hall Hs Hf) as [->|(s'&b&->&Hf'&Hst&_&Hb&Hfree&E)];
    cbn [mbind option_bind]; eexists _, _; (split; [reflexivity|]).
  - by apply (alloc_none n _ s Hn Hs), stepped_none.
  - destruct (alloc_node n (with_ppm n s') s s' b Hn Hs (stepped_with _ _) Hf' Hst Hb Hfree E)
      as (?&?&?&?&?&_). done.
Qed.

Lemma fault_alloc_ok n :
  node_inv n →
  ∃ n' r, fault_alloc n = Some (n', r) ∧ node_inv n' ∧ pages_kept (λ _, True) n n' ∧
    match r with
    | None => ∀ f, frame_used (nd_cluster n') f ↔ frame_used (nd_cluster n) f
    | Some p =>
        ¬ frame_used (nd_cluster n) (frame_of p) ∧
        (∀ f, frame_used (nd_cluster n') f ↔ frame_used (nd_cluster n) f ∨ f = frame_of p) ∧
        page_held n' p ∧ ∃ m, page_get n' p = Some (1, m)
    end.
Proof.
  intros Hn. destruct (ni_frames _ Hn) as (Hall&s&Hs&Hf). unfold fault_alloc.
  destruct (cluster_alloc_cases (nd_attr n) (nd_last n) AF_PGFAULT _ s Hall Hs Hf)
    as (last&[->|(s'&b&->&Hf'&Hst&_&Hb&Hfree&E)]);
    cbn [mbind option_bind]; eexists _, _; (split; [reflexivity|]).
  - by apply (alloc_none n _ s Hn Hs), stepped_none.
  - match goal with |- node_inv ?n' ∧ _ =>
      destruct (alloc_node n n' s s' b Hn Hs ltac:(done) Hf' Hst Hb Hfree E) as (?&?&_&?&?&?&?) end.
    done.
Qed.

(** A page that is held stays held, its descriptor replaced. *)
Lemma touch_node n s b p p' bm :
  node_inv n → local_ppm n = Some s → frames_ok s → ppm_ok s bm → counted s b p →
  0 < b + ppn_start s → state p' = state p → order p' = order p → 1 ≤ count p' < wsize →
  ∃ t, aset (pages_tbl s) b p' = Some t ∧ let n' := with_ppm n (upd_pages t s) in
    node_inv n' ∧ (∀ f, frame_used (nd_cluster n') f ↔ frame_used (nd_cluster n) f) ∧
    pages_kept (λ q, q ≠ b + ppn_start s) n n' ∧
    page_held n' (b + ppn_start s) ∧ page_get n' (b + ppn_start s) = Some (count p', mapper p').
Proof.
  intros Hn Hs Hf Hok Hc H0 Est Eor Hc'.
  destruct (touch_step s b p p' bm Hf Hok Hc Est Eor Hc') as (t&Ht&Hf'&Hms&Hcp&Hfree).
  exists t. split; [done|]. intros n'. pose proof (stepped_with n (upd_pages t s)) as Hst.
  assert (Hn' : node_inv n') by (eapply node_step; [exact Hn|exact Hs|exact Hst|done|exact Hms|]; intros q Hq%Hfree; by left).
  split; [done|]. split; [|split].
  - intros f. rewrite (used_iff n' _ f (stepped_local _ _ _ Hst)), (used_iff n s f Hs).
    by setoid_rewrite Hfree.
  - intros q Hq. apply (kept_step _ n n' s _ Hn Hn' Hs Hst Hms q). intros E. apply Hq. lia.
  - by apply (held_step n n' s (upd_pages t s) b p').
Qed.

Lemma up_node n ppn c m :
  node_inv n → page_held n ppn → page_get n ppn = Some (c, m) → c + 1 < wsize →
  ∃ n', __ppn_refcount_up n ppn = Some n' ∧ node_inv n' ∧
    (∀ f, frame_used (nd_cluster n') f ↔ frame_used (nd_cluster n) f) ∧
    pages_kept (λ q, q ≠ ppn) n n' ∧ page_held n' ppn ∧ page_get n' ppn = Some (c + 1, m).
Proof.
  intros Hn Hq Eg Hc. destruct (held_page n ppn Hn Hq) as (s&bm&b&p&Hs&Hf&Hok&Hcp&->&H0&_&_&Eg'&Eop).
  rewrite Eg in Eg'. injection Eg' as -> ->.
  assert (E1 : u32 (count p + 1) = count p + 1) by (apply u32_small; destruct Hcp as (_&_&_&?); lia).
  destruct (touch_node n s b p (snd (page_refcount_up p)) bm Hn Hs Hf Hok Hcp H0) as (t&Ht&Hr); [done|done|cbn; rewrite E1; destruct Hcp as (_&_&_&?); lia|].
  exists (with_ppm n (upd_pages t s)). split.
  - unfold __ppn_refcount_up. rewrite Eop. unfold set_refcount_up. rewrite (proj1 Hcp). cbn [mbind option_bind].
    by rewrite Ht.
  - rewrite <- E1. exact Hr.
Qed.

Lemma anon_node n ppn c m :
  node_inv n → page_held n ppn → page_get n ppn = Some (c, m) →
  ∃ n', on_page n ppn clear_mapper = Some n' ∧ node_inv n' ∧
    (∀ f, frame_used (nd_cluster n') f ↔ frame_used (nd_cluster n) f) ∧
    pages_kept (λ q, q ≠ ppn) n n' ∧ page_held n' ppn ∧ page_get n' ppn = Some (c, 0).
Proof.
  intros Hn Hq Eg. destruct (held_page n ppn Hn Hq) as (s&bm&b&p&Hs&Hf&Hok&Hcp&->&H0&_&_&Eg'&Eop).
  rewrite Eg in Eg'. injection Eg' as -> ->.
  destruct (touch_node n s b p (set_mapper 0 p) bm Hn Hs Hf Hok Hcp H0) as (t&Ht&Hr); [done|done|apply Hcp|].
  exists (with_ppm n (upd_pages t s)). split; [|exact Hr].
  rewrite Eop. unfold clear_mapper. rewrite (proj1 Hcp). cbn [mbind option_bind]. by rewrite Ht.
Qed.

Lemma down_node n ppn c m :
  node_inv n → page_held n ppn → page_get n ppn = Some (c, m) →
  ∃ n', __ppn_refcount_down n ppn = Some n' ∧ node_inv n' ∧ pages_kept (λ q, q ≠ ppn) n n' ∧
    if 1 <? c
    then (∀ f, frame_used (nd_cluster n') f ↔ frame_used (nd_cluster n) f) ∧
         page_held n' ppn ∧ page_get n' ppn = Some (c - 1, m)
    else ∀ f, frame_used (nd_cluster n') f ↔ frame_used (nd_cluster n) f ∧ f ≠ frame_of ppn.
Proof.
  intros Hn Hq Eg. destruct (held_page n ppn Hn Hq) as (s&bm&b&p&Hs&Hf&Hok&Hcp&->&H0&_&_&Eg'&Eop).
  rewrite Eg in Eg'. injection Eg' as -> ->. unfold __ppn_refcount_down. rewrite Eop.
  destruct (Z.ltb_spec 1 (count p)) as [H1|H1].
  - assert (E1 : u32 (count p - 1) = count p - 1) by (apply u32_small; destruct Hcp as (_&_&_&?); lia).
    destruct (touch_node n s b p (snd (page_refcount_down p)) bm Hn Hs Hf Hok Hcp H0) as (t&Ht&Hn'&Hu&Hk&Hr);
      [done|done|cbn; rewrite E1; destruct Hcp as (_&_&_&?); lia|].
    exists (with_ppm n (upd_pages t s)). split; [|rewrite <- E1; done].
    unfold ppm_free_pages. rewrite (proj1 Hcp). cbn [mbind option_bind page_refcount_down refcount_down] in *.
    cbn [snd] in Ht. rewrite Ht. cbn [mbind option_bind]. by destruct (Z.ltb_spec 1 (count p)); [|lia].
  - assert (Hc1 : count p = 1) by (destruct Hcp as (_&_&_&?); lia).
    destruct (release_step (cl_this (nd_cluster n)) s b p bm Hf Hok Hcp Hc1) as (s'&->&Hf'&Hms&Hfree).
    pose proof (stepped_with n s') as Hst. exists (with_ppm n s'). split; [done|].
    assert (Hn' : node_inv (with_ppm n s')).
    { eapply node_step; [exact Hn|exact Hs|exact Hst|done|exact Hms|]. intros q [Hfq| ->]%Hfree; auto. }
    split; [done|]. split.
    + intros q Hqb. apply (kept_step _ n _ s _ Hn Hn' Hs Hst Hms q). intros E. apply Hqb. lia.
    + intros f. rewrite (used_iff _ _ f (stepped_local _ _ _ Hst)), (used_iff n s f Hs), (ms_start _ _ _ Hms).
      setoid_rewrite Hfree. naive_solver.
Qed.

(** ** The laws *)

Lemma held_facts n ppn :
  node_inv n → page_held n ppn →
  0 < ppn < 2 ^ 28 ∧ frame_used (nd_cluster n) (frame_of ppn) ∧ ppn_is_local n ppn = true ∧
  ∃ c m, page_get n ppn = Some (c, m) ∧ 1 ≤ c < wsize.
Proof.
  intros Hn Hq. destruct (held_page n ppn Hn Hq) as (s&bm&b&p&Hs&Hf&Hok&Hcp&->&H0&Hb&Hnf&Eg&_).
  destruct (ppn_of_page s b Hf Hb) as (_&Hr&_). split; [lia|]. split; [|split].
  - apply (used_iff n s _ Hs). intros q Hfq E. apply Hnf.
    by rewrite (frame_inj s b q Hf Hb (free_page_range _ _ Hfq) E).
  - unfold ppn_is_local. rewrite (ni_local _ Hn s b Hs Hb), (ni_cid _ Hn). apply Z.eqb_refl.
  - exists (count p), (mapper p). split; [done|apply Hcp].
Qed.

Lemma held_inj n p q : node_inv n → page_held n p → page_held n q → frame_of p = frame_of q → p = q.
Proof.
  intros Hn Hp Hq E. destruct (held_page n p Hn Hp) as (s&?&b&?&Hs&Hf&_&_&->&_&Hb&_).
  destruct (held_page n q Hn Hq) as (s2&?&b2&?&Hs2&_&_&_&->&_&Hb2&_).
  rewrite Hs in Hs2. injection Hs2 as <-. by rewrite (frame_inj s b b2 Hf Hb Hb2 E).
Qed.

Lemma free_is_down n ppn : node_inv n → page_held n ppn → table_free n ppn = __ppn_refcount_down n ppn.
Proof.
  intros Hn Hh. destruct (held_page _ _ Hn Hh) as (s&?&b&?&Hs&Hf&_&_&->&_&Hb&_&_&Eop).
  unfold __ppn_refcount_down. rewrite Eop. unfold table_free, frame_free. unfold local_ppm in Hs. rewrite Hs.
  cbn [mbind option_bind]. destruct (ppn_of_page s b Hf Hb) as (_&_&->). by destruct (ppm_free_pages _ s b).
Qed.

Lemma table_alloc_eq n c r : frame_alloc (nd_cluster n) = Some (c, r) → table_alloc n = Some (with_cluster n c, r).
Proof. intros E. unfold table_alloc. by rewrite E. Qed.

Lemma table_alloc_free n n' ppn :
  node_inv n → table_alloc n = Some (n', Some ppn) →
  ∃ n'', table_free n' ppn = Some n'' ∧ node_inv n'' ∧
    ∀ f, frame_used (nd_cluster n'') f ↔ frame_used (nd_cluster n) f.
Proof.
  intros Hn E. destruct (ni_frames _ Hn) as (Hall&s&Hs&Hf).
  destruct (frame_alloc_cases _ s Hall Hs Hf) as [Ea|(s'&b&Ea&Hf'&Hst&_&Hb&Hfree&Ed)];
    pose proof (table_alloc_eq n _ _ Ea) as Et; rewrite E in Et; [done|].
  assert (n' = with_ppm n s' ∧ ppn = b + ppn_start s) as [-> ->] by (injection Et as -> ->; split; reflexivity).
  clear E Ea Et. destruct (alloc_node n (with_ppm n s') s s' b Hn Hs (stepped_with _ _) Hf' Hst Hb Hfree Ed)
    as (Hn'&_&_&Hnu&Hu&Hh&m&Eg).
  destruct (down_node (with_ppm n s') (b + ppn_start s) 1 m Hn' Hh Eg) as (n2&E2&Hn2&_&Hu2).
  exists n2. split; [|split; [done|]].
  - rewrite <- E2. by apply free_is_down.
  - intros f. rewrite (Hu2 f), (Hu f). split; [tauto|]. intros Huf.
    split; [by left|]. by intros ->.
Qed.

#[export] Instance node_frame_allocator_laws : FrameAllocatorLaws node_mem.
Proof.
  split; [|exact table_alloc_free]. intros n Hn. destruct (table_alloc_ok n Hn) as (n'&r&?&?&_&?). by exists n', r.
Qed.

Lemma table_kept n n' r : node_inv n → table_alloc n = Some (n', r) → pages_kept (λ _, True) n n'.
Proof.
  intros Hn E. destruct (table_alloc_ok n Hn) as (n2&r2&E2&_&Hk&_). rewrite E in E2. by injection E2 as <- <-.
Qed.

#[export] Instance node_page_refs_laws : PageRefsLaws node_mem.
Proof.
  split; [exact held_facts|exact held_inj|exact table_kept|exact fault_alloc_ok|exact anon_node|exact up_node|exact down_node].
Qed.
