(* ===== verification/Isolation.v ===== *)
(** * Every task has its own memory

    The actions of tasks on their memory (loads, stores, fork, the release of a region, the
    advice to migrate) on the page tables and physical pages of [Cow], against the abstract
    machine in which every address space is a separate memory.  The interface of counted pages
    is met by the physical pages manager of [Ppm]. *)

From S2P Require Import Prelude Clist Bits Page Buddy Ppm PpmSystem Pmm PmmAlloc VmRegion.
From S2P Require Import Cow CowTables CowSpec CowSystem CowAlloc.

Open Scope Z_scope.

#[local] Opaque zero_page.

(** ** Actions *)

Inductive action :=
  | Load (d va : Z)
  | Store (d va v : Z)
  | Fork (src dst : Z) (rg : vm_region_s)
  | Release (d : Z) (rg : vm_region_s)
  | Advise (d start len : Z).

(** The address space whose memory an action may change. *)
Definition owner (a : action) : Z :=
  match a with Load d _ | Store d _ _ | Fork _ d _ | Release d _ | Advise d _ _ => d end.

Inductive answer := Value (v : Z) | Stored | Error (err : Z).

Abbreviation memory_of_tasks := (gmap (Z * Z) (list Z)).

(** The region of each page; it does not change. *)
Abbreviation layout := (Z → Z → option vm_region_s).

Definition page_of_va (va : Z) : Z := va / PMM_PAGE_SIZE.

(** ** The abstract machine

    Each address space has its own pages.  A store to a region that is not writable is refused.
    Out of memory is visible: the page of the access is lost, and fork stops after some
    pages. *)

Definition writable (L : layout) (d va : Z) : Prop :=
  ∃ rg, L d (page_of_va va) = Some rg ∧ flag (vm_prot rg) VM_REG_WR = true.

Inductive abstract (L : layout) : action → memory_of_tasks → answer → memory_of_tasks → Prop :=
  | a_load d va V pg :
      touch V (d, page_of_va va) !! (d, page_of_va va) = Some pg →
      abstract L (Load d va) V (Value (pg !!! Z.to_nat (va mod PMM_PAGE_SIZE))) (touch V (d, page_of_va va))
  | a_store d va v V :
      writable L d va →
      abstract L (Store d va v) V Stored
        (alter (insert (Z.to_nat (va mod PMM_PAGE_SIZE)) v) (d, page_of_va va) (touch V (d, page_of_va va)))
  | a_refused d va v V :
      ¬ writable L d va → abstract L (Store d va v) V (Error (-1003)) V
  | a_nomem a d va V :
      a = Load d va ∨ (∃ v, a = Store d va v) →
      abstract L a V (Error ENOMEM) (delete (d, page_of_va va) V)
  | a_fork src dst rg V V' :
      shared_view V V' src dst (page_of_va (vm_start rg)) (region_pages rg) →
      abstract L (Fork src dst rg) V (Error 0) V'
  | a_fork_nomem src dst rg V V' done :
      (done < region_pages rg)%nat → shared_view V V' src dst (page_of_va (vm_start rg)) done →
      abstract L (Fork src dst rg) V (Error ENOMEM) V'
  | a_release d rg V V' :
      (∀ k, V' !! k = if decide (in_range (page_of_va (vm_start rg)) (region_pages rg) k d) then None else V !! k) →
      abstract L (Release d rg) V (Error 0) V'
  | a_advise d start len V : abstract L (Advise d start len) V (Error 0) V.

(** ** The machine *)

Section machine.
Context {A : Type} `{FrameAllocatorLaws A} `{!PageRefs A} `{!PageRefsLaws A}.
Context (mmu_report : page_info → bool → Z) (D : gset Z) (L : layout).
Implicit Types (s : pstate A) (M : mapping).

Definition run (a : action) s : option (pstate A * answer) :=
  match a with
  | Load d va =>
      rg ← L d (page_of_va va);
      '(s, r) ← user_access mmu_report 2 s d rg false va;
      Some (s, match r with Done x => Value (pmem s x) | Refused err => Error err end)
  | Store d va v =>
      rg ← L d (page_of_va va);
      '(s, r) ← user_store mmu_report 2 s d rg va v;
      Some (s, match r with Done _ => Stored | Refused err => Error err end)
  | Fork src dst rg => '(s, err) ← vm_region_dup_pages s src dst rg; Some (s, Error err)
  | Release d rg => s ← vm_region_unmap s d rg; Some (s, Error 0)
  | Advise d start len => '(s, err) ← vmm_madvise_migrate s d start len; Some (s, Error err)
  end.

(** The pages of a range are not waiting to be migrated. *)
Definition settled s d n count : Prop :=
  ∀ k, n ≤ k < n + Z.of_nat count → attr (entry s d k) = 0 ∨ Z.testbit (attr (entry s d k)) 31 = true.

Definition range_ok (rg : vm_region_s) : Prop := 0 ≤ vm_start rg ≤ vm_limit rg ∧ vm_limit rg < wsize.

Definition allowed s (a : action) : Prop :=
  match a with
  | Load d va => d ∈ D ∧ 0 ≤ va < wsize ∧ is_Some (L d (page_of_va va))
  | Store d va _ => d ∈ D ∧ 0 ≤ va < wsize ∧ is_Some (L d (page_of_va va))
  | Fork src dst rg =>
      let n := page_of_va (vm_start rg) in
      src ∈ D ∧ dst ∈ D ∧ src ≠ dst ∧ range_ok rg ∧ settled s src n (region_pages rg) ∧
      (∀ k, n ≤ k < n + Z.of_nat (region_pages rg) → attr (entry s dst k) = 0 ∧ L dst k = L src k) ∧
      ∀ p c m, pr_held (palloc s) p → pr_page (palloc s) p = Some (c, m) → c + Z.of_nat (region_pages rg) < wsize
  | Release d rg =>
      d ∈ D ∧ range_ok rg ∧ flag (vm_flags rg) VM_REG_LAZY = false ∧
      settled s d (page_of_va (vm_start rg)) (region_pages rg)
  | Advise d start len => d ∈ D ∧ 0 ≤ start ∧ 0 ≤ len ∧ start + len + PMM_PAGE_SIZE < wsize
  end.

(** The invariant: that of the pages, and the entries suit the regions. *)
Definition suits s : Prop :=
  ∀ d n, d ∈ D → page_no n →
    match L d n with
    | Some rg => user_region rg ∧ usable_attr rg (attr (entry s d n))
    | None => attr (entry s d n) = 0
    end.

Record machine_ok s M : Prop := MachineOk { mo_cow : cow_inv D s M; mo_suits : suits s }.

Lemma suits_effect s M s' d n i V rg :
  suits s → d ∈ D → page_no n → effect D s M s' d n i V → L d n = Some rg → usable_attr rg (attr i) → suits s'.
Proof.
  intros Hs Hd Hn Hef HL Hu e k He Hk. rewrite (ef_entries _ _ _ _ _ _ _ _ Hef e k He Hk).
  specialize (Hs e k He Hk). case_decide as E; [|done]. simplify_eq. rewrite HL in *. by destruct Hs.
Qed.

Context (Hrep : report_ok mmu_report).

(** No page waits to be migrated. *)
Definition all_settled s : Prop :=
  ∀ d n, d ∈ D → page_no n → attr (entry s d n) = 0 ∨ Z.testbit (attr (entry s d n)) 31 = true.

(** What a step owes to the abstract machine. *)
Definition simulates (a : action) s M : Prop :=
  ∃ s' r M', run a s = Some (s', r) ∧ machine_ok s' M' ∧ abstract L a (view s M) r (view s' M').

Lemma access_sim s M d va rg (w : bool) :
  machine_ok s M → d ∈ D → 0 ≤ va < wsize → L d (page_of_va va) = Some rg →
  (w = true → flag (vm_prot rg) VM_REG_WR = true) →
  let n := page_of_va va in
  ∃ s' r M', user_access mmu_report 2 s d rg w va = Some (s', r) ∧ machine_ok s' M' ∧ (all_settled s → all_settled s') ∧
    ((∃ p, r = Done (frame_of p * PMM_PAGE_SIZE + va mod PMM_PAGE_SIZE) ∧ M' !! (d, n) = Some p ∧
           allows w (attr (entry s' d n)) = true ∧ view s' M' = touch (view s M) (d, n)) ∨
     r = Refused ENOMEM ∧ view s' M' = delete (d, n) (view s M)).
Proof.
  intros [HI Hs] Hd Hva HL Hw n. pose proof (va_page _ Hva) as Hn. pose proof (Hs d n Hd Hn) as Hdn. unfold n in Hdn. rewrite HL in Hdn.
  destruct Hdn as [Hrg Hu].
  destruct (access_ok D s M mmu_report d va rg w HI Hd Hva Hrg Hrep Hu Hw) as (s' & r & i & V & Ex & Hef & Hu' & Hr).
  fold (page_of_va va) n in Hef, Hr. exists s', r, (set_map M (d, n) i). split; [done|].
  split; [split; [apply Hef|by eapply suits_effect]|]. destruct (effect_map D s M s' d n i V Hd Hn Hef) as [Ei EM].
  split.
  { intros Hset e k He Hk. rewrite (ef_entries _ _ _ _ _ _ _ _ Hef e k He Hk). case_decide; [|by apply Hset].
    destruct Hr as [(_ & Hal & _)|(_ & Ha & _)]; [right|by left]. unfold allows in Hal. by apply andb_true_iff in Hal as [? _]. }
  destruct Hr as [(-> & Hal & ->)|(-> & _ & ->)].
  - left. exists (ppn i). split; [done|]. rewrite EM, Ei, (ef_view _ _ _ _ _ _ _ _ Hef). split_and!; [|done|done].
    apply maps_to_some. unfold allows in Hal. apply andb_true_iff in Hal as [Hal _]. by eapply nonzero_bit.
  - right. split; [done|]. apply (ef_view _ _ _ _ _ _ _ _ Hef).
Qed.

Lemma content_lookup m f o : 0 ≤ o < PMM_PAGE_SIZE → content m f !!! Z.to_nat o = m (f * PMM_PAGE_SIZE + o).
Proof.
  intros Ho. apply list_lookup_total_correct. unfold content. rewrite list_lookup_fmap.
  rewrite lookup_seqZ_lt by lia. cbn. f_equal. f_equal. lia.
Qed.

Lemma va_offset va : 0 ≤ va mod PMM_PAGE_SIZE < PMM_PAGE_SIZE.
Proof. by apply Z.mod_pos_bound. Qed.

Lemma load_sim s M d va : machine_ok s M → allowed s (Load d va) → simulates (Load d va) s M.
Proof.
  intros HM (Hd & Hva & rg & HL). destruct (access_sim s M d va rg false HM Hd Hva HL) as (s' & r & M' & Ex & HM' & _ & Hr); [done|].
  unfold simulates, run. rewrite HL. cbn [mbind option_bind]. rewrite Ex. cbn [mbind option_bind]. eexists s', _, M'. split; [done|].
  split; [done|]. destruct Hr as [(p & -> & Hp & _ & Hv)|(-> & Hv)]; rewrite Hv; [|apply a_nomem; by left].
  rewrite <- (content_lookup _ _ _ (va_offset va)). apply a_load. rewrite <- Hv. unfold view. by rewrite lookup_fmap, Hp.
Qed.

(** A store to a region that is not writable changes nothing. *)
Lemma readonly_sim s M d va rg :
  machine_ok s M → d ∈ D → 0 ≤ va < wsize → L d (page_of_va va) = Some rg →
  flag (vm_prot rg) VM_REG_WR = false → user_access mmu_report 2 s d rg true va = Some (s, Refused (-1003)).
Proof.
  intros [HI Hs] Hd Hva HL HW. pose proof (Hs d (page_of_va va) Hd (va_page _ Hva)) as Hdn. rewrite HL in Hdn. destruct Hdn as [Hrg Hu].
  cbn [user_access]. rewrite translate_entry. unfold allows. cbn [negb orb].
  fold (page_of_va va). set (x := attr _) in *.
  assert (Z.testbit x 31 && Z.testbit x 26 = false) as ->.
  { destruct Hu as [->|(_ & _ & Hro)]; [by rewrite !Z.testbit_0_l|]. rewrite HW in Hro. destruct (Z.testbit x 26); [by specialize (Hro eq_refl)|apply andb_false_r]. }
  destruct (Hrep (pmm_get_page (pmem s) d va) true) as (R1 & R2 & R3).
  unfold vm_region_update. rewrite R1, R2, (ur_read _ Hrg), HW. cbn [negb]. by rewrite andb_false_r.
Qed.

Lemma store_sim s M d va v : machine_ok s M → allowed s (Store d va v) → simulates (Store d va v) s M.
Proof.
  intros HM (Hd & Hva & rg & HL). pose proof (va_page _ Hva) as Hn. unfold simulates, run. rewrite HL. cbn [mbind option_bind].
  destruct (flag (vm_prot rg) VM_REG_WR) eqn:HW.
  2:{ unfold user_store. rewrite (readonly_sim s M d va rg HM Hd Hva HL HW). eexists s, _, M. split; [done|]. split; [done|].
      apply a_refused. intros (r & Er & Hr). congruence. }
  destruct (access_sim s M d va rg true HM Hd Hva HL) as (s' & r & M' & Ex & [HI' Hs'] & _ & Hr); [done|].
  unfold user_store. rewrite Ex. cbn [mbind option_bind].
  destruct Hr as [(p & -> & Hp & Hal & Hv)|(-> & Hv)].
  - apply andb_true_iff in Hal as [_ H26]. cbn [negb orb] in H26.
    destruct (store_ok D s' M' d (page_of_va va) p (va mod PMM_PAGE_SIZE) v HI' Hd Hn Hp H26 (va_offset va)) as (HI2 & Hse & Hv2).
    eexists _, _, M'. split; [done|]. split; [split; [done|]|rewrite Hv2, Hv; apply a_store; by exists rg].
    intros e k He Hk. rewrite Hse by done. by apply Hs'.
  - eexists s', _, M'. split; [done|]. split; [done|]. rewrite Hv. apply a_nomem. right. by exists v.
Qed.

Lemma pages_of_region rg : range_ok rg → pages_at (vm_start rg) (page_of_va (vm_start rg)) (region_pages rg).
Proof.
  intros [H1 H2]. unfold region_pages, page_of_va, PMM_PAGE_SHIFT. rewrite Z.shiftr_div_pow2, u32_small by (unfold wsize in *; lia).
  change (2 ^ 12) with PMM_PAGE_SIZE. unfold pages_at, PMM_PAGE_SIZE, wsize in *.
  pose proof (Z.div_pos (vm_start rg) 0x1000). pose proof (Z.div_pos (vm_limit rg - vm_start rg) 0x1000).
  pose proof (Z.mul_div_le (vm_start rg) 0x1000). pose proof (Z.mul_div_le (vm_limit rg - vm_start rg) 0x1000). lia.
Qed.

Lemma usable_zero rg : usable_attr rg 0.
Proof. by left. Qed.

Lemma release_ok s M d rg :
  machine_ok s M → allowed s (Release d rg) →
  let n := page_of_va (vm_start rg) in let count := region_pages rg in
  ∃ s' M', vm_region_unmap s d rg = Some s' ∧ machine_ok s' M' ∧ (all_settled s → all_settled s') ∧
    (∀ k, in_range n count k d → attr (entry s' d k.2) = 0) ∧
    ∀ k, view s' M' !! k = if decide (in_range n count k d) then None else view s M !! k.
Proof.
  intros [HI Hs] (Hd & Hrg & HLz & Hset) n count. unfold vm_region_unmap. rewrite HLz.
  destruct (unmap_loop_ok D d _ s M _ _ HI Hd (pages_of_region _ Hrg)) as (s' & M' & -> & HI' & Hk & Hz & Hv).
  { intros k [_ Hk]. by apply Hset. }
  assert (Hent : ∀ e k, e ∈ D → page_no k → attr (entry s' e k) = 0 ∨ entry s' e k = entry s e k).
  { intros e k He Hkn. destruct (decide (in_range n count (e, k) d)) as [Hin|Hout]; [left|right; by apply Hk].
    pose proof (Hz _ Hin) as E. destruct Hin as [<- _]. done. }
  exists s', M'. split; [done|]. split; [split; [done|]|split; [|by split]].
  - intros e k He Hkn. specialize (Hs e k He Hkn). destruct (Hent e k He Hkn) as [-> | ->]; [|done].
    destruct (L e k); [|done]. destruct Hs. split; [done|apply usable_zero].
  - intros Hall e k He Hkn. destruct (Hent e k He Hkn) as [-> | ->]; [by left|by apply Hall].
Qed.

Lemma release_sim s M d rg : machine_ok s M → allowed s (Release d rg) → simulates (Release d rg) s M.
Proof.
  intros HM Ha. destruct (release_ok s M d rg HM Ha) as (s' & M' & E & HM' & _ & _ & Hv).
  unfold simulates, run. rewrite E. cbn [mbind option_bind]. eexists s', _, M'. split; [done|]. split; [done|by apply a_release].
Qed.

Lemma usable_madvise rg x : x ≠ 0 → usable_attr rg x → usable_attr rg (madvise_attr x).
Proof.
  intros Hx [?|(_ & Hu & Hw)]; [done|]. right. rewrite !madvise_attr_bit by done. cbn [Z.eqb Pos.eqb negb].
  rewrite !orb_true_r, !orb_false_r, !andb_true_r. done.
Qed.

Lemma advise_range start len :
  0 ≤ start → 0 ≤ len → start + len + PMM_PAGE_SIZE < wsize →
  pages_at start (page_of_va start) (Z.to_nat (Z.shiftr (ARROUND_UP len PMM_PAGE_SIZE) PMM_PAGE_SHIFT)).
Proof.
  intros H1 H2 H3. unfold page_of_va, pages_at, PMM_PAGE_SHIFT in *. change PMM_PAGE_SIZE with (2 ^ 12) in *.
  destruct (ARROUND_UP_spec len 12) as [[q Hq] Hb]; [done|unfold wsize in *; lia|unfold wsize in *; lia|].
  rewrite Hq, Z.shiftr_div_pow2, Z.div_mul by done. rewrite Hq in Hb. unfold wsize in *.
  pose proof (Z.div_pos start (2 ^ 12)). pose proof (Z.mul_div_le start (2 ^ 12)). lia.
Qed.

Lemma advise_sim s M d start len : machine_ok s M → allowed s (Advise d start len) → simulates (Advise d start len) s M.
Proof.
  intros [HI Hs] (Hd & H1 & H2 & H3). unfold simulates, run, vmm_madvise_migrate.
  destruct (madvise_loop_ok D d _ s M _ _ HI Hd (advise_range start len H1 H2 H3)) as (s' & M' & -> & HI' & Hk & Hz & Hv).
  cbn [mbind option_bind]. eexists s', _, M'. split; [done|]. split; [split; [done|]|rewrite Hv; apply a_advise].
  intros e k He Hkn. specialize (Hs e k He Hkn). set (c := Z.to_nat _) in *.
  destruct (decide (in_range (page_of_va start) c (e, k) d)) as [Hin|Hout]; [|by rewrite Hk].
  pose proof (Hz _ Hin) as E. destruct Hin as [Ed _]. cbn in Ed, E. subst e. destruct E as [->|[Hx ->]]; [done|].
  destruct (L d k); [|done]. destruct Hs. split; [done|by apply usable_madvise].
Qed.

Lemma usable_dup rg x : x ≠ 0 → usable_attr rg x → usable_attr rg (dup_attr x).
Proof.
  intros Hx [?|(Hp & _)]; [done|]. right. rewrite !dup_attr_bit by done. cbn [Z.eqb Pos.eqb negb].
  rewrite !orb_true_r, !orb_false_r, !andb_true_r, andb_false_r. split_and!; done.
Qed.

Lemma settled_dup x : x = 0 ∨ Z.testbit x 31 = true → x ≠ 0 → Z.testbit (dup_attr x) 31 = true.
Proof. intros [?|H31] Hx; [done|]. by rewrite dup_attr_bit, H31. Qed.

Lemma fork_ok s M src dst rg :
  machine_ok s M → src ∈ D → dst ∈ D → src ≠ dst → range_ok rg →
  let n := page_of_va (vm_start rg) in let count := region_pages rg in
  settled s src n count →
  (∀ k, n ≤ k < n + Z.of_nat count → attr (entry s dst k) = 0 ∧ L dst k = L src k) →
  (∀ k p c m, M !! k = Some p → pr_page (palloc s) p = Some (c, m) → c + Z.of_nat count < wsize) →
  ∃ s' err M', vm_region_dup_pages s src dst rg = Some (s', err) ∧ machine_ok s' M' ∧ (all_settled s → all_settled s') ∧
    counts_grow (Z.of_nat count) s s' M M' ∧
    (err = 0 ∧ shared_view (view s M) (view s' M') src dst n count ∨
     err = ENOMEM ∧ ∃ done, (done < count)%nat ∧ shared_view (view s M) (view s' M') src dst n done).
Proof.
  intros [HI Hs] Hsrc Hdst Hne Hrg n count Hset Hemp Hmax. unfold vm_region_dup_pages.
  pose proof (pages_of_region _ Hrg) as Hp.
  destruct (dup_loop_ok D src dst _ s M _ _ HI Hsrc Hdst Hne Hp) as (s' & err & M' & -> & HI' & Hg & Hf & Hd & Hv).
  { intros [e k] Hk. pose proof (pages_at_page _ _ _ _ _ Hp Hk) as Hkn. destruct Hk as [Ee Hk]. cbn in *. subst e.
    destruct (ci_map _ _ _ HI dst k Hdst Hkn) as [-> _]. unfold maps_to. by rewrite (proj1 (Hemp k Hk)). }
  { intros k [_ Hk]. by apply Hset. }
  { exact Hmax. }
  exists s', err, M'. split; [done|]. split; [split; [done|]|split; [|by split]].
  - intros e k He Hk. pose proof (Hs e k He Hk) as Hek. destruct (decide (e = dst)) as [->|Hed].
    + destruct (Hd k Hk) as [->|([_ Hin] & Hx & ->)]; [done|]. cbn in Hin. rewrite (proj2 (Hemp k Hin)) in *.
      pose proof (Hs src k Hsrc Hk) as Hsk. destruct (L src k) as [r|]; [|done]. destruct Hsk as [Hr Hu]. split; [done|by apply usable_dup].
    + destruct (Hf e k He Hk Hed) as [->|[Hx ->]]; [done|]. destruct (L e k); [|done]. destruct Hek. split; [done|by apply usable_dup].
  - intros Hall e k He Hk. destruct (decide (e = dst)) as [->|Hed].
    + destruct (Hd k Hk) as [->|(_ & Hx & ->)]; [by apply Hall|right; apply settled_dup; [by apply Hall|done]].
    + destruct (Hf e k He Hk Hed) as [->|[Hx ->]]; [by apply Hall|right; apply settled_dup; [by apply Hall|done]].
Qed.

Lemma fork_sim s M src dst rg : machine_ok s M → allowed s (Fork src dst rg) → simulates (Fork src dst rg) s M.
Proof.
  intros HM (Hsrc & Hdst & Hne & Hrg & Hset & Hemp & Hmax).
  destruct (fork_ok s M src dst rg HM Hsrc Hdst Hne Hrg Hset Hemp) as (s' & err & M' & E & HM' & _ & _ & Hv).
  { intros k p c m Hk. apply Hmax. by apply (ci_data _ _ _ (mo_cow _ _ HM) k). }
  unfold simulates, run. rewrite E. cbn [mbind option_bind]. eexists s', _, M'. split; [done|]. split; [done|].
  destruct Hv as [[-> Hv]|(-> & dn & Hlt & Hv)]; [by apply a_fork|by eapply a_fork_nomem].
Qed.

Lemma simulation s M a : machine_ok s M → allowed s a → simulates a s M.
Proof. destruct a; eauto using load_sim, store_sim, fork_sim, release_sim, advise_sim. Qed.

(** ** Sequences of actions of the other tasks *)

Inductive others (d : Z) : pstate A → pstate A → Prop :=
  | others_refl s : others d s s
  | others_step s1 s2 s3 a r :
      owner a ≠ d → allowed s1 a → run a s1 = Some (s2, r) → others d s2 s3 → others d s1 s3.
End machine.

Lemma touch_ne V k k' : k' ≠ k → touch V k !! k' = V !! k'.
Proof. intros Hk. unfold touch. destruct (V !! k); [done|by apply lookup_insert_ne]. Qed.

(** In the abstract machine an action changes the memory of its owner alone. *)
Lemma abstract_owner L a V r V' d n : abstract L a V r V' → owner a ≠ d → V' !! (d, n) = V !! (d, n).
Proof.
  intros Ha Hd. destruct Ha as [e va V pg Hpg|e va v V _|e va v V _|a e va V Hor|src dst rg V V' Hs|src dst rg V V' dn _ Hs|e rg V V' Hs|];
    cbn [owner] in Hd.
  - apply touch_ne. congruence.
  - rewrite lookup_alter_ne by congruence. apply touch_ne. congruence.
  - done.
  - apply lookup_delete_ne. destruct Hor as [->|[v ->]]; cbn in Hd; congruence.
  - rewrite Hs, decide_False; [done|]. intros [E _]. by apply Hd.
  - rewrite Hs, decide_False; [done|]. intros [E _]. by apply Hd.
  - rewrite Hs, decide_False; [done|]. intros [E _]. by apply Hd.
  - done.
Qed.

(** ** Regions *)

Lemma flag_lor x y f : Z.land y f ≠ 0 → flag (Z.lor x y) f = true.
Proof.
  intros Hy. unfold flag, ctrue. apply negb_true_iff, Z.eqb_neq. intros E. apply Hy.
  rewrite Z.land_lor_distr_l in E. by apply Z.lor_eq_0_iff in E as [_ ?].
Qed.

(** The regions [vm_region_init] makes for readable or writable memory in small pages are those
    of the invariant. *)
Lemma user_region_init start stop prot offset flags :
  flag prot VM_REG_RD || flag prot VM_REG_WR = true →
  flag flags VM_REG_HUGETLB = false → flag flags VM_REG_INIT = false →
  user_region (vm_region_init start stop prot offset flags).
Proof.
  intros Hp Hh Hi. unfold vm_region_init. destruct (flag prot VM_REG_WR) eqn:Ew.
  - rewrite (flag_lor prot VM_REG_RD VM_REG_RD) by done. rewrite Hh.
    assert (flag (Z.lor prot VM_REG_RD) VM_REG_WR = true) as Ew' by (unfold flag; rewrite Z.land_lor_distr_l, Z.lor_0_r; exact Ew).
    destruct (flag (Z.lor prot VM_REG_RD) VM_REG_EX); destruct (Z.lor prot VM_REG_RD =? VM_REG_NON);
      (split; cbn [vm_prot vm_pgprot vm_flags]; [by vm_compute|by vm_compute|rewrite Ew'; by vm_compute|by apply flag_lor|done]).
  - rewrite orb_false_r in Hp. rewrite Hp, Hh.
    destruct (flag prot VM_REG_EX); destruct (prot =? VM_REG_NON);
      (split; cbn [vm_prot vm_pgprot vm_flags]; [by vm_compute|by vm_compute|rewrite Ew; by vm_compute|done|done]).
Qed.

(** ** Results *)

Section results.
Context {A : Type} `{FrameAllocatorLaws A} `{!PageRefs A} `{!PageRefsLaws A}.
Implicit Types (s : pstate A) (M : mapping).

(** C5. Loads, stores, fork, the release of regions and the advice to migrate, on private anonymous
    regions, are those of the machine in which every task has its own memory: whatever pages are
    shared, an action that [allowed] admits ends without a fault of the kernel, an access after at
    most one page fault, a store to a read-only region is refused, and what the tasks see changes as
    in the abstract machine.  [allowed] leaves out, because the code then departs from that machine,
    a fork or a release of a range with a page that waits for its migration, which is passed over
    ([fork_skips_migrating], [release_skips_migrating]), and the release of a region with the flag
    LAZY, set when a whole address space is destroyed, which keeps the entries of the pages it gives
    back ([lazy_release_readable]).  It also asks
    that accesses lie in a region, that the range of a fork is empty in the child and has the same
    regions there, that no reference count can pass 2^32, and that ranges end below 2^32.  Regions
    with a mapper (files, shared memory) are not in the model. *)
Theorem tasks_memory_refines mmu_report D L s M a :
  report_ok mmu_report → machine_ok D L s M → allowed D L s a →
  ∃ s' r M', run mmu_report L a s = Some (s', r) ∧ machine_ok D L s' M' ∧
    abstract L a (view s M) r (view s' M').
Proof. intros Hr HM Ha. exact (simulation mmu_report D L Hr s M a HM Ha). Qed.

(** C2. What a task sees of its private anonymous memory does not change, whatever [allowed] actions
    the other tasks take: fork from it or among them, write to pages they share with it, unmap, run
    out of memory.  A fork or a release of a range with a page that waits for its migration and a
    release with the flag LAZY are not among these actions. *)
Theorem tasks_isolated mmu_report D L d s s' M :
  report_ok mmu_report → machine_ok D L s M → others mmu_report D L d s s' →
  ∃ M', machine_ok D L s' M' ∧ ∀ n, view s' M' !! (d, n) = view s M !! (d, n).
Proof.
  intros Hr HM Ho. revert M HM. induction Ho as [s|s1 s2 s3 a r Hd Ha Ex _ IH]; intros M HM; [by exists M|].
  destruct (simulation mmu_report D L Hr s1 M a HM Ha) as (s2' & r' & M2 & Ex' & HM2 & Hab).
  rewrite Ex in Ex'. injection Ex' as <- <-. destruct (IH M2 HM2) as (M3 & HM3 & Hv). exists M3. split; [done|].
  intros n. rewrite Hv. by eapply abstract_owner.
Qed.

(** ** Divergences *)

(** [vmm_do_aod] does not look at the entry it has locked.  A thread that saw the page empty and
    runs after another thread of the task has been given the page replaces it: what was written
    meanwhile is lost. *)
Lemma aod_discards_page D s M d va pgprot :
  cow_inv D s M → d ∈ D → 0 ≤ va < wsize → clean pgprot → pgprot ≠ 0 →
  ∃ s' err M', vmm_do_aod s d pgprot va = Some (s', err) ∧ cow_inv D s' M' ∧
    (err = 0 → view s' M' !! (d, va / PMM_PAGE_SIZE) = Some zero_page).
Proof.
  intros HI Hd Hva Hc Hp0. destruct (aod_ok D s M d va pgprot HI Hd Hva Hc Hp0) as (s' & err & i & V & Ex & Hef & Hr).
  exists s', err, (set_map M (d, va / PMM_PAGE_SIZE) i). split; [done|]. split; [apply Hef|]. intros ->.
  rewrite (ef_view _ _ _ _ _ _ _ _ Hef). destruct Hr as [(_ & _ & ->)|(? & _)]; [apply lookup_insert_eq|done].
Qed.

(** A page that waits to be migrated is not given to the child. *)
Lemma fork_skips_migrating s src dst va :
  Z.testbit (attr (pmm_get_page (pmem s) src va)) 31 = false → dup_page s src dst va = Some (s, 0).
Proof. intros E. unfold dup_page. by rewrite present_bit, E. Qed.

(** Nor is it given back when its region is released. *)
Lemma release_skips_migrating s d isLazy va :
  Z.testbit (attr (pmm_get_page (pmem s) d va)) 31 = false → unmap_page s d isLazy va = Some s.
Proof. intros E. unfold unmap_page. by rewrite present_bit, E. Qed.
End results.

(** ** An example

    A cluster of 512 pages after [ppm_init]; two empty directories in the pages 2 and 3, and 16
    and 17, which the boot loader reserved; both tasks have a writable region of 16 pages. *)
Definition ex_node (s : ppm_s) : node_mem := NodeMem (ex_cluster s) ex_platform 0 0.
Definition ex_spaces : gset Z := {[0x2000; 0x10000]}.
Definition ex_heap : vm_region_s := vm_region_init 0x400000 0x410000 VM_REG_WR 0 0.
Definition ex_layout : layout := λ _ n, if (0x400 <=? n) && (n <? 0x410) then Some ex_heap else None.
Definition ex_report (_ : page_info) (write : bool) : Z := if write then 0x0001 else 0x1001.

Lemma ex_spaces_cases d : d ∈ ex_spaces → d = 0x2000 ∨ d = 0x10000.
Proof. unfold ex_spaces. by rewrite elem_of_union, !elem_of_singleton. Qed.

Lemma ex_report_ok : report_ok ex_report.
Proof. intros i []; by vm_compute. Qed.

(** After [ppm_init] only reserved pages have a reference count. *)
Lemma ex_counts :
  (s ← ex_init; Some (ppn_start s,
     forallb (λ i, match aget (pages_tbl s) i with
                   | Some p => (count p =? 0) || (i <? 12) || (i =? 16) || (i =? 17)
                   | None => true end) (seqZ 0 512)))
  = Some (0, true).
Proof. vm_compute. reflexivity. Qed.

Lemma ex_reserved q : 0 ≤ q < 12 ∨ q = 16 ∨ q = 17 → reserved_page 64 ex_fresh ex_info q.
Proof.
  assert (E : reserved_pages_nr 64 ex_fresh = 12) by (vm_compute; reflexivity).
  intros [Hq|[->| ->]]; [left; rewrite E; lia|right; exists 0|right; exists 1]; vm_compute; by repeat split.
Qed.

Lemma ex_node_inv :
  ∃ s, ex_init = Some s ∧ node_inv (ex_node s) ∧
    ∀ f, f = 2 ∨ f = 3 ∨ f = 16 ∨ f = 17 → fa_used (ex_node s) f.
Proof.
  destruct (ppm_init_spec 64 ex_platform 0 ex_links 0 0x200000 0 0x4000 ex_info ex_memory)
    as (s&bm&E&Hok&Hnr&Hfree&_). exists s. split; [exact E|].
  pose proof ex_counts as Hc. change (ppm_init _ _ _ _ _ _ _ _ _) with ex_init in E. rewrite E in Hc.
  cbn [mbind option_bind] in Hc. set (Hcounts := forallb _ _) in Hc.
  assert (Hst : ppn_start s = 0) by congruence. assert (Hcs : Hcounts = true) by congruence.
  clear Hc. rename Hcs into Hc. unfold Hcounts in Hc.
  change (pages_nr (ppm_fresh _ _ _ _ _)) with 512 in Hnr, Hfree.
  assert (Hfp : ∀ q, free_page s q → 0 < q < 512 ∧ ¬ reserved_page 64 ex_fresh ex_info q).
  { intros q Hq. apply (free_page_iff _ _ _ Hok), Hfree in Hq as [Hq Hr]. split; [|done].
    destruct (decide (q = 0)) as [->|]; [|lia]. destruct Hr. apply ex_reserved. lia. }
  assert (Hl : local_ppm (ex_node s) = Some s) by (apply lookup_singleton_eq).
  split; [split|].
  - split; [intros c s'; cbn [ex_node nd_cluster ex_cluster cl_managers];
      intros [_ <-]%lookup_singleton_Some; exists bm; exact Hok|]. exists s. split; [exact Hl|].
    split; [exists bm; exact Hok|rewrite Hst, Hnr; split; lia|rewrite Hnr; lia|].
    intros q p Hq Hp. destruct (Hfp q Hq) as [Hr Hn].
    rewrite forallb_forall in Hc. specialize (Hc q). rewrite Hp in Hc.
    assert (¬ (0 ≤ q < 12 ∨ q = 16 ∨ q = 17)) by (intros ?; by apply Hn, ex_reserved).
    specialize (Hc ltac:(apply list_elem_of_In, elem_of_seqZ; lia)). lia.
  - reflexivity.
  - intros s' b Hs' Hb. rewrite Hl in Hs'. injection Hs' as <-. rewrite Hnr in Hb. rewrite Hst, Z.add_0_r.
    unfold pmm_ppn2cid, PMM_CID_SHIFT. rewrite Z.shiftr_div_pow2, Z.div_small by lia. reflexivity.
  - intros s' b Hs' Hb. rewrite Hl in Hs'. injection Hs' as <-. destruct (Hfp b Hb). lia.
  - intros f Hf. apply (used_iff (ex_node s) s f Hl). intros q Hq. rewrite Hst, Z.add_0_r.
    destruct (Hfp q Hq) as [Hr Hn]. unfold frame_of. rewrite Z.mod_small by lia. intros ->.
    apply Hn, ex_reserved. lia.
Qed.

Lemma ex_machine_ok :
  ∃ s, ex_init = Some s ∧ machine_ok ex_spaces ex_layout (PState (λ _, 0) (ex_node s)) ∅.
Proof.
  destruct ex_node_inv as (s&E&Hn&Hu). exists s. split; [exact E|].
  pose proof ex_spaces_cases as HD. clear E.
  assert (Hget : ∀ d n, entry (PState (λ _, 0) (ex_node s)) d n = Info 0 0) by reflexivity.
  split; [split|].
  - split; [exact Hn| |by left|].
    + intros d Hd. split; [|intros f Hf; apply Hu|by left|done|done].
      * destruct (HD d Hd) as [->| ->]; (split; [lia|]); (split; [unfold wsize; lia|]); [by exists 2|by exists 16].
      * unfold dir_frame, PMM_PAGE_SIZE in Hf. destruct (HD d Hd) as [->| ->]; lia.
    + intros d e f Hd He [Hf|(?&_&[=])] [Hg|(?&_&[=])]. unfold dir_frame, PMM_PAGE_SIZE in *.
      destruct (HD d Hd) as [->| ->], (HD e He) as [->| ->]; lia.
  - done.
  - intros d n _ _. rewrite Hget. done.
  - done.
  - done.
  - done.
  - intros d n _ _. rewrite Hget. unfold ex_layout. destruct ((1024 <=? n) && (n <? 1040)); [|done]. split; [|by left].
    by apply user_region_init.
Qed.

(** The first task writes to its region. *)
Lemma tasks_memory_refines_witness :
  ∃ s, machine_ok ex_spaces ex_layout (PState (λ _, 0) (ex_node s)) ∅ ∧
  ∃ s' r M', run ex_report ex_layout (Store 0x2000 0x400123 7) (PState (λ _, 0) (ex_node s)) = Some (s', r) ∧
    machine_ok ex_spaces ex_layout s' M' ∧
    abstract ex_layout (Store 0x2000 0x400123 7) (view (PState (λ _, 0) (ex_node s)) ∅) r (view s' M').
Proof.
  destruct ex_machine_ok as (s&_&HM). exists s. split; [exact HM|].
  apply (tasks_memory_refines ex_report ex_spaces ex_layout (PState (λ _, 0) (ex_node s)) ∅
           (Store 0x2000 0x400123 7) ex_report_ok HM).
  split; [apply elem_of_union; left; by apply elem_of_singleton|]. split; [unfold wsize; lia|].
  exists ex_heap. reflexivity.
Defined.

(** The second task writes to its region, and the first does not see it. *)
Lemma tasks_isolated_witness :
  ∃ s s', others ex_report ex_spaces ex_layout 0x2000 (PState (λ _, 0) (ex_node s)) s' ∧
  ∃ M', machine_ok ex_spaces ex_layout s' M' ∧
    ∀ n, view s' M' !! (0x2000, n) = view (PState (λ _, 0) (ex_node s)) ∅ !! (0x2000, n).
Proof.
  destruct ex_machine_ok as (s&_&HM). set (s0 := PState (λ _, 0) (ex_node s)) in *.
  set (a := Store 0x10000 0x400123 7).
  assert (Ha : allowed ex_spaces ex_layout s0 a).
  { split; [apply elem_of_union; right; by apply elem_of_singleton|]. split; [unfold wsize; lia|].
    exists ex_heap. reflexivity. }
  destruct (simulation ex_report ex_spaces ex_layout ex_report_ok s0 ∅ a HM Ha) as (s'&r&M'&E&_&_).
  assert (Ho : others ex_report ex_spaces ex_layout 0x2000 s0 s').
  { eapply others_step; [|exact Ha|exact E|apply others_refl]. cbn. lia. }
  exists s, s'. split; [exact Ho|].
  exact (tasks_isolated ex_report ex_spaces ex_layout 0x2000 s0 s' ∅ ex_report_ok HM Ho).
Defined.

(** A whole session: the first task writes, forks, the child sees the value and writes another,
    and each reads its own; the region of the child is then released. *)
Fixpoint session (acts : list action) (s : pstate node_mem) : option (list answer) :=
  match acts with
  | [] => Some []
  | a :: acts => '(s, r) ← run ex_report ex_layout a s; rs ← session acts s; Some (r :: rs)
  end.

Lemma ex_session :
  (s ← ex_init;
   session [Store 0x2000 0x400123 7; Fork 0x2000 0x10000 ex_heap; Load 0x10000 0x400123;
            Store 0x10000 0x400123 9; Load 0x2000 0x400123; Load 0x10000 0x400123;
            Advise 0x2000 0x400000 0x1000; Load 0x2000 0x400123;
            Release 0x10000 ex_heap; Load 0x10000 0x400123] (PState (λ _, 0) (ex_node s)))
  = Some [Stored; Error 0; Value 7; Stored; Value 7; Value 9; Error 0; Value 7; Error 0; Value 0].
Proof. vm_compute. reflexivity. Qed.

(** A region with the flag LAZY can be read after its release, when its page is free. *)
Lemma lazy_release_readable :
  (s ← ex_init;
   session [Store 0x2000 0x400123 7; Release 0x2000 (vm_region_init 0x400000 0x410000 VM_REG_WR 0 VM_REG_LAZY); Load 0x2000 0x400123]
     (PState (λ _, 0) (ex_node s)))
  = Some [Stored; Error 0; Value 7].
Proof. vm_compute. reflexivity. Qed.
