(* ===== verification/Heap.v ===== *)
(** * The kernel heap (src/kernel/mm/heap_manager.c)

    A first-fit heap with in-line block headers.  Memory is the map [hdr] from the
    addresses of headers to their contents; a header that the map does not hold is
    memory outside the heap, and reading it is a fault ([None]).  The heap is a
    sequence of blocks from [start] to [limit]; the theorems relate the operations to
    that sequence. *)

From S2P Require Import Prelude Bits.

Open Scope Z_scope.

Definition CACHE_LINE_SIZE : Z := 64.

(** ** State *)

(** [struct block_info_s], 8 bytes; [size] has 31 bits. *)
Record block_info := Block { busy : bool; size : Z; owner : Z }.
Definition sizeof_block_info : Z := 8.

(** [struct heap_manager_s]; [self] is its address.  The fields [flags], [base] and
    [current] are never read by the operations. *)
Record heap := Heap {
  self : Z; start : Z; limit : Z; next : Z; hdr : gmap Z block_info }.

Definition set_hdr (h : heap) (a : Z) (b : block_info) : heap :=
  Heap (self h) (start h) (limit h) (next h) (<[a := b]> (hdr h)).
Definition set_next (h : heap) (n : Z) : heap :=
  Heap (self h) (start h) (limit h) n (hdr h).

(** ** Operations *)

Definition heap_manager_init (mgr heap_start heap_limit : Z) (m : gmap Z block_info) : heap :=
  let old := default (Block false 0 0) (m !! heap_start) in
  Heap mgr heap_start heap_limit heap_start
    (<[heap_start := Block false ((heap_limit - heap_start) mod 2 ^ 31) (owner old)]> m).

(** The bytes a request takes: its header, rounded up to a cache line. *)
Definition effective_size (request : Z) : Z :=
  ARROUND_UP (u32 (request + sizeof_block_info)) CACHE_LINE_SIZE.

(** The scan for a block; the inner [None] is NULL. *)
Fixpoint malloc_scan (fuel : nat) (h : heap) (eff current : Z) : option (option Z) :=
  match fuel with
  | O => None
  | S fuel =>
      c ← hdr h !! current;
      if busy c || (size c <? eff) then
        _ ← cassert (negb (size c =? 0));
        let current := u32 (current + size c) in
        if limit h <=? current then Some None else malloc_scan fuel h eff current
      else Some (Some current)
  end.

(** A block takes at least one byte: enough iterations for the scan. *)
Definition heap_fuel (h : heap) : nat := Z.to_nat (limit h - start h).

(** Take [eff] bytes of the block at [current], splitting it when a cache line is left. *)
Definition malloc_take (h : heap) (eff current : Z) : option heap :=
  c ← hdr h !! current;
  let h :=
    if CACHE_LINE_SIZE <=? u32 (size c - eff) then
      let nxt := u32 (current + eff) in
      let old := default (Block false 0 0) (hdr h !! nxt) in
      let h := set_hdr h nxt (Block false ((size c - eff) mod 2 ^ 31) (owner old)) in
      set_hdr (set_next h nxt) current (Block true (eff mod 2 ^ 31) (owner c))
    else set_hdr h current (Block true (size c) (owner c)) in
  c ← hdr h !! current;
  Some (set_hdr h current (Block (busy c) (size c) (self h))).

(** The result of the inner option is the pointer returned, [None] for NULL. *)
Definition heap_manager_malloc (h : heap) (request : Z) : option (heap * option Z) :=
  let eff := effective_size request in
  let current := if u32 (limit h - eff) <? next h then start h else next h in
  r ← malloc_scan (heap_fuel h) h eff current;
  match r with
  | None => Some (h, None)
  | Some current =>
      h ← malloc_take h eff current;
      Some (h, Some (u32 (current + sizeof_block_info)))
  end.

(** The loop of [heap_manager_free] that swallows the free blocks after [current]. *)
Fixpoint merge_next (fuel : nat) (h : heap) (current : Z) : option heap :=
  match fuel with
  | O => None
  | S fuel =>
      c ← hdr h !! current;
      let nxt := u32 (current + size c) in
      if nxt =? 0 then Some h else
      n ← hdr h !! nxt;
      _ ← cassert (negb (size n =? 0));
      if (limit h <=? nxt) || busy n then Some h else
      merge_next fuel
        (set_hdr h current (Block (busy c) ((size c + size n) mod 2 ^ 31) (owner c))) current
  end.

Definition heap_manager_free (h : heap) (ptr : Z) : option heap :=
  if ptr =? 0 then Some h else
  let current := u32 (ptr - sizeof_block_info) in
  c ← hdr h !! current;
  _ ← cassert (owner c =? self h);
  let h := set_hdr h current (Block false (size c) (owner c)) in
  h ← merge_next (S (heap_fuel h)) h current;
  Some (if current <? next h then set_next h current else h).

(** ** The sequence of blocks *)

(** Blocks from address [a]: size and whether busy.  A busy block names its heap. *)
Fixpoint tiles (me : Z) (m : gmap Z block_info) (a : Z) (bl : list (Z * bool)) : Prop :=
  match bl with
  | [] => True
  | (s, b) :: bl =>
      (∃ o, m !! a = Some (Block b s o) ∧ (b = true → o = me)) ∧ tiles me m (a + s) bl
  end.

Definition total (bl : list (Z * bool)) : Z := foldr (λ sb z, fst sb + z) 0 bl.

Definition block_wf (sb : Z * bool) : Prop := 0 < fst sb ∧ (CACHE_LINE_SIZE | fst sb).

(** There is a block of [s] bytes at [p]. *)
Fixpoint block_at (a : Z) (bl : list (Z * bool)) (p s : Z) (b : bool) : Prop :=
  match bl with
  | [] => False
  | (s0, b0) :: bl => (p = a ∧ s = s0 ∧ b = b0) ∨ block_at (a + s0) bl p s b
  end.

(** No block of the sequence can serve a request. *)
Definition no_fit (eff : Z) (bl : list (Z * bool)) : Prop :=
  Forall (λ sb, snd sb = true ∨ fst sb < eff) bl.

Record heap_ok (h : heap) (bl : list (Z * bool)) : Prop := {
  h_tiles : tiles (self h) (hdr h) (start h) bl;
  h_wf : Forall block_wf bl;
  h_total : start h + total bl = limit h;
  h_range : 0 < start h ∧ limit h < wsize ∧ limit h - start h < 2 ^ 31;
  h_next : ∃ s b, block_at (start h) bl (next h) s b;
}.

(** What is left of a free block of [s] bytes after a request of [eff]. *)
Definition remainder (s eff : Z) : list (Z * bool) :=
  if s =? eff then [] else [(s - eff, false)].

Lemma total_cons s b bl : total ((s, b) :: bl) = s + total bl.
Proof. done. Qed.
Lemma total_app l1 l2 : total (l1 ++ l2) = total l1 + total l2.
Proof. induction l1 as [|[s b] l1 IH]; [done|]. cbn [app]. rewrite !total_cons. lia. Qed.
Lemma total_remainder s eff : total (remainder s eff) = s - eff.
Proof. unfold remainder. destruct (Z.eqb_spec s eff); cbn; lia. Qed.

Lemma total_length bl : Forall block_wf bl → Z.of_nat (length bl) ≤ total bl.
Proof.
  induction 1 as [|[s b] bl [Hs _]]; [done|]. rewrite total_cons. cbn [length]. cbn in Hs. lia.
Qed.
Lemma total_nonneg bl : Forall block_wf bl → 0 ≤ total bl.
Proof. intros ?%total_length. lia. Qed.

Lemma tiles_app me m a l1 l2 :
  tiles me m a (l1 ++ l2) ↔ tiles me m a l1 ∧ tiles me m (a + total l1) l2.
Proof.
  revert a. induction l1 as [|[s b] l1 IH]; intros a; cbn [tiles app].
  - rewrite Z.add_0_r. naive_solver.
  - rewrite IH, total_cons, Z.add_assoc. naive_solver.
Qed.

(** The blocks only depend on the headers in their range. *)
Lemma tiles_frame me m m' a bl :
  Forall block_wf bl → (∀ x, a ≤ x < a + total bl → m' !! x = m !! x) →
  tiles me m a bl → tiles me m' a bl.
Proof.
  revert a. induction bl as [|[s b] bl IH]; intros a; [done|].
  intros [[Hs _] Hwf]%Forall_cons Hx [Ha Ht]. cbn in Hs.
  pose proof (total_nonneg bl Hwf). rewrite total_cons in Hx.
  split; [rewrite Hx by lia; done|]. apply IH; [done| |done]. intros. apply Hx. lia.
Qed.

Lemma tiles_insert me m a bl x b :
  Forall block_wf bl → x < a ∨ a + total bl ≤ x →
  tiles me m a bl → tiles me (<[x := b]> m) a bl.
Proof. intros Hwf Hx. apply tiles_frame; [done|]. intros. apply lookup_insert_ne. lia. Qed.

Lemma block_at_app a l1 l2 p s b :
  block_at a (l1 ++ l2) p s b ↔ block_at a l1 p s b ∨ block_at (a + total l1) l2 p s b.
Proof.
  revert a. induction l1 as [|[s0 b0] l1 IH]; intros a; cbn [block_at app].
  - rewrite Z.add_0_r. naive_solver.
  - rewrite IH, total_cons, Z.add_assoc. naive_solver.
Qed.

Lemma block_at_inv a bl p s b :
  block_at a bl p s b → ∃ pre post, bl = pre ++ (s, b) :: post ∧ p = a + total pre.
Proof.
  revert a. induction bl as [|[s0 b0] bl IH]; intros a; [done|].
  intros [(-> & -> & ->)|(pre & post & -> & ->)%IH].
  - exists [], bl. cbn. split; [done|lia].
  - exists ((s0, b0) :: pre), post. rewrite total_cons. split; [done|lia].
Qed.

Lemma block_at_range a bl p s b :
  Forall block_wf bl → block_at a bl p s b → a ≤ p ∧ 0 < s ∧ p + s ≤ a + total bl.
Proof.
  intros Hwf (pre & post & -> & ->)%block_at_inv.
  apply Forall_app in Hwf as [?%total_nonneg [[Hs _] ?%total_nonneg]%Forall_cons].
  rewrite total_app, total_cons. cbn in Hs. lia.
Qed.

(** Two blocks of the heap are the same or disjoint. *)
Lemma block_at_disjoint a bl p s b p' s' b' :
  Forall block_wf bl → block_at a bl p s b → block_at a bl p' s' b' →
  (p = p' ∧ s = s' ∧ b = b') ∨ p + s ≤ p' ∨ p' + s' ≤ p.
Proof.
  revert a. induction bl as [|[s0 b0] bl IH]; intros a; [done|].
  intros [[Hs _] Hwf]%Forall_cons. cbn in Hs.
  intros [(-> & -> & ->)|H1] [(-> & -> & ->)|H2]; [by left| | |by eapply IH].
  - apply block_at_range in H2; [lia|done].
  - apply block_at_range in H1; [lia|done].
Qed.

Lemma block_at_free a bl p s : Forall (λ sb, snd sb = false) bl → ¬ block_at a bl p s true.
Proof.
  revert a. induction bl as [|[s0 b0] bl IH]; intros a; [by intros _ []|].
  intros [Hb Hf]%Forall_cons [(_ & _ & <-)|?]; [done|by eapply IH].
Qed.

(** ** Functional behaviour *)

Lemma effective_size_spec req :
  0 ≤ req → req + 72 ≤ wsize →
  (CACHE_LINE_SIZE | effective_size req) ∧ req + 8 ≤ effective_size req < req + 72.
Proof.
  intros. unfold effective_size, sizeof_block_info, CACHE_LINE_SIZE.
  rewrite u32_small by lia. change 64 with (2 ^ 6).
  destruct (ARROUND_UP_spec (req + 8) 6) as [? ?]; [lia|lia|lia|]. split; [done|lia].
Qed.

(** Blocks are multiples of a cache line, so a block that fits either fits exactly
    or leaves at least a cache line. *)
Lemma remainder_size s eff :
  (CACHE_LINE_SIZE | s) → (CACHE_LINE_SIZE | eff) → eff ≤ s →
  s = eff ∨ CACHE_LINE_SIZE ≤ s - eff.
Proof. unfold CACHE_LINE_SIZE. intros [a ->] [b ->] ?. lia. Qed.

Lemma malloc_scan_spec h eff fuel a bl :
  tiles (self h) (hdr h) a bl → Forall block_wf bl → bl ≠ [] →
  0 ≤ a → a + total bl = limit h → limit h < wsize → (length bl ≤ fuel)%nat →
  (∃ pre s post, bl = pre ++ (s, false) :: post ∧ eff ≤ s ∧
     malloc_scan fuel h eff a = Some (Some (a + total pre))) ∨
  (no_fit eff bl ∧ malloc_scan fuel h eff a = Some None).
Proof.
  revert a bl. induction fuel as [|fuel IH]; intros a [|[s b] bl] Ht Hwf Hne Ha Htot Hlim Hlen;
    cbn in Hlen; try done; try lia.
  destruct Ht as [(o & Hm & _) Ht]. apply Forall_cons in Hwf as [[Hs _] Hwf]. cbn in Hs.
  rewrite total_cons in Htot. pose proof (total_nonneg bl Hwf).
  cbn [malloc_scan]. rewrite Hm. cbn [mbind option_bind busy size].
  destruct (b || (s <? eff)) eqn:E.
  2:{ left. exists [], s, bl. apply orb_false_iff in E as [-> E%Z.ltb_ge].
      split_and!; [done|done|]. cbn. by rewrite Z.add_0_r. }
  assert (Hnf : b = true ∨ s < eff) by (apply orb_true_iff in E as [|?%Z.ltb_lt]; auto).
  rewrite (proj2 (Z.eqb_neq s 0)) by lia. cbn. rewrite u32_small by lia.
  destruct (Z.leb_spec (limit h) (a + s)) as [Hle|Hgt].
  - right. destruct bl as [|[s' b'] bl].
    + split; [by constructor|done].
    + apply Forall_cons in Hwf as [[Hs' _] ?%total_nonneg]. rewrite total_cons in *. cbn in Hs'. lia.
  - assert (bl ≠ []) by (intros ->; cbn in *; lia).
    destruct (IH (a + s) bl) as [(pre & s' & post & -> & Hf & ->)|[Hf ->]]; try done; try lia.
    + left. exists ((s, b) :: pre), s', post. rewrite total_cons, Z.add_assoc. done.
    + right. split; [by constructor|done].
Qed.

(** The parts of the heap that no operation changes. *)
Definition same_bounds (h h' : heap) : Prop :=
  self h' = self h ∧ start h' = start h ∧ limit h' = limit h ∧
  hdr h' !! limit h = hdr h !! limit h.

Lemma same_bounds_trans h h1 h2 : same_bounds h h1 → same_bounds h1 h2 → same_bounds h h2.
Proof. unfold same_bounds. intros (?&?&E&?) (?&?&?&E'). rewrite E in E'. naive_solver congruence. Qed.

(** What taking a block does to the memory of headers. *)
Lemma malloc_take_run h eff cur s o :
  hdr h !! cur = Some (Block false s o) → 0 < cur → 0 < eff ≤ s → s < 2 ^ 31 →
  cur + s < wsize → s = eff ∨ CACHE_LINE_SIZE ≤ s - eff →
  malloc_take h eff cur = Some
    (if s =? eff then set_hdr h cur (Block true s (self h)) else
     let old := default (Block false 0 0) (hdr h !! (cur + eff)) in
     set_hdr (set_hdr (set_next h (cur + eff)) (cur + eff) (Block false (s - eff) (owner old)))
       cur (Block true eff (self h))).
Proof.
  intros Hm Hc He Hs Hw Hor. unfold malloc_take. rewrite Hm. cbn [mbind option_bind size owner].
  rewrite (u32_small (s - eff)), (u32_small (cur + eff)) by (unfold wsize in *; lia).
  destruct (Z.eqb_spec s eff) as [->|Hne].
  - rewrite (proj2 (Z.leb_gt _ _)) by (unfold CACHE_LINE_SIZE; lia).
    unfold set_hdr. cbn [hdr self]. rewrite lookup_insert_eq. cbn. by rewrite insert_insert_eq.
  - rewrite (proj2 (Z.leb_le _ _)) by (destruct Hor; [congruence|lia]).
    unfold set_hdr, set_next. cbn [hdr self start limit next]. rewrite lookup_insert_eq.
    cbn [mbind option_bind busy size]. by rewrite insert_insert_eq, !Z.mod_small by lia.
Qed.

Lemma malloc_take_spec h eff pre s post :
  heap_ok h (pre ++ (s, false) :: post) →
  (CACHE_LINE_SIZE | eff) → 0 < eff ≤ s →
  ∃ h', malloc_take h eff (start h + total pre) = Some h' ∧ same_bounds h h' ∧
    heap_ok h' (pre ++ (eff, true) :: remainder s eff ++ post).
Proof.
  intros [Ht Hwf Htot (Hr0 & Hr1 & Hr2) (s1 & b1 & Hnext)] Hdiv He.
  apply tiles_app in Ht as [Ht1 [(o & Hm & _) Ht2]].
  apply Forall_app in Hwf as [Hw1 [[Hs Hsd] Hw2]%Forall_cons]. cbn in Hs, Hsd.
  rewrite total_app, total_cons in Htot.
  pose proof (total_nonneg _ Hw1). pose proof (total_nonneg _ Hw2).
  rewrite (malloc_take_run h eff _ s o) by
    (first [done|lia|apply remainder_size; [done|done|lia]]).
  eexists. split; [reflexivity|].
  unfold remainder. destruct (Z.eqb_spec s eff) as [<-|Hne].
  - split; [repeat split; cbn; by rewrite ?lookup_insert_ne by lia|].
    split; cbn [self start limit next hdr set_hdr app]; try done.
    + apply tiles_app. split; [apply tiles_insert; [done|lia|done]|]. cbn [tiles]. split.
      * eexists. by rewrite lookup_insert_eq.
      * apply tiles_insert; [done|lia|done].
    + apply Forall_app; split; [done|]. by constructor.
    + rewrite total_app, total_cons. lia.
    + rewrite block_at_app in Hnext. destruct Hnext as [H'|[(-> & -> & ->)|H']].
      * exists s1, b1. apply block_at_app. by left.
      * exists s, true. apply block_at_app. right. by left.
      * exists s1, b1. apply block_at_app. right. by right.
  - split; [repeat split; cbn; by rewrite ?lookup_insert_ne by lia|].
    destruct (remainder_size s eff) as [|Hge]; [done|done|lia|done|]. unfold CACHE_LINE_SIZE in Hge.
    split; cbn [self start limit next hdr set_hdr set_next app]; try done.
    + apply tiles_app. split; [apply tiles_insert, tiles_insert; auto; lia|]. cbn [tiles]. split.
      { eexists. by rewrite lookup_insert_eq. }
      split.
      { eexists. rewrite lookup_insert_ne, lookup_insert_eq by lia. done. }
      replace (start h + total pre + eff + (s - eff)) with (start h + total pre + s) by lia.
      apply tiles_insert, tiles_insert; auto; lia.
    + apply Forall_app; split; [done|]. repeat constructor; cbn; try done; try lia.
      by apply Z.divide_sub_r.
    + rewrite total_app, !total_cons. lia.
    + exists (s - eff), false. apply block_at_app. right. cbn. right. left. done.
Qed.

(** Where the scan starts: at a block of the heap. *)
Lemma scan_from h bl eff :
  heap_ok h bl →
  ∃ pre post, bl = pre ++ post ∧ post ≠ [] ∧ (pre = [] ∨ next h = start h + total pre) ∧
    (if u32 (limit h - eff) <? next h then start h else next h) = start h + total pre.
Proof.
  intros [_ _ _ _ (s & b & (pre & post & -> & Hn)%block_at_inv)].
  destruct (_ <? _).
  - exists [], (pre ++ (s, b) :: post). cbn. split_and!; [done| |by left|lia].
    by destruct pre.
  - exists pre, ((s, b) :: post). split_and!; [done..|by right|done].
Qed.

Lemma heap_malloc_spec h bl req :
  heap_ok h bl → 0 ≤ req → req + 72 ≤ wsize →
  ∃ h' r, heap_manager_malloc h req = Some (h', r) ∧ same_bounds h h' ∧
    match r with
    | Some ptr => ∃ pre s post, bl = pre ++ (s, false) :: post ∧
        effective_size req ≤ s ∧ ptr = start h + total pre + 8 ∧
        heap_ok h' (pre ++ (effective_size req, true)
                        :: remainder s (effective_size req) ++ post)
    | None => h' = h ∧ ∃ pre post, bl = pre ++ post ∧ no_fit (effective_size req) post ∧
        (pre = [] ∨ next h = start h + total pre)
    end.
Proof.
  intros Hok Hr Hrw. destruct (effective_size_spec req Hr Hrw) as [Hdiv Heff].
  unfold heap_manager_malloc. remember (effective_size req) as eff eqn:Eeff.
  destruct (scan_from h bl eff Hok) as (pre & post & -> & Hne & Hpre & ->).
  pose proof Hok as [Ht Hwf Htot (Hr0 & Hr1 & Hr2) _].
  apply tiles_app in Ht as [Ht1 Ht2]. apply Forall_app in Hwf as [Hw1 Hw2].
  rewrite total_app in Htot.
  pose proof (total_nonneg _ Hw1). pose proof (total_length _ Hw2).
  destruct (malloc_scan_spec h eff (heap_fuel h) _ post Ht2)
    as [(p1 & s & p2 & -> & Hfit & ->)|[Hnf ->]];
    [done|done|lia|lia|lia|unfold heap_fuel; lia| |].
  - cbn. rewrite app_assoc in Hok.
    apply Forall_app in Hw2 as [Hwp [Hws Hw2]%Forall_cons]. destruct Hws as [Hs _]. cbn in Hs.
    rewrite total_app, total_cons in *.
    pose proof (total_nonneg _ Hwp). pose proof (total_nonneg _ Hw2).
    destruct (malloc_take_spec h eff (pre ++ p1) s p2 Hok) as (h' & E & Hb & Hok'); [done|lia|].
    rewrite total_app, Z.add_assoc in E. rewrite E. cbn.
    eexists _, _. split; [done|]. split; [done|]. exists (pre ++ p1), s, p2.
    rewrite <- app_assoc. split_and!; [done|done| |done].
    rewrite total_app. unfold sizeof_block_info. rewrite u32_small; lia.
  - cbn. eexists _, _. split; [done|]. split; [repeat split|]. split; [done|]. eauto.
Qed.

Lemma set_hdr_id h a b : hdr h !! a = Some b → set_hdr h a b = h.
Proof. intros. destruct h. unfold set_hdr. cbn in *. by rewrite insert_id. Qed.
Lemma set_hdr_twice h a b b' : set_hdr (set_hdr h a b) a b' = set_hdr h a b'.
Proof. unfold set_hdr. cbn. by rewrite insert_insert_eq. Qed.

(** The header after the last free block: it is read even when it is past the heap. *)
Definition stops (h : heap) (rest : list (Z * bool)) : Prop :=
  match rest with
  | [] => ∃ b, hdr h !! limit h = Some b ∧ size b ≠ 0
  | (_, b) :: _ => b = true
  end.

Lemma merge_next_spec h fuel cur s o run rest :
  hdr h !! cur = Some (Block false s o) → 0 < s →
  tiles (self h) (hdr h) (cur + s) (run ++ rest) → Forall block_wf (run ++ rest) →
  Forall (λ sb, snd sb = false) run → stops h rest →
  0 < cur → cur + s + total (run ++ rest) = limit h → limit h < wsize →
  limit h - cur < 2 ^ 31 → (length run < fuel)%nat →
  merge_next fuel h cur = Some (set_hdr h cur (Block false (s + total run) o)).
Proof.
  revert h s fuel. induction run as [|[s' b'] run IH];
    intros h s fuel Hm Hs Ht Hwf Hf Hstop Hc Htot Hl Hl' Hfuel;
    destruct fuel as [|fuel]; cbn [length] in Hfuel; try lia;
    pose proof (total_nonneg _ Hwf); cbn [merge_next]; rewrite Hm;
    cbn [mbind option_bind size]; rewrite (u32_small (cur + s)) by lia;
    rewrite (proj2 (Z.eqb_neq (cur + s) 0)) by lia.
  - cbn [total foldr]. rewrite Z.add_0_r, set_hdr_id by done. cbn [app] in *.
    destruct rest as [|[s' b'] rest]; cbn [stops] in Hstop.
    + destruct Hstop as (b & Hb & Hb0). cbn in Htot.
      replace (cur + s) with (limit h) by lia. rewrite Hb. cbn.
      rewrite (proj2 (Z.eqb_neq _ 0)) by done. cbn. by rewrite Z.leb_refl.
    + subst b'. destruct Ht as [(o' & Ho & _) _].
      apply Forall_cons in Hwf as [[Hs' _] _]. cbn in Hs'.
      rewrite Ho. cbn. rewrite (proj2 (Z.eqb_neq s' 0)) by lia. cbn. by rewrite orb_true_r.
  - apply Forall_cons in Hf as [Hb' Hf]. cbn in Hb'. subst b'. cbn [app] in *.
    destruct Ht as [(o' & Ho & _) Ht]. apply Forall_cons in Hwf as [[Hs' _] Hwf]. cbn in Hs'.
    rewrite total_cons in *. pose proof (total_nonneg _ Hwf).
    rewrite Ho. cbn [mbind option_bind size busy owner].
    rewrite (proj2 (Z.eqb_neq s' 0)) by lia. cbn [negb cassert orb].
    rewrite (proj2 (Z.leb_gt _ _)) by lia. cbn. rewrite (Z.mod_small (s + s')) by lia.
    rewrite (IH _ (s + s')); cbn [hdr self limit set_hdr]; try done; try lia.
    + by rewrite set_hdr_twice, Z.add_assoc.
    + by rewrite lookup_insert_eq.
    + rewrite Z.add_assoc. apply tiles_insert; [done|lia|done].
    + destruct rest as [|[? ?] ?]; [|done]. cbn [stops set_hdr hdr limit] in *.
      by rewrite lookup_insert_ne by lia.
Qed.

(** The headers after a release: the block and the free blocks behind it are one. *)
Lemma free_ok h pre s o run rest :
  heap_ok h (pre ++ (s, true) :: run ++ rest) →
  let cur := start h + total pre in
  let h1 := set_hdr h cur (Block false (s + total run) o) in
  heap_ok (if cur <? next h1 then set_next h1 cur else h1)
    (pre ++ (s + total run, false) :: rest).
Proof.
  intros [Ht Hwf Htot (Hr0 & Hr1 & Hr2) (s1 & b1 & Hnext)] cur h1.
  apply tiles_app in Ht as [Ht1 [(o' & Hm & _) Ht2]].
  apply Forall_app in Hwf as [Hw1 [[Hs Hsd] Hw2]%Forall_cons]. cbn in Hs, Hsd.
  apply Forall_app in Hw2 as [Hwr Hwt].
  rewrite total_app, total_cons, total_app in Htot. apply tiles_app in Ht2 as [_ Ht2].
  pose proof (total_nonneg _ Hw1). pose proof (total_nonneg _ Hwr). pose proof (total_nonneg _ Hwt).
  assert (Hdr : (CACHE_LINE_SIZE | total run)).
  { clear -Hwr. induction Hwr as [|[z b] l [_ Hz] _ IH]; [apply Z.divide_0_r|].
    rewrite total_cons. by apply Z.divide_add_r. }
  assert (HT : tiles (self h) (<[cur := Block false (s + total run) o]> (hdr h)) (start h)
                 (pre ++ (s + total run, false) :: rest)).
  { apply tiles_app. split; [apply tiles_insert; [done|subst cur; lia|done]|]. cbn [tiles]. split.
    - eexists. by rewrite lookup_insert_eq.
    - rewrite Z.add_assoc. apply tiles_insert; [done|subst cur; lia|done]. }
  assert (HW : Forall block_wf (pre ++ (s + total run, false) :: rest)).
  { apply Forall_app; split; [done|]. constructor; [|done]. split; cbn; [lia|].
    by apply Z.divide_add_r. }
  destruct (Z.ltb_spec cur (next h1)) as [Hlt|Hge]; subst h1;
    split; cbn [self start limit next hdr set_hdr set_next] in *; try done;
    try (rewrite total_app, total_cons; lia).
  - exists (s + total run), false. apply block_at_app. right. by left.
  - apply block_at_app in Hnext as [Hp|[(Hn & _)|Hp]].
    + exists s1, b1. apply block_at_app. by left.
    + exists (s + total run), false. apply block_at_app. right. by left.
    + apply block_at_range in Hp; [subst cur; lia|]. by apply Forall_app.
Qed.

Lemma heap_free_spec h pre s run rest :
  heap_ok h (pre ++ (s, true) :: run ++ rest) →
  Forall (λ sb, snd sb = false) run → stops h rest →
  ∃ h', heap_manager_free h (start h + total pre + 8) = Some h' ∧ same_bounds h h' ∧
    heap_ok h' (pre ++ (s + total run, false) :: rest).
Proof.
  intros Hok Hf Hstop. pose proof Hok as [Ht Hwf Htot (Hr0 & Hr1 & Hr2) _].
  apply tiles_app in Ht as [Ht1 [(o & Hm & Ho) Ht2]]. specialize (Ho eq_refl) as ->.
  apply Forall_app in Hwf as [Hw1 [[Hs Hsd] Hw2]%Forall_cons]. cbn in Hs, Hsd.
  pose proof Hw2 as [Hwr Hwt]%Forall_app.
  rewrite total_app, total_cons, total_app in Htot.
  pose proof (total_nonneg _ Hw1). pose proof (total_length _ Hwr). pose proof (total_nonneg _ Hwt).
  set (cur := start h + total pre) in *.
  assert (8 ≤ s) by (unfold CACHE_LINE_SIZE in Hsd; destruct Hsd; lia).
  unfold heap_manager_free, sizeof_block_info.
  rewrite (proj2 (Z.eqb_neq _ 0)) by lia. rewrite u32_small by lia.
  replace (cur + 8 - 8) with cur by lia. rewrite Hm. cbn [mbind option_bind owner size].
  rewrite Z.eqb_refl. cbn [cassert mbind option_bind].
  rewrite (merge_next_spec _ _ cur s (self h) run rest);
    cbn [hdr self limit set_hdr start]; try done; try lia.
  2: by rewrite lookup_insert_eq.
  2:{ apply tiles_insert; [done|lia|done]. }
  2:{ destruct rest as [|[? ?] ?]; [|done]. cbn [stops set_hdr hdr limit] in *.
      by rewrite lookup_insert_ne by lia. }
  2:{ rewrite total_app. lia. }
  2:{ unfold heap_fuel. cbn [start limit set_hdr]. lia. }
  rewrite set_hdr_twice. cbn [mbind option_bind]. eexists. split; [reflexivity|]. split.
  { case_match; repeat split; cbn; by rewrite ?lookup_insert_ne by lia. }
  exact (free_ok h pre s (self h) run rest Hok).
Qed.

(** Every sequence splits into its leading free blocks and a rest that is empty or
    starts with a busy block. *)
Lemma free_run (post : list (Z * bool)) :
  ∃ run rest, post = run ++ rest ∧ Forall (λ sb, snd sb = false) run ∧
    (rest = [] ∨ ∃ s rest', rest = (s, true) :: rest').
Proof.
  induction post as [|[s [|]] post IH].
  - exists [], []. auto.
  - exists [], ((s, true) :: post). eauto 10.
  - destruct IH as (run & rest & -> & Hf & Hr). exists ((s, false) :: run), rest. auto.
Qed.

Lemma heap_init_ok mgr a l m :
  0 < a < l → l < wsize → l - a < 2 ^ 31 → (CACHE_LINE_SIZE | l - a) →
  heap_ok (heap_manager_init mgr a l m) [(l - a, false)].
Proof.
  intros Ha Hl Hsz Hd. unfold heap_manager_init.
  split; cbn [self start limit next hdr tiles block_at total foldr fst]; try lia.
  - split; [|done]. eexists. rewrite lookup_insert_eq, Z.mod_small by lia. done.
  - repeat constructor; cbn; [lia|done].
  - eexists _, _. by left.
Qed.

(** ** The heap and its clients

    Threads ask for memory and give back what they own; the critical sections of the
    heap make their calls atomic. *)

Module HeapSys.
(** The heap and what its clients own: the size asked for at each address. *)
Definition state : Type := heap * gmap Z Z.

(** [None] is a fault of the kernel. *)
Inductive step : state → option state → Prop :=
| s_malloc h own req :
    0 ≤ req → req + 72 ≤ wsize →
    step (h, own)
      (r ← heap_manager_malloc h req;
       Some (r.1, match r.2 with Some ptr => <[ptr := req]> own | None => own end))
| s_free h own ptr req :
    own !! ptr = Some req →
    step (h, own) (h' ← heap_manager_free h ptr; Some (h', delete ptr own))
| s_free_null h own : step (h, own) (h' ← heap_manager_free h 0; Some (h', own)).

(** Several steps, all without a fault. *)
Inductive run : state → state → Prop :=
| r_nil s : run s s
| r_step s s1 s2 : run s s1 → step s1 (Some s2) → run s s2.

Definition safe (s : state) : Prop :=
  let '(h, own) := s in
  (∀ p r, own !! p = Some r → start h ≤ p - 8 ∧ p + r ≤ limit h) ∧
  (∀ p q r t, own !! p = Some r → own !! q = Some t → p ≠ q → p + r ≤ q - 8 ∨ q + t ≤ p - 8).

(** What is owned is in busy blocks; the word after the heap is a readable header. *)
Definition inv (s : state) : Prop :=
  let '(h, own) := s in
  ∃ bl, heap_ok h bl ∧ stops h [] ∧
    (∀ p r, own !! p = Some r → ∃ sz, block_at (start h) bl (p - 8) sz true ∧ r + 8 ≤ sz).

Lemma heap_inv_safe s : inv s → safe s.
Proof.
  destruct s as [h own]. intros (bl & [_ Hwf Htot _ _] & _ & Hown). split.
  - intros p r (sz & Hb & Hsz)%Hown. apply block_at_range in Hb; [lia|done].
  - intros p q r t (sz & Hb & Hsz)%Hown (sz' & Hb' & Hsz')%Hown Hne.
    destruct (block_at_disjoint _ _ _ _ _ _ _ _ Hwf Hb Hb') as [(? & _ & _)|[?|?]]; lia.
Qed.

Lemma malloc_inv h own req :
  inv (h, own) → 0 ≤ req → req + 72 ≤ wsize →
  ∃ h' r, heap_manager_malloc h req = Some (h', r) ∧
    inv (h', match r with Some ptr => <[ptr := req]> own | None => own end).
Proof.
  intros (bl & Hok & Hst & Hown) Hr Hrw.
  destruct (effective_size_spec req Hr Hrw) as [_ Heff].
  destruct (heap_malloc_spec h bl req Hok Hr Hrw) as (h' & r & -> & (Es & Ea & El & Eh) & Hres).
  exists h', r. split; [done|].
  destruct r as [ptr|]; [|destruct Hres as [-> _]; by exists bl].
  destruct Hres as (pre & s & post & -> & Hfit & -> & Hok').
  eexists. split; [exact Hok'|]. split; [unfold stops; by rewrite El, Eh|].
  rewrite Ea. intros p r [[<- <-]|[_ Hp]]%lookup_insert_Some.
  - exists (effective_size req). split; [|lia]. apply block_at_app. right. left. lia.
  - destruct (Hown _ _ Hp) as (sz & Hb & Hsz). exists sz. split; [|done].
    rewrite block_at_app in Hb |- *. destruct Hb as [?|[(_ & _ & ?)|Hb]]; [by left|done|].
    right. right. apply block_at_app. right. rewrite total_remainder.
    by replace (start h + total pre + effective_size req + (s - effective_size req))
      with (start h + total pre + s) by lia.
Qed.

Lemma free_inv h own ptr req :
  inv (h, own) → own !! ptr = Some req →
  ∃ h', heap_manager_free h ptr = Some h' ∧ inv (h', delete ptr own).
Proof.
  intros (bl & Hok & Hst & Hown) Hp.
  destruct (Hown _ _ Hp) as (sz & Hb & _).
  apply block_at_inv in Hb as (pre & post & -> & Hptr).
  destruct (free_run post) as (rn & rest & -> & Hf & Hrest).
  destruct (heap_free_spec h pre sz rn rest Hok Hf) as (h' & E & (Es & Ea & El & Eh) & Hok').
  { destruct Hrest as [->|(? & ? & ->)]; done. }
  replace (start h + total pre + 8) with ptr in E by lia.
  exists h'. split; [done|]. eexists. split; [exact Hok'|].
  split; [unfold stops; by rewrite El, Eh|].
  rewrite Ea. intros p r [Hne Hq]%lookup_delete_Some.
  destruct (Hown _ _ Hq) as (sz' & Hb & Hsz). exists sz'. split; [|done].
  rewrite block_at_app in Hb |- *. destruct Hb as [?|[(? & _)|Hb]]; [by left|lia|].
  right. right. apply block_at_app in Hb as [Hb|Hb]; [by apply block_at_free in Hb|].
  by rewrite Z.add_assoc.
Qed.

Lemma heap_step_inv s o : step s o → inv s → ∃ s', o = Some s' ∧ inv s'.
Proof.
  intros [h own req ? ?|h own ptr req Hp|h own] Hi.
  - destruct (malloc_inv h own req Hi) as (h' & r & -> & ?); [done..|]. eauto.
  - destruct (free_inv h own ptr req Hi Hp) as (h' & -> & ?). eauto.
  - eexists. split; [reflexivity|done].
Qed.

Lemma heap_run_inv s s' : run s s' → inv s → inv s'.
Proof.
  induction 1 as [|s s1 s2 _ IH Hst]; [done|]. intros Hi.
  by destruct (heap_step_inv _ _ Hst (IH Hi)) as (? & [= <-] & ?).
Qed.

Lemma init_inv mgr a l m :
  0 < a < l → l < wsize → l - a < 2 ^ 31 → (CACHE_LINE_SIZE | l - a) →
  (∃ b, m !! l = Some b ∧ size b ≠ 0) →
  inv (heap_manager_init mgr a l m, ∅).
Proof.
  intros Ha Hl Hsz Hd (b & Hb & Hb0). eexists. split; [by apply heap_init_ok|]. split.
  - exists b. cbn. rewrite lookup_insert_ne by lia. done.
  - intros p r Hp. by rewrite lookup_empty in Hp.
Qed.
End HeapSys.

(** ** Theorems *)

(** Memory around a heap of 512 bytes: the word after it is not zero. *)
Definition ex_mem : gmap Z block_info := {[ 0x1200 := Block true 1 0 ]}.
Definition ex_heap : heap := heap_manager_init 0x500 0x1000 0x1200 ex_mem.

(** Allocations in sequence, dropping the pointers. *)
Fixpoint ex_mallocs (h : heap) (reqs : list Z) : option heap :=
  match reqs with
  | [] => Some h
  | r :: reqs => x ← heap_manager_malloc h r; ex_mallocs x.1 reqs
  end.

(** C17. From the initialisation of the heap, whatever its clients allocate and release, no
    call faults or fails an assertion, and the areas owned by the clients, with their
    headers, lie inside the heap and never overlap.  The heap is smaller than 2^31 bytes and
    a multiple of the cache line.  Two conditions stand for tests that the code lacks: the word
    after the heap can be read and is not zero, because the release of the last block asserts on
    it ([heap_free_reads_past_limit]); and a request is at most 2^32 - 72 bytes, because the
    rounding wraps around beyond that ([heap_malloc_overflow]). *)
Theorem heap_system_safe mgr a l m s :
  0 < a < l → l < wsize → l - a < 2 ^ 31 → (CACHE_LINE_SIZE | l - a) →
  (∃ b, m !! l = Some b ∧ size b ≠ 0) →
  HeapSys.run (heap_manager_init mgr a l m, ∅) s →
  HeapSys.safe s ∧ ∀ o, HeapSys.step s o → o ≠ None.
Proof.
  intros Ha Hl Hsz Hd Hb Hrun.
  assert (HeapSys.inv s) as Hi by (eapply HeapSys.heap_run_inv; [done|by apply HeapSys.init_inv]).
  split; [by apply HeapSys.heap_inv_safe|].
  intros o Hst. by destruct (HeapSys.heap_step_inv _ _ Hst Hi) as (? & -> & _).
Qed.

Lemma heap_system_safe_witness :
  HeapSys.safe (default ex_heap (fst <$> heap_manager_malloc ex_heap 100),
                {[ 0x1008 := 100 ]}).
Proof.
  refine (proj1 (heap_system_safe 0x500 0x1000 0x1200 ex_mem _ _ _ _ _ _ _)).
  - lia.
  - reflexivity.
  - reflexivity.
  - exists 8. reflexivity.
  - exists (Block true 1 0). split; [reflexivity|discriminate].
  - eapply HeapSys.r_step; [apply HeapSys.r_nil|].
    exact (HeapSys.s_malloc ex_heap ∅ 100 ltac:(lia) ltac:(unfold wsize; lia)).
Defined.

(** The request takes [effective_size] bytes of a free block that has as many; what is
    left stays free and nothing else changes.  NULL leaves the heap unchanged and is
    returned when no free block from where the scan starts (the first block, or [next])
    is large enough. *)
Theorem heap_malloc_correct h bl req :
  heap_ok h bl → 0 ≤ req → req + 72 ≤ wsize →
  ∃ h' r, heap_manager_malloc h req = Some (h', r) ∧
    match r with
    | Some ptr => ∃ pre s post, bl = pre ++ (s, false) :: post ∧
        req + 8 ≤ effective_size req ≤ s ∧ ptr = start h + total pre + 8 ∧
        heap_ok h' (pre ++ (effective_size req, true)
                        :: remainder s (effective_size req) ++ post)
    | None => h' = h ∧ ∃ pre post, bl = pre ++ post ∧ no_fit (effective_size req) post ∧
        (pre = [] ∨ next h = start h + total pre)
    end.
Proof.
  intros Hok Hr Hrw. destruct (effective_size_spec req Hr Hrw) as [_ Heff].
  destruct (heap_malloc_spec h bl req Hok Hr Hrw) as (h' & r & E & _ & Hres).
  exists h', r. split; [done|]. destruct r as [ptr|]; [|done].
  destruct Hres as (pre & s & post & ? & ? & ? & ?). exists pre, s, post. split_and!; try done; lia.
Qed.

Lemma heap_malloc_correct_witness :
  ∃ h' r, heap_manager_malloc ex_heap 100 = Some (h', r) ∧ r ≠ None ∧ total [(512, false)] = 512.
Proof.
  destruct (heap_malloc_correct ex_heap [(512, false)] 100) as (h' & r & E & Hres).
  - apply (heap_init_ok 0x500 0x1000 0x1200); [lia|reflexivity|reflexivity|exists 8; reflexivity].
  - lia.
  - unfold wsize. lia.
  - exists h', r. split; [exact E|]. split; [|reflexivity]. destruct r as [p|]; [discriminate|].
    exfalso. assert (Hs : snd <$> heap_manager_malloc ex_heap 100 = Some None)
      by (rewrite E; reflexivity).
    vm_compute in Hs. discriminate Hs.
Defined.

(** Releasing a block merges it with all the free blocks that follow it, up to the next
    busy block or the end of the heap, and changes nothing else. *)
Theorem heap_free_correct h pre s run rest :
  heap_ok h (pre ++ (s, true) :: run ++ rest) →
  Forall (λ sb, snd sb = false) run → stops h rest →
  ∃ h', heap_manager_free h (start h + total pre + 8) = Some h' ∧
    heap_ok h' (pre ++ (s + total run, false) :: rest).
Proof.
  intros Hok Hf Hst. destruct (heap_free_spec h pre s run rest Hok Hf Hst) as (h' & ? & _ & ?).
  eauto.
Qed.

Lemma heap_free_correct_witness :
  ∃ h h', heap_manager_malloc ex_heap 100 = Some (h, Some 0x1008) ∧
    heap_manager_free h 0x1008 = Some h' ∧ heap_ok h' [(512, false)].
Proof.
  destruct (heap_malloc_spec ex_heap [(512, false)] 100) as (h & r & E & Hb & Hres).
  - apply (heap_init_ok 0x500 0x1000 0x1200); [lia|reflexivity|reflexivity|exists 8; reflexivity].
  - lia.
  - unfold wsize. lia.
  - assert (Er : r = Some 0x1008).
    { assert (Hs : snd <$> heap_manager_malloc ex_heap 100 = Some (Some 0x1008))
        by (vm_compute; reflexivity).
      rewrite E in Hs. by injection Hs. }
    subst r. destruct Hres as (pre & s & post & Hbl & _ & Hp & Hok).
    destruct pre as [|? [|]]; [|discriminate Hbl..]. injection Hbl as <- <-.
    destruct Hb as (_ & Hst & Hl & Hh). exists h.
    destruct (heap_free_correct h [] 128 [(384, false)] []) as (h' & Ef & Hok').
    + exact Hok.
    + by repeat constructor.
    + exists (Block true 1 0). rewrite Hl, Hh. split; [reflexivity|discriminate].
    + exists h'. split; [exact E|]. rewrite Hst in Ef. split; [exact Ef|exact Hok'].
Defined.

(** The scan never returns to the blocks before [next]: after this sequence of calls the
    heap has a free block of 64 bytes, yet a request that needs 64 bytes gets NULL. *)
Theorem heap_malloc_misses_free_block :
  ∃ h, (h0 ← ex_mallocs ex_heap [10; 10];
        h1 ← heap_manager_free h0 0x1008; ex_mallocs h1 [200; 100]) = Some h ∧
    hdr h !! 0x1000 = Some (Block false 64 0x500) ∧ effective_size 10 = 64 ∧
    heap_manager_malloc h 10 = Some (h, None).
Proof. eexists. split; [vm_compute; reflexivity|]. vm_compute. auto. Qed.

(** A request close to 4 GB wraps around: it is granted 64 bytes. *)
Theorem heap_malloc_overflow :
  snd <$> heap_manager_malloc ex_heap 0xFFFFFFFC = Some (Some 0x1008) ∧
  effective_size 0xFFFFFFFC = 64.
Proof. vm_compute. auto. Qed.

(** Releasing the last block reads the word after the heap: the assertion fails when
    that word is zero. *)
Theorem heap_free_reads_past_limit :
  let h := heap_manager_init 0x500 0x1000 0x1200 {[ 0x1200 := Block false 0 0 ]} in
  snd <$> heap_manager_malloc h 500 = Some (Some 0x1008) ∧
  (x ← heap_manager_malloc h 500; heap_manager_free x.1 0x1008) = None.
Proof. vm_compute. auto. Qed.
