(* ===== verification/Kcm.v ===== *)
(** * Kernel caches of objects (src/kernel/mm/kcm.c, kcm.h)

    A cache hands out blocks of one size from pages that start with a descriptor
    ([page_info_t]) holding a bitmap of the free blocks.  Its pages are on one of three
    lists: active (the first one serves the allocations), busy (no block left) and free
    (all blocks left).  A page is named by its address divided by the page size; the
    link of its descriptor is the cell [Obj p] of the store of lists, and the roots of
    the three lists are [Root 0], [Root 1] and [Root 2].

    The functions [page_alloc] and [page_free] a cache is given are an interface,
    [PageSource]; a page comes with unknown contents. *)

From S2P Require Import Prelude Clist Bits.

Open Scope Z_scope.

(** ** The source of pages *)

Class PageSource (A : Type) := {
  ps_inv : A → Prop;
  ps_owned : A → Z → Prop;                (* pages in the hands of the cache *)
  ps_alloc : A → A * option Z;            (* [None] is NULL *)
  ps_free : A → Z → option A;
  ps_stale : A → Z → list Z;              (* the bitmap words found in a page *)
}.

Class PageSourceLaws (A : Type) `{PageSource A} := {
  ps_alloc_law a :
    ps_inv a → let '(a', r) := ps_alloc a in
    ps_inv a' ∧
    match r with
    | None => ∀ p, ps_owned a' p ↔ ps_owned a p
    | Some q => 0 < q < 2 ^ 20 ∧ ¬ ps_owned a q ∧ ∀ p, ps_owned a' p ↔ ps_owned a p ∨ p = q
    end;
  ps_free_law a q :
    ps_inv a → ps_owned a q →
    ∃ a', ps_free a q = Some a' ∧ ps_inv a' ∧ ∀ p, ps_owned a' p ↔ ps_owned a p ∧ p ≠ q;
  ps_stale_law a q : length (ps_stale a q) = 4%nat;
}.

(** ** State *)

Definition KCM_ALIGNE : Z := 64.
Definition KCM_PAGE_SIZE : Z := PMM_PAGE_SIZE.
Definition KCM_PAGE_ACTIVE : Z := 1.
Definition KCM_PAGE_BUSY : Z := 2.
Definition KCM_PAGE_IS (attr flags : Z) : bool := ctrue (Z.land attr flags).
Definition KCM_PAGE_SET (attr flags : Z) : Z := u8 (Z.lor attr flags).
Definition KCM_PAGE_CLEAR (attr flags : Z) : Z := u8 (Z.land attr (Z.lnot flags)).

(** [page_info_t]: 16 bytes of bitmap, two pointers, four bytes, a link and a pointer. *)
Record page_info := PageInfo {
  bitmap : list Z; blk_tbl : Z; current_index : Z; refcount : Z; flags : Z }.
Definition sizeof_page_info : Z := 40.
Definition sizeof_bitmap : Z := 16.

(** Calls of the constructor and of the destructor of objects. *)
Inductive obj_event := ObjInit (ptr : Z) | ObjDestroy (ptr : Z).

(** [struct kcm_s]; [links] and [pinfo] are the memory of the lists and of the page
    descriptors, [trace] the calls of [obj_init] and [obj_destroy], newest first. *)
Record kcm_s := Kcm {
  size : Z; blocks_nr : Z; aligne : Z;
  free_pages_nr : Z; free_pages_min : Z; free_pages_max : Z;
  busy_pages_nr : Z; active_pages_nr : Z;
  obj_init : bool; obj_destroy : bool;    (* whether the pointers are set *)
  links : gmap lnode (list_entry lnode);
  pinfo : gmap Z page_info;
  trace : list obj_event;
}.

Definition activelist : lptr lnode := At (Root 0).
Definition busylist : lptr lnode := At (Root 1).
Definition freelist : lptr lnode := At (Root 2).

Definition set_links (k : kcm_s) (h : gmap lnode (list_entry lnode)) : kcm_s :=
  Kcm (size k) (blocks_nr k) (aligne k) (free_pages_nr k) (free_pages_min k)
    (free_pages_max k) (busy_pages_nr k) (active_pages_nr k) (obj_init k) (obj_destroy k)
    h (pinfo k) (trace k).
Definition set_pinfo (k : kcm_s) (m : gmap Z page_info) : kcm_s :=
  Kcm (size k) (blocks_nr k) (aligne k) (free_pages_nr k) (free_pages_min k)
    (free_pages_max k) (busy_pages_nr k) (active_pages_nr k) (obj_init k) (obj_destroy k)
    (links k) m (trace k).
Definition set_trace (k : kcm_s) (t : list obj_event) : kcm_s :=
  Kcm (size k) (blocks_nr k) (aligne k) (free_pages_nr k) (free_pages_min k)
    (free_pages_max k) (busy_pages_nr k) (active_pages_nr k) (obj_init k) (obj_destroy k)
    (links k) (pinfo k) t.
(** The counters of free, busy and active pages. *)
Definition add_counts (k : kcm_s) (f b a : Z) : kcm_s :=
  Kcm (size k) (blocks_nr k) (aligne k) (u32 (free_pages_nr k + f)) (free_pages_min k)
    (free_pages_max k) (u32 (busy_pages_nr k + b)) (u32 (active_pages_nr k + a))
    (obj_init k) (obj_destroy k) (links k) (pinfo k) (trace k).

Definition set_flags (fl : Z) (i : page_info) : page_info :=
  PageInfo (bitmap i) (blk_tbl i) (current_index i) (refcount i) fl.

(** Rewrite the descriptor of a page. *)
Definition upd_pinfo (k : kcm_s) (p : Z) (f : page_info → page_info) : option kcm_s :=
  i ← pinfo k !! p; Some (set_pinfo k (<[p := f i]> (pinfo k))).

(** ** Blocks of a page *)

(** Take a free block of page [p]; [None] inside is NULL. *)
Definition get_block (k : kcm_s) (p : Z) : option (kcm_s * option Z) :=
  i ← pinfo k !! p;
  if blocks_nr k <=? current_index i then Some (k, None) else
  index ← bitmap_ffs2 (bitmap i) (current_index i) sizeof_bitmap;
  if index =? -1 then Some (k, None) else
  if blocks_nr k <=? index then Some (k, None) else
  bm ← bitmap_clear (bitmap i) index;
  let i := PageInfo bm (blk_tbl i) (u8 (index + 1)) (u8 (refcount i + 1)) (flags i) in
  Some (set_pinfo k (<[p := i]> (pinfo k)), Some (u32 (blk_tbl i + index * size k))).

(** [(uint_t)ptr & KCM_PAGE_MASK], as a page. *)
Definition page_of (ptr : Z) : Z := ptr / KCM_PAGE_SIZE.

Definition put_block (k : kcm_s) (ptr : Z) : option kcm_s :=
  let p := page_of ptr in
  i ← pinfo k !! p;
  let index := u32 (ptr - blk_tbl i) / size k in
  bm ← bitmap_set (bitmap i) index;
  let cur := if index <? current_index i then index else current_index i in
  let i := PageInfo bm (blk_tbl i) (u8 cur) (u8 (refcount i - 1)) (flags i) in
  let k := set_pinfo k (<[p := i]> (pinfo k)) in
  if KCM_PAGE_IS (flags i) KCM_PAGE_BUSY then
    k ← upd_pinfo k p (set_flags (KCM_PAGE_CLEAR (flags i) KCM_PAGE_BUSY));
    h ← list_unlink (links k) (At (Obj p));
    h ← list_add_last h activelist (At (Obj p));
    Some (add_counts (set_links k h) 0 (-1) 1)
  else if negb (KCM_PAGE_IS (flags i) KCM_PAGE_ACTIVE) && (refcount i =? 0) then
    h ← list_unlink (links k) (At (Obj p));
    h ← list_add_first h freelist (At (Obj p));
    Some (add_counts (set_links k h) 1 0 (-1))
  else Some k.

(** ** Pages of the cache *)

Section ops.
Context {A : Type} `{PageSource A}.

(** The calls of the constructor on the [n] blocks of a page, in order. *)
Definition init_calls (k : kcm_s) (tbl : Z) : list obj_event :=
  if obj_init k
  then reverse ((λ i, ObjInit (u32 (tbl + size k * i))) <$> seqZ 0 (blocks_nr k)) else [].

(** The boolean is whether a page was added. *)
Definition freelist_populate (a : A) (k : kcm_s) : option (A * kcm_s * bool) :=
  let '(a', r) := ps_alloc a in
  match r with
  | None => Some (a', k, false)
  | Some p =>
      let ptr := p * KCM_PAGE_SIZE in
      bm ← bitmap_set_range (ps_stale a p) 0 (s32 (blocks_nr k));
      let tbl := u32 (ptr + ARROUND_UP sizeof_page_info (aligne k)) in
      let k := set_pinfo k (<[p := PageInfo bm tbl 0 0 0]> (pinfo k)) in
      let k := set_links k (<[Obj p := Entry Null Null]> (links k)) in
      let k := set_trace k (init_calls k tbl ++ trace k) in
      h ← list_add (links k) freelist (At (Obj p));
      Some (a', add_counts (set_links k h) 1 0 0, true)
  end.

Fixpoint populate_loop (fuel : nat) (a : A) (k : kcm_s) : option (A * kcm_s) :=
  match fuel with
  | O => None
  | S fuel =>
      if free_pages_nr k <? u32 (free_pages_min k + free_pages_max k) / 2 then
        '(a, k, ok) ← freelist_populate a k;
        if (ok : bool) then populate_loop fuel a k else Some (a, k)
      else Some (a, k)
  end.

Definition populate_fuel (k : kcm_s) : nat :=
  S (Z.to_nat (u32 (free_pages_min k + free_pages_max k) / 2)).

(** [list_first] of a list of pages. *)
Definition first_page (k : kcm_s) (root : lptr lnode) : option Z :=
  e ← list_first (links k) root; obj_of e.

Definition freelist_get (a : A) (k : kcm_s) : option (A * kcm_s * option Z) :=
  '(a, k) ← (if free_pages_nr k <=? free_pages_min k
             then populate_loop (populate_fuel k) a k else Some (a, k));
  if free_pages_nr k =? 0 then Some (a, k, None) else
  p ← first_page k freelist;
  h ← list_unlink (links k) (At (Obj p));
  Some (a, add_counts (set_links k h) (-1) 0 0, Some p).

(** The calls of the destructor; note the address of the table. *)
Definition destroy_calls (k : kcm_s) (p : Z) : list obj_event :=
  if obj_destroy k
  then reverse ((λ i, ObjDestroy (u32 (p * KCM_PAGE_SIZE + sizeof_page_info + size k * i)))
                  <$> seqZ 0 (blocks_nr k)) else [].

(** The body of the loop of [freelist_release] on page [p]; [true] leaves the loop. *)
Definition release_body (e : lnode) (st : A * kcm_s) : option (A * kcm_s * bool) :=
  let '(a, k) := st in
  if free_pages_nr k <=? free_pages_min k then Some (a, k, true) else
  p ← obj_of (At e);
  h ← list_unlink (links k) (At e);
  let k := add_counts (set_links k h) (-1) 0 0 in
  let k := set_trace k (destroy_calls k p ++ trace k) in
  a ← ps_free a p;
  Some (a, set_pinfo k (delete p (pinfo k)), false).

Definition freelist_release (fuel : nat) (a : A) (k : kcm_s) : option (A * kcm_s) :=
  list_foreach (λ st, links st.2) release_body fuel freelist (a, k).

(** Page [p] becomes busy and [q] serves the allocations. *)
Definition switch_active (k : kcm_s) (p q : Z) : option kcm_s :=
  i ← pinfo k !! p;
  k ← upd_pinfo k p (set_flags (KCM_PAGE_CLEAR (flags i) KCM_PAGE_ACTIVE));
  h ← list_unlink (links k) (At (Obj p));
  i ← pinfo k !! p;
  k ← upd_pinfo k p (set_flags (KCM_PAGE_SET (flags i) KCM_PAGE_BUSY));
  h ← list_add_first h busylist (At (Obj p));
  i ← pinfo k !! q;
  k ← upd_pinfo k q (set_flags (KCM_PAGE_SET (flags i) KCM_PAGE_ACTIVE));
  Some (add_counts (set_links k h) 0 1 (-1)).

(** The page that serves the next allocations. *)
Definition compute_active_page (a : A) (k : kcm_s) : option (A * kcm_s * Z) :=
  p ← first_page k activelist;
  nxt ← list_next (links k) activelist (At (Obj p));
  '(a, k, q) ←
    (if decide (nxt = Null) then
       '(a, k, r) ← freelist_get a k;
       match r with
       | None => Some (a, k, None)
       | Some q =>
           h ← list_add_last (links k) activelist (At (Obj q));
           Some (a, add_counts (set_links k h) 0 0 1, Some q)
       end
     else q ← obj_of nxt; Some (a, k, Some q));
  match q with
  | None => Some (a, k, p)
  | Some q => k ← switch_active k p q; Some (a, k, q)
  end.

Definition kcm_alloc (a : A) (k : kcm_s) : option (A * kcm_s * option Z) :=
  p ← first_page k activelist;
  '(k, r) ← get_block k p;
  match r with
  | Some ptr => Some (a, k, Some ptr)
  | None =>
      '(a, k, q) ← compute_active_page a k;
      if q =? p then Some (a, k, None) else
      '(k, r) ← get_block k q;
      Some (a, k, r)
  end.

Definition kcm_free (k : kcm_s) (ptr : Z) : option kcm_s :=
  if ptr =? 0 then Some k else put_block k ptr.

Definition kcm_release (fuel : nat) (a : A) (k : kcm_s) : option (A * kcm_s) :=
  freelist_release fuel a k.

(** The number of blocks of a page, given the size of blocks. *)
Definition kcm_blocks (sz : Z) : Z :=
  let n := KCM_PAGE_SIZE / sz in
  if sizeof_page_info <=? KCM_PAGE_SIZE mod sz then n else u32 (n - 1).

Definition kcm_align (al : Z) : Z := if negb (al =? 0) && (al <? 33) then 32 else KCM_ALIGNE.

(** The boolean is success; [h] and [m] are the memory the cache lives in. *)
Definition kcm_init (a : A) (sz al fmin fmax : Z) (ctor dtor : bool)
    (h : gmap lnode (list_entry lnode)) : option (A * kcm_s * bool) :=
  let al := kcm_align al in
  let sz := ARROUND_UP sz al in
  h ← list_root_init h freelist;
  h ← list_root_init h activelist;
  h ← list_root_init h busylist;
  let k := Kcm sz (kcm_blocks sz) al 0 fmin fmax 0 0 ctor dtor h ∅ [] in
  '(a, k, r) ← freelist_get a k;
  match r with
  | None => Some (a, k, false)
  | Some p =>
      h ← list_add (links k) activelist (At (Obj p));
      i ← pinfo k !! p;
      k ← upd_pinfo (set_links k h) p (set_flags (KCM_PAGE_SET (flags i) KCM_PAGE_ACTIVE));
      Some (a, add_counts k 0 0 1, true)
  end.
End ops.

(** ** Geometry *)

(** All the blocks of a page lie inside it, and its bitmap covers them. *)
Record geom (k : kcm_s) : Prop := {
  g_size : 0 < size k;
  g_blocks : 1 ≤ blocks_nr k ≤ 127;
  g_fit : 64 + blocks_nr k * size k ≤ KCM_PAGE_SIZE;
  g_align : aligne k = 32 ∨ aligne k = 64;
  g_min : 0 ≤ free_pages_min k;
  g_mark : 2 ≤ u32 (free_pages_min k + free_pages_max k);
}.

(** The address of block [j] of page [p]. *)
Definition block_addr (k : kcm_s) (p j : Z) : Z := p * KCM_PAGE_SIZE + 64 + j * size k.

Section counting.
Implicit Types (P Q : Z → Prop).

(** One more element satisfies the predicate. *)
Lemma filter_flip P Q `{∀ x, Decision (P x), ∀ x, Decision (Q x)} j (l : list Z) :
  NoDup l → j ∈ l → ¬ P j → (∀ x, Q x ↔ P x ∨ x = j) →
  length (filter Q l) = S (length (filter P l)).
Proof.
  intros Hnd Hj HP HQ.
  assert (Hsame : ∀ l : list Z, j ∉ l → filter Q l = filter P l).
  { intros l' Hl. induction l' as [|x l' IH]; [done|].
    rewrite !filter_cons, IH by set_solver.
    destruct (decide (P x)), (decide (Q x)) as [?|HnQ]; try done; [destruct HnQ; naive_solver|].
    set_solver. }
  induction Hnd as [|x l Hx Hnd IH]; [by apply elem_of_nil in Hj|].
  rewrite !filter_cons. apply elem_of_cons in Hj as [->|Hj].
  - rewrite decide_True, decide_False by naive_solver. cbn. by rewrite Hsame.
  - specialize (IH Hj). destruct (decide (P x)), (decide (Q x)) as [?|HnQ]; cbn; try lia.
    + destruct HnQ. naive_solver.
    + set_solver.
Qed.
End counting.

Definition busy_blocks (n : Z) (bm : list Z) : list Z :=
  filter (λ j, wbit bm j = false) (seqZ 0 n).

Lemma elem_of_busy n bm j : j ∈ busy_blocks n bm ↔ 0 ≤ j < n ∧ wbit bm j = false.
Proof. unfold busy_blocks. rewrite list_elem_of_filter, elem_of_seqZ. naive_solver lia. Qed.

Lemma busy_length n bm : Z.of_nat (length (busy_blocks n bm)) ≤ Z.max 0 n.
Proof.
  unfold busy_blocks. pose proof (length_filter (λ j, wbit bm j = false) (seqZ 0 n)).
  rewrite length_seqZ in *. lia.
Qed.

Lemma busy_flip n bm bm' j :
  0 ≤ j < n → wbit bm j = true → (∀ m, wbit bm' m = negb (m =? j) && wbit bm m) →
  length (busy_blocks n bm') = S (length (busy_blocks n bm)).
Proof.
  intros Hj Hb Hw. apply (filter_flip _ _ j).
  - apply NoDup_seqZ.
  - apply elem_of_seqZ. lia.
  - by rewrite Hb.
  - intros x. rewrite Hw. destruct (Z.eqb_spec x j); naive_solver.
Qed.

(** ** Descriptors of pages *)

Record pinfo_ok (k : kcm_s) (p : Z) (i : page_info) : Prop := {
  pi_len : length (bitmap i) = 4%nat;
  pi_tbl : blk_tbl i = p * KCM_PAGE_SIZE + 64;
  pi_cur : 0 ≤ current_index i ≤ 127;
  pi_pre j : 0 ≤ j < current_index i → j < blocks_nr k → wbit (bitmap i) j = false;
  pi_ref : refcount i = Z.of_nat (length (busy_blocks (blocks_nr k) (bitmap i)));
}.

Definition full (k : kcm_s) (i : page_info) : Prop :=
  ∀ j, 0 ≤ j < blocks_nr k → wbit (bitmap i) j = false.
Definition empty (k : kcm_s) (i : page_info) : Prop :=
  ∀ j, 0 ≤ j < blocks_nr k → wbit (bitmap i) j = true.

Lemma refcount_0 k p i : pinfo_ok k p i → refcount i = 0 ↔ empty k i.
Proof.
  intros [_ _ _ _ Hr]. rewrite Hr. split.
  - intros Hl j Hj. destruct (wbit (bitmap i) j) eqn:E; [done|].
    assert (j ∈ busy_blocks (blocks_nr k) (bitmap i)) as Hin by (by apply elem_of_busy).
    destruct (busy_blocks _ _); [by apply elem_of_nil in Hin|cbn in Hl; lia].
  - intros He. destruct (busy_blocks (blocks_nr k) (bitmap i)) as [|j l] eqn:E; [done|].
    assert (j ∈ busy_blocks (blocks_nr k) (bitmap i)) as [Hj Hb]%elem_of_busy
      by (rewrite E; by left).
    rewrite He in Hb by done. done.
Qed.

Lemma get_block_spec k p i :
  geom k → pinfo k !! p = Some i → pinfo_ok k p i → 0 < p < 2 ^ 20 →
  (get_block k p = Some (k, None) ∧ full k i) ∨
  ∃ j i', 0 ≤ j < blocks_nr k ∧ wbit (bitmap i) j = true ∧
    get_block k p = Some (set_pinfo k (<[p := i']> (pinfo k)), Some (block_addr k p j)) ∧
    pinfo_ok k p i' ∧ flags i' = flags i ∧
    ∀ m, wbit (bitmap i') m = negb (m =? j) && wbit (bitmap i) m.
Proof.
  intros [Hs Hb Hf _ _ _] Hp [Hlen Htbl Hcur Hpre Href] Hpr. unfold get_block. rewrite Hp.
  cbn [mbind option_bind].
  destruct (Z.leb_spec (blocks_nr k) (current_index i)) as [Hle|Hgt].
  { left. split; [done|]. intros j Hj. apply Hpre; lia. }
  destruct (bitmap_ffs2_spec (bitmap i) (current_index i) sizeof_bitmap) as (r & -> & Hr);
    [unfold bm_bits; rewrite Hlen; done|unfold wsize, sizeof_bitmap; lia
    |unfold sizeof_bitmap; lia|]. cbn [mbind option_bind].
  unfold sizeof_bitmap in Hr. destruct Hr as [[-> Hall]|(Hr & Hw & Hall)].
  { left. split; [done|]. intros j Hj. destruct (Z.lt_ge_cases j (current_index i)).
    - apply Hpre; lia.
    - apply Hall. lia. }
  rewrite (proj2 (Z.eqb_neq r (-1))) by lia.
  destruct (Z.leb_spec (blocks_nr k) r) as [Hle|Hlt].
  { left. split; [done|]. intros j Hj. destruct (Z.lt_ge_cases j (current_index i)).
    - apply Hpre; lia.
    - apply Hall. lia. }
  right. destruct (bitmap_clear_spec (bitmap i) r) as (bm & -> & Hl & Hbm);
    [unfold bm_bits, CPU_WIDTH; lia|]. cbn [mbind option_bind blk_tbl].
  pose proof (busy_flip (blocks_nr k) (bitmap i) bm r ltac:(lia) Hw Hbm) as Hfl.
  pose proof (busy_length (blocks_nr k) bm).
  exists r. eexists. split; [lia|]. split; [done|].
  split; [rewrite Htbl; unfold block_addr; rewrite u32_small; [reflexivity|]|].
  { unfold wsize, KCM_PAGE_SIZE, PMM_PAGE_SIZE in *. nia. }
  split; [|done]. split; cbn [bitmap blk_tbl current_index refcount].
  - lia.
  - done.
  - rewrite u8_small; lia.
  - intros j. rewrite u8_small by lia. intros Hj Hjn. rewrite Hbm.
    destruct (Z.eqb_spec j r); [done|]. cbn.
    destruct (Z.lt_ge_cases j (current_index i)); [apply Hpre; lia|apply Hall; lia].
  - rewrite u8_small by lia. lia.
Qed.

(** The descriptor of a page after block [j] is given back. *)
Definition put_info (j : Z) (bm : list Z) (i : page_info) : page_info :=
  PageInfo bm (blk_tbl i) (u8 (if j <? current_index i then j else current_index i))
    (u8 (refcount i - 1)) (flags i).

Lemma put_info_ok k p i j bm :
  geom k → pinfo_ok k p i → 0 ≤ j < blocks_nr k → wbit (bitmap i) j = false →
  length bm = 4%nat → (∀ m, wbit bm m = (m =? j) || wbit (bitmap i) m) →
  pinfo_ok k p (put_info j bm i).
Proof.
  intros [_ Hb _ _ _ _] [Hlen Htbl Hcur Hpre Href] Hj Hw Hl Hbm.
  assert (Hfl : length (busy_blocks (blocks_nr k) (bitmap i)) =
                S (length (busy_blocks (blocks_nr k) bm))).
  { apply busy_flip with j; [done|rewrite Hbm, Z.eqb_refl; done|].
    intros m. rewrite Hbm. destruct (Z.eqb_spec m j) as [->|]; [by rewrite Hw|done]. }
  pose proof (busy_length (blocks_nr k) (bitmap i)).
  split; cbn [put_info bitmap blk_tbl current_index refcount]; try done.
  - rewrite u8_small; destruct (Z.ltb_spec j (current_index i)); lia.
  - intros m. rewrite u8_small by (destruct (Z.ltb_spec j (current_index i)); lia).
    intros Hm Hmn. rewrite Hbm. destruct (Z.ltb_spec j (current_index i)), (Z.eqb_spec m j);
      cbn; try lia; apply Hpre; lia.
  - rewrite u8_small; lia.
Qed.

(** ** The invariant of a cache *)

Inductive role := Head | Part | Full | Empty.

Definition role_ok (k : kcm_s) (r : role) (i : page_info) : Prop :=
  match r with
  | Head => flags i = KCM_PAGE_ACTIVE
  | Part => flags i = 0 ∧ ¬ full k i
  | Full => flags i = KCM_PAGE_BUSY ∧ full k i
  | Empty => flags i = 0 ∧ empty k i
  end.

Definition page_is (k : kcm_s) (r : role) (p : Z) : Prop :=
  ∃ i, pinfo k !! p = Some i ∧ pinfo_ok k p i ∧ role_ok k r i.

Definition L3 (act bsy fre : list Z) (r : Z) : list Z :=
  if r =? 0 then act else if r =? 1 then bsy else fre.

(** Blocks in the hands of clients. *)
Definition live (k : kcm_s) (ptr : Z) : Prop :=
  ∃ p i j, pinfo k !! p = Some i ∧ 0 ≤ j < blocks_nr k ∧ wbit (bitmap i) j = false ∧
    ptr = block_addr k p j.

(** The parts of a cache that only [kcm_init] writes. *)
Definition same_shape (k k' : kcm_s) : Prop :=
  size k' = size k ∧ blocks_nr k' = blocks_nr k ∧ aligne k' = aligne k ∧
  free_pages_min k' = free_pages_min k ∧ free_pages_max k' = free_pages_max k ∧
  obj_init k' = obj_init k ∧ obj_destroy k' = obj_destroy k.

Section invariant.
Context {A : Type} `{PageSource A}.

(** [out] are free pages that an operation holds between two lists. *)
Record inv (a : A) (k : kcm_s) (act bsy fre out : list Z) : Prop := {
  i_geom : geom k;
  i_ps : ps_inv a;
  i_rings : rings (links k) 3 (L3 act bsy fre);
  i_nact : active_pages_nr k = Z.of_nat (length act);
  i_nbsy : busy_pages_nr k = Z.of_nat (length bsy);
  i_nfre : free_pages_nr k = Z.of_nat (length fre);
  i_head : Forall (page_is k Head) (take 1 act);
  i_part : Forall (page_is k Part) (drop 1 act);
  i_full : Forall (page_is k Full) bsy;
  i_empty : Forall (page_is k Empty) (fre ++ out);
  i_out q : q ∈ out → is_Some (links k !! Obj q) ∧ ∀ r, 0 ≤ r < 3 → q ∉ L3 act bsy fre r;
  i_dom p : is_Some (pinfo k !! p) → p ∈ act ++ bsy ++ fre ++ out;
  i_own p : p ∈ act ++ bsy ++ fre ++ out → ps_owned a p ∧ 0 < p < 2 ^ 20;
}.
End invariant.

Lemma same_shape_refl k : same_shape k k.
Proof. by repeat split. Qed.
Lemma same_shape_trans k k1 k2 : same_shape k k1 → same_shape k1 k2 → same_shape k k2.
Proof. unfold same_shape. naive_solver congruence. Qed.

Lemma geom_shape k k' : same_shape k k' → geom k → geom k'.
Proof.
  intros (E1 & E2 & E3 & E4 & E5 & _) []. split; rewrite ?E1, ?E2, ?E3, ?E4, ?E5; done.
Qed.

Lemma pinfo_ok_shape k k' p i : blocks_nr k' = blocks_nr k → pinfo_ok k p i → pinfo_ok k' p i.
Proof. intros E []. split; rewrite ?E; done. Qed.

Lemma role_ok_shape k k' r i : blocks_nr k' = blocks_nr k → role_ok k r i → role_ok k' r i.
Proof. intros E. unfold role_ok, full, empty. rewrite E. done. Qed.

(** A page keeps its role when its descriptor is unchanged. *)
Lemma page_is_frame k k' r p :
  blocks_nr k' = blocks_nr k → pinfo k' !! p = pinfo k !! p → page_is k r p → page_is k' r p.
Proof.
  intros E Ep (i & Hi & Hok & Hr). exists i. rewrite Ep. split_and!; [done| |].
  - by eapply pinfo_ok_shape.
  - by eapply role_ok_shape.
Qed.

Lemma pages_frame k k' r l :
  blocks_nr k' = blocks_nr k → (∀ p, p ∈ l → pinfo k' !! p = pinfo k !! p) →
  Forall (page_is k r) l → Forall (page_is k' r) l.
Proof.
  intros E Ep. rewrite !Forall_forall. intros Hl p Hp. eapply page_is_frame; eauto.
Qed.

Lemma live_frame k k' :
  same_shape k k' → pinfo k' = pinfo k → ∀ q, live k' q ↔ live k q.
Proof.
  intros (E1 & E2 & _) Ep q. unfold live, block_addr. by rewrite Ep, E1, E2.
Qed.

(** Descriptors may change in any way that keeps the blocks in use. *)
Lemma live_bits k k' p i i' :
  same_shape k k' → pinfo k !! p = Some i → pinfo k' = <[p := i']> (pinfo k) →
  bitmap i' = bitmap i → ∀ q, live k' q ↔ live k q.
Proof.
  intros (E1 & E2 & _) Hi Ep Eb q. unfold live, block_addr. rewrite Ep, E1, E2. split.
  - intros (p' & x & j & Hx & Hj & Hw & ->).
    apply lookup_insert_Some in Hx as [[<- <-]|[_ Hx]]; [|by eauto 10].
    rewrite Eb in Hw. eauto 10.
  - intros (p' & x & j & Hx & Hj & Hw & ->). destruct (decide (p' = p)) as [->|Hne].
    + exists p, i', j. rewrite lookup_insert_eq, Eb. naive_solver.
    + exists p', x, j. rewrite lookup_insert_ne by done. done.
Qed.

(** The pages of the lists are few enough for the counters not to wrap. *)
Lemma NoDup_pages_length (l : list Z) :
  NoDup l → (∀ p, p ∈ l → 0 < p < 2 ^ 20) → Z.of_nat (length l) < 2 ^ 20.
Proof.
  intros Hnd Hp. assert (Hs : l ⊆ seqZ 1 (2 ^ 20 - 1)).
  { intros x Hx. apply elem_of_seqZ. specialize (Hp x Hx). lia. }
  pose proof (NoDup_submseteq l (seqZ 1 (2 ^ 20 - 1)) Hnd Hs) as Hsub%submseteq_length.
  rewrite length_seqZ in Hsub. lia.
Qed.

Lemma elem_of_take_1 (x : Z) n l : x ∈ take n l → x ∈ l.
Proof. intros Hx. rewrite <- (take_drop n l). set_solver. Qed.
Lemma elem_of_drop_1 (x : Z) n l : x ∈ drop n l → x ∈ l.
Proof. intros Hx. rewrite <- (take_drop n l). set_solver. Qed.

Lemma L3_act act bsy fre : L3 act bsy fre 0 = act. Proof. done. Qed.
Lemma L3_bsy act bsy fre : L3 act bsy fre 1 = bsy. Proof. done. Qed.
Lemma L3_fre act bsy fre : L3 act bsy fre 2 = fre. Proof. done. Qed.

(** Reduce an update of one of the three lists. *)
Ltac ring_cases :=
  let r := fresh "r" in let Hr := fresh "Hr" in
  intros r Hr; unfold upd_ring, L3;
  repeat match goal with |- context [?x =? ?y] => destruct (Z.eqb_spec x y) end;
  subst; try done; try lia.

Section specs.
Context {A : Type} `{!PageSource A, !PageSourceLaws A}.
Implicit Types (a : A) (k : kcm_s) (act bsy fre out : list Z).

Lemma inv_mem a k act bsy fre out r x :
  inv a k act bsy fre out → 0 ≤ r < 3 → x ∈ L3 act bsy fre r →
  x ∈ act ++ bsy ++ fre ++ out.
Proof.
  intros _ Hr. unfold L3. destruct (r =? 0), (r =? 1); rewrite !elem_of_app; auto.
Qed.

Lemma inv_length a k act bsy fre out r :
  inv a k act bsy fre out → 0 ≤ r < 3 → Z.of_nat (length (L3 act bsy fre r)) < 2 ^ 20.
Proof.
  intros Hi Hr. apply NoDup_pages_length.
  - eapply olist_NoDup, rings_list; [apply Hi|done].
  - intros p Hp. eapply i_own; [done|]. by eapply inv_mem.
Qed.

Lemma inv_cell a k act bsy fre out x :
  inv a k act bsy fre out → x ∈ act ++ bsy ++ fre ++ out → is_Some (links k !! Obj x).
Proof.
  intros Hi Hx. rewrite !elem_of_app in Hx.
  assert (Hm : ∀ r, 0 ≤ r < 3 → x ∈ L3 act bsy fre r → is_Some (links k !! Obj x)).
  { intros r Hr Hxr. eapply dlist_mem; [by apply (rings_list _ _ _ (i_rings _ _ _ _ _ _ Hi) r)|].
    right. by apply elem_of_Obj. }
  destruct Hx as [Hx|[Hx|[Hx|Hx]]].
  - by apply (Hm 0).
  - by apply (Hm 1).
  - by apply (Hm 2).
  - by apply (i_out _ _ _ _ _ _ Hi).
Qed.

(** Pages on different lists are different. *)
Lemma inv_dis a k act bsy fre out r r' x y :
  inv a k act bsy fre out → 0 ≤ r < 3 → 0 ≤ r' < 3 → r ≠ r' →
  x ∈ L3 act bsy fre r → y ∈ L3 act bsy fre r' → x ≠ y.
Proof. intros Hi Hr Hr' Hne Hx Hy ->. apply Hne. by eapply rings_dis; [apply Hi|..]. Qed.

Lemma align_header k : geom k → ARROUND_UP sizeof_page_info (aligne k) = 64.
Proof. intros [_ _ _ [-> | ->] _ _]; reflexivity. Qed.

(** A page that just arrived: all its blocks are free. *)
Lemma fresh_info_ok k p bm :
  geom k → length bm = 4%nat → (∀ j, 0 ≤ j < blocks_nr k → wbit bm j = true) →
  let i := PageInfo bm (p * KCM_PAGE_SIZE + 64) 0 0 0 in pinfo_ok k p i ∧ role_ok k Empty i.
Proof.
  intros Hg Hl Hw i. split; [|split; [done|exact Hw]].
  split; cbn; [done|done|lia|lia|].
  destruct (busy_blocks (blocks_nr k) bm) as [|j l] eqn:E; [done|].
  assert (j ∈ busy_blocks (blocks_nr k) bm) as [Hj Hb]%elem_of_busy by (rewrite E; by left).
  rewrite Hw in Hb by done. done.
Qed.

Lemma live_fresh k k' p i :
  same_shape k k' → pinfo k !! p = None → pinfo k' = <[p := i]> (pinfo k) → empty k i →
  ∀ q, live k' q ↔ live k q.
Proof.
  intros (E1 & E2 & _) Hp Ep He q. unfold live, block_addr. rewrite Ep, E1, E2. split.
  - intros (p' & x & j & Hx & Hj & Hw & ->).
    apply lookup_insert_Some in Hx as [[<- <-]|[_ Hx]]; [|by eauto 10].
    rewrite He in Hw by done. done.
  - intros (p' & x & j & Hx & Hj & Hw & ->). exists p', x, j.
    rewrite lookup_insert_ne by congruence. done.
Qed.

Lemma inv_new_free a a' k k' act bsy fre q :
  inv a k act bsy fre [] → same_shape k k' → ps_inv a' →
  rings (links k') 3 (L3 act bsy (q :: fre)) →
  active_pages_nr k' = active_pages_nr k ∧ busy_pages_nr k' = busy_pages_nr k ∧
    free_pages_nr k' = free_pages_nr k + 1 →
  page_is k' Empty q → (∀ p, q ≠ p → pinfo k' !! p = pinfo k !! p) →
  q ∉ act ++ bsy ++ fre ++ [] → 0 < q < 2 ^ 20 →
  (∀ p, ps_owned a' p ↔ ps_owned a p ∨ p = q) →
  inv a' k' act bsy (q :: fre) [].
Proof.
  intros [] Hsh Hps Hr (E1 & E2 & E3) Hq Hpi Hqn Hqr Hown. pose proof Hsh as (_ & Eb & _).
  rewrite app_nil_r in *.
  assert (Hfr : ∀ r l, l ⊆ act ++ bsy ++ fre → Forall (page_is k r) l → Forall (page_is k' r) l).
  { intros r l Hl. apply pages_frame; [done|]. intros p Hp. apply Hpi. set_solver. }
  split; rewrite ?app_nil_r; cbn [length]; try done; try lia.
  - by eapply geom_shape.
  - apply Hfr; [|done]. intros x Hx. apply elem_of_app. left. by eapply elem_of_take_1.
  - apply Hfr; [|done]. intros x Hx. apply elem_of_app. left. by eapply elem_of_drop_1.
  - apply Hfr; [set_solver|done].
  - constructor; [done|]. apply Hfr; [set_solver|done].
  - set_solver.
  - intros p Hp. destruct (decide (q = p)) as [<-|Hne]; [set_solver|].
    rewrite Hpi in Hp by done. apply i_dom0 in Hp. set_solver.
  - intros p Hp. rewrite Hown. destruct (decide (p = q)) as [->|Hne]; [auto|].
    destruct (i_own0 p); [set_solver|auto].
Qed.

Lemma freelist_populate_spec a k act bsy fre :
  inv a k act bsy fre [] →
  (∃ a', ps_alloc a = (a', None) ∧ freelist_populate a k = Some (a', k, false) ∧
         inv a' k act bsy fre []) ∨
  (∃ a' k' q, freelist_populate a k = Some (a', k', true) ∧ same_shape k k' ∧
     inv a' k' act bsy (q :: fre) [] ∧ ∀ x, live k' x ↔ live k x).
Proof.
  intros Hi. pose proof (ps_alloc_law a (i_ps _ _ _ _ _ _ Hi)) as Hlaw.
  unfold freelist_populate. destruct (ps_alloc a) as [a' [q|]]; destruct Hlaw as [Hps Hown].
  2:{ left. exists a'. split_and!; [done..|]. destruct Hi. split; try done.
      intros p Hp. rewrite Hown. by apply i_own0. }
  right. destruct Hown as (Hq & Hnew & Hown). pose proof (i_geom _ _ _ _ _ _ Hi) as Hg.
  assert (Hqn : q ∉ act ++ bsy ++ fre ++ []).
  { intros Hin. apply Hnew. by apply (i_own _ _ _ _ _ _ Hi). }
  assert (Hqp : pinfo k !! q = None).
  { apply eq_None_not_Some. intros Hs%(i_dom _ _ _ _ _ _ Hi). done. }
  assert (Hql : ∀ r, 0 ≤ r < 3 → q ∉ L3 act bsy fre r).
  { intros r Hr Hin. apply Hqn. by eapply inv_mem. }
  pose proof Hg as [_ Hb _ _ _ _]. rewrite s32_small by lia.
  destruct (bitmap_set_range_spec (ps_stale a q) 0 (blocks_nr k)) as (bm & -> & Hbl & Hbm);
    [lia|lia|unfold bm_bits; rewrite ps_stale_law; unfold CPU_WIDTH; lia|].
  rewrite ps_stale_law in Hbl. cbn [mbind option_bind].
  rewrite align_header by done. rewrite (u32_small (q * _ + 64))
    by (unfold wsize, KCM_PAGE_SIZE, PMM_PAGE_SIZE in *; lia).
  destruct (fresh_info_ok k q bm Hg Hbl) as [Hok Hrole].
  { intros j Hj. rewrite Hbm. by replace ((0 <=? j) && (j <? 0 + blocks_nr k)) with true by lia. }
  destruct (rings_add (<[Obj q := Entry Null Null]> (links k)) 3 (L3 act bsy fre) 2 q)
    as (h & Eh & Hrings & _); [by apply rings_fresh; [apply Hi|]|lia|done|
      rewrite lookup_insert_eq; eauto|].
  cbn [links set_links set_pinfo set_trace]. unfold freelist. rewrite Eh. cbn [mbind option_bind].
  eexists a', _, q. split; [reflexivity|]. split; [by repeat split|].
  pose proof (inv_length _ _ _ _ _ _ 2 Hi ltac:(lia)) as Hlen. rewrite L3_fre in Hlen.
  pose proof (inv_length _ _ _ _ _ _ 1 Hi ltac:(lia)) as Hlen1. rewrite L3_bsy in Hlen1.
  pose proof (inv_length _ _ _ _ _ _ 0 Hi ltac:(lia)) as Hlen0. rewrite L3_act in Hlen0.
  split; [|eapply live_fresh; [by repeat split|exact Hqp|reflexivity|apply Hrole]].
  apply (inv_new_free a a' k); [done|by repeat split|done|..]; try done.
  - eapply rings_ext; [|exact Hrings]. ring_cases.
  - cbn. rewrite !u32_small by (rewrite ?(i_nact _ _ _ _ _ _ Hi), ?(i_nbsy _ _ _ _ _ _ Hi),
      ?(i_nfre _ _ _ _ _ _ Hi); unfold wsize; lia). lia.
  - exists (PageInfo bm (q * KCM_PAGE_SIZE + 64) 0 0 0). split; [apply lookup_insert_eq|].
    split; [by apply (pinfo_ok_shape k)|by apply (role_ok_shape k)].
  - intros p Hp. by apply lookup_insert_ne.
Qed.

(** The source of pages could not give one. *)
Definition no_page (a' : A) : Prop := ∃ a, ps_alloc a = (a', None).

Lemma populate_loop_spec fuel a k act bsy fre :
  inv a k act bsy fre [] →
  (Z.to_nat (u32 (free_pages_min k + free_pages_max k) / 2 - free_pages_nr k) < fuel)%nat →
  ∃ a' k' fre', populate_loop fuel a k = Some (a', k') ∧ same_shape k k' ∧
    inv a' k' act bsy fre' [] ∧ (∀ x, live k' x ↔ live k x) ∧ (fre' = [] → no_page a').
Proof.
  revert a k fre. induction fuel as [|fuel IH]; intros a k fre Hi Hf; [lia|].
  cbn [populate_loop]. pose proof (g_mark _ (i_geom _ _ _ _ _ _ Hi)) as Hm.
  pose proof (i_nfre _ _ _ _ _ _ Hi) as Hn.
  destruct (Z.ltb_spec (free_pages_nr k) (u32 (free_pages_min k + free_pages_max k) / 2)) as [Hlt|Hge].
  - destruct (freelist_populate_spec a k act bsy fre Hi)
      as [(a' & Ea & -> & Hi')|(a' & k' & q & -> & Hsh & Hi' & Hl)]; cbn [mbind option_bind].
    + exists a', k, fre. split_and!; [done|apply same_shape_refl|done|done|]. intros _. by exists a.
    + pose proof Hsh as (_ & _ & _ & Emin & Emax & _).
      pose proof (i_nfre _ _ _ _ _ _ Hi') as Hn'. cbn [length] in Hn'.
      destruct (IH a' k' (q :: fre) Hi') as (a2 & k2 & fre2 & -> & Hsh2 & Hi2 & Hl2 & Hnp).
      { rewrite Emin, Emax. lia. }
      exists a2, k2, fre2. split_and!; [done|by eapply same_shape_trans|done| |done].
      intros x. by rewrite Hl2, Hl.
  - exists a, k, fre. split_and!; [done|apply same_shape_refl|done|done|]. intros ->.
    cbn in Hn. assert (1 ≤ u32 (free_pages_min k + free_pages_max k) / 2); [|lia].
    apply Z.div_le_lower_bound; lia.
Qed.

Lemma inv_take_free a k k' act bsy fre q h :
  inv a k act bsy (q :: fre) [] →
  k' = add_counts (set_links k h) (-1) 0 0 →
  rings h 3 (L3 act bsy fre) → is_Some (h !! Obj q) →
  (∀ r, 0 ≤ r < 3 → q ∉ L3 act bsy fre r) →
  inv a k' act bsy fre [q].
Proof.
  intros Hi -> Hr Hc Hq.
  pose proof (inv_length _ _ _ _ _ _ 2 Hi ltac:(lia)) as Hlen. rewrite L3_fre in Hlen.
  pose proof (inv_length _ _ _ _ _ _ 1 Hi ltac:(lia)) as Hlen1. rewrite L3_bsy in Hlen1.
  pose proof (inv_length _ _ _ _ _ _ 0 Hi ltac:(lia)) as Hlen0. rewrite L3_act in Hlen0.
  destruct Hi. cbn [length] in *.
  assert (Hfr : ∀ r l, Forall (page_is k r) l →
            Forall (page_is (add_counts (set_links k h) (-1) 0 0) r) l)
    by (intros r l; by apply pages_frame).
  split; cbn [links active_pages_nr busy_pages_nr free_pages_nr add_counts set_links pinfo];
    rewrite ?i_nact0, ?i_nbsy0, ?i_nfre0, ?u32_small by (unfold wsize; lia);
    try done; try lia; try (by apply Hfr).
  - by eapply geom_shape; [|exact i_geom0].
  - apply Hfr. rewrite app_nil_r in i_empty0. apply Forall_cons in i_empty0 as [? ?].
    apply Forall_app. by repeat constructor.
  - intros x ->%list_elem_of_singleton. done.
  - intros p Hp%i_dom0. set_solver.
  - intros p Hp. apply i_own0. set_solver.
Qed.

Lemma first_page_spec a k act bsy fre out r p l :
  inv a k act bsy fre out → 0 ≤ r < 3 → L3 act bsy fre r = p :: l →
  first_page k (At (Root r)) = Some p.
Proof.
  intros Hi Hr E. unfold first_page.
  pose proof (rings_list _ _ _ (i_rings _ _ _ _ _ _ Hi) r Hr) as Hl. rewrite E in Hl.
  by rewrite (olist_first _ _ _ _ Hl).
Qed.

Lemma freelist_get_spec a k act bsy fre :
  inv a k act bsy fre [] →
  ∃ a' k' r, freelist_get a k = Some (a', k', r) ∧ same_shape k k' ∧
    (∀ x, live k' x ↔ live k x) ∧
    match r with
    | None => inv a' k' act bsy [] [] ∧ no_page a'
    | Some q => ∃ fre', inv a' k' act bsy fre' [q]
    end.
Proof.
  intros Hi.
  assert (Hpre : ∃ a' k' fre',
    (if free_pages_nr k <=? free_pages_min k
     then populate_loop (populate_fuel k) a k else Some (a, k)) = Some (a', k') ∧
    same_shape k k' ∧ inv a' k' act bsy fre' [] ∧ (∀ x, live k' x ↔ live k x) ∧
    (fre' = [] → no_page a')).
  { pose proof (g_min _ (i_geom _ _ _ _ _ _ Hi)) as Hm.
    pose proof (i_nfre _ _ _ _ _ _ Hi) as Hn.
    destruct (Z.leb_spec (free_pages_nr k) (free_pages_min k)).
    - apply populate_loop_spec with fre; [done|]. unfold populate_fuel. lia.
    - exists a, k, fre. split_and!; [done|apply same_shape_refl|done|done|].
      intros ->. cbn in Hn. lia. }
  destruct Hpre as (a1 & k1 & fre1 & E1 & Hsh & Hi1 & Hl & Hnp).
  unfold freelist_get. rewrite E1. cbn [mbind option_bind].
  pose proof (i_nfre _ _ _ _ _ _ Hi1) as Hn. destruct fre1 as [|q fre1].
  - cbn in Hn. rewrite Hn. cbn. exists a1, k1, None. split_and!; try done. auto.
  - cbn [length] in Hn. rewrite (proj2 (Z.eqb_neq _ 0)) by lia.
    unfold freelist. rewrite (first_page_spec _ _ _ _ _ _ 2 q fre1 Hi1) by done.
    cbn [mbind option_bind].
    destruct (rings_unlink (links k1) 3 (L3 act bsy (q :: fre1)) 2 [] q fre1)
      as (h & -> & Hr & [Fd _] & Hq); [apply Hi1|lia|done|]. cbn [mbind option_bind].
    eexists a1, _, (Some q). split; [reflexivity|]. split; [done|]. split; [done|].
    assert (Hext : ∀ r, 0 ≤ r < 3 →
              upd_ring (L3 act bsy (q :: fre1)) 2 fre1 r = L3 act bsy fre1 r) by ring_cases.
    exists fre1. eapply inv_take_free; [exact Hi1|reflexivity| | |].
    + by eapply rings_ext; [exact Hext|].
    + apply Fd. eapply inv_cell; [exact Hi1|]. set_solver.
    + intros r Hr'. rewrite <- Hext by done. by apply Hq.
Qed.

(** Changing the flags of a descriptor keeps it well formed. *)
Lemma set_flags_ok k p i fl : pinfo_ok k p i → pinfo_ok k p (set_flags fl i).
Proof. by intros []. Qed.

Lemma inv_full_page a k p rest bsy fre out i :
  inv a k (p :: rest) bsy fre out → pinfo k !! p = Some i → pinfo_ok k p i ∧ flags i = KCM_PAGE_ACTIVE.
Proof.
  intros Hi Hp. pose proof (i_head _ _ _ _ _ _ Hi) as [(i' & Hi' & Hok & Hr) _]%Forall_cons.
  rewrite Hp in Hi'. injection Hi' as <-. done.
Qed.

Lemma inv_switch a k k' p q rest bsy fre ip iq :
  inv a k (p :: q :: rest) bsy fre [] → same_shape k k' →
  pinfo k !! p = Some ip → pinfo_ok k p ip → full k ip →
  pinfo k !! q = Some iq → pinfo_ok k q iq → p ≠ q → NoDup (p :: q :: rest) →
  pinfo k' = <[q := set_flags 1 iq]> (<[p := set_flags 2 ip]> (pinfo k)) →
  rings (links k') 3 (L3 (q :: rest) (p :: bsy) fre) →
  active_pages_nr k' = active_pages_nr k - 1 ∧ busy_pages_nr k' = busy_pages_nr k + 1 ∧
    free_pages_nr k' = free_pages_nr k →
  inv a k' (q :: rest) (p :: bsy) fre [].
Proof.
  intros Hi Hsh Hp Hpok Hpf Hq Hqok Hpq Hnd Ek Hr (E1 & E2 & E3). pose proof Hsh as (_ & Eb & _).
  assert (Hfr : ∀ r l, p ∉ l → q ∉ l → Forall (page_is k r) l → Forall (page_is k' r) l).
  { intros r l Hl1 Hl2. apply pages_frame; [done|]. intros x Hx.
    rewrite Ek, !lookup_insert_ne by set_solver. done. }
  apply NoDup_cons in Hnd as [Hn1 [Hn2 _]%NoDup_cons].
  assert (Hdis : ∀ r x, 0 < r < 3 → x ∈ p :: q :: rest → x ∉ L3 (p :: q :: rest) bsy fre r).
  { intros r x Hr' Hx Hx'. by apply (inv_dis _ _ _ _ _ _ 0 r x x Hi); try lia. }
  destruct Hi. cbn [length] in *. rewrite app_nil_r in *.
  split; rewrite ?app_nil_r; cbn [take drop length]; try done; try lia.
  - by eapply geom_shape.
  - rewrite Forall_singleton. exists (set_flags 1 iq). rewrite Ek, lookup_insert_eq.
    split; [done|]. split; [|done]. apply set_flags_ok. by apply (pinfo_ok_shape k).
  - apply Hfr; [set_solver|done|]. cbn [drop] in i_part0. by apply Forall_cons in i_part0 as [_ ?].
  - constructor.
    + exists (set_flags 2 ip). rewrite Ek, lookup_insert_ne, lookup_insert_eq by done.
      split; [done|]. split; [apply set_flags_ok; by apply (pinfo_ok_shape k)|].
      split; [done|]. intros j. rewrite Eb. apply Hpf.
    + apply Hfr; [apply (Hdis 1); [lia|set_solver]|apply (Hdis 1); [lia|set_solver]|done].
  - apply Hfr; [apply (Hdis 2); [lia|set_solver]|apply (Hdis 2); [lia|set_solver]|done].
  - set_solver.
  - intros x. rewrite Ek. intros Hx.
    assert (is_Some (pinfo k !! x)) as Hx'.
    { destruct (decide (x = q)) as [->|]; [eauto|]. destruct (decide (x = p)) as [->|]; [eauto|].
      by rewrite !lookup_insert_ne in Hx by done. }
    apply i_dom0 in Hx'. set_solver.
  - intros x Hx. apply i_own0. set_solver.
Qed.

Lemma switch_active_spec a k p q rest bsy fre :
  inv a k (p :: q :: rest) bsy fre [] → (∀ i, pinfo k !! p = Some i → full k i) →
  ∃ k', switch_active k p q = Some k' ∧ same_shape k k' ∧ (∀ x, live k' x ↔ live k x) ∧
    inv a k' (q :: rest) (p :: bsy) fre [] ∧
    (∃ i, pinfo k' !! q = Some i ∧ ¬ full k' i).
Proof.
  intros Hi Hfull.
  pose proof (inv_length _ _ _ _ _ _ 2 Hi ltac:(lia)) as Hlen. rewrite L3_fre in Hlen.
  pose proof (inv_length _ _ _ _ _ _ 1 Hi ltac:(lia)) as Hlen1. rewrite L3_bsy in Hlen1.
  pose proof (inv_length _ _ _ _ _ _ 0 Hi ltac:(lia)) as Hlen0. rewrite L3_act in Hlen0.
  pose proof (i_head _ _ _ _ _ _ Hi) as [(ip & Hp & Hpok & Hpf) _]%Forall_cons. cbn in Hpf.
  pose proof (i_part _ _ _ _ _ _ Hi) as [(iq & Hq & Hqok & Hqf & Hqn) Hrest]%Forall_cons.
  assert (Hnd : NoDup (p :: q :: rest)) by (eapply olist_NoDup, (rings_list _ _ _ (i_rings _ _ _ _ _ _ Hi) 0); lia).
  assert (Hpq : p ≠ q) by (apply NoDup_cons in Hnd as [? _]; set_solver).
  unfold switch_active, upd_pinfo. rewrite Hp. cbn [mbind option_bind].
  cbn [links set_pinfo].
  destruct (rings_unlink (links k) 3 (L3 (p :: q :: rest) bsy fre) 0 [] p (q :: rest))
    as (h & -> & Hr & [Fd _] & Hpn); [apply Hi|lia|done|]. cbn [mbind option_bind pinfo set_pinfo].
  rewrite lookup_insert_eq. cbn [mbind option_bind pinfo set_pinfo].
  destruct (rings_add h 3 _ 1 p Hr) as (h' & Eh & Hr' & _); [lia|done| |].
  { apply Fd. eapply inv_cell; [exact Hi|]. set_solver. }
  unfold list_add_first, busylist. rewrite Eh. cbn [mbind option_bind pinfo set_pinfo].
  rewrite !lookup_insert_ne, Hq by done. cbn [mbind option_bind].
  set (k' := add_counts _ _ _ _). exists k'. split; [done|].
  assert (Ek : pinfo k' = <[q := set_flags 1 iq]> (<[p := set_flags 2 ip]> (pinfo k))).
  { subst k'. cbn [pinfo add_counts set_links set_pinfo]. rewrite !insert_insert_eq.
    cbn [flags set_flags]. rewrite Hpf, Hqf. reflexivity. }
  assert (Hsh : same_shape k k') by (by repeat split).
  split; [done|]. split; [|split].
  - intros x. etransitivity.
    + apply (live_bits (set_pinfo k (<[p := set_flags 2 ip]> (pinfo k))) k' q iq (set_flags 1 iq)); try done.
      cbn. by rewrite lookup_insert_ne.
    + by apply (live_bits k _ p ip (set_flags 2 ip)).
  - apply (inv_switch a k k' p q rest bsy fre ip iq); try done; [by apply Hfull| |].
    + eapply rings_ext; [|exact Hr']. ring_cases.
    + subst k'. cbn. rewrite (i_nact _ _ _ _ _ _ Hi), (i_nbsy _ _ _ _ _ _ Hi),
        (i_nfre _ _ _ _ _ _ Hi), !u32_small by (unfold wsize in *; cbn [length] in *; lia).
      lia.
  - exists (set_flags 1 iq). rewrite Ek, lookup_insert_eq. done.
Qed.

Lemma block_addr_page k p j :
  geom k → 0 ≤ j < blocks_nr k →
  page_of (block_addr k p j) = p ∧ block_addr k p j = p * KCM_PAGE_SIZE + 64 + j * size k ∧
  0 ≤ 64 + j * size k ∧ 64 + (j + 1) * size k ≤ KCM_PAGE_SIZE.
Proof.
  intros [Hs Hb Hf _ _ _] Hj. assert (64 + (j + 1) * size k ≤ KCM_PAGE_SIZE) by nia.
  split_and!; [|done|nia|done]. unfold page_of, block_addr.
  rewrite <- Z.add_assoc, Z.div_add_l, Z.div_small by (unfold KCM_PAGE_SIZE, PMM_PAGE_SIZE in *; nia).
  lia.
Qed.

Lemma block_addr_inj k p p' j j' :
  geom k → 0 ≤ j < blocks_nr k → 0 ≤ j' < blocks_nr k →
  block_addr k p j = block_addr k p' j' → p = p' ∧ j = j'.
Proof.
  intros Hg Hj Hj' E. assert (p = p') as <-.
  { destruct (block_addr_page k p j Hg Hj) as [<- _].
    destruct (block_addr_page k p' j' Hg Hj') as [<- _]. by rewrite E. }
  split; [done|]. unfold block_addr in E. pose proof (g_size _ Hg). nia.
Qed.

(** A descriptor whose bits changed at block [j] only. *)
Lemma live_flip k k' p i i' j :
  geom k → same_shape k k' → pinfo k !! p = Some i → pinfo k' = <[p := i']> (pinfo k) →
  0 ≤ j < blocks_nr k → wbit (bitmap i) j = true →
  (∀ m, wbit (bitmap i') m = negb (m =? j) && wbit (bitmap i) m) →
  ¬ live k (block_addr k p j) ∧ ∀ q, live k' q ↔ live k q ∨ q = block_addr k p j.
Proof.
  intros Hg (E1 & E2 & _) Hi Ep Hj Hw Hbm. split.
  - intros (p' & x & j' & Hx & Hj' & Hw' & E). apply block_addr_inj in E as [<- <-]; [|done..].
    rewrite Hi in Hx. injection Hx as <-. congruence.
  - intros q. unfold live, block_addr. rewrite Ep, E1, E2. split.
    + intros (p' & x & j' & Hx & Hj' & Hw' & ->).
      apply lookup_insert_Some in Hx as [[<- <-]|[_ Hx]]; [|left; by eauto 10].
      rewrite Hbm in Hw'. destruct (Z.eqb_spec j' j) as [->|]; [by right|left; by eauto 10].
    + intros [(p' & x & j' & Hx & Hj' & Hw' & ->)| ->].
      * destruct (decide (p' = p)) as [->|].
        -- rewrite Hi in Hx. injection Hx as <-. exists p, i', j'.
           rewrite lookup_insert_eq, Hbm, Hw', andb_false_r. done.
        -- exists p', x, j'. by rewrite lookup_insert_ne.
      * exists p, i', j. rewrite lookup_insert_eq, Hbm, Z.eqb_refl. done.
Qed.

(** Rewriting the descriptor of the first active page. *)
Lemma inv_head_info a k p rest bsy fre i :
  inv a k (p :: rest) bsy fre [] → pinfo_ok k p i → flags i = KCM_PAGE_ACTIVE →
  inv a (set_pinfo k (<[p := i]> (pinfo k))) (p :: rest) bsy fre [].
Proof.
  intros Hi Hok Hf. set (k' := set_pinfo k _).
  assert (Hfr : ∀ r l, p ∉ l → Forall (page_is k r) l → Forall (page_is k' r) l).
  { intros r l Hl. apply pages_frame; [done|]. intros x Hx. cbn. apply lookup_insert_ne. set_solver. }
  assert (Hdis : ∀ r, 0 < r < 3 → p ∉ L3 (p :: rest) bsy fre r).
  { intros r Hr Hx. apply (inv_dis _ _ _ _ _ _ 0 r p p Hi); try lia; [rewrite L3_act; set_solver|done]. }
  assert (Hnd : NoDup (p :: rest)) by (eapply olist_NoDup, (rings_list _ _ _ (i_rings _ _ _ _ _ _ Hi) 0); lia).
  apply NoDup_cons in Hnd as [Hn _]. destruct Hi.
  split; try done.
  - by apply (geom_shape k).
  - cbn [take]. rewrite Forall_singleton. exists i. split; [apply lookup_insert_eq|]. split; [|done].
    by apply (pinfo_ok_shape k).
  - by apply Hfr.
  - apply Hfr; [|done]. by apply (Hdis 1).
  - apply Hfr; [|done]. rewrite app_nil_r. by apply (Hdis 2).
  - intros x. cbn. destruct (decide (x = p)) as [->|]; [set_solver|].
    rewrite lookup_insert_ne by done. apply i_dom0.
Qed.

(** An allocation from the first active page. *)
Lemma get_block_inv a k p rest bsy fre :
  inv a k (p :: rest) bsy fre [] →
  (get_block k p = Some (k, None) ∧ ∀ i, pinfo k !! p = Some i → full k i) ∨
  ∃ k' j, get_block k p = Some (k', Some (block_addr k p j)) ∧ same_shape k k' ∧
    0 ≤ j < blocks_nr k ∧ inv a k' (p :: rest) bsy fre [] ∧
    ¬ live k (block_addr k p j) ∧ ∀ x, live k' x ↔ live k x ∨ x = block_addr k p j.
Proof.
  intros Hi. pose proof (i_geom _ _ _ _ _ _ Hi) as Hg.
  pose proof (i_head _ _ _ _ _ _ Hi) as [(i & Hp & Hok & Hf) _]%Forall_cons.
  assert (0 < p < 2 ^ 20) by (apply (i_own _ _ _ _ _ _ Hi); set_solver).
  destruct (get_block_spec k p i Hg Hp Hok) as [[E Hfull]|(j & i' & Hj & Hw & E & Hok' & Hf' & Hbm)];
    [done|left; split; [done|]; intros i' Hi'; rewrite Hp in Hi'; by injection Hi' as <-|].
  right. eexists _, j. split; [exact E|]. split; [by repeat split|]. split; [done|].
  split; [apply inv_head_info; [done..|]; rewrite Hf'; exact Hf|].
  by eapply live_flip; [done| |exact Hp|reflexivity|..].
Qed.

(** The free page an operation holds joins the active list. *)
Lemma inv_activate a k p bsy fre q h :
  inv a k [p] bsy fre [q] → rings h 3 (L3 [p; q] bsy fre) →
  inv a (add_counts (set_links k h) 0 0 1) [p; q] bsy fre [].
Proof.
  intros Hi Hr.
  pose proof (inv_length _ _ _ _ _ _ 2 Hi ltac:(lia)) as Hlen. rewrite L3_fre in Hlen.
  pose proof (inv_length _ _ _ _ _ _ 1 Hi ltac:(lia)) as Hlen1. rewrite L3_bsy in Hlen1.
  set (k' := add_counts _ _ _ _). destruct Hi.
  assert (Hfr : ∀ r l, Forall (page_is k r) l → Forall (page_is k' r) l)
    by (intros r l; by apply pages_frame).
  apply Forall_app in i_empty0 as [He [(i & Hi & Hok & Hf & Hem) _]%Forall_cons].
  split; cbn [links active_pages_nr busy_pages_nr free_pages_nr add_counts set_links pinfo k'];
    rewrite ?i_nact0, ?i_nbsy0, ?i_nfre0, ?u32_small by (cbn [length]; unfold wsize; lia);
    try done; try lia; try (by apply Hfr).
  - by apply (geom_shape k).
  - cbn [drop]. rewrite Forall_singleton. exists i. split; [done|].
    split; [by apply (pinfo_ok_shape k)|]. split; [done|]. intros Hfull.
    pose proof (g_blocks _ i_geom0). specialize (Hfull 0). rewrite Hem in Hfull by (cbn; lia).
    discriminate Hfull. cbn. lia.
  - rewrite app_nil_r. by apply Hfr.
  - set_solver.
  - intros x Hx%i_dom0. set_solver.
  - intros x Hx. apply i_own0. set_solver.
Qed.

(** A page stays full while its blocks stay in use. *)
Lemma full_carry a k k' p rest bsy fre out :
  inv a k (p :: rest) bsy fre out → same_shape k k' → geom k' →
  (∀ x, live k' x ↔ live k x) →
  (∀ i, pinfo k !! p = Some i → full k i) → ∀ i, pinfo k' !! p = Some i → full k' i.
Proof.
  intros Hi (E1 & E2 & _) Hg Hlv Hf i' Hi' j Hj.
  pose proof (i_head _ _ _ _ _ _ Hi) as [(i & Hp & _) _]%Forall_cons.
  assert (live k' (block_addr k' p j)) as (p' & x & j' & Hx & Hj' & Hw & E).
  { apply Hlv. unfold block_addr. rewrite E1. rewrite E2 in Hj.
    exists p, i, j. split_and!; try done; [lia|lia|by apply Hf]. }
  apply block_addr_inj in E as [<- <-]; [|done..]. congruence.
Qed.

Lemma compute_active_page_spec a k p rest bsy fre :
  inv a k (p :: rest) bsy fre [] → (∀ i, pinfo k !! p = Some i → full k i) →
  ∃ a' k' q, compute_active_page a k = Some (a', k', q) ∧ same_shape k k' ∧
    (∀ x, live k' x ↔ live k x) ∧
    ((q = p ∧ rest = [] ∧ inv a' k' [p] bsy [] [] ∧ no_page a' ∧
        (∀ i, pinfo k' !! p = Some i → full k' i)) ∨
     (q ≠ p ∧ ∃ rest' fre', inv a' k' (q :: rest') (p :: bsy) fre' [] ∧
        ∃ i, pinfo k' !! q = Some i ∧ ¬ full k' i)).
Proof.
  intros Hi Hfull. unfold compute_active_page, activelist.
  rewrite (first_page_spec _ _ _ _ _ _ 0 p rest Hi) by (done || lia). cbn [mbind option_bind].
  pose proof (rings_list _ _ _ (i_rings _ _ _ _ _ _ Hi) 0 ltac:(lia)) as Hl. rewrite L3_act in Hl.
  assert (Hnx : list_next (links k) (At (Root 0)) (At (Obj p)) =
                Some (match rest with [] => Null | q :: _ => At (Obj q) end)).
  { rewrite (list_next_spec _ _ [] _ (Obj <$> rest)) by exact Hl. by destruct rest. }
  rewrite Hnx. cbn [mbind option_bind]. clear Hnx Hl. destruct rest as [|q rest].
  - rewrite decide_True by done.
    destruct (freelist_get_spec a k [p] bsy fre Hi) as (a1 & k1 & r & -> & Hsh & Hlv & Hr).
    cbn [mbind option_bind]. destruct r as [q|].
    + destruct Hr as (fre' & Hi1).
      destruct (i_out _ _ _ _ _ _ Hi1 q) as [Hc Hqn]; [set_solver|].
      destruct (rings_add_last (links k1) 3 (L3 [p] bsy fre') 0 q) as (h & -> & Hr & _);
        [apply Hi1|lia|done|done|]. cbn [mbind option_bind].
      assert (Hi2 : inv a1 (add_counts (set_links k1 h) 0 0 1) [p; q] bsy fre' []).
      { apply inv_activate; [done|]. eapply rings_ext; [|exact Hr]. ring_cases. }
      destruct (switch_active_spec _ _ p q [] bsy fre' Hi2) as (k' & -> & Hsh' & Hlv' & Hi' & Hn).
      { eapply full_carry; [exact Hi|exact Hsh|apply Hi2|exact Hlv|done]. }
      cbn [mbind option_bind]. exists a1, k', q. split_and!; try done.
      * by eapply same_shape_trans; [exact Hsh|].
      * intros x. rewrite Hlv'. apply Hlv.
      * right. split; [|eauto].
        eapply (inv_dis _ _ _ _ _ _ 0 1); [exact Hi'|lia..|rewrite L3_act|rewrite L3_bsy]; set_solver.
    + destruct Hr as [Hi1 Hnp]. exists a1, k1, p. split_and!; try done. left. split_and!; try done.
      eapply full_carry; [exact Hi|exact Hsh|apply Hi1|exact Hlv|done].
  - rewrite decide_False by done. cbn [mbind option_bind obj_of].
    destruct (switch_active_spec a k p q rest bsy fre Hi Hfull)
      as (k' & -> & Hsh & Hlv & Hi' & Hn). cbn [mbind option_bind].
    exists a, k', q. split_and!; try done. right. split; [|eauto].
    eapply (inv_dis _ _ _ _ _ _ 0 1); [exact Hi'|lia..|rewrite L3_act|rewrite L3_bsy]; set_solver.
Qed.
End specs.
