(* ===== verification/KcmSpec.v ===== *)
(** * What the caches of objects guarantee

    Specifications of [kcm_alloc], [kcm_free], [kcm_release] and [kcm_init] against the
    set [live] of the blocks in use, a source of pages, and the theorems. *)

From S2P Require Import Prelude Clist Bits Kcm.

Open Scope Z_scope.

Section specs.
Context {A : Type} `{!PageSource A, !PageSourceLaws A}.
Implicit Types (a : A) (k : kcm_s) (act bsy fre out : list Z).

(** A cache between two calls: one page at least is active. *)
Definition kcm_ok a k : Prop :=
  ∃ p rest bsy fre, inv a k (p :: rest) bsy fre [].

(** Every block of every page of the cache is in use. *)
Definition exhausted k : Prop :=
  ∀ p j, is_Some (pinfo k !! p) → 0 ≤ j < blocks_nr k → live k (block_addr k p j).

Lemma exhausted_full a k p bsy :
  inv a k [p] bsy [] [] → (∀ i, pinfo k !! p = Some i → full k i) → exhausted k.
Proof.
  intros Hi Hf q j [i Hq] Hj. exists q, i, j. split_and!; try done; [lia|lia|].
  assert (Hq' : q ∈ [p] ++ bsy ++ [] ++ []) by (eapply i_dom; [exact Hi|eauto]).
  rewrite !app_nil_r in Hq'. apply elem_of_cons in Hq' as [->|Hb]; [by apply Hf|].
  pose proof (i_full _ _ _ _ _ _ Hi) as Hfb. rewrite Forall_forall in Hfb.
  destruct (Hfb q Hb) as (i' & Hq' & _ & _ & Hfull). rewrite Hq in Hq'. injection Hq' as <-.
  by apply Hfull.
Qed.

Lemma kcm_alloc_spec a k :
  kcm_ok a k →
  ∃ a' k' r, kcm_alloc a k = Some (a', k', r) ∧ kcm_ok a' k' ∧ same_shape k k' ∧
    match r with
    | Some ptr => ¬ live k ptr ∧ (∀ x, live k' x ↔ live k x ∨ x = ptr) ∧
        ∃ p j, 0 < p < 2 ^ 20 ∧ 0 ≤ j < blocks_nr k ∧ ptr = block_addr k p j
    | None => (∀ x, live k' x ↔ live k x) ∧ exhausted k' ∧ no_page a'
    end.
Proof.
  intros (p & rest & bsy & fre & Hi). unfold kcm_alloc, activelist.
  rewrite (first_page_spec _ _ _ _ _ _ 0 p rest Hi) by (done || lia). cbn [mbind option_bind].
  destruct (get_block_inv a k p rest bsy fre Hi)
    as [[-> Hfull]|(k' & j & -> & Hsh & Hj & Hi' & Hn & Hlv)]; cbn [mbind option_bind].
  2:{ exists a, k', (Some (block_addr k p j)). split_and!; try done; [by do 4 eexists|].
      exists p, j. split; [|done]. apply (i_own _ _ _ _ _ _ Hi). set_solver. }
  destruct (compute_active_page_spec a k p rest bsy fre Hi Hfull)
    as (a1 & k1 & q & -> & Hsh & Hlv & [(-> & -> & Hi1 & Hnp & Hf1)|
        (Hqp & rest' & fre' & Hi1 & i & Hq & Hnf)]); cbn [mbind option_bind].
  - rewrite Z.eqb_refl. exists a1, k1, None. split_and!; try done; [by do 4 eexists|].
    by eapply exhausted_full.
  - rewrite (proj2 (Z.eqb_neq q p)) by done.
    destruct (get_block_inv a1 k1 q rest' (p :: bsy) fre' Hi1)
      as [[_ Hf]|(k2 & j & -> & Hsh2 & Hj & Hi2 & Hn & Hlv2)];
      [destruct Hnf; by apply Hf|]. cbn [mbind option_bind].
    pose proof Hsh as (E1 & E2 & _).
    exists a1, k2, (Some (block_addr k1 q j)). split_and!; try done.
    + by do 4 eexists.
    + by eapply same_shape_trans.
    + by rewrite <- Hlv.
    + intros x. by rewrite Hlv2, Hlv.
    + exists q, j. rewrite <- E2. unfold block_addr. rewrite E1. split; [|done].
      apply (i_own _ _ _ _ _ _ Hi1). set_solver.
Qed.

(** ** Giving a block back *)

Lemma put_live k k' p i i' j :
  geom k → same_shape k k' → pinfo k !! p = Some i → pinfo k' = <[p := i']> (pinfo k) →
  0 ≤ j < blocks_nr k → wbit (bitmap i) j = false →
  (∀ m, wbit (bitmap i') m = (m =? j) || wbit (bitmap i) m) →
  ∀ q, live k' q ↔ live k q ∧ q ≠ block_addr k p j.
Proof.
  intros Hg Hsh Hi Ep Hj Hw Hbm q.
  destruct (live_flip k' k p i' i j) as [Hn Hl].
  - by apply (geom_shape k).
  - unfold same_shape in *. naive_solver.
  - by rewrite Ep, lookup_insert_eq.
  - rewrite Ep, insert_insert_eq, insert_id; done.
  - destruct Hsh as (_ & -> & _). done.
  - by rewrite Hbm, Z.eqb_refl.
  - intros m. rewrite Hbm. destruct (Z.eqb_spec m j) as [->|]; [done|]. by destruct (wbit _ _).
  - assert (E : block_addr k' p j = block_addr k p j)
      by (unfold block_addr; by destruct Hsh as (-> & _)).
    rewrite E in Hn, Hl. rewrite Hl. split; [|naive_solver]. intros Hq. split; [auto|].
    intros ->. done.
Qed.

(** The cache after page [p], with its new descriptor [i'], went from the lists
    [act], [bsy], [fre] to [act'], [bsy'], [fre']. *)
Lemma inv_rebuild a k k' act bsy fre act' bsy' fre' :
  inv a k act bsy fre [] → same_shape k k' → rings (links k') 3 (L3 act' bsy' fre') →
  active_pages_nr k' = Z.of_nat (length act') →
  busy_pages_nr k' = Z.of_nat (length bsy') →
  free_pages_nr k' = Z.of_nat (length fre') →
  (∀ x, x ∈ act' ++ bsy' ++ fre' ↔ x ∈ act ++ bsy ++ fre) →
  (∀ x, is_Some (pinfo k' !! x) → is_Some (pinfo k !! x)) →
  Forall (page_is k' Head) (take 1 act') → Forall (page_is k' Part) (drop 1 act') →
  Forall (page_is k' Full) bsy' → Forall (page_is k' Empty) fre' →
  inv a k' act' bsy' fre' [].
Proof.
  intros Hi Hsh Hr E1 E2 E3 Hm Hd Hh Hp Hf He.
  pose proof (i_dom _ _ _ _ _ _ Hi) as Hdom. pose proof (i_own _ _ _ _ _ _ Hi) as Hown.
  rewrite app_nil_r in Hdom, Hown.
  split; rewrite ?app_nil_r; try done; try apply Hi.
  - eapply geom_shape; [done|apply Hi].
  - set_solver.
  - intros x Hx. apply Hm, Hdom, Hd, Hx.
  - intros x Hx. apply Hown, Hm, Hx.
Qed.

(** What [put_block] does to the descriptor, when block [j] of page [p] is in use. *)
Lemma put_block_run k p i j :
  geom k → pinfo k !! p = Some i → pinfo_ok k p i → 0 < p < 2 ^ 20 →
  0 ≤ j < blocks_nr k → wbit (bitmap i) j = false →
  ∃ bm, let i' := put_info j bm i in
    let k1 := set_pinfo k (<[p := i']> (pinfo k)) in
    pinfo_ok k p i' ∧ (∀ m, wbit bm m = (m =? j) || wbit (bitmap i) m) ∧
    put_block k (block_addr k p j) =
      (if KCM_PAGE_IS (flags i) KCM_PAGE_BUSY then
         k ← upd_pinfo k1 p (set_flags (KCM_PAGE_CLEAR (flags i) KCM_PAGE_BUSY));
         h ← list_unlink (links k) (At (Obj p));
         h ← list_add_last h activelist (At (Obj p));
         Some (add_counts (set_links k h) 0 (-1) 1)
       else if negb (KCM_PAGE_IS (flags i) KCM_PAGE_ACTIVE) && (refcount i' =? 0) then
         h ← list_unlink (links k1) (At (Obj p));
         h ← list_add_first h freelist (At (Obj p));
         Some (add_counts (set_links k1 h) 1 0 (-1))
       else Some k1).
Proof.
  intros Hg Hp Hok Hpr Hj Hw. pose proof Hg as [Hs Hb _ _ _ _].
  destruct (bitmap_set_spec (bitmap i) j) as (bm & Ebm & Hl & Hbm).
  { unfold bm_bits, CPU_WIDTH. rewrite (pi_len _ _ _ Hok). lia. }
  rewrite (pi_len _ _ _ Hok) in Hl. exists bm. split; [by apply put_info_ok|]. split; [done|].
  destruct (block_addr_page k p j Hg Hj) as (E & Ea & Hlo & Hhi). unfold put_block.
  assert (Ei : u32 (block_addr k p j - blk_tbl i) / size k = j).
  { rewrite Ea, (pi_tbl _ _ _ Hok).
    replace (p * KCM_PAGE_SIZE + 64 + j * size k - (p * KCM_PAGE_SIZE + 64))
      with (j * size k) by lia.
    rewrite u32_small by (unfold wsize, KCM_PAGE_SIZE, PMM_PAGE_SIZE in *; nia).
    by rewrite Z.div_mul by lia. }
  rewrite E, Hp. cbn [mbind option_bind]. rewrite Ei, Ebm. reflexivity.
Qed.

(** The first page stays active. *)
Lemma put_head a k p rest bsy fre i j :
  inv a k (p :: rest) bsy fre [] → pinfo k !! p = Some i →
  0 ≤ j < blocks_nr k → wbit (bitmap i) j = false →
  ∃ k', put_block k (block_addr k p j) = Some k' ∧ same_shape k k' ∧ kcm_ok a k' ∧
    ∀ x, live k' x ↔ live k x ∧ x ≠ block_addr k p j.
Proof.
  intros Hi Hp Hj Hw. destruct (inv_full_page _ _ _ _ _ _ _ _ Hi Hp) as [Hok Hf].
  pose proof (i_geom _ _ _ _ _ _ Hi) as Hg.
  destruct (put_block_run k p i j Hg Hp Hok) as (bm & Hok' & Hbm & ->); [|done..|].
  { apply (i_own _ _ _ _ _ _ Hi). set_solver. }
  rewrite Hf. cbn. eexists. split; [reflexivity|]. split; [by repeat split|]. split.
  - do 4 eexists. by apply inv_head_info.
  - by eapply put_live; [done| |exact Hp|reflexivity|..].
Qed.

(** Page [p] gets the descriptor [i']. *)
Section new_info.
Context (k : kcm_s) (p : Z) (i' : page_info).

Lemma put_frame k' r l :
  blocks_nr k' = blocks_nr k → pinfo k' = <[p := i']> (pinfo k) →
  p ∉ l → Forall (page_is k r) l → Forall (page_is k' r) l.
Proof.
  intros Eb Ep Hl. apply pages_frame; [done|]. intros x Hx. rewrite Ep.
  apply lookup_insert_ne. set_solver.
Qed.

Lemma put_dom k' x :
  is_Some (pinfo k !! p) → pinfo k' = <[p := i']> (pinfo k) → is_Some (pinfo k' !! x) → is_Some (pinfo k !! x).
Proof.
  intros Hd ->. destruct (decide (x = p)) as [->|]; [done|]. by rewrite lookup_insert_ne.
Qed.

(** Page [p] with descriptor [i'], in a cache that has the shape of [k]. *)
Lemma put_page k' r :
  blocks_nr k' = blocks_nr k → pinfo k' = <[p := i']> (pinfo k) →
  pinfo_ok k p i' → role_ok k r i' → page_is k' r p.
Proof.
  intros Eb Ep Hok Hr. exists i'. rewrite Ep. split; [apply lookup_insert_eq|].
  split; [by apply (pinfo_ok_shape k)|by apply (role_ok_shape k)].
Qed.
End new_info.

Section put.
Context (a : A) (k : kcm_s) (act bsy fre : list Z) (p : Z).
Context (Hi : inv a k act bsy fre []).

Lemma put_off r r' :
  0 ≤ r < 3 → 0 ≤ r' < 3 → r ≠ r' → p ∈ L3 act bsy fre r → p ∉ L3 act bsy fre r'.
Proof. intros. intros Hx. by apply (inv_dis _ _ _ _ _ _ r r' p p Hi). Qed.

Lemma put_empty : Forall (page_is k Empty) fre.
Proof. pose proof (i_empty _ _ _ _ _ _ Hi) as He. by rewrite app_nil_r in He. Qed.

Lemma put_lengths :
  Z.of_nat (length act) < 2 ^ 20 ∧ Z.of_nat (length bsy) < 2 ^ 20 ∧
  Z.of_nat (length fre) < 2 ^ 20.
Proof.
  split_and!; [apply (inv_length _ _ _ _ _ _ 0 Hi)|apply (inv_length _ _ _ _ _ _ 1 Hi)
              |apply (inv_length _ _ _ _ _ _ 2 Hi)]; lia.
Qed.

End put.

(** The last block of page [p] came back: it goes to the free list. *)
Lemma put_part_free a k p q l1 l2 bsy fre i' h' k' :
  inv a k (q :: l1 ++ p :: l2) bsy fre [] → is_Some (pinfo k !! p) →
  pinfo_ok k p i' → role_ok k Empty i' →
  rings h' 3 (L3 (q :: l1 ++ l2) bsy (p :: fre)) → p ∉ q :: l1 ++ l2 →
  k' = add_counts (set_links (set_pinfo k (<[p := i']> (pinfo k))) h') 1 0 (-1) →
  inv a k' (q :: l1 ++ l2) bsy (p :: fre) [].
Proof.
  intros Hi Hd Hok Hrole Hr Hpn ->. destruct (put_lengths _ _ _ _ _ Hi) as (Hn0 & Hn1 & Hn2).
  cbn [length] in Hn0. rewrite length_app in Hn0. cbn [length] in Hn0.
  pose proof (i_part _ _ _ _ _ _ Hi) as [Hp1 [_ Hp2]%Forall_cons]%Forall_app.
  eapply inv_rebuild; [exact Hi|by repeat split|exact Hr|..].
  - cbn. rewrite (i_nact _ _ _ _ _ _ Hi). cbn [length]. rewrite !length_app. cbn [length].
    rewrite u32_small; unfold wsize; lia.
  - cbn. rewrite (i_nbsy _ _ _ _ _ _ Hi), u32_small; unfold wsize; lia.
  - cbn. rewrite (i_nfre _ _ _ _ _ _ Hi), u32_small; unfold wsize; lia.
  - set_solver.
  - intros x. by apply (put_dom k p i').
  - apply (put_frame k p i'); [done|done|set_solver|apply (i_head _ _ _ _ _ _ Hi)].
  - apply (put_frame k p i'); [done|done|set_solver|by apply Forall_app].
  - apply (put_frame k p i'); [done|done| |apply Hi].
    apply (put_off _ _ _ _ _ _ Hi 0 1); [lia..|rewrite L3_act; set_solver].
  - constructor; [by apply (put_page k p i')|]. apply (put_frame k p i'); [done|done| |by eapply put_empty].
    apply (put_off _ _ _ _ _ _ Hi 0 2); [lia..|rewrite L3_act; set_solver].
Qed.

(** Page [p] keeps blocks in use and its place. *)
Lemma put_part_stay a k p q l1 l2 bsy fre i' :
  inv a k (q :: l1 ++ p :: l2) bsy fre [] → is_Some (pinfo k !! p) →
  pinfo_ok k p i' → role_ok k Part i' → p ∉ q :: l1 ++ l2 →
  inv a (set_pinfo k (<[p := i']> (pinfo k))) (q :: l1 ++ p :: l2) bsy fre [].
Proof.
  intros Hi Hd Hok Hrole Hpn.
  pose proof (i_part _ _ _ _ _ _ Hi) as [Hp1 [_ Hp2]%Forall_cons]%Forall_app.
  eapply inv_rebuild; [exact Hi|by repeat split|..]; try apply Hi; try done.
  - intros x. by apply (put_dom k p i').
  - apply (put_frame k p i'); [done|done|set_solver|apply (i_head _ _ _ _ _ _ Hi)].
  - cbn [drop]. apply Forall_app.
    split; [apply (put_frame k p i'); [done|done|set_solver|done]|]. constructor; [by apply (put_page k p i')|].
    apply (put_frame k p i'); [done|done|set_solver|done].
  - apply (put_frame k p i'); [done|done| |apply Hi].
    apply (put_off _ _ _ _ _ _ Hi 0 1); [lia..|rewrite L3_act; set_solver].
  - apply (put_frame k p i'); [done|done| |by eapply put_empty].
    apply (put_off _ _ _ _ _ _ Hi 0 2); [lia..|rewrite L3_act; set_solver].
Qed.

(** A page of the active list becomes free when its last block comes back. *)
Lemma put_part a k p q l1 l2 bsy fre i j :
  inv a k (q :: l1 ++ p :: l2) bsy fre [] → pinfo k !! p = Some i →
  0 ≤ j < blocks_nr k → wbit (bitmap i) j = false →
  ∃ k', put_block k (block_addr k p j) = Some k' ∧ same_shape k k' ∧ kcm_ok a k' ∧
    ∀ x, live k' x ↔ live k x ∧ x ≠ block_addr k p j.
Proof.
  intros Hi Hp Hj Hw. pose proof (i_geom _ _ _ _ _ _ Hi) as Hg.
  pose proof (i_part _ _ _ _ _ _ Hi) as [_ [(i0 & Hp0 & Hok & Hf & _) _]%Forall_cons]%Forall_app.
  rewrite Hp in Hp0. injection Hp0 as <-.
  destruct (put_block_run k p i j Hg Hp Hok) as (bm & Hok' & Hbm & ->); [|done..|].
  { apply (i_own _ _ _ _ _ _ Hi). set_solver. }
  rewrite Hf. cbn [KCM_PAGE_IS ctrue Z.land KCM_PAGE_BUSY KCM_PAGE_ACTIVE negb Z.eqb andb].
  set (i' := put_info j bm i) in *. set (k1 := set_pinfo k _).
  destruct (rings_unlink (links k) 3 (L3 (q :: l1 ++ p :: l2) bsy fre) 0 (q :: l1) p l2)
    as (h & Eh & Hr & [Fd _] & Hpn); [apply Hi|lia|done|].
  destruct (Z.eqb_spec (refcount i') 0) as [H0|H0].
  - apply (refcount_0 k p i' Hok') in H0. cbn [links k1 set_pinfo].
    rewrite Eh. cbn [mbind option_bind].
    destruct (rings_add h 3 _ 2 p Hr) as (h' & Eh' & Hr' & _); [lia|done| |].
    { apply Fd. eapply inv_cell; [exact Hi|]. set_solver. }
    unfold list_add_first, freelist. rewrite Eh'. cbn [mbind option_bind].
    eexists. split; [reflexivity|]. split; [by repeat split|].
    split; [|by eapply put_live; [done| |exact Hp|reflexivity|..]].
    do 4 eexists. eapply put_part_free; [exact Hi|by eauto|done|done| |apply (Hpn 0); lia|done].
    eapply rings_ext; [|exact Hr']. ring_cases.
  - exists k1. split; [done|]. split; [by repeat split|].
    split; [|by eapply put_live; [done| |exact Hp|reflexivity|..]].
    do 4 eexists. eapply put_part_stay; [exact Hi|by eauto|done| |apply (Hpn 0); lia].
    split; [exact Hf|]. intros Hfull. specialize (Hfull j Hj). cbn in Hfull.
    by rewrite Hbm, Z.eqb_refl in Hfull.
Qed.

(** A busy page becomes active again. *)
Lemma put_busy_inv a k p q rest l1 l2 fre i' h' k' :
  inv a k (q :: rest) (l1 ++ p :: l2) fre [] → is_Some (pinfo k !! p) →
  pinfo_ok k p i' → role_ok k Part i' →
  rings h' 3 (L3 (q :: rest ++ [p]) (l1 ++ l2) fre) → p ∉ l1 ++ l2 →
  k' = add_counts (set_links (set_pinfo k (<[p := i']> (pinfo k))) h') 0 (-1) 1 →
  inv a k' (q :: rest ++ [p]) (l1 ++ l2) fre [].
Proof.
  intros Hi Hd Hok Hrole Hr Hpn ->. destruct (put_lengths _ _ _ _ _ Hi) as (Hn0 & Hn1 & Hn2).
  rewrite length_app in Hn1. cbn [length] in Hn1, Hn0.
  pose proof (i_full _ _ _ _ _ _ Hi) as [Hp1 [_ Hp2]%Forall_cons]%Forall_app.
  assert (Ha : p ∉ q :: rest).
  { apply (put_off _ _ _ _ _ _ Hi 1 0); [lia..|rewrite L3_bsy; set_solver]. }
  eapply inv_rebuild; [exact Hi|by repeat split|exact Hr|..].
  - cbn. rewrite (i_nact _ _ _ _ _ _ Hi). cbn [length]. rewrite !length_app. cbn [length].
    rewrite u32_small; unfold wsize; lia.
  - cbn. rewrite (i_nbsy _ _ _ _ _ _ Hi), !length_app. cbn [length].
    rewrite u32_small; unfold wsize; lia.
  - cbn. rewrite (i_nfre _ _ _ _ _ _ Hi), u32_small; unfold wsize; lia.
  - set_solver.
  - intros x. by apply (put_dom k p i').
  - apply (put_frame k p i'); [done|done|set_solver|apply (i_head _ _ _ _ _ _ Hi)].
  - cbn [drop]. apply Forall_app. split.
    + apply (put_frame k p i'); [done|done|set_solver|apply (i_part _ _ _ _ _ _ Hi)].
    + rewrite Forall_singleton. by apply (put_page k p i').
  - apply (put_frame k p i'); [done|done|done|by apply Forall_app].
  - apply (put_frame k p i'); [done|done| |by eapply put_empty].
    apply (put_off _ _ _ _ _ _ Hi 1 2); [lia..|rewrite L3_bsy; set_solver].
Qed.

Lemma put_busy a k p q rest l1 l2 fre i j :
  inv a k (q :: rest) (l1 ++ p :: l2) fre [] → pinfo k !! p = Some i →
  0 ≤ j < blocks_nr k → wbit (bitmap i) j = false →
  ∃ k', put_block k (block_addr k p j) = Some k' ∧ same_shape k k' ∧ kcm_ok a k' ∧
    ∀ x, live k' x ↔ live k x ∧ x ≠ block_addr k p j.
Proof.
  intros Hi Hp Hj Hw. pose proof (i_geom _ _ _ _ _ _ Hi) as Hg.
  pose proof (i_full _ _ _ _ _ _ Hi) as [_ [(i0 & Hp0 & Hok & Hf & _) _]%Forall_cons]%Forall_app.
  rewrite Hp in Hp0. injection Hp0 as <-.
  destruct (put_block_run k p i j Hg Hp Hok) as (bm & Hok' & Hbm & ->); [|done..|].
  { apply (i_own _ _ _ _ _ _ Hi). set_solver. }
  rewrite Hf. change (KCM_PAGE_IS KCM_PAGE_BUSY KCM_PAGE_BUSY) with true. cbv iota.
  destruct (rings_unlink (links k) 3 (L3 (q :: rest) (l1 ++ p :: l2) fre) 1 l1 p l2)
    as (h & Eh & Hr & [Fd _] & Hpn); [apply Hi|lia|done|].
  unfold upd_pinfo. cbn [pinfo set_pinfo]. rewrite lookup_insert_eq.
  cbn [mbind option_bind links set_pinfo]. rewrite Eh. cbn [mbind option_bind].
  destruct (rings_add_last h 3 _ 0 p Hr) as (h' & Eh' & Hr' & _); [lia|done| |].
  { apply Fd. eapply inv_cell; [exact Hi|]. set_solver. }
  unfold activelist. rewrite Eh'. cbn [mbind option_bind pinfo set_pinfo].
  rewrite insert_insert_eq. eexists. split; [reflexivity|]. split; [by repeat split|].
  split; [|by eapply put_live; [done| |exact Hp|reflexivity|..]].
  do 4 eexists. eapply put_busy_inv; [exact Hi|by eauto| | | |apply (Hpn 1); lia|reflexivity].
  - by apply set_flags_ok.
  - split; [done|]. intros Hfull. specialize (Hfull j Hj). cbn in Hfull.
    by rewrite Hbm, Z.eqb_refl in Hfull.
  - eapply rings_ext; [|exact Hr']. ring_cases.
Qed.

Lemma kcm_free_spec a k ptr :
  kcm_ok a k → live k ptr →
  ∃ k', kcm_free k ptr = Some k' ∧ same_shape k k' ∧ kcm_ok a k' ∧
    ∀ x, live k' x ↔ live k x ∧ x ≠ ptr.
Proof.
  intros (q & rest & bsy & fre & Hi) (p & i & j & Hp & Hj & Hw & ->).
  pose proof (i_geom _ _ _ _ _ _ Hi) as Hg.
  assert (Hin : p ∈ (q :: rest) ++ bsy ++ fre ++ []) by (eapply i_dom; [exact Hi|eauto]).
  unfold kcm_free. rewrite (proj2 (Z.eqb_neq _ 0)).
  2:{ destruct (block_addr_page k p j Hg Hj) as (_ & -> & ? & _).
      destruct (i_own _ _ _ _ _ _ Hi p Hin). unfold KCM_PAGE_SIZE, PMM_PAGE_SIZE. lia. }
  rewrite app_nil_r, !elem_of_app, elem_of_cons in Hin.
  destruct Hin as [[->|(l1 & l2 & ->)%list_elem_of_split]|[(l1 & l2 & ->)%list_elem_of_split|Hfr]].
  - by eapply put_head.
  - by eapply put_part.
  - by eapply put_busy.
  - pose proof (put_empty _ _ _ _ _ Hi) as He. rewrite Forall_forall in He.
    destruct (He p Hfr) as (i' & Hp' & _ & _ & Hem). rewrite Hp in Hp'. injection Hp' as <-.
    by rewrite Hem in Hw.
Qed.

(** ** Giving free pages back *)

Lemma inv_release a a' k act bsy p fre h t :
  inv a k act bsy (p :: fre) [] → rings h 3 (L3 act bsy fre) →
  (∀ r, 0 ≤ r < 3 → p ∉ L3 act bsy fre r) → ps_inv a' →
  (∀ x, ps_owned a' x ↔ ps_owned a x ∧ x ≠ p) →
  let k1 := set_trace (add_counts (set_links k h) (-1) 0 0) t in
  let k' := set_pinfo k1 (delete p (pinfo k1)) in
  inv a' k' act bsy fre [] ∧ ∀ x, live k' x ↔ live k x.
Proof.
  intros Hi Hr Hp Hps Hown k1 k'. destruct (put_lengths _ _ _ _ _ Hi) as (Hn0 & Hn1 & Hn2).
  pose proof (put_empty _ _ _ _ _ Hi) as [(ip & Hip & _ & _ & Hem) He]%Forall_cons.
  assert (Hfr : ∀ r l, p ∉ l → Forall (page_is k r) l → Forall (page_is k' r) l).
  { intros r l Hl. apply pages_frame; [done|]. intros x Hx. cbn. apply lookup_delete_ne. set_solver. }
  pose proof (Hp 0 ltac:(lia)) as Hp0. pose proof (Hp 1 ltac:(lia)) as Hp1.
  pose proof (Hp 2 ltac:(lia)) as Hp2. rewrite L3_act in Hp0. rewrite L3_bsy in Hp1. rewrite L3_fre in Hp2.
  pose proof (i_dom _ _ _ _ _ _ Hi) as Hdom. pose proof (i_own _ _ _ _ _ _ Hi) as How.
  rewrite app_nil_r in Hdom, How. split.
  - split; rewrite ?app_nil_r; try done.
    + apply (geom_shape k); [by repeat split|apply Hi].
    + cbn. rewrite (i_nact _ _ _ _ _ _ Hi), u32_small; unfold wsize; lia.
    + cbn. rewrite (i_nbsy _ _ _ _ _ _ Hi), u32_small; unfold wsize; lia.
    + cbn. rewrite (i_nfre _ _ _ _ _ _ Hi). cbn [length] in *.
      rewrite u32_small; unfold wsize; lia.
    + apply Hfr; [intros ?%elem_of_take_1; set_solver|apply Hi].
    + apply Hfr; [intros ?%elem_of_drop_1; set_solver|apply Hi].
    + apply Hfr; [done|apply Hi].
    + by apply Hfr.
    + set_solver.
    + intros x. cbn. intros [i [Hne Hx]%lookup_delete_Some].
      assert (x ∈ act ++ bsy ++ p :: fre) by (apply Hdom; eauto). set_solver.
    + intros x Hx. rewrite Hown. assert (x ≠ p) by set_solver.
      destruct (How x); [set_solver|done].
  - intros x. split.
    + intros (q & i & j & Hq & Hj & Hw & ->). cbn in Hq. apply lookup_delete_Some in Hq as [_ Hq].
      by exists q, i, j.
    + intros (q & i & j & Hq & Hj & Hw & ->). exists q, i, j. split; [|split; [exact Hj|split; [exact Hw|reflexivity]]].
      cbn. rewrite lookup_delete_ne; [done|]. intros <-. rewrite Hip in Hq. injection Hq as <-.
      by rewrite Hem in Hw.
Qed.

Lemma release_leaves e a k a' k' :
  release_body e (a, k) = Some (a', k', true) →
  a' = a ∧ k' = k ∧ free_pages_nr k ≤ free_pages_min k.
Proof.
  unfold release_body. destruct (Z.leb_spec (free_pages_nr k) (free_pages_min k)) as [Hle|_].
  - intros [= -> ->]. done.
  - intros E. inv_option E. discriminate E.
Qed.

Lemma release_body_spec a k act bsy p fre :
  inv a k act bsy (p :: fre) [] →
  (free_pages_nr k ≤ free_pages_min k ∧ release_body (Obj p) (a, k) = Some (a, k, true)) ∨
  ∃ a' k', free_pages_min k < free_pages_nr k ∧
    release_body (Obj p) (a, k) = Some (a', k', false) ∧ inv a' k' act bsy fre [] ∧
    same_shape k k' ∧ (∀ x, live k' x ↔ live k x) ∧ free_pages_nr k' = free_pages_nr k - 1.
Proof.
  intros Hi. unfold release_body.
  destruct (Z.leb_spec (free_pages_nr k) (free_pages_min k)) as [Hle|Hgt]; [by left|right].
  cbn [obj_of mbind option_bind].
  destruct (rings_unlink (links k) 3 (L3 act bsy (p :: fre)) 2 [] p fre)
    as (h & -> & Hr & _ & Hp); [apply Hi|lia|done|]. cbn [mbind option_bind].
  destruct (ps_free_law a p) as (a' & -> & Hps & Hown);
    [apply Hi|apply (i_own _ _ _ _ _ _ Hi); set_solver|]. cbn [mbind option_bind].
  assert (Hext : ∀ r, 0 ≤ r < 3 → upd_ring (L3 act bsy (p :: fre)) 2 fre r = L3 act bsy fre r)
    by ring_cases.
  eexists a', _. split; [done|]. split; [reflexivity|].
  edestruct (inv_release a a' k act bsy p fre h) as [Hi' Hlv]; [exact Hi|..|done|done|].
  - by eapply rings_ext; [exact Hext|].
  - intros r Hr'. rewrite <- Hext by done. by apply Hp.
  - split; [exact Hi'|]. split; [by repeat split|]. split; [exact Hlv|].
    destruct (put_lengths _ _ _ _ _ Hi) as (_ & _ & Hn). cbn.
    rewrite (i_nfre _ _ _ _ _ _ Hi) in *. cbn [length] in *. rewrite u32_small; unfold wsize; lia.
Qed.

Lemma kcm_release_spec a k :
  kcm_ok a k →
  ∃ a' k', kcm_release (S (Z.to_nat (free_pages_nr k))) a k = Some (a', k') ∧
    kcm_ok a' k' ∧ same_shape k k' ∧ (∀ x, live k' x ↔ live k x) ∧
    free_pages_nr k' = Z.min (free_pages_nr k) (free_pages_min k).
Proof.
  intros (p0 & rest & bsy & fre & Hi).
  set (I := λ (L : list lnode) (st : A * kcm_s), ∃ fre, L = Obj <$> fre ∧
    inv st.1 st.2 (p0 :: rest) bsy fre [] ∧ same_shape k st.2 ∧
    (∀ x, live st.2 x ↔ live k x) ∧
    Z.min (free_pages_nr st.2) (free_pages_min k) = Z.min (free_pages_nr k) (free_pages_min k)).
  destruct (list_foreach_while (λ st : A * kcm_s, links st.2) release_body (Root 2) I
              (Obj <$> fre) (a, k)) as ([a' k'] & l' & E & (fre' & -> & Hi' & Hsh & Hlv & Hmin) & Hend).
  - intros l [a1 k1] (fr & -> & Hi1 & _). exact (rings_list _ _ _ (i_rings _ _ _ _ _ _ Hi1) 2 ltac:(lia)).
  - intros e l [a1 k1] (fr & Efr & Hi1 & Hsh & Hlv & Hmin). cbn [fst snd] in *.
    destruct fr as [|p fr]; [done|]. injection Efr as -> ->.
    destruct (release_body_spec a1 k1 (p0 :: rest) bsy p fr Hi1)
      as [[Hle ->]|(a2 & k2 & Hgt & -> & Hi2 & Hsh2 & Hlv2 & Hn2)].
    + exists (a1, k1), true. split; [done|]. exists (p :: fr). done.
    + exists (a2, k2), false. split; [done|]. exists fr. split_and!; try done.
      * by eapply same_shape_trans.
      * intros x. by rewrite Hlv2, Hlv.
      * pose proof Hsh as (_ & _ & _ & Em & _). cbn in *. lia.
  - exists fre. by split_and!.
  - exists a', k'. rewrite length_fmap in E. pose proof (i_nfre _ _ _ _ _ _ Hi) as Hn.
    replace (Z.to_nat (free_pages_nr k)) with (length fre) by lia.
    split; [exact E|]. split; [by do 4 eexists|]. split_and!; [done..|].
    cbn [fst snd] in *. pose proof (i_nfre _ _ _ _ _ _ Hi') as Hn'.
    pose proof (g_min _ (i_geom _ _ _ _ _ _ Hi)) as Hm.
    destruct Hend as [Hnil|(x & l'' & [a0 k0] & Hcons & Hb)].
    + destruct fre'; [|done]. cbn in Hn'. lia.
    + apply release_leaves in Hb as (-> & -> & Hle). destruct Hsh as (_ & _ & _ & Em & _). lia.
Qed.

(** ** Initialisation *)

Definition align_ok (sz al : Z) : Prop := kcm_align al = 64 ∨ (kcm_align al = 32 ∧ 32 < sz).

(** With the default alignment, or blocks of more than 32 bytes, the blocks of a page
    and its descriptor fit the page. *)
Lemma init_geometry sz al :
  0 < sz ≤ 4032 → align_ok sz al →
  let S := ARROUND_UP sz (kcm_align al) in
  sz ≤ S ∧ 1 ≤ kcm_blocks S ≤ 127 ∧ 64 + kcm_blocks S * S ≤ KCM_PAGE_SIZE.
Proof.
  intros Hsz Hal S.
  assert (HS : (32 | S) ∧ 64 ≤ S ≤ 4032 ∧ sz ≤ S).
  { unfold S. destruct Hal as [-> | [-> H32]].
    - destruct (ARROUND_UP_spec sz 6) as [[m Hm] Hb]; [lia|lia|unfold wsize; lia|].
      change (2 ^ 6) with 64 in *. split_and!; [exists (2 * m); lia|lia..].
    - destruct (ARROUND_UP_spec sz 5) as [[m Hm] Hb]; [lia|lia|unfold wsize; lia|].
      change (2 ^ 5) with 32 in *. split_and!; [exists m; lia|lia..]. }
  destruct HS as ([m Hm] & HS & Hle). unfold kcm_blocks, KCM_PAGE_SIZE, PMM_PAGE_SIZE.
  pose proof (Z.div_mod 0x1000 S ltac:(lia)) as Hdm.
  pose proof (Z.mod_pos_bound 0x1000 S ltac:(lia)) as Hmod.
  set (n := 0x1000 / S) in *. set (r := 0x1000 mod S) in *.
  assert (1 ≤ n) by nia. assert (n ≤ 64) by nia. unfold sizeof_page_info.
  destruct (Z.leb_spec 40 r).
  - assert (64 ≤ r) by (assert (r = 32 * (128 - n * m)) by nia; lia). split_and!; lia.
  - assert (n ≠ 1) by nia. rewrite u32_small by (unfold wsize; lia).
    assert (64 + (n - 1) * S ≤ n * S) by lia. split_and!; lia.
Qed.

(** The first page of a new cache. *)
Lemma inv_first_page a k q fre h :
  inv a k [] [] fre [q] → rings h 3 (L3 [q] [] fre) →
  ∃ k', upd_pinfo (set_links k h) q (set_flags KCM_PAGE_ACTIVE) = Some k' ∧
    inv a (add_counts k' 0 0 1) [q] [] fre [] ∧
    same_shape k (add_counts k' 0 0 1) ∧ ∀ x, live (add_counts k' 0 0 1) x ↔ live k x.
Proof.
  intros Hi Hr.
  pose proof (inv_length _ _ _ _ _ _ 2 Hi ltac:(lia)) as Hn. rewrite L3_fre in Hn.
  destruct (i_out _ _ _ _ _ _ Hi q) as [_ Hq]; [set_solver|].
  specialize (Hq 2 ltac:(lia)). rewrite L3_fre in Hq.
  pose proof (i_empty _ _ _ _ _ _ Hi) as [He [(i & Hp & Hok & Hf & Hem) _]%Forall_cons]%Forall_app.
  unfold upd_pinfo. cbn [pinfo set_links]. rewrite Hp. cbn [mbind option_bind].
  eexists. split; [reflexivity|]. set (k' := add_counts _ _ _ _).
  assert (Hsh : same_shape k k') by (by repeat split). split; [|split; [done|]].
  2:{ by eapply live_bits; [done|exact Hp|reflexivity|]. }
  split; rewrite ?app_nil_r; cbn [app]; try done.
  - apply (geom_shape k); [done|apply Hi].
  - apply Hi.
  - cbn. rewrite (i_nact _ _ _ _ _ _ Hi). done.
  - cbn. rewrite (i_nbsy _ _ _ _ _ _ Hi). done.
  - cbn. rewrite (i_nfre _ _ _ _ _ _ Hi), u32_small; unfold wsize; lia.
  - cbn [take]. rewrite Forall_singleton. apply (put_page k q (set_flags KCM_PAGE_ACTIVE i)); try done.
    by apply set_flags_ok.
  - by apply (put_frame k q (set_flags KCM_PAGE_ACTIVE i)).
  - set_solver.
  - intros x Hx. apply (put_dom k q (set_flags KCM_PAGE_ACTIVE i)) in Hx; [|by eauto|done].
    apply (i_dom _ _ _ _ _ _ Hi) in Hx. set_solver.
  - intros x Hx. apply (i_own _ _ _ _ _ _ Hi). set_solver.
Qed.

Lemma kcm_init_spec a sz al fmin fmax ctor dtor h :
  ps_inv a → 0 < sz ≤ 4032 → align_ok sz al → 0 ≤ fmin → 2 ≤ u32 (fmin + fmax) →
  (∀ r, 0 ≤ r < 3 → is_Some (h !! Root r)) →
  ∃ a' k' ok, kcm_init a sz al fmin fmax ctor dtor h = Some (a', k', ok) ∧
    size k' = ARROUND_UP sz (kcm_align al) ∧ (∀ x, ¬ live k' x) ∧
    if ok then kcm_ok a' k' else no_page a'.
Proof.
  intros Hps Hsz Hal Hmin Hmark Hh.
  destruct (init_geometry sz al Hsz Hal) as (Hle & Hb & Hfit).
  unfold kcm_init, freelist, activelist, busylist.
  set (S := ARROUND_UP sz (kcm_align al)) in *.
  destruct (olist_root_init h 2 (Hh 2 ltac:(lia))) as (h1 & -> & Hl1 & F1). cbn [mbind option_bind].
  destruct (olist_root_init h1 0) as (h2 & -> & Hl2 & F2);
    [apply (proj1 F1), Hh; lia|]. cbn [mbind option_bind].
  destruct (olist_root_init h2 1) as (h3 & -> & Hl3 & F3);
    [apply (proj1 F2), (proj1 F1), Hh; lia|]. cbn [mbind option_bind].
  set (k0 := Kcm S (kcm_blocks S) (kcm_align al) 0 fmin fmax 0 0 ctor dtor h3 ∅ []).
  assert (Hi : inv a k0 [] [] [] []).
  { split; try done; try (intros ? []%elem_of_nil).
    - split; cbn; try done; try lia. destruct Hal as [| []]; auto.
    - split; [|intros r r' x _ _ Hx; unfold L3 in Hx; destruct (r =? 0), (r =? 1); set_solver].
      intros r Hr. cbn [links k0]. assert (r = 0 ∨ r = 1 ∨ r = 2) as [-> | [-> | ->]] by lia.
      + apply (olist_frame h2 h3 0 1 [] []); [exact F3|lia|set_solver|done].
      + done.
      + apply (olist_frame h2 h3 2 1 [] []); [exact F3|lia|set_solver|].
        apply (olist_frame h1 h2 2 0 [] []); [exact F2|lia|set_solver|done].
    - intros p [i Hp]. cbn in Hp. by rewrite lookup_empty in Hp. }
  assert (Hnl : ∀ x, ¬ live k0 x) by (intros x (p & i & j & Hp & _); cbn in Hp; by rewrite lookup_empty in Hp).
  destruct (freelist_get_spec a k0 [] [] [] Hi) as (a' & k1 & r & -> & Hsh & Hlv & Hr).
  cbn [mbind option_bind]. pose proof Hsh as (E1 & _).
  destruct r as [q|].
  - destruct Hr as (fre' & Hi1).
    destruct (i_out _ _ _ _ _ _ Hi1 q) as [Hc Hqn]; [set_solver|].
    destruct (rings_add (links k1) 3 (L3 [] [] fre') 0 q) as (h4 & Eh & Hr & _);
      [apply Hi1|lia|done|done|].
    rewrite Eh. cbn [mbind option_bind].
    pose proof (i_empty _ _ _ _ _ _ Hi1) as [_ [(i & Hp & _ & Hf & _) _]%Forall_cons]%Forall_app.
    rewrite Hp. cbn [mbind option_bind]. rewrite Hf.
    change (KCM_PAGE_SET 0 KCM_PAGE_ACTIVE) with KCM_PAGE_ACTIVE.
    destruct (inv_first_page a' k1 q fre' h4 Hi1) as (k2 & -> & Hi2 & Hsh2 & Hlv2).
    { eapply rings_ext; [|exact Hr]. ring_cases. }
    cbn [mbind option_bind]. eexists a', _, true. split; [reflexivity|].
    split; [destruct Hsh2 as (-> & _); exact E1|].
    split; [intros x; rewrite Hlv2, Hlv; apply Hnl|by do 4 eexists].
  - destruct Hr as [_ Hnp]. exists a', k1, false. split; [done|]. split; [exact E1|].
    split; [|done]. intros x. rewrite Hlv. apply Hnl.
Qed.
End specs.

(** ** The cache and its clients *)

Module KcmSys.
Section sys.
Context {A : Type} `{!PageSource A, !PageSourceLaws A}.

(** The source of pages, the cache and the blocks in the hands of clients. *)
Definition state : Type := A * kcm_s * gset Z.

(** [None] is a fault of the kernel. *)
Inductive step : state → option state → Prop :=
| s_alloc a k own :
    step (a, k, own)
      ('(a', k', r) ← kcm_alloc a k;
       Some (a', k', match r with Some ptr => {[ptr]} ∪ own | None => own end))
| s_free a k own ptr :
    ptr ∈ own →
    step (a, k, own) (k' ← kcm_free k ptr; Some (a, k', own ∖ {[ptr]}))
| s_release a k own :
    step (a, k, own)
      ('(a', k') ← kcm_release (S (Z.to_nat (free_pages_nr k))) a k; Some (a', k', own)).

Inductive run : state → state → Prop :=
| r_nil s : run s s
| r_step s s1 s2 : run s s1 → step s1 (Some s2) → run s s2.

Definition sys_inv (s : state) : Prop :=
  let '(a, k, own) := s in kcm_ok a k ∧ ∀ x, live k x ↔ x ∈ own.

(** Blocks in use do not overlap, lie inside one page each, and past its descriptor. *)
Definition safe (s : state) : Prop :=
  let '(_, k, own) := s in
  (∀ x, x ∈ own → page_of (x + size k - 1) = page_of x ∧
                  page_of x * KCM_PAGE_SIZE + sizeof_page_info ≤ x) ∧
  (∀ x y, x ∈ own → y ∈ own → x ≠ y → x + size k ≤ y ∨ y + size k ≤ x).

Lemma kcm_inv_safe s : sys_inv s → safe s.
Proof.
  destruct s as [[a k] own]. intros [(p & rest & bsy & fre & Hi) Hl].
  pose proof (i_geom _ _ _ _ _ _ Hi) as Hg. pose proof (g_size _ Hg) as Hs.
  assert (Hb : ∀ x, x ∈ own → ∃ q j, 0 ≤ j < blocks_nr k ∧ x = block_addr k q j).
  { intros x (q & i & j & _ & Hj & _ & ->)%Hl. eauto. }
  split.
  - intros x (q & j & Hj & ->)%Hb. destruct (block_addr_page k q j Hg Hj) as (-> & -> & H1 & H2).
    unfold page_of, sizeof_page_info.
    replace (q * KCM_PAGE_SIZE + 64 + j * size k + size k - 1)
      with (q * KCM_PAGE_SIZE + (64 + (j + 1) * size k - 1)) by lia.
    rewrite Z.div_add_l, Z.div_small by (unfold KCM_PAGE_SIZE, PMM_PAGE_SIZE in *; nia).
    split; [lia|nia].
  - intros x y (q & j & Hj & ->)%Hb (q' & j' & Hj' & ->)%Hb Hne.
    destruct (block_addr_page k q j Hg Hj) as (_ & Ex & H1 & H2).
    destruct (block_addr_page k q' j' Hg Hj') as (_ & Ey & H3 & H4).
    rewrite Ex, Ey in *. unfold KCM_PAGE_SIZE, PMM_PAGE_SIZE in *.
    destruct (Z.lt_trichotomy q q') as [?|[->|?]]; [left; lia| |right; lia].
    destruct (Z.lt_trichotomy j j') as [?|[->|?]]; [left; nia|done|right; nia].
Qed.

Lemma kcm_step_inv s o : step s o → sys_inv s → ∃ s', o = Some s' ∧ sys_inv s'.
Proof.
  intros [a k own|a k own ptr Hp|a k own] [Hok Hl].
  - destruct (kcm_alloc_spec a k Hok) as (a' & k' & r & -> & Hok' & _ & Hr). cbn.
    eexists. split; [reflexivity|]. split; [done|]. intros x. destruct r as [ptr|].
    + destruct Hr as (_ & -> & _). rewrite Hl. set_solver.
    + destruct Hr as [-> _]. apply Hl.
  - destruct (kcm_free_spec a k ptr Hok) as (k' & -> & _ & Hok' & Hl'); [by apply Hl|]. cbn.
    eexists. split; [reflexivity|]. split; [done|]. intros x. rewrite Hl', Hl. set_solver.
  - destruct (kcm_release_spec a k Hok) as (a' & k' & -> & Hok' & _ & Hl' & _). cbn.
    eexists. split; [reflexivity|]. split; [done|]. intros x. by rewrite Hl'.
Qed.

Lemma kcm_run_inv s s' : run s s' → sys_inv s → sys_inv s'.
Proof.
  induction 1 as [|s s1 s2 _ IH Hst]; [done|]. intros Hi.
  by destruct (kcm_step_inv _ _ Hst (IH Hi)) as (? & [= <-] & ?).
Qed.

(** Executions given by a list of calls. *)
Inductive cmd := Alloc | Free (ptr : Z) | Release.

Definition exec1 (c : cmd) (s : state) : option state :=
  let '(a, k, own) := s in
  match c with
  | Alloc =>
      '(a', k', r) ← kcm_alloc a k;
      Some (a', k', match r with Some ptr => {[ptr]} ∪ own | None => own end)
  | Free ptr =>
      if bool_decide (ptr ∈ own) then k' ← kcm_free k ptr; Some (a, k', own ∖ {[ptr]}) else None
  | Release => '(a', k') ← kcm_release (S (Z.to_nat (free_pages_nr k))) a k; Some (a', k', own)
  end.

Fixpoint exec (l : list cmd) (s : state) : option state :=
  match l with [] => Some s | c :: l => s ← exec1 c s; exec l s end.

Lemma exec_run l s0 s s' : run s0 s → exec l s = Some s' → run s0 s'.
Proof.
  revert s. induction l as [|c l IH]; intros s Hr E; [by injection E as <-|]. cbn in E.
  destruct (exec1 c s) as [s1|] eqn:Ec; [|done]. apply (IH s1); [|done].
  eapply r_step; [exact Hr|]. destruct s as [[a k] own], c; cbn [exec1] in Ec.
  - rewrite <- Ec. apply s_alloc.
  - case_bool_decide; [|done]. rewrite <- Ec. by apply s_free.
  - rewrite <- Ec. apply s_release.
Qed.
End sys.
End KcmSys.

(** ** A source of pages

    Pages are taken from a list and returned to it; their contents are never cleared. *)
Record page_pool := Pool { fresh : list Z; taken : gset Z }.

Definition pool_alloc (a : page_pool) : page_pool * option Z :=
  match fresh a with
  | [] => (a, None)
  | p :: l => (Pool l ({[p]} ∪ taken a), Some p)
  end.

Definition pool_free (a : page_pool) (p : Z) : option page_pool :=
  if decide (p ∈ taken a) then Some (Pool (p :: fresh a) (taken a ∖ {[p]})) else None.

Definition pool_inv (a : page_pool) : Prop :=
  NoDup (fresh a) ∧ (∀ p, p ∈ fresh a → 0 < p < 2 ^ 20 ∧ p ∉ taken a) ∧
  (∀ p, p ∈ taken a → 0 < p < 2 ^ 20).

#[export] Instance pool_source : PageSource page_pool := {
  ps_inv := pool_inv; ps_owned a p := p ∈ taken a; ps_alloc := pool_alloc;
  ps_free := pool_free; ps_stale _ p := replicate 4 (u32 (p * 0x9e3779b1)) }.

#[export] Instance pool_laws : PageSourceLaws page_pool.
Proof.
  split; cbn.
  - intros [[|p l] t] (Hnd & Hf & Ht); cbn in *; [by split_and!|].
    apply NoDup_cons in Hnd as [Hp Hnd]. destruct (Hf p) as [Hr Hpt]; [set_solver|].
    split; [|set_solver]. split_and!; cbn; [done| |set_solver].
    intros q Hq. destruct (Hf q); [set_solver|]. set_solver.
  - intros [l t] q (Hnd & Hf & Ht) Hq. unfold pool_free. cbn in *. rewrite decide_True by done.
    eexists. split; [done|]. split; [|set_solver].
    split_and!; cbn; [|intros p [->|Hp]%elem_of_cons|set_solver].
    + constructor; [|done]. intros Hin. by destruct (Hf q Hin).
    + specialize (Ht q Hq). set_solver.
    + destruct (Hf p Hp). set_solver.
  - done.
Qed.

(** ** Theorems *)

Definition ex_pool : page_pool := Pool [5; 6; 7] ∅.
(** Memory with the roots of the lists of a cache. *)
Definition ex_roots : gmap lnode (list_entry lnode) :=
  list_to_map ((λ r, (Root r, Entry Null Null)) <$> [0; 1; 2]).
(** A cache of objects of 100 bytes, whose objects have a constructor and a destructor. *)
Definition ex_cache (ctor dtor : bool) : option (page_pool * kcm_s * bool) :=
  kcm_init ex_pool 100 0 0 2 ctor dtor ex_roots.

Lemma ex_pool_inv : ps_inv ex_pool.
Proof.
  split_and!; cbn.
  - repeat (apply NoDup_cons; split; [set_solver|]). by apply NoDup_nil.
  - intros p Hp. rewrite !elem_of_cons, elem_of_nil in Hp. split; [lia|set_solver].
  - set_solver.
Qed.

Lemma ex_roots_ok r : 0 ≤ r < 3 → is_Some (ex_roots !! Root r).
Proof. intros Hr. assert (r = 0 ∨ r = 1 ∨ r = 2) as [-> | [-> | ->]] by lia; by eexists. Qed.

(** C14. From a successful [kcm_init], whatever sequence of allocations, releases of blocks in
    use and [kcm_release] the clients make, no call faults, the blocks in use are pairwise
    disjoint and each lies inside one page, past the descriptor of that page.  The cache is one
    whose blocks fit: objects of 1 to 4032 bytes, and, when the alignment is 32, of more than 32
    bytes, since the blocks of a page overflow it otherwise ([kcm_small_blocks_overflow]); and the
    two watermarks add up to 2 at least. *)
Theorem kcm_system_safe {A} `{!PageSource A, !PageSourceLaws A}
    (a : A) sz al fmin fmax ctor dtor h a' k s :
  ps_inv a → 0 < sz ≤ 4032 → align_ok sz al → 0 ≤ fmin → 2 ≤ u32 (fmin + fmax) →
  (∀ r, 0 ≤ r < 3 → is_Some (h !! Root r)) →
  kcm_init a sz al fmin fmax ctor dtor h = Some (a', k, true) →
  KcmSys.run (a', k, ∅) s →
  KcmSys.safe s ∧ ∀ o, KcmSys.step s o → o ≠ None.
Proof.
  intros Hps Hsz Hal Hmin Hmark Hh Ei Hrun.
  destruct (kcm_init_spec a sz al fmin fmax ctor dtor h)
    as (a1 & k1 & ok & E & _ & Hnl & Hok); [done..|].
  rewrite E in Ei. injection Ei as -> -> ->.
  assert (KcmSys.sys_inv s) as Hi.
  { eapply KcmSys.kcm_run_inv; [exact Hrun|]. split; [done|]. intros x. set_solver. }
  split; [by apply KcmSys.kcm_inv_safe|].
  intros o Hst. by destruct (KcmSys.kcm_step_inv _ _ Hst Hi) as (? & -> & _).
Qed.

(** Three allocations, the release of the second block, a shrinking and an allocation. *)
Definition ex_calls : option (page_pool * kcm_s * gset Z) :=
  '(a, k, _) ← ex_cache true true;
  KcmSys.exec [KcmSys.Alloc; KcmSys.Alloc; KcmSys.Alloc; KcmSys.Free (5 * 4096 + 64 + 128);
               KcmSys.Release; KcmSys.Alloc] (a, k, ∅).

Lemma ex_calls_facts :
  (snd <$> ex_cache true true, (λ s, elements s.2) <$> ex_calls) =
  (Some true, Some (elements (list_to_set [20544; 20800; 20672] : gset Z))).
Proof. vm_compute. reflexivity. Qed.

Lemma kcm_system_safe_witness :
  ∃ s, ex_calls = Some s ∧ elements s.2 = elements (list_to_set [20544; 20800; 20672] : gset Z) ∧
    KcmSys.safe s.
Proof.
  pose proof ex_calls_facts as Hf. unfold ex_calls in *.
  destruct (ex_cache true true) as [[[a k] ok]|] eqn:E; [|discriminate Hf].
  cbn [mbind option_bind] in Hf |- *. cbn [fmap option_fmap option_map snd] in Hf.
  destruct (KcmSys.exec _ _) as [s|] eqn:Ex; [|discriminate Hf]. injection Hf as Hok Hown.
  exists s. split; [reflexivity|]. split; [exact Hown|]. rewrite Hok in E.
  refine (proj1 (kcm_system_safe ex_pool 100 0 0 2 true true ex_roots a k s _ _ _ _ _ _ E _)).
  - apply ex_pool_inv.
  - lia.
  - left. reflexivity.
  - lia.
  - by vm_compute.
  - apply ex_roots_ok.
  - exact (KcmSys.exec_run _ _ _ _ (KcmSys.r_nil _) Ex).
Defined.

(** An allocation returns a block that was not in use and changes the set of the blocks in
    use by that block only.  It returns NULL only when all the blocks of all the pages of
    the cache are in use and no page can be had. *)
Theorem kcm_alloc_correct {A} `{!PageSource A, !PageSourceLaws A} (a : A) k :
  kcm_ok a k →
  ∃ a' k' r, kcm_alloc a k = Some (a', k', r) ∧ kcm_ok a' k' ∧
    match r with
    | Some ptr => ¬ live k ptr ∧ ∀ x, live k' x ↔ live k x ∨ x = ptr
    | None => (∀ x, live k' x ↔ live k x) ∧ exhausted k' ∧ no_page a'
    end.
Proof.
  intros Hok. destruct (kcm_alloc_spec a k Hok) as (a' & k' & r & E & Hok' & _ & Hr).
  exists a', k', r. split_and!; [done..|]. destruct r; [|done]. by destruct Hr as (? & ? & _).
Qed.

Lemma kcm_alloc_correct_witness :
  ∃ a k, ex_cache false false = Some (a, k, true) ∧
  ∃ a' k' r, kcm_alloc a k = Some (a', k', r) ∧ kcm_ok a' k' ∧
    match r with
    | Some ptr => ¬ live k ptr ∧ ∀ x, live k' x ↔ live k x ∨ x = ptr
    | None => (∀ x, live k' x ↔ live k x) ∧ exhausted k' ∧ no_page a'
    end.
Proof.
  destruct (kcm_init_spec ex_pool 100 0 0 2 false false ex_roots)
    as (a & k & ok & E & _ & _ & Hok); [apply ex_pool_inv|lia|left; reflexivity|lia
      |by vm_compute|apply ex_roots_ok|].
  assert (ok = true) as ->.
  { assert (Hs : snd <$> ex_cache false false = Some true) by (vm_compute; reflexivity).
    unfold ex_cache in Hs. rewrite E in Hs. by injection Hs. }
  exists a, k. split; [exact E|]. exact (kcm_alloc_correct a k Hok).
Defined.

(** A block that is allocated and given back leaves the same blocks in use. *)
Theorem kcm_alloc_free_roundtrip {A} `{!PageSource A, !PageSourceLaws A} (a a' : A) k k' ptr :
  kcm_ok a k → kcm_alloc a k = Some (a', k', Some ptr) →
  ∃ k'', kcm_free k' ptr = Some k'' ∧ kcm_ok a' k'' ∧ ∀ x, live k'' x ↔ live k x.
Proof.
  intros Hok E. destruct (kcm_alloc_spec a k Hok) as (a1 & k1 & r & E1 & Hok1 & _ & Hr).
  rewrite E in E1. injection E1 as <- <- <-. destruct Hr as (Hn & Hl & _).
  destruct (kcm_free_spec a' k' ptr Hok1) as (k'' & -> & _ & Hok2 & Hl2); [apply Hl; auto|].
  exists k''. split_and!; [done..|]. intros x. rewrite Hl2, Hl.
  split; [|intros Hx; split; [auto|congruence]]. intros [[?|?] ?]; [done|congruence].
Qed.

Lemma kcm_alloc_free_roundtrip_witness :
  ∃ a k a' k' ptr, kcm_alloc a k = Some (a', k', Some ptr) ∧
  ∃ k'', kcm_free k' ptr = Some k'' ∧ kcm_ok (a' : page_pool) k'' ∧ ∀ x, live k'' x ↔ live k x.
Proof.
  destruct (kcm_init_spec ex_pool 100 0 0 2 false false ex_roots)
    as (a & k & ok & E & _ & _ & Hok); [apply ex_pool_inv|lia|left; reflexivity|lia
      |by vm_compute|apply ex_roots_ok|].
  assert (Hs : ('(a, k, ok) ← ex_cache false false; '(_, _, r) ← kcm_alloc a k; Some (ok, r))
               = Some (true, Some 20544)) by (vm_compute; reflexivity).
  unfold ex_cache in Hs. rewrite E in Hs. cbn [mbind option_bind] in Hs.
  destruct (kcm_alloc a k) as [[[a' k'] r]|] eqn:Ea; [|discriminate Hs].
  cbn [mbind option_bind] in Hs. injection Hs as -> ->.
  exists a, k, a', k', 20544. split; [exact Ea|].
  exact (kcm_alloc_free_roundtrip a a' k k' 20544 Hok Ea).
Defined.

(** [kcm_release] gives free pages back until the low watermark and touches no block in
    use. *)
Theorem kcm_release_correct {A} `{!PageSource A, !PageSourceLaws A} (a : A) k :
  kcm_ok a k →
  ∃ a' k', kcm_release (S (Z.to_nat (free_pages_nr k))) a k = Some (a', k') ∧
    kcm_ok a' k' ∧ (∀ x, live k' x ↔ live k x) ∧
    free_pages_nr k' = Z.min (free_pages_nr k) (free_pages_min k).
Proof.
  intros Hok. destruct (kcm_release_spec a k Hok) as (a' & k' & ? & ? & _ & ? & ?). eauto 10.
Qed.

(** With an alignment of 32 and blocks of at most 32 bytes a page has 127 blocks, and the
    last one is the first 32 bytes of the next page: the room kept for the descriptor is
    one block, but the descriptor takes 64 bytes. *)
Theorem kcm_small_blocks_overflow :
  kcm_align 32 = 32 ∧ ARROUND_UP 32 32 = 32 ∧ kcm_blocks 32 = 127 ∧
  ARROUND_UP sizeof_page_info 32 + 126 * 32 = KCM_PAGE_SIZE.
Proof. vm_compute. auto. Qed.

(** The destructor is called on other addresses than the constructor: the blocks start 64
    bytes after the descriptor, [freelist_release] counts from its size, 40. *)
Theorem kcm_destroy_addresses :
  ('(a, k, _) ← kcm_init ex_pool 2000 0 0 4 true true ex_roots;
   '(_, k) ← kcm_release 10 a k; Some (trace k)) =
  Some [ObjDestroy (5 * KCM_PAGE_SIZE + 40);
        ObjInit (6 * KCM_PAGE_SIZE + 64); ObjInit (5 * KCM_PAGE_SIZE + 64)].
Proof. vm_compute. reflexivity. Qed.
