(* ===== verification/Objects.v ===== *)
(** * What users of kernel objects rely on

    The interface between [kmem_alloc] and [kmem_free] of a type of kernel objects
    (src/kernel/mm/kmem.c) and the components that allocate descriptors: regions, records of
    keys.  The caches of objects of [Kcm] meet it. *)

From S2P Require Import Prelude Kcm KcmSpec.

Open Scope Z_scope.

(** An object is known by its address; [os_alloc] returns 0 for [NULL], [os_live] are the objects
    in the hands of users, and freeing anything else is a fault. *)
Class ObjectSource (A : Type) := {
  os_inv : A → Prop;
  os_live : A → Z → Prop;
  os_alloc : A → option (A * Z);
  os_free : A → Z → option A;
}.

Definition object_addr (p : Z) : Prop := p ≠ 0 ∧ p mod 4 = 0.

Class ObjectSourceLaws (A : Type) `{ObjectSource A} := {
  os_live_law a p : os_inv a → os_live a p → object_addr p;
  os_alloc_law a :
    os_inv a →
    ∃ a' p, os_alloc a = Some (a', p) ∧ os_inv a' ∧
      (p = 0 ∧ (∀ x, os_live a' x ↔ os_live a x) ∨
       object_addr p ∧ ¬ os_live a p ∧ ∀ x, os_live a' x ↔ os_live a x ∨ x = p);
  os_free_law a p :
    os_inv a → os_live a p →
    ∃ a', os_free a p = Some a' ∧ os_inv a' ∧ ∀ x, os_live a' x ↔ os_live a x ∧ x ≠ p;
}.

(** ** The caches of objects *)

Section cache.
Context {A : Type} `{!PageSource A, !PageSourceLaws A}.

(** The source of pages and the cache of the type; objects are multiples of a word. *)
Definition cache : Type := A * kcm_s.

Definition cache_ok (c : cache) : Prop := kcm_ok (fst c) (snd c) ∧ size (snd c) mod 4 = 0.

Definition cache_alloc (c : cache) : option (cache * Z) :=
  '(a, k, r) ← kcm_alloc (fst c) (snd c); Some ((a, k), default 0 r).

Definition cache_free (c : cache) (ptr : Z) : option cache :=
  k ← kcm_free (snd c) ptr; Some (fst c, k).

#[export] Instance cache_source : ObjectSource cache := {
  os_inv := cache_ok; os_live c := live (snd c); os_alloc := cache_alloc; os_free := cache_free }.

Lemma block_word k p j : size k mod 4 = 0 → 0 < p → 0 ≤ j → 0 < size k → object_addr (block_addr k p j).
Proof.
  intros Hs Hp Hj Hk. unfold object_addr, block_addr, KCM_PAGE_SIZE, PMM_PAGE_SIZE. split; [nia|].
  replace (p * 4096 + 64 + j * size k) with (j * size k + (p * 1024 + 16) * 4) by lia.
  rewrite Z.mod_add, Z.mul_mod, Hs by lia. by rewrite Z.mul_0_r.
Qed.

#[export] Instance cache_source_laws : ObjectSourceLaws cache.
Proof.
  split.
  - intros [a k] ptr [(q & rest & bsy & fre & Hi) Hs] (p & i & j & Hp & Hj & _ & ->).
    apply block_word; [done| |lia|apply (g_size _ (i_geom _ _ _ _ _ _ Hi))].
    apply (i_own _ _ _ _ _ _ Hi). eapply i_dom; [exact Hi|]. by exists i.
  - intros [a k] [Hok Hs]. destruct (kcm_alloc_spec a k Hok) as (a' & k' & r & E & Hok' & (Es & Eb & _) & Hr).
    exists (a', k'), (default 0 r). split; [change (cache_alloc (a, k) = Some ((a', k'), default 0 r)); unfold cache_alloc; cbn [fst snd]; by rewrite E|].
    split; [split; [done|]; cbn in *; by rewrite Es|]. destruct r as [ptr|]; [right|left; by destruct Hr as [? _]].
    destruct Hr as (Hn & Hl & p & j & Hp & Hj & ->). split; [|done].
    destruct Hok as (q & rest & bsy & fre & Hi).
    apply block_word; [done|lia|lia|apply (g_size _ (i_geom _ _ _ _ _ _ Hi))].
  - intros [a k] ptr [Hok Hs] Hl. destruct (kcm_free_spec a k ptr Hok Hl) as (k' & E & (Es & _) & Hok' & Hl').
    exists (a, k'). split; [change (cache_free (a, k) ptr = Some (a, k')); unfold cache_free; cbn [fst snd]; by rewrite E|]. split; [|done].
    split; [done|]. cbn in *. by rewrite Es.
Qed.
End cache.

(** A cache of objects without constructor. *)
Definition ex_objects : option (cache (A := page_pool)) := '(a, k, _) ← ex_cache false false; Some (a, k).

Lemma ex_objects_ok : ∃ a, ex_objects = Some a ∧ os_inv a.
Proof.
  destruct (kcm_init_spec ex_pool 100 0 0 2 false false ex_roots)
    as (a & k & ok & E & _ & _ & Hok); [apply ex_pool_inv|lia|left; reflexivity|lia
      |by vm_compute|apply ex_roots_ok|].
  assert (Hs : (λ x, (snd x, size (snd (fst x)) mod 4)) <$> ex_cache false false = Some (true, 0)) by (vm_compute; reflexivity).
  unfold ex_cache in Hs. rewrite E in Hs. injection Hs as -> Hsz.
  exists (a, k). split; [|by split]. unfold ex_objects, ex_cache. by rewrite E.
Qed.
