(* ===== verification/Radix.v ===== *)
(** * Radix tree (src/kernel/kern/radix.c, radix.h)

    The index of the page cache: nodes of 64 children, as many levels as the largest key needs.
    Nodes come from an object cache ([ObjectSource]); a child is the address of a node or, at the
    lowest level, of an item.  The access to a node that is not there is [None]. *)

From S2P Require Import Prelude Bits Objects.

Open Scope Z_scope.

(** ** State *)

Definition ENOTFOUND : Z := 42.
Definition NB_TAGS : Z := 1.

(** [tags] is [tags[0]]; there is one tag. *)
Record radix_node_s := Node { children : list Z; tags : Z; bitmap : list Z; parent : Z; count : Z }.

Record radix_s := Radix { root_node : Z; height : Z; max_key : Z; nodes : gmap Z radix_node_s }.

Definition set_child (n : radix_node_s) (index v : Z) : option radix_node_s :=
  l ← aset (children n) index v; Some (Node l (tags n) (bitmap n) (parent n) (count n)).
Definition set_tags (n : radix_node_s) (x : Z) : radix_node_s := Node (children n) x (bitmap n) (parent n) (count n).
Definition set_bitmap (n : radix_node_s) (b : list Z) : radix_node_s := Node (children n) (tags n) b (parent n) (count n).
Definition set_parent (n : radix_node_s) (p : Z) : radix_node_s := Node (children n) (tags n) (bitmap n) p (count n).
Definition set_count (n : radix_node_s) (c : Z) : radix_node_s := Node (children n) (tags n) (bitmap n) (parent n) (u32 c).

Definition put_node (r : radix_s) (p : Z) (n : radix_node_s) : radix_s :=
  Radix (root_node r) (height r) (max_key r) (<[p := n]> (nodes r)).
Definition drop_node (r : radix_s) (p : Z) : radix_s := Radix (root_node r) (height r) (max_key r) (delete p (nodes r)).
Definition new_node : radix_node_s := Node (replicate 64 0) 0 [0; 0] 0 0.

Definition TAG_GET (n : radix_node_s) (index : Z) : Z := Z.land (tags n) (Z.shiftl 1 index).
Definition TAG_SET (n : radix_node_s) (index : Z) : radix_node_s := set_tags n (Z.lor (tags n) (Z.shiftl 1 index)).
Definition TAG_CLEAR (n : radix_node_s) (index : Z) : radix_node_s :=
  set_tags n (Z.land (tags n) (Z.lnot (Z.shiftl 1 index))).

(** The mask is shifted as an [int]. *)
Definition NEXT_CHILD (r : radix_s) (current_height key : Z) : Z :=
  let shift := (height r - (current_height + 1)) * 6 in
  Z.shiftr (Z.land (u32 (Z.shiftl 0x3F shift)) key) shift.
Definition MAX_KEY_ID (height : Z) : Z := if height =? 6 then 0xFFFFFFFF else Z.shiftl 1 (height * 6) - 1.

Definition radix_tree_init : radix_s := Radix 0 0 0 ∅.

Section operations.
Context {A : Type} `{ObjectSource A}.
Implicit Types (a : A) (r : radix_s).

(** ** Growth *)

Definition expand_tree a r : option (A * radix_s * Z) :=
  '(a, new_root) ← os_alloc a;
  if new_root =? 0 then Some (a, r, - ENOMEM) else
  n ← set_child new_node 0 (root_node r);
  '(n, r) ← (if height r =? 0 then Some (n, r) else
    old ← nodes r !! root_node r;
    b ← bitmap_set (bitmap n) 63;
    Some (set_bitmap (set_count (set_tags n (if ctrue (tags old) then 0x8000000000000000 else 0)) 1) b,
          put_node r (root_node r) (set_parent old new_root)));
  let r := put_node r new_root n in
  Some (a, Radix new_root (height r + 1) (MAX_KEY_ID (height r + 1)) (nodes r), 0).

Definition create_node a r (node index : Z) : option (A * radix_s * Z) :=
  '(a, p) ← os_alloc a;
  if p =? 0 then Some (a, r, - ENOMEM) else
  let r := put_node r p (set_parent new_node node) in
  n ← nodes r !! node;
  n ← set_child (set_count n (count n + 1)) index p;
  b ← bitmap_set (bitmap n) index;
  Some (a, put_node r node (set_bitmap n b), 0).

(** ** Search *)

(** The loop that goes down from a node of [current_height]; [None] inside is a missing node. *)
Fixpoint descend (fuel : nat) r (key node current_height : Z) : option (option (Z * Z)) :=
  match fuel with
  | O => None
  | S fuel =>
      if height r - 1 <=? current_height then Some (Some (node, current_height)) else
      n ← nodes r !! node;
      c ← aget (children n) (NEXT_CHILD r current_height key);
      if c =? 0 then Some None else descend fuel r key c (current_height + 1)
  end.

Record radix_item_info_s := Info { item : Z; i_node : Z; i_key : Z; i_index : Z; i_height : Z }.

Definition radix_fuel r : nat := S (Z.to_nat (height r)).

Definition radix_item_info_lookup r (key : Z) : option (option radix_item_info_s) :=
  if root_node r =? 0 then Some None else
  if max_key r <? key then Some None else
  leaf ← descend (radix_fuel r) r key (root_node r) 0;
  match leaf with
  | None => Some None
  | Some (node, current_height) =>
      let next_child := NEXT_CHILD r current_height key in
      n ← nodes r !! node;
      c ← aget (children n) next_child;
      Some (Some (Info c node key next_child current_height))
  end.

Definition radix_tree_lookup r (key : Z) : option Z :=
  info ← radix_item_info_lookup r key;
  match info with
  | None => Some 0
  | Some i => n ← nodes r !! i_node i; aget (children n) (i_index i)
  end.

(** ** Insertion *)

Fixpoint expand_loop (fuel : nat) a r (key : Z) : option (A * radix_s * Z) :=
  match fuel with
  | O => None
  | S fuel =>
      if (height r =? 0) || (max_key r <? key) then
        '(a, r, out) ← expand_tree a r;
        if ctrue out then Some (a, r, out) else expand_loop fuel a r key
      else Some (a, r, 0)
  end.

(** The way down, which adds the nodes that are missing; the result is the leaf, or an error. *)
Fixpoint insert_loop (fuel : nat) a r (key node current_height : Z) : option (A * radix_s * (Z * Z + Z)) :=
  match fuel with
  | O => None
  | S fuel =>
      if height r <=? current_height + 1 then Some (a, r, inl (node, current_height)) else
      let next_child := NEXT_CHILD r current_height key in
      n ← nodes r !! node;
      c ← aget (children n) next_child;
      '(a, r, err) ← (if c =? 0 then create_node a r node next_child else Some (a, r, 0));
      if ctrue err then Some (a, r, inr err) else
      n ← nodes r !! node;
      c ← aget (children n) next_child;
      insert_loop fuel a r key c (current_height + 1)
  end.

Definition radix_tree_insert a r (key v : Z) : option (A * radix_s * Z) :=
  '(a, r, out) ← expand_loop 8 a r key;
  if ctrue out then Some (a, r, out) else
  '(a, r, leaf) ← insert_loop (radix_fuel r) a r key (root_node r) 0;
  match leaf with
  | inr err => Some (a, r, err)
  | inl (node, current_height) =>
      let next_child := NEXT_CHILD r current_height key in
      n ← nodes r !! node;
      c ← aget (children n) next_child;
      if negb (c =? 0) then Some (a, r, - EEXIST) else
      n ← set_child n next_child v;
      b ← bitmap_set (bitmap n) next_child;
      Some (a, put_node r node (set_bitmap (set_count n (count n + 1)) b), 0)
  end.

(** ** Removal *)

Fixpoint shrink_loop (fuel : nat) a r : option (A * radix_s) :=
  match fuel with
  | O => None
  | S fuel =>
      if height r <=? 0 then Some (a, r) else
      let current_node := root_node r in
      n ← nodes r !! current_node;
      if negb (count n =? 1) then Some (a, r) else
      c ← aget (children n) 0;
      if c =? 0 then Some (a, r) else
      a ← os_free a current_node;
      shrink_loop fuel a (drop_node (Radix c (height r - 1) (max_key r) (nodes r)) current_node)
  end.

Definition shrink_tree a r : option (A * radix_s) :=
  '(a, r) ← shrink_loop (radix_fuel r) a r;
  Some (a, Radix (root_node r) (height r) (MAX_KEY_ID (height r)) (nodes r)).

(** A node without children is freed; [deleted] says so. *)
Definition free_empty a r (node : Z) (deleted : bool) : option (A * radix_s * bool) :=
  n ← nodes r !! node;
  if count n =? 0 then a ← os_free a node; Some (a, drop_node r node, true) else Some (a, r, deleted).

Definition remove_child r (node index : Z) : option radix_s :=
  n ← nodes r !! node;
  n ← set_child n index 0;
  b ← bitmap_clear (bitmap n) index;
  Some (put_node r node (TAG_CLEAR (set_count (set_bitmap n b) (count n - 1)) index)).

Fixpoint remove_loop (fuel : nat) a r (key node current_height : Z) (deleted : bool) : option (A * radix_s) :=
  match fuel with
  | O => None
  | S fuel =>
      if node =? 0 then Some (a, r) else
      let next_child := NEXT_CHILD r current_height key in
      n ← nodes r !! node;
      let current_parent := parent n in
      r ← (if deleted then remove_child r node next_child else
           c ← aget (children n) next_child;
           temp_node ← nodes r !! c;
           Some (put_node r node (if ctrue (tags temp_node) then TAG_SET n next_child else TAG_CLEAR n next_child)));
      '(a, r, deleted) ← free_empty a r node false;
      remove_loop fuel a r key current_parent (current_height - 1) deleted
  end.

(** [garbage] is what the variable [deleted], which has no initial value, holds.  The parent of a
    leaf that has been freed is read from the memory of the leaf, which still holds it. *)
Definition radix_tree_remove_item (garbage : bool) a r (info : radix_item_info_s) : option (A * radix_s) :=
  r ← remove_child r (i_node info) (i_index info);
  n ← nodes r !! i_node info;
  let up := parent n in
  '(a, r, deleted) ← free_empty a r (i_node info) garbage;
  '(a, r) ← remove_loop (radix_fuel r) a r (i_key info) up (i_height info - 1) deleted;
  shrink_tree a r.

Definition radix_tree_delete (garbage : bool) a r (key : Z) : option (A * radix_s * Z) :=
  info ← radix_item_info_lookup r key;
  match info with
  | None => Some (a, r, 0)
  | Some info =>
      n ← nodes r !! i_node info;
      v ← aget (children n) (i_index info);
      if v =? 0 then Some (a, r, 0) else
      '(a, r) ← radix_tree_remove_item garbage a r info;
      Some (a, r, v)
  end.

(** ** Items in place *)

Inductive radix_info_op_t := RADIX_INFO_SET | RADIX_INFO_DELETE | RADIX_INFO_INSERT.

Definition radix_item_info_apply (garbage : bool) a r (info : radix_item_info_s) (operation : radix_info_op_t) (new_item : Z)
    : option (A * radix_s) :=
  match operation with
  | RADIX_INFO_SET =>
      n ← nodes r !! i_node info;
      n ← set_child n (i_index info) new_item;
      Some (a, put_node r (i_node info) n)
  | RADIX_INFO_DELETE => radix_tree_remove_item garbage a r info
  | RADIX_INFO_INSERT =>
      n ← nodes r !! i_node info;
      n ← set_child n (i_index info) new_item;
      b ← bitmap_set (bitmap n) (i_index info);
      Some (a, put_node r (i_node info) (set_bitmap (set_count n (count n + 1)) b))
  end.
End operations.

(** ** Tags *)

(** The way up from a leaf, with a change of the tag of the child on each node. *)
Fixpoint tag_up (upd : radix_node_s → Z → radix_node_s) (fuel : nat) (r : radix_s) (index node current_height : Z) : option radix_s :=
  match fuel with
  | O => None
  | S fuel =>
      if node =? 0 then Some r else
      n ← nodes r !! node;
      tag_up upd fuel (put_node r node (upd n (NEXT_CHILD r current_height index))) index (parent n) (current_height - 1)
  end.

(** [radix_tree_tag_set] and [radix_tree_tag_clear]: the item, or 0. *)
Definition tag_change (upd : radix_node_s → Z → radix_node_s) (r : radix_s) (index tag : Z) : option (radix_s * Z) :=
  if (root_node r =? 0) || (max_key r <? index) || (NB_TAGS <=? tag) then Some (r, 0) else
  leaf ← descend (radix_fuel r) r index (root_node r) 0;
  match leaf with
  | None => Some (r, 0)
  | Some (node, current_height) =>
      let next_child := NEXT_CHILD r current_height index in
      n ← nodes r !! node;
      c ← aget (children n) next_child;
      if c =? 0 then Some (r, 0) else
      r ← tag_up upd (radix_fuel r) (put_node r node (upd n next_child)) index (parent n) (current_height - 1);
      Some (r, c)
  end.

Definition radix_tree_tag_set : radix_s → Z → Z → option (radix_s * Z) := tag_change TAG_SET.
Definition radix_tree_tag_clear : radix_s → Z → Z → option (radix_s * Z) := tag_change TAG_CLEAR.

(** The result is an [int]: the upper half of the tags is lost. *)
Definition radix_tree_tag_get (r : radix_s) (index tag : Z) : option Z :=
  if (root_node r =? 0) || (max_key r <? index) || (NB_TAGS <=? tag) then Some (- EINVAL) else
  leaf ← descend (radix_fuel r) r index (root_node r) 0;
  match leaf with
  | None => Some (- ENOTFOUND)
  | Some (node, current_height) =>
      let next_child := NEXT_CHILD r current_height index in
      n ← nodes r !! node;
      c ← aget (children n) next_child;
      Some (if c =? 0 then - ENOTFOUND else s32 (TAG_GET n next_child))
  end.

Definition radix_tree_tagged (r : radix_s) (tag : Z) : option Z :=
  if (height r =? 0) || (NB_TAGS <=? tag) then Some (- EINVAL) else
  n ← nodes r !! root_node r; Some (s32 (tags n)).

(** ** Several items at once *)

(** The way down to the first key; the indices of the children on the way are kept. *)
Fixpoint gang_descend (fuel : nat) (r : radix_s) (key node current_height : Z) (order : list Z) : option (Z * Z * list Z) :=
  match fuel with
  | O => None
  | S fuel =>
      if height r - 1 <=? current_height then Some (node, current_height, order) else
      let next_child := NEXT_CHILD r current_height key in
      order ← aset order current_height next_child;
      n ← nodes r !! node;
      c ← aget (children n) next_child;
      if c =? 0 then Some (node, current_height, order) else gang_descend fuel r key c (current_height + 1) order
  end.

Fixpoint gang_loop (fuel : nat) (r : radix_s) (max_items node current_height next_child : Z) (order results : list Z)
    : option (list Z) :=
  match fuel with
  | O => None
  | S fuel =>
      if max_items <=? Z.of_nat (length results) then Some results else
      n ← nodes r !! node;
      if next_child =? 64 then
        if parent n =? 0 then Some results else
        let current_height := current_height - 1 in
        o ← aget order current_height;
        order ← aset order current_height (o + 1);
        gang_loop fuel r max_items (parent n) current_height (o + 1) order results
      else
      c ← aget (children n) next_child;
      if negb (c =? 0) && negb (current_height + 1 =? height r) then
        order ← aset order (current_height + 1) 0;
        gang_loop fuel r max_items c (current_height + 1) 0 order results
      else
      next ← bitmap_ffs2 (bitmap n) (next_child + 1) 8;
      gang_loop fuel r max_items node current_height (if next <? 0 then 64 else next) order
        (if c =? 0 then results else results ++ [c])
  end.

Definition radix_tree_gang_lookup (fuel : nat) (r : radix_s) (first_index max_items : Z) : option (list Z) :=
  if (root_node r =? 0) || (max_key r <? first_index) || (max_items =? 0) then Some [] else
  '(node, current_height, order) ← gang_descend (radix_fuel r) r first_index (root_node r) 0 (replicate 6 0);
  let next_child := NEXT_CHILD r current_height first_index in
  n ← nodes r !! node;
  c ← aget (children n) next_child;
  order ← aset order current_height (next_child + 1);
  gang_loop fuel r max_items node current_height (next_child + 1) order
    (if (current_height =? height r - 1) && negb (c =? 0) then [c] else []).

(** The items with a tag.  The way down leaves no node when a child is missing, and the loop then
    reads through it; the tag is read at the index [next_child] where the first key was, on every
    node; [slot] is [radix_tree_gang_lookup_tag_slot], which does not leave out the first key. *)
Fixpoint gang_tag_descend (fuel : nat) (r : radix_s) (key node current_height : Z) (order : list Z) : option (Z * Z * list Z) :=
  match fuel with
  | O => None
  | S fuel =>
      if height r - 1 <=? current_height then Some (node, current_height, order) else
      let next_child := NEXT_CHILD r current_height key in
      order ← aset order current_height next_child;
      n ← nodes r !! node;
      c ← aget (children n) next_child;
      if c =? 0 then Some (0, current_height, order) else gang_tag_descend fuel r key c (current_height + 1) order
  end.

Fixpoint gang_tag_loop (fuel : nat) (r : radix_s) (max_items next_child node current_height : Z) (order results : list Z)
    : option (list Z) :=
  match fuel with
  | O => None
  | S fuel =>
      if max_items <=? Z.of_nat (length results) then Some results else
      o ← aget order current_height;
      up ← (if negb (o =? 64) then Some (Some (node, current_height, order)) else
            n ← nodes r !! node;
            if parent n =? 0 then Some None else
            o ← aget order (current_height - 1);
            order ← aset order (current_height - 1) (o + 1);
            Some (Some (parent n, current_height - 1, order)));
      match up with
      | None => Some results
      | Some (node, current_height, order) =>
          o ← aget order current_height;
          n ← nodes r !! node;
          c ← aget (children n) o;
          next ← aset order current_height (o + 1);
          if c =? 0 then gang_tag_loop fuel r max_items next_child node current_height next results else
          let tagged := negb (TAG_GET n next_child =? 0) in
          if current_height + 1 =? height r then
            gang_tag_loop fuel r max_items next_child node current_height next (if tagged then results ++ [c] else results)
          else if tagged then
            order ← aset order (current_height + 1) 0;
            gang_tag_loop fuel r max_items next_child c (current_height + 1) order results
          else gang_tag_loop fuel r max_items next_child node current_height next results
      end
  end.

Definition gang_lookup_tag (slot : bool) (fuel : nat) (r : radix_s) (first_index max_items : Z) : option (list Z) :=
  if (root_node r =? 0) || (max_key r <? first_index) || (max_items =? 0) then Some [] else
  '(node, current_height, order) ← gang_tag_descend (radix_fuel r) r first_index (root_node r) 0 (replicate 6 0);
  let next_child := NEXT_CHILD r current_height first_index in
  order ← aset order current_height (if slot then next_child else next_child + 1);
  gang_tag_loop fuel r max_items next_child node current_height order [].

Definition radix_tree_gang_lookup_tag : nat → radix_s → Z → Z → option (list Z) := gang_lookup_tag false.
Definition radix_tree_gang_lookup_tag_slot : nat → radix_s → Z → Z → option (list Z) := gang_lookup_tag true.
