(* ===== verification/RadixSpec.v ===== *)
(** * The radix tree is a map

    Every node of a well-formed tree has a position: its level and the upper digits, in base 64,
    of the keys below it.  The tree then represents a finite map; lookup, insertion, tagging and
    replacement of items implement the operations of the map, and so does removal as long as the
    tree keeps its height. *)

From S2P Require Import Prelude Bits KcmSpec Objects Radix.

Open Scope Z_scope.

Ltac zdiv := Z.to_euclidean_division_equations; lia.

(** ** Digits *)

Definition digit (key lv : Z) : Z := (key / 64 ^ (lv - 1)) mod 64.

Lemma NEXT_CHILD_spec r key lv :
  0 ≤ key < wsize → 1 ≤ lv → NEXT_CHILD r (height r - lv) key = digit key lv.
Proof.
  intros Hk Hl. unfold NEXT_CHILD, digit. replace ((height r - (height r - lv + 1)) * 6) with (6 * (lv - 1)) by lia.
  set (s := 6 * (lv - 1)). unfold u32. change wsize with (2 ^ 32) in *. rewrite <- Z.land_ones by done.
  assert (Z.land (Z.land (Z.shiftl 63 s) (Z.ones 32)) key = Z.land (Z.shiftl 63 s) key) as ->.
  { rewrite <- Z.land_assoc, (Z.land_comm (Z.ones 32)), Z.land_ones, (Z.mod_small key) by lia. done. }
  rewrite Z.shiftr_land, Z.shiftr_shiftl_l, Z.sub_diag, Z.shiftl_0_r by lia. change 63 with (Z.ones 6).
  rewrite Z.land_comm, Z.land_ones, Z.shiftr_div_pow2 by lia. unfold s. rewrite Z.pow_mul_r by lia. done.
Qed.

Lemma digit_range key lv : 0 ≤ digit key lv < 64.
Proof. apply Z.mod_pos_bound. lia. Qed.

(** The upper digits of a key. *)
Lemma upper_digits key lv : 1 ≤ lv → key / 64 ^ (lv - 1) = (key / 64 ^ lv) * 64 + digit key lv.
Proof.
  intros Hl. unfold digit. replace lv with (lv - 1 + 1) at 2 by lia. rewrite Z.pow_add_r, Z.pow_1_r by lia.
  rewrite <- Z.div_div by (try apply Z.pow_pos_nonneg; lia). pose proof (Z.div_mod (key / 64 ^ (lv - 1)) 64). lia.
Qed.

Lemma max_key_spec h key :
  1 ≤ h ≤ 6 → 0 ≤ key < wsize → key ≤ MAX_KEY_ID h ↔ key < 64 ^ h.
Proof.
  intros Hh Hk. unfold wsize in Hk. assert (h = 1 ∨ h = 2 ∨ h = 3 ∨ h = 4 ∨ h = 5 ∨ h = 6) as Hc by lia.
  destruct Hc as [->|[->|[->|[->|[->| ->]]]]];
    match goal with |- key ≤ ?x ↔ key < ?y => let x' := eval vm_compute in x in let y' := eval vm_compute in y in change x with x'; change y with y' end; lia.
Qed.

(** ** Nodes *)

Definition kid (n : radix_node_s) (i : Z) : Z := default 0 (aget (children n) i).
Definition filled (l : list Z) : Z := Z.of_nat (length (filter (λ c, c ≠ 0) l)).

Lemma kid_get n i : length (children n) = 64%nat → 0 ≤ i < 64 → aget (children n) i = Some (kid n i).
Proof. intros Hl Hi. unfold kid. destruct (aget_range (children n) i) as [c Hc]; [lia|]. by rewrite Hc. Qed.

Lemma filled_insert l i (v c : Z) :
  l !! i = Some c →
  filled (<[i := v]> l) = filled l - (if c =? 0 then 0 else 1) + (if v =? 0 then 0 else 1).
Proof.
  intros Hi. pose proof (lookup_lt_Some _ _ _ Hi) as Hl. rewrite insert_take_drop by done. rewrite <- (take_drop_middle l i c Hi) at 3.
  unfold filled. rewrite !filter_app, !filter_cons, !length_app.
  destruct (decide (v ≠ 0)) as [Hv|Hv], (decide (c ≠ 0)) as [Hc|Hc]; cbn [length]; destruct (Z.eqb_spec c 0), (Z.eqb_spec v 0); lia.
Qed.

Lemma filled_zero l : filled l = 0 ↔ ∀ c, c ∈ l → c = 0.
Proof.
  unfold filled. split.
  - intros E c Hc. destruct (decide (c = 0)) as [|Hn]; [done|]. assert (c ∈ filter (λ c, c ≠ 0) l) as Hin by (by apply list_elem_of_filter).
    destruct (filter (λ c, c ≠ 0) l); [by apply elem_of_nil in Hin|cbn in E; lia].
  - intros Ha. induction l as [|x l IH]; [done|]. rewrite filter_cons_False; [apply IH; set_solver|]. intros Hx. apply Hx, Ha. left.
Qed.

Lemma filled_bound l : 0 ≤ filled l ≤ Z.of_nat (length l).
Proof. unfold filled. pose proof (length_filter (λ c, c ≠ 0) l). lia. Qed.

(** The only child. *)
Lemma filled_one l i j (c d : Z) : filled l = 1 → l !! i = Some c → l !! j = Some d → c ≠ 0 → d ≠ 0 → i = j.
Proof.
  intros E Hi Hj Hc Hd. destruct (decide (i = j)) as [|Hne]; [done|]. pose proof (filled_insert l i 0 c Hi) as E1.
  rewrite (proj2 (Z.eqb_neq c 0)), Z.eqb_refl in E1 by done. assert (filled (<[i := 0]> l) = 0) as E2 by lia.
  assert (d = 0); [|done]. apply (proj1 (filled_zero _) E2). apply list_elem_of_lookup. exists j. by rewrite list_lookup_insert_ne.
Qed.

Lemma radix_set_child_ok n i v :
  length (children n) = 64%nat → 0 ≤ i < 64 →
  ∃ n', set_child n i v = Some n' ∧ length (children n') = 64%nat ∧
    (∀ j, 0 ≤ j < 64 → kid n' j = if j =? i then v else kid n j) ∧
    filled (children n') = filled (children n) - (if kid n i =? 0 then 0 else 1) + (if v =? 0 then 0 else 1) ∧
    tags n' = tags n ∧ bitmap n' = bitmap n ∧ parent n' = parent n ∧ count n' = count n.
Proof.
  intros Hl Hi. unfold set_child. rewrite aset_Some by lia. cbn [mbind option_bind]. eexists. split; [done|].
  cbn [children tags bitmap parent count]. rewrite length_insert. split; [done|]. split; [|split; [|done]].
  - intros j Hj. unfold kid. cbn [children]. destruct (Z.eqb_spec j i) as [->|Hne]; [by rewrite aget_insert_eq by lia|by rewrite aget_insert_ne by lia].
  - apply filled_insert. pose proof (kid_get n i Hl Hi) as E. unfold aget in E. by rewrite (proj2 (Z.leb_le 0 i)) in E by lia.
Qed.

(** ** The invariant *)

Section tree.
Context {A : Type} `{OS : ObjectSource A} `{OL : !ObjectSourceLaws A}.
Implicit Types (a : A) (r : radix_s) (W : gmap Z (Z * Z)) (m : gmap Z Z).

Record node_ok r W m (p lv pre : Z) (n : radix_node_s) : Prop := NodeOk {
  no_level : 1 ≤ lv ≤ height r;
  no_pre : 0 ≤ pre;
  no_kids : length (children n) = 64%nat;
  no_bits : length (bitmap n) = 2%nat;
  no_count : count n = filled (children n);
  no_child i : lv ≠ 1 → 0 ≤ i < 64 → kid n i ≠ 0 → W !! kid n i = Some (lv - 1, pre * 64 + i);
  no_item i : lv = 1 → 0 ≤ i < 64 → m !! (pre * 64 + i) = if kid n i =? 0 then None else Some (kid n i);
  no_root : lv = height r → p = root_node r ∧ pre = 0 ∧ parent n = 0;
  no_parent : lv ≠ height r → ∃ q, nodes r !! parent n = Some q ∧ W !! parent n = Some (lv + 1, pre / 64) ∧ kid q (pre mod 64) = p }.

Record radix_ok a r W m : Prop := RadixOk {
  ro_objs : os_inv a;
  ro_live p : is_Some (nodes r !! p) → os_live a p;
  ro_height : 0 ≤ height r ≤ 6;
  ro_max : max_key r = MAX_KEY_ID (height r);
  ro_empty : height r = 0 → root_node r = 0 ∧ W = ∅;
  ro_root : height r ≠ 0 → W !! root_node r = Some (height r, 0);
  ro_dom p : is_Some (W !! p) ↔ is_Some (nodes r !! p);
  ro_node p lv pre n : W !! p = Some (lv, pre) → nodes r !! p = Some n → node_ok r W m p lv pre n;
  ro_item key v : m !! key = Some v → v ≠ 0 ∧ 0 ≤ key < wsize ∧ ∃ p, W !! p = Some (1, key / 64) }.

Section facts.
Context a r W m (HR : radix_ok a r W m).

Lemma node_at p lv pre : W !! p = Some (lv, pre) → ∃ n, nodes r !! p = Some n ∧ node_ok r W m p lv pre n.
Proof.
  intros Hp. destruct (proj1 (ro_dom _ _ _ _ HR p)) as [n Hn]; [eauto|]. exists n. split; [done|]. by eapply ro_node.
Qed.

Lemma node_nonzero p lv pre : W !! p = Some (lv, pre) → p ≠ 0.
Proof.
  intros Hp. destruct (os_live_law a p (ro_objs _ _ _ _ HR)) as [? _]; [|done]. apply (ro_live _ _ _ _ HR), (ro_dom _ _ _ _ HR). eauto.
Qed.

Lemma position_unique p q lv pre : W !! p = Some (lv, pre) → W !! q = Some (lv, pre) → p = q.
Proof.
  intros Hp Hq. destruct (node_at p lv pre Hp) as (n & _ & Hn). pose proof (no_level _ _ _ _ _ _ _ Hn) as Hl.
  remember (Z.to_nat (height r - lv)) as d eqn:Ed. revert p q lv pre Hp Hq Hl Ed n Hn. induction d as [|d IH]; intros p q lv pre Hp Hq Hl Ed n Hn;
    destruct (node_at q lv pre Hq) as (n' & _ & Hn').
  - assert (lv = height r) as E by lia. destruct (no_root _ _ _ _ _ _ _ Hn E) as [-> _]. by destruct (no_root _ _ _ _ _ _ _ Hn' E) as [-> _].
  - assert (lv ≠ height r) as E by lia. destruct (no_parent _ _ _ _ _ _ _ Hn E) as (g & Hg & Hw & <-).
    destruct (no_parent _ _ _ _ _ _ _ Hn' E) as (g' & Hg' & Hw' & <-). destruct (node_at _ _ _ Hw) as (x & _ & Hx).
    assert (parent n = parent n') as Epar by (eapply (IH _ _ (lv + 1) (pre / 64) Hw Hw'); [lia|lia|exact Hx]). congruence.
Qed.

(** The nodes above a node. *)
Lemma node_above p lv key : W !! p = Some (lv, key / 64 ^ lv) → 0 ≤ lv → ∀ lv', lv ≤ lv' ≤ height r → ∃ q, W !! q = Some (lv', key / 64 ^ lv').
Proof.
  intros Hp Hlv lv' Hl. remember (Z.to_nat (lv' - lv)) as d eqn:Ed. revert p lv Hp Hlv Hl Ed. induction d as [|d IH]; intros p lv Hp Hlv Hl Ed.
  - assert (lv' = lv) as -> by lia. by exists p.
  - destruct (node_at _ _ _ Hp) as (n & _ & Hn). destruct (no_parent _ _ _ _ _ _ _ Hn ltac:(lia)) as (g & _ & Hw & _).
    apply (IH (parent n) (lv + 1)); [|lia|lia|lia]. rewrite Hw. do 2 f_equal. rewrite Z.div_div by (try apply Z.pow_pos_nonneg; lia).
    by rewrite Z.pow_add_r, Z.pow_1_r by lia.
Qed.

(** The child on the path to a node. *)
Lemma child_on_path p q lv key n :
  2 ≤ lv → W !! p = Some (lv, key / 64 ^ lv) → nodes r !! p = Some n →
  W !! q = Some (lv - 1, key / 64 ^ (lv - 1)) → kid n (digit key lv) = q.
Proof.
  intros Hlv Hp Hn Hq. destruct (node_at _ _ _ Hq) as (x & _ & Hx). pose proof (no_level _ _ _ _ _ _ _ (ro_node _ _ _ _ HR _ _ _ _ Hp Hn)) as Hl.
  destruct (no_parent _ _ _ _ _ _ _ Hx ltac:(lia)) as (g & Hg & Hw & Hk). pose proof (upper_digits key lv ltac:(lia)) as Eu.
  pose proof (digit_range key lv) as Hd. replace (lv - 1 + 1) with lv in Hw by lia. rewrite Eu in Hw, Hk.
  rewrite Z.div_add_l, (Z.div_small (digit key lv)), Z.add_0_r in Hw by lia. rewrite Z.add_comm, Z.mod_add, Z.mod_small in Hk by lia.
  pose proof (position_unique _ _ _ _ Hw Hp) as Ep. rewrite Ep in Hg. congruence.
Qed.

Lemma pow64_1 key : key / 64 = key / 64 ^ 1.
Proof. done. Qed.

Lemma descend_ok key fuel p lv :
  0 ≤ key < wsize → W !! p = Some (lv, key / 64 ^ lv) → (Z.to_nat lv ≤ fuel)%nat →
  ∃ res, descend fuel r key p (height r - lv) = Some res ∧
    match res with
    | Some (q, ch) => ch = height r - 1 ∧ W !! q = Some (1, key / 64)
    | None => ∀ q, W !! q ≠ Some (1, key / 64)
    end.
Proof.
  intros Hk. revert p lv. induction fuel as [|fuel IH]; intros p lv Hp Hf; destruct (node_at _ _ _ Hp) as (n & Hn & HN);
    pose proof (no_level _ _ _ _ _ _ _ HN) as Hl; [lia|]. cbn [descend]. destruct (Z.leb_spec (height r - 1) (height r - lv)) as [Hle|Hgt].
  { assert (lv = 1) as -> by lia. eexists. split; [done|]. done. }
  rewrite Hn. cbn [mbind option_bind]. rewrite NEXT_CHILD_spec by lia. pose proof (digit_range key lv) as Hd.
  rewrite (kid_get n _ (no_kids _ _ _ _ _ _ _ HN) Hd). cbn [mbind option_bind]. destruct (Z.eqb_spec (kid n (digit key lv)) 0) as [E0|Hne].
  - exists None. split; [done|]. intros q Hq. rewrite pow64_1 in Hq. destruct (node_above q 1 key Hq ltac:(lia) (lv - 1) ltac:(lia)) as [x Hx].
    pose proof (child_on_path p x lv key n ltac:(lia) Hp Hn Hx) as Ex. rewrite E0 in Ex. by destruct (node_nonzero x _ _ Hx).
  - replace (height r - lv + 1) with (height r - (lv - 1)) by lia. apply IH; [|lia].
    rewrite (no_child _ _ _ _ _ _ _ HN _ ltac:(lia) Hd Hne). do 2 f_equal. symmetry. apply upper_digits. lia.
Qed.

(** The child of the leaf of a key. *)
Lemma leaf_item key q n :
  0 ≤ key → W !! q = Some (1, key / 64) → nodes r !! q = Some n → m !! key = if kid n (digit key 1) =? 0 then None else Some (kid n (digit key 1)).
Proof.
  intros Hk Hq Hn. rewrite <- (no_item _ _ _ _ _ _ _ (ro_node _ _ _ _ HR _ _ _ _ Hq Hn) (digit key 1) eq_refl (digit_range key 1)). f_equal.
  pose proof (upper_digits key 1 ltac:(lia)) as E. change (64 ^ (1 - 1)) with 1 in E. rewrite Z.div_1_r in E. exact E.
Qed.

Lemma no_leaf_item key : (∀ q, W !! q ≠ Some (1, key / 64)) → m !! key = None.
Proof. intros Hn. destruct (m !! key) as [v|] eqn:E; [|done]. destruct (ro_item _ _ _ _ HR key v E) as (_ & _ & p & Hp). by destruct (Hn p). Qed.

Lemma key_in_root key : height r ≠ 0 → 0 ≤ key < wsize → key ≤ max_key r → W !! root_node r = Some (height r, key / 64 ^ height r).
Proof.
  intros Hh Hk Hle. pose proof (ro_height _ _ _ _ HR) as Hb. rewrite (ro_max _ _ _ _ HR) in Hle. apply max_key_spec in Hle; [|lia|done].
  rewrite (ro_root _ _ _ _ HR Hh), Z.div_small by lia. done.
Qed.

Lemma item_in_range key v : m !! key = Some v → height r ≠ 0 ∧ key ≤ max_key r.
Proof.
  intros Hm. destruct (ro_item _ _ _ _ HR key v Hm) as (_ & Hk & p & Hp). destruct (node_at _ _ _ Hp) as (n & _ & HN).
  pose proof (no_level _ _ _ _ _ _ _ HN) as Hl. pose proof (ro_height _ _ _ _ HR) as Hh. split; [lia|].
  rewrite pow64_1 in Hp. destruct (node_above p 1 key Hp ltac:(lia) (height r) ltac:(lia)) as [q Hq].
  destruct (node_at _ _ _ Hq) as (x & _ & Hx). destruct (no_root _ _ _ _ _ _ _ Hx eq_refl) as (_ & E & _).
  rewrite (ro_max _ _ _ _ HR). apply max_key_spec; [lia|done|]. pose proof (Z.pow_pos_nonneg 64 (height r)).
  apply Z.div_small_iff in E; lia.
Qed.

(** Lookup: the place of the key, if its leaf is there. *)
Lemma info_lookup_ok key :
  0 ≤ key < wsize →
  ∃ res, radix_item_info_lookup r key = Some res ∧
    match res with
    | Some i => ∃ n, W !! i_node i = Some (1, key / 64) ∧ nodes r !! i_node i = Some n ∧ i_key i = key ∧ i_index i = digit key 1 ∧
        i_height i = height r - 1 ∧ item i = kid n (digit key 1)
    | None => m !! key = None
    end.
Proof.
  intros Hk. unfold radix_item_info_lookup. destruct (Z.eqb_spec (root_node r) 0) as [E0|Hr0].
  { exists None. split; [done|]. destruct (m !! key) as [v|] eqn:E; [|done]. destruct (item_in_range key v E) as [Hh _].
    by destruct (node_nonzero _ _ _ (ro_root _ _ _ _ HR Hh)). }
  destruct (Z.ltb_spec (max_key r) key) as [Hlt|Hle].
  { exists None. split; [done|]. destruct (m !! key) as [v|] eqn:E; [|done]. destruct (item_in_range key v E). lia. }
  assert (height r ≠ 0) as Hh by (intros Hh; by destruct (ro_empty _ _ _ _ HR Hh)). pose proof (ro_height _ _ _ _ HR) as Hb.
  destruct (descend_ok key (radix_fuel r) (root_node r) (height r) Hk (key_in_root key Hh Hk Hle)) as (res & E & Hres); [unfold radix_fuel; lia|].
  rewrite Z.sub_diag in E. rewrite E. cbn [mbind option_bind]. destruct res as [[q ch]|].
  - destruct Hres as [-> Hq]. destruct (node_at _ _ _ Hq) as (n & Hn & HN). rewrite Hn. cbn [mbind option_bind].
    rewrite NEXT_CHILD_spec by lia. rewrite (kid_get n _ (no_kids _ _ _ _ _ _ _ HN) (digit_range key 1)). cbn [mbind option_bind].
    eexists. split; [done|]. exists n. done.
  - exists None. split; [done|]. by apply no_leaf_item.
Qed.

Lemma lookup_ok key : 0 ≤ key < wsize → radix_tree_lookup r key = Some (default 0 (m !! key)).
Proof.
  intros Hk. unfold radix_tree_lookup. destruct (info_lookup_ok key Hk) as (res & -> & Hres). cbn [mbind option_bind].
  destruct res as [i|]; [|by rewrite Hres]. destruct Hres as (n & Hq & Hn & _ & -> & _). rewrite Hn. cbn [mbind option_bind].
  rewrite (leaf_item key _ n (proj1 Hk) Hq Hn). destruct (node_at _ _ _ Hq) as (n' & Hn' & HN). assert (n' = n) as -> by congruence.
  rewrite (kid_get n _ (no_kids _ _ _ _ _ _ _ HN) (digit_range key 1)). by destruct (Z.eqb_spec (kid n (digit key 1)) 0) as [->|].
Qed.
End facts.

(** ** Changes of one node *)

Lemma put_ok a r W m p lv pre n n' m' :
  radix_ok a r W m → W !! p = Some (lv, pre) → nodes r !! p = Some n →
  length (children n') = 64%nat → length (bitmap n') = 2%nat → count n' = filled (children n') → parent n' = parent n →
  (lv ≠ 1 → ∀ i, 0 ≤ i < 64 → kid n' i = kid n i) →
  (lv = 1 → ∀ i, 0 ≤ i < 64 → m' !! (pre * 64 + i) = if kid n' i =? 0 then None else Some (kid n' i)) →
  (∀ key, lv ≠ 1 ∨ key / 64 ≠ pre → m' !! key = m !! key) → (∀ key v, m' !! key = Some v → v ≠ 0 ∧ 0 ≤ key < wsize) →
  radix_ok a (put_node r p n') W m'.
Proof.
  intros HR Hp Hn Hl Hb Hc Hpar Hk Hi Hm Hv. pose proof HR as [R1 R2 R3 R4 R5 R6 R7 R8 R9]. split; cbn [put_node nodes height root_node max_key]; try done.
  - intros q. rewrite lookup_insert_is_Some'. intros [<-|Hq]; apply R2; [eauto|done].
  - intros q. rewrite lookup_insert_is_Some', R7. split; [by right|]. intros [<-|?]; [eauto|done].
  - assert (Hother : ∀ q lv' pre' x, W !! q = Some (lv', pre') → nodes r !! q = Some x → q ≠ p → ∀ i, lv' = 1 → 0 ≤ i < 64 →
      m' !! (pre' * 64 + i) = m !! (pre' * 64 + i)).
    { intros q lv' pre' x Hq Hx Hne i E1 Hi'. apply Hm. destruct (decide (lv = 1)) as [->|]; [right|by left].
      rewrite Z.div_add_l, Z.div_small, Z.add_0_r by lia. intros ->. subst lv'. apply Hne. by eapply position_unique. }
    intros q lv' pre' x Hq Hx. rewrite lookup_insert_Some in Hx. destruct Hx as [[<- <-]|[Hne Hx]].
    + assert (lv' = lv ∧ pre' = pre) as [-> ->] by (split; congruence). destruct (R8 p lv pre n Hp Hn) as [N1 N2 N3 N4 N5 N6 N7 N8 N9].
      split; try done.
      * intros i Hlv Hi'. rewrite Hk by done. by apply N6.
      * intros i Hlv Hi'. by apply Hi.
      * intros E. rewrite Hpar. by apply N8.
      * intros E. rewrite Hpar. destruct (N9 E) as (g & Hg & Hw & Hkg). destruct (decide (parent n = p)) as [Ep|Hnp].
        { rewrite Ep in Hw. rewrite Hp in Hw. injection Hw as ? _. lia. }
        exists g. cbn [put_node nodes]. by rewrite lookup_insert_ne.
    + destruct (R8 q lv' pre' x Hq Hx) as [N1 N2 N3 N4 N5 N6 N7 N8 N9]. split; try done.
      * intros i Hlv Hi'. rewrite (Hother q lv' pre' x) by done. by apply N7.
      * intros E. destruct (N9 E) as (g & Hg & Hw & Hkg). cbn [put_node nodes]. destruct (decide (parent x = p)) as [Ep|Hnp].
        { exists n'. rewrite Ep in *. rewrite lookup_insert_eq. split; [done|]. split; [done|]. rewrite Hp in Hw. injection Hw as E1 E2.
          assert (g = n) as -> by congruence. rewrite Hk; [done|lia|apply Z.mod_pos_bound; lia]. }
        exists g. by rewrite lookup_insert_ne.
  - intros key v Hkey. destruct (Hv key v Hkey) as [? ?]. split; [done|]. split; [done|].
    destruct (decide (lv = 1 ∧ key / 64 = pre)) as [[-> <-]|Hno]; [by exists p|].
    rewrite Hm in Hkey; [by apply (R9 key v)|]. destruct (decide (lv = 1)); [right; naive_solver|by left].
Qed.

(** A change that only touches tags or bits. *)
Lemma retag_ok a r W m p n n' :
  radix_ok a r W m → nodes r !! p = Some n → children n' = children n → length (bitmap n') = 2%nat → count n' = count n → parent n' = parent n →
  radix_ok a (put_node r p n') W m.
Proof.
  intros HR Hn E1 E2 E3 E4. destruct (proj2 (ro_dom _ _ _ _ HR p)) as [[lv pre] Hp]; [eauto|].
  pose proof (ro_node _ _ _ _ HR p lv pre n Hp Hn) as [N1 N2 N3 N4 N5 N6 N7 N8 N9].
  eapply (put_ok a r W m p lv pre n n'); try done; unfold kid; rewrite ?E1, ?E3; try done.
  { intros Hlv i Hi. by apply N7. }
  intros key v Hkey. destruct (ro_item _ _ _ _ HR key v Hkey) as (? & ? & _). done.
Qed.

(** A change of an item, from [kid n i] to [v]. *)
Lemma item_ok a r W m p key n n' v :
  radix_ok a r W m → 0 ≤ key < wsize → W !! p = Some (1, key / 64) → nodes r !! p = Some n →
  length (children n') = 64%nat → length (bitmap n') = 2%nat → count n' = filled (children n') → parent n' = parent n →
  (∀ j, 0 ≤ j < 64 → kid n' j = if j =? digit key 1 then v else kid n j) →
  radix_ok a (put_node r p n') W (if v =? 0 then delete key m else <[key := v]> m).
Proof.
  intros HR Hk Hp Hn E1 E2 E3 E4 E5. pose proof (ro_node _ _ _ _ HR p 1 _ n Hp Hn) as HN.
  assert (Ekey : key / 64 * 64 + digit key 1 = key).
  { unfold digit. change (64 ^ (1 - 1)) with 1. rewrite Z.div_1_r. zdiv. }
  eapply (put_ok a r W m p 1 _ n n'); try done.
  - intros _ i Hi. rewrite E5 by done. destruct (Z.eqb_spec i (digit key 1)) as [->|Hne].
    + rewrite Ekey. destruct (v =? 0); [apply lookup_delete_eq|apply lookup_insert_eq].
    + rewrite <- (no_item _ _ _ _ _ _ _ HN i eq_refl Hi).
      assert (key ≠ key / 64 * 64 + i) by lia. destruct (v =? 0); [by rewrite lookup_delete_ne|by rewrite lookup_insert_ne].
  - intros j [?|Hj]; [done|]. assert (key ≠ j) by (by intros ->). destruct (v =? 0); [by rewrite lookup_delete_ne|by rewrite lookup_insert_ne].
  - intros j x. destruct (Z.eqb_spec v 0) as [->|Hv].
    + intros [_ Hj]%lookup_delete_Some. destruct (ro_item _ _ _ _ HR j x Hj) as (? & ? & _). done.
    + intros [[<- <-]|[_ Hj]]%lookup_insert_Some; [done|]. destruct (ro_item _ _ _ _ HR j x Hj) as (? & ? & _). done.
Qed.

(** ** Growth *)

Lemma objs_ok a a' r W m : radix_ok a r W m → os_inv a' → (∀ x, os_live a x → os_live a' x) → radix_ok a' r W m.
Proof. intros [R1 R2 R3 R4 R5 R6 R7 R8 R9] Hi Hl. split; try done. intros p Hp. by apply Hl, R2. Qed.

Lemma new_node_kid i : kid new_node i = 0.
Proof.
  unfold kid, aget, new_node. cbn [children]. destruct (0 <=? i); [|done]. destruct (replicate 64 0 !! Z.to_nat i) as [x|] eqn:E; [|done].
  by apply lookup_replicate in E as [-> _].
Qed.

Lemma fresh_node a r W m p : radix_ok a r W m → ¬ os_live a p → nodes r !! p = None ∧ W !! p = None.
Proof.
  intros HR Hp. assert (nodes r !! p = None) as E by (apply eq_None_not_Some; intros Hs; by apply Hp, (ro_live _ _ _ _ HR)).
  split; [done|]. apply eq_None_not_Some. intros Hs%(ro_dom _ _ _ _ HR). rewrite E in Hs. by destruct Hs.
Qed.

(** The new root of an empty tree, and of another one. *)
Lemma first_root_ok a a' r W m p n :
  radix_ok a r W m → height r = 0 → ¬ os_live a p → os_inv a' → (∀ x, os_live a' x ↔ os_live a x ∨ x = p) →
  length (children n) = 64%nat → length (bitmap n) = 2%nat → count n = 0 → parent n = 0 → (∀ i, kid n i = 0) →
  radix_ok a' (Radix p 1 (MAX_KEY_ID 1) (<[p := n]> (nodes r))) {[p := (1, 0)]} m.
Proof.
  intros HR Hh Hp Hi Hl N1 N2 N3 N4 Nk. pose proof HR as [R1 R2 R3 R4 R5 R6 R7 R8 R9]. destruct (R5 Hh) as [_ ->].
  assert (nodes r = ∅) as ->.
  { apply map_empty. intros q. apply eq_None_not_Some. rewrite <- R7, lookup_empty. by intros [? ?]. }
  assert (Hm : ∀ key, m !! key = None).
  { intros key. destruct (m !! key) eqn:E; [|done]. destruct (R9 _ _ E) as (_ & _ & q & Hq). by rewrite lookup_empty in Hq. }
  split; cbn [height root_node max_key nodes]; try done.
  - intros q Hq. rewrite lookup_insert_is_Some', lookup_empty in Hq. destruct Hq as [<-|[? ?]]; [|done]. apply Hl. by right.
  - intros _. apply lookup_singleton_eq.
  - intros q. rewrite <- insert_empty, !lookup_insert_is_Some', !lookup_empty. split; (intros [?|[? ?]]; [by left|done]).
  - intros q lv pre x [<- [= <- <-]]%lookup_singleton_Some. rewrite lookup_insert_eq. intros [= <-]. split; cbn; try done.
    + rewrite N3. symmetry. apply filled_zero. intros c (j & Hj)%list_elem_of_lookup. specialize (Nk (Z.of_nat j)).
      unfold kid, aget in Nk. rewrite (proj2 (Z.leb_le 0 (Z.of_nat j))), Nat2Z.id, Hj in Nk by lia. done.
    + intros i _ _. by rewrite Hm, Nk.
  - intros key v E. by rewrite Hm in E.
Qed.

Lemma next_root_ok a a' r W m p n old :
  radix_ok a r W m → 0 < height r ≤ 5 → ¬ os_live a p → os_inv a' → (∀ x, os_live a' x ↔ os_live a x ∨ x = p) → object_addr p →
  nodes r !! root_node r = Some old →
  length (children n) = 64%nat → length (bitmap n) = 2%nat → count n = filled (children n) → parent n = 0 →
  (∀ i, 0 ≤ i < 64 → kid n i = if i =? 0 then root_node r else 0) →
  radix_ok a' (Radix p (height r + 1) (MAX_KEY_ID (height r + 1)) (<[p := n]> (<[root_node r := set_parent old p]> (nodes r))))
    (<[p := (height r + 1, 0)]> W) m.
Proof.
  intros HR Hh Hp Hi Hl Ho Hold N1 N2 N3 N4 Nk. destruct (fresh_node a r W m p HR Hp) as [Fn FW]. pose proof HR as [R1 R2 R3 R4 R5 R6 R7 R8 R9].
  pose proof (R6 ltac:(lia)) as Hroot. assert (root_node r ≠ p) as Hrp by (intros E; rewrite E in Hroot; congruence).
  assert (Hother : ∀ q x, nodes r !! q = Some x → ∃ x', <[p := n]> (<[root_node r := set_parent old p]> (nodes r)) !! q = Some x' ∧
     ∀ j, kid x' j = kid x j).
  { intros q x Hx. assert (p ≠ q) by (intros ->; congruence). rewrite lookup_insert_ne by done. destruct (decide (root_node r = q)) as [<-|Hne].
    - rewrite lookup_insert_eq. eexists. split; [done|]. intros j. assert (x = old) as -> by congruence. done.
    - rewrite lookup_insert_ne by done. by exists x. }
  split; cbn [height root_node max_key nodes]; try done; try lia.
  - intros q. rewrite !lookup_insert_is_Some'. intros [<-|[<-|Hq]]; apply Hl; [by right|left; apply R2; eauto|left; by apply R2].
  - intros _. apply lookup_insert_eq.
  - intros q. rewrite !lookup_insert_is_Some', R7. split; [intros [?|?]; auto|]. intros [?|[<-|?]]; [by left|right; eauto|by right].
  - intros q lv pre x Hq Hx. rewrite lookup_insert_Some in Hq. destruct Hq as [[<- [= <- <-]]|[Hpq Hq]].
    + rewrite lookup_insert_eq in Hx. injection Hx as <-. split; cbn [height root_node nodes]; try done; try lia.
      intros i _ Hi'. rewrite Nk by done. destruct (Z.eqb_spec i 0) as [->|]; [|done]. intros _. rewrite lookup_insert_ne by congruence.
      rewrite Hroot. do 2 f_equal. lia.
    + assert (∃ x0, nodes r !! q = Some x0 ∧ children x = children x0 ∧ bitmap x = bitmap x0 ∧ count x = count x0 ∧
               parent x = if decide (q = root_node r) then p else parent x0) as (x0 & Hx0 & E1 & E2 & E3 & E4).
      { rewrite lookup_insert_ne in Hx by done. destruct (decide (q = root_node r)) as [->|Hne].
        - rewrite lookup_insert_eq in Hx. injection Hx as <-. by exists old.
        - rewrite lookup_insert_ne in Hx by done. by exists x. }
      destruct (R8 q lv pre x0 Hq Hx0) as [M1 M2 M3 M4 M5 M6 M7 M8 M9]. split; unfold kid in *; cbn [height root_node nodes]; rewrite ?E1, ?E2, ?E3; try done; try lia.
      * intros i Hlv Hi' Hk. specialize (M6 i Hlv Hi' Hk). rewrite lookup_insert_ne; [done|]. intros Ek. rewrite <- Ek in M6. congruence.
      * intros _. rewrite E4. case_decide as Eq.
        { exists n. rewrite !lookup_insert_eq. assert (lv = height r ∧ pre = 0) as [-> ->] by (rewrite Eq, Hroot in Hq; split; congruence).
          split; [done|]. split; [done|]. rewrite Eq. change (0 mod 64) with 0. exact (Nk 0 ltac:(lia)). }
        assert (lv ≠ height r) as Hlv by (intros E; by destruct (M8 E)). destruct (M9 Hlv) as (g & Hg & Hw & Hkg).
        destruct (Hother _ g Hg) as (g' & Hg' & Hkk). exists g'. split; [done|]. split; [|by rewrite <- Hkg; apply Hkk].
        rewrite lookup_insert_ne; [done|]. intros Ep. rewrite <- Ep in Hw. congruence.
  - intros key v E. destruct (R9 key v E) as (? & ? & q & Hq). split; [done|]. split; [done|]. exists q. rewrite lookup_insert_ne; [done|]. intros ->. congruence.
Qed.

Lemma expand_ok a r W m :
  radix_ok a r W m → height r ≤ 5 →
  ∃ a' r' out W', expand_tree a r = Some (a', r', out) ∧ radix_ok a' r' W' m ∧
    (out = - ENOMEM ∧ height r' = height r ∨ out = 0 ∧ height r' = height r + 1).
Proof.
  intros HR Hh. pose proof (ro_height _ _ _ _ HR) as Hb. unfold expand_tree.
  destruct (os_alloc_law a (ro_objs _ _ _ _ HR)) as (a' & p & -> & Hi & Hc). cbn [mbind option_bind]. destruct Hc as [[-> Hl]|(Ho & Hp & Hl)].
  { rewrite Z.eqb_refl. exists a', r, (- ENOMEM), W. split; [done|]. split; [|by left]. eapply objs_ok; [done|done|]. intros x. apply Hl. }
  rewrite (proj2 (Z.eqb_neq p 0)) by apply Ho. destruct (radix_set_child_ok new_node 0 (root_node r)) as (n & -> & N1 & Nk & Nf & N2 & N3 & N4 & N5); [done|lia|].
  cbn [mbind option_bind]. destruct (Z.eqb_spec (height r) 0) as [E0|Hne].
  - cbn [mbind option_bind]. eexists _, _, _, _. split; [done|]. split; [|by right]. cbn [put_node nodes height]. rewrite E0. change (0 + 1) with 1.
    apply (first_root_ok a a' r W m p n HR E0 Hp Hi Hl N1); [by rewrite N3|by rewrite N5|by rewrite N4|].
    destruct (ro_empty _ _ _ _ HR E0) as [Er _]. intros j. unfold kid. destruct (aget (children n) j) as [c|] eqn:Ej; [|done].
    pose proof (aget_Some_range _ _ _ Ej) as Hj. specialize (Nk j ltac:(lia)). unfold kid in Nk. rewrite Ej in Nk. cbn [default] in Nk |- *.
    rewrite Nk, Er. destruct (j =? 0); [done|]. apply new_node_kid.
  - pose proof (ro_root _ _ _ _ HR Hne) as Hroot. destruct (node_at _ _ _ _ HR _ _ _ Hroot) as (old & Hold & _). rewrite Hold. cbn [mbind option_bind].
    destruct (bitmap_set_spec (bitmap n) 63) as (bm & Eb & Hbl & _); [rewrite N3; vm_compute; split; congruence|]. rewrite Eb. cbn [mbind option_bind].
    eexists _, _, _, _. split; [done|]. split; [|right; by split].
    cbn [put_node nodes height]. eapply (next_root_ok a a' r W m p _ old HR); try done; [lia|cbn; by rewrite Hbl, N3| |].
    + change (u32 1 = filled (children n)). rewrite Nf, new_node_kid. cbn [Z.eqb]. rewrite (proj2 (Z.eqb_neq (root_node r) 0)) by (by eapply node_nonzero).
      by vm_compute.
    + intros j Hj. change (kid (set_bitmap (set_count (set_tags n (if ctrue (tags old) then 9223372036854775808 else 0)) 1) bm) j) with (kid n j).
      rewrite Nk by done. by rewrite new_node_kid.
Qed.

Lemma expand_loop_ok fuel a r W m key :
  radix_ok a r W m → 0 ≤ key < wsize → (Z.to_nat (7 - height r) ≤ fuel)%nat →
  ∃ a' r' out W', expand_loop fuel a r key = Some (a', r', out) ∧ radix_ok a' r' W' m ∧
    (out = - ENOMEM ∨ out = 0 ∧ height r' ≠ 0 ∧ key ≤ max_key r').
Proof.
  intros HR Hk. revert a r W HR. induction fuel as [|fuel IH]; intros a r W HR Hf; pose proof (ro_height _ _ _ _ HR) as Hb; [lia|].
  cbn [expand_loop]. destruct ((height r =? 0) || (max_key r <? key)) eqn:Ec.
  - assert (height r ≤ 5) as Hh.
    { destruct (decide (height r = 6)) as [E6|]; [|lia]. rewrite (ro_max _ _ _ _ HR), E6 in Ec. cbn in Ec. unfold wsize in Hk. lia. }
    destruct (expand_ok a r W m HR Hh) as (a' & r' & out & W' & -> & HR' & Hout). cbn [mbind option_bind]. destruct Hout as [[-> _]|[-> Hh']].
    + exists a', r', (- ENOMEM), W'. split; [done|]. split; [done|by left].
    + cbn [ctrue Z.eqb negb]. apply (IH a' r' W' HR'). lia.
  - apply orb_false_iff in Ec as [E1%Z.eqb_neq E2%Z.ltb_ge]. exists a, r, 0, W. split; [done|]. split; [done|]. by right.
Qed.

(** Below an empty slot there are no items. *)
Lemma empty_below a r W m p pre n i j :
  radix_ok a r W m → W !! p = Some (2, pre) → nodes r !! p = Some n → 0 ≤ i < 64 → kid n i = 0 → 0 ≤ j < 64 →
  m !! ((pre * 64 + i) * 64 + j) = None.
Proof.
  intros HR Hp Hn Hi Hk0 Hj. pose proof (no_level _ _ _ _ _ _ _ (ro_node _ _ _ _ HR p 2 pre n Hp Hn)) as Hlv.
  apply (no_leaf_item a r W m HR). intros q Hq. rewrite Z.div_add_l, Z.div_small, Z.add_0_r in Hq by lia.
  destruct (node_at _ _ _ _ HR _ _ _ Hq) as (x & _ & HX).
  destruct (no_parent _ _ _ _ _ _ _ HX ltac:(lia)) as (g & Hg & Hw & Hkg). rewrite Z.div_add_l, Z.div_small, Z.add_0_r in Hw by lia.
  rewrite Z.add_comm, Z.mod_add, Z.mod_small in Hkg by lia. pose proof (position_unique _ _ _ _ HR _ _ _ _ Hw Hp) as E. rewrite E in Hg.
  assert (g = n) as -> by congruence. rewrite Hk0 in Hkg. by destruct (node_nonzero _ _ _ _ HR q _ _ Hq).
Qed.

(** A node is added below another one. *)
Lemma hang_ok a a' r W m p lv pre n i c n' :
  radix_ok a r W m → W !! p = Some (lv, pre) → lv ≠ 1 → nodes r !! p = Some n → 0 ≤ i < 64 → kid n i = 0 →
  ¬ os_live a c → os_inv a' → (∀ x, os_live a' x ↔ os_live a x ∨ x = c) →
  length (children n') = 64%nat → length (bitmap n') = 2%nat → count n' = filled (children n') → parent n' = parent n →
  (∀ j, 0 ≤ j < 64 → kid n' j = if j =? i then c else kid n j) →
  radix_ok a' (put_node (put_node r c (set_parent new_node p)) p n') (<[c := (lv - 1, pre * 64 + i)]> W) m.
Proof.
  intros HR Hp Hlv Hn Hi Hk0 Hc Hoi Hl P1 P2 P3 P4 Hkid. destruct (fresh_node a r W m c HR Hc) as [Fn FW].
  pose proof (ro_node _ _ _ _ HR p lv pre n Hp Hn) as [N1 N2 N3 N4 N5 N6 N7 N8 N9]. assert (c ≠ p) as Hcp by (intros ->; congruence).
  set (W' := <[c := (lv - 1, pre * 64 + i)]> W).
  assert (Hup : ∀ q x, W !! q = Some x → W' !! q = Some x) by (intros q x Hq; unfold W'; rewrite lookup_insert_ne; [done|intros ->; congruence]).
  pose proof HR as [R1 R2 R3 R4 R5 R6 R7 R8 R9]. split; cbn [put_node nodes height root_node max_key]; try done.
  - intros q. rewrite !lookup_insert_is_Some'. intros [<-|[<-|Hq]]; apply Hl; [left; apply R2; eauto|by right|left; by apply R2].
  - intros E. lia.
  - intros E. by apply Hup, R6.
  - intros q. unfold W'. rewrite !lookup_insert_is_Some', R7. split; [intros [?|?]; auto|]. intros [<-|[?|?]]; [right; eauto|by left|by right].
  - intros q lv' pre' x Hq Hx. destruct (decide (q = c)) as [->|Hqc].
    { unfold W' in Hq. rewrite lookup_insert_eq in Hq. injection Hq as <- <-. rewrite lookup_insert_ne, lookup_insert_eq in Hx by done. injection Hx as <-.
      split; cbn [put_node nodes height root_node]; try done; try lia.
      - intros j _ _ Hk. destruct Hk. apply (new_node_kid j).
      - intros j E1 Hj. replace lv with 2 in Hp by lia. rewrite (empty_below a r W m p pre n i j) by done.
        change (kid (set_parent new_node p) j) with (kid new_node j). by rewrite new_node_kid.
      - intros _. exists n'. cbn [parent set_parent]. rewrite lookup_insert_eq. split; [done|]. split.
        + rewrite (Hup p _ Hp), Z.div_add_l, (Z.div_small i), Z.add_0_r by lia. do 2 f_equal. lia.
        + rewrite Z.add_comm, Z.mod_add, Z.mod_small, Hkid by lia. by rewrite Z.eqb_refl. }
    unfold W' in Hq. rewrite lookup_insert_ne in Hq by done. destruct (decide (q = p)) as [->|Hqp].
    + rewrite lookup_insert_eq in Hx. injection Hx as <-. assert (lv' = lv ∧ pre' = pre) as [-> ->] by (split; congruence).
      split; cbn [put_node nodes height root_node]; rewrite ?P4; try done.
      * intros j _ Hj. rewrite Hkid by done. destruct (Z.eqb_spec j i) as [->|]; [intros _; apply lookup_insert_eq|].
        intros Hk. by apply Hup, N6.
      * intros E. destruct (N9 E) as (g & Hg & Hw & Hkg). exists g.
        assert (parent n ≠ p) by (intros Ep; rewrite Ep, Hp in Hw; injection Hw as ? _; lia).
        assert (parent n ≠ c) by (intros Ep; rewrite Ep in Hw; congruence). rewrite !lookup_insert_ne by done. split; [done|]. split; [by apply Hup|done].
    + rewrite !lookup_insert_ne in Hx by done. destruct (R8 q lv' pre' x Hq Hx) as [M1 M2 M3 M4 M5 M6 M7 M8 M9].
      split; cbn [put_node nodes height root_node]; try done.
      * intros j Hj1 Hj2 Hk. by apply Hup, M6.
      * intros E. destruct (M9 E) as (g & Hg & Hw & Hkg). destruct (decide (parent x = p)) as [Ep|Hnp].
        { exists n'. rewrite Ep in *. rewrite lookup_insert_eq. split; [done|]. split; [by apply Hup|]. assert (g = n) as -> by congruence.
          rewrite Hkid by (apply Z.mod_pos_bound; lia). destruct (Z.eqb_spec (pre' mod 64) i) as [E1|]; [|done].
          rewrite E1, Hk0 in Hkg. by destruct (node_nonzero _ _ _ _ HR q _ _ Hq). }
        exists g. assert (parent x ≠ c) by (intros Ep; rewrite Ep in Hw; congruence). rewrite !lookup_insert_ne by done.
        split; [done|]. split; [by apply Hup|done].
  - intros key v E. destruct (R9 key v E) as (? & ? & q & Hq). split; [done|]. split; [done|]. exists q. by apply Hup.
Qed.

(** The state of a tree that operations on the nodes leave alone. *)
Definition same_size r r' : Prop := height r' = height r ∧ max_key r' = max_key r ∧ root_node r' = root_node r.

Lemma create_ok a r W m p lv pre n i :
  radix_ok a r W m → W !! p = Some (lv, pre) → lv ≠ 1 → nodes r !! p = Some n → 0 ≤ i < 64 → kid n i = 0 →
  ∃ a' r' err W', create_node a r p i = Some (a', r', err) ∧ radix_ok a' r' W' m ∧ same_size r r' ∧
    (∀ q x, W !! q = Some x → W' !! q = Some x) ∧
    (err = - ENOMEM ∨ err = 0 ∧ ∃ c n', W' !! c = Some (lv - 1, pre * 64 + i) ∧ nodes r' !! p = Some n' ∧ aget (children n') i = Some c).
Proof.
  intros HR Hp Hlv Hn Hi Hk0. pose proof (ro_node _ _ _ _ HR p lv pre n Hp Hn) as HN. unfold create_node.
  destruct (os_alloc_law a (ro_objs _ _ _ _ HR)) as (a' & c & -> & Hoi & Hc). cbn [mbind option_bind]. destruct Hc as [[-> Hl]|(Ho & Hc & Hl)].
  { rewrite Z.eqb_refl. exists a', r, (- ENOMEM), W. split; [done|]. split; [eapply objs_ok; [done|done|intros x; apply Hl]|]. do 2 (split; [done|]). by left. }
  rewrite (proj2 (Z.eqb_neq c 0)) by apply Ho. destruct (fresh_node a r W m c HR Hc) as [Fn FW]. assert (c ≠ p) as Hcp by (intros ->; congruence).
  cbn [put_node nodes]. rewrite lookup_insert_ne, Hn by done. cbn [mbind option_bind].
  destruct (radix_set_child_ok (set_count n (count n + 1)) i c) as (n1 & -> & K1 & Kk & Kf & _ & K3 & K4 & K5); [apply HN|done|]. cbn [mbind option_bind].
  destruct (bitmap_set_spec (bitmap n1) i) as (bm & -> & Hbl & _); [rewrite K3; unfold bm_bits; cbn [bitmap set_count]; rewrite (no_bits _ _ _ _ _ _ _ HN); unfold CPU_WIDTH; lia|].
  cbn [mbind option_bind]. eexists _, _, _, _. split; [done|]. split; [|split; [done|split]].
  - eapply (hang_ok a a' r W m p lv pre n i c (set_bitmap n1 bm) HR Hp Hlv Hn Hi Hk0 Hc Hoi Hl K1); [|rename Kk into Hkid|exact K4|exact Kk].
    + cbn [bitmap set_bitmap]. rewrite Hbl, K3. apply HN.
    + cbn [count children set_bitmap]. rewrite Kf, K5. change (kid (set_count n (count n + 1)) i) with (kid n i). rewrite Hk0, Z.eqb_refl.
      rewrite (proj2 (Z.eqb_neq c 0)) by apply Ho. cbn [count set_count children]. rewrite (no_count _ _ _ _ _ _ _ HN).
      pose proof (filled_bound (children n)). rewrite (no_kids _ _ _ _ _ _ _ HN) in *. rewrite u32_small; unfold wsize; lia.
  - intros q x Hq. rewrite lookup_insert_ne; [done|intros ->; congruence].
  - right. split; [done|]. exists c, (set_bitmap n1 bm). split; [apply lookup_insert_eq|]. split; [apply lookup_insert_eq|].
    rewrite (kid_get (set_bitmap n1 bm) i K1 Hi). f_equal. change (kid n1 i = c). rewrite Kk by done. by rewrite Z.eqb_refl.
Qed.

(** ** Insertion *)

(** The nodes on the way to a key exist from [lv] up. *)
Lemma radix_insert_loop_ok key fuel a r W m p lv :
  radix_ok a r W m → 0 ≤ key < wsize → W !! p = Some (lv, key / 64 ^ lv) → (Z.to_nat lv ≤ fuel)%nat →
  ∃ a' r' res W', insert_loop fuel a r key p (height r - lv) = Some (a', r', res) ∧ radix_ok a' r' W' m ∧ same_size r r' ∧
    match res with
    | inl (q, ch) => ch = height r - 1 ∧ W' !! q = Some (1, key / 64)
    | inr err => err = - ENOMEM
    end.
Proof.
  intros HR Hk. revert a r W p lv HR. induction fuel as [|fuel IH]; intros a r W p lv HR Hp Hf; destruct (node_at _ _ _ _ HR _ _ _ Hp) as (n & Hn & HN);
    pose proof (no_level _ _ _ _ _ _ _ HN) as Hl; [lia|]. cbn [insert_loop]. destruct (Z.leb_spec (height r) (height r - lv + 1)) as [Hle|Hgt].
  { assert (lv = 1) as -> by lia. eexists _, _, _, W. split; [done|]. by split_and!. }
  rewrite Hn. cbn [mbind option_bind]. rewrite NEXT_CHILD_spec by lia. pose proof (digit_range key lv) as Hd. set (i := digit key lv) in *.
  rewrite (kid_get n i (no_kids _ _ _ _ _ _ _ HN) Hd). cbn [mbind option_bind].
  assert (Edown : key / 64 ^ lv * 64 + i = key / 64 ^ (lv - 1)) by (symmetry; apply upper_digits; lia).
  replace (height r - lv + 1) with (height r - (lv - 1)) by lia. destruct (Z.eqb_spec (kid n i) 0) as [E0|Hne].
  - destruct (create_ok a r W m p lv _ n i HR Hp ltac:(lia) Hn Hd E0) as (a1 & r1 & err & W1 & -> & HR1 & Hs & Hup & Herr). cbn [mbind option_bind].
    destruct Herr as [->|(-> & c & n' & Hc & Hn' & Hk')]; [by eexists _, _, _, W1|]. cbn [ctrue Z.eqb negb]. rewrite Hn'. cbn [mbind option_bind].
    rewrite Hk'. cbn [mbind option_bind]. pose proof Hs as (E1 & E2 & E3). rewrite Edown in Hc.
    destruct (IH a1 r1 W1 c (lv - 1) HR1 Hc ltac:(lia)) as (a2 & r2 & res & W2 & Ex & HR2 & (F1 & F2 & F3) & Hres).
    rewrite E1 in Ex, Hres. exists a2, r2, res, W2. split; [done|]. split; [done|]. split; [|done]. split_and!; congruence.
  - cbn [ctrue Z.eqb negb mbind option_bind]. rewrite Hn. cbn [mbind option_bind]. rewrite (kid_get n i (no_kids _ _ _ _ _ _ _ HN) Hd). cbn [mbind option_bind].
    apply (IH a r W (kid n i) (lv - 1) HR); [|lia]. rewrite (no_child _ _ _ _ _ _ _ HN i ltac:(lia) Hd Hne). by rewrite Edown.
Qed.

(** The result of an insertion, and the map after it. *)
Definition inserted (m : gmap Z Z) (key v out : Z) (m' : gmap Z Z) : Prop :=
  out = 0 ∧ m !! key = None ∧ m' = <[key := v]> m ∨ out = - EEXIST ∧ is_Some (m !! key) ∧ m' = m ∨ out = - ENOMEM ∧ m' = m.

Lemma insert_ok a r W m key v :
  radix_ok a r W m → 0 ≤ key < wsize → v ≠ 0 →
  ∃ a' r' out W' m', radix_tree_insert a r key v = Some (a', r', out) ∧ radix_ok a' r' W' m' ∧ inserted m key v out m'.
Proof.
  intros HR Hk Hv. unfold radix_tree_insert. pose proof (ro_height _ _ _ _ HR) as Hb.
  destruct (expand_loop_ok 8 a r W m key HR Hk) as (a1 & r1 & out & W1 & -> & HR1 & Hout); [lia|]. cbn [mbind option_bind].
  destruct Hout as [->|(-> & Hh & Hmax)]; [exists a1, r1, (- ENOMEM), W1, m; split; [done|]; split; [done|]; by right; right|]. cbn [ctrue Z.eqb negb].
  pose proof (ro_height _ _ _ _ HR1) as Hb1.
  destruct (radix_insert_loop_ok key (radix_fuel r1) a1 r1 W1 m (root_node r1) (height r1) HR1 Hk) as (a2 & r2 & res & W2 & Ex & HR2 & (E1 & E2 & E3) & Hres);
    [by apply (key_in_root a1 r1 W1 m HR1)|unfold radix_fuel; lia|].
  rewrite Z.sub_diag in Ex. rewrite Ex. cbn [mbind option_bind]. destruct res as [[q ch]|err].
  2:{ subst err. exists a2, r2, (- ENOMEM), W2, m. split; [done|]. split; [done|]. by right; right. }
  destruct Hres as [-> Hq]. destruct (node_at _ _ _ _ HR2 _ _ _ Hq) as (n & Hn & HN). rewrite Hn. cbn [mbind option_bind].
  rewrite <- E1, NEXT_CHILD_spec by lia. pose proof (digit_range key 1) as Hd. set (i := digit key 1) in *.
  rewrite (kid_get n i (no_kids _ _ _ _ _ _ _ HN) Hd). cbn [mbind option_bind]. pose proof (leaf_item _ _ _ _ HR2 key q n (proj1 Hk) Hq Hn) as Em. fold i in Em.
  destruct (Z.eqb_spec (kid n i) 0) as [E0|Hne]; cbn [negb].
  2:{ exists a2, r2, (- EEXIST), W2, m. split; [done|]. split; [done|]. right; left. rewrite Em. eauto. }
  destruct (radix_set_child_ok n i v (no_kids _ _ _ _ _ _ _ HN) Hd) as (n1 & -> & K1 & Kk & Kf & _ & K3 & K4 & K5). cbn [mbind option_bind].
  destruct (bitmap_set_spec (bitmap n1) i) as (bm & -> & Hbl & _); [rewrite K3; unfold bm_bits; rewrite (no_bits _ _ _ _ _ _ _ HN); unfold CPU_WIDTH; lia|].
  cbn [mbind option_bind]. eexists _, _, _, W2, (<[key := v]> m). split; [done|]. split; [|by left].
  pose proof (item_ok a2 r2 W2 m q key n (set_bitmap (set_count n1 (count n1 + 1)) bm) v HR2 Hk Hq Hn K1) as Hit.
  rewrite (proj2 (Z.eqb_neq v 0)) in Hit by done. apply Hit; [|rename Kk into Hkid|exact K4|exact Kk].
  - cbn [bitmap set_bitmap]. rewrite Hbl, K3. apply HN.
  - cbn [count children set_bitmap set_count]. rewrite Kf, K5, E0, Z.eqb_refl, (no_count _ _ _ _ _ _ _ HN). rewrite (proj2 (Z.eqb_neq v 0)) by done.
    pose proof (filled_bound (children n)). rewrite (no_kids _ _ _ _ _ _ _ HN) in *. rewrite u32_small; unfold wsize; lia.
Qed.

(** ** Removal *)

Lemma remove_child_ok r p n i :
  nodes r !! p = Some n → length (children n) = 64%nat → length (bitmap n) = 2%nat → 0 ≤ i < 64 → kid n i ≠ 0 → count n = filled (children n) →
  ∃ n', remove_child r p i = Some (put_node r p n') ∧ length (children n') = 64%nat ∧ length (bitmap n') = 2%nat ∧
    count n' = filled (children n') ∧ parent n' = parent n ∧ count n' = count n - 1 ∧ ∀ j, 0 ≤ j < 64 → kid n' j = if j =? i then 0 else kid n j.
Proof.
  intros Hn Hl Hb Hi Hk Hc. unfold remove_child. rewrite Hn. cbn [mbind option_bind].
  destruct (radix_set_child_ok n i 0 Hl Hi) as (n1 & -> & K1 & Kk & Kf & _ & K3 & K4 & K5). cbn [mbind option_bind].
  destruct (bitmap_clear_spec (bitmap n1) i) as (bm & -> & Hbl & _); [rewrite K3; unfold bm_bits; rewrite Hb; unfold CPU_WIDTH; lia|].
  cbn [mbind option_bind]. eexists. split; [done|]. rewrite (proj2 (Z.eqb_neq (kid n i) 0)), Z.eqb_refl in Kf by done.
  assert (u32 (count n1 - 1) = count n - 1) as Eu.
  { rewrite K5. pose proof (filled_bound (children n1)). pose proof (filled_bound (children n)). rewrite Hl in *. rewrite u32_small; [done|]. unfold wsize. lia. }
  split_and!; [done|cbn; by rewrite Hbl, K3|..]; cbn [count children parent TAG_CLEAR set_tags set_count set_bitmap].
  - rewrite Eu. lia.
  - done.
  - done.
  - exact Kk.
Qed.

(** A node without children is taken out. *)
Lemma prune_ok a a' r W m c lv pre x n n' :
  radix_ok a r W m → W !! c = Some (lv, pre) → nodes r !! c = Some x → count x = 0 → lv ≠ height r →
  nodes r !! parent x = Some n → length (children n') = 64%nat → length (bitmap n') = 2%nat → count n' = filled (children n') → parent n' = parent n →
  (∀ j, 0 ≤ j < 64 → kid n' j = if j =? pre mod 64 then 0 else kid n j) →
  os_inv a' → (∀ y, os_live a' y ↔ os_live a y ∧ y ≠ c) →
  radix_ok a' (put_node (drop_node r c) (parent x) n') (delete c W) m.
Proof.
  intros HR Hc Hx Hx0 Hlv Hn P1 P2 P3 P4 Hkid Hoi Hl. pose proof (ro_node _ _ _ _ HR c lv pre x Hc Hx) as HX.
  destruct (no_parent _ _ _ _ _ _ _ HX Hlv) as (n0 & Hn0 & Hp & Hkc). assert (n0 = n) as -> by congruence. set (p := parent x) in *.
  pose proof (ro_node _ _ _ _ HR p _ _ n Hp Hn) as [N1 N2 N3 N4 N5 N6 N7 N8 N9]. pose proof (no_level _ _ _ _ _ _ _ HX) as Hlx.
  assert (p ≠ c) as Hpc by (intros E; rewrite E, Hc in Hp; injection Hp as ? _; lia).
  assert (Hxk : ∀ j, 0 ≤ j < 64 → kid x j = 0).
  { intros j Hj. rewrite (no_count _ _ _ _ _ _ _ HX) in Hx0. apply (proj1 (filled_zero _) Hx0). pose proof (kid_get x j (no_kids _ _ _ _ _ _ _ HX) Hj) as E.
    unfold aget in E. rewrite (proj2 (Z.leb_le 0 j)) in E by lia. apply list_elem_of_lookup. eauto. }
  pose proof HR as [R1 R2 R3 R4 R5 R6 R7 R8 R9]. split; cbn [put_node drop_node nodes height root_node max_key]; try done.
  - intros q. rewrite lookup_insert_is_Some'. intros [<-|Hq]; apply Hl; [split; [apply R2; eauto|done]|].
    apply lookup_delete_is_Some in Hq as [? ?]. split; [by apply R2|congruence].
  - intros E. lia.
  - intros E. rewrite lookup_delete_ne; [by apply R6|]. intros E2. specialize (R6 E). rewrite <- E2, Hc in R6. congruence.
  - intros q. rewrite lookup_insert_is_Some', !lookup_delete_is_Some, R7. split; [by right|]. intros [<-|?]; [split; [done|eauto]|done].
  - intros q lv' pre' y [Hqc Hq]%lookup_delete_Some Hy. destruct (decide (q = p)) as [->|Hqp].
    + rewrite lookup_insert_eq in Hy. injection Hy as <-. assert (lv' = lv + 1 ∧ pre' = pre / 64) as [-> ->] by (split; congruence).
      split; cbn [put_node drop_node nodes height root_node]; rewrite ?P4; try done; [|intros; lia|].
      * intros j _ Hj. rewrite Hkid by done. destruct (Z.eqb_spec j (pre mod 64)) as [|Hne]; [done|]. intros Hk.
        specialize (N6 j ltac:(lia) Hj Hk). rewrite lookup_delete_ne; [done|]. intros E. rewrite <- E, Hc in N6. injection N6 as _ Epre. apply Hne.
        rewrite Epre, Z.add_comm, Z.mod_add, Z.mod_small by lia. done.
      * intros E. destruct (N9 E) as (g & Hg & Hw & Hkg). exists g.
        assert (parent n ≠ p) by (intros Ep; rewrite Ep, Hp in Hw; injection Hw as ? _; lia).
        assert (parent n ≠ c) by (intros Ep; rewrite Ep, Hc in Hw; injection Hw as ? _; lia).
        rewrite lookup_insert_ne, lookup_delete_ne, lookup_delete_ne by done. done.
    + rewrite lookup_insert_ne, lookup_delete_ne in Hy by done. destruct (R8 q lv' pre' y Hq Hy) as [M1 M2 M3 M4 M5 M6 M7 M8 M9].
      split; cbn [put_node drop_node nodes height root_node]; try done.
      * intros j Hj1 Hj2 Hk. specialize (M6 j Hj1 Hj2 Hk). rewrite lookup_delete_ne; [done|]. intros E. rewrite <- E, Hc in M6. injection M6 as E1 E2. apply Hqp.
        apply (position_unique a r W m HR q p (lv + 1) (pre / 64)); [|done]. rewrite Hq, E2, Z.div_add_l, (Z.div_small j), Z.add_0_r by lia. do 2 f_equal. lia.
      * intros E. destruct (M9 E) as (g & Hg & Hw & Hkg). assert (parent y ≠ c) as Hyc.
        { intros Ec. rewrite Ec, Hx in Hg. injection Hg as <-. rewrite Hxk in Hkg by (apply Z.mod_pos_bound; lia). by destruct (node_nonzero _ _ _ _ HR q _ _ Hq). }
        destruct (decide (parent y = p)) as [Ep|Hnp].
        { exists n'. rewrite Ep in *. rewrite lookup_insert_eq, lookup_delete_ne by done. split; [done|]. split; [done|]. assert (g = n) as -> by congruence.
          rewrite Hkid by (apply Z.mod_pos_bound; lia). destruct (Z.eqb_spec (pre' mod 64) (pre mod 64)) as [E1|]; [|done]. rewrite E1, Hkc in Hkg. congruence. }
        exists g. by rewrite lookup_insert_ne, !lookup_delete_ne.
  - intros key v E. destruct (R9 key v E) as (? & ? & q & Hq). split; [done|]. split; [done|]. exists q. rewrite lookup_delete_ne; [done|].
    intros <-. assert (0 ≤ key) as Hk0 by lia. pose proof (leaf_item a r W m HR key c x Hk0 Hq Hx) as Em. rewrite Hxk, E in Em by apply digit_range. done.
Qed.

(** The way up when the child stays: only tags change. *)
Lemma remove_keep_ok key fuel a r W m c lv x :
  radix_ok a r W m → 0 ≤ key < wsize → W !! c = Some (lv, key / 64 ^ lv) → nodes r !! c = Some x → (Z.to_nat (height r - lv) < fuel)%nat →
  ∃ r', remove_loop fuel a r key (parent x) (height r - (lv + 1)) false = Some (a, r') ∧ radix_ok a r' W m ∧ same_size r r'.
Proof.
  intros HR Hk. revert r c lv x HR. induction fuel as [|fuel IH]; intros r c lv x HR Hc Hx Hf; [lia|]. cbn [remove_loop].
  pose proof (ro_node _ _ _ _ HR c lv _ x Hc Hx) as HX. pose proof (no_level _ _ _ _ _ _ _ HX) as Hlx. destruct (decide (lv = height r)) as [E|Hlv].
  { destruct (no_root _ _ _ _ _ _ _ HX E) as (_ & _ & ->). by exists r. }
  destruct (no_parent _ _ _ _ _ _ _ HX Hlv) as (n & Hn & Hp & Hkc). set (p := parent x) in *.
  rewrite (proj2 (Z.eqb_neq p 0)) by (by eapply node_nonzero). rewrite Hn. cbn [mbind option_bind]. rewrite NEXT_CHILD_spec by lia.
  pose proof (ro_node _ _ _ _ HR p _ _ n Hp Hn) as HN. pose proof (digit_range key (lv + 1)) as Hd.
  assert (Ed : digit key (lv + 1) = key / 64 ^ lv mod 64) by (unfold digit; do 3 f_equal; lia). rewrite <- Ed in Hkc.
  rewrite (kid_get n _ (no_kids _ _ _ _ _ _ _ HN) Hd), Hkc. cbn [mbind option_bind]. rewrite Hx. cbn [mbind option_bind].
  set (n' := if ctrue (tags x) then _ else _).
  assert (E4 : children n' = children n ∧ bitmap n' = bitmap n ∧ count n' = count n ∧ parent n' = parent n) by (unfold n'; by destruct (ctrue (tags x))).
  destruct E4 as (E1 & E2 & E3 & E4). unfold free_empty. cbn [put_node nodes]. rewrite lookup_insert_eq. cbn [mbind option_bind].
  assert (count n' ≠ 0) as Hne.
  { rewrite E3, (no_count _ _ _ _ _ _ _ HN). intros E0. apply (node_nonzero _ _ _ _ HR c _ _ Hc). rewrite <- Hkc.
    apply (proj1 (filled_zero _) E0). pose proof (kid_get n _ (no_kids _ _ _ _ _ _ _ HN) Hd) as E. unfold aget in E.
    rewrite (proj2 (Z.leb_le 0 _)) in E by lia. apply list_elem_of_lookup. eauto. }
  rewrite (proj2 (Z.eqb_neq _ 0)) by done. cbn [mbind option_bind].
  assert (HR1 : radix_ok a (put_node r p n') W m) by (apply (retag_ok a r W m p n n' HR Hn); [done|rewrite E2; apply HN|done|done]).
  assert (Hp' : W !! p = Some (lv + 1, key / 64 ^ (lv + 1))).
  { rewrite Hp. do 2 f_equal. rewrite Z.div_div, Z.pow_add_r, Z.pow_1_r by (try apply Z.pow_pos_nonneg; lia). done. }
  destruct (IH (put_node r p n') p (lv + 1) n' HR1 Hp' (lookup_insert_eq _ _ _)) as (r' & Ex & HR' & Hs); [cbn; lia|]. exists r'. split; [|done].
  rewrite E4 in Ex. cbn [put_node height] in Ex. rewrite <- Ex. f_equal. lia.
Qed.

Lemma count_kid r W m p lv pre n i : node_ok r W m p lv pre n → 0 ≤ i < 64 → kid n i ≠ 0 → count n ≠ 0.
Proof.
  intros HN Hi Hk. rewrite (no_count _ _ _ _ _ _ _ HN). intros E0. apply Hk, (proj1 (filled_zero _) E0).
  pose proof (kid_get n i (no_kids _ _ _ _ _ _ _ HN) Hi) as E. unfold aget in E. rewrite (proj2 (Z.leb_le 0 _)) in E by lia.
  apply list_elem_of_lookup. eauto.
Qed.

(** The child of the root on the way to an item. *)
Lemma root_kid a r W m key v n :
  radix_ok a r W m → m !! key = Some v → nodes r !! root_node r = Some n → kid n (digit key (height r)) ≠ 0.
Proof.
  intros HR Hm Hn. destruct (item_in_range _ _ _ _ HR key v Hm) as [Hh Hmax]. destruct (ro_item _ _ _ _ HR key v Hm) as (Hv & Hk & q & Hq).
  pose proof (key_in_root _ _ _ _ HR key Hh Hk Hmax) as Hroot. pose proof (ro_height _ _ _ _ HR) as Hb. destruct (decide (height r = 1)) as [E1|Hne].
  - rewrite E1 in *. assert (q = root_node r) as -> by (eapply (position_unique _ _ _ _ HR); [exact Hq|by rewrite pow64_1]).
    pose proof (leaf_item _ _ _ _ HR key _ n (proj1 Hk) Hq Hn) as Em. rewrite Hm in Em. by destruct (Z.eqb_spec (kid n (digit key 1)) 0).
  - rewrite pow64_1 in Hq. destruct (node_above _ _ _ _ HR q 1 key Hq ltac:(lia) (height r - 1) ltac:(lia)) as [x Hx].
    rewrite (child_on_path _ _ _ _ HR _ x (height r) key n ltac:(lia) Hroot Hn Hx). by eapply node_nonzero.
Qed.

Lemma root_filled a r W m n : radix_ok a r W m → m ≠ ∅ → nodes r !! root_node r = Some n → count n ≠ 0.
Proof.
  intros HR (key & v & Hm)%map_choose Hn. destruct (item_in_range _ _ _ _ HR key v Hm) as [Hh _]. pose proof (ro_root _ _ _ _ HR Hh) as Hroot.
  eapply count_kid; [exact (ro_node _ _ _ _ HR _ _ _ _ Hroot Hn)|apply digit_range|by eapply root_kid].
Qed.

(** The way up from a node that was freed. *)
Lemma remove_up_ok key fuel a0 a r W m c lv x :
  radix_ok a0 r W m → 0 ≤ key < wsize → m ≠ ∅ → W !! c = Some (lv, key / 64 ^ lv) → nodes r !! c = Some x → count x = 0 → lv ≠ height r →
  os_inv a → (∀ y, os_live a y ↔ os_live a0 y ∧ y ≠ c) → (Z.to_nat (height r - lv) < fuel)%nat →
  ∃ a' r' W', remove_loop fuel a (drop_node r c) key (parent x) (height r - (lv + 1)) true = Some (a', r') ∧ radix_ok a' r' W' m ∧ same_size r r'.
Proof.
  intros HR Hk Hm. revert a0 a r W c lv x HR. induction fuel as [|fuel IH]; intros a0 a r W c lv x HR Hc Hx Hx0 Hlv Hoi Hl Hf; [lia|]. cbn [remove_loop].
  pose proof (ro_node _ _ _ _ HR c lv _ x Hc Hx) as HX. pose proof (no_level _ _ _ _ _ _ _ HX) as Hlx.
  destruct (no_parent _ _ _ _ _ _ _ HX Hlv) as (n & Hn & Hp & Hkc). set (p := parent x) in *.
  rewrite (proj2 (Z.eqb_neq p 0)) by (by eapply node_nonzero).
  assert (c ≠ p) as Hcp by (intros E; rewrite <- E, Hc in Hp; injection Hp as ? _; lia).
  cbn [drop_node nodes]. rewrite lookup_delete_ne, Hn by done. cbn [mbind option_bind].
  change (NEXT_CHILD (drop_node r c)) with (NEXT_CHILD r). rewrite NEXT_CHILD_spec by lia.
  pose proof (ro_node _ _ _ _ HR p _ _ n Hp Hn) as HN. pose proof (digit_range key (lv + 1)) as Hd.
  assert (Ed : digit key (lv + 1) = key / 64 ^ lv mod 64) by (unfold digit; do 3 f_equal; lia). rewrite <- Ed in Hkc.
  destruct (remove_child_ok (drop_node r c) p n (digit key (lv + 1))) as (n' & -> & P1 & P2 & P3 & P4 & P5 & Pk);
    [cbn; by rewrite lookup_delete_ne|apply HN|apply HN|done|rewrite Hkc; by eapply node_nonzero|apply HN|]. cbn [mbind option_bind].
  pose proof Pk as Pk'. setoid_rewrite Ed in Pk'. pose proof (prune_ok a0 a r W m c lv _ x n n' HR Hc Hx Hx0 Hlv Hn P1 P2 P3 P4 Pk' Hoi Hl) as HR1.
  fold p in HR1. set (r1 := put_node (drop_node r c) p n') in *.
  assert (Hn' : nodes r1 !! p = Some n') by apply lookup_insert_eq.
  assert (Hp' : delete c W !! p = Some (lv + 1, key / 64 ^ (lv + 1))).
  { rewrite lookup_delete_ne, Hp by done. do 2 f_equal. rewrite Z.div_div, Z.pow_add_r, Z.pow_1_r by (try apply Z.pow_pos_nonneg; lia). done. }
  unfold free_empty. rewrite Hn'. cbn [mbind option_bind]. replace (height r - (lv + 1) - 1) with (height r1 - (lv + 1 + 1)) by (cbn; lia).
  rewrite <- P4. destruct (Z.eqb_spec (count n') 0) as [E0|Hne].
  - assert (lv + 1 ≠ height r1) as Hlv1.
    { intros E. pose proof (ro_node _ _ _ _ HR1 p _ _ n' Hp' Hn') as HN'. destruct (no_root _ _ _ _ _ _ _ HN' E) as [Er _].
      by apply (root_filled _ _ _ _ n' HR1 Hm); [rewrite <- Er|]. }
    destruct (os_free_law a p Hoi) as (a1 & -> & Hoi1 & Hl1); [apply (ro_live _ _ _ _ HR1); eauto|]. cbn [mbind option_bind].
    destruct (IH a a1 r1 _ p (lv + 1) n' HR1 Hp' Hn' E0 Hlv1 Hoi1 Hl1) as (a' & r' & W' & Ex & HR' & Hs); [cbn; lia|]. by exists a', r', W'.
  - destruct (remove_keep_ok key fuel a r1 _ m p (lv + 1) n' HR1 Hk Hp' Hn') as (r' & Ex & HR' & Hs); [cbn; lia|]. by exists a, r', (delete c W).
Qed.

(** Nothing to take away while a key needs the highest level. *)
Lemma shrink_ok a r W m key v :
  radix_ok a r W m → m !! key = Some v → 64 ^ (height r - 1) ≤ key → shrink_tree a r = Some (a, r).
Proof.
  intros HR Hm Hkey. destruct (item_in_range _ _ _ _ HR key v Hm) as [Hh Hmax]. destruct (ro_item _ _ _ _ HR key v Hm) as (_ & Hk & _).
  pose proof (ro_height _ _ _ _ HR) as Hb. pose proof (ro_root _ _ _ _ HR Hh) as Hroot. destruct (node_at _ _ _ _ HR _ _ _ Hroot) as (n & Hn & HN).
  unfold shrink_tree, radix_fuel. cbn [shrink_loop]. rewrite (proj2 (Z.leb_gt _ _)) by lia. rewrite Hn. cbn [mbind option_bind].
  rewrite (kid_get n 0 (no_kids _ _ _ _ _ _ _ HN)) by lia. cbn [mbind option_bind].
  assert (Hout : Some (a, Radix (root_node r) (height r) (MAX_KEY_ID (height r)) (nodes r)) = Some (a, r)).
  { rewrite <- (ro_max _ _ _ _ HR). by destruct r. }
  destruct (Z.eqb_spec (count n) 1) as [E1|]; cbn [negb mbind option_bind]; [|done]. destruct (Z.eqb_spec (kid n 0) 0) as [|Hk0]; cbn [mbind option_bind]; [done|].
  pose proof (root_kid a r W m key v n HR Hm Hn) as Hkd. pose proof (digit_range key (height r)) as Hd. rewrite (no_count _ _ _ _ _ _ _ HN) in E1.
  assert (Hget : ∀ i, 0 ≤ i < 64 → children n !! Z.to_nat i = Some (kid n i)).
  { intros i Hi. pose proof (kid_get n i (no_kids _ _ _ _ _ _ _ HN) Hi) as E. unfold aget in E. by rewrite (proj2 (Z.leb_le 0 i)) in E by lia. }
  pose proof (filled_one _ _ _ _ _ E1 (Hget 0 ltac:(lia)) (Hget _ Hd) Hk0 Hkd) as Ed. assert (digit key (height r) = 0) as E0 by lia.
  rewrite (ro_max _ _ _ _ HR) in Hmax. apply max_key_spec in Hmax; [|lia|done]. unfold digit in E0.
  assert (0 < key / 64 ^ (height r - 1) < 64) as Hq.
  { split; [apply Z.div_str_pos; split; [apply Z.pow_pos_nonneg; lia|done]|]. apply Z.div_lt_upper_bound; [apply Z.pow_pos_nonneg; lia|].
    rewrite Z.mul_comm, <- Z.pow_succ_r by lia. replace (Z.succ (height r - 1)) with (height r) by lia. done. }
  rewrite Z.mod_small in E0; lia.
Qed.

(** When an item may be removed: another key needs the highest level, and the variable that has
    no initial value is 0 or does not matter, since the leaf goes away. *)
Definition may_remove (garbage : bool) r m (key : Z) : Prop :=
  (∃ key' v, key' ≠ key ∧ m !! key' = Some v ∧ 64 ^ (height r - 1) ≤ key') ∧
  (garbage = false ∨ ∀ key', key' ≠ key → key' / 64 = key / 64 → m !! key' = None).

(** A leaf that is not empty has an item. *)
Lemma leaf_filled a r W m q pre n :
  radix_ok a r W m → W !! q = Some (1, pre) → nodes r !! q = Some n → count n ≠ 0 → ∃ key v, key / 64 = pre ∧ m !! key = Some v.
Proof.
  intros HR Hq Hn Hc. pose proof (ro_node _ _ _ _ HR q _ _ n Hq Hn) as HN. rewrite (no_count _ _ _ _ _ _ _ HN) in Hc.
  destruct (decide (Exists (λ c, c ≠ 0) (children n))) as [Hex|Hno].
  - apply Exists_exists in Hex as (c & Hin & Hc0). apply list_elem_of_lookup in Hin as [j Hj]. pose proof (lookup_lt_Some _ _ _ Hj) as Hlt.
    rewrite (no_kids _ _ _ _ _ _ _ HN) in Hlt. exists (pre * 64 + Z.of_nat j), c. split; [rewrite Z.div_add_l, Z.div_small; lia|].
    rewrite (no_item _ _ _ _ _ _ _ HN (Z.of_nat j) eq_refl) by lia. unfold kid, aget. rewrite (proj2 (Z.leb_le 0 _)), Nat2Z.id, Hj by lia.
    cbn [from_option id]. by rewrite (proj2 (Z.eqb_neq c 0)).
  - destruct Hc. apply filled_zero. intros c Hin. destruct (decide (c = 0)) as [|Hc0]; [done|]. destruct Hno. apply Exists_exists. eauto.
Qed.

Lemma remove_item_ok garbage a r W m info n key v :
  radix_ok a r W m → m !! key = Some v → may_remove garbage r m key →
  W !! i_node info = Some (1, key / 64) → nodes r !! i_node info = Some n → i_key info = key → i_index info = digit key 1 → i_height info = height r - 1 →
  ∃ a' r' W', radix_tree_remove_item garbage a r info = Some (a', r') ∧ radix_ok a' r' W' (delete key m) ∧ same_size r r'.
Proof.
  intros HR Hm [(key' & v' & Hne & Hm' & Hbig) Hgarb] Hq Hn E1 E2 E3. set (q := i_node info) in *. destruct (ro_item _ _ _ _ HR key v Hm) as (Hv & Hk & _).
  pose proof (ro_node _ _ _ _ HR q _ _ n Hq Hn) as HN. pose proof (leaf_item _ _ _ _ HR key q n (proj1 Hk) Hq Hn) as Em. rewrite Hm in Em.
  destruct (Z.eqb_spec (kid n (digit key 1)) 0) as [|Hkd]; [done|]. unfold radix_tree_remove_item. fold q. rewrite E1, E2, E3.
  destruct (remove_child_ok r q n (digit key 1) Hn) as (n' & -> & P1 & P2 & P3 & P4 & P5 & Pk); [apply HN|apply HN|apply digit_range|done|apply HN|].
  cbn [mbind option_bind]. pose proof (item_ok a r W m q key n n' 0 HR Hk Hq Hn P1 P2 P3 P4 Pk) as HR1. cbn [Z.eqb] in HR1. set (r1 := put_node r q n') in *.
  assert (Hn' : nodes r1 !! q = Some n') by apply lookup_insert_eq. rewrite Hn'. cbn [mbind option_bind].
  assert (Hdel : delete key m !! key' = Some v') by (by rewrite lookup_delete_ne). assert (delete key m ≠ ∅) as Hm1 by (intros E; by rewrite E in Hdel).
  assert (Hq' : W !! q = Some (1, key / 64 ^ 1)) by exact Hq. pose proof (no_level _ _ _ _ _ _ _ HN) as Hlv.
  assert (Hend : ∀ a2 r2 W2, radix_ok a2 r2 W2 (delete key m) → same_size r1 r2 → shrink_tree a2 r2 = Some (a2, r2)).
  { intros a2 r2 W2 HR2 (S1 & _). eapply shrink_ok; [exact HR2|exact Hdel|]. by rewrite S1. }
  replace (height r - 1 - 1) with (height r1 - (1 + 1)) by (cbn; lia). unfold free_empty. rewrite Hn'. cbn [mbind option_bind].
  destruct (Z.eqb_spec (count n') 0) as [E0|Hc0].
  - assert (1 ≠ height r1) as Hh1.
    { intros E. pose proof (ro_node _ _ _ _ HR1 q _ _ n' Hq Hn') as HN'. destruct (no_root _ _ _ _ _ _ _ HN' E) as [Er _].
      by apply (root_filled _ _ _ _ n' HR1 Hm1); [rewrite <- Er|]. }
    destruct (os_free_law a q (ro_objs _ _ _ _ HR1)) as (a1 & -> & Hoi & Hl); [apply (ro_live _ _ _ _ HR1); eauto|]. cbn [mbind option_bind].
    destruct (remove_up_ok key (radix_fuel (drop_node r1 q)) a a1 r1 W _ q 1 n' HR1 Hk Hm1 Hq' Hn' E0 Hh1 Hoi Hl) as (a2 & r2 & W2 & -> & HR2 & Hs);
      [unfold radix_fuel; cbn; lia|]. cbn [mbind option_bind]. exists a2, r2, W2. split; [by eapply Hend|done].
  - assert (garbage = false) as ->.
    { destruct Hgarb as [|Hg]; [done|]. destruct (leaf_filled a r1 W _ q _ n' HR1 Hq Hn' Hc0) as (j & x & Ej & Hj).
      apply lookup_delete_Some in Hj as [? Hj]. rewrite Hg in Hj; [done|congruence|done]. }
    cbn [mbind option_bind]. destruct (remove_keep_ok key (radix_fuel r1) a r1 W _ q 1 n' HR1 Hk Hq' Hn') as (r2 & -> & HR2 & Hs); [unfold radix_fuel; cbn; lia|].
    cbn [mbind option_bind]. exists a, r2, W. split; [by eapply Hend|done].
Qed.

Lemma delete_ok garbage a r W m key :
  radix_ok a r W m → 0 ≤ key < wsize → (is_Some (m !! key) → may_remove garbage r m key) →
  ∃ a' r' W', radix_tree_delete garbage a r key = Some (a', r', default 0 (m !! key)) ∧ radix_ok a' r' W' (delete key m).
Proof.
  intros HR Hk Hmay. unfold radix_tree_delete. destruct (info_lookup_ok _ _ _ _ HR key Hk) as (res & -> & Hres). cbn [mbind option_bind].
  assert (Hnone : m !! key = None → radix_ok a r W (delete key m)) by (intros E; by rewrite delete_id).
  destruct res as [i|]; [|exists a, r, W; rewrite Hres; split; [done|by apply Hnone]].
  destruct Hres as (n & Hq & Hn & E1 & E2 & E3 & _). rewrite Hn. cbn [mbind option_bind]. pose proof (ro_node _ _ _ _ HR _ _ _ n Hq Hn) as HN.
  rewrite E2, (kid_get n _ (no_kids _ _ _ _ _ _ _ HN) (digit_range key 1)). cbn [mbind option_bind].
  pose proof (leaf_item _ _ _ _ HR key _ n (proj1 Hk) Hq Hn) as Em. destruct (Z.eqb_spec (kid n (digit key 1)) 0) as [E0|Hne].
  - exists a, r, W. rewrite Em. split; [done|by apply Hnone].
  - destruct (remove_item_ok garbage a r W m i n key _ HR Em) as (a' & r' & W' & -> & HR' & _); try done; [apply Hmay; by rewrite Em|].
    cbn [mbind option_bind]. exists a', r', W'. rewrite Em. done.
Qed.

(** ** Tags and items in place *)

Definition keeps_shape (upd : radix_node_s → Z → radix_node_s) : Prop :=
  ∀ n i, children (upd n i) = children n ∧ bitmap (upd n i) = bitmap n ∧ count (upd n i) = count n ∧ parent (upd n i) = parent n.

Lemma tag_up_ok upd key fuel a r W m c lv x :
  keeps_shape upd → radix_ok a r W m → 0 ≤ key < wsize → W !! c = Some (lv, key / 64 ^ lv) → nodes r !! c = Some x → (Z.to_nat (height r - lv) < fuel)%nat →
  ∃ r', tag_up upd fuel r key (parent x) (height r - (lv + 1)) = Some r' ∧ radix_ok a r' W m ∧ same_size r r'.
Proof.
  intros Hupd HR Hk. revert r c lv x HR. induction fuel as [|fuel IH]; intros r c lv x HR Hc Hx Hf; [lia|]. cbn [tag_up].
  pose proof (ro_node _ _ _ _ HR c lv _ x Hc Hx) as HX. pose proof (no_level _ _ _ _ _ _ _ HX) as Hlx. destruct (decide (lv = height r)) as [E|Hlv].
  { destruct (no_root _ _ _ _ _ _ _ HX E) as (_ & _ & ->). by exists r. }
  destruct (no_parent _ _ _ _ _ _ _ HX Hlv) as (n & Hn & Hp & _). set (p := parent x) in *.
  rewrite (proj2 (Z.eqb_neq p 0)) by (by eapply node_nonzero). rewrite Hn. cbn [mbind option_bind]. rewrite NEXT_CHILD_spec by lia.
  set (n' := upd n _). destruct (Hupd n (digit key (lv + 1))) as (E1 & E2 & E3 & E4). fold n' in E1, E2, E3, E4.
  pose proof (ro_node _ _ _ _ HR p _ _ n Hp Hn) as HN.
  assert (HR1 : radix_ok a (put_node r p n') W m) by (apply (retag_ok a r W m p n n' HR Hn); [done|rewrite E2; apply HN|done|done]).
  assert (Hp' : W !! p = Some (lv + 1, key / 64 ^ (lv + 1))).
  { rewrite Hp. do 2 f_equal. rewrite Z.div_div, Z.pow_add_r, Z.pow_1_r by (try apply Z.pow_pos_nonneg; lia). done. }
  destruct (IH (put_node r p n') p (lv + 1) n' HR1 Hp' (lookup_insert_eq _ _ _)) as (r' & Ex & HR' & Hs); [cbn; lia|]. exists r'. split; [|done].
  rewrite E4 in Ex. cbn [put_node height] in Ex. rewrite <- Ex. f_equal. lia.
Qed.

(** The leaf of a key, as the functions on tags find it. *)
Lemma find_leaf a r W m key :
  radix_ok a r W m → 0 ≤ key < wsize → (root_node r =? 0) || (max_key r <? key) = false →
  height r ≠ 0 ∧ ∃ res, descend (radix_fuel r) r key (root_node r) 0 = Some res ∧
    match res with Some (q, ch) => ch = height r - 1 ∧ W !! q = Some (1, key / 64) | None => m !! key = None end.
Proof.
  intros HR Hk [E1%Z.eqb_neq E2%Z.ltb_ge]%orb_false_iff. assert (height r ≠ 0) as Hh by (intros Hh; by destruct (ro_empty _ _ _ _ HR Hh)).
  pose proof (ro_height _ _ _ _ HR) as Hb. split; [done|].
  destruct (descend_ok _ _ _ _ HR key (radix_fuel r) (root_node r) (height r) Hk (key_in_root _ _ _ _ HR key Hh Hk E2)) as (res & E & Hres); [unfold radix_fuel; lia|].
  rewrite Z.sub_diag in E. exists res. split; [done|]. destruct res as [[q ch]|]; [done|]. by eapply no_leaf_item.
Qed.

Lemma no_tree a r W m key :
  radix_ok a r W m → 0 ≤ key < wsize → (root_node r =? 0) || (max_key r <? key) = true → m !! key = None.
Proof.
  intros HR Hk E. destruct (m !! key) as [v|] eqn:Em; [|done]. destruct (item_in_range _ _ _ _ HR key v Em) as [Hh Hmax].
  apply orb_true_iff in E as [E%Z.eqb_eq|E]; [|lia]. by destruct (node_nonzero _ _ _ _ HR _ _ _ (ro_root _ _ _ _ HR Hh)).
Qed.

Lemma tag_change_ok upd a r W m key :
  keeps_shape upd → radix_ok a r W m → 0 ≤ key < wsize →
  ∃ r', tag_change upd r key 0 = Some (r', default 0 (m !! key)) ∧ radix_ok a r' W m.
Proof.
  intros Hupd HR Hk. unfold tag_change. change (NB_TAGS <=? 0) with false. rewrite orb_false_r.
  destruct ((root_node r =? 0) || (max_key r <? key)) eqn:Ec; [exists r; by rewrite (no_tree _ _ _ _ key HR Hk Ec)|].
  destruct (find_leaf _ _ _ _ key HR Hk Ec) as (Hh & res & -> & Hres). cbn [mbind option_bind]. pose proof (ro_height _ _ _ _ HR) as Hb.
  destruct res as [[q ch]|]; [|exists r; by rewrite Hres]. destruct Hres as [-> Hq]. destruct (node_at _ _ _ _ HR _ _ _ Hq) as (n & Hn & HN). rewrite Hn. cbn [mbind option_bind].
  rewrite NEXT_CHILD_spec by lia. rewrite (kid_get n _ (no_kids _ _ _ _ _ _ _ HN) (digit_range key 1)). cbn [mbind option_bind].
  rewrite (leaf_item _ _ _ _ HR key q n (proj1 Hk) Hq Hn). destruct (Z.eqb_spec (kid n (digit key 1)) 0) as [E0|Hne]; [by exists r|].
  destruct (Hupd n (digit key 1)) as (E1 & E2 & E3 & E4). set (n' := upd n (digit key 1)) in *.
  assert (HR1 : radix_ok a (put_node r q n') W m) by (apply (retag_ok a r W m q n n' HR Hn); [done|rewrite E2; apply HN|done|done]).
  destruct (tag_up_ok upd key (radix_fuel r) a (put_node r q n') W m q 1 n' Hupd HR1 Hk Hq (lookup_insert_eq _ _ _)) as (r' & Ex & HR' & _);
    [unfold radix_fuel; cbn; lia|]. rewrite E4 in Ex. cbn [put_node height] in Ex. replace (height r - 1 - 1) with (height r - (1 + 1)) by lia.
  rewrite Ex. cbn [mbind option_bind]. by exists r'.
Qed.

(** An item that is there is replaced, and one is put into a leaf that is there. *)
Lemma apply_set_ok garbage a r W m key info n v :
  radix_ok a r W m → 0 ≤ key < wsize → W !! i_node info = Some (1, key / 64) → nodes r !! i_node info = Some n → i_index info = digit key 1 →
  kid n (digit key 1) ≠ 0 → v ≠ 0 →
  ∃ r', radix_item_info_apply garbage a r info RADIX_INFO_SET v = Some (a, r') ∧ radix_ok a r' W (<[key := v]> m).
Proof.
  intros HR Hk Hq Hn E2 Hkd Hv. pose proof (ro_node _ _ _ _ HR _ _ _ n Hq Hn) as HN. unfold radix_item_info_apply. rewrite Hn, E2. cbn [mbind option_bind].
  destruct (radix_set_child_ok n (digit key 1) v (no_kids _ _ _ _ _ _ _ HN) (digit_range key 1)) as (n1 & -> & K1 & Kk & Kf & _ & K3 & K4 & K5). cbn [mbind option_bind].
  eexists. split; [done|]. pose proof (item_ok a r W m _ key n n1 v HR Hk Hq Hn K1) as Hit. rewrite (proj2 (Z.eqb_neq v 0)) in Hit by done.
  apply Hit; [rewrite K3; apply HN| |done|done]. rewrite K5, Kf, (no_count _ _ _ _ _ _ _ HN). rewrite !(proj2 (Z.eqb_neq _ 0)) by done. lia.
Qed.

Lemma apply_insert_ok garbage a r W m key info n v :
  radix_ok a r W m → 0 ≤ key < wsize → W !! i_node info = Some (1, key / 64) → nodes r !! i_node info = Some n → i_index info = digit key 1 →
  kid n (digit key 1) = 0 → v ≠ 0 →
  ∃ r', radix_item_info_apply garbage a r info RADIX_INFO_INSERT v = Some (a, r') ∧ radix_ok a r' W (<[key := v]> m).
Proof.
  intros HR Hk Hq Hn E2 Hkd Hv. pose proof (ro_node _ _ _ _ HR _ _ _ n Hq Hn) as HN. unfold radix_item_info_apply. rewrite Hn, E2. cbn [mbind option_bind].
  pose proof (digit_range key 1) as Hd.
  destruct (radix_set_child_ok n (digit key 1) v (no_kids _ _ _ _ _ _ _ HN) Hd) as (n1 & -> & K1 & Kk & Kf & _ & K3 & K4 & K5). cbn [mbind option_bind].
  destruct (bitmap_set_spec (bitmap n1) (digit key 1)) as (bm & -> & Hbl & _); [rewrite K3; unfold bm_bits; rewrite (no_bits _ _ _ _ _ _ _ HN); unfold CPU_WIDTH; lia|].
  cbn [mbind option_bind]. eexists. split; [done|].
  pose proof (item_ok a r W m _ key n (set_bitmap (set_count n1 (count n1 + 1)) bm) v HR Hk Hq Hn K1) as Hit. rewrite (proj2 (Z.eqb_neq v 0)) in Hit by done.
  apply Hit; [cbn; rewrite Hbl, K3; apply HN| |done|exact Kk]. cbn [count children set_bitmap set_count].
  rewrite Kf, K5, Hkd, Z.eqb_refl, (no_count _ _ _ _ _ _ _ HN). rewrite (proj2 (Z.eqb_neq v 0)) by done.
  pose proof (filled_bound (children n)). rewrite (no_kids _ _ _ _ _ _ _ HN) in *. rewrite u32_small; unfold wsize; lia.
Qed.
End tree.

(** ** The tree as a map *)

Section map.
Context {A : Type} `{OS : ObjectSource A} `{OL : !ObjectSourceLaws A}.
Implicit Types (a : A) (r : radix_s) (m : gmap Z Z).

(** The tree represents a map from keys to items. *)
Definition represents a r m : Prop := ∃ W, radix_ok a r W m.

Lemma represents_init a : os_inv a → represents a radix_tree_init ∅.
Proof.
  intros Hi. exists ∅. split; cbn; try done.
  - intros p. rewrite lookup_empty. by intros [? ?].
  - intros p. by rewrite !lookup_empty.
Qed.

(** [Put] is what the page cache does to have an item at a key: it takes the free place in a
    leaf, replaces the item that is there, or inserts. *)
Inductive op :=
  | Lookup (key : Z)
  | Insert (key v : Z)
  | Put (key v : Z)
  | Delete (garbage : bool) (key : Z)
  | TagSet (key : Z)
  | TagClear (key : Z).

Definition put a r (key v : Z) : option (A * radix_s * Z) :=
  info ← radix_item_info_lookup r key;
  match info with
  | None => radix_tree_insert a r key v
  | Some i =>
      '(a, r) ← radix_item_info_apply false a r i (if item i =? 0 then RADIX_INFO_INSERT else RADIX_INFO_SET) v;
      Some (a, r, 0)
  end.

Definition run_op (o : op) a r : option (A * radix_s * Z) :=
  match o with
  | Lookup key => x ← radix_tree_lookup r key; Some (a, r, x)
  | Insert key v => radix_tree_insert a r key v
  | Put key v => put a r key v
  | Delete garbage key => radix_tree_delete garbage a r key
  | TagSet key => '(r, x) ← radix_tree_tag_set r key 0; Some (a, r, x)
  | TagClear key => '(r, x) ← radix_tree_tag_clear r key 0; Some (a, r, x)
  end.

Definition op_ok (o : op) r m : Prop :=
  match o with
  | Lookup key | TagSet key | TagClear key => 0 ≤ key < wsize
  | Insert key v | Put key v => 0 ≤ key < wsize ∧ v ≠ 0
  | Delete garbage key => 0 ≤ key < wsize ∧ (is_Some (m !! key) → may_remove garbage r m key)
  end.

(** The operations of the map. *)
Definition op_spec (o : op) m (res : Z) (m' : gmap Z Z) : Prop :=
  match o with
  | Lookup key | TagSet key | TagClear key => res = default 0 (m !! key) ∧ m' = m
  | Insert key v => inserted m key v res m'
  | Put key v => res = 0 ∧ m' = <[key := v]> m ∨ res = - ENOMEM ∧ m !! key = None ∧ m' = m
  | Delete _ key => res = default 0 (m !! key) ∧ m' = delete key m
  end.

(** What [radix_item_info_lookup] finds, and the changes in place it allows. *)
Lemma find_item a r m key :
  represents a r m → 0 ≤ key < wsize →
  ∃ info, radix_item_info_lookup r key = Some info ∧
    match info with
    | None => m !! key = None
    | Some x => item x = default 0 (m !! key) ∧
        ∀ garbage v, v ≠ 0 → ∃ r', represents a r' (<[key := v]> m) ∧
          radix_item_info_apply garbage a r x (if item x =? 0 then RADIX_INFO_INSERT else RADIX_INFO_SET) v = Some (a, r')
    end.
Proof.
  intros [W HR] Hk. destruct (info_lookup_ok _ _ _ _ HR key Hk) as (info & E & Hinfo). exists info. split; [done|]. destruct info as [x|]; [|done].
  destruct Hinfo as (n & Hq & Hn & _ & E2 & _ & ->). pose proof (leaf_item _ _ _ _ HR key _ n (proj1 Hk) Hq Hn) as Em.
  split; [rewrite Em; by destruct (Z.eqb_spec (kid n (digit key 1)) 0)|]. intros g v Hv. destruct (Z.eqb_spec (kid n (digit key 1)) 0) as [E0|Hne].
  - destruct (apply_insert_ok g a r W m key x n v) as (r' & Er & HR'); try done. exists r'. split; [by exists W|done].
  - destruct (apply_set_ok g a r W m key x n v) as (r' & Er & HR'); try done. exists r'. split; [by exists W|done].
Qed.

Lemma represents_insert a r m key v :
  represents a r m → 0 ≤ key < wsize → v ≠ 0 → m !! key = None →
  ∃ a' r' err, radix_tree_insert a r key v = Some (a', r', err) ∧
    (err = 0 ∧ represents a' r' (<[key := v]> m) ∨ err = - ENOMEM ∧ represents a' r' m).
Proof.
  intros [W HR] Hk Hv Hm. destruct (insert_ok a r W m key v HR Hk Hv) as (a' & r' & out & W' & m' & E & HR' & Hi).
  exists a', r', out. split; [done|]. destruct Hi as [(-> & _ & ->)|[(_ & [x Hx] & _)|(-> & ->)]]; [left|congruence|right]; (split; [done|by exists W']).
Qed.

Lemma represents_delete garbage a r m key :
  represents a r m → 0 ≤ key < wsize → (is_Some (m !! key) → may_remove garbage r m key) →
  ∃ a' r', radix_tree_delete garbage a r key = Some (a', r', default 0 (m !! key)) ∧ represents a' r' (delete key m).
Proof.
  intros [W HR] Hk Hm. destruct (delete_ok garbage a r W m key HR Hk Hm) as (a' & r' & W' & E & HR').
  exists a', r'. split; [done|by exists W'].
Qed.

Lemma represents_lookup a r m key : represents a r m → 0 ≤ key < wsize → radix_tree_lookup r key = Some (default 0 (m !! key)).
Proof. intros [W HR]. by apply (lookup_ok _ _ _ _ HR). Qed.

Lemma represents_item a r m key v : represents a r m → m !! key = Some v → v ≠ 0 ∧ 0 ≤ key < wsize.
Proof. intros [W HR] Hm. destruct (ro_item _ _ _ _ HR key v Hm) as (Hv & Hk & _). done. Qed.

Lemma put_item_ok a r m key v :
  represents a r m → 0 ≤ key < wsize → v ≠ 0 →
  ∃ a' r' res m', put a r key v = Some (a', r', res) ∧ represents a' r' m' ∧ op_spec (Put key v) m res m'.
Proof.
  intros HR Hk Hv. unfold put. destruct (find_item _ _ _ key HR Hk) as (info & -> & Hinfo). cbn [mbind option_bind]. destruct info as [i|].
  - destruct (proj2 Hinfo false v Hv) as (r' & HR' & ->). exists a, r', 0, (<[key := v]> m). split; [done|]. split; [done|by left].
  - destruct (represents_insert a r m key v HR Hk Hv Hinfo) as (a' & r' & err & -> & [[-> HR']|[-> HR']]).
    + exists a', r', 0, (<[key := v]> m). split; [done|]. split; [done|by left].
    + exists a', r', (- ENOMEM), m. split; [done|]. split; [done|by right].
Qed.

Lemma tag_keeps_shape : keeps_shape TAG_SET ∧ keeps_shape TAG_CLEAR.
Proof. by split. Qed.

(** C15. The radix tree implements a finite map: lookup, insertion, replacement and tagging of items
    at any key, and removal while another key needs the height of the tree, end without a fault,
    give the answer of the map and keep the tree well formed; an insertion that runs out of
    memory leaves the map as it was.  The removals are those of [may_remove]: a key other than the
    one removed needs the highest level, because the code faults or loses the root when the tree
    shrinks or becomes empty ([delete_last_faults], [delete_after_shrink_faults],
    [delete_item_as_root]); and the variable [deleted] of [radix_tree_remove_item], which has no
    initial value (radix.c:194), is 0, or the leaf of the key has no other item
    ([delete_garbage_loses]). *)
Theorem radix_tree_refines a r m o :
  represents a r m → op_ok o r m →
  ∃ a' r' res m', run_op o a r = Some (a', r', res) ∧ represents a' r' m' ∧ op_spec o m res m'.
Proof.
  intros HR Hok. destruct o as [key|key v|key v|garbage key|key|key]; cbn [run_op op_ok op_spec] in *.
  - rewrite (represents_lookup _ _ _ key HR Hok). by exists a, r, (default 0 (m !! key)), m.
  - destruct HR as [W HR], Hok as [Hk Hv]. destruct (insert_ok a r W m key v HR Hk Hv) as (a' & r' & out & W' & m' & Ex & HR' & Hi).
    exists a', r', out, m'. split; [done|]. split; [by exists W'|done].
  - destruct Hok. by apply put_item_ok.
  - destruct Hok as [Hk Hm]. destruct (represents_delete garbage a r m key HR Hk Hm) as (a' & r' & Ex & HR').
    exists a', r', (default 0 (m !! key)), (delete key m). by split.
  - destruct HR as [W HR], (tag_change_ok TAG_SET a r W m key (proj1 tag_keeps_shape) HR Hok) as (r' & Ex & HR'). unfold radix_tree_tag_set. rewrite Ex.
    exists a, r', (default 0 (m !! key)), m. split; [done|]. split; [by exists W|done].
  - destruct HR as [W HR], (tag_change_ok TAG_CLEAR a r W m key (proj2 tag_keeps_shape) HR Hok) as (r' & Ex & HR'). unfold radix_tree_tag_clear. rewrite Ex.
    exists a, r', (default 0 (m !! key)), m. split; [done|]. split; [by exists W|done].
Qed.
End map.

(** ** Divergences *)

(** A tag of an item whose place in its node is 32 or more is never seen. *)
Lemma tag_get_misses r index tag x :
  0 ≤ index < wsize → 1 ≤ height r → 32 ≤ index mod 64 → radix_tree_tag_get r index tag = Some x →
  x = 0 ∨ x = - EINVAL ∨ x = - ENOTFOUND.
Proof.
  intros Hk Hh Hi. unfold radix_tree_tag_get. destruct (_ || _); [intros [= <-]; auto|].
  destruct (descend _ r index (root_node r) 0) as [[[q ch]|]|] eqn:Ed; cbn [mbind option_bind]; [|intros [= <-]; auto|done].
  assert (ch = height r - 1) as ->.
  { assert (∀ fuel p h0, h0 ≤ height r - 1 → descend fuel r index p h0 = Some (Some (q, ch)) → ch = height r - 1) as Hg; [|eapply Hg; [|exact Ed]; lia].
    intros fuel. induction fuel as [|fuel IH]; intros p h0 Hp; [done|]. cbn [descend]. destruct (Z.leb_spec (height r - 1) h0); [intros [= _ <-]; lia|].
    destruct (nodes r !! p) as [n|]; [|done]. cbn [mbind option_bind]. destruct (aget (children n) _) as [c|]; [|done]. cbn [mbind option_bind].
    destruct (c =? 0); [done|]. apply IH. lia. }
  destruct (nodes r !! q) as [n|]; [|done]. cbn [mbind option_bind]. destruct (aget (children n) _) as [c|]; [|done]. cbn [mbind option_bind].
  destruct (c =? 0); [intros [= <-]; auto|]. intros [= <-]. left. rewrite NEXT_CHILD_spec by lia. unfold digit. change (64 ^ (1 - 1)) with 1. rewrite Z.div_1_r.
  unfold s32, u32, TAG_GET. change wsize with (2 ^ 32). rewrite <- Z.land_ones by lia. rewrite <- Z.land_assoc, Z.land_ones by lia.
  rewrite Z.shiftl_1_l. replace (index mod 64) with (32 + (index mod 64 - 32)) by lia. rewrite Z.pow_add_r, Z.mul_comm, Z.mod_mul by lia.
  by rewrite Z.land_0_r.
Qed.

(** A tree whose nodes come from a cache of objects, and what a sequence of operations returns;
    [None] is a fault. *)
Fixpoint run_ops (os : list op) (a : cache (A := page_pool)) (r : radix_s) : option (list Z * radix_s) :=
  match os with
  | [] => Some ([], r)
  | o :: os =>
      '(a, r, res) ← run_op o a r;
      '(l, r) ← run_ops os a r;
      Some (res :: l, r)
  end.

Definition ex_run (os : list op) : option (list Z * radix_s) := a ← ex_objects; run_ops os a radix_tree_init.

Lemma ex_tree_session :
  fst <$> ex_run [Insert 3 103; Insert 5000 105; Lookup 3; Lookup 4; Insert 3 104; Put 3 104; TagSet 5000; Delete false 3; Lookup 3; Lookup 5000]
  = Some [0; 0; 103; 0; - EEXIST; 0; 105; 104; 0; 105].
Proof. vm_compute. reflexivity. Qed.

(** The removal of the last item reads the root it has freed. *)
Lemma delete_last_faults : ex_run [Insert 3 103] ≠ None ∧ ex_run [Insert 3 103; Delete false 3] = None.
Proof. vm_compute. done. Qed.

(** After the tree has shrunk, the new root still has a parent, which has been freed: the next
    removal reads it. *)
Lemma delete_after_shrink_faults :
  let os := [Insert 3 103; Insert 4 104; Insert 70 170; Delete false 70] in
  ex_run os ≠ None ∧ ex_run (os ++ [Delete false 3]) = None.
Proof. vm_compute. done. Qed.

(** At height 1 an item alone at key 0 becomes the root node, and is read as one. *)
Lemma delete_item_as_root :
  (λ p, (root_node p.2, height p.2)) <$> ex_run [Insert 0 100; Insert 1 101; Delete false 1] = Some (100, 0) ∧
  ex_run [Insert 0 100; Insert 1 101; Delete false 1; Lookup 0] = None.
Proof. vm_compute. done. Qed.

(** When the variable [deleted] holds something else than 0, the removal of an item takes the
    other items of its leaf along. *)
Lemma delete_garbage_loses :
  let os g := [Insert 3 103; Insert 4 104; Insert 70 170; Insert 80 180; Delete g 3; Lookup 4] in
  fst <$> ex_run (os false) = Some [0; 0; 0; 0; 103; 104] ∧ fst <$> ex_run (os true) = Some [0; 0; 0; 0; 103; 0].
Proof. vm_compute. done. Qed.

(** Clearing the tag of one item clears it on the way to the others. *)
Lemma tag_clear_hides :
  (λ p, radix_tree_tagged p.2 0) <$> ex_run [Insert 3 103; Insert 4 104; Insert 70 170; TagSet 3; TagSet 4] = Some (Some 1) ∧
  (λ p, (radix_tree_tagged p.2 0, radix_tree_tag_get p.2 4 0)) <$>
    ex_run [Insert 3 103; Insert 4 104; Insert 70 170; TagSet 3; TagSet 4; TagClear 3] = Some (Some 0, Some 16).
Proof. vm_compute. done. Qed.

(** Several items at once: an item of a later leaf comes several times, since the index found in
    the node above is not kept. *)
Lemma gang_lookup_repeats :
  (λ p, radix_tree_gang_lookup 1000 p.2 0 6) <$> ex_run [Insert 3 103; Insert 70 170; Insert 300 130] =
  Some (Some [103; 170; 130; 130; 130]).
Proof. vm_compute. reflexivity. Qed.

(** The items with a tag: the tag that is read is the one of the first key, so tagged items are
    left out and others come instead. *)
Lemma gang_lookup_tag_wrong :
  (λ p, radix_tree_gang_lookup_tag 1000 p.2 0 6) <$> ex_run [Insert 3 103; Insert 5 105; TagSet 3; TagSet 5] = Some (Some []) ∧
  (λ p, radix_tree_gang_lookup_tag 1000 p.2 3 6) <$> ex_run [Insert 3 103; Insert 5 105; TagSet 3] = Some (Some [105]) ∧
  (λ p, radix_tree_gang_lookup_tag 1000 p.2 70 6) <$> ex_run [Insert 3 103; Insert 300 130; TagSet 3] = Some None.
Proof. vm_compute. done. Qed.

(** A tree with the keys 3 and 5000, of height 3. *)
Lemma ex_two_keys :
  ∃ a r, (a ← ex_objects; '(a, r, _) ← radix_tree_insert a radix_tree_init 3 103;
          '(a, r, _) ← radix_tree_insert a r 5000 105; Some (a, r)) = Some (a, r) ∧
    height r = 3 ∧ represents a r (<[5000 := 105]> (<[3 := 103]> ∅)).
Proof.
  assert ((a ← ex_objects; '(a, r, e1) ← radix_tree_insert a radix_tree_init 3 103;
           '(_, r, e2) ← radix_tree_insert a r 5000 105; Some (e1, e2, height r)) = Some (0, 0, 3)) as Hf
    by (vm_compute; reflexivity).
  destruct ex_objects_ok as (a & E & Hi). rewrite E in Hf |- *. cbn [mbind option_bind] in Hf |- *.
  destruct (represents_insert a radix_tree_init ∅ 3 103) as (a1 & r1 & e1 & E1 & H1);
    [by apply represents_init|unfold wsize; lia|done|done|].
  rewrite E1 in Hf |- *. cbn [mbind option_bind] in Hf |- *.
  destruct (radix_tree_insert a1 r1 5000 105) as [[[a2 r2] e2]|] eqn:E2; [|discriminate Hf].
  cbn [mbind option_bind] in Hf. injection Hf as -> -> Hh. destruct H1 as [[_ H1]|[? _]]; [|done].
  destruct (represents_insert a1 r1 _ 5000 105 H1) as (a3 & r3 & e3 & E3 & H3);
    [unfold wsize; lia|done|done|].
  rewrite E2 in E3. injection E3 as <- <- <-. destruct H3 as [[_ H3]|[? _]]; [|done].
  exists a2, r2. split; [done|]. split; [done|exact H3].
Qed.

(** An insertion into the empty tree, and the removal of key 3 from the tree with two keys. *)
Lemma radix_tree_refines_witness :
  (∃ a a' r' res m', ex_objects = Some a ∧ run_op (Insert 5000 105) a radix_tree_init = Some (a', r', res) ∧
    represents a' r' m' ∧ inserted ∅ 5000 105 res m') ∧
  ∃ a r a' r' m', represents a r (<[5000 := 105]> (<[3 := 103]> ∅)) ∧
    run_op (Delete false 3) a r = Some (a', r', 103) ∧ represents a' r' m' ∧
    m' !! 3 = None ∧ m' !! 5000 = Some 105.
Proof.
  split.
  - destruct ex_objects_ok as (a & E & Hi).
    destruct (radix_tree_refines a radix_tree_init ∅ (Insert 5000 105)) as (a' & r' & res & m' & Er & Hr & Hs).
    + by apply represents_init.
    + cbn [op_ok]. unfold wsize. lia.
    + exists a, a', r', res, m'. split; [exact E|]. split; [exact Er|]. split; [exact Hr|exact Hs].
  - destruct ex_two_keys as (a & r & _ & Hh & Hrep).
    destruct (radix_tree_refines a r _ (Delete false 3) Hrep) as (a' & r' & res & m' & Er & Hr & Hs).
    + split; [unfold wsize; lia|]. intros _. split; [|by left]. exists 5000, 105. rewrite Hh.
      split; [lia|]. split; [reflexivity|]. cbn. lia.
    + cbn [op_spec] in Hs. destruct Hs as [-> ->]. exists a, r, a', r', (delete 3 (<[5000 := 105]> (<[3 := 103]> ∅))).
      split; [exact Hrep|]. split; [exact Er|]. split; [exact Hr|]. split; reflexivity.
Defined.
