(* ===== verification/Fifo.v ===== *)
(** * Ring buffers of the kernel (src/kernel/kern/kfifo.c, mwmr.c)

    [kfifo] is a ring shared without locks: each of its four access functions is
    translated to a state machine whose steps are the accesses to the shared words, so
    that theorems speak of every interleaving.  [mwmr] is a byte ring used under a lock.
    The relation [ring] of a table to a queue serves the messages of RemoteFifo.v too. *)

From stdpp Require Import relations.
From S2P Require Import Prelude.

Open Scope Z_scope.

(** ** kfifo: data *)

Definition KFIFO_NA : Z := 0.
Definition KFIFO_MW : Z := 1.
Definition KFIFO_MR : Z := 2.
Definition KFIFO_MWMR : Z := 3.
Definition KFIFO_MASK : Z := 3.

(** [struct kfifo_s]; [ops] tells which functions [put] and [get] point to. *)
Record kfifo := KFifo {
  wridx : Z; rdidx : Z; size : Z; tbl : list Z; put_multi : bool; get_multi : bool }.

Definition set_wridx (f : kfifo) (i : Z) : kfifo :=
  KFifo i (rdidx f) (size f) (tbl f) (put_multi f) (get_multi f).
Definition set_rdidx (f : kfifo) (i : Z) : kfifo :=
  KFifo (wridx f) i (size f) (tbl f) (put_multi f) (get_multi f).
Definition set_tbl (f : kfifo) (t : list Z) : kfifo :=
  KFifo (wridx f) (rdidx f) (size f) t (put_multi f) (get_multi f).

(** [(i + 1) % size] *)
Definition next_idx (f : kfifo) (i : Z) : Z := u32 (i + 1) mod size f.

Definition kfifo_isEmpty (f : kfifo) : bool := rdidx f =? wridx f.
Definition kfifo_isFull (f : kfifo) : bool := wridx f =? next_idx f (rdidx f).

(** [mem] is whether the allocation of the table succeeds; the table is cleared. *)
Definition kfifo_init (mem : bool) (sz mode : Z) : Z * option kfifo :=
  if mem then
    let mode := Z.land mode KFIFO_MASK in
    (0, Some (KFifo 0 0 sz (replicate (Z.to_nat sz) 0)
                (ctrue (Z.land mode KFIFO_MW)) (ctrue (Z.land mode KFIFO_MR))))
  else (ENOMEM, None).

(** ** kfifo: the access functions, without interference *)

Definition single_event_put (f : kfifo) (val : Z) : option (kfifo * Z) :=
  if next_idx f (wridx f) =? rdidx f then Some (f, EAGAIN) else
  t ← aset (tbl f) (wridx f) val;
  Some (set_wridx (set_tbl f t) (next_idx f (wridx f)), 0).

Definition single_event_get (f : kfifo) : option (kfifo * Z * option Z) :=
  if rdidx f =? wridx f then Some (f, EAGAIN, None) else
  v ← aget (tbl f) (rdidx f);
  Some (set_rdidx f (next_idx f (rdidx f)), 0, Some v).

(** ** kfifo: the access functions, step by step

    A thread's place in a call, with its local variables: [cntr] counts the attempts of
    the functions for several threads. *)
Definition threshold : Z := 10000.

Inductive pc :=
  | Idle
  (* single_event_put *)
  | SPutW (v : Z)                         (* wridx = kfifo->wridx *)
  | SPutR (v w : Z)                       (* rdidx = kfifo->rdidx, test *)
  | SPutT (v w : Z)                       (* kfifo->tbl[wridx] = val *)
  | SPutP (v w : Z)                       (* kfifo->wridx = ... *)
  (* multi_event_put *)
  | MPutW (v cntr : Z)
  | MPutR (v cntr w : Z)
  | MPutC (v cntr w : Z)                  (* compare and swap *)
  | MPutT (v w : Z)
  (* single_event_get *)
  | SGetR
  | SGetW (r : Z)
  | SGetT (r : Z)                         (* *val = kfifo->tbl[rdidx] *)
  | SGetP (r v : Z)                       (* kfifo->rdidx = ... *)
  (* multi_event_get *)
  | MGetR (cntr : Z)
  | MGetW (cntr r : Z)
  | MGetT (cntr r : Z)
  | MGetC (cntr r v : Z)
  | Ret (err : Z) (v : option Z).

(** What a step makes visible: a slot is published, or an element is removed. *)
Inductive event := Published (v : Z) | Removed (v : Z).

Definition tstep (f : kfifo) (p : pc) : option (kfifo * pc * option event) :=
  match p with
  | Idle => None
  | SPutW v => Some (f, SPutR v (wridx f), None)
  | SPutR v w =>
      if next_idx f w =? rdidx f then Some (f, Ret EAGAIN None, None)
      else Some (f, SPutT v w, None)
  | SPutT v w => t ← aset (tbl f) w v; Some (set_tbl f t, SPutP v w, None)
  | SPutP v w => Some (set_wridx f (next_idx f w), Ret 0 None, Some (Published v))
  | MPutW v c => Some (f, MPutR v c (wridx f), None)
  | MPutR v c w =>
      if next_idx f w =? rdidx f then Some (f, Ret EAGAIN None, None)
      else Some (f, MPutC v c w, None)
  | MPutC v c w =>
      let isAtomic := wridx f =? w in
      let f' := if isAtomic then set_wridx f (next_idx f w) else f in
      let ev := if isAtomic then Some (Published v) else None in
      if c =? threshold then Some (f', Ret EBUSY None, ev) else
      if isAtomic then Some (f', MPutT v w, ev) else Some (f', MPutW v (c + 1), ev)
  | MPutT v w => t ← aset (tbl f) w v; Some (set_tbl f t, Ret 0 None, None)
  | SGetR => Some (f, SGetW (rdidx f), None)
  | SGetW r =>
      if r =? wridx f then Some (f, Ret EAGAIN None, None) else Some (f, SGetT r, None)
  | SGetT r => v ← aget (tbl f) r; Some (f, SGetP r v, None)
  | SGetP r v => Some (set_rdidx f (next_idx f r), Ret 0 (Some v), Some (Removed v))
  | MGetR c => Some (f, MGetW c (rdidx f), None)
  | MGetW c r =>
      if r =? wridx f then Some (f, Ret EAGAIN None, None) else Some (f, MGetT c r, None)
  | MGetT c r => v ← aget (tbl f) r; Some (f, MGetC c r v, None)
  | MGetC c r v =>
      let isAtomic := rdidx f =? r in
      let f' := if isAtomic then set_rdidx f (next_idx f r) else f in
      let ev := if isAtomic then Some (Removed v) else None in
      if c =? threshold then Some (f', Ret EBUSY None, ev) else
      if isAtomic then Some (f', Ret 0 (Some v), ev) else Some (f', MGetR (c + 1), ev)
  | Ret _ _ => None
  end.

(** Entering [kfifo_put] and [kfifo_get]: the function [ops] points to. *)
Definition kfifo_put (f : kfifo) (v : Z) : pc := if put_multi f then MPutW v 0 else SPutW v.
Definition kfifo_get (f : kfifo) : pc := if get_multi f then MGetR 0 else SGetR.

(** A call run to its end without interference. *)
Fixpoint run_call (fuel : nat) (f : kfifo) (p : pc) : option (kfifo * Z * option Z) :=
  match p, fuel with
  | Ret e v, _ => Some (f, e, v)
  | _, O => None
  | _, S fuel => '(f, p, _) ← tstep f p; run_call fuel f p
  end.

(** ** Threads on one kfifo *)

Record world := World {
  fifo : kfifo; threads : gmap Z pc; puts : list Z; gots : list Z }.

Definition log (w : world) (ev : option event) (f : kfifo) (ts : gmap Z pc) : world :=
  match ev with
  | None => World f ts (puts w) (gots w)
  | Some (Published v) => World f ts (puts w ++ [v]) (gots w)
  | Some (Removed v) => World f ts (puts w) (gots w ++ [v])
  end.

(** One action of thread [t]: a step of its call, or a new call.  The code of every
    client decides who puts and who gets; [can_put] and [can_get] are those threads. *)
Definition act (w : world) (t : Z) : option world :=
  p ← threads w !! t;
  '(f, p, ev) ← tstep (fifo w) p;
  Some (log w ev f (<[t := p]> (threads w))).

Definition at_rest (p : pc) : bool :=
  match p with Idle | Ret _ _ => true | _ => false end.

Inductive wstep (can_put can_get : Z → Prop) : world → world → Prop :=
  | w_put w t p v :
      can_put t → threads w !! t = Some p → at_rest p = true →
      wstep can_put can_get w
        (World (fifo w) (<[t := kfifo_put (fifo w) v]> (threads w)) (puts w) (gots w))
  | w_get w t p :
      can_get t → threads w !! t = Some p → at_rest p = true →
      wstep can_put can_get w
        (World (fifo w) (<[t := kfifo_get (fifo w)]> (threads w)) (puts w) (gots w))
  | w_act w t w' : act w t = Some w' → wstep can_put can_get w w'.

(** A new FIFO with [n] idle threads. *)
Definition initial (f : kfifo) (ts : list Z) : world :=
  World f (list_to_map ((λ t, (t, Idle)) <$> ts)) [] [].

(** ** One writer, one reader *)

Lemma mod_inj n a b : 0 < n → a ≤ b < a + n → a mod n = b mod n → a = b.
Proof.
  intros Hn Hab E. pose proof (Z.div_mod a n ltac:(lia)) as Ea.
  pose proof (Z.div_mod b n ltac:(lia)) as Eb. rewrite E in Ea.
  generalize dependent (b mod n). intros m E Ea Eb.
  destruct (Z.lt_trichotomy (a / n) (b / n)) as [?|[?|?]]; nia.
Qed.

Lemma mod_range n a : 0 < n → 0 ≤ a mod n < n.
Proof. apply Z.mod_pos_bound. Qed.

(** Lengths as integers. *)
Definition len {A} (l : list A) : Z := Z.of_nat (length l).

(** A ring [t] of [n] slots holds the elements of [l] from the [r]-th on: [l] are the
    elements ever put, of which the first [r] have been removed. *)
Record ring {A} (n : Z) (t l : list A) (r : Z) : Prop := {
  rg_len : len t = n;
  rg_cap : 0 ≤ r ∧ 0 ≤ len l - r ≤ n - 1;
  rg_cell i : r ≤ i < len l → aget t (i mod n) = l !! Z.to_nat i;
}.

(** Writing the slot after the last element keeps the ring. *)
Lemma ring_store {A} n (t l : list A) r v :
  ring n t l r → len l - r < n - 1 →
  ∃ t', aset t (len l mod n) v = Some t' ∧ ring n t' l r ∧ aget t' (len l mod n) = Some v.
Proof.
  intros [Hlen Hcap Hcell] Hroom. unfold len in *.
  pose proof (mod_range n (Z.of_nat (length l)) ltac:(lia)).
  eexists. split; [apply aset_Some; lia|]. split.
  - split; unfold len; [by rewrite length_insert|lia|]. intros i Hi.
    rewrite aget_insert_ne; [by apply Hcell|lia|]. intros E.
    symmetry in E. apply mod_inj in E; lia.
  - apply aget_insert_eq. lia.
Qed.

Lemma ring_publish {A} n (t l : list A) r v :
  ring n t l r → len l - r < n - 1 → aget t (len l mod n) = Some v → ring n t (l ++ [v]) r.
Proof.
  intros [Hlen Hcap Hcell] Hroom Hv. unfold len in *. split; [done| |].
  - unfold len. rewrite length_app. cbn. lia.
  - intros i. unfold len. rewrite length_app. cbn. intros Hi.
    destruct (Z.lt_ge_cases i (Z.of_nat (length l))).
    + rewrite lookup_app_l by lia. apply Hcell. lia.
    + assert (i = Z.of_nat (length l)) as -> by lia. rewrite Hv, Nat2Z.id.
      by rewrite lookup_app_r, Nat.sub_diag by lia.
Qed.

Lemma ring_read {A} n (t l : list A) r :
  ring n t l r → r < len l → ∃ v, aget t (r mod n) = Some v ∧ l !! Z.to_nat r = Some v.
Proof.
  intros [Hlen Hcap Hcell] Hr. rewrite Hcell by lia.
  destruct (lookup_lt_is_Some_2 l (Z.to_nat r)) as [v Hv]; [unfold len in Hr; lia|]. eauto.
Qed.

Lemma ring_remove {A} n (t l : list A) r : ring n t l r → r < len l → ring n t l (r + 1).
Proof.
  intros [Hlen Hcap Hcell] Hr. split; [done|lia|]. intros i Hi. apply Hcell. lia.
Qed.

Lemma next_idx_mod f n a :
  size f = n → 0 < n < wsize → next_idx f (a mod n) = (a + 1) mod n.
Proof.
  intros Hs Hn. unfold next_idx. pose proof (mod_range n a ltac:(lia)).
  rewrite u32_small, Hs by lia. by rewrite Z.add_mod_idemp_l by lia.
Qed.

Section spsc.
Context (n : Z) (Hn : 1 ≤ n < wsize).

(** What the places of the writer and of the reader say. *)
Definition put_ok (w : world) (p : pc) : Prop :=
  let W := len (puts w) in let R := len (gots w) in
  match p with
  | Idle | Ret _ _ | SPutW _ => True
  | SPutR _ i => i = W mod n
  | SPutT _ i => i = W mod n ∧ W - R < n - 1
  | SPutP v i => i = W mod n ∧ W - R < n - 1 ∧ aget (tbl (fifo w)) i = Some v
  | _ => False
  end.

Definition get_ok (w : world) (p : pc) : Prop :=
  let W := len (puts w) in let R := len (gots w) in
  match p with
  | Idle | Ret _ _ | SGetR => True
  | SGetW i => i = R mod n
  | SGetT i => i = R mod n ∧ R < W
  | SGetP i v => i = R mod n ∧ R < W ∧ puts w !! Z.to_nat R = Some v
  | _ => False
  end.

Record spsc_inv (w : world) : Prop := {
  sp_size : size (fifo w) = n;
  sp_mode : put_multi (fifo w) = false ∧ get_multi (fifo w) = false;
  sp_wr : wridx (fifo w) = len (puts w) mod n;
  sp_rd : rdidx (fifo w) = len (gots w) mod n;
  sp_ring : ring n (tbl (fifo w)) (puts w) (len (gots w));
  sp_gots : gots w = take (length (gots w)) (puts w);
  sp_threads : ∃ p q, threads w = {[ 0 := p; 1 := q ]} ∧ put_ok w p ∧ get_ok w q;
}.

Abbreviation writer := (λ t : Z, t = 0).
Abbreviation reader := (λ t : Z, t = 1).

Lemma full_test w :
  spsc_inv w →
  (next_idx (fifo w) (len (puts w) mod n) =? rdidx (fifo w)) =
  (len (puts w) - len (gots w) =? n - 1).
Proof.
  intros []. destruct sp_ring0 as [_ Hcap _].
  rewrite (next_idx_mod _ n) by (done || lia). rewrite sp_rd0.
  apply Bool.eq_iff_eq_true. rewrite !Z.eqb_eq. split; intros E.
  - destruct (decide (len (puts w) - len (gots w) = n - 1)); [done|].
    symmetry in E. apply mod_inj in E; lia.
  - replace (len (puts w) + 1) with (len (gots w) + 1 * n) by lia. by rewrite Z.mod_add by lia.
Qed.

Lemma empty_test w :
  spsc_inv w →
  (len (gots w) mod n =? wridx (fifo w)) = (len (puts w) =? len (gots w)).
Proof.
  intros []. destruct sp_ring0 as [_ Hcap _]. rewrite sp_wr0.
  apply Bool.eq_iff_eq_true. rewrite !Z.eqb_eq. split; intros E; [|by rewrite E].
  symmetry. apply mod_inj in E; lia.
Qed.

Lemma isFull_test w :
  spsc_inv w → 2 ≤ n → kfifo_isFull (fifo w) = (len (puts w) - len (gots w) =? 1).
Proof.
  intros Hi Hn2. pose proof (sp_ring _ Hi) as [_ Hcap _]. unfold kfifo_isFull.
  rewrite (sp_rd _ Hi), (sp_wr _ Hi), (next_idx_mod _ n) by (try apply (sp_size _ Hi); lia).
  apply Bool.eq_iff_eq_true. rewrite !Z.eqb_eq. split; intros E.
  - destruct (decide (len (puts w) = len (gots w))) as [Eq|Hne].
    + rewrite Eq in E. apply (mod_inj n) in E; lia.
    + symmetry in E. apply (mod_inj n) in E; lia.
  - by replace (len (puts w)) with (len (gots w) + 1) by lia.
Qed.

Definition two (p q : pc) : gmap Z pc := {[ 0 := p; 1 := q ]}.

Lemma two_set0 p q p' : <[0 := p']> (two p q) = two p' q.
Proof. apply insert_insert_eq. Qed.
Lemma two_set1 p q q' : <[1 := q']> (two p q) = two p q'.
Proof.
  unfold two. rewrite insert_insert_ne by lia. by rewrite insert_singleton_eq.
Qed.
Lemma two_lookup p q t x : two p q !! t = Some x → (t = 0 ∧ x = p) ∨ (t = 1 ∧ x = q).
Proof.
  unfold two. intros [[<- <-]|[_ [<- <-]%lookup_singleton_Some]]%lookup_insert_Some; auto.
Qed.

(** A step of the writer. *)
Lemma put_step w p q f p' ev :
  spsc_inv w → threads w = two p q → put_ok w p → get_ok w q →
  tstep (fifo w) p = Some (f, p', ev) → spsc_inv (log w ev f (two p' q)).
Proof.
  intros Hi Ht Hp Hq E. pose proof Hi as [Hs Hm Hwr Hrd Hr Hg _].
  assert (Hkeep : ∀ p', put_ok w p' → spsc_inv (World (fifo w) (two p' q) (puts w) (gots w))).
  { intros p1 Hp1. split; try done. exists p1, q. done. }
  destruct p; cbn in Hp; try done; cbn in E.
  - injection E as <- <- <-. by apply Hkeep.
  - subst w0. rewrite full_test in E by done.
    destruct (Z.eqb_spec (len (puts w) - len (gots w)) (n - 1)); injection E as <- <- <-;
      apply Hkeep; [done|]. cbn. destruct Hr as [_ Hcap _]. lia.
  - destruct Hp as [-> Hroom].
    destruct (ring_store _ _ _ _ v Hr Hroom) as (t' & Et & Hr' & Hv). rewrite Et in E.
    injection E as <- <- <-. split; try done. exists (SPutP v (len (puts w) mod n)), q. done.
  - destruct Hp as (-> & Hroom & Hv). injection E as <- <- <-.
    assert (Hlen : len (puts w ++ [v]) = len (puts w) + 1)
      by (unfold len; rewrite length_app; cbn; lia).
    split; cbn [log fifo size tbl wridx rdidx puts gots threads set_wridx put_multi get_multi]; try done.
    + rewrite (next_idx_mod _ n), Hlen by (done || lia). done.
    + by apply ring_publish.
    + destruct Hr as [_ Hcap _]. rewrite take_app_le by (unfold len in *; lia). done.
    + exists (Ret 0 None), q. split; [done|]. split; [done|].
      destruct q; cbn in *; rewrite ?Hlen; try done; try lia.
      destruct Hq as (? & ? & Hl). split_and!; try done; try lia.
      rewrite lookup_app_l; [done|]. by apply lookup_lt_Some in Hl.
Qed.

(** A step of the reader. *)
Lemma get_step w p q f q' ev :
  spsc_inv w → threads w = two p q → put_ok w p → get_ok w q →
  tstep (fifo w) q = Some (f, q', ev) → spsc_inv (log w ev f (two p q')).
Proof.
  intros Hi Ht Hp Hq E. pose proof Hi as [Hs Hm Hwr Hrd Hr Hg _].
  assert (Hkeep : ∀ q', get_ok w q' → spsc_inv (World (fifo w) (two p q') (puts w) (gots w))).
  { intros q1 Hq1. split; try done. exists p, q1. done. }
  destruct q; cbn in Hq; try done; cbn in E.
  - injection E as <- <- <-. by apply Hkeep.
  - subst r. rewrite empty_test in E by done.
    destruct (Z.eqb_spec (len (puts w)) (len (gots w))); injection E as <- <- <-;
      apply Hkeep; [done|]. cbn. destruct Hr as [_ Hcap _]. lia.
  - destruct Hq as [-> Hlt]. destruct (ring_read _ _ _ _ Hr Hlt) as (v & Ev & Hv).
    rewrite Ev in E. injection E as <- <- <-. by apply Hkeep.
  - destruct Hq as (-> & Hlt & Hv). injection E as <- <- <-.
    assert (Hlen : len (gots w ++ [v]) = len (gots w) + 1)
      by (unfold len; rewrite length_app; cbn; lia).
    split; cbn [log fifo size tbl wridx rdidx puts gots threads set_rdidx put_multi get_multi]; try done.
    + rewrite (next_idx_mod _ n), Hlen by (done || lia). done.
    + rewrite Hlen. by apply ring_remove.
    + rewrite length_app. cbn [length]. rewrite Nat.add_1_r, (take_S_r _ _ v); [by rewrite <- Hg|].
      unfold len in Hv. by rewrite Nat2Z.id in Hv.
    + exists p, (Ret 0 (Some v)). split; [done|]. split; [|done].
      destruct p; cbn in *; rewrite ?Hlen; try done; [lia|].
      destruct Hp as (? & ? & ?). split_and!; try done; lia.
Qed.

Lemma spsc_step w w' : wstep writer reader w w' → spsc_inv w → spsc_inv w'.
Proof.
  intros Hst Hi. destruct (sp_threads _ Hi) as (p & q & Ht & Hp & Hq).
  pose proof (sp_mode _ Hi) as [Em1 Em2]. fold (two p q) in Ht.
  assert (Hkeep : ∀ p' q', put_ok w p' → get_ok w q' →
            spsc_inv (World (fifo w) (two p' q') (puts w) (gots w))).
  { intros p1 q1 Hp1 Hq1. destruct Hi. split; try done. by exists p1, q1. }
  destruct Hst as [w t x v -> _ _|w t x -> _ _|w t w' E].
  - rewrite Ht, two_set0. unfold kfifo_put. rewrite Em1. by apply Hkeep.
  - rewrite Ht, two_set1. unfold kfifo_get. rewrite Em2. by apply Hkeep.
  - unfold act in E. rewrite Ht in E. destruct (two p q !! t) as [x|] eqn:Ex; [|done].
    cbn [mbind option_bind] in E. destruct (tstep (fifo w) x) as [[[f x'] ev]|] eqn:Es; [|done].
    cbn [mbind option_bind] in E. injection E as <-.
    apply two_lookup in Ex as [[-> ->]|[-> ->]].
    + rewrite two_set0. by eapply put_step.
    + rewrite two_set1. by eapply get_step.
Qed.

Lemma spsc_initial f :
  kfifo_init true n KFIFO_NA = (0, Some f) → spsc_inv (initial f [0; 1]).
Proof.
  intros [= <-]. split; cbn; try done.
  - split; unfold len; cbn; [rewrite length_replicate; lia|lia|lia].
  - by exists Idle, Idle.
Qed.

Lemma spsc_reach f w :
  kfifo_init true n KFIFO_NA = (0, Some f) →
  rtc (wstep writer reader) (initial f [0; 1]) w → spsc_inv w.
Proof.
  intros Hf Hr. refine (rtc_ind_r (R := wstep writer reader) spsc_inv (initial f [0; 1]) _ _ w Hr).
  - by apply spsc_initial.
  - intros w1 w2 _ Hs Hi. by eapply spsc_step.
Qed.
End spsc.

(** Without interference all the variants do the same. *)
Lemma run_put f v :
  run_call 4 f (SPutW v) = (λ r, (r.1, r.2, None)) <$> single_event_put f v ∧
  run_call 4 f (MPutW v 0) = (λ r, (r.1, r.2, None)) <$> single_event_put f v.
Proof.
  unfold single_event_put. cbn. destruct (next_idx f (wridx f) =? rdidx f); [done|].
  cbn. rewrite Z.eqb_refl. cbn. by destruct (aset (tbl f) (wridx f) v) as [t|].
Qed.

Lemma run_get f :
  run_call 4 f SGetR = single_event_get f ∧ run_call 4 f (MGetR 0) = single_event_get f.
Proof.
  unfold single_event_get. cbn. destruct (rdidx f =? wridx f); [done|]. cbn.
  destruct (aget (tbl f) (rdidx f)) as [v|]; [|done]. cbn. by rewrite Z.eqb_refl.
Qed.

(** ** kfifo: theorems *)

(** A schedule: thread [t] starts a put or a get, or makes a step. *)
Inductive action := StartPut (t v : Z) | StartGet (t : Z) | Act (t : Z).

Fixpoint exec (w : world) (l : list action) : option world :=
  match l with
  | [] => Some w
  | a :: l =>
      w ← match a with
          | StartPut t v =>
              p ← threads w !! t;
              if at_rest p then
                Some (World (fifo w) (<[t := kfifo_put (fifo w) v]> (threads w)) (puts w) (gots w))
              else None
          | StartGet t =>
              p ← threads w !! t;
              if at_rest p then
                Some (World (fifo w) (<[t := kfifo_get (fifo w)]> (threads w)) (puts w) (gots w))
              else None
          | Act t => act w t
          end;
      exec w l
  end.

Definition may_start (can_put can_get : Z → Prop) (a : action) : Prop :=
  match a with StartPut t _ => can_put t | StartGet t => can_get t | Act _ => True end.

Lemma exec_steps (can_put can_get : Z → Prop) w l w' :
  Forall (may_start can_put can_get) l → exec w l = Some w' →
  rtc (wstep can_put can_get) w w'.
Proof.
  intros Hl. revert w. induction Hl as [|a l Ha _ IH]; intros w E; [by injection E as ->|].
  cbn in E. destruct a as [t v|t|t].
  - destruct (threads w !! t) as [p|] eqn:Et; [|done]. cbn in E.
    destruct (at_rest p) eqn:Ep; [|done]. eapply rtc_l; [by eapply w_put|]. by apply IH.
  - destruct (threads w !! t) as [p|] eqn:Et; [|done]. cbn in E.
    destruct (at_rest p) eqn:Ep; [|done]. eapply rtc_l; [by eapply w_get|]. by apply IH.
  - destruct (act w t) as [w1|] eqn:Ea; [|done]. eapply rtc_l; [by eapply w_act|]. by apply IH.
Qed.

Lemma exec_rtc w l w' :
  exec w l = Some w' → rtc (wstep (λ _, True) (λ _, True)) w w'.
Proof. apply exec_steps, Forall_true. by intros []. Qed.

Definition new_kfifo (n mode : Z) : kfifo :=
  KFifo 0 0 n (replicate (Z.to_nat n) 0)
    (ctrue (Z.land (Z.land mode KFIFO_MASK) KFIFO_MW))
    (ctrue (Z.land (Z.land mode KFIFO_MASK) KFIFO_MR)).

(** C25. A FIFO of [n] slots with one writer and one reader ([KFIFO_NA]): whatever the
    interleaving of their accesses, the elements come out in the order they went in, none
    lost or repeated, and at most [n - 1] are inside.  The test inside a put is exact: it
    fails exactly when [n - 1] elements were inside when it read [rdidx]; so is the test
    inside a get: it fails exactly when none was when it read [wridx].  Of the two query
    functions [kfifo_isEmpty] is exact, and [kfifo_isFull] is not a test of fullness: it is
    true exactly when one element is inside ([kfifo_isFull_wrong]). *)
Theorem kfifo_spsc_correct n f w :
  1 ≤ n < wsize → kfifo_init true n KFIFO_NA = (0, Some f) →
  rtc (wstep (λ t, t = 0) (λ t, t = 1)) (initial f [0; 1]) w →
  gots w `prefix_of` puts w ∧ len (puts w) - len (gots w) ≤ n - 1 ∧
  (∀ v i, threads w !! 0 = Some (SPutR v i) →
     (next_idx (fifo w) i =? rdidx (fifo w)) = (len (puts w) - len (gots w) =? n - 1)) ∧
  (∀ i, threads w !! 1 = Some (SGetW i) →
     (i =? wridx (fifo w)) = (len (puts w) =? len (gots w))) ∧
  kfifo_isEmpty (fifo w) = (len (puts w) =? len (gots w)) ∧
  (2 ≤ n → kfifo_isFull (fifo w) = (len (puts w) - len (gots w) =? 1)).
Proof.
  intros Hn Hf Hr. pose proof (spsc_reach n Hn f w Hf Hr) as Hi.
  destruct (sp_threads _ _ Hi) as (p & q & Ht & Hp & Hq). rewrite Ht. split_and!.
  - rewrite (sp_gots _ _ Hi). apply prefix_take.
  - destruct (sp_ring _ _ Hi) as [_ Hcap _]. lia.
  - intros v i Hv. rewrite lookup_insert_eq in Hv. injection Hv as ->. cbn in Hp. subst i. by apply full_test.
  - intros i Hv. rewrite lookup_insert_ne, lookup_singleton_eq in Hv by done.
    injection Hv as ->. cbn in Hq. subst i. by apply empty_test.
  - unfold kfifo_isEmpty. rewrite (sp_rd _ _ Hi). by apply empty_test.
  - by apply isFull_test.
Qed.

(** The writer puts 7 and 8, the reader takes 7; the writer is about to test for room and the
    reader for an element. *)
Definition ex_spsc_run : list action :=
  [StartPut 0 7; StartGet 1; Act 1; Act 0; Act 0; Act 0; Act 0; Act 1; Act 1; Act 1;
   StartPut 0 8; Act 0; Act 0; Act 0; Act 0; StartPut 0 9; Act 0; StartGet 1; Act 1].
Definition ex_spsc : option world := exec (initial (new_kfifo 4 KFIFO_NA) [0; 1]) ex_spsc_run.

Lemma kfifo_spsc_correct_witness :
  ∃ w, ex_spsc = Some w ∧ puts w = [7; 8] ∧ gots w = [7] ∧ [7] `prefix_of` [7; 8] ∧
    threads w !! 0 = Some (SPutR 9 2) ∧ (next_idx (fifo w) 2 =? rdidx (fifo w)) = (1 =? 3) ∧
    threads w !! 1 = Some (SGetW 1) ∧ (1 =? wridx (fifo w)) = (2 =? 1) ∧
    kfifo_isEmpty (fifo w) = false ∧ kfifo_isFull (fifo w) = true.
Proof.
  destruct ex_spsc as [w|] eqn:E; [|by vm_compute in E]. exists w. split; [done|].
  destruct (kfifo_spsc_correct 4 (new_kfifo 4 KFIFO_NA) w) as (Hp & _ & Hf & He & H1 & H2).
  - unfold wsize; lia.
  - reflexivity.
  - apply (exec_steps _ _ _ ex_spsc_run); [by repeat constructor|exact E].
  - assert (puts w = [7; 8] ∧ gots w = [7] ∧ threads w !! 0 = Some (SPutR 9 2) ∧
            threads w !! 1 = Some (SGetW 1)) as (Eu & Eg & E0 & E1)
      by (vm_compute in E; injection E as <-; by vm_compute).
    rewrite Eu, Eg in Hp, Hf, He, H1, H2.
    exact (conj Eu (conj Eg (conj Hp (conj E0 (conj (Hf 9 2 E0)
             (conj E1 (conj (He 1 E1) (conj H1 (H2 ltac:(lia)))))))))).
Defined.

(** With several writers ([KFIFO_MW]) the slot is published before it is written: two
    threads, a put and a get, and the get returns the old contents of the slot. *)
Theorem kfifo_mw_unwritten_slot :
  ∃ w, rtc (wstep (λ _, True) (λ _, True)) (initial (new_kfifo 4 KFIFO_MW) [0; 1]) w ∧
    threads w !! 0 = Some (MPutT 7 0) ∧ threads w !! 1 = Some (Ret 0 (Some 0)) ∧
    puts w = [7] ∧ gots w = [0].
Proof.
  eexists. split.
  - apply (exec_rtc _ [StartPut 0 7; Act 0; Act 0; Act 0; StartGet 1; Act 1; Act 1; Act 1; Act 1]).
    vm_compute. reflexivity.
  - vm_compute. auto.
Qed.

(** With several readers ([KFIFO_MR]) the index can come back to the same value between
    the read of a slot and the compare and swap: thread 1 returns element 1 a second time
    and element 3 is lost. *)
Theorem kfifo_mr_aba :
  ∃ w, rtc (wstep (λ _, True) (λ _, True)) (initial (new_kfifo 2 KFIFO_MR) [0; 1; 2]) w ∧
    threads w !! 1 = Some (Ret 0 (Some 1)) ∧ puts w = [1; 2; 3] ∧ gots w = [1; 2; 1].
Proof.
  eexists. split.
  - apply (exec_rtc _ ([StartPut 0 1] ++ replicate 4 (Act 0) ++
      [StartGet 1; Act 1; Act 1; Act 1; StartGet 2] ++ replicate 4 (Act 2) ++
      [StartPut 0 2] ++ replicate 4 (Act 0) ++ [StartGet 2] ++ replicate 4 (Act 2) ++
      [StartPut 0 3] ++ replicate 4 (Act 0) ++ [Act 1])).
    vm_compute. reflexivity.
  - vm_compute. auto.
Qed.

(** The attempt that reaches the threshold may succeed and the call still report a
    failure: a get then removes an element it does not return, a put publishes a slot it
    never writes. *)
Theorem kfifo_ebusy_after_success f r v w x :
  rdidx f = r → wridx f = w →
  tstep f (MGetC threshold r v) =
    Some (set_rdidx f (next_idx f r), Ret EBUSY None, Some (Removed v)) ∧
  tstep f (MPutC x threshold w) =
    Some (set_wridx f (next_idx f w), Ret EBUSY None, Some (Published x)).
Proof. intros <- <-. cbn. by rewrite !Z.eqb_refl. Qed.

Lemma kfifo_ebusy_after_success_witness :
  tstep (new_kfifo 4 KFIFO_MR) (MGetC threshold 0 5) =
    Some (set_rdidx (new_kfifo 4 KFIFO_MR) 1, Ret EBUSY None, Some (Removed 5)).
Proof.
  exact (proj1 (kfifo_ebusy_after_success (new_kfifo 4 KFIFO_MR) 0 5 0 0 eq_refl eq_refl)).
Defined.

(** [kfifo_isFull] is true of a FIFO with one element and false of a full one. *)
Theorem kfifo_isFull_wrong :
  (x ← single_event_put (new_kfifo 4 KFIFO_NA) 1;
   y ← single_event_put x.1 2;
   z ← single_event_put y.1 3;
   u ← single_event_put z.1 4;
   Some [(kfifo_isFull x.1, y.2); (kfifo_isFull z.1, u.2)]) =
  Some [(true, 0); (false, EAGAIN)].
Proof. vm_compute. reflexivity. Qed.

(** ** mwmr: a ring of bytes *)
Module Mwmr.

(** [struct fifomwmr_s]; [flen] is its field [length], in bytes. *)
Record fifomwmr := FifoMwmr {
  status : Z; read_ptr : Z; write_ptr : Z; data : list Z; item : Z; flen : Z }.

(** The data has 4 bytes for each byte of [length * item]; it is cleared. *)
Definition mwmr_init (mem : bool) (itm lgth : Z) : option fifomwmr :=
  if mem then
    Some (FifoMwmr 0 0 0 (replicate (Z.to_nat (u32 (4 * itm * lgth))) 0) itm (u32 (lgth * itm)))
  else None.

(** [for (i = 0; i < n; i++) buff[i] = data[off + i]] *)
Fixpoint copy_out (d : list Z) (off : Z) (n : nat) : option (list Z) :=
  match n with
  | O => Some []
  | S n => x ← aget d off; l ← copy_out d (off + 1) n; Some (x :: l)
  end.

(** [for (i = 0; i < n; i++) data[off + i] = buff[i]], [src] being the bytes read. *)
Fixpoint copy_in (d : list Z) (off : Z) (src : list Z) : option (list Z) :=
  match src with
  | [] => Some d
  | x :: src => d ← aset d off x; copy_in d (off + 1) src
  end.

(** The bytes copied to the buffer and their number. *)
Definition mwmr_read (f : fifomwmr) (size : Z) : option (fifomwmr * list Z * Z) :=
  if size =? 0 then Some (f, [], 0) else
  let rnum := if status f <? size then status f else size in
  if rnum =? 0 then Some (f, [], 0) else
  buff ← (if read_ptr f + rnum <=? flen f then copy_out (data f) (read_ptr f) (Z.to_nat rnum)
          else
            let size1 := flen f - read_ptr f in
            let size2 := rnum - size1 in
            b1 ← copy_out (data f) (read_ptr f) (Z.to_nat size1);
            b2 ← copy_out (data f) 0 (Z.to_nat size2);
            Some (b1 ++ b2));
  Some (FifoMwmr (status f - rnum) (u32 (read_ptr f + rnum) mod flen f) (write_ptr f)
          (data f) (item f) (flen f), buff, rnum).

(** [buff] has at least [size] bytes. *)
Definition mwmr_write (f : fifomwmr) (buff : list Z) (size : Z) : option (fifomwmr * Z) :=
  if size =? 0 then Some (f, 0) else
  let free_space := flen f - status f in
  let wnum := if free_space <? size then free_space else size in
  if wnum =? 0 then Some (f, 0) else
  b ← copy_out buff 0 (Z.to_nat wnum);
  d ← (if write_ptr f + wnum <=? flen f then copy_in (data f) (write_ptr f) b
       else
         let size1 := flen f - write_ptr f in
         d ← copy_in (data f) (write_ptr f) (take (Z.to_nat size1) b);
         copy_in d 0 (drop (Z.to_nat size1) b));
  Some (FifoMwmr (status f + wnum) (read_ptr f) (u32 (write_ptr f + wnum) mod flen f)
          d (item f) (flen f), wnum).

(** [q] are the bytes in the FIFO, oldest first. *)
Record mwmr_ok (f : fifomwmr) (q : list Z) : Prop := {
  m_len : 0 < flen f < 2 ^ 30 ∧ flen f ≤ len (data f);
  m_rd : 0 ≤ read_ptr f < flen f;
  m_wr : write_ptr f = (read_ptr f + status f) mod flen f;
  m_st : status f = len q ∧ len q ≤ flen f;
  m_cell i : 0 ≤ i < len q → aget (data f) ((read_ptr f + i) mod flen f) = q !! Z.to_nat i;
}.

Lemma copy_out_spec d off n :
  0 ≤ off → off + Z.of_nat n ≤ len d →
  ∃ l, copy_out d off n = Some l ∧ length l = n ∧
    ∀ i, 0 ≤ i < Z.of_nat n → l !! Z.to_nat i = aget d (off + i).
Proof.
  revert off. induction n as [|n IH]; intros off Ho Hn; [exists []; split_and!; [done..|lia]|].
  unfold len in *. destruct (aget_range d off) as [x Hx]; [lia|].
  destruct (IH (off + 1)) as (l & E & Hl & Hi); [lia..|].
  exists (x :: l). cbn [copy_out]. rewrite Hx. cbn [mbind option_bind]. rewrite E.
  split_and!; [done|cbn; lia|]. intros i Hir. destruct (decide (i = 0)) as [->|Hne].
  - by rewrite Z.add_0_r, Hx.
  - replace (Z.to_nat i) with (S (Z.to_nat (i - 1))) by lia. cbn [lookup list_lookup].
    rewrite Hi by lia. f_equal. lia.
Qed.

Lemma copy_in_spec d off src :
  0 ≤ off → off + len src ≤ len d →
  ∃ d', copy_in d off src = Some d' ∧ len d' = len d ∧
    ∀ j, 0 ≤ j → aget d' j =
      if (off <=? j) && (j <? off + len src) then src !! Z.to_nat (j - off) else aget d j.
Proof.
  revert d off. induction src as [|x src IH]; intros d off Ho Hn.
  { exists d. split_and!; [done..|]. intros j Hj. unfold len. cbn.
    destruct (Z.leb_spec off j), (Z.ltb_spec j (off + Z.of_nat 0)); cbn; (done || lia). }
  unfold len in *. cbn [length] in Hn. cbn [copy_in]. rewrite aset_Some by lia. cbn [mbind option_bind].
  destruct (IH (<[Z.to_nat off := x]> d) (off + 1)) as (d' & E & Hl & Hd);
    [lia|rewrite length_insert; lia|].
  exists d'. split_and!; [done|by rewrite Hl, length_insert|]. intros j Hj. rewrite Hd by done.
  cbn [length]. destruct (decide (j = off)) as [->|Hne].
  - rewrite (proj2 (Z.leb_gt (off + 1) off)), Z.leb_refl,
      (proj2 (Z.ltb_lt off (off + Z.of_nat (S (length src))))) by lia.
    cbn [andb]. rewrite aget_insert_eq by lia. by rewrite Z.sub_diag.
  - rewrite aget_insert_ne by lia.
    destruct (Z.leb_spec (off + 1) j), (Z.leb_spec off j),
      (Z.ltb_spec j (off + 1 + Z.of_nat (length src))),
      (Z.ltb_spec j (off + Z.of_nat (S (length src)))); cbn [andb]; try done; try lia.
    replace (Z.to_nat (j - off)) with (S (Z.to_nat (j - (off + 1)))) by lia. done.
Qed.

Lemma mod_small_wrap n a : 0 < n → 0 ≤ a < 2 * n → a mod n = if a <? n then a else a - n.
Proof.
  intros Hn Ha. destruct (Z.ltb_spec a n); [by rewrite Z.mod_small by lia|].
  rewrite <- (Z.mod_small (a - n) n) by lia.
  replace a with (a - n + 1 * n) at 1 by lia. by rewrite Z.mod_add by lia.
Qed.

(** Reading [n] bytes from the ring gives the [n] oldest ones. *)
Lemma read_bytes f q n :
  mwmr_ok f q → 0 < n ≤ len q →
  ∃ b, (if read_ptr f + n <=? flen f then copy_out (data f) (read_ptr f) (Z.to_nat n)
        else b1 ← copy_out (data f) (read_ptr f) (Z.to_nat (flen f - read_ptr f));
             b2 ← copy_out (data f) 0 (Z.to_nat (n - (flen f - read_ptr f)));
             Some (b1 ++ b2)) = Some b ∧ b = take (Z.to_nat n) q.
Proof.
  intros [Hlen Hrd _ Hst Hc] Hn.
  assert (Hq : ∀ i, 0 ≤ i < n → take (Z.to_nat n) q !! Z.to_nat i =
                aget (data f) (if read_ptr f + i <? flen f then read_ptr f + i
                               else read_ptr f + i - flen f)).
  { intros i Hi. rewrite lookup_take_lt by lia. rewrite <- Hc by lia. f_equal.
    apply mod_small_wrap; lia. }
  assert (Hlq : length (take (Z.to_nat n) q) = Z.to_nat n)
    by (rewrite length_take; unfold len in *; lia).
  destruct (Z.leb_spec (read_ptr f + n) (flen f)).
  - destruct (copy_out_spec (data f) (read_ptr f) (Z.to_nat n)) as (b & -> & Hl & Hb); [lia..|].
    exists b. split; [done|]. apply list_eq_same_length with (Z.to_nat n); [done..|].
    intros i x y Hi Hx Hy. specialize (Hq (Z.of_nat i) ltac:(lia)).
    specialize (Hb (Z.of_nat i) ltac:(lia)). rewrite Nat2Z.id in Hq, Hb.
    rewrite Hx in Hb. rewrite Hy in Hq. rewrite (proj2 (Z.ltb_lt _ _)) in Hq by lia. congruence.
  - destruct (copy_out_spec (data f) (read_ptr f) (Z.to_nat (flen f - read_ptr f)))
      as (b1 & -> & Hl1 & Hb1); [lia..|].
    destruct (copy_out_spec (data f) 0 (Z.to_nat (n - (flen f - read_ptr f))))
      as (b2 & -> & Hl2 & Hb2); [lia..|]. cbn [mbind option_bind].
    exists (b1 ++ b2). split; [done|].
    apply list_eq_same_length with (Z.to_nat n); [done|rewrite length_app; lia|].
    intros i x y Hi Hx Hy. specialize (Hq (Z.of_nat i) ltac:(lia)). rewrite Nat2Z.id in Hq.
    rewrite Hy in Hq. destruct (decide (i < length b1)%nat) as [Hlt|Hge].
    + rewrite lookup_app_l in Hx by done. specialize (Hb1 (Z.of_nat i) ltac:(lia)).
      rewrite Nat2Z.id, Hx in Hb1. rewrite (proj2 (Z.ltb_lt _ _)) in Hq by lia. congruence.
    + rewrite lookup_app_r in Hx by lia.
      specialize (Hb2 (Z.of_nat (i - length b1)) ltac:(lia)).
      rewrite Nat2Z.id, Hx in Hb2. rewrite (proj2 (Z.ltb_ge _ _)) in Hq by lia.
      replace (read_ptr f + Z.of_nat i - flen f) with (0 + Z.of_nat (i - length b1)) in Hq by lia.
      congruence.
Qed.

(** Writing the bytes [b] at the write pointer, around the end of the ring. *)
Lemma write_bytes d wp n b :
  0 < n → n ≤ len d → 0 ≤ wp < n → len b ≤ n →
  ∃ d', (if wp + len b <=? n then copy_in d wp b
         else d ← copy_in d wp (take (Z.to_nat (n - wp)) b);
              copy_in d 0 (drop (Z.to_nat (n - wp)) b)) = Some d' ∧ len d' = len d ∧
    ∀ j, 0 ≤ j < n →
      aget d' j = if (j - wp) mod n <? len b then b !! Z.to_nat ((j - wp) mod n) else aget d j.
Proof.
  intros Hn Hd Hwp Hb.
  assert (Hmod : ∀ j, 0 ≤ j < n → (j - wp) mod n = if wp <=? j then j - wp else j - wp + n).
  { intros j Hj. destruct (Z.leb_spec wp j); [by rewrite Z.mod_small by lia|].
    rewrite <- (Z.mod_small (j - wp + n) n) by lia.
    replace (j - wp + n) with (j - wp + 1 * n) by lia. by rewrite Z.mod_add by lia. }
  destruct (Z.leb_spec (wp + len b) n).
  - destruct (copy_in_spec d wp b) as (d' & -> & Hl & Hc); [lia..|]. exists d'.
    split_and!; [done..|]. intros j Hj. rewrite Hc, Hmod by lia.
    destruct (Z.leb_spec wp j), (Z.ltb_spec j (wp + len b)); cbn [andb];
      [rewrite (proj2 (Z.ltb_lt _ _)) by lia|rewrite (proj2 (Z.ltb_ge _ _)) by lia..]; done.
  - assert (Hl1 : len (take (Z.to_nat (n - wp)) b) = n - wp)
      by (unfold len in *; rewrite length_take; lia).
    assert (Hl2 : len (drop (Z.to_nat (n - wp)) b) = len b - (n - wp))
      by (unfold len in *; rewrite length_drop; lia).
    destruct (copy_in_spec d wp (take (Z.to_nat (n - wp)) b)) as (d1 & -> & Hd1 & Hc1); [lia..|].
    cbn [mbind option_bind].
    destruct (copy_in_spec d1 0 (drop (Z.to_nat (n - wp)) b)) as (d2 & -> & Hd2 & Hc2); [lia..|].
    exists d2. split_and!; [done|lia|]. intros j Hj. rewrite Hc2, Hc1, Hl1, Hl2, Hmod by lia.
    rewrite lookup_drop. destruct (Z.leb_spec 0 j); [|lia]. cbn [andb].
    destruct (Z.ltb_spec j (0 + (len b - (n - wp)))), (Z.leb_spec wp j); try lia.
    + rewrite (proj2 (Z.ltb_lt _ _)) by lia. f_equal. lia.
    + rewrite (proj2 (Z.ltb_lt j (wp + (n - wp)))), (proj2 (Z.ltb_lt (j - wp) (len b))) by lia.
      cbn [andb]. apply lookup_take_lt. lia.
    + cbn [andb]. rewrite (proj2 (Z.ltb_ge _ _)) by lia. done.
Qed.

Lemma mwmr_read_spec f q size :
  mwmr_ok f q → 0 ≤ size →
  let r := Z.min size (len q) in
  ∃ f', mwmr_read f size = Some (f', take (Z.to_nat r) q, r) ∧ mwmr_ok f' (drop (Z.to_nat r) q).
Proof.
  intros Hok Hs r. pose proof Hok as [Hlen Hrd Hwr [Hst Hq] Hc]. unfold mwmr_read.
  destruct (Z.eqb_spec size 0) as [->|Hne].
  { exists f. subst r. replace (Z.min 0 (len q)) with 0 by (unfold len; lia). done. }
  replace (if status f <? size then status f else size) with r
    by (subst r; rewrite Hst; destruct (Z.ltb_spec (len q) size); lia).
  destruct (Z.eqb_spec r 0) as [Hr|Hr]; [rewrite Hr; by exists f|].
  assert (0 < r ≤ len q) as Hrr by (subst r; unfold len in *; lia).
  destruct (read_bytes f q r Hok Hrr) as (b & E & ->). rewrite E. cbn [mbind option_bind].
  eexists. split; [reflexivity|].
  assert (Hld : len (drop (Z.to_nat r) q) = len q - r)
    by (unfold len in *; rewrite length_drop; lia).
  rewrite u32_small by (unfold wsize; lia).
  split; cbn [flen data read_ptr write_ptr status]; rewrite ?Hld; try done; try lia.
  - apply mod_range. lia.
  - rewrite Hwr, Z.add_mod_idemp_l, Hst by lia. f_equal. lia.
  - intros i Hi. rewrite Z.add_mod_idemp_l by lia.
    rewrite lookup_drop. replace (read_ptr f + r + i) with (read_ptr f + (r + i)) by lia.
    rewrite Hc by lia. f_equal. lia.
Qed.

Lemma mwmr_write_spec f q buff size :
  mwmr_ok f q → 0 ≤ size ≤ len buff →
  let w := Z.min size (flen f - len q) in
  ∃ f', mwmr_write f buff size = Some (f', w) ∧ mwmr_ok f' (q ++ take (Z.to_nat w) buff).
Proof.
  intros Hok Hs w. pose proof Hok as [Hlen Hrd Hwr [Hst Hq] Hc]. unfold mwmr_write.
  destruct (Z.eqb_spec size 0) as [->|Hne].
  { exists f. subst w. replace (Z.min 0 (flen f - len q)) with 0 by lia.
    cbn [Z.to_nat]. by rewrite take_0, app_nil_r. }
  replace (if flen f - status f <? size then flen f - status f else size) with w
    by (subst w; rewrite Hst; destruct (Z.ltb_spec (flen f - len q) size); lia).
  destruct (Z.eqb_spec w 0) as [Hw|Hw].
  { rewrite Hw. cbn [Z.to_nat]. rewrite take_0, app_nil_r. by exists f. }
  assert (0 < w ≤ flen f - len q ∧ w ≤ size) as Hww by (subst w; lia).
  destruct (copy_out_spec buff 0 (Z.to_nat w)) as (b & -> & Hlb & Hb); [lia|lia|].
  cbn [mbind option_bind].
  assert (Eb : b = take (Z.to_nat w) buff).
  { apply list_eq_same_length with (Z.to_nat w);
      [rewrite length_take; unfold len in *; lia|done|].
    intros i x y Hi Hx Hy. rewrite lookup_take_lt in Hy by done.
    specialize (Hb (Z.of_nat i) ltac:(lia)). rewrite Nat2Z.id, Hx in Hb. unfold aget in Hb.
    rewrite (proj2 (Z.leb_le 0 (0 + Z.of_nat i))), Z.add_0_l, Nat2Z.id in Hb by lia. congruence. }
  assert (Hlw : len b = w) by (unfold len; lia). assert (0 ≤ len q) by (unfold len; lia).
  assert (Hwp : 0 ≤ write_ptr f < flen f) by (rewrite Hwr; apply mod_range; lia).
  destruct (write_bytes (data f) (write_ptr f) (flen f) b) as (d & E & Hld & Hd); [lia..|].
  rewrite Hlw in E. rewrite E. cbn [mbind option_bind]. eexists. split; [reflexivity|].
  rewrite <- Eb. assert (Hla : len (q ++ b) = len q + w)
    by (unfold len in *; rewrite length_app; lia).
  rewrite u32_small by (unfold wsize; lia).
  split; cbn [flen data read_ptr write_ptr status]; rewrite ?Hla, ?Hld; try done; try lia.
  - rewrite Hwr, Z.add_mod_idemp_l, Hst by lia. f_equal. lia.
  - intros i Hi. rewrite Hd by (apply mod_range; lia). rewrite Hwr, Hst, Hlw.
    rewrite <- Zminus_mod. replace (read_ptr f + i - (read_ptr f + len q)) with (i - len q) by lia.
    destruct (Z.lt_ge_cases i (len q)).
    + replace ((i - len q) mod flen f) with (i - len q + flen f).
      2:{ rewrite <- (Z.mod_add (i - len q) 1 (flen f)) by lia. rewrite Z.mod_small; lia. }
      rewrite (proj2 (Z.ltb_ge _ _)) by lia. rewrite lookup_app_l by (unfold len in *; lia).
      apply Hc. lia.
    + rewrite Z.mod_small, (proj2 (Z.ltb_lt _ _)) by lia.
      rewrite lookup_app_r by (unfold len in *; lia). f_equal. unfold len. lia.
Qed.

Lemma mwmr_init_ok itm lgth f :
  0 < itm → 0 < lgth → 4 * itm * lgth < 2 ^ 30 →
  mwmr_init true itm lgth = Some f → mwmr_ok f [].
Proof.
  intros Hi Hl Hb [= <-]. assert (u32 (4 * itm * lgth) = 4 * (lgth * itm)) as E4
    by (rewrite u32_small by (unfold wsize; nia); lia).
  assert (u32 (lgth * itm) = lgth * itm) as E1 by (apply u32_small; unfold wsize; nia).
  split; cbn; rewrite ?E1, ?E4; unfold len; rewrite ?length_replicate; cbn; try nia.
  by rewrite Z.mod_0_l by nia.
Qed.
End Mwmr.

(** C36. [mwmr_read] and [mwmr_write] refine a bounded queue of bytes: a write appends as many
    of its bytes as there is room for and says how many, a read removes and returns the
    oldest bytes, as many as it asks for and there are. *)
Theorem mwmr_refines_queue f q buff wsz rsz :
  Mwmr.mwmr_ok f q → 0 ≤ wsz ≤ len buff → 0 ≤ rsz →
  let w := Z.min wsz (Mwmr.flen f - len q) in
  let r := Z.min rsz (len q) in
  (∃ f', Mwmr.mwmr_write f buff wsz = Some (f', w) ∧
         Mwmr.mwmr_ok f' (q ++ take (Z.to_nat w) buff)) ∧
  (∃ f', Mwmr.mwmr_read f rsz = Some (f', take (Z.to_nat r) q, r) ∧
         Mwmr.mwmr_ok f' (drop (Z.to_nat r) q)).
Proof.
  intros Hok Hw Hr. split; [by apply Mwmr.mwmr_write_spec|by apply Mwmr.mwmr_read_spec].
Qed.

(** Five bytes offered to a FIFO of four, then three read. *)
Lemma mwmr_refines_queue_witness :
  ∃ f, Mwmr.mwmr_init true 1 4 = Some f ∧
  (∃ f', Mwmr.mwmr_write f [1; 2; 3; 4; 5] 5 = Some (f', 4) ∧ Mwmr.mwmr_ok f' [1; 2; 3; 4]) ∧
  (∃ f', Mwmr.mwmr_read f 3 = Some (f', [], 0) ∧ Mwmr.mwmr_ok f' []).
Proof.
  eexists. split; [reflexivity|].
  refine (mwmr_refines_queue _ [] [1; 2; 3; 4; 5] 5 3 _ _ _).
  - apply (Mwmr.mwmr_init_ok 1 4); [lia|lia|lia|reflexivity].
  - unfold len. cbn. lia.
  - lia.
Defined.
