(* ===== verification/Threads.v ===== *)
(** * Threads on shared memory

    The synchronisation primitives are described by the steps of one thread: from the
    shared state and its place in the code, a thread has a list of possible next steps
    (several when it may start one of several calls).  This file gives the interleavings
    of any number of such threads, executions chosen by a schedule, and the counting of
    threads at given places. *)

From stdpp Require Import relations.
From S2P Require Import Prelude.

Open Scope Z_scope.

Section threads.
Context {S P : Type} (tstep : Z → S → P → list (S * P)).

Definition sys : Type := S * gmap Z P.

Inductive sstep : sys → sys → Prop :=
  | sstep_intro s ts t p s' p' :
      ts !! t = Some p → (s', p') ∈ tstep t s p → sstep (s, ts) (s', <[t := p']> ts).

(** A schedule names the threads and which of their steps they take. *)
Fixpoint run (w : sys) (l : list (Z * nat)) : option sys :=
  match l with
  | [] => Some w
  | (t, i) :: l =>
      p ← w.2 !! t;
      x ← tstep t w.1 p !! i;
      run (x.1, <[t := x.2]> w.2) l
  end.

Lemma run_rtc w l w' : run w l = Some w' → rtc sstep w w'.
Proof.
  revert w. induction l as [|[t i] l IH]; intros [s ts] E; [by injection E as ->|].
  cbn in E. destruct (ts !! t) as [p|] eqn:Ep; [|done]. cbn in E.
  destruct (tstep t s p !! i) as [[s' p']|] eqn:Ei; [|done]. cbn in E.
  eapply rtc_l; [|by apply IH]. econstructor; [done|]. by eapply list_elem_of_lookup_2.
Qed.

(** Invariants by the steps of one thread. *)
Lemma sys_invariant (I : sys → Prop) w w' :
  (∀ s ts t p s' p', I (s, ts) → ts !! t = Some p → (s', p') ∈ tstep t s p →
     I (s', <[t := p']> ts)) →
  rtc sstep w w' → I w → I w'.
Proof.
  intros Hs Hr HI. refine (rtc_ind_r (R := sstep) I w HI _ w' Hr).
  intros w1 w2 _ [s ts t p s' p' Ht Hin] HI1. by eapply Hs.
Qed.
End threads.

Arguments sys : clear implicits.

(** ** Counting threads *)

(** The threads whose place satisfies [f]. *)
Definition count_pc {P} (f : P → bool) (ts : gmap Z P) : Z :=
  Z.of_nat (size (filter (λ x, f x.2 = true) ts)).

(** [1] for true. *)
Definition b2z (b : bool) : Z := if b then 1 else 0.

Lemma count_pc_delete {P} (f : P → bool) ts t p :
  ts !! t = Some p → count_pc f ts = count_pc f (delete t ts) + b2z (f p).
Proof.
  intros Ht. unfold count_pc. rewrite <- (insert_delete_id ts t p Ht) at 1.
  destruct (f p) eqn:Ep.
  - rewrite map_filter_insert_True by done. rewrite map_size_insert_None; [cbn; lia|].
    rewrite map_lookup_filter_None. left. apply lookup_delete_eq.
  - rewrite map_filter_insert_False by (cbn; congruence). rewrite delete_delete_eq. cbn. lia.
Qed.

Lemma count_pc_insert {P} (f : P → bool) ts t p p' :
  ts !! t = Some p → count_pc f (<[t := p']> ts) = count_pc f ts - b2z (f p) + b2z (f p').
Proof.
  intros Ht. rewrite (count_pc_delete f (<[t := p']> ts) t p') by apply lookup_insert_eq.
  rewrite delete_insert_eq, (count_pc_delete f ts t p Ht). lia.
Qed.

Lemma count_pc_nonneg {P} (f : P → bool) ts : 0 ≤ count_pc f ts.
Proof. unfold count_pc. lia. Qed.

Lemma count_pc_elem {P} (f : P → bool) ts t p :
  ts !! t = Some p → f p = true → 1 ≤ count_pc f ts.
Proof.
  intros Ht Hf. unfold count_pc.
  assert (filter (λ x : Z * P, f x.2 = true) ts ≠ ∅) as Hne%map_size_non_empty_iff; [|lia].
  intros E. assert (filter (λ x : Z * P, f x.2 = true) ts !! t = Some p) as Hl
    by (by apply map_lookup_filter_Some). rewrite E in Hl. by rewrite lookup_empty in Hl.
Qed.

(** Two different threads count twice. *)
Lemma count_pc_two {P} (f : P → bool) ts t u p q :
  ts !! t = Some p → ts !! u = Some q → f p = true → f q = true → t ≠ u → 2 ≤ count_pc f ts.
Proof.
  intros Ht Hu Hp Hq Hne. rewrite (count_pc_delete f ts t p Ht), Hp.
  assert (1 ≤ count_pc f (delete t ts)); [|cbn; lia].
  apply (count_pc_elem f _ u q); [|done]. by rewrite lookup_delete_ne.
Qed.

Lemma count_pc_le_1 {P} (f : P → bool) ts :
  (∀ t u p q, ts !! t = Some p → ts !! u = Some q → f p = true → f q = true → t = u) →
  count_pc f ts ≤ 1.
Proof.
  intros Hu. destruct (decide (count_pc f ts = 0)) as [->|Hne]; [lia|].
  destruct (map_choose (filter (λ x : Z * P, f x.2 = true) ts)) as (t & p & Ht).
  { intros E. apply Hne. unfold count_pc. by rewrite E, map_size_empty. }
  apply map_lookup_filter_Some in Ht as [Ht Hp]. cbn in Hp.
  rewrite (count_pc_delete f ts t p Ht), Hp. cbn. unfold count_pc at 1.
  rewrite map_empty_filter_2; [rewrite map_size_empty; lia|].
  intros u q. rewrite lookup_delete_Some. cbn. intros [Hne' Hq] Hfq.
  destruct Hne'. by apply (Hu t u p q).
Qed.

Lemma count_pc_0 {P} (f : P → bool) ts t p :
  count_pc f ts = 0 → ts !! t = Some p → f p = false.
Proof.
  intros H0 Ht. destruct (f p) eqn:E; [|done].
  pose proof (count_pc_elem f ts t p Ht E). lia.
Qed.

Lemma count_pc_none {P} (f : P → bool) ts :
  (∀ t p, ts !! t = Some p → f p = false) → count_pc f ts = 0.
Proof.
  intros Hf. unfold count_pc. rewrite map_empty_filter_2; [done|].
  intros t p Ht%Hf. cbn. congruence.
Qed.

Lemma count_pc_mono {P} (f g : P → bool) ts :
  (∀ p, f p = true → g p = true) → count_pc f ts ≤ count_pc g ts.
Proof.
  intros Hfg. unfold count_pc. apply Nat2Z.inj_le, map_subseteq_size, map_subseteq_spec.
  intros t p. rewrite !map_lookup_filter_Some. cbn. naive_solver.
Qed.

Lemma count_pc_size {P} (f : P → bool) ts : count_pc f ts ≤ Z.of_nat (size ts).
Proof.
  unfold count_pc. apply Nat2Z.inj_le, map_subseteq_size, map_filter_subseteq.
Qed.

Lemma size_insert {P} (ts : gmap Z P) t p p' :
  ts !! t = Some p → size (<[t := p']> ts) = size ts.
Proof. intros Ht. apply map_size_insert_Some. eauto. Qed.

(** All the threads but one are counted. *)
Lemma count_pc_full {P} (f : P → bool) ts :
  count_pc f ts = Z.of_nat (size ts) → ∀ t p, ts !! t = Some p → f p = true.
Proof.
  intros Hc t p Ht. destruct (f p) eqn:Ep; [done|].
  rewrite (count_pc_delete f ts t p Ht), Ep in Hc. cbn in Hc.
  pose proof (count_pc_size f (delete t ts)).
  rewrite (map_size_delete_Some t ts) in H by eauto.
  assert (size ts ≠ 0%nat); [|lia]. apply map_size_non_empty_iff. intros ->. done.
Qed.

Lemma count_pc_but_one {P} (f : P → bool) ts t p :
  ts !! t = Some p → f p = false → count_pc f ts = Z.of_nat (size ts) - 1 →
  ∀ u q, u ≠ t → ts !! u = Some q → f q = true.
Proof.
  intros Ht Hp Hc u q Hne Hu. rewrite (count_pc_delete f ts t p Ht), Hp in Hc. cbn in Hc.
  apply (count_pc_full f (delete t ts)) with u; [|by rewrite lookup_delete_ne].
  rewrite (map_size_delete_Some t ts) by eauto.
  assert (size ts ≠ 0%nat); [|lia]. apply map_size_non_empty_iff. intros ->. done.
Qed.

(** [n] threads at the same place. *)
Definition at_pc {P} (p : P) (ts : list Z) : gmap Z P := list_to_map ((λ t, (t, p)) <$> ts).

Lemma at_pc_lookup {P} (p : P) ts t x : at_pc p ts !! t = Some x → x = p.
Proof.
  intros Hx%elem_of_list_to_map_2. by apply list_elem_of_fmap in Hx as (? & [= -> ->] & _).
Qed.

Lemma count_at_pc {P} (f : P → bool) p ts : f p = false → count_pc f (at_pc p ts) = 0.
Proof.
  intros Hf. unfold count_pc. rewrite map_empty_filter_2; [done|].
  intros t x ->%at_pc_lookup. cbn. congruence.
Qed.
