(* ===== verification/Mapper.v ===== *)
(** * Page cache (src/kernel/mm/mapper.c, mapper.h)

    The pages of a file or of a shared mapping, indexed by a radix tree under the lock [m_lock].
    A thread that asks for a page that is not there puts a descriptor of its own stack in the
    tree (the dummy), loads the page without the lock and then replaces the dummy; the threads
    that find the dummy sleep on its queue.

    [mapper_get_page] is given as the steps of one thread, one for each critical section and one
    for each call outside of it; the other operations are functions.  An item of the tree is the
    address of a descriptor: the number of the page, or [- t] for the dummy of the thread [t]. *)

From stdpp Require Import functions.
From S2P Require Import Prelude Kcm Objects Radix Page Threads.

Open Scope Z_scope.

Definition EIO : Z := 5.
Definition PG_INIT : Z := 0x001.
Definition PG_INLOAD : Z := 0x008.
Definition PG_BUFFER : Z := 0x020.
Definition PG_MIGRATE : Z := 0x400.

(** ** State *)

(** What does not change: the address of the mapper, its inode ([0] for an anonymous mapper), its
    home cluster, the cluster of the caller, and the value [radix_tree_remove_item] finds in its
    variable without initial value. *)
Record mapper_s := Mapper {
  self : Z; m_inode : Z; m_home_cid : Z; current_cid : Z; CLUSTER_NR : Z; garbage : bool }.

Definition MAPPER_IS_HOME (c : mapper_s) : bool := m_home_cid c =? current_cid c.
Definition MAPPER_IS_MIGRATABLE (c : mapper_s) : bool := MAPPER_IS_HOME c && (m_inode c =? 0).

(** The tree with the source of its nodes, the allocator of pages, the descriptors, the block of
    the file each page holds, and the threads that sleep. *)
Record page_cache (A B : Type) := Cache {
  objs : A; m_radix : radix_s; frames : B; descs : Z → option page_s; filled : gmap Z Z; sleepers : gset Z }.
Arguments Cache {A B}.
Arguments objs {A B}.
Arguments m_radix {A B}.
Arguments frames {A B}.
Arguments descs {A B}.
Arguments filled {A B}.
Arguments sleepers {A B}.

Definition set_mapper (x : Z) (p : page_s) : page_s :=
  Page.Page (state p) (flags p) (cid p) (order p) (wait_queue p) (index p) x (private p) (count p).
Definition set_private (x : Z) (p : page_s) : page_s :=
  Page.Page (state p) (flags p) (cid p) (order p) (wait_queue p) (index p) (mapper p) x (count p).

(** The places of a thread in [mapper_get_page]. *)
Inductive place :=
  | Enter                        (* the head of the loop *)
  | Alloc                        (* the dummy is in the tree *)
  | ReadPage (page : Z)
  | Publish (page : Z)           (* the page is loaded *)
  | Undo (page err : Z)          (* the allocation ([page] is 0) or the load failed *)
  | Release (page err : Z)
  | Sleep
  | Return (page errno : Z).     (* [0] is NULL *)

Record job := Job { jindex : Z; jpc : place }.

Section operations.
Context {A B : Type} `{OS : ObjectSource A} `{PS : !PageSource B} (c : mapper_s).
Notation page_cache := (page_cache A B).
Implicit Types (s : page_cache).

Definition put_tree s (a : A) (r : radix_s) : page_cache := Cache a r (frames s) (descs s) (filled s) (sleepers s).
Definition put_frames s (b : B) : page_cache := Cache (objs s) (m_radix s) b (descs s) (filled s) (sleepers s).
Definition put_desc s (p : Z) (d : page_s) : page_cache :=
  Cache (objs s) (m_radix s) (frames s) (<[p := Some d]> (descs s)) (filled s) (sleepers s).
Definition drop_desc s (p : Z) : page_cache :=
  Cache (objs s) (m_radix s) (frames s) (<[p := None]> (descs s)) (filled s) (sleepers s).
Definition put_filled s (f : gmap Z Z) : page_cache := Cache (objs s) (m_radix s) (frames s) (descs s) f (sleepers s).
Definition put_sleepers s (l : gset Z) : page_cache := Cache (objs s) (m_radix s) (frames s) (descs s) (filled s) l.

(** ** Operations under the lock *)

(** The buffers of block requests attached to a page are not modelled. *)
Definition blkio_destroy (d : page_s) : page_s := PAGE_CLEAR (set_private 0 d) PG_BUFFER.

Definition mapper_remove (s : page_cache) (page : Z) : option page_cache :=
  d ← descs s page;
  '(a, r, _) ← radix_tree_delete (garbage c) (objs s) (m_radix s) (index d);
  let d := PAGE_CLEAR d PG_DIRTY in
  let d := if PAGE_IS d PG_BUFFER then blkio_destroy d else d in
  Some (put_desc (put_tree s a r) page (set_mapper 0 d)).

Definition mapper_find_page s (i : Z) : option Z := radix_tree_lookup (m_radix s) i.

Definition mapper_add_page s (page i : Z) : option (page_cache * Z) :=
  '(a, r, err) ← radix_tree_insert (objs s) (m_radix s) i page;
  let s := put_tree s a r in
  if ctrue err then Some (s, err) else
  d ← descs s page;
  Some (put_desc s page (set_index i (set_mapper (self c) d)), err).

Definition mapper_remove_page s (page : Z) : option page_cache :=
  s ← mapper_remove s page;
  b ← ps_free (frames s) page;
  Some (put_frames s b).

(** ** Several pages at once

    [fuel] bounds the loops of the tree. *)

Definition mapper_find_pages (fuel : nat) s (start nr_pages : Z) : option (list Z) :=
  radix_tree_gang_lookup fuel (m_radix s) start nr_pages.

Definition mapper_find_pages_by_tag (fuel : nat) s (start nr_pages : Z) : option (list Z) :=
  radix_tree_gang_lookup_tag fuel (m_radix s) start nr_pages.

(** The pages up to the first one whose index is not the expected one. *)
Fixpoint contig_loop s (nr_pages i : Z) (pages : list Z) : option Z :=
  match pages with
  | [] => Some i
  | page :: pages =>
      d ← descs s page;
      if negb (index d =? u32 (nr_pages + i)) then Some i else contig_loop s nr_pages (i + 1) pages
  end.

(** The array has [nr_pages] places; the end of the pages is marked in it. *)
Definition mapper_find_pages_contig (fuel : nat) s (start nr_pages : Z) : option Z :=
  pages ← radix_tree_gang_lookup fuel (m_radix s) start nr_pages;
  i ← contig_loop s nr_pages 0 pages;
  _ ← cassert (i <? nr_pages);
  Some i.

Fixpoint mark_loop s (pages_nr : Z) (pages : list Z) : option (page_cache * Z) :=
  match pages with
  | [] => Some (s, pages_nr)
  | page :: pages => d ← descs s page; mark_loop (put_desc s page (PAGE_SET d PG_MIGRATE)) (u32 (pages_nr + 1)) pages
  end.

Fixpoint auto_migrate_loop (n fuel : nat) s (i pages_nr : Z) : option (page_cache * Z) :=
  match n with
  | O => None
  | S n =>
      pages ← radix_tree_gang_lookup fuel (m_radix s) i 10;
      '(s, pages_nr) ← mark_loop s pages_nr pages;
      if Z.of_nat (length pages) =? 0 then Some (s, pages_nr)
      else auto_migrate_loop n fuel s (u32 (i + Z.of_nat (length pages))) pages_nr
  end.

Definition mapper_set_auto_migrate (n fuel : nat) s : option (page_cache * Z) := auto_migrate_loop n fuel s 0 0.

(** ** [mapper_get_page] *)

Definition dummy (i : Z) : page_s :=
  let d := PAGE_SET (PAGE_CLEAR (page_init (CLUSTER_NR c)) PG_INIT) PG_INLOAD in
  set_index i (set_mapper (self c) (snd (page_refcount_up d))).

(** [wakeup_all]: the queue is emptied and its threads run again. *)
Definition wakeup_all s (page : Z) : option page_cache :=
  d ← descs s page;
  Some (put_sleepers (put_desc s page (set_wait_queue [] d)) (sleepers s ∖ list_to_set (wait_queue d))).

Definition insert_dummy (t : Z) s (i : Z) (info : option radix_item_info_s) : option (page_cache * place) :=
  let s := put_desc s (- t) (dummy i) in
  '(a, r, err) ← match info with
    | Some x => '(a, r) ← radix_item_info_apply (garbage c) (objs s) (m_radix s) x RADIX_INFO_INSERT (- t); Some (a, r, 0)
    | None => radix_tree_insert (objs s) (m_radix s) i (- t)
    end;
  let s := put_tree s a r in
  if ctrue err then
    s ← mapper_remove s (- t);
    Some (drop_desc s (- t), Return 0 (if err =? ENOMEM then err else EIO))
  else Some (s, Alloc).

(** The page was found.  The migration of a page of an anonymous mapper from another cluster
    ([vmm_migrate_shared_page_seq]) is not modelled. *)
Definition found_page (t : Z) s (page : Z) : option (page_cache * place) :=
  d ← descs s page;
  if PAGE_IS d PG_INLOAD then
    Some (put_sleepers (put_desc s page (set_wait_queue (wait_queue d ++ [t]) d)) (sleepers s ∪ {[t]}), Sleep)
  else if PAGE_IS d PG_MIGRATE then
    _ ← cassert (MAPPER_IS_MIGRATABLE c);
    if (m_inode c =? 0) && negb (current_cid c =? cid d) then None
    else Some (put_desc s page (PAGE_CLEAR d PG_MIGRATE), Return page 0)
  else Some (s, Return page 0).

Definition enter (t : Z) s (i : Z) : option (page_cache * place) :=
  info ← radix_item_info_lookup (m_radix s) i;
  match info with
  | Some x => if item x =? 0 then insert_dummy t s i info else found_page t s (item x)
  | None => insert_dummy t s i None
  end.

Definition alloc_page s (i : Z) : option (page_cache * place) :=
  match ps_alloc (frames s) with
  | (b, None) => Some (put_frames s b, Undo 0 0)
  | (b, Some page) =>
      d ← descs s page;
      Some (put_desc (put_frames s b) page (set_index i (set_mapper (self c) (PAGE_SET d PG_INLOAD))), ReadPage page)
  end.

(** The call of [readpage] ends with or without an error, with or without buffers attached to the
    page; without an error the page holds the block of its index. *)
Definition read_page s (page : Z) (buffers : bool) (err : Z) : option (page_cache * place) :=
  d ← descs s page;
  let d := if buffers then PAGE_SET d PG_BUFFER else d in
  let f := if err =? 0 then <[page := index d]> (filled s) else delete page (filled s) in
  Some (put_filled (put_desc s page d) f, if err =? 0 then Publish page else Undo page err).

Definition publish (t : Z) s (i page : Z) : option (page_cache * place) :=
  info ← radix_item_info_lookup (m_radix s) i;
  x ← info;
  _ ← cassert (item x =? - t);
  '(a, r) ← radix_item_info_apply (garbage c) (objs s) (m_radix s) x RADIX_INFO_SET page;
  d ← descs s page;
  s ← wakeup_all (put_desc (put_tree s a r) page (PAGE_CLEAR d PG_INLOAD)) (- t);
  Some (drop_desc s (- t), Return page 0).

Definition undo (t : Z) s (page err : Z) : option (page_cache * place) :=
  s ← mapper_remove s (- t);
  s ← wakeup_all s (- t);
  Some (drop_desc s (- t), if page =? 0 then Return 0 (if err =? 0 then ENOMEM else EIO) else Release page err).

Definition release s (page err : Z) : option (page_cache * place) :=
  d ← descs s page;
  let d := if PAGE_IS d PG_BUFFER then blkio_destroy d else d in
  b ← ps_free (frames s) page;
  Some (put_frames (put_desc s page (set_mapper 0 d)) b, Return 0 (if err =? 0 then ENOMEM else EIO)).

(** A thread that sleeps goes on when it is no longer one of the sleepers. *)
Definition mapper_get_page (t : Z) s (j : job) : list (page_cache * job) :=
  let i := jindex j in
  (λ x, (x.1, Job i x.2)) <$>
  match jpc j with
  | Enter => option_list (enter t s i)
  | Alloc => option_list (alloc_page s i)
  | ReadPage page => b ← [false; true]; err ← [0; EIO]; option_list (read_page s page b err)
  | Publish page => option_list (publish t s i page)
  | Undo page err => option_list (undo t s page err)
  | Release page err => option_list (release s page err)
  | Sleep => if bool_decide (t ∈ sleepers s) then [] else [(s, Enter)]
  | Return _ _ => []
  end.
End operations.
