(* ===== verification/MapperSys.v ===== *)
(** * The page cache under concurrent requests

    Any number of threads call [mapper_get_page] on one mapper.  The invariant ties every item of
    the tree to a loaded page or to the dummy of a thread that is loading, and every sleeper to
    the thread that will wake it. *)

From stdpp Require Import relations functions.
From S2P Require Import Prelude Kcm KcmSpec Objects Radix RadixSpec Page Threads Mapper.

Open Scope Z_scope.

(** The dummy of the thread is in the tree. *)
Definition loading (p : place) : bool :=
  match p with Alloc | ReadPage _ | Publish _ | Undo _ _ => true | _ => false end.

(** The page a thread has to itself. *)
Definition holds (p : place) : option Z :=
  match p with
  | ReadPage x | Publish x | Release x _ => Some x
  | Undo x _ => if x =? 0 then None else Some x
  | _ => None
  end.

Definition max_page : Z := 2 ^ 20.

Section system.
Context {A B : Type} `{OS : ObjectSource A} `{OL : !ObjectSourceLaws A} `{PS : !PageSource B} `{PL : !PageSourceLaws B} (c : mapper_s).
Implicit Types (s : page_cache A B) (ts : gmap Z job) (m : gmap Z Z).

(** A removal the tree survives: another item needs the height of the tree, and no item of the
    same leaf is at the mercy of the uninitialised variable. *)
Definition removable s (i : Z) : Prop :=
  (∃ k v, k ≠ i ∧ 64 ^ (height (m_radix s) - 1) ≤ k < wsize ∧ radix_tree_lookup (m_radix s) k = Some v ∧ v ≠ 0) ∧
  (garbage c = false ∨ ∀ k, k ≠ i → 0 ≤ k < wsize → k / 64 = i / 64 → radix_tree_lookup (m_radix s) k = Some 0).

Definition undo_ok s (j : job) : Prop :=
  match jpc j with Undo _ _ => removable s (jindex j) | _ => True end.

(** The interleavings in which every failed load is undone on such a tree. *)
Inductive cstep : page_cache A B * gmap Z job → page_cache A B * gmap Z job → Prop :=
  | cstep_intro s ts t j s' j' :
      ts !! t = Some j → undo_ok s j → (s', j') ∈ mapper_get_page c t s j → cstep (s, ts) (s', <[t := j']> ts).

(** ** Invariant *)

Definition mine s (p i : Z) : Prop := ∃ d, descs s p = Some d ∧ mapper d = self c ∧ index d = i.

Definition loaded s (i p : Z) : Prop :=
  0 < p < max_page ∧ ps_owned (frames s) p ∧ filled s !! p = Some i ∧
  ∃ d, descs s p = Some d ∧ PAGE_IS d PG_INLOAD = false ∧ mapper d = self c ∧ index d = i.

(** No page waits for a migration to another cluster. *)
Definition stays (d : page_s) : Prop :=
  PAGE_IS d PG_MIGRATE = true → MAPPER_IS_MIGRATABLE c = true ∧ cid d = current_cid c.

Definition table_ok s : Prop := ∀ q, 0 < q < max_page → ∃ d, descs s q = Some d ∧ stays d.

Definition place_ok s m (t i : Z) (p : place) : Prop :=
  (loading p = true → m !! i = Some (- t) ∧ ∃ d, descs s (- t) = Some d ∧ PAGE_IS d PG_INLOAD = true ∧ index d = i) ∧
  (∀ x, holds p = Some x → 0 < x < max_page ∧ ps_owned (frames s) x ∧ ∀ k, m !! k ≠ Some x) ∧
  match p with
  | ReadPage x => mine s x i
  | Publish x => mine s x i ∧ filled s !! x = Some i
  | Return x e => x = 0 ∧ e ≠ 0 ∨ 0 < x ∧ m !! i = Some x
  | _ => True
  end.

Record inv s ts m : Prop := Inv {
  i_tree : represents (objs s) (m_radix s) m;
  i_frames : ps_inv (frames s);
  i_table : table_ok s;
  i_entry i v : m !! i = Some v → loaded s i v ∨ ∃ j, ts !! (- v) = Some j ∧ jindex j = i ∧ loading (jpc j) = true;
  i_thread t j : ts !! t = Some j → 0 < t ∧ 0 ≤ jindex j < wsize ∧ (jpc j ≠ Sleep → t ∉ sleepers s) ∧ place_ok s m t (jindex j) (jpc j);
  i_hold t u j k x : ts !! t = Some j → ts !! u = Some k → holds (jpc j) = Some x → holds (jpc k) = Some x → t = u;
  i_sleep t : t ∈ sleepers s → ∃ j u k d, ts !! t = Some j ∧ ts !! u = Some k ∧ loading (jpc k) = true ∧ jindex k = jindex j ∧
    descs s (- u) = Some d ∧ t ∈ wait_queue d }.

(** ** What a step of a thread leaves to the others *)

Definition similar (d d' : page_s) : Prop :=
  PAGE_IS d' PG_INLOAD = PAGE_IS d PG_INLOAD ∧ mapper d' = mapper d ∧ index d' = index d ∧ ∀ x, x ∈ wait_queue d → x ∈ wait_queue d'.

Lemma similar_refl d : similar d d.
Proof. by split_and!. Qed.

Record framed (t i : Z) (p : place) s m s' m' : Prop := Framed {
  f_map k : k ≠ i → m' !! k = m !! k;
  f_here : m' !! i = m !! i ∨ m !! i = None ∨ m !! i = Some (- t);
  f_new v : m' !! i = Some v → m !! i = Some v ∨ v = - t ∨ holds p = Some v;
  f_descs x d : x ≠ - t → holds p ≠ Some x → (0 < x → ps_owned (frames s) x) → descs s x = Some d →
    ∃ d', descs s' x = Some d' ∧ similar d d';
  f_filled x : holds p ≠ Some x → filled s' !! x = filled s !! x;
  f_owned x : holds p ≠ Some x → ps_owned (frames s) x → ps_owned (frames s') x }.

Lemma loaded_framed t i p s m s' m' k v :
  framed t i p s m s' m' → 0 < t → holds p ≠ Some v → loaded s k v → loaded s' k v.
Proof.
  intros F Ht Hh (Hv & Ho & Hf & d & Hd & D1 & D2 & D3). split; [done|]. split; [by apply (f_owned _ _ _ _ _ _ _ F)|].
  split; [by rewrite (f_filled _ _ _ _ _ _ _ F)|]. destruct (f_descs _ _ _ _ _ _ _ F v d) as (d' & Hd' & S1 & S2 & S3 & _); [lia|done|done|done|].
  exists d'. by rewrite S1, S2, S3.
Qed.

Lemma mine_framed t i p s m s' m' x k :
  framed t i p s m s' m' → 0 < t → 0 < x → holds p ≠ Some x → ps_owned (frames s) x → mine s x k → mine s' x k.
Proof.
  intros F Ht Hx Hh Ho (d & Hd & D1 & D2). destruct (f_descs _ _ _ _ _ _ _ F x d) as (d' & Hd' & _ & S2 & S3 & _); [lia|done|done|done|].
  exists d'. by rewrite S2, S3.
Qed.

(** The place of another thread is as good as before. *)
Lemma place_framed ts t i p s m s' m' u k :
  inv s ts m → framed t i p s m s' m' → 0 < t → u ≠ t → (∀ x, holds p = Some x → 0 < x ∧ holds (jpc k) ≠ Some x) → ts !! u = Some k →
  place_ok s' m' u (jindex k) (jpc k).
Proof.
  intros HI F Ht Hu Hsep Hk. destruct (i_thread _ _ _ HI u k Hk) as (Hu0 & _ & _ & P1 & P2 & P3).
  assert (Hh : ∀ x, holds (jpc k) = Some x → holds p ≠ Some x) by (intros x E1 E2; by apply (Hsep x)).
  assert (Hkeep : ∀ v, m !! jindex k = Some v → v ≠ - t → m' !! jindex k = Some v).
  { intros v Hv Hne. destruct (decide (jindex k = i)) as [<-|Hi]; [|by rewrite (f_map _ _ _ _ _ _ _ F)].
    destruct (f_here _ _ _ _ _ _ _ F) as [->|[E|E]]; congruence. }
  split; [|split].
  - intros Hl. destruct (P1 Hl) as (Hm & d & Hd & D1 & D2). split; [apply Hkeep; [done|lia]|].
    destruct (f_descs _ _ _ _ _ _ _ F (- u) d) as (d' & Hd' & S1 & _ & S3 & _); [lia| |lia|done|exists d'; by rewrite S1, S3].
    intros E. apply Hsep in E. lia.
  - intros x Hx. destruct (P2 x Hx) as (Hr & Ho & Hno). split; [done|]. split; [by apply (f_owned _ _ _ _ _ _ _ F); [apply Hh|]|].
    intros k' E. destruct (decide (k' = i)) as [->|Hi]; [|rewrite (f_map _ _ _ _ _ _ _ F) in E by done; by apply (Hno k')].
    destruct (f_new _ _ _ _ _ _ _ F x E) as [E'|[->|E']]; [by apply (Hno i)|lia|by apply (Hh x)].
  - destruct (jpc k) as [| |x|x|x e|x e| |x e] eqn:Ep; try done; cbn [holds] in *.
    + destruct (P2 x eq_refl) as (Hr & Ho & _). eapply mine_framed; [done|done|lia|by apply Hh|done|done].
    + destruct (P2 x eq_refl) as (Hr & Ho & _), P3 as [P3 Pf]. split; [|by rewrite (f_filled _ _ _ _ _ _ _ F) by by apply Hh].
      eapply mine_framed; [done|done|lia|by apply Hh|done|done].
    + destruct P3 as [?|[Hx Hm]]; [by left|right]. split; [done|]. apply Hkeep; [done|lia].
Qed.

Lemma thread_step s ts m t j s' m' p' :
  inv s ts m → ts !! t = Some j → framed t (jindex j) (jpc j) s m s' m' →
  represents (objs s') (m_radix s') m' → ps_inv (frames s') → table_ok s' →
  place_ok s' m' t (jindex j) p' →
  (∀ v, m' !! jindex j = Some v → v = - t ∧ loading p' = true ∨ loaded s' (jindex j) v ∨ m !! jindex j = Some v ∧ v ≠ - t) →
  (∀ x, holds p' = Some x → holds (jpc j) = Some x ∨ ¬ ps_owned (frames s) x) →
  (∀ u, u ∈ sleepers s' → u ∈ sleepers s ∨ u = t) →
  (t ∈ sleepers s' → p' = Sleep ∧ ∃ u k d, u ≠ t ∧ ts !! u = Some k ∧ loading (jpc k) = true ∧ jindex k = jindex j ∧
    descs s' (- u) = Some d ∧ t ∈ wait_queue d) →
  (∀ d, loading (jpc j) = true → descs s (- t) = Some d →
    loading p' = true ∧ descs s' (- t) = Some d ∨ ∀ u, u ∈ wait_queue d → u ∉ sleepers s') →
  inv s' (<[t := Job (jindex j) p']> ts) m'.
Proof.
  intros HI Hj F Htree Hfr Htab Hp He Hnew Hsl Hst Hq. set (i := jindex j) in *.
  destruct (i_thread _ _ _ HI t j Hj) as (Ht & Hi & Hns & P1 & P2 & _). fold i in Hi, P1.
  assert (Hpos : ∀ x, holds (jpc j) = Some x → 0 < x) by (intros x Hx; apply P2 in Hx; lia).
  assert (Hwas : ∀ u, u ≠ t → u ∈ sleepers s' → u ∈ sleepers s) by (intros u Hu Hin; by destruct (Hsl u Hin)).
  split; [done|done|done|..].
  - intros k v Hkv. assert (m !! k = Some v ∧ v ≠ - t → loaded s' k v ∨ ∃ j0, <[t := Job i p']> ts !! (- v) = Some j0 ∧ jindex j0 = k ∧ loading (jpc j0) = true) as Hold.
    { intros [Hm Hv]. destruct (i_entry _ _ _ HI k v Hm) as [Hl|(j0 & Hj0 & E1 & E2)].
      - left. eapply loaded_framed; [exact F|done| |exact Hl]. intros E. by apply (proj2 (proj2 (P2 v E)) k).
      - right. exists j0. rewrite lookup_insert_ne by lia. done. }
    destruct (decide (k = i)) as [->|Hki].
    + destruct (He v Hkv) as [[-> Hl]|[Hl|Hl]]; [right|by left|by apply Hold]. rewrite Z.opp_involutive, lookup_insert_eq. by eexists.
    + apply Hold. rewrite (f_map _ _ _ _ _ _ _ F) in Hkv by done. split; [done|]. intros ->.
      destruct (i_entry _ _ _ HI k _ Hkv) as [[? _]|(j0 & Hj0 & E1 & E2)]; [lia|]. rewrite Z.opp_involutive, Hj in Hj0. injection Hj0 as <-. by subst k.
  - intros u k. rewrite lookup_insert_Some. intros [[<- <-]|[Hu Hk]]; cbn [jindex jpc].
    + split; [done|]. split; [done|]. split; [|done]. intros Hne Hin. by destruct (Hst Hin).
    + destruct (i_thread _ _ _ HI u k Hk) as (Hu0 & Hik & Hnk & _). split; [done|]. split; [done|]. split; [intros Hne Hin; by apply (Hnk Hne), Hwas|].
      eapply place_framed; [done|exact F|done|done| |done]. intros x Hx. split; [by apply Hpos|]. intros Hx'. by destruct (i_hold _ _ _ HI t u j k x Hj Hk Hx Hx').
  - intros u w k l x. rewrite !lookup_insert_Some. intros [[<- <-]|[Hu Hk]] [[<- <-]|[Hw Hl]]; cbn [jpc]; intros E1 E2; [done|..].
    + destruct (Hnew x E1) as [E|Hno]; [exact (i_hold _ _ _ HI t w j l x Hj Hl E E2)|].
      destruct (i_thread _ _ _ HI w l Hl) as (_ & _ & _ & _ & Q2 & _). by destruct (Q2 x E2) as (_ & ? & _).
    + destruct (Hnew x E2) as [E|Hno]; [exact (i_hold _ _ _ HI u t k j x Hk Hj E1 E)|].
      destruct (i_thread _ _ _ HI u k Hk) as (_ & _ & _ & _ & Q2 & _). by destruct (Q2 x E1) as (_ & ? & _).
    + exact (i_hold _ _ _ HI u w k l x Hk Hl E1 E2).
  - intros u Hin. destruct (decide (u = t)) as [->|Hu].
    { destruct (Hst Hin) as (-> & w & k & d & Hw & Hk & ?). exists (Job i Sleep), w, k, d. rewrite lookup_insert_eq, lookup_insert_ne by done. done. }
    destruct (i_sleep _ _ _ HI u (Hwas u Hu Hin)) as (ju & w & k & d & Hju & Hk & Hl & Hix & Hd & Hqd).
    destruct (decide (w = t)) as [->|Hw].
    + rewrite Hj in Hk. injection Hk as <-. destruct (Hq d Hl Hd) as [[Hl' Hd']|Hno]; [|by destruct (Hno u Hqd)].
      exists ju, t, (Job i p'), d. rewrite lookup_insert_ne, lookup_insert_eq by done. done.
    + destruct (f_descs _ _ _ _ _ _ _ F (- w) d) as (d' & Hd' & _ & _ & _ & S4); [lia| | |done|].
      * intros E. apply Hpos in E. destruct (i_thread _ _ _ HI w k Hk). lia.
      * destruct (i_thread _ _ _ HI w k Hk). lia.
      * exists ju, w, k, d'. rewrite !lookup_insert_ne by done. split_and!; try done. by apply S4.
Qed.

(** ** The steps *)

Lemma flag_set d f g : Z.land f g = 0 → PAGE_IS (PAGE_SET d f) g = PAGE_IS d g.
Proof. intros E. unfold PAGE_IS, PAGE_SET. cbn [flags set_flags]. by rewrite Z.land_lor_distr_l, E, Z.lor_0_r. Qed.

Lemma flag_clear d f g : Z.land (Z.lnot f mod 2 ^ 12) g = g → PAGE_IS (PAGE_CLEAR d f) g = PAGE_IS d g.
Proof. intros E. unfold PAGE_IS, PAGE_CLEAR. cbn [flags set_flags]. by rewrite <- Z.land_assoc, E. Qed.

(** A step that does not change the tree. *)
Lemma framed_same t i p s m s' :
  (∀ x d, x ≠ - t → holds p ≠ Some x → (0 < x → ps_owned (frames s) x) → descs s x = Some d → ∃ d', descs s' x = Some d' ∧ similar d d') →
  (∀ x, holds p ≠ Some x → filled s' !! x = filled s !! x) → (∀ x, holds p ≠ Some x → ps_owned (frames s) x → ps_owned (frames s') x) →
  framed t i p s m s' m.
Proof. intros H1 H2 H3. split; auto. Qed.

Lemma table_put s p d : table_ok s → stays d → table_ok (put_desc s p d).
Proof.
  intros Ht Hd q Hq. cbn [put_desc descs]. destruct (decide (q = p)) as [->|Hne]; [rewrite fn_lookup_insert; by eexists|].
  rewrite fn_lookup_insert_ne by done. by apply Ht.
Qed.


(** A page that was free is no item of the tree. *)
Lemma free_no_item s ts m x k : inv s ts m → 0 < x → ¬ ps_owned (frames s) x → m !! k ≠ Some x.
Proof.
  intros HI Hx Ho Hk. destruct (i_entry _ _ _ HI k x Hk) as [(_ & ? & _)|(j & Hj & _)]; [done|]. destruct (i_thread _ _ _ HI _ _ Hj). lia.
Qed.

(** A step of a thread that goes on loading. *)
Lemma inv_load s ts m t j s' p' :
  inv s ts m → ts !! t = Some j → loading (jpc j) = true → loading p' = true →
  framed t (jindex j) (jpc j) s m s' m → objs s' = objs s → m_radix s' = m_radix s → sleepers s' = sleepers s →
  ps_inv (frames s') → table_ok s' → descs s' (- t) = descs s (- t) →
  (∀ x, holds p' = Some x → 0 < x < max_page ∧ ps_owned (frames s') x ∧ (holds (jpc j) = Some x ∨ ¬ ps_owned (frames s) x)) →
  match p' with ReadPage x => mine s' x (jindex j) | Publish x => mine s' x (jindex j) ∧ filled s' !! x = Some (jindex j) | _ => True end →
  inv s' (<[t := Job (jindex j) p']> ts) m.
Proof.
  intros HI Hj Hl Hl' F E1 E2 E3 Hb Htab Ed Hh Hp. destruct (i_thread _ _ _ HI t j Hj) as (Ht & Hi & Hns & P1 & P2 & _).
  destruct (P1 Hl) as (Hm & d0 & Hd0 & D1 & D2). apply (thread_step s ts m t j s' m p' HI Hj F); rewrite ?E1, ?E2, ?E3.
  - apply HI.
  - done.
  - done.
  - split; [|split; [|by destruct p']].
    + intros _. split; [done|]. exists d0. by rewrite Ed.
    + intros x Hx. destruct (Hh x Hx) as (Hr & Ho & Hor). split; [done|]. split; [done|]. intros k.
      destruct Hor as [Hx'|Hno]; [by apply P2|eapply free_no_item; [done|lia|done]].
  - intros v Hv. left. split; [congruence|done].
  - intros x Hx. by apply Hh.
  - auto.
  - intros Hin. destruct Hns; [|done]. by destruct (jpc j).
  - intros d _ Hd. left. split; [done|by rewrite Ed].
Qed.

Lemma alloc_ok s ts m t j :
  inv s ts m → ts !! t = Some j → jpc j = Alloc →
  ∃ s' p', alloc_page c s (jindex j) = Some (s', p') ∧ inv s' (<[t := Job (jindex j) p']> ts) m.
Proof.
  intros HI Hj Ep. destruct (i_thread _ _ _ HI t j Hj) as (Ht & _).
  pose proof (ps_alloc_law (frames s) (i_frames _ _ _ HI)) as Hl. unfold alloc_page. destruct (ps_alloc (frames s)) as [b [q|]]; destruct Hl as [Hb Hown].
  - destruct Hown as (Hq & Hno & Hown). destruct (i_table _ _ _ HI q Hq) as (d & Hd & Hs). rewrite Hd. cbn [mbind option_bind]. eexists _, _. split; [done|].
    apply (inv_load s ts m t j _ (ReadPage q) HI Hj); rewrite ?Ep; try done.
    + apply framed_same; cbn [put_desc put_frames descs frames filled]; [|done|intros x _ Hx; apply Hown; by left].
      intros x d' _ _ Hx Hd'. exists d'. split; [|apply similar_refl]. rewrite fn_lookup_insert_ne; [done|]. intros <-. apply Hno, Hx. lia.
    + apply (table_put (put_frames s b)); [apply HI|]. intros E. apply Hs. rewrite <- E. symmetry. by apply (flag_set d PG_INLOAD PG_MIGRATE).
    + cbn [descs put_desc put_frames]. by rewrite fn_lookup_insert_ne by lia.
    + intros x [= <-]. split; [done|]. split; [apply Hown; by right|by right].
    + eexists. cbn [descs put_desc put_frames]. by rewrite fn_lookup_insert.
  - eexists _, _. split; [done|]. apply (inv_load s ts m t j _ (Undo 0 0) HI Hj); rewrite ?Ep; try done.
    + apply framed_same; cbn [put_frames descs frames filled]; [|done|intros x _ Hx; by apply Hown]. intros x d' _ _ _ Hd'. exists d'. split; [done|apply similar_refl].
    + exact (i_table _ _ _ HI).
Qed.

Lemma read_ok s ts m t j page buffers err :
  inv s ts m → ts !! t = Some j → jpc j = ReadPage page →
  ∃ s' p', read_page s page buffers err = Some (s', p') ∧ inv s' (<[t := Job (jindex j) p']> ts) m.
Proof.
  intros HI Hj Ep. destruct (i_thread _ _ _ HI t j Hj) as (Ht & _ & _ & _ & P2 & P3). rewrite Ep in *. destruct (P2 page eq_refl) as (Hr & Ho & _).
  destruct P3 as (d & Hd & D1 & D2). unfold read_page. rewrite Hd. cbn [mbind option_bind].
  set (d' := if buffers then PAGE_SET d PG_BUFFER else d). assert (mapper d' = self c ∧ index d' = jindex j) as [D1' D2'] by (by unfold d'; destruct buffers).
  assert (stays d') as Hs.
  { destruct (i_table _ _ _ HI page Hr) as (d1 & Hd1 & Hs). rewrite Hd in Hd1. injection Hd1 as <-. unfold d'. destruct buffers; [|done].
    intros E. apply Hs. rewrite <- E. symmetry. by apply flag_set. }
  eexists _, _. split; [done|]. apply (inv_load s ts m t j _ _ HI Hj); rewrite ?Ep; try done.
  - by destruct (err =? 0).
  - apply framed_same; cbn [put_desc put_filled descs frames filled holds]; [| |done].
    + intros x dx _ Hx _ Hdx. exists dx. split; [|apply similar_refl]. rewrite fn_lookup_insert_ne; congruence.
    + intros x Hx. destruct (err =? 0); [rewrite lookup_insert_ne|rewrite lookup_delete_ne]; congruence.
  - apply HI.
  - exact (table_put s page d' (i_table _ _ _ HI) Hs).
  - cbn [descs put_desc put_filled]. by rewrite fn_lookup_insert_ne by lia.
  - intros x Hx. assert (x = page) as ->; [|by auto]. destruct (err =? 0); [by injection Hx|]. cbn [holds] in Hx. destruct (page =? 0); [done|by injection Hx].
  - destruct (err =? 0); [|done]. cbn [filled put_filled]. rewrite lookup_insert_eq, D2'. split; [|done]. exists d'. cbn [descs put_desc put_filled]. by rewrite fn_lookup_insert.
Qed.

Lemma not_mine s ts m t j k : inv s ts m → ts !! t = Some j → loading (jpc j) = false → m !! k ≠ Some (- t).
Proof.
  intros HI Hj Hl Hk. destruct (i_thread _ _ _ HI t j Hj) as (Ht & _). destruct (i_entry _ _ _ HI k _ Hk) as [[? _]|(j' & Hj' & _ & E)]; [lia|].
  rewrite Z.opp_involutive, Hj in Hj'. congruence.
Qed.

(** A step of a thread that is not loading and leaves the items alone. *)
Lemma inv_rest s ts m t j s' p' :
  inv s ts m → ts !! t = Some j → loading (jpc j) = false → loading p' = false → holds p' = None →
  framed t (jindex j) (jpc j) s m s' m → represents (objs s') (m_radix s') m → ps_inv (frames s') → table_ok s' →
  match p' with Return x e => x = 0 ∧ e ≠ 0 ∨ 0 < x ∧ m !! jindex j = Some x | _ => True end →
  (∀ u, u ∈ sleepers s' → u ∈ sleepers s ∨ u = t) →
  (t ∈ sleepers s' → p' = Sleep ∧ ∃ u k d, u ≠ t ∧ ts !! u = Some k ∧ loading (jpc k) = true ∧ jindex k = jindex j ∧
    descs s' (- u) = Some d ∧ t ∈ wait_queue d) →
  inv s' (<[t := Job (jindex j) p']> ts) m.
Proof.
  intros HI Hj Hl Hl' Hh F Hr Hb Htab Hp Hsl Hst. apply (thread_step s ts m t j s' m p' HI Hj F); try done.
  - split; [by rewrite Hl'|]. split; [by rewrite Hh|]. by destruct p'.
  - intros v Hv. right. right. split; [done|]. intros ->. by eapply not_mine.
  - by rewrite Hh.
  - by rewrite Hl.
Qed.

Lemma wake_ok s ts m t j : inv s ts m → ts !! t = Some j → jpc j = Sleep → t ∉ sleepers s → inv s (<[t := Job (jindex j) Enter]> ts) m.
Proof.
  intros HI Hj Ep Hns. apply (inv_rest s ts m t j s Enter HI Hj); rewrite ?Ep; try done; try apply HI; [|by left].
  apply framed_same; [|done|done]. intros x d _ _ _ Hd. exists d. split; [done|apply similar_refl].
Qed.

Lemma release_page_ok s ts m t j page err :
  inv s ts m → ts !! t = Some j → jpc j = Release page err →
  ∃ s' p', release s page err = Some (s', p') ∧ inv s' (<[t := Job (jindex j) p']> ts) m.
Proof.
  intros HI Hj Ep. destruct (i_thread _ _ _ HI t j Hj) as (Ht & _ & Hns & _ & P2 & _). rewrite Ep in *. destruct (P2 page eq_refl) as (Hr & Ho & _).
  destruct (i_table _ _ _ HI page Hr) as (d & Hd & Hs). unfold release. rewrite Hd. cbn [mbind option_bind].
  destruct (ps_free_law (frames s) page (i_frames _ _ _ HI) Ho) as (b & -> & Hb & Hown). cbn [mbind option_bind].
  set (d' := if PAGE_IS d PG_BUFFER then blkio_destroy d else d). assert (stays (set_mapper 0 d')) as Hs'.
  { unfold d'. destruct (PAGE_IS d PG_BUFFER); [|exact Hs]. intros E. apply Hs. rewrite <- E. symmetry. by apply (flag_clear (set_private 0 d) PG_BUFFER PG_MIGRATE). }
  eexists _, _. split; [done|]. apply (inv_rest s ts m t j _ _ HI Hj); rewrite ?Ep; try done.
  - apply framed_same; cbn [put_desc put_frames descs frames filled holds]; [|done|].
    + intros x dx _ Hx _ Hdx. exists dx. split; [|apply similar_refl]. rewrite fn_lookup_insert_ne; congruence.
    + intros x Hx Hox. apply Hown. split; congruence.
  - apply HI.
  - exact (table_put s page _ (i_table _ _ _ HI) Hs').
  - left. split; [done|]. by destruct (err =? 0).
  - by left.
  - intros Hin. by destruct (Hns ltac:(done)).
Qed.

(** The change of one descriptor that concerns nobody else. *)
Lemma framed_put t i p s m s' x d d' :
  descs s x = Some d → similar d d' → descs s' = <[x := Some d']> (descs s) → filled s' = filled s → frames s' = frames s →
  framed t i p s m s' m.
Proof.
  intros Hd Hs E1 E2 E3. apply framed_same; [|by rewrite E2|by rewrite E3]. intros y e _ _ _ He. rewrite E1. destruct (decide (y = x)) as [->|Hne].
  - rewrite fn_lookup_insert. exists d'. split; [done|]. rewrite Hd in He. by injection He as <-.
  - rewrite fn_lookup_insert_ne by done. exists e. split; [done|apply similar_refl].
Qed.

Lemma found_loaded s ts m t j v :
  inv s ts m → ts !! t = Some j → jpc j = Enter → m !! jindex j = Some v → loaded s (jindex j) v →
  ∃ s' p', found_page c t s v = Some (s', p') ∧ inv s' (<[t := Job (jindex j) p']> ts) m.
Proof.
  intros HI Hj Ep Hm (Hr & Ho & Hf & d & Hd & D1 & D2 & D3). destruct (i_thread _ _ _ HI t j Hj) as (Ht & _ & Hns & _). rewrite Ep in Hns. specialize (Hns ltac:(done)).
  unfold found_page. rewrite Hd. cbn [mbind option_bind]. rewrite D1. destruct (i_table _ _ _ HI v Hr) as (d1 & Hd1 & Hs). rewrite Hd in Hd1. injection Hd1 as <-.
  assert (HR : match Return v 0 with Return x e => x = 0 ∧ e ≠ 0 ∨ 0 < x ∧ m !! jindex j = Some x | _ => True end) by (right; split; [lia|done]).
  destruct (PAGE_IS d PG_MIGRATE) eqn:EM.
  - destruct (Hs EM) as [-> ->]. cbn [cassert mbind option_bind]. rewrite Z.eqb_refl, andb_false_r. eexists _, _. split; [done|].
    apply (inv_rest s ts m t j _ (Return v 0) HI Hj); rewrite ?Ep; try done.
    + eapply framed_put; [exact Hd| |done..]. split_and!; try done. by apply (flag_clear d PG_MIGRATE PG_INLOAD).
    + apply HI.
    + apply HI.
    + apply table_put; [apply HI|]. intros E. by rewrite PAGE_IS_CLEAR in E.
    + by left.
  - eexists _, _. split; [done|]. apply (inv_rest s ts m t j _ (Return v 0) HI Hj); rewrite ?Ep; try done; try apply HI; [|by left].
    apply framed_same; [|done|done]. intros x e _ _ _ He. exists e. split; [done|apply similar_refl].
Qed.

Lemma found_dummy s ts m t j u k :
  inv s ts m → ts !! t = Some j → jpc j = Enter → ts !! u = Some k → jindex k = jindex j → loading (jpc k) = true →
  ∃ s' p', found_page c t s (- u) = Some (s', p') ∧ inv s' (<[t := Job (jindex j) p']> ts) m.
Proof.
  intros HI Hj Ep Hk Hjk Hl. destruct (i_thread _ _ _ HI u k Hk) as (Hu & _ & _ & P1 & _). destruct (P1 Hl) as (Hm & d & Hd & D1 & D2).
  unfold found_page. rewrite Hd. cbn [mbind option_bind]. rewrite D1. eexists _, _. split; [done|].
  assert (u ≠ t) as Hne by (intros ->; rewrite Hj in Hk; injection Hk as <-; by rewrite Ep in Hl).
  apply (inv_rest s ts m t j _ Sleep HI Hj); rewrite ?Ep; try done.
  - eapply framed_put; [exact Hd| |done..]. split_and!; try done. intros x Hx. cbn [wait_queue set_wait_queue]. apply elem_of_app. by left.
  - apply HI.
  - apply HI.
  - intros q Hq. destruct (i_table _ _ _ HI q Hq) as (e & He & Hs). exists e. split; [|done]. cbn [descs put_desc put_sleepers]. by rewrite fn_lookup_insert_ne by lia.
  - intros x. cbn [sleepers put_sleepers]. rewrite elem_of_union, elem_of_singleton. done.
  - intros _. split; [done|]. exists u, k. eexists. split; [done|]. split; [done|]. split; [done|]. split; [done|].
    cbn [descs put_desc put_sleepers]. rewrite fn_lookup_insert. split; [done|]. cbn [wait_queue set_wait_queue]. apply elem_of_app. right. by apply list_elem_of_singleton.
Qed.

(** ** The steps that change the tree *)

(** The removal of an item the tree does not have, or may lose. *)
Lemma remove_ok s m page i d :
  represents (objs s) (m_radix s) m → descs s page = Some d → index d = i → 0 ≤ i < wsize →
  (is_Some (m !! i) → may_remove (garbage c) (m_radix s) m i) →
  ∃ a r d', mapper_remove c s page = Some (put_desc (put_tree s a r) page d') ∧ represents a r (delete i m) ∧ wait_queue d' = wait_queue d.
Proof.
  intros HR Hd <- Hi Hm. unfold mapper_remove. rewrite Hd. cbn [mbind option_bind].
  destruct (represents_delete (garbage c) _ _ m (index d) HR Hi Hm) as (a & r & -> & HR'). cbn [mbind option_bind].
  eexists _, _, _. split; [done|]. split; [done|]. by destruct (PAGE_IS (PAGE_CLEAR d PG_DIRTY) PG_BUFFER).
Qed.

Lemma claimed_ok s ts m t j a r :
  inv s ts m → ts !! t = Some j → jpc j = Enter → m !! jindex j = None → represents a r (<[jindex j := - t]> m) →
  inv (put_tree (put_desc s (- t) (dummy c (jindex j))) a r) (<[t := Job (jindex j) Alloc]> ts) (<[jindex j := - t]> m).
Proof.
  intros HI Hj Ep Hm HR. destruct (i_thread _ _ _ HI t j Hj) as (Ht & _ & Hns & _). rewrite Ep in Hns. specialize (Hns ltac:(done)).
  apply (thread_step s ts m t j _ _ Alloc HI Hj); rewrite ?Ep; cbn [put_tree put_desc objs m_radix frames sleepers]; try done.
  - split; cbn [put_tree put_desc descs filled frames]; try done.
    + intros k Hk. by rewrite lookup_insert_ne.
    + by right; left.
    + intros v. rewrite lookup_insert_eq. intros [= <-]. by right; left.
    + intros x d Hx _ _ Hd. rewrite fn_lookup_insert_ne by done. exists d. split; [done|apply similar_refl].
  - apply HI.
  - intros q Hq. cbn [put_tree put_desc descs]. rewrite fn_lookup_insert_ne by lia. by apply (i_table _ _ _ HI).
  - split; [|by split]. intros _. rewrite lookup_insert_eq. split; [done|]. exists (dummy c (jindex j)). cbn [put_tree put_desc descs].
    rewrite fn_lookup_insert. split; [done|]. split; [|done]. unfold dummy, page_refcount_up. cbn [snd]. apply (PAGE_IS_SET _ PG_INLOAD). done.
  - intros v. rewrite lookup_insert_eq. intros [= <-]. by left.
  - by left.
Qed.

Lemma insert_dummy_ok s ts m t j info :
  inv s ts m → ts !! t = Some j → jpc j = Enter → m !! jindex j = None →
  match info with
  | None => True
  | Some x => ∀ garbage v, v ≠ 0 → ∃ r', represents (objs s) r' (<[jindex j := v]> m) ∧
      radix_item_info_apply garbage (objs s) (m_radix s) x RADIX_INFO_INSERT v = Some (objs s, r')
  end →
  ∃ s' p' m', insert_dummy c t s (jindex j) info = Some (s', p') ∧ inv s' (<[t := Job (jindex j) p']> ts) m'.
Proof.
  intros HI Hj Ep Hm Hinfo. destruct (i_thread _ _ _ HI t j Hj) as (Ht & Hi & Hns & _). rewrite Ep in Hns. specialize (Hns ltac:(done)).
  unfold insert_dummy. cbn [put_desc objs m_radix]. destruct info as [x|].
  { destruct (Hinfo (garbage c) (- t)) as (r' & HR & ->); [lia|]. cbn [mbind option_bind ctrue]. eexists _, _, _. split; [done|]. by apply claimed_ok. }
  destruct (represents_insert (objs s) (m_radix s) m (jindex j) (- t)) as (a & r & err & -> & [[-> HR]|[-> HR]]); [apply HI|done|lia|done|..]; cbn [mbind option_bind].
  { eexists _, _, _. split; [done|]. by apply claimed_ok. }
  change (ctrue (- ENOMEM)) with true. cbv iota. set (s1 := put_tree _ a r).
  destruct (remove_ok s1 m (- t) (jindex j) (dummy c (jindex j))) as (a' & r' & d' & -> & HR' & _); [done|apply fn_lookup_insert|done|done|rewrite Hm; by intros [? ?]|].
  rewrite delete_id in HR' by done. cbn [mbind option_bind]. eexists _, _, m. split; [done|].
  apply (inv_rest s ts m t j _ (Return 0 EIO) HI Hj); rewrite ?Ep; try done.
  - apply framed_same; [|done|done]. intros x d Hx _ _ Hd. exists d. split; [|apply similar_refl].
    cbn [drop_desc put_desc put_tree descs s1]. by rewrite !fn_lookup_insert_ne by done.
  - apply HI.
  - intros q Hq. cbn [drop_desc put_desc put_tree descs s1]. rewrite !fn_lookup_insert_ne by lia. by apply (i_table _ _ _ HI).
  - by left.
  - by left.
Qed.

Lemma enter_ok s ts m t j :
  inv s ts m → ts !! t = Some j → jpc j = Enter →
  ∃ s' p' m', enter c t s (jindex j) = Some (s', p') ∧ inv s' (<[t := Job (jindex j) p']> ts) m'.
Proof.
  intros HI Hj Ep. destruct (i_thread _ _ _ HI t j Hj) as (_ & Hi & _). unfold enter.
  destruct (find_item _ _ _ (jindex j) (i_tree _ _ _ HI) Hi) as (info & -> & Hinfo). cbn [mbind option_bind].
  destruct info as [x|]; [|by apply insert_dummy_ok with (m := m)]. destruct Hinfo as [Ex Hx].
  destruct (m !! jindex j) as [v|] eqn:Em; cbn [default from_option id] in Ex.
  - destruct (represents_item _ _ _ _ _ (i_tree _ _ _ HI) Em) as [Hv _]. rewrite Ex, (proj2 (Z.eqb_neq v 0)) by done.
    destruct (i_entry _ _ _ HI _ v Em) as [Hl|(k & Hk & Hjk & Hl)].
    + destruct (found_loaded s ts m t j v HI Hj Ep Em Hl) as (s' & p' & E & HI'). by exists s', p', m.
    + rewrite <- (Z.opp_involutive v). destruct (found_dummy s ts m t j (- v) k HI Hj Ep Hk Hjk Hl) as (s' & p' & E & HI'). by exists s', p', m.
  - rewrite Ex. cbn [Z.eqb]. apply insert_dummy_ok with (m := m); try done. rewrite Ex in Hx. exact Hx.
Qed.

(** The end of a load: the dummy leaves the tree and its sleepers are woken. *)
Lemma inv_end s ts m t j s' m' p' d :
  inv s ts m → ts !! t = Some j → loading (jpc j) = true → loading p' = false →
  framed t (jindex j) (jpc j) s m s' m' → represents (objs s') (m_radix s') m' → ps_inv (frames s') → table_ok s' →
  place_ok s' m' t (jindex j) p' → (∀ v, m' !! jindex j = Some v → loaded s' (jindex j) v) →
  (∀ x, holds p' = Some x → holds (jpc j) = Some x) →
  descs s (- t) = Some d → sleepers s' = sleepers s ∖ list_to_set (wait_queue d) →
  inv s' (<[t := Job (jindex j) p']> ts) m'.
Proof.
  intros HI Hj Hl Hl' F Hr Hb Htab Hp He Hh Hd Hs. destruct (i_thread _ _ _ HI t j Hj) as (_ & _ & Hns & _).
  apply (thread_step s ts m t j s' m' p' HI Hj F); try done.
  - intros v Hv. right. left. by apply He.
  - intros x Hx. left. by apply Hh.
  - intros u. rewrite Hs. intros [? _]%elem_of_difference. by left.
  - rewrite Hs. intros [Hin _]%elem_of_difference. destruct Hns; [|done]. by destruct (jpc j).
  - intros d' _ Hd'. right. intros u Hu. rewrite Hd in Hd'. injection Hd' as <-. rewrite Hs, elem_of_difference, elem_of_list_to_set. by intros [_ ?].
Qed.

Lemma publish_ok s ts m t j page :
  inv s ts m → ts !! t = Some j → jpc j = Publish page →
  ∃ s' p' m', publish c t s (jindex j) page = Some (s', p') ∧ inv s' (<[t := Job (jindex j) p']> ts) m'.
Proof.
  intros HI Hj Ep. destruct (i_thread _ _ _ HI t j Hj) as (Ht & Hi & _ & P1 & P2 & P3). rewrite Ep in *. destruct (P1 eq_refl) as (Hm & d0 & Hd0 & _).
  destruct (P2 page eq_refl) as (Hr & Ho & _), P3 as [(d & Hd & D1 & D2) Hf]. unfold publish.
  destruct (find_item _ _ _ (jindex j) (i_tree _ _ _ HI) Hi) as (info & -> & Hinfo). cbn [mbind option_bind].
  destruct info as [x|]; [|congruence]. destruct Hinfo as [Ex Hx]. rewrite Hm in Ex. cbn [default from_option id] in Ex. cbn [mbind option_bind].
  destruct (Hx (garbage c) page) as (r' & HR & Er); [lia|]. rewrite Ex, (proj2 (Z.eqb_neq (- t) 0)) in Er by lia. rewrite Ex, Z.eqb_refl. cbn [cassert mbind option_bind].
  rewrite Er. cbn [mbind option_bind]. rewrite Hd. cbn [mbind option_bind]. unfold wakeup_all. cbn [put_desc put_tree descs]. rewrite fn_lookup_insert_ne, Hd0 by lia. cbn [mbind option_bind].
  eexists _, _, _. split; [done|]. destruct (i_table _ _ _ HI page Hr) as (d1 & Hd1 & Hs). rewrite Hd in Hd1. injection Hd1 as <-.
  apply (inv_end s ts m t j _ (<[jindex j := page]> m) _ d0 HI Hj); rewrite ?Ep; cbn [drop_desc put_sleepers put_desc put_tree objs m_radix frames sleepers]; try done.
  - split; cbn [drop_desc put_sleepers put_desc put_tree descs filled frames holds]; try done.
    + intros k Hk. by rewrite lookup_insert_ne.
    + by right; right.
    + intros v. rewrite lookup_insert_eq. intros [= <-]. by right; right.
    + intros y e Hy Hyp _ He. exists e. split; [|apply similar_refl]. rewrite !fn_lookup_insert_ne by congruence. done.
  - apply HI.
  - intros q Hq. cbn [drop_desc put_sleepers put_desc put_tree descs]. rewrite fn_lookup_insert_ne, fn_lookup_insert_ne by lia.
    apply (table_put s page (PAGE_CLEAR d PG_INLOAD) (i_table _ _ _ HI)); [|done]. intros E. apply Hs. rewrite <- E. symmetry. by apply flag_clear.
  - split; [done|]. split; [done|]. right. split; [lia|apply lookup_insert_eq].
  - intros v. rewrite lookup_insert_eq. intros [= <-]. split; [done|]. split; [done|]. split; [done|]. exists (PAGE_CLEAR d PG_INLOAD).
    cbn [drop_desc put_sleepers put_desc put_tree descs]. rewrite fn_lookup_insert_ne, fn_lookup_insert_ne, fn_lookup_insert by lia. split; [done|]. split; [by apply PAGE_IS_CLEAR|done].
Qed.

Lemma may_remove_here s ts m i : inv s ts m → 0 ≤ i < wsize → removable s i → may_remove (garbage c) (m_radix s) m i.
Proof.
  intros HI Hi [(k & v & Hne & Hk & Ek & Hv) Hg]. pose proof (i_tree _ _ _ HI) as HR. split.
  - exists k, v. split; [done|]. split; [|lia]. rewrite (represents_lookup _ _ _ k HR) in Ek by (split; [|lia]; pose proof (Z.pow_nonneg 64 (height (m_radix s) - 1)); lia).
    destruct (m !! k) as [w|]; cbn [default from_option id] in Ek; congruence.
  - destruct Hg as [?|Hg]; [by left|right]. intros k' Hk' Ed. destruct (m !! k') as [w|] eqn:Em; [|done].
    destruct (represents_item _ _ _ _ _ HR Em) as [Hw Hk0]. specialize (Hg k' Hk' Hk0 Ed). rewrite (represents_lookup _ _ _ k' HR Hk0), Em in Hg. cbn [default from_option id] in Hg. congruence.
Qed.

Lemma undo_step_ok s ts m t j page err :
  inv s ts m → ts !! t = Some j → jpc j = Undo page err → removable s (jindex j) →
  ∃ s' p' m', undo c t s page err = Some (s', p') ∧ inv s' (<[t := Job (jindex j) p']> ts) m'.
Proof.
  intros HI Hj Ep Hrem. destruct (i_thread _ _ _ HI t j Hj) as (Ht & Hi & _ & P1 & P2 & _). rewrite Ep in *. destruct (P1 eq_refl) as (Hm & d0 & Hd0 & D1 & D2).
  unfold undo. destruct (remove_ok s m (- t) (jindex j) d0) as (a & r & d' & -> & HR & Eq); [apply HI|done|done|done|intros _; by eapply may_remove_here|].
  cbn [mbind option_bind]. unfold wakeup_all. cbn [put_desc put_tree descs]. rewrite fn_lookup_insert. cbn [mbind option_bind]. rewrite Eq.
  eexists _, _, (delete (jindex j) m). split; [done|].
  apply (inv_end s ts m t j _ _ _ d0 HI Hj); rewrite ?Ep; cbn [drop_desc put_sleepers put_desc put_tree objs m_radix frames sleepers]; try done.
  - by destruct (page =? 0).
  - split; cbn [drop_desc put_sleepers put_desc put_tree descs filled frames]; try done.
    + intros k Hk. by rewrite lookup_delete_ne.
    + by right; right.
    + intros v. by rewrite lookup_delete_eq.
    + intros y e Hy _ _ He. exists e. split; [|apply similar_refl]. by rewrite !fn_lookup_insert_ne by done.
  - apply HI.
  - intros q Hq. cbn [drop_desc put_sleepers put_desc put_tree descs]. rewrite !fn_lookup_insert_ne by lia. by apply (i_table _ _ _ HI).
  - split; [by destruct (page =? 0)|]. destruct (Z.eqb_spec page 0) as [->|Hne]; [split; [done|left; split; [done|by destruct (err =? 0)]]|]. split; [|done].
    intros x [= <-]. cbn [holds] in P2. rewrite (proj2 (Z.eqb_neq page 0)) in P2 by done. destruct (P2 page eq_refl) as (Hr & Ho & Hno). split; [done|]. split; [done|].
    intros k Hk. apply lookup_delete_Some in Hk as [_ Hk]. by apply (Hno k).
  - intros v. by rewrite lookup_delete_eq.
  - intros x. cbn [holds]. by destruct (page =? 0).
Qed.

(** ** All the steps of a thread *)

Lemma thread_ok s ts m t j :
  inv s ts m → ts !! t = Some j → undo_ok s j →
  (∀ s' j', (s', j') ∈ mapper_get_page c t s j → ∃ m', inv s' (<[t := j']> ts) m') ∧
  ((∃ x e, jpc j = Return x e) ∨ t ∈ sleepers s ∨ mapper_get_page c t s j ≠ []).
Proof.
  intros HI Hj Hu. unfold mapper_get_page.
  assert (Hone : ∀ o : option (page_cache A B * place), (∃ s' p' m', o = Some (s', p') ∧ inv s' (<[t := Job (jindex j) p']> ts) m') →
    (∀ s' j', (s', j') ∈ (λ x, (x.1, Job (jindex j) x.2)) <$> option_list o → ∃ m', inv s' (<[t := j']> ts) m') ∧
    ((∃ x e, jpc j = Return x e) ∨ t ∈ sleepers s ∨ (λ x, (x.1, Job (jindex j) x.2)) <$> option_list o ≠ [])).
  { intros o (s1 & p1 & m1 & -> & H1). split; [|by right; right]. intros s' j' [= -> ->]%list_elem_of_singleton. by exists m1. }
  assert (Hsame : ∀ o : option (page_cache A B * place), (∃ s' p', o = Some (s', p') ∧ inv s' (<[t := Job (jindex j) p']> ts) m) →
    ∃ s' p' m', o = Some (s', p') ∧ inv s' (<[t := Job (jindex j) p']> ts) m') by (intros o (s1 & p1 & ? & ?); by exists s1, p1, m).
  unfold undo_ok in Hu. destruct (jpc j) as [| |page|page|page err|page err| |page err] eqn:Ep.
  - by apply Hone, enter_ok with (m := m).
  - by apply Hone, Hsame, alloc_ok.
  - pose proof (λ b e, read_ok s ts m t j page b e HI Hj Ep) as Hrd.
    destruct (Hrd false 0) as (s1 & p1 & E1 & H1), (Hrd false EIO) as (s2 & p2 & E2 & H2), (Hrd true 0) as (s3 & p3 & E3 & H3), (Hrd true EIO) as (s4 & p4 & E4 & H4).
    cbn [mbind list_bind]. rewrite E1, E2, E3, E4. split; [|by right; right]. intros s' j' Hin. cbn in Hin. rewrite !elem_of_cons, elem_of_nil in Hin.
    exists m. destruct Hin as [[= -> ->]|[[= -> ->]|[[= -> ->]|[[= -> ->]|[]]]]]; done.
  - by apply Hone, publish_ok with (m := m).
  - by apply Hone, undo_step_ok with (m := m).
  - by apply Hone, Hsame, release_page_ok.
  - destruct (bool_decide_reflect (t ∈ sleepers s)) as [Hs|Hs]; [split; [by intros ? ? ?%elem_of_nil|by right; left]|].
    split; [|by right; right]. intros s' j' [= -> ->]%list_elem_of_singleton. exists m. by apply wake_ok.
  - split; [by intros ? ? ?%elem_of_nil|]. left. by eexists _, _.
Qed.

Lemma cache_reach_inv s0 ts0 m0 s ts : rtc cstep (s0, ts0) (s, ts) → inv s0 ts0 m0 → ∃ m, inv s ts m.
Proof.
  intros Hr HI. refine (rtc_ind_r (R := cstep) (λ w, ∃ m, inv w.1 w.2 m) (s0, ts0) (ex_intro _ m0 HI) _ (s, ts) Hr).
  intros w1 w2 _ [s1 ts1 t j s' j' Hj Hu Hin] [m Hm]. exact (proj1 (thread_ok s1 ts1 m t j Hm Hj Hu) s' j' Hin).
Qed.

(** ** Theorem *)

(** A cache with no load under way: every item of the tree is a loaded page. *)
Definition at_rest s : Prop :=
  (∃ m, represents (objs s) (m_radix s) m ∧ ∀ i v, m !! i = Some v → loaded s i v) ∧
  ps_inv (frames s) ∧ table_ok s ∧ sleepers s = ∅.

Definition calling ts : Prop := ∀ t j, ts !! t = Some j → 0 < t ∧ 0 ≤ jindex j < wsize ∧ jpc j = Enter.

Lemma start_inv s ts : at_rest s → calling ts → ∃ m, inv s ts m.
Proof.
  intros ((m & HR & Hl) & Hb & Htab & Hs) Hc. exists m. split; try done.
  - intros i v Hv. left. by apply Hl.
  - intros t j Hj. destruct (Hc t j Hj) as (Ht & Hi & ->). split; [done|]. split; [done|]. rewrite Hs. by split; [set_solver|].
  - intros t u j k x Hj _ E. destruct (Hc t j Hj) as (_ & _ & Ep). by rewrite Ep in E.
  - intros t. rewrite Hs. by intros ?%elem_of_empty.
Qed.

(** C6. Threads that ask one mapper for pages at the same time: a page that is returned is the one
    the tree has at the index, and holds that block of the file, so all the threads get the same
    page; one thread at most loads a page; a thread that sleeps sleeps for another one that is
    loading the same page; and every other thread that has not returned can go on.  Two conditions.
    A load that fails is undone ([undo_ok]) only while [removable] holds: another page of the mapper
    needs the height of the radix tree, since the kernel faults otherwise
    ([first_load_error_faults]), and the uninitialised variable of [radix_tree_remove_item] is 0 or
    the leaf holds no other page.  And no page waits for a migration to another cluster, nor any
    page of a file for a migration at all ([table_ok], [file_migration_faults]). *)
Theorem page_cache_coherent s0 ts0 s ts :
  at_rest s0 → calling ts0 → rtc cstep (s0, ts0) (s, ts) →
  (∀ t i x e, ts !! t = Some (Job i (Return x e)) → x = 0 ∧ e ≠ 0 ∨ radix_tree_lookup (m_radix s) i = Some x ∧ filled s !! x = Some i) ∧
  (∀ t u j k, ts !! t = Some j → ts !! u = Some k → loading (jpc j) = true → loading (jpc k) = true → jindex j = jindex k → t = u) ∧
  (∀ t, t ∈ sleepers s → ∃ j u k, ts !! t = Some j ∧ ts !! u = Some k ∧ jindex k = jindex j ∧ loading (jpc k) = true) ∧
  (∀ t j, ts !! t = Some j → undo_ok s j → (∃ x e, jpc j = Return x e) ∨ t ∈ sleepers s ∨ mapper_get_page c t s j ≠ []).
Proof.
  intros H0 Hc Hr. destruct (start_inv s0 ts0 H0 Hc) as (m0 & HI0). destruct (cache_reach_inv _ _ _ _ _ Hr HI0) as (m & HI). split_and!.
  - intros t i x e Ht. destruct (i_thread _ _ _ HI _ _ Ht) as (_ & Hi & _ & _ & _ & [?|[Hx Hm]]); [by left|right]. cbn [jindex] in *.
    rewrite (represents_lookup _ _ _ i (i_tree _ _ _ HI) Hi), Hm. split; [done|]. destruct (i_entry _ _ _ HI i x Hm) as [(_ & _ & ? & _)|(j & Hj & _)]; [done|].
    destruct (i_thread _ _ _ HI _ _ Hj). lia.
  - intros t u j k Hj Hk Lj Lk E. destruct (i_thread _ _ _ HI t j Hj) as (_ & _ & _ & P1 & _), (i_thread _ _ _ HI u k Hk) as (_ & _ & _ & Q1 & _).
    destruct (P1 Lj) as [Em _], (Q1 Lk) as [Em' _]. rewrite E, Em' in Em. injection Em. lia.
  - intros t Hin. destruct (i_sleep _ _ _ HI t Hin) as (j & u & k & d & ? & ? & ? & ? & _). by exists j, u, k.
  - intros t j Hj Hu. by apply (thread_ok s ts m t j HI Hj Hu).
Qed.
End system.

(** ** Executions *)

Section play.
Context {A B : Type} `{OS : ObjectSource A} `{PS : !PageSource B} (c : mapper_s).

(** An execution chosen by a schedule in which no load fails. *)
Definition fails (p : place) : bool := match p with Undo _ _ => true | _ => false end.

Fixpoint play (w : page_cache A B * gmap Z job) (l : list (Z * nat)) : option (page_cache A B * gmap Z job) :=
  match l with
  | [] => Some w
  | (t, n) :: l =>
      j ← w.2 !! t;
      _ ← cassert (negb (fails (jpc j)));
      x ← mapper_get_page c t w.1 j !! n;
      play (x.1, <[t := x.2]> w.2) l
  end.

Lemma play_rtc w l w' : play w l = Some w' → rtc (cstep c) w w'.
Proof.
  revert w. induction l as [|[t n] l IH]; intros [s ts] E; [by injection E as ->|].
  cbn [play fst snd] in E. destruct (ts !! t) as [j|] eqn:Ej; [|done]. cbn [mbind option_bind] in E.
  destruct (fails (jpc j)) eqn:Ef; [done|]. cbn [negb cassert mbind option_bind] in E.
  destruct (mapper_get_page c t s j !! n) as [[s' j']|] eqn:Ei; [|done]. cbn [mbind option_bind fst snd] in E.
  eapply rtc_l; [|by apply IH]. econstructor; [done| |by eapply list_elem_of_lookup_2]. unfold undo_ok. by destruct (jpc j).
Qed.
End play.

(** A file with an empty cache, three pages of memory, and three threads that ask for two blocks. *)
Definition ex_mapper : mapper_s := Mapper.Mapper 1 7 0 0 4 false.
Definition ex_table (q : Z) : option page_s := if (0 <? q) && (q <? max_page) then Some (page_init 0) else None.
Definition ex_pages (a : cache (A := page_pool)) : page_cache (cache (A := page_pool)) page_pool :=
  Cache a radix_tree_init (Pool [9; 10; 11] ∅) ex_table ∅ ∅.
Definition ex_calls : gmap Z job := {[1 := Job 5 Enter; 2 := Job 5 Enter; 3 := Job 70 Enter]}.

Lemma ex_pages_at_rest a : os_inv a → at_rest ex_mapper (ex_pages a).
Proof.
  intros Ha. split; [|split; [|split; [|done]]].
  - exists ∅. split; [by apply represents_init|]. intros i v. by rewrite lookup_empty.
  - split_and!; cbn.
    + repeat (apply NoDup_cons; split; [set_solver|]). by apply NoDup_nil.
    + intros p Hp. rewrite !elem_of_cons, elem_of_nil in Hp. split; [lia|set_solver].
    + set_solver.
  - intros q Hq. exists (page_init 0). split; [|done]. unfold ex_pages, ex_table. cbn [descs]. by rewrite (proj2 (Z.ltb_lt 0 q)), (proj2 (Z.ltb_lt q max_page)) by lia.
Qed.

Lemma ex_calls_calling : calling ex_calls.
Proof.
  intros t j. unfold ex_calls. rewrite !lookup_insert_Some, lookup_singleton_Some. intros [[<- <-]|[_ [[<- <-]|[_ [<- <-]]]]]; by split_and!.
Qed.

(** The second thread finds the dummy of the first one and sleeps until the page is there. *)
Definition ex_order : list (Z * nat) := (λ t, (t, 0%nat)) <$> [1; 2; 3; 1; 3; 1; 1; 2; 2; 3; 3].

Definition ex_returns : gmap Z job := {[1 := Job 5 (Return 9 0); 2 := Job 5 (Return 9 0); 3 := Job 70 (Return 10 0)]}.

Lemma page_cache_coherent_witness :
  ∃ a s, ex_objects = Some a ∧ play ex_mapper (ex_pages a, ex_calls) ex_order = Some (s, ex_returns) ∧
    radix_tree_lookup (m_radix s) 5 = Some 9 ∧ filled s !! 9 = Some 5.
Proof.
  destruct ex_objects_ok as (a & E & Ha).
  assert (Hrun : (a ← ex_objects; w ← play ex_mapper (ex_pages a, ex_calls) ex_order; Some w.2) = Some ex_returns) by (vm_compute; reflexivity).
  rewrite E in Hrun. cbn [mbind option_bind] in Hrun.
  destruct (play ex_mapper (ex_pages a, ex_calls) ex_order) as [[s ts]|] eqn:Er; [|discriminate Hrun].
  pose proof (f_equal (default ∅) Hrun) as Hts. cbn [mbind option_bind default from_option id snd] in Hts. subst ts.
  exists a, s. split; [exact E|]. split; [exact Er|].
  destruct (page_cache_coherent ex_mapper (ex_pages a) ex_calls s ex_returns (ex_pages_at_rest a Ha) ex_calls_calling (play_rtc _ _ _ _ Er)) as (Hret & _).
  destruct (Hret 1 5 9 0 eq_refl) as [[? _]|H]; [discriminate|exact H].
Defined.

(** ** Divergences *)

(** When the load of the first page of a file fails, the removal of the dummy is a fault. *)
Lemma first_load_error_faults :
  (a ← ex_objects; w ← run (mapper_get_page ex_mapper) (ex_pages a, {[1 := Job 5 Enter]}) [(1, 0%nat); (1, 0%nat); (1, 1%nat)];
   j ← w.2 !! 1; Some (j, length (mapper_get_page ex_mapper 1 w.1 j))) = Some (Job 5 (Undo 9 EIO), 0%nat).
Proof. vm_compute. reflexivity. Qed.

(** The lack of memory for a node of the tree is reported as an error of the device: the tree
    returns [- ENOMEM] and is expected to return [ENOMEM]. *)
Lemma no_node_is_io_error {A B} `{OS : ObjectSource A} `{OL : !ObjectSourceLaws A} `{PS : !PageSource B} (c : mapper_s) (s s' : page_cache A B) m t i x e :
  represents (objs s) (m_radix s) m → 0 ≤ i < wsize → m !! i = None → 0 < t →
  insert_dummy c t s i None = Some (s', Return x e) → e = EIO.
Proof.
  intros HR Hi Hm Ht. unfold insert_dummy. cbn [put_desc objs m_radix].
  destruct (represents_insert _ _ m i (- t) HR Hi ltac:(lia) Hm) as (a & r & err & -> & [[-> _]|[-> _]]); cbn [mbind option_bind]; [done|].
  change (ctrue (- ENOMEM)) with true. cbv iota. destruct (mapper_remove _ _ _); [|done]. cbn [mbind option_bind]. by intros [= _ _ <-].
Qed.

(** A file with the blocks 0 to 3 in its cache. *)
Definition ex_loaded : option (page_cache (cache (A := page_pool)) page_pool) :=
  a ← ex_objects;
  '(s, _) ← mapper_add_page ex_mapper (ex_pages a) 9 0; '(s, _) ← mapper_add_page ex_mapper s 10 1;
  '(s, _) ← mapper_add_page ex_mapper s 11 2; '(s, _) ← mapper_add_page ex_mapper s 12 3;
  Some s.

(** The search for contiguous pages compares their indices with the number of pages that are
    asked for: it finds none from the start of the file, and pages after it when they happen to
    be at that number. *)
Lemma find_contig_wrong :
  (s ← ex_loaded; mapper_find_pages 100 s 0 3) = Some [9; 10; 11] ∧ (s ← ex_loaded; mapper_find_pages_contig 100 s 0 3) = Some 0 ∧
  (s ← ex_loaded; mapper_find_pages_contig 100 s 2 2) = None.
Proof. vm_compute. done. Qed.

(** The search for a page gives the dummy of a thread that is still loading it. *)
Lemma find_page_sees_dummy :
  (a ← ex_objects; w ← play ex_mapper (ex_pages a, ex_calls) [(1, 0%nat)]; mapper_find_page w.1 5) = Some (- 1).
Proof. vm_compute. reflexivity. Qed.

(** A page of a file that is marked for migration stops the kernel. *)
Lemma file_migration_faults {A B} (c : mapper_s) (s : page_cache A B) t page d :
  m_inode c ≠ 0 → descs s page = Some d → PAGE_IS d PG_INLOAD = false → PAGE_IS d PG_MIGRATE = true → found_page c t s page = None.
Proof.
  intros Hi Hd E1 E2. unfold found_page, MAPPER_IS_MIGRATABLE. rewrite Hd. cbn [mbind option_bind]. by rewrite E1, E2, (proj2 (Z.eqb_neq (m_inode c) 0)), andb_false_r.
Qed.
