(* ===== verification/MapperIo.v ===== *)
(** * Reading and writing through the page cache (src/kernel/mm/mapper.c)

    [mapper_read] and [mapper_write] copy between the pages of a file and the frames of a buffer.
    [get_page] is what [mapper_get_page] returns for an index (0 for [NULL]); the frames of the
    buffer are in the cluster of the mapper, where a copy is a [memcpy]. *)

From S2P Require Import Prelude Mem Page Ppm Pmm.

Open Scope Z_scope.

Definition VFS_IO_ERR : Z := 5.

(** ** State *)

(** [file] says whether the request has a file, whose offset it uses. *)
Record mapper_buff_s := Buff { file : bool; bsize : Z; data_offset : Z; buff_offset : Z; buff_ppns : list Z }.

(** The memory, the offset and the lock of the file, the size of its inode, whether the inode is
    marked dirty, and the lock of the mapper. *)
Record io_s := Io { memory : mem; fr_offset : Z; fr_locked : bool; i_size : Z; i_dirty : bool; m_cache_lock : bool }.

Definition set_memory (s : io_s) (m : mem) : io_s := Io m (fr_offset s) (fr_locked s) (i_size s) (i_dirty s) (m_cache_lock s).
Definition set_offset (s : io_s) (o : Z) : io_s := Io (memory s) o (fr_locked s) (i_size s) (i_dirty s) (m_cache_lock s).
Definition set_locked (s : io_s) (b : bool) : io_s := Io (memory s) (fr_offset s) b (i_size s) (i_dirty s) (m_cache_lock s).
Definition grow (s : io_s) (n : Z) : io_s := Io (memory s) (fr_offset s) (fr_locked s) n true (m_cache_lock s).
Definition set_cache_lock (s : io_s) (b : bool) : io_s := Io (memory s) (fr_offset s) (fr_locked s) (i_size s) (i_dirty s) b.

(** The variables of the loop. *)
Record slice := Slice { current_offset : Z; b_offset : Z; left : Z; ssize : Z; rsize : Z; psrc : Z; preq : Z; req_cid : Z }.

Section operations.
Context (pf : platform) (ppm : ppm_s) (get_page : Z → Z).

(** The copy to another cluster is not modelled. *)
Definition remote_memcpy (dest dcid src scid size : Z) (m : mem) : option mem :=
  _ ← cassert ((dcid =? current_cid pf) && (scid =? current_cid pf));
  '(m, _) ← memcpy dest src size m;
  Some m.

(** The start of a new page of the file; [None] inside is [NULL]. *)
Definition refill_src (isize : Z) (x : slice) : option slice :=
  if negb (ssize x =? 0) then Some x else
  let o := current_offset x in
  let page := get_page (Z.shiftr o PMM_PAGE_SHIFT) in
  if page =? 0 then None else
  Some (Slice o (b_offset x) (left x) (if PMM_PAGE_SIZE <? isize - o then PMM_PAGE_SIZE else isize - o) (rsize x)
    (ppm_page2addr ppm page + o mod PMM_PAGE_SIZE) (preq x) (req_cid x)).

(** The start of a new frame of the buffer. *)
Definition refill_req (b : mapper_buff_s) (x : slice) : option slice :=
  if negb (rsize x =? 0) then Some x else
  ppn ← aget (buff_ppns b) (Z.shiftr (b_offset x) PMM_PAGE_SHIFT);
  cid ← pmm_ppn2cid pf ppn;
  Some (Slice (current_offset x) (b_offset x) (left x) (ssize x)
    (Z.min (PMM_PAGE_SIZE - b_offset x mod PMM_PAGE_SIZE) (left x)) (psrc x) (pmm_ppn2vma ppn + b_offset x mod PMM_PAGE_SIZE) cid).

(** [None] inside the result is the error of a page that cannot be had. *)
Fixpoint request_loop (fuel : nat) (read : bool) (b : mapper_buff_s) (isize : Z) (x : slice) (m : mem) : option (mem * option slice) :=
  match fuel with
  | O => None
  | S fuel =>
      if negb ((0 <? left x) && (current_offset x <? isize)) then Some (m, Some x) else
      _ ← cassert (negb (ctrue (ssize x) && ctrue (rsize x)));
      match refill_src isize x with
      | None => Some (m, None)
      | Some x =>
          x ← refill_req b x;
          let csize := Z.min (rsize x) (ssize x) in
          m ← (if read then remote_memcpy (preq x) (req_cid x) (psrc x) (current_cid pf) csize m
               else remote_memcpy (psrc x) (current_cid pf) (preq x) (req_cid x) csize m);
          request_loop fuel read b isize
            (Slice (current_offset x + csize) (b_offset x + csize) (left x - csize) (ssize x - csize) (rsize x - csize)
               (psrc x) (preq x) (req_cid x)) m
      end
  end.

(** [__mapper_request_]; a lock that is already taken is never had. *)
Definition mapper_request_ (read : bool) (s : io_s) (b : mapper_buff_s) : option (io_s * Z) :=
  if bsize b =? 0 then Some (s, 0) else
  _ ← cassert (negb (file b && fr_locked s));
  let s := if file b then set_locked s true else s in
  let offset := if file b then fr_offset s else data_offset b in
  let isize := if read then i_size s else u32 (offset + bsize b) in
  '(m, res) ← request_loop (S (Z.to_nat (bsize b))) read b isize (Slice offset (buff_offset b) (bsize b) 0 0 0 0 0) (memory s);
  let s := set_memory s m in
  match res with
  | None => Some (s, - VFS_IO_ERR)
  | Some x =>
      let s := if i_size s <? current_offset x then grow s (current_offset x) else s in
      let s := if file b then set_locked (set_offset s (current_offset x)) false else s in
      Some (s, bsize b - left x)
  end.

(** [mapper_request]: the lock of the mapper is taken with the flag [MAPPER_OP_FIRST], which stays
    set, and given back with [MAPPER_OP_LAST]; every round has the first buffer.  [i] rounds out of
    [nb_buff] are done. *)
Fixpoint request_rounds (n : nat) (nb_buff i : Z) (read : bool) (s : io_s) (b : mapper_buff_s) (size : Z) : option (io_s * Z) :=
  match n with
  | O => Some (s, size)
  | S n =>
      _ ← cassert (negb (m_cache_lock s));
      '(s, size) ← mapper_request_ read (set_cache_lock s true) b;
      let s := if i =? nb_buff - 1 then set_cache_lock s false else s in
      request_rounds n nb_buff (i + 1) read s b size
  end.

Definition mapper_request (s : io_s) (b : mapper_buff_s) (nb_buff : Z) (read : bool) : option (io_s * Z) :=
  request_rounds (Z.to_nat nb_buff) nb_buff 0 read s b 0.

Definition mapper_read (s : io_s) (b : mapper_buff_s) (nb_buff : Z) : option (io_s * Z) := mapper_request s b nb_buff true.
Definition mapper_write (s : io_s) (b : mapper_buff_s) (nb_buff : Z) : option (io_s * Z) := mapper_request s b nb_buff false.
End operations.

(** ** What a transfer does to memory *)

(** [n] bytes are copied, the [k]-th one from [from k] to [to k], and nothing else changes. *)
Definition moved (m m' : mem) (to from : Z → Z) (n : Z) : Prop :=
  (∀ k, 0 ≤ k < n → m' !! to k = m !! from k) ∧ (∀ a, (∀ k, 0 ≤ k < n → a ≠ to k) → m' !! a = m !! a).

Lemma moved_0 m to from : moved m m to from 0.
Proof. split; [lia|done]. Qed.

Lemma moved_ext m m' to to' from from' n :
  (∀ k, to k = to' k) → (∀ k, from k = from' k) → moved m m' to from n → moved m m' to' from' n.
Proof.
  intros Et Ef [H1 H2]. split.
  - intros k Hk. rewrite <- Et, <- Ef. by apply H1.
  - intros a Ha. apply H2. intros k Hk. rewrite Et. by apply Ha.
Qed.

(** A range copied at once, then the rest. *)
Lemma moved_step m m' to from n c :
  0 ≤ c ≤ n → (∀ k, 0 ≤ k < c → to k = to 0 + k ∧ from k = from 0 + k) →
  (∀ k k', 0 ≤ k < n → 0 ≤ k' < n → (to k = to k' → k = k') ∧ to k ≠ from k') →
  mapped m (to 0) c → mapped m (from 0) c →
  moved (copied m (to 0) (from 0) c) m' (λ k, to (c + k)) (λ k, from (c + k)) (n - c) → moved m m' to from n.
Proof.
  intros Hc Hlin Hinj Mt Mf [Hin Hout].
  assert (Hother : ∀ a, (∀ k, 0 ≤ k < c → a ≠ to k) → copied m (to 0) (from 0) c !! a = m !! a).
  { intros a Ha. rewrite lookup_copied. destruct (m !! a) as [v|]; [|done]. cbn [mbind option_bind].
    destruct (Z.leb_spec (to 0) a), (Z.ltb_spec a (to 0 + c)); cbn [andb]; try done.
    destruct (Ha (a - to 0)); [lia|]. rewrite (proj1 (Hlin (a - to 0) ltac:(lia))). lia. }
  split.
  - intros k Hk. destruct (decide (k < c)) as [Hlt|Hge].
    + destruct (Hlin k ltac:(lia)) as [E1 E2]. rewrite Hout.
      * destruct (Mt k ltac:(lia)) as [v Hv]. rewrite lookup_copied, E1, Hv, E2. cbn [mbind option_bind].
        rewrite (proj2 (Z.leb_le _ _)), (proj2 (Z.ltb_lt _ _)) by lia. cbn [andb]. f_equal. lia.
      * intros k' Hk' E. apply (Hinj k (c + k')) in E; lia.
    + specialize (Hin (k - c) ltac:(lia)). replace (c + (k - c)) with k in Hin by lia. rewrite Hin. apply Hother.
      intros k' Hk' E. destruct (Hinj k' k ltac:(lia) ltac:(lia)) as [_ []]. done.
  - intros a Ha. rewrite Hout; [|intros k Hk; apply Ha; lia]. apply Hother. intros k Hk. apply Ha. lia.
Qed.

Section transfer.
Context (pf : platform) (ppm : ppm_s) (get_page : Z → Z) (b : mapper_buff_s).
Notation P := PMM_PAGE_SIZE.

Definition file_frame (k : Z) : Z := ppm_page2addr ppm (get_page (k / P)).
Definition buff_frame (k : Z) : Z := pmm_ppn2vma (default 0 (aget (buff_ppns b) (k / P))).
Definition file_addr (k : Z) : Z := file_frame k + k mod P.
Definition buff_addr (k : Z) : Z := buff_frame k + k mod P.

Definition frame_ok (a : Z) : Prop := 0 ≤ a ∧ a + P < wsize.

(** The pages of the file and the frames of the buffer a transfer of [n] bytes needs are there,
    the bytes are in memory, and no two frames overlap. *)
Record frames_ok (m : mem) (off bo n : Z) : Prop := FramesOk {
  fo_start : 0 ≤ off ∧ 0 ≤ bo;
  fo_bytes : bytes m;
  fo_page k : off ≤ k < off + n → get_page (k / P) ≠ 0 ∧ frame_ok (file_frame k) ∧ is_Some (m !! file_addr k);
  fo_frame k : bo ≤ k < bo + n → frame_ok (buff_frame k) ∧ is_Some (m !! buff_addr k) ∧
    ∃ ppn, aget (buff_ppns b) (k / P) = Some ppn ∧ pmm_ppn2cid pf ppn = Some (current_cid pf);
  fo_apart k k' : off ≤ k < off + n → bo ≤ k' < bo + n → apart (file_frame k) (buff_frame k') P;
  fo_pages k k' : off ≤ k < off + n → off ≤ k' < off + n → k / P ≠ k' / P → apart (file_frame k) (file_frame k') P;
  fo_frames k k' : bo ≤ k < bo + n → bo ≤ k' < bo + n → k / P ≠ k' / P → apart (buff_frame k) (buff_frame k') P }.

Lemma page_step k i : 0 ≤ i → k mod P + i < P → (k + i) / P = k / P ∧ (k + i) mod P = k mod P + i.
Proof. intros Hi Hm. unfold PMM_PAGE_SIZE in *. Z.to_euclidean_division_equations. lia. Qed.

Lemma here_copied m d e c a : mapped m e c → is_Some (m !! a) → is_Some (copied m d e c !! a).
Proof.
  intros Me Ha. assert (mapped m a 1) as M1 by (intros k Hk; by replace (a + k) with a by lia).
  specialize (mapped_copied m d e c a 1 Me M1 0 ltac:(lia)). by rewrite Z.add_0_r.
Qed.

Lemma frames_sub m off bo n c d e :
  frames_ok m off bo n → 0 ≤ c ≤ n → mapped m e c → frames_ok (copied m d e c) (off + c) (bo + c) (n - c).
Proof.
  intros [[A1 A2] Hb F1 F2 F3 F4 F5] Hc Me. split; try lia.
  - by apply bytes_copied.
  - intros k Hk. destruct (F1 k ltac:(lia)) as (Hp & Hf & Hm). do 2 (split; [done|]). by apply here_copied.
  - intros k Hk. destruct (F2 k ltac:(lia)) as (Hf & Hm & Hp). split; [done|]. split; [|done]. by apply here_copied.
  - intros k k' Hk Hk'. apply F3; lia.
  - intros k k' Hk Hk'. apply F4; lia.
  - intros k k' Hk Hk'. apply F5; lia.
Qed.

Definition to (read : bool) (off bo k : Z) : Z := if read then buff_addr (bo + k) else file_addr (off + k).
Definition from (read : bool) (off bo k : Z) : Z := if read then file_addr (off + k) else buff_addr (bo + k).

(** The addresses of a transfer are distinct. *)
Lemma addr_inj (f : Z → Z) (k k' : Z) :
  (k / P ≠ k' / P → apart (f k) (f k') P) → (k / P = k' / P → f k = f k') → f k + k mod P = f k' + k' mod P → k = k'.
Proof.
  intros Ha He E. pose proof (Z.mod_pos_bound k P ltac:(done)). pose proof (Z.mod_pos_bound k' P ltac:(done)).
  destruct (decide (k / P = k' / P)) as [Eq|Hne]; [|destruct (Ha Hne); lia]. rewrite (He Eq) in E.
  rewrite (Z.div_mod k P), (Z.div_mod k' P) by done. lia.
Qed.

Lemma addrs_apart m off bo n read k k' :
  frames_ok m off bo n → 0 ≤ k < n → 0 ≤ k' < n →
  (to read off bo k = to read off bo k' → k = k') ∧ to read off bo k ≠ from read off bo k'.
Proof.
  intros F Hk Hk'. pose proof (fo_apart _ _ _ _ F) as Fa.
  assert (Hne : ∀ i j, 0 ≤ i < n → 0 ≤ j < n → file_addr (off + i) ≠ buff_addr (bo + j)).
  { intros i j Hi Hj E. unfold file_addr, buff_addr in E. pose proof (Z.mod_pos_bound (off + i) P ltac:(done)). pose proof (Z.mod_pos_bound (bo + j) P ltac:(done)).
    destruct (Fa (off + i) (bo + j)); lia. }
  unfold to, from. destruct read.
  - split; [|intros E; exact (Hne k' k Hk' Hk (eq_sym E))]. intros E. enough (bo + k = bo + k') by lia. apply (addr_inj buff_frame (bo + k) (bo + k')); [| |exact E].
    + apply (fo_frames _ _ _ _ F); lia.
    + intros Eq. unfold buff_frame. by rewrite Eq.
  - split; [|exact (Hne k k' Hk Hk')]. intros E. enough (off + k = off + k') by lia. apply (addr_inj file_frame (off + k) (off + k')); [| |exact E].
    + apply (fo_pages _ _ _ _ F); lia.
    + intros Eq. unfold file_frame. by rewrite Eq.
Qed.

(** One round of the loop: a range within a page of the file and a frame of the buffer. *)
Lemma copy_ok m off bo n (read : bool) c :
  frames_ok m off bo n → 0 < c ≤ n → off mod P + c ≤ P → bo mod P + c ≤ P →
  (if read then remote_memcpy pf (buff_addr bo) (current_cid pf) (file_addr off) (current_cid pf) c m
   else remote_memcpy pf (file_addr off) (current_cid pf) (buff_addr bo) (current_cid pf) c m)
    = Some (copied m (to read off bo 0) (from read off bo 0) c) ∧
  (∀ k, 0 ≤ k < c → to read off bo k = to read off bo 0 + k ∧ from read off bo k = from read off bo 0 + k) ∧
  mapped m (to read off bo 0) c ∧ mapped m (from read off bo 0) c.
Proof.
  intros F Hc Ho Hb. destruct (fo_page _ _ _ _ F off ltac:(lia)) as (_ & [A0 A1] & _), (fo_frame _ _ _ _ F bo ltac:(lia)) as ([B0 B1] & _).
  pose proof (Z.mod_pos_bound off P ltac:(done)) as Hm1. pose proof (Z.mod_pos_bound bo P ltac:(done)) as Hm2.
  assert (Hap : apart (file_addr off) (buff_addr bo) c) by (unfold apart, file_addr, buff_addr; destruct (fo_apart _ _ _ _ F off bo); lia).
  assert (Lf : ∀ k, 0 ≤ k < c → file_addr (off + k) = file_addr off + k).
  { intros k Hk. destruct (page_step off k) as [E1 E2]; [lia..|]. unfold file_addr, file_frame. rewrite E1, E2. lia. }
  assert (Lb : ∀ k, 0 ≤ k < c → buff_addr (bo + k) = buff_addr bo + k).
  { intros k Hk. destruct (page_step bo k) as [E1 E2]; [lia..|]. unfold buff_addr, buff_frame. rewrite E1, E2. lia. }
  assert (Mf : mapped m (file_addr off) c) by (intros k Hk; rewrite <- Lf by done; apply (fo_page _ _ _ _ F (off + k)); lia).
  assert (Mb : mapped m (buff_addr bo) c) by (intros k Hk; rewrite <- Lb by done; apply (fo_frame _ _ _ _ F (bo + k)); lia).
  unfold to, from, remote_memcpy. rewrite Z.eqb_refl, !Z.add_0_r. cbn [andb cassert mbind option_bind].
  destruct read; (split; [|split; [|done]]).
  - rewrite memcpy_spec; try done; unfold buff_addr, file_addr in *; try lia. apply (fo_bytes _ _ _ _ F). destruct Hap; [right|left]; lia.
  - intros k Hk. by rewrite Lf, Lb.
  - rewrite memcpy_spec; try done; unfold buff_addr, file_addr in *; try lia. apply (fo_bytes _ _ _ _ F).
  - intros k Hk. by rewrite Lf, Lb.
Qed.

(** The pieces of a transfer end where the pages of the file and the frames of the buffer end. *)
Definition in_step (off bo n : Z) : Prop :=
  off mod P = 0 ∧ bo mod P = 0 ∨ off mod P + n ≤ P ∧ bo mod P + n ≤ P.

(** A round that starts a page of the file and a frame of the buffer. *)
Lemma round_ok fuel read isize off bo lf ps pr rc m n c :
  frames_ok m off bo n → 0 < lf → off < isize → 0 < c ≤ n →
  c = Z.min (Z.min (P - bo mod P) lf) (Z.min P (isize - off)) → off mod P + c ≤ P →
  ∃ ss rs ps' pr' rc',
    request_loop pf ppm get_page (S fuel) read b isize (Slice off bo lf 0 0 ps pr rc) m =
    request_loop pf ppm get_page fuel read b isize (Slice (off + c) (bo + c) (lf - c) (ss - c) (rs - c) ps' pr' rc')
      (copied m (to read off bo 0) (from read off bo 0) c) ∧
    rs = Z.min (P - bo mod P) lf ∧ ss = Z.min P (isize - off).
Proof.
  intros F Hlf Hoff En Ec Hc. pose proof (Z.mod_pos_bound bo P ltac:(done)) as Hm. destruct (fo_start _ _ _ _ F) as [H0 H1].
  assert (Hsh : ∀ k, Z.shiftr k PMM_PAGE_SHIFT = k / P) by (intros k; by rewrite Z.shiftr_div_pow2).
  cbn [request_loop left current_offset]. rewrite (proj2 (Z.ltb_lt 0 lf)), (proj2 (Z.ltb_lt off isize)) by lia. cbn [andb negb ssize rsize ctrue cassert mbind option_bind].
  unfold refill_src. cbn [ssize current_offset b_offset left rsize preq req_cid Z.eqb negb]. rewrite Hsh.
  destruct (fo_page _ _ _ _ F off ltac:(lia)) as (Hp & _), (fo_frame _ _ _ _ F bo ltac:(lia)) as (_ & _ & ppn & Eppn & Ecid).
  rewrite (proj2 (Z.eqb_neq _ 0)) by done. unfold refill_req. cbn [ssize current_offset b_offset left rsize psrc Z.eqb negb]. rewrite Hsh, Eppn. cbn [mbind option_bind].
  rewrite Ecid. cbn [mbind option_bind ssize current_offset b_offset left rsize psrc preq req_cid].
  assert ((if P <? isize - off then P else isize - off) = Z.min P (isize - off)) as -> by (destruct (Z.ltb_spec P (isize - off)); lia). rewrite <- Ec.
  destruct (copy_ok m off bo n read c F) as (Ecopy & _); [lia|done|lia|].
  assert (pmm_ppn2vma ppn + bo mod P = buff_addr bo) as -> by (unfold buff_addr, buff_frame; by rewrite Eppn).
  change (ppm_page2addr ppm (get_page (off / P)) + off mod P) with (file_addr off).
  eexists _, _, _, _, _. split; [|by split]. destruct read; rewrite Ecopy; reflexivity.
Qed.

Lemma loop_end fuel read isize x m : left x ≤ 0 ∨ isize ≤ current_offset x → request_loop pf ppm get_page (S fuel) read b isize x m = Some (m, Some x).
Proof.
  intros H. cbn [request_loop]. destruct (Z.ltb_spec 0 (left x)), (Z.ltb_spec (current_offset x) isize); cbn [andb negb]; done || lia.
Qed.

Lemma transfer_loop_ok read isize fuel : ∀ m off bo lf ps pr rc n,
  n = Z.max 0 (Z.min lf (isize - off)) → 0 ≤ lf → frames_ok m off bo n → in_step off bo n → (Z.to_nat n < fuel)%nat →
  ∃ m' x, request_loop pf ppm get_page fuel read b isize (Slice off bo lf 0 0 ps pr rc) m = Some (m', Some x) ∧
    current_offset x = off + n ∧ left x = lf - n ∧ moved m m' (to read off bo) (from read off bo) n.
Proof.
  induction fuel as [|fuel IH]; intros m off bo lf ps pr rc n En Hlf F Hst Hfuel; [lia|].
  destruct (decide (n = 0)) as [Hn|Hn].
  { rewrite loop_end by (cbn [left current_offset]; lia). eexists _, _. split; [done|]. cbn [left current_offset]. rewrite Hn. split; [lia|]. split; [lia|apply moved_0]. }
  pose proof (Z.mod_pos_bound bo P ltac:(done)) as Hm. pose proof (Z.mod_pos_bound off P ltac:(done)) as Hm'.
  set (c := Z.min (Z.min (P - bo mod P) lf) (Z.min P (isize - off))).
  destruct (round_ok fuel read isize off bo lf ps pr rc m n c F) as (ss & rs & ps' & pr' & rc' & -> & Ers & Ess); [lia|lia|lia|done|unfold in_step in Hst; lia|].
  destruct (copy_ok m off bo n read c F) as (_ & Hlin & Mt & Mf); [lia|unfold in_step in Hst; lia|lia|].
  assert (Hrest : ∀ m', moved (copied m (to read off bo 0) (from read off bo 0) c) m' (to read (off + c) (bo + c)) (from read (off + c) (bo + c)) (n - c) →
    moved m m' (to read off bo) (from read off bo) n).
  { intros m' Hmv. apply (moved_step m m' _ _ n c); [lia|done| |done|done|].
    - intros k k' Hk Hk'. by apply (addrs_apart m off bo n).
    - revert Hmv. apply moved_ext; intros k; unfold to, from; destruct read; f_equal; lia. }
  destruct (decide (c = n)) as [E|Hne].
  - destruct fuel as [|fuel]; [lia|]. rewrite loop_end by (cbn [left current_offset]; lia). eexists _, _. split; [done|]. cbn [left current_offset].
    split; [lia|]. split; [lia|]. apply Hrest. rewrite E, Z.sub_diag. apply moved_0.
  - assert (c = P ∧ off mod P = 0 ∧ bo mod P = 0) as (EP & E1 & E2) by (unfold in_step in Hst; lia).
    replace (ss - c) with 0 by lia. replace (rs - c) with 0 by lia.
    destruct (IH (copied m (to read off bo 0) (from read off bo 0) c) (off + c) (bo + c) (lf - c) ps' pr' rc' (n - c)) as (m' & x & -> & X1 & X2 & Hmv).
    + lia.
    + lia.
    + apply frames_sub; [done|lia|done].
    + left. rewrite EP. split; rewrite <- Zplus_mod_idemp_r, Z_mod_same_full, Z.add_0_r; done.
    + lia.
    + exists m', x. split; [done|]. split; [lia|]. split; [lia|]. by apply Hrest.
Qed.

(** The loop at a page of the file that cannot be had. *)
Lemma loop_missing fuel read isize off bo lf ps pr rc m :
  0 < lf → off < isize → get_page (off / P) = 0 →
  request_loop pf ppm get_page (S fuel) read b isize (Slice off bo lf 0 0 ps pr rc) m = Some (m, None).
Proof.
  intros Hlf Hoff Hp. cbn [request_loop left current_offset]. rewrite (proj2 (Z.ltb_lt 0 lf)), (proj2 (Z.ltb_lt off isize)) by lia.
  cbn [andb negb ssize rsize ctrue cassert mbind option_bind]. unfold refill_src. cbn [ssize current_offset Z.eqb negb].
  rewrite Z.shiftr_div_pow2 by done. change (2 ^ PMM_PAGE_SHIFT) with P. by rewrite Hp.
Qed.

(** The places where a transfer may stop: its start, or the end of whole pages. *)
Definition stops_at (off bo n0 : Z) : Prop := n0 = 0 ∨ off mod P = 0 ∧ bo mod P = 0 ∧ n0 mod P = 0.

Lemma transfer_loop_missing read isize fuel : ∀ m off bo lf ps pr rc n0,
  0 ≤ n0 < Z.min lf (isize - off) → stops_at off bo n0 → frames_ok m off bo n0 → get_page ((off + n0) / P) = 0 →
  (Z.to_nat n0 < fuel)%nat →
  ∃ m', request_loop pf ppm get_page fuel read b isize (Slice off bo lf 0 0 ps pr rc) m = Some (m', None) ∧
    moved m m' (to read off bo) (from read off bo) n0.
Proof.
  induction fuel as [|fuel IH]; intros m off bo lf ps pr rc n0 Hn Hst F Hp Hfuel; [lia|].
  destruct (decide (n0 = 0)) as [->|Hn0].
  { rewrite Z.add_0_r in Hp. rewrite loop_missing by (done || lia). exists m. split; [done|apply moved_0]. }
  destruct Hst as [?|(E1 & E2 & E3)]; [done|].
  assert (P ≤ n0) as HP by (unfold PMM_PAGE_SIZE in *; Z.to_euclidean_division_equations; lia).
  destruct (round_ok fuel read isize off bo lf ps pr rc m n0 P F) as (ss & rs & ps' & pr' & rc' & -> & Ers & Ess);
    [lia|lia|unfold PMM_PAGE_SIZE in *; lia|rewrite E2; lia|lia|].
  destruct (copy_ok m off bo n0 read P F) as (_ & Hlin & Mt & Mf); [unfold PMM_PAGE_SIZE in *; lia|lia|lia|].
  rewrite E2 in Ers. replace (ss - P) with 0 by lia. replace (rs - P) with 0 by lia.
  destruct (IH (copied m (to read off bo 0) (from read off bo 0) P) (off + P) (bo + P) (lf - P) ps' pr' rc' (n0 - P)) as (m' & -> & Hmv).
  - lia.
  - right. unfold PMM_PAGE_SIZE in *. Z.to_euclidean_division_equations; lia.
  - apply frames_sub; [done|unfold PMM_PAGE_SIZE in *; lia|done].
  - by replace (off + P + (n0 - P)) with (off + n0) by lia.
  - unfold PMM_PAGE_SIZE in *. lia.
  - exists m'. split; [done|]. apply (moved_step m m' _ _ n0 P); [unfold PMM_PAGE_SIZE in *; lia|done| |done|done|].
    + intros k k' Hk Hk'. by apply (addrs_apart m off bo n0).
    + revert Hmv. apply moved_ext; intros k; unfold to, from; destruct read; f_equal; lia.
Qed.
End transfer.

(** ** Theorem *)

Definition start (s : io_s) (b : mapper_buff_s) : Z := if file b then fr_offset s else data_offset b.
(** The end of the file for the request. *)
Definition limit (read : bool) (s : io_s) (b : mapper_buff_s) : Z := if read then i_size s else start s b + bsize b.
Definition length_of (read : bool) (s : io_s) (b : mapper_buff_s) : Z := Z.max 0 (Z.min (bsize b) (limit read s b - start s b)).

Lemma request_round pf ppm get_page s b read :
  m_cache_lock s = false →
  mapper_request pf ppm get_page s b 1 read =
    '(s', r) ← mapper_request_ pf ppm get_page read (set_cache_lock s true) b; Some (set_cache_lock s' false, r).
Proof.
  intros Hc. unfold mapper_request. change (Z.to_nat 1) with 1%nat. cbn [request_rounds]. rewrite Hc.
  cbn [negb cassert mbind option_bind]. change (0 =? 1 - 1) with true. cbn iota. reflexivity.
Qed.

(** C18. A read or a write of one buffer within a cluster.  When the pages of the file can be had and
    the pieces end where the pages and the frames of the buffer end: it moves as many bytes as there
    are up to the end of the file, each one to its place, touches nothing else in memory, advances
    the offset of the file, makes the file as long as the offset and gives both locks back.  When a
    page cannot be had, at the start or after a number of whole pages: the bytes before it have been
    moved, the request returns [-VFS_IO_ERR], the offset and the size of the file are as before, the
    lock of the mapper is given back and that of the file is not ([io_error_keeps_lock]).  The
    frames lie in the memory of the cluster and do not overlap ([frames_ok]); a request that crosses
    a page or a frame in its middle is left out because it moves the wrong bytes
    ([unaligned_requests]); and the two locks are free at the start. *)
Theorem mapper_request_transfers pf ppm get_page s b read :
  let off := start s b in let bo := buff_offset b in let n := length_of read s b in
  let transfers := λ m' k, moved (memory s) m' (to ppm get_page b read off bo) (from ppm get_page b read off bo) k in
  0 < bsize b → off + bsize b < wsize → fr_locked s = false → m_cache_lock s = false →
  (frames_ok pf ppm get_page b (memory s) off bo n → in_step off bo n →
   ∃ m', transfers m' n ∧
     mapper_request pf ppm get_page s b 1 read =
     Some (Io m' (if file b then off + n else fr_offset s) false (Z.max (i_size s) (off + n)) (i_dirty s || (i_size s <? off + n)) false, n)) ∧
  (∀ n0, 0 ≤ n0 < n → stops_at off bo n0 → frames_ok pf ppm get_page b (memory s) off bo n0 →
   get_page ((off + n0) / PMM_PAGE_SIZE) = 0 →
   ∃ m', transfers m' n0 ∧
     mapper_request pf ppm get_page s b 1 read =
     Some (Io m' (fr_offset s) (file b) (i_size s) (i_dirty s) false, - VFS_IO_ERR)).
Proof.
  intros off bo n transfers Hb Hw Hl Hc. rewrite (request_round _ _ _ s b read Hc).
  unfold mapper_request_. rewrite (proj2 (Z.eqb_neq (bsize b) 0)) by lia.
  change (fr_locked (set_cache_lock s true)) with (fr_locked s). rewrite Hl, andb_false_r. cbn [negb cassert mbind option_bind].
  assert (0 ≤ off → u32 (off + bsize b) = off + bsize b) as Eu by (intros; apply u32_small; lia).
  split.
  - intros F Hst. destruct (fo_start _ _ _ _ _ _ _ _ F) as [Ho _]. specialize (Eu Ho).
    destruct (transfer_loop_ok pf ppm get_page b read (limit read s b) (S (Z.to_nat (bsize b))) (memory s) off bo (bsize b) 0 0 0 n)
      as (m' & x & Eloop & X1 & X2 & Hmv); [done|lia|done|done|unfold n, length_of; lia|].
    exists m'. split; [exact Hmv|]. clear F Hst Hmv Hw transfers.
    destruct s as [m0 fo fl isz dirty cl]. unfold limit, off, bo, start in *. cbn [fr_offset fr_locked i_size i_dirty m_cache_lock memory] in *. subst fl cl.
    destruct (file b); cbn [set_locked set_cache_lock fr_offset i_size memory]; rewrite ?Eu, Eloop; cbn [mbind option_bind]; cbn [set_memory set_locked set_cache_lock i_size];
      rewrite X1, X2.
    all: match goal with |- context [?y <? ?z] => destruct (Z.ltb_spec y z) end.
    all: replace (bsize b - (bsize b - n)) with n by lia; rewrite ?orb_true_r, ?orb_false_r, ?Z.max_r, ?Z.max_l by lia; reflexivity.
  - intros n0 Hn Hst F Hp. destruct (fo_start _ _ _ _ _ _ _ _ F) as [Ho _]. specialize (Eu Ho).
    destruct (transfer_loop_missing pf ppm get_page b read (limit read s b) (S (Z.to_nat (bsize b))) (memory s) off bo (bsize b) 0 0 0 n0)
      as (m' & Eloop & Hmv); [unfold n, length_of in Hn; lia|done|done|done|unfold n, length_of in Hn; lia|].
    exists m'. split; [exact Hmv|]. clear F Hst Hmv Hw transfers.
    destruct s as [m0 fo fl isz dirty cl]. unfold limit, off, bo, start in *. cbn [fr_offset fr_locked i_size i_dirty m_cache_lock memory] in *. subst fl cl.
    destruct (file b); cbn [set_locked set_cache_lock fr_offset i_size memory]; rewrite ?Eu, Eloop; reflexivity.
Qed.

(** A file of two pages, in the frames 1 and 3, and a buffer in the frames 5 and 6. *)
Definition ex_store : mem :=
  list_to_map ((λ a, (a, a mod 251)) <$> (seqZ 0x1000 40 ++ seqZ 0x1FF0 40 ++ seqZ 0x3000 40 ++ seqZ 0x5000 40 ++ seqZ 0x5FF0 40)).
Definition ex_ppm : ppm_s := Ppm 0 0 0 0 [] ∅ [] 8 8 0 0 0 0 [].
Definition ex_pf : platform := Platform 0 [0].
Definition ex_get (i : Z) : Z := if i =? 0 then 1 else if i =? 1 then 3 else 0.
Definition ex_io (off : Z) : io_s := Io ex_store off false 0x2000 false false.
Definition ex_buff (bo n : Z) : mapper_buff_s := Buff true n 0 bo [5; 6].

(** The bytes of the buffer after a read, and those of the file. *)
Definition ex_read (off bo n : Z) : option (list (option Z) * list (option Z)) :=
  '(s, _) ← mapper_read ex_pf ex_ppm ex_get (ex_io off) (ex_buff bo n) 1;
  Some ((λ k, memory s !! buff_addr (ex_buff bo n) (bo + k)) <$> seqZ 0 n,
        (λ k, ex_store !! file_addr ex_ppm ex_get (off + k)) <$> seqZ 0 n).

Lemma ex_frames_ok : frames_ok ex_pf ex_ppm ex_get (ex_buff 0x10 12) ex_store 8 0x10 12.
Proof.
  assert (Hk : ∀ k o, 0 ≤ o ∧ o + 12 ≤ 40 → o ≤ k < o + 12 → k / PMM_PAGE_SIZE = 0 ∧ k mod PMM_PAGE_SIZE = k)
    by (intros k o Ho Hk; unfold PMM_PAGE_SIZE; split; [apply Z.div_small|apply Z.mod_small]; lia).
  assert (Hff : ∀ k, 8 ≤ k < 20 → file_frame ex_ppm ex_get k = 0x1000) by (intros k H; unfold file_frame; by rewrite (proj1 (Hk k 8 ltac:(lia) H))).
  assert (Hbf : ∀ k, 0x10 ≤ k < 0x1C → buff_frame (ex_buff 0x10 12) k = 0x5000) by (intros k H; unfold buff_frame; by rewrite (proj1 (Hk k 0x10 ltac:(lia) H))).
  assert (Hin : ∀ a o, 0 ≤ o < 40 → a = 0x1000 ∨ a = 0x5000 → is_Some (ex_store !! (a + o))).
  { intros a o Ho Ha. assert (mapped ex_store 0x1000 40 ∧ mapped ex_store 0x5000 40) as [M1 M2] by (split; apply mapped_check; vm_compute; reflexivity).
    destruct Ha as [->| ->]; [by apply M1|by apply M2]. }
  split; cbn [ex_buff buff_ppns].
  - lia.
  - apply bytes_check. vm_compute. reflexivity.
  - intros k H. unfold file_addr. rewrite (Hff k H). destruct (Hk k 8 ltac:(lia) H) as [-> ->]. split; [done|]. split; [done|]. apply Hin; [lia|by left].
  - intros k H. unfold buff_addr. rewrite (Hbf k H). destruct (Hk k 0x10 ltac:(lia) H) as [-> ->]. split; [done|]. split; [apply Hin; [lia|by right]|]. by exists 5.
  - intros k k' H H'. rewrite (Hff k H), (Hbf k' H'). by left.
  - intros k k' H H' Hne. destruct Hne. by rewrite (proj1 (Hk k 8 ltac:(lia) H)), (proj1 (Hk k' 8 ltac:(lia) H')).
  - intros k k' H H' Hne. destruct Hne. by rewrite (proj1 (Hk k 0x10 ltac:(lia) H)), (proj1 (Hk k' 0x10 ltac:(lia) H')).
Qed.

(** A read that succeeds, and a write to a page that cannot be had. *)
Lemma mapper_request_transfers_witness :
  (∃ m', mapper_request ex_pf ex_ppm ex_get (ex_io 8) (ex_buff 0x10 12) 1 true = Some (Io m' 20 false 0x2000 false false, 12) ∧
    ∀ k, 0 ≤ k < 12 → m' !! buff_addr (ex_buff 0x10 12) (0x10 + k) = ex_store !! file_addr ex_ppm ex_get (8 + k)) ∧
  ∃ m', mapper_request ex_pf ex_ppm ex_get (ex_io 0x2000) (ex_buff 0 12) 1 false =
    Some (Io m' 0x2000 true 0x2000 false false, - VFS_IO_ERR) ∧ ∀ a, m' !! a = ex_store !! a.
Proof.
  split.
  - destruct (mapper_request_transfers ex_pf ex_ppm ex_get (ex_io 8) (ex_buff 0x10 12) true) as [Hok _];
      [reflexivity|reflexivity|reflexivity|reflexivity|].
    destruct (Hok ex_frames_ok) as (m' & [Hmv _] & E).
    + right. split; vm_compute; discriminate.
    + exists m'. split; [exact E|exact Hmv].
  - destruct (mapper_request_transfers ex_pf ex_ppm ex_get (ex_io 0x2000) (ex_buff 0 12) false) as [_ Herr];
      [reflexivity|reflexivity|reflexivity|reflexivity|].
    destruct (Herr 0) as (m' & [_ Hmv] & E).
    + split; [reflexivity|by vm_compute].
    + by left.
    + split; [done|exact (fo_bytes _ _ _ _ _ _ _ _ ex_frames_ok)|intros; lia..].
    + reflexivity.
    + exists m'. split; [exact E|]. intros a. apply Hmv. lia.
Defined.

(** ** Divergences *)

(** A request that crosses a page of the file from the middle goes on in memory after the page,
    and one that crosses a frame of the buffer starts again at the first byte. *)
Lemma unaligned_requests :
  ex_read 8 0x10 12 = Some ((λ k, Some ((0x1008 + k) mod 251)) <$> seqZ 0 12, (λ k, Some ((0x1008 + k) mod 251)) <$> seqZ 0 12) ∧
  ex_read 0xFFA 0 12 = Some ((λ k, Some ((0x1FFA + k) mod 251)) <$> seqZ 0 12,
    ((λ k, Some ((0x1FFA + k) mod 251)) <$> seqZ 0 6) ++ ((λ k, Some ((0x3000 + k) mod 251)) <$> seqZ 0 6)) ∧
  ex_read 0 0xFFA 12 = Some (((λ k, Some ((0x1000 + k) mod 251)) <$> seqZ 0 6) ++ ((λ k, Some ((0x1000 + k) mod 251)) <$> seqZ 0 6),
    (λ k, Some ((0x1000 + k) mod 251)) <$> seqZ 0 12).
Proof. vm_compute. done. Qed.

(** A read past the end of the file makes the file longer. *)
Lemma read_past_end :
  (λ r, (i_size r.1, i_dirty r.1, r.2)) <$> mapper_read ex_pf ex_ppm ex_get (ex_io 0x3000) (ex_buff 0 12) 1 = Some (0x3000, true, 0).
Proof. vm_compute. reflexivity. Qed.

(** A page that cannot be had leaves the file locked. *)
Lemma io_error_keeps_lock :
  (λ r, (fr_locked r.1, r.2)) <$> mapper_write ex_pf ex_ppm ex_get (ex_io 0x2000) (ex_buff 0 12) 1 = Some (true, - VFS_IO_ERR).
Proof. vm_compute. reflexivity. Qed.

Lemma cache_lock_kept pf ppm get_page read s b s' r : mapper_request_ pf ppm get_page read s b = Some (s', r) → m_cache_lock s' = m_cache_lock s.
Proof.
  unfold mapper_request_. destruct (bsize b =? 0); [by intros [= <- _]|]. destruct (file b && fr_locked s); [done|]. cbn [negb cassert mbind option_bind].
  destruct (request_loop _ _ _ _ _ _ _ _ _) as [[m [x|]]|]; cbn [mbind option_bind]; [| |done]; intros [= <- _].
  - destruct (i_size _ <? _), (file b); reflexivity.
  - by destruct (file b).
Qed.

(** A request with several buffers waits for the lock it holds. *)
Lemma several_buffers_block pf ppm get_page s b nb_buff read : 2 ≤ nb_buff → mapper_request pf ppm get_page s b nb_buff read = None.
Proof.
  intros Hn. unfold mapper_request. destruct (Z.to_nat nb_buff) as [|[|n]] eqn:E; [lia..|]. cbn [request_rounds].
  destruct (m_cache_lock s); [done|]. cbn [negb cassert mbind option_bind].
  destruct (mapper_request_ pf ppm get_page read (set_cache_lock s true) b) as [[s' size]|] eqn:Er; [|done]. cbn [mbind option_bind].
  rewrite (proj2 (Z.eqb_neq 0 (nb_buff - 1))) by lia. by rewrite (cache_lock_kept _ _ _ _ _ _ _ _ Er).
Qed.
