(* ===== verification/Keysdb.v ===== *)
(** * The database of keys (src/kernel/kern/keysdb.c)

    A table of 1024 records of 64 slots, indexed by keys of 16 bits; it remembers the region of
    every part of an address space.  Records are allocated by the first insertion and installed
    with a compare-and-swap, since the page fault handler inserts without a lock.  Insertion is
    given by its steps, one for each access to shared memory; [keysdb_insert] runs them without
    interference, and the file KeysdbSys interleaves the insertions of any number of threads. *)

From S2P Require Import Prelude Bits Objects Threads.

Open Scope Z_scope.

Definition KEYS_PER_REC : Z := 64.
Definition KEYS_PER_REC_LOG2 : Z := 6.

(** ** State *)

(** The table [root] and the records it points to; [root] is in the page [page]. *)
Record keysdb_s := Keysdb {
  root : list Z; records : gmap Z (list Z);
  records_nr : Z; records_bits : Z; key_width : Z; keys_per_record : Z; page : Z }.

Definition with_root (db : keysdb_s) (l : list Z) : keysdb_s :=
  Keysdb l (records db) (records_nr db) (records_bits db) (key_width db) (keys_per_record db) (page db).
Definition with_records (db : keysdb_s) (r : gmap Z (list Z)) : keysdb_s :=
  Keysdb (root db) r (records_nr db) (records_bits db) (key_width db) (keys_per_record db) (page db).

(** ** Operations *)

(** [page] is the zeroed page that [kmem_alloc] returned, or [NULL]; the result is the database
    or [ENOMEM]. *)
Definition keysdb_init (page key_width : Z) : option (keysdb_s + Z) :=
  let records_nr := PMM_PAGE_SIZE / 4 in
  let records_bits := bits_log2 records_nr in
  _ ← cassert (records_bits + KEYS_PER_REC_LOG2 =? key_width);
  if page =? 0 then Some (inr ENOMEM) else
  Some (inl (Keysdb (replicate (Z.to_nat records_nr) 0) ∅ records_nr records_bits key_width KEYS_PER_REC page)).

Definition keysdb_index (db : keysdb_s) (key : Z) : Z * Z :=
  let bits := u32 (key_width db - records_bits db) in
  (Z.shiftr key bits, Z.land key (u32 (u32 (Z.shiftl 1 bits) - 1))).

Definition keysdb_lookup (db : keysdb_s) (key : Z) : option Z :=
  let '(record_index, key_index) := keysdb_index db key in
  rec ← aget (root db) record_index;
  if rec =? 0 then Some 0 else
  tbl ← records db !! rec;
  aget tbl key_index.

(** The database and the value that was removed. *)
Definition keysdb_remove (db : keysdb_s) (key : Z) : option (keysdb_s * Z) :=
  let '(record_index, key_index) := keysdb_index db key in
  rec ← aget (root db) record_index;
  if rec =? 0 then Some (db, 0) else
  tbl ← records db !! rec;
  value ← aget tbl key_index;
  tbl ← aset tbl key_index 0;
  Some (with_records db (<[rec := tbl]> (records db)), value).

Section operations.
Context {A : Type} `{ObjectSource A}.
Implicit Types (a : A) (db : keysdb_s).

(** A new record, cleared by [memset]. *)
Definition empty_record : list Z := replicate (Z.to_nat KEYS_PER_REC) 0.

Definition keysdb_insert_seq a db (key value : Z) : option (A * keysdb_s * Z) :=
  let '(record_index, key_index) := keysdb_index db key in
  rec ← aget (root db) record_index;
  '(a, db) ←
    (if rec =? 0 then
       '(a, rec) ← os_alloc a;
       l ← aset (root db) record_index rec;
       let db := with_root db l in
       Some (a, if rec =? 0 then db else with_records db (<[rec := empty_record]> (records db)))
     else Some (a, db));
  rec ← aget (root db) record_index;
  if rec =? 0 then Some (a, db, ENOMEM) else
  tbl ← records db !! rec;
  old ← aget tbl key_index;
  if negb (old =? 0) then Some (a, db, EEXIST) else
  tbl ← aset tbl key_index value;
  Some (a, with_records db (<[rec := tbl]> (records db)), 0).

(** Where an insertion is: before the test of the loop with [rec] and [isAtomic], before the
    compare-and-swap, before the test that frees a record that was not needed, before the load
    of the record, before the test of the slot, before the store to it, and returned. *)
Inductive insertion :=
  | Loop (rec : Z) (isAtomic : bool)
  | Cas (rec : Z)
  | Drop (rec : Z)
  | Fetch
  | Test (rec : Z)
  | Fill (rec : Z)
  | Return (err : Z).

(** [isAllocated] is that [rec] is not [NULL]. *)
Definition insert_step (key value : Z) a db (pc : insertion) : option (A * keysdb_s * insertion) :=
  let '(record_index, key_index) := keysdb_index db key in
  match pc with
  | Loop rec isAtomic =>
      ptr ← aget (root db) record_index;
      if (ptr =? 0) && negb isAtomic then
        if rec =? 0 then
          '(a, rec) ← os_alloc a;
          if rec =? 0 then Some (a, db, Return ENOMEM)
          else Some (a, with_records db (<[rec := empty_record]> (records db)), Cas rec)
        else Some (a, db, Cas rec)
      else Some (a, db, Drop rec)
  | Cas rec =>
      ptr ← aget (root db) record_index;
      if ptr =? 0 then l ← aset (root db) record_index rec; Some (a, with_root db l, Loop rec true)
      else Some (a, db, Loop rec false)
  | Drop rec =>
      ptr ← aget (root db) record_index;
      if negb (rec =? 0) && negb (ptr =? rec) then
        a ← os_free a rec;
        Some (a, with_records db (delete rec (records db)), Fetch)
      else Some (a, db, Fetch)
  | Fetch => rec ← aget (root db) record_index; Some (a, db, Test rec)
  | Test rec =>
      tbl ← records db !! rec;
      old ← aget tbl key_index;
      Some (a, db, if negb (old =? 0) then Return EEXIST else Fill rec)
  | Fill rec =>
      tbl ← records db !! rec;
      tbl ← aset tbl key_index value;
      Some (a, with_records db (<[rec := tbl]> (records db)), Return 0)
  | Return err => Some (a, db, Return err)
  end.

Fixpoint insert_run (fuel : nat) (key value : Z) a db (pc : insertion) : option (A * keysdb_s * Z) :=
  match pc, fuel with
  | Return err, _ => Some (a, db, err)
  | _, O => None
  | _, S fuel => '(a, db, pc) ← insert_step key value a db pc; insert_run fuel key value a db pc
  end.

(** Alone, the loop is left after the compare-and-swap: seven steps are enough. *)
Definition keysdb_insert a db (key value : Z) : option (A * keysdb_s * Z) :=
  insert_run 7 key value a db (Loop 0 false).

(** The two loops of [keysdb_bind]: [i] keys are bound, and then unbound again on an error. *)
Fixpoint bind_loop (n : nat) a db (key_start i value : Z) : option (A * keysdb_s * Z * Z) :=
  match n with
  | O => Some (a, db, i, 0)
  | S n =>
      '(a, db, err) ← keysdb_insert a db (u32 (key_start + i)) value;
      if negb (err =? 0) then Some (a, db, i, err) else bind_loop n a db key_start (i + 1) value
  end.

Fixpoint undo_loop (i : nat) db (key_start : Z) : option keysdb_s :=
  match i with
  | O => Some db
  | S i => '(db, _) ← keysdb_remove db (u32 (key_start + Z.of_nat i)); undo_loop i db key_start
  end.

Definition keysdb_bind a db (key_start keys_nr value : Z) : option (A * keysdb_s * Z) :=
  '(a, db, i, err) ← bind_loop (Z.to_nat keys_nr) a db key_start 0 value;
  if negb (err =? 0) then db ← undo_loop (Z.to_nat i) db key_start; Some (a, db, err)
  else Some (a, db, 0).

Fixpoint unbind_loop (n : nat) db (key_start i : Z) : option keysdb_s :=
  match n with
  | O => Some db
  | S n => '(db, _) ← keysdb_remove db (u32 (key_start + i)); unbind_loop n db key_start (i + 1)
  end.

Definition keysdb_unbind db (key_start keys_nr : Z) : option keysdb_s :=
  unbind_loop (Z.to_nat keys_nr) db key_start 0.

(** [keysdb_destroy]: the records go back to their cache; the result is the page that is given
    to [kmem_free]. *)
Fixpoint destroy_loop (n : nat) a db (i : Z) : option A :=
  match n with
  | O => Some a
  | S n =>
      rec ← aget (root db) i;
      if rec =? 0 then destroy_loop n a db (i + 1)
      else a ← os_free a rec; destroy_loop n a db (i + 1)
  end.

Definition keysdb_destroy a db : option (A * Z) :=
  a ← destroy_loop (Z.to_nat (records_nr db)) a db 0; Some (a, page db).
End operations.

(** ** Invariant *)

Section invariant.
Context {A : Type} `{OS : ObjectSource A} `{OL : !ObjectSourceLaws A}.
Implicit Types (a : A) (db : keysdb_s).

Definition is_key (key : Z) : Prop := 0 ≤ key < 2 ^ 16.

(** The table; [records] may hold records that are not installed. *)
Record table_ok a db : Prop := TableOk {
  to_inv : os_inv a;
  to_len : length (root db) = 1024%nat;
  to_nr : records_nr db = 1024;
  to_bits : records_bits db = 10;
  to_width : key_width db = 16;
  to_rec i r : aget (root db) i = Some r → r ≠ 0 → os_live a r;
  to_tbl r tbl : records db !! r = Some tbl → length tbl = 64%nat;
  to_some i r : aget (root db) i = Some r → r ≠ 0 → is_Some (records db !! r);
  to_inj i j r : aget (root db) i = Some r → aget (root db) j = Some r → r ≠ 0 → i = j }.

Definition installed db (r : Z) : Prop := ∃ i, aget (root db) i = Some r ∧ r ≠ 0.

(** What the table says of a key. *)
Definition db_get db (key : Z) : Z := default 0 (keysdb_lookup db key).

Lemma index_eq a db key : table_ok a db → is_key key → keysdb_index db key = (key / 64, key mod 64).
Proof.
  intros [_ _ _ Hb Hw _ _ _ _] Hk. unfold keysdb_index. rewrite Hb, Hw. cbn [Z.sub Z.add Z.opp Z.pos_sub].
  change (u32 (16 - 10)) with 6. change (u32 (u32 (Z.shiftl 1 6) - 1)) with (Z.ones 6).
  rewrite Z.shiftr_div_pow2, Z.land_ones by lia. done.
Qed.

Lemma slot_range key : is_key key → 0 ≤ key / 64 < 1024 ∧ 0 ≤ key mod 64 < 64.
Proof. unfold is_key. intros Hk. pose proof (Z.mod_pos_bound key 64). split; [|lia]. split; [by apply Z.div_pos; lia|by apply Z.div_lt_upper_bound; lia]. Qed.

Lemma root_get a db key : table_ok a db → is_key key → is_Some (aget (root db) (key / 64)).
Proof. intros Ht Hk. apply aget_range. rewrite (to_len _ _ Ht). pose proof (slot_range key Hk). lia. Qed.

Lemma lookup_eq a db key :
  table_ok a db → is_key key →
  keysdb_lookup db key = Some (db_get db key) ∧
  ∃ r, aget (root db) (key / 64) = Some r ∧
    (r = 0 ∧ db_get db key = 0 ∨
     r ≠ 0 ∧ ∃ tbl, records db !! r = Some tbl ∧ aget tbl (key mod 64) = Some (db_get db key)).
Proof.
  intros Ht Hk. destruct (root_get a db key Ht Hk) as [r Hr]. destruct (slot_range key Hk) as [_ Hs].
  unfold db_get, keysdb_lookup. rewrite (index_eq a db key Ht Hk), Hr. cbn [mbind option_bind].
  destruct (Z.eqb_spec r 0) as [->|Hr0]; [split; [done|]; exists 0; split; [done|by left]|].
  destruct (to_some _ _ Ht _ _ Hr Hr0) as [tbl Htbl]. rewrite Htbl. cbn [mbind option_bind].
  destruct (aget_range tbl (key mod 64)) as [x Hx]; [rewrite (to_tbl _ _ Ht _ _ Htbl); lia|]. rewrite Hx.
  split; [done|]. exists r. split; [done|]. right. split; [done|]. by exists tbl.
Qed.

(** Two keys share a slot only when they are the same. *)
Lemma slot_inj a db k key r : table_ok a db → is_key k → is_key key → r ≠ 0 →
  aget (root db) (k / 64) = Some r → aget (root db) (key / 64) = Some r → k mod 64 = key mod 64 → k = key.
Proof.
  intros Ht Hk Hkey Hr0 H1 H2 E. pose proof (to_inj _ _ Ht _ _ _ H1 H2 Hr0) as E2.
  rewrite (Z.div_mod k 64), (Z.div_mod key 64) by lia. congruence.
Qed.

(** The value of a slot is replaced. *)
Lemma table_set a db key r tbl tbl' x :
  table_ok a db → is_key key → aget (root db) (key / 64) = Some r → r ≠ 0 →
  records db !! r = Some tbl → aset tbl (key mod 64) x = Some tbl' →
  let db' := with_records db (<[r := tbl']> (records db)) in
  table_ok a db' ∧ ∀ k, is_key k → db_get db' k = if decide (k = key) then x else db_get db k.
Proof.
  intros Ht Hkey Hr Hr0 Htbl Hset db'. assert (Ht' : table_ok a db').
  { destruct Ht as [H1 H2 H3 H4 H5 H6 H7 H8 H9]. split; try done; cbn.
    - intros q t. rewrite lookup_insert. case_decide; [|by apply H7]. intros [= <-].
      rewrite (aset_length _ _ _ _ Hset). by eapply H7.
    - intros i q Hi Hq. rewrite lookup_insert. case_decide; [by eexists|by eapply H8]. }
  split; [done|]. intros k Hk. destruct (lookup_eq a db' k Ht' Hk) as [_ (q & Hq & Hc)]. cbn in Hq.
  destruct (lookup_eq a db k Ht Hk) as [_ (q' & Hq' & Hc')]. rewrite Hq in Hq'. injection Hq' as <-.
  destruct Hc as [[-> ->]|(Hq0 & t & Ht1 & Hg)].
  - destruct Hc' as [[_ ->]|[? _]]; [|done]. case_decide as Ek; [|done]. subst k. congruence.
  - destruct Hc' as [[? _]|(_ & t' & Ht2 & Hg')]; [done|]. cbn in Ht1. rewrite lookup_insert in Ht1.
    case_decide as Eq.
    + injection Ht1 as <-. subst q. rewrite Htbl in Ht2. injection Ht2 as <-. case_decide as Ek.
      * subst k. rewrite (aget_aset_eq _ _ _ _ Hset) in Hg. by injection Hg.
      * rewrite (aget_aset_ne tbl (key mod 64) (k mod 64) x tbl') in Hg; [congruence| |done].
        intros E. apply Ek. by eapply (slot_inj a db k key r).
    + case_decide as Ek; [subst k; congruence|]. rewrite Ht1 in Ht2. injection Ht2 as <-. congruence.
Qed.

(** ** The steps of an insertion *)

(** The record a thread may have allocated. *)
Definition hold (pc : insertion) : Z :=
  match pc with Loop rec _ | Cas rec | Drop rec => rec | _ => 0 end.

(** An empty record that is not in the table. *)
Definition loose a db (r : Z) : Prop :=
  r ≠ 0 ∧ os_live a r ∧ records db !! r = Some empty_record ∧ ¬ installed db r.

(** What holds at each place; [old] is the value of the key when the insertion began. *)
Definition place_ok a db (key value old : Z) (pc : insertion) : Prop :=
  let slot := aget (root db) (key / 64) in
  match pc with
  | Loop rec isAtomic => db_get db key = old ∧
      (if isAtomic then rec ≠ 0 ∧ slot = Some rec else rec = 0 ∨ loose a db rec)
  | Cas rec => db_get db key = old ∧ loose a db rec
  | Drop rec => db_get db key = old ∧ slot ≠ Some 0 ∧ (rec = 0 ∨ slot = Some rec ∨ loose a db rec)
  | Fetch => db_get db key = old ∧ slot ≠ Some 0
  | Test rec => db_get db key = old ∧ rec ≠ 0 ∧ slot = Some rec
  | Fill rec => db_get db key = old ∧ rec ≠ 0 ∧ slot = Some rec ∧ old = 0
  | Return err => err = 0 ∧ old = 0 ∧ db_get db key = value ∨
                  err = EEXIST ∧ old ≠ 0 ∧ db_get db key = old ∨
                  err = ENOMEM ∧ db_get db key = old
  end.

(** What a step may change. *)
Record ins_frame (key : Z) (pc pc' : insertion) a db a' db' : Prop := InsFrame {
  fr_kept i r : aget (root db) i = Some r → r ≠ 0 → aget (root db') i = Some r;
  fr_new i r : aget (root db') i = Some r → r ≠ 0 → aget (root db) i = Some r ∨ r = hold pc;
  fr_live x : os_live a x → x ≠ hold pc → os_live a' x;
  fr_rec x : x ≠ hold pc → x ≠ hold pc' → ¬ installed db x → records db' !! x = records db !! x;
  fr_back x : is_Some (records db' !! x) →
    is_Some (records db !! x) ∨ x = hold pc' ∧ x ≠ 0 ∧ ¬ os_live a x;
  fr_both x : os_live a' x → is_Some (records db !! x) → is_Some (records db' !! x);
  fr_keep : is_Some (records db' !! hold pc) → hold pc ≠ 0 → installed db' (hold pc) ∨ hold pc' = hold pc;
  fr_out x : os_live a' x → os_live a x ∨ x = hold pc' ∧ is_Some (records db' !! x);
  fr_hold : hold pc' = hold pc ∨ hold pc' = 0 ∨ hold pc = 0 ∧ ¬ os_live a (hold pc');
  fr_get k : is_key k → k ≠ key → db_get db' k = db_get db k }.

Lemma ins_frame_refl key pc pc' a db :
  hold pc' = hold pc ∨ hold pc' = 0 ∧ (hold pc = 0 ∨ installed db (hold pc)) → ins_frame key pc pc' a db a db.
Proof.
  intros Hh. split; [done|by left|done|done|by left|done| |by left| |done].
  - intros _ H0'. destruct Hh as [->|[-> [?|?]]]; auto; done.
  - destruct Hh as [->|[-> _]]; auto.
Qed.

Lemma db_get_ext a a' db db' key :
  table_ok a db → table_ok a' db' → is_key key →
  aget (root db') (key / 64) = aget (root db) (key / 64) →
  (∀ r, aget (root db) (key / 64) = Some r → r ≠ 0 → records db' !! r = records db !! r) →
  db_get db' key = db_get db key.
Proof.
  intros Ht Ht' Hk E1 E2. unfold db_get, keysdb_lookup.
  rewrite (index_eq a db key Ht Hk), (index_eq a' db' key Ht' Hk), E1.
  destruct (aget (root db) (key / 64)) as [r|] eqn:Er; [|done]. cbn [mbind option_bind].
  destruct (Z.eqb_spec r 0); [done|]. by rewrite (E2 r).
Qed.

(** A new record is allocated. *)
Lemma record_alloc a a' db rec :
  table_ok a db → os_inv a' → ¬ os_live a rec → object_addr rec →
  (∀ x, os_live a' x ↔ os_live a x ∨ x = rec) →
  let db' := with_records db (<[rec := empty_record]> (records db)) in
  table_ok a' db' ∧ loose a' db' rec ∧ ∀ k, is_key k → db_get db' k = db_get db k.
Proof.
  intros Ht Hi Hn [Hr0 _] Hl db'.
  assert (Hni : ¬ installed db rec) by (intros (i & Hi' & _); by apply Hn, (to_rec _ _ Ht i)).
  assert (Ht' : table_ok a' db').
  { destruct Ht as [H1 H2 H3 H4 H5 H6 H7 H8 H9]. split; try done; cbn.
    - intros i r Hi' Hr. apply Hl. left. by eapply H6.
    - intros r tbl. rewrite lookup_insert. case_decide; [by intros [= <-]|by apply H7].
    - intros i r Hi' Hr. rewrite lookup_insert. case_decide; [by eexists|by eapply H8]. }
  split; [done|]. split.
  - split; [done|]. split; [apply Hl; by right|]. split; [cbn; by rewrite lookup_insert_eq|done].
  - intros k Hk. apply (db_get_ext a a' db db' k Ht Ht' Hk); [done|]. intros r Hr Hr0'. cbn.
    rewrite lookup_insert_ne; [done|]. intros <-. apply Hni. by exists (k / 64).
Qed.

(** A loose record is installed: all its keys are empty. *)
Lemma table_install a db key rec l :
  table_ok a db → is_key key → loose a db rec →
  aget (root db) (key / 64) = Some 0 → aset (root db) (key / 64) rec = Some l →
  table_ok a (with_root db l) ∧ ∀ k, is_key k → db_get (with_root db l) k = db_get db k.
Proof.
  intros Ht Hkey (Hr0 & Hlv & Hemp & Hni) Hz Hl. set (db' := with_root db l).
  assert (Hg : ∀ i, aget l i = if decide (i = key / 64) then Some rec else aget (root db) i).
  { intros i. case_decide as E; [subst i; by eapply aget_aset_eq|]. eapply aget_aset_ne; [|exact Hl]. done. }
  assert (Ht' : table_ok a db').
  { destruct Ht as [H1 H2 H3 H4 H5 H6 H7 H8 H9]. split; try done; cbn.
    - by rewrite (aset_length _ _ _ _ Hl).
    - intros i r. rewrite Hg. case_decide; [by intros [= <-]|by apply H6].
    - intros i r. rewrite Hg. case_decide; [by intros [= <-]|by apply H8].
    - intros i j r. rewrite !Hg. repeat case_decide; subst; try done.
      + intros [= <-] Hj _. destruct Hni. by exists j.
      + intros Hi [= <-] _. destruct Hni. by exists i.
      + by apply H9. }
  split; [done|]. intros k Hk. destruct (lookup_eq a db' k Ht' Hk) as [_ (q & Hq & Hc)]. cbn in Hq. rewrite Hg in Hq.
  destruct (lookup_eq a db k Ht Hk) as [_ (q' & Hq' & Hc')]. case_decide as E.
  - injection Hq as <-. rewrite E, Hz in Hq'. injection Hq' as <-.
    destruct Hc as [[? _]|(_ & t & Ht1 & Hgt)]; [done|]. destruct Hc' as [[_ ->]|[? _]]; [|done].
    cbn in Ht1. rewrite Hemp in Ht1. injection Ht1 as <-. unfold aget in Hgt. case_match; [|done].
    by apply lookup_replicate in Hgt as [-> _].
  - apply (db_get_ext a a db db' k Ht Ht' Hk); [|done]. cbn. rewrite Hg. by rewrite decide_False.
Qed.

(** A loose record is given back. *)
Lemma record_free a a' db rec :
  table_ok a db → os_inv a' → loose a db rec → (∀ x, os_live a' x ↔ os_live a x ∧ x ≠ rec) →
  let db' := with_records db (delete rec (records db)) in
  table_ok a' db' ∧ ∀ k, is_key k → db_get db' k = db_get db k.
Proof.
  intros Ht Hi (_ & _ & _ & Hni) Hl db'.
  assert (Hne : ∀ i r, aget (root db) i = Some r → r ≠ 0 → r ≠ rec) by (intros i r Hr Hr0 ->; apply Hni; by exists i).
  assert (Ht' : table_ok a' db').
  { destruct Ht as [H1 H2 H3 H4 H5 H6 H7 H8 H9]. split; try done; cbn.
    - intros i r Hi' Hr. apply Hl. split; [by eapply H6|by eapply Hne].
    - intros r tbl [_ Ht]%lookup_delete_Some. by eapply H7.
    - intros i r Hi' Hr. rewrite lookup_delete_ne; [by eapply H8|]. intros <-. by eapply Hne. }
  split; [done|]. intros k Hk. apply (db_get_ext a a' db db' k Ht Ht' Hk); [done|]. intros r Hr Hr0. cbn.
  rewrite lookup_delete_ne; [done|]. intros <-. by eapply Hne.
Qed.

(** The allocator may change as long as the records stay in use. *)
Lemma table_live a a' db :
  table_ok a db → os_inv a' → (∀ i r, aget (root db) i = Some r → r ≠ 0 → os_live a' r) → table_ok a' db.
Proof. intros [H1 H2 H3 H4 H5 H6 H7 H8 H9] Hi Hl. by split. Qed.

Lemma loop_ok key value old a db rec isAtomic :
  table_ok a db → is_key key → place_ok a db key value old (Loop rec isAtomic) →
  ∃ a' db' pc', insert_step key value a db (Loop rec isAtomic) = Some (a', db', pc') ∧ table_ok a' db' ∧
    place_ok a' db' key value old pc' ∧ ins_frame key (Loop rec isAtomic) pc' a db a' db'.
Proof.
  intros Ht Hk [Hg Hp]. unfold insert_step. rewrite (index_eq a db key Ht Hk).
  destruct (root_get a db key Ht Hk) as [ptr Hptr]. rewrite Hptr in *. cbn [mbind option_bind].
  destruct (Z.eqb_spec ptr 0) as [->|Hp0], isAtomic; cbn [andb negb].
  - destruct Hp as [? [= <-]]. done.
  - destruct (Z.eqb_spec rec 0) as [->|Hr0].
    + destruct (os_alloc_law a (to_inv _ _ Ht)) as (a' & r & E & Hi & Hc). rewrite E. cbn [mbind option_bind].
      destruct Hc as [[-> Hl]|(Ho & Hn & Hl)].
      * rewrite Z.eqb_refl. assert (Ht' : table_ok a' db).
        { apply (table_live a a' db Ht Hi). intros i r Hir Hr0. by apply Hl, (to_rec _ _ Ht i). }
        eexists _, _, _. split; [reflexivity|]. split; [done|]. split; [by right; right|].
        split; [done|by left|intros x Hx _; by apply Hl|done|by left|done|done|intros x Hx%Hl; by left|by left|done].
      * rewrite (proj2 (Z.eqb_neq r 0)) by apply Ho.
        destruct (record_alloc a a' db r Ht Hi Hn Ho Hl) as (Ht' & Hlo & Hget).
        eexists _, _, _. split; [reflexivity|]. split; [done|]. split; [split; [by rewrite Hget|done]|].
        split; cbn [hold].
        -- done.
        -- by left.
        -- intros x Hx _. apply Hl. by left.
        -- intros x _ Hx _. cbn. by rewrite lookup_insert_ne.
        -- intros x. cbn. rewrite lookup_insert. case_decide as Ex; [|by left]. subst x. right.
           split; [done|]. split; [apply Ho|done].
        -- intros x _ Hx. cbn. rewrite lookup_insert. case_decide; [by eexists|done].
        -- done.
        -- intros x Hx%Hl. destruct Hx as [Hx| ->]; [by left|right]. split; [done|]. cbn. rewrite lookup_insert_eq. by eexists.
        -- by right; right.
        -- intros k Hk' _. by apply Hget.
    + destruct Hp as [?|Hlo]; [done|]. eexists _, _, _. split; [reflexivity|]. split; [done|]. split; [done|].
      by apply ins_frame_refl; left.
  - eexists _, _, _. split; [reflexivity|]. split; [done|]. split; [|by apply ins_frame_refl; left].
    split; [done|]. rewrite Hptr. split; [congruence|]. right. left. by destruct Hp as [_ ->].
  - eexists _, _, _. split; [reflexivity|]. split; [done|]. split; [|by apply ins_frame_refl; left].
    split; [done|]. rewrite Hptr. split; [congruence|]. destruct Hp as [->|Hlo]; [by left|by right; right].
Qed.

Lemma cas_ok key value old a db rec :
  table_ok a db → is_key key → place_ok a db key value old (Cas rec) →
  ∃ a' db' pc', insert_step key value a db (Cas rec) = Some (a', db', pc') ∧ table_ok a' db' ∧
    place_ok a' db' key value old pc' ∧ ins_frame key (Cas rec) pc' a db a' db'.
Proof.
  intros Ht Hk [Hg Hlo]. unfold insert_step. rewrite (index_eq a db key Ht Hk).
  destruct (root_get a db key Ht Hk) as [ptr Hptr]. rewrite Hptr. cbn [mbind option_bind].
  destruct (Z.eqb_spec ptr 0) as [->|Hp0].
  - pose proof (aset_Some (root db) (key / 64) rec (aget_Some_range _ _ _ Hptr)) as Hl. rewrite Hl. cbn [mbind option_bind].
    destruct (table_install a db key rec _ Ht Hk Hlo Hptr Hl) as [Ht' Hget].
    eexists _, _, _. split; [reflexivity|]. split; [done|].
    split; [split; [by rewrite Hget|]; split; [apply Hlo|exact (aget_aset_eq _ _ _ _ Hl)]|].
    split; cbn [hold].
    + intros i r Hi Hr. cbn. rewrite (aget_aset_ne _ (key / 64) i _ _) with (2 := Hl); [done|]. intros <-. congruence.
    + intros i r. cbn. destruct (decide (key / 64 = i)) as [<-|Hne].
      * rewrite (aget_aset_eq _ _ _ _ Hl). intros [= <-] _. by right.
      * rewrite (aget_aset_ne _ _ _ _ _ Hne Hl). by left.
    + done.
    + done.
    + by left.
    + done.
    + by right.
    + by left.
    + by left.
    + intros k Hk' _. by apply Hget.
  - eexists _, _, _. split; [reflexivity|]. split; [done|]. split; [by split; [|right]|].
    by apply ins_frame_refl; left.
Qed.

Lemma drop_ok key value old a db rec :
  table_ok a db → is_key key → place_ok a db key value old (Drop rec) →
  ∃ a' db' pc', insert_step key value a db (Drop rec) = Some (a', db', pc') ∧ table_ok a' db' ∧
    place_ok a' db' key value old pc' ∧ ins_frame key (Drop rec) pc' a db a' db'.
Proof.
  intros Ht Hk (Hg & Hs & Hp). unfold insert_step. rewrite (index_eq a db key Ht Hk).
  destruct (root_get a db key Ht Hk) as [ptr Hptr]. rewrite Hptr in *. cbn [mbind option_bind].
  destruct (decide (rec = 0 ∨ ptr = rec)) as [Hc|Hc].
  - assert (E : negb (rec =? 0) && negb (ptr =? rec) = false).
    { destruct (Z.eqb_spec rec 0), (Z.eqb_spec ptr rec); cbn; tauto. }
    rewrite E. eexists _, _, _. split; [reflexivity|]. split; [done|]. split; [by split; [|rewrite Hptr]|].
    apply ins_frame_refl. right. split; [done|]. cbn [hold]. destruct Hc as [->| ->]; [by left|].
    destruct (decide (rec = 0)); [by left|right]. by exists (key / 64).
  - assert (E : negb (rec =? 0) && negb (ptr =? rec) = true).
    { destruct (Z.eqb_spec rec 0), (Z.eqb_spec ptr rec); cbn; tauto. }
    rewrite E. destruct Hp as [?|[[= ?]|Hlo]]; [tauto|tauto|].
    destruct (os_free_law a rec (to_inv _ _ Ht)) as (a' & Ef & Hi & Hl); [apply Hlo|]. rewrite Ef. cbn [mbind option_bind].
    destruct (record_free a a' db rec Ht Hi Hlo Hl) as [Ht' Hget].
    eexists _, _, _. split; [reflexivity|]. split; [done|]. split; [split; [by rewrite Hget|cbn; by rewrite Hptr]|].
    split; cbn [hold].
    + done.
    + by left.
    + intros x Hx Hne. by apply Hl.
    + intros x Hne _ _. cbn. by rewrite lookup_delete_ne.
    + intros x. cbn. rewrite lookup_delete. case_decide; [by intros [??]|by left].
    + intros x [_ Hne]%Hl Hx. cbn. by rewrite lookup_delete_ne.
    + cbn. rewrite lookup_delete_eq. by intros [??].
    + intros x [Hx _]%Hl. by left.
    + by right; left.
    + intros k Hk' _. by apply Hget.
Qed.

Lemma tail_ok key value old a db pc :
  table_ok a db → is_key key → place_ok a db key value old pc →
  match pc with Loop _ _ | Cas _ | Drop _ => False | _ => True end →
  ∃ a' db' pc', insert_step key value a db pc = Some (a', db', pc') ∧ table_ok a' db' ∧
    place_ok a' db' key value old pc' ∧ ins_frame key pc pc' a db a' db'.
Proof.
  intros Ht Hk Hp Hpc. unfold insert_step. rewrite (index_eq a db key Ht Hk).
  destruct (root_get a db key Ht Hk) as [ptr Hptr]. destruct (lookup_eq a db key Ht Hk) as [_ (r & Hr & Hc)].
  rewrite Hptr in Hr. injection Hr as <-. destruct pc as [| | | |rec|rec|err]; try done; cbn [place_ok] in Hp; rewrite ?Hptr in *.
  - destruct Hp as [Hg Hs]. cbn [mbind option_bind]. eexists _, _, _. split; [reflexivity|]. split; [done|].
    split; [|apply ins_frame_refl; by left]. split; [done|]. rewrite Hptr. split; [congruence|done].
  - destruct Hp as (Hg & Hr0 & [= ->]). destruct Hc as [[? _]|(_ & tbl & -> & Hgt)]; [done|]. cbn [mbind option_bind].
    rewrite Hgt. cbn [mbind option_bind]. eexists _, _, _. split; [reflexivity|]. split; [done|].
    destruct (Z.eqb_spec (db_get db key) 0) as [E0|Hne]; cbn [negb]; (split; [|apply ins_frame_refl; by left]).
    + split; [done|]. split; [done|]. split; [done|congruence].
    + right. left. by rewrite <- Hg.
  - destruct Hp as (Hg & Hr0 & [= ->] & ->). destruct Hc as [[? _]|(_ & tbl & Htbl & Hgt)]; [done|]. rewrite Htbl. cbn [mbind option_bind].
    pose proof (aset_Some tbl (key mod 64) value (aget_Some_range _ _ _ Hgt)) as Hset. rewrite Hset. cbn [mbind option_bind].
    destruct (table_set a db key rec tbl _ value Ht Hk Hptr Hr0 Htbl Hset) as [Ht' Hget].
    eexists _, _, _. split; [reflexivity|]. split; [done|].
    split; [left; split; [done|]; split; [done|]; rewrite Hget by done; by rewrite decide_True|].
    split; cbn [hold].
    + done.
    + by left.
    + done.
    + intros x _ _ Hni. cbn. rewrite lookup_insert_ne; [done|]. intros <-. apply Hni. by exists (key / 64).
    + intros x. cbn. rewrite lookup_insert. case_decide as Ex; [intros _; left; subst x; by eexists|by left].
    + intros x _ Hx. cbn. rewrite lookup_insert. case_decide; [by eexists|done].
    + done.
    + by left.
    + by left.
    + intros k Hk' Hne. rewrite Hget by done. by rewrite decide_False.
  - eexists _, _, _. split; [reflexivity|]. split; [done|]. split; [done|]. apply ins_frame_refl. by left.
Qed.

Lemma insert_step_ok key value old a db pc :
  table_ok a db → is_key key → place_ok a db key value old pc →
  ∃ a' db' pc', insert_step key value a db pc = Some (a', db', pc') ∧ table_ok a' db' ∧
    place_ok a' db' key value old pc' ∧ ins_frame key pc pc' a db a' db'.
Proof.
  intros Ht Hk Hp. destruct pc; [by apply loop_ok|by apply cas_ok|by apply drop_ok|by apply tail_ok..].
Qed.

(** ** Operations without interference *)

(** Between two operations every record is in the table. *)
Record kdb_ok a db : Prop := KdbOk {
  ko_table : table_ok a db;
  ko_all r : is_Some (records db !! r) → installed db r }.

(** The database has taken objects from the allocator, and only new ones. *)
Record kdb_grows a db a' db' : Prop := KdbGrows {
  kg_live x : os_live a' x ↔ os_live a x ∨ is_Some (records db' !! x);
  kg_new x : is_Some (records db' !! x) → is_Some (records db !! x) ∨ ¬ os_live a x;
  kg_old x : is_Some (records db !! x) → is_Some (records db' !! x) }.

Lemma kdb_live a db x : kdb_ok a db → is_Some (records db !! x) → os_live a x.
Proof. intros [Ht Ha] Hx. destruct (Ha x Hx) as (i & Hi & Hx0). by eapply to_rec. Qed.

Lemma kdb_grows_refl a db : kdb_ok a db → kdb_grows a db a db.
Proof. intros Hok. split; [|by left|done]. intros x. split; [by left|]. intros [?|Hx]; [done|]. by eapply kdb_live. Qed.

Lemma kdb_grows_trans a db a1 db1 a2 db2 :
  kdb_grows a db a1 db1 → kdb_grows a1 db1 a2 db2 → kdb_grows a db a2 db2.
Proof.
  intros [L1 N1 O1] [L2 N2 O2]. split.
  - intros x. rewrite L2, L1. split; [|tauto]. intros [[?|?]|?]; auto.
  - intros x [Hx|Hx]%N2; [by apply N1|right]. rewrite L1 in Hx. tauto.
  - auto.
Qed.

(** Steps to the end when nobody interferes. *)
Definition steps_left db (key : Z) (pc : insertion) : nat :=
  match pc with
  | Loop _ true => 5
  | Loop _ false => if decide (aget (root db) (key / 64) = Some 0) then 7 else 5
  | Cas _ => 6 | Drop _ => 4 | Fetch => 3 | Test _ => 2 | Fill _ => 1 | Return _ => 0
  end.

Lemma steps_decrease key value a db pc a' db' pc' :
  table_ok a db → is_key key → insert_step key value a db pc = Some (a', db', pc') →
  (∃ err, pc = Return err) ∨ (steps_left db' key pc' < steps_left db key pc)%nat.
Proof.
  intros Ht Hk E. unfold insert_step in E. rewrite (index_eq a db key Ht Hk) in E.
  destruct (root_get a db key Ht Hk) as [ptr Hptr]. destruct pc as [rec b|rec|rec| |rec|rec|err]; [..|by left; eexists]; right;
    rewrite ?Hptr in E; cbn [mbind option_bind] in E.
  - destruct b; cbn [negb] in E; rewrite ?andb_false_r, ?andb_true_r in E; [injection E as <- <- <-; cbn; lia|].
    destruct (Z.eqb_spec ptr 0) as [E0|Hp0].
    + subst ptr. cbn [steps_left]. rewrite decide_True by done.
      destruct (rec =? 0); [|injection E as <- <- <-; cbn; lia]. destruct (os_alloc a) as [[a1 r]|]; [|done].
      cbn [mbind option_bind] in E. destruct (r =? 0); injection E as <- <- <-; cbn; lia.
    + injection E as <- <- <-. cbn [steps_left]. rewrite decide_False by congruence. lia.
  - destruct (Z.eqb_spec ptr 0) as [E0|Hp0].
    + destruct (aset _ _ _) as [l|]; [|done]. injection E as <- <- <-. cbn. lia.
    + injection E as <- <- <-. cbn [steps_left]. rewrite decide_False by congruence. lia.
  - destruct (negb (rec =? 0) && negb (ptr =? rec)); [|injection E as <- <- <-; cbn; lia].
    destruct (os_free a rec); [|done]. injection E as <- <- <-. cbn. lia.
  - injection E as <- <- <-. cbn. lia.
  - destruct (records db !! rec) as [tbl|]; [|done]. cbn [mbind option_bind] in E.
    destruct (aget tbl (key mod 64)) as [x|]; [|done]. injection E as <- <- <-. destruct (negb (x =? 0)); cbn; lia.
  - destruct (records db !! rec) as [tbl|]; [|done]. cbn [mbind option_bind] in E.
    destruct (aset _ _ _) as [l|]; [|done]. injection E as <- <- <-. cbn. lia.
Qed.

(** The state between the steps of an insertion that began in [a0] and [db0]. *)
Record midway a0 db0 a db (pc : insertion) : Prop := Midway {
  mw_all r : is_Some (records db !! r) → installed db r ∨ r = hold pc ∧ r ≠ 0;
  mw_old r : installed db0 r → installed db r;
  mw_live x : os_live a0 x → os_live a x;
  mw_fresh : hold pc ≠ 0 → ¬ os_live a0 (hold pc);
  mw_new x : is_Some (records db !! x) → is_Some (records db0 !! x) ∨ ¬ os_live a0 x;
  mw_out x : os_live a x → os_live a0 x ∨ is_Some (records db !! x) }.

Lemma midway_step key a0 db0 a db pc a' db' pc' :
  table_ok a db → table_ok a' db' → midway a0 db0 a db pc → ins_frame key pc pc' a db a' db' →
  midway a0 db0 a' db' pc'.
Proof.
  intros Ht Ht' [Ha Ho Hl Hf Hn Hout] [K1 K2 K3 K4 K5 Kb Kk K6 K7 _].
  assert (Hins : ∀ r, installed db r → installed db' r) by (intros r (i & Hi & Hr); exists i; auto).
  assert (Hl' : ∀ x, os_live a0 x → os_live a' x).
  { intros x Hx. destruct (decide (x = hold pc)) as [->|Hne]; [|by apply K3; auto].
    destruct (decide (hold pc = 0)) as [E0|Hne]; [|by destruct (Hf Hne)]. rewrite E0 in *.
    apply Hl in Hx. by destruct (os_live_law a 0 (to_inv _ _ Ht) Hx). }
  split; [|auto|done|..].
  - intros r Hr. destruct (K5 r Hr) as [Hr1|(-> & ? & _)]; [|by right].
    destruct (Ha r Hr1) as [Hi|[-> Hr0]]; [left; auto|]. destruct (Kk Hr Hr0) as [?|E]; [by left|right].
    by rewrite E.
  - intros Hne. destruct K7 as [E|[?|[_ Hnl]]]; [rewrite E in *; auto|done|]. intros Hx. apply Hnl. auto.
  - intros x Hx. destruct (K5 x Hx) as [?|(-> & _ & Hnl)]; [auto|]. right. auto.
  - intros x Hx. destruct (K6 x Hx) as [Hx1|[_ ?]]; [|by right]. destruct (Hout x Hx1) as [?|Hr]; [by left|right]. auto.
Qed.

Lemma insert_run_ok fuel key value old a0 db0 a db pc :
  table_ok a db → is_key key → place_ok a db key value old pc → midway a0 db0 a db pc →
  (∀ k, is_key k → k ≠ key → db_get db k = db_get db0 k) → (steps_left db key pc ≤ fuel)%nat →
  ∃ a' db' err, insert_run fuel key value a db pc = Some (a', db', err) ∧ table_ok a' db' ∧
    place_ok a' db' key value old (Return err) ∧ midway a0 db0 a' db' (Return err) ∧
    ∀ k, is_key k → k ≠ key → db_get db' k = db_get db0 k.
Proof.
  intros Ht Hk. revert a db pc Ht. induction fuel as [|fuel IH]; intros a db pc Ht Hp Hm Hg Hf.
  - destruct pc as [? []|?|?| |?|?|err]; cbn in Hf; try (case_decide; lia); try lia. by exists a, db, err.
  - assert ((∃ err, pc = Return err) ∨ ¬ ∃ err, pc = Return err) as [[err ->]|Hnr].
    { destruct pc; [right; by intros [? [=]]..|left; by eexists]. }
    { by exists a, db, err. }
    { destruct (insert_step_ok key value old a db pc Ht Hk Hp) as (a' & db' & pc' & E & Ht' & Hp' & Hfr).
      destruct (steps_decrease key value a db pc a' db' pc' Ht Hk E) as [?|Hs]; [done|].
      destruct (IH a' db' pc' Ht' Hp') as (a2 & db2 & err & E2 & Hr).
      - exact (midway_step key a0 db0 a db pc a' db' pc' Ht Ht' Hm Hfr).
      - intros k Hk' Hne. rewrite (fr_get _ _ _ _ _ _ _ Hfr k Hk' Hne). auto.
      - lia.
      - exists a2, db2, err. split; [|done]. cbn [insert_run]. rewrite E. cbn [mbind option_bind].
        destruct pc; done || (destruct Hnr; by eexists). }
Qed.

Lemma keysdb_insert_ok a db key value :
  kdb_ok a db → is_key key →
  ∃ a' db' err, keysdb_insert a db key value = Some (a', db', err) ∧ kdb_ok a' db' ∧ kdb_grows a db a' db' ∧
    (err = 0 ∧ db_get db key = 0 ∧ db_get db' key = value ∨
     err = EEXIST ∧ db_get db key ≠ 0 ∧ db_get db' key = db_get db key ∨
     err = ENOMEM ∧ db_get db' key = db_get db key) ∧
    ∀ k, is_key k → k ≠ key → db_get db' k = db_get db k.
Proof.
  intros [Ht Ha] Hk.
  destruct (insert_run_ok 7 key value (db_get db key) a db a db (Loop 0 false) Ht Hk)
    as (a' & db' & err & E & Ht' & Hp & Hm & Hg).
  - split; [done|by left].
  - split; [|done|done|done|by left|by left]. intros r Hr. left. auto.
  - done.
  - cbn. case_decide; lia.
  - exists a', db', err. split; [exact E|]. destruct Hm as [M1 M2 M3 _ M5 M6].
    assert (Hall : ∀ r, is_Some (records db' !! r) → installed db' r) by (intros r Hr; by destruct (M1 r Hr) as [?|[-> ?]]).
    assert (Hok : kdb_ok a' db') by (by split). split; [done|]. split; [split|].
    + intros x. split; [apply M6|]. intros [?|Hx]; [auto|]. by eapply kdb_live.
    + done.
    + intros x Hx%Ha%M2. destruct Hx as (i & Hi & Hx0). by eapply to_some.
    + split; [|done]. cbn in Hp. tauto.
Qed.

Lemma keysdb_remove_ok a db key :
  kdb_ok a db → is_key key →
  ∃ db', keysdb_remove db key = Some (db', db_get db key) ∧ kdb_ok a db' ∧
    (∀ x, is_Some (records db' !! x) ↔ is_Some (records db !! x)) ∧
    ∀ k, is_key k → db_get db' k = if decide (k = key) then 0 else db_get db k.
Proof.
  intros [Ht Ha] Hk. unfold keysdb_remove. rewrite (index_eq a db key Ht Hk).
  destruct (lookup_eq a db key Ht Hk) as [_ (r & Hr & Hc)]. rewrite Hr. cbn [mbind option_bind].
  destruct Hc as [[-> Hg]|(Hr0 & tbl & Htbl & Hg)].
  - rewrite Z.eqb_refl, Hg. exists db. split; [done|]. split; [done|]. split; [done|].
    intros k Hk'. case_decide as Ek; [by subst k|done].
  - rewrite (proj2 (Z.eqb_neq r 0) Hr0), Htbl. cbn [mbind option_bind]. rewrite Hg. cbn [mbind option_bind].
    pose proof (aset_Some tbl (key mod 64) 0 (aget_Some_range _ _ _ Hg)) as Hset. rewrite Hset. cbn [mbind option_bind].
    destruct (table_set a db key r tbl _ 0 Ht Hk Hr Hr0 Htbl Hset) as [Ht' Hget].
    assert (Hrec : ∀ x, is_Some (records (with_records db (<[r := <[Z.to_nat (key mod 64) := 0]> tbl]> (records db))) !! x)
                        ↔ is_Some (records db !! x)).
    { intros x. cbn. rewrite lookup_insert. case_decide as Ex; [|done]. subst x. split; [by eexists|by eexists]. }
    eexists. split; [reflexivity|]. split; [|done]. split; [done|]. intros x Hx%Hrec. by apply Ha.
Qed.

Definition key_range (start n k : Z) : Prop := start ≤ k < start + n.

#[export] Instance key_range_dec start n k : Decision (key_range start n k).
Proof. unfold key_range. apply _. Defined.

Lemma key_u32 key : is_key key → u32 key = key.
Proof. unfold is_key. intros. apply u32_small. unfold wsize. lia. Qed.

Lemma bind_loop_ok n a db start i value :
  kdb_ok a db → 0 ≤ start → 0 ≤ i → start + i + Z.of_nat n ≤ 2 ^ 16 →
  ∃ a' db' j err, bind_loop n a db start i value = Some (a', db', j, err) ∧ kdb_ok a' db' ∧ kdb_grows a db a' db' ∧
    i ≤ j ≤ i + Z.of_nat n ∧ (∀ k, key_range (start + i) (j - i) k → db_get db k = 0) ∧
    (∀ k, is_key k → db_get db' k = if decide (key_range (start + i) (j - i) k) then value else db_get db k) ∧
    (err = 0 ∧ j = i + Z.of_nat n ∨
     err = EEXIST ∧ j < i + Z.of_nat n ∧ db_get db (start + j) ≠ 0 ∨ err = ENOMEM).
Proof.
  revert a db i. induction n as [|n IH]; intros a db i Hok Hs Hi Hr.
  - exists a, db, i, 0. split; [done|]. split; [done|]. split; [by apply kdb_grows_refl|]. split; [lia|].
    split; [intros k Hk; unfold key_range in Hk; lia|]. split; [|left; lia].
    intros k Hk. rewrite decide_False; [done|]. unfold key_range. lia.
  - cbn [bind_loop]. assert (Hk : is_key (start + i)) by (unfold is_key; lia). rewrite (key_u32 _ Hk).
    destruct (keysdb_insert_ok a db (start + i) value Hok Hk) as (a1 & db1 & err & E & Hok1 & Hg1 & Hc & Ho).
    rewrite E. cbn [mbind option_bind].
    destruct (decide (err = 0)) as [->|He].
    + rewrite Z.eqb_refl. cbn [negb]. destruct Hc as [(_ & H0 & Hv)|[(? & _)|(? & _)]]; [|done|done].
      destruct (IH a1 db1 (i + 1) Hok1 Hs ltac:(lia) ltac:(lia)) as (a2 & db2 & j & err & E2 & Hok2 & Hg2 & Hj & Hz & Hget & Hc2).
      exists a2, db2, j, err. split; [done|]. split; [done|]. split; [by eapply kdb_grows_trans|]. split; [lia|].
      assert (Hold : ∀ k, is_key k → k ≠ start + i → db_get db1 k = db_get db k) by done.
      split; [|split].
      * intros k Hk'. unfold key_range in Hk'. destruct (decide (k = start + i)) as [->|Hne]; [done|].
        rewrite <- Hold by (unfold is_key; lia). apply Hz. unfold key_range. lia.
      * intros k Hk'. rewrite (Hget k Hk'). unfold key_range. destruct (decide (k = start + i)) as [->|Hne].
        -- rewrite decide_False, decide_True by lia. done.
        -- rewrite (Hold k Hk' Hne). repeat case_decide; (done || lia).
      * destruct Hc2 as [[-> ->]|[(-> & Hlt & Hne)| ->]]; [left; lia|right; left|by right; right].
        split; [done|]. split; [lia|]. rewrite <- (Hold (start + j)); [done|unfold is_key; lia|lia].
    + rewrite (proj2 (Z.eqb_neq err 0) He). cbn [negb]. exists a1, db1, i, err. split; [done|]. split; [done|].
      split; [done|]. split; [lia|]. split; [intros k Hk'; unfold key_range in Hk'; lia|].
      assert (Hsame : db_get db1 (start + i) = db_get db (start + i)) by (destruct Hc as [(? & _)|[(_ & _ & ?)|(_ & ?)]]; done).
      split.
      * intros k Hk'. rewrite decide_False by (unfold key_range; lia). destruct (decide (k = start + i)) as [->|]; auto.
      * right. destruct Hc as [(? & _)|[(-> & ? & _)|(-> & _)]]; [done|left; split; [done|]; split; [lia|done]|by right].
Qed.

Lemma undo_loop_ok i a db start :
  kdb_ok a db → 0 ≤ start → start + Z.of_nat i ≤ 2 ^ 16 →
  ∃ db', undo_loop i db start = Some db' ∧ kdb_ok a db' ∧
    (∀ x, is_Some (records db' !! x) ↔ is_Some (records db !! x)) ∧
    ∀ k, is_key k → db_get db' k = if decide (key_range start (Z.of_nat i) k) then 0 else db_get db k.
Proof.
  revert db. induction i as [|i IH]; intros db Hok Hs Hr.
  - exists db. split; [done|]. split; [done|]. split; [done|]. intros k _. rewrite decide_False; [done|]. unfold key_range. lia.
  - cbn [undo_loop]. assert (Hk : is_key (start + Z.of_nat i)) by (unfold is_key; lia). rewrite (key_u32 _ Hk).
    destruct (keysdb_remove_ok a db _ Hok Hk) as (db1 & -> & Hok1 & Hx1 & Hg1). cbn [mbind option_bind].
    destruct (IH db1 Hok1 Hs ltac:(lia)) as (db2 & -> & Hok2 & Hx2 & Hg2). exists db2. split; [done|]. split; [done|].
    split; [intros x; by rewrite Hx2, Hx1|]. intros k Hk'. rewrite (Hg2 k Hk'), (Hg1 k Hk'). unfold key_range.
    repeat case_decide; (done || lia).
Qed.

Lemma unbind_loop_ok n a db start i :
  kdb_ok a db → 0 ≤ start → 0 ≤ i → start + i + Z.of_nat n ≤ 2 ^ 16 →
  ∃ db', unbind_loop n db start i = Some db' ∧ kdb_ok a db' ∧
    (∀ x, is_Some (records db' !! x) ↔ is_Some (records db !! x)) ∧
    ∀ k, is_key k → db_get db' k = if decide (key_range (start + i) (Z.of_nat n) k) then 0 else db_get db k.
Proof.
  revert db i. induction n as [|n IH]; intros db i Hok Hs Hi Hr.
  - exists db. split; [done|]. split; [done|]. split; [done|]. intros k _. rewrite decide_False; [done|]. unfold key_range. lia.
  - cbn [unbind_loop]. assert (Hk : is_key (start + i)) by (unfold is_key; lia). rewrite (key_u32 _ Hk).
    destruct (keysdb_remove_ok a db _ Hok Hk) as (db1 & -> & Hok1 & Hx1 & Hg1). cbn [mbind option_bind].
    destruct (IH db1 (i + 1) Hok1 Hs ltac:(lia) ltac:(lia)) as (db2 & -> & Hok2 & Hx2 & Hg2). exists db2.
    split; [done|]. split; [done|]. split; [intros x; by rewrite Hx2, Hx1|].
    intros k Hk'. rewrite (Hg2 k Hk'), (Hg1 k Hk'). unfold key_range. repeat case_decide; (done || lia).
Qed.

Lemma keysdb_bind_ok a db start n value :
  kdb_ok a db → 0 ≤ start → 0 ≤ n → start + n ≤ 2 ^ 16 →
  ∃ a' db' err, keysdb_bind a db start n value = Some (a', db', err) ∧ kdb_ok a' db' ∧ kdb_grows a db a' db' ∧
    (err = 0 ∧ (∀ k, key_range start n k → db_get db k = 0) ∧
       (∀ k, is_key k → db_get db' k = if decide (key_range start n k) then value else db_get db k) ∨
     (err = EEXIST ∧ (∃ k, key_range start n k ∧ db_get db k ≠ 0) ∨ err = ENOMEM) ∧
       ∀ k, is_key k → db_get db' k = db_get db k).
Proof.
  intros Hok Hs Hn Hr. unfold keysdb_bind.
  destruct (bind_loop_ok (Z.to_nat n) a db start 0 value Hok Hs ltac:(lia) ltac:(lia))
    as (a1 & db1 & j & err & -> & Hok1 & Hg & Hj & Hz & Hget & Hc). cbn [mbind option_bind].
  rewrite Z.add_0_r in *. rewrite Z.sub_0_r in *. rewrite Z.add_0_l, Z2Nat.id in * by lia.
  destruct Hc as [[-> ->]|Hc].
  - exists a1, db1, 0. split; [done|]. split; [done|]. split; [done|]. left. done.
  - assert (He : err ≠ 0) by (destruct Hc as [(-> & _)| ->]; done).
    rewrite (proj2 (Z.eqb_neq err 0) He). cbn [negb].
    destruct (undo_loop_ok (Z.to_nat j) a1 db1 start Hok1 Hs ltac:(lia)) as (db2 & -> & Hok2 & Hx2 & Hg2).
    cbn [mbind option_bind]. exists a1, db2, err. split; [done|]. split; [done|]. split.
    { destruct Hg as [L N O]. split; [|intros x Hx%Hx2; auto|intros x Hx; apply Hx2; auto].
      intros x. rewrite L. by rewrite Hx2. }
    right. split; [destruct Hc as [(-> & Hlt & Hne)| ->]; [left; split; [done|]|by right];
      exists (start + j); unfold key_range; split; [lia|done]|].
    intros k Hk. rewrite (Hg2 k Hk), (Hget k Hk), Z2Nat.id by lia. case_decide as Hin; [|done].
    symmetry. by apply Hz.
Qed.

Lemma keysdb_unbind_ok a db start n :
  kdb_ok a db → 0 ≤ start → 0 ≤ n → start + n ≤ 2 ^ 16 →
  ∃ db', keysdb_unbind db start n = Some db' ∧ kdb_ok a db' ∧
    (∀ x, is_Some (records db' !! x) ↔ is_Some (records db !! x)) ∧
    ∀ k, is_key k → db_get db' k = if decide (key_range start n k) then 0 else db_get db k.
Proof.
  intros Hok Hs Hn Hr. unfold keysdb_unbind.
  destruct (unbind_loop_ok (Z.to_nat n) a db start 0 Hok Hs ltac:(lia) ltac:(lia)) as (db' & -> & Hok' & Hx & Hg).
  exists db'. rewrite Z.add_0_r, Z2Nat.id in Hg by lia. done.
Qed.
End invariant.
