(* ===== verification/KeysdbSys.v ===== *)
(** * The database of keys under concurrency

    Threads that insert different keys at the same time, as the page fault handler does; and the
    database as a whole: initialisation, the insertion with and without the compare-and-swap, and
    the destruction. *)

From S2P Require Import Prelude Bits Kcm KcmSpec Objects Threads Keysdb.

Open Scope Z_scope.

Section insertions.
Context {A : Type} `{OS : ObjectSource A} `{OL : !ObjectSourceLaws A}.
Implicit Types (a : A) (db : keysdb_s).

(** ** Threads *)

(** A thread that inserts [jkey] with [jvalue]; [None] is a fault. *)
Record job := Job { jkey : Z; jvalue : Z; jpc : option insertion }.

Definition tstep (t : Z) (s : A * keysdb_s) (j : job) : list ((A * keysdb_s) * job) :=
  match jpc j with
  | Some (Return _) | None => []
  | Some pc =>
      match insert_step (jkey j) (jvalue j) (fst s) (snd s) pc with
      | Some (a, db, pc) => [((a, db), Job (jkey j) (jvalue j) (Some pc))]
      | None => [(s, Job (jkey j) (jvalue j) None)]
      end
  end.

(** The threads at the beginning. *)
Definition starting (ts : gmap Z job) : Prop :=
  (∀ t j, ts !! t = Some j → is_key (jkey j) ∧ jvalue j ≠ 0 ∧ jpc j = Some (Loop 0 false)) ∧
  ∀ t u j j', ts !! t = Some j → ts !! u = Some j' → jkey j = jkey j' → t = u.

(** The invariant of the system; [get0] are the values at the beginning. *)
Record sys_ok (get0 : Z → Z) (w : sys (A * keysdb_s) job) : Prop := SysOk {
  so_table : table_ok (fst (fst w)) (snd (fst w));
  so_place t j : snd w !! t = Some j → is_key (jkey j) ∧
    ∃ pc, jpc j = Some pc ∧ place_ok (fst (fst w)) (snd (fst w)) (jkey j) (jvalue j) (get0 (jkey j)) pc;
  so_keys t u j j' : snd w !! t = Some j → snd w !! u = Some j' → jkey j = jkey j' → t = u;
  so_hold t u j j' pc pc' : snd w !! t = Some j → snd w !! u = Some j' → jpc j = Some pc → jpc j' = Some pc' →
    hold pc = hold pc' → hold pc ≠ 0 → t = u;
  so_other k : is_key k → (∀ t j, snd w !! t = Some j → jkey j ≠ k) → db_get (snd (fst w)) k = get0 k;
  so_leak r : is_Some (records (snd (fst w)) !! r) →
    installed (snd (fst w)) r ∨ ∃ t j pc, snd w !! t = Some j ∧ jpc j = Some pc ∧ hold pc = r ∧ r ≠ 0 }.

(** What another thread relies on survives a step. *)
Lemma place_stable key pc k v o pk a db a' db' pc' :
  table_ok a db → is_key k → k ≠ key → place_ok a db k v o pk →
  ins_frame key pc pc' a db a' db' → (hold pk = hold pc → hold pk = 0) → (hold pk = hold pc' → hold pk = 0) →
  table_ok a' db' → place_ok a' db' k v o pk.
Proof.
  intros Ht Hk Hne Hp Hfr Hh Hh' Ht'. pose proof (fr_get _ _ _ _ _ _ _ Hfr k Hk Hne) as Hg.
  assert (Hslot : aget (root db) (k / 64) ≠ Some 0 → aget (root db') (k / 64) = aget (root db) (k / 64)).
  { destruct (root_get a db k Ht Hk) as [r Hr]. rewrite Hr. intros Hr0.
    apply (fr_kept _ _ _ _ _ _ _ Hfr); [done|congruence]. }
  assert (Hloose : ∀ r, hold pk = r → loose a db r → loose a' db' r).
  { intros r <- (Hr0 & Hlv & Hrec & Hni). split; [done|]. split; [|split].
    - apply (fr_live _ _ _ _ _ _ _ Hfr); [done|]. intros E. by apply Hr0, Hh.
    - rewrite (fr_rec _ _ _ _ _ _ _ Hfr); [done| | |done]; intros E; [by apply Hr0, Hh|by apply Hr0, Hh'].
    - intros (i & Hi & _). destruct (fr_new _ _ _ _ _ _ _ Hfr i _ Hi Hr0) as [Hi'|E]; [apply Hni; by exists i|].
      by apply Hr0, Hh. }
  destruct pk as [rec b|rec|rec| |rec|rec|err]; cbn [place_ok hold] in *; rewrite Hg.
  - destruct Hp as [Hp1 Hp2]. split; [done|]. destruct b.
    + destruct Hp2 as [Hr0 Hs]. split; [done|]. rewrite Hslot; [done|congruence].
    + destruct Hp2 as [->|Hl]; [by left|right; by apply Hloose].
  - destruct Hp as [Hp1 Hp2]. split; [done|by apply Hloose].
  - destruct Hp as (Hp1 & Hs & Hp2). split; [done|]. rewrite (Hslot Hs). split; [done|].
    destruct Hp2 as [->|[?|Hl]]; [by left|by right; left|right; right; by apply Hloose].
  - destruct Hp as [Hp1 Hs]. split; [done|]. by rewrite Hslot.
  - destruct Hp as (Hp1 & Hr0 & Hs). split; [done|]. split; [done|]. rewrite Hslot; [done|congruence].
  - destruct Hp as (Hp1 & Hr0 & Hs & ?). split; [done|]. split; [done|]. rewrite Hslot; [done|congruence].
  - done.
Qed.

Lemma hold_live key value old pc a db :
  table_ok a db → place_ok a db key value old pc → hold pc ≠ 0 → os_live a (hold pc).
Proof.
  intros Ht Hp H0. destruct pc as [rec b|rec|rec| | | |]; cbn [hold place_ok] in *; try done.
  - destruct b, Hp as [_ Hp]; [by eapply to_rec; [|apply Hp|]|]. destruct Hp as [?|Hl]; [done|apply Hl].
  - apply Hp.
  - destruct Hp as (_ & _ & [?|[Hs|Hl]]); [done|by eapply to_rec|apply Hl].
Qed.

Lemma insertion_step get0 s ts t j s' j' :
  sys_ok get0 (s, ts) → ts !! t = Some j → (s', j') ∈ tstep t s j →
  sys_ok get0 (s', <[t := j']> ts).
Proof.
  destruct s as [a db]. intros [Ht Hp Hk Hh Ho Hl] Hj Hin. cbn [fst snd] in *.
  destruct (Hp t j Hj) as (Hkey & pc & Epc & Hpc).
  destruct (insert_step_ok (jkey j) (jvalue j) _ a db pc Ht Hkey Hpc) as (a' & db' & pc' & E & Ht' & Hpc' & Hfr).
  assert (Hs : s' = (a', db') ∧ j' = Job (jkey j) (jvalue j) (Some pc')).
  { unfold tstep in Hin. rewrite Epc in Hin. cbn [fst snd] in Hin. rewrite E in Hin.
    destruct pc; try (by apply elem_of_nil in Hin); apply list_elem_of_singleton in Hin; by simplify_eq. }
  destruct Hs as [-> ->]. clear Hin. pose proof (hold_live _ _ _ _ _ _ Ht Hpc) as Hlive.
  assert (Hsep : ∀ u ju pu, u ≠ t → ts !! u = Some ju → jpc ju = Some pu → hold pu ≠ 0 →
            hold pu ≠ hold pc ∧ hold pu ≠ hold pc').
  { intros u ju pu Hne Hu Epu Hpu0. assert (H1 : hold pu ≠ hold pc) by (intros Eh; by apply Hne, (Hh u t ju j pu pc)).
    split; [done|]. destruct (fr_hold _ _ _ _ _ _ _ Hfr) as [->|[->|[_ Hnl]]]; [done|done|].
    intros Eh. apply Hnl. rewrite <- Eh. destruct (Hp u ju Hu) as (_ & pu' & Epu' & Hpu). rewrite Epu in Epu'.
    injection Epu' as <-. by eapply hold_live. }
  split; cbn [fst snd].
  - done.
  - intros u ju. rewrite lookup_insert. case_decide as Eu.
    + intros [= <-]. split; [done|]. exists pc'. by split.
    + intros Hu. destruct (Hp u ju Hu) as (Hku & pu & Epu & Hpu). split; [done|]. exists pu. split; [done|].
      eapply (place_stable (jkey j) pc (jkey ju)); [exact Ht|done| |exact Hpu|exact Hfr| | |done].
      * intros Ek. apply Eu. by eapply Hk.
      * intros Eh. destruct (decide (hold pu = 0)) as [|Hne]; [done|]. by destruct (Hsep u ju pu (not_eq_sym Eu) Hu Epu Hne).
      * intros Eh. destruct (decide (hold pu = 0)) as [|Hne]; [done|]. by destruct (Hsep u ju pu (not_eq_sym Eu) Hu Epu Hne).
  - intros u v ju jv. rewrite !lookup_insert. repeat case_decide; subst; try done.
    + intros [= <-] Hv Ek. by eapply Hk.
    + intros Hu [= <-] Ek. by eapply Hk.
    + by apply Hk.
  - intros u v ju jv pu pv. rewrite !lookup_insert. repeat case_decide; subst; try done.
    + intros [= <-] Hv [= <-] Epv Eh Hne. rewrite Eh in Hne. by destruct (Hsep v jv pv ltac:(done) Hv Epv Hne).
    + intros Hu [= <-] Epu [= <-] Eh Hne. by destruct (Hsep u ju pu ltac:(done) Hu Epu Hne).
    + by apply Hh.
  - intros k Hk' Hno. assert (Hkj : k ≠ jkey j).
    { intros ->. by apply (Hno t (Job (jkey j) (jvalue j) (Some pc'))); [rewrite lookup_insert_eq|]. }
    rewrite (fr_get _ _ _ _ _ _ _ Hfr k Hk' Hkj). apply Ho; [done|]. intros u ju Hu.
    destruct (decide (u = t)) as [->|Hne]; [congruence|]. apply (Hno u). by rewrite lookup_insert_ne.
  - intros r Hr. destruct (fr_back _ _ _ _ _ _ _ Hfr r Hr) as [Hr1|(-> & Hr0 & _)].
    + destruct (Hl r Hr1) as [(i & Hi & Hr0)|(u & ju & pu & Hu & Epu & Eh & Hr0)].
      * left. exists i. split; [|done]. by apply (fr_kept _ _ _ _ _ _ _ Hfr).
      * destruct (decide (u = t)) as [->|Hne].
        -- rewrite Hj in Hu. injection Hu as <-. rewrite Epc in Epu. injection Epu as <-. subst r.
           destruct (fr_keep _ _ _ _ _ _ _ Hfr Hr Hr0) as [?|Eh]; [by left|right].
           exists t. eexists _, pc'. by rewrite lookup_insert_eq.
        -- right. exists u, ju, pu. by rewrite lookup_insert_ne.
    + right. exists t. eexists _, pc'. by rewrite lookup_insert_eq.
Qed.

Lemma starting_ok a db ts : kdb_ok a db → starting ts → sys_ok (db_get db) ((a, db), ts).
Proof.
  intros [Ht Ha] [Hs Hd]. split; cbn [fst snd].
  - done.
  - intros t j Hj. destruct (Hs t j Hj) as (Hk & _ & E). split; [done|]. exists (Loop 0 false). split; [done|].
    split; [done|by left].
  - done.
  - intros t u j j' pc pc' Hj _ E _ _ Hh. destruct (Hs t j Hj) as (_ & _ & E'). rewrite E in E'. by injection E' as ->.
  - done.
  - intros r Hr. left. auto.
Qed.

(** ** The database as a whole *)

Lemma keysdb_init_ok a pg db :
  os_inv a → keysdb_init pg 16 = Some (inl db) →
  kdb_ok a db ∧ records db = ∅ ∧ ∀ k, is_key k → db_get db k = 0.
Proof.
  intros Hi E. unfold keysdb_init in E. change (bits_log2 (PMM_PAGE_SIZE / 4) + KEYS_PER_REC_LOG2 =? 16) with true in E.
  cbn [cassert mbind option_bind] in E. destruct (pg =? 0); [done|]. injection E as <-.
  assert (Hz : ∀ i r, aget (replicate (Z.to_nat (PMM_PAGE_SIZE / 4)) 0) i = Some r → r = 0).
  { intros i r. unfold aget. case_match; [|done]. by intros [-> _]%lookup_replicate. }
  assert (Ht : table_ok a (Keysdb (replicate (Z.to_nat (PMM_PAGE_SIZE / 4)) 0) ∅ (PMM_PAGE_SIZE / 4)
                 (bits_log2 (PMM_PAGE_SIZE / 4)) 16 KEYS_PER_REC pg)).
  { split; cbn [root records records_nr records_bits key_width]; try done.
    - intros i r Hr%Hz. done.
    - intros i r Hr%Hz. done.
    - intros i j r Hr%Hz. done. }
  split; [split; [done|]; by intros r [? ?]|]. split; [done|]. intros k Hk.
  destruct (lookup_eq a _ k Ht Hk) as [_ (r & Hr & [[_ ?]|(Hr0 & _)])]; [done|]. cbn [root] in Hr. by apply Hz in Hr.
Qed.

Lemma insert_run_S n key value a db pc :
  match pc with Return _ => False | _ => True end →
  insert_run (S n) key value a db pc = ('(a, db, pc) ← insert_step key value a db pc; insert_run n key value a db pc).
Proof. by destruct pc. Qed.

(** Without interference the insertion with the compare-and-swap is the sequential one. *)
Lemma insert_seq_eq a db key value :
  kdb_ok a db → is_key key → keysdb_insert_seq a db key value = keysdb_insert a db key value.
Proof.
  intros [Ht _] Hk. destruct (lookup_eq a db key Ht Hk) as [_ (r & Hr & Hc)].
  assert (Hidx : ∀ l m, keysdb_index (with_records (with_root db l) m) key = (key / 64, key mod 64)).
  { intros l m. exact (index_eq a db key Ht Hk). }
  assert (Hidx0 : keysdb_index db key = (key / 64, key mod 64)) by exact (index_eq a db key Ht Hk).
  assert (Hidx1 : ∀ m, keysdb_index (with_records db m) key = (key / 64, key mod 64)) by (intros m; exact Hidx0).
  assert (Hidx2 : ∀ m l, keysdb_index (with_root (with_records db m) l) key = (key / 64, key mod 64)) by (intros m l; exact Hidx0).
  unfold keysdb_insert_seq, keysdb_insert. rewrite Hidx0, Hr. cbn [mbind option_bind].
  rewrite insert_run_S by exact I. unfold insert_step at 1. rewrite Hidx0, Hr. cbn [mbind option_bind negb].
  rewrite andb_true_r. destruct Hc as [[-> _]|(Hr0 & tbl & Htbl & Hg)].
  - rewrite !Z.eqb_refl. destruct (os_alloc_law a (to_inv _ _ Ht)) as (a' & p & -> & Hi & Hc). cbn [mbind option_bind].
    pose proof (aset_Some (root db) (key / 64) p (aget_Some_range _ _ _ Hr)) as Hl. rewrite Hl. cbn [mbind option_bind].
    pose proof (aget_aset_eq _ _ _ _ Hl) as Hnew. destruct (Z.eqb_spec p 0) as [->|Hp0].
    + cbn [root with_root]. rewrite Hnew. cbn [mbind option_bind]. rewrite Z.eqb_refl. cbn [mbind option_bind insert_run].
      unfold with_root. rewrite list_insert_id; [by destruct db|].
      destruct (aget_Some_range _ _ _ Hr) as [H1 H2]. unfold aget in Hr. by rewrite (proj2 (Z.leb_le _ _) H1) in Hr.
    + cbn [root with_root with_records records]. rewrite Hnew. cbn [mbind option_bind].
      rewrite (proj2 (Z.eqb_neq p 0) Hp0), lookup_insert_eq. cbn [mbind option_bind].
      assert (He : aget empty_record (key mod 64) = Some 0).
      { destruct (aget_range empty_record (key mod 64)) as [x Hx]; [pose proof (slot_range key Hk); change (length empty_record) with 64%nat; lia|]. rewrite Hx.
        unfold aget in Hx. case_match; [|done]. by apply lookup_replicate in Hx as [-> _]. }
      rewrite He. cbn [mbind option_bind].
      pose proof (aset_Some empty_record (key mod 64) value (aget_Some_range _ _ _ He)) as Hset.
      rewrite Hset. cbn [mbind option_bind Z.eqb negb].
      do 6 (rewrite insert_run_S by exact I; unfold insert_step at 1;
        rewrite ?Hidx1, ?Hidx2; cbn [root with_root with_records records];
        rewrite ?Hr, ?Hnew; cbn [mbind option_bind]; rewrite ?Z.eqb_refl, ?(proj2 (Z.eqb_neq p 0) Hp0);
        rewrite ?Hl, ?lookup_insert_eq; cbn [mbind option_bind andb negb];
        rewrite ?He, ?Hset; cbn [mbind option_bind Z.eqb negb root with_root with_records records];
        rewrite ?Z.eqb_refl; cbn [andb negb]).
      reflexivity.
  - rewrite (proj2 (Z.eqb_neq r 0) Hr0). cbn [mbind option_bind]. rewrite Hr. cbn [mbind option_bind].
    rewrite (proj2 (Z.eqb_neq r 0) Hr0), Htbl. cbn [mbind option_bind]. rewrite Hg. cbn [mbind option_bind].
    do 3 (rewrite insert_run_S by exact I; unfold insert_step at 1; rewrite Hidx0, ?Hr, ?Htbl; cbn [mbind option_bind];
      rewrite ?Hg; cbn [mbind option_bind andb negb Z.eqb]).
    destruct (Z.eqb_spec (db_get db key) 0); cbn [negb]; [|reflexivity].
    pose proof (aset_Some tbl (key mod 64) value (aget_Some_range _ _ _ Hg)) as Hset. rewrite Hset. cbn [mbind option_bind].
    rewrite insert_run_S by exact I. unfold insert_step at 1. rewrite Hidx0, Htbl. cbn [mbind option_bind]. rewrite Hset.
    reflexivity.
Qed.

Lemma destroy_loop_ok n a db i :
  os_inv a → length (root db) = 1024%nat → 0 ≤ i → i + Z.of_nat n = 1024 →
  (∀ j r, i ≤ j → aget (root db) j = Some r → r ≠ 0 → os_live a r) →
  (∀ j k r, aget (root db) j = Some r → aget (root db) k = Some r → r ≠ 0 → j = k) →
  ∃ a', destroy_loop n a db i = Some a' ∧ os_inv a' ∧
    ∀ x, os_live a' x ↔ os_live a x ∧ ¬ ∃ j, i ≤ j ∧ aget (root db) j = Some x ∧ x ≠ 0.
Proof.
  revert a i. induction n as [|n IH]; intros a i Hi Hlen H0 Hn Hl Hinj.
  - exists a. split; [done|]. split; [done|]. intros x. split; [|tauto]. intros Hx. split; [done|].
    intros (j & Hj & Hr & _). apply aget_Some_range in Hr. lia.
  - cbn [destroy_loop]. destruct (aget_range (root db) i) as [r Hr]; [lia|]. rewrite Hr. cbn [mbind option_bind].
    assert (Hsplit : ∀ x, (∃ j, i ≤ j ∧ aget (root db) j = Some x ∧ x ≠ 0) ↔
              x = r ∧ r ≠ 0 ∨ ∃ j, i + 1 ≤ j ∧ aget (root db) j = Some x ∧ x ≠ 0).
    { intros x. split.
      - intros (j & Hj & Hx & Hx0). destruct (decide (j = i)) as [->|]; [left; by simplify_eq|right; exists j; split; [lia|done]].
      - intros [[-> ?]|(j & Hj & Hx)]; [by exists i|exists j; split; [lia|done]]. }
    destruct (Z.eqb_spec r 0) as [->|Hr0].
    + destruct (IH a (i + 1)) as (a' & E & Hi' & Hx); [done|done|lia|lia|intros j q Hj; apply Hl; lia|done|].
      exists a'. split; [done|]. split; [done|]. intros x. rewrite Hx, Hsplit. tauto.
    + destruct (os_free_law a r Hi) as (a1 & -> & Hi1 & Hl1); [by apply (Hl i)|]. cbn [mbind option_bind].
      destruct (IH a1 (i + 1)) as (a' & E & Hi' & Hx); [done|done|lia|lia| |done|].
      { intros j q Hj Hq Hq0. apply Hl1. split; [apply (Hl j); [lia|done|done]|]. intros ->.
        pose proof (Hinj i j r Hr Hq Hr0). lia. }
      exists a'. split; [done|]. split; [done|]. intros x. rewrite Hx, Hl1, Hsplit. tauto.
Qed.

(** Destruction gives back the records and nothing else. *)
Lemma keysdb_destroy_ok a db :
  kdb_ok a db →
  ∃ a', keysdb_destroy a db = Some (a', page db) ∧ os_inv a' ∧
    ∀ x, os_live a' x ↔ os_live a x ∧ ¬ is_Some (records db !! x).
Proof.
  intros [Ht Ha]. unfold keysdb_destroy. rewrite (to_nr _ _ Ht).
  destruct (destroy_loop_ok (Z.to_nat 1024) a db 0) as (a' & E & Hi & Hx);
    [apply Ht|apply Ht|lia|lia|intros j r _; by apply (to_rec _ _ Ht)|apply (to_inj _ _ Ht)|].
  rewrite E. exists a'. split; [done|]. split; [done|]. intros x. rewrite Hx.
  assert ((∃ j, 0 ≤ j ∧ aget (root db) j = Some x ∧ x ≠ 0) ↔ is_Some (records db !! x)) as ->; [|done].
  split.
  - intros (j & _ & Hj & Hx0). by eapply to_some.
  - intros (j & Hj & Hx0)%Ha. exists j. split; [|done]. apply aget_Some_range in Hj. lia.
Qed.
End insertions.

(** ** Results *)

(** C27. Threads that insert different keys at the same time do not disturb one another: no step
    faults, a thread that has returned 0 finds its value in the database, EEXIST is returned for
    the keys that were there before, which keep their value, as do all keys that no thread
    inserts; and once all threads have returned every record that was allocated is in the
    table. *)
Theorem keysdb_inserts_concurrent {A} `{OS : ObjectSource A} `{!ObjectSourceLaws A} (a0 a : A) db0 db ts0 ts :
  kdb_ok a0 db0 → starting ts0 → rtc (sstep tstep) ((a0, db0), ts0) ((a, db), ts) →
  (∀ t j, ts !! t = Some j → ∃ pc, jpc j = Some pc ∧ ∀ err, pc = Return err →
     err = 0 ∧ db_get db0 (jkey j) = 0 ∧ keysdb_lookup db (jkey j) = Some (jvalue j) ∨
     err = EEXIST ∧ db_get db0 (jkey j) ≠ 0 ∧ keysdb_lookup db (jkey j) = keysdb_lookup db0 (jkey j) ∨
     err = ENOMEM ∧ keysdb_lookup db (jkey j) = keysdb_lookup db0 (jkey j)) ∧
  (∀ k, is_key k → (∀ t j, ts !! t = Some j → jkey j ≠ k) → keysdb_lookup db k = keysdb_lookup db0 k) ∧
  ((∀ t j, ts !! t = Some j → ∃ err, jpc j = Some (Return err)) → kdb_ok a db).
Proof.
  intros Hok Hs Hr.
  assert (Hinv : sys_ok (db_get db0) ((a, db), ts)).
  { eapply sys_invariant; [|exact Hr|by apply starting_ok]. intros. by eapply insertion_step. }
  destruct Hinv as [Ht Hp _ _ Ho Hl]. cbn [fst snd] in *.
  assert (Hlk : ∀ k, is_key k → keysdb_lookup db k = Some (db_get db k) ∧ keysdb_lookup db0 k = Some (db_get db0 k)).
  { intros k Hk. split; [by apply (lookup_eq a)|by apply (lookup_eq a0), Hk; apply Hok]. }
  split; [|split].
  - intros t j Hj. destruct (Hp t j Hj) as (Hk & pc & E & Hpc). exists pc. split; [done|]. intros err ->.
    destruct (Hlk _ Hk) as [El El0]. cbn [place_ok] in Hpc. rewrite El, El0.
    destruct Hpc as [(? & ? & Eg)|[(? & ? & Eg)|(? & Eg)]]; rewrite Eg; auto 10.
  - intros k Hk Hno. destruct (Hlk _ Hk) as [-> ->]. by rewrite Ho.
  - intros Hret. split; [done|]. intros r Hrec. destruct (Hl r Hrec) as [?|(t & j & pc & Hj & E & Eh & Hr0)]; [done|].
    destruct (Hret t j Hj) as [err E']. rewrite E in E'. injection E' as ->. by subst r.
Qed.

(** A database on a cache of objects, and two threads that insert keys of the same record. *)
Definition ex_records : option (cache * keysdb_s) :=
  c ← ex_objects;
  db ← keysdb_init 1 16;
  match db with inl db => Some (c, db) | inr _ => None end.

Definition ex_jobs : gmap Z job :=
  {[1 := Job 0x1000 0x11 (Some (Loop 0 false)); 2 := Job 0x1001 0x22 (Some (Loop 0 false))]}.

Lemma ex_records_ok : ∃ c db, ex_records = Some (c, db) ∧ kdb_ok c db.
Proof.
  destruct ex_objects_ok as (c & E & Hi). unfold ex_records. rewrite E. cbn [mbind option_bind].
  destruct (keysdb_init 1 16) as [[db|]|] eqn:Ei; [|by vm_compute in Ei..]. cbn [mbind option_bind].
  exists c, db. split; [done|]. by apply (keysdb_init_ok c 1 db).
Qed.

Lemma ex_jobs_starting : starting ex_jobs.
Proof.
  split.
  - intros t j. unfold ex_jobs. rewrite lookup_insert_Some, lookup_singleton_Some. by intros [[_ <-]|(_ & _ & <-)].
  - intros t u j j'. unfold ex_jobs. rewrite !lookup_insert_Some, !lookup_singleton_Some.
    intros [[<- <-]|(_ & <- & <-)] [[<- <-]|(_ & <- & <-)]; done.
Qed.

(** Both threads allocate a record before one of them installs its own. *)
Definition ex_schedule : list (Z * nat) :=
  (λ t, (t, 0%nat)) <$> [1; 2; 1; 2; 1; 1; 2; 2; 1; 1; 1; 2; 2; 2].

(** Where the threads are, and the values of the two keys. *)
Definition ex_outcome (w : (cache (A := page_pool) * keysdb_s) * gmap Z job) : gmap Z (option insertion) * (option Z * option Z) :=
  (jpc <$> w.2, (keysdb_lookup w.1.2 0x1000, keysdb_lookup w.1.2 0x1001)).

Lemma keysdb_inserts_concurrent_witness :
  ∃ c db c' db' ts', ex_records = Some (c, db) ∧ kdb_ok c db ∧ starting ex_jobs ∧
    run tstep ((c, db), ex_jobs) ex_schedule = Some ((c', db'), ts') ∧ kdb_ok c' db' ∧
    keysdb_lookup db' 0x1000 = Some 0x11 ∧ keysdb_lookup db' 0x1001 = Some 0x22.
Proof.
  destruct ex_records_ok as (c & db & E & Hok).
  assert (Hrun : (p ← ex_records; w ← run tstep (p, ex_jobs) ex_schedule; Some (ex_outcome w))
    = Some ({[1 := Some (Return 0); 2 := Some (Return 0)]}, (Some 0x11, Some 0x22))) by (vm_compute; reflexivity).
  rewrite E in Hrun. cbn [mbind option_bind] in Hrun.
  destruct (run tstep ((c, db), ex_jobs) ex_schedule) as [[[c' db'] ts']|] eqn:Er; [|done].
  cbn [mbind option_bind] in Hrun. unfold ex_outcome in Hrun. cbn [fst snd] in Hrun.
  pose proof (f_equal (λ o, default ∅ (fst <$> o)) Hrun) as H1. injection Hrun as _ H2 H3.
  cbn [fmap option_fmap option_map default from_option id fst snd] in H1.
  exists c, db, c', db', ts'. split; [exact E|]. split; [exact Hok|]. split; [exact ex_jobs_starting|]. split; [exact Er|].
  split; [|split; [exact H2|exact H3]].
  destruct (keysdb_inserts_concurrent c c' db db' ex_jobs ts' Hok ex_jobs_starting (run_rtc _ _ _ _ Er)) as (_ & _ & Hend).
  apply Hend. intros t j Hj. exists 0. assert (Hl : (jpc <$> ts') !! t = Some (jpc j)) by (rewrite lookup_fmap, Hj; reflexivity).
  rewrite H1, lookup_insert_Some, lookup_singleton_Some in Hl. destruct Hl as [[_ <-]|(_ & _ & <-)]; reflexivity.
Defined.
