(* ===== verification/Vmm.v ===== *)
(** * The virtual memory manager (src/kernel/mm/vmm.c, vm_region.c, kern/sys_mmap.c, sys_sbrk.c)

    An address space is its regions ([VmRegion]), the database that finds the region of an
    address ([Keysdb]) and a page directory ([Pmm], [Cow]).  Here the manager puts them together:
    the mapping and the removal of private regions without a file, the fault handler, which is
    the entry from the hardware, the duplication of an address space for fork and its
    destruction.  Region descriptors and the records of the database come from object caches,
    known by their interface [ObjectSource].  A fault of the kernel, a failed assertion and a
    request that is not modelled are [None]. *)

From S2P Require Import Prelude Clist Bits Rbtree Page Pmm VmRegion Cow Objects Keysdb.

Open Scope Z_scope.

(** ** Constants *)

Definition VM_REG_PRIVATE : Z := 0x0002.
Definition VM_REG_PVSH : Z := 0x0003.
Definition CONFIG_USR_OFFSET : Z := 0x4000.
Definition CONFIG_TASK_HEAP_MIN_SIZE : Z := 0x10000.
Definition ENOSYS : Z := 38.

Definition VMM_ERESOLVED : Z := 0.
Definition VMM_ECHECKUSPACE : Z := 1.
Definition VMM_ESIGBUS : Z := 3.

(** The first comparison is signed, the second unsigned. *)
Definition IN_USPACE (addr : Z) : bool :=
  (CONFIG_USR_OFFSET <=? s32 addr) && (u32 addr <=? CONFIG_USR_LIMIT).
Definition NOT_IN_USPACE (addr : Z) : bool := negb (IN_USPACE addr).

Definition pmm_except_isInKernelMode (flags : Z) : bool := ctrue (Z.land flags 0x0100).

(** ** State *)

(** An address space; [pgdir] is the page directory of its [pmm]. *)
Record space := Space {
  sp_vmm : vmm_s; regions_db : keysdb_s; pgdir : Z; heap_region : Z; heap_current : Z }.

Definition with_vmm (sp : space) (v : vmm_s) : space :=
  Space v (regions_db sp) (pgdir sp) (heap_region sp) (heap_current sp).
Definition with_db (sp : space) (db : keysdb_s) : space :=
  Space (sp_vmm sp) db (pgdir sp) (heap_region sp) (heap_current sp).
Definition with_heap (sp : space) (region : Z) : space :=
  Space (sp_vmm sp) (regions_db sp) (pgdir sp) region (heap_current sp).

(** The memory of a new descriptor, and that of one that was freed.  What a new descriptor holds
    does not matter: its fields are written before they are read. *)
Definition new_region (v : vmm_s) (a : Z) : vmm_s :=
  Vmm (put a (RbNode 0 0 0) (regions_tree v)) (<[Obj a := Entry Null Null]> (regions_list v))
    (<[a := Region 0 0 0 0 0 0 0 0 0]> (regions v)) (last_mmap v) (last_region v).
Definition forget_region (v : vmm_s) (a : Z) : vmm_s :=
  Vmm (Rb (rb_root (regions_tree v)) (delete a (nodes (regions_tree v)))) (delete (Obj a) (regions_list v))
    (delete a (regions v)) (last_mmap v) (last_region v).

Definition with_flags (r : vm_region_s) (flags : Z) : vm_region_s :=
  Region (vm_begin r) (vm_end r) (vm_start r) (vm_limit r) (vm_prot r) (vm_pgprot r) flags (vm_offset r) (vm_refcount r).
Definition with_limit (r : vm_region_s) (limit : Z) : vm_region_s :=
  Region (vm_begin r) (vm_end r) (vm_start r) limit (vm_prot r) (vm_pgprot r) (vm_flags r) (vm_offset r) (vm_refcount r).

(** The keys of a region. *)
Definition region_key (r : vm_region_s) : Z := Z.shiftr (vm_begin r) CONFIG_VM_REGION_KEYWIDTH.
Definition region_keys_nr (r : vm_region_s) : Z :=
  Z.shiftr (u32 (vm_end r - vm_begin r)) CONFIG_VM_REGION_KEYWIDTH.

Section operations.
Context {A R Q : Type} `{PageRefs A} `{RS : ObjectSource R} `{QS : ObjectSource Q}.

(** What the address spaces share: the physical memory with its allocator, the records of the
    databases and the region descriptors. *)
Record kernel := Kernel { pages : pstate A; rec_objs : R; reg_objs : Q }.
Implicit Types (k : kernel) (sp : space).

Definition with_pages k (s : pstate A) : kernel := Kernel s (rec_objs k) (reg_objs k).
Definition with_recs k (r : R) : kernel := Kernel (pages k) r (reg_objs k).
Definition with_regs k (q : Q) : kernel := Kernel (pages k) (rec_objs k) q.

(** [kmem_alloc] and [kmem_free] of a descriptor. *)
Definition alloc_region k sp : option (kernel * space * Z) :=
  '(q, a) ← os_alloc (reg_objs k);
  Some (with_regs k q, if a =? 0 then sp else with_vmm sp (new_region (sp_vmm sp) a), a).
Definition free_region k sp (a : Z) : option (kernel * space) :=
  q ← os_free (reg_objs k) a;
  Some (with_regs k q, with_vmm sp (forget_region (sp_vmm sp) a)).

(** ** Removal of regions *)

(** [vm_region_detach] of a region without a file that is not shared.  The wait for the other
    users of the region ends at once when there are none. *)
Definition vm_region_detach k sp (region : Z) : option (kernel * space) :=
  v ← detach_links (sp_vmm sp) region;
  let sp := with_vmm sp v in
  rg ← regions v !! region;
  db ← (if flag (vm_flags rg) VM_REG_LAZY then Some (regions_db sp)
        else keysdb_unbind (regions_db sp) (region_key rg) (region_keys_nr rg));
  let sp := with_db sp db in
  _ ← cassert (negb (flag (vm_flags rg) VM_REG_SHARED && flag (vm_flags rg) VM_REG_ANON));
  _ ← cassert (vm_refcount rg <=? 1);
  s ← vm_region_unmap (pages k) (pgdir sp) rg;
  free_region (with_pages k s) sp region.

Definition vm_region_split : Z := ENOSYS.
Definition vm_region_resize : Z := 0.

Definition vmm_do_munmap k sp (region addr length : Z) : option (kernel * space * Z) :=
  let addr_limit := u32 (addr + length) in
  rg ← regions (sp_vmm sp) !! region;
  if (vm_start rg =? addr) && (vm_limit rg =? addr_limit) then
    '(k, sp) ← vm_region_detach k sp region; Some (k, sp, 0)
  else if (vm_start rg <=? addr) && (addr_limit <? vm_limit rg) then Some (k, sp, vm_region_split)
  else Some (k, sp, vm_region_resize).

Definition vmm_munmap k sp (vaddr length : Z) : option (kernel * space * Z) :=
  region ← keysdb_lookup (regions_db sp) (Z.shiftr vaddr CONFIG_VM_REGION_KEYWIDTH);
  outside ← (if region =? 0 then Some true
             else rg ← regions (sp_vmm sp) !! region; Some ((vm_limit rg <? vaddr) || (vaddr <? vm_start rg)));
  if outside : bool then Some (k, sp, EINVAL) else vmm_do_munmap k sp region vaddr length.

(** ** Mapping *)

(** [vmm_mmap] without a file: the error code, or the start of the region.  Shared anonymous
    regions have a mapper, which is not modelled. *)
Definition vmm_mmap k sp (addr length proto flags offset : Z) : option (kernel * space * (Z + Z)) :=
  '(k, sp, region) ← alloc_region k sp;
  if region =? 0 then Some (k, sp, inl ENOMEM) else
  let flags := Z.lor flags VM_REG_INIT in
  let v := with_region (sp_vmm sp) region (vm_region_init addr (u32 (addr + length)) proto offset flags) in
  '(v, err) ← vm_region_attach v region;
  let sp := with_vmm sp v in
  if ctrue err then '(k, sp) ← free_region k sp region; Some (k, sp, inl err) else
  _ ← cassert (negb (flag flags VM_REG_SHARED && flag flags VM_REG_ANON));
  if flag flags VM_REG_SHARED then
    '(k, sp) ← vm_region_detach k sp region;
    '(k, sp) ← free_region k sp region;
    Some (k, sp, inl 0)
  else
  rg ← regions v !! region;
  let rg := with_flags rg (Z.land (vm_flags rg) (Z.lnot VM_REG_INIT)) in
  let sp := with_vmm sp (with_region v region rg) in
  let sp := if flag flags VM_REG_HEAP then with_heap sp region else sp in
  '(r, db, _) ← keysdb_bind (rec_objs k) (regions_db sp) (region_key rg) (region_keys_nr rg) region;
  Some (with_recs k r, with_db sp db, inr (vm_start rg)).

(** [sys_mmap] of anonymous memory, for the attributes copied from the task. *)
Record mmap_attr := MmapAttr { ma_addr : Z; ma_length : Z; ma_prot : Z; ma_flags : Z; ma_offset : Z }.

Definition sys_mmap k sp (attr : mmap_attr) : option (kernel * space * (Z + Z)) :=
  let flags := ma_flags attr in
  if flag flags VM_REG_HEAP || (Z.land flags VM_REG_PVSH =? VM_REG_PVSH) || (Z.land flags VM_REG_PVSH =? 0) ||
     (ma_length attr =? 0) || ctrue (Z.land (ma_offset attr) (PMM_PAGE_SIZE - 1)) ||
     negb (ma_addr attr =? 0) &&
     (ctrue (Z.land (ma_addr attr) (PMM_PAGE_SIZE - 1)) ||
      NOT_IN_USPACE (u32 (ma_length attr + ma_addr attr)) || NOT_IN_USPACE (ma_addr attr))
  then Some (k, sp, inl EINVAL) else
  _ ← cassert (flag flags VM_REG_ANON);
  let addr := if flag flags VM_REG_FIXED then ma_addr attr else 0 in
  vmm_mmap k sp addr (ma_length attr) (ma_prot attr) flags 0.

(** ** The heap *)

Definition vmm_sbrk sp (current size : Z) : option (space * Z) :=
  if current <? heap_current sp then Some (sp, EAGAIN) else
  if CONFIG_TASK_HEAP_MAX_SIZE <? u32 (heap_current sp + size) then Some (sp, ENOMEM) else
  heap ← regions (sp_vmm sp) !! heap_region sp;
  let heap := with_limit heap (u32 (vm_limit heap + size)) in
  Some (with_vmm sp (with_region (sp_vmm sp) (heap_region sp) heap), 0).

Definition sys_sbrk sp (current size : Z) : option (space * Z) :=
  if size =? 0 then Some (sp, CONFIG_TASK_HEAP_MIN_SIZE)
  else vmm_sbrk sp current (u32 (size * PMM_PAGE_SIZE)).

(** ** Faults *)

Definition vmm_keysdb_update k sp (region : Z) : option (kernel * space) :=
  rg ← regions (sp_vmm sp) !! region;
  '(r, db, _) ← keysdb_bind (rec_objs k) (regions_db sp) (region_key rg) (region_keys_nr rg) region;
  Some (with_recs k r, with_db sp db).

(** The region of an address, and whether the database did not have it. *)
Definition fault_region sp (vaddr : Z) : option (Z * bool) :=
  region ← keysdb_lookup (regions_db sp) (Z.shiftr vaddr CONFIG_VM_REGION_KEYWIDTH);
  if region =? 0 then region ← vm_region_find (sp_vmm sp) vaddr; Some (region, true)
  else Some (region, false).

(** [kthread] is that the thread is a kernel thread; a refused access is a bus error, since the
    code for a segmentation violation is overwritten. *)
Definition vmm_fault_handler k sp (kthread : bool) (bad_vaddr flags : Z) : option (kernel * space * Z) :=
  let refused := if pmm_except_isInKernelMode flags then VMM_ECHECKUSPACE else VMM_ESIGBUS in
  if NOT_IN_USPACE bad_vaddr then Some (k, sp, refused) else
  if kthread then Some (k, sp, VMM_ECHECKUSPACE) else
  '(region, isMiss) ← fault_region sp bad_vaddr;
  outside ← (if region =? 0 then Some true
             else rg ← regions (sp_vmm sp) !! region; Some ((vm_limit rg <? bad_vaddr) || (bad_vaddr <? vm_start rg)));
  if outside : bool then Some (k, sp, refused) else
  '(k, sp) ← (if isMiss : bool then vmm_keysdb_update k sp region else Some (k, sp));
  rg ← regions (sp_vmm sp) !! region;
  '(s, err) ← vm_region_update (pages k) (pgdir sp) rg bad_vaddr flags;
  Some (with_pages k s, sp, if ctrue err then VMM_ESIGBUS else VMM_ERESOLVED).

(** An access of a user thread: the MMU translates the address or the handler is called, until
    it gives up.  The result is the address of the byte or the code of the handler. *)
Fixpoint task_access (mmu_report : page_info → bool → Z) (fuel : nat) k sp (write : bool) (vaddr : Z)
    : option (kernel * space * access) :=
  match fuel with
  | O => None
  | S fuel =>
      match translate (pages k) (pgdir sp) write vaddr with
      | Some a => Some (k, sp, Done a)
      | None =>
          let flags := mmu_report (pmm_get_page (pmem (pages k)) (pgdir sp) vaddr) write in
          '(k, sp, err) ← vmm_fault_handler k sp false vaddr flags;
          if err =? VMM_ERESOLVED then task_access mmu_report fuel k sp write vaddr
          else Some (k, sp, Refused err)
      end
  end.

Definition task_store mmu_report fuel k sp (vaddr v : Z) : option (kernel * space * access) :=
  '(k, sp, r) ← task_access mmu_report fuel k sp true vaddr;
  Some (match r with
        | Done a => with_pages k (PState (wr (pmem (pages k)) a v) (palloc (pages k)))
        | Refused _ => k
        end, sp, r).

(** ** Destruction *)

(** [vmm_destroy]: every region is detached with [VM_REG_LAZY], which leaves the page tables and
    the database alone; the result holds the page of the database. *)
Fixpoint destroy_regions (fuel : nat) k sp : option (kernel * space) :=
  match fuel with
  | O => None
  | S fuel =>
      first ← rd_next (regions_list (sp_vmm sp)) (At (Root 0));
      match first with
      | At (Obj region) =>
          rg ← regions (sp_vmm sp) !! region;
          let rg := with_flags rg (Z.lor (vm_flags rg) VM_REG_LAZY) in
          '(k, sp) ← vm_region_detach k (with_vmm sp (with_region (sp_vmm sp) region rg)) region;
          destroy_regions fuel k sp
      | At (Root _) => Some (k, sp)
      | _ => None
      end
  end.

Definition vmm_destroy k sp : option (kernel * space * Z) :=
  '(k, sp) ← destroy_regions (S (size (regions_list (sp_vmm sp)))) k sp;
  let sp := with_vmm sp (with_last_region (sp_vmm sp) 0) in
  '(r, page) ← keysdb_destroy (rec_objs k) (regions_db sp);
  Some (with_recs k r, sp, page).

(** ** Duplication *)

(** [vmm_init]; [page] is the page [keysdb_init] gets from [kmem_alloc]. *)
Definition vmm_init sp (page : Z) : option (space + Z) :=
  db ← keysdb_init page CONFIG_VM_REGION_KEYWIDTH;
  Some (match db with
        | inl db => inl (Space (Vmm (Rb 0 ∅) {[Root 0 := Entry (At (Root 0)) (At (Root 0))]} ∅ 0 (last_region (sp_vmm sp)))
                           db (pgdir sp) (heap_region sp) (heap_current sp))
        | inr err => inr err
        end).

(** [vm_region_dup] of a region without a file that is not shared. *)
Definition vm_region_dup k sp (src_pgdir dst : Z) (src : vm_region_s) : option (kernel * space * Z) :=
  let r := Region (vm_begin src) (vm_end src) (vm_start src) (vm_limit src) (vm_prot src) (vm_pgprot src)
             (vm_flags src) (vm_offset src) 1 in
  let v := with_region (sp_vmm sp) dst r in
  f ← vm_region_find_prepare v (vm_begin r);
  v ← __vma_link_rb v dst f;
  _ ← cassert (negb (flag (vm_flags r) VM_REG_SHARED));
  '(s, err) ← vm_region_dup_pages (pages k) src_pgdir (pgdir sp) src;
  Some (with_pages k s, with_vmm sp v, err).

(** The loop of [vmm_dup]: the last descriptor, and the error that ended the loop.  It is 0 when
    there was no descriptor left. *)
Record dup_state := DupState { ds_kernel : kernel; ds_space : space; ds_last : Z; ds_fail : option Z }.

Definition dup_body (src : space) (key : lnode) (st : dup_state) : option (dup_state * bool) :=
  match key with
  | Root _ => None
  | Obj i =>
      src_reg ← regions (sp_vmm src) !! i;
      '(k, sp, dst_reg) ← alloc_region (ds_kernel st) (ds_space st);
      if dst_reg =? 0 then Some (DupState k sp dst_reg (Some 0), true) else
      '(k, sp, err) ← vm_region_dup k sp (pgdir src) dst_reg src_reg;
      if ctrue err then '(k, sp) ← free_region k sp dst_reg; Some (DupState k sp dst_reg (Some err), true) else
      v ← add_last dst_reg (sp_vmm sp);
      Some (DupState k (with_vmm sp v) dst_reg None, false)
  end.

Definition dup_regions k (src dst : space) : option dup_state :=
  list_foreach (λ _, regions_list (sp_vmm src)) (dup_body src) (S (size (regions_list (sp_vmm src)))) (At (Root 0))
    (DupState k dst 0 None).

(** [vmm_dup]; [pmm] is the directory that [pmm_init] and [pmm_dup] made for the child, or their
    error.  The descriptor of the parent is copied, [heap_region] included. *)
Definition vmm_dup k (src : space) (page : Z) (pmm : Z + Z) : option (kernel * option space * Z) :=
  init ← vmm_init src page;
  match init, pmm with
  | inr err, _ | _, inr err => Some (k, None, err)
  | inl dst, inl dir =>
      st ← dup_regions k src (Space (sp_vmm dst) (regions_db dst) dir (heap_region dst) (heap_current dst));
      match ds_fail st with
      | None => Some (ds_kernel st, Some (with_vmm (ds_space st) (with_last_region (sp_vmm (ds_space st)) (ds_last st))), 0)
      | Some err => '(k, _, _) ← vmm_destroy (ds_kernel st) (ds_space st); Some (k, None, err)
      end
  end.
End operations.

Arguments kernel : clear implicits.
