(* ===== verification/VmmSpec.v ===== *)
(** * Address spaces: invariant and operations

    The invariant of an address space ties its three indexes together: the regions on the list
    and in the tree are live objects, every key of the database leads to the region that covers
    it, and a region has all its keys or none.  The operations of [Vmm] keep it. *)

From stdpp Require Import sorting.
From S2P Require Import Prelude Clist Bits Rbtree RbtreeSpec RbtreeOps Page Pmm VmRegion VmSpace VmSystem.
From S2P Require Import Cow CowTables CowSpec CowSystem Isolation Objects Keysdb KeysdbSys Vmm.

Open Scope Z_scope.

(** Arithmetic with quotients and remainders. *)
Ltac div_lia := Z.to_euclidean_division_equations; lia.

(** ** Regions *)

(** A private region of whole pages; it covers whole keys. *)
Record region_fine (r : vm_region_s) : Prop := RegionFine {
  rf_user : user_region r;
  rf_begin : vm_begin r mod 2 ^ 16 = 0;
  rf_end : vm_end r mod 2 ^ 16 = 0;
  rf_range : vm_begin r ≤ vm_start r < vm_limit r ∧ vm_limit r ≤ vm_end r ≤ CONFIG_USR_LIMIT;
  rf_key : vm_start r - vm_begin r < 2 ^ 16;
  rf_start : vm_start r mod PMM_PAGE_SIZE = 0;
  rf_limit : vm_limit r mod PMM_PAGE_SIZE = 0;
  rf_lazy : flag (vm_flags r) VM_REG_LAZY = false;
  rf_shared : flag (vm_flags r) VM_REG_SHARED = false;
  rf_refs : vm_refcount r = 1 }.

(** The keys of a region. *)
Definition keyed (r : vm_region_s) (key : Z) : Prop := key_range (region_key r) (region_keys_nr r) key.

Lemma keyed_iff r key :
  region_fine r → 0 ≤ vm_begin r → keyed r key ↔ vm_begin r ≤ key * 2 ^ 16 < vm_end r.
Proof.
  intros Hf Hb. unfold keyed, key_range, region_key, region_keys_nr, CONFIG_VM_REGION_KEYWIDTH.
  pose proof (rf_range _ Hf) as Hr. pose proof (rf_begin _ Hf). pose proof (rf_end _ Hf). unfold CONFIG_USR_LIMIT in Hr.
  rewrite u32_small, !Z.shiftr_div_pow2 by (unfold wsize; lia). div_lia.
Qed.

Lemma keyed_va r va :
  region_fine r → 0 ≤ vm_begin r → keyed r (Z.shiftr va CONFIG_VM_REGION_KEYWIDTH) ↔ vm_begin r ≤ va < vm_end r.
Proof.
  intros Hf Hb. rewrite keyed_iff by done. unfold CONFIG_VM_REGION_KEYWIDTH. rewrite Z.shiftr_div_pow2 by done.
  pose proof (rf_begin _ Hf). pose proof (rf_end _ Hf). div_lia.
Qed.

Lemma keyed_bounds r :
  region_fine r → 0 ≤ vm_begin r → 0 ≤ region_key r ∧ 0 ≤ region_keys_nr r ∧ region_key r + region_keys_nr r ≤ 2 ^ 16.
Proof.
  intros Hf Hb. unfold region_key, region_keys_nr, CONFIG_VM_REGION_KEYWIDTH.
  pose proof (rf_range _ Hf) as Hr. pose proof (rf_begin _ Hf). pose proof (rf_end _ Hf). unfold CONFIG_USR_LIMIT in Hr.
  rewrite u32_small, !Z.shiftr_div_pow2 by (unfold wsize; lia). div_lia.
Qed.

Lemma keyed_key r key : region_fine r → 0 ≤ vm_begin r → keyed r key → is_key key.
Proof. intros Hf Hb Hk. pose proof (keyed_bounds r Hf Hb). unfold keyed, key_range in Hk. unfold is_key. lia. Qed.

Lemma keyed_self r : region_fine r → 0 ≤ vm_begin r → keyed r (region_key r).
Proof.
  intros Hf Hb. unfold region_key. rewrite keyed_va by done. pose proof (rf_range _ Hf). lia.
Qed.

(** *** New regions *)

(** The flags of a region once [vmm_mmap] has cleared [VM_REG_INIT]. *)
Definition ready_flags (flags : Z) : Z := Z.land (Z.lor flags VM_REG_INIT) (Z.lnot VM_REG_INIT).

Lemma flag_bit x n : 0 ≤ n → flag x (2 ^ n) = Z.testbit x n.
Proof. intros Hn. rewrite <- (Z.shiftl_1_l n). by apply land_pow2. Qed.

Lemma ready_flag flags n : 0 ≤ n → n ≠ 10 → flag (ready_flags flags) (2 ^ n) = flag flags (2 ^ n).
Proof.
  intros Hn H10. rewrite !flag_bit by done. unfold ready_flags. rewrite Z.land_spec, Z.lor_spec, Z.lnot_spec by done.
  change VM_REG_INIT with (2 ^ 10). rewrite Z.pow2_bits_false by lia. by rewrite orb_false_r, andb_true_r.
Qed.

Lemma init_flag flags n : 0 ≤ n → n ≠ 10 → flag (Z.lor flags VM_REG_INIT) (2 ^ n) = flag flags (2 ^ n).
Proof.
  intros Hn H10. rewrite !flag_bit by done. rewrite Z.lor_spec.
  change VM_REG_INIT with (2 ^ 10). rewrite Z.pow2_bits_false by lia. by rewrite orb_false_r.
Qed.

(** What the manager expects of a request for a region. *)
Record request_ok (addr length proto flags : Z) : Prop := RequestOk {
  rq_length : 0 < length ∧ length mod PMM_PAGE_SIZE = 0;
  rq_addr : 0 ≤ addr ∧ addr mod PMM_PAGE_SIZE = 0;
  rq_limit : addr + length ≤ CONFIG_USR_LIMIT;
  rq_proto : flag proto VM_REG_RD || flag proto VM_REG_WR = true;
  rq_shared : flag flags VM_REG_SHARED = false;
  rq_huge : flag flags VM_REG_HUGETLB = false;
  rq_lazy : flag flags VM_REG_LAZY = false;
  rq_heap : flag flags VM_REG_HEAP = false }.

Lemma request_flags addr length proto flags :
  request_ok addr length proto flags →
  flag (Z.lor flags VM_REG_INIT) VM_REG_SHARED = false ∧ flag (Z.lor flags VM_REG_INIT) VM_REG_HEAP = false.
Proof.
  intros [_ _ _ _ Hs _ _ Hh]. rewrite <- Hs at 1. rewrite <- Hh. split; [by apply (init_flag flags 0)|by apply (init_flag flags 11)].
Qed.

(** The descriptor of a request. *)
Definition requested (addr length proto offset flags : Z) : vm_region_s :=
  vm_region_init addr (addr + length) proto offset (ready_flags flags).

Lemma init_ready start stop proto offset flags :
  with_flags (vm_region_init start stop proto offset (Z.lor flags VM_REG_INIT)) (ready_flags flags)
  = vm_region_init start stop proto offset (ready_flags flags).
Proof.
  unfold vm_region_init. change VM_REG_HEAP with (2 ^ 11). change VM_REG_HUGETLB with (2 ^ 5).
  rewrite !(init_flag flags) by done. rewrite !(ready_flag flags) by done. by destruct (flag proto VM_REG_WR).
Qed.

Lemma init_fields start stop proto offset flags :
  let r := vm_region_init start stop proto offset flags in
  vm_start r = start ∧ vm_limit r = stop ∧ vm_flags r = flags ∧ vm_refcount r = 1 ∧
  vm_begin r = ARROUND_DOWN start (2 ^ 16) ∧
  (flag flags VM_REG_HEAP = false → vm_end r = ARROUND_UP stop (2 ^ 16)).
Proof. unfold vm_region_init. destruct (flag proto VM_REG_WR), (flag flags VM_REG_HEAP); cbn; by split_and!. Qed.

Lemma requested_fine addr length proto offset flags :
  request_ok addr length proto flags → region_fine (requested addr length proto offset flags).
Proof.
  intros [[Hl Hlm] [Ha Ham] Hlim Hp Hs Hh Hz He]. unfold requested.
  destruct (init_fields addr (addr + length) proto offset (ready_flags flags)) as (E1 & E2 & E3 & E4 & E5 & E6).
  assert (Hf : ∀ n, 0 ≤ n → n ≠ 10 → flag flags (2 ^ n) = false → flag (ready_flags flags) (2 ^ n) = false)
    by (intros n ? ? ?; by rewrite ready_flag).
  specialize (E6 (Hf 11 ltac:(done) ltac:(done) He)). set (r := vm_region_init _ _ _ _ _) in *.
  destruct (ARROUND_UP_spec (addr + length) 16) as [[q Hq] Hb]; [done|unfold CONFIG_USR_LIMIT, wsize in *; lia..|].
  unfold CONFIG_USR_LIMIT, PMM_PAGE_SIZE in *.
  pose proof (ARROUND_DOWN_spec addr 16 ltac:(done) ltac:(unfold wsize; lia)) as Hd. rewrite Hd in E5. rewrite Hq in E6, Hb.
  split; rewrite ?E1, ?E2, ?E3, ?E4, ?E5, ?E6; unfold CONFIG_USR_LIMIT, PMM_PAGE_SIZE; try (div_lia).
  - apply user_region_init; [done|by apply (Hf 5)|].
    change VM_REG_INIT with (2 ^ 10). rewrite flag_bit by done. unfold ready_flags.
    rewrite Z.land_spec, Z.lnot_spec by done. change VM_REG_INIT with (2 ^ 10). rewrite Z.pow2_bits_true by done. apply andb_false_r.
  - by apply (Hf 9).
  - by apply (Hf 0).
Qed.

Lemma placed_fine r start :
  region_fine r → vm_begin r = 0 → vm_start r = 0 → 0 ≤ start → start mod 2 ^ 16 = 0 →
  start + vm_end r ≤ CONFIG_USR_LIMIT → region_fine (placed r start).
Proof.
  intros [[Hc Hp Hw Hr Hi] Hb He Hrg Hk Hs Hl Hz Hsh Hrf] Eb Es H0 Hm Hlim. unfold CONFIG_USR_LIMIT, PMM_PAGE_SIZE in *.
  split; cbn; rewrite ?u32_small by (unfold wsize; lia); unfold CONFIG_USR_LIMIT, PMM_PAGE_SIZE; try done; try div_lia.
Qed.

(** ** Descriptors in memory *)

Lemma vmm_frame v v' l :
  vmm_ok v l → rb_root (regions_tree v') = rb_root (regions_tree v) →
  (∀ a, a ∈ l → nodes (regions_tree v') !! a = nodes (regions_tree v) !! a) →
  (∀ c, c ∈ Root 0 :: (Obj <$> l) → regions_list v' !! c = regions_list v !! c) →
  (∀ a, a ∈ l → regions v' !! a = regions v !! a) → vmm_ok v' l.
Proof.
  intros [[(o & t & [Hr Hp Hn Hg Ho] & Hb & El) Hl] Hok Hs] Er Hnod Hcell Hreg. subst l.
  split; [split; [|by eapply dlist_frame]|by eapply region_ok_other|by eapply sorted_other].
  exists (nodes (regions_tree v')), t. split; [|by split]. split; [congruence|by eapply rep_frame|done..].
Qed.

Lemma new_region_ok v l a :
  vmm_ok v l → a ∉ l → good a → vmm_ok (new_region v a) l ∧ detached (new_region v a) l a.
Proof.
  intros Hv Ha Hg. split.
  - apply (vmm_frame v); [done|done|..]; cbn.
    + intros b Hb. rewrite lookup_insert_ne; [done|]. by intros ->.
    + intros c Hc. rewrite lookup_insert_ne; [done|]. intros <-. apply elem_of_cons in Hc as [?|?%elem_of_Obj]; done.
    + intros b Hb. rewrite lookup_insert_ne; [done|]. by intros ->.
  - split; [done|done|..]; cbn; rewrite lookup_insert_eq; eauto.
Qed.

Lemma forget_region_ok v l a : vmm_ok v l → a ∉ l → vmm_ok (forget_region v a) l.
Proof.
  intros Hv Ha. apply (vmm_frame v); [done|done|..]; cbn.
  - intros b Hb. rewrite lookup_delete_ne; [done|]. by intros ->.
  - intros c Hc. rewrite lookup_delete_ne; [done|]. intros <-. apply elem_of_cons in Hc as [?|?%elem_of_Obj]; done.
  - intros b Hb. rewrite lookup_delete_ne; [done|]. by intros ->.
Qed.

(** ** Attachment *)

(** The regions above a fixed range start after it. *)
Definition range_free (v : vmm_s) (l : list Z) (r : vm_region_s) : Prop :=
  ∀ b, b ∈ l → vm_begin r < vm_begin (regions v !!! b) → vm_end r ≤ vm_begin (regions v !!! b).

(** The place of a region: where the task asked for, or where the kernel chose. *)
Definition at_place (flags : Z) (r0 r : vm_region_s) : Prop :=
  if flag flags VM_REG_FIXED then r = r0
  else ∃ start, 0 ≤ start ∧ start mod 2 ^ 16 = 0 ∧ start + vm_end r0 ≤ CONFIG_USR_LIMIT ∧ r = placed r0 start.

Definition was_attached (v v' : vmm_s) (l : list Z) (a : Z) (r : vm_region_s) : Prop :=
  ∃ l1 l2, l = l1 ++ l2 ∧ vmm_ok v' (l1 ++ a :: l2) ∧ regions v' = <[a := r]> (regions v) ∧ last_mmap v' = vm_begin r.

(** The kernel chooses multiples of the size of a key. *)
Lemma solve_aligned v l l1 l2 size start :
  l = l1 ++ l2 → Forall (λ b, vm_end (regions v !!! b) ≤ start) l1 →
  Forall (λ b, start + size < vm_begin (regions v !!! b)) l2 →
  (∀ x, last_mmap v ≤ x < start → blocked (regions v) l size x) →
  last_mmap v ≤ start → last_mmap v mod 2 ^ 16 = 0 →
  (∀ b, b ∈ l → vm_end (regions v !!! b) mod 2 ^ 16 = 0) → start mod 2 ^ 16 = 0.
Proof.
  intros -> H1 H2 Hb Hl Hm He. destruct (decide (start = last_mmap v)) as [->|Hne]; [done|].
  destruct (Hb (start - 1)) as (b & Hbl & Hb1 & Hb2); [lia|]. rewrite Forall_forall in H1, H2.
  pose proof Hbl as [Hin|Hin]%elem_of_app; [|specialize (H2 b Hin); lia].
  specialize (H1 b Hin). replace start with (vm_end (regions v !!! b)) by lia. by apply He.
Qed.

Lemma attach_ok v l a r :
  vmm_ok v l → detached v l a → regions v !! a = Some r → 0 ≤ vm_begin r → vm_begin r < vm_end r ≤ CONFIG_USR_LIMIT →
  0 ≤ last_mmap v → last_mmap v mod 2 ^ 16 = 0 → (∀ b, b ∈ l → vm_end (regions v !!! b) mod 2 ^ 16 = 0) →
  (flag (vm_flags r) VM_REG_FIXED = true → range_free v l r) →
  ∃ v' err, vm_region_attach v a = Some (v', err) ∧
    ((err = ENOMEM ∨ err = EEXIST ∧ flag (vm_flags r) VM_REG_FIXED = true) ∧ v' = v ∨
     err = 0 ∧ ∃ r', at_place (vm_flags r) r r' ∧ was_attached v v' l a r').
Proof.
  intros Hv Hd Ea Hb He Hm Hma Hend Hfree. unfold at_place, CONFIG_USR_LIMIT in *. destruct (flag (vm_flags r) VM_REG_FIXED) eqn:Ef.
  - destruct (attach_fixed_ok v l a r Hv Hd Ea Ef) as (v' & err & Ex & [(-> & -> & _)|(-> & l1 & l2 & Hat & H2)]);
      (eexists _, _; split; [exact Ex|]); [left; auto|]. right. split; [done|]. exists r. split; [done|]. exists l1, l2.
    pose proof Hat as (-> & _ & ER & Em & _). split_and!; [done| |done|done].
    eapply attached_ok; [exact Hv|by destruct Hd|exact Hat|lia|unfold wsize; lia|].
    rewrite Forall_forall in H2 |- *. intros b Hb2. apply Hfree; [done|set_solver|by apply H2].
  - destruct (attach_solve_ok v l a r Hv Hd Ea Ef) as (v' & err & Ex & [(-> & -> & _)|(-> & l1 & l2 & start & Hat & H1 & H2 & H3 & H4)]);
      [unfold CONFIG_USR_LIMIT; lia|done| |]; (eexists _, _; split; [exact Ex|]); [left; auto|]. unfold CONFIG_USR_LIMIT in *.
    right. split; [done|]. pose proof Hat as (El & _ & ER & Em & Hb1). cbn in Em, Hb1. exists (placed r start). split.
    + exists start. split_and!; [lia| |lia|done]. by eapply (solve_aligned v).
    + exists l1, l2. split_and!; [done| |done|done].
      eapply attached_ok; [exact Hv|by destruct Hd|exact Hat|cbn; lia|cbn; unfold wsize; lia|].
      eapply Forall_impl; [exact H3|]. cbn. lia.
Qed.

(** Only the bounds of a region matter to the list and the tree. *)
Lemma reset_region_ok v l a r r' :
  vmm_ok v l → regions v !! a = Some r → vm_begin r' = vm_begin r → vm_end r' = vm_end r → vmm_ok (with_region v a r') l.
Proof.
  intros [Hl Hok Hs] Ea Eb Ee.
  assert (∀ b, vm_begin (<[a := r']> (regions v) !!! b) = vm_begin (regions v !!! b) ∧
               vm_end (<[a := r']> (regions v) !!! b) = vm_end (regions v !!! b)) as HE.
  { intros b. rewrite !lookup_total_alt. destruct (decide (b = a)) as [->|]; [by rewrite lookup_insert_eq, Ea|by rewrite lookup_insert_ne]. }
  split; [done|..]; cbn.
  - eapply Forall_impl; [exact Hok|]. intros b (Hb & H1 & H2). unfold region_ok. destruct (HE b) as [-> ->]. split; [|done].
    rewrite lookup_insert_is_Some'. by right.
  - clear - Hs HE. induction Hs as [|b l _ IH Hb]; constructor; [done|]. eapply Forall_impl; [exact Hb|].
    intros c. unfold below. destruct (HE b) as [_ ->], (HE c) as [-> _]. done.
Qed.

(** No address is in two regions. *)
Lemma regions_disjoint v l a b x :
  vmm_ok v l → a ∈ l → b ∈ l → vm_begin (regions v !!! a) ≤ x < vm_end (regions v !!! a) →
  vm_begin (regions v !!! b) ≤ x < vm_end (regions v !!! b) → a = b.
Proof.
  intros [_ _ Hs] Ha Hb Hxa Hxb. destruct (first_above_spec (regions v) x l Hs) as [[_ H]|(_ & Hr & Hm)].
  - specialize (H a Ha). lia.
  - unfold below in Hm. destruct (Hm a Ha ltac:(lia)) as [->|?]; [|lia]. by destruct (Hm b Hb ltac:(lia)) as [->|?]; [|lia].
Qed.

(** ** The invariant *)

Section spaces.
Context {A R Q : Type} `{FrameAllocatorLaws A} `{!PageRefs A} `{!PageRefsLaws A}.
Context `{RS : ObjectSource R} `{RL : !ObjectSourceLaws R} `{QS : ObjectSource Q} `{QL : !ObjectSourceLaws Q}.
Implicit Types (k : kernel A R Q) (sp : space).

Record space_inv k sp (l : list Z) : Prop := SpaceInv {
  si_vmm : vmm_ok (sp_vmm sp) l;
  si_last : 0 ≤ last_mmap (sp_vmm sp) ∧ last_mmap (sp_vmm sp) mod 2 ^ 16 = 0;
  si_objs : os_inv (reg_objs k);
  si_descr a : is_Some (regions (sp_vmm sp) !! a) ↔ a ∈ l;
  si_live a : a ∈ l → os_live (reg_objs k) a;
  si_fine a : a ∈ l → region_fine (regions (sp_vmm sp) !!! a);
  si_db : kdb_ok (rec_objs k) (regions_db sp);
  si_keys key : is_key key → db_get (regions_db sp) key = 0 ∨
    db_get (regions_db sp) key ∈ l ∧ keyed (regions (sp_vmm sp) !!! db_get (regions_db sp) key) key;
  si_whole a key : a ∈ l → keyed (regions (sp_vmm sp) !!! a) key →
    db_get (regions_db sp) key = db_get (regions_db sp) (region_key (regions (sp_vmm sp) !!! a)) }.

(** The database knows the region. *)
Definition indexed sp (a : Z) : Prop := db_get (regions_db sp) (region_key (regions (sp_vmm sp) !!! a)) = a.

#[export] Instance indexed_dec sp a : Decision (indexed sp a).
Proof. unfold indexed. apply _. Defined.

Lemma si_begin k sp l a : space_inv k sp l → a ∈ l → 0 ≤ vm_begin (regions (sp_vmm sp) !!! a).
Proof. intros HS Ha. destruct (si_vmm _ _ _ HS) as [_ Hok _]. rewrite Forall_forall in Hok. destruct (Hok a Ha) as (_ & ? & _). lia. Qed.

Lemma si_lookup k sp l a : space_inv k sp l → a ∈ l → regions (sp_vmm sp) !! a = Some (regions (sp_vmm sp) !!! a).
Proof.
  intros HS Ha. destruct (si_vmm _ _ _ HS) as [_ Hok _]. rewrite Forall_forall in Hok. by apply region_lookup, Hok.
Qed.

Lemma si_nonzero k sp l a : space_inv k sp l → a ∈ l → a ≠ 0.
Proof. intros HS Ha. by destruct (os_live_law _ _ (si_objs _ _ _ HS) (si_live _ _ _ HS a Ha)). Qed.

Lemma si_keyed k sp l a : space_inv k sp l → a ∈ l → keyed (regions (sp_vmm sp) !!! a) (region_key (regions (sp_vmm sp) !!! a)).
Proof. intros HS Ha. apply keyed_self; [by apply (si_fine _ _ _ HS)|by eapply si_begin]. Qed.

Lemma si_is_key k sp l a key : space_inv k sp l → a ∈ l → keyed (regions (sp_vmm sp) !!! a) key → is_key key.
Proof. intros HS Ha. apply keyed_key; [by apply (si_fine _ _ _ HS)|by eapply si_begin]. Qed.

Lemma keyed_disjoint k sp l a b key :
  space_inv k sp l → a ∈ l → b ∈ l → keyed (regions (sp_vmm sp) !!! a) key → keyed (regions (sp_vmm sp) !!! b) key → a = b.
Proof.
  intros HS Ha Hb Hka Hkb.
  apply keyed_iff in Hka; [|by apply (si_fine _ _ _ HS)|by eapply si_begin].
  apply keyed_iff in Hkb; [|by apply (si_fine _ _ _ HS)|by eapply si_begin].
  by apply (regions_disjoint _ l a b (key * 2 ^ 16) (si_vmm _ _ _ HS)).
Qed.

(** ** What the address spaces share *)

Definition descr sp (x : Z) : Prop := is_Some (regions (sp_vmm sp) !! x).
Definition recorded sp (x : Z) : Prop := is_Some (records (regions_db sp) !! x).

(** An operation on one address space leaves the objects of the others alone. *)
Record keeps k sp k' sp' : Prop := Keeps {
  kp_regs : os_inv (reg_objs k');
  kp_recs : os_inv (rec_objs k');
  kp_reg x : os_live (reg_objs k) x → ¬ descr sp x → os_live (reg_objs k') x;
  kp_reg_new x : descr sp' x → descr sp x ∨ ¬ os_live (reg_objs k) x;
  kp_rec x : os_live (rec_objs k) x → ¬ recorded sp x → os_live (rec_objs k') x;
  kp_rec_new x : recorded sp' x → recorded sp x ∨ ¬ os_live (rec_objs k) x }.

Lemma kdb_frame (r r' : R) db :
  kdb_ok r db → os_inv r' → (∀ x, is_Some (records db !! x) → os_live r' x) → kdb_ok r' db.
Proof.
  intros [Ht Ha] Hi Hl. split; [|done]. destruct Ht as [_ H1 H2 H3 H4 H5 H6 H7 H8]. split; try done.
  intros i x Hx Hx0. by eapply Hl, H7.
Qed.

Lemma other_kept k sp k' sp' o l :
  space_inv k o l → keeps k sp k' sp' → (∀ x, descr o x → ¬ descr sp x) → (∀ x, recorded o x → ¬ recorded sp x) →
  space_inv k' o l ∧ (∀ x, descr o x → ¬ descr sp' x) ∧ (∀ x, recorded o x → ¬ recorded sp' x).
Proof.
  intros HS [K1 K2 K3 K4 K5 K6] Hd Hr.
  assert (Hlive : ∀ x, descr o x → os_live (reg_objs k) x) by (intros x Hx; by apply (si_live _ _ _ HS), (si_descr _ _ _ HS)).
  assert (Hrec : ∀ x, recorded o x → os_live (rec_objs k) x) by (intros x Hx; by apply (kdb_live _ _ _ (si_db _ _ _ HS))).
  split; [|split].
  - destruct HS as [H1 H2 H3 H4 H5 H6 H7 H8 H9]. split; try done.
    + intros a Ha. apply H4 in Ha. by apply K3; [apply Hlive|apply Hd].
    + eapply kdb_frame; [done|done|]. intros x Hx. by apply K5; [apply Hrec|apply Hr].
  - intros x Hx Hx'. destruct (K4 x Hx') as [?|Hn]; [by apply (Hd x)|by apply Hn, Hlive].
  - intros x Hx Hx'. destruct (K6 x Hx') as [?|Hn]; [by apply (Hr x)|by apply Hn, Hrec].
Qed.

(** ** Mapping *)

Lemma alloc_region_ok k sp l :
  space_inv k sp l →
  ∃ q a, alloc_region k sp = Some (with_regs k q, if a =? 0 then sp else with_vmm sp (new_region (sp_vmm sp) a), a) ∧
    os_inv q ∧
    (a = 0 ∧ (∀ x, os_live q x ↔ os_live (reg_objs k) x) ∨
     good a ∧ a ∉ l ∧ ¬ os_live (reg_objs k) a ∧ ∀ x, os_live q x ↔ os_live (reg_objs k) x ∨ x = a).
Proof.
  intros HS. unfold alloc_region. destruct (os_alloc_law _ (si_objs _ _ _ HS)) as (q & a & -> & Hi & Hc).
  exists q, a. split; [done|]. split; [done|]. destruct Hc as [[-> ?]|(Hg & Hn & Hl)]; [by left|right].
  split; [done|]. split; [|done]. intros Ha. by apply Hn, (si_live _ _ _ HS).
Qed.

Lemma space_with_regs k q sp l :
  space_inv k sp l → os_inv q → (∀ a, a ∈ l → os_live q a) → space_inv (with_regs k q) sp l.
Proof. intros [H1 H2 H3 H4 H5 H6 H7 H8 H9] Hi Hl. by split. Qed.

(** A region is added, with its keys or without. *)
Lemma extend_inv k sp l l' a r k' v' db' heap :
  space_inv k sp l → a ∉ l → (∀ x, x ∈ l' ↔ x ∈ l ∨ x = a) → vmm_ok v' l' →
  regions v' = <[a := r]> (regions (sp_vmm sp)) → 0 ≤ last_mmap v' → last_mmap v' mod 2 ^ 16 = 0 → region_fine r →
  os_inv (reg_objs k') → (∀ x, x ∈ l' → os_live (reg_objs k') x) → kdb_ok (rec_objs k') db' →
  ((∀ key, is_key key → db_get db' key = if decide (keyed r key) then a else db_get (regions_db sp) key) ∨
   (∀ key, is_key key → db_get db' key = db_get (regions_db sp) key)) →
  space_inv k' (Space v' db' (pgdir sp) heap (heap_current sp)) l'.
Proof.
  intros HS Ha Hl' Hv ER Hm Hma Hf Hi Hlive Hdb Hg.
  assert (Et : ∀ b, b ∈ l → regions v' !!! b = regions (sp_vmm sp) !!! b).
  { intros b Hb. rewrite ER, !lookup_total_alt, lookup_insert_ne; [done|]. by intros ->. }
  assert (Ea : regions v' !!! a = r) by (by rewrite ER, lookup_total_alt, lookup_insert_eq).
  assert (Hal : a ∈ l') by (apply Hl'; auto).
  split; cbn [sp_vmm regions_db]; [exact Hv|by split|exact Hi| |exact Hlive| |exact Hdb| |].
  - intros b. rewrite ER, lookup_insert_is_Some', (si_descr _ _ _ HS), Hl'. split; intros [?|?]; auto.
  - intros b [Hb| ->]%Hl'; [rewrite Et by done; by apply (si_fine _ _ _ HS)|by rewrite Ea].
  - intros key Hk. destruct Hg as [Hg|Hg]; rewrite Hg by done.
    + case_decide as Hr; [right; by rewrite Ea|]. destruct (si_keys _ _ _ HS key Hk) as [?|[Hin Hkey]]; [by left|right].
      rewrite Et by done. split; [apply Hl'; by left|done].
    + destruct (si_keys _ _ _ HS key Hk) as [?|[Hin Hkey]]; [by left|right]. rewrite Et by done. split; [apply Hl'; by left|done].
  - assert (Hb0 : ∀ b, b ∈ l' → 0 ≤ vm_begin (regions v' !!! b)).
    { intros b Hb. destruct Hv as [_ Hok _]. rewrite Forall_forall in Hok. destruct (Hok b Hb) as (_ & ? & _). lia. }
    assert (Hdis : ∀ b key, b ∈ l → keyed (regions (sp_vmm sp) !!! b) key → ¬ keyed r key).
    { intros b key Hb Hkb Hkr. rewrite <- Et in Hkb by done. rewrite <- Ea in Hkr.
      apply keyed_iff in Hkb; [|rewrite Et by done; by apply (si_fine _ _ _ HS)|apply Hb0, Hl'; by left].
      apply keyed_iff in Hkr; [|by rewrite Ea|by apply Hb0].
      assert (a = b) as -> by (eapply (regions_disjoint v' l' a b (key * 2 ^ 16)); try done; apply Hl'; by left). done. }
    assert (Hz : ∀ key, keyed r key → is_key key ∧ db_get (regions_db sp) key = 0).
    { intros key Hkr. assert (is_key key) as Hk by (eapply keyed_key; [done| |done]; rewrite <- Ea; by apply Hb0).
      split; [done|]. destruct (si_keys _ _ _ HS key Hk) as [?|[Hin Hkey]]; [done|]. by destruct (Hdis _ key Hin). }
    intros b key Hb Hkb. apply Hl' in Hb as [Hb| ->].
    + rewrite Et in Hkb |- * by done. pose proof (si_fine _ _ _ HS b Hb) as Hfb. pose proof (si_begin _ _ _ _ HS Hb) as Hb1.
      pose proof (keyed_self _ Hfb Hb1) as Hself.
      assert (db_get db' key = db_get (regions_db sp) key ∧ ∀ j, keyed (regions (sp_vmm sp) !!! b) j → db_get db' j = db_get (regions_db sp) j) as [E1 E2].
      { assert (∀ j, keyed (regions (sp_vmm sp) !!! b) j → db_get db' j = db_get (regions_db sp) j) as E; [|by split; [apply E|]].
        intros j Hj. destruct Hg as [Hg|Hg]; rewrite Hg by (by eapply keyed_key); [|done]. rewrite decide_False; [done|by eapply Hdis]. }
      rewrite E1, E2 by done. by apply (si_whole _ _ _ HS).
    + rewrite Ea in Hkb |- *. assert (keyed r (region_key r)) as Hself by (apply keyed_self; [done|]; rewrite <- Ea; by apply Hb0).
      destruct (Hz _ Hkb) as [Hk E1]. destruct (Hz _ Hself) as [Hk2 E2].
      destruct Hg as [Hg|Hg]; rewrite !Hg by done; [by rewrite !decide_True by done|congruence].
Qed.

(** The descriptor of a request that was refused is given back. *)
Lemma refused_inv k sp l q a r q' :
  space_inv k sp l → a ∉ l → os_inv q' → (∀ x, os_live q x ↔ os_live (reg_objs k) x ∨ x = a) →
  ¬ os_live (reg_objs k) a → (∀ x, os_live q' x ↔ os_live q x ∧ x ≠ a) → good a →
  let v := with_region (new_region (sp_vmm sp) a) a r in
  let sp' := with_vmm sp (forget_region v a) in
  space_inv (with_regs k q') sp' l ∧ regions (sp_vmm sp') = regions (sp_vmm sp) ∧ keeps k sp (with_regs k q') sp'.
Proof.
  intros HS Ha Hi Hq Hna Hq' Hg v sp'.
  assert (regions (sp_vmm sp) !! a = None) as Hn by (apply eq_None_not_Some; by rewrite (si_descr _ _ _ HS)).
  assert (regions (sp_vmm sp') = regions (sp_vmm sp)) as ER by (cbn; by rewrite !insert_insert_eq, delete_insert_id).
  assert (Hlive : ∀ x, os_live q' x ↔ os_live (reg_objs k) x) by (intros x; rewrite Hq', Hq; split; [tauto|intros; split; [auto|congruence]]).
  split; [|split; [done|]].
  - destruct (new_region_ok _ _ a (si_vmm _ _ _ HS) Ha Hg) as [Hv1 Hd1].
    destruct (with_region_ok _ _ a r Hv1 Hd1) as [Hv2 _]. pose proof (forget_region_ok _ _ a Hv2 Ha) as Hv3.
    destruct HS as [H1 H2 H3 H4 H5 H6 H7 H8 H9].
    split; rewrite ?ER; [exact Hv3|exact H2|done|done| |done|done|done|done]. intros b Hb. by apply Hlive, H5.
  - split; unfold descr, recorded; rewrite ?ER; cbn; try done.
    + apply (to_inv _ _ (ko_table _ _ (si_db _ _ _ HS))).
    + intros x Hx _. by apply Hlive.
    + by left.
    + by left.
Qed.

(** What a mapping leaves of the address space. *)
Definition mapping_kept sp sp' (l : list Z) : Prop :=
  ∀ b, b ∈ l → regions (sp_vmm sp') !! b = regions (sp_vmm sp) !! b ∧ (indexed sp' b ↔ indexed sp b).

Record mapped k sp l k' sp' (a : Z) (r : vm_region_s) : Prop := Mapped {
  md_new : a ∉ l;
  md_inv : ∃ l', space_inv k' sp' l' ∧ ∀ x, x ∈ l' ↔ x ∈ l ∨ x = a;
  md_regions : regions (sp_vmm sp') = <[a := r]> (regions (sp_vmm sp));
  md_kept : mapping_kept sp sp' l }.

(** The end of a mapping: the region is attached, and its keys are bound. *)
Lemma bind_mapped k sp l q a r v heap :
  space_inv k sp l → a ∉ l → a ≠ 0 → region_fine r → 0 ≤ vm_begin r → os_inv q →
  (∀ x, os_live q x ↔ os_live (reg_objs k) x ∨ x = a) → ¬ os_live (reg_objs k) a →
  (∃ l', vmm_ok v l' ∧ ∀ x, x ∈ l' ↔ x ∈ l ∨ x = a) → regions v = <[a := r]> (regions (sp_vmm sp)) → last_mmap v = vm_begin r →
  ∃ rc db err, keysdb_bind (rec_objs k) (regions_db sp) (region_key r) (region_keys_nr r) a = Some (rc, db, err) ∧
    let k' := with_recs (with_regs k q) rc in
    let sp' := Space v db (pgdir sp) heap (heap_current sp) in
    mapped k sp l k' sp' a r ∧ keeps k sp k' sp'.
Proof.
  intros HS Ha Ha0 Hf Hb Hq Hlq Hna (l' & Hv & Hl') ER Em.
  destruct (keyed_bounds r Hf Hb) as (B1 & B2 & B3).
  destruct (keysdb_bind_ok _ _ (region_key r) (region_keys_nr r) a (si_db _ _ _ HS) B1 B2 B3) as (rc & db & err & Ex & Hdb & Hgr & Hc).
  exists rc, db, err. split; [done|]. intros k' sp'.
  assert (Hg : (∀ key, is_key key → db_get db key = if decide (keyed r key) then a else db_get (regions_db sp) key) ∨
     (∀ key, is_key key → db_get db key = db_get (regions_db sp) key)) by (destruct Hc as [(_ & _ & Hc)|[_ Hc]]; [by left|by right]).
  assert (HS' : space_inv k' sp' l').
  { eapply (extend_inv k sp l l' a r); try done; [rewrite Em; done|rewrite Em; by apply Hf|..].
    intros x [Hx| ->]%Hl'; apply Hlq; [left; by apply (si_live _ _ _ HS)|by right]. }
  assert (Et : ∀ b, b ∈ l → regions v !! b = regions (sp_vmm sp) !! b) by (intros b Hbl; rewrite ER, lookup_insert_ne; [done|by intros ->]).
  split.
  - split; [done|by exists l'|done|]. intros b Hbl. split; [by apply Et|]. unfold indexed.
    assert (regions (sp_vmm sp') !!! b = regions (sp_vmm sp) !!! b) as Eb by (by rewrite !lookup_total_alt; cbn; rewrite Et).
    rewrite Eb. cbn [regions_db sp'].
    assert (is_key (region_key (regions (sp_vmm sp) !!! b))) as Hk by apply (si_is_key k sp l b _ HS Hbl), (si_keyed k sp l b HS Hbl).
    destruct Hg as [Hg|Hg]; rewrite (Hg _ Hk); [|done]. case_decide as Hkr; [|done].
    assert (a = b) as ->; [|done]. eapply (keyed_disjoint k' sp' l' a b (region_key (regions (sp_vmm sp) !!! b)));
      [done|by apply Hl'; right|by apply Hl'; left|cbn; by rewrite ER, lookup_total_insert_eq|rewrite Eb; exact (si_keyed k sp l b HS Hbl)].
  - destruct Hgr as [G1 G2 G3]. split; unfold descr, recorded; cbn.
    + done.
    + apply (to_inv _ _ (ko_table _ _ Hdb)).
    + intros x Hx _. apply Hlq. by left.
    + intros x. rewrite ER, lookup_insert_is_Some'. intros [<-|?]; [by right|by left].
    + intros x Hx _. apply G1. by left.
    + exact G2.
Qed.

(** The region the request describes while it is being attached. *)
Lemma init_attach addr length proto offset flags :
  request_ok addr length proto flags →
  let r := vm_region_init addr (u32 (addr + length)) proto offset (Z.lor flags VM_REG_INIT) in
  with_flags r (ready_flags flags) = requested addr length proto offset flags ∧
  vm_flags r = Z.lor flags VM_REG_INIT ∧ flag (vm_flags r) VM_REG_FIXED = flag flags VM_REG_FIXED ∧
  0 ≤ vm_begin r ∧ vm_begin r < vm_end r ≤ CONFIG_USR_LIMIT.
Proof.
  intros Hrq. pose proof (requested_fine addr length proto offset flags Hrq) as Hf. destruct Hrq as [Hl Ha Hlim].
  rewrite (u32_small (addr + length)) by (unfold CONFIG_USR_LIMIT, wsize in *; lia). intros r.
  assert (with_flags r (ready_flags flags) = requested addr length proto offset flags) as E by apply init_ready.
  assert (vm_flags r = Z.lor flags VM_REG_INIT) as Efl by apply init_fields. rewrite Efl.
  assert (vm_begin r = vm_begin (requested addr length proto offset flags)) as E1 by (by rewrite <- E).
  assert (vm_end r = vm_end (requested addr length proto offset flags)) as E2 by (by rewrite <- E).
  split_and!; [done|done|by apply (init_flag flags 6)| |rewrite ?E1, ?E2; pose proof (rf_range _ Hf); lia..].
  destruct (init_fields addr (addr + length) proto offset (Z.lor flags VM_REG_INIT)) as (_ & _ & _ & _ & Eb & _).
  unfold r. rewrite Eb.
  rewrite (ARROUND_DOWN_spec addr 16) by (unfold CONFIG_USR_LIMIT, wsize in *; lia). div_lia.
Qed.

Lemma at_place_ready flags r0 r :
  at_place flags r0 r → at_place flags (with_flags r0 (ready_flags flags)) (with_flags r (ready_flags flags)).
Proof. unfold at_place. destruct (flag flags VM_REG_FIXED); [by intros ->|]. intros (start & H1 & H2 & H3 & ->). by exists start. Qed.

Lemma at_place_flags flags r0 r : at_place flags r0 r → vm_flags r = vm_flags r0.
Proof. unfold at_place. destruct (flag flags VM_REG_FIXED); [by intros ->|]. by intros (start & _ & _ & _ & ->). Qed.

Lemma at_place_fine addr length proto offset flags r :
  request_ok addr length proto flags → (flag flags VM_REG_FIXED = false → addr = 0) →
  at_place flags (requested addr length proto offset flags) r →
  region_fine r ∧ 0 ≤ vm_begin r ∧ vm_limit r = vm_start r + length ∧
  vm_prot r = vm_prot (requested addr length proto offset flags) ∧ (flag flags VM_REG_FIXED = true → vm_start r = addr).
Proof.
  intros Hrq Hz Hp. pose proof (requested_fine addr length proto offset flags Hrq) as Hf.
  destruct (init_attach addr length proto offset flags Hrq) as (E & _ & _ & Hb & _). rewrite <- E in Hp at 1.
  unfold at_place in Hp. unfold requested in *.
  destruct (init_fields addr (addr + length) proto offset (ready_flags flags)) as (E1 & E2 & _ & _ & E5 & E6).
  destruct (flag flags VM_REG_FIXED).
  - subst r. rewrite E. split; [done|]. split; [by rewrite <- E|]. rewrite E1, E2. done.
  - destruct Hp as (start & H1 & H2 & H3 & ->). rewrite E in *. rewrite (Hz eq_refl) in *. split; [|split_and!].
    + apply placed_fine; [done|rewrite E5; by vm_compute|done|done|done|done].
    + done.
    + cbn. rewrite E2, u32_small; [lia|]. pose proof (rf_range _ Hf) as Hr. rewrite E2 in Hr. unfold CONFIG_USR_LIMIT, wsize in *.
      destruct Hrq as [? _ _]. lia.
    + done.
    + done.
Qed.

Lemma vmm_mmap_ok k sp l addr length proto flags offset :
  space_inv k sp l → request_ok addr length proto flags → (flag flags VM_REG_FIXED = false → addr = 0) →
  (flag flags VM_REG_FIXED = true → range_free (sp_vmm sp) l (requested addr length proto offset flags)) →
  ∃ k' sp' res, vmm_mmap k sp addr length proto flags offset = Some (k', sp', res) ∧
    pages k' = pages k ∧ pgdir sp' = pgdir sp ∧ keeps k sp k' sp' ∧
    match res with
    | inl err => (err = ENOMEM ∨ err = EEXIST ∧ flag flags VM_REG_FIXED = true) ∧ space_inv k' sp' l ∧
        regions (sp_vmm sp') = regions (sp_vmm sp) ∧ regions_db sp' = regions_db sp
    | inr start => ∃ a r, mapped k sp l k' sp' a r ∧ start = vm_start r ∧ at_place flags (requested addr length proto offset flags) r
    end.
Proof.
  intros HS Hrq Hz Hfree. unfold vmm_mmap.
  destruct (alloc_region_ok k sp l HS) as (q & a & -> & Hq & Hc). cbn [mbind option_bind].
  destruct Hc as [[-> Hl]|(Hg & Ha & Hna & Hl)].
  - cbn [Z.eqb]. eexists _, sp, _. split; [done|]. split; [done|]. split; [done|]. split.
    + split; cbn; auto; [apply (to_inv _ _ (ko_table _ _ (si_db _ _ _ HS)))|]. intros x Hx _. by apply Hl.
    + split; [by left|]. split; [|done]. apply space_with_regs; [done|done|]. intros b Hb. by apply Hl, (si_live _ _ _ HS).
  - rewrite (proj2 (Z.eqb_neq a 0)) by apply Hg.
    destruct (init_attach addr length proto offset flags Hrq) as (E & Efl & Efx & Hb & He).
    set (r0 := vm_region_init _ _ _ _ _) in *. set (v := with_region _ a r0).
    destruct (new_region_ok _ _ a (si_vmm _ _ _ HS) Ha Hg) as [Hv1 Hd1]. destruct (with_region_ok _ _ a r0 Hv1 Hd1) as [Hv2 Hd2].
    assert (Et : ∀ b, b ∈ l → regions v !!! b = regions (sp_vmm sp) !!! b).
    { intros b Hbl. cbn. rewrite !lookup_total_alt, !lookup_insert_ne; [done|by intros ->..]. }
    destruct (attach_ok v l a r0 Hv2 Hd2 (lookup_insert_eq _ _ _) Hb He) as (v' & err & Ex & Hc);
      [apply (si_last _ _ _ HS)..|intros b Hbl; rewrite Et by done; by apply (si_fine _ _ _ HS)| |].
    { rewrite Efx. intros Hfx b Hbl. rewrite Et by done. specialize (Hfree Hfx b Hbl). by rewrite <- E in Hfree. }
    cbn [sp_vmm with_vmm]. rewrite Ex. cbn [mbind option_bind]. destruct Hc as [[Herr ->]|(-> & r' & Hpl & l1 & l2 & El & Hv' & ER & Em)].
    + assert (ctrue err = true) as -> by (destruct Herr as [->|[-> _]]; done). rewrite Efx in Herr. unfold free_region.
      destruct (os_free_law q a Hq) as (q' & Ef & Hq' & Hl'); [apply Hl; by right|]. cbn [reg_objs with_regs]. rewrite Ef. cbn [mbind option_bind].
      destruct (refused_inv k sp l q a r0 q' HS Ha Hq' Hl Hna Hl' Hg) as (R1 & R2 & R3).
      eexists _, _, _. split; [done|]. by split_and!.
    + cbn [ctrue Z.eqb negb]. destruct (request_flags _ _ _ _ Hrq) as [-> Eh]. cbn [andb negb cassert mbind option_bind].
      rewrite ER, lookup_insert_eq. cbn [mbind option_bind].
      rewrite Eh.
      assert (vm_flags r' = vm_flags r0) as Efl' by (by eapply at_place_flags).
      rewrite Efl', Efl. fold (ready_flags flags). set (r := with_flags r' (ready_flags flags)).
      assert (at_place flags (requested addr length proto offset flags) r) as Hpr.
      { rewrite <- E. apply at_place_ready. unfold at_place in *. by rewrite Efx in Hpl. }
      destruct (at_place_fine addr length proto offset flags r Hrq Hz Hpr) as (Hf & Hb0 & _).
      destruct (bind_mapped k sp l q a r (with_region v' a r) (heap_region sp)) as (rc & db & err & Ebd & HM & HK); try done.
      { apply Hg. }
      { exists (l1 ++ a :: l2). split; [apply (reset_region_ok v' _ a r'); [done|by rewrite ER, lookup_insert_eq|done..]|].
        intros x. rewrite El, !elem_of_app, elem_of_cons. tauto. }
      { cbn. rewrite ER. unfold v. cbn. by rewrite !insert_insert_eq. }
      cbn [rec_objs with_regs regions_db with_vmm]. rewrite Ebd. cbn [mbind option_bind].
      eexists _, _, _. split; [done|]. split; [done|]. split; [done|]. split; [done|]. by exists a, r.
Qed.

(** ** Removal *)

(** A region leaves with its keys. *)
Lemma shrink_inv k sp l l' a k' v' db' :
  space_inv k sp l → a ∈ l → (∀ x, x ∈ l' ↔ x ∈ l ∧ x ≠ a) → vmm_ok v' l' →
  regions v' = delete a (regions (sp_vmm sp)) → 0 ≤ last_mmap v' → last_mmap v' mod 2 ^ 16 = 0 →
  os_inv (reg_objs k') → (∀ x, x ∈ l' → os_live (reg_objs k') x) → kdb_ok (rec_objs k') db' →
  (∀ key, is_key key → db_get db' key = if decide (keyed (regions (sp_vmm sp) !!! a) key) then 0 else db_get (regions_db sp) key) →
  let sp' := Space v' db' (pgdir sp) (heap_region sp) (heap_current sp) in
  space_inv k' sp' l' ∧ mapping_kept sp sp' l'.
Proof.
  intros HS Ha Hl' Hv ER Hm Hma Hi Hlive Hdb Hg sp'.
  assert (El : ∀ b, b ∈ l' → regions v' !! b = regions (sp_vmm sp) !! b).
  { intros b [_ Hb]%Hl'. by rewrite ER, lookup_delete_ne. }
  assert (Et : ∀ b, b ∈ l' → regions v' !!! b = regions (sp_vmm sp) !!! b) by (intros b Hb; by rewrite !lookup_total_alt, El).
  assert (Hkept : ∀ b key, b ∈ l' → keyed (regions (sp_vmm sp) !!! b) key → db_get db' key = db_get (regions_db sp) key).
  { intros b key [Hb Hne]%Hl' Hk. rewrite Hg by (by eapply si_is_key). rewrite decide_False; [done|].
    intros Hka. by apply Hne, (keyed_disjoint k sp l b a key). }
  split; [split; cbn [sp_vmm regions_db sp']; [exact Hv|by split|exact Hi| |exact Hlive| |exact Hdb| |]|].
  - intros b. rewrite ER, lookup_delete_is_Some, (si_descr _ _ _ HS), Hl'. assert (a ≠ b ↔ b ≠ a) by (split; congruence). tauto.
  - intros b Hb. rewrite Et by done. apply (si_fine _ _ _ HS). by apply Hl'.
  - intros key Hk. rewrite Hg by done. case_decide as Hka; [by left|].
    destruct (si_keys _ _ _ HS key Hk) as [?|[Hin Hkey]]; [by left|right].
    assert (db_get (regions_db sp) key ∈ l') as Hin' by (apply Hl'; split; [done|]; intros E; by rewrite E in Hkey).
    by rewrite Et.
  - intros b key Hb Hk. rewrite Et in * by done. assert (b ∈ l) as Hbl by (by apply Hl').
    rewrite !(Hkept b) by (done || by eapply si_keyed). by apply (si_whole _ _ _ HS).
  - intros b Hb. split; [by apply El|]. unfold indexed. cbn [sp_vmm regions_db sp']. rewrite Et by done.
    rewrite (Hkept b); [done|done|]. eapply si_keyed; [done|]. by apply Hl'.
Qed.

Lemma vm_region_detach_ok k sp l a s' :
  space_inv k sp l → a ∈ l → vm_region_unmap (pages k) (pgdir sp) (regions (sp_vmm sp) !!! a) = Some s' →
  ∃ k' sp' l', vm_region_detach k sp a = Some (k', sp') ∧ pages k' = s' ∧ pgdir sp' = pgdir sp ∧ keeps k sp k' sp' ∧
    space_inv k' sp' l' ∧ (∀ x, x ∈ l' ↔ x ∈ l ∧ x ≠ a) ∧
    regions (sp_vmm sp') = delete a (regions (sp_vmm sp)) ∧ mapping_kept sp sp' l'.
Proof.
  intros HS Ha Hun. pose proof (si_fine _ _ _ HS a Ha) as Hf. pose proof (si_begin _ _ _ _ HS Ha) as Hb.
  pose proof (si_lookup _ _ _ _ HS Ha) as Er. set (r := regions (sp_vmm sp) !!! a) in *.
  pose proof Ha as (l1 & l2 & ->)%list_elem_of_split.
  destruct (detach_ok _ l1 a l2 (si_vmm _ _ _ HS)) as (v & Ex & Hv & Hd & ER & _ & Em).
  assert (Hl' : ∀ x, x ∈ l1 ++ l2 ↔ x ∈ l1 ++ a :: l2 ∧ x ≠ a).
  { pose proof (de_new _ _ _ Hd) as Hn. intros x. rewrite !elem_of_app, elem_of_cons. rewrite elem_of_app in Hn.
    split; [|tauto]. intros Hx. split; [tauto|]. intros ->. tauto. }
  unfold vm_region_detach. rewrite Ex. cbn [mbind option_bind]. rewrite ER, Er. cbn [mbind option_bind].
  rewrite (rf_lazy _ Hf). destruct (keyed_bounds r Hf Hb) as (B1 & B2 & B3).
  destruct (keysdb_unbind_ok _ _ (region_key r) (region_keys_nr r) (si_db _ _ _ HS) B1 B2 B3) as (db & Eu & Hdb & Hrec & Hg).
  cbn [regions_db with_vmm]. rewrite Eu. cbn [mbind option_bind]. rewrite (rf_shared _ Hf), (rf_refs _ Hf). cbn [andb negb cassert Z.leb Z.compare Pos.compare mbind option_bind].
  cbn [pgdir with_db with_vmm]. rewrite Hun. cbn [mbind option_bind]. unfold free_region.
  destruct (os_free_law (reg_objs k) a (si_objs _ _ _ HS) (si_live _ _ _ HS a Ha)) as (q & Eq & Hq & Hlq).
  cbn [reg_objs with_pages]. rewrite Eq. cbn [mbind option_bind]. eexists _, _, (l1 ++ l2). split; [done|]. split; [done|]. split; [done|].
  destruct (shrink_inv k sp (l1 ++ a :: l2) (l1 ++ l2) a (with_regs (with_pages k s') q) (forget_region v a) db HS Ha Hl') as [HS' HK]; try done.
  - apply forget_region_ok; [done|apply Hd].
  - cbn. by rewrite ER.
  - cbn. rewrite Em. case_match; [done|apply (si_last _ _ _ HS)].
  - cbn. rewrite Em. case_match; [apply Hf|apply (si_last _ _ _ HS)].
  - intros x [Hx Hne]%Hl'. cbn. apply Hlq. split; [by apply (si_live _ _ _ HS)|done].
  - split; [|split; [exact HS'|split; [exact Hl'|split; [cbn; by rewrite ER|exact HK]]]]. split; unfold descr, recorded; cbn.
    + done.
    + apply (to_inv _ _ (ko_table _ _ Hdb)).
    + intros x Hx Hn. apply Hlq. split; [done|]. intros ->. apply Hn. by rewrite Er.
    + intros x. rewrite ER, lookup_delete_is_Some. intros [_ ?]. by left.
    + done.
    + intros x Hx. left. by apply Hrec.
Qed.

(** ** Search *)

Definition covers (r : vm_region_s) (va : Z) : Prop := vm_start r ≤ va < vm_limit r.

#[export] Instance covers_dec r va : Decision (covers r va).
Proof. unfold covers. apply _. Defined.

Lemma covers_keyed r va : region_fine r → 0 ≤ vm_begin r → covers r va → keyed r (Z.shiftr va CONFIG_VM_REGION_KEYWIDTH).
Proof. intros Hf Hb Hc. rewrite keyed_va by done. pose proof (rf_range _ Hf). unfold covers in Hc. lia. Qed.

Lemma covers_unique k sp l a b va :
  space_inv k sp l → a ∈ l → b ∈ l → covers (regions (sp_vmm sp) !!! a) va → covers (regions (sp_vmm sp) !!! b) va → a = b.
Proof.
  intros HS Ha Hb Hca Hcb. eapply (keyed_disjoint k sp l a b (Z.shiftr va CONFIG_VM_REGION_KEYWIDTH)); [done|done|done|..];
    (apply covers_keyed; [by apply (si_fine _ _ _ HS)|by eapply si_begin|done]).
Qed.

Lemma va_key va : 0 ≤ va < wsize → is_key (Z.shiftr va CONFIG_VM_REGION_KEYWIDTH).
Proof. unfold is_key, wsize, CONFIG_VM_REGION_KEYWIDTH. intros Hva. rewrite Z.shiftr_div_pow2 by done. div_lia. Qed.

(** The database knows an address exactly when it knows the region of the address. *)
Lemma db_covers k sp l a va :
  space_inv k sp l → 0 ≤ va < wsize → a ∈ l → covers (regions (sp_vmm sp) !!! a) va →
  let b := db_get (regions_db sp) (Z.shiftr va CONFIG_VM_REGION_KEYWIDTH) in b = 0 ∧ ¬ indexed sp a ∨ b = a ∧ indexed sp a.
Proof.
  intros HS Hva Ha Hc b. pose proof (si_fine _ _ _ HS a Ha) as Hf. pose proof (si_begin _ _ _ _ HS Ha) as Hb.
  pose proof (covers_keyed _ _ Hf Hb Hc) as Hk. pose proof (si_whole _ _ _ HS a _ Ha Hk) as Ew. fold b in Ew. unfold indexed. rewrite <- Ew.
  destruct (si_keys _ _ _ HS _ (va_key va Hva)) as [E|[Hin Hkb]].
  - left. fold b in E. split; [done|]. rewrite E. intros E0. by apply (si_nonzero _ _ _ _ HS Ha).
  - right. fold b in Hin, Hkb. assert (b = a) as -> by (by eapply (keyed_disjoint k sp l b a)). done.
Qed.

(** The test of the region that was found. *)
Definition outside (r : vm_region_s) (va : Z) : bool := (vm_limit r <? va) || (va <? vm_start r).

Lemma outside_covers r va : vm_limit r ≠ va → outside r va = false ↔ covers r va.
Proof. intros Hl. unfold outside, covers. rewrite orb_false_iff, !Z.ltb_ge. lia. Qed.

(** When a region ends at the address, the last of its keys is used up to its end: the region is
    then not found at that address. *)
Definition ends_full (r : vm_region_s) (va : Z) : Prop := vm_limit r = va → vm_end r = va.

Lemma found_covers r va : ends_full r va → va < vm_end r → outside r va = false ↔ covers r va.
Proof. intros Hl He. apply outside_covers. intros E. specialize (Hl E). lia. Qed.

Lemma covers_inside k sp l a va :
  space_inv k sp l → a ∈ l → covers (regions (sp_vmm sp) !!! a) va → outside (regions (sp_vmm sp) !!! a) va = false.
Proof. intros HS Ha Hc. apply outside_covers; [unfold covers in Hc; lia|done]. Qed.

Lemma keyed_end r va : region_fine r → 0 ≤ vm_begin r → keyed r (Z.shiftr va CONFIG_VM_REGION_KEYWIDTH) → va < vm_end r.
Proof. intros Hf Hb. rewrite keyed_va by done. lia. Qed.

Lemma fault_region_ok k sp l va :
  space_inv k sp l → 0 ≤ va < wsize → (∀ a, a ∈ l → ends_full (regions (sp_vmm sp) !!! a) va) →
  ∃ b miss, fault_region sp va = Some (b, miss) ∧
    (b ∈ l ∧ covers (regions (sp_vmm sp) !!! b) va ∧ (if miss : bool then ¬ indexed sp b else indexed sp b) ∨
     (∀ a, a ∈ l → ¬ covers (regions (sp_vmm sp) !!! a) va) ∧ (b = 0 ∨ b ∈ l ∧ outside (regions (sp_vmm sp) !!! b) va = true)).
Proof.
  intros HS Hva Hlim. unfold fault_region.
  destruct (lookup_eq (rec_objs k) _ _ (ko_table _ _ (si_db _ _ _ HS)) (va_key va Hva)) as [-> _]. cbn [mbind option_bind].
  set (b := db_get _ _). destruct (Z.eqb_spec b 0) as [Eb|Eb].
  - rewrite (vm_region_find_ok _ _ va (si_vmm _ _ _ HS)). cbn [mbind option_bind]. eexists _, true. split; [done|].
    pose proof (first_above_spec (regions (sp_vmm sp)) va l (vo_sorted _ _ (si_vmm _ _ _ HS))) as Hfa.
    set (c := first_above _ _ _) in *. destruct Hfa as [[Ec Hn]|(Hc & Hcv & Hmin)].
    + right. split; [|by left]. intros a Ha Hca. pose proof (rf_range _ (si_fine _ _ _ HS a Ha)). specialize (Hn a Ha). unfold covers in Hca. lia.
    + destruct (outside (regions (sp_vmm sp) !!! c) va) eqn:Eo.
      * right. split; [|by right]. intros a Ha Hca. destruct (Hmin a Ha) as [->|Hbel].
        { pose proof (rf_range _ (si_fine _ _ _ HS a Ha)). unfold covers in Hca. lia. }
        { by rewrite (covers_inside k sp l c va HS Hc Hca) in Eo. }
        { pose proof (rf_range _ (si_fine _ _ _ HS a Ha)). unfold covers, below in *. lia. }
      * left. apply found_covers in Eo; [|by apply Hlim|done]. split; [done|]. split; [done|].
        destruct (db_covers k sp l c va HS Hva Hc Eo) as [[_ ?]|[E _]]; [done|]. fold b in E.
        destruct (si_nonzero _ _ _ _ HS Hc). congruence.
  - eexists b, false. split; [done|]. destruct (si_keys _ _ _ HS _ (va_key va Hva)) as [?|[Hin Hkb]]; [done|]. fold b in Hin, Hkb.
    destruct (outside (regions (sp_vmm sp) !!! b) va) eqn:Eo.
    + right. split; [|by right]. intros a Ha Hca. assert (a = b) as ->; [|by rewrite (covers_inside k sp l b va HS Hin Hca) in Eo].
      destruct (db_covers k sp l a va HS Hva Ha Hca) as [[E _]|[E _]]; [done|]. by fold b in E.
    + left. apply found_covers in Eo; [|by apply Hlim|by eapply keyed_end; [apply (si_fine _ _ _ HS)|eapply si_begin|]]. split; [done|]. split; [done|].
      destruct (db_covers k sp l b va HS Hva Hin Eo) as [[E _]|[_ ?]]; [by fold b in E|done].
Qed.

(** ** The database after a miss *)

Lemma reindex_inv k sp l a rc db' :
  space_inv k sp l → a ∈ l → kdb_ok rc db' →
  ((∀ key, is_key key → db_get db' key = if decide (keyed (regions (sp_vmm sp) !!! a) key) then a else db_get (regions_db sp) key) ∨
   (∀ key, is_key key → db_get db' key = db_get (regions_db sp) key)) →
  space_inv (with_recs k rc) (with_db sp db') l ∧ ∀ b, b ∈ l → b ≠ a → indexed (with_db sp db') b ↔ indexed sp b.
Proof.
  intros HS Ha Hdb Hg.
  assert (Hkept : ∀ b key, b ∈ l → b ≠ a → keyed (regions (sp_vmm sp) !!! b) key → db_get db' key = db_get (regions_db sp) key).
  { intros b key Hb Hne Hk. destruct Hg as [Hg|Hg]; rewrite Hg by (by eapply si_is_key); [|done].
    rewrite decide_False; [done|]. intros Hka. by apply Hne, (keyed_disjoint k sp l b a key). }
  split.
  - pose proof HS as [H1 H2 H3 H4 H5 H6 H7 H8 H9]. split; try done; cbn [sp_vmm regions_db with_db].
    + intros key Hk. destruct Hg as [Hg|Hg]; rewrite Hg by done; [case_decide; [by right|]|]; by apply H8.
    + intros b key Hb Hk. destruct (decide (b = a)) as [->|Hne].
      * pose proof (si_keyed _ _ _ _ HS Ha) as Hs. pose proof (si_is_key _ _ _ _ _ HS Ha Hs). pose proof (si_is_key _ _ _ _ _ HS Ha Hk).
        destruct Hg as [Hg|Hg]; rewrite !Hg by done; [by rewrite !decide_True by done|by apply H9].
      * rewrite !(Hkept b) by (done || by eapply si_keyed). by apply H9.
  - intros b Hb Hne. unfold indexed. cbn [sp_vmm regions_db with_db]. rewrite (Hkept b); [done|done|done|by eapply si_keyed].
Qed.

Lemma vmm_keysdb_update_ok k sp l a :
  space_inv k sp l → a ∈ l →
  ∃ k' sp', vmm_keysdb_update k sp a = Some (k', sp') ∧ pages k' = pages k ∧ pgdir sp' = pgdir sp ∧ sp_vmm sp' = sp_vmm sp ∧
    keeps k sp k' sp' ∧ space_inv k' sp' l ∧ ∀ b, b ∈ l → b ≠ a → indexed sp' b ↔ indexed sp b.
Proof.
  intros HS Ha. pose proof (si_fine _ _ _ HS a Ha) as Hf. pose proof (si_begin _ _ _ _ HS Ha) as Hb.
  unfold vmm_keysdb_update. rewrite (si_lookup _ _ _ _ HS Ha). cbn [mbind option_bind].
  destruct (keyed_bounds _ Hf Hb) as (B1 & B2 & B3).
  destruct (keysdb_bind_ok _ _ _ _ a (si_db _ _ _ HS) B1 B2 B3) as (rc & db & err & -> & Hdb & [G1 G2 G3] & Hc).
  cbn [mbind option_bind]. eexists _, _. split; [done|]. split; [done|]. split; [done|]. split; [done|].
  destruct (reindex_inv k sp l a rc db HS Ha Hdb) as [HS' Hix]; [destruct Hc as [(_ & _ & Hc)|[_ Hc]]; [by left|by right]|].
  split; [|by split]. split; unfold descr, recorded; cbn; auto.
  - apply (si_objs _ _ _ HS).
  - apply (to_inv _ _ (ko_table _ _ Hdb)).
  - intros x Hx _. apply G1. by left.
Qed.

(** ** Faults *)

Lemma space_keeps_refl k sp l : space_inv k sp l → keeps k sp k sp.
Proof.
  intros HS. split; auto; [apply (si_objs _ _ _ HS)|apply (to_inv _ _ (ko_table _ _ (si_db _ _ _ HS)))].
Qed.

Lemma space_keeps_trans k sp k1 sp1 k2 sp2 : keeps k sp k1 sp1 → keeps k1 sp1 k2 sp2 → keeps k sp k2 sp2.
Proof.
  intros [A1 A2 A3 A4 A5 A6] [B1 B2 B3 B4 B5 B6]. split; [done|done|..].
  - intros x Hx Hn. apply B3; [by apply A3|]. intros Hd. by destruct (A4 x Hd).
  - intros x [Hd|Hn]%B4; [by apply A4|]. destruct (regions (sp_vmm sp) !! x) as [y|] eqn:E; [left; unfold descr; rewrite E; eauto|right].
    intros Hx. apply Hn, A3; [done|]. unfold descr. rewrite E. by intros [? ?].
  - intros x Hx Hn. apply B5; [by apply A5|]. intros Hd. by destruct (A6 x Hd).
  - intros x [Hd|Hn]%B6; [by apply A6|]. destruct (records (regions_db sp) !! x) as [y|] eqn:E; [left; unfold recorded; rewrite E; eauto|right].
    intros Hx. apply Hn, A5; [done|]. unfold recorded. rewrite E. by intros [? ?].
Qed.

(** A fault changes the database at most, and only about the region of the fault. *)
Record faulted k sp l k' sp' (a : Z) : Prop := Faulted {
  ft_inv : space_inv k' sp' l;
  ft_pgdir : pgdir sp' = pgdir sp;
  ft_vmm : sp_vmm sp' = sp_vmm sp;
  ft_keeps : keeps k sp k' sp';
  ft_same b : b ∈ l → b ≠ a → indexed sp' b ↔ indexed sp b;
  ft_grow : indexed sp a → indexed sp' a }.

Lemma faulted_refl k sp l a : space_inv k sp l → faulted k sp l k sp a.
Proof. intros HS. split; auto. by eapply space_keeps_refl. Qed.

Lemma faulted_trans k sp l k1 sp1 k2 sp2 a : faulted k sp l k1 sp1 a → faulted k1 sp1 l k2 sp2 a → faulted k sp l k2 sp2 a.
Proof.
  intros [A1 A2 A3 A4 A5 A6] [B1 B2 B3 B4 B5 B6]. split; [done|congruence|congruence|by eapply space_keeps_trans| |auto].
  intros b Hb Hne. by rewrite B5, A5.
Qed.

Lemma faulted_pages k sp l k' sp' a s : faulted k sp l k' sp' a → faulted k sp l (with_pages k' s) sp' a.
Proof.
  intros [A1 A2 A3 A4 A5 A6]. split; [|done|done| |done|done].
  - by destruct A1.
  - by destruct A4.
Qed.

Lemma handler_refuses k sp l va flags :
  space_inv k sp l → 0 ≤ va < wsize → (∀ a, a ∈ l → ends_full (regions (sp_vmm sp) !!! a) va) →
  pmm_except_isInKernelMode flags = false →
  (IN_USPACE va = true → ∀ a, a ∈ l → ¬ covers (regions (sp_vmm sp) !!! a) va) →
  vmm_fault_handler k sp false va flags = Some (k, sp, VMM_ESIGBUS).
Proof.
  intros HS Hva Hlim Hm Hno. unfold vmm_fault_handler, NOT_IN_USPACE. rewrite Hm.
  destruct (IN_USPACE va); [|done]. specialize (Hno eq_refl). cbn [negb].
  destruct (fault_region_ok k sp l va HS Hva Hlim) as (b & miss & -> & Hc). cbn [mbind option_bind].
  destruct Hc as [(Hb & Hcv & _)|[_ Hb]]; [by destruct (Hno b Hb)|].
  destruct Hb as [->|[Hb Ho]]; [done|]. rewrite (proj2 (Z.eqb_neq b 0)) by (by eapply si_nonzero).
  rewrite (si_lookup _ _ _ _ HS Hb). cbn [mbind option_bind]. unfold outside in Ho. by rewrite Ho.
Qed.

Lemma handler_ok k sp l a va flags s err :
  space_inv k sp l → 0 ≤ va < wsize → (∀ a, a ∈ l → ends_full (regions (sp_vmm sp) !!! a) va) → IN_USPACE va = true →
  a ∈ l → covers (regions (sp_vmm sp) !!! a) va →
  vm_region_update (pages k) (pgdir sp) (regions (sp_vmm sp) !!! a) va flags = Some (s, err) →
  ∃ k' sp', vmm_fault_handler k sp false va flags = Some (k', sp', if ctrue err then VMM_ESIGBUS else VMM_ERESOLVED) ∧
    pages k' = s ∧ faulted k sp l k' sp' a.
Proof.
  intros HS Hva Hlim Hu Ha Hcv Eu. unfold vmm_fault_handler, NOT_IN_USPACE. rewrite Hu. cbn [negb].
  destruct (fault_region_ok k sp l va HS Hva Hlim) as (b & miss & -> & Hc). cbn [mbind option_bind].
  destruct Hc as [(Hb & Hcb & Hix)|[Hno _]]; [|by destruct (Hno a Ha)].
  assert (b = a) as -> by (by eapply (covers_unique k sp l b a va)). clear Hb Hcb.
  rewrite (proj2 (Z.eqb_neq a 0)) by (by eapply si_nonzero). rewrite (si_lookup _ _ _ _ HS Ha). cbn [mbind option_bind].
  fold (outside (regions (sp_vmm sp) !!! a) va). rewrite (covers_inside k sp l a va HS Ha Hcv).
  assert (∃ k1 sp1, (if miss then vmm_keysdb_update k sp a else Some (k, sp)) = Some (k1, sp1) ∧ pages k1 = pages k ∧ faulted k sp l k1 sp1 a)
    as (k1 & sp1 & -> & Ep & Hft).
  { destruct miss; [|exists k, sp; split; [done|]; split; [done|]; by apply faulted_refl].
    destruct (vmm_keysdb_update_ok k sp l a HS Ha) as (k1 & sp1 & E & E1 & E2 & E3 & E4 & E5 & E6).
    exists k1, sp1. split; [done|]. split; [done|]. by split. }
  cbn [mbind option_bind]. rewrite (ft_vmm _ _ _ _ _ _ Hft), (si_lookup _ _ _ _ HS Ha). cbn [mbind option_bind].
  rewrite Ep, (ft_pgdir _ _ _ _ _ _ Hft), Eu. cbn [mbind option_bind]. eexists _, _. split; [done|]. split; [done|]. by apply faulted_pages.
Qed.

(** The accesses of a task are those of [user_access] on the region of the address; every
    refusal is a bus error. *)
Definition as_bus_error (r : access) : access :=
  match r with Done a => Done a | Refused _ => Refused VMM_ESIGBUS end.

Lemma task_access_ok mmu_report fuel k sp l a (w : bool) va s r :
  (∀ i, pmm_except_isInKernelMode (mmu_report i w) = false) →
  space_inv k sp l → 0 ≤ va < wsize → (∀ a, a ∈ l → ends_full (regions (sp_vmm sp) !!! a) va) → IN_USPACE va = true →
  a ∈ l → covers (regions (sp_vmm sp) !!! a) va →
  user_access mmu_report fuel (pages k) (pgdir sp) (regions (sp_vmm sp) !!! a) w va = Some (s, r) →
  ∃ k' sp', task_access mmu_report fuel k sp w va = Some (k', sp', as_bus_error r) ∧ pages k' = s ∧ faulted k sp l k' sp' a.
Proof.
  intros Hm. revert k sp. induction fuel as [|fuel IH]; intros k sp HS Hva Hlim Hu Ha Hcv Ex; [done|].
  cbn [user_access task_access] in *. destruct (translate _ _ _ _) as [x|].
  - injection Ex as <- <-. exists k, sp. split; [done|]. split; [done|]. by apply faulted_refl.
  - destruct (vm_region_update _ _ _ _ _) as [[s1 err]|] eqn:Eu; [|done]. cbn [mbind option_bind] in Ex.
    destruct (handler_ok k sp l a va _ s1 err HS Hva Hlim Hu Ha Hcv Eu) as (k1 & sp1 & -> & Ep & Hft). cbn [mbind option_bind].
    destruct (ctrue err).
    + injection Ex as <- <-. exists k1, sp1. by split.
    + pose proof (ft_vmm _ _ _ _ _ _ Hft) as Ev. cbn [Z.eqb VMM_ERESOLVED].
      destruct (IH k1 sp1) as (k2 & sp2 & E2 & Ep2 & Hft2); rewrite ?Ev; try done; [apply Hft|by rewrite Ep, (ft_pgdir _ _ _ _ _ _ Hft)|].
      exists k2, sp2. split; [done|]. split; [done|]. by eapply faulted_trans.
Qed.
End spaces.
