(* ===== verification/VmmSystem.v ===== *)
(** * Address spaces as a system

    Tasks that map and unmap memory and read and write it, on the structures of the virtual
    memory manager: regions on a list and in a tree, the database of keys, page tables, counted
    pages and object caches.  They behave as the abstract machine that knows only, for each task,
    which ranges are mapped and what the pages hold. *)

From S2P Require Import Prelude Clist Bits Rbtree Page Pmm VmRegion VmSpace VmSystem.
From S2P Require Import Cow CowTables CowSpec CowSystem Isolation Objects Keysdb KeysdbSys Vmm VmmSpec.

Open Scope Z_scope.

#[local] Opaque zero_page.

(** ** Calls *)

(** [d] is the page directory of the task; [Clone] is the part of fork that duplicates the
    address space, for a child with the directory [dst] and a page for its database. *)
Inductive call :=
  | Mmap (d : Z) (attr : mmap_attr)
  | Munmap (d addr length : Z)
  | Read (d va : Z)
  | Write (d va v : Z)
  | Clone (src dst page : Z).

Inductive reply := Start (addr : Z) | Status (err : Z) | Byte (v : Z) | Written | Signal (code : Z).

(** ** The abstract machine *)

(** The end of a region, its access rights, and whether the kernel finds it by its address. *)
Record aregion := ARegion { ar_limit : Z; ar_prot : Z; ar_indexed : bool }.

(** The regions of the tasks by their start, and their pages. *)
Abbreviation map_of_tasks := (gmap (Z * Z) aregion).

Definition inside (G : map_of_tasks) (d va start : Z) (r : aregion) : Prop :=
  G !! (d, start) = Some r ∧ start ≤ va < ar_limit r.

(** An access may let the kernel learn about the region. *)
Definition learnt (G G' : map_of_tasks) (d start : Z) : Prop :=
  G' = G ∨ ∃ r, G !! (d, start) = Some r ∧ G' = <[(d, start) := ARegion (ar_limit r) (ar_prot r) true]> G.

(** The regions of a child are not in its database. *)
Definition unlearnt (r : aregion) : aregion := ARegion (ar_limit r) (ar_prot r) false.

(** The rights of a region: what can be written can be read. *)
Definition granted (prot : Z) : Z := if flag prot VM_REG_WR then Z.lor prot VM_REG_RD else prot.

(** The requests [sys_mmap] refuses. *)
Definition bad_attr (attr : mmap_attr) : bool :=
  let flags := ma_flags attr in
  flag flags VM_REG_HEAP || (Z.land flags VM_REG_PVSH =? VM_REG_PVSH) || (Z.land flags VM_REG_PVSH =? 0) ||
  (ma_length attr =? 0) || ctrue (Z.land (ma_offset attr) (PMM_PAGE_SIZE - 1)) ||
  negb (ma_addr attr =? 0) &&
  (ctrue (Z.land (ma_addr attr) (PMM_PAGE_SIZE - 1)) ||
   NOT_IN_USPACE (u32 (ma_length attr + ma_addr attr)) || NOT_IN_USPACE (ma_addr attr)).

(** An address the tasks may use. *)
Definition user_va (va : Z) : Prop := CONFIG_USR_OFFSET ≤ va < CONFIG_USR_LIMIT.

Inductive spec : call → map_of_tasks → memory_of_tasks → reply → map_of_tasks → memory_of_tasks → Prop :=
  | s_mmap d attr G V start ix :
      bad_attr attr = false →
      (if flag (ma_flags attr) VM_REG_FIXED then start = ma_addr attr else start mod 2 ^ 16 = 0) →
      0 ≤ start → start + ma_length attr ≤ CONFIG_USR_LIMIT →
      (∀ s r, G !! (d, s) = Some r → ar_limit r ≤ start ∨ start + ma_length attr ≤ s) →
      (∀ n, start ≤ n * PMM_PAGE_SIZE < start + ma_length attr → V !! (d, n) = None) →
      spec (Mmap d attr) G V (Start start)
        (<[(d, start) := ARegion (start + ma_length attr) (granted (ma_prot attr)) ix]> G) V
  | s_mmap_invalid d attr G V : bad_attr attr = true → spec (Mmap d attr) G V (Status EINVAL) G V
  | s_mmap_refused d attr G V err :
      bad_attr attr = false → err = ENOMEM ∨ err = EEXIST ∧ flag (ma_flags attr) VM_REG_FIXED = true →
      spec (Mmap d attr) G V (Status err) G V
  | s_munmap d addr length G V V' r :
      G !! (d, addr) = Some r → ar_indexed r = true → ar_limit r = addr + length →
      (∀ e n, V' !! (e, n) = if decide (e = d ∧ addr ≤ n * PMM_PAGE_SIZE < addr + length) then None else V !! (e, n)) →
      spec (Munmap d addr length) G V (Status 0) (delete (d, addr) G) V'
  | s_munmap_part d addr length G V s r err :
      inside G d addr s r → ar_indexed r = true → ¬ (s = addr ∧ ar_limit r = addr + length) →
      err = (if addr + length <? ar_limit r then ENOSYS else 0) →
      spec (Munmap d addr length) G V (Status err) G V
  | s_munmap_unknown d addr length G V :
      (∀ s r, inside G d addr s r → ar_indexed r = false) → spec (Munmap d addr length) G V (Status EINVAL) G V
  | s_read d va G V s r G' pg :
      user_va va → inside G d va s r → learnt G G' d s →
      touch V (d, page_of_va va) !! (d, page_of_va va) = Some pg →
      spec (Read d va) G V (Byte (pg !!! Z.to_nat (va mod PMM_PAGE_SIZE))) G' (touch V (d, page_of_va va))
  | s_write d va v G V s r G' :
      user_va va → inside G d va s r → learnt G G' d s → flag (ar_prot r) VM_REG_WR = true →
      spec (Write d va v) G V Written G'
        (alter (insert (Z.to_nat (va mod PMM_PAGE_SIZE)) v) (d, page_of_va va) (touch V (d, page_of_va va)))
  | s_readonly d va v G V s r G' :
      user_va va → inside G d va s r → learnt G G' d s → flag (ar_prot r) VM_REG_WR = false →
      spec (Write d va v) G V (Signal VMM_ESIGBUS) G' V
  | s_nomem c d va G V s r G' :
      c = Read d va ∨ (∃ v, c = Write d va v ∧ flag (ar_prot r) VM_REG_WR = true) →
      user_va va → inside G d va s r → learnt G G' d s →
      spec c G V (Signal VMM_ESIGBUS) G' (delete (d, page_of_va va) V)
  | s_unmapped c d va G V :
      c = Read d va ∨ (∃ v, c = Write d va v) → (user_va va → ∀ s r, ¬ inside G d va s r) →
      spec c G V (Signal VMM_ESIGBUS) G V
  | s_clone src dst page G V G' V' :
      (∀ s, G' !! (dst, s) = unlearnt <$> G !! (src, s)) → (∀ e s, e ≠ dst → G' !! (e, s) = G !! (e, s)) →
      (∀ n, V' !! (dst, n) = V !! (src, n)) → (∀ e n, e ≠ dst → V' !! (e, n) = V !! (e, n)) →
      spec (Clone src dst page) G V (Status 0) G' V'.

(** ** The machine *)

Section machine.
Context {A R Q : Type} `{FrameAllocatorLaws A} `{!PageRefs A} `{!PageRefsLaws A}.
Context `{RS : ObjectSource R} `{RL : !ObjectSourceLaws R} `{QS : ObjectSource Q} `{QL : !ObjectSourceLaws Q}.
Context (mmu_report : page_info → bool → Z) (D : gset Z).
Implicit Types (k : kernel A R Q) (sp : space) (M : mapping).

(** The kernel and the address spaces, by their page directories. *)
Record world := World { w_kernel : kernel A R Q; w_spaces : gmap Z space }.

Definition exec (c : call) (w : world) : option (world * reply) :=
  let k := w_kernel w in
  match c with
  | Mmap d attr =>
      sp ← w_spaces w !! d; '(k, sp, r) ← sys_mmap k sp attr;
      Some (World k (<[d := sp]> (w_spaces w)), match r with inl err => Status err | inr addr => Start addr end)
  | Munmap d addr length =>
      sp ← w_spaces w !! d; '(k, sp, err) ← vmm_munmap k sp addr length;
      Some (World k (<[d := sp]> (w_spaces w)), Status err)
  | Read d va =>
      sp ← w_spaces w !! d; '(k, sp, r) ← task_access mmu_report 2 k sp false va;
      Some (World k (<[d := sp]> (w_spaces w)), match r with Done x => Byte (pmem (pages k) x) | Refused code => Signal code end)
  | Write d va v =>
      sp ← w_spaces w !! d; '(k, sp, r) ← task_store mmu_report 2 k sp va v;
      Some (World k (<[d := sp]> (w_spaces w)), match r with Done _ => Written | Refused code => Signal code end)
  | Clone src dst page =>
      sp ← w_spaces w !! src; '(k, child, err) ← vmm_dup k sp page (inl dst);
      Some (World k (match child with Some c => <[dst := c]> (w_spaces w) | None => w_spaces w end), Status err)
  end.

(** The region of a page. *)
Definition region_at sp (n : Z) : option vm_region_s :=
  if n * PMM_PAGE_SIZE <? CONFIG_USR_OFFSET then None else
  a ← vm_region_find (sp_vmm sp) (n * PMM_PAGE_SIZE);
  r ← regions (sp_vmm sp) !! a;
  if (vm_start r <=? n * PMM_PAGE_SIZE) && (n * PMM_PAGE_SIZE <? vm_limit r) then Some r else None.

Definition layout_of (sps : gmap Z space) : layout := λ d n, sp ← sps !! d; region_at sp n.

(** The address is not the limit of a region that ends inside its last key: the handler grants
    that address. *)
Definition not_limit sp (va : Z) : Prop := ∀ a r, regions (sp_vmm sp) !! a = Some r → ends_full r va.

(** What the callers respect: requests for private anonymous memory in whole small pages; a
    fixed range is free above its start. *)
Definition attr_ok sp (attr : mmap_attr) : Prop :=
  0 ≤ ma_addr attr < wsize ∧ 0 ≤ ma_length attr ≤ CONFIG_USR_LIMIT ∧
  (bad_attr attr = false →
    let flags := ma_flags attr in
    ma_length attr mod PMM_PAGE_SIZE = 0 ∧ flag (ma_prot attr) VM_REG_RD || flag (ma_prot attr) VM_REG_WR = true ∧
    flag flags VM_REG_ANON = true ∧ flag flags VM_REG_SHARED = false ∧
    flag flags VM_REG_HUGETLB = false ∧ flag flags VM_REG_LAZY = false ∧
    (flag flags VM_REG_FIXED = true → ∀ a r, regions (sp_vmm sp) !! a = Some r →
       let r0 := requested (ma_addr attr) (ma_length attr) (ma_prot attr) 0 flags in
       vm_begin r0 < vm_begin r → vm_end r0 ≤ vm_begin r)).

(** The child of a fork before its regions are there. *)
Definition child_space sp (dst page : Z) : option space :=
  init ← vmm_init sp page;
  match init with
  | inl c => Some (Space (sp_vmm c) (regions_db c) dst (heap_region c) (heap_current c))
  | inr _ => None
  end.

(** A fork adds at most one reference to a page for each page of the user space, and it is
    called while there is memory left for it. *)
Definition clone_ok (w : world) sp (dst page : Z) : Prop :=
  (∀ p c m, pr_held (palloc (pages (w_kernel w))) p → pr_page (palloc (pages (w_kernel w))) p = Some (c, m) →
     c + CONFIG_USR_LIMIT / PMM_PAGE_SIZE < wsize) ∧
  ∀ child st, child_space sp dst page = Some child → dup_regions (w_kernel w) sp child = Some st → ds_fail st = None.

Definition call_ok (w : world) (c : call) : Prop :=
  match c with
  | Mmap d attr => ∃ sp, w_spaces w !! d = Some sp ∧ attr_ok sp attr
  | Munmap d addr length => ∃ sp, w_spaces w !! d = Some sp ∧
      0 ≤ addr ∧ 0 ≤ length ∧ addr + length < wsize ∧ not_limit sp addr
  | Read d va | Write d va _ => ∃ sp, w_spaces w !! d = Some sp ∧ 0 ≤ va < wsize ∧ not_limit sp va
  | Clone src dst page => ∃ sp, w_spaces w !! src = Some sp ∧ dst ∈ D ∧ w_spaces w !! dst = None ∧ page ≠ 0 ∧
      clone_ok w sp dst page
  end.

(** ** The invariant *)

Record world_ok (w : world) M : Prop := WorldOk {
  wo_machine : machine_ok D (layout_of (w_spaces w)) (pages (w_kernel w)) M;
  wo_settled : all_settled D (pages (w_kernel w));
  wo_space d sp : w_spaces w !! d = Some sp → d ∈ D ∧ pgdir sp = d ∧ ∃ l, space_inv (w_kernel w) sp l;
  wo_disjoint d e sp sp' x : w_spaces w !! d = Some sp → w_spaces w !! e = Some sp' → d ≠ e →
    (descr sp x → ¬ descr sp' x) ∧ (recorded sp x → ¬ recorded sp' x) }.

(** The abstract map of the address spaces. *)
Definition shows_region sp (s : Z) (x : aregion) : Prop :=
  ∃ a r, regions (sp_vmm sp) !! a = Some r ∧ vm_start r = s ∧
    ar_limit x = vm_limit r ∧ ar_prot x = vm_prot r ∧ (ar_indexed x = true ↔ indexed sp a).

Definition shows (sps : gmap Z space) (G : map_of_tasks) : Prop :=
  ∀ d s x, G !! (d, s) = Some x ↔ ∃ sp, sps !! d = Some sp ∧ shows_region sp s x.

(** ** Regions and pages *)

Lemma page_covers r va : region_fine r → covers r va ↔ covers r (page_of_va va * PMM_PAGE_SIZE).
Proof.
  intros Hf. pose proof (rf_start _ Hf). pose proof (rf_limit _ Hf). unfold covers, page_of_va, PMM_PAGE_SIZE in *. div_lia.
Qed.

Lemma region_at_spec k sp l n r :
  space_inv k sp l →
  region_at sp n = Some r ↔
    CONFIG_USR_OFFSET ≤ n * PMM_PAGE_SIZE ∧ ∃ a, a ∈ l ∧ regions (sp_vmm sp) !!! a = r ∧ covers r (n * PMM_PAGE_SIZE).
Proof.
  intros HS. unfold region_at. set (x := n * PMM_PAGE_SIZE). destruct (Z.ltb_spec x CONFIG_USR_OFFSET) as [Hx|Hx]; [split; [done|lia]|].
  rewrite (vm_region_find_ok _ _ x (si_vmm _ _ _ HS)). cbn [mbind option_bind].
  pose proof (first_above_spec (regions (sp_vmm sp)) x l (vo_sorted _ _ (si_vmm _ _ _ HS))) as Hfa.
  set (c := first_above _ _ _) in *.
  assert (Hcov : ∀ a, a ∈ l → covers (regions (sp_vmm sp) !!! a) x → x < vm_end (regions (sp_vmm sp) !!! a) ∧
            vm_begin (regions (sp_vmm sp) !!! a) ≤ x).
  { intros a Ha Hc. pose proof (rf_range _ (si_fine _ _ _ HS a Ha)). unfold covers in Hc. lia. }
  destruct Hfa as [[Ec Hn]|(Hc & Hcv & Hmin)].
  - rewrite Ec. destruct (regions (sp_vmm sp) !! 0) as [r0|] eqn:E0.
    { assert (0 ∈ l) as H0l by (apply (si_descr _ _ _ HS); eauto). by destruct (si_nonzero _ _ _ _ HS H0l). }
    split; [done|]. intros (_ & a & Ha & <- & Hca). destruct (Hcov a Ha Hca). specialize (Hn a Ha). lia.
  - rewrite (si_lookup _ _ _ _ HS Hc). cbn [mbind option_bind]. split.
    + destruct (_ && _) eqn:Eb; [|done]. intros [= <-]. split; [done|]. exists c. split; [done|]. split; [done|]. unfold covers. lia.
    + intros (_ & a & Ha & <- & Hca). destruct (Hcov a Ha Hca) as [H1 H2]. destruct (Hmin a Ha H1) as [->|Hb]; [|unfold below in Hb; lia].
      unfold covers in Hca. by rewrite (proj2 (Z.leb_le _ _)), (proj2 (Z.ltb_lt _ _)) by lia.
Qed.

Lemma region_at_none k sp l n :
  space_inv k sp l → CONFIG_USR_OFFSET ≤ n * PMM_PAGE_SIZE → region_at sp n = None →
  ∀ a, a ∈ l → ¬ covers (regions (sp_vmm sp) !!! a) (n * PMM_PAGE_SIZE).
Proof.
  intros HS Hn E a Ha Hc. assert (region_at sp n = Some (regions (sp_vmm sp) !!! a)) as E'; [|congruence].
  apply (region_at_spec k sp l n _ HS). split; [done|]. by exists a.
Qed.

(** ** One address space at a time *)

Lemma layout_insert sps d sp e n : layout_of (<[d := sp]> sps) e n = if decide (e = d) then region_at sp n else layout_of sps e n.
Proof.
  unfold layout_of. case_decide as E; [subst; by rewrite lookup_insert_eq|by rewrite lookup_insert_ne by done].
Qed.

Lemma step_space w M d sp k' sp' l' M' :
  world_ok w M → w_spaces w !! d = Some sp → keeps (w_kernel w) sp k' sp' → pgdir sp' = pgdir sp → space_inv k' sp' l' →
  machine_ok D (layout_of (<[d := sp']> (w_spaces w))) (pages k') M' →
  all_settled D (pages k') → world_ok (World k' (<[d := sp']> (w_spaces w))) M'.
Proof.
  intros [W1 W2 W3 W4] Hd HK Ep HS' HM' Hs'. destruct (W3 d sp Hd) as (HdD & Epd & l & HS).
  assert (Ho : ∀ e o, e ≠ d → w_spaces w !! e = Some o →
     (∃ lo, space_inv k' o lo) ∧ (∀ x, descr o x → ¬ descr sp' x) ∧ ∀ x, recorded o x → ¬ recorded sp' x).
  { intros e o Hne He. destruct (W3 e o He) as (_ & _ & lo & HSo).
    destruct (other_kept (w_kernel w) sp k' sp' o lo HSo HK) as (K1 & K2 & K3); [intros x; apply (W4 e d); done..|].
    split; [by exists lo|done]. }
  split; cbn [w_kernel w_spaces]; [done|done|..].
  - intros e o. destruct (decide (e = d)) as [->|Hne].
    + rewrite lookup_insert_eq. intros [= <-]. split; [done|]. split; [congruence|]. by exists l'.
    + rewrite lookup_insert_ne by done. intros He. destruct (W3 e o He) as (? & ? & _). destruct (Ho e o Hne He) as [? _]. done.
  - intros e f o o' x He Hf Hne. destruct (decide (e = d)) as [->|He'], (decide (f = d)) as [->|Hf'].
    + done.
    + rewrite lookup_insert_eq in He. injection He as <-. rewrite lookup_insert_ne in Hf by done.
      destruct (Ho f o' Hf' Hf) as (_ & O1 & O2). split; intros H1 H2; [by apply (O1 x)|by apply (O2 x)].
    + rewrite lookup_insert_eq in Hf. injection Hf as <-. rewrite lookup_insert_ne in He by done.
      destruct (Ho e o He' He) as (_ & O1 & O2). split; [apply O1|apply O2].
    + rewrite !lookup_insert_ne in * by done. by apply (W4 e f).
Qed.

(** ** Accesses *)

Definition reports_ok : Prop :=
  report_ok mmu_report ∧ ∀ i w, pmm_except_isInKernelMode (mmu_report i w) = false.

Context (Hrep : reports_ok).

Lemma user_space va : 0 ≤ va < wsize → IN_USPACE va = true ↔ user_va va.
Proof.
  intros Hva. unfold IN_USPACE, user_va, s32, CONFIG_USR_OFFSET, CONFIG_USR_LIMIT. rewrite u32_small by done. unfold wsize in *.
  destruct (Z.ltb_spec va (2 ^ 31)); lia.
Qed.

Lemma not_limit_in k sp l va : space_inv k sp l → not_limit sp va → ∀ a, a ∈ l → ends_full (regions (sp_vmm sp) !!! a) va.
Proof. intros HS Hn a Ha. apply (Hn a). exact (si_lookup _ _ _ _ HS Ha). Qed.

(** The abstract region of a descriptor. *)
Lemma shows_inside k sps G d sp l va a :
  shows sps G → sps !! d = Some sp → space_inv k sp l → a ∈ l → covers (regions (sp_vmm sp) !!! a) va →
  ∃ x, inside G d va (vm_start (regions (sp_vmm sp) !!! a)) x ∧
    G !! (d, vm_start (regions (sp_vmm sp) !!! a)) = Some x ∧
    ar_limit x = vm_limit (regions (sp_vmm sp) !!! a) ∧ ar_prot x = vm_prot (regions (sp_vmm sp) !!! a) ∧ (ar_indexed x = true ↔ indexed sp a).
Proof.
  intros HG Hd HS Ha Hc. set (r := regions (sp_vmm sp) !!! a) in *.
  set (x := ARegion (vm_limit r) (vm_prot r) (bool_decide (indexed sp a))).
  assert (G !! (d, vm_start r) = Some x) as E.
  { apply HG. exists sp. split; [done|]. exists a, r. split_and!; try done; [exact (si_lookup _ _ _ _ HS Ha)|]. cbn. apply bool_decide_eq_true. }
  exists x. split_and!; try done. cbn. apply bool_decide_eq_true.
Qed.

Lemma shows_covers k sps G d sp l va s x :
  shows sps G → sps !! d = Some sp → space_inv k sp l → inside G d va s x →
  ∃ a, a ∈ l ∧ covers (regions (sp_vmm sp) !!! a) va ∧ vm_start (regions (sp_vmm sp) !!! a) = s ∧
    ar_limit x = vm_limit (regions (sp_vmm sp) !!! a) ∧ ar_prot x = vm_prot (regions (sp_vmm sp) !!! a) ∧ (ar_indexed x = true ↔ indexed sp a).
Proof.
  intros HG Hd HS [Hx Hr]. apply HG in Hx as (sp0 & E & a & r & Ea & <- & El & Ep & Ei). rewrite Hd in E. injection E as <-.
  exists a. rewrite (lookup_total_correct _ _ _ Ea). rewrite El in Hr. split; [apply (si_descr _ _ _ HS); eauto|]. by split_and!.
Qed.

Lemma shows_step sps G G' d sp' :
  shows sps G → (∀ s x, G' !! (d, s) = Some x ↔ shows_region sp' s x) →
  (∀ e s, e ≠ d → G' !! (e, s) = G !! (e, s)) → shows (<[d := sp']> sps) G'.
Proof.
  intros HG Hd Ho e s x. destruct (decide (e = d)) as [->|Hne].
  - rewrite Hd, lookup_insert_eq. split; [intros Hx; by exists sp'|]. by intros (? & [= <-] & Hx).
  - rewrite Ho, lookup_insert_ne by done. apply HG.
Qed.

Lemma shows_here sps G d sp : shows sps G → sps !! d = Some sp → ∀ s x, G !! (d, s) = Some x ↔ shows_region sp s x.
Proof. intros HG Hd s x. rewrite (HG d s x), Hd. split; [by intros (? & [= <-] & Hx)|intros Hx; by exists sp]. Qed.

(** The start of a region tells which it is. *)
Lemma start_unique k sp l a b r r' :
  space_inv k sp l → regions (sp_vmm sp) !! a = Some r → regions (sp_vmm sp) !! b = Some r' → vm_start r = vm_start r' → a = b ∧ r = r'.
Proof.
  intros HS Ha Hb E. assert (a ∈ l) as Hal by (apply (si_descr _ _ _ HS); eauto). assert (b ∈ l) as Hbl by (apply (si_descr _ _ _ HS); eauto).
  assert (a = b) as ->; [|split; congruence]. pose proof (rf_range _ (si_fine _ _ _ HS a Hal)) as R1. pose proof (rf_range _ (si_fine _ _ _ HS b Hbl)) as R2.
  rewrite (lookup_total_correct _ _ _ Ha) in R1. rewrite (lookup_total_correct _ _ _ Hb) in R2.
  apply (covers_unique k sp l a b (vm_start r) HS Hal Hbl); unfold covers;
    [rewrite (lookup_total_correct _ _ _ Ha)|rewrite (lookup_total_correct _ _ _ Hb)]; lia.
Qed.

Lemma shows_faulted k sps G d sp l k' sp' a :
  shows sps G → sps !! d = Some sp → space_inv k sp l → a ∈ l → faulted k sp l k' sp' a →
  ∃ G', learnt G G' d (vm_start (regions (sp_vmm sp) !!! a)) ∧ shows (<[d := sp']> sps) G'.
Proof.
  intros HG Hd HS Ha Hft. pose proof (shows_here _ _ _ _ HG Hd) as HGd. pose proof (si_lookup _ _ _ _ HS Ha) as Ea.
  set (r := regions (sp_vmm sp) !!! a) in *.
  assert (Hother : ∀ b r', regions (sp_vmm sp) !! b = Some r' → b ≠ a → indexed sp' b ↔ indexed sp b).
  { intros b r' Hb Hne. apply (ft_same _ _ _ _ _ _ Hft); [|done]. apply (si_descr _ _ _ HS). eauto. }
  destruct (decide (indexed sp' a ↔ indexed sp a)) as [Hsame|Hdiff].
  - exists G. split; [by left|]. apply (shows_step sps G); [done| |done]. intros s x. rewrite HGd.
    unfold shows_region. rewrite (ft_vmm _ _ _ _ _ _ Hft). split; intros (b & rb & Hb & H1 & H2 & H3 & H4); exists b, rb; (split_and!; [done|done|done|done|]);
      rewrite H4; (destruct (decide (b = a)) as [->|Hne]; [done|by rewrite (Hother b rb)]).
  - assert (¬ indexed sp a) as Hn by (intros Hi; apply Hdiff; split; [done|by intros _; apply (ft_grow _ _ _ _ _ _ Hft)]).
    assert (indexed sp' a) as Hy by (destruct (decide (indexed sp' a)); [done|]; by destruct Hdiff).
    destruct (G !! (d, vm_start r)) as [x0|] eqn:E0.
    2:{ assert (∃ x, G !! (d, vm_start r) = Some x) as [x Hx]; [|congruence].
        exists (ARegion (vm_limit r) (vm_prot r) false). apply HGd. exists a, r. by split_and!. }
    exists (<[(d, vm_start r) := ARegion (ar_limit x0) (ar_prot x0) true]> G). split; [right; by exists x0|].
    pose proof (proj1 (HGd _ _) E0) as (a0 & r0 & Ha0 & Hs0 & Hl0 & Hp0 & _).
    destruct (start_unique k sp l a0 a r0 r HS Ha0 Ea Hs0) as [-> ->].
    apply (shows_step sps G); [done| |intros e s Hne; by rewrite lookup_insert_ne by congruence].
    intros s x. unfold shows_region. rewrite (ft_vmm _ _ _ _ _ _ Hft). rewrite lookup_insert_Some. split.
    + intros [[[= <-] <-]|[Hne Hx]]; [exists a, r; by split_and!|].
      apply HGd in Hx as (b & rb & Hb & H1 & H2 & H3 & H4). exists b, rb. split_and!; try done. rewrite H4.
      symmetry. apply (Hother b rb Hb). intros ->. apply Hne. rewrite Ea in Hb. injection Hb as <-. by rewrite H1.
    + intros (b & rb & Hb & H1 & H2 & H3 & H4). destruct (decide (b = a)) as [->|Hne].
      * left. rewrite Ea in Hb. injection Hb as <-. rewrite H1. split; [done|]. destruct x as [xl xp xi]. cbn in *. f_equal; [congruence|congruence|].
        symmetry. by apply H4.
      * right. split; [intros [= E]; by destruct (start_unique k sp l b a rb r HS Hb Ea) as [? _]; [congruence|]|].
        apply HGd. exists b, rb. split_and!; try done. by rewrite H4, (Hother b rb).
Qed.

Lemma machine_ext (L L' : layout) (s : pstate A) M : (∀ e n, L' e n = L e n) → machine_ok D L s M → machine_ok D L' s M.
Proof. intros E [HI Hs]. split; [done|]. intros e n He Hn. rewrite E. by apply Hs. Qed.

Lemma layout_same sps d sp sp' : sps !! d = Some sp → sp_vmm sp' = sp_vmm sp → ∀ e n, layout_of (<[d := sp']> sps) e n = layout_of sps e n.
Proof. intros Hd Ev e n. rewrite layout_insert. case_decide as E; [|done]. subst. unfold layout_of. rewrite Hd. unfold region_at. cbn. by rewrite Ev. Qed.

Lemma layout_covers k sps d sp l a va :
  space_inv k sp l → sps !! d = Some sp → user_va va → a ∈ l → covers (regions (sp_vmm sp) !!! a) va →
  layout_of sps d (page_of_va va) = Some (regions (sp_vmm sp) !!! a).
Proof.
  intros HS Hd Hu Ha Hc. unfold layout_of. rewrite Hd. apply (region_at_spec k sp l _ _ HS). split.
  - unfold user_va, CONFIG_USR_OFFSET, page_of_va, PMM_PAGE_SIZE in *. div_lia.
  - exists a. split; [done|]. split; [done|]. by apply (page_covers _ va (si_fine _ _ _ HS a Ha)).
Qed.

(** An access to a mapped page. *)
Lemma access_world w M G d sp l a va (wr : bool) :
  world_ok w M → shows (w_spaces w) G → w_spaces w !! d = Some sp → space_inv (w_kernel w) sp l →
  0 ≤ va < wsize → user_va va → not_limit sp va → a ∈ l → covers (regions (sp_vmm sp) !!! a) va →
  (wr = true → flag (vm_prot (regions (sp_vmm sp) !!! a)) VM_REG_WR = true) →
  let n := page_of_va va in let V := view (pages (w_kernel w)) M in
  ∃ k' sp' res M' G', task_access mmu_report 2 (w_kernel w) sp wr va = Some (k', sp', res) ∧
    world_ok (World k' (<[d := sp']> (w_spaces w))) M' ∧ shows (<[d := sp']> (w_spaces w)) G' ∧
    learnt G G' d (vm_start (regions (sp_vmm sp) !!! a)) ∧
    ((∃ p, res = Done (frame_of p * PMM_PAGE_SIZE + va mod PMM_PAGE_SIZE) ∧ M' !! (d, n) = Some p ∧
           allows wr (attr (entry (pages k') d n)) = true ∧ view (pages k') M' = touch V (d, n)) ∨
     res = Refused VMM_ESIGBUS ∧ view (pages k') M' = delete (d, n) V).
Proof.
  intros HW HG Hd HS Hva Hu Hlim Ha Hc Hwr n V. destruct (wo_space _ _ HW d sp Hd) as (HdD & Epd & _).
  pose proof (layout_covers _ _ d sp l a va HS Hd Hu Ha Hc) as HL.
  destruct (access_sim mmu_report D _ (proj1 Hrep) _ M d va _ wr (wo_machine _ _ HW) HdD Hva HL Hwr) as (s' & r & M' & Ex & HM' & Hset & Hr).
  rewrite <- Epd in Ex at 1.
  destruct (task_access_ok mmu_report 2 (w_kernel w) sp l a wr va s' r (λ i, proj2 Hrep i wr) HS Hva) as (k' & sp' & Et & Ep & Hft);
    [by eapply not_limit_in|by apply user_space|done|done|done|].
  destruct (shows_faulted _ _ _ d sp l k' sp' a HG Hd HS Ha Hft) as (G' & Hle & HG').
  exists k', sp', (as_bus_error r), M', G'. split; [done|]. split; [|split; [done|split; [done|]]].
  - eapply (step_space w M d sp k' sp' l M' HW Hd); [apply Hft|apply Hft|apply Hft| |rewrite Ep; apply Hset, HW].
    rewrite Ep. eapply machine_ext; [|exact HM']. apply (layout_same _ d sp); [done|apply Hft].
  - rewrite Ep. destruct Hr as [(p & -> & Hr)|(-> & Hr)]; [left; exists p|right]; done.
Qed.

(** An access elsewhere. *)
Lemma access_unmapped w M G d sp l va (wr : bool) :
  world_ok w M → shows (w_spaces w) G → w_spaces w !! d = Some sp → space_inv (w_kernel w) sp l →
  0 ≤ va < wsize → not_limit sp va → (user_va va → ∀ a, a ∈ l → ¬ covers (regions (sp_vmm sp) !!! a) va) →
  task_access mmu_report 2 (w_kernel w) sp wr va = Some (w_kernel w, sp, Refused VMM_ESIGBUS).
Proof.
  intros HW HG Hd HS Hva Hlim Hno. destruct (wo_space _ _ HW d sp Hd) as (HdD & Epd & _).
  assert (attr (entry (pages (w_kernel w)) d (page_of_va va)) = 0) as Ea.
  { pose proof (mo_suits _ _ _ _ (wo_machine _ _ HW) d (page_of_va va) HdD (va_page _ Hva)) as Hs.
    destruct (layout_of (w_spaces w) d (page_of_va va)) as [r|] eqn:EL; [|done]. unfold layout_of in EL. rewrite Hd in EL.
    apply (region_at_spec _ sp l _ _ HS) in EL as (Hoff & a & Ha & <- & Hc).
    pose proof (si_fine _ _ _ HS a Ha) as Hf. apply (page_covers _ va Hf) in Hc. destruct (Hno) with (a := a); [|done|done].
    pose proof (rf_range _ Hf). unfold covers, user_va, page_of_va, CONFIG_USR_OFFSET, PMM_PAGE_SIZE in *. div_lia. }
  cbn [task_access]. rewrite translate_entry, Epd. fold (page_of_va va). unfold allows. rewrite Ea, Z.testbit_0_l. cbn [andb].
  rewrite (handler_refuses _ sp l va _ HS Hva); [done|by eapply not_limit_in|apply Hrep|].
  intros Hu. by apply Hno, user_space.
Qed.

(** ** Refinement *)

Definition refines (c : call) (w : world) M (G : map_of_tasks) : Prop :=
  ∃ w' r M' G', exec c w = Some (w', r) ∧ world_ok w' M' ∧ shows (w_spaces w') G' ∧
    spec c G (view (pages (w_kernel w)) M) r G' (view (pages (w_kernel w')) M').

(** A task sees a region at an address, or none. *)
Lemma mapped_cases k sps G d sp l va :
  shows sps G → sps !! d = Some sp → space_inv k sp l →
  (user_va va ∧ ∃ a x, a ∈ l ∧ covers (regions (sp_vmm sp) !!! a) va ∧ inside G d va (vm_start (regions (sp_vmm sp) !!! a)) x ∧
     ar_prot x = vm_prot (regions (sp_vmm sp) !!! a)) ∨
  ((user_va va → ∀ a, a ∈ l → ¬ covers (regions (sp_vmm sp) !!! a) va) ∧ (user_va va → ∀ s x, ¬ inside G d va s x)).
Proof.
  intros HG Hd HS. destruct (decide (CONFIG_USR_OFFSET ≤ va ∧ va < CONFIG_USR_LIMIT)) as [Hu|Hu]; [|right; split; intros Hu'; by destruct Hu].
  assert (CONFIG_USR_OFFSET ≤ page_of_va va * PMM_PAGE_SIZE) as Hp
    by (unfold CONFIG_USR_OFFSET, page_of_va, PMM_PAGE_SIZE in *; div_lia).
  destruct (region_at sp (page_of_va va)) as [r|] eqn:Er.
  - left. split; [done|]. apply (region_at_spec k sp l _ _ HS) in Er as (_ & a & Ha & <- & Hc).
    apply (page_covers _ va (si_fine _ _ _ HS a Ha)) in Hc.
    destruct (shows_inside k sps G d sp l va a HG Hd HS Ha Hc) as (x & Hin & _ & _ & Hpr & _). by exists a, x.
  - right. assert (∀ a, a ∈ l → ¬ covers (regions (sp_vmm sp) !!! a) va) as Hno.
    { intros a Ha Hc. apply (page_covers _ va (si_fine _ _ _ HS a Ha)) in Hc. by eapply region_at_none. }
    split; [done|]. intros _ s x Hin. destruct (shows_covers k sps G d sp l va s x HG Hd HS Hin) as (a & Ha & Hc & _). by apply (Hno a).
Qed.

Lemma insert_same (w : world) d sp : w_spaces w !! d = Some sp → World (w_kernel w) (<[d := sp]> (w_spaces w)) = w.
Proof. intros Hd. rewrite insert_id by done. by destruct w. Qed.

Lemma read_refines w M G d va : world_ok w M → shows (w_spaces w) G → call_ok w (Read d va) → refines (Read d va) w M G.
Proof.
  intros HW HG (sp & Hd & Hva & Hlim). destruct (wo_space _ _ HW d sp Hd) as (_ & _ & l & HS).
  unfold refines, exec. rewrite Hd. cbn [mbind option_bind].
  destruct (mapped_cases _ _ G d sp l va HG Hd HS) as [(Hu & a & x & Ha & Hc & Hin & _)|[Hno Hno']].
  - destruct (access_world w M G d sp l a va false HW HG Hd HS Hva Hu Hlim Ha Hc) as (k' & sp' & res & M' & G' & -> & HW' & HG' & Hle & Hr); [done|].
    cbn [mbind option_bind]. eexists _, _, M', G'. split; [done|]. split; [done|]. split; [done|]. cbn [w_kernel].
    destruct Hr as [(p & -> & Hp & _ & Hv)|(-> & Hv)]; rewrite Hv.
    + rewrite <- (content_lookup _ _ _ (va_offset va)). eapply s_read; [done|exact Hin|done|]. rewrite <- Hv. unfold view. by rewrite lookup_fmap, Hp.
    + eapply s_nomem; [by left|done|exact Hin|done].
  - rewrite (access_unmapped w M G d sp l va false) by done. cbn [mbind option_bind].
    eexists _, _, M, G. split; [done|]. rewrite (insert_same w d sp Hd). split; [done|]. split; [done|]. eapply s_unmapped; [by left|done].
Qed.

(** The byte is written to the page of the task. *)
Lemma store_world w M d n p o v :
  world_ok w M → d ∈ D → page_no n → M !! (d, n) = Some p → allows true (attr (entry (pages (w_kernel w)) d n)) = true →
  0 ≤ o < PMM_PAGE_SIZE →
  let s := pages (w_kernel w) in
  let k' := with_pages (w_kernel w) (PState (wr (pmem s) (frame_of p * PMM_PAGE_SIZE + o) v) (palloc s)) in
  world_ok (World k' (w_spaces w)) M ∧ view (pages k') M = alter (insert (Z.to_nat o) v) (d, n) (view s M).
Proof.
  intros [[HI Hs] W2 W3 W4] Hd Hn Hp Hal Ho s k'. apply andb_true_iff in Hal as [_ H26]. cbn [negb orb] in H26.
  destruct (store_ok D s M d n p o v HI Hd Hn Hp H26 Ho) as (HI2 & Hse & Hv2). split; [|done]. split; cbn [w_kernel w_spaces pages with_pages k'].
  - split; [done|]. intros e m He Hm. rewrite Hse by done. by apply Hs.
  - intros e m He Hm. rewrite Hse by done. by apply W2.
  - intros e o' He. destruct (W3 e o' He) as (? & ? & lo & [S1 S2 S3 S4 S5 S6 S7 S8 S9]). split; [done|]. split; [done|]. by exists lo.
  - done.
Qed.

Lemma readonly_refines w M G d sp l a x va v :
  world_ok w M → shows (w_spaces w) G → w_spaces w !! d = Some sp → space_inv (w_kernel w) sp l →
  0 ≤ va < wsize → user_va va → not_limit sp va → a ∈ l → covers (regions (sp_vmm sp) !!! a) va →
  inside G d va (vm_start (regions (sp_vmm sp) !!! a)) x → ar_prot x = vm_prot (regions (sp_vmm sp) !!! a) →
  flag (ar_prot x) VM_REG_WR = false → refines (Write d va v) w M G.
Proof.
  intros HW HG Hd HS Hva Hu Hlim Ha Hc Hin Hpr HWr. destruct (wo_space _ _ HW d sp Hd) as (HdD & Epd & _).
  unfold refines, exec, task_store. rewrite Hd. cbn [mbind option_bind].
  pose proof (layout_covers _ _ d sp l a va HS Hd Hu Ha Hc) as HL. pose proof HWr as HWr'. rewrite Hpr in HWr'.
  pose proof (readonly_sim mmu_report D _ (proj1 Hrep) _ M d va _ (wo_machine _ _ HW) HdD Hva HL HWr') as Ex. rewrite <- Epd in Ex at 1.
  destruct (task_access_ok mmu_report 2 _ sp l a true va _ _ (λ i, proj2 Hrep i true) HS Hva (not_limit_in _ _ _ _ HS Hlim)
    (proj2 (user_space va Hva) Hu) Ha Hc Ex) as (k' & sp' & -> & Ep & Hft). cbn [mbind option_bind as_bus_error].
  destruct (shows_faulted _ _ _ d sp l k' sp' a HG Hd HS Ha Hft) as (G' & Hle & HG').
  eexists _, _, M, G'. split; [done|]. cbn [w_kernel w_spaces]. split; [|split; [done|rewrite Ep; by eapply s_readonly]].
  eapply (step_space w M d sp k' sp' l M HW Hd); [apply Hft|apply Hft|apply Hft|rewrite Ep|rewrite Ep; apply HW].
  eapply machine_ext; [|apply HW]. apply (layout_same _ d sp); [done|apply Hft].
Qed.

Lemma write_refines w M G d va v : world_ok w M → shows (w_spaces w) G → call_ok w (Write d va v) → refines (Write d va v) w M G.
Proof.
  intros HW HG (sp & Hd & Hva & Hlim). destruct (wo_space _ _ HW d sp Hd) as (HdD & _ & l & HS). pose proof (va_page _ Hva) as Hn.
  destruct (mapped_cases _ _ G d sp l va HG Hd HS) as [(Hu & a & x & Ha & Hc & Hin & Hpr)|[Hno Hno']].
  2:{ unfold refines, exec, task_store. rewrite Hd. cbn [mbind option_bind]. rewrite (access_unmapped w M G d sp l va true) by done. cbn [mbind option_bind].
      eexists _, _, M, G. split; [done|]. rewrite (insert_same w d sp Hd). split; [done|]. split; [done|]. eapply s_unmapped; [right; by exists v|done]. }
  destruct (flag (ar_prot x) VM_REG_WR) eqn:HWr; [|by eapply readonly_refines].
  unfold refines, exec, task_store. rewrite Hd. cbn [mbind option_bind].
  destruct (access_world w M G d sp l a va true HW HG Hd HS Hva Hu Hlim Ha Hc) as (k' & sp' & res & M' & G' & -> & HW' & HG' & Hle & Hr); [by rewrite <- Hpr|].
  cbn [mbind option_bind]. destruct Hr as [(p & -> & Hp & Hal & Hv)|(-> & Hv)].
  - destruct (store_world _ M' d (page_of_va va) p (va mod PMM_PAGE_SIZE) v HW' HdD Hn Hp Hal (va_offset va)) as [HW2 Hv2].
    eexists _, _, M', G'. split; [done|]. split; [exact HW2|]. split; [done|]. cbn [w_kernel] in *. rewrite Hv2, Hv. by eapply s_write.
  - eexists _, _, M', G'. split; [done|]. split; [done|]. split; [done|]. cbn [w_kernel]. rewrite Hv.
    eapply s_nomem; [right; by exists v|done|exact Hin|done].
Qed.

(** ** Unmapping *)

Lemma in_range_covers r d e n :
  region_fine r → 0 ≤ vm_begin r →
  in_range (page_of_va (vm_start r)) (region_pages r) (e, n) d ↔ e = d ∧ covers r (n * PMM_PAGE_SIZE).
Proof.
  intros Hf Hb. pose proof (rf_range _ Hf) as Hr. pose proof (rf_start _ Hf). pose proof (rf_limit _ Hf).
  unfold in_range, region_pages, covers, page_of_va, PMM_PAGE_SHIFT, PMM_PAGE_SIZE, CONFIG_USR_LIMIT in *. cbn [fst snd].
  rewrite u32_small, Z.shiftr_div_pow2 by (unfold wsize; lia). rewrite Z2Nat.id by div_lia. change (2 ^ 12) with 4096. div_lia.
Qed.

(** The pages of a region that was removed belong to no region. *)
Lemma region_at_delete k sp l k' sp' l' a n :
  space_inv k sp l → space_inv k' sp' l' → a ∈ l → (∀ x, x ∈ l' ↔ x ∈ l ∧ x ≠ a) →
  regions (sp_vmm sp') = delete a (regions (sp_vmm sp)) →
  region_at sp' n = if decide (covers (regions (sp_vmm sp) !!! a) (n * PMM_PAGE_SIZE)) then None else region_at sp n.
Proof.
  intros HS HS' Ha Hl' ER. apply option_eq. intros r.
  assert (Et : ∀ b, b ≠ a → regions (sp_vmm sp') !!! b = regions (sp_vmm sp) !!! b)
    by (intros b Hb; by rewrite !lookup_total_alt, ER, lookup_delete_ne).
  rewrite (region_at_spec k' sp' l' n r HS'). case_decide as Hc.
  - split; [|done]. intros (_ & b & [Hb Hne]%Hl' & <- & Hcb). rewrite Et in Hcb by done. by destruct Hne, (covers_unique k sp l b a (n * PMM_PAGE_SIZE)).
  - rewrite (region_at_spec k sp l n r HS). split; intros (Ho & b & Hb & Er & Hcb); (split; [done|]); exists b.
    + apply Hl' in Hb as [Hb Hne]. by rewrite <- Et.
    + assert (b ≠ a) as Hne by (intros ->; by rewrite <- Er in Hcb). split; [by apply Hl'|]. by rewrite Et.
Qed.

Lemma shows_delete k sps G d sp l sp' a l' :
  shows sps G → sps !! d = Some sp → space_inv k sp l → a ∈ l → (∀ x, x ∈ l' ↔ x ∈ l ∧ x ≠ a) →
  regions (sp_vmm sp') = delete a (regions (sp_vmm sp)) → mapping_kept sp sp' l' →
  shows (<[d := sp']> sps) (delete (d, vm_start (regions (sp_vmm sp) !!! a)) G).
Proof.
  intros HG Hd HS Ha Hl' ER HK. pose proof (shows_here _ _ _ _ HG Hd) as HGd. pose proof (si_lookup _ _ _ _ HS Ha) as Ea.
  apply (shows_step sps G); [done| |intros e s Hne; by rewrite lookup_delete_ne by congruence].
  intros s x. rewrite lookup_delete_Some, HGd. unfold shows_region. split.
  - intros [Hne (b & rb & Hb & H1 & H2 & H3 & H4)]. exists b, rb.
    assert (b ≠ a) as Hba by (intros ->; apply Hne; rewrite Hb in Ea; injection Ea as <-; by rewrite H1).
    assert (b ∈ l') as Hbl by (apply Hl'; split; [apply (si_descr _ _ _ HS); eauto|done]).
    destruct (HK b Hbl) as [-> Hi]. split_and!; try done. by rewrite Hi.
  - intros (b & rb & Hb & H1 & H2 & H3 & H4). rewrite ER in Hb. apply lookup_delete_Some in Hb as [Hba Hb].
    assert (b ∈ l') as Hbl by (apply Hl'; split; [apply (si_descr _ _ _ HS); eauto|done]). destruct (HK b Hbl) as [_ Hi]. split.
    + intros [= E]. destruct (start_unique k sp l b a rb _ HS Hb Ea) as [? _]; [congruence|by destruct Hba].
    + exists b, rb. split_and!; try done. by rewrite H4.
Qed.

Lemma unmap_refines w M G d sp l a length :
  world_ok w M → shows (w_spaces w) G → w_spaces w !! d = Some sp → space_inv (w_kernel w) sp l → a ∈ l → indexed sp a →
  let r := regions (sp_vmm sp) !!! a in vm_limit r = vm_start r + length →
  ∃ k' sp' M' G', vm_region_detach (w_kernel w) sp a = Some (k', sp') ∧
    let w' := World k' (<[d := sp']> (w_spaces w)) in
    world_ok w' M' ∧ shows (w_spaces w') G' ∧
    spec (Munmap d (vm_start r) length) G (view (pages (w_kernel w)) M) (Status 0) G' (view (pages k') M').
Proof.
  intros HW HG Hd HS Ha Hix r Elim. destruct (wo_space _ _ HW d sp Hd) as (HdD & Epd & _).
  pose proof (si_fine _ _ _ HS a Ha) as Hf. pose proof (si_begin _ _ _ _ HS Ha) as Hb. fold r in Hf, Hb. pose proof (rf_range _ Hf) as Hr.
  destruct (release_ok D (layout_of (w_spaces w)) (pages (w_kernel w)) M d r (wo_machine _ _ HW)) as (s' & M' & Eu & HM' & Hset & Hz & Hv).
  { split; [done|]. split; [split; unfold CONFIG_USR_LIMIT, wsize in *; lia|]. split; [apply Hf|]. intros n Hn. apply HW; [done|].
    assert (in_range (page_of_va (vm_start r)) (region_pages r) (d, n) d) as [_ Hc]%(in_range_covers r d d n Hf Hb) by (by split).
    unfold covers, page_no, CONFIG_USR_LIMIT, PMM_PAGE_SIZE in *. lia. }
  rewrite <- Epd in Eu at 1. destruct (vm_region_detach_ok (w_kernel w) sp l a s' HS Ha Eu) as (k' & sp' & l' & Ed & Ep & Epg & HK & HS' & Hl' & ER & Hkept).
  exists k', sp', M', (delete (d, vm_start r) G). split; [done|]. split; [|split].
  - eapply (step_space w M d sp k' sp' l' M' HW Hd HK Epg HS'); rewrite Ep; [|apply Hset, HW]. destruct HM' as [HI' Hs']. split; [done|].
    intros e n He Hn. specialize (Hs' e n He Hn). rewrite layout_insert. case_decide as E; [|done]. subst e.
    rewrite (region_at_delete _ sp l k' sp' l' a n HS HS' Ha Hl' ER). case_decide as Hc.
    + apply (Hz (d, n)). by apply (in_range_covers r d d n Hf Hb).
    + unfold layout_of in Hs'. by rewrite Hd in Hs'.
  - cbn [w_spaces]. by eapply shows_delete.
  - rewrite Ep. destruct (shows_inside _ _ G d sp l (vm_start r) a HG Hd HS Ha) as (x & _ & Ex & El & _ & Ei); [unfold covers; fold r; lia|].
    eapply s_munmap; [exact Ex|by apply Ei|by rewrite El|]. intros e n. rewrite Hv. apply decide_ext.
    rewrite (in_range_covers r d e n Hf Hb). unfold covers. by rewrite Elim.
Qed.

(** A call that changes nothing. *)
Lemma refines_id c w M G r :
  world_ok w M → shows (w_spaces w) G → exec c w = Some (w, r) →
  spec c G (view (pages (w_kernel w)) M) r G (view (pages (w_kernel w)) M) → refines c w M G.
Proof. intros HW HG Ex Hs. by exists w, r, M, G. Qed.

Lemma munmap_unknown w d sp l addr length :
  space_inv (w_kernel w) sp l → 0 ≤ addr < wsize → not_limit sp addr →
  (∀ a, a ∈ l → covers (regions (sp_vmm sp) !!! a) addr → ¬ indexed sp a) →
  w_spaces w !! d = Some sp → exec (Munmap d addr length) w = Some (w, Status EINVAL).
Proof.
  intros HS Hva Hlim Hno Hd. unfold exec. rewrite Hd. cbn [mbind option_bind]. unfold vmm_munmap.
  destruct (lookup_eq (rec_objs (w_kernel w)) _ _ (ko_table _ _ (si_db _ _ _ HS)) (va_key addr Hva)) as [-> _]. cbn [mbind option_bind].
  assert (Hsame : World (w_kernel w) (<[d := sp]> (w_spaces w)) = w) by (by apply insert_same).
  destruct (si_keys _ _ _ HS _ (va_key addr Hva)) as [E|[Hin Hkey]]; [rewrite E; cbn [Z.eqb mbind option_bind]; by rewrite Hsame|].
  set (b := db_get _ _) in *. rewrite (proj2 (Z.eqb_neq b 0)) by exact (si_nonzero _ _ _ _ HS Hin). rewrite (si_lookup _ _ _ _ HS Hin). cbn [mbind option_bind].
  fold (outside (regions (sp_vmm sp) !!! b) addr). destruct (outside _ addr) eqn:Eo; [cbn [mbind option_bind]; by rewrite Hsame|].
  apply found_covers in Eo; [|by eapply not_limit_in|exact (keyed_end _ _ (si_fine _ _ _ HS b Hin) (si_begin _ _ _ _ HS Hin) Hkey)]. destruct (db_covers _ sp l b addr HS Hva Hin Eo) as [[E _]|[_ Hi]].
  - fold b in E. by destruct (si_nonzero _ _ _ _ HS Hin).
  - by destruct (Hno b Hin Eo).
Qed.

Lemma munmap_refines w M G d addr length :
  world_ok w M → shows (w_spaces w) G → call_ok w (Munmap d addr length) → refines (Munmap d addr length) w M G.
Proof.
  intros HW HG (sp & Hd & Ha0 & Hl0 & Hal & Hlim). destruct (wo_space _ _ HW d sp Hd) as (_ & _ & l & HS). assert (Hva : 0 ≤ addr < wsize) by lia.
  destruct (decide (Exists (λ a, covers (regions (sp_vmm sp) !!! a) addr ∧ indexed sp a) l)) as [(a & Ha & Hc & Hix)%Exists_exists|Hno].
  2:{ apply (refines_id _ w M G (Status EINVAL)); [done|done| |].
      - apply (munmap_unknown w d sp l); try done. intros a Ha Hc Hi. apply Hno, Exists_exists. by exists a.
      - apply s_munmap_unknown. intros s x Hin. destruct (shows_covers _ _ G d sp l addr s x HG Hd HS Hin) as (a & Ha & Hc & _ & _ & _ & Hi).
        destruct (ar_indexed x); [|done]. destruct Hno. apply Exists_exists. exists a. split; [done|]. split; [done|by apply Hi]. }
  destruct (shows_inside _ _ G d sp l addr a HG Hd HS Ha Hc) as (x & Hin & Ex & El & Ep & Ei).
  assert (Hfound : ∀ res, vmm_do_munmap (w_kernel w) sp a addr length = res → vmm_munmap (w_kernel w) sp addr length = res).
  { intros res <-. unfold vmm_munmap.
    destruct (lookup_eq (rec_objs (w_kernel w)) _ _ (ko_table _ _ (si_db _ _ _ HS)) (va_key addr Hva)) as [-> _]. cbn [mbind option_bind].
    destruct (db_covers _ sp l a addr HS Hva Ha Hc) as [[_ ?]|[-> _]]; [done|]. rewrite (proj2 (Z.eqb_neq a 0)) by exact (si_nonzero _ _ _ _ HS Ha).
    rewrite (si_lookup _ _ _ _ HS Ha). cbn [mbind option_bind]. fold (outside (regions (sp_vmm sp) !!! a) addr).
    by rewrite (covers_inside _ sp l a addr HS Ha Hc). }
  unfold vmm_do_munmap in Hfound. rewrite (si_lookup _ _ _ _ HS Ha), (u32_small (addr + length)) in Hfound by (unfold wsize in *; lia).
  cbn [mbind option_bind] in Hfound. set (r := regions (sp_vmm sp) !!! a) in *.
  destruct ((vm_start r =? addr) && (vm_limit r =? addr + length)) eqn:Eex.
  - apply andb_true_iff in Eex as [E1%Z.eqb_eq E2%Z.eqb_eq]. rewrite <- E1 in E2.
    destruct (unmap_refines w M G d sp l a length HW HG Hd HS Ha Hix E2) as (k' & sp' & M' & G' & Ed & HW' & HG' & Hs). fold r in Hs.
    rewrite Ed in Hfound. unfold refines, exec. rewrite Hd. cbn [mbind option_bind]. rewrite (Hfound _ eq_refl). cbn [mbind option_bind].
    rewrite E1 in Hs. by eexists _, _, M', G'.
  - assert (vm_start r <=? addr = true) as Ele by (apply Z.leb_le; apply Hc). rewrite Ele in Hfound. cbn [andb] in Hfound.
    apply (refines_id _ w M G (Status (if addr + length <? vm_limit r then ENOSYS else 0))); [done|done| |].
    + unfold exec. rewrite Hd. cbn [mbind option_bind]. rewrite (Hfound _ eq_refl). destruct (addr + length <? vm_limit r); cbn [mbind option_bind]; by rewrite (insert_same w d sp Hd).
    + eapply s_munmap_part; [exact Hin|by apply Ei| |by rewrite El]. intros [E1 E2]. rewrite El in E2.
      rewrite E1, E2, !Z.eqb_refl in Eex. done.
Qed.

(** ** Mapping *)

Section mapped_region.
Context (k k' : kernel A R Q) (sp sp' : space) (l : list Z) (a : Z) (r : vm_region_s).
Context (HS : space_inv k sp l) (HM : mapped k sp l k' sp' a r).

Lemma mapped_other b : b ∈ l → regions (sp_vmm sp') !!! b = regions (sp_vmm sp) !!! b.
Proof. intros Hb. destruct (md_kept _ _ _ _ _ _ _ HM b Hb) as [E _]. by rewrite !lookup_total_alt, E. Qed.

Lemma mapped_self : regions (sp_vmm sp') !!! a = r.
Proof. by rewrite (md_regions _ _ _ _ _ _ _ HM), lookup_total_insert_eq. Qed.

Lemma mapped_disjoint b va : b ∈ l → covers r va → ¬ covers (regions (sp_vmm sp) !!! b) va.
Proof.
  intros Hb Hc Hcb. destruct (md_inv _ _ _ _ _ _ _ HM) as (l' & HS' & Hl'). pose proof (md_new _ _ _ _ _ _ _ HM) as Hn.
  assert (a = b) as ->; [|done]. apply (covers_unique k' sp' l' a b va HS'); [apply Hl'; by right|apply Hl'; by left|by rewrite mapped_self|by rewrite mapped_other].
Qed.

Lemma region_at_insert n :
  region_at sp' n = if decide (CONFIG_USR_OFFSET ≤ n * PMM_PAGE_SIZE ∧ covers r (n * PMM_PAGE_SIZE)) then Some r else region_at sp n.
Proof.
  destruct (md_inv _ _ _ _ _ _ _ HM) as (l' & HS' & Hl'). apply option_eq. intros q. rewrite (region_at_spec k' sp' l' n q HS'). case_decide as Hc.
  - destruct Hc as [Ho Hc]. split.
    + intros (_ & b & [Hb| ->]%Hl' & <- & Hcb); [|by rewrite mapped_self]. rewrite mapped_other in Hcb by done. by destruct (mapped_disjoint b _ Hb Hc).
    + intros [= <-]. split; [done|]. exists a. split; [apply Hl'; by right|]. by rewrite mapped_self.
  - rewrite (region_at_spec k sp l n q HS). split.
    + intros (Ho & b & [Hb| ->]%Hl' & <- & Hcb); [|destruct Hc; by rewrite mapped_self in Hcb]. split; [done|]. exists b. by rewrite <- mapped_other.
    + intros (Ho & b & Hb & <- & Hcb). split; [done|]. exists b. split; [apply Hl'; by left|]. by rewrite mapped_other.
Qed.

Lemma mapped_fresh n : covers r (n * PMM_PAGE_SIZE) → region_at sp n = None.
Proof.
  intros Hc. destruct (region_at sp n) as [q|] eqn:Eq; [|done]. apply (region_at_spec k sp l n q HS) in Eq as (_ & b & Hb & <- & Hcb).
  by destruct (mapped_disjoint b _ Hb Hc).
Qed.

Lemma shows_insert sps G d :
  shows sps G → sps !! d = Some sp →
  shows (<[d := sp']> sps) (<[(d, vm_start r) := ARegion (vm_limit r) (vm_prot r) (bool_decide (indexed sp' a))]> G).
Proof.
  intros HG Hd. pose proof (shows_here _ _ _ _ HG Hd) as HGd. destruct (md_inv _ _ _ _ _ _ _ HM) as (l' & HS' & Hl').
  pose proof (md_regions _ _ _ _ _ _ _ HM) as ER. pose proof (md_new _ _ _ _ _ _ _ HM) as Hn.
  assert (Ea : regions (sp_vmm sp') !! a = Some r) by (by rewrite ER, lookup_insert_eq).
  assert (Hin : ∀ b rb, regions (sp_vmm sp) !! b = Some rb → b ∈ l) by (intros b rb Hb; apply (si_descr _ _ _ HS); eauto).
  apply (shows_step sps G); [done| |intros e s Hne; by rewrite lookup_insert_ne by congruence].
  intros s x. rewrite lookup_insert_Some, HGd. unfold shows_region. split.
  - intros [[[= <-] <-]|[Hne (b & rb & Hb & H1 & H2 & H3 & H4)]].
    + exists a, r. split_and!; try done. cbn. apply bool_decide_eq_true.
    + exists b, rb. destruct (md_kept _ _ _ _ _ _ _ HM b (Hin b rb Hb)) as [-> Hi]. split_and!; try done. by rewrite Hi.
  - intros (b & rb & Hb & H1 & H2 & H3 & H4). destruct (decide (b = a)) as [->|Hba].
    + left. rewrite Ea in Hb. injection Hb as <-. rewrite H1. split; [done|]. destruct x as [xl xp xi]. cbn in *. f_equal; [done|done|].
      destruct xi; [apply bool_decide_eq_true; by apply H4|apply bool_decide_eq_false; intros Hi; by apply H4 in Hi].
    + right. assert (regions (sp_vmm sp) !! b = Some rb) as Hb' by (by rewrite ER, lookup_insert_ne in Hb).
      destruct (md_kept _ _ _ _ _ _ _ HM b (Hin b rb Hb')) as [_ Hi]. split; [|exists b, rb; split_and!; try done; by rewrite H4].
      intros [= E]. by destruct (start_unique k' sp' l' b a rb r HS' Hb Ea) as [? _]; [congruence|].
Qed.
End mapped_region.

(** The requests that pass the tests of [sys_mmap]. *)
Lemma good_attr sp attr :
  attr_ok sp attr → bad_attr attr = false →
  let addr := if flag (ma_flags attr) VM_REG_FIXED then ma_addr attr else 0 in
  request_ok addr (ma_length attr) (ma_prot attr) (ma_flags attr).
Proof.
  intros (Ha & Hl & Hok) Hb. destruct (Hok Hb) as (Hm & Hp & _ & Hs & Hh & Hz & _). unfold bad_attr in Hb.
  rewrite !orb_false_iff in Hb. destruct Hb as (((((Hhp & _) & _) & Hl0) & _) & Haddr). apply Z.eqb_neq in Hl0. intros addr.
  assert (addr = 0 ∨ addr mod PMM_PAGE_SIZE = 0 ∧ addr + ma_length attr ≤ CONFIG_USR_LIMIT) as Hcase.
  { unfold addr. destruct (flag (ma_flags attr) VM_REG_FIXED); [|by left]. destruct (Z.eqb_spec (ma_addr attr) 0) as [|Hne]; [by left|right].
    cbn [negb andb] in Haddr. rewrite !orb_false_iff in Haddr. destruct Haddr as [[Hal H2] H1]. unfold NOT_IN_USPACE in *.
    apply negb_false_iff, user_space in H1; [|done]. unfold user_va, CONFIG_USR_OFFSET, CONFIG_USR_LIMIT in H1, Hl |- *.
    apply negb_false_iff, user_space in H2; [|apply u32_bound]. rewrite u32_small in H2 by (unfold wsize; lia).
    unfold user_va, CONFIG_USR_LIMIT in H2. split; [|lia]. unfold ctrue in Hal. apply negb_false_iff, Z.eqb_eq in Hal.
    unfold PMM_PAGE_SIZE in *. change (0x1000 - 1) with (Z.ones 12) in Hal. by rewrite Z.land_ones in Hal by done. }
  split; try done; [lia|..].
  - assert (0 ≤ addr) by (unfold addr; case_match; [apply Ha|done]). by destruct Hcase as [->|[? _]].
  - destruct Hcase as [->|[_ ?]]; [lia|done].
Qed.

Lemma requested_prot addr length proto offset flags : vm_prot (requested addr length proto offset flags) = granted proto.
Proof. unfold requested, vm_region_init, granted. by destruct (flag proto VM_REG_WR). Qed.

(** Pages of no region are not there. *)
Lemma unmapped_view w M d n :
  world_ok w M → d ∈ D → page_no n → layout_of (w_spaces w) d n = None →
  attr (entry (pages (w_kernel w)) d n) = 0 ∧ view (pages (w_kernel w)) M !! (d, n) = None.
Proof.
  intros HW Hd Hn EL. destruct (wo_machine _ _ HW) as [HI Hs]. specialize (Hs d n Hd Hn). rewrite EL in Hs. split; [done|].
  unfold view. rewrite lookup_fmap. destruct (ci_map _ _ _ HI d n Hd Hn) as [-> _]. unfold maps_to. by rewrite Hs.
Qed.

(** A new region whose pages are not there yet. *)
Lemma fresh_pages w M d sp l k' sp' a r n :
  world_ok w M → w_spaces w !! d = Some sp → space_inv (w_kernel w) sp l → mapped (w_kernel w) sp l k' sp' a r →
  region_fine r → 0 ≤ vm_begin r → covers r (n * PMM_PAGE_SIZE) →
  page_no n ∧ attr (entry (pages (w_kernel w)) d n) = 0 ∧ view (pages (w_kernel w)) M !! (d, n) = None.
Proof.
  intros HW Hd HS HM Hf Hb0 Hc. destruct (wo_space _ _ HW d sp Hd) as (HdD & _). pose proof (rf_range _ Hf) as Hr.
  assert (page_no n) as Hn by (unfold covers, page_no, PMM_PAGE_SIZE, CONFIG_USR_LIMIT in *; lia). split; [done|].
  apply (unmapped_view w M d n HW HdD Hn). unfold layout_of. rewrite Hd. by apply (mapped_fresh (w_kernel w) k' sp sp' l a r HS HM).
Qed.

Lemma map_world w M d sp l k' sp' a r :
  world_ok w M → w_spaces w !! d = Some sp → space_inv (w_kernel w) sp l →
  mapped (w_kernel w) sp l k' sp' a r → keeps (w_kernel w) sp k' sp' → pgdir sp' = pgdir sp → pages k' = pages (w_kernel w) →
  region_fine r → 0 ≤ vm_begin r → world_ok (World k' (<[d := sp']> (w_spaces w))) M.
Proof.
  intros HW Hd HS HM HK Epg Ep Hf Hb0. destruct (md_inv _ _ _ _ _ _ _ HM) as (l' & HS' & _).
  eapply (step_space w M d sp k' sp' l' M HW Hd HK Epg HS'); rewrite Ep; [|apply HW]. destruct (wo_machine _ _ HW) as [HI Hs]. split; [done|].
  intros e n He Hn. specialize (Hs e n He Hn). rewrite layout_insert. case_decide as E; [|done]. subst e.
  rewrite (region_at_insert (w_kernel w) k' sp sp' l a r HS HM n). case_decide as Hc.
  - destruct Hc as [_ Hc]. destruct (fresh_pages w M d sp l k' sp' a r n HW Hd HS HM Hf Hb0 Hc) as (_ & -> & _). split; [apply Hf|apply usable_zero].
  - unfold layout_of in Hs. by rewrite Hd in Hs.
Qed.

Lemma map_spec w M G d sp l k' sp' a r attr :
  world_ok w M → shows (w_spaces w) G → w_spaces w !! d = Some sp → space_inv (w_kernel w) sp l →
  mapped (w_kernel w) sp l k' sp' a r → pages k' = pages (w_kernel w) →
  region_fine r → 0 ≤ vm_begin r → vm_limit r = vm_start r + ma_length attr → vm_prot r = granted (ma_prot attr) → bad_attr attr = false →
  (if flag (ma_flags attr) VM_REG_FIXED then vm_start r = ma_addr attr else vm_start r mod 2 ^ 16 = 0) →
  ∃ G', shows (<[d := sp']> (w_spaces w)) G' ∧
    spec (Mmap d attr) G (view (pages (w_kernel w)) M) (Start (vm_start r)) G' (view (pages k') M).
Proof.
  intros HW HG Hd HS HM Ep Hf Hb0 El Epr Hbad Hst. pose proof (rf_range _ Hf) as Hr.
  eexists. split; [by apply (shows_insert (w_kernel w) k' sp sp' l a r HS HM)|].
  rewrite Ep, El, Epr. apply s_mmap; [done|done|lia|lia| |].
  - intros s x Hx. pose proof (proj1 (shows_here _ _ _ _ HG Hd s x) Hx) as (b & rb & Hb & <- & Elx & _).
    assert (b ∈ l) as Hbl by (apply (si_descr _ _ _ HS); eauto). pose proof (rf_range _ (si_fine _ _ _ HS b Hbl)) as Hrb.
    rewrite (lookup_total_correct _ _ _ Hb) in Hrb. rewrite Elx.
    destruct (decide (vm_limit rb ≤ vm_start r ∨ vm_start r + ma_length attr ≤ vm_start rb)) as [?|Hno]; [done|].
    destruct (mapped_disjoint (w_kernel w) k' sp sp' l a r HM b (Z.max (vm_start r) (vm_start rb)) Hbl); unfold covers; [lia|].
    rewrite (lookup_total_correct _ _ _ Hb). lia.
  - intros n Hn. rewrite <- El in Hn. by apply (fresh_pages w M d sp l k' sp' a r n HW Hd HS HM Hf Hb0).
Qed.

(** A request that is refused leaves the regions as they were. *)
Lemma refused_world w M G d sp l k' sp' :
  world_ok w M → shows (w_spaces w) G → w_spaces w !! d = Some sp → space_inv (w_kernel w) sp l → space_inv k' sp' l →
  keeps (w_kernel w) sp k' sp' → pgdir sp' = pgdir sp → pages k' = pages (w_kernel w) →
  regions (sp_vmm sp') = regions (sp_vmm sp) → regions_db sp' = regions_db sp →
  world_ok (World k' (<[d := sp']> (w_spaces w))) M ∧ shows (<[d := sp']> (w_spaces w)) G.
Proof.
  intros HW HG Hd HS HS' HK Epg Ep ER Edb. split.
  - eapply (step_space w M d sp k' sp' l M HW Hd HK Epg HS'); rewrite Ep; [|apply HW]. eapply machine_ext; [|apply HW].
    intros e n. rewrite layout_insert. case_decide as E; [|done]. subst e. unfold layout_of. rewrite Hd. cbn [mbind option_bind].
    apply option_eq. intros r. rewrite (region_at_spec k' sp' l n r HS'), (region_at_spec _ sp l n r HS). by rewrite ER.
  - apply (shows_step (w_spaces w) G); [done| |done]. intros s x. rewrite (shows_here _ _ _ _ HG Hd). unfold shows_region, indexed. by rewrite ER, Edb.
Qed.

Lemma mmap_refines w M G d attr : world_ok w M → shows (w_spaces w) G → call_ok w (Mmap d attr) → refines (Mmap d attr) w M G.
Proof.
  intros HW HG (sp & Hd & Hattr). destruct (wo_space _ _ HW d sp Hd) as (_ & _ & l & HS).
  unfold refines, exec. rewrite Hd. cbn [mbind option_bind]. unfold sys_mmap. fold (bad_attr attr).
  destruct (bad_attr attr) eqn:Hbad.
  { cbn [mbind option_bind]. rewrite (insert_same w d sp Hd). exists w, (Status EINVAL), M, G. split; [done|]. split; [done|]. split; [done|]. by apply s_mmap_invalid. }
  pose proof (good_attr sp attr Hattr Hbad) as Hrq. destruct Hattr as (_ & _ & Hok). destruct (Hok Hbad) as (_ & _ & Han & _ & _ & _ & Hfree).
  rewrite Han. cbn [cassert mbind option_bind]. set (addr := if flag (ma_flags attr) VM_REG_FIXED then ma_addr attr else 0) in *.
  assert (Hz : flag (ma_flags attr) VM_REG_FIXED = false → addr = 0) by (unfold addr; by intros ->).
  destruct (vmm_mmap_ok (w_kernel w) sp l addr (ma_length attr) (ma_prot attr) (ma_flags attr) 0 HS Hrq Hz) as (k' & sp' & res & -> & Ep & Epg & HK & Hres).
  { intros Hfx b Hb. unfold addr. rewrite Hfx. apply (Hfree Hfx b). exact (si_lookup _ _ _ _ HS Hb). }
  cbn [mbind option_bind]. destruct res as [err|start].
  - destruct Hres as (Herr & HS' & ER & Edb). eexists _, _, M, G. split; [done|]. cbn [w_kernel w_spaces].
    destruct (refused_world w M G d sp l k' sp' HW HG Hd HS HS' HK Epg Ep ER Edb) as [HW' HG']. split; [done|]. split; [done|].
    rewrite Ep. by apply s_mmap_refused.
  - destruct Hres as (a & r & HM & -> & Hpl). destruct (at_place_fine _ _ _ _ _ _ Hrq Hz Hpl) as (Hf & Hb0 & El & Epr & Hfx).
    rewrite requested_prot in Epr.
    pose proof (map_world w M d sp l k' sp' a r HW Hd HS HM HK Epg Ep Hf Hb0) as HW'.
    destruct (map_spec w M G d sp l k' sp' a r attr HW HG Hd HS HM Ep Hf Hb0 El Epr Hbad) as (G' & HG' & Hsp).
    { unfold addr in Hfx. unfold at_place in Hpl. destruct (flag (ma_flags attr) VM_REG_FIXED); [by apply Hfx|]. by destruct Hpl as (start & _ & ? & _ & ->). }
    by eexists _, _, M, G'.
Qed.
End machine.
