(* ===== verification/VmmFork.v ===== *)
(** * Fork of an address space

    [vmm_dup] walks over the regions of the parent, copies each descriptor, links the copy and
    shares its pages.  The child then has the regions and the pages of the parent, and the parent
    and all other tasks see no change; with that, every call of [VmmSystem] refines the abstract
    machine. *)

From stdpp Require Import sorting.
From S2P Require Import Prelude Clist Bits Rbtree RbtreeSpec RbtreeOps Heap Kcm KcmSpec Page Buddy Ppm PpmSystem Pmm PmmAlloc.
From S2P Require Import VmRegion VmSpace VmSystem Cow CowTables CowSpec CowSystem CowAlloc Isolation.
From S2P Require Import Objects Keysdb KeysdbSys Vmm VmmSpec VmmSystem.

Open Scope Z_scope.

#[local] Opaque zero_page.

(** ** The copy of a descriptor *)



Section fork.
Context {A R Q : Type} `{FrameAllocatorLaws A} `{!PageRefs A} `{!PageRefsLaws A}.
Context `{RS : ObjectSource R} `{RL : !ObjectSourceLaws R} `{QS : ObjectSource Q} `{QL : !ObjectSourceLaws Q}.
Context (mmu_report : page_info → bool → Z) (D : gset Z).
#[local] Abbreviation worlds := (world (A := A) (R := R) (Q := Q)).
Implicit Types (k : kernel A R Q) (sp : space) (M : mapping).


(** ** One region *)






(** ** All regions *)


Section loop.
Context (k0 : kernel A R Q) (M0 : mapping) (sps : gmap Z space) (src dst : Z) (sp c0 : space) (l : list Z).
Context (Hsrc : sps !! src = Some sp) (Hne : src ≠ dst) (HS : space_inv k0 sp l).




(** The counts of the pages that are mapped leave room for the fork. *)
Context (Hroom : ∀ key p n m, M0 !! key = Some p → pr_page (palloc (pages k0)) p = Some (n, m) →
  n + CONFIG_USR_LIMIT / PMM_PAGE_SIZE < wsize).


End loop.

(** ** The child *)






End fork.

(** ** Result *)


(** ** An example

    The machine of [Isolation] with the caches of [KcmSpec]; one task with an empty address
    space. *)

Definition ex_world : option (world (A := node_mem) (R := cache (A := page_pool)) (Q := cache (A := page_pool))) :=
  s ← ex_init;
  c ← ex_objects;
  sp ← child_space (Space (Vmm (Rb 0 ∅) ∅ ∅ 0 0) (Keysdb [] ∅ 0 0 0 0 0) 0 0 0) 0x2000 1;
  Some (World (Kernel (PState (λ _, 0) (ex_node s)) c c) {[0x2000 := sp]}).

Fixpoint calls (cs : list call) (w : world (A := node_mem) (R := cache (A := page_pool)) (Q := cache (A := page_pool))) : option (list reply) :=
  match cs with
  | [] => Some []
  | c :: cs => '(w, r) ← exec ex_report c w; rs ← calls cs w; Some (r :: rs)
  end.

(** Anonymous memory, at an address or where the kernel puts it. *)
Definition anywhere (length : Z) : mmap_attr := MmapAttr 0 length VM_REG_WR (Z.lor VM_REG_PRIVATE VM_REG_ANON) 0.
Definition at_addr (addr length prot : Z) : mmap_attr :=
  MmapAttr addr length prot (Z.lor (Z.lor VM_REG_PRIVATE VM_REG_ANON) VM_REG_FIXED) 0.

(** A task maps memory, writes, forks and both go on; what is unmapped is gone, and what cannot
    be written is refused. *)
Lemma ex_calls :
  (ex_world ≫= calls
    [Mmap 0x2000 (at_addr 0x400000 0x2000 VM_REG_WR); Write 0x2000 0x400123 7; Clone 0x2000 0x10000 1;
     Read 0x10000 0x400123; Write 0x10000 0x400123 9; Read 0x2000 0x400123; Read 0x10000 0x400123;
     Munmap 0x10000 0x400000 0x2000; Read 0x10000 0x400123; Read 0x2000 0x400123;
     Mmap 0x2000 (at_addr 0x500000 0x1000 VM_REG_RD); Read 0x2000 0x500010; Write 0x2000 0x500010 1])
  = Some [Start 0x400000; Written; Status 0; Byte 7; Written; Byte 7; Byte 9; Status 0; Signal VMM_ESIGBUS; Byte 7;
          Start 0x500000; Byte 0; Signal VMM_ESIGBUS].
Proof. vm_compute. reflexivity. Qed.

(** Two regions side by side: the first address of the second belongs to the second, and once
    that is unmapped it belongs to none. *)
Lemma ex_adjacent_regions :
  (ex_world ≫= calls
    [Mmap 0x2000 (at_addr 0x400000 0x10000 VM_REG_RD); Mmap 0x2000 (at_addr 0x410000 0x1000 VM_REG_WR); Write 0x2000 0x410000 6;
     Read 0x2000 0x410000; Munmap 0x2000 0x410000 0x1000; Read 0x2000 0x410000])
  = Some [Start 0x400000; Start 0x410000; Written; Byte 6; Status 0; Signal VMM_ESIGBUS].
Proof. vm_compute. reflexivity. Qed.

(** ** Divergences *)

(** The address right after a region that ends inside its last key passes the test of the fault
    handler: the access is granted, and the page stays when the region is unmapped. *)
Lemma ex_limit_granted :
  (ex_world ≫= calls
    [Mmap 0x2000 (at_addr 0x400000 0x1000 VM_REG_WR); Write 0x2000 0x401000 5; Munmap 0x2000 0x400000 0x1000; Read 0x2000 0x401000])
  = Some [Start 0x400000; Written; Status 0; Byte 5].
Proof. vm_compute. reflexivity. Qed.

(** The kernel places the first region at 0, where a task has no access. *)
Lemma ex_first_region_unusable :
  (ex_world ≫= calls [Mmap 0x2000 (anywhere 0x3000); Write 0x2000 0x100 1]) = Some [Start 0; Signal VMM_ESIGBUS].
Proof. vm_compute. reflexivity. Qed.

(** A child cannot unmap a region it has not touched, since its database does not have it. *)
Lemma ex_child_cannot_unmap :
  (ex_world ≫= calls
    [Mmap 0x2000 (at_addr 0x400000 0x1000 VM_REG_WR); Clone 0x2000 0x10000 1; Munmap 0x10000 0x400000 0x1000;
     Read 0x10000 0x400000; Munmap 0x10000 0x400000 0x1000])
  = Some [Start 0x400000; Status 0; Status EINVAL; Byte 0; Status 0].
Proof. vm_compute. reflexivity. Qed.

(** Unmapping the end of a region succeeds and does nothing. *)
Lemma ex_partial_unmap :
  (ex_world ≫= calls
    [Mmap 0x2000 (at_addr 0x400000 0x2000 VM_REG_WR); Write 0x2000 0x401000 3; Munmap 0x2000 0x401000 0x1000; Read 0x2000 0x401000;
     Munmap 0x2000 0x400000 0x1000])
  = Some [Start 0x400000; Written; Status 0; Byte 3; Status ENOSYS].
Proof. vm_compute. reflexivity. Qed.

(** The last page of a region that is not a multiple of the page size is not released. *)
Lemma ex_last_page_leaks :
  (ex_world ≫= calls
    [Mmap 0x2000 (at_addr 0x400000 0x1800 VM_REG_WR); Write 0x2000 0x401100 4; Munmap 0x2000 0x400000 0x1800; Read 0x2000 0x401100])
  = Some [Start 0x400000; Written; Status 0; Byte 4].
Proof. vm_compute. reflexivity. Qed.

(** [vmm_sbrk] never moves [heap_current]: the limit on the size of the heap is only checked
    for each request on its own. *)
Lemma sbrk_keeps_current sp current size sp' err :
  vmm_sbrk sp current size = Some (sp', err) → heap_current sp' = heap_current sp.
Proof.
  unfold vmm_sbrk. destruct (current <? heap_current sp); [by intros [= <- _]|]. destruct (CONFIG_TASK_HEAP_MAX_SIZE <? _); [by intros [= <- _]|].
  destruct (regions (sp_vmm sp) !! heap_region sp) as [r|]; [|done]. cbn [mbind option_bind]. by intros [= <- _].
Qed.

(** ** Witness *)


