(* ===== verification/Lock.v ===== *)
(** * What a lock promises

    The interface between the locks of the kernel (spinlock.c, distlock.c, mcs_sync.c) and
    the code that uses them.  A lock is given by the steps of one thread, as in [Threads];
    it promises that at most one thread is inside its critical section.  From this promise
    alone the file derives what the sequential models of the other components rely on: a
    read-modify-write of shared data that takes several steps under the lock has the effect
    of one atomic operation. *)

From stdpp Require Import relations.
From S2P Require Import Prelude Threads.

Open Scope Z_scope.

(** [cpu_atomic_cas] (load-linked, store-conditional): the new value of the word and whether
    the exchange took place; the store-conditional may also fail on an equal value. *)
Definition cpu_atomic_cas (cur old new : Z) : list (Z * bool) :=
  if cur =? old then [(new, true); (cur, false)] else [(cur, false)].

(** [cpu_atomic_add]: the new value of the word and the value it returns. *)
Definition cpu_atomic_add (cur val : Z) : Z * Z := (s32 (cur + val), cur).

Lemma cas_inv cur old new v b :
  (v, b) ∈ cpu_atomic_cas cur old new →
  (b = true ∧ cur = old ∧ v = new) ∨ (b = false ∧ v = cur).
Proof.
  unfold cpu_atomic_cas. case_match; rewrite ?elem_of_cons, ?elem_of_nil;
    intros Hin; destruct_or?; simplify_eq; auto. left. repeat split; lia.
Qed.

(** ** The part of a thread the lock functions use

    Its place in the code, its interrupt state [irq], the local variable [mode] of the lock
    functions, the caller's variable [irq_state] of the functions that leave interrupts
    disabled, and the counts of the locks the thread holds. *)

Record lthread (A : Type) := {
  loc : A; irq : Z; mode : Z; irq_state : Z; locks_count : Z; distlocks_count : Z
}.
Arguments Build_lthread {A}.
Arguments loc {A}.
Arguments irq {A}.
Arguments mode {A}.
Arguments irq_state {A}.
Arguments locks_count {A}.
Arguments distlocks_count {A}.

Section lthread.
Context {A : Type}.
Implicit Types (th : lthread A).

Definition at_loc (p : A) th : lthread A :=
  {| loc := p; irq := irq th; mode := mode th; irq_state := irq_state th;
     locks_count := locks_count th; distlocks_count := distlocks_count th |}.

Definition set_irq (i m s : Z) th : lthread A :=
  {| loc := loc th; irq := i; mode := m; irq_state := s;
     locks_count := locks_count th; distlocks_count := distlocks_count th |}.

(** [cpu_disable_all_irq(&mode)] and [cpu_restore_irq(mode)]. *)
Definition cpu_disable_all_irq th := set_irq 0 (irq th) (irq_state th) th.
Definition cpu_restore_irq th := set_irq (mode th) (mode th) (irq_state th) th.

(** [*irq_state = mode] and [mode = irq_state]. *)
Definition save_irq th := set_irq (irq th) (mode th) (mode th) th.
Definition load_irq th := set_irq (irq th) (irq_state th) (irq_state th) th.

(** [this->locks_count += n], or the same on [distlocks_count]. *)
Definition count_add (dist : bool) (n : Z) th : lthread A :=
  {| loc := loc th; irq := irq th; mode := mode th; irq_state := irq_state th;
     locks_count := if dist then locks_count th else locks_count th + n;
     distlocks_count := if dist then distlocks_count th + n else distlocks_count th |}.

Definition lock_counter (dist : bool) th : Z :=
  if dist then distlocks_count th else locks_count th.
End lthread.

(** ** The interface *)

Class Lock (S P : Type) := {
  lk_step : Z → S → P → list (S * P);
  lk_init : S;
  (** a thread that does not hold the lock and does not ask for it *)
  lk_idle : P → Prop;
  (** a thread between the return of the lock operation and the call of the unlock one *)
  lk_holds : P → bool;
  (** the number of threads the lock can serve *)
  lk_max : Z
}.

Class LockLaws (S P : Type) `{!Lock S P} := {
  lk_idle_holds p : lk_idle p → lk_holds p = false;
  lk_mutex (ts0 : gmap Z P) s ts :
    (∀ t p, ts0 !! t = Some p → lk_idle p) → Z.of_nat (size ts0) ≤ lk_max →
    rtc (sstep lk_step) (lk_init, ts0) (s, ts) → count_pc lk_holds ts ≤ 1
}.

(** ** A client: shared data read and written back under the lock *)

Section client.
Context {S P : Type} `{!Lock S P} `{!LockLaws S P}.
Context {D : Type} (op : Z → D → D).

(** A thread that holds the lock may read the data; it then computes and writes back before
    it does anything with the lock. *)
Inductive cpc := Outside | Have (d : D).

(** The data, with the threads whose update has been written, in order. *)
Record cstate := { lkst : S; data : D; done : list Z }.

Definition cstep (t : Z) (s : cstate) (p : P * cpc) : list (cstate * (P * cpc)) :=
  match p.2 with
  | Have d => [({| lkst := lkst s; data := op t d; done := done s ++ [t] |}, (p.1, Outside))]
  | Outside =>
      ((λ x : S * P, ({| lkst := x.1; data := data s; done := done s |}, (x.2, Outside)))
         <$> lk_step t (lkst s) p.1) ++
      (if lk_holds p.1 then [(s, (p.1, Have (data s)))] else [])
  end.

Definition cinit (d : D) : cstate := {| lkst := lk_init; data := d; done := [] |}.

(** The atomic specification: the updates one after the other. *)
Definition apply_all (d : D) (l : list Z) : D := foldl (λ d t, op t d) d l.

Definition locks_of (ts : gmap Z (P * cpc)) : gmap Z P := fst <$> ts.

Definition client_inv (ts0 : gmap Z P) (d0 : D) (w : sys cstate (P * cpc)) : Prop :=
  rtc (sstep lk_step) (lk_init, ts0) (lkst w.1, locks_of w.2) ∧
  data w.1 = apply_all d0 (done w.1) ∧
  ∀ t p d, w.2 !! t = Some (p, Have d) → lk_holds p = true ∧ d = data w.1.

Lemma locks_of_stay ts t p c c' :
  ts !! t = Some (p, c) → locks_of (<[t := (p, c')]> ts) = locks_of ts.
Proof.
  intros Ht. unfold locks_of. rewrite fmap_insert. apply insert_id.
  by rewrite lookup_fmap, Ht.
Qed.

Lemma holds_unique ts0 s ts t u p q :
  (∀ t p, ts0 !! t = Some p → lk_idle p) → Z.of_nat (size ts0) ≤ lk_max →
  rtc (sstep lk_step) (lk_init, ts0) (s, locks_of ts) →
  fst <$> ts !! t = Some p → fst <$> ts !! u = Some q →
  lk_holds p = true → lk_holds q = true → t = u.
Proof.
  intros Hi Hm Hr Ht Hu Hp Hq. destruct (decide (t = u)) as [|Hne]; [done|].
  pose proof (lk_mutex ts0 s _ Hi Hm Hr).
  pose proof (count_pc_two lk_holds (locks_of ts) t u p q) as H2.
  unfold locks_of in H2 at 1 2. rewrite !lookup_fmap in H2.
  specialize (H2 Ht Hu Hp Hq Hne). lia.
Qed.

Lemma client_step_inv ts0 d0 s ts t p s' p' :
  (∀ t p, ts0 !! t = Some p → lk_idle p) → Z.of_nat (size ts0) ≤ lk_max →
  client_inv ts0 d0 (s, ts) → ts !! t = Some p → (s', p') ∈ cstep t s p →
  client_inv ts0 d0 (s', <[t := p']> ts).
Proof.
  intros Hi Hm (Hr & Hd & Hh) Ht Hin. destruct p as [p [|d]]; cbn in Hr, Hd, Hh, Hin.
  - rewrite elem_of_app, list_elem_of_fmap in Hin.
    destruct Hin as [([s1 p1] & [= -> ->] & Hin)|Hin].
    + split; [|split; [done|]].
      * unfold locks_of. cbn. rewrite fmap_insert. eapply rtc_r; [done|].
        econstructor; [|done]. by rewrite lookup_fmap, Ht.
      * intros u q d. cbn. rewrite lookup_insert_Some. intros [[-> ?]|[? Hu]]; [done|].
        by apply Hh in Hu.
    + destruct (lk_holds p) eqn:Ehp; [|by apply elem_of_nil in Hin].
      apply list_elem_of_singleton in Hin as [= -> ->].
      split; [|split; [done|]]; cbn.
      * by rewrite (locks_of_stay _ _ _ Outside).
      * intros u q d. rewrite lookup_insert_Some. intros [[-> [= -> <-]]|[? Hu]]; [done|].
        by apply Hh in Hu.
  - apply list_elem_of_singleton in Hin as [= -> ->].
    destruct (Hh t p d Ht) as [Hp ->]. split; [|split]; cbn.
    + by rewrite (locks_of_stay _ _ _ (Have (data s))).
    + unfold apply_all in *. rewrite foldl_app. cbn. by rewrite Hd.
    + intros u q d'. rewrite lookup_insert_Some. intros [[-> ?]|[Hne Hu]]; [done|].
      destruct (Hh u q d' Hu) as [Hq _]. destruct Hne.
      apply (holds_unique ts0 (lkst s) ts t u p q); rewrite ?Ht, ?Hu; done.
Qed.

(** Data updated under a lock sees the updates as atomic operations in the order in which
    they were written. *)
Lemma client_atomic ts0 d0 s ts :
  (∀ t p, ts0 !! t = Some p → lk_idle p) → Z.of_nat (size ts0) ≤ lk_max →
  rtc (sstep cstep) (cinit d0, (λ p, (p, Outside)) <$> ts0) (s, ts) →
  data s = apply_all d0 (done s) ∧
  ∀ t p d, ts !! t = Some (p, Have d) → d = data s.
Proof.
  intros Hi Hm Hr.
  assert (client_inv ts0 d0 (s, ts)) as (_ & Hd & Hh).
  { eapply (sys_invariant cstep (client_inv ts0 d0)); [|exact Hr|].
    - intros. by eapply client_step_inv.
    - split; [|split; [done|]]; cbn.
      + unfold locks_of. rewrite <- map_fmap_compose. unfold compose. cbn. by rewrite map_fmap_id.
      + intros t p d. rewrite lookup_fmap. destruct (ts0 !! t); naive_solver. }
  split; [done|]. intros t p d Ht. by destruct (Hh t p d Ht).
Qed.
End client.
