(* ===== verification/Spinlock.v ===== *)
(** * Spinlocks (src/kernel/kern/spinlock.c, src/kernel/kern/distlock.c)

    The lock word is 0 when the lock is free, -1 when a writer holds it and the number of
    readers otherwise; a writer that finds readers sets the sign bit of the word.  Every
    access to the word is one step of a thread; interrupts and the count of held locks are
    local to the thread. *)

From stdpp Require Import relations.
From S2P Require Import Prelude Threads Lock.

Open Scope Z_scope.

Definition SL_WRITER : Z := 0x80000000.

(** The calls a thread may make when it holds nothing. *)
Inductive call := CLock | CLockNoirq | CTry | CRd | CTryRd.

Inductive pc :=
  | Idle
  | Lock_load (noirq : bool)              (* val = *ptr *)
  | Lock_mark (noirq : bool) (val : Z)    (* cpu_atomic_cas(ptr, val, val | SL_WRITER) *)
  | Lock_cas (noirq : bool)               (* cpu_atomic_cas(ptr, 0, -1) *)
  | Rd_load
  | Rd_cas (val : Z)
  | Try_load
  | Try_cas
  | Tryrd_load
  | Tryrd_cas (val : Z)
  | Held (noirq : bool)
  | RdHeld
  | Unl_test (noirq : bool)               (* if( *ptr < 0) *)
  | Unl_store                             (* *ptr = 0 *)
  | Unl_add                               (* cpu_atomic_add(ptr, -1) *)
  | Unl_count                             (* assert(this->locks_count > 0); ... *)
  | Fault.

Notation thread := (lthread pc).

(** [spinlock_check]: the thread may give up the processor; its interrupts are enabled and
    disabled again. *)
Definition spinlock_check (th : thread) : thread :=
  cpu_disable_all_irq (cpu_restore_irq th).

(** The end of [__full_spinlock_lock]. *)
Definition lock_got (noirq : bool) (th : thread) : thread :=
  let th := count_add false 1 th in
  at_loc (Held noirq) (if noirq then save_irq th else cpu_restore_irq th).

(** The end of the other functions that take the lock. *)
Definition got (p : pc) (th : thread) : thread := at_loc p (cpu_restore_irq (count_add false 1 th)).

(** [return 1]. *)
Definition try_failed (th : thread) : thread := at_loc Idle (cpu_restore_irq th).

Definition start (c : call) (th : thread) : thread :=
  let th := cpu_disable_all_irq th in
  match c with
  | CLock => at_loc (Lock_load false) th
  | CLockNoirq => at_loc (Lock_load true) th
  | CTry => at_loc Try_load th
  | CRd => at_loc Rd_load th
  | CTryRd => at_loc Tryrd_load th
  end.

(** The steps of a thread that makes the calls [calls].  The word is [val]. *)
Definition tstep (calls : list call) (t : Z) (val : Z) (th : thread) : list (Z * thread) :=
  match loc th with
  | Idle => (λ c, (val, start c th)) <$> calls
  (* __full_spinlock_lock *)
  | Lock_load q =>
      if val >? 0 then [(val, at_loc (Lock_mark q val) th)]
      else if negb (val =? 0) then [(val, spinlock_check th)]
      else [(val, at_loc (Lock_cas q) th)]
  | Lock_mark q v =>
      (λ x : Z * bool, (x.1, at_loc (Lock_load q) th))
        <$> cpu_atomic_cas val v (s32 (Z.lor v SL_WRITER))
  | Lock_cas q =>
      (λ x : Z * bool, (x.1, if x.2 then lock_got q th else at_loc (Lock_load q) th))
        <$> cpu_atomic_cas val 0 (-1)
  (* spinlock_rdlock *)
  | Rd_load =>
      if val <? 0 then [(val, spinlock_check th)] else [(val, at_loc (Rd_cas val) th)]
  | Rd_cas v =>
      (λ x : Z * bool, (x.1, if x.2 then got RdHeld th else at_loc Rd_load th))
        <$> cpu_atomic_cas val v (s32 (v + 1))
  (* __spinlock_trylock *)
  | Try_load => [(val, if val =? 0 then at_loc Try_cas th else try_failed th)]
  | Try_cas =>
      (λ x : Z * bool, (x.1, if x.2 then got (Held false) th else try_failed th))
        <$> cpu_atomic_cas val 0 (-1)
  (* spinlock_tryrdlock *)
  | Tryrd_load => [(val, if 0 <=? val then at_loc (Tryrd_cas val) th else try_failed th)]
  | Tryrd_cas v =>
      (λ x : Z * bool, (x.1, if x.2 then got RdHeld th else try_failed th))
        <$> cpu_atomic_cas val v (s32 (v + 1))
  (* __full_spinlock_unlock *)
  | Held q =>
      [(val, at_loc (Unl_test q) (if q then load_irq th else cpu_disable_all_irq th))]
  | RdHeld => [(val, at_loc (Unl_test false) (cpu_disable_all_irq th))]
  | Unl_test _ => [(val, at_loc (if val <? 0 then Unl_store else Unl_add) th)]
  | Unl_store => [(0, at_loc Unl_count th)]
  | Unl_add => [((cpu_atomic_add val (-1)).1, at_loc Unl_count th)]
  | Unl_count =>
      if locks_count th >? 0
      then [(val, at_loc Idle (cpu_restore_irq (count_add false (-1) th)))]
      else [(val, at_loc Fault th)]
  | Fault => []
  end.

(** [spinlock_init]. *)
Definition spinlock_init : Z := 0.

Definition idle (th : thread) : Prop := loc th = Idle ∧ 0 ≤ locks_count th.

(** Inside the critical section. *)
Definition holds (th : thread) : bool := match loc th with Held _ => true | _ => false end.

(** Responsible for the word being -1: until the store of 0. *)
Definition owner (th : thread) : bool :=
  match loc th with Held _ | Unl_test _ | Unl_store => true | _ => false end.

(** ** Exclusive use: [lock], [lock_noirq], [trylock] and [unlock] *)

Definition excl : list call := [CLock; CLockNoirq; CTry].

(** What the thread [th] keeps of what it was at the start, [th0]. *)
Definition excl_ok (th0 th : thread) : Prop :=
  match loc th with
  | Idle => irq th = irq th0 ∧ locks_count th = locks_count th0
  | Lock_load _ | Lock_cas _ | Try_load | Try_cas =>
      irq th = 0 ∧ mode th = irq th0 ∧ locks_count th = locks_count th0
  | Held false => irq th = irq th0 ∧ locks_count th = locks_count th0 + 1
  | Held true => irq th = 0 ∧ irq_state th = irq th0 ∧ locks_count th = locks_count th0 + 1
  | Unl_test _ | Unl_store | Unl_count =>
      irq th = 0 ∧ mode th = irq th0 ∧ locks_count th = locks_count th0 + 1
  | _ => False
  end.

Definition excl_inv (ts0 : gmap Z thread) (w : sys Z thread) : Prop :=
  (w.1 = 0 ∨ w.1 = -1) ∧ count_pc owner w.2 = - w.1 ∧
  ∀ t th, w.2 !! t = Some th →
    ∃ th0, ts0 !! t = Some th0 ∧ 0 ≤ locks_count th0 ∧ excl_ok th0 th.

(** One step of one thread, given what [count_pc] knows about it. *)
Lemma excl_step th0 t val th val' th' :
  (val = 0 ∨ val = -1) → (owner th = true → val = -1) → 0 ≤ locks_count th0 →
  excl_ok th0 th → (val', th') ∈ tstep excl t val th →
  (val' = 0 ∨ val' = -1) ∧ val' - val = b2z (owner th) - b2z (owner th') ∧ excl_ok th0 th'.
Proof.
  intros Hv Ho Hc Hok Hin. destruct th as [p i m s c d]. unfold excl_ok in Hok.
  unfold tstep in Hin. unfold owner in Ho. cbn in Hok, Hin, Ho.
  destruct p; try done; try destruct noirq; cbn in Hin;
    repeat match type of Hin with context [if ?b then _ else _] => destruct b eqn:? end;
    rewrite ?list_elem_of_fmap, ?elem_of_cons, ?elem_of_nil in Hin;
    destruct_or?; destruct_and?; try done;
    try (destruct Hin as ([v b] & [= -> ->] & [(-> & -> & ->)|(-> & ->)]%cas_inv));
    simplify_eq; try (specialize (Ho eq_refl)); try lia;
    unfold excl_ok, owner, b2z; cbn; repeat split; try lia; auto.
Qed.

Lemma excl_step_inv ts0 s ts t p s' p' :
  excl_inv ts0 (s, ts) → ts !! t = Some p → (s', p') ∈ tstep excl t s p →
  excl_inv ts0 (s', <[t := p']> ts).
Proof.
  intros (Hv & Hc & Hok) Ht Hin. cbn in Hv, Hc, Hok.
  destruct (Hok t p Ht) as (th0 & H0 & Hl & Hp).
  destruct (excl_step th0 t s p s' p') as (Hv' & Hd & Hp'); try done.
  { intros Ho. pose proof (count_pc_elem owner ts t p Ht Ho). lia. }
  split; [done|]. split; cbn.
  - rewrite (count_pc_insert owner ts t p p' Ht). lia.
  - intros u th. rewrite lookup_insert_Some. intros [[-> <-]|[_ Hu]]; eauto.
Qed.

Lemma excl_reach_inv ts0 s ts :
  (∀ t th, ts0 !! t = Some th → idle th) →
  rtc (sstep (tstep excl)) (spinlock_init, ts0) (s, ts) → excl_inv ts0 (s, ts).
Proof.
  intros Hi Hr. eapply (sys_invariant (tstep excl) (excl_inv ts0)); [|exact Hr|].
  - intros. by eapply excl_step_inv.
  - split; [by left|]. split; cbn.
    + apply count_pc_none. intros t th [Hl _]%Hi. unfold owner. by rewrite Hl.
    + intros t th Ht. exists th. destruct (Hi t th Ht) as [Hl Hc].
      unfold excl_ok. rewrite Hl. auto.
Qed.

Lemma holds_owner th : holds th = true → owner th = true.
Proof. unfold holds, owner. by destruct (loc th). Qed.

Lemma count_holds_owner ts : count_pc holds ts ≤ count_pc owner ts.
Proof. apply count_pc_mono, holds_owner. Qed.

#[export] Instance spinlock_lock : Lock Z thread := {
  lk_step := tstep excl; lk_init := spinlock_init; lk_idle := idle; lk_holds := holds;
  lk_max := wsize
}.

#[export] Instance spinlock_lock_laws : LockLaws Z thread.
Proof.
  split.
  - intros th [Hl _]. cbn. unfold holds. by rewrite Hl.
  - intros ts0 s ts Hi _ Hr. destruct (excl_reach_inv ts0 s ts Hi Hr) as (Hv & Hc & _).
    pose proof (count_holds_owner ts). cbn in *. lia.
Qed.

(** A thread that waits for the lock, alone on the processor when the word is 0, gets it. *)
Lemma lock_solo val ts t q th :
  val = 0 → ts !! t = Some th → loc th = Lock_load q →
  ∃ ts', run (tstep excl) (val, ts) [(t, 0%nat); (t, 0%nat)] = Some (-1, ts') ∧
    loc <$> ts' !! t = Some (Held q).
Proof.
  intros -> Ht Hl.
  assert (tstep excl t 0 th = [(0, at_loc (Lock_cas q) th)]) as E1
    by (unfold tstep; by rewrite Hl).
  cbn [run snd fst mbind option_bind]. rewrite Ht. cbn [mbind option_bind]. rewrite E1. cbn.
  rewrite lookup_insert_eq. cbn. eexists. split; [reflexivity|].
  rewrite insert_insert_eq, lookup_insert_eq. cbn. by destruct q.
Qed.

(** C24. A spinlock used through [spinlock_lock], [spinlock_lock_noirq], [spinlock_trylock] and the
    unlock functions: for any threads and any interleaving at most one thread is inside the
    critical section; the word is 0 or -1, and it is 0 exactly when no thread is between the
    compare-and-swap that took the lock and the store that gives it back; the assertion of the unlock function holds; the count of held locks and
    the interrupt state of every thread are what they were, plus the lock it holds; and when
    no thread has the lock a thread that spins gets it by running alone. *)
Theorem spinlock_mutex ts0 s ts :
  (∀ t th, ts0 !! t = Some th → idle th) →
  rtc (sstep (tstep excl)) (spinlock_init, ts0) (s, ts) →
  (∀ t u th th', ts !! t = Some th → ts !! u = Some th' →
     holds th = true → holds th' = true → t = u) ∧
  (s = 0 ∨ s = -1) ∧ (s = 0 ↔ ∀ t th, ts !! t = Some th → owner th = false) ∧
  (∀ t th, ts !! t = Some th → ∃ th0, ts0 !! t = Some th0 ∧ loc th ≠ Fault ∧
     (loc th = Idle ∨ loc th = Held false → irq th = irq th0) ∧
     (loc th = Held true → irq th = 0 ∧ irq_state th = irq th0) ∧
     (loc th = Idle → locks_count th = locks_count th0) ∧
     (holds th = true → locks_count th = locks_count th0 + 1)) ∧
  (∀ t q th, ts !! t = Some th → loc th = Lock_load q →
     (∀ u th', ts !! u = Some th' → owner th' = false) →
     ∃ l s' ts', run (tstep excl) (s, ts) l = Some (s', ts') ∧
       loc <$> ts' !! t = Some (Held q) ∧ Forall (λ x, x.1 = t) l).
Proof.
  intros Hi Hr. destruct (excl_reach_inv ts0 s ts Hi Hr) as (Hv & Hc & Hok). cbn in Hv, Hc, Hok.
  split; [|split; [done|split; [|split]]].
  - intros t u th th' Ht Hu H1 H2. destruct (decide (t = u)) as [|Hne]; [done|].
    pose proof (count_pc_two owner ts t u th th' Ht Hu (holds_owner _ H1) (holds_owner _ H2) Hne).
    lia.
  - split.
    + intros E t th Ht. apply not_true_is_false. intros Ho. pose proof (count_pc_elem owner ts t th Ht Ho). lia.
    + intros Hno. rewrite (count_pc_none owner ts Hno) in Hc. lia.
  - intros t th Ht. destruct (Hok t th Ht) as (th0 & H0 & _ & Hp). exists th0.
    split; [done|]. unfold excl_ok, holds in *.
    destruct (loc th) as [|[]|[] ?|[]| | | | | | |[]| |[]| | | |]; naive_solver.
  - intros t q th Ht Hl Hno. assert (s = 0) as ->.
    { rewrite (count_pc_none owner ts Hno) in Hc. lia. }
    destruct (lock_solo 0 ts t q th eq_refl Ht Hl) as (ts' & Hrun & Hh).
    exists [(t, 0%nat); (t, 0%nat)], (-1), ts'. repeat constructor; done.
Qed.

(** Threads of the examples below. *)
Definition th_idle : thread :=
  {| loc := Idle; irq := 1; mode := 0; irq_state := 0; locks_count := 0;
     distlocks_count := 0 |}.

Lemma at_pc_idle ts t th : at_pc th_idle ts !! t = Some th → idle th.
Proof. intros ->%at_pc_lookup. split; cbn; [done|lia]. Qed.

(** Thread 1 takes the lock, thread 2 finds it taken and spins, thread 3's [trylock] fails. *)
Definition excl_example : option (sys Z thread) :=
  run (tstep excl) (spinlock_init, at_pc th_idle [1; 2; 3])
    [(1, 0%nat); (1, 0%nat); (2, 1%nat); (1, 0%nat); (2, 0%nat); (3, 2%nat); (3, 0%nat)].

Lemma spinlock_mutex_witness :
  match excl_example with
  | Some (s, ts) =>
      s = -1 ∧ loc <$> ts !! 1 = Some (Held false) ∧ loc <$> ts !! 2 = Some (Lock_load true) ∧
      loc <$> ts !! 3 = Some Idle ∧
      ∀ t u th th', ts !! t = Some th → ts !! u = Some th' →
        holds th = true → holds th' = true → t = u
  | None => False
  end.
Proof.
  destruct excl_example as [[s ts]|] eqn:E; [|by vm_compute in E].
  assert (s = -1 ∧ loc <$> ts !! 1 = Some (Held false) ∧
    loc <$> ts !! 2 = Some (Lock_load true) ∧ loc <$> ts !! 3 = Some Idle) as (H1 & H2 & H3 & H4).
  { vm_compute in E. by injection E as <- <-. }
  refine (conj H1 (conj H2 (conj H3 (conj H4 _)))).
  refine (proj1 (spinlock_mutex (at_pc th_idle [1; 2; 3]) s ts (at_pc_idle _) _)).
  exact (run_rtc _ _ _ _ E).
Defined.

(** ** Shared use: [rdlock], [tryrdlock] and [unlock], without writers *)

Definition shared : list call := [CRd; CTryRd].

Definition reader (th : thread) : bool :=
  match loc th with RdHeld | Unl_test _ | Unl_add => true | _ => false end.

Definition shared_ok (th : thread) : Prop :=
  match loc th with
  | Idle | Rd_load | Rd_cas _ | Tryrd_load | Tryrd_cas _ => 0 ≤ locks_count th
  | RdHeld | Unl_test _ | Unl_add | Unl_count => 0 < locks_count th
  | _ => False
  end.

Definition shared_inv (n : nat) (w : sys Z thread) : Prop :=
  w.1 = count_pc reader w.2 ∧ size w.2 = n ∧
  ∀ t th, w.2 !! t = Some th → shared_ok th.

Lemma shared_step t val th val' th' :
  0 ≤ val < 2 ^ 31 - 1 → (reader th = true → 1 ≤ val) →
  shared_ok th → (val', th') ∈ tstep shared t val th →
  val' - val = b2z (reader th') - b2z (reader th) ∧ shared_ok th'.
Proof.
  intros Hv Ho Hok Hin. destruct th as [p i m s c d]. unfold shared_ok in Hok.
  unfold tstep in Hin. unfold reader in Ho. cbn in Hok, Hin, Ho.
  destruct p; try done; cbn in Hin;
    repeat match type of Hin with context [if ?b then _ else _] => destruct b eqn:? end;
    rewrite ?list_elem_of_fmap, ?elem_of_cons, ?elem_of_nil in Hin;
    destruct_or?; destruct_and?; try done;
    try (destruct Hin as ([v b] & [= -> ->] & [(-> & -> & ->)|(-> & ->)]%cas_inv));
    simplify_eq; try (specialize (Ho eq_refl)); try lia;
    unfold shared_ok, reader, b2z; cbn; rewrite ?s32_small by lia; repeat split; try lia; auto.
Qed.

(** Without writers the word is the number of readers: any number of threads may hold the
    lock together, and the assertion of the unlock function holds. *)
Theorem spinlock_readers ts0 s ts :
  (∀ t th, ts0 !! t = Some th → idle th) → Z.of_nat (size ts0) < 2 ^ 31 - 1 →
  rtc (sstep (tstep shared)) (spinlock_init, ts0) (s, ts) →
  s = count_pc reader ts ∧ (∀ t th, ts !! t = Some th → loc th ≠ Fault).
Proof.
  intros Hi Hn Hr.
  assert (shared_inv (size ts0) (s, ts)) as (Hs & _ & Hok).
  { eapply (sys_invariant (tstep shared) (shared_inv (size ts0))); [|exact Hr|].
    - intros v m t p v' p' (Hv & Hz & Hok) Ht Hin. cbn in Hv, Hz, Hok.
      pose proof (count_pc_nonneg reader m). pose proof (count_pc_size reader m).
      destruct (shared_step t v p v' p') as [Hd Hp]; [lia| |by apply (Hok t)|done|].
      { intros Ho. pose proof (count_pc_elem reader m t p Ht Ho). lia. }
      split; [|split]; cbn.
      + rewrite (count_pc_insert reader m t p p' Ht). lia.
      + by rewrite (size_insert m t p p' Ht).
      + intros u th. rewrite lookup_insert_Some. intros [[-> <-]|[_ Hu]]; eauto.
    - split; [|split; [done|]]; cbn.
      + rewrite count_pc_none; [done|]. intros t th [Hl _]%Hi. unfold reader. by rewrite Hl.
      + intros t th [Hl Hc]%Hi. unfold shared_ok. by rewrite Hl. }
  split; [done|]. intros t th Ht El. specialize (Hok t th Ht). unfold shared_ok in Hok.
  by rewrite El in Hok.
Qed.

(** ** Readers and writers together *)

Definition all_calls : list call := [CLock; CLockNoirq; CTry; CRd; CTryRd].

(** With two readers inside and a writer waiting, the sign bit is set; the first reader that
    unlocks stores 0 instead of counting down, and the writer enters while the second reader
    is still inside. *)
Theorem spinlock_writer_with_reader :
  ∃ s ts, rtc (sstep (tstep all_calls)) (spinlock_init, at_pc th_idle [1; 2; 3]) (s, ts) ∧
    loc <$> ts !! 2 = Some RdHeld ∧ loc <$> ts !! 3 = Some (Held false).
Proof.
  destruct (run (tstep all_calls) (spinlock_init, at_pc th_idle [1; 2; 3])
    [(1, 3%nat); (1, 0%nat); (1, 0%nat); (2, 3%nat); (2, 0%nat); (2, 0%nat);
     (3, 0%nat); (3, 0%nat); (3, 0%nat); (1, 0%nat); (1, 0%nat); (1, 0%nat);
     (3, 0%nat); (3, 0%nat)]) as [[s ts]|] eqn:E; [|by vm_compute in E].
  exists s, ts. split; [by eapply run_rtc|]. vm_compute in E. by injection E as <- <-.
Qed.

(** Threads that hold nothing. *)
Definition outside (th : thread) : Prop :=
  match loc th with Idle | Lock_load _ | Rd_load | Try_load | Tryrd_load => True | _ => False end.

Lemma negative_word_stays s ts s' ts' :
  s < 0 → (∀ t th, ts !! t = Some th → outside th) →
  rtc (sstep (tstep all_calls)) (s, ts) (s', ts') →
  s' = s ∧ ∀ t th, ts' !! t = Some th → outside th.
Proof.
  intros Hs Ho Hr.
  set (I := λ w : sys Z thread, w.1 = s ∧ ∀ t th, w.2 !! t = Some th → outside th).
  refine (sys_invariant (tstep all_calls) I _ _ _ Hr _); [|by split].
  intros v m t p v' p' [Hv Hm] Ht Hin. cbn in Hv, Hm. subst v.
  assert (v' = s ∧ outside p') as [-> Hp'].
  { pose proof (Hm t p Ht) as Hp. destruct p as [q i mo st c d]. unfold outside in Hp.
    unfold tstep in Hin. cbn in Hp, Hin. destruct q; try done; cbn in Hin;
    repeat match type of Hin with context [if ?b then _ else _] => destruct b eqn:? end;
    rewrite ?list_elem_of_fmap, ?elem_of_cons, ?elem_of_nil in Hin;
    destruct_or?; try done; simplify_eq; try lia; by split. }
  split; [done|]. cbn. intros u th. rewrite lookup_insert_Some. intros [[_ <-]|[_ Hu]]; eauto.
Qed.

(** The test and the subtraction of a reader's unlock are separate accesses: when a writer
    sets the sign bit between them, the word ends as -2^31 with no thread inside, and no thread
    ever gets the lock again. *)
Theorem spinlock_reader_leaves_stuck :
  ∃ s ts, rtc (sstep (tstep all_calls)) (spinlock_init, at_pc th_idle [1; 2]) (s, ts) ∧
    loc <$> ts !! 1 = Some Idle ∧ loc <$> ts !! 2 = Some (Lock_load false) ∧
    ∀ s' ts', rtc (sstep (tstep all_calls)) (s, ts) (s', ts') →
      s' = - 2 ^ 31 ∧ ∀ t th, ts' !! t = Some th → outside th.
Proof.
  destruct (run (tstep all_calls) (spinlock_init, at_pc th_idle [1; 2])
    [(1, 3%nat); (1, 0%nat); (1, 0%nat); (1, 0%nat); (1, 0%nat);
     (2, 0%nat); (2, 0%nat); (2, 0%nat); (1, 0%nat); (1, 0%nat)]) as [[s ts]|] eqn:E;
    [|by vm_compute in E].
  exists s, ts. split; [by eapply run_rtc|].
  assert (s = - 2 ^ 31 ∧ loc <$> ts !! 1 = Some Idle ∧ loc <$> ts !! 2 = Some (Lock_load false) ∧
    Forall (λ x, outside x.2) (map_to_list ts)) as (-> & H1 & H2 & Hall).
  { vm_compute in E. injection E as <- <-. repeat split; try done. vm_compute. by repeat constructor. }
  split; [done|]. split; [done|]. intros s' ts' Hr.
  eapply (negative_word_stays (- 2 ^ 31) ts s' ts'); [lia| |done].
  intros t th Ht%elem_of_map_to_list. rewrite Forall_forall in Hall. exact (Hall _ Ht).
Qed.

(** ** Spinlocks of other clusters (src/kernel/kern/distlock.c)

    The word is accessed with the remote load, store and compare-and-swap.  [distlock_lock],
    [distlock_trylock] and [distlock_unlock] are these functions on the lock's copy in the
    boot cluster. *)

Module Remote.

Inductive pc :=
  | Idle
  | Lock_load
  | Lock_cas
  | Try_load
  | Try_cas
  | Held
  | Unl_count
  | Fault.

Notation thread := (lthread pc).

(** [rm_spinlock_check]. *)
Definition rm_spinlock_check (th : thread) : thread :=
  cpu_disable_all_irq (cpu_restore_irq th).

(** The lock is taken: count it, enable the interrupts again. *)
Definition got (th : thread) : thread := at_loc Held (cpu_restore_irq (count_add true 1 th)).

(** [return 1] of [remote_spinlock_trylock]. *)
Definition try_failed (th : thread) : thread := at_loc Idle (cpu_restore_irq th).

Definition tstep (t : Z) (val : Z) (th : thread) : list (Z * thread) :=
  match loc th with
  | Idle =>
      [(val, at_loc Lock_load (cpu_disable_all_irq th));
       (val, at_loc Try_load (cpu_disable_all_irq th))]
  (* remote_spinlock_lock *)
  | Lock_load =>
      if negb (val =? 0) then [(val, rm_spinlock_check th)] else [(val, at_loc Lock_cas th)]
  | Lock_cas =>
      (λ x : Z * bool, (x.1, if x.2 then got th else at_loc Lock_load th))
        <$> cpu_atomic_cas val 0 (-1)
  (* remote_spinlock_trylock *)
  | Try_load => [(val, if val =? 0 then at_loc Try_cas th else try_failed th)]
  | Try_cas =>
      (λ x : Z * bool, (x.1, if x.2 then got th else try_failed th))
        <$> cpu_atomic_cas val 0 (-1)
  (* remote_spinlock_unlock *)
  | Held => [(0, at_loc Unl_count th)]
  | Unl_count =>
      if distlocks_count th >? 0
      then [(val, at_loc Idle (count_add true (-1) th))]
      else [(val, at_loc Fault th)]
  | Fault => []
  end.

Definition idle (th : thread) : Prop := loc th = Idle ∧ 0 ≤ distlocks_count th.

Definition holds (th : thread) : bool := match loc th with Held => true | _ => false end.

Definition ok (th0 th : thread) : Prop :=
  match loc th with
  | Idle => irq th = irq th0 ∧ distlocks_count th = distlocks_count th0
  | Lock_load | Lock_cas | Try_load | Try_cas =>
      irq th = 0 ∧ mode th = irq th0 ∧ distlocks_count th = distlocks_count th0
  | Held | Unl_count => irq th = irq th0 ∧ distlocks_count th = distlocks_count th0 + 1
  | Fault => False
  end.

Definition inv (ts0 : gmap Z thread) (w : sys Z thread) : Prop :=
  (w.1 = 0 ∨ w.1 = -1) ∧ count_pc holds w.2 = - w.1 ∧
  ∀ t th, w.2 !! t = Some th →
    ∃ th0, ts0 !! t = Some th0 ∧ 0 ≤ distlocks_count th0 ∧ ok th0 th.

Lemma remote_step th0 t val th val' th' :
  (val = 0 ∨ val = -1) → (holds th = true → val = -1) → 0 ≤ distlocks_count th0 →
  ok th0 th → (val', th') ∈ tstep t val th →
  (val' = 0 ∨ val' = -1) ∧ val' - val = b2z (holds th) - b2z (holds th') ∧ ok th0 th'.
Proof.
  intros Hv Ho Hc Hok Hin. destruct th as [p i m s c d]. unfold ok in Hok.
  unfold tstep in Hin. unfold holds in Ho. cbn in Hok, Hin, Ho.
  destruct p; try done; cbn in Hin;
    repeat match type of Hin with context [if ?b then _ else _] => destruct b eqn:? end;
    rewrite ?list_elem_of_fmap, ?elem_of_cons, ?elem_of_nil in Hin;
    destruct_or?; destruct_and?; try done;
    try (destruct Hin as ([v b] & [= -> ->] & [(-> & -> & ->)|(-> & ->)]%cas_inv));
    simplify_eq; try (specialize (Ho eq_refl)); try lia;
    unfold ok, holds, b2z; cbn; repeat split; try lia; auto.
Qed.

Lemma remote_reach_inv ts0 s ts :
  (∀ t th, ts0 !! t = Some th → idle th) →
  rtc (sstep tstep) (spinlock_init, ts0) (s, ts) → inv ts0 (s, ts).
Proof.
  intros Hi Hr. eapply (sys_invariant tstep (inv ts0)); [|exact Hr|].
  - intros v m t p v' p' (Hv & Hc & Hok) Ht Hin. cbn in Hv, Hc, Hok.
    destruct (Hok t p Ht) as (th0 & H0 & Hl & Hp).
    destruct (remote_step th0 t v p v' p') as (Hv' & Hd & Hp'); try done.
    { intros Ho. pose proof (count_pc_elem holds m t p Ht Ho). lia. }
    split; [done|]. split; cbn.
    + rewrite (count_pc_insert holds m t p p' Ht). lia.
    + intros u th. rewrite lookup_insert_Some. intros [[-> <-]|[_ Hu]]; eauto.
  - split; [by left|]. split; cbn.
    + apply count_pc_none. intros t th [Hl _]%Hi. unfold holds. by rewrite Hl.
    + intros t th Ht. exists th. destruct (Hi t th Ht) as [Hl Hc].
      unfold ok. rewrite Hl. auto.
Qed.

#[export] Instance remote_lock : Lock Z thread := {
  lk_step := tstep; lk_init := spinlock_init; lk_idle := idle; lk_holds := holds;
  lk_max := wsize
}.

#[export] Instance remote_lock_laws : LockLaws Z thread.
Proof.
  split.
  - intros th [Hl _]. cbn. unfold holds. by rewrite Hl.
  - intros ts0 s ts Hi _ Hr. destruct (remote_reach_inv ts0 s ts Hi Hr) as (Hv & Hc & _).
    cbn in *. lia.
Qed.

(** A remote spinlock never fails the assertion of its unlock, and leaves the interrupt state
    and the count of its threads as they were. *)
Theorem remote_spinlock_correct ts0 s ts t th :
  (∀ t th, ts0 !! t = Some th → idle th) →
  rtc (sstep tstep) (spinlock_init, ts0) (s, ts) → ts !! t = Some th →
  count_pc holds ts ≤ 1 ∧ loc th ≠ Fault ∧
  ∃ th0, ts0 !! t = Some th0 ∧
    (loc th = Idle → irq th = irq th0 ∧ distlocks_count th = distlocks_count th0).
Proof.
  intros Hi Hr Ht. destruct (remote_reach_inv ts0 s ts Hi Hr) as (Hv & Hc & Hok).
  destruct (Hok t th Ht) as (th0 & H0 & _ & Hp). cbn in Hv, Hc. split; [lia|].
  unfold ok in Hp. split; [intros El; by rewrite El in Hp|]. exists th0.
  split; [done|]. intros El. by rewrite El in Hp.
Qed.

End Remote.
