(* ===== verification/Mcs.v ===== *)
(** * Ticket locks and busy-waiting barriers (src/kernel/kern/mcs_sync.c)

    [mcs_lock] takes a ticket and waits for its turn; [mcs_barrier_wait] counts the threads
    down and releases them through one of two words that alternate.  Every access to shared
    memory is one step. *)

From stdpp Require Import relations.
From S2P Require Import Prelude Threads Lock Spinlock.

Open Scope Z_scope.

(** ** The ticket lock *)

Record mcs_lock := { cntr : Z; ticket : Z }.

Inductive mpc :=
  | MIdle
  | MWait (ticket : Z)     (* while(ticket != cpu_load_word(&ptr->cntr.value)) *)
  | MHeld
  | MUnl (next : Z)        (* *val_ptr = next *)
  | MCount                 (* assert(current_thread->locks_count > 0) *)
  | MFault.

Notation mthread := (lthread mpc).

Definition mcs_lock_init : mcs_lock := {| cntr := 0; ticket := 0 |}.

(** [mcs_lock] and [mcs_unlock], or for [remote] the versions for another cluster. *)
Definition mstep (remote : bool) (t : Z) (s : mcs_lock) (th : mthread) :
    list (mcs_lock * mthread) :=
  match loc th with
  | MIdle =>
      [({| cntr := cntr s; ticket := u32 (ticket s + 1) |},
        at_loc (MWait (ticket s)) (save_irq (cpu_disable_all_irq th)))]
  | MWait k =>
      if k =? cntr s then [(s, at_loc MHeld (count_add remote 1 th))] else [(s, th)]
  | MHeld => [(s, at_loc (MUnl (u32 (cntr s + 1))) th)]
  | MUnl next => [({| cntr := next; ticket := ticket s |}, at_loc MCount th)]
  | MCount =>
      if lock_counter remote th >? 0
      then [(s, at_loc MIdle (cpu_restore_irq (load_irq (count_add remote (-1) th))))]
      else [(s, at_loc MFault th)]
  | MFault => []
  end.

Definition midle (remote : bool) (th : mthread) : Prop :=
  loc th = MIdle ∧ 0 ≤ lock_counter remote th.

Definition mholds (th : mthread) : bool := match loc th with MHeld => true | _ => false end.

(** The thread at position [i] of the queue when [c] threads have left it before. *)
Definition place_ok (c : Z) (i : nat) (th : mthread) : Prop :=
  match loc th with
  | MWait k => k = u32 (c + Z.of_nat i)
  | MHeld => i = 0%nat
  | MUnl next => i = 0%nat ∧ next = u32 (c + 1)
  | _ => False
  end.

Definition asked (th : mthread) : bool :=
  match loc th with MWait _ | MHeld | MUnl _ => true | _ => false end.

(** Past the wait and before the store that lets the next thread in. *)
Definition inside (th : mthread) : bool := match loc th with MHeld | MUnl _ => true | _ => false end.

Definition local_ok (remote : bool) (th0 th : mthread) : Prop :=
  match loc th with
  | MIdle => irq th = irq th0 ∧ lock_counter remote th = lock_counter remote th0
  | MWait _ => irq th = 0 ∧ irq_state th = irq th0 ∧
      lock_counter remote th = lock_counter remote th0
  | MHeld | MUnl _ | MCount => irq th = 0 ∧ irq_state th = irq th0 ∧
      lock_counter remote th = lock_counter remote th0 + 1
  | MFault => False
  end.

(** The relation between the lock and the queue. *)
Record mcs_rel (remote : bool) (ts0 : gmap Z mthread) (c : Z) (q : list Z)
    (w : sys mcs_lock mthread) : Prop := {
  rel_pos : 0 ≤ c;
  rel_cntr : cntr w.1 = u32 c;
  rel_ticket : ticket w.1 = u32 (c + Z.of_nat (length q));
  rel_nodup : NoDup q;
  rel_in : ∀ i t, q !! i = Some t → ∃ th, w.2 !! t = Some th ∧ place_ok c i th;
  rel_asked : ∀ t th, w.2 !! t = Some th → asked th = true → t ∈ q;
  rel_local : ∀ t th, w.2 !! t = Some th →
    ∃ th0, ts0 !! t = Some th0 ∧ 0 ≤ lock_counter remote th0 ∧ local_ok remote th0 th;
  rel_size : size w.2 = size ts0
}.

Lemma u32_inj_near c i j : 0 ≤ i < wsize → 0 ≤ j < wsize → u32 (c + i) = u32 (c + j) → i = j.
Proof.
  intros Hi Hj E. unfold u32 in E.
  pose proof (Z.div_mod (c + i) wsize ltac:(by vm_compute)).
  pose proof (Z.div_mod (c + j) wsize ltac:(by vm_compute)).
  unfold wsize in *. nia.
Qed.

Lemma rel_asked_iff remote ts0 c q s ts t th :
  mcs_rel remote ts0 c q (s, ts) → ts !! t = Some th → (t ∈ q ↔ asked th = true).
Proof.
  intros R Ht. split; [|by apply (rel_asked _ _ _ _ _ R)].
  intros (i & Hi)%list_elem_of_lookup. destruct (rel_in _ _ _ _ _ R i t Hi) as (th' & Ht' & Hp).
  cbn in Ht'. assert (th' = th) as -> by congruence. unfold place_ok, asked in *. by destruct (loc th).
Qed.

Section mcs.
Context (remote : bool) (ts0 : gmap Z mthread).
Hypothesis (Hmax : Z.of_nat (size ts0) ≤ wsize).

Lemma rel_len c q w : mcs_rel remote ts0 c q w → Z.of_nat (length q) ≤ wsize.
Proof.
  intros R. destruct R. pose proof (nodup_size q w.2 rel_nodup0) as Hs.
  assert (length q ≤ size w.2)%nat; [|lia]. apply Hs.
  intros t (i & Hi)%list_elem_of_lookup. destruct (rel_in0 i t Hi) as (th & -> & _). eauto.
Qed.

(** A waiting thread whose turn it is is the first of the queue. *)
Lemma turn_first c q w i t :
  mcs_rel remote ts0 c q w → q !! i = Some t → u32 (c + Z.of_nat i) = cntr w.1 → i = 0%nat.
Proof.
  intros R Hi E. pose proof (rel_len c q w R). apply lookup_lt_Some in Hi.
  rewrite (rel_cntr _ _ _ _ _ R) in E.
  enough (Z.of_nat i = 0) by lia. apply (u32_inj_near c); [lia|by vm_compute|].
  by rewrite Z.add_0_r.
Qed.

(** A step of [t] that leaves the queue as it is. *)
Lemma rel_stay c q s ts t th th' :
  mcs_rel remote ts0 c q (s, ts) → ts !! t = Some th →
  (∀ i, q !! i = Some t → place_ok c i th → place_ok c i th') →
  (asked th' = true → asked th = true) →
  (∀ th0, 0 ≤ lock_counter remote th0 → local_ok remote th0 th → local_ok remote th0 th') →
  mcs_rel remote ts0 c q (s, <[t := th']> ts).
Proof.
  intros [] Ht Hp Ha Hl. split; try done; cbn in *.
  - intros i u Hi. destruct (rel_in0 i u Hi) as (thu & Hu & Hpu).
    destruct (decide (u = t)) as [->|Hne].
    + exists th'. rewrite lookup_insert_eq. simplify_eq. eauto.
    + exists thu. by rewrite lookup_insert_ne.
  - intros u thu. rewrite lookup_insert_Some. intros [[<- <-]|[_ Hu]]; eauto.
  - intros u thu. rewrite lookup_insert_Some. intros [[<- <-]|[_ Hu]]; [|eauto].
    destruct (rel_local0 t th Ht) as (th0 & H0 & Hc & Ho). eauto 10.
  - by rewrite (size_insert ts t th th' Ht).
Qed.

Lemma rel_enter c q s ts t th :
  mcs_rel remote ts0 c q (s, ts) → ts !! t = Some th → loc th = MIdle →
  t ∉ q ∧
  mcs_rel remote ts0 c (q ++ [t])
    ({| cntr := cntr s; ticket := u32 (ticket s + 1) |},
     <[t := at_loc (MWait (ticket s)) (save_irq (cpu_disable_all_irq th))]> ts).
Proof.
  intros R Ht El. assert (t ∉ q) as Hnq.
  { intros (i & Hi)%list_elem_of_lookup. destruct (rel_in _ _ _ _ _ R i t Hi) as (th' & Ht' & Hp).
    cbn in Ht'. assert (th' = th) as -> by congruence. unfold place_ok in Hp. by rewrite El in Hp. }
  split; [done|]. destruct R. cbn in *. split; cbn; try done.
  - rewrite rel_ticket0, u32_add_l, length_app. cbn. f_equal. lia.
  - apply NoDup_app. split; [done|]. split; [|apply NoDup_singleton].
    intros u Hu ->%list_elem_of_singleton. done.
  - intros i u [Hi|[Hi Hu]]%lookup_app_Some.
    + destruct (rel_in0 i u Hi) as (thu & Hu & Hp). exists thu. split; [|done].
      rewrite lookup_insert_ne; [done|]. intros <-. destruct Hnq. by eapply list_elem_of_lookup_2.
    + apply list_lookup_singleton_Some in Hu as [Hz <-]. eexists.
      split; [apply lookup_insert_eq|]. cbn. rewrite rel_ticket0. f_equal. lia.
  - intros u thu. rewrite lookup_insert_Some. intros [[<- <-]|[_ Hu]] Ha.
    + set_solver.
    + apply elem_of_app. left. eauto.
  - intros u thu. rewrite lookup_insert_Some. intros [[<- <-]|[_ Hu]]; [|eauto].
    destruct (rel_local0 t th Ht) as (th0 & H0 & Hc & Ho). exists th0. split; [done|].
    split; [done|]. unfold local_ok in *. rewrite El in Ho. cbn. destruct remote; naive_solver.
  - by rewrite (size_insert ts t th _ Ht).
Qed.

Lemma rel_exit c q s ts t th next :
  mcs_rel remote ts0 c q (s, ts) → ts !! t = Some th → loc th = MUnl next →
  ∃ q', q = t :: q' ∧
  mcs_rel remote ts0 (c + 1) q'
    ({| cntr := next; ticket := ticket s |}, <[t := at_loc MCount th]> ts).
Proof.
  intros [] Ht El. cbn in *.
  assert (t ∈ q) as (i & Hi)%list_elem_of_lookup
    by (apply (rel_asked0 t th Ht); unfold asked; by rewrite El).
  destruct (rel_in0 i t Hi) as (th' & Ht' & Hp). simplify_eq.
  unfold place_ok in Hp. rewrite El in Hp. destruct Hp as [-> ->].
  destruct q as [|u q]; [done|]. injection Hi as ->. exists q. split; [done|].
  apply NoDup_cons in rel_nodup0 as [Hnq Hnd].
  split; cbn; try done; try lia.
  - rewrite rel_ticket0. f_equal. cbn. lia.
  - intros i u Hi. destruct (rel_in0 (S i) u Hi) as (thu & Hu & Hp). exists thu. split.
    + rewrite lookup_insert_ne; [done|]. intros ->. destruct Hnq. by eapply list_elem_of_lookup_2.
    + unfold place_ok in *. destruct (loc thu); try done; [|by destruct Hp].
      rewrite Hp. f_equal. lia.
  - intros u thu. rewrite lookup_insert_Some. intros [[<- <-]|[Hne Hu]] Ha; [done|].
    specialize (rel_asked0 u thu Hu Ha). apply elem_of_cons in rel_asked0 as [->|]; done.
  - intros u thu. rewrite lookup_insert_Some. intros [[<- <-]|[_ Hu]]; [|eauto].
    destruct (rel_local0 t th Ht) as (th0 & H0 & Hc & Ho). exists th0. split; [done|].
    split; [done|]. unfold local_ok in *. rewrite El in Ho. cbn. by destruct remote.
  - by rewrite (size_insert ts t th _ Ht).
Qed.

(** A step of a thread: it asks, it leaves, or the queue stays as it is. *)
Lemma mcs_step_rel c q s ts t th s' th' :
  mcs_rel remote ts0 c q (s, ts) → ts !! t = Some th → (s', th') ∈ mstep remote t s th →
  ∃ c' q', mcs_rel remote ts0 c' q' (s', <[t := th']> ts) ∧
    (t ∉ q ∧ asked th = false ∧ asked th' = true ∧ inside th' = false ∧ c' = c ∧ q' = q ++ [t] ∨
     inside th = true ∧ asked th' = false ∧ inside th' = false ∧ c' = c + 1 ∧ q = t :: q' ∨
     asked th' = asked th ∧ (inside th = true → inside th' = true) ∧
       negb (mholds th) && mholds th' = negb (inside th) && inside th' ∧ c' = c ∧ q' = q).
Proof.
  intros R Ht Hin. pose proof (rel_local _ _ _ _ _ R t th Ht) as (th0 & _ & _ & Hl).
  unfold mstep in Hin. unfold asked, inside, mholds. destruct (loc th) as [|k| |next| |] eqn:El.
  - apply list_elem_of_singleton in Hin as [= -> ->].
    destruct (rel_enter c q s ts t th R Ht El) as [Hnq R']. exists c, (q ++ [t]). split; [done|by left].
  - exists c, q. destruct (Z.eqb_spec k (cntr s)) as [->|Hne]; apply list_elem_of_singleton in Hin as [= -> ->].
    + split; [|by right; right]. eapply rel_stay; [done..| | |].
      * intros i Hi Hp. unfold place_ok in Hp |- *. rewrite El in Hp. cbn.
        by apply (turn_first c q (s, ts) i t R Hi).
      * unfold asked. by rewrite El.
      * intros th1 Hc. unfold local_ok. rewrite El. cbn.
        destruct remote; cbn; intros (H1 & H2 & H3); (split; [done|]); (split; [done|lia]).
    + rewrite (insert_id ts t th Ht). split; [done|]. right; right. by rewrite El.
  - apply list_elem_of_singleton in Hin as [= -> ->]. exists c, q. split; [|by right; right].
    eapply rel_stay; [done..| | |].
    + intros i Hi Hp. unfold place_ok in Hp |- *. rewrite El in Hp. cbn. split; [done|].
      pose proof (rel_cntr _ _ _ _ _ R) as Ec. cbn in Ec. rewrite Ec. apply u32_add_l.
    + unfold asked. by rewrite El.
    + intros th1 Hc. unfold local_ok. rewrite El. cbn. by destruct remote.
  - apply list_elem_of_singleton in Hin as [= -> ->].
    destruct (rel_exit c q s ts t th next R Ht El) as (q' & -> & R'). exists (c + 1), q'. split; [done|by right; left].
  - exists c, q. assert (lock_counter remote th > 0) as Hgt.
    { destruct (rel_local _ _ _ _ _ R t th Ht) as (th1 & _ & Hc & Ho).
      unfold local_ok in Ho. rewrite El in Ho. lia. }
    apply Z.gtb_gt in Hgt. rewrite Hgt in Hin. apply list_elem_of_singleton in Hin as [= -> ->].
    split; [|by right; right]. eapply rel_stay; [done..| | |].
    + intros i Hi Hp. unfold place_ok in Hp. by rewrite El in Hp.
    + done.
    + intros th1 Hc. unfold local_ok. rewrite El. cbn. destruct remote; cbn; intros (H1 & H2 & H3); (split; [done|lia]).
  - unfold local_ok in Hl. by rewrite El in Hl.
Qed.

Lemma rel_init : (∀ t th, ts0 !! t = Some th → midle remote th) → mcs_rel remote ts0 0 [] (mcs_lock_init, ts0).
Proof.
  intros Hi. split; cbn; try done; try constructor.
  - intros t th Ht Ha. destruct (Hi t th Ht) as [El _]. unfold asked in Ha. by rewrite El in Ha.
  - intros t th Ht. exists th. destruct (Hi t th Ht) as [El Hc]. unfold local_ok. by rewrite El.
Qed.

Lemma mcs_reach w :
  (∀ t th, ts0 !! t = Some th → midle remote th) →
  rtc (sstep (mstep remote)) (mcs_lock_init, ts0) w → ∃ c q, mcs_rel remote ts0 c q w.
Proof.
  intros Hi Hr. refine (sys_invariant (mstep remote) (λ w, ∃ c q, mcs_rel remote ts0 c q w) _ _ _ Hr _).
  - intros s ts t p s' p' (c & q & R) Ht Hin.
    destruct (mcs_step_rel c q s ts t p s' p' R Ht Hin) as (c' & q' & R' & _). by exists c', q'.
  - exists 0, []. by apply rel_init.
Qed.
End mcs.

(** A thread inside is the first of the queue. *)
Lemma inside_first remote ts0 c q s ts t th :
  mcs_rel remote ts0 c q (s, ts) → ts !! t = Some th → inside th = true → q !! 0%nat = Some t.
Proof.
  intros R Ht Hh. assert (t ∈ q) as (i & Hi)%list_elem_of_lookup.
  { apply (rel_asked _ _ _ _ _ R t th Ht). unfold asked, inside in *. by destruct (loc th). }
  destruct (rel_in _ _ _ _ _ R i t Hi) as (th' & Ht' & Hp). cbn in Ht'. assert (th' = th) as -> by congruence.
  unfold place_ok, inside in *. destruct (loc th); try done; [by subst i|by destruct Hp as [-> _]].
Qed.

Lemma mholds_inside th : mholds th = true → inside th = true.
Proof. unfold mholds, inside. by destruct (loc th). Qed.

Lemma mcs_mutex remote ts0 s ts :
  (∀ t th, ts0 !! t = Some th → midle remote th) → Z.of_nat (size ts0) ≤ wsize →
  rtc (sstep (mstep remote)) (mcs_lock_init, ts0) (s, ts) → count_pc mholds ts ≤ 1.
Proof.
  intros Hi Hm Hr. destruct (mcs_reach remote ts0 Hm (s, ts) Hi Hr) as (c & q & R).
  apply count_pc_le_1. intros t u th thu Ht Hu H1 H2.
  pose proof (inside_first _ _ _ _ _ _ t th R Ht (mholds_inside _ H1)).
  pose proof (inside_first _ _ _ _ _ _ u thu R Hu (mholds_inside _ H2)). congruence.
Qed.

#[export] Instance mcs_local_lock : Lock mcs_lock mthread := {
  lk_step := mstep false; lk_init := mcs_lock_init; lk_idle := midle false;
  lk_holds := mholds; lk_max := wsize
}.

#[export] Instance mcs_local_lock_laws : LockLaws mcs_lock mthread.
Proof.
  split.
  - intros th [El _]. cbn. unfold mholds. by rewrite El.
  - intros ts0 s ts Hi Hm Hr. by eapply (mcs_mutex false).
Qed.

(** ** Order of service

    An execution with its history: the threads that have taken a ticket and the threads that have
    entered the critical section, each in the order in which they did. *)
Inductive mrun (remote : bool) (ts0 : gmap Z mthread) : list Z → list Z → sys mcs_lock mthread → Prop :=
  | mrun_nil : mrun remote ts0 [] [] (mcs_lock_init, ts0)
  | mrun_step asks enters s ts t th s' th' :
      mrun remote ts0 asks enters (s, ts) → ts !! t = Some th → (s', th') ∈ mstep remote t s th →
      mrun remote ts0 (if negb (asked th) && asked th' then asks ++ [t] else asks)
        (if negb (mholds th) && mholds th' then enters ++ [t] else enters) (s', <[t := th']> ts).

(** The threads that were served have left, but for one that is inside. *)
Definition history_ok (ts : gmap Z mthread) (served q enters : list Z) : Prop :=
  enters = served ∧ (∀ u thu, ts !! u = Some thu → inside thu = false) ∨
  ∃ t q' th, q = t :: q' ∧ enters = served ++ [t] ∧ ts !! t = Some th ∧ inside th = true.

Section history.
Context (remote : bool) (ts0 : gmap Z mthread).
Hypothesis (Hmax : Z.of_nat (size ts0) ≤ wsize).

Lemma history_ask s ts c served q enters t th th' :
  mcs_rel remote ts0 c q (s, ts) → history_ok ts served q enters → ts !! t = Some th → t ∉ q → inside th' = false →
  history_ok (<[t := th']> ts) served (q ++ [t]) enters.
Proof.
  intros R [[-> Hno]|(u & q' & thu & -> & -> & Hu & Hin)] Ht Hnq Hi.
  - left. split; [done|]. intros u thu. rewrite lookup_insert_Some. intros [[_ <-]|[_ Hu]]; eauto.
  - right. exists u, (q' ++ [t]), thu. do 2 (split; [done|]). split; [|done]. rewrite lookup_insert_ne; [done|]. intros <-. set_solver.
Qed.

Lemma history_leave s ts c served q enters t th th' :
  mcs_rel remote ts0 c (t :: q) (s, ts) → history_ok ts served (t :: q) enters → ts !! t = Some th → inside th = true → inside th' = false →
  history_ok (<[t := th']> ts) (served ++ [t]) q enters.
Proof.
  intros R [[_ Hno]|(u & q' & thu & [= <- <-] & -> & _ & _)] Ht Hi Hi'; [by rewrite (Hno t th Ht) in Hi|].
  left. split; [done|]. intros u thu'. rewrite lookup_insert_Some. intros [[_ <-]|[Hne Hu]]; [done|].
  destruct (inside thu') eqn:E; [|done]. pose proof (inside_first _ _ _ _ _ _ u thu' R Hu E) as [= ->]. done.
Qed.

Lemma history_stay s s' ts c served q enters t th th' :
  mcs_rel remote ts0 c q (s, ts) → mcs_rel remote ts0 c q (s', <[t := th']> ts) → history_ok ts served q enters → ts !! t = Some th →
  (inside th = true → inside th' = true) →
  history_ok (<[t := th']> ts) served q (if negb (inside th) && inside th' then enters ++ [t] else enters).
Proof.
  intros R R' Hh Ht Hi. assert (inside th' = true → q !! 0%nat = Some t) as Hf by (intros E; eapply inside_first; [exact R'|apply lookup_insert_eq|done]).
  destruct Hh as [[-> Hno]|(u & q' & thu & -> & -> & Hu & Hin)].
  - rewrite (Hno t th Ht). destruct (inside th') eqn:E; cbn.
    + right. destruct q as [|x q]; [by specialize (Hf eq_refl)|]. injection (Hf eq_refl) as ->. exists t, q, th'. by rewrite lookup_insert_eq.
    + left. split; [done|]. intros u thu. rewrite lookup_insert_Some. intros [[_ <-]|[_ Hu]]; eauto.
  - destruct (decide (u = t)) as [->|Hne].
    + assert (thu = th) as -> by congruence. rewrite Hin, (Hi Hin). cbn. right. exists t, q', th'. by rewrite lookup_insert_eq, (Hi Hin).
    + destruct (inside th') eqn:E; [by injection (Hf eq_refl) as ->|]. rewrite andb_false_r. right. exists u, q', thu. by rewrite lookup_insert_ne.
Qed.

Lemma mrun_history asks enters w :
  (∀ t th, ts0 !! t = Some th → midle remote th) → mrun remote ts0 asks enters w →
  ∃ served q, mcs_rel remote ts0 (Z.of_nat (length served)) q w ∧ asks = served ++ q ∧ history_ok w.2 served q enters.
Proof.
  intros Hi0. induction 1 as [|asks enters s ts t th s' th' _ (served & q & R & -> & Hh) Ht Hin].
  { exists [], []. split; [by apply rel_init|]. split; [done|]. left. split; [done|]. intros t th Ht.
    destruct (Hi0 t th Ht) as [El _]. unfold inside. by rewrite El. }
  destruct (mcs_step_rel remote ts0 Hmax _ q s ts t th s' th' R Ht Hin)
    as (c' & q' & R' & [(Hnq & -> & Ha & Hi & -> & ->)|[(Hi & Ha & Hi' & -> & ->)|(Ha & Hi & -> & -> & ->)]]); cbn [snd] in *.
  - rewrite Ha. cbn [negb andb]. exists served, (q ++ [t]). split; [done|]. split; [by rewrite app_assoc|].
    assert (mholds th' = false) as -> by (apply not_true_is_false; intros E%mholds_inside; congruence).
    rewrite andb_false_r. by eapply history_ask.
  - rewrite Ha, andb_false_r. exists (served ++ [t]), q'. split; [|split; [by rewrite <- app_assoc|]].
    + rewrite length_app. cbn. by replace (Z.of_nat (length served + 1)) with (Z.of_nat (length served) + 1) by lia.
    + assert (mholds th' = false) as -> by (apply not_true_is_false; intros E%mholds_inside; congruence).
      rewrite andb_false_r. by eapply history_leave.
  - rewrite Ha. exists served, q. split; [done|]. split; [by destruct (asked th)|]. by eapply history_stay.
Qed.

(** Only the first thread of the queue can be past its wait. *)
Lemma waiting_place s ts c q i t :
  mcs_rel remote ts0 c q (s, ts) → q !! i = Some t → (∀ th, ts !! t = Some th → inside th = false) →
  ∃ th, ts !! t = Some th ∧ loc th = MWait (u32 (c + Z.of_nat i)).
Proof.
  intros R Hi Hno. destruct (rel_in _ _ _ _ _ R i t Hi) as (th & Ht & Hp). cbn in Ht. exists th. split; [done|].
  specialize (Hno th Ht). unfold place_ok, inside in *. destruct (loc th); try done. by rewrite Hp.
Qed.

(** The threads past their wait among those in the queue. *)
Definition entered (ts : gmap Z mthread) (q : list Z) (n : nat) : Prop :=
  n = 0%nat ∧ (∀ u thu, ts !! u = Some thu → inside thu = false) ∨
  n = 1%nat ∧ ∃ t q' th, q = t :: q' ∧ ts !! t = Some th ∧ inside th = true.

Lemma served_enters ts served q enters :
  history_ok ts served q enters → ∃ n, enters = served ++ take n q ∧ length (take n q) = n ∧ entered ts q n.
Proof.
  intros [[-> Hno]|(t & q' & th & -> & -> & Ht & Hi)].
  - exists 0%nat. rewrite take_0, app_nil_r. split_and!; [done|done|by left].
  - exists 1%nat. cbn. rewrite take_0. split_and!; [done|done|]. right. split; [done|]. by exists t, q', th.
Qed.

Lemma outside_after s ts c q n i t :
  mcs_rel remote ts0 c q (s, ts) → entered ts q n → (n ≤ i)%nat → q !! i = Some t → ∀ th, ts !! t = Some th → inside th = false.
Proof.
  intros R He Hle Hi th Ht. destruct He as [[-> Hno]|[-> (u & q' & thu & -> & _)]]; [by apply (Hno t)|].
  destruct (inside th) eqn:E; [|done]. pose proof (inside_first _ _ _ _ _ _ t th R Ht E) as H0.
  pose proof (NoDup_lookup _ _ _ _ (rel_nodup _ _ _ _ _ R) H0 Hi). lia.
Qed.

Lemma waiting_rest s ts c q n t th k :
  mcs_rel remote ts0 c q (s, ts) → entered ts q n → ts !! t = Some th → loc th = MWait k → t ∈ drop n q.
Proof.
  intros R He Ht El. assert (t ∈ q) as Hq by (apply (rel_asked _ _ _ _ _ R t th Ht); unfold asked; by rewrite El).
  destruct He as [[-> _]|[-> (u & q' & thu & -> & Hu & Hi)]]; [done|]. apply elem_of_cons in Hq as [->|]; [|done].
  assert (thu = th) as -> by congruence. unfold inside in Hi. by rewrite El in Hi.
Qed.
End history.

(** C23. The lock [mcs_lock] (or [mcs_lock_remote]) under any interleaving of at most 2^32 threads
    serves them in the order of their tickets.  The threads that have entered the critical section
    are, in that order, the first ones of those that have taken a ticket, so that none overtakes
    another; the [i]-th to ask has the ticket [i] modulo 2^32 until it enters; the threads that wait
    are the rest of those that have asked; a thread inside is the last one that entered; and when
    nobody is inside the next one enters by its next step.  The assertion of the unlock function
    holds, and the interrupt state and the lock count of a thread outside are those it started
    with. *)
Theorem mcs_lock_fifo remote ts0 asks enters s ts :
  (∀ t th, ts0 !! t = Some th → midle remote th) → Z.of_nat (size ts0) ≤ wsize →
  mrun remote ts0 asks enters (s, ts) →
  enters `prefix_of` asks ∧
  (∀ i t, (length enters ≤ i)%nat → asks !! i = Some t →
     ∃ th, ts !! t = Some th ∧ loc th = MWait (u32 (Z.of_nat i))) ∧
  (∀ t th k, ts !! t = Some th → loc th = MWait k → t ∈ drop (length enters) asks) ∧
  (∀ t th, ts !! t = Some th → mholds th = true → last enters = Some t) ∧
  (∀ t, (∀ u thu, ts !! u = Some thu → inside thu = false) → asks !! length enters = Some t →
     ∃ th, ts !! t = Some th ∧ mstep remote t s th = [(s, at_loc MHeld (count_add remote 1 th))]) ∧
  (∀ t th, ts !! t = Some th → ∃ th0, ts0 !! t = Some th0 ∧ loc th ≠ MFault ∧
     (loc th = MIdle → irq th = irq th0 ∧ lock_counter remote th = lock_counter remote th0)).
Proof.
  intros Hi Hm Hr. destruct (mrun_history remote ts0 Hm asks enters (s, ts) Hi Hr) as (served & q & R & -> & Hh). cbn [snd] in Hh.
  destruct (served_enters _ _ _ _ Hh) as (n & -> & Hn & He). rewrite length_app, Hn. split_and!.
  - apply prefix_app, prefix_take.
  - intros i t Hle Hl. rewrite lookup_app_r in Hl by lia.
    destruct (waiting_place remote ts0 s ts _ q _ t R Hl) as (th & Ht & El); [eapply outside_after; [done|done| |done]; lia|].
    exists th. split; [done|]. rewrite El. do 2 f_equal. lia.
  - intros t th k Ht El. rewrite drop_app_add. by eapply waiting_rest.
  - intros t th Ht Hhd. apply mholds_inside in Hhd. pose proof (inside_first _ _ _ _ _ _ t th R Ht Hhd) as H0.
    destruct He as [[_ Hno]|[-> (u & q' & thu & -> & _)]]; [by rewrite (Hno t th Ht) in Hhd|]. cbn in H0 |- *. injection H0 as ->. rewrite take_0. apply last_snoc.
  - intros t Hno Hl. rewrite lookup_app_r in Hl by lia. destruct He as [[-> _]|[_ (u & q' & thu & _ & Hu & Hi')]]; [|by rewrite (Hno u thu Hu) in Hi'].
    replace (length served + 0 - length served)%nat with 0%nat in Hl by lia.
    destruct (waiting_place remote ts0 s ts _ q 0 t R Hl) as (th & Ht & El); [intros th; apply Hno|]. exists th. split; [done|].
    pose proof (rel_cntr _ _ _ _ _ R) as Ec. cbn in Ec. unfold mstep. by rewrite El, Ec, Z.add_0_r, Z.eqb_refl.
  - intros t th Ht. destruct (rel_local _ _ _ _ _ R t th Ht) as (th0 & H0 & _ & Hl).
    exists th0. split; [done|]. unfold local_ok in Hl. split; intros El; by rewrite El in Hl.
Qed.

(** A thread of the examples. *)
Definition mth_idle : mthread :=
  {| loc := MIdle; irq := 1; mode := 0; irq_state := 0; locks_count := 0;
     distlocks_count := 0 |}.

(** An execution chosen by a schedule, with its history. *)
Fixpoint play (remote : bool) (h : list Z * list Z) (w : sys mcs_lock mthread) (l : list Z) : option (list Z * list Z * sys mcs_lock mthread) :=
  match l with
  | [] => Some (h, w)
  | t :: l =>
      th ← w.2 !! t;
      x ← mstep remote t w.1 th !! 0%nat;
      play remote (if negb (asked th) && asked x.2 then h.1 ++ [t] else h.1, if negb (mholds th) && mholds x.2 then h.2 ++ [t] else h.2)
        (x.1, <[t := x.2]> w.2) l
  end.

Lemma play_mrun remote ts0 h w l h' w' : play remote h w l = Some (h', w') → mrun remote ts0 h.1 h.2 w → mrun remote ts0 h'.1 h'.2 w'.
Proof.
  revert h w. induction l as [|t l IH]; intros [asks enters] [s ts] E Hr; [by injection E as <- <-|].
  cbn [play fst snd] in E. destruct (ts !! t) as [th|] eqn:Et; [|done]. cbn [mbind option_bind] in E.
  destruct (mstep remote t s th !! 0%nat) as [[s' th']|] eqn:Ex; [|done]. cbn [mbind option_bind] in E.
  apply IH in E; [done|]. apply (mrun_step remote ts0 asks enters s ts t th s' th'); [done|done|by eapply list_elem_of_lookup_2].
Qed.

(** Thread 1 has entered; 3 asked before 2 and both wait. *)
Lemma mcs_lock_fifo_witness :
  match play true ([], []) (mcs_lock_init, at_pc mth_idle [1; 2; 3]) [1; 3; 1; 2; 3; 2] with
  | Some ((asks, enters), (s, ts)) => asks = [1; 3; 2] ∧ enters = [1] ∧ enters `prefix_of` asks ∧
      ∃ th, ts !! 2 = Some th ∧ loc th = MWait 2
  | None => False
  end.
Proof.
  destruct (play _ _ _ _) as [[[asks enters] [s ts]]|] eqn:E; [|by vm_compute in E].
  assert (asks = [1; 3; 2] ∧ enters = [1]) as [-> ->] by (vm_compute in E; by injection E as <- <- _ _).
  destruct (mcs_lock_fifo true (at_pc mth_idle [1; 2; 3]) [1; 3; 2] [1] s ts) as (Hp & Hw & _).
  - intros t th ->%at_pc_lookup. done.
  - by vm_compute.
  - exact (play_mrun _ _ _ _ _ _ _ E (mrun_nil _ _)).
  - split; [done|]. split; [done|]. split; [exact Hp|]. apply (Hw 2%nat 2); [cbn; lia|reflexivity].
Defined.

(** ** Critical sections

    Shared data that each thread reads and writes back while it holds a lock, for the three
    locks of the kernel: [op t] is the update thread [t] makes. *)

Definition threads_out {P D} (ts0 : gmap Z P) : gmap Z (P * cpc (D := D)) :=
  (λ p, (p, Outside)) <$> ts0.

(** C21. Data protected by a spinlock, by a remote spinlock or by a ticket lock is updated as if
    every critical section were one atomic operation: under any interleaving it is the result
    of the completed updates applied one after the other, and a thread inside its critical
    section works on the current value. *)
Theorem critical_sections_atomic {D} (op : Z → D → D) (d0 : D) :
  (∀ ts0 s ts, (∀ t th, ts0 !! t = Some th → Spinlock.idle th) →
     Z.of_nat (size ts0) ≤ wsize →
     rtc (sstep (cstep (Lock0 := spinlock_lock) op)) (cinit (Lock0 := spinlock_lock) d0, threads_out ts0)
       (s, ts) →
     data s = apply_all op d0 (done s) ∧ ∀ t p d, ts !! t = Some (p, Have d) → d = data s) ∧
  (∀ ts0 s ts, (∀ t th, ts0 !! t = Some th → Remote.idle th) →
     Z.of_nat (size ts0) ≤ wsize →
     rtc (sstep (cstep (Lock0 := Remote.remote_lock) op))
       (cinit (Lock0 := Remote.remote_lock) d0, threads_out ts0) (s, ts) →
     data s = apply_all op d0 (done s) ∧ ∀ t p d, ts !! t = Some (p, Have d) → d = data s) ∧
  (∀ ts0 s ts, (∀ t th, ts0 !! t = Some th → midle false th) →
     Z.of_nat (size ts0) ≤ wsize →
     rtc (sstep (cstep (Lock0 := mcs_local_lock) op)) (cinit (Lock0 := mcs_local_lock) d0, threads_out ts0)
       (s, ts) →
     data s = apply_all op d0 (done s) ∧ ∀ t p d, ts !! t = Some (p, Have d) → d = data s).
Proof.
  split; [|split]; intros ts0 s ts Hi Hm Hr.
  - by apply (client_atomic (Lock0 := spinlock_lock) op ts0 d0 s ts).
  - by apply (client_atomic (LockLaws0 := Remote.remote_lock_laws) op ts0 d0 s ts).
  - by apply (client_atomic (Lock0 := mcs_local_lock) op ts0 d0 s ts).
Qed.

(** Two threads add their number to a word under a ticket lock. *)
Definition cs_example : option (sys (cstate (D := Z)) (mthread * cpc (D := Z))) :=
  run (cstep (Lock0 := mcs_local_lock) Z.add)
    (cinit (Lock0 := mcs_local_lock) 5, threads_out (at_pc mth_idle [1; 2]))
    [(1, 0%nat); (2, 0%nat); (1, 0%nat); (1, 1%nat); (2, 0%nat); (1, 0%nat);
     (1, 0%nat); (1, 0%nat); (2, 0%nat); (2, 1%nat); (2, 0%nat)].

Lemma critical_sections_atomic_witness :
  match cs_example with
  | Some (s, ts) => data s = apply_all Z.add 5 (done s) ∧ done s = [1; 2] ∧ data s = 8
  | None => False
  end.
Proof.
  destruct cs_example as [[s ts]|] eqn:E; [|by vm_compute in E].
  assert (done s = [1; 2] ∧ data s = 8) as [H1 H2].
  { vm_compute in E. by injection E as <- <-. }
  refine (conj _ (conj H1 H2)).
  refine (proj1 (proj2 (proj2 (critical_sections_atomic Z.add 5)) (at_pc mth_idle [1; 2]) s ts _ _ _)).
  - intros t th ->%at_pc_lookup. by split; vm_compute.
  - by vm_compute.
  - exact (run_rtc _ _ _ _ E).
Defined.

(** ** The barrier *)

Record mcs_barrier := {
  bval : Z; phase : Z; bcntr : Z; bticket : Z; bticket2 : Z
}.

Definition mcs_barrier_init (count : Z) : mcs_barrier :=
  {| bval := count; phase := 0; bcntr := count; bticket := 0; bticket2 := 0 |}.

(** [(phase == 0) ? &ptr->ticket.value : &ptr->ticket2.value], read and written. *)
Definition tk (s : mcs_barrier) (p : Z) : Z := if p =? 0 then bticket s else bticket2 s.

Definition set_tk (p v : Z) (s : mcs_barrier) : mcs_barrier :=
  {| bval := bval s; phase := phase s; bcntr := bcntr s;
     bticket := if p =? 0 then v else bticket s;
     bticket2 := if p =? 0 then bticket2 s else v |}.

Definition set_phase (p : Z) (s : mcs_barrier) : mcs_barrier :=
  {| bval := bval s; phase := p; bcntr := bcntr s; bticket := bticket s;
     bticket2 := bticket2 s |}.

Definition set_cntr (c : Z) (s : mcs_barrier) : mcs_barrier :=
  {| bval := bval s; phase := phase s; bcntr := c; bticket := bticket s;
     bticket2 := bticket2 s |}.

(** [~(phase) & 0x1]. *)
Definition flip (p : Z) : Z := Z.land (u32 (Z.lnot p)) 1.

(** The place of a thread in [mcs_barrier_wait]; the argument is the [phase] it has read. *)
Inductive bpc :=
  | BOut
  | BDec (p : Z)       (* order = cpu_atomic_add(&ptr->cntr.value, -1) *)
  | BPhase (p : Z)     (* ptr->phase.value = ~phase & 0x1 *)
  | BCntr (p : Z)      (* ptr->cntr.value = ptr->val.value *)
  | BNext (p : Z)      (* *next = 0 *)
  | BCur (p : Z)       (* *current = 1 *)
  | BSpin (p : Z).     (* while(cpu_load_word(current) == 0) *)

(** A thread, with the number of waits it has completed. *)
Record bthread := { bloc : bpc; rounds : Z }.

Definition bto (p : bpc) (th : bthread) : bthread := {| bloc := p; rounds := rounds th |}.
Definition bret (th : bthread) : bthread := {| bloc := BOut; rounds := rounds th + 1 |}.

Definition bstep (t : Z) (s : mcs_barrier) (th : bthread) : list (mcs_barrier * bthread) :=
  match bloc th with
  | BOut => [(s, bto (BDec (phase s)) th)]
  | BDec p =>
      let order := bcntr s in
      [(set_cntr (u32 (order + -1)) s, bto (if order =? 1 then BPhase p else BSpin p) th)]
  | BPhase p => [(set_phase (flip p) s, bto (BCntr p) th)]
  | BCntr p => [(set_cntr (bval s) s, bto (BNext p) th)]
  | BNext p => [(set_tk (flip p) 0 s, bto (BCur p) th)]
  | BCur p => [(set_tk p 1 s, bret th)]
  | BSpin p => [(s, if tk s p =? 0 then th else bret th)]
  end.

(** The phase of the [r]-th round. *)
Definition pi (r : Z) : Z := r mod 2.

Lemma flip_pi r : flip (pi r) = pi (r + 1) ∧ pi r ≠ pi (r + 1) ∧ pi (r + 1) ≠ pi r ∧
  (pi r = 0 ∨ pi r = 1).
Proof.
  unfold pi. pose proof (Z.mod_pos_bound r 2).
  assert (r mod 2 = 0 ∧ (r + 1) mod 2 = 1 ∨ r mod 2 = 1 ∧ (r + 1) mod 2 = 0) as [[-> ->]|[-> ->]];
    [|vm_compute; repeat split; auto; done..].
  rewrite Z.add_mod by done. change (1 mod 2) with 1.
  assert (r mod 2 = 0 ∨ r mod 2 = 1) as [-> | ->] by lia; auto.
Qed.

Lemma tk_set_eq s p v : tk (set_tk p v s) p = v.
Proof. unfold tk, set_tk. cbn. by destruct (p =? 0). Qed.

Lemma tk_set_ne s p q v :
  p ≠ q → (p = 0 ∨ p = 1) → (q = 0 ∨ q = 1) → tk (set_tk p v s) q = tk s q.
Proof. intros Hne [-> | ->] [-> | ->]; done. Qed.

(** A thread that has arrived at round [R]. *)
Definition arrived (R : Z) (th : bthread) : bool :=
  match bloc th with BSpin _ => rounds th =? R | _ => false end.

(** A thread while nobody is turning the barrier to the next round. *)
Definition open_ok (R : Z) (s : mcs_barrier) (th : bthread) : Prop :=
  match bloc th with
  | BOut => rounds th = R
  | BDec p => rounds th = R ∧ p = pi R
  | BSpin p => (rounds th = R ∧ p = pi R) ∨
      (rounds th = R - 1 ∧ p = pi (R - 1) ∧ tk s (pi (R - 1)) = 1)
  | _ => False
  end.

Definition open_inv (n R : Z) (w : sys mcs_barrier bthread) : Prop :=
  phase w.1 = pi R ∧ tk w.1 (pi R) = 0 ∧ bcntr w.1 = n - count_pc (arrived R) w.2 ∧
  count_pc (arrived R) w.2 < n ∧ ∀ t th, w.2 !! t = Some th → open_ok R w.1 th.

(** The words while the last thread of round [R] is at [p]. *)
Definition turn_ok (n R : Z) (s : mcs_barrier) (p : bpc) : Prop :=
  tk s (pi R) = 0 ∧
  (p = BPhase (pi R) ∧ bcntr s = 0 ∨
   p = BCntr (pi R) ∧ phase s = pi (R + 1) ∨
   p = BNext (pi R) ∧ phase s = pi (R + 1) ∧ bcntr s = n ∨
   p = BCur (pi R) ∧ phase s = pi (R + 1) ∧ bcntr s = n ∧ tk s (pi (R + 1)) = 0).

Definition turn_inv (n R : Z) (w : sys mcs_barrier bthread) : Prop :=
  ∃ l th, w.2 !! l = Some th ∧ rounds th = R ∧ turn_ok n R w.1 (bloc th) ∧
    ∀ t th', t ≠ l → w.2 !! t = Some th' → bloc th' = BSpin (pi R) ∧ rounds th' = R.

Definition barrier_inv (n : Z) (w : sys mcs_barrier bthread) : Prop :=
  bval w.1 = n ∧ Z.of_nat (size w.2) = n ∧ ∃ R, 0 ≤ R ∧ (open_inv n R w ∨ turn_inv n R w).

Section barrier.
Context (n : Z) (Hn : 0 < n < wsize).

(** A step that changes neither the words nor who has arrived. *)
Lemma open_same R s ts t th th' :
  open_inv n R (s, ts) → ts !! t = Some th →
  arrived R th' = arrived R th → open_ok R s th' → open_inv n R (s, <[t := th']> ts).
Proof.
  intros (Hp & Ht0 & Hc & Hlt & Hok) Ht Ha Ho. cbn in *.
  assert (count_pc (arrived R) (<[t := th']> ts) = count_pc (arrived R) ts) as E
    by (rewrite (count_pc_insert _ ts t th th' Ht), Ha; lia).
  repeat split; cbn; rewrite ?E; try done.
  intros u thu. rewrite lookup_insert_Some. intros [[<- <-]|[_ Hu]]; eauto.
Qed.

(** A thread arrives and others are still missing. *)
Lemma open_arrive R s ts t th :
  open_inv n R (s, ts) → ts !! t = Some th → bloc th = BDec (pi R) → rounds th = R →
  bcntr s ≠ 1 →
  open_inv n R (set_cntr (u32 (bcntr s + -1)) s, <[t := bto (BSpin (pi R)) th]> ts).
Proof.
  intros (Hp & Ht0 & Hc & Hlt & Hok) Ht El Er H1. cbn in *.
  assert (count_pc (arrived R) (<[t := bto (BSpin (pi R)) th]> ts)
    = count_pc (arrived R) ts + 1) as E.
  { rewrite (count_pc_insert _ ts t th _ Ht). unfold arrived at 2 3. rewrite El. cbn.
    rewrite Er, Z.eqb_refl. cbn. lia. }
  pose proof (count_pc_nonneg (arrived R) ts).
  repeat split; cbn; rewrite ?E; try done; try lia.
  - rewrite u32_small; lia.
  - intros u thu. rewrite lookup_insert_Some. intros [[<- <-]|[_ Hu]].
    + left. done.
    + apply (Hok u thu Hu).
Qed.

(** The last thread arrives. *)
Lemma open_last R s ts t th :
  Z.of_nat (size ts) = n →
  open_inv n R (s, ts) → ts !! t = Some th → bloc th = BDec (pi R) → rounds th = R →
  bcntr s = 1 →
  turn_inv n R (set_cntr (u32 (bcntr s + -1)) s, <[t := bto (BPhase (pi R)) th]> ts).
Proof.
  intros Hsz (Hp & Ht0 & Hc & Hlt & Hok) Ht El Er H1. cbn in *.
  exists t, (bto (BPhase (pi R)) th). cbn. rewrite lookup_insert_eq.
  split; [done|]. split; [done|]. split.
  - split; [done|]. left. cbn. by rewrite H1.
  - intros u thu Hne. rewrite lookup_insert_ne by done. intros Hu.
    assert (arrived R th = false) as Ha by (unfold arrived; by rewrite El).
    assert (arrived R thu = true) as Hau.
    { apply (count_pc_but_one (arrived R) ts t th Ht Ha) with u; [lia|done..]. }
    pose proof (Hok u thu Hu) as Ho. unfold arrived, open_ok in *.
    destruct (bloc thu); try done. apply Z.eqb_eq in Hau. split; [|done].
    destruct Ho as [[_ ->]|[? _]]; [done|lia].
Qed.

(** The last step of the last thread opens the next round. *)
Lemma turn_done R s ts t th :
  0 ≤ R → Z.of_nat (size ts) = n → turn_inv n R (s, ts) → ts !! t = Some th →
  bloc th = BCur (pi R) → open_inv n (R + 1) (set_tk (pi R) 1 s, <[t := bret th]> ts).
Proof.
  intros HR Hsz (l & thl & Hl & Er & (Ht0 & Hst) & Hoth) Ht El. cbn in *.
  destruct (flip_pi R) as (Hf & Hne & Hne' & H01). destruct (flip_pi (R + 1)) as (_ & _ & _ & H01').
  destruct (decide (t = l)) as [->|Hd].
  2:{ destruct (Hoth t th Hd Ht) as [E _]. by rewrite El in E. }
  assert (thl = th) as -> by congruence. rewrite El in Hst.
  destruct Hst as [[? _]|[[? _]|[[? _]|(_ & Hp & Hc & Ht1)]]]; try done.
  assert (count_pc (arrived (R + 1)) (<[l := bret th]> ts) = 0) as Hcnt.
  { apply count_pc_none. intros u thu. rewrite lookup_insert_Some. intros [[<- <-]|[Hd Hu]]; [done|].
    destruct (Hoth u thu (not_eq_sym Hd) Hu) as [E1 E2]. unfold arrived. rewrite E1, E2. lia. }
  repeat split; cbn; rewrite ?Hcnt; try lia; try done.
  - by rewrite tk_set_ne.
  - intros u thu. rewrite lookup_insert_Some. intros [[<- <-]|[Hd Hu]].
    + unfold open_ok. cbn. lia.
    + destruct (Hoth u thu (not_eq_sym Hd) Hu) as [E1 E2]. unfold open_ok. rewrite E1. right.
      replace (R + 1 - 1) with R by lia. by rewrite tk_set_eq.
Qed.

(** The steps of the last thread before. *)
Lemma turn_move R s ts t th s' th' :
  turn_inv n R (s, ts) → ts !! t = Some th → rounds th' = rounds th →
  (rounds th = R → turn_ok n R s (bloc th) → turn_ok n R s' (bloc th')) →
  (∃ p, bloc th = BPhase p ∨ bloc th = BCntr p ∨ bloc th = BNext p) →
  turn_inv n R (s', <[t := th']> ts).
Proof.
  intros (l & thl & Hl & Er & Hok & Hoth) Ht Hr Ho Hp. cbn in *.
  destruct (decide (t = l)) as [->|Hd].
  2:{ destruct (Hoth t th Hd Ht) as [E _]. rewrite E in Hp. naive_solver. }
  assert (thl = th) as -> by congruence.
  exists l, th'. cbn. rewrite lookup_insert_eq. split; [done|]. split; [congruence|].
  split; [auto|]. intros u thu Hne. rewrite lookup_insert_ne by done. apply Hoth, Hne.
Qed.

Lemma open_step R s ts t th s' th' :
  Z.of_nat (size ts) = n → open_inv n R (s, ts) → ts !! t = Some th →
  (s', th') ∈ bstep t s th →
  open_inv n R (s', <[t := th']> ts) ∨ turn_inv n R (s', <[t := th']> ts).
Proof.
  intros Hsz Hop Ht Hin. pose proof Hop as (Hp & Ht0 & _ & _ & Hok). cbn in Hp, Ht0, Hok.
  pose proof (Hok t th Ht) as Ho. unfold bstep in Hin. unfold open_ok in Ho.
  destruct (bloc th) as [|p|p|p|p|p|p] eqn:El; try done;
    apply list_elem_of_singleton in Hin as [= -> ->].
  - left. apply (open_same R s ts t th); try done. unfold arrived. by rewrite El.
  - destruct Ho as [Er ->]. destruct (Z.eqb_spec (bcntr s) 1) as [E1|E1].
    + right. by apply open_last.
    + left. by apply open_arrive.
  - left. destruct (Z.eqb_spec (tk s p) 0) as [E0|E0].
    + by rewrite (insert_id ts t th Ht).
    + destruct Ho as [[_ ->]|(Er & -> & _)]; [done|].
      apply (open_same R s ts t th); try done.
      * unfold arrived. rewrite El. cbn. lia.
      * unfold open_ok. cbn. lia.
Qed.

Lemma turn_step R s ts t th s' th' :
  0 ≤ R → Z.of_nat (size ts) = n → bval s = n → turn_inv n R (s, ts) → ts !! t = Some th →
  (s', th') ∈ bstep t s th →
  open_inv n (R + 1) (s', <[t := th']> ts) ∨ turn_inv n R (s', <[t := th']> ts).
Proof.
  intros HR Hsz Hv Htu Ht Hin. pose proof Htu as (l & thl & Hl & Er & (Ht0 & Hst) & Hoth).
  cbn in Hl, Ht0, Hst, Hoth. destruct (flip_pi R) as (Hf & Hne & Hne' & H01).
  destruct (flip_pi (R + 1)) as (_ & _ & _ & H01').
  destruct (decide (t = l)) as [->|Hd].
  2:{ destruct (Hoth t th Hd Ht) as [El _]. unfold bstep in Hin. rewrite El, Ht0 in Hin.
      apply list_elem_of_singleton in Hin as [= -> ->]. right. by rewrite (insert_id ts t th Ht). }
  assert (thl = th) as -> by congruence. unfold bstep in Hin.
  destruct Hst as [[El Hc]|[[El Hp]|[(El & Hp & Hc)|(El & Hp & Hc & Ht1)]]];
    rewrite El in Hin; apply list_elem_of_singleton in Hin as [= -> ->].
  - right. apply (turn_move R s ts l th); eauto. intros _ _. split; [done|]. right; left.
    cbn. by rewrite Hf.
  - right. apply (turn_move R s ts l th); eauto. intros _ _. split; [done|]. right; right; left.
    done.
  - right. apply (turn_move R s ts l th); eauto. intros _ _. rewrite Hf. split.
    + by rewrite tk_set_ne.
    + right; right; right. cbn. by rewrite tk_set_eq.
  - left. by apply turn_done.
Qed.

Lemma bstep_val t s th s' th' : (s', th') ∈ bstep t s th → bval s' = bval s.
Proof.
  unfold bstep. destruct (bloc th); intros [= -> ->]%list_elem_of_singleton; done.
Qed.

Lemma barrier_reach (ts0 : gmap Z bthread) w :
  Z.of_nat (size ts0) = n → (∀ t th, ts0 !! t = Some th → th = {| bloc := BOut; rounds := 0 |}) →
  rtc (sstep bstep) (mcs_barrier_init n, ts0) w → barrier_inv n w.
Proof.
  intros Hsz H0 Hr. refine (sys_invariant bstep (barrier_inv n) _ _ _ Hr _).
  - intros s ts t th s' th' (Hv & Hz & R & HR & Hinv) Ht Hin. cbn in Hv, Hz.
    split; [cbn; by rewrite (bstep_val t s th s' th' Hin)|].
    split; [cbn; by rewrite (size_insert ts t th th' Ht)|].
    destruct Hinv as [Ho|Htu].
    + exists R. split; [done|]. by eapply open_step.
    + destruct (turn_step R s ts t th s' th' HR Hz Hv Htu Ht Hin) as [|].
      * exists (R + 1). split; [lia|]. by left.
      * exists R. split; [done|]. by right.
  - split; [done|]. split; [done|]. exists 0. split; [done|]. left.
    assert (count_pc (arrived 0) ts0 = 0) as Hc
      by (apply count_pc_none; by intros t th ->%H0).
    repeat split; cbn; rewrite ?Hc; try lia. by intros t th ->%H0.
Qed.
End barrier.

(** Inside [mcs_barrier_wait] and past the point of arrival. *)
Definition past (th : bthread) : Prop := match bloc th with BSpin _ => True | _ => False end.

Lemma open_facts n R s ts :
  0 < n → Z.of_nat (size ts) = n → open_inv n R (s, ts) →
  (∀ t u th thu, ts !! t = Some th → ts !! u = Some thu →
     rounds th ≤ rounds thu ∨ rounds th = rounds thu + 1 ∧ past thu) ∧
  (∃ t th s' th', ts !! t = Some th ∧ (s', th') ∈ bstep t s th ∧ th' ≠ th).
Proof.
  intros Hn Hz (Hp & Ht0 & Hc & Hlt & Hok). cbn in *. split.
  - intros t u th thu Ht Hu. specialize (Hok _ _ Hu) as Hou. specialize (Hok _ _ Ht) as Hot.
    unfold open_ok, past in *. destruct (bloc th), (bloc thu); naive_solver lia.
  - destruct (decide (map_Forall (λ _ th, arrived R th = true) ts)) as [Hall|Hex].
    { exfalso. assert (filter (λ x : Z * bthread, arrived R x.2 = true) ts = ts) as E
        by (apply map_filter_id; intros t th Ht; by apply (Hall t)).
      unfold count_pc in Hlt. rewrite E in Hlt. lia. }
    apply map_not_Forall in Hex as (t & th & Ht & Ha); [|solve_decision].
    pose proof (Hok t th Ht) as Ho. exists t, th. unfold bstep, open_ok, arrived in *.
    destruct th as [p r]. cbn in *. destruct p; try done.
    + eexists _, _. split; [done|]. split; [by apply list_elem_of_singleton|]. done.
    + eexists _, _. split; [done|]. split; [by apply list_elem_of_singleton|].
      unfold bto. cbn. by destruct (_ =? _).
    + destruct Ho as [[-> _]|(-> & -> & E1)]; [by rewrite Z.eqb_refl in Ha|].
      rewrite E1. cbn. eexists _, _. split; [done|]. split; [by apply list_elem_of_singleton|]. done.
Qed.

Lemma turn_facts n R s ts :
  turn_inv n R (s, ts) →
  (∀ t u th thu, ts !! t = Some th → ts !! u = Some thu →
     rounds th ≤ rounds thu ∨ rounds th = rounds thu + 1 ∧ past thu) ∧
  (∃ t th s' th', ts !! t = Some th ∧ (s', th') ∈ bstep t s th ∧ th' ≠ th).
Proof.
  intros (l & thl & Hl & Er & (_ & Hst) & Hoth). cbn in *.
  assert (∀ t th, ts !! t = Some th → rounds th = R) as HR.
  { intros t th Ht. destruct (decide (t = l)) as [->|Hd]; [congruence|]. by apply (Hoth t). }
  split.
  - intros t u th thu Ht Hu. rewrite (HR t th Ht), (HR u thu Hu). by left.
  - exists l, thl. unfold bstep. destruct thl as [p r]. cbn in *.
    destruct Hst as [[-> _]|[[-> _]|[(-> & _)|(-> & _)]]];
      (eexists _, _; split; [done|]; split; [by apply list_elem_of_singleton|done]).
Qed.

(** C28. A barrier for [n] threads, used by exactly [n] threads, any number of times, under any
    interleaving: no thread returns from its k-th wait before all the threads have arrived at
    their k-th wait; and as long as some thread exists the barrier is not blocked: some thread
    has a step that changes its place or the number of its completed waits. *)
Theorem mcs_barrier_correct n (ts0 : gmap Z bthread) s ts :
  0 < n < wsize → Z.of_nat (size ts0) = n →
  (∀ t th, ts0 !! t = Some th → th = {| bloc := BOut; rounds := 0 |}) →
  rtc (sstep bstep) (mcs_barrier_init n, ts0) (s, ts) →
  (∀ t u th thu, ts !! t = Some th → ts !! u = Some thu →
     rounds th ≤ rounds thu ∨ rounds th = rounds thu + 1 ∧ past thu) ∧
  (∃ t th s' th', ts !! t = Some th ∧ (s', th') ∈ bstep t s th ∧ th' ≠ th).
Proof.
  intros Hn Hsz H0 Hr.
  destruct (barrier_reach n Hn ts0 (s, ts) Hsz H0 Hr) as (_ & Hz & R & HR & Hinv). cbn in Hz.
  destruct Hinv as [Ho|Htu].
  - apply (open_facts n R); [lia|done..].
  - by apply (turn_facts n R).
Qed.

(** Two threads go through the barrier twice; one of them is already out of the second wait. *)
Definition barrier_example : option (sys mcs_barrier bthread) :=
  run bstep (mcs_barrier_init 2, at_pc {| bloc := BOut; rounds := 0 |} [1; 2])
    ((λ t, (t, 0%nat)) <$> [1; 1; 1; 2; 2; 2; 2; 2; 2; 2; 2; 1; 2; 1; 1; 1; 1; 1; 1; 1]).

Lemma mcs_barrier_correct_witness :
  match barrier_example with
  | Some (s, ts) =>
      rounds <$> ts !! 1 = Some 2 ∧ rounds <$> ts !! 2 = Some 1 ∧
      ∀ t u th thu, ts !! t = Some th → ts !! u = Some thu →
        rounds th ≤ rounds thu ∨ rounds th = rounds thu + 1 ∧ past thu
  | None => False
  end.
Proof.
  destruct barrier_example as [[s ts]|] eqn:E; [|by vm_compute in E].
  assert (rounds <$> ts !! 1 = Some 2 ∧ rounds <$> ts !! 2 = Some 1) as [H1 H2].
  { vm_compute in E. by injection E as <- <-. }
  refine (conj H1 (conj H2 _)).
  refine (proj1 (mcs_barrier_correct 2 (at_pc {| bloc := BOut; rounds := 0 |} [1; 2]) s ts _ _ _ _)).
  - clear. by vm_compute.
  - clear. by vm_compute.
  - intros t th Hl. exact (at_pc_lookup _ _ _ _ Hl).
  - exact (run_rtc _ _ _ _ E).
Defined.
