(* ===== verification/RemoteFifo.v ===== *)
(** * Messages between clusters (src/kernel/kern/remote_fifo.c)

    A ring of slots in one cluster: any number of writers, of any cluster, put items in it
    under a ticket lock ([mcs_lock_remote], Mcs.v), and one reader of the cluster takes them
    without the lock.  Every access to a shared word, those of the lock included, is one
    step. *)

From stdpp Require Import relations.
From S2P Require Import Prelude Threads Lock Mcs Fifo.

Open Scope Z_scope.

(** ** Data *)

(** [struct remote_fifo_s] without its lock; the table is a list of slots and an item a list
    of bytes. *)
Record rfifo := RFifo {
  wridx : Z; rdidx : Z; tbl : list (list Z); slot_nbr : Z; slot_size : Z; item_size : Z }.

Definition set_wridx (f : rfifo) (i : Z) : rfifo :=
  RFifo i (rdidx f) (tbl f) (slot_nbr f) (slot_size f) (item_size f).
Definition set_rdidx (f : rfifo) (i : Z) : rfifo :=
  RFifo (wridx f) i (tbl f) (slot_nbr f) (slot_size f) (item_size f).
Definition set_tbl (f : rfifo) (t : list (list Z)) : rfifo :=
  RFifo (wridx f) (rdidx f) t (slot_nbr f) (slot_size f) (item_size f).

(** [mem] is whether the allocation of the table succeeds; the table is cleared. *)
Definition remote_fifo_init (mem : bool) (nbr sz : Z) : Z * option (rfifo * mcs_lock) :=
  if mem then
    (0, Some (RFifo 0 0 (replicate (Z.to_nat nbr) (replicate (Z.to_nat sz) 0)) nbr sz sz,
              mcs_lock_init))
  else (ENOMEM, None).

Definition next_idx (f : rfifo) (i : Z) : Z := u32 (i + 1) mod slot_nbr f.

Definition remote_fifo_isEmpty (f : rfifo) : bool := rdidx f =? wridx f.
Definition remote_fifo_isFull (f : rfifo) : bool := wridx f =? next_idx f (rdidx f).

(** The address of slot [pos], for a table at [base] of slots of [ss] bytes. *)
Definition item_get_base (base ss pos : Z) : Z := u32 (base + u32 (ss * pos)).

(** [item_set]: copy [item_size] bytes into slot [pos].  [item_get_base] reads the size of
    the slots with an ordinary load, in the cluster of the caller: [ss] is the word found
    there.  Another value than that of the FIFO leads outside the slot, which is not
    modelled. *)
Definition item_set (ss : Z) (f : rfifo) (item : list Z) (pos : Z) : option rfifo :=
  if ss =? slot_size f then
    t ← aset (tbl f) pos (take (Z.to_nat (item_size f)) item); Some (set_tbl f t)
  else None.

(** Free slots between the two indices. *)
Definition rf_available_empty_items (total wr rd : Z) : Z :=
  if wr =? rd then total else if rd <? wr then u32 (rd + (total - wr)) else u32 (rd - wr).

(** ** Steps

    A writer in [remote_fifo_put], and the reader between [remote_fifo_get] and
    [remote_fifo_release]. *)
Inductive wpc :=
  | PIdle
  | PLock (v : list Z)                    (* in mcs_lock_remote *)
  | PReadW (v : list Z)                   (* wridx *)
  | PReadR (v : list Z) (w : Z)           (* rdidx, test *)
  | PItem (v : list Z) (w : Z)            (* item_set *)
  | PPub (v : list Z) (w : Z)             (* remote_sw of wridx *)
  | PUnlock (e : Z)                       (* in mcs_unlock_remote *)
  | PRet (e : Z).

Inductive gpc :=
  | GIdle
  | GReadR
  | GReadW (r : Z)
  | GHold (r : Z)                         (* uses the item, then releases it *)
  | GRet (e : Z).

(** A writer is a thread of the lock with its place in [remote_fifo_put]; [puts] and [gots]
    are the items published and released so far. *)
Record world := World {
  rf : rfifo; lock : mcs_lock; writers : gmap Z (mthread * wpc); reader : gpc;
  puts : list (list Z); gots : list (list Z) }.

(** Out of the unlock function. *)
Definition unlocked (th : mthread) : bool := match loc th with MIdle => true | _ => false end.

(** A step of writer [t], in whose cluster the word read for the size of the slots is
    [ss]. *)
Definition put_step (ss : Z) (w : world) (t : Z) : list world :=
  match writers w !! t with
  | None => []
  | Some (th, p) =>
      let go f p pu := [World f (lock w) (<[t := (th, p)]> (writers w)) (reader w) pu (gots w)] in
      let in_lock (g : mthread → wpc) :=
        (λ x : mcs_lock * mthread,
           World (rf w) x.1 (<[t := (x.2, g x.2)]> (writers w)) (reader w) (puts w) (gots w))
          <$> mstep true t (lock w) th in
      match p with
      | PIdle | PRet _ => []
      | PLock v => in_lock (λ th', if mholds th' then PReadW v else PLock v)
      | PReadW v => go (rf w) (PReadR v (wridx (rf w))) (puts w)
      | PReadR v i =>
          if next_idx (rf w) i =? rdidx (rf w) then go (rf w) (PUnlock EAGAIN) (puts w)
          else go (rf w) (PItem v i) (puts w)
      | PItem v i =>
          match item_set ss (rf w) v i with Some f => go f (PPub v i) (puts w) | None => [] end
      | PPub v i =>
          go (set_wridx (rf w) (next_idx (rf w) i)) (PUnlock 0)
             (puts w ++ [take (Z.to_nat (item_size (rf w))) v])
      | PUnlock e => in_lock (λ th', if unlocked th' then PRet e else PUnlock e)
      end
  end.

Definition get_step (w : world) : option world :=
  let go f p g := Some (World f (lock w) (writers w) p (puts w) g) in
  match reader w with
  | GIdle | GRet _ => None
  | GReadR => go (rf w) (GReadW (rdidx (rf w))) (gots w)
  | GReadW r =>
      if r =? wridx (rf w) then go (rf w) (GRet EAGAIN) (gots w)
      else go (rf w) (GHold r) (gots w)
  | GHold r =>
      item ← aget (tbl (rf w)) r;
      go (set_rdidx (rf w) (next_idx (rf w) (rdidx (rf w)))) (GRet 0) (gots w ++ [item])
  end.

Definition resting (p : wpc) : bool := match p with PIdle | PRet _ => true | _ => false end.
Definition call_put (w : world) (t : Z) (v : list Z) : option world :=
  x ← writers w !! t;
  if resting x.2 then
    Some (World (rf w) (lock w) (<[t := (x.1, PLock v)]> (writers w)) (reader w) (puts w) (gots w))
  else None.
Definition call_get (w : world) : option world :=
  match reader w with
  | GIdle | GRet _ => Some (World (rf w) (lock w) (writers w) GReadR (puts w) (gots w))
  | _ => None
  end.

(** [ss t] is the word that writer [t] reads for the size of the slots. *)
Inductive step (ss : Z → Z) : world → world → Prop :=
  | s_call w t v w' : call_put w t v = Some w' → step ss w w'
  | s_put w t w' : w' ∈ put_step (ss t) w t → step ss w w'
  | s_get w w' : call_get w = Some w' → step ss w w'
  | s_act w w' : get_step w = Some w' → step ss w w'.

Definition initial (f : rfifo) (lk : mcs_lock) (ts0 : gmap Z mthread) : world :=
  World f lk ((λ th, (th, PIdle)) <$> ts0) GIdle [] [].

(** ** The invariant *)

Section proofs.
Context (n sz : Z) (ss : Z → Z) (ts0 : gmap Z mthread).
Hypothesis (Hn : 1 ≤ n < wsize).
Hypothesis (Hss : ∀ t, is_Some (ts0 !! t) → ss t = sz).
Hypothesis (Hidle : ∀ t th, ts0 !! t = Some th → midle true th).
Hypothesis (Hmax : Z.of_nat (base.size ts0) ≤ wsize).

(** The places between the lock and the unlock. *)
Definition holds (p : wpc) : Prop :=
  match p with PReadW _ | PReadR _ _ | PItem _ _ | PPub _ _ => True | _ => False end.

Definition put_ok (w : world) (p : wpc) : Prop :=
  let W := len (puts w) in let R := len (gots w) in
  match p with
  | PReadR _ i => i = W mod n
  | PItem _ i => i = W mod n ∧ W - R < n - 1
  | PPub v i => i = W mod n ∧ W - R < n - 1 ∧
      aget (tbl (rf w)) i = Some (take (Z.to_nat (item_size (rf w))) v)
  | _ => True
  end.

Definition get_ok (w : world) : Prop :=
  let W := len (puts w) in let R := len (gots w) in
  match reader w with
  | GReadW i => i = R mod n
  | GHold i => i = R mod n ∧ R < W
  | _ => True
  end.

(** The lock is in a state that its own steps reach, whatever the writers do with the
    ring. *)
Record inv (w : world) : Prop := {
  v_size : slot_nbr (rf w) = n;
  v_slot : slot_size (rf w) = sz;
  v_wr : wridx (rf w) = len (puts w) mod n;
  v_rd : rdidx (rf w) = len (gots w) mod n;
  v_ring : ring n (tbl (rf w)) (puts w) (len (gots w));
  v_gots : gots w = take (length (gots w)) (puts w);
  v_run : rtc (sstep (mstep true)) (mcs_lock_init, ts0) (lock w, fst <$> writers w);
  v_dom t x : writers w !! t = Some x → is_Some (ts0 !! t);
  v_in t th p : writers w !! t = Some (th, p) → holds p → mholds th = true;
  v_put t th p : writers w !! t = Some (th, p) → put_ok w p;
  v_get : get_ok w;
}.

Lemma not_holds_ok w p : ¬ holds p → put_ok w p.
Proof. by destruct p. Qed.

(** The lock keeps the other writers out. *)
Lemma alone w t u th thu p q :
  inv w → writers w !! t = Some (th, p) → writers w !! u = Some (thu, q) →
  holds p → holds q → t = u.
Proof.
  intros Hi Ht Hu Hp Hq. destruct (decide (t = u)) as [|Hne]; [done|].
  pose proof (mcs_mutex true ts0 _ _ Hidle Hmax (v_run _ Hi)).
  pose proof (count_pc_two mholds (fst <$> writers w) t u th thu) as H2.
  rewrite !lookup_fmap, Ht, Hu in H2.
  specialize (H2 eq_refl eq_refl (v_in _ Hi _ _ _ Ht Hp) (v_in _ Hi _ _ _ Hu Hq) Hne). lia.
Qed.

(** A step of the writer that has the lock. *)
Lemma put_next w t th p p' f pu :
  inv w → writers w !! t = Some (th, p) → holds p →
  slot_nbr f = n → slot_size f = sz → wridx f = len pu mod n → rdidx f = len (gots w) mod n →
  ring n (tbl f) pu (len (gots w)) → gots w = take (length (gots w)) pu →
  let w' := World f (lock w) (<[t := (th, p')]> (writers w)) (reader w) pu (gots w) in
  put_ok w' p' → get_ok w' → inv w'.
Proof.
  intros Hi Ht Hh Hs Hsl Hw Hr Hring Hg w' Hp Hget. subst w'.
  split; cbn [rf lock writers reader puts gots]; try done.
  - rewrite fmap_insert, insert_id by (by rewrite lookup_fmap, Ht). apply (v_run _ Hi).
  - intros u x [[<- _]|[_ Hu]]%lookup_insert_Some; by eapply (v_dom _ Hi).
  - intros u thu q [[<- [= <- <-]]|[_ Hu]]%lookup_insert_Some Hq;
      [exact (v_in _ Hi _ _ _ Ht Hh)|exact (v_in _ Hi _ _ _ Hu Hq)].
  - intros u thu q [[<- [= <- <-]]|[Hne Hu]]%lookup_insert_Some; [done|].
    apply not_holds_ok. intros Hq. apply Hne. exact (alone w t u th thu p q Hi Ht Hu Hh Hq).
Qed.

(** A step inside a function of the lock. *)
Lemma lock_next w t th p lk' th' p' :
  inv w → writers w !! t = Some (th, p) → (lk', th') ∈ mstep true t (lock w) th →
  (holds p' → mholds th' = true) → (∀ w, put_ok w p') →
  inv (World (rf w) lk' (<[t := (th', p')]> (writers w)) (reader w) (puts w) (gots w)).
Proof.
  intros Hi Ht Hin Hh Hp. pose proof Hi as [Hs Hsl Hwr Hrd Hr Hg Hrun Hd Hl Hput Hget].
  split; cbn [rf lock writers reader puts gots]; try done.
  - rewrite fmap_insert. eapply rtc_r; [exact Hrun|]. econstructor; [|exact Hin].
    by rewrite lookup_fmap, Ht.
  - intros u x [[<- _]|[_ Hu]]%lookup_insert_Some; by eapply Hd.
  - intros u thu q [[<- [= <- <-]]|[_ Hu]]%lookup_insert_Some; [done|by eapply Hl].
  - intros u thu q [[<- [= <- <-]]|[_ Hu]]%lookup_insert_Some; [apply Hp|].
    exact (Hput _ _ _ Hu).
Qed.

Lemma rf_full_test w :
  inv w → (next_idx (rf w) (len (puts w) mod n) =? rdidx (rf w)) =
          (len (puts w) - len (gots w) =? n - 1).
Proof.
  intros Hi. pose proof (v_ring _ Hi) as [_ Hcap _]. unfold next_idx.
  pose proof (mod_range n (len (puts w)) ltac:(lia)).
  rewrite u32_small, (v_size _ Hi), Z.add_mod_idemp_l, (v_rd _ Hi) by lia.
  apply Bool.eq_iff_eq_true. rewrite !Z.eqb_eq. split; intros E.
  - destruct (decide (len (puts w) - len (gots w) = n - 1)); [done|].
    symmetry in E. apply mod_inj in E; lia.
  - replace (len (puts w) + 1) with (len (gots w) + 1 * n) by lia. by rewrite Z.mod_add by lia.
Qed.

Lemma next_mod f a : slot_nbr f = n → next_idx f (a mod n) = (a + 1) mod n.
Proof.
  intros Hs. unfold next_idx. pose proof (mod_range n a ltac:(lia)).
  rewrite u32_small, Hs by lia. by rewrite Z.add_mod_idemp_l by lia.
Qed.

(** Publication of the item. *)
Lemma pub_inv w t th v :
  inv w → writers w !! t = Some (th, PPub v (len (puts w) mod n)) →
  inv (World (set_wridx (rf w) (next_idx (rf w) (len (puts w) mod n))) (lock w)
         (<[t := (th, PUnlock 0)]> (writers w)) (reader w)
         (puts w ++ [take (Z.to_nat (item_size (rf w))) v]) (gots w)).
Proof.
  intros Hi Ht. pose proof (v_put _ Hi _ _ _ Ht) as (_ & Hroom & Hv).
  set (x := take (Z.to_nat (item_size (rf w))) v) in *.
  assert (Hlen : len (puts w ++ [x]) = len (puts w) + 1)
    by (unfold len; rewrite length_app; cbn; lia).
  pose proof (v_ring _ Hi) as Hr. pose proof (v_get _ Hi) as Hget.
  eapply (put_next w t th _ _ _ _ Hi Ht I); cbn;
    [apply (v_size _ Hi)|apply (v_slot _ Hi)| |apply (v_rd _ Hi)| | |done|].
  - rewrite next_mod by apply (v_size _ Hi). by rewrite Hlen.
  - by apply ring_publish.
  - destruct Hr as [_ Hcap _]. rewrite take_app_le by (unfold len in *; lia). apply (v_gots _ Hi).
  - unfold get_ok in *. cbn. rewrite Hlen. destruct (reader w); try done. lia.
Qed.

Lemma item_inv w t th v f :
  inv w → writers w !! t = Some (th, PItem v (len (puts w) mod n)) →
  item_set (ss t) (rf w) v (len (puts w) mod n) = Some f →
  inv (World f (lock w) (<[t := (th, PPub v (len (puts w) mod n))]> (writers w)) (reader w)
         (puts w) (gots w)).
Proof.
  intros Hi Ht E. pose proof (v_put _ Hi _ _ _ Ht) as (_ & Hroom).
  unfold item_set in E. destruct (ss t =? slot_size (rf w)); [|done].
  destruct (ring_store _ _ _ _ (take (Z.to_nat (item_size (rf w))) v) (v_ring _ Hi) Hroom)
    as (t' & Et & Hr' & Hv). rewrite Et in E. cbn [mbind option_bind] in E. injection E as <-.
  eapply (put_next w t th _ _ _ _ Hi Ht I); cbn; try apply Hi; done.
Qed.

Lemma put_step_inv w t w' : w' ∈ put_step (ss t) w t → inv w → inv w'.
Proof.
  intros E Hi. unfold put_step in E.
  destruct (writers w !! t) as [[th p]|] eqn:Ep; [|by apply elem_of_nil in E].
  pose proof (v_put _ Hi t th p Ep) as Hp.
  destruct p as [|v|v|v i|v i|v i|e|e]; cbn in Hp; try by apply elem_of_nil in E.
  - apply list_elem_of_fmap in E as ([lk' th'] & -> & Hin). cbn [fst snd].
    apply (lock_next w t th _ lk' th' _ Hi Ep Hin); destruct (mholds th'); done.
  - apply list_elem_of_singleton in E as ->.
    apply (put_next w t th _ _ _ _ Hi Ep I); try apply Hi.
  - subst i. rewrite (rf_full_test _ Hi) in E. pose proof (v_ring _ Hi) as [_ Hcap _].
    destruct (Z.eqb_spec (len (puts w) - len (gots w)) (n - 1));
      apply list_elem_of_singleton in E as ->;
      apply (put_next w t th _ _ _ _ Hi Ep I); try apply Hi; [done|]. cbn. lia.
  - destruct Hp as [-> Hroom]. destruct (item_set _ _ _ _) as [f|] eqn:Ei;
      [|by apply elem_of_nil in E]. apply list_elem_of_singleton in E as ->. by apply item_inv.
  - destruct Hp as (-> & _ & _). apply list_elem_of_singleton in E as ->. by apply pub_inv.
  - apply list_elem_of_fmap in E as ([lk' th'] & -> & Hin). cbn [fst snd].
    apply (lock_next w t th _ lk' th' _ Hi Ep Hin); destruct (unlocked th'); done.
Qed.

(** A step of the reader that leaves the ring as it is. *)
Lemma reader_next w g :
  inv w → let w' := World (rf w) (lock w) (writers w) g (puts w) (gots w) in
  get_ok w' → inv w'.
Proof. intros [] w' Hg. by split. Qed.

Lemma get_step_inv w w' : get_step w = Some w' → inv w → inv w'.
Proof.
  intros E Hi. unfold get_step in E. pose proof (v_get _ Hi) as Hget.
  unfold get_ok in Hget. destruct (reader w) as [| |r|r|e]; try done.
  - injection E as <-. apply reader_next; [done|]. apply (v_rd _ Hi).
  - subst r. destruct (Z.eqb_spec (len (gots w) mod n) (wridx (rf w))) as [|Hne];
      injection E as <-; apply reader_next; try done. unfold get_ok. cbn. split; [done|].
    pose proof (v_ring _ Hi) as [_ Hcap _]. rewrite (v_wr _ Hi) in Hne.
    destruct (decide (len (gots w) = len (puts w))) as [Heq|]; [by rewrite Heq in Hne|lia].
  - destruct Hget as [-> Hlt]. destruct (ring_read _ _ _ _ (v_ring _ Hi) Hlt) as (v & Ev & Hv).
    rewrite Ev in E. cbn [mbind option_bind] in E. injection E as <-.
    assert (Hlen : len (gots w ++ [v]) = len (gots w) + 1)
      by (unfold len; rewrite length_app; cbn; lia).
    split; cbn [rf lock writers reader puts gots set_rdidx slot_nbr slot_size wridx rdidx tbl];
      try apply Hi.
    + rewrite (v_rd _ Hi), next_mod by apply Hi. by rewrite Hlen.
    + rewrite Hlen. by apply ring_remove; [apply Hi|].
    + rewrite length_app. cbn [length]. rewrite Nat.add_1_r, (take_S_r _ _ v);
        [by rewrite <- (v_gots _ Hi)|]. unfold len in Hv. by rewrite Nat2Z.id in Hv.
    + intros t th p Ht. pose proof (v_put _ Hi t th p Ht) as Hp.
      destruct p; cbn in *; rewrite ?Hlen; try done; [lia|].
      destruct Hp as (? & ? & ?). split_and!; try done; lia.
    + done.
Qed.

Lemma rf_step_inv w w' : step ss w w' → inv w → inv w'.
Proof.
  intros [w0 t v w1 E|w0 t w1 E|w0 w1 E|w0 w1 E] Hi;
    [|by eapply put_step_inv| |by eapply get_step_inv].
  - unfold call_put in E. destruct (writers w0 !! t) as [[th p]|] eqn:Ht; [|done].
    cbn [mbind option_bind snd fst] in E. destruct (resting p); [|done]. injection E as <-.
    split; cbn [rf lock writers reader puts gots]; try apply Hi.
    + rewrite fmap_insert, insert_id by (by rewrite lookup_fmap, Ht). apply (v_run _ Hi).
    + intros u x [[<- _]|[_ Hu]]%lookup_insert_Some; by eapply (v_dom _ Hi).
    + intros u thu q [[<- [= <- <-]]|[_ Hu]]%lookup_insert_Some; [by intros []|].
      exact (v_in _ Hi _ _ _ Hu).
    + intros u thu q [[<- [= <- <-]]|[_ Hu]]%lookup_insert_Some; [done|].
      exact (v_put _ Hi _ _ _ Hu).
  - unfold call_get in E. destruct (reader w0); try done; injection E as <-;
      by apply reader_next.
Qed.

Lemma rf_reach_inv f lk w :
  remote_fifo_init true n sz = (0, Some (f, lk)) → rtc (step ss) (initial f lk ts0) w → inv w.
Proof.
  intros Hf Hr. refine (rtc_ind_r (R := step ss) inv (initial f lk ts0) _ _ w Hr).
  - injection Hf as <- <-. split; cbn; try done.
    + split; unfold len; cbn; [rewrite length_replicate; lia|lia|lia].
    + rewrite <- map_fmap_compose. unfold compose. cbn. by rewrite map_fmap_id.
    + intros t x. rewrite lookup_fmap. destruct (ts0 !! t); [eauto|done].
    + intros t th p. rewrite lookup_fmap. destruct (ts0 !! t); [|done]. by intros [= <- <-] [].
    + intros t th p. rewrite lookup_fmap. destruct (ts0 !! t); [|done]. by intros [= <- <-].
  - intros w1 w2 _ Hs Hi. by eapply rf_step_inv.
Qed.

Lemma rf_empty_test w :
  inv w → (len (gots w) mod n =? wridx (rf w)) = (len (puts w) =? len (gots w)).
Proof.
  intros Hi. pose proof (v_ring _ Hi) as [_ Hcap _]. rewrite (v_wr _ Hi).
  apply Bool.eq_iff_eq_true. rewrite !Z.eqb_eq. split; intros E; [|by rewrite E].
  symmetry. apply mod_inj in E; lia.
Qed.

(** Neither the lock nor the store of the item faults. *)
Lemma lock_no_fault w t th p :
  inv w → writers w !! t = Some (th, p) → mstep true t (lock w) th ≠ [].
Proof.
  intros Hi Ht. destruct (mcs_reach true ts0 Hmax _ Hidle (v_run _ Hi)) as (c & q & R).
  destruct (rel_local _ _ _ _ _ R t th) as (th0 & _ & _ & Hl);
    [cbn; by rewrite lookup_fmap, Ht|].
  unfold local_ok in Hl. unfold mstep. destruct (loc th); try done; by case_match.
Qed.

Lemma put_progress w t th p :
  inv w → writers w !! t = Some (th, p) → resting p = false → put_step (ss t) w t ≠ [].
Proof.
  intros Hi Ht Hp. pose proof (lock_no_fault w t th p Hi Ht) as Hlk.
  pose proof (v_put _ Hi _ _ _ Ht) as Hok. unfold put_step. rewrite Ht.
  destruct p as [|v|v|v i|v i|v i|e|e]; try done; cbn in Hok.
  - by destruct (mstep true t (lock w) th).
  - by case_match.
  - destruct Hok as [-> Hroom]. unfold item_set.
    rewrite (Hss t (v_dom _ Hi _ _ Ht)), (v_slot _ Hi), Z.eqb_refl.
    destruct (ring_store _ _ _ _ (take (Z.to_nat (item_size (rf w))) v) (v_ring _ Hi) Hroom)
      as (t' & -> & _). done.
  - by destruct (mstep true t (lock w) th).
Qed.

(** The item the reader has. *)
Lemma held_item w r :
  inv w → reader w = GHold r → aget (tbl (rf w)) r = puts w !! length (gots w) ∧
    is_Some (aget (tbl (rf w)) r).
Proof.
  intros Hi Er. pose proof (v_get _ Hi) as Hg. unfold get_ok in Hg.
  rewrite Er in Hg. destruct Hg as [-> Hlt].
  destruct (ring_read _ _ _ _ (v_ring _ Hi) Hlt) as (v & -> & Hv). unfold len in Hv.
  rewrite Nat2Z.id in Hv. rewrite Hv. eauto.
Qed.
End proofs.

(** ** Theorems *)

(** C26. A remote FIFO of [n] slots, any number of writers (at most 2^32, so that the tickets
    differ) and one reader, every access to a word of the ring or of the ticket lock being one
    step: whatever the interleaving, the items come out whole, in the order of their
    publication, none lost or repeated; at most one writer is between the lock and the unlock;
    the item the reader holds between [remote_fifo_get] and [remote_fifo_release] is the oldest
    one and stays in its slot; the test for room in a put and for an item in a get are exact;
    and a writer in a call can always make a step.  [item_get_base] reads the size of the slots
    with a load in the writer's own cluster (remote_fifo.c:35): the theorem assumes that every
    writer finds there the size the FIFO was created with ([wrong_slot_size]). *)
Theorem remote_fifo_correct n sz ss ts0 f lk w :
  1 ≤ n < wsize → remote_fifo_init true n sz = (0, Some (f, lk)) →
  (∀ t, is_Some (ts0 !! t) → ss t = sz) →
  (∀ t th, ts0 !! t = Some th → midle true th) → Z.of_nat (base.size ts0) ≤ wsize →
  rtc (step ss) (initial f lk ts0) w →
  gots w `prefix_of` puts w ∧ len (puts w) - len (gots w) ≤ n - 1 ∧
  (∀ t u th thu p q, writers w !! t = Some (th, p) → writers w !! u = Some (thu, q) →
     holds p → holds q → t = u) ∧
  (∀ r, reader w = GHold r →
     aget (tbl (rf w)) r = puts w !! length (gots w) ∧ is_Some (aget (tbl (rf w)) r)) ∧
  (∀ t th v i, writers w !! t = Some (th, PReadR v i) →
     (next_idx (rf w) i =? rdidx (rf w)) = (len (puts w) - len (gots w) =? n - 1)) ∧
  (∀ i, reader w = GReadW i → (i =? wridx (rf w)) = (len (puts w) =? len (gots w))) ∧
  (∀ t th p, writers w !! t = Some (th, p) → resting p = false → put_step (ss t) w t ≠ []).
Proof.
  intros Hn Hf Hss Hi0 Hm Hr.
  pose proof (rf_reach_inv n sz ss ts0 Hn Hi0 Hm f lk w Hf Hr) as Hi. split_and!.
  - rewrite (v_gots _ _ _ _ Hi). apply prefix_take.
  - destruct (v_ring _ _ _ _ Hi) as [_ Hcap _]. lia.
  - intros t u th thu p q. by apply (alone n sz ts0).
  - intros r. by apply (held_item n sz ts0).
  - intros t th v i Ht. pose proof (v_put _ _ _ _ Hi _ _ _ Ht) as E. cbn in E. subst i.
    by apply (rf_full_test n sz ts0).
  - intros i Er. pose proof (v_get _ _ _ _ Hi) as Hg. unfold get_ok in Hg. rewrite Er in Hg.
    subst i. by apply (rf_empty_test n sz ts0).
  - intros t th p. by apply (put_progress n sz ss ts0).
Qed.

(** A schedule: a writer starts a put, the reader a get, or one of them makes a step. *)
Inductive action := CallPut (t : Z) (v : list Z) | CallGet | Put (t : Z) | Get.

Definition perform (ss : Z → Z) (w : world) (a : action) : option world :=
  match a with
  | CallPut t v => call_put w t v
  | CallGet => call_get w
  | Put t => put_step (ss t) w t !! 0%nat
  | Get => get_step w
  end.

Fixpoint exec (ss : Z → Z) (w : world) (l : list action) : option world :=
  match l with [] => Some w | a :: l => w ← perform ss w a; exec ss w l end.

Lemma exec_step_rtc ss w l w' : exec ss w l = Some w' → rtc (step ss) w w'.
Proof.
  revert w. induction l as [|a l IH]; intros w E; [by injection E as ->|].
  cbn in E. destruct (perform ss w a) as [w1|] eqn:Ea; [|done]. apply IH in E.
  eapply rtc_l; [|exact E]. destruct a; cbn in Ea;
    [by eapply s_call|by eapply s_get| |by eapply s_act].
  eapply s_put. by eapply list_elem_of_lookup_2.
Qed.

Definition ex_rfifo : rfifo := RFifo 0 0 [[0; 0]; [0; 0]; [0; 0]] 3 2 2.

(** Writers 4 and 5 both call; 4 gets the lock first and publishes while 5 waits; 5 then
    enters the critical section, and the reader holds the item of 4. *)
Definition ex_rf_run : list action :=
  [CallPut 4 [7; 8]; CallPut 5 [9; 6]; Put 4; Put 5; Put 5; Put 4; Put 4; Put 4; Put 4; Put 4;
   CallGet; Get; Get; Put 5; Put 4; Put 4; Put 5; Put 5].

Definition ex_rf : option world :=
  exec (λ _, 2) (initial ex_rfifo mcs_lock_init (at_pc mth_idle [4; 5])) ex_rf_run.

Lemma remote_fifo_correct_witness :
  ∃ w, ex_rf = Some w ∧ puts w = [[7; 8]] ∧ reader w = GHold 0 ∧
    aget (tbl (rf w)) 0 = Some [7; 8] ∧
    (∃ th, writers w !! 5 = Some (th, PReadR [9; 6] 1) ∧
       (next_idx (rf w) 1 =? rdidx (rf w)) = (1 =? 2) ∧ put_step 2 w 5 ≠ []).
Proof.
  destruct ex_rf as [w|] eqn:E; [|by vm_compute in E]. exists w. split; [done|].
  destruct (remote_fifo_correct 3 2 (λ _, 2) (at_pc mth_idle [4; 5]) ex_rfifo mcs_lock_init w)
    as (_ & _ & _ & Hh & Hf & _ & Hp).
  - unfold wsize; lia.
  - reflexivity.
  - reflexivity.
  - intros t th ->%at_pc_lookup. clear E. done.
  - clear E. by vm_compute.
  - exact (exec_step_rtc _ _ ex_rf_run _ E).
  - assert (puts w = [[7; 8]] ∧ gots w = [] ∧ reader w = GHold 0 ∧
            (snd <$> writers w !! 5) = Some (PReadR [9; 6] 1)) as (Eu & Eg & Er & E5)
      by (vm_compute in E; injection E as <-; by vm_compute).
    clear E. destruct (writers w !! 5) as [[th p]|] eqn:Ew; [|done]. injection E5 as ->.
    rewrite Eu, Eg in Hh, Hf. split; [exact Eu|]. split; [exact Er|].
    split; [exact (proj1 (Hh 0 Er))|]. exists th. split; [reflexivity|].
    split; [exact (Hf 5 th _ _ Ew)|exact (Hp 5 th _ Ew eq_refl)].
Defined.

(** A writer whose cluster has another word there computes another address for slot 1. *)
Lemma wrong_slot_size base s s' :
  0 ≤ s < wsize → 0 ≤ s' < wsize → s ≠ s' → item_get_base base s 1 ≠ item_get_base base s' 1.
Proof.
  intros Hs Hs' Hne E. unfold item_get_base in E. rewrite !Z.mul_1_r, (u32_small s), (u32_small s') in E by lia.
  by apply Hne, (u32_inj_near base).
Qed.
