(* ===== verification/Sched.v ===== *)
(** * Threads, run queues and the round-robin scheduler
    (src/kernel/kern/scheduler.c, src/kernel/kern/rr-sched_locked.c, src/kernel/kern/wait_queue.c)

    The kernel is configured with [CONFIG_USE_SCHED_LOCKS] and without load balancing, so the
    policy is the one of rr-sched_locked.c with [rr_elect] and [rr_clock].  A thread is linked
    by its field [list] either on a run queue of its processor or on a wait queue; all the lists
    live in one heap of links, so that an operation that links a thread twice damages the other
    list as it does in the kernel. *)

From S2P Require Import Prelude Clist Bits.

Open Scope Z_scope.

(** ** State *)

Inductive thread_state_t := S_CREATE | S_USR | S_KERNEL | S_READY | S_WAIT | S_DEAD.

Inductive thread_attr_t := PTHREAD | KTHREAD | TH_IDLE | TH_BOOT.

#[export] Instance thread_state_eq_dec : EqDecision thread_state_t.
Proof. solve_decision. Defined.

#[export] Instance thread_attr_eq_dec : EqDecision thread_attr_t.
Proof. solve_decision. Defined.

(** The fields of [struct thread_s] the scheduler uses; [info_queue] is [info.queue], the root
    of the wait queue the thread is on. *)
Record thread_s := {
  state : thread_state_t;
  type : thread_attr_t;
  flags : Z;
  quantum : Z;
  ticks_nr : Z;
  boosted_prio : Z;
  sched_nr : Z;
  ltid : Z;
  lcpu : Z;
  info_queue : option Z
}.

Definition TH_NEED_TO_SCHED : Z := 0x001.
Definition TH_CAN_WAKEUP : Z := 0x008.
Definition TH_CAP_WAKEUP : Z := 0x010.
Definition TH_IMPORTED : Z := 0x200.
Definition TH_FORCED_YIELD : Z := 0x400.

Definition RR_QUANTUM : Z := 4.
Definition SCHED_THREADS_NR : Z := 32.

Inductive cpu_state_t := CPU_IDLE | CPU_ACTIVE.

(** A processor: its [struct scheduler_s], the counters of its [struct sched_s] and [rQueues_t],
    its [struct sched_db_s], the thread it runs and its idle thread. *)
Record cpu_s := {
  total_nr : Z;
  user_nr : Z;
  u_runnable : Z;
  k_runnable : Z;
  count : Z;
  rq_u_runnable : Z;
  db_bitmap : list Z;
  db_next : Z;
  cpu_state : cpu_state_t;
  current : Z;
  thread_idle : Z
}.

Notation links := (gmap lnode (list_entry lnode)).

(** [dead] holds the threads for which the destruction event has been sent. *)
Record kernel := {
  lists : links;
  threads : gmap Z thread_s;
  cpus : gmap Z cpu_s;
  dead : list Z
}.

(** The roots of the lists of processor [c]: [rQueues->kthreads], [rQueues->runnable] and
    [scheduler->sleep_check]. *)
Definition kq (c : Z) : Z := 3 * c.
Definition rq (c : Z) : Z := 3 * c + 1.
Definition sq (c : Z) : Z := 3 * c + 2.

Definition set_state (st : thread_state_t) (th : thread_s) : thread_s :=
  {| state := st; type := type th; flags := flags th; quantum := quantum th;
     ticks_nr := ticks_nr th; boosted_prio := boosted_prio th; sched_nr := sched_nr th;
     ltid := ltid th; lcpu := lcpu th; info_queue := info_queue th |}.

Definition set_flags (f : Z) (th : thread_s) : thread_s :=
  {| state := state th; type := type th; flags := f; quantum := quantum th;
     ticks_nr := ticks_nr th; boosted_prio := boosted_prio th; sched_nr := sched_nr th;
     ltid := ltid th; lcpu := lcpu th; info_queue := info_queue th |}.

Definition set_quantum (q : Z) (th : thread_s) : thread_s :=
  {| state := state th; type := type th; flags := flags th; quantum := q;
     ticks_nr := ticks_nr th; boosted_prio := boosted_prio th; sched_nr := sched_nr th;
     ltid := ltid th; lcpu := lcpu th; info_queue := info_queue th |}.

Definition set_prio (p : Z) (th : thread_s) : thread_s :=
  {| state := state th; type := type th; flags := flags th; quantum := quantum th;
     ticks_nr := ticks_nr th; boosted_prio := p; sched_nr := sched_nr th;
     ltid := ltid th; lcpu := lcpu th; info_queue := info_queue th |}.

Definition set_queue (q : option Z) (th : thread_s) : thread_s :=
  {| state := state th; type := type th; flags := flags th; quantum := quantum th;
     ticks_nr := ticks_nr th; boosted_prio := boosted_prio th; sched_nr := sched_nr th;
     ltid := ltid th; lcpu := lcpu th; info_queue := q |}.

Definition set_ltid (i : Z) (th : thread_s) : thread_s :=
  {| state := state th; type := type th; flags := flags th; quantum := quantum th;
     ticks_nr := ticks_nr th; boosted_prio := boosted_prio th; sched_nr := sched_nr th;
     ltid := i; lcpu := lcpu th; info_queue := info_queue th |}.

Definition set_type (ty : thread_attr_t) (th : thread_s) : thread_s :=
  {| state := state th; type := ty; flags := flags th; quantum := quantum th;
     ticks_nr := ticks_nr th; boosted_prio := boosted_prio th; sched_nr := sched_nr th;
     ltid := ltid th; lcpu := lcpu th; info_queue := info_queue th |}.

(** [ticks_nr ++] and [info.sched_nr ++]. *)
Definition add_ticks (n m : Z) (th : thread_s) : thread_s :=
  {| state := state th; type := type th; flags := flags th; quantum := quantum th;
     ticks_nr := u32 (ticks_nr th + n); boosted_prio := boosted_prio th;
     sched_nr := u32 (sched_nr th + m); ltid := ltid th; lcpu := lcpu th;
     info_queue := info_queue th |}.

Definition flag_set (f : Z) (th : thread_s) : thread_s := set_flags (Z.lor (flags th) f) th.
Definition flag_clear (f : Z) (th : thread_s) : thread_s :=
  set_flags (Z.land (flags th) (u32 (Z.lnot f))) th.
Definition flag_is (f : Z) (th : thread_s) : bool := ctrue (Z.land (flags th) f).

(** The 16-bit counters of [struct scheduler_s]. *)
Definition u16 (x : Z) : Z := x mod 2 ^ 16.

Definition add_total (n : Z) (c : cpu_s) : cpu_s :=
  {| total_nr := u16 (total_nr c + n); user_nr := user_nr c; u_runnable := u_runnable c;
     k_runnable := k_runnable c; count := count c; rq_u_runnable := rq_u_runnable c;
     db_bitmap := db_bitmap c; db_next := db_next c; cpu_state := cpu_state c;
     current := current c; thread_idle := thread_idle c |}.

Definition add_user (n : Z) (c : cpu_s) : cpu_s :=
  {| total_nr := total_nr c; user_nr := u16 (user_nr c + n); u_runnable := u_runnable c;
     k_runnable := k_runnable c; count := count c; rq_u_runnable := rq_u_runnable c;
     db_bitmap := db_bitmap c; db_next := db_next c; cpu_state := cpu_state c;
     current := current c; thread_idle := thread_idle c |}.

Definition add_u (n : Z) (c : cpu_s) : cpu_s :=
  {| total_nr := total_nr c; user_nr := user_nr c; u_runnable := u16 (u_runnable c + n);
     k_runnable := k_runnable c; count := count c; rq_u_runnable := rq_u_runnable c;
     db_bitmap := db_bitmap c; db_next := db_next c; cpu_state := cpu_state c;
     current := current c; thread_idle := thread_idle c |}.

Definition add_k (n : Z) (c : cpu_s) : cpu_s :=
  {| total_nr := total_nr c; user_nr := user_nr c; u_runnable := u_runnable c;
     k_runnable := u16 (k_runnable c + n); count := count c; rq_u_runnable := rq_u_runnable c;
     db_bitmap := db_bitmap c; db_next := db_next c; cpu_state := cpu_state c;
     current := current c; thread_idle := thread_idle c |}.

Definition add_ru (n : Z) (c : cpu_s) : cpu_s :=
  {| total_nr := total_nr c; user_nr := user_nr c; u_runnable := u_runnable c;
     k_runnable := k_runnable c; count := count c; rq_u_runnable := u32 (rq_u_runnable c + n);
     db_bitmap := db_bitmap c; db_next := db_next c; cpu_state := cpu_state c;
     current := current c; thread_idle := thread_idle c |}.

Definition set_count (n : Z) (c : cpu_s) : cpu_s :=
  {| total_nr := total_nr c; user_nr := user_nr c; u_runnable := u_runnable c;
     k_runnable := k_runnable c; count := n; rq_u_runnable := rq_u_runnable c;
     db_bitmap := db_bitmap c; db_next := db_next c;
     cpu_state := cpu_state c; current := current c; thread_idle := thread_idle c |}.

Definition set_db (bm : list Z) (nx : Z) (c : cpu_s) : cpu_s :=
  {| total_nr := total_nr c; user_nr := user_nr c; u_runnable := u_runnable c;
     k_runnable := k_runnable c; count := count c; rq_u_runnable := rq_u_runnable c;
     db_bitmap := bm; db_next := nx;
     cpu_state := cpu_state c; current := current c; thread_idle := thread_idle c |}.

Definition set_cpu_state (st : cpu_state_t) (c : cpu_s) : cpu_s :=
  {| total_nr := total_nr c; user_nr := user_nr c; u_runnable := u_runnable c;
     k_runnable := k_runnable c; count := count c; rq_u_runnable := rq_u_runnable c;
     db_bitmap := db_bitmap c; db_next := db_next c;
     cpu_state := st; current := current c; thread_idle := thread_idle c |}.

Definition set_current (t : Z) (c : cpu_s) : cpu_s :=
  {| total_nr := total_nr c; user_nr := user_nr c; u_runnable := u_runnable c;
     k_runnable := k_runnable c; count := count c; rq_u_runnable := rq_u_runnable c;
     db_bitmap := db_bitmap c; db_next := db_next c;
     cpu_state := cpu_state c; current := t; thread_idle := thread_idle c |}.

(** ** Kernel code as a state monad with faults *)

Definition M (A : Type) : Type := kernel → option (kernel * A).

#[export] Instance M_ret : MRet M := λ A x s, Some (s, x).
#[export] Instance M_bind : MBind M := λ A B f m s,
  match m s with Some (s', x) => f x s' | None => None end.

Lemma M_bind_Some {A B} (m : M A) (f : A → M B) s s' x :
  m s = Some (s', x) → (m ≫= f) s = f x s'.
Proof. intros E. unfold mbind, M_bind. by rewrite E. Qed.

(** Operations that do not depend on the state. *)
Definition lift {A} (o : option A) : M A := λ s, x ← o; Some (s, x).

(** Accesses to a thread or a processor through a pointer. *)
Definition get_thread (t : Z) : M thread_s := λ s, th ← threads s !! t; Some (s, th).

Definition put_thread (t : Z) (f : thread_s → thread_s) : M unit := λ s,
  th ← threads s !! t;
  Some ({| lists := lists s; threads := <[t := f th]> (threads s); cpus := cpus s;
           dead := dead s |}, ()).

Definition get_cpu (c : Z) : M cpu_s := λ s, x ← cpus s !! c; Some (s, x).

Definition put_cpu (c : Z) (f : cpu_s → cpu_s) : M unit := λ s,
  x ← cpus s !! c;
  Some ({| lists := lists s; threads := threads s; cpus := <[c := f x]> (cpus s);
           dead := dead s |}, ()).

Definition with_lists (s : kernel) (h : links) : kernel :=
  {| lists := h; threads := threads s; cpus := cpus s; dead := dead s |}.

(** List operations. *)
Definition on_lists (f : links → option links) : M unit := λ s,
  h ← f (lists s); Some (with_lists s h, ()).

Definition ask_lists {A} (f : links → option A) : M A := λ s,
  x ← f (lists s); Some (s, x).

Definition root_of (r : Z) : lptr lnode := At (Root r).
Definition list_of (t : Z) : lptr lnode := At (Obj t).

(** [list_first(root, struct thread_s, list)]. *)
Definition first_thread (r : Z) : M Z := ask_lists (λ h, p ← list_first h (root_of r); obj_of p).
Definition last_thread (r : Z) : M Z := ask_lists (λ h, p ← list_last h (root_of r); obj_of p).

Definition when (b : bool) (m : M unit) : M unit := if b then m else mret ().

(** ** The round-robin policy (rr-sched_locked.c) *)

Definition rr_clock (this : Z) : M unit :=
  th ← get_thread this;
  put_thread this (set_quantum (if quantum th >? 0 then s32 (quantum th - 1) else quantum th));;
  th ← get_thread this;
  when (bool_decide (quantum th = 0 ∧ type th ≠ TH_IDLE))
    (put_thread this (flag_set TH_NEED_TO_SCHED)).

Definition rr_remove (this : Z) : M unit :=
  th ← get_thread this;
  put_cpu (lcpu th) (add_total (-1));;
  put_cpu (lcpu th) (add_user (-1)).

Definition rr_exit (this : Z) : M unit :=
  th ← get_thread this;
  put_cpu (lcpu th) (add_total (-1));;
  when (bool_decide (type th = PTHREAD)) (put_cpu (lcpu th) (add_user (-1)));;
  put_thread this (set_state S_DEAD).

Definition rr_sleep (this : Z) : M unit :=
  th ← get_thread this;
  when (bool_decide (state th ≠ S_READY)) (put_thread this (set_state S_WAIT)).

(** [this] is the current thread, [thread] the one to wake up. *)
Definition rr_wakeup (this thread : Z) : M unit :=
  th ← get_thread thread;
  let c := lcpu th in
  put_thread thread (set_state S_READY);;
  cp ← get_cpu c;
  put_cpu c (set_count (u32 (count cp + 1)));;
  if bool_decide (type th = KTHREAD) then
    put_cpu c (add_k 1);;
    on_lists (λ h, list_add_first h (root_of (kq c)) (list_of thread));;
    put_thread this (flag_set TH_NEED_TO_SCHED);;
    put_thread this (flag_set TH_FORCED_YIELD)
  else
    put_cpu c (add_ru 1);;
    put_cpu c (add_u 1);;
    on_lists (λ h, list_add_first h (root_of (rq c)) (list_of thread)).

Definition rr_add_created (thread : Z) : M unit :=
  th ← get_thread thread;
  let c := lcpu th in
  cp ← get_cpu c;
  put_cpu c (set_count (u32 (count cp + 1)));;
  put_cpu c (add_total 1);;
  if bool_decide (type th = KTHREAD) then
    put_cpu c (add_k 1);;
    on_lists (λ h, list_add_first h (root_of (kq c)) (list_of thread))
  else
    put_cpu c (add_user 1);;
    put_cpu c (add_u 1);;
    put_cpu c (add_ru 1);;
    on_lists (λ h, list_add_first h (root_of (rq c)) (list_of thread));;
    if flag_is TH_IMPORTED th then
      put_thread thread (set_prio (3 * RR_QUANTUM));;
      put_thread thread (flag_clear TH_IMPORTED)
    else put_thread thread (set_prio RR_QUANTUM).

(** The first part of [rr_elect]: a thread that is still running goes back to its queue.
    The result is the new number of runnable threads. *)
Definition rr_requeue (c this : Z) : M Z :=
  cp ← get_cpu c;
  th ← get_thread this;
  if bool_decide (state th = S_KERNEL ∧ type th ≠ TH_IDLE) then
    put_thread this (set_state S_READY);;
    (if bool_decide (type th = PTHREAD) then
       on_lists (λ h, list_add_last h (root_of (rq c)) (list_of this));;
       put_cpu c (add_u 1)
     else
       on_lists (λ h, list_add_last h (root_of (kq c)) (list_of this));;
       put_cpu c (add_k 1));;
    mret (u32 (count cp + 1))
  else mret (count cp).

(** The second part: the first kernel thread, or else the first user thread. *)
Definition rr_pick (c : Z) : M Z :=
  no_kthread ← ask_lists (λ h, list_empty h (root_of (kq c)));
  elected ←
    (if (no_kthread : bool) then
       e ← first_thread (rq c);
       put_cpu c (add_u (-1));;
       put_cpu c (add_ru (-1));;
       mret e
     else
       e ← first_thread (kq c);
       put_cpu c (add_k (-1));;
       mret e);
  on_lists (λ h, list_unlink h (list_of elected));;
  put_thread elected (set_quantum RR_QUANTUM);;
  put_thread elected (flag_clear TH_NEED_TO_SCHED);;
  mret elected.

Definition rr_elect (c this : Z) : M (option Z) :=
  put_thread this (flag_clear TH_NEED_TO_SCHED);;
  n ← rr_requeue c this;
  if n >? 0 then
    e ← rr_pick c;
    put_cpu c (set_count (u32 (n - 1)));;
    mret (Some e)
  else
    put_cpu c (set_count n);;
    mret None.

(** ** The generic layer (scheduler.c) *)

Definition sched_wakeup (this thread : Z) : M unit := rr_wakeup this thread.

(** The body of the loop of [check_sleeping]; the loop is left after the first wake-up. *)
Definition check_body (this : Z) (k : lnode) (s : kernel) : option (kernel * bool) :=
  match k with
  | Obj t =>
      r ← (th ← get_thread t;
           if bool_decide (state th = S_READY) then
             on_lists (λ h, list_unlink h (list_of t));;
             put_thread t (set_state S_WAIT);;
             sched_wakeup this t;;
             mret true
           else mret false) s;
      Some r
  | Root _ => None
  end.

Definition check_sleeping (c this : Z) : M unit := λ s,
  s ← list_foreach lists (check_body this) (S (size (threads s))) (root_of (sq c)) s;
  Some (s, ()).

Definition event_send (t : Z) : M unit := λ s,
  Some ({| lists := lists s; threads := threads s; cpus := cpus s; dead := dead s ++ [t] |}, ()).

(** The context switch: from here on processor [c] runs [elected]. *)
Definition switch_to (c elected : Z) : M unit :=
  th ← get_thread elected;
  (if bool_decide (state th = S_CREATE) then
     put_thread elected (set_state (if bool_decide (type th = PTHREAD) then S_USR else S_KERNEL))
   else
     put_thread elected (add_ticks 0 1);;
     put_thread elected (set_state S_KERNEL));;
  put_cpu c (set_current elected).

Definition schedule (c this : Z) : M unit :=
  check_sleeping c this;;
  found ← rr_elect c this;
  elected ←
    (match found with
     | Some e => put_cpu c (set_cpu_state CPU_ACTIVE);; mret e
     | None =>
         put_cpu c (set_cpu_state CPU_IDLE);;
         cp ← get_cpu c;
         mret (thread_idle cp)
     end);
  th ← get_thread this;
  when (bool_decide (state th = S_DEAD)) (event_send this);;
  if bool_decide (elected ≠ this) then switch_to c elected
  else put_thread this (set_state S_KERNEL).

(** Each of the following runs on behalf of the current thread of its processor, up to the
    context switch. *)

Definition sched_yield (this : Z) : M unit :=
  th ← get_thread this;
  schedule (lcpu th) this.

(** [__sched_sleep] up to the switch; [sleep_return] is what remains when the thread runs
    again. *)
Definition __sched_sleep (this : Z) (add_to_sleep_check : bool) : M unit :=
  th ← get_thread this;
  when (flag_is TH_CAP_WAKEUP th)
    (put_thread this (flag_set TH_CAN_WAKEUP);; put_thread this (flag_clear TH_CAP_WAKEUP));;
  rr_sleep this;;
  when add_to_sleep_check
    (on_lists (λ h, list_add_last h (root_of (sq (lcpu th))) (list_of this)));;
  schedule (lcpu th) this.

Definition sched_sleep (this : Z) : M unit := __sched_sleep this false.
Definition sched_sleep_check (this : Z) : M unit := __sched_sleep this true.

Definition sleep_return (this : Z) : M unit := put_thread this (flag_clear TH_CAN_WAKEUP).

Definition sched_clock (this : Z) : M unit :=
  th ← get_thread this;
  put_thread this (add_ticks 1 0);;
  when (bool_decide (type th = KTHREAD))
    (cp ← get_cpu (lcpu th); put_thread (thread_idle cp) (add_ticks 1 0));;
  rr_clock this.

Definition sched_add_created (thread : Z) : M unit :=
  put_thread thread (set_state S_CREATE);;
  rr_add_created thread.

Definition sched_add (thread : Z) : M unit :=
  put_thread thread (set_state S_READY);;
  rr_add_created thread.

(** [sched_register]: a free slot of the table of threads, or [ERANGE]. *)
Definition ERANGE : Z := 34.

Definition sched_register (thread : Z) : M Z :=
  th ← get_thread thread;
  let c := lcpu th in
  cp ← get_cpu c;
  let nx := if db_next cp >=? SCHED_THREADS_NR then 0 else db_next cp in
  index ← lift (bitmap_ffs2 (db_bitmap cp) nx (SCHED_THREADS_NR / 8));
  if index =? -1 then
    put_cpu c (set_db (db_bitmap cp) nx);;
    mret ERANGE
  else
    bm ← lift (bitmap_clear (db_bitmap cp) index);
    put_cpu c (set_db bm (u32 (index + 1)));;
    put_thread thread (set_ltid index);;
    mret 0.

Definition sched_unregister (thread : Z) : M unit :=
  th ← get_thread thread;
  let c := lcpu th in
  cp ← get_cpu c;
  bm ← lift (bitmap_set (db_bitmap cp) (ltid th));
  put_cpu c (set_db bm (if ltid th <? db_next cp then ltid th else db_next cp)).

Definition sched_exit (this : Z) : M unit :=
  sched_unregister this;;
  rr_exit this;;
  put_thread this (set_state S_DEAD);;
  th ← get_thread this;
  schedule (lcpu th) this.

Definition sched_remove (this : Z) : M unit :=
  sched_unregister this;;
  rr_remove this;;
  put_thread this (set_type KTHREAD);;
  put_thread this (set_state S_DEAD);;
  th ← get_thread this;
  schedule (lcpu th) this.

(** ** Wait queues (wait_queue.c, wait_queue.h) *)

Definition WAIT_FIRST : Z := 0.
Definition WAIT_LAST : Z := 1.
Definition WAIT_ANY : Z := 2.

Definition wait_queue_init (q : Z) : M unit := on_lists (λ h, list_root_init h (root_of q)).

Definition wait_queue_init2 (q another : Z) : M unit :=
  e ← ask_lists (λ h, list_empty h (root_of another));
  if (e : bool) then on_lists (λ h, list_root_init h (root_of q))
  else on_lists (λ h, list_replace h (root_of another) (root_of q)).

Definition wait_queue_isEmpty (q : Z) : M bool := ask_lists (λ h, list_empty h (root_of q)).

Definition wait_queue_destroy (q : Z) : M unit :=
  e ← wait_queue_isEmpty q;
  lift (cassert e).

Definition wait_on (this q order : Z) : M unit :=
  put_thread this (set_queue (Some q));;
  if order =? WAIT_LAST then on_lists (λ h, list_add_last h (root_of q) (list_of this))
  else on_lists (λ h, list_add_first h (root_of q) (list_of this)).

Definition wakeup_one (this q order : Z) : M (option Z) :=
  e ← wait_queue_isEmpty q;
  if (e : bool) then mret None else
  thread ← (if order =? WAIT_LAST then last_thread q else first_thread q);
  on_lists (λ h, list_unlink h (list_of thread));;
  put_thread thread (set_queue None);;
  sched_wakeup this thread;;
  mret (Some thread).

Definition wakeup_body (this : Z) (k : lnode) (st : kernel * Z) : option ((kernel * Z) * bool) :=
  match k with
  | Obj t =>
      '(s, _) ← (on_lists (λ h, list_unlink h (list_of t));;
                 put_thread t (set_queue None);;
                 sched_wakeup this t) st.1;
      Some ((s, u32 (st.2 + 1)), false)
  | Root _ => None
  end.

Definition wakeup_all (this q : Z) : M Z := λ s,
  list_foreach (λ st, lists st.1) (wakeup_body this) (S (size (threads s))) (root_of q) (s, 0).
