(* ===== verification/SchedSpec.v ===== *)
(** * Correctness of the scheduler

    What every operation of [Sched] does to the queues of threads, seen as lists of thread
    numbers, and the invariant of the whole: a thread is running on its processor, or on the
    run queue of its processor, or on one wait queue, and the counters of a processor are the
    lengths of its queues. *)

From stdpp Require Import relations.
From S2P Require Import Prelude Clist Bits Sched.

Open Scope Z_scope.

(** ** What the scheduler's decisions depend on *)

(** Of a thread: *)
Record tcore := TC {
  c_state : thread_state_t; c_type : thread_attr_t; c_cpu : Z; c_queue : option Z; c_ltid : Z
}.

(** Of a processor; the last two are the bitmap of its table of threads and the place where the
    search for a free slot starts. *)
Record ccore := CC {
  cc_count : Z; cc_u : Z; cc_k : Z; cc_cur : Z; cc_idle : Z; cc_bm : list Z;
  cc_next : Z
}.

Definition core (th : thread_s) : tcore :=
  TC (state th) (type th) (lcpu th) (info_queue th) (ltid th).

Definition cpu_core (c : cpu_s) : ccore :=
  CC (count c) (u_runnable c) (k_runnable c) (current c) (thread_idle c)
    (db_bitmap c) (db_next c).

(** The rest of a program, from a state: it completes and its result satisfies [Q]. *)
Definition runs {A} (s : kernel) (m : M A) (Q : A → kernel → Prop) : Prop :=
  ∃ s' x, m s = Some (s', x) ∧ Q x s'.

Lemma runs_ret {A} s (x : A) (Q : A → kernel → Prop) : Q x s → runs s (mret x) Q.
Proof. intros HQ. by exists s, x. Qed.

Lemma runs_bind {A B} s (m : M A) (f : A → M B) Q :
  runs s m (λ x s', runs s' (f x) Q) → runs s (m ≫= f) Q.
Proof.
  intros (s1 & x & E & s2 & y & E2 & HQ). exists s2, y. split; [|done].
  by rewrite (M_bind_Some m f s s1 x E).
Qed.

Lemma runs_mono {A} s (m : M A) (P Q : A → kernel → Prop) :
  runs s m P → (∀ x s', P x s' → Q x s') → runs s m Q.
Proof. intros (s' & x & E & HP) Hi. exists s', x. auto. Qed.

(** ** The abstract state *)

Section abs.
Context (nc nr : Z).

Notation tmap := (gmap Z tcore).
Notation cmap := (gmap Z ccore).
Implicit Types (L : Z → list Z) (T : tmap) (C : cmap) (s : kernel).

(** [L] gives the threads on each of the [nr] lists. *)
Record abs s L T C : Prop := {
  abs_rings : rings (lists s) nr L;
  abs_threads : core <$> threads s = T;
  abs_cpus : cpu_core <$> cpus s = C;
  abs_cells : ∀ t, is_Some (T !! t) → is_Some (lists s !! Obj t)
}.

Definition off L (t : Z) : Prop := ∀ r, 0 ≤ r < nr → t ∉ L r.

Lemma runs_get_thread s L T C t k Q :
  abs s L T C → T !! t = Some k → (∀ th, core th = k → Q th s) → runs s (get_thread t) Q.
Proof.
  intros [_ <- _ _] Ht HQ. rewrite lookup_fmap in Ht.
  destruct (threads s !! t) as [th|] eqn:E; [|done]. injection Ht as <-.
  exists s, th. split; [|by apply HQ]. unfold get_thread. by rewrite E.
Qed.

Lemma runs_put_thread s L T C t k f Q :
  abs s L T C → T !! t = Some k →
  (∀ th s', core th = k → abs s' L (<[t := core (f th)]> T) C → Q tt s') →
  runs s (put_thread t f) Q.
Proof.
  intros Ha Ht HQ. pose proof Ha as [Hr <- Hc Hcell]. rewrite lookup_fmap in Ht.
  destruct (threads s !! t) as [th|] eqn:E; [|done]. injection Ht as <-.
  unfold put_thread. eexists _, _. rewrite E. split; [done|].
  apply (HQ th); [done|]. split; cbn; try done; [by rewrite fmap_insert|].
  intros u Hu. apply Hcell. destruct (decide (u = t)) as [->|Hne].
  - rewrite lookup_fmap, E. eauto.
  - by rewrite lookup_insert_ne in Hu by done.
Qed.

(** A change of fields the invariant does not mention. *)
Lemma runs_touch s L T C t f Q :
  abs s L T C → is_Some (T !! t) → (∀ th, core (f th) = core th) →
  (∀ s', abs s' L T C → Q tt s') → runs s (put_thread t f) Q.
Proof.
  intros Ha [k Ht] Hf HQ. eapply runs_put_thread; [done..|]. intros th s' E Ha'.
  apply HQ. rewrite Hf, E, insert_id in Ha'; done.
Qed.

Lemma runs_get_cpu s L T C c cc Q :
  abs s L T C → C !! c = Some cc → (∀ cp, cpu_core cp = cc → Q cp s) → runs s (get_cpu c) Q.
Proof.
  intros [_ _ <- _] Ht HQ. rewrite lookup_fmap in Ht.
  destruct (cpus s !! c) as [cp|] eqn:E; [|done]. injection Ht as <-.
  exists s, cp. split; [|by apply HQ]. unfold get_cpu. by rewrite E.
Qed.

Lemma runs_put_cpu s L T C c cc f Q :
  abs s L T C → C !! c = Some cc →
  (∀ cp s', cpu_core cp = cc → abs s' L T (<[c := cpu_core (f cp)]> C) → Q tt s') →
  runs s (put_cpu c f) Q.
Proof.
  intros Ha Ht HQ. pose proof Ha as [Hr HT <- Hcell]. rewrite lookup_fmap in Ht.
  destruct (cpus s !! c) as [cp|] eqn:E; [|done]. injection Ht as <-.
  unfold put_cpu. eexists _, _. rewrite E. split; [done|].
  apply (HQ cp); [done|]. split; cbn; try done. by rewrite fmap_insert.
Qed.

Lemma runs_touch_cpu s L T C c f Q :
  abs s L T C → is_Some (C !! c) → (∀ cp, cpu_core (f cp) = cpu_core cp) →
  (∀ s', abs s' L T C → Q tt s') → runs s (put_cpu c f) Q.
Proof.
  intros Ha [k Ht] Hf HQ. eapply runs_put_cpu; [done..|]. intros cp s' E Ha'.
  apply HQ. rewrite Hf, E, insert_id in Ha'; done.
Qed.

Lemma runs_on_lists s L T C f h' L' ks Q :
  abs s L T C → f (lists s) = Some h' → rings h' nr L' → frame (lists s) h' ks →
  (∀ s', abs s' L' T C → Q tt s') → runs s (on_lists f) Q.
Proof.
  intros [Hr HT HC Hcell] E Hr' [F _] HQ. unfold runs, on_lists. rewrite E.
  eexists _, _. split; [done|]. apply HQ. split; cbn; try done.
  intros t Ht. apply F. by apply Hcell.
Qed.

Lemma runs_add_first s L T C r t Q :
  abs s L T C → 0 ≤ r < nr → off L t → is_Some (T !! t) →
  (∀ s', abs s' (upd_ring L r (t :: L r)) T C → Q tt s') →
  runs s (on_lists (λ h, list_add_first h (root_of r) (list_of t))) Q.
Proof.
  intros Ha Hr Ho Ht HQ.
  destruct (rings_add (lists s) nr L r t) as (h' & E & Hr' & F);
    [apply Ha|done|done|by apply Ha|].
  by eapply runs_on_lists.
Qed.

Lemma runs_add_last s L T C r t Q :
  abs s L T C → 0 ≤ r < nr → off L t → is_Some (T !! t) →
  (∀ s', abs s' (upd_ring L r (L r ++ [t])) T C → Q tt s') →
  runs s (on_lists (λ h, list_add_last h (root_of r) (list_of t))) Q.
Proof.
  intros Ha Hr Ho Ht HQ.
  destruct (rings_add_last (lists s) nr L r t) as (h' & E & Hr' & F);
    [apply Ha|done|done|by apply Ha|].
  by eapply runs_on_lists.
Qed.

Lemma runs_unlink s L T C r t l1 l2 Q :
  abs s L T C → 0 ≤ r < nr → L r = l1 ++ t :: l2 →
  (∀ s', abs s' (upd_ring L r (l1 ++ l2)) T C → off (upd_ring L r (l1 ++ l2)) t → Q tt s') →
  runs s (on_lists (λ h, list_unlink h (list_of t))) Q.
Proof.
  intros Ha Hr El HQ.
  destruct (rings_unlink (lists s) nr L r l1 t l2) as (h' & E & Hr' & F & Ho);
    [apply Ha|done|done|].
  eapply runs_on_lists; [done..|]. intros s' Ha'. by apply HQ.
Qed.

Lemma runs_empty s L T C r Q :
  abs s L T C → 0 ≤ r < nr → Q (bool_decide (L r = [])) s →
  runs s (ask_lists (λ h, list_empty h (root_of r))) Q.
Proof.
  intros Ha Hr HQ. unfold runs, ask_lists, root_of.
  rewrite (olist_empty (lists s) r (L r)); [|by apply Ha]. by eexists _, _.
Qed.

Lemma runs_first s L T C r t l Q :
  abs s L T C → 0 ≤ r < nr → L r = t :: l → Q t s → runs s (first_thread r) Q.
Proof.
  intros Ha Hr El HQ. pose proof (rings_list _ _ _ (abs_rings _ _ _ _ Ha) r Hr) as Hl.
  rewrite El in Hl. unfold runs, first_thread, ask_lists, root_of. rewrite (olist_first _ _ _ _ Hl).
  by eexists _, _.
Qed.

Lemma runs_last s L T C r t l Q :
  abs s L T C → 0 ≤ r < nr → L r = l ++ [t] → Q t s → runs s (last_thread r) Q.
Proof.
  intros Ha Hr El HQ. pose proof (rings_list _ _ _ (abs_rings _ _ _ _ Ha) r Hr) as Hl.
  rewrite El in Hl. unfold olist in Hl. rewrite fmap_app in Hl. cbn in Hl.
  unfold runs, last_thread, ask_lists, root_of. rewrite (list_last_spec _ _ _ _ Hl).
  by eexists _, _.
Qed.

Lemma abs_dis s L T C r r' t :
  abs s L T C → 0 ≤ r < nr → 0 ≤ r' < nr → t ∈ L r → t ∈ L r' → r = r'.
Proof. intros Ha. apply (rings_dis _ _ _ (abs_rings _ _ _ _ Ha)). Qed.

Lemma abs_nodup s L T C r : abs s L T C → 0 ≤ r < nr → NoDup (L r).
Proof.
  intros Ha Hr. eapply olist_NoDup. by apply (rings_list _ _ _ (abs_rings _ _ _ _ Ha)).
Qed.
End abs.

(** ** The invariant *)

Section inv.
Context (nc nr : Z) (Hnc : 0 < nc) (Hnr : 3 * nc ≤ nr).

Notation tmap := (gmap Z tcore).
Notation cmap := (gmap Z ccore).
Implicit Types (L : Z → list Z) (T : tmap) (C : cmap) (s : kernel) (k : tcore).
Notation off := (off nr).
Notation abs := (abs nr).

(** The run queue of a thread. *)
Definition home k : Z := if bool_decide (c_type k = KTHREAD) then kq (c_cpu k) else rq (c_cpu k).

(** The thread [t] is the current thread of its processor. *)
Definition is_cur C (t : Z) k : Prop := cc_cur <$> C !! c_cpu k = Some t.

Definition wf k : Prop := 0 ≤ c_cpu k < nc ∧ c_type k ≠ TH_BOOT ∧ 0 ≤ c_ltid k < SCHED_THREADS_NR.

(** Waiting on the queue the thread says it is waiting on. *)
Definition waiting L (t : Z) k : Prop :=
  ∃ q, 3 * nc ≤ q < nr ∧ c_queue k = Some q ∧ t ∈ L q.

Definition place_ok L C (t : Z) k : Prop :=
  if bool_decide (c_type k = TH_IDLE) then c_state k = S_KERNEL ∧ off L t ∧ c_queue k = None else
  match c_state k with
  | S_CREATE => ¬ is_cur C t k ∧ c_queue k = None ∧ t ∈ L (home k)
  | S_READY => c_queue k = None ∧ (t ∈ L (home k) ∨ t ∈ L (sq (c_cpu k)))
  | S_WAIT => c_queue k = None ∧ t ∈ L (sq (c_cpu k)) ∨ waiting L t k
  | S_KERNEL => is_cur C t k ∧ (off L t ∧ c_queue k = None ∨ waiting L t k)
  | S_USR => is_cur C t k ∧ off L t ∧ c_queue k = None
  | S_DEAD => off L t ∧ c_queue k = None
  end.

(** The table of threads of a processor: a word of bits, set for the free slots; the slots
    before [next] are used. *)
Definition slots_ok (bm : list Z) (next : Z) : Prop :=
  length bm = 1%nat ∧ 0 ≤ next ∧
  ∀ i, 0 ≤ i < SCHED_THREADS_NR → i < next → wbit bm i = false.

Definition cpu_ok L T (c : Z) (cc : ccore) : Prop :=
  let nk := Z.of_nat (length (L (kq c))) in
  let nu := Z.of_nat (length (L (rq c))) in
  cc_count cc = u32 (nk + nu) ∧ cc_k cc = u16 nk ∧ cc_u cc = u16 nu ∧ slots_ok (cc_bm cc) (cc_next cc) ∧
  (∃ k, T !! cc_cur cc = Some k ∧ c_cpu k = c) ∧
  (∃ k, T !! cc_idle cc = Some k ∧ c_cpu k = c ∧ c_type k = TH_IDLE).

(** Of the thread [X], which an operation is moving, only that it is on no list. *)
Record inv (X : option Z) L T C : Prop := {
  i_mem : ∀ r t, 0 ≤ r < nr → t ∈ L r → is_Some (T !! t);
  i_wf : ∀ t k, T !! t = Some k → wf k;
  i_place : ∀ t k, T !! t = Some k → Some t ≠ X → place_ok L C t k;
  i_x : ∀ t, X = Some t → off L t ∧ ∃ k, T !! t = Some k ∧ c_type k ≠ TH_IDLE;
  i_cpu : ∀ c, 0 ≤ c < nc → ∃ cc, C !! c = Some cc ∧ cpu_ok L T c cc;
  i_size : Z.of_nat (size T) < wsize
}.

Lemma home_range k : wf k → 0 ≤ home k < nr.
Proof. intros [Hc _]. unfold home, kq, rq. case_bool_decide; lia. Qed.

Lemma home_lt k : wf k → home k < 3 * nc.
Proof. intros [Hc _]. unfold home, kq, rq. case_bool_decide; lia. Qed.

(** The lists of the threads other than [t] have not changed. *)
Definition same_but (t : Z) L L' : Prop := ∀ u r, u ≠ t → u ∈ L' r ↔ u ∈ L r.

Lemma place_ok_but t L L' C u k :
  same_but t L L' → u ≠ t → place_ok L C u k → place_ok L' C u k.
Proof.
  intros Hs Hne.
  assert (∀ r, u ∈ L' r ↔ u ∈ L r) as H0 by (intros r; by apply Hs).
  assert (off L u → off L' u) as H1 by (intros Ho r Hr; rewrite H0; by apply Ho).
  assert (waiting L u k → waiting L' u k) as H2.
  { intros (q & Hq & E & Hin). exists q. by rewrite H0. }
  unfold place_ok. case_bool_decide; [tauto|].
  destruct (c_state k); rewrite ?H0; tauto.
Qed.

(** The current threads have not changed. *)
Definition same_cur C C' : Prop := ∀ c, cc_cur <$> C' !! c = cc_cur <$> C !! c.

Lemma place_ok_cur L C C' t k : same_cur C C' → place_ok L C t k → place_ok L C' t k.
Proof. intros Hs. unfold place_ok, is_cur. by rewrite !Hs. Qed.

Lemma cpu_ok_but L L' T T' c cc :
  cpu_ok L T c cc → L' (kq c) = L (kq c) → L' (rq c) = L (rq c) →
  (∀ t k, T !! t = Some k → ∃ k', T' !! t = Some k' ∧ c_cpu k' = c_cpu k ∧ c_type k' = c_type k) →
  cpu_ok L' T' c cc.
Proof.
  intros (H1 & H2 & H3 & H4 & (k1 & E1 & F1) & (k2 & E2 & F2 & G2)) EK ER HT.
  unfold cpu_ok. rewrite EK, ER. split_and!; try done.
  - destruct (HT _ _ E1) as (k' & -> & ? & ?). exists k'. split; congruence.
  - destruct (HT _ _ E2) as (k' & -> & ? & ?). exists k'. split_and!; congruence.
Qed.

Lemma upd_ring_eq L r l : upd_ring L r l r = l.
Proof. unfold upd_ring. by rewrite Z.eqb_refl. Qed.

Lemma upd_ring_ne L r l r' : r' ≠ r → upd_ring L r l r' = L r'.
Proof. intros. unfold upd_ring. by rewrite (proj2 (Z.eqb_neq r' r)). Qed.

Lemma same_but_upd t L r l : l ≡ₚ t :: L r ∨ t :: l ≡ₚ L r → same_but t L (upd_ring L r l).
Proof.
  intros Hp u r' Hne. unfold upd_ring. destruct (Z.eqb_spec r' r) as [->|]; [|done].
  destruct Hp as [Hp|Hp]; [rewrite Hp|rewrite <- Hp]; rewrite elem_of_cons; tauto.
Qed.

Lemma is_Some_insert {A} (m : gmap Z A) i j x :
  is_Some (m !! j) → is_Some (<[i := x]> m !! j).
Proof. intros Hm. apply lookup_insert_is_Some'. auto. Qed.

Lemma insert_core T t k k' :
  T !! t = Some k → c_cpu k' = c_cpu k → c_type k' = c_type k →
  ∀ u ku, T !! u = Some ku →
    ∃ ku', <[t := k']> T !! u = Some ku' ∧ c_cpu ku' = c_cpu ku ∧ c_type ku' = c_type ku.
Proof.
  intros Ht Hc Hy u ku Hu. destruct (decide (u = t)) as [->|Hne].
  - exists k'. rewrite lookup_insert_eq. split; [done|]. split; congruence.
  - exists ku. by rewrite lookup_insert_ne.
Qed.

(** The moved thread reaches its place. *)
Lemma inv_place L T C t k k' L' C' :
  inv (Some t) L T C → T !! t = Some k → wf k' → c_cpu k' = c_cpu k → c_type k' = c_type k →
  same_but t L L' → place_ok L' C' t k' → same_cur C C' →
  (∀ c, 0 ≤ c < nc → ∃ cc, C' !! c = Some cc ∧ cpu_ok L' T c cc) →
  inv None L' (<[t := k']> T) C'.
Proof.
  intros [Hm Hw Hp Hx Hc Hz] Ht Hwf Ec Ey Hs Hok Hcur Hcpu. split;
    [| | | | |by rewrite map_size_insert_Some].
  - intros r u Hr Hu. destruct (decide (u = t)) as [->|Hne];
      [rewrite lookup_insert_eq; eauto|]. rewrite lookup_insert_ne by done.
    apply (Hm r); [done|]. by apply Hs.
  - intros u ku. rewrite lookup_insert_Some. intros [[<- <-]|[_ Hu]]; eauto.
  - intros u ku. rewrite lookup_insert_Some. intros [[<- <-]|[Hne Hu]] _; [done|].
    eapply place_ok_cur; [done|]. eapply place_ok_but; [done..|]. apply Hp; [done|]. congruence.
  - done.
  - intros c Hcr. destruct (Hcpu c Hcr) as (cc & E & Ho). exists cc. split; [done|].
    eapply cpu_ok_but; [exact Ho|done..|]. by eapply insert_core.
Qed.

(** A thread that is on no list may be moved. *)
Lemma inv_take L T C t k :
  inv None L T C → T !! t = Some k → c_type k ≠ TH_IDLE → off L t → inv (Some t) L T C.
Proof.
  intros [Hm Hw Hp _ Hc Hz] Ht Hy Ho. split; try done.
  - intros u ku Hu _. by apply Hp.
  - intros u [= <-]. eauto.
Qed.

(** The thread that is being moved may be changed. *)
Lemma inv_x_set L T C t k k' :
  inv (Some t) L T C → T !! t = Some k → c_cpu k' = c_cpu k → c_type k' = c_type k →
  c_ltid k' = c_ltid k → inv (Some t) L (<[t := k']> T) C.
Proof.
  intros [Hm Hw Hp Hx Hc Hz] Ht Ec Ey El. split; [| | | | |by rewrite map_size_insert_Some].
  - intros r u Hr Hu. apply is_Some_insert, (Hm r); done.
  - intros u ku. rewrite lookup_insert_Some. intros [[<- <-]|[_ Hu]]; [|eauto].
    pose proof (Hw t k Ht) as Hk. unfold wf in *. by rewrite Ec, Ey, El.
  - intros u ku. rewrite lookup_insert_Some. intros [[<- <-]|[_ Hu]] Hne; [done|]. by apply Hp.
  - intros u [= <-]. destruct (Hx t eq_refl) as (Ho & k0 & Hk0 & Hid). split; [done|].
    exists k'. rewrite lookup_insert_eq. split; [done|]. congruence.
  - intros c Hcr. destruct (Hc c Hcr) as (cc & E & Ho). exists cc. split; [done|].
    eapply cpu_ok_but; [exact Ho|done..|]. by eapply insert_core.
Qed.

(** A change of state that keeps the lists. *)
Lemma inv_set L T C t k k' :
  inv None L T C → T !! t = Some k → wf k' → c_cpu k' = c_cpu k → c_type k' = c_type k →
  place_ok L C t k' → inv None L (<[t := k']> T) C.
Proof.
  intros [Hm Hw Hp _ Hc Hz] Ht Hwf Ec Ey Hok.
  split; [| | |done| |by rewrite map_size_insert_Some].
  - intros r u Hr Hu. destruct (decide (u = t)) as [->|Hne];
      [rewrite lookup_insert_eq; eauto|]. rewrite lookup_insert_ne by done. by apply (Hm r).
  - intros u ku. rewrite lookup_insert_Some. intros [[<- <-]|[_ Hu]]; eauto.
  - intros u ku. rewrite lookup_insert_Some. intros [[<- <-]|[Hne Hu]] _; [done|]. by apply Hp.
  - intros c Hcr. destruct (Hc c Hcr) as (cc & E & Ho). exists cc. split; [done|].
    eapply cpu_ok_but; [exact Ho|done..|]. by eapply insert_core.
Qed.

(** A thread leaves a list that is not a run queue. *)
Lemma inv_unwait L T C t r l :
  inv None L T C → (∃ k, T !! t = Some k ∧ c_type k ≠ TH_IDLE) →
  (∀ c, 0 ≤ c < nc → r ≠ kq c ∧ r ≠ rq c) → t :: l ≡ₚ L r → off (upd_ring L r l) t →
  inv (Some t) (upd_ring L r l) T C.
Proof.
  intros [Hm Hw Hp _ Hc Hz] Ht Hr Hl Ho. assert (same_but t L (upd_ring L r l)) as Hs
    by (apply same_but_upd; auto). split; try done.
  - intros r' u Hr' Hu. apply (Hm r'); [done|]. destruct (decide (u = t)) as [->|Hne].
    + by destruct (Ho r' Hr').
    + by apply Hs.
  - intros u ku Hu Hne. eapply place_ok_but; [done| |by apply Hp]. congruence.
  - intros u [= <-]. auto.
  - intros c Hcr. destruct (Hc c Hcr) as (cc & E & Ho'). exists cc. split; [done|].
    destruct (Hr c Hcr). eapply cpu_ok_but; [exact Ho'|by rewrite upd_ring_ne..|eauto].
Qed.

(** The counters of the processor of a thread that enters or leaves its run queue. *)
Definition bump (n : Z) k (cc : ccore) : ccore :=
  CC (u32 (cc_count cc + n))
     (if bool_decide (c_type k = KTHREAD) then cc_u cc else u16 (cc_u cc + n))
     (if bool_decide (c_type k = KTHREAD) then u16 (cc_k cc + n) else cc_k cc)
     (cc_cur cc) (cc_idle cc) (cc_bm cc) (cc_next cc).

Lemma u16_add_l x y : u16 (u16 x + y) = u16 (x + y).
Proof. unfold u16. by rewrite Zplus_mod_idemp_l. Qed.

Lemma bump_ok L T k cc n l :
  wf k → cpu_ok L T (c_cpu k) cc →
  Z.of_nat (length l) = Z.of_nat (length (L (home k))) + n →
  cpu_ok (upd_ring L (home k) l) T (c_cpu k) (bump n k cc).
Proof.
  intros Hw (H1 & H2 & H3 & H4 & H5 & H6) Hl. unfold cpu_ok, bump, home in *.
  unfold kq, rq in *. case_bool_decide; cbn;
    (rewrite upd_ring_eq || rewrite (upd_ring_ne L) by lia);
    (rewrite upd_ring_eq || rewrite (upd_ring_ne L) by lia);
    rewrite H1, ?H2, ?H3, ?u16_add_l, u32_add_l, Hl;
    split_and!; try done; f_equal; lia.
Qed.

Lemma bump_other L T k c cc l :
  wf k → 0 ≤ c < nc → c ≠ c_cpu k → cpu_ok L T c cc → cpu_ok (upd_ring L (home k) l) T c cc.
Proof.
  intros Hw Hc Hne Hok. eapply cpu_ok_but; [exact Hok| | |eauto];
    (rewrite upd_ring_ne; [done|]; unfold home, kq, rq; case_bool_decide; lia).
Qed.

Lemma bump_cpus L T C k cc n l :
  wf k → C !! c_cpu k = Some cc →
  (∀ c, 0 ≤ c < nc → ∃ cc, C !! c = Some cc ∧ cpu_ok L T c cc) →
  Z.of_nat (length l) = Z.of_nat (length (L (home k))) + n →
  ∀ c, 0 ≤ c < nc → ∃ cc', <[c_cpu k := bump n k cc]> C !! c = Some cc' ∧
    cpu_ok (upd_ring L (home k) l) T c cc'.
Proof.
  intros Hw Ec Hc Hl c Hcr. destruct (Hc c Hcr) as (cc1 & E1 & Hok).
  destruct (decide (c = c_cpu k)) as [->|Hne].
  - rewrite lookup_insert_eq. eexists. split; [done|]. assert (cc1 = cc) as -> by congruence.
    by apply bump_ok.
  - rewrite lookup_insert_ne by done. exists cc1. split; [done|]. by apply bump_other.
Qed.

Lemma bump_cur C k cc n : C !! c_cpu k = Some cc → same_cur C (<[c_cpu k := bump n k cc]> C).
Proof.
  intros E c. destruct (decide (c = c_cpu k)) as [->|Hne].
  - by rewrite lookup_insert_eq, E.
  - by rewrite lookup_insert_ne.
Qed.

(** A thread enters its run queue. *)
Lemma inv_enqueue L T C t k st cc l :
  inv (Some t) L T C → T !! t = Some k → C !! c_cpu k = Some cc → l ≡ₚ t :: L (home k) →
  st = S_READY ∨ st = S_CREATE ∧ ¬ is_cur C t k →
  inv None (upd_ring L (home k) l)
    (<[t := TC st (c_type k) (c_cpu k) None (c_ltid k)]> T) (<[c_cpu k := bump 1 k cc]> C).
Proof.
  intros Hi Ht Ec Hl Hst. pose proof (i_wf _ _ _ _ Hi t k Ht) as Hw.
  destruct (i_x _ _ _ _ Hi t eq_refl) as (_ & k0 & Ht0 & Hid).
  assert (k0 = k) as -> by congruence.
  eapply inv_place; [done|done|done|done|done| | |by apply bump_cur|].
  - apply same_but_upd. auto.
  - unfold place_ok, home. cbn. rewrite bool_decide_eq_false_2 by done.
    assert (t ∈ upd_ring L (home k) l (home k)) as Hin
      by (rewrite upd_ring_eq, Hl; apply list_elem_of_here).
    destruct Hst as [->|[-> Hn]]; [by auto|]. split; [|done].
    unfold is_cur in *. cbn. by rewrite (bump_cur C k cc 1 Ec (c_cpu k)).
  - eapply bump_cpus; [done..|apply Hi|]. rewrite Hl. cbn. lia.
Qed.

(** A thread leaves its run queue. *)
Lemma inv_dequeue L T C t k cc l :
  inv None L T C → T !! t = Some k → C !! c_cpu k = Some cc → c_type k ≠ TH_IDLE →
  t :: l ≡ₚ L (home k) → off (upd_ring L (home k) l) t →
  inv (Some t) (upd_ring L (home k) l) T (<[c_cpu k := bump (-1) k cc]> C).
Proof.
  intros Hi Ht Ec Hid Hl Ho. pose proof (i_wf _ _ _ _ Hi t k Ht) as Hw.
  assert (same_but t L (upd_ring L (home k) l)) as Hs by (apply same_but_upd; auto).
  destruct Hi as [Hm Hw' Hp _ Hc Hz]. split; try done.
  - intros r' u Hr' Hu. apply (Hm r'); [done|]. destruct (decide (u = t)) as [->|Hne].
    + by destruct (Ho r' Hr').
    + by apply Hs.
  - intros u ku Hu Hne. eapply place_ok_cur; [by apply bump_cur|].
    eapply place_ok_but; [done| |by apply Hp]. congruence.
  - intros u [= <-]. eauto.
  - eapply bump_cpus; [done..|]. rewrite <- Hl. cbn. lia.
Qed.

(** The processor switches to the thread [e], which is on no list. *)
Definition set_cur (e : Z) (cc : ccore) : ccore :=
  CC (cc_count cc) (cc_u cc) (cc_k cc) e (cc_idle cc) (cc_bm cc) (cc_next cc).

Definition stopped k : Prop :=
  c_type k = TH_IDLE ∨ c_state k = S_READY ∨ c_state k = S_WAIT ∨ c_state k = S_DEAD.

Lemma place_ok_switch L C c cc e t k :
  C !! c = Some cc → t ≠ e → (cc_cur cc = t → stopped k) → place_ok L C t k →
  place_ok L (<[c := set_cur e cc]> C) t k.
Proof.
  intros Ec Hne Hst. unfold place_ok. case_bool_decide as Hid; [done|].
  assert (is_cur (<[c := set_cur e cc]> C) t k → is_cur C t k) as H1.
  { unfold is_cur. destruct (decide (c_cpu k = c)) as [->|Hd].
    - rewrite lookup_insert_eq. cbn. congruence.
    - by rewrite lookup_insert_ne. }
  assert (is_cur C t k → ¬ stopped k → is_cur (<[c := set_cur e cc]> C) t k) as H2.
  { unfold is_cur. intros Hcur Hns. destruct (decide (c_cpu k = c)) as [E|Hd]; [rewrite E in *|].
    - destruct Hns. apply Hst. rewrite Ec in Hcur. cbn in Hcur. congruence.
    - by rewrite lookup_insert_ne. }
  unfold stopped in H2. destruct (c_state k) eqn:Es; naive_solver.
Qed.

Lemma cpus_switch L T T' C c cc e :
  (∀ c, 0 ≤ c < nc → ∃ cc, C !! c = Some cc ∧ cpu_ok L T c cc) → C !! c = Some cc →
  (∃ k, T' !! e = Some k ∧ c_cpu k = c) →
  (∀ t k, T !! t = Some k → ∃ k', T' !! t = Some k' ∧ c_cpu k' = c_cpu k ∧ c_type k' = c_type k) →
  ∀ c', 0 ≤ c' < nc → ∃ cc', <[c := set_cur e cc]> C !! c' = Some cc' ∧ cpu_ok L T' c' cc'.
Proof.
  intros Hc Ec He HT c' Hr. destruct (Hc c' Hr) as (cc1 & E1 & Hok).
  apply (cpu_ok_but L L T T') in Hok; [|done..].
  destruct (decide (c' = c)) as [->|Hd].
  - rewrite lookup_insert_eq. assert (cc1 = cc) as -> by congruence. eexists. split; [done|].
    unfold cpu_ok in *. cbn. naive_solver.
  - rewrite lookup_insert_ne by done. eauto.
Qed.

Lemma inv_switch_to L T C e k k' cc :
  inv (Some e) L T C → T !! e = Some k → C !! c_cpu k = Some cc →
  k' = TC S_KERNEL (c_type k) (c_cpu k) None (c_ltid k) ∨
    k' = TC S_USR (c_type k) (c_cpu k) None (c_ltid k) →
  (∀ k0, cc_cur cc ≠ e → T !! cc_cur cc = Some k0 → stopped k0) →
  inv None L (<[e := k']> T) (<[c_cpu k := set_cur e cc]> C).
Proof.
  intros Hi He Ec Hk' Hst. pose proof (i_wf _ _ _ _ Hi e k He) as Hw.
  destruct (i_x _ _ _ _ Hi e eq_refl) as (Ho & k0 & He0 & Hid). simplify_eq.
  assert (c_cpu k' = c_cpu k ∧ c_type k' = c_type k ∧ wf k') as (Ecp & Ety & Hw')
    by (destruct Hk' as [-> | ->]; done).
  destruct Hi as [Hm Hwf Hp Hx Hc Hz]. split; [| | |done| |by rewrite map_size_insert_Some].
  - intros r u Hr Hu. destruct (decide (u = e)) as [->|Hne];
      [rewrite lookup_insert_eq; eauto|]. rewrite lookup_insert_ne by done. by apply (Hm r).
  - intros u ku. rewrite lookup_insert_Some. intros [[<- <-]|[_ Hu]]; eauto.
  - intros u ku. rewrite lookup_insert_Some. intros [[<- <-]|[Hne Hu]] _.
    + assert (is_cur (<[c_cpu k:=set_cur e cc]> C) e k') as Hcur.
      { unfold is_cur. rewrite Ecp, lookup_insert_eq. done. }
      unfold place_ok. rewrite Ety, bool_decide_eq_false_2 by done.
      destruct Hk' as [-> | ->]; cbn; auto.
    + eapply place_ok_switch; [done..| |].
      * intros Hcu. apply Hst; congruence.
      * apply Hp; [done|]. congruence.
  - eapply cpus_switch; [done..| |by eapply insert_core].
    exists k'. by rewrite lookup_insert_eq.
Qed.

Lemma inv_switch_idle L T C c cc :
  inv None L T C → 0 ≤ c < nc → C !! c = Some cc →
  (∀ k0, T !! cc_cur cc = Some k0 → stopped k0) →
  inv None L T (<[c := set_cur (cc_idle cc) cc]> C).
Proof.
  intros [Hm Hw Hp _ Hc Hz] Hcr Ec Hst. split; try done.
  - intros t k Ht _. destruct (decide (t = cc_idle cc)) as [->|Hne].
    + destruct (Hc c Hcr) as (cc1 & E1 & _ & _ & _ & _ & _ & k1 & Hk1 & _ & Hi1). simplify_eq.
      pose proof (Hp _ k Ht ltac:(done)) as Ho. unfold place_ok in *.
      by rewrite bool_decide_eq_true_2 in Ho |- *.
    + eapply place_ok_switch; [done..| |by apply Hp]. intros <-. by apply Hst.
  - eapply cpus_switch; [done..| |eauto].
    destruct (Hc c Hcr) as (cc1 & E1 & _ & _ & _ & _ & _ & k1 & Hk1 & Hk2 & _). simplify_eq. eauto.
Qed.
End inv.
