(* ===== verification/SchedSafe.v ===== *)
(** * Safety of the scheduler

    The effect of every operation of [Sched] on the invariant of [SchedSpec], and the theorems
    on whole executions: processors that run threads which yield, wait, sleep, wake one another,
    are created and exit. *)

From stdpp Require Import relations.
From S2P Require Import Prelude Clist Bits Sched SchedSpec.

Open Scope Z_scope.

Section ops.
Context (nc nr : Z) (Hnc : 0 < nc) (Hnr : 3 * nc ≤ nr).

Notation tmap := (gmap Z tcore).
Notation cmap := (gmap Z ccore).
Implicit Types (L : Z → list Z) (T : tmap) (C : cmap) (s : kernel) (k : tcore).
Notation off := (off nr).
Notation abs := (abs nr).
Notation inv := (inv nc nr).
Notation wf := (wf nc).

(** Changes of fields, seen on the invariant's view. *)
Lemma runs_mod_thread s L T C t k f g Q :
  abs s L T C → T !! t = Some k → (∀ th, core (f th) = g (core th)) →
  (∀ s', abs s' L (<[t := g k]> T) C → Q tt s') → runs s (put_thread t f) Q.
Proof.
  intros Ha Ht Hf HQ. eapply runs_put_thread; [done..|]. intros th s' E Ha'.
  apply HQ. by rewrite Hf, E in Ha'.
Qed.

Lemma runs_mod_cpu s L T C c cc f g Q :
  abs s L T C → C !! c = Some cc → (∀ cp, cpu_core (f cp) = g (cpu_core cp)) →
  (∀ s', abs s' L T (<[c := g cc]> C) → Q tt s') → runs s (put_cpu c f) Q.
Proof.
  intros Ha Ht Hf HQ. eapply runs_put_cpu; [done..|]. intros cp s' E Ha'.
  apply HQ. by rewrite Hf, E in Ha'.
Qed.

Definition k_state (st : thread_state_t) k : tcore :=
  TC st (c_type k) (c_cpu k) (c_queue k) (c_ltid k).
Definition k_queue (q : option Z) k : tcore :=
  TC (c_state k) (c_type k) (c_cpu k) q (c_ltid k).
Definition cc_set_count (n : Z) (cc : ccore) : ccore :=
  CC n (cc_u cc) (cc_k cc) (cc_cur cc) (cc_idle cc) (cc_bm cc) (cc_next cc).
Definition cc_add_u (n : Z) (cc : ccore) : ccore :=
  CC (cc_count cc) (u16 (cc_u cc + n)) (cc_k cc) (cc_cur cc) (cc_idle cc) (cc_bm cc) (cc_next cc).
Definition cc_add_k (n : Z) (cc : ccore) : ccore :=
  CC (cc_count cc) (cc_u cc) (u16 (cc_k cc + n)) (cc_cur cc) (cc_idle cc) (cc_bm cc) (cc_next cc).

Lemma cpu_of X L T C t k :
  inv X L T C → T !! t = Some k → wf k ∧ ∃ cc, C !! c_cpu k = Some cc ∧ cpu_ok L T (c_cpu k) cc.
Proof.
  intros Hi Ht. pose proof (i_wf _ _ _ _ _ _ Hi t k Ht) as Hw. split; [done|].
  apply (i_cpu _ _ _ _ _ _ Hi). apply Hw.
Qed.

Lemma rr_wakeup_ok s L T C this t k :
  abs s L T C → inv (Some t) L T C → T !! t = Some k → c_queue k = None → is_Some (T !! this) →
  runs s (rr_wakeup this t) (λ _ s', ∃ cc, C !! c_cpu k = Some cc ∧
    let L' := upd_ring L (home k) (t :: L (home k)) in
    let T' := <[t := k_state S_READY k]> T in
    let C' := <[c_cpu k := bump 1 k cc]> C in
    abs s' L' T' C' ∧ inv None L' T' C').
Proof.
  intros Ha Hi Ht Hq Hth. destruct (cpu_of _ _ _ _ _ _ Hi Ht) as (Hw & cc & Ec & _).
  assert (inv None (upd_ring L (home k) (t :: L (home k))) (<[t := k_state S_READY k]> T)
    (<[c_cpu k := bump 1 k cc]> C)) as Hinv.
  { unfold k_state. rewrite Hq. by apply inv_enqueue; auto. }
  destruct (i_x _ _ _ _ _ _ Hi t eq_refl) as [Ho _].
  pose proof (home_range nc nr Hnr k Hw) as Hh.
  unfold rr_wakeup. apply runs_bind. eapply runs_get_thread; [done..|]. intros th Eth.
  assert (lcpu th = c_cpu k ∧ type th = c_type k) as [-> ->] by (by rewrite <- Eth).
  apply runs_bind. eapply (runs_mod_thread _ _ _ _ _ _ _ (k_state S_READY)); [done..|].
  intros s1 Ha1. apply runs_bind. eapply runs_get_cpu; [done..|]. intros cp Ecp.
  assert (count cp = cc_count cc) as -> by (by rewrite <- Ecp).
  apply runs_bind. eapply (runs_mod_cpu _ _ _ _ _ _ _ (cc_set_count (u32 (cc_count cc + 1)))); [done..|]. intros s2 Ha2.
  assert (is_Some (<[t := k_state S_READY k]> T !! t)) as Hts by (rewrite lookup_insert_eq; eauto).
  unfold home in *. case_bool_decide as Hk.
  - apply runs_bind.
    eapply (runs_mod_cpu _ _ _ _ _ _ _ (cc_add_k 1)); [done|apply lookup_insert_eq|done|].
    intros s3 Ha3. rewrite insert_insert_eq in Ha3.
    apply runs_bind. eapply runs_add_first; [done..|]. intros s4 Ha4.
    apply runs_bind. eapply runs_touch; [done|by apply is_Some_insert|done|]. intros s5 Ha5.
    eapply runs_touch; [done|by apply is_Some_insert|done|]. intros s6 Ha6.
    exists cc. split; [done|]. split; [|done]. unfold bump. rewrite bool_decide_eq_true_2 by done.
    exact Ha6.
  - apply runs_bind.
    eapply runs_touch_cpu; [done|rewrite lookup_insert_eq; eauto|done|].
    intros s3 Ha3. apply runs_bind.
    eapply (runs_mod_cpu _ _ _ _ _ _ _ (cc_add_u 1)); [done|apply lookup_insert_eq|done|].
    intros s4 Ha4. rewrite insert_insert_eq in Ha4.
    eapply runs_add_first; [done..|]. intros s5 Ha5.
    exists cc. split; [done|]. split; [|done]. unfold bump. rewrite bool_decide_eq_false_2 by done.
    exact Ha5.
Qed.

(** The threads on a run queue are runnable threads of its processor. *)
Lemma member_home s L T C C0 c r t :
  abs s L T C0 → inv None L T C → 0 ≤ c < nc → r = kq c ∨ r = rq c → t ∈ L r →
  ∃ k, T !! t = Some k ∧ c_cpu k = c ∧ home k = r ∧ c_type k ≠ TH_IDLE ∧ c_queue k = None ∧
    (c_state k = S_READY ∨ c_state k = S_CREATE).
Proof.
  intros Ha Hi Hc Hr Hin. assert (0 ≤ r < 3 * nc) as Hr3 by (unfold kq, rq in *; lia).
  destruct (i_mem _ _ _ _ _ _ Hi r t ltac:(lia) Hin) as [k Ht]. exists k.
  pose proof (i_wf _ _ _ _ _ _ Hi t k Ht) as Hw.
  pose proof (i_place _ _ _ _ _ _ Hi t k Ht ltac:(done)) as Hp.
  assert (∀ r', 0 ≤ r' < nr → t ∈ L r' → r' = r) as Hd.
  { intros r' Hr' Hin'. eapply abs_dis; [exact Ha|done|lia|done|done]. }
  assert (¬ off L t) as Hno by (intros Ho; by apply (Ho r ltac:(lia))).
  assert (¬ waiting nc nr L t k) as Hnw.
  { intros (q & Hq & _ & Hin'). apply Hd in Hin'; lia. }
  assert (t ∉ L (sq (c_cpu k))) as Hns.
  { destruct Hw as [Hw _]. intros Hin'. apply Hd in Hin'; unfold kq, rq, sq in *; lia. }
  assert (t ∈ L (home k) → home k = r) as Hh by (apply Hd; by apply (home_range nc)).
  assert (home k = r → c_cpu k = c) as Hcpu.
  { unfold home, kq, rq in *. case_bool_decide; lia. }
  unfold place_ok in Hp. case_bool_decide; [by destruct Hp as (_ & ? & _)|].
  split; [done|]. destruct (c_state k); naive_solver.
Qed.

(** The run queues of a processor hold at most all the threads. *)
Lemma queue_bound s L T C c :
  abs s L T C → inv None L T C → 0 ≤ c < nc →
  0 ≤ Z.of_nat (length (L (kq c))) + Z.of_nat (length (L (rq c))) < wsize.
Proof.
  intros Ha Hi Hc. pose proof (i_size _ _ _ _ _ _ Hi) as Hz.
  pose proof (nodup_size (L (kq c) ++ L (rq c)) T) as Hn. rewrite length_app in Hn.
  assert (0 ≤ kq c < nr ∧ 0 ≤ rq c < nr ∧ kq c ≠ rq c) as (H1 & H2 & H3) by (unfold kq, rq; lia).
  assert (length (L (kq c)) + length (L (rq c)) ≤ size T)%nat; [|lia]. apply Hn.
  - apply NoDup_app. split; [by eapply abs_nodup|]. split; [|by eapply abs_nodup].
    intros t Hk Hr. apply H3. by eapply (abs_dis nr s L T C).
  - intros t [Ht|Ht]%elem_of_app;
      [apply (i_mem _ _ _ _ _ _ Hi (kq c))|apply (i_mem _ _ _ _ _ _ Hi (rq c))]; done.
Qed.

(** The counters of a processor, except that [count] may be out of date. *)
Definition stale (c n : Z) (cc : ccore) C : cmap := <[c := cc_set_count n cc]> C.

Lemma stale_refl c cc C : C !! c = Some cc → stale c (cc_count cc) cc C = C.
Proof. intros E. unfold stale. rewrite insert_id; [done|]. rewrite E. by destruct cc. Qed.

(** What the current thread may be when its processor chooses another one. *)
Definition may_leave k : Prop :=
  c_type k = TH_IDLE ∨ c_state k = S_READY ∨ c_state k = S_WAIT ∨ c_state k = S_DEAD ∨
  (c_state k = S_KERNEL ∧ c_queue k = None).

(** The abstract effect of the first part of [rr_elect]. *)
Definition requeues k : bool := bool_decide (c_state k = S_KERNEL ∧ c_type k ≠ TH_IDLE).

Lemma rr_requeue_ok s L T C c this k :
  abs s L T C → inv None L T C → T !! this = Some k → c_cpu k = c → may_leave k →
  runs s (rr_requeue c this) (λ n s', ∃ L' T' C' cc' n0,
    abs s' L' T' (stale c n0 cc' C') ∧ inv None L' T' C' ∧ C' !! c = Some cc' ∧
    n = cc_count cc' ∧ same_cur C C' ∧
    (if requeues k then
       T' = <[this := k_state S_READY k]> T ∧ L' = upd_ring L (home k) (L (home k) ++ [this])
     else T' = T ∧ L' = L)).
Proof.
  intros Ha Hi Ht <- Hl. destruct (cpu_of _ _ _ _ _ _ Hi Ht) as (Hw & cc & Ec & _).
  unfold rr_requeue. apply runs_bind. eapply runs_get_cpu; [done..|]. intros cp Ecp.
  assert (count cp = cc_count cc) as -> by (by rewrite <- Ecp).
  apply runs_bind. eapply runs_get_thread; [done..|]. intros th Eth.
  assert (state th = c_state k ∧ type th = c_type k) as [-> ->] by (by rewrite <- Eth).
  unfold requeues. case_bool_decide as Hrq.
  2:{ apply runs_ret. exists L, T, C, cc, (cc_count cc). by rewrite stale_refl. }
  destruct Hrq as [Hst Hid].
  assert (off L this ∧ c_queue k = None) as [Ho Hq].
  { pose proof (i_place _ _ _ _ _ _ Hi this k Ht ltac:(done)) as Hp. unfold place_ok in Hp.
    rewrite bool_decide_eq_false_2, Hst in Hp by done.
    assert (c_queue k = None) as Hq 
      by (destruct Hl as [?|[?|[?|[?|[_ ?]]]]]; congruence).
    destruct Hp as [_ [?|(q & _ & Eq & _)]]; [done|congruence]. }
  pose proof (home_range nc nr Hnr k Hw) as Hh.
  assert (inv None (upd_ring L (home k) (L (home k) ++ [this])) (<[this := k_state S_READY k]> T)
    (<[c_cpu k := bump 1 k cc]> C)) as Hinv.
  { unfold k_state. rewrite Hq. apply inv_enqueue; auto; [by eapply inv_take|].
    by rewrite Permutation_app_comm. }
  apply runs_bind. eapply (runs_mod_thread _ _ _ _ _ _ _ (k_state S_READY)); [done..|].
  intros s1 Ha1. apply runs_bind.
  assert (is_Some (<[this := k_state S_READY k]> T !! this)) as Hts
    by (rewrite lookup_insert_eq; eauto).
  assert (∀ s', abs s' (upd_ring L (home k) (L (home k) ++ [this]))
      (<[this := k_state S_READY k]> T)
      (<[c_cpu k := if bool_decide (c_type k = KTHREAD) then cc_add_k 1 cc else cc_add_u 1 cc]> C) →
    runs s' (mret (u32 (cc_count cc + 1))) (λ n s', ∃ L' T' C' cc' n0,
      abs s' L' T' (stale (c_cpu k) n0 cc' C') ∧ inv None L' T' C' ∧ C' !! c_cpu k = Some cc' ∧
      n = cc_count cc' ∧ same_cur C C' ∧ T' = <[this := k_state S_READY k]> T ∧
      L' = upd_ring L (home k) (L (home k) ++ [this]))) as Hend.
  { intros s' Ha'. apply runs_ret. eexists _, _, (<[c_cpu k := bump 1 k cc]> C), _, (cc_count cc).
    split; [|split; [exact Hinv|split; [apply lookup_insert_eq|split; [done|split; [by apply bump_cur|done]]]]].
    unfold stale. rewrite insert_insert_eq. unfold bump, cc_set_count. cbn.
    case_bool_decide; exact Ha'. }
  assert (c_type k ≠ TH_BOOT) as Hnb by apply Hw.
  destruct (decide (c_type k = PTHREAD)) as [Hpt|Hnp].
  - rewrite (bool_decide_eq_true_2 (c_type k = PTHREAD)) by done.
    rewrite (bool_decide_eq_false_2 (c_type k = KTHREAD)) in Hend by congruence.
    assert (home k = rq (c_cpu k)) as Eh
      by (unfold home; rewrite bool_decide_eq_false_2; [done|congruence]). rewrite Eh in *.
    apply runs_bind. eapply runs_add_last; [done..|]. intros s2 Ha2.
    eapply (runs_mod_cpu _ _ _ _ _ _ _ (cc_add_u 1)); [done..|]. exact Hend.
  - rewrite (bool_decide_eq_false_2 (c_type k = PTHREAD)) by done.
    assert (c_type k = KTHREAD) as Hkt by (destruct (c_type k); done).
    rewrite (bool_decide_eq_true_2 (c_type k = KTHREAD)) in Hend by done.
    assert (home k = kq (c_cpu k)) as Eh by (unfold home; by rewrite bool_decide_eq_true_2).
    rewrite Eh in *.
    apply runs_bind. eapply runs_add_last; [done..|]. intros s2 Ha2.
    eapply (runs_mod_cpu _ _ _ _ _ _ _ (cc_add_k 1)); [done..|]. exact Hend.
Qed.

(** The first thread of the kernel queue or, when it is empty, of the user queue. *)
Definition next_thread L (c e : Z) k (l : list Z) : Prop :=
  c_cpu k = c ∧ L (home k) = e :: l ∧ (L (kq c) ≠ [] → home k = kq c) ∧
  c_type k ≠ TH_IDLE ∧ c_queue k = None ∧ (c_state k = S_READY ∨ c_state k = S_CREATE).

Lemma rr_pick_end s L T C c cc e k l n :
  abs s L T (<[c := cc_set_count n (bump (-1) k cc)]> C) → inv None L T C → C !! c = Some cc →
  T !! e = Some k → next_thread L c e k l →
  runs s (on_lists (λ h, list_unlink h (list_of e));;
          put_thread e (set_quantum RR_QUANTUM);;
          put_thread e (flag_clear TH_NEED_TO_SCHED);; mret e)
    (λ e' s', e' = e ∧ abs s' (upd_ring L (home k) l) T (stale c n (bump (-1) k cc) C) ∧
      inv (Some e) (upd_ring L (home k) l) T (<[c := bump (-1) k cc]> C)).
Proof.
  intros Ha Hi Ec He (Hc & El & _ & Hid & _). pose proof (i_wf _ _ _ _ _ _ Hi e k He) as Hw.
  apply runs_bind. eapply (runs_unlink nr _ _ _ _ (home k) e [] l);
    [done|by apply (home_range nc)|done|]. intros s1 Ha1 Ho1. cbn in Ha1, Ho1.
  apply runs_bind. eapply runs_touch; [done|eauto|done|]. intros s2 Ha2.
  apply runs_bind. eapply runs_touch; [done|eauto|done|]. intros s3 Ha3.
  apply runs_ret. split; [done|]. split; [done|]. subst c. apply inv_dequeue; auto. by rewrite El.
Qed.

Lemma rr_pick_ok s L T C c cc n0 :
  abs s L T (stale c n0 cc C) → inv None L T C → 0 ≤ c < nc → C !! c = Some cc →
  0 < cc_count cc →
  runs s (rr_pick c) (λ e s', ∃ k l n1, T !! e = Some k ∧ next_thread L c e k l ∧
    abs s' (upd_ring L (home k) l) T (stale c n1 (bump (-1) k cc) C) ∧
    inv (Some e) (upd_ring L (home k) l) T (<[c := bump (-1) k cc]> C)).
Proof.
  intros Ha Hi Hc Ec Hpos. unfold stale in *.
  destruct (i_cpu _ _ _ _ _ _ Hi c Hc) as (cc1 & E1 & Hcnt & _).
  assert (cc1 = cc) as -> by congruence. rewrite Hcnt in Hpos.
  unfold rr_pick. apply runs_bind.
  eapply runs_empty; [done|unfold kq; lia|]. case_bool_decide as Hk.
  - destruct (L (rq c)) as [|e l] eqn:Er; [by rewrite Hk in Hpos|].
    destruct (member_home s L T C _ c (rq c) e Ha Hi Hc ltac:(auto)) as
      (k & He & Hkc & Hh & Hid & Hq & Hst); [rewrite Er; apply list_elem_of_here|].
    assert (c_type k ≠ KTHREAD) as Hnk.
    { intros Hkt. unfold home, kq, rq in Hh. rewrite bool_decide_eq_true_2 in Hh by done. lia. }
    apply runs_bind. apply runs_bind. eapply runs_first; [done|unfold rq; lia|done|].
    apply runs_bind. eapply (runs_mod_cpu _ _ _ _ _ _ _ (cc_add_u (-1)));
      [done|apply lookup_insert_eq|done|]. intros s1 Ha1. rewrite insert_insert_eq in Ha1.
    apply runs_bind. eapply runs_touch_cpu; [done|rewrite lookup_insert_eq; eauto|done|].
    intros s2 Ha2. apply runs_ret.
    assert (next_thread L c e k l) as Hn.
    { unfold next_thread. rewrite Hh, Er. by rewrite Hk. }
    eapply runs_mono; [eapply (rr_pick_end s2 L T C c cc e k l n0); try done|].
    + unfold cc_set_count, bump. rewrite bool_decide_eq_false_2 by done. exact Ha2.
    + intros e' s' (-> & H1 & H2). eauto 10.
  - destruct (L (kq c)) as [|e l] eqn:Er; [done|].
    destruct (member_home s L T C _ c (kq c) e Ha Hi Hc ltac:(auto)) as
      (k & He & Hkc & Hh & Hid & Hq & Hst); [rewrite Er; apply list_elem_of_here|].
    assert (c_type k = KTHREAD) as Hnk.
    { destruct (decide (c_type k = KTHREAD)) as [|Hne]; [done|].
      unfold home, kq, rq in Hh. rewrite bool_decide_eq_false_2 in Hh by done. lia. }
    apply runs_bind. apply runs_bind. eapply runs_first; [done|unfold kq; lia|done|].
    apply runs_bind. eapply (runs_mod_cpu _ _ _ _ _ _ _ (cc_add_k (-1)));
      [done|apply lookup_insert_eq|done|]. intros s1 Ha1. rewrite insert_insert_eq in Ha1.
    apply runs_ret.
    assert (next_thread L c e k l) as Hn.
    { unfold next_thread. by rewrite Hh, Er. }
    eapply runs_mono; [eapply (rr_pick_end s1 L T C c cc e k l n0); try done|].
    + unfold cc_set_count, bump. rewrite bool_decide_eq_true_2 by done. exact Ha1.
    + intros e' s' (-> & H1 & H2). eauto 10.
Qed.

Lemma cc_count_set n cc : cc_set_count (cc_count cc) (cc_set_count n cc) = cc.
Proof. by destruct cc. Qed.

(** [rr_elect]: the current thread goes back to its queue if it is still running, and the next
    thread is taken from the queues, or none when they are empty. *)
Lemma rr_elect_ok s L T C c this k :
  abs s L T C → inv None L T C → T !! this = Some k → c_cpu k = c → may_leave k →
  let T1 := if requeues k then <[this := k_state S_READY k]> T else T in
  let L1 := if requeues k then upd_ring L (home k) (L (home k) ++ [this]) else L in
  runs s (rr_elect c this) (λ found s', ∃ C', same_cur C C' ∧
    match found with
    | None => L1 (kq c) = [] ∧ L1 (rq c) = [] ∧ abs s' L1 T1 C' ∧ inv None L1 T1 C'
    | Some e => ∃ ke l, T1 !! e = Some ke ∧ next_thread L1 c e ke l ∧
        abs s' (upd_ring L1 (home ke) l) T1 C' ∧ inv (Some e) (upd_ring L1 (home ke) l) T1 C'
    end).
Proof.
  intros Ha Hi Ht Hc Hl T1 L1. unfold rr_elect. apply runs_bind.
  eapply runs_touch; [done|eauto|done|]. intros s1 Ha1.
  apply runs_bind. eapply runs_mono; [by eapply (rr_requeue_ok s1 L T C c this k)|].
  intros n s2 (L2 & T2 & C2 & cc2 & n0 & Ha2 & Hi2 & E2 & -> & Hcur & HLT).
  assert (T2 = T1 ∧ L2 = L1) as [-> ->].
  { subst T1 L1. destruct (requeues k); naive_solver. }
  assert (0 ≤ c < nc) as Hcr by (subst c; apply (i_wf _ _ _ _ _ _ Hi this k Ht)).
  destruct (i_cpu _ _ _ _ _ _ Hi2 c Hcr) as (cc3 & E3 & Hcnt & _).
  assert (cc3 = cc2) as -> by congruence.
  destruct (Z.gtb_spec (cc_count cc2) 0) as [Hpos|Hz].
  - apply runs_bind. eapply runs_mono; [by eapply (rr_pick_ok s2 L1 T1 C2 c cc2 n0); try lia|].
    intros e s3 (ke & l & n1 & He & Hn & Ha3 & Hi3).
    apply runs_bind. unfold stale in Ha3.
    eapply (runs_mod_cpu _ _ _ _ _ _ _ (cc_set_count (u32 (cc_count cc2 - 1))));
      [done|apply lookup_insert_eq|done|]. intros s4 Ha4. rewrite insert_insert_eq in Ha4.
    apply runs_ret. exists (<[c := bump (-1) ke cc2]> C2). split.
    + intros c'. rewrite <- (Hcur c'). assert (c_cpu ke = c) as <- by apply Hn.
      by apply (bump_cur C2 ke cc2 (-1)).
    + exists ke, l. split_and!; try done.
  - apply runs_bind.
    eapply (runs_mod_cpu _ _ _ _ _ _ _ (cc_set_count (cc_count cc2)));
      [done|apply lookup_insert_eq|done|]. intros s4 Ha4. unfold stale in Ha4.
    rewrite insert_insert_eq, cc_count_set, insert_id in Ha4 by done.
    apply runs_ret. exists C2. split; [done|].
    assert (L1 (kq c) = [] ∧ L1 (rq c) = []) as [-> ->]; [|done].
    pose proof (queue_bound s4 L1 T1 C2 c Ha4 Hi2 Hcr) as Hb.
    rewrite Hcnt, u32_small in Hz by lia.
    destruct (L1 (kq c)), (L1 (rq c)); cbn in Hz; try lia; done.
Qed.

(** The wait queues have not changed. *)
Definition keeps L L' : Prop := ∀ r, 3 * nc ≤ r → L' r = L r.

Lemma keeps_refl L : keeps L L.
Proof. done. Qed.

Lemma keeps_trans L1 L2 L3 : keeps L1 L2 → keeps L2 L3 → keeps L1 L3.
Proof. intros H1 H2 r Hr. by rewrite H2, H1. Qed.

Lemma keeps_upd L r l : r < 3 * nc → keeps L (upd_ring L r l).
Proof. intros Hr r' Hr'. by rewrite upd_ring_ne by lia. Qed.

Lemma sq_lt c : 0 ≤ c < nc → sq c < 3 * nc.
Proof. unfold sq. lia. Qed.

(** The threads on the list [sleep_check] of a processor. *)
Lemma member_sleep s L T C c t :
  abs s L T C → inv None L T C → 0 ≤ c < nc → t ∈ L (sq c) →
  ∃ k, T !! t = Some k ∧ c_cpu k = c ∧ c_type k ≠ TH_IDLE ∧ c_queue k = None ∧
    (c_state k = S_READY ∨ c_state k = S_WAIT).
Proof.
  intros Ha Hi Hc Hin. assert (0 ≤ sq c < 3 * nc) as Hr3 by (unfold sq in *; lia).
  destruct (i_mem _ _ _ _ _ _ Hi (sq c) t ltac:(lia) Hin) as [k Ht]. exists k.
  pose proof (i_wf _ _ _ _ _ _ Hi t k Ht) as Hw.
  pose proof (i_place _ _ _ _ _ _ Hi t k Ht ltac:(done)) as Hp.
  assert (∀ r', 0 ≤ r' < nr → t ∈ L r' → r' = sq c) as Hd.
  { intros r' Hr' Hin'. eapply abs_dis; [exact Ha|done|lia|done|done]. }
  assert (¬ off L t) as Hno by (intros Ho; by apply (Ho (sq c) ltac:(lia))).
  assert (¬ waiting nc nr L t k) as Hnw.
  { intros (q & Hq & _ & Hin'). apply Hd in Hin'; lia. }
  assert (t ∉ L (home k)) as Hns.
  { intros Hin'. apply Hd in Hin'; [|by apply (home_range nc)].
    unfold home, kq, rq, sq in *. case_bool_decide; lia. }
  assert (t ∈ L (sq (c_cpu k)) → c_cpu k = c) as Hh.
  { destruct Hw as [Hw _]. intros Hin'. apply Hd in Hin'; unfold sq in *; lia. }
  unfold place_ok in Hp. case_bool_decide; [by destruct Hp as (_ & ? & _)|].
  split; [done|]. destruct (c_state k); naive_solver.
Qed.

(** A thread on a list that is not a run queue is woken up: unlink, mark and [sched_wakeup]. *)
Lemma wake_member s L T C this t k k1 r l1 l2 f :
  abs s L T C → inv None L T C → T !! t = Some k → c_type k ≠ TH_IDLE → is_Some (T !! this) →
  0 ≤ r < nr → (∀ c, 0 ≤ c < nc → r ≠ kq c ∧ r ≠ rq c) → L r = l1 ++ t :: l2 →
  (∀ th, core th = k → core (f th) = k1) → c_type k1 = c_type k → c_cpu k1 = c_cpu k →
  c_ltid k1 = c_ltid k → c_queue k1 = None →
  runs s (on_lists (λ h, list_unlink h (list_of t));; put_thread t f;; sched_wakeup this t)
    (λ _ s', ∃ C', same_cur C C' ∧
      let L1 := upd_ring L r (l1 ++ l2) in
      let L' := upd_ring L1 (home k) (t :: L1 (home k)) in
      let T' := <[t := k_state S_READY k1]> T in
      abs s' L' T' C' ∧ inv None L' T' C').
Proof.
  intros Ha Hi Ht Hid Hth Hr Hnr' El Hf Ety Ecp Elt Eq. apply runs_bind.
  eapply runs_unlink; [done..|]. intros s1 Ha1 Ho1.
  assert (inv (Some t) (upd_ring L r (l1 ++ l2)) T C) as Hi1.
  { apply inv_unwait; eauto. rewrite El. by rewrite Permutation_middle. }
  apply runs_bind. eapply runs_put_thread; [done..|]. intros th s2 Eth Ha2.
  rewrite (Hf th Eth) in Ha2.
  assert (inv (Some t) (upd_ring L r (l1 ++ l2)) (<[t := k1]> T) C) as Hi2.
  { by eapply inv_x_set. }
  eapply runs_mono; [eapply (rr_wakeup_ok s2 _ _ C this t k1 Ha2 Hi2)|].
  - apply lookup_insert_eq.
  - done.
  - by apply is_Some_insert.
  - intros [] s3 (cc & Ec & Ha3 & Hi3). rewrite insert_insert_eq in Ha3, Hi3.
    exists (<[c_cpu k1 := bump 1 k1 cc]> C). split; [by apply bump_cur|].
    assert (home k1 = home k) as Eh by (unfold home; by rewrite Ety, Ecp).
    rewrite Eh in *. done.
Qed.

Lemma sleep_body_ready s L T C c this t k :
  abs s L T C → inv None L T C → 0 ≤ c < nc → is_Some (T !! this) → t ∈ L (sq c) →
  T !! t = Some k → c_state k = S_READY →
  ∃ s', check_body this (Obj t) s = Some (s', true) ∧
    ∃ L' C', abs s' L' T C' ∧ inv None L' T C' ∧ same_cur C C' ∧ keeps L L'.
Proof.
  intros Ha Hi Hc Hth Hin Ht Hst.
  destruct (member_sleep s L T C c t Ha Hi Hc Hin) as (k' & Ht' & Hkc & Hid & Hq & _).
  assert (k' = k) as -> by congruence.
  apply list_elem_of_split in Hin as (l1 & l2 & El).
  assert (0 ≤ sq c < nr) as Hr by (unfold sq; lia).
  enough (runs s (th ← get_thread t;
    if bool_decide (state th = S_READY) then
      on_lists (λ h, list_unlink h (list_of t));; put_thread t (set_state S_WAIT);;
      sched_wakeup this t;; mret true
    else mret false) (λ b s', b = true ∧ ∃ L' C', abs s' L' T C' ∧ inv None L' T C' ∧ same_cur C C' ∧ keeps L L'))
    as (s' & b & E & -> & HP).
  { exists s'. split; [|done]. unfold check_body. by rewrite E. }
  apply runs_bind. eapply runs_get_thread; [done..|]. intros th Eth.
  rewrite bool_decide_eq_true_2 by (by rewrite <- Eth in Hst).
  assert (runs s (on_lists (λ h, list_unlink h (list_of t));; put_thread t (set_state S_WAIT);;
      sched_wakeup this t) (λ _ s', ∃ L' C', abs s' L' T C' ∧ inv None L' T C' ∧ same_cur C C' ∧ keeps L L')) as
    (s' & [] & E & HP).
  { eapply runs_mono; [eapply (wake_member s L T C this t k (k_state S_WAIT k) (sq c)); try done|].
    - intros c' _. unfold sq, kq, rq. lia.
    - intros th' <-. done.
    - intros [] s' (C' & Hcur & Ha' & Hi').
      assert (<[t := k_state S_READY (k_state S_WAIT k)]> T = T) as ET.
      { apply insert_id. rewrite Ht. destruct k. cbn in Hst. by subst. }
      rewrite ET in Ha', Hi'. eexists _, C'. split; [exact Ha'|]. split; [exact Hi'|].
      split; [done|]. eapply keeps_trans; [by apply keeps_upd, (sq_lt c)|].
      apply keeps_upd, (home_lt nc). exact (i_wf _ _ _ _ _ _ Hi t k Ht). }
  exists s', true. split; [|done].
  unfold mbind, M_bind in E |- *.
  destruct (on_lists _ s) as [[s1 []]|]; [|done].
  destruct (put_thread _ _ s1) as [[s2 []]|]; [|done]. by rewrite E.
Qed.

Lemma sleep_body_wait s L T C this t k :
  abs s L T C → T !! t = Some k → c_state k ≠ S_READY →
  check_body this (Obj t) s = Some (s, false).
Proof.
  intros Ha Ht Hst.
  enough (runs s (th ← get_thread t;
    if bool_decide (state th = S_READY) then
      on_lists (λ h, list_unlink h (list_of t));; put_thread t (set_state S_WAIT);;
      sched_wakeup this t;; mret true
    else mret false) (λ b s', b = false ∧ s' = s)) as (s' & b & E & -> & ->).
  { unfold check_body. by rewrite E. }
  apply runs_bind. eapply runs_get_thread; [done..|]. intros th Eth.
  rewrite bool_decide_eq_false_2; [by apply runs_ret|]. by rewrite <- Eth in Hst.
Qed.

(** [check_sleeping] moves at most one thread from [sleep_check] to its run queue. *)
Lemma check_sleeping_ok s L T C c this :
  abs s L T C → inv None L T C → 0 ≤ c < nc → is_Some (T !! this) →
  runs s (check_sleeping c this)
    (λ _ s', ∃ L' C', abs s' L' T C' ∧ inv None L' T C' ∧ same_cur C C' ∧
      keeps L L' ∧ (L (sq c) = [] → L' = L)).
Proof.
  intros Ha Hi Hc Hth. assert (0 ≤ sq c < nr) as Hr by (unfold sq; lia).
  pose proof (rings_list _ _ _ (abs_rings _ _ _ _ _ Ha) (sq c) Hr) as Hl.
  set (P := λ n : lnode, match n with
    | Obj t => bool_decide (c_state <$> T !! t = Some S_READY) | Root _ => false end).
  set (found := λ n : lnode, default s (fst <$> check_body this n s)).
  assert (Hb : ∀ n, n ∈ Obj <$> L (sq c) →
    check_body this n s = Some (if P n then (found n, true) else (s, false))).
  { intros n (t & -> & Hin)%list_elem_of_fmap.
    destruct (member_sleep s L T C c t Ha Hi Hc Hin) as (k & Ht & _). subst P found. cbn [check_body].
    rewrite Ht. case_bool_decide as Hs; cbn in Hs.
    - destruct (sleep_body_ready s L T C c this t k) as (s' & E & _); try done; [congruence|].
      unfold check_body in *. by rewrite E.
    - apply (sleep_body_wait s L T C this t k Ha Ht). congruence. }
  pose proof (list_foreach_search lists (check_body this) (Root (sq c)) P found _ s Hl Hb) as E.
  assert (length (Obj <$> L (sq c)) ≤ size (threads s))%nat as Hf.
  { rewrite length_fmap. apply nodup_size; [by eapply abs_nodup|].
    intros t Hin. destruct (member_sleep s L T C c t Ha Hi Hc Hin) as (k & Ht & _).
    rewrite <- (abs_threads _ _ _ _ _ Ha), lookup_fmap in Ht. destruct (threads s !! t); [eauto|done]. }
  unfold runs, check_sleeping, root_of.
  rewrite (list_foreach_fuel _ _ _ _ _ _ _ E) by lia. cbn [mbind option_bind].
  eexists _, _. split; [done|].
  destruct (list_find P (Obj <$> L (sq c))) as [[i n]|] eqn:Ef; [|by exists L, C].
  apply list_find_Some in Ef as (Hin & HP & _).
  apply list_elem_of_lookup_2, list_elem_of_fmap in Hin as (t & -> & Hin).
  destruct (member_sleep s L T C c t Ha Hi Hc Hin) as (k & Ht & _).
  subst P found. cbn [check_body] in HP |- *. rewrite Ht in HP. apply Is_true_true, bool_decide_eq_true in HP.
  destruct (sleep_body_ready s L T C c this t k) as (s' & Es & HL); try done; [by injection HP|].
  unfold check_body in Es. rewrite Es. destruct HL as (L' & C' & H1 & H2 & H3 & H4).
  exists L', C'. split_and!; try done. intros E0. rewrite E0 in Hin. by apply elem_of_nil in Hin.
Qed.

Lemma runs_event s L T C t Q :
  abs s L T C → (∀ s', abs s' L T C → Q tt s') → runs s (event_send t) Q.
Proof.
  intros [H1 H2 H3 H4] HQ. eexists _, _. split; [done|]. apply HQ. by split.
Qed.

Lemma runs_when s (b : bool) m (Q : unit → kernel → Prop) :
  (b = true → runs s m Q) → (b = false → Q tt s) → runs s (when b m) Q.
Proof. intros H1 H2. unfold when. destruct b; [by apply H1|]. by apply runs_ret, H2. Qed.

(** The context switch to a thread taken from a run queue. *)
Lemma switch_to_ok s L T C c e k cc :
  abs s L T C → inv (Some e) L T C → T !! e = Some k → c_cpu k = c → c_queue k = None →
  C !! c = Some cc → (∀ k0, cc_cur cc ≠ e → T !! cc_cur cc = Some k0 → stopped k0) →
  runs s (switch_to c e) (λ _ s', ∃ st, (st = S_KERNEL ∨ st = S_USR) ∧
    let T' := <[e := k_state st k]> T in
    let C' := <[c := set_cur e cc]> C in
    abs s' L T' C' ∧ inv None L T' C').
Proof.
  intros Ha Hi He <- Hq Ec Hst.
  assert (∀ st, st = S_KERNEL ∨ st = S_USR →
    inv None L (<[e := k_state st k]> T) (<[c_cpu k := set_cur e cc]> C)) as Hinv.
  { intros st Hs. unfold k_state. rewrite Hq. apply inv_switch_to; auto. naive_solver. }
  unfold switch_to. apply runs_bind. eapply runs_get_thread; [done..|]. intros th Eth.
  assert (state th = c_state k ∧ type th = c_type k) as [-> ->] by (by rewrite <- Eth).
  apply runs_bind. case_bool_decide as Hcr.
  - eapply (runs_mod_thread _ _ _ _ _ _ _
      (k_state (if bool_decide (c_type k = PTHREAD) then S_USR else S_KERNEL))); [done..|].
    intros s1 Ha1. eapply (runs_mod_cpu _ _ _ _ _ _ _ (set_cur e)); [done..|]. intros s2 Ha2.
    eexists. split; [|split; [exact Ha2|apply Hinv]]; case_bool_decide; auto.
  - apply runs_bind. eapply runs_touch; [done|eauto|done|]. intros s0 Ha0.
    eapply (runs_mod_thread _ _ _ _ _ _ _ (k_state S_KERNEL)); [done..|].
    intros s1 Ha1. eapply (runs_mod_cpu _ _ _ _ _ _ _ (set_cur e)); [done..|]. intros s2 Ha2.
    exists S_KERNEL. split; [by left|]. split; [done|]. apply Hinv. by left.
Qed.

(** The context switch to the idle thread. *)
Lemma switch_idle_ok s L T C c cc :
  abs s L T C → inv None L T C → 0 ≤ c < nc → C !! c = Some cc →
  (∀ k0, T !! cc_cur cc = Some k0 → stopped k0) →
  runs s (switch_to c (cc_idle cc)) (λ _ s',
    let C' := <[c := set_cur (cc_idle cc) cc]> C in
    abs s' L T C' ∧ inv None L T C' ∧ ∃ k, T !! cc_idle cc = Some k ∧ c_state k = S_KERNEL).
Proof.
  intros Ha Hi Hc Ec Hst.
  destruct (i_cpu _ _ _ _ _ _ Hi c Hc) as (cc1 & E1 & _ & _ & _ & _ & _ & k & Hk & _ & Hid).
  assert (cc1 = cc) as -> by congruence.
  pose proof (i_place _ _ _ _ _ _ Hi _ k Hk ltac:(done)) as Hp. unfold place_ok in Hp.
  rewrite bool_decide_eq_true_2 in Hp by done. destruct Hp as (Hks & _).
  unfold switch_to. apply runs_bind. eapply runs_get_thread; [done..|]. intros th Eth.
  assert (state th = c_state k) as -> by (by rewrite <- Eth).
  rewrite bool_decide_eq_false_2 by congruence.
  apply runs_bind. apply runs_bind. eapply runs_touch; [done|eauto|done|]. intros s0 Ha0.
  eapply (runs_mod_thread _ _ _ _ _ _ _ (k_state S_KERNEL)); [done..|]. intros s1 Ha1.
  rewrite (insert_id T) in Ha1 by (rewrite Hk; destruct k; cbn in Hks; by subst).
  eapply (runs_mod_cpu _ _ _ _ _ _ _ (set_cur (cc_idle cc))); [done..|]. intros s2 Ha2.
  split; [done|]. split; [by apply inv_switch_idle|]. eauto.
Qed.

(** Nothing but processor [c] and its threads has changed, and it runs a thread. *)
Definition rescheduled (c : Z) T C T' C' : Prop :=
  (∀ c', c' ≠ c → cc_cur <$> C' !! c' = cc_cur <$> C !! c') ∧
  (∀ t k, T !! t = Some k → c_cpu k ≠ c → T' !! t = Some k) ∧
  ∃ e k, cc_cur <$> C' !! c = Some e ∧ T' !! e = Some k ∧
    (c_state k = S_KERNEL ∨ c_state k = S_USR).

Lemma stopped_after this k T k0 :
  T !! this = Some k → may_leave k →
  (if requeues k then <[this := k_state S_READY k]> T else T) !! this = Some k0 → stopped k0.
Proof.
  intros Ht Hl E. unfold requeues in E. case_bool_decide as Hr.
  - rewrite lookup_insert_eq in E. injection E as <-. right; left. done.
  - assert (k0 = k) as -> by congruence. unfold may_leave, stopped in *.
    destruct Hl as [?|[?|[?|[?|[? _]]]]]; auto. left.
    destruct (decide (c_type k = TH_IDLE)) as [|Hne]; [done|]. by destruct Hr.
Qed.

(** The end of [schedule] when a thread was elected. *)
Lemma schedule_switch s L T C c this e ke cc T0 C0 :
  abs s L T C → inv (Some e) L T C → T !! e = Some ke → c_cpu ke = c → c_queue ke = None →
  C !! c = Some cc → cc_cur cc = this → (∀ k0, T !! this = Some k0 → stopped k0) →
  same_cur C0 C → (∀ t k, T0 !! t = Some k → c_cpu k ≠ c → T !! t = Some k) →
  runs s (if bool_decide (e ≠ this) then switch_to c e else put_thread this (set_state S_KERNEL))
    (λ _ s', ∃ T' C', abs s' L T' C' ∧ inv None L T' C' ∧ rescheduled c T0 C0 T' C' ∧
      cc_cur <$> C' !! c = Some e).
Proof.
  intros Ha Hi He Hkc Hq Ec Ecur Hstop Hcur Hfr.
  assert (∀ st, st = S_KERNEL ∨ st = S_USR →
    rescheduled c T0 C0 (<[e := k_state st ke]> T) (<[c := set_cur e cc]> C) ∧
    cc_cur <$> <[c := set_cur e cc]> C !! c = Some e) as Hres.
  { intros st Hst. split; [|by rewrite lookup_insert_eq]. split; [|split].
    - intros c' Hne. rewrite lookup_insert_ne by done. apply Hcur.
    - intros t k Ht Hne. rewrite lookup_insert_ne; [by apply Hfr|].
      intros ->. apply Hne. rewrite (Hfr t k Ht Hne) in He. congruence.
    - exists e, (k_state st ke). by rewrite !lookup_insert_eq. }
  case_bool_decide as Hne.
  - eapply runs_mono; [eapply (switch_to_ok s L T C c e ke cc); try done|].
    + intros k0 _ Hk0. rewrite Ecur in Hk0. by apply Hstop.
    + intros [] s' (st & Hst & Ha' & Hi'). eauto 10.
  - assert (e = this) as -> by (by destruct (decide (e = this))).
    eapply (runs_mod_thread _ _ _ _ _ _ _ (k_state S_KERNEL)); [done..|]. intros s' Ha'.
    assert (inv None L (<[this := k_state S_KERNEL ke]> T) (<[c := set_cur this cc]> C)) as Hi'.
    { unfold k_state. rewrite Hq. subst c. apply inv_switch_to; auto. by rewrite Ecur. }
    specialize (Hres S_KERNEL ltac:(auto)). rewrite (insert_id C) in Hi', Hres
      by (rewrite Ec; destruct cc; cbn in Ecur; by subst).
    by eexists _, _.
Qed.

(** The end of [schedule] when the queues are empty. *)
Lemma schedule_idle s L T C c this cc T0 C0 :
  abs s L T C → inv None L T C → 0 ≤ c < nc →
  C !! c = Some cc → cc_cur cc = this → (∀ k0, T !! this = Some k0 → stopped k0) →
  same_cur C0 C → (∀ t k, T0 !! t = Some k → c_cpu k ≠ c → T !! t = Some k) →
  runs s (if bool_decide (cc_idle cc ≠ this) then switch_to c (cc_idle cc)
          else put_thread this (set_state S_KERNEL))
    (λ _ s', ∃ T' C', abs s' L T' C' ∧ inv None L T' C' ∧ rescheduled c T0 C0 T' C' ∧
      cc_cur <$> C' !! c = Some (cc_idle cc)).
Proof.
  intros Ha Hi Hcr Ec Ecur Hstop Hcur Hfr.
  assert (∀ k, T !! cc_idle cc = Some k → c_state k = S_KERNEL →
    rescheduled c T0 C0 T (<[c := set_cur (cc_idle cc) cc]> C) ∧
    cc_cur <$> <[c := set_cur (cc_idle cc) cc]> C !! c = Some (cc_idle cc)) as Hres.
  { intros k Hk Hst. split; [|by rewrite lookup_insert_eq]. split; [|split; [done|]].
    - intros c' Hne. rewrite lookup_insert_ne by done. apply Hcur.
    - exists (cc_idle cc), k. rewrite lookup_insert_eq. auto. }
  case_bool_decide as Hne.
  - eapply runs_mono; [eapply (switch_idle_ok s L T C c cc); try done; by rewrite Ecur|].
    intros [] s' (Ha' & Hi' & k & Hk & Hst). eauto 10.
  - assert (cc_idle cc = this) as Eid by (by destruct (decide (cc_idle cc = this))).
    destruct (i_cpu _ _ _ _ _ _ Hi c Hcr) as (cc1 & E1 & _ & _ & _ & _ & _ & k & Hk & _ & Hid).
    assert (cc1 = cc) as -> by congruence.
    pose proof (i_place _ _ _ _ _ _ Hi _ k Hk ltac:(done)) as Hp. unfold place_ok in Hp.
    rewrite bool_decide_eq_true_2 in Hp by done. destruct Hp as (Hks & _).
    specialize (Hres k Hk Hks). rewrite Eid in *.
    eapply (runs_mod_thread _ _ _ _ _ _ _ (k_state S_KERNEL)); [done..|]. intros s' Ha'.
    rewrite (insert_id T) in Ha' by (rewrite Hk; destruct k; cbn in Hks; by subst).
    rewrite (insert_id C) in Hres by (rewrite Ec; destruct cc; cbn in Ecur; by subst).
    by eexists _, _.
Qed.

(** The queues before the choice: a thread that is still running goes to the end of its queue. *)
Definition with_this L (this : Z) k : Z → list Z :=
  if requeues k then upd_ring L (home k) (L (home k) ++ [this]) else L.

(** The choice: the first kernel thread, or else the first user thread, or else the idle one. *)
Definition chosen (c idle : Z) L L' (cur : option Z) : Prop :=
  match L (kq c), L (rq c) with
  | e :: l, _ => cur = Some e ∧ L' = upd_ring L (kq c) l
  | [], e :: l => cur = Some e ∧ L' = upd_ring L (rq c) l
  | [], [] => cur = Some idle ∧ L' = L
  end.

Lemma next_thread_chosen L c e k l idle :
  next_thread L c e k l → chosen c idle L (upd_ring L (home k) l) (Some e).
Proof.
  intros (<- & El & Hk & _). unfold chosen.
  destruct (L (kq (c_cpu k))) as [|e1 l1] eqn:E1.
  - assert (home k = rq (c_cpu k)) as Eh.
    { unfold home in *. case_bool_decide; [congruence|done]. }
    rewrite Eh in *. by rewrite El.
  - rewrite Hk in * by done. split; congruence.
Qed.

Lemma with_this_keeps T C L0 L this k :
  inv None L0 T C → T !! this = Some k → keeps L (with_this L this k).
Proof.
  intros Hi Ht. unfold with_this. destruct (requeues k); [|done].
  apply keeps_upd, (home_lt nc). exact (i_wf _ _ _ _ _ _ Hi this k Ht).
Qed.

Lemma schedule_spec s L T C c this k :
  abs s L T C → inv None L T C → T !! this = Some k → c_cpu k = c → is_cur C this k →
  may_leave k →
  runs s (schedule c this) (λ _ s', ∃ L' T' C',
    abs s' L' T' C' ∧ inv None L' T' C' ∧ rescheduled c T C T' C' ∧ keeps L L' ∧
    (L (sq c) = [] → ∃ idle, chosen c idle (with_this L this k) L' (cc_cur <$> C' !! c))).
Proof.
  intros Ha Hi Ht Hc Hcur Hl. unfold is_cur in Hcur. rewrite Hc in Hcur.
  assert (0 ≤ c < nc) as Hcr by (subst c; apply (i_wf _ _ _ _ _ _ Hi this k Ht)).
  unfold schedule. apply runs_bind.
  eapply runs_mono; [eapply (check_sleeping_ok s L T C c this); eauto|].
  intros [] s1 (L1 & C1 & Ha1 & Hi1 & Hcur1 & Hk1 & HL1).
  assert (keeps L (with_this L1 this k)) as Hkw 
    by (eapply keeps_trans; [done|]; by apply (with_this_keeps T C L)).
  apply runs_bind. eapply runs_mono; [by eapply (rr_elect_ok s1 L1 T C1 c this k)|].
  cbn zeta. intros found s2 (C2 & Hcur2 & Hf).
  assert (same_cur C C2) as Hcur02 by (intros c'; by rewrite Hcur2).
  set (T1 := if requeues k then <[this := k_state S_READY k]> T else T) in *.
  change (if requeues k then upd_ring L1 (home k) (L1 (home k) ++ [this]) else L1)
    with (with_this L1 this k) in Hf.
  assert (∀ t kt, T !! t = Some kt → c_cpu kt ≠ c → T1 !! t = Some kt) as Hfr.
  { intros t kt Ht' Hne. subst T1. destruct (requeues k); [|done].
    rewrite lookup_insert_ne; [done|]. congruence. }
  assert (∀ k0, T1 !! this = Some k0 → stopped k0) as Hstop
    by (intros k0; by apply stopped_after).
  assert (∃ k1, T1 !! this = Some k1) as (k1 & Ht1).
  { subst T1. destruct (requeues k); [rewrite lookup_insert_eq|]; eauto. }
  apply runs_bind. destruct found as [e|].
  - destruct Hf as (ke & l & He & Hn & Ha2 & Hi2). pose proof Hn as (Hkc & _ & _ & Hid & Hq & Hst).
    apply runs_bind.
    destruct (i_cpu _ _ _ _ _ _ Hi2 c Hcr) as (cc & Ec & _).
    assert (cc_cur cc = this) as Ecur.
    { specialize (Hcur02 c). rewrite Ec, Hcur in Hcur02. by injection Hcur02. }
    eapply runs_touch_cpu; [done|eauto|done|]. intros s3 Ha3. apply runs_ret.
    apply runs_bind. eapply runs_get_thread; [done..|]. intros th _.
    apply runs_bind.
    assert (∀ s4, abs s4 (upd_ring (with_this L1 this k) (home ke) l) T1 C2 →
      runs s4 (if bool_decide (e ≠ this) then switch_to c e else put_thread this (set_state S_KERNEL))
      (λ _ s', ∃ L' T' C', abs s' L' T' C' ∧ inv None L' T' C' ∧ rescheduled c T C T' C' ∧ keeps L L' ∧
         (L (sq c) = [] → ∃ idle, chosen c idle (with_this L this k) L' (cc_cur <$> C' !! c))))
      as Hend.
    { intros s4 Ha4.
      eapply runs_mono; [by eapply (schedule_switch s4 _ T1 C2 c this e ke cc T C)|].
      intros [] s' (T' & C' & H1 & H2 & H3 & H4). eexists _, T', C'. split_and!; [exact H1|done|done| |].
      { eapply keeps_trans; [exact Hkw|]. apply keeps_upd, (home_lt nc).
        exact (i_wf _ _ _ _ _ _ Hi2 e ke He). }
      intros E0. exists 0. rewrite H4, <- (HL1 E0). by apply next_thread_chosen. }
    apply runs_when; intros _; [|by apply Hend].
    eapply runs_event; [done|]. exact Hend.
  - destruct Hf as (EK & ER & Ha2 & Hi2).
    destruct (i_cpu _ _ _ _ _ _ Hi2 c Hcr) as (cc & Ec & _).
    assert (cc_cur cc = this) as Ecur.
    { specialize (Hcur02 c). rewrite Ec, Hcur in Hcur02. by injection Hcur02. }
    apply runs_bind. eapply runs_touch_cpu; [done|eauto|done|]. intros s3 Ha3.
    apply runs_bind. eapply runs_get_cpu; [done..|]. intros cp Ecp.
    assert (Sched.thread_idle cp = cc_idle cc) as -> by (by rewrite <- Ecp).
    apply runs_ret. apply runs_bind. eapply runs_get_thread; [done..|]. intros th _.
    apply runs_bind.
    assert (∀ s4, abs s4 (with_this L1 this k) T1 C2 →
      runs s4 (if bool_decide (cc_idle cc ≠ this) then switch_to c (cc_idle cc)
               else put_thread this (set_state S_KERNEL))
      (λ _ s', ∃ L' T' C', abs s' L' T' C' ∧ inv None L' T' C' ∧ rescheduled c T C T' C' ∧ keeps L L' ∧
         (L (sq c) = [] → ∃ idle, chosen c idle (with_this L this k) L' (cc_cur <$> C' !! c))))
      as Hend.
    { intros s4 Ha4.
      eapply runs_mono; [by eapply (schedule_idle s4 _ T1 C2 c this cc T C)|].
      intros [] s' (T' & C' & H1 & H2 & H3 & H4). eexists _, T', C'. split_and!; [exact H1|done|done|exact Hkw|].
      intros E0. exists (cc_idle cc). rewrite H4, <- (HL1 E0). unfold chosen. by rewrite EK, ER. }
    apply runs_when; intros _; [|by apply Hend].
    eapply runs_event; [done|]. exact Hend.
Qed.

Lemma schedule_ok s L T C c this k :
  abs s L T C → inv None L T C → T !! this = Some k → c_cpu k = c → is_cur C this k →
  may_leave k →
  runs s (schedule c this) (λ _ s', ∃ L' T' C',
    abs s' L' T' C' ∧ inv None L' T' C' ∧ rescheduled c T C T' C' ∧ keeps L L').
Proof.
  intros Ha Hi Ht Hc Hcur Hl.
  eapply runs_mono; [by eapply (schedule_spec s L T C c this k)|].
  intros [] s' (L' & T' & C' & H1 & H2 & H3 & H4 & _). by exists L', T', C'.
Qed.

(** ** The operations of threads *)

(** The place of a running thread that is on no list. *)
Lemma free_off L T C t k :
  inv None L T C → T !! t = Some k → c_queue k = None →
  c_state k = S_KERNEL ∨ c_state k = S_USR ∨ c_state k = S_DEAD → off L t.
Proof.
  intros Hi Ht Hq Hst. pose proof (i_place _ _ _ _ _ _ Hi t k Ht ltac:(done)) as Hp.
  unfold place_ok in Hp. case_bool_decide; [by destruct Hp as (_ & ? & _)|].
  destruct Hst as [Hs|[Hs|Hs]]; rewrite Hs in Hp.
  - destruct Hp as [_ [[? _]|(q & _ & E & _)]]; [done|congruence].
  - naive_solver.
  - naive_solver.
Qed.

Lemma core_wf_state st k : wf k → wf (k_state st k).
Proof. done. Qed.

Lemma sched_yield_ok s L T C this k :
  abs s L T C → inv None L T C → T !! this = Some k → is_cur C this k → may_leave k →
  runs s (sched_yield this) (λ _ s', ∃ L' T' C',
    abs s' L' T' C' ∧ inv None L' T' C' ∧ rescheduled (c_cpu k) T C T' C' ∧ keeps L L').
Proof.
  intros Ha Hi Ht Hcur Hl. unfold sched_yield. apply runs_bind.
  eapply runs_get_thread; [done..|]. intros th Eth.
  assert (lcpu th = c_cpu k) as -> by (by rewrite <- Eth).
  by apply (schedule_ok s L T C _ this k).
Qed.

(** Going to sleep after [wait_on]; the thread may have been woken up in between. *)
Lemma sched_sleep_ok s L T C this k :
  abs s L T C → inv None L T C → T !! this = Some k → is_cur C this k →
  c_state k = S_READY ∨ c_state k = S_KERNEL ∧ is_Some (c_queue k) →
  runs s (sched_sleep this) (λ _ s', ∃ L' T' C',
    abs s' L' T' C' ∧ inv None L' T' C' ∧ rescheduled (c_cpu k) T C T' C' ∧ keeps L L').
Proof.
  intros Ha Hi Ht Hcur Hst. unfold sched_sleep, __sched_sleep. apply runs_bind.
  eapply runs_get_thread; [done..|]. intros th Eth.
  assert (lcpu th = c_cpu k) as -> by (by rewrite <- Eth).
  assert (∀ s1, abs s1 L T C → runs s1 (rr_sleep this;; when false (on_lists (λ h,
    list_add_last h (root_of (sq (c_cpu k))) (list_of this)));; schedule (c_cpu k) this)
    (λ _ s', ∃ L' T' C', abs s' L' T' C' ∧ inv None L' T' C' ∧ rescheduled (c_cpu k) T C T' C' ∧
      keeps L L')) as Hrest.
  { intros s1 Ha1. apply runs_bind. unfold rr_sleep. apply runs_bind.
    eapply runs_get_thread; [done..|]. intros th1 Eth1.
    assert (state th1 = c_state k) as -> by (by rewrite <- Eth1).
    apply runs_when; intros Hb; case_bool_decide as Hne; try done; clear Hb.
    - destruct Hst as [?|[Hs Hq]]; [done|].
      assert (inv None L (<[this := k_state S_WAIT k]> T) C) as Hi2.
      { eapply inv_set; try done; [exact (i_wf _ _ _ _ _ _ Hi this k Ht)|].
        pose proof (i_place _ _ _ _ _ _ Hi this k Ht ltac:(done)) as Hp. unfold place_ok in *.
        cbn. case_bool_decide; [destruct Hp as (_ & _ & E); rewrite E in Hq; by destruct Hq|].
        rewrite Hs in Hp. right. destruct Hp as [_ [[_ E]|Hw]]; [|done].
        rewrite E in Hq. by destruct Hq. }
      eapply (runs_mod_thread _ _ _ _ _ _ _ (k_state S_WAIT)); [done..|]. intros s2 Ha2.
      apply runs_bind. apply runs_ret.
      eapply runs_mono; [eapply (schedule_ok s2 L _ C (c_cpu k) this (k_state S_WAIT k)); try done|].
      + by rewrite lookup_insert_eq.
      + right; right; left. done.
      + intros [] s3 (L' & T' & C' & Ha3 & Hi3 & (H1 & H2 & H3) & Hkp).
        exists L', T', C'. split; [done|]. split; [done|]. split; [|done].
        split; [done|]. split; [|done].
        intros t kt Ht' Hd. apply H2; [|done]. rewrite lookup_insert_ne; [done|]. congruence.
    - apply runs_bind. apply runs_ret. apply (schedule_ok s1 L T C _ this k); try done.
      right; left. by destruct (decide (c_state k = S_READY)). }
  apply runs_bind. apply runs_when; intros _; [|by apply Hrest].
  apply runs_bind. eapply runs_touch; [done|eauto|done|]. intros s1 Ha1.
  eapply runs_touch; [done|eauto|done|]. intros s2 Ha2. by apply Hrest.
Qed.

Lemma cpus_not_run L T C r l :
  (∀ c, 0 ≤ c < nc → ∃ cc, C !! c = Some cc ∧ cpu_ok L T c cc) →
  (∀ c, 0 ≤ c < nc → r ≠ kq c ∧ r ≠ rq c) →
  ∀ c, 0 ≤ c < nc → ∃ cc, C !! c = Some cc ∧ cpu_ok (upd_ring L r l) T c cc.
Proof.
  intros Hc Hr c Hcr. destruct (Hc c Hcr) as (cc & Ec & Ho). exists cc. split; [done|].
  destruct (Hr c Hcr). eapply cpu_ok_but; [exact Ho|by rewrite upd_ring_ne..|eauto].
Qed.

(** A thread that is on no list goes to a wait queue or to [sleep_check]. *)
Lemma inv_to_wait L T C t k k' r l :
  inv None L T C → T !! t = Some k → c_type k ≠ TH_IDLE → off L t →
  c_cpu k' = c_cpu k → c_type k' = c_type k → c_ltid k' = c_ltid k →
  (∀ c, 0 ≤ c < nc → r ≠ kq c ∧ r ≠ rq c) → l ≡ₚ t :: L r →
  place_ok nc nr (upd_ring L r l) C t k' →
  inv None (upd_ring L r l) (<[t := k']> T) C.
Proof.
  intros Hi Ht Hid Ho E1 E2 E3 Hr Hl Hp.
  pose proof (i_wf _ _ _ _ _ _ Hi t k Ht) as (H1 & H2 & H3).
  eapply (inv_place nc nr L T C t k k'); try done.
  - by eapply inv_take.
  - unfold wf. by rewrite E1, E2, E3.
  - apply same_but_upd; auto.
  - apply cpus_not_run; [apply Hi|done].
Qed.

Lemma wait_on_ok s L T C this k q order :
  abs s L T C → inv None L T C → T !! this = Some k → is_cur C this k →
  c_state k = S_KERNEL → c_queue k = None → c_type k ≠ TH_IDLE → 3 * nc ≤ q < nr →
  let l := if order =? WAIT_LAST then L q ++ [this] else this :: L q in
  runs s (wait_on this q order) (λ _ s',
    let L' := upd_ring L q l in
    let T' := <[this := k_queue (Some q) k]> T in
    abs s' L' T' C ∧ inv None L' T' C).
Proof.
  intros Ha Hi Ht Hcur Hst Hq Hid Hr l.
  assert (off L this) as Ho by (eapply free_off; eauto).
  assert (inv None (upd_ring L q l) (<[this := k_queue (Some q) k]> T) C) as Hinv.
  { assert (l ≡ₚ this :: L q) as Hl.
    { subst l. destruct (_ =? _); [by rewrite Permutation_app_comm|done]. }
    eapply inv_to_wait; try done.
    - intros c Hc. unfold kq, rq. lia.
    - unfold place_ok. cbn. rewrite bool_decide_eq_false_2, Hst by done. split; [done|]. right.
      exists q. rewrite upd_ring_eq, Hl. repeat split; try done; try lia.
      apply list_elem_of_here. }
  unfold wait_on. apply runs_bind.
  eapply (runs_mod_thread _ _ _ _ _ _ _ (k_queue (Some q))); [done..|]. intros s1 Ha1.
  assert (is_Some (<[this := k_queue (Some q) k]> T !! this)) as Hts
    by (rewrite lookup_insert_eq; eauto).
  subst l. destruct (order =? WAIT_LAST).
  - eapply runs_add_last; [done|lia|done|done|]. intros s2 Ha2. done.
  - eapply runs_add_first; [done|lia|done|done|]. intros s2 Ha2. done.
Qed.

Lemma sched_sleep_check_ok s L T C this k :
  abs s L T C → inv None L T C → T !! this = Some k → is_cur C this k →
  c_state k = S_KERNEL → c_queue k = None → c_type k ≠ TH_IDLE →
  runs s (sched_sleep_check this) (λ _ s', ∃ L' T' C',
    abs s' L' T' C' ∧ inv None L' T' C' ∧ rescheduled (c_cpu k) T C T' C' ∧ keeps L L').
Proof.
  intros Ha Hi Ht Hcur Hst Hq Hid. unfold sched_sleep_check, __sched_sleep. apply runs_bind.
  eapply runs_get_thread; [done..|]. intros th Eth.
  assert (lcpu th = c_cpu k) as -> by (by rewrite <- Eth).
  assert (off L this) as Ho by (eapply free_off; eauto).
  pose proof (i_wf _ _ _ _ _ _ Hi this k Ht) as (Hkc & _).
  set (L1 := upd_ring L (sq (c_cpu k)) (L (sq (c_cpu k)) ++ [this])).
  assert (inv None L1 (<[this := k_state S_WAIT k]> T) C) as Hi1.
  { eapply inv_to_wait; try done.
    - intros c Hc. unfold kq, rq, sq. lia.
    - by rewrite Permutation_app_comm.
    - unfold place_ok. cbn. rewrite bool_decide_eq_false_2 by done. left. split; [done|].
      rewrite upd_ring_eq. apply elem_of_app. right. apply list_elem_of_here. }
  assert (∀ s1, abs s1 L T C → runs s1 (rr_sleep this;; when true (on_lists (λ h,
    list_add_last h (root_of (sq (c_cpu k))) (list_of this)));; schedule (c_cpu k) this)
    (λ _ s', ∃ L' T' C', abs s' L' T' C' ∧ inv None L' T' C' ∧ rescheduled (c_cpu k) T C T' C' ∧
      keeps L L')) as Hrest.
  { intros s1 Ha1. apply runs_bind. unfold rr_sleep. apply runs_bind.
    eapply runs_get_thread; [done..|]. intros th1 Eth1.
    assert (state th1 = c_state k) as -> by (by rewrite <- Eth1).
    rewrite bool_decide_eq_true_2 by (by rewrite Hst). cbn [when].
    eapply (runs_mod_thread _ _ _ _ _ _ _ (k_state S_WAIT)); [done..|]. intros s2 Ha2.
    apply runs_bind. eapply runs_add_last; [done|unfold sq; lia|done|rewrite lookup_insert_eq; eauto|].
    intros s3 Ha3.
    eapply runs_mono; [eapply (schedule_ok s3 L1 _ C (c_cpu k) this (k_state S_WAIT k)); try done|].
    - by rewrite lookup_insert_eq.
    - right; right; left. done.
    - intros [] s4 (L' & T' & C' & Ha4 & Hi4 & (H1 & H2 & H3) & Hkp).
      exists L', T', C'. split; [done|]. split; [done|].
      split; [|by eapply keeps_trans; [apply keeps_upd, (sq_lt (c_cpu k))|]].
      split; [done|]. split; [|done].
      intros t kt Ht' Hd. apply H2; [|done]. rewrite lookup_insert_ne; [done|]. congruence. }
  apply runs_bind. apply runs_when; intros _; [|by apply Hrest].
  apply runs_bind. eapply runs_touch; [done|eauto|done|]. intros s1 Ha1.
  eapply runs_touch; [done|eauto|done|]. intros s2 Ha2. by apply Hrest.
Qed.

(** The threads on a wait queue. *)
Lemma member_wait s L T C q t :
  abs s L T C → inv None L T C → 3 * nc ≤ q < nr → t ∈ L q →
  ∃ k, T !! t = Some k ∧ c_type k ≠ TH_IDLE ∧ c_queue k = Some q ∧
    (c_state k = S_KERNEL ∨ c_state k = S_WAIT).
Proof.
  intros Ha Hi Hq Hin.
  destruct (i_mem _ _ _ _ _ _ Hi q t ltac:(lia) Hin) as [k Ht]. exists k.
  pose proof (i_wf _ _ _ _ _ _ Hi t k Ht) as Hw.
  pose proof (i_place _ _ _ _ _ _ Hi t k Ht ltac:(done)) as Hp.
  assert (∀ r', 0 ≤ r' < nr → t ∈ L r' → r' = q) as Hd.
  { intros r' Hr' Hin'. eapply abs_dis; [exact Ha|done|lia|done|done]. }
  assert (¬ off L t) as Hno by (intros Ho; by apply (Ho q ltac:(lia))).
  assert (waiting nc nr L t k → c_queue k = Some q) as Hnw.
  { intros (q' & Hq' & E & Hin'). apply Hd in Hin'; [congruence|lia]. }
  assert (t ∉ L (home k)) as Hns.
  { intros Hin'. apply Hd in Hin'; [|by apply (home_range nc)]. pose proof (home_lt nc k Hw). lia. }
  assert (t ∉ L (sq (c_cpu k))) as Hh.
  { destruct Hw as [Hw _]. intros Hin'. apply Hd in Hin'; unfold sq in *; lia. }
  unfold place_ok in Hp. case_bool_decide; [by destruct Hp as (_ & ? & _)|].
  split; [done|]. destruct (c_state k); naive_solver.
Qed.

Lemma runs_seq3 {A B} s (m1 m2 : M unit) (m3 : M A) (f : A → M B) Q :
  runs s (m1;; m2;; m3) (λ x s', runs s' (f x) Q) → runs s (m1;; m2;; m3 ≫= f) Q.
Proof.
  intros (s' & x & E & HQ). unfold mbind, M_bind in E.
  destruct (m1 s) as [[s1 []]|] eqn:E1; [|done].
  destruct (m2 s1) as [[s2 []]|] eqn:E2; [|done].
  apply runs_bind. exists s1, tt. split; [done|]. apply runs_bind. exists s2, tt. split; [done|].
  apply runs_bind. by exists s', x.
Qed.

(** A thread after it has been woken up. *)
Definition woken k : tcore := TC S_READY (c_type k) (c_cpu k) None (c_ltid k).

Lemma wake_waiting s L T C this t q l1 l2 :
  abs s L T C → inv None L T C → is_Some (T !! this) → 3 * nc ≤ q < nr →
  L q = l1 ++ t :: l2 →
  ∃ k, T !! t = Some k ∧
  runs s (on_lists (λ h, list_unlink h (list_of t));; put_thread t (set_queue None);;
          sched_wakeup this t)
    (λ _ s', ∃ C', same_cur C C' ∧
      let L1 := upd_ring L q (l1 ++ l2) in
      let L' := upd_ring L1 (home k) (t :: L1 (home k)) in
      abs s' L' (<[t := woken k]> T) C' ∧ inv None L' (<[t := woken k]> T) C').
Proof.
  intros Ha Hi Hth Hq El.
  destruct (member_wait s L T C q t Ha Hi Hq) as (k & Ht & Hid & _).
  { rewrite El. apply elem_of_app. right. apply list_elem_of_here. }
  exists k. split; [done|].
  eapply runs_mono; [eapply (wake_member s L T C this t k (k_queue None k) q l1 l2); try done|].
  - lia.
  - intros c Hc. unfold kq, rq. lia.
  - intros th <-. done.
  - intros [] s' (C' & Hcur & Ha' & Hi'). eauto.
Qed.

(** [wakeup_one] makes the first (or the last) waiting thread ready. *)
Lemma wakeup_one_ok s L T C this q order :
  abs s L T C → inv None L T C → is_Some (T !! this) → 3 * nc ≤ q < nr →
  runs s (wakeup_one this q order) (λ found s',
    match found with
    | None => L q = [] ∧ s' = s
    | Some t => ∃ l1 l2 k C', L q = l1 ++ t :: l2 ∧
        (if order =? WAIT_LAST then l2 = [] else l1 = []) ∧ T !! t = Some k ∧ same_cur C C' ∧
        let L1 := upd_ring L q (l1 ++ l2) in
        let L' := upd_ring L1 (home k) (t :: L1 (home k)) in
        abs s' L' (<[t := woken k]> T) C' ∧ inv None L' (<[t := woken k]> T) C'
    end).
Proof.
  intros Ha Hi Hth Hq. unfold wakeup_one, wait_queue_isEmpty. apply runs_bind.
  eapply runs_empty; [done|lia|]. case_bool_decide as He; [by apply runs_ret|].
  assert (∃ t l1 l2, L q = l1 ++ t :: l2 ∧ (if order =? WAIT_LAST then l2 = [] else l1 = []))
    as (t & l1 & l2 & El & Ho).
  { destruct (order =? WAIT_LAST).
    - destruct (exists_last He) as (l & t & El). eauto.
    - destruct (L q) as [|t l]; [done|]. by exists t, [], l. }
  destruct (wake_waiting s L T C this t q l1 l2 Ha Hi Hth Hq El) as (k & Ht & Hrun).
  apply runs_bind. apply (runs_mono s _ (λ x s', x = t ∧ s' = s)).
  - destruct (order =? WAIT_LAST); subst.
    + eapply runs_last; [done|lia|done|done].
    + eapply runs_first; [done|lia|done|done].
  - intros x s' [-> ->]. apply runs_seq3. eapply runs_mono; [exact Hrun|].
    intros [] s1 (C' & Hcur & H1 & H2). apply runs_ret. eauto 15.
Qed.

(** All the threads of a list after they have been woken up. *)
Definition wake_all T (l : list Z) : tmap := foldl (λ T t, alter woken t T) T l.

Lemma wake_all_snoc T l t : wake_all T (l ++ [t]) = alter woken t (wake_all T l).
Proof. unfold wake_all. by rewrite foldl_app. Qed.

Lemma wake_all_is_Some T l t : is_Some (T !! t) → is_Some (wake_all T l !! t).
Proof.
  unfold wake_all. revert T. induction l as [|u l IH]; intros T Ht; [done|]. cbn. apply IH.
  destruct (decide (u = t)) as [->|Hne].
  - rewrite lookup_alter_eq. by apply fmap_is_Some.
  - by rewrite lookup_alter_ne.
Qed.

Lemma alter_insert T t k : T !! t = Some k → alter woken t T = <[t := woken k]> T.
Proof.
  intros Ht. apply map_eq. intros u. destruct (decide (u = t)) as [->|Hne].
  - by rewrite lookup_alter_eq, lookup_insert_eq, Ht.
  - by rewrite lookup_alter_ne, lookup_insert_ne.
Qed.

(** Part of the queue [q] has been woken up. *)
Definition waking L0 T0 C0 (q : Z) (rest : list lnode) (st : kernel * Z) : Prop :=
  ∃ done ids L C, L0 q = done ++ ids ∧ rest = Obj <$> ids ∧ L q = ids ∧
    abs st.1 L (wake_all T0 done) C ∧ inv None L (wake_all T0 done) C ∧ same_cur C0 C ∧
    st.2 = u32 (Z.of_nat (length done)) ∧ (∀ r, 3 * nc ≤ r → r ≠ q → L r = L0 r).

Lemma waking_step L0 T0 C0 this q n rest st :
  3 * nc ≤ q < nr → is_Some (T0 !! this) → waking L0 T0 C0 q (n :: rest) st →
  ∃ st', wakeup_body this n st = Some (st', false) ∧ waking L0 T0 C0 q rest st'.
Proof.
  intros Hq Hth (done & ids & L & C & E0 & Er & El & Ha & Hi & Hcur & Hn & Hfr).
  destruct ids as [|t ids]; [done|]. injection Er as -> ->.
  destruct (wake_waiting st.1 L _ C this t q [] ids Ha Hi (wake_all_is_Some _ _ _ Hth) Hq El)
    as (k & Ht & s' & [] & E & C' & Hcur' & Ha' & Hi').
  cbn [wakeup_body]. unfold wakeup_body. rewrite E. cbn [mbind option_bind].
  eexists. split; [done|].
  pose proof (i_wf _ _ _ _ _ _ Hi t k Ht) as Hw.
  cbn in Ha', Hi'. eexists (done ++ [t]), ids, _, C'. cbn [fst snd].
  rewrite wake_all_snoc, (alter_insert _ t k Ht).
  split; [by rewrite <- app_assoc|]. split; [done|]. split; [|split; [exact Ha'|]].
  { rewrite upd_ring_ne; [by rewrite upd_ring_eq|]. pose proof (home_lt nc k Hw). lia. }
  split; [exact Hi'|].
  split; [intros c; by rewrite Hcur'|]. split.
  - rewrite Hn, u32_add_l, length_app. cbn. f_equal. lia.
  - intros r Hr Hne. pose proof (home_lt nc k Hw).
    rewrite !upd_ring_ne by lia. by apply Hfr.
Qed.

Lemma wakeup_all_ok s L T C this q :
  abs s L T C → inv None L T C → is_Some (T !! this) → 3 * nc ≤ q < nr →
  runs s (wakeup_all this q) (λ n s', ∃ L' C',
    n = u32 (Z.of_nat (length (L q))) ∧ same_cur C C' ∧ L' q = [] ∧
    (∀ r, 3 * nc ≤ r → r ≠ q → L' r = L r) ∧
    abs s' L' (wake_all T (L q)) C' ∧ inv None L' (wake_all T (L q)) C').
Proof.
  intros Ha Hi Hth Hq.
  destruct (list_foreach_consume (λ st : kernel * Z, lists st.1) (wakeup_body this) (Root q)
    (waking L T C q) (Obj <$> L q) (s, 0)) as ([s' n] & E & Hw).
  - intros l st (done & ids & L1 & C1 & _ & -> & <- & Ha1 & _).
    apply (rings_list _ _ _ (abs_rings _ _ _ _ _ Ha1) q). lia.
  - intros x l st Hst. by apply waking_step.
  - exists [], (L q), L, C. by split_and!.
  - assert (length (L q) ≤ size (threads s))%nat as Hf.
    { apply nodup_size; [eapply abs_nodup; [done|lia]|]. intros t Hin.
      destruct (i_mem _ _ _ _ _ _ Hi q t ltac:(lia) Hin) as [k Ht].
      rewrite <- (abs_threads _ _ _ _ _ Ha), lookup_fmap in Ht.
      destruct (threads s !! t); [eauto|done]. }
    exists s', n. split.
    + unfold wakeup_all, root_of. rewrite length_fmap in E.
      apply (list_foreach_fuel _ _ _ _ _ _ _ E). lia.
    + destruct Hw as (done & ids & L1 & C1 & E0 & Er & El & Ha1 & Hi1 & Hcur & Hn & Hfr).
      destruct ids; [|done]. rewrite app_nil_r in E0. cbn in Hn. subst done.
      exists L1, C1. by split_and!.
Qed.

Lemma sched_clock_ok s L T C this k :
  abs s L T C → inv None L T C → T !! this = Some k →
  runs s (sched_clock this) (λ _ s', abs s' L T C).
Proof.
  intros Ha Hi Ht. destruct (cpu_of _ _ _ _ _ _ Hi Ht) as (Hw & cc & Ec & Hok).
  unfold sched_clock, rr_clock. apply runs_bind. eapply runs_get_thread; [done..|]. intros th Eth.
  assert (lcpu th = c_cpu k) as -> by (by rewrite <- Eth).
  apply runs_bind. eapply runs_touch; [done|eauto|done|]. intros s1 Ha1.
  assert (∀ s2, abs s2 L T C → runs s2 (th ← get_thread this;
    put_thread this (set_quantum (if quantum th >? 0 then s32 (quantum th - 1) else quantum th));;
    th ← get_thread this;
    when (bool_decide (quantum th = 0 ∧ type th ≠ TH_IDLE))
      (put_thread this (flag_set TH_NEED_TO_SCHED))) (λ _ s', abs s' L T C)) as Hrest.
  { intros s2 Ha2. apply runs_bind. eapply runs_get_thread; [done..|]. intros th1 _.
    apply runs_bind. eapply runs_touch; [done|eauto|done|]. intros s3 Ha3.
    apply runs_bind. eapply runs_get_thread; [done..|]. intros th2 _.
    apply runs_when; intros _; [|done]. eapply runs_touch; [done|eauto|done|]. auto. }
  apply runs_bind. apply runs_when; intros _; [|by apply Hrest].
  apply runs_bind. eapply runs_get_cpu; [done..|]. intros cp Ecp.
  destruct Hok as (_ & _ & _ & _ & _ & ki & Hki & _).
  eapply runs_touch; [done|rewrite <- Ecp in Hki; eauto|done|]. intros s2 Ha2. by apply Hrest.
Qed.
End ops.
