(* ===== verification/SchedSys.v ===== *)
(** * Executions of the scheduler

    The table of threads of a processor, the creation and the end of threads, and the theorems
    on executions of a machine with several processors. *)

From stdpp Require Import relations.
From S2P Require Import Prelude Clist Bits Sched SchedSpec SchedSafe.

Open Scope Z_scope.

Section table.
Context (nc nr : Z) (Hnc : 0 < nc) (Hnr : 3 * nc ≤ nr).

Notation tmap := (gmap Z tcore).
Notation cmap := (gmap Z ccore).
Implicit Types (L : Z → list Z) (T : tmap) (C : cmap) (s : kernel) (k : tcore).
Notation off := (off nr).
Notation abs := (abs nr).
Notation inv := (inv nc nr).
Notation wf := (wf nc).

Definition cc_slots (bm : list Z) (nx : Z) (cc : ccore) : ccore :=
  CC (cc_count cc) (cc_u cc) (cc_k cc) (cc_cur cc) (cc_idle cc) bm nx.

Definition k_ltid (i : Z) k : tcore := TC (c_state k) (c_type k) (c_cpu k) (c_queue k) i.

Lemma inv_slots X L T C c cc bm nx :
  inv X L T C → C !! c = Some cc → slots_ok bm nx →
  inv X L T (<[c := cc_slots bm nx cc]> C).
Proof.
  intros [Hm Hw Hp Hx Hc Hz] Ec Hs.
  assert (same_cur C (<[c := cc_slots bm nx cc]> C)) as Hcur.
  { intros c'. destruct (decide (c' = c)) as [->|Hne];
      [by rewrite lookup_insert_eq, Ec|by rewrite lookup_insert_ne]. }
  split; try done.
  - intros t k Ht Hne. eapply place_ok_cur; [done|]. by apply Hp.
  - intros c' Hc'. destruct (Hc c' Hc') as (cc1 & E1 & Hok).
    destruct (decide (c' = c)) as [->|Hne].
    + rewrite lookup_insert_eq. eexists. split; [done|]. assert (cc1 = cc) as -> by congruence.
      unfold cpu_ok in *. cbn. naive_solver.
    + rewrite lookup_insert_ne by done. eauto.
Qed.

Lemma inv_ltid L T C t k i :
  inv None L T C → T !! t = Some k → 0 ≤ i < SCHED_THREADS_NR →
  inv None L (<[t := k_ltid i k]> T) C.
Proof.
  intros Hi Ht Hr. pose proof (i_wf _ _ _ _ _ _ Hi t k Ht) as (H1 & H2 & _).
  eapply inv_set; try done. apply (i_place _ _ _ _ _ _ Hi t k Ht). done.
Qed.

Lemma runs_lift {A} s (o : option A) x (Q : A → kernel → Prop) :
  o = Some x → Q x s → runs s (lift o) Q.
Proof. intros -> HQ. by exists s, x. Qed.

(** Where the search starts. *)
Lemma slots_start bm nx :
  slots_ok bm nx → let nx' := if nx >=? SCHED_THREADS_NR then 0 else nx in
  slots_ok bm nx' ∧ nx' ≤ SCHED_THREADS_NR.
Proof.
  intros (Hl & H0 & Hs). cbn. destruct (Z.geb_spec nx SCHED_THREADS_NR) as [Hge|Hlt].
  - split; [|done]. split_and!; try done; lia.
  - split; [done|]. lia.
Qed.

Lemma slots_take bm nx bm' i :
  slots_ok bm nx → length bm' = length bm →
  (∀ n, nx ≤ n < i → wbit bm n = false) → 0 ≤ i →
  (∀ m, wbit bm' m = negb (m =? i) && wbit bm m) → slots_ok bm' (i + 1).
Proof.
  intros (Hl & H0 & Hs) Hl' Hf Hi Hb. split_and!; [congruence|lia|].
  intros j Hj Hlt. rewrite Hb. destruct (Z.eqb_spec j i) as [|Hne]; [done|]. cbn.
  destruct (decide (j < nx)); [by apply Hs|]. apply Hf. lia.
Qed.

(** [sched_register] gives the lowest free slot of the table, and fails with [ERANGE] exactly
    when there is none. *)
Lemma sched_register_ok s L T C t k :
  abs s L T C → inv None L T C → T !! t = Some k →
  runs s (sched_register t) (λ r s', ∃ cc T' C', C !! c_cpu k = Some cc ∧ same_cur C C' ∧
    abs s' L T' C' ∧ inv None L T' C' ∧
    ((r = ERANGE ∧ T' = T ∧ ∀ i, 0 ≤ i < SCHED_THREADS_NR → wbit (cc_bm cc) i = false) ∨
     (r = 0 ∧ ∃ i bm', 0 ≤ i < SCHED_THREADS_NR ∧ T' = <[t := k_ltid i k]> T ∧
        C' = <[c_cpu k := cc_slots bm' (i + 1) cc]> C ∧
        wbit (cc_bm cc) i = true ∧ (∀ j, 0 ≤ j < i → wbit (cc_bm cc) j = false) ∧
        ∀ j, wbit bm' j = negb (j =? i) && wbit (cc_bm cc) j))).
Proof.
  intros Ha Hi Ht. destruct (cpu_of nc nr _ _ _ _ _ _ Hi Ht) as (Hw & cc & Ec & Hok).
  assert (slots_ok (cc_bm cc) (cc_next cc)) as Hs by apply Hok.
  unfold sched_register. apply runs_bind. eapply runs_get_thread; [done..|]. intros th Eth.
  assert (lcpu th = c_cpu k) as -> by (by rewrite <- Eth).
  apply runs_bind. eapply runs_get_cpu; [done..|]. intros cp Ecp.
  assert (db_bitmap cp = cc_bm cc ∧ db_next cp = cc_next cc) as [-> ->] by (by rewrite <- Ecp).
  destruct (slots_start _ _ Hs) as [Hs' Hle].
  set (nx := if cc_next cc >=? SCHED_THREADS_NR then 0 else cc_next cc) in *.
  pose proof Hs' as (Hlen & H0 & Hused).
  destruct (bitmap_ffs2_spec (cc_bm cc) nx (SCHED_THREADS_NR / 8)) as (r & Er & Hr).
  { unfold bm_bits. by rewrite Hlen. }
  { by vm_compute. }
  { change (8 * (SCHED_THREADS_NR / 8)) with SCHED_THREADS_NR. lia. }
  change (8 * (SCHED_THREADS_NR / 8)) with SCHED_THREADS_NR in Hr.
  apply runs_bind. eapply runs_lift; [done|].
  destruct Hr as [[-> Hnone]|(Hr & Hset & Hfirst)].
  - rewrite Z.eqb_refl. apply runs_bind.
    eapply (runs_mod_cpu nr _ _ _ _ _ _ _ (cc_slots (cc_bm cc) nx)); [done|done|done|].
    intros s1 Ha1. apply runs_ret.
    eexists cc, T, _. split; [done|]. split; [|split; [exact Ha1|split; [by apply inv_slots|]]].
    + intros c'. destruct (decide (c' = c_cpu k)) as [->|Hne];
        [by rewrite lookup_insert_eq, Ec|by rewrite lookup_insert_ne].
    + left. split_and!; try done. intros i Hir.
      destruct (decide (i < nx)); [by apply Hused|]. apply Hnone. lia.
  - rewrite (proj2 (Z.eqb_neq r (-1))) by lia.
    destruct (bitmap_clear_spec (cc_bm cc) r) as (bm' & Eb & Hl' & Hb').
    { unfold bm_bits. rewrite Hlen. unfold SCHED_THREADS_NR, CPU_WIDTH in *. lia. }
    apply runs_bind. eapply runs_lift; [done|]. apply runs_bind.
    rewrite (u32_small (r + 1)) by (unfold SCHED_THREADS_NR, wsize in *; lia).
    eapply (runs_mod_cpu nr _ _ _ _ _ _ _ (cc_slots bm' (r + 1))); [done|done|done|].
    intros s1 Ha1. apply runs_bind.
    eapply (runs_mod_thread nr _ _ _ _ _ _ _ (k_ltid r)); [done..|]. intros s2 Ha2.
    apply runs_ret. eexists cc, _, _. split; [done|].
    split; [|split; [exact Ha2|split]].
    + intros c'. destruct (decide (c' = c_cpu k)) as [->|Hne];
        [by rewrite lookup_insert_eq, Ec|by rewrite lookup_insert_ne].
    + apply inv_ltid; [|done|lia]. apply inv_slots; [done..|].
      eapply (slots_take (cc_bm cc) nx); try done. lia.
    + right. split; [done|]. exists r, bm'. split_and!; try done; try lia.
      intros j Hj. destruct (decide (j < nx)); [apply Hused; lia|]. apply Hfirst. lia.
Qed.

Lemma sched_unregister_ok s L T C t k :
  abs s L T C → inv None L T C → T !! t = Some k →
  runs s (sched_unregister t) (λ _ s', ∃ C', same_cur C C' ∧ abs s' L T C' ∧ inv None L T C').
Proof.
  intros Ha Hi Ht. destruct (cpu_of nc nr _ _ _ _ _ _ Hi Ht) as (Hw & cc & Ec & Hok).
  assert (slots_ok (cc_bm cc) (cc_next cc)) as (Hlen & H0 & Hused) by apply Hok.
  destruct Hw as (_ & _ & Hlt).
  unfold sched_unregister. apply runs_bind. eapply runs_get_thread; [done..|]. intros th Eth.
  assert (lcpu th = c_cpu k ∧ ltid th = c_ltid k) as [-> ->] by (by rewrite <- Eth).
  apply runs_bind. eapply runs_get_cpu; [done..|]. intros cp Ecp.
  assert (db_bitmap cp = cc_bm cc ∧ db_next cp = cc_next cc) as [-> ->] by (by rewrite <- Ecp).
  destruct (bitmap_set_spec (cc_bm cc) (c_ltid k)) as (bm' & Eb & Hl' & Hb').
  { unfold bm_bits. rewrite Hlen. unfold SCHED_THREADS_NR, CPU_WIDTH in *. lia. }
  apply runs_bind. eapply runs_lift; [done|].
  set (nx := if c_ltid k <? cc_next cc then c_ltid k else cc_next cc).
  eapply (runs_mod_cpu nr _ _ _ _ _ _ _ (cc_slots bm' nx)); [done|done|done|]. intros s1 Ha1.
  eexists. split; [|split; [exact Ha1|]].
  - intros c'. destruct (decide (c' = c_cpu k)) as [->|Hne];
      [by rewrite lookup_insert_eq, Ec|by rewrite lookup_insert_ne].
  - apply inv_slots; [done..|]. subst nx. split_and!; [congruence| |].
    + destruct (Z.ltb_spec (c_ltid k) (cc_next cc)); lia.
    + intros i Hir Hlt'. rewrite Hb'.
      destruct (Z.ltb_spec (c_ltid k) (cc_next cc)); rewrite Hused by lia;
        rewrite (proj2 (Z.eqb_neq i (c_ltid k))) by lia; done.
Qed.

Lemma sched_exit_ok s L T C this k :
  abs s L T C → inv None L T C → T !! this = Some k → is_cur C this k →
  c_state k = S_KERNEL → c_queue k = None → c_type k ≠ TH_IDLE →
  runs s (sched_exit this) (λ _ s', ∃ L' T' C',
    abs s' L' T' C' ∧ inv None L' T' C' ∧ rescheduled (c_cpu k) T C T' C' ∧
    keeps nc L L').
Proof.
  intros Ha Hi Ht Hcur Hst Hq Hid. unfold sched_exit. apply runs_bind.
  eapply runs_mono; [by eapply sched_unregister_ok|]. intros [] s1 (C1 & Hcur1 & Ha1 & Hi1).
  assert (off L this) as Ho by (eapply free_off; eauto).
  destruct (cpu_of nc nr _ _ _ _ _ _ Hi1 Ht) as (Hw & cc & Ec & _).
  assert (inv None L (<[this := k_state S_DEAD k]> T) C1) as Hi2.
  { eapply inv_set; try done. unfold place_ok. cbn. by rewrite bool_decide_eq_false_2. }
  assert (∀ s2, abs s2 L T C1 → runs s2 (put_thread this (set_state S_DEAD))
    (λ _ s', abs s' L (<[this := k_state S_DEAD k]> T) C1)) as Hdie.
  { intros s2 Ha2. eapply (runs_mod_thread nr _ _ _ _ _ _ _ (k_state S_DEAD)); [done..|]. auto. }
  apply runs_bind. apply (runs_mono s1 _ (λ _ s', abs s' L (<[this := k_state S_DEAD k]> T) C1)).
  { unfold rr_exit. apply runs_bind. eapply runs_get_thread; [done..|]. intros th Eth.
    assert (lcpu th = c_cpu k) as -> by (by rewrite <- Eth).
    apply runs_bind. eapply runs_touch_cpu; [done|eauto|done|]. intros s2 Ha2.
    apply runs_bind. apply runs_when; intros _; [|by apply Hdie].
    eapply runs_touch_cpu; [done|eauto|done|]. intros s3 Ha3. by apply Hdie. }
  intros [] s2 Ha2. apply runs_bind.
  eapply (runs_mod_thread nr _ _ _ _ _ _ _ (k_state S_DEAD)); [done|apply lookup_insert_eq|done|].
  intros s3 Ha3. rewrite insert_insert_eq in Ha3. cbn in Ha3.
  apply runs_bind. eapply runs_get_thread; [done|apply lookup_insert_eq|]. intros th Eth.
  assert (lcpu th = c_cpu k) as -> by (pose proof (f_equal c_cpu Eth) as E; done).
  eapply runs_mono; [eapply (schedule_ok nc nr Hnr s3 L _ C1 (c_cpu k) this (k_state S_DEAD k));
    try done|].
  - by rewrite lookup_insert_eq.
  - unfold is_cur. cbn. by rewrite Hcur1.
  - do 3 right. left. done.
  - intros [] s4 (L' & T' & C' & Ha4 & Hi4 & (H1 & H2 & H3) & Hkp).
    exists L', T', C'. split; [done|]. split; [done|]. split; [|done]. split; [|split; [|done]].
    + intros c' Hne. rewrite H1 by done. apply Hcur1.
    + intros t kt Ht' Hd. apply H2; [|done]. rewrite lookup_insert_ne; [done|]. congruence.
Qed.

(** A created thread, or one that comes from another processor, enters its run queue. *)
Lemma rr_add_created_ok s L T C t k :
  abs s L T C → inv (Some t) L T C → T !! t = Some k → c_queue k = None →
  c_state k = S_READY ∨ c_state k = S_CREATE ∧ ¬ is_cur C t k →
  runs s (rr_add_created t) (λ _ s', ∃ cc, C !! c_cpu k = Some cc ∧
    let L' := upd_ring L (home k) (t :: L (home k)) in
    let C' := <[c_cpu k := bump 1 k cc]> C in
    abs s' L' T C' ∧ inv None L' T C').
Proof.
  intros Ha Hi Ht Hq Hst. destruct (cpu_of nc nr _ _ _ _ _ _ Hi Ht) as (Hw & cc & Ec & _).
  assert (inv None (upd_ring L (home k) (t :: L (home k))) T
    (<[c_cpu k := bump 1 k cc]> C)) as Hinv.
  { pose proof (inv_enqueue nc nr L T C t k (c_state k) cc _ Hi Ht Ec (Permutation_refl _) Hst)
      as Hinv.
    assert (TC (c_state k) (c_type k) (c_cpu k) None (c_ltid k) = k) as Ek
      by (destruct k; cbn in *; by subst).
    by rewrite Ek, (insert_id T t k Ht) in Hinv. }
  destruct (i_x _ _ _ _ _ _ Hi t eq_refl) as [Ho _].
  pose proof (home_range nc nr Hnr k Hw) as Hh.
  unfold rr_add_created. apply runs_bind. eapply runs_get_thread; [done..|]. intros th Eth.
  assert (lcpu th = c_cpu k ∧ type th = c_type k) as [-> ->] by (by rewrite <- Eth).
  apply runs_bind. eapply runs_get_cpu; [done..|]. intros cp Ecp.
  assert (count cp = cc_count cc) as -> by (by rewrite <- Ecp).
  apply runs_bind.
  eapply (runs_mod_cpu nr _ _ _ _ _ _ _ (cc_set_count (u32 (cc_count cc + 1)))); [done..|].
  intros s1 Ha1. apply runs_bind.
  eapply runs_touch_cpu; [done|rewrite lookup_insert_eq; eauto|done|]. intros s2 Ha2.
  unfold home in *. case_bool_decide as Hk.
  - apply runs_bind.
    eapply (runs_mod_cpu nr _ _ _ _ _ _ _ (cc_add_k 1)); [done|apply lookup_insert_eq|done|].
    intros s3 Ha3. rewrite insert_insert_eq in Ha3.
    eapply runs_add_first; [done|done|done|eauto|]. intros s4 Ha4.
    exists cc. split; [done|]. split; [|done]. unfold bump. rewrite bool_decide_eq_true_2 by done.
    exact Ha4.
  - apply runs_bind.
    eapply runs_touch_cpu; [done|rewrite lookup_insert_eq; eauto|done|]. intros s3 Ha3.
    apply runs_bind.
    eapply (runs_mod_cpu nr _ _ _ _ _ _ _ (cc_add_u 1)); [done|apply lookup_insert_eq|done|].
    intros s4 Ha4. rewrite insert_insert_eq in Ha4. apply runs_bind.
    eapply runs_touch_cpu; [done|rewrite lookup_insert_eq; eauto|done|]. intros s5 Ha5.
    apply runs_bind. eapply runs_add_first; [done|done|done|eauto|]. intros s6 Ha6.
    assert (∀ s', abs s' (upd_ring L (rq (c_cpu k)) (t :: L (rq (c_cpu k)))) T
        (<[c_cpu k := cc_add_u 1 (cc_set_count (u32 (cc_count cc + 1)) cc)]> C) →
      ∃ cc0, C !! c_cpu k = Some cc0 ∧
        let L' := upd_ring L (rq (c_cpu k)) (t :: L (rq (c_cpu k))) in
        let C' := <[c_cpu k := bump 1 k cc0]> C in abs s' L' T C' ∧ inv None L' T C') as Hend.
    { intros s' Ha'. exists cc. split; [done|]. split; [|done]. unfold bump.
      rewrite bool_decide_eq_false_2 by done. exact Ha'. }
    destruct (flag_is TH_IMPORTED th).
    + apply runs_bind. eapply runs_touch; [done|eauto|done|]. intros s7 Ha7.
      eapply runs_touch; [done|eauto|done|]. exact Hend.
    + eapply runs_touch; [done|eauto|done|]. exact Hend.
Qed.

Lemma sched_add_created_ok s L T C t k :
  abs s L T C → inv None L T C → T !! t = Some k → c_state k = S_DEAD → c_type k ≠ TH_IDLE →
  c_queue k = None → ¬ is_cur C t k →
  runs s (sched_add_created t) (λ _ s', ∃ C', same_cur C C' ∧
    let L' := upd_ring L (home k) (t :: L (home k)) in
    let T' := <[t := k_state S_CREATE k]> T in
    abs s' L' T' C' ∧ inv None L' T' C').
Proof.
  intros Ha Hi Ht Hst Hid Hq Hnc'. unfold sched_add_created. apply runs_bind.
  eapply (runs_mod_thread nr _ _ _ _ _ _ _ (k_state S_CREATE)); [done..|]. intros s1 Ha1.
  assert (off L t) as Ho by (eapply free_off; eauto).
  assert (inv (Some t) L (<[t := k_state S_CREATE k]> T) C) as Hi1.
  { eapply inv_x_set; try done. by eapply inv_take. }
  eapply runs_mono; [eapply (rr_add_created_ok s1 L _ C t (k_state S_CREATE k)); try done|].
  - by rewrite lookup_insert_eq.
  - by right.
  - intros [] s2 (cc & Ec & Ha2 & Hi2). eexists. split; [|split; [exact Ha2|exact Hi2]].
    by apply bump_cur.
Qed.
End table.

(** ** The machine *)

(** What the processors may do: the first ones by their current thread. *)
Inductive kop :=
  | Yield
  | WaitOn (q order : Z)
  | Sleep
  | SleepCheck
  | WakeOne (q order : Z)
  | WakeAll (q : Z)
  | Notify (t : Z)        (* the state of a thread on [sleep_check] is set to [S_READY] *)
  | Create (t : Z)        (* thread_create: sched_register, then sched_add_created *)
  | Exit
  | Clock
  | EnterKernel           (* a system call or an interrupt *)
  | LeaveKernel.

Definition do_op (c : Z) (op : kop) : M unit :=
  cp ← get_cpu c;
  let this := current cp in
  match op with
  | Yield => sched_yield this
  | WaitOn q order => wait_on this q order
  | Sleep => sched_sleep this
  | SleepCheck => sched_sleep_check this
  | WakeOne q order => wakeup_one this q order;; mret ()
  | WakeAll q => wakeup_all this q;; mret ()
  | Notify t => put_thread t (set_state S_READY)
  | Create t =>
      err ← sched_register t;
      if err =? 0 then sched_add_created t else mret ()
  | Exit => sched_exit this
  | Clock => sched_clock this
  | EnterKernel => put_thread this (set_state S_KERNEL)
  | LeaveKernel => put_thread this (set_state S_USR)
  end.

Section machine.
Context (nc nr : Z).

(** When an operation may be performed: a thread that has called [wait_on] goes to sleep before
    it does anything else with the scheduler. *)
Definition enabled (c : Z) (op : kop) (s : kernel) : bool :=
  match cpus s !! c ≫= λ cp, threads s !! current cp with
  | None => false
  | Some th =>
      match op with
      | Yield => bool_decide (state th = S_KERNEL ∧ info_queue th = None)
      | WaitOn q _ =>
          bool_decide (state th = S_KERNEL ∧ info_queue th = None ∧ type th ≠ TH_IDLE) &&
          (3 * nc <=? q) && (q <? nr)
      | Sleep =>
          bool_decide (state th = S_READY ∨ state th = S_KERNEL ∧ is_Some (info_queue th))
      | SleepCheck | Exit =>
          bool_decide (state th = S_KERNEL ∧ info_queue th = None ∧ type th ≠ TH_IDLE)
      | WakeOne q _ | WakeAll q => (3 * nc <=? q) && (q <? nr)
      | Notify t =>
          match threads s !! t with
          | Some x => bool_decide (state x = S_WAIT ∧ info_queue x = None)
          | None => false
          end
      | Create t =>
          match threads s !! t with
          | Some x => bool_decide (state x = S_DEAD ∧ type x ≠ TH_IDLE)
          | None => false
          end
      | Clock => true
      | EnterKernel => bool_decide (state th = S_USR)
      | LeaveKernel =>
          bool_decide (state th = S_KERNEL ∧ info_queue th = None ∧ type th = PTHREAD)
      end
  end.

Inductive kstep : kernel → kernel → Prop :=
  | kstep_intro c op s s' :
      0 ≤ c < nc → enabled c op s = true → do_op c op s = Some (s', tt) → kstep s s'.

(** The machine at start-up: empty lists, every processor in its idle thread, no other thread
    alive. *)
Record initial (s : kernel) : Prop := {
  init_lists : rings (lists s) nr (λ _, []);
  init_cells : ∀ t, is_Some (threads s !! t) → is_Some (lists s !! Obj t);
  init_threads : ∀ t th, threads s !! t = Some th →
    0 ≤ lcpu th < nc ∧ 0 ≤ ltid th < SCHED_THREADS_NR ∧ info_queue th = None ∧
    (type th = TH_IDLE ∧ state th = S_KERNEL ∨
     (type th = PTHREAD ∨ type th = KTHREAD) ∧ state th = S_DEAD);
  init_cpus : ∀ c, 0 ≤ c < nc → ∃ cp th, cpus s !! c = Some cp ∧
    count cp = 0 ∧ k_runnable cp = 0 ∧ u_runnable cp = 0 ∧
    slots_ok (db_bitmap cp) (db_next cp) ∧ current cp = thread_idle cp ∧
    threads s !! thread_idle cp = Some th ∧ lcpu th = c ∧ type th = TH_IDLE;
  init_size : Z.of_nat (size (threads s)) < wsize
}.

Section proofs.
Hypothesis (Hnc : 0 < nc) (Hnr : 3 * nc ≤ nr).

Notation tmap := (gmap Z tcore).
Notation cmap := (gmap Z ccore).
Implicit Types (L : Z → list Z) (T : tmap) (C : cmap) (s : kernel) (k : tcore).
Notation abs := (abs nr).
Notation inv := (inv nc nr).

Definition live k : Prop := c_state k = S_KERNEL ∨ c_state k = S_USR ∨ c_state k = S_READY.

(** The current threads are neither asleep nor dead. *)
Definition running T C : Prop :=
  ∀ c t k, 0 ≤ c < nc → cc_cur <$> C !! c = Some t → T !! t = Some k → live k.

(** The invariant, for some contents of the lists that satisfy [P]. *)
Definition good_with (P : (Z → list Z) → Prop) s : Prop :=
  ∃ L T C, abs s L T C ∧ inv None L T C ∧ running T C ∧ P L.

Definition good s : Prop := good_with (λ _, True) s.

(** The wait queue an operation works on; the others keep their threads. *)
Definition op_queue (op : kop) : option Z :=
  match op with WaitOn q _ | WakeOne q _ | WakeAll q => Some q | _ => None end.

Definition op_frame (op : kop) L L' : Prop :=
  ∀ q, 3 * nc ≤ q → op_queue op ≠ Some q → L' q = L q.

Lemma keeps_frame op L L' : keeps nc L L' → op_frame op L L'.
Proof. intros Hk q Hq _. by apply Hk. Qed.

Lemma running_resched L T C T' C' c :
  inv None L T C → running T C → rescheduled c T C T' C' → running T' C'.
Proof.
  intros Hi Hrun (H1 & H2 & e & ke & He & Hke & Hst) c' t k Hc' Hcur Ht.
  destruct (decide (c' = c)) as [->|Hne].
  - assert (t = e) as -> by congruence. unfold live. naive_solver.
  - rewrite H1 in Hcur by done.
    destruct (i_cpu _ _ _ _ _ _ Hi c' Hc') as (cc & Ec & _ & _ & _ & _ & (k0 & Hk0 & Hcpu) & _).
    rewrite Ec in Hcur. injection Hcur as <-.
    assert (k = k0) as -> by (rewrite (H2 _ k0 Hk0) in Ht; congruence).
    eapply Hrun; [done| |done]. by rewrite Ec.
Qed.

Lemma running_change T C T' C' :
  same_cur C C' → running T C →
  (∀ t k', T' !! t = Some k' → live k' ∨ (∃ k, T !! t = Some k ∧ c_state k' = c_state k) ∨
     ∀ c, 0 ≤ c < nc → cc_cur <$> C !! c ≠ Some t) → running T' C'.
Proof.
  intros Hs Hrun Hch c t k' Hc Hcur Ht. rewrite Hs in Hcur.
  destruct (Hch t k' Ht) as [Hl|[(k & Hk & E)|Hn]]; [done| |by destruct (Hn c Hc)].
  unfold live. rewrite E. by apply (Hrun c t).
Qed.

Lemma running_insert T C C' t k' :
  same_cur C C' → running T C → live k' → running (<[t := k']> T) C'.
Proof.
  intros Hs Hrun Hl. eapply running_change; [done..|]. intros u ku.
  rewrite lookup_insert_Some. intros [[_ <-]|[_ Hu]]; eauto.
Qed.

Lemma wake_all_live T l t k' :
  wake_all T l !! t = Some k' → live k' ∨ T !! t = Some k'.
Proof.
  revert T. induction l as [|u l IH]; intros T; [auto|]. cbn.
  intros [Hl|Ht]%IH; [auto|]. destruct (decide (u = t)) as [->|Hne].
  - rewrite lookup_alter_eq in Ht. destruct (T !! t); [|done]. injection Ht as <-.
    left. right; right. done.
  - rewrite lookup_alter_ne in Ht by done. auto.
Qed.

Lemma good_resched L T C c s' op :
  inv None L T C → running T C →
  (∃ L' T' C', abs s' L' T' C' ∧ inv None L' T' C' ∧ rescheduled c T C T' C' ∧ keeps nc L L') →
  good_with (op_frame op L) s'.
Proof.
  intros Hi Hr (L' & T' & C' & Ha' & Hi' & Hres & Hk). exists L', T', C'. split; [done|].
  split; [done|]. split; [by apply (running_resched L T C T' C' c)|]. by apply keeps_frame.
Qed.

Lemma good_same (P : (Z → list Z) → Prop) L T C C' s' k' t :
  inv None L (<[t := k']> T) C' → running T C → same_cur C C' → live k' →
  abs s' L (<[t := k']> T) C' → P L → good_with P s'.
Proof.
  intros Hi Hr Hs Hl Ha HP. exists L, (<[t := k']> T), C'. split; [done|]. split; [done|].
  split; [|done]. by apply (running_insert T C).
Qed.

Lemma current_core s L T C c cp th :
  abs s L T C → inv None L T C → 0 ≤ c < nc → cpus s !! c = Some cp →
  threads s !! current cp = Some th →
  T !! current cp = Some (core th) ∧ lcpu th = c ∧ is_cur C (current cp) (core th).
Proof.
  intros Ha Hi Hc Ecp Eth.
  assert (C !! c = Some (cpu_core cp)) as EC
    by (rewrite <- (abs_cpus _ _ _ _ _ Ha), lookup_fmap, Ecp; done).
  assert (T !! current cp = Some (core th)) as ET
    by (rewrite <- (abs_threads _ _ _ _ _ Ha), lookup_fmap, Eth; done).
  destruct (i_cpu _ _ _ _ _ _ Hi c Hc) as (cc & Ec & _ & _ & _ & _ & (k & Hk & Hcpu) & _).
  assert (cc = cpu_core cp) as -> by congruence. cbn in Hk. assert (k = core th) as -> by congruence.
  split; [done|]. split; [done|]. unfold is_cur. rewrite Hcpu, EC. done.
Qed.

Ltac use_guard H :=
  repeat (first [apply andb_true_iff in H as [H ?] | apply bool_decide_eq_true in H]);
  destruct_and?.

(** The operations by which a thread gives up its processor. *)
Lemma op_leave_ok c op s L T C :
  abs s L T C → inv None L T C → running T C → 0 ≤ c < nc → enabled c op s = true →
  op = Yield ∨ op = Sleep ∨ op = SleepCheck ∨ op = Exit →
  runs s (do_op c op) (λ _ s', good_with (op_frame op L) s').
Proof.
  intros Ha Hi Hr Hc He Hop. unfold enabled in He.
  destruct (cpus s !! c) as [cp|] eqn:Ecp; [|done]. cbn in He.
  destruct (threads s !! current cp) as [th|] eqn:Eth; [|done].
  destruct (current_core s L T C c cp th Ha Hi Hc Ecp Eth) as (ET & Hl & Hcur).
  unfold do_op. apply runs_bind. exists s, cp. split; [unfold get_cpu; by rewrite Ecp|].
  destruct Hop as [->|[->|[->| ->]]]; use_guard He;
    (apply (runs_mono s _ (λ _ s', ∃ L' T' C',
       abs s' L' T' C' ∧ inv None L' T' C' ∧ rescheduled (c_cpu (core th)) T C T' C' ∧
       keeps nc L L'));
     [|intros [] s'; by apply (good_resched L T C (c_cpu (core th)))]).
  - eapply sched_yield_ok; try done. do 4 right. done.
  - by eapply sched_sleep_ok.
  - by eapply sched_sleep_check_ok.
  - by eapply sched_exit_ok.
Qed.

(** The operations on wait queues. *)
Lemma op_queue_ok c op s L T C :
  abs s L T C → inv None L T C → running T C → 0 ≤ c < nc → enabled c op s = true →
  (∃ q order, op = WaitOn q order ∨ op = WakeOne q order ∨ op = WakeAll q) →
  runs s (do_op c op) (λ _ s', good_with (op_frame op L) s').
Proof.
  intros Ha Hi Hr Hc He (q & order & Hop). unfold enabled in He.
  destruct (cpus s !! c) as [cp|] eqn:Ecp; [|done]. cbn in He.
  destruct (threads s !! current cp) as [th|] eqn:Eth; [|done].
  destruct (current_core s L T C c cp th Ha Hi Hc Ecp Eth) as (ET & Hl & Hcur).
  unfold do_op. apply runs_bind. exists s, cp. split; [unfold get_cpu; by rewrite Ecp|].
  assert (is_Some (T !! current cp)) as Hsome by eauto.
  destruct Hop as [->|[->| ->]].
  - apply andb_true_iff in He as [[He H1]%andb_true_iff H2]. use_guard He.
    eapply runs_mono; [eapply (wait_on_ok nc nr Hnc s L T C _ (core th) q order); try done; lia|].
    intros [] s' (Ha' & Hi'). eapply good_same; [exact Hi'|done|done|left; done|done|].
    intros q' Hq' Hne. apply upd_ring_ne. intros ->. by destruct Hne.
  - apply andb_true_iff in He as [H1 H2].
    apply runs_bind. eapply runs_mono; [eapply (wakeup_one_ok nc nr Hnc Hnr s L T C _ q order); try done; lia|].
    intros [t|] s'; [|intros [_ ->]; apply runs_ret; by exists L, T, C].
    intros (l1 & l2 & k & C' & _ & _ & Ht & Hs & Ha' & Hi'). apply runs_ret.
    eapply good_same; [exact Hi'|exact Hr|done|do 2 right; done|done|].
    intros q' Hq' Hne. pose proof (home_lt nc k (i_wf _ _ _ _ _ _ Hi t k Ht)).
    rewrite !upd_ring_ne; [done| |lia]. intros ->. by destruct Hne.
  - apply andb_true_iff in He as [H1 H2].
    apply runs_bind. eapply runs_mono; [eapply (wakeup_all_ok nc nr Hnc Hnr s L T C _ q); try done; lia|].
    intros n s' (L' & C' & _ & Hs & _ & Hfr & Ha' & Hi'). apply runs_ret.
    exists L', (wake_all T (L q)), C'. split; [done|]. split; [done|]. split.
    + apply (running_change T C); [done..|]. intros t k' [Hl'|Ht]%wake_all_live; eauto.
    + intros q' Hq' Hne. apply Hfr; [done|]. intros ->. by destruct Hne.
Qed.

(** The creation of a thread. *)
Lemma op_create_ok c s t L T C :
  abs s L T C → inv None L T C → running T C → 0 ≤ c < nc → enabled c (Create t) s = true →
  runs s (do_op c (Create t)) (λ _ s', good_with (op_frame (Create t) L) s').
Proof.
  intros Ha Hi Hr Hc He. unfold enabled in He.
  destruct (cpus s !! c) as [cp|] eqn:Ecp; [|done]. cbn in He.
  destruct (threads s !! current cp) as [th|] eqn:Eth; [|done].
  destruct (threads s !! t) as [x|] eqn:Ex; [|done]. use_guard He.
  assert (T !! t = Some (core x)) as ET
    by (rewrite <- (abs_threads _ _ _ _ _ Ha), lookup_fmap, Ex; done).
  unfold do_op. apply runs_bind. exists s, cp. split; [unfold get_cpu; by rewrite Ecp|].
  apply runs_bind. eapply runs_mono; [by eapply sched_register_ok|].
  intros err s1 (cc & T1 & C1 & Ec & Hs1 & Ha1 & Hi1 & Hcase).
  assert (running T1 C1) as Hr1.
  { apply (running_change T C); [done..|]. intros u ku Hu. right; left.
    destruct Hcase as [(_ & -> & _)|(_ & i & bm' & _ & -> & _)]; [eauto|].
    rewrite lookup_insert_Some in Hu. destruct Hu as [[<- <-]|[_ Hu]]; eauto. }
  destruct Hcase as [(-> & -> & _)|(-> & i & bm' & Hir & -> & HC & _)].
  - apply runs_ret. by exists L, T, C1.
  - cbn [Z.eqb].
    assert (∀ c', 0 ≤ c' < nc → cc_cur <$> C1 !! c' ≠ Some t) as Hnot.
    { intros c' Hc' Hcur. assert (live (k_ltid i (core x))) as Hl
        by (eapply (Hr1 c' t); [done..|apply lookup_insert_eq]).
      destruct Hl as [?|[?|?]]; cbn in *; congruence. }
    eapply runs_mono; [eapply (sched_add_created_ok nc nr Hnr s1 L _ C1 t (k_ltid i (core x))); try done|].
    + by rewrite lookup_insert_eq.
    + cbn. pose proof (i_place _ _ _ _ _ _ Hi t _ ET ltac:(done)) as Hp. unfold place_ok in Hp.
      rewrite bool_decide_eq_false_2 in Hp by done. cbn in Hp. rewrite H in Hp. naive_solver.
    + intros Hcur. eapply (Hnot (lcpu x)); [|exact Hcur].
      apply (i_wf _ _ _ _ _ _ Hi t _ ET).
    + intros [] s2 (C2 & Hs2 & Ha2 & Hi2). eexists _, _, C2. split; [exact Ha2|].
      split; [exact Hi2|]. split.
      * apply (running_change (<[t := k_ltid i (core x)]> T) C1); [done..|].
        intros u ku. rewrite lookup_insert_Some. intros [[<- _]|[_ Hu]]; eauto.
      * apply keeps_frame, keeps_upd, (home_lt nc), (i_wf _ _ _ _ _ _ Hi1 t).
        apply lookup_insert_eq.
Qed.

(** The other operations only change fields or the state of a thread. *)
Lemma op_simple_ok c op s L T C :
  abs s L T C → inv None L T C → running T C → 0 ≤ c < nc → enabled c op s = true →
  op = Clock ∨ op = EnterKernel ∨ op = LeaveKernel ∨ (∃ t, op = Notify t) →
  runs s (do_op c op) (λ _ s', good_with (op_frame op L) s').
Proof.
  intros Ha Hi Hr Hc He Hop. unfold enabled in He.
  destruct (cpus s !! c) as [cp|] eqn:Ecp; [|done]. cbn in He.
  destruct (threads s !! current cp) as [th|] eqn:Eth; [|done].
  destruct (current_core s L T C c cp th Ha Hi Hc Ecp Eth) as (ET & Hl & Hcur).
  unfold do_op. apply runs_bind. exists s, cp. split; [unfold get_cpu; by rewrite Ecp|].
  pose proof (i_wf _ _ _ _ _ _ Hi _ _ ET) as Hw.
  pose proof (i_place _ _ _ _ _ _ Hi _ _ ET ltac:(done)) as Hp. unfold place_ok in Hp.
  destruct Hop as [->|[->|[->|[t ->]]]].
  - eapply runs_mono; [by eapply sched_clock_ok|]. intros [] s' Ha'. by exists L, T, C.
  - use_guard He. eapply (runs_mod_thread nr _ _ _ _ _ _ _ (k_state S_KERNEL)); [done..|].
    intros s' Ha'. apply (good_same _ L T C C s' (k_state S_KERNEL (core th)) (current cp));
      [|done|done|left; done|done|done].
    eapply inv_set; try done. unfold place_ok in *. cbn in *. rewrite He in Hp.
    case_bool_decide; [by destruct Hp|]. split; [done|]. left. naive_solver.
  - use_guard He. eapply (runs_mod_thread nr _ _ _ _ _ _ _ (k_state S_USR)); [done..|].
    intros s' Ha'. apply (good_same _ L T C C s' (k_state S_USR (core th)) (current cp));
      [|done|done|right; left; done|done|done].
    eapply inv_set; try done. unfold place_ok in *. cbn in *.
    rewrite bool_decide_eq_false_2 in Hp |- * by congruence. rewrite H in Hp.
    destruct Hp as [_ [[? _]|(q & _ & E & _)]]; [done|]. cbn in E. congruence.
  - destruct (threads s !! t) as [x|] eqn:Ex; [|done]. use_guard He.
    assert (T !! t = Some (core x)) as ETx
      by (rewrite <- (abs_threads _ _ _ _ _ Ha), lookup_fmap, Ex; done).
    eapply (runs_mod_thread nr _ _ _ _ _ _ _ (k_state S_READY)); [done..|].
    intros s' Ha'. apply (good_same _ L T C C s' (k_state S_READY (core x)) t);
      [|done|done|right; right; done|done|done].
    eapply inv_set; try done; [exact (i_wf _ _ _ _ _ _ Hi _ _ ETx)|].
    pose proof (i_place _ _ _ _ _ _ Hi _ _ ETx ltac:(done)) as Hpx. unfold place_ok in *. cbn in *.
    case_bool_decide; [destruct Hpx; congruence|]. rewrite H in Hpx.
    destruct Hpx as [[_ ?]|(q & _ & E & _)]; [by auto|]. cbn in E. congruence.
Qed.

Lemma op_ok c op s L T C :
  abs s L T C → inv None L T C → running T C → 0 ≤ c < nc → enabled c op s = true →
  runs s (do_op c op) (λ _ s', good_with (op_frame op L) s').
Proof.
  intros Ha Hi Hr Hc He. destruct op.
  - eapply op_leave_ok; eauto.
  - eapply op_queue_ok; eauto.
  - eapply op_leave_ok; eauto.
  - eapply op_leave_ok; eauto.
  - eapply op_queue_ok; eauto.
  - eapply op_queue_ok; [done..|]. exists q, 0. auto.
  - eapply op_simple_ok; eauto.
  - by eapply op_create_ok.
  - eapply op_leave_ok; eauto.
  - eapply op_simple_ok; eauto.
  - eapply op_simple_ok; eauto.
  - eapply op_simple_ok; eauto.
Qed.

Lemma good_op c op s :
  good s → 0 ≤ c < nc → enabled c op s = true → runs s (do_op c op) (λ _ s', good s').
Proof.
  intros (L & T & C & Ha & Hi & Hr & _) Hc He.
  eapply runs_mono; [by eapply op_ok|]. intros [] s' (L' & T' & C' & H1 & H2 & H3 & _).
  by exists L', T', C'.
Qed.

Lemma initial_good s : initial s → good s.
Proof.
  intros [Hl Hcell Hth Hcpu Hsz].
  exists (λ _, []), (core <$> threads s), (cpu_core <$> cpus s). split; [|split; [|split; [|done]]].
  - split; try done. intros t [k Hk]. rewrite lookup_fmap in Hk. apply Hcell.
    destruct (threads s !! t); [eauto|done].
  - split.
    + intros r t _ Hin. by apply elem_of_nil in Hin.
    + intros t k Hk. rewrite lookup_fmap in Hk. destruct (threads s !! t) as [th|] eqn:E; [|done].
      injection Hk as <-. destruct (Hth t th E) as (H1 & H2 & _ & H3). split; [done|].
      split; [|done]. cbn. destruct H3 as [[-> _]|[[-> | ->] _]]; done.
    + intros t k Hk _. rewrite lookup_fmap in Hk. destruct (threads s !! t) as [th|] eqn:E; [|done].
      injection Hk as <-. destruct (Hth t th E) as (_ & _ & Hq & H3). unfold place_ok. cbn.
      assert (off nr (λ _, []) t) as Ho by (intros r _; apply not_elem_of_nil).
      case_bool_decide as Hid; [destruct H3 as [[_ ?]|[[?|?] _]]; [done|congruence..]|].
      destruct H3 as [[? _]|[_ ->]]; done.
    + done.
    + intros c Hc. destruct (Hcpu c Hc) as (cp & th & E & H1 & H2 & H3 & H4 & H5 & H6 & H7 & H8).
      exists (cpu_core cp). rewrite lookup_fmap, E. split; [done|]. unfold cpu_ok. cbn.
      rewrite H5, lookup_fmap, H6, H1, H2, H3. split_and!; try done; exists (core th); done.
    + by rewrite map_size_fmap.
  - intros c t k Hc Hcur Ht.
    rewrite lookup_fmap in Hcur. rewrite lookup_fmap in Ht.
    destruct (Hcpu c Hc) as (cp & th & E & _ & _ & _ & _ & H5 & H6 & _ & H8).
    rewrite E in Hcur. injection Hcur as <-. rewrite H5, H6 in Ht. injection Ht as <-.
    destruct (Hth _ th H6) as (_ & _ & _ & [[_ Hs]|[[?|?] _]]); [by left|congruence..].
Qed.

Lemma reach_good s s' : good s → rtc kstep s s' → good s'.
Proof.
  intros Hg Hr. induction Hr as [|s s1 s2 Hst _ IH]; [done|]. apply IH.
  destruct Hst as [c op s s1 Hc He E].
  destruct (good_op c op s Hg Hc He) as (s'' & [] & E' & Hg'). congruence.
Qed.
End proofs.

(** Where a thread is: on a run queue of its processor when it is ready, on a wait queue or on
    [sleep_check] when it waits, and running on its processor otherwise. *)
Definition thread_placed (s : kernel) (L : Z → list Z) (t : Z) (th : thread_s) : Prop :=
  let run_queue := if bool_decide (type th = KTHREAD) then kq (lcpu th) else rq (lcpu th) in
  let running := ∃ cp, cpus s !! lcpu th = Some cp ∧ current cp = t in
  match state th with
  | S_CREATE => t ∈ L run_queue
  | S_READY => t ∈ L run_queue ∨ t ∈ L (sq (lcpu th))
  | S_WAIT => t ∈ L (sq (lcpu th)) ∨
      ∃ q, 3 * nc ≤ q < nr ∧ info_queue th = Some q ∧ t ∈ L q
  | S_KERNEL | S_USR => running ∨ type th = TH_IDLE
  | S_DEAD => ∀ r, 0 ≤ r < nr → t ∉ L r
  end.

Lemma placed_of_inv s L T C t th :
  SchedSpec.abs nr s L T C → SchedSpec.inv nc nr None L T C → threads s !! t = Some th →
  thread_placed s L t th.
Proof.
  intros Ha Hi Ht.
  assert (T !! t = Some (core th)) as ET
    by (rewrite <- (abs_threads _ _ _ _ _ Ha), lookup_fmap, Ht; done).
  pose proof (i_place _ _ _ _ _ _ Hi t _ ET ltac:(done)) as Hp.
  assert (is_cur C t (core th) → ∃ cp, cpus s !! lcpu th = Some cp ∧ current cp = t) as Hcur.
  { unfold is_cur. rewrite <- (abs_cpus _ _ _ _ _ Ha), lookup_fmap. cbn.
    destruct (cpus s !! lcpu th) as [cp|]; [|done]. intros [= <-]. eauto. }
  unfold thread_placed. unfold place_ok, home, waiting in Hp. cbn in Hp.
  case_bool_decide as Hid.
  - destruct Hp as (-> & _). by right.
  - destruct (state th); tauto.
Qed.

Lemma cpu_of_inv s L T C c :
  3 * nc ≤ nr → SchedSpec.abs nr s L T C → SchedSpec.inv nc nr None L T C → running T C →
  0 ≤ c < nc →
  ∃ cp th, cpus s !! c = Some cp ∧
    count cp = Z.of_nat (length (L (kq c))) + Z.of_nat (length (L (rq c))) ∧
    k_runnable cp = u16 (Z.of_nat (length (L (kq c)))) ∧
    u_runnable cp = u16 (Z.of_nat (length (L (rq c)))) ∧
    threads s !! current cp = Some th ∧ lcpu th = c ∧
    (state th = S_KERNEL ∨ state th = S_USR ∨ state th = S_READY).
Proof.
  intros Hnr Ha Hi Hrun Hc.
  destruct (i_cpu _ _ _ _ _ _ Hi c Hc) as (cc & Ec & H1 & H2 & H3 & _ & (k & Hk & Hkc) & _).
  rewrite <- (abs_cpus _ _ _ _ _ Ha), lookup_fmap in Ec.
  destruct (cpus s !! c) as [cp|] eqn:Ecp; [|done]. injection Ec as <-. cbn in H1, H2, H3, Hk.
  pose proof Hk as Hk'. rewrite <- (abs_threads _ _ _ _ _ Ha), lookup_fmap in Hk'.
  destruct (threads s !! current cp) as [th|] eqn:Eth; [|done]. injection Hk' as <-.
  exists cp, th. rewrite u32_small in H1 by (by eapply (queue_bound nc nr)).
  split_and!; try done. assert (live (core th)) as Hl; [|done].
  eapply (Hrun c (current cp)); [done| |done].
  by rewrite <- (abs_cpus _ _ _ _ _ Ha), lookup_fmap, Ecp.
Qed.

(** C4. For a machine with any number of processors and threads, and any sequence of yields, waits,
    wake-ups, sleeps, creations, exits and clock ticks in which a thread that has entered a wait
    queue goes to sleep before it yields: no operation fails; the lists stay well formed and a
    thread is on at most one of them; no thread is lost, since a ready thread is on the run queue
    of its processor and a waiting thread on a queue from which it can be woken up; the counters
    [count], [k_runnable] and [u_runnable] of a processor's scheduler are the lengths of its queues
    (the last two modulo 2^16, their width); and a processor runs one of its own threads, never a
    sleeping or dead one.  The counter [u_runnable] of the run queues themselves is left out: it
    drifts away from the length of the queue ([rq_u_runnable_drifts]).  That a thread does not yield
    between [wait_on] and [sched_sleep] is a condition on the sequence, since the code does not
    exclude it ([preempted_waiter_corrupts]). *)
Theorem sched_safe s0 s :
  0 < nc → 3 * nc ≤ nr → initial s0 → rtc kstep s0 s →
  (∀ c op, 0 ≤ c < nc → enabled c op s = true → ∃ s', do_op c op s = Some (s', tt)) ∧
  ∃ L, rings (lists s) nr L ∧
    (∀ t th, threads s !! t = Some th → thread_placed s L t th) ∧
    (∀ c, 0 ≤ c < nc → ∃ cp th, cpus s !! c = Some cp ∧
       count cp = Z.of_nat (length (L (kq c))) + Z.of_nat (length (L (rq c))) ∧
       k_runnable cp = u16 (Z.of_nat (length (L (kq c)))) ∧
       u_runnable cp = u16 (Z.of_nat (length (L (rq c)))) ∧
       threads s !! current cp = Some th ∧ lcpu th = c ∧
       (state th = S_KERNEL ∨ state th = S_USR ∨ state th = S_READY)).
Proof.
  intros Hnc Hnr Hini Hr.
  pose proof (reach_good Hnc Hnr s0 s (initial_good s0 Hini) Hr) as Hg. split.
  { intros c op Hc He. destruct (good_op Hnc Hnr c op s Hg Hc He) as (s' & [] & E & _). eauto. }
  destruct Hg as (L & T & C & Ha & Hi & Hrun & _). exists L. split; [apply Ha|]. split.
  - intros t th Ht. by eapply placed_of_inv.
  - intros c Hc. by eapply cpu_of_inv.
Qed.
End machine.

(** ** Examples *)

(** Executions given by a list of operations; each is checked to be enabled. *)
Fixpoint exec (nc nr : Z) (l : list (Z * kop)) (s : kernel) : option kernel :=
  match l with
  | [] => Some s
  | (c, op) :: l =>
      if (0 <=? c) && (c <? nc) && enabled nc nr c op s
      then '(s, _) ← do_op c op s; exec nc nr l s else None
  end.

Lemma kexec_rtc nc nr l s s' : exec nc nr l s = Some s' → rtc (kstep nc nr) s s'.
Proof.
  revert s. induction l as [|[c op] l IH]; intros s E; [by injection E as ->|]. cbn in E.
  destruct ((0 <=? c) && (c <? nc)) eqn:Ec; [|done]. cbn in E.
  destruct (enabled nc nr c op s) eqn:Ee; [|done].
  destruct (do_op c op s) as [[s1 []]|] eqn:Ed; [|done]. cbn in E.
  eapply rtc_l; [|by apply IH]. econstructor; [|done|done]. lia.
Qed.

Definition self_root (r : Z) : lnode * list_entry lnode :=
  (Root r, Entry (At (Root r)) (At (Root r))).

Definition new_thread (ty : thread_attr_t) (st : thread_state_t) (c : Z) : thread_s :=
  {| state := st; type := ty; flags := 0; quantum := 0; ticks_nr := 0; boosted_prio := 0;
     sched_nr := 0; ltid := 0; lcpu := c; info_queue := None |}.

Definition new_cpu (idle : Z) : cpu_s :=
  {| total_nr := 0; user_nr := 0; u_runnable := 0; k_runnable := 0; count := 0;
     rq_u_runnable := 0; db_bitmap := [u32 (-1)]; db_next := 0; cpu_state := CPU_IDLE;
     current := idle; thread_idle := idle |}.

(** Two processors with idle threads 100 and 101, three threads and two wait queues, 6 and 7. *)
Definition boot : kernel :=
  {| lists := list_to_map ((self_root <$> [0; 1; 2; 3; 4; 5; 6; 7]) ++
       ((λ t, (Obj t, Entry Null Null)) <$> [1; 2; 3; 100; 101]));
     threads := list_to_map [(1, new_thread PTHREAD S_DEAD 0); (2, new_thread PTHREAD S_DEAD 0);
       (3, new_thread KTHREAD S_DEAD 1); (100, new_thread TH_IDLE S_KERNEL 0);
       (101, new_thread TH_IDLE S_KERNEL 1)];
     cpus := list_to_map [(0, new_cpu 100); (1, new_cpu 101)];
     dead := [] |}.

Lemma boot_initial : initial 2 8 boot.
Proof.
  split.
  - split; [|intros r r' x _ _ Hx; by apply elem_of_nil in Hx].
    intros r Hr. assert (lists boot !! Root r = Some (Entry (At (Root r)) (At (Root r)))) as E.
    { assert (r = 0 ∨ r = 1 ∨ r = 2 ∨ r = 3 ∨ r = 4 ∨ r = 5 ∨ r = 6 ∨ r = 7) as Hc by lia.
      destruct Hc as [->|[->|[->|[->|[->|[->|[->| ->]]]]]]]; by vm_compute. }
    split; [apply NoDup_singleton|]. cbn [app fmap list_fmap path]. unfold next_of, pred_of.
    by rewrite E.
  - intros t [th Ht]. apply elem_of_list_to_map_2 in Ht.
    repeat (apply elem_of_cons in Ht as [[= -> ->]|Ht]; [vm_compute; eauto|]).
    by apply elem_of_nil in Ht.
  - intros t th Ht. apply elem_of_list_to_map_2 in Ht.
    repeat (apply elem_of_cons in Ht as [[= -> ->]|Ht]; [cbn; repeat split; auto; lia|]).
    by apply elem_of_nil in Ht.
  - intros c Hc. assert (c = 0 ∨ c = 1) as [-> | ->] by lia; eexists _, _;
      (repeat (split; [reflexivity|])); (split; [|repeat (split; [reflexivity|]); reflexivity]);
      (split; [done|]); (split; [done|]); intros i; cbn; lia.
  - by vm_compute.
Qed.

(** Thread 2 is woken up by the other processor between [wait_on] and [sched_sleep]. *)
Definition early_wakeup : list (Z * kop) :=
  [(0, Create 1); (0, Create 2); (1, Create 3); (1, Yield); (0, Yield); (0, EnterKernel);
   (0, Clock); (0, WaitOn 6 WAIT_LAST); (1, WakeOne 6 WAIT_FIRST); (0, Sleep)].

Lemma early_facts :
  (λ s, (state <$> threads s !! 1, state <$> threads s !! 2)) <$> exec 2 8 early_wakeup boot =
  Some (Some S_CREATE, Some S_KERNEL).
Proof. vm_compute. reflexivity. Qed.

Lemma sched_safe_witness :
  ∃ s, exec 2 8 early_wakeup boot = Some s ∧
    state <$> threads s !! 1 = Some S_CREATE ∧ state <$> threads s !! 2 = Some S_KERNEL ∧
    ∃ L, rings (lists s) 8 L ∧ ∀ t th, threads s !! t = Some th → thread_placed 2 8 s L t th.
Proof.
  pose proof early_facts as Hf.
  destruct (exec 2 8 early_wakeup boot) as [s|] eqn:E; [|discriminate Hf].
  injection Hf as H1 H2. exists s. refine (conj eq_refl (conj H1 (conj H2 _))).
  destruct (sched_safe 2 8 boot s ltac:(lia) ltac:(lia) boot_initial (kexec_rtc _ _ _ _ _ E))
    as (_ & L & HL & Hp & _).
  exists L. exact (conj HL Hp).
Defined.

(** The second counter of ready user threads is decremented by every election and not incremented
    when the thread that yields goes back to the queue: after three yields of two threads it has
    wrapped around, while one thread is ready. *)
Definition two_alternate : list (Z * kop) :=
  [(0, Create 1); (0, Create 2); (0, Yield); (0, EnterKernel); (0, Yield); (0, EnterKernel); (0, Yield)].

Lemma rq_u_runnable_drifts :
  (λ s, (λ cp, (u_runnable cp, rq_u_runnable cp)) <$> cpus s !! 0) <$> exec 2 8 two_alternate boot =
  Some (Some (1, u32 (-1))).
Proof. vm_compute. reflexivity. Qed.

(** [wait_on] and [sched_sleep] are separate: [spinlock_unlock_nosched] between them enables the
    interrupts again, and a clock interrupt may then make the thread yield.  In that state the
    thread's only link, which is on the wait queue, is also added to the run queue. *)
Definition waiting_prefix : list (Z * kop) :=
  [(0, Create 1); (0, Create 2); (0, Yield); (0, EnterKernel); (0, WaitOn 6 WAIT_LAST)].

(** The yield and two wake-ups after it: the states, and what the last ones returned. *)
Definition preempted_run : option (kernel * kernel * kernel * kernel * option Z * option Z) :=
  s ← exec 2 8 waiting_prefix boot;
  '(s1, _) ← do_op 0 Yield s;
  '(s2, r2) ← wakeup_one 101 6 WAIT_FIRST s1;
  '(s3, r3) ← wakeup_one 101 6 WAIT_FIRST s2;
  Some (s, s1, s2, s3, r2, r3).

Lemma preempted_facts :
  (λ '(s, s1, s2, s3, r2, r3),
     (next_of (lists s1) (Root 6), pred_of (lists s1) (Obj 2), r2, r3,
      count <$> cpus s1 !! 0, count <$> cpus s3 !! 0)) <$> preempted_run =
  Some (Some (At (Obj 2)), Some (At (Root 1)), Some 2, Some 2, Some 1, Some 3).
Proof. vm_compute. reflexivity. Qed.

(** A thread that is preempted between [wait_on] and [sched_sleep] destroys the lists: its link
    is put on the run queue while the wait queue still points to it.  The wait queue then never
    becomes empty: two wake-ups both return the same thread, and each adds one to the number of
    runnable threads. *)
Theorem preempted_waiter_corrupts :
  ∃ s s1 s2 s3, exec 2 8 waiting_prefix boot = Some s ∧ do_op 0 Yield s = Some (s1, tt) ∧
    (∀ L, ¬ rings (lists s1) 8 L) ∧
    wakeup_one 101 6 WAIT_FIRST s1 = Some (s2, Some 2) ∧
    wakeup_one 101 6 WAIT_FIRST s2 = Some (s3, Some 2) ∧
    count <$> cpus s1 !! 0 = Some 1 ∧ count <$> cpus s3 !! 0 = Some 3.
Proof.
  pose proof preempted_facts as Hf. unfold preempted_run in Hf.
  destruct (exec 2 8 waiting_prefix boot) as [s|] eqn:E; [|done]. cbn [mbind option_bind] in Hf.
  destruct (do_op 0 Yield s) as [[s1 []]|] eqn:E1; [|done]. cbn [mbind option_bind] in Hf.
  destruct (wakeup_one 101 6 WAIT_FIRST s1) as [[s2 r2]|] eqn:E2; [|done].
  cbn [mbind option_bind] in Hf.
  destruct (wakeup_one 101 6 WAIT_FIRST s2) as [[s3 r3]|] eqn:E3; [|done].
  cbn [mbind option_bind fmap option_fmap option_map] in Hf. injection Hf as Hn Hp -> -> Hc1 Hc3.
  exists s, s1, s2, s3. refine (conj eq_refl (conj E1 (conj _ (conj E2 (conj E3 (conj Hc1 Hc3)))))).
  clear E E1 E2 E3.
  intros L HL. pose proof (rings_list _ _ _ HL 6 ltac:(lia)) as [_ Hpath].
  destruct (L 6) as [|t l]; cbn [fmap list_fmap app path] in Hpath; destruct Hpath as (Hn' & Hp' & _).
  - congruence.
  - assert (t = 2) as -> by congruence. congruence.
Qed.
