(* ===== verification/RoundRobin.v ===== *)
(** * The round-robin order of the scheduler (rr-sched_locked.c)

    How the ready user threads of a processor follow one another when they yield: the queue with
    the current thread at its end is rotated by each yield. *)

From stdpp Require Import relations.
From S2P Require Import Prelude Clist Bits Sched SchedSpec SchedSafe SchedSys.

Open Scope Z_scope.

(** ** The type of a thread never changes *)

Definition same_types (s s' : kernel) : Prop := type <$> threads s' = type <$> threads s.

Definition typed {A} (m : M A) : Prop := ∀ s s' x, m s = Some (s', x) → same_types s s'.

Lemma typed_ret {A} (x : A) : typed (mret x).
Proof. intros s s' y E. by injection E as <- _. Qed.

Lemma typed_bind {A B} (m : M A) (f : A → M B) : typed m → (∀ x, typed (f x)) → typed (m ≫= f).
Proof.
  intros Hm Hf s s' y E. unfold mbind, M_bind in E. destruct (m s) as [[s1 x]|] eqn:Em; [|done].
  unfold same_types. rewrite (Hf x _ _ _ E). by eapply Hm.
Qed.

Lemma typed_put_thread t f : (∀ th, type (f th) = type th) → typed (put_thread t f).
Proof.
  intros Hf s s' x E. unfold put_thread in E. destruct (threads s !! t) as [th|] eqn:Et; [|done].
  injection E as <- _. unfold same_types. cbn. rewrite fmap_insert, Hf. apply insert_id.
  by rewrite lookup_fmap, Et.
Qed.

Lemma typed_get_thread t : typed (get_thread t).
Proof. intros s s' x E. unfold get_thread in E. destruct (threads s !! t); [|done]. by injection E as <- _. Qed.

Lemma typed_get_cpu c : typed (get_cpu c).
Proof. intros s s' x E. unfold get_cpu in E. destruct (cpus s !! c); [|done]. by injection E as <- _. Qed.

Lemma typed_put_cpu c f : typed (put_cpu c f).
Proof. intros s s' x E. unfold put_cpu in E. destruct (cpus s !! c); [|done]. by injection E as <- _. Qed.

Lemma typed_on_lists f : typed (on_lists f).
Proof. intros s s' x E. unfold on_lists in E. destruct (f (lists s)); [|done]. by injection E as <- _. Qed.

Lemma typed_ask_lists {A} (f : links → option A) : typed (ask_lists f).
Proof. intros s s' x E. unfold ask_lists in E. destruct (f (lists s)); [|done]. by injection E as <- _. Qed.

Lemma typed_event_send t : typed (event_send t).
Proof. intros s s' x E. by injection E as <- _. Qed.

Create HintDb typed.
#[export] Hint Resolve typed_ret typed_get_thread typed_get_cpu typed_put_cpu typed_on_lists
  typed_ask_lists typed_event_send : typed.

(** Goes through the code of an operation. *)
Ltac typed_auto :=
  repeat first
    [ progress auto with typed
    | apply typed_bind; [|intros ?]
    | apply typed_put_thread; intros ?; done
    | match goal with |- typed (if ?b then _ else _) => destruct b end
    | match goal with |- typed (match ?o with Some _ => _ | None => _ end) => destruct o end ].

Lemma typed_wakeup this t : typed (sched_wakeup this t).
Proof. unfold sched_wakeup, rr_wakeup. cbn zeta. typed_auto. Qed.
#[export] Hint Resolve typed_wakeup : typed.

Lemma typed_check_sleeping c this : typed (check_sleeping c this).
Proof.
  intros s s' x E. unfold check_sleeping, list_foreach in E.
  destruct (rd_next (lists s) (root_of (sq c))) as [i|]; [|done]. cbn [mbind option_bind] in E.
  destruct (rd_next (lists s) i) as [p|]; [|done]. cbn [mbind option_bind] in E.
  destruct (foreach_loop _ _ _ _ _ _ _) as [s1|] eqn:El; [|done]. injection E as <- _. clear x.
  remember (S (size (threads s))) as fuel eqn:Ef. clear Ef.
  revert s i p El. induction fuel as [|fuel IH]; intros s i p El; [done|]. cbn [foreach_loop] in El.
  destruct (decide _); [by injection El as <-|]. destruct i as [ | | |[r|t]]; try done.
  cbn [mbind option_bind] in El.
  destruct (check_body this (Obj t) s) as [[s2 b]|] eqn:Eb; [|done]. cbn [mbind option_bind] in El.
  assert (same_types s s2) as H2.
  { unfold check_body in Eb.
    match type of Eb with context [mbind ?f (?m ?st)] => 
      assert (typed m) as Hm by (unfold when; typed_auto); destruct (m st) as [[s3 b3]|] eqn:Em; [|done] end.
    cbn [mbind option_bind] in Eb. injection Eb as <- <-. by eapply Hm. }
  destruct b; [by injection El as <-|]. cbn in El.
  destruct (rd_next (lists s2) p) as [p'|]; [|done]. unfold same_types in *. rewrite <- H2.
  by eapply IH.
Qed.
#[export] Hint Resolve typed_check_sleeping : typed.

Lemma typed_schedule c this : typed (schedule c this).
Proof.
  unfold schedule, rr_elect, rr_requeue, rr_pick, first_thread, switch_to, when. typed_auto.
Qed.

(** ** Operations that leave the lists and the current threads alone *)

Definition quiet (op : kop) : bool :=
  match op with Clock | EnterKernel | LeaveKernel => true | _ => false end.

Definition still {A} (m : M A) : Prop :=
  ∀ s s' x, m s = Some (s', x) → lists s' = lists s ∧ cpus s' = cpus s ∧ same_types s s'.

Lemma still_ret {A} (x : A) : still (mret x).
Proof. intros s s' y E. by injection E as <- _. Qed.

Lemma still_bind {A B} (m : M A) (f : A → M B) : still m → (∀ x, still (f x)) → still (m ≫= f).
Proof.
  intros Hm Hf s s' y E. unfold mbind, M_bind in E. destruct (m s) as [[s1 x]|] eqn:Em; [|done].
  destruct (Hf x _ _ _ E) as (-> & -> & Ht). destruct (Hm _ _ _ Em) as (-> & -> & Ht').
  split_and!; try done. unfold same_types in *. congruence.
Qed.

Lemma still_put_thread t f : (∀ th, type (f th) = type th) → still (put_thread t f).
Proof.
  intros Hf s s' x E. pose proof (typed_put_thread t f Hf s s' x E) as Ht.
  unfold put_thread in E. destruct (threads s !! t); [|done]. by injection E as <- _.
Qed.

Lemma still_get_thread t : still (get_thread t).
Proof. intros s s' x E. unfold get_thread in E. destruct (threads s !! t); [|done]. by injection E as <- _. Qed.

Lemma still_get_cpu c : still (get_cpu c).
Proof. intros s s' x E. unfold get_cpu in E. destruct (cpus s !! c); [|done]. by injection E as <- _. Qed.

Lemma quiet_still c op : quiet op = true → still (do_op c op).
Proof.
  intros Hq. unfold do_op. apply still_bind; [apply still_get_cpu|]. intros cp. cbn zeta.
  destruct op; try done; [|by apply still_put_thread..].
  unfold sched_clock, rr_clock, when.
  repeat first [apply still_bind; [|intros ?] | apply still_get_thread | apply still_get_cpu
    | apply still_ret | apply still_put_thread; done
    | match goal with |- still (if ?b then _ else _) => destruct b end].
Qed.

(** ** Turns *)

Section turns.
Context (nc nr : Z).

Notation good := (good nc nr).
Notation enabled := (enabled nc nr).

(** [turns c n s s']: from [s] to [s'], the threads of processor [c] yield [n] times; clock ticks,
    system calls and returns to user mode come in between, on any processor. *)
Inductive turns (c : Z) : nat → kernel → kernel → Prop :=
  | turns_0 s : turns c 0 s s
  | turns_yield n s s1 s' :
      enabled c Yield s = true → do_op c Yield s = Some (s1, tt) → turns c n s1 s' →
      turns c (S n) s s'
  | turns_quiet n c' op s s1 s' :
      0 ≤ c' < nc → quiet op = true → enabled c' op s = true →
      do_op c' op s = Some (s1, tt) → turns c n s1 s' → turns c n s s'.

Section proofs.
Hypothesis (Hnc : 0 < nc) (Hnr : 3 * nc ≤ nr).

(** A processor with only user threads: the ready ones, then the current one. *)
Record users_only (c : Z) (q : list Z) (L : Z → list Z) (s : kernel) : Prop := {
  uo_good : good s;
  uo_rings : rings (lists s) nr L;
  uo_k : L (kq c) = [];
  uo_s : L (sq c) = [];
  uo_cur : ∃ cp th, cpus s !! c = Some cp ∧ threads s !! current cp = Some th ∧
    type th = PTHREAD ∧ q = L (rq c) ++ [current cp]
}.

Lemma thread_type s s' t th :
  same_types s s' → threads s !! t = Some th →
  ∃ th', threads s' !! t = Some th' ∧ type th' = type th.
Proof.
  intros Hs Ht. assert (type <$> threads s' !! t = Some (type th)) as E.
  { rewrite <- lookup_fmap, Hs, lookup_fmap, Ht. done. }
  destruct (threads s' !! t) as [th'|]; [|done]. injection E as E. eauto.
Qed.

(** The ready threads of the user queue are user threads. *)
Lemma ready_user s L c t :
  good s → rings (lists s) nr L → 0 ≤ c < nc → t ∈ L (rq c) →
  ∃ th, threads s !! t = Some th ∧ type th = PTHREAD.
Proof.
  intros (L0 & T & C & Ha & Hi & _) HL Hc Hin.
  assert (L0 (rq c) = L (rq c)) as E.
  { exact (olist_unique _ _ _ _ (rings_list _ _ _ (abs_rings _ _ _ _ _ Ha) (rq c) ltac:(unfold rq; lia))
      (rings_list _ _ _ HL (rq c) ltac:(unfold rq; lia))). }
  rewrite <- E in Hin.
  destruct (member_home nc nr Hnr s L0 T C C c (rq c) t Ha Hi Hc ltac:(auto) Hin)
    as (k & Hk & Hkc & Hh & Hid & _).
  pose proof (i_wf _ _ _ _ _ _ Hi t k Hk) as (_ & Hb & _).
  pose proof Hk as Hk'. rewrite <- (abs_threads _ _ _ _ _ Ha), lookup_fmap in Hk'.
  destruct (threads s !! t) as [th|]; [|done]. injection Hk' as <-. exists th. split; [done|].
  unfold home in Hh. destruct (type th) eqn:Ety; try done. cbn in Hh, Hkc.
  rewrite bool_decide_eq_true_2 in Hh by done. unfold kq, rq in Hh. lia.
Qed.

(** The queues after a yield. *)
Lemma yield_queues c q L s :
  0 ≤ c < nc → users_only c q L s → enabled c Yield s = true →
  ∃ s' cp' e l L', do_op c Yield s = Some (s', tt) ∧ q = e :: l ∧ cpus s' !! c = Some cp' ∧
    current cp' = e ∧ rings (lists s') nr L' ∧ L' (rq c) = l ∧
    (∀ r, 0 ≤ r < nr → r ≠ rq c → L' r = L r) ∧ same_types s s'.
Proof.
  intros Hc [(L0 & T & C & Ha & Hi & _) HL EK ES (cp & th & Ecp & Eth & Hty & ->)] He.
  assert (∀ r, 0 ≤ r < nr → L0 r = L r) as HLL.
  { intros r Hrr. exact (olist_unique _ _ _ _
      (rings_list _ _ _ (abs_rings _ _ _ _ _ Ha) r Hrr) (rings_list _ _ _ HL r Hrr)). }
  assert (0 ≤ kq c < nr ∧ 0 ≤ rq c < nr ∧ 0 ≤ sq c < nr) as (Hk & Hq & Hs)
    by (unfold kq, rq, sq; lia).
  destruct (current_core nc nr s L0 T C c cp th Ha Hi Hc Ecp Eth) as (ET & Hlc & Hcur).
  unfold SchedSys.enabled in He. rewrite Ecp in He. cbn in He. rewrite Eth in He.
  apply bool_decide_eq_true in He as [Hst Hqn].
  destruct (schedule_spec nc nr Hnr s L0 T C c (current cp) (core th)) as
    (s' & [] & Es & L' & T' & C' & Ha' & _ & _ & _ & Hch); try done.
  { do 4 right. done. }
  destruct Hch as (idle & Hch); [by rewrite HLL|].
  assert (requeues (core th) = true) as Erq.
  { unfold requeues. rewrite bool_decide_eq_true_2; [done|]. cbn. split; [done|]. congruence. }
  assert (home (core th) = rq c) as Eh.
  { unfold home. cbn. rewrite bool_decide_eq_false_2 by congruence. by rewrite Hlc. }
  unfold chosen, with_this in Hch. rewrite Erq, Eh in Hch.
  rewrite upd_ring_ne, (HLL (kq c)), EK, upd_ring_eq, (HLL (rq c)) in Hch by (done || (unfold kq, rq; lia)).
  destruct (L (rq c) ++ [current cp]) as [|e l] eqn:El; [by apply app_nil in El as [_ ?]|].
  destruct Hch as [Hcc ->].
  rewrite <- (abs_cpus _ _ _ _ _ Ha'), lookup_fmap in Hcc.
  destruct (cpus s' !! c) as [cp'|] eqn:Ecp'; [|done]. injection Hcc as Ecc.
  eexists s', cp', e, l, _.
  split; [|split; [done|split; [done|split; [done|split; [apply Ha'|split; [|split]]]]]].
  - unfold do_op. rewrite (M_bind_Some _ _ s s cp) by (unfold get_cpu; by rewrite Ecp).
    unfold sched_yield. rewrite (M_bind_Some _ _ s s th) by (unfold get_thread; by rewrite Eth).
    by rewrite Hlc.
  - by rewrite upd_ring_eq.
  - intros r Hrr Hne. by rewrite !upd_ring_ne, HLL.
  - by eapply typed_schedule.
Qed.

Lemma rotate_S {A} n (l : list A) : rotate (S n) l = rotate n (rotate 1 l).
Proof.
  apply list_eq_same_length with (length l); rewrite ?length_rotate; [done..|].
  intros i x y Hi. rewrite !lookup_rotate_r by (by rewrite ?length_rotate).
  rewrite length_rotate, lookup_rotate_r.
  - unfold rotate_nat_add. rewrite Z2Nat.id by (apply Z.mod_pos; lia).
    rewrite Zplus_mod_idemp_r. replace (Z.of_nat (S n) + Z.of_nat i) with
      (Z.of_nat 1 + (Z.of_nat n + Z.of_nat i)) by lia. congruence.
  - unfold rotate_nat_add. pose proof (Z.mod_pos_bound (Z.of_nat n + Z.of_nat i) (Z.of_nat (length l))).
    lia.
Qed.

Lemma rotate_1 {A} (x : A) l : rotate 1 (x :: l) = l ++ [x].
Proof.
  unfold rotate. destruct l as [|y l]; [done|].
  rewrite Nat.mod_small by (cbn; lia). done.
Qed.

Lemma last_rotate {A} n (l : list A) k x : rotate (S n) l = k ++ [x] → (n < length l)%nat → l !! n = Some x.
Proof.
  intros E Hn. assert (length k = length l - 1)%nat as Hk.
  { pose proof (length_rotate l (S n)) as Hl. rewrite E, length_app in Hl. cbn in Hl. lia. }
  assert (rotate (S n) l !! length k = Some x) as Hx by (rewrite E; apply list_lookup_middle; done).
  rewrite lookup_rotate_r in Hx by lia. rewrite <- Hx. f_equal. unfold rotate_nat_add.
  replace (Z.of_nat (S n) + Z.of_nat (length k)) with (Z.of_nat n + 1 * Z.of_nat (length l)) by lia.
  rewrite Z.mod_add, Z.mod_small by lia. lia.
Qed.

Lemma yield_turn c q L s s1 :
  0 ≤ c < nc → users_only c q L s → enabled c Yield s = true → do_op c Yield s = Some (s1, tt) →
  ∃ L1, users_only c (rotate 1 q) L1 s1 ∧ ∀ r, 0 ≤ r < nr → r ≠ rq c → L1 r = L r.
Proof.
  intros Hc Hu He E.
  destruct (yield_queues c q L s Hc Hu He) as (s' & cp' & e & l & L' & E' & -> & Ec & <- & HL & <- & Ho & Ht).
  assert (s' = s1) as -> by congruence. exists L'. split; [|done].
  destruct Hu as [Hg HL0 EK ES (cp & th & Ecp & Eth & Hty & Eq)].
  rewrite rotate_1. split.
  - destruct (good_op nc nr Hnc Hnr c Yield s Hg Hc He) as (s2 & [] & E2 & Hg2). congruence.
  - done.
  - rewrite Ho by (unfold kq, rq; lia). done.
  - rewrite Ho by (unfold sq, rq; lia). done.
  - assert (∃ th, threads s !! current cp' = Some th ∧ type th = PTHREAD) as (the & He' & Hte).
    { assert (current cp' ∈ L (rq c) ++ [current cp]) as Hin by (rewrite <- Eq; apply list_elem_of_here).
      apply elem_of_app in Hin as [Hin|Hin%list_elem_of_singleton].
      - by apply (ready_user s L c).
      - rewrite Hin. eauto. }
    destruct (thread_type s s1 _ the Ht He') as (th' & Hth' & Ety).
    exists cp', th'. split_and!; try done. congruence.
Qed.

Lemma quiet_turn c q L s c' op s1 :
  users_only c q L s → 0 ≤ c' < nc → quiet op = true → enabled c' op s = true →
  do_op c' op s = Some (s1, tt) → users_only c q L s1.
Proof.
  intros [Hg HL0 EK ES (cp & th & Ecp & Eth & Hty & Eq)] Hc Hq He E.
  destruct (quiet_still c' op Hq _ _ _ E) as (El & Ecs & Ht). split; try done.
  - destruct (good_op nc nr Hnc Hnr c' op s Hg Hc He) as (s2 & [] & E2 & Hg2). congruence.
  - by rewrite El.
  - destruct (thread_type s s1 _ th Ht Eth) as (th' & Hth' & Ety).
    exists cp, th'. rewrite Ecs. split_and!; try done. congruence.
Qed.

Lemma turns_rotate c n s s' q L :
  0 ≤ c < nc → turns c n s s' → users_only c q L s →
  ∃ L', users_only c (rotate n q) L' s' ∧ ∀ r, 0 ≤ r < nr → r ≠ rq c → L' r = L r.
Proof.
  intros Hc Hn. revert q L. induction Hn as [s|n s s1 s' He E _ IH|n c' op s s1 s' Hc' Hq He E _ IH];
    intros q L Hu.
  - exists L. split; [|done]. enough (rotate 0 q = q) as -> by done. unfold rotate.
    destruct q; [done|]. rewrite Nat.Div0.mod_0_l. apply app_nil_r.
  - destruct (yield_turn c q L s s1 Hc Hu He E) as (L1 & Hu1 & Ho1).
    destruct (IH _ _ Hu1) as (L' & Hu' & Ho'). rewrite rotate_S. exists L'. split; [done|].
    intros r Hr Hne. by rewrite Ho', Ho1.
  - apply IH. by eapply quiet_turn.
Qed.
End proofs.

(** C29. The round-robin order.  On a processor that runs a user thread and whose queue of kernel
    threads and list of sleeping threads are empty, consider the queue of ready user threads
    followed by the current thread.  A yield rotates it by one place: [n] yields rotate it by [n],
    with clock ticks, system calls and returns to user mode in between; the other queues do not
    change, and a yield never fails.  So the ready thread at place [i], the first having place 0,
    runs after exactly [i + 1] yields.  No thread is created or woken up in between: such a thread
    is put at the front of the queue ([list_add_first] in [rr_wakeup] and [rr_add_created]) and
    runs before those that wait already. *)
Theorem yield_round_robin s0 s s' c cp th L n :
  0 < nc → 3 * nc ≤ nr → initial nc nr s0 → rtc (kstep nc nr) s0 s → 0 ≤ c < nc →
  cpus s !! c = Some cp → threads s !! current cp = Some th → type th = PTHREAD →
  rings (lists s) nr L → L (kq c) = [] → L (sq c) = [] → turns c n s s' →
  (enabled c Yield s' = true → ∃ s'', do_op c Yield s' = Some (s'', tt)) ∧
  ∃ cp' L', cpus s' !! c = Some cp' ∧ rings (lists s') nr L' ∧
    L' (rq c) ++ [current cp'] = rotate n (L (rq c) ++ [current cp]) ∧
    (∀ r, 0 ≤ r < nr → r ≠ rq c → L' r = L r) ∧
    (∀ i t, L (rq c) !! i = Some t → n = S i → current cp' = t).
Proof.
  intros Hnc Hnr Hini Hr Hc Ecp Eth Hty HL EK ES Hn.
  pose proof (reach_good nc nr Hnc Hnr s0 s (initial_good nc nr s0 Hini) Hr) as Hg.
  destruct (turns_rotate Hnc Hnr c n s s' (L (rq c) ++ [current cp]) L Hc Hn) as (L' & Hu & Ho).
  { split; try done. eauto 10. }
  pose proof Hu as [Hg' HL' _ _ (cp' & th' & Ecp' & _ & _ & Eq)]. split.
  { intros He. destruct (good_op nc nr Hnc Hnr c Yield s' Hg' Hc He) as (s2 & [] & E2 & _). eauto. }
  exists cp', L'. split_and!; try done.
  intros i t Hi ->. pose proof (lookup_lt_Some _ _ _ Hi) as Hlt.
  apply last_rotate in Eq; [|rewrite length_app; lia].
  rewrite lookup_app_l in Eq by done. congruence.
Qed.
End turns.

(** ** An example *)

(** Two user threads: 2 runs in the kernel and 1 is ready. *)
Definition two_threads : list (Z * kop) :=
  [(0, Create 1); (0, Create 2); (0, Yield); (0, EnterKernel)].

(** Thread 2 yields, thread 1 makes a system call, a clock tick comes, and thread 1 yields. *)
Definition two_turns : option (kernel * kernel) :=
  s ← exec 2 8 two_threads boot;
  '(s1, _) ← do_op 0 Yield s;
  '(s2, _) ← do_op 0 EnterKernel s1;
  '(s3, _) ← do_op 0 Clock s2;
  '(s4, _) ← do_op 0 Yield s3;
  Some (s, s4).

Lemma two_turns_facts :
  (s ← exec 2 8 two_threads boot;
   '(s1, _) ← do_op 0 Yield s;
   '(s2, _) ← do_op 0 EnterKernel s1;
   '(s3, _) ← do_op 0 Clock s2;
   '(s4, _) ← do_op 0 Yield s3;
   Some ([enabled 2 8 0 Yield s; enabled 2 8 0 EnterKernel s1; enabled 2 8 0 Clock s2;
          enabled 2 8 0 Yield s3],
         current <$> cpus s !! 0, type <$> threads s !! 2,
         [next_of (lists s) (Root 0); next_of (lists s) (Root 2);
          next_of (lists s) (Root 1); next_of (lists s) (Obj 1)])) =
  Some ([true; true; true; true], Some 2, Some PTHREAD,
        [Some (At (Root 0)); Some (At (Root 2)); Some (At (Obj 1)); Some (At (Root 1))]).
Proof. vm_compute. reflexivity. Qed.

(** The contents of a list of at most one thread, from its links. *)
Lemma ring_nil h n L r :
  rings h n L → 0 ≤ r < n → next_of h (Root r) = Some (At (Root r)) → L r = [].
Proof.
  intros HL Hr E. pose proof (rings_list _ _ _ HL r Hr) as [_ Hp].
  destruct (L r) as [|t l]; [done|]. destruct Hp as (Hn & _). congruence.
Qed.

Lemma ring_one h n L r t :
  rings h n L → 0 ≤ r < n → next_of h (Root r) = Some (At (Obj t)) →
  next_of h (Obj t) = Some (At (Root r)) → L r = [t].
Proof.
  intros HL Hr E E'. pose proof (rings_list _ _ _ HL r Hr) as [_ Hp].
  destruct (L r) as [|u l]; [destruct Hp as (Hn & _); congruence|].
  destruct Hp as (Hn & _ & Hp). assert (u = t) as -> by congruence.
  destruct l as [|u' l]; [done|]. destruct Hp as (Hn' & _). congruence.
Qed.

Lemma yield_round_robin_witness :
  ∃ s s' cp' L', exec 2 8 two_threads boot = Some s ∧ two_turns = Some (s, s') ∧
    cpus s' !! 0 = Some cp' ∧ rings (lists s') 8 L' ∧
    L' (rq 0) ++ [current cp'] = rotate 2 [1; 2].
Proof.
  pose proof two_turns_facts as Hf. unfold two_turns.
  destruct (exec 2 8 two_threads boot) as [s|] eqn:E; [|discriminate Hf].
  cbn [mbind option_bind] in Hf |- *.
  destruct (do_op 0 Yield s) as [[s1 []]|] eqn:E1; [|discriminate Hf]. cbn [mbind option_bind] in Hf |- *.
  destruct (do_op 0 EnterKernel s1) as [[s2 []]|] eqn:E2; [|discriminate Hf]. cbn [mbind option_bind] in Hf |- *.
  destruct (do_op 0 Clock s2) as [[s3 []]|] eqn:E3; [|discriminate Hf]. cbn [mbind option_bind] in Hf |- *.
  destruct (do_op 0 Yield s3) as [[s4 []]|] eqn:E4; [|discriminate Hf]. cbn [mbind option_bind] in Hf |- *.
  injection Hf as He1 He2 He3 He4 Hcur Hty HK HS HR HO.
  destruct (cpus s !! 0) as [cp|] eqn:Ecp; [|discriminate Hcur]. injection Hcur as Ecur.
  destruct (threads s !! 2) as [th|] eqn:Eth; [|discriminate Hty]. injection Hty as Ety.
  pose proof (kexec_rtc _ _ _ _ _ E) as Hr.
  destruct (reach_good 2 8 ltac:(lia) ltac:(lia) boot s (initial_good _ _ _ boot_initial) Hr)
    as (L & T & C & Ha & _).
  pose proof (abs_rings _ _ _ _ _ Ha) as HL. clear Ha E.
  assert (turns 2 8 0 2 s s4) as Hn.
  { apply (turns_yield _ _ _ _ _ s1); [exact He1|exact E1|].
    apply (turns_quiet _ _ _ _ 0 EnterKernel _ s2); [lia|reflexivity|exact He2|exact E2|].
    apply (turns_quiet _ _ _ _ 0 Clock _ s3); [lia|reflexivity|exact He3|exact E3|].
    apply (turns_yield _ _ _ _ _ s4); [exact He4|exact E4|apply turns_0]. }
  clear E1 E2 E3 E4 He1 He2 He3 He4.
  destruct (yield_round_robin 2 8 boot s s4 0 cp th L 2 ltac:(lia) ltac:(lia) boot_initial Hr
    ltac:(lia) Ecp ltac:(by rewrite Ecur) Ety HL (ring_nil _ _ _ 0 HL ltac:(lia) HK)
    (ring_nil _ _ _ 2 HL ltac:(lia) HS) Hn) as (_ & cp' & L' & H1 & H2 & H3 & _).
  change (rq 0) with 1 in H3 at 2.
  rewrite (ring_one _ _ _ 1 1 HL ltac:(lia) HR HO), Ecur in H3.
  exists s, s4, cp', L'. exact (conj eq_refl (conj eq_refl (conj H1 (conj H2 H3)))).
Defined.
