(* ===== verification/WaitView.v ===== *)
(** * The scheduler, seen from some wait queues

    What a component that owns wait queues relies on: whatever else the processors do, its
    queues hold the threads it has put there, in that order, until it wakes them up. *)

From S2P Require Import Prelude Clist Bits Sched SchedSpec SchedSafe SchedSys.

Open Scope Z_scope.

(** The threads on a queue, from the first one. *)
Definition waiters (nr : Z) (s : kernel) (q : Z) (l : list Z) : Prop :=
  ∃ L, rings (lists s) nr L ∧ L q = l.

(** Thread [t], running on processor [c], may call the kernel: it is in the kernel and on no
    queue. *)
Definition may_call (c t : Z) (s : kernel) : bool :=
  match cpus s !! c, threads s !! t with
  | Some cp, Some th =>
      bool_decide (current cp = t ∧ type th ≠ TH_IDLE ∧ state th = S_KERNEL ∧
                   info_queue th = None)
  | _, _ => false
  end.

(** Thread [t], running on processor [c], has been put on a queue and may go to sleep; it may
    have been woken up before that. *)
Definition may_sleep (c t : Z) (s : kernel) : bool :=
  match cpus s !! c, threads s !! t with
  | Some cp, Some th =>
      bool_decide (current cp = t ∧ type th ≠ TH_IDLE ∧
        (state th = S_READY ∨ state th = S_KERNEL ∧ is_Some (info_queue th)))
  | _, _ => false
  end.

Lemma may_call_inv c t s :
  may_call c t s = true → ∃ cp th, cpus s !! c = Some cp ∧ threads s !! t = Some th ∧
    current cp = t ∧ type th ≠ TH_IDLE ∧ state th = S_KERNEL ∧ info_queue th = None.
Proof.
  unfold may_call. destruct (cpus s !! c) as [cp|]; [|done].
  destruct (threads s !! t) as [th|]; [|done]. intros ?%bool_decide_eq_true. by exists cp, th.
Qed.

(** The same on the abstract state. *)
Lemma may_call_abs nr s L T C c t :
  abs nr s L T C → may_call c t s = true ↔
  cc_cur <$> C !! c = Some t ∧ ∃ k, T !! t = Some k ∧
    c_type k ≠ TH_IDLE ∧ c_state k = S_KERNEL ∧ c_queue k = None.
Proof.
  intros Ha. rewrite <- (abs_threads _ _ _ _ _ Ha), <- (abs_cpus _ _ _ _ _ Ha), !lookup_fmap.
  unfold may_call. destruct (cpus s !! c) as [cp|]; cbn; [|naive_solver].
  destruct (threads s !! t) as [th|]; cbn; [|naive_solver]. rewrite bool_decide_eq_true.
  split; [intros (<- & ? & ? & ?); split; [done|]; by exists (core th)|].
  intros ([= ->] & k & [= <-] & ?). done.
Qed.

Section view.
Context (nc nr : Z) (Hnc : 0 < nc) (Hnr : 3 * nc ≤ nr).
Context (qs : list Z) (Hqs : ∀ q, q ∈ qs → 3 * nc ≤ q < nr).
#[local] Set Default Proof Using "All".

(** The scheduler is in a good state and the threads on the queues [qs] are given by [f]. *)
Definition view (f : Z → list Z) (s : kernel) : Prop :=
  good_with nc nr (λ L, ∀ q, q ∈ qs → L q = f q) s.

Lemma view_ext f f' s : view f s → (∀ q, q ∈ qs → f q = f' q) → view f' s.
Proof.
  intros (L & T & C & Ha & Hi & Hr & E) Hf. exists L, T, C. split_and!; try done.
  intros q Hq. rewrite E by done. auto.
Qed.

Lemma view_waiters f s q : view f s → q ∈ qs → waiters nr s q (f q).
Proof. intros (L & T & C & Ha & _ & _ & E) Hq. exists L. split; [apply Ha|auto]. Qed.

Lemma view_nodup f s q : view f s → q ∈ qs → NoDup (f q).
Proof.
  intros (L & T & C & Ha & _ & _ & E) Hq. rewrite <- E by done.
  eapply (abs_nodup nr); [exact Ha|]. specialize (Hqs q Hq). lia.
Qed.

Lemma view_disjoint f s q q' t : view f s → q ∈ qs → q' ∈ qs → t ∈ f q → t ∈ f q' → q = q'.
Proof.
  intros (L & T & C & Ha & _ & _ & E) Hq Hq'. rewrite <- !E by done.
  pose proof (Hqs q Hq). pose proof (Hqs q' Hq'). apply (abs_dis nr s L T C); [done|lia..].
Qed.

Lemma view_initial s : initial nc nr s → view (λ _, []) s.
Proof.
  intros Hi. destruct (initial_good nc nr s Hi) as (L & T & C & Ha & H1 & H2 & _).
  exists L, T, C. split_and!; try done. intros q Hq. pose proof (Hqs q Hq).
  eapply (olist_unique (lists s) q); [apply Ha; lia|apply (init_lists _ _ _ Hi); lia].
Qed.

Lemma view_kop f c op s :
  view f s → 0 ≤ c < nc → enabled nc nr c op s = true →
  (∀ q, q ∈ qs → op_queue op ≠ Some q) → runs s (do_op c op) (λ _ s', view f s').
Proof.
  intros (L & T & C & Ha & Hi & Hr & E) Hc He Ho.
  eapply runs_mono; [by apply (op_ok nc nr Hnc Hnr c op s L T C)|].
  intros [] s' (L' & T' & C' & H1 & H2 & H3 & Hf). exists L', T', C'. split_and!; try done.
  intros q Hq. pose proof (Hqs q Hq). rewrite <- E by done. apply Hf; [lia|auto].
Qed.

(** The running thread that [may_call] or [may_sleep] gives. *)
Lemma view_current f s c t cp th :
  view f s → 0 ≤ c < nc → cpus s !! c = Some cp → threads s !! t = Some th → current cp = t →
  ∃ L T C, abs nr s L T C ∧ inv nc nr None L T C ∧ running nc T C ∧
    (∀ q, q ∈ qs → L q = f q) ∧ T !! t = Some (core th) ∧ is_cur C t (core th).
Proof.
  intros (L & T & C & Ha & Hi & Hr & E) Hc Ecp Eth <-.
  destruct (current_core nc nr s L T C c cp th Ha Hi Hc Ecp Eth) as (ET & _ & Hcur). eauto 12.
Qed.

Lemma view_off f s c t q : view f s → may_call c t s = true → q ∈ qs → t ∉ f q.
Proof.
  intros (L & T & C & Ha & Hi & _ & E) (cp & th & _ & Eth & _ & _ & Hst & Hqu)%may_call_inv Hq.
  rewrite <- E by done.
  assert (T !! t = Some (core th)) as ET
    by (rewrite <- (abs_threads _ _ _ _ _ Ha), lookup_fmap, Eth; done).
  pose proof (Hqs q Hq). apply (free_off nc nr L T C t (core th)); auto. lia.
Qed.

Lemma view_sleep f s c t :
  view f s → 0 ≤ c < nc → may_sleep c t s = true →
  runs s (sched_sleep t) (λ _ s', view f s').
Proof.
  intros Hv Hc Hm. unfold may_sleep in Hm. destruct (cpus s !! c) as [cp|] eqn:Ecp; [|done].
  destruct (threads s !! t) as [th|] eqn:Eth; [|done].
  apply bool_decide_eq_true in Hm as (Hcu & _ & Hst).
  destruct (view_current f s c t cp th Hv Hc Ecp Eth Hcu)
    as (L & T & C & Ha & Hi & Hr & E & ET & Hcur).
  eapply runs_mono; [by eapply (sched_sleep_ok nc nr)|].
  intros [] s' (L' & T' & C' & H1 & H2 & H3 & Hk). exists L', T', C'.
  split; [done|]. split; [done|].
  split; [by eapply (running_resched nc nr L T C T' C' (c_cpu (core th)))|].
  intros q Hq. pose proof (Hqs q Hq). rewrite Hk by lia. auto.
Qed.

Lemma view_wait_on f s c t q :
  view f s → 0 ≤ c < nc → may_call c t s = true → q ∈ qs →
  runs s (wait_on t q WAIT_LAST) (λ _ s', view (upd_ring f q (f q ++ [t])) s').
Proof.
  intros Hv Hc (cp & th & Ecp & Eth & Hcu & Hid & Hst & Hqu)%may_call_inv Hq.
  destruct (view_current f s c t cp th Hv Hc Ecp Eth Hcu)
    as (L & T & C & Ha & Hi & Hr & E & ET & Hcur).
  pose proof (Hqs q Hq).
  eapply runs_mono; [by eapply (wait_on_ok nc nr Hnc s L T C _ (core th) q WAIT_LAST)|].
  intros [] s' (Ha' & Hi'). eapply good_same; [exact Hi'|done|done|left; done|done|].
  cbn. intros r Hrq. unfold upd_ring. rewrite E by done.
  destruct (Z.eqb_spec r q) as [->|]; [done|]. auto.
Qed.

Lemma view_some f s t : view f s → is_Some (threads s !! t) →
  ∃ L T C, abs nr s L T C ∧ inv nc nr None L T C ∧ running nc T C ∧
    (∀ q, q ∈ qs → L q = f q) ∧ is_Some (T !! t).
Proof.
  intros (L & T & C & Ha & Hi & Hr & E) [th Hth]. exists L, T, C. split_and!; try done.
  rewrite <- (abs_threads _ _ _ _ _ Ha), lookup_fmap, Hth. eauto.
Qed.

Lemma view_wakeup_one f s t q :
  view f s → is_Some (threads s !! t) → q ∈ qs →
  runs s (wakeup_one t q WAIT_FIRST) (λ u s', u = head (f q) ∧ (f q = [] → s' = s) ∧
    (∀ c v, may_call c v s = true → may_call c v s' = true) ∧
    view (upd_ring f q (tail (f q))) s').
Proof.
  intros Hv Hth Hq. destruct (view_some f s t Hv Hth) as (L & T & C & Ha & Hi & Hr & E & HT).
  pose proof (Hqs q Hq).
  eapply runs_mono; [by eapply (wakeup_one_ok nc nr Hnc Hnr s L T C t q WAIT_FIRST)|].
  rewrite <- (E q Hq).
  intros [u|] s'.
  - intros (l1 & l2 & k & C' & El & H1 & Hk & Hs & Ha' & Hi'). cbn in H1. subst l1. cbn in El.
    rewrite El. split; [done|]. split; [done|]. split.
    { intros c v Hm. apply (may_call_abs nr _ _ _ _ c v Ha').
      pose proof Hm as [Hcur (kv & Hv' & Hk')]%(may_call_abs nr _ _ _ _ c v Ha).
      split; [by rewrite Hs|]. exists kv. split; [|done]. rewrite lookup_insert_ne; [done|].
      intros ->. apply (view_off f s c v q Hv Hm Hq). rewrite <- E, El by done. by left. }
    eapply good_same; [exact Hi'|exact Hr|done|do 2 right; done|done|].
    pose proof (home_lt nc k (i_wf _ _ _ _ _ _ Hi u k Hk)).
    cbn. intros r Hrq. pose proof (Hqs r Hrq). rewrite upd_ring_ne by lia. unfold upd_ring.
    destruct (Z.eqb_spec r q); auto.
  - intros [El ->]. rewrite El. split; [done|]. split; [done|]. split; [done|]. exists L, T, C.
    split_and!; try done. intros r Hrq. unfold upd_ring. destruct (Z.eqb_spec r q) as [->|]; auto.
Qed.

(** The thread that is woken up is ready. *)
Lemma view_woken f s t q s' u :
  view f s → is_Some (threads s !! t) → q ∈ qs →
  wakeup_one t q WAIT_FIRST s = Some (s', Some u) →
  ∃ th, threads s' !! u = Some th ∧ state th = S_READY.
Proof.
  intros Hv Hth Hq E'. destruct (view_some f s t Hv Hth) as (L & T & C & Ha & Hi & Hr & E & HT).
  destruct (wakeup_one_ok nc nr Hnc Hnr s L T C t q WAIT_FIRST Ha Hi HT (Hqs q Hq))
    as (s2 & r & E2 & HP).
  assert (s2 = s' ∧ r = Some u) as [-> ->] by (split; congruence).
  destruct HP as (l1 & l2 & k & C' & _ & _ & _ & _ & Ha' & _).
  pose proof (lookup_insert_eq T u (woken k)) as Hu.
  rewrite <- (abs_threads _ _ _ _ _ Ha'), lookup_fmap in Hu.
  destruct (threads s' !! u) as [th|]; [|done]. exists th. split; [done|]. by injection Hu as Eh.
Qed.

Lemma wake_all_ready T l u k :
  u ∈ l → T !! u = Some k → ∃ k', wake_all T l !! u = Some k' ∧ c_state k' = S_READY.
Proof.
  revert T k. induction l as [|v l IH] using rev_ind; intros T k Hin Hk; [by apply elem_of_nil in Hin|].
  rewrite wake_all_snoc. apply elem_of_app in Hin as [Hin|Hin%list_elem_of_singleton].
  - destruct (IH T k Hin Hk) as (k' & Hk' & Hs). destruct (decide (u = v)) as [->|Hne].
    + exists (woken k'). by rewrite lookup_alter_eq, Hk'.
    + exists k'. by rewrite lookup_alter_ne.
  - subst v. destruct (wake_all_is_Some T l u) as [k' Hk']; [eauto|].
    exists (woken k'). by rewrite lookup_alter_eq, Hk'.
Qed.

Lemma view_all_woken f s t q s' n u :
  view f s → is_Some (threads s !! t) → q ∈ qs → wakeup_all t q s = Some (s', n) → u ∈ f q →
  ∃ th, threads s' !! u = Some th ∧ state th = S_READY.
Proof.
  intros Hv Hth Hq E' Hu. destruct (view_some f s t Hv Hth) as (L & T & C & Ha & Hi & Hr & E & HT).
  destruct (wakeup_all_ok nc nr Hnc Hnr s L T C t q Ha Hi HT (Hqs q Hq))
    as (s2 & r & E2 & L' & C' & _ & _ & _ & _ & Ha' & _).
  assert (s2 = s') as -> by congruence. rewrite <- (E q Hq) in Hu.
  pose proof (Hqs q Hq) as Hr'.
  destruct (i_mem _ _ _ _ _ _ Hi q u ltac:(lia) Hu) as [k Hk].
  destruct (wake_all_ready T (L q) u k Hu Hk) as (k' & Hk' & Hs).
  rewrite <- (abs_threads _ _ _ _ _ Ha'), lookup_fmap in Hk'.
  destruct (threads s' !! u) as [th|]; [|done]. exists th. split; [done|].
  injection Hk' as <-. done.
Qed.

Lemma view_wakeup_all f s t q :
  view f s → is_Some (threads s !! t) → q ∈ qs →
  runs s (wakeup_all t q) (λ n s', n = u32 (Z.of_nat (length (f q))) ∧
    view (upd_ring f q []) s').
Proof.
  intros Hv Hth Hq. destruct (view_some f s t Hv Hth) as (L & T & C & Ha & Hi & Hr & E & HT).
  pose proof (Hqs q Hq). rewrite <- (E q Hq).
  eapply runs_mono; [by eapply (wakeup_all_ok nc nr Hnc Hnr s L T C t q)|].
  intros n s' (L' & C' & Hn & Hs & Hl & Hfr & Ha' & Hi'). split; [done|].
  exists L', (wake_all T (L q)), C'. split; [done|]. split; [done|]. split.
  - apply (running_change nc T C); [done..|]. intros u k' [Hl'|Ht]%wake_all_live; eauto.
  - intros r Hrq. pose proof (Hqs r Hrq). unfold upd_ring.
    destruct (Z.eqb_spec r q) as [->|]; [done|]. rewrite Hfr by (done || lia). auto.
Qed.

Lemma view_empty f s q Q :
  view f s → q ∈ qs → Q (bool_decide (f q = [])) s → runs s (wait_queue_isEmpty q) Q.
Proof.
  intros (L & T & C & Ha & _ & _ & E) Hq HQ. unfold wait_queue_isEmpty. pose proof (Hqs q Hq).
  eapply (runs_empty nr s L T C q); [done|lia|]. by rewrite E.
Qed.
End view.
