(* ===== verification/Sync.v ===== *)
(** * Semaphores, reader-writer locks and condition variables
    (src/kernel/kern/semaphore.c, src/kernel/kern/rwlock.c, src/kernel/kern/cond_var.c)

    Each function as the sequence of its critical section, on the scheduler and the wait queues
    of [Sched].  A function that puts the caller to sleep is split at the call of [sched_sleep]:
    the first part says whether the caller must sleep, a second part is what it does when it
    runs again. *)

From S2P Require Import Prelude Clist Bits Sched.

Open Scope Z_scope.

(** ** Semaphores *)

Definition SEM_VALUE_MAX : Z := 2048.

Definition SEM_SCOPE_SYS : Z := 1.
Definition SEM_SCOPE_USR : Z := 2.

(** [owner] is a thread or [NULL]; [sem_queue] is the root of [wait_queue]. *)
Record semaphore_s := {
  value : Z;
  sem_count : Z;
  scope : Z;
  owner : option Z;
  sem_queue : Z
}.

Definition set_sem_count (n : Z) (sem : semaphore_s) : semaphore_s :=
  {| value := value sem; sem_count := n; scope := scope sem; owner := owner sem;
     sem_queue := sem_queue sem |}.

Definition set_owner (o : option Z) (sem : semaphore_s) : semaphore_s :=
  {| value := value sem; sem_count := sem_count sem; scope := scope sem; owner := o;
     sem_queue := sem_queue sem |}.

(** [sem_init]; the field [owner] keeps what the memory held. *)
Definition sem_init (v sc : Z) (sem : semaphore_s) : M (Z * semaphore_s) :=
  if v >? SEM_VALUE_MAX then mret (EINVAL, sem) else
  wait_queue_init (sem_queue sem);;
  mret (0, {| value := v; sem_count := v; scope := sc; owner := owner sem;
              sem_queue := sem_queue sem |}).

Definition sem_getvalue (sem : semaphore_s) : Z := sem_count sem.

(** [(sem->value == 1) && (sem->count != 1) && (sem->owner == this)]: the count is read before
    the owner. *)
Definition sem_taken (sem : semaphore_s) : bool :=
  (value sem =? 1) && negb (sem_count sem =? 1).

Definition sem_relocks (this : Z) (sem : semaphore_s) : bool :=
  sem_taken sem && bool_decide (owner sem = Some this).

(** The critical section of [sem_wait]; [true]: the caller goes to sleep. *)
Definition sem_wait_cs (this : Z) (sem : semaphore_s) : M (semaphore_s * bool) :=
  let n := s32 (sem_count sem - 1) in
  let sem := set_sem_count n sem in
  if n >=? 0 then mret (sem, false)
  else
    wait_on this (sem_queue sem) WAIT_LAST;;
    mret (sem, true).

(** [sem->owner = this], after the critical section or the sleep. *)
Definition sem_wait_end (this : Z) (sem : semaphore_s) : semaphore_s := set_owner (Some this) sem.

(** [sem_wait] up to [sched_sleep], or to its end when the caller does not sleep. *)
Definition sem_wait (this : Z) (sem : semaphore_s) : M (Z * semaphore_s * bool) :=
  if sem_relocks this sem then mret (EDEADLK, sem, false) else
  '(sem, asleep) ← sem_wait_cs this sem;
  mret (0, if (asleep : bool) then sem else sem_wait_end this sem, asleep).

(** The check of [sem_post] on a mutex: [EINVAL] if it is free or the caller is not the owner.
    The count is read once. *)
Definition sem_post_refused (this : Z) (sem : semaphore_s) : bool :=
  (value sem =? 1) &&
  ((sem_count sem <=? 0) && negb (bool_decide (owner sem = Some this)) || (sem_count sem >? 0)).

(** The critical section of [sem_post]. *)
Definition sem_post_cs (this : Z) (sem : semaphore_s) : M semaphore_s :=
  let n := s32 (sem_count sem + 1) in
  let sem := set_sem_count n sem in
  thread ← (if n <=? 0 then wakeup_one this (sem_queue sem) WAIT_FIRST else mret None);
  mret (set_owner thread sem).

Definition sem_post (this : Z) (sem : semaphore_s) : M (Z * semaphore_s) :=
  if sem_post_refused this sem then mret (EINVAL, sem) else
  sem ← sem_post_cs this sem;
  mret (0, sem).

(** The critical section of [sem_trywait]. *)
Definition sem_trywait_cs (this : Z) (sem : semaphore_s) : Z * semaphore_s :=
  if sem_count sem >? 0
  then (0, set_owner (Some this) (set_sem_count (sem_count sem - 1) sem))
  else (EAGAIN, sem).

Definition sem_trywait (this : Z) (sem : semaphore_s) : Z * semaphore_s :=
  if sem_relocks this sem then (EDEADLK, sem) else sem_trywait_cs this sem.

Definition sem_destroy (sem : semaphore_s) : Z * semaphore_s :=
  if negb (sem_count sem =? value sem) then (EBUSY, sem) else (0, set_owner None sem).

(** ** Reader-writer locks *)

Record rwlock_s := {
  rw_count : Z;
  rd_queue : Z;
  wr_queue : Z
}.

Definition set_rw_count (n : Z) (rw : rwlock_s) : rwlock_s :=
  {| rw_count := n; rd_queue := rd_queue rw; wr_queue := wr_queue rw |}.

Definition rwlock_init (rw : rwlock_s) : M (Z * rwlock_s) :=
  wait_queue_init (rd_queue rw);;
  wait_queue_init (wr_queue rw);;
  mret (0, set_rw_count 0 rw).

(** [true]: the caller goes to sleep. *)
Definition rwlock_wrlock (this : Z) (rw : rwlock_s) : M (rwlock_s * bool) :=
  if rw_count rw =? 0 then mret (set_rw_count (s32 (rw_count rw - 1)) rw, false)
  else
    wait_on this (wr_queue rw) WAIT_LAST;;
    mret (rw, true).

Definition rwlock_rdlock (this : Z) (rw : rwlock_s) : M (rwlock_s * bool) :=
  e ← (if rw_count rw >=? 0 then wait_queue_isEmpty (wr_queue rw) else mret false);
  if (e : bool) then mret (set_rw_count (s32 (rw_count rw + 1)) rw, false)
  else
    wait_on this (rd_queue rw) WAIT_LAST;;
    mret (rw, true).

Definition rwlock_trywrlock (rw : rwlock_s) : Z * rwlock_s :=
  if negb (rw_count rw =? 0) then (EBUSY, rw) else (0, set_rw_count (s32 (rw_count rw - 1)) rw).

Definition rwlock_tryrdlock (rw : rwlock_s) : M (Z * rwlock_s) :=
  e ← (if rw_count rw >=? 0 then wait_queue_isEmpty (wr_queue rw) else mret false);
  if (e : bool) then mret (0, set_rw_count (s32 (rw_count rw + 1)) rw)
  else mret (EBUSY, rw).

Definition rwlock_unlock (this : Z) (rw : rwlock_s) : M (Z * rwlock_s) :=
  if rw_count rw =? 0 then mret (EPERM, rw)
  else if rw_count rw >? 1 then mret (0, set_rw_count (rw_count rw - 1) rw)
  else
    w ← wakeup_one this (wr_queue rw) WAIT_FIRST;
    match w with
    | Some _ => mret (0, set_rw_count (0 - 1) rw)
    | None =>
        n ← wakeup_all this (rd_queue rw);
        mret (0, set_rw_count (s32 (0 + n)) rw)
    end.

Definition rwlock_destroy (rw : rwlock_s) : Z := if negb (rw_count rw =? 0) then EBUSY else 0.

(** ** Condition variables *)

Record cv_s := { cv_queue : Z }.

Definition cv_init (cv : cv_s) : M Z :=
  wait_queue_init (cv_queue cv);;
  mret 0.

(** [cv_wait] up to [sched_sleep]: the mutex is released and the caller is on the queue.  When
    it runs again it calls [sem_wait]. *)
Definition cv_wait (this : Z) (cv : cv_s) (sem : semaphore_s) : M (Z * semaphore_s * bool) :=
  let v := sem_getvalue sem in
  if negb (bool_decide (owner sem = Some this)) || (v >? 0) then mret (EINVAL, sem, false) else
  '(err, sem) ← sem_post this sem;
  if ctrue err then mret (err, sem, false)
  else
    wait_on this (cv_queue cv) WAIT_LAST;;
    mret (0, sem, true).

Definition cv_signal (this : Z) (cv : cv_s) : M Z :=
  wakeup_one this (cv_queue cv) WAIT_FIRST;;
  mret 0.

Definition cv_broadcast (this : Z) (cv : cv_s) : M Z :=
  wakeup_all this (cv_queue cv);;
  mret 0.

Definition cv_destroy (cv : cv_s) : M Z :=
  e ← wait_queue_isEmpty (cv_queue cv);
  mret (if (e : bool) then 0 else EBUSY).
