(* ===== verification/SemSys.v ===== *)
(** * Semaphores under concurrency

    Threads that run on several processors and use one semaphore, on the scheduler of [Sched]:
    every access outside the critical sections, every critical section and every call of the
    scheduler is one step, and between them the processors do anything else the scheduler
    offers. *)

From stdpp Require Import relations.
From S2P Require Import Prelude Clist Bits Sched SchedSpec SchedSys WaitView Sync.

Open Scope Z_scope.

Inductive scall := CallWait | CallPost | CallTrywait.

(** The place of a thread in the functions of semaphore.c. *)
Inductive spc :=
  | SRet (err : Z)     (* outside; the last call returned [err] *)
  | SWaitOwner         (* sem_wait: the count was read, the owner is to be compared *)
  | SWait              (* sem_wait: the critical section is next *)
  | SSet               (* sem_wait: sem->owner = this is next *)
  | SSleep             (* sem_wait: sched_sleep is next *)
  | SAsleep            (* sem_wait: in sched_sleep *)
  | SPostOwner
  | SPost
  | STryOwner
  | STry.

#[global] Instance spc_eq_dec : EqDecision spc.
Proof. solve_decision. Defined.

(** [posts] counts the completed posts, [granted] the waits that have got the semaphore, and
    [has] is the set of threads that have got it and have not posted since. *)
Record ssys := {
  ker : kernel;
  sem : semaphore_s;
  pcs : gmap Z spc;
  posts : Z;
  granted : Z;
  has : gset Z
}.

Definition at_pc (t : Z) (p : spc) (x : ssys) : ssys :=
  {| ker := ker x; sem := sem x; pcs := <[t := p]> (pcs x); posts := posts x;
     granted := granted x; has := has x |}.

Definition with_ker (s : kernel) (x : ssys) : ssys :=
  {| ker := s; sem := sem x; pcs := pcs x; posts := posts x; granted := granted x;
     has := has x |}.

Definition with_sem (m : semaphore_s) (x : ssys) : ssys :=
  {| ker := ker x; sem := m; pcs := pcs x; posts := posts x; granted := granted x;
     has := has x |}.

Definition grant (t : Z) (x : ssys) : ssys :=
  {| ker := ker x; sem := sem x; pcs := pcs x; posts := posts x; granted := granted x + 1;
     has := has x ∪ {[t]} |}.

(** A post by [t], which may have given the semaphore to a waiting thread. *)
Definition posted (t : Z) (x : ssys) : ssys :=
  {| ker := ker x; sem := sem x; pcs := pcs x; posts := posts x + 1; granted := granted x;
     has := has x ∖ {[t]} |}.

Definition handed (u : option Z) (x : ssys) : ssys :=
  match u with Some u => grant u x | None => x end.

(** The next step of thread [t]; a thread outside makes the call [c]. *)
Definition sem_next (t : Z) (c : scall) (x : ssys) : option ssys :=
  p ← pcs x !! t;
  match p with
  | SRet _ =>
      Some (match c with
            | CallWait => at_pc t (if sem_taken (sem x) then SWaitOwner else SWait) x
            | CallTrywait => at_pc t (if sem_taken (sem x) then STryOwner else STry) x
            | CallPost =>
                if negb (value (sem x) =? 1) then at_pc t SPost x
                else if sem_count (sem x) <=? 0 then at_pc t SPostOwner x
                else at_pc t (SRet EINVAL) x
            end)
  | SWaitOwner =>
      Some (at_pc t (if bool_decide (owner (sem x) = Some t) then SRet EDEADLK else SWait) x)
  | SWait =>
      '(s, (m, asleep)) ← sem_wait_cs t (sem x) (ker x);
      let x := with_sem m (with_ker s x) in
      Some (if (asleep : bool) then at_pc t SSleep x else at_pc t SSet (grant t x))
  | SSet => Some (at_pc t (SRet 0) (with_sem (sem_wait_end t (sem x)) x))
  | SSleep =>
      '(s, _) ← sched_sleep t (ker x);
      Some (at_pc t SAsleep (with_ker s x))
  | SAsleep => Some (at_pc t (SRet 0) (with_sem (sem_wait_end t (sem x)) x))
  | SPostOwner =>
      Some (at_pc t (if bool_decide (owner (sem x) = Some t) then SPost else SRet EINVAL) x)
  | SPost =>
      '(s, m) ← sem_post_cs t (sem x) (ker x);
      Some (at_pc t (SRet 0) (handed (owner m) (posted t (with_sem m (with_ker s x)))))
  | STryOwner =>
      Some (at_pc t (if bool_decide (owner (sem x) = Some t) then SRet EDEADLK else STry) x)
  | STry =>
      let '(err, m) := sem_trywait_cs t (sem x) in
      let x := with_sem m x in
      Some (at_pc t (SRet err) (if err =? 0 then grant t x else x))
  end.

(** The same step on the list [l] of the waiting threads in the place of the scheduler. *)
Definition sem_spec (t : Z) (c : scall) (p : spc) (x : ssys) (l : list Z) : ssys * list Z :=
  match p with
  | SWait =>
      let n := s32 (sem_count (sem x) - 1) in
      let x := with_sem (set_sem_count n (sem x)) x in
      if n <? 0 then (at_pc t SSleep x, l ++ [t]) else (at_pc t SSet (grant t x), l)
  | SSleep => (at_pc t SAsleep x, l)
  | SPost =>
      let n := s32 (sem_count (sem x) + 1) in
      let u := if n <=? 0 then head l else None in
      let x := with_sem (set_owner u (set_sem_count n (sem x))) x in
      (at_pc t (SRet 0) (handed u (posted t x)), if u then tail l else l)
  | _ => (default x (sem_next t c x), l)
  end.

Section sys.
Context (nc nr : Z).

(** Thread [t] runs on processor [c] and may take its next step. *)
Definition may_step (c t : Z) (x : ssys) : bool :=
  match pcs x !! t with
  | Some SSleep => may_sleep c t (ker x)
  | Some _ => may_call c t (ker x)
  | None => false
  end.

(** The other operations do not touch the queue of the semaphore, and a thread that is about to
    sleep on it sleeps as [sem_wait] says. *)
Definition may_kop (c : Z) (op : kop) (x : ssys) : bool :=
  enabled nc nr c op (ker x) &&
  bool_decide (op_queue op ≠ Some (sem_queue (sem x))) &&
  match op, cpus (ker x) !! c with
  | Sleep, Some cp => negb (bool_decide (pcs x !! current cp = Some SSleep))
  | _, _ => true
  end.

Inductive sem_step : ssys → ssys → Prop :=
  | step_kop c op x s :
      0 ≤ c < nc → may_kop c op x = true → do_op c op (ker x) = Some (s, tt) →
      sem_step x (with_ker s x)
  | step_sem c t call x x' :
      0 ≤ c < nc → may_step c t x = true → sem_next t call x = Some x' → sem_step x x'.

(** The start: the machine of [SchedSys.initial], a semaphore as [sem_init] leaves it, and
    threads that have not used it. *)
Record sem_initial (x : ssys) : Prop := {
  si_ker : initial nc nr (ker x);
  si_count : sem_count (sem x) = value (sem x);
  si_value : 0 ≤ value (sem x) ≤ SEM_VALUE_MAX;
  si_queue : 3 * nc ≤ sem_queue (sem x) < nr;
  si_pcs : ∀ t p, pcs x !! t = Some p → p = SRet 0;
  si_size : Z.of_nat (size (pcs x)) < 2 ^ 31;
  si_ghost : posts x = 0 ∧ granted x = 0 ∧ has x = ∅
}.

Section proofs.
Hypothesis (Hnc : 0 < nc) (Hnr : 3 * nc ≤ nr).

Section queue.
Context (q : Z) (Hq : 3 * nc ≤ q < nr).
#[local] Set Default Proof Using "All".

(** The scheduler is in a good state and [l] are the threads on the queue. *)
Definition G (l : list Z) (s : kernel) : Prop := view nc nr [q] (λ _, l) s.

Lemma q_range r : r ∈ [q] → 3 * nc ≤ r < nr.
Proof. by intros ->%list_elem_of_singleton. Qed.

Lemma q_here : q ∈ [q].
Proof. by left. Qed.

Lemma G_upd l l' s : view nc nr [q] (upd_ring (λ _, l) q l') s → G l' s.
Proof.
  intros Hv. eapply (view_ext nc nr Hnc Hnr [q] q_range); [exact Hv|]. intros r ->%list_elem_of_singleton. apply upd_ring_eq.
Qed.

Lemma G_waiters l s : G l s → waiters nr s q l.
Proof. intros HG. exact (view_waiters nc nr Hnc Hnr [q] q_range _ s q HG q_here). Qed.

Lemma G_wait l s c t m :
  G l s → 0 ≤ c < nc → may_call c t s = true → sem_queue m = q →
  let n := s32 (sem_count m - 1) in
  runs s (sem_wait_cs t m) (λ r s', r = (set_sem_count n m, n <? 0) ∧
    G (if n <? 0 then l ++ [t] else l) s').
Proof.
  intros HG Hc Hm Em n. unfold sem_wait_cs. fold n.
  rewrite Z.geb_leb, Z.leb_antisym. destruct (n <? 0); cbn [negb]; [|by apply runs_ret].
  apply runs_bind. cbn [sem_queue set_sem_count]. rewrite Em.
  eapply runs_mono; [eapply (view_wait_on nc nr Hnc Hnr [q] q_range); [done..|apply q_here]|].
  intros [] s' Hv. apply runs_ret. split; [done|]. by eapply G_upd.
Qed.

Lemma G_post l s t m :
  G l s → is_Some (threads s !! t) → sem_queue m = q →
  let n := s32 (sem_count m + 1) in
  runs s (sem_post_cs t m) (λ r s',
    let u := if n <=? 0 then head l else None in
    r = set_owner u (set_sem_count n m) ∧ G (if u then tail l else l) s').
Proof.
  intros HG Hth Em n. unfold sem_post_cs. fold n. apply runs_bind.
  cbn [sem_queue set_sem_count]. rewrite Em.
  destruct (n <=? 0); [|by do 2 apply runs_ret].
  eapply runs_mono; [eapply (view_wakeup_one nc nr Hnc Hnr [q] q_range); [done..|apply q_here]|].
  intros u s' (-> & _ & _ & Hv%G_upd). apply runs_ret. split; [done|]. by destruct l.
Qed.

(** ** The steps, seen from the semaphore *)

Lemma sem_next_ok x c t call l :
  G l (ker x) → sem_queue (sem x) = q → 0 ≤ c < nc → may_step c t x = true →
  ∃ p s', pcs x !! t = Some p ∧ (p ≠ SSleep → t ∉ l) ∧
    sem_next t call x = Some (with_ker s' (fst (sem_spec t call p x l))) ∧
    G (snd (sem_spec t call p x l)) s'.
Proof.
  intros HG Eq Hc Hm. unfold may_step in Hm.
  destruct (pcs x !! t) as [p|] eqn:Ep; [|done]. exists p.
  assert (p ≠ SSleep → may_call c t (ker x) = true) as Hst by (by destruct p).
  assert (p ≠ SSleep → t ∉ l) as Hl.
  { intros Hp%Hst. apply (view_off nc nr Hnc Hnr [q] q_range _ _ _ _ q HG Hp q_here). }
  assert (∀ x', sem_next t call x = Some x' → ker x' = ker x →
    ∃ s', Some p = Some p ∧ (p ≠ SSleep → t ∉ l) ∧
      sem_next t call x =
        Some (with_ker s' (fst (default x (sem_next t call x), l))) ∧ G l s') as Heasy.
  { intros x' E Ek. exists (ker x). rewrite E. cbn. split_and!; try done.
    rewrite <- Ek. by destruct x'. }
  destruct p; try (apply (Heasy (default x (sem_next t call x)));
    unfold sem_next; rewrite Ep; cbn; try (destruct (sem_trywait_cs _ _); cbn);
    repeat case_match; done).
  - destruct (G_wait l (ker x) c t (sem x)) as (s' & r & E & -> & HG'); try done.
    exists s'. unfold sem_next. rewrite Ep. cbn. rewrite E. cbn.
    destruct (_ <? 0); by split_and!.
  - destruct (view_sleep nc nr Hnc Hnr [q] q_range _ (ker x) c t HG Hc Hm) as (s' & [] & E & HG').
    exists s'. unfold sem_next. rewrite Ep. cbn. rewrite E. by split_and!.
  - destruct (may_call_inv c t (ker x) Hm) as (_ & th & _ & Eth & _).
    destruct (G_post l (ker x) t (sem x)) as (s' & r & E & -> & HG'); try done.
    exists s'. unfold sem_next. rewrite Ep. cbn. rewrite E. cbn.
    destruct (if _ <=? 0 then head l else None); by split_and!.
Qed.

(** An invariant of the steps on the list is an invariant of the system. *)
Lemma sem_step_ok (I : ssys → list Z → Prop) x x' l :
  (∀ s, I x l → I (with_ker s x) l) →
  (∀ t call p s, pcs x !! t = Some p → (p ≠ SSleep → t ∉ l) → NoDup l → I x l →
     I (with_ker s (fst (sem_spec t call p x l))) (snd (sem_spec t call p x l))) →
  G l (ker x) → sem_queue (sem x) = q → I x l → sem_step x x' →
  ∃ l', G l' (ker x') ∧ I x' l'.
Proof.
  intros Hk Hs HG Eq HI Hst. destruct Hst as [c op x s Hc Hm E|c t call x x' Hc Hm E].
  - apply andb_true_iff in Hm as [[Hm Ho%bool_decide_eq_true]%andb_true_iff _].
    destruct (view_kop nc nr Hnc Hnr [q] q_range _ c op (ker x) HG Hc Hm) as (s' & [] & E' & HG').
    { intros r ->%list_elem_of_singleton. by rewrite <- Eq. }
    exists l. assert (s = s') as -> by congruence. auto.
  - destruct (sem_next_ok x c t call l HG Eq Hc Hm) as (p & s' & Ep & Hl & E' & HG').
    rewrite E in E'. injection E' as ->. exists (snd (sem_spec t call p x l)).
    split; [done|]. apply Hs; try done.
    exact (view_nodup nc nr Hnc Hnr [q] q_range _ _ q HG q_here).
Qed.
End queue.

Lemma sem_spec_frame t call p x l :
  pcs x !! t = Some p → let x' := fst (sem_spec t call p x l) in
  value (sem x') = value (sem x) ∧ sem_queue (sem x') = sem_queue (sem x) ∧
  size (pcs x') = size (pcs x) ∧ posts x ≤ posts x'.
Proof.
  intros Ep. cbn. destruct p; unfold sem_spec, sem_next; rewrite ?Ep; cbn;
    try (destruct call); unfold sem_trywait_cs, handed; repeat case_match; simplify_eq/=;
    rewrite ?map_size_insert_Some by eauto; split_and!; try done; try lia.
Qed.

(** The order of service. *)
Definition served (x : ssys) (l : list Z) (x' : ssys) (l' : list Z) : Prop :=
  l' = l ∨ (∃ t, l' = l ++ [t]) ∨
  ∃ t, l = t :: l' ∧ posts x' = posts x + 1 ∧ granted x' = granted x + 1.

Lemma sem_spec_served t call p x l s :
  served x l (with_ker s (fst (sem_spec t call p x l))) (snd (sem_spec t call p x l)).
Proof.
  unfold served. destruct p; unfold sem_spec; cbn; auto.
  - destruct (_ <? 0); cbn; eauto.
  - destruct (_ <=? 0); [|by auto]. destruct l as [|u l]; [by auto|]. cbn. right; right.
    by exists u.
Qed.

(** ** Counting *)

(** The steps outside the critical sections change the place of the thread, and the owner. *)
Definition outside (p : spc) : Prop := p ≠ SWait ∧ p ≠ SSleep ∧ p ≠ SPost ∧ p ≠ STry.

Lemma set_owner_id m : set_owner (owner m) m = m.
Proof. by destruct m. Qed.

Lemma with_sem_id x : with_sem (sem x) x = x.
Proof. by destruct x. Qed.

Lemma sem_spec_outside t call p x l :
  pcs x !! t = Some p → outside p →
  ∃ p' o, sem_spec t call p x l = (at_pc t p' (with_sem (set_owner o (sem x)) x), l).
Proof.
  intros Ep (H1 & H2 & H3 & H4).
  assert (∀ p', ∃ p'' o, (at_pc t p' x, l) = (at_pc t p'' (with_sem (set_owner o (sem x)) x), l))
    as Hid.
  { intros p'. exists p', (owner (sem x)). by rewrite set_owner_id, with_sem_id. }
  unfold sem_spec, sem_next. rewrite Ep. destruct p; try done; cbn; eauto.
  destruct call; repeat case_match; eauto.
Qed.

(** The count is the number of permits left, or minus the number of waiting threads. *)
Record ginv (V : Z) (x : ssys) (l : list Z) : Prop := {
  g_value : value (sem x) = V;
  g_size : Z.of_nat (size (pcs x)) < 2 ^ 31;
  g_count : sem_count (sem x) = V + posts x - granted x - Z.of_nat (length l);
  g_len : Z.of_nat (length l) = Z.max 0 (- sem_count (sem x));
  g_top : V + posts x < 2 ^ 31;
  g_grant : 0 ≤ granted x;
  g_pcs : ∀ t, t ∈ l → pcs x !! t = Some SSleep ∨ pcs x !! t = Some SAsleep
}.

Lemma sleeping_insert (m : gmap Z spc) (l : list Z) t p :
  t ∉ l → (∀ u, u ∈ l → m !! u = Some SSleep ∨ m !! u = Some SAsleep) →
  ∀ u, u ∈ l → <[t := p]> m !! u = Some SSleep ∨ <[t := p]> m !! u = Some SAsleep.
Proof. intros Ht Hm u Hu. rewrite lookup_insert_ne; [auto|]. by intros ->. Qed.

Lemma ginv_spec V x l t call p s :
  pcs x !! t = Some p → (p ≠ SSleep → t ∉ l) → NoDup l → ginv V x l →
  let x' := fst (sem_spec t call p x l) in
  V + posts x' < 2 ^ 31 → ginv V (with_ker s x') (snd (sem_spec t call p x l)).
Proof.
  intros Ep Hl Hn [Hv Hs Hc Hlen Ht Hg Hp]. cbn. intros HB.
  assert (Z.of_nat (length l) ≤ Z.of_nat (size (pcs x))) as Hle.
  { apply inj_le, nodup_size; [done|]. intros u [->| ->]%Hp; eauto. }
  assert (∀ p', Z.of_nat (size (<[t := p']> (pcs x))) < 2 ^ 31) as Hs'
    by (intros p'; rewrite map_size_insert_Some; eauto).
  destruct (decide (p = SWait)) as [->|N1]; [|destruct (decide (p = SSleep)) as [->|N2];
    [|destruct (decide (p = SPost)) as [->|N3]; [|destruct (decide (p = STry)) as [->|N4]]]].
  - unfold sem_spec in *. rewrite s32_small in * by lia.
    destruct (Z.ltb_spec (sem_count (sem x) - 1) 0).
    + split; cbn; try rewrite length_app; cbn; try done; try lia.
      intros u [Hu| ->%list_elem_of_singleton]%elem_of_app;
        [|rewrite lookup_insert_eq; auto]. apply (sleeping_insert _ l); auto.
    + split; cbn; try done; try lia. apply sleeping_insert; auto.
  - split; cbn; try done. intros u Hu. destruct (decide (u = t)) as [->|Hne];
      [rewrite lookup_insert_eq; auto|rewrite lookup_insert_ne by done; auto].
  - unfold sem_spec in *. rewrite s32_small in * by (cbn in HB; destruct (if _ : bool then _ else _); cbn in *; lia).
    destruct (Z.leb_spec (sem_count (sem x) + 1) 0); [destruct l as [|u l]; [cbn in *; lia|]|].
    + split; cbn in *; try done; try lia. apply sleeping_insert; [set_solver|].
      intros v Hv'. apply Hp. by right.
    + split; cbn in *; try done; try lia. apply sleeping_insert; auto.
  - unfold sem_spec, sem_next in *. rewrite Ep in *. cbn in *. unfold sem_trywait_cs in *.
    rewrite Z.gtb_ltb in *. destruct (Z.ltb_spec 0 (sem_count (sem x)));
      split; cbn in *; try done; try lia; apply sleeping_insert; auto.
  - destruct (sem_spec_outside t call p x l Ep) as (p' & o & E); [done|]. rewrite E in *.
    split; cbn in *; try done. apply sleeping_insert; auto.
Qed.

(** ** Mutual exclusion *)

(** What the place of a thread says of a semaphore of value 1. *)
Definition pc_ok (x : ssys) (l : list Z) (u : Z) (p : spc) : Prop :=
  match p with
  | SRet _ | SWaitOwner | SPostOwner | STryOwner => u ∈ has x → owner (sem x) = Some u
  | SWait | STry => u ∉ has x
  | SSet => u ∈ has x
  | SPost => u ∈ has x ∧ owner (sem x) = Some u
  | SSleep | SAsleep => u ∈ l ∨ u ∈ has x
  end.

(** [h] is the thread that has the semaphore. *)
Record minv (x : ssys) (l : list Z) (h : option Z) : Prop := {
  m_value : value (sem x) = 1;
  m_size : Z.of_nat (size (pcs x)) < 2 ^ 31;
  m_has : ∀ u, u ∈ has x ↔ h = Some u;
  m_count : sem_count (sem x) = (if h then 0 else 1) - Z.of_nat (length l);
  m_wait : h = None → l = [];
  m_owner : ∀ u, owner (sem x) = Some u → is_Some (pcs x !! u) → h = Some u;
  m_pc : ∀ u p, pcs x !! u = Some p → pc_ok x l u p;
  m_l : ∀ u, u ∈ l → h ≠ Some u ∧ (pcs x !! u = Some SSleep ∨ pcs x !! u = Some SAsleep)
}.

Lemma insert_back {A} (m : gmap Z A) t y u :
  is_Some (m !! t) → is_Some (<[t := y]> m !! u) → is_Some (m !! u).
Proof. intros Ht. destruct (decide (u = t)) as [->|Hne]; [done|]. by rewrite lookup_insert_ne. Qed.

(** A step of [t] that keeps the queue and the holder. *)
Lemma minv_move x l h t p o s :
  minv x l h → (t ∈ l → p = SAsleep) →
  o = owner (sem x) ∨ o = Some t ∧ h = Some t →
  pc_ok (at_pc t p (with_sem (set_owner o (sem x)) x)) l t p → is_Some (pcs x !! t) →
  minv (with_ker s (at_pc t p (with_sem (set_owner o (sem x)) x))) l h.
Proof.
  intros [H1 H2 H3 H4 H5 H6 H7 H8] Ht Ho Hp Hs. split; cbn; try done.
  - by rewrite map_size_insert_Some.
  - intros u E Hu%insert_back; [|done]. destruct Ho as [Ho|[Ho ?]]; [apply H6|]; congruence.
  - intros u p'. rewrite lookup_insert_Some. intros [[<- <-]|[Hne Hu]]; [by destruct p|].
    pose proof (H7 u p' Hu) as Hk. unfold pc_ok in *. cbn.
    destruct Ho as [->|[-> Hh]]; [done|].
    pose proof (H3 u) as Hu3. clear - Hk Hu3 Hh Hne. destruct p'; naive_solver.
  - intros u Hu. split; [by apply H8|]. destruct (decide (u = t)) as [->|Hne].
    + rewrite lookup_insert_eq. rewrite Ht by done. auto.
    + rewrite lookup_insert_ne by done. by apply H8.
Qed.

Lemma minv_stay x l h t p s :
  minv x l h → (t ∈ l → p = SAsleep) → pc_ok x l t p → is_Some (pcs x !! t) →
  minv (with_ker s (at_pc t p x)) l h.
Proof.
  intros Hm Ht Hp Hs. rewrite <- (with_sem_id x), <- (set_owner_id (sem x)).
  apply minv_move; try done. by left.
Qed.

Lemma minv_outside x l h t call p s :
  pcs x !! t = Some p → t ∉ l → outside p → minv x l h →
  minv (with_ker s (fst (sem_spec t call p x l))) (snd (sem_spec t call p x l)) h.
Proof.
  intros Ep Hl (N1 & N2 & N3 & N4) Hm. pose proof (m_pc _ _ _ Hm t p Ep) as Hp.
  assert (∀ p', pc_ok x l t p' → minv (with_ker s (at_pc t p' x)) l h) as Hsame.
  { intros p' Hp'. by apply minv_stay. }
  assert (sem_taken (sem x) = false → t ∉ has x) as Hfree.
  { unfold sem_taken. rewrite (m_value _ _ _ Hm). cbn. intros Hc%negb_false_iff%Z.eqb_eq.
    rewrite (m_count _ _ _ Hm) in Hc. rewrite (m_has _ _ _ Hm). intros ->. lia. }
  assert (t ∈ has x → minv (with_ker s (at_pc t (SRet 0)
    (with_sem (set_owner (Some t) (sem x)) x))) l h) as Hset.
  { intros Hin. apply minv_move; try done. right. split; [done|].
    by apply (m_has _ _ _ Hm). }
  unfold sem_spec, sem_next. rewrite Ep. destruct p; try done; cbn in *.
  - destruct call; cbn.
    + destruct (sem_taken (sem x)); apply Hsame; cbn; auto.
    + rewrite (m_value _ _ _ Hm). cbn. destruct (_ <=? 0); apply Hsame; done.
    + destruct (sem_taken (sem x)); apply Hsame; cbn; auto.
  - case_bool_decide; apply Hsame; cbn; auto.
  - by apply Hset.
  - apply Hset. tauto.
  - case_bool_decide as Ho; apply Hsame; cbn; [|done]. split; [|done].
    apply (m_has _ _ _ Hm). apply (m_owner _ _ _ Hm); eauto.
  - case_bool_decide; apply Hsame; cbn; auto.
Qed.

(** The semaphore is free and [t] takes it. *)
Lemma minv_grant x l t p o s :
  minv x l None → is_Some (pcs x !! t) → o = owner (sem x) ∨ o = Some t →
  p = SSet ∨ p = SRet 0 ∧ o = Some t →
  minv (with_ker s (at_pc t p (grant t
    (with_sem (set_owner o (set_sem_count (sem_count (sem x) - 1) (sem x))) x)))) l (Some t).
Proof.
  intros [H1 H2 H3 H4 H5 H6 H7 H8] Hs Ho Hp.
  assert (has x = ∅) as Eh by (apply set_eq; intros u; rewrite H3; set_solver).
  pose proof (H5 eq_refl) as El. cbn in H4. subst l. cbn in *. split; cbn; try done.
  - by rewrite map_size_insert_Some.
  - intros u. rewrite Eh. set_solver.
  - lia.
  - intros u -> Hu%insert_back; [|done]. destruct Ho as [E|[= ->]]; [|done]. symmetry in E. by apply H6 in E.
  - intros u p'. rewrite lookup_insert_Some. intros [[<- <-]|[Hne Hu]].
    + destruct Hp as [->|[-> ->]]; cbn; [set_solver|done].
    + pose proof (H7 u p' Hu) as Hk. unfold pc_ok in *. cbn. rewrite Eh in *.
      destruct p'; set_solver.
  - intros u Hu. by apply elem_of_nil in Hu.
Qed.

(** [t] has the semaphore and gives it up, or gives it to the first waiting thread. *)
Lemma minv_post x l t s :
  minv x l (Some t) → NoDup l → pcs x !! t = Some SPost → t ∉ l →
  minv (with_ker s (fst (sem_spec t CallPost SPost x l))) (snd (sem_spec t CallPost SPost x l))
    (head l).
Proof.
  intros [H1 H2 H3 H4 H5 H6 H7 H8] Hn Ep Hl.
  assert (Z.of_nat (length l) ≤ Z.of_nat (size (pcs x))) as Hle.
  { apply inj_le, nodup_size; [done|]. intros u [_ [->| ->]]%H8; eauto. }
  assert (has x ∖ {[t]} = ∅) as Eh by (apply set_eq; intros u; rewrite elem_of_difference, H3; set_solver).
  unfold sem_spec. rewrite s32_small by lia. rewrite H4.
  destruct l as [|u l]; cbn [head tail length] in *.
  - rewrite (proj2 (Z.leb_gt _ _)) by lia. split; cbn; try done.
    + rewrite map_size_insert_Some; eauto.
    + intros v. rewrite Eh. set_solver.
    + intros v p. rewrite lookup_insert_Some. unfold pc_ok. cbn. rewrite Eh.
      intros [[<- <-]|[Hne Hv]]; [set_solver|]. pose proof (H7 v p Hv) as Hk. unfold pc_ok in Hk.
      pose proof (H3 v) as Hv3. destruct p; set_solver.
    + set_solver.
  - rewrite (proj2 (Z.leb_le _ _)) by lia. apply NoDup_cons in Hn as [Hu Hn].
    destruct (H8 u) as [Hut Hup]; [by left|].
    split; cbn; try done; try lia.
    + rewrite map_size_insert_Some; eauto.
    + intros v. rewrite Eh. set_solver.
    + intros v p. rewrite lookup_insert_Some. unfold pc_ok. cbn. rewrite Eh.
      intros [[<- <-]|[Hne Hv]]; [set_solver|]. pose proof (H7 v p Hv) as Hk. unfold pc_ok in Hk.
      pose proof (H3 v) as Hv3. destruct (decide (v = u)) as [->|Hvu].
      * destruct Hup as [E|E]; rewrite E in Hv; injection Hv as <-; set_solver.
      * destruct p; set_solver.
    + intros v Hv. split; [congruence|]. rewrite lookup_insert_ne by (intros ->; set_solver).
      apply H8. by right.
Qed.

Lemma minv_spec x l h t call p s :
  pcs x !! t = Some p → (p ≠ SSleep → t ∉ l) → NoDup l → minv x l h →
  ∃ h', minv (with_ker s (fst (sem_spec t call p x l))) (snd (sem_spec t call p x l)) h'.
Proof.
  intros Ep Hl Hn Hm. pose proof (m_pc _ _ _ Hm t p Ep) as Hp. pose proof (m_has _ _ _ Hm t) as Hh.
  assert (Z.of_nat (length l) ≤ Z.of_nat (size (pcs x))) as Hle.
  { apply inj_le, nodup_size; [done|]. intros u [_ [->| ->]]%(m_l _ _ _ Hm); eauto. }
  pose proof (m_size _ _ _ Hm) as Hs. pose proof (m_count _ _ _ Hm) as Hc.
  pose proof (m_wait _ _ _ Hm) as Hw.
  destruct (decide (p = SWait)) as [->|N1]; [|destruct (decide (p = SSleep)) as [->|N2];
    [|destruct (decide (p = SPost)) as [->|N3]; [|destruct (decide (p = STry)) as [->|N4]]]].
  - unfold sem_spec. rewrite s32_small by (destruct h; lia). destruct h as [h|].
    + exists (Some h). rewrite (proj2 (Z.ltb_lt _ _)) by lia. cbn in Hp.
      destruct Hm as [H1 H2 H3 H4 H5 H6 H7 H8]. split; cbn; try done.
      * rewrite map_size_insert_Some; eauto.
      * rewrite length_app. cbn. lia.
      * intros u E Hu%insert_back; eauto.
      * intros u p'. rewrite lookup_insert_Some. unfold pc_ok. cbn.
        intros [[<- <-]|[Hne Hu]]; [left; apply elem_of_app; right; by left|].
        pose proof (H7 u p' Hu) as Hk. unfold pc_ok in Hk. destruct p'; try done; set_solver.
      * intros u [Hu| ->%list_elem_of_singleton]%elem_of_app.
        -- split; [by apply H8|]. rewrite lookup_insert_ne by (intros ->; by apply Hl).
           by apply H8.
        -- rewrite lookup_insert_eq. split; [|by left]. tauto.
    + exists (Some t). rewrite (Hw eq_refl) in Hc |- *. rewrite (proj2 (Z.ltb_ge _ _)) by (cbn in Hc; lia).
      rewrite <- (set_owner_id (set_sem_count _ _)). rewrite (Hw eq_refl) in Hm.
      apply minv_grant; eauto.
  - exists h. by apply minv_stay.
  - exists (head l). destruct Hp as [Hin _]. apply Hh in Hin. subst h.
    by apply minv_post; auto.
  - unfold sem_spec, sem_next. rewrite Ep. cbn. unfold sem_trywait_cs. rewrite Z.gtb_ltb.
    destruct (Z.ltb_spec 0 (sem_count (sem x))); cbn.
    + exists (Some t). destruct h; [lia|]. apply minv_grant; eauto.
    + exists h. rewrite with_sem_id. apply minv_stay; try done; intros Hin; [by destruct Hl|].
      by destruct (Hp Hin).
  - exists h. by apply minv_outside; auto.
Qed.

(** ** Executions *)

(** Along an execution the scheduler is in a good state and an invariant [I] of the steps on
    the list holds. *)
Lemma sem_reach (I : ssys → list Z → Prop) x0 x :
  (∀ x l s, I x l → I (with_ker s x) l) →
  (∀ x l t call p s, pcs x !! t = Some p → (p ≠ SSleep → t ∉ l) → NoDup l → I x l →
     I (with_ker s (fst (sem_spec t call p x l))) (snd (sem_spec t call p x l))) →
  sem_initial x0 → I x0 [] → rtc sem_step x0 x →
  sem_queue (sem x) = sem_queue (sem x0) ∧ ∃ l, G (sem_queue (sem x)) l (ker x) ∧ I x l.
Proof.
  intros Hk Hs Hi HI Hr. pose proof (si_queue _ Hi) as Hq.
  set (J x l := sem_queue (sem x) = sem_queue (sem x0) ∧ I x l).
  assert (∃ l, G (sem_queue (sem x0)) l (ker x0) ∧ J x0 l) as H0.
  { exists []. split; [|done]. apply (view_initial nc nr Hnc Hnr); [by apply q_range|]. apply Hi. }
  assert (∃ l, G (sem_queue (sem x0)) l (ker x) ∧ J x l) as (l & HG & E & HI').
  { set (q := sem_queue (sem x0)) in *. clearbody q. clear Hi HI.
    induction Hr as [|x1 x2 x3 Hst _ IH]; [done|]. apply IH.
    destruct H0 as (l & HG & HJ). pose proof HJ as [E _].
    eapply (sem_step_ok q Hq J x1 x2 l); try done.
    - intros s [? ?]. split; [done|auto].
    - intros t call p s Ep Hl Hn [Eq HI]. split; [|auto].
      cbn. rewrite <- Eq. by apply sem_spec_frame. }
  rewrite E. eauto.
Qed.
End proofs.

(** C22. A semaphore never lets more waits through than its initial value and the posts allow, and
    keeps no thread waiting while it could let one through: the count is what is left, or minus
    the number of waiting threads.  This is for any number of threads on any number of
    processors, whatever else they do with the scheduler; no step fails; and the threads are
    served in the order in which they came: a step puts a thread at the end of the queue, or a
    post takes the first thread out of it.  The value and the number of posts together stay below
    2^31, where the count would wrap around; and, as in [sched_safe], a thread is not preempted
    between [wait_on] and [sched_sleep] ([preempted_waiter_corrupts]). *)
Theorem sem_counts x0 x :
  0 < nc → 3 * nc ≤ nr → sem_initial x0 → rtc sem_step x0 x →
  value (sem x0) + posts x < 2 ^ 31 →
  ∃ l, waiters nr (ker x) (sem_queue (sem x)) l ∧
    sem_count (sem x) = value (sem x0) + posts x - granted x - Z.of_nat (length l) ∧
    granted x ≤ value (sem x0) + posts x ∧
    (l ≠ [] → granted x = value (sem x0) + posts x) ∧
    (∀ c t call, 0 ≤ c < nc → may_step c t x = true → is_Some (sem_next t call x)) ∧
    (∀ x', sem_step x x' → ∃ l', waiters nr (ker x') (sem_queue (sem x')) l' ∧
       served x l x' l').
Proof.
  intros Hnc Hnr Hi Hr HB.
  set (I x l := value (sem x0) + posts x < 2 ^ 31 → ginv (value (sem x0)) x l).
  destruct (sem_reach Hnc Hnr I x0 x) as (Eq & l & HG & HI); try done.
  { intros y l s HI HB'. destruct (HI HB'). by split. }
  { intros y l t call p s Ep Hl Hn HI HB'. apply ginv_spec; try done. apply HI.
    destruct (sem_spec_frame t call p y l Ep) as (_ & _ & _ & Hp). cbn in *. lia. }
  { intros _. destruct Hi as [_ H1 H2 _ _ H5 (H6 & H7 & _)]. unfold SEM_VALUE_MAX in H2.
    split; cbn; try done; try lia. set_solver. }
  destruct (HI HB) as [H1 H2 H3 H4 H5 H6 H7]. pose proof (si_queue _ Hi) as Hq.
  rewrite <- Eq in Hq. exists l. split; [by apply (G_waiters Hnc Hnr)|]. split; [done|].
  split; [lia|]. split; [destruct l; cbn in *; [done|lia]|]. split.
  - intros c t call Hc Hm.
    destruct (sem_next_ok Hnc Hnr _ Hq x c t call l HG eq_refl Hc Hm) as (p & s' & _ & _ & E & _).
    rewrite E. eauto.
  - intros x' Hst.
    destruct (sem_step_ok Hnc Hnr _ Hq (λ y m, sem_queue (sem y) = sem_queue (sem x) ∧
      served x l y m) x x' l) as (l' & HG' & E & Hs); try done.
    + intros t call p s Ep _ _ _. split; [by apply sem_spec_frame|apply sem_spec_served].
    + split; [done|]. by left.
    + exists l'. split; [|done]. rewrite E. by apply (G_waiters Hnc Hnr).
Qed.

(** C7. A semaphore of value 1 is a mutex: at most one thread has it; while a thread waits another
    one has it, so that no wake-up is lost; a thread that has it and has returned from its wait
    is the owner, its post is accepted and another wait of it is refused; every other thread's
    post is refused; and a thread in its sleep is on the queue or has been given the
    semaphore.  Two conditions: [sem_init] does not set the owner, so the word it finds there must
    not be the address of one of the threads that use the semaphore ([stale_owner_posts] shows what
    happens otherwise); and, as in [sched_safe], a thread is not preempted between [wait_on] and
    [sched_sleep] ([preempted_waiter_corrupts]). *)
Theorem sem_mutex x0 x :
  0 < nc → 3 * nc ≤ nr → sem_initial x0 → value (sem x0) = 1 →
  (∀ t, owner (sem x0) = Some t → pcs x0 !! t = None) → rtc sem_step x0 x →
  (∀ t u, t ∈ has x → u ∈ has x → t = u) ∧
  (∀ t err, pcs x !! t = Some (SRet err) → t ∈ has x →
     owner (sem x) = Some t ∧ sem_post_refused t (sem x) = false ∧
     sem_relocks t (sem x) = true) ∧
  (∀ t, is_Some (pcs x !! t) → t ∉ has x → sem_post_refused t (sem x) = true) ∧
  ∃ l, waiters nr (ker x) (sem_queue (sem x)) l ∧
    (l ≠ [] → ∃ t, t ∈ has x ∧ t ∉ l) ∧
    (∀ t, pcs x !! t = Some SAsleep → t ∈ l ∨ t ∈ has x).
Proof.
  intros Hnc Hnr Hi Hv Ho Hr.
  destruct (sem_reach Hnc Hnr (λ x l, ∃ h, minv x l h) x0 x) as (Eq & l & HG & h & Hm); try done.
  { intros y l s (h & [H1 H2 H3 H4 H5 H6 H7 H8]). exists h. by split. }
  { intros y l t call p s Ep Hl Hn (h & Hm). by eapply minv_spec. }
  { exists None. destruct Hi as [_ H1 H2 _ H4 H5 (H6 & H7 & H8)]. split; try done.
    - rewrite H8. set_solver.
    - cbn. lia.
    - intros u Eu [p Hu]. by rewrite (Ho u Eu) in Hu.
    - intros u p ->%H4. cbn. rewrite H8. set_solver.
    - set_solver. }
  destruct Hm as [H1 H2 H3 H4 H5 H6 H7 H8].
  assert (∀ t, h = Some t → sem_count (sem x) ≤ 0) as Hc by (intros t ->; lia).
  split; [intros t u; rewrite !H3; congruence|].
  unfold sem_post_refused, sem_relocks, sem_taken. rewrite H1. cbn [Z.eqb Pos.eqb andb].
  split; [|split].
  - intros t err Et Hin. pose proof (H7 t _ Et Hin) as E. apply H3, Hc in Hin.
    rewrite E, bool_decide_eq_true_2, Z.gtb_ltb by done. split; [done|].
    rewrite (proj2 (Z.ltb_ge _ _)), (proj2 (Z.eqb_neq _ _)), andb_false_r by lia. done.
  - intros t Ht Hn. rewrite bool_decide_eq_false_2 by (intros E; by apply Hn, H3, H6).
    rewrite Z.gtb_ltb. destruct (Z.leb_spec (sem_count (sem x)) 0), (Z.ltb_spec 0 (sem_count (sem x)));
      cbn; try done; lia.
  - pose proof (si_queue _ Hi) as Hq. rewrite <- Eq in Hq.
    exists l. split; [by apply (G_waiters Hnc Hnr)|]. split.
    + intros Hl. destruct h as [h|]; [|by destruct Hl; auto]. exists h. rewrite H3.
      split; [done|]. intros Hin. by destruct (H8 h Hin).
    + intros t Ht. exact (H7 t _ Ht).
Qed.
End sys.

(** Executions given by a list of steps; each is checked to be possible. *)
Inductive sevent := Kop (c : Z) (op : kop) | Sem (c t : Z) (call : scall).

Fixpoint sem_exec (nc nr : Z) (l : list sevent) (x : ssys) : option ssys :=
  match l with
  | [] => Some x
  | Kop c op :: l =>
      if (0 <=? c) && (c <? nc) && may_kop nc nr c op x
      then '(s, _) ← do_op c op (ker x); sem_exec nc nr l (with_ker s x) else None
  | Sem c t call :: l =>
      if (0 <=? c) && (c <? nc) && may_step c t x
      then x' ← sem_next t call x; sem_exec nc nr l x' else None
  end.

Lemma sem_exec_rtc nc nr l x x' : sem_exec nc nr l x = Some x' → rtc (sem_step nc nr) x x'.
Proof.
  revert x. induction l as [|[c op|c t call] l IH]; intros x E; [by injection E as ->| |];
    cbn in E; destruct ((0 <=? c) && (c <? nc)) eqn:Ec; try done; cbn in E.
  - destruct (may_kop nc nr c op x) eqn:Em; [|done].
    destruct (do_op c op (ker x)) as [[s []]|] eqn:Ed; [|done]. cbn in E.
    eapply rtc_l; [|by apply IH]. eapply step_kop; [|done|done]. lia.
  - destruct (may_step c t x) eqn:Em; [|done].
    destruct (sem_next t call x) as [x1|] eqn:Ed; [|done]. cbn in E.
    eapply rtc_l; [|by apply IH]. eapply step_sem; [|done|done]. lia.
Qed.

(** The machine [boot], with a free mutex on the queue 6 and two threads that use it; the owner
    is a word that [sem_init] left there. *)
Definition mutex_boot : ssys :=
  {| ker := boot;
     sem := {| value := 1; sem_count := 1; scope := SEM_SCOPE_SYS; owner := Some 77;
               sem_queue := 6 |};
     pcs := {[2 := SRet 0; 3 := SRet 0]}; posts := 0; granted := 0; has := ∅ |}.

Lemma mutex_boot_initial : sem_initial 2 8 mutex_boot.
Proof.
  split; try done; [apply boot_initial|]. intros t p Ht. cbn in Ht.
  apply lookup_insert_Some in Ht as [[_ <-]|[_ Ht]]; [done|].
  by apply lookup_singleton_Some in Ht as [_ <-].
Qed.

(** Thread 2 takes the mutex; thread 3, on the other processor, waits for it and sleeps. *)
Definition contention : list sevent :=
  [Kop 0 (Create 2); Kop 1 (Create 3); Kop 0 Yield; Kop 1 Yield; Kop 0 EnterKernel;
   Sem 0 2 CallWait; Sem 0 2 CallWait; Sem 0 2 CallWait;
   Sem 1 3 CallWait; Sem 1 3 CallWait; Sem 1 3 CallWait; Sem 1 3 CallWait].

Lemma contention_facts :
  (λ x, (pcs x !! 2, pcs x !! 3, bool_decide (2 ∈ has x), bool_decide (3 ∈ has x),
         sem_count (sem x), posts x, granted x)) <$> sem_exec 2 8 contention mutex_boot =
  Some (Some (SRet 0), Some SAsleep, true, false, -1, 0, 1).
Proof. vm_compute. reflexivity. Qed.

Lemma sem_mutex_witness :
  ∃ x, sem_exec 2 8 contention mutex_boot = Some x ∧ pcs x !! 3 = Some SAsleep ∧
    owner (sem x) = Some 2 ∧ sem_post_refused 2 (sem x) = false ∧
    sem_post_refused 3 (sem x) = true ∧
    ∃ l, waiters 8 (ker x) (sem_queue (sem x)) l ∧ 3 ∈ l.
Proof.
  pose proof contention_facts as Hf.
  destruct (sem_exec 2 8 contention mutex_boot) as [x|] eqn:E; [|discriminate Hf].
  cbn [fmap option_fmap option_map] in Hf. injection Hf as H2 H3 Hh Hn _ _ _.
  apply bool_decide_eq_true in Hh. apply bool_decide_eq_false in Hn.
  pose proof (sem_exec_rtc _ _ _ _ _ E) as Hr. clear E.
  destruct (sem_mutex 2 8 mutex_boot x ltac:(lia) ltac:(lia) mutex_boot_initial eq_refl
    ltac:(intros t [= <-]; reflexivity) Hr) as (_ & Ho & Hp & l & Hw & _ & Hs).
  destruct (Ho 2 0 H2 Hh) as (H4 & H5 & _).
  exists x. refine (conj eq_refl (conj H3 (conj H4 (conj H5 (conj (Hp 3 (mk_is_Some _ _ H3) Hn) _))))).
  exists l. refine (conj Hw _). destruct (Hs 3 H3) as [Hin|Hin]; [exact Hin|by destruct Hn].
Defined.

(** When the word that [sem_init] leaves in [owner] is thread 3, thread 3 can post while thread 2
    has taken the semaphore and not yet written the owner, and then take it too. *)
Definition stale_boot : ssys :=
  with_sem (set_owner (Some 3) (sem mutex_boot)) mutex_boot.

Definition stale_run : list sevent :=
  [Kop 0 (Create 2); Kop 1 (Create 3); Kop 0 Yield; Kop 1 Yield; Kop 0 EnterKernel;
   Sem 0 2 CallWait; Sem 0 2 CallWait; Sem 1 3 CallPost; Sem 1 3 CallPost; Sem 1 3 CallPost;
   Sem 1 3 CallWait; Sem 1 3 CallWait].

Lemma stale_owner_posts :
  (λ x, (bool_decide (2 ∈ has x), bool_decide (3 ∈ has x))) <$> sem_exec 2 8 stale_run stale_boot =
  Some (true, true).
Proof. vm_compute. reflexivity. Qed.

(** Thread 2 posts: the mutex goes to thread 3. *)
Definition hand_over : list sevent :=
  contention ++ [Sem 0 2 CallPost; Sem 0 2 CallPost; Sem 0 2 CallPost; Kop 1 Yield;
                 Sem 1 3 CallWait].

Lemma hand_over_facts :
  (λ x, (pcs x !! 3, owner (sem x), sem_count (sem x), posts x, granted x))
    <$> sem_exec 2 8 hand_over mutex_boot = Some (Some (SRet 0), Some 3, 0, 1, 2).
Proof. vm_compute. reflexivity. Qed.

Lemma sem_counts_witness :
  ∃ x l, sem_exec 2 8 hand_over mutex_boot = Some x ∧ pcs x !! 3 = Some (SRet 0) ∧
    granted x = 2 ∧ posts x = 1 ∧ waiters 8 (ker x) (sem_queue (sem x)) l ∧ l = [].
Proof.
  pose proof hand_over_facts as Hf.
  destruct (sem_exec 2 8 hand_over mutex_boot) as [x|] eqn:E; [|discriminate Hf].
  cbn [fmap option_fmap option_map] in Hf. injection Hf as H3 _ Hc Hp Hg.
  pose proof (sem_exec_rtc _ _ _ _ _ E) as Hr. clear E.
  destruct (sem_counts 2 8 mutex_boot x ltac:(lia) ltac:(lia) mutex_boot_initial Hr
    ltac:(rewrite Hp; reflexivity)) as (l & Hw & Hn & _).
  exists x, l. refine (conj eq_refl (conj H3 (conj Hg (conj Hp (conj Hw _))))).
  apply length_zero_iff_nil. cbn in Hn. lia.
Defined.
