(* ===== verification/Cond.v ===== *)
(** * Condition variables (src/kernel/kern/cond_var.c)

    Threads that wait on a condition variable with its mutex, signal it, and use the mutex
    otherwise, on the scheduler.  [cv_wait] is split where other processors may come in between:
    the test, the lock of the condition variable, the test and the critical section of [sem_post],
    and the entry into the queue. *)

From stdpp Require Import relations.
From S2P Require Import Prelude Clist Bits Sched SchedSpec SchedSys WaitView Sync.

Open Scope Z_scope.

(** ** The system *)

(** Where a thread is. *)
Inductive cpc :=
  | CRet (err : Z)     (* outside, or in the functions of the mutex *)
  | CLock              (* cv_wait: spinlock_lock(&cv->lock) is next *)
  | CCheck             (* cv_wait, with the lock: the test of sem_post *)
  | CPost              (* cv_wait, with the lock: the critical section of sem_post *)
  | CEnter             (* cv_wait, with the lock: the mutex is released, wait_on is next *)
  | CSleep             (* cv_wait, on the queue: sched_sleep is next *)
  | CAsleep.           (* cv_wait, in sched_sleep; sem_wait is next *)

(** What a thread outside does: a call of the condition variable, or one of the critical sections
    of the mutex. *)
Inductive ccall := CvWait | CvSignal | CvBroadcast | MWait | MSet | MPost | MTry.

(** What happened to the queue. *)
Inductive cevent := Entered (t : Z) | Signal | Broadcast.

#[export] Instance cevent_eq_dec : EqDecision cevent.
Proof. solve_decision. Defined.

Record csys := {
  cker : kernel;
  mtx : semaphore_s;
  cpcs : gmap Z cpc;
  cvlock : option Z;         (* the thread that has cv->lock *)
  hist : list cevent
}.

Definition cv_at (t : Z) (p : cpc) (x : csys) : csys :=
  {| cker := cker x; mtx := mtx x; cpcs := <[t := p]> (cpcs x); cvlock := cvlock x; hist := hist x |}.
Definition cv_ker (s : kernel) (x : csys) : csys :=
  {| cker := s; mtx := mtx x; cpcs := cpcs x; cvlock := cvlock x; hist := hist x |}.
Definition cv_mtx (m : semaphore_s) (x : csys) : csys :=
  {| cker := cker x; mtx := m; cpcs := cpcs x; cvlock := cvlock x; hist := hist x |}.
Definition cv_lk (o : option Z) (x : csys) : csys :=
  {| cker := cker x; mtx := mtx x; cpcs := cpcs x; cvlock := o; hist := hist x |}.
Definition cv_log (e : cevent) (x : csys) : csys :=
  {| cker := cker x; mtx := mtx x; cpcs := cpcs x; cvlock := cvlock x; hist := hist x ++ [e] |}.

(** The next step of thread [t]; a thread outside makes the call [c]. *)
Definition cv_next (cv : cv_s) (t : Z) (c : ccall) (x : csys) : option csys :=
  p ← cpcs x !! t;
  match p with
  | CRet _ =>
      match c with
      | CvWait =>
          Some (cv_at t (if negb (bool_decide (owner (mtx x) = Some t)) || (sem_getvalue (mtx x) >? 0)
                         then CRet EINVAL else CLock) x)
      | CvSignal => '(s, err) ← cv_signal t cv (cker x); Some (cv_at t (CRet err) (cv_log Signal (cv_ker s x)))
      | CvBroadcast => '(s, err) ← cv_broadcast t cv (cker x); Some (cv_at t (CRet err) (cv_log Broadcast (cv_ker s x)))
      | MWait => '(s, (m, _)) ← sem_wait_cs t (mtx x) (cker x); Some (cv_at t (CRet 0) (cv_mtx m (cv_ker s x)))
      | MSet => Some (cv_at t (CRet 0) (cv_mtx (sem_wait_end t (mtx x)) x))
      | MPost => '(s, m) ← sem_post_cs t (mtx x) (cker x); Some (cv_at t (CRet 0) (cv_mtx m (cv_ker s x)))
      | MTry => let '(err, m) := sem_trywait_cs t (mtx x) in Some (cv_at t (CRet err) (cv_mtx m x))
      end
  | CLock => Some (cv_at t CCheck (cv_lk (Some t) x))
  | CCheck =>
      Some (if sem_post_refused t (mtx x) then cv_at t (CRet EINVAL) (cv_lk None x) else cv_at t CPost x)
  | CPost => '(s, m) ← sem_post_cs t (mtx x) (cker x); Some (cv_at t CEnter (cv_mtx m (cv_ker s x)))
  | CEnter =>
      '(s, _) ← wait_on t (cv_queue cv) WAIT_LAST (cker x);
      Some (cv_at t CSleep (cv_log (Entered t) (cv_lk None (cv_ker s x))))
  | CSleep => '(s, _) ← sched_sleep t (cker x); Some (cv_at t CAsleep (cv_ker s x))
  | CAsleep => Some (cv_at t (CRet 0) x)
  end.

(** Without interference the five steps to the sleep do what [Sync.cv_wait] does. *)
Lemma cv_wait_steps cv t x s m :
  cpcs x !! t = Some (CRet 0) → cv_wait t cv (mtx x) (cker x) = Some (s, (0, m, true)) →
  ∃ x', (x ← cv_next cv t CvWait x; x ← cv_next cv t CvWait x; x ← cv_next cv t CvWait x;
         x ← cv_next cv t CvWait x; cv_next cv t CvWait x) = Some x' ∧
    cker x' = s ∧ mtx x' = m ∧ cpcs x' !! t = Some CSleep.
Proof.
  intros Ep E. unfold cv_wait in E. unfold cv_next at 5. rewrite Ep. cbn [mbind option_bind].
  destruct (_ || _); [done|]. unfold cv_next at 4. cbn [cpcs cv_at]. rewrite lookup_insert_eq.
  cbn [mbind option_bind]. unfold cv_next at 3. cbn [cpcs cv_at cv_lk]. rewrite lookup_insert_eq.
  cbn [mbind option_bind mtx cv_at cv_lk]. unfold sem_post in E.
  destruct (sem_post_refused t (mtx x)); [done|].
  cbn [mbind option_bind]. unfold cv_next at 2. cbn [cpcs cv_at]. rewrite lookup_insert_eq.
  cbn [mbind option_bind mtx cker cv_at cv_lk]. unfold mbind, M_bind in E.
  destruct (sem_post_cs t (mtx x) (cker x)) as [[s1 m1]|]; [|done]. cbn in E |- *.
  unfold cv_next. cbn [cpcs cv_at]. rewrite lookup_insert_eq. cbn [mbind option_bind cker cv_at cv_mtx cv_ker].
  destruct (wait_on t (cv_queue cv) WAIT_LAST s1) as [[s2 []]|]; [|done]. cbn in E |- *.
  injection E as <- <-. eexists. split; [done|]. cbn. by rewrite lookup_insert_eq.
Qed.

(** The queue that a history leaves. *)
Definition replay1 (l : list Z) (e : cevent) : list Z :=
  match e with Entered t => l ++ [t] | Signal => tail l | Broadcast => [] end.
Definition replay (h : list cevent) : list Z := foldl replay1 [] h.

(** The number of signals. *)
Definition signals (h : list cevent) : nat := length (filter (λ e, e = Signal) h).

(** The places where a thread has the lock of the condition variable, and those from which it
    goes there without an operation of the mutex in between. *)
Definition locked (p : cpc) : bool := match p with CCheck | CPost | CEnter => true | _ => false end.
Definition calling (p : cpc) : bool := match p with CLock | CCheck | CPost | CEnter => true | _ => false end.

(** The side conditions of a step that are about the other threads. *)
Ltac step_easy := try done; try (intros; solve [eauto 2 | congruence]).

Section sys.
Context (nc nr : Z) (cv : cv_s).

(** Thread [t] runs on processor [c] and may take its next step; the lock of the condition
    variable is free when it takes it. *)
Definition cv_may (c t : Z) (call : ccall) (x : csys) : bool :=
  match cpcs x !! t with
  | None => false
  | Some CSleep => may_sleep c t (cker x)
  | Some CLock => may_call c t (cker x) && bool_decide (cvlock x = None)
  | Some (CRet _) =>
      may_call c t (cker x) &&
      match call with CvSignal | CvBroadcast => bool_decide (cvlock x = None) | _ => true end
  | Some _ => may_call c t (cker x)
  end.

(** The other operations do not touch the two queues, and a thread that is about to sleep on the
    condition variable sleeps as [cv_wait] says. *)
Definition cv_may_kop (c : Z) (op : kop) (x : csys) : bool :=
  enabled nc nr c op (cker x) &&
  bool_decide (op_queue op ≠ Some (cv_queue cv) ∧ op_queue op ≠ Some (sem_queue (mtx x))) &&
  match op, cpus (cker x) !! c with
  | Sleep, Some cp => match cpcs x !! current cp with Some CSleep => false | _ => true end
  | _, _ => true
  end.

Inductive cv_step : csys → csys → Prop :=
  | cv_step_kop c op x s :
      0 ≤ c < nc → cv_may_kop c op x = true → do_op c op (cker x) = Some (s, tt) →
      cv_step x (cv_ker s x)
  | cv_step_call c t call x x' :
      0 ≤ c < nc → cv_may c t call x = true → cv_next cv t call x = Some x' → cv_step x x'.

(** The scheduler as at boot, the condition variable as [cv_init] leaves it, all threads outside;
    the mutex may be in any state. *)
Record cv_initial (x : csys) : Prop := {
  vi_ker : initial nc nr (cker x);
  vi_cq : 3 * nc ≤ cv_queue cv < nr;
  vi_sq : 3 * nc ≤ sem_queue (mtx x) < nr;
  vi_ne : cv_queue cv ≠ sem_queue (mtx x);
  vi_pcs : ∀ t p, cpcs x !! t = Some p → p = CRet 0;
  vi_lock : cvlock x = None;
  vi_hist : hist x = []
}.

Section proofs.
Context (Hnc : 0 < nc) (Hnr : 3 * nc ≤ nr) (sq : Z).
Context (Hcq : 3 * nc ≤ cv_queue cv < nr) (Hsq : 3 * nc ≤ sq < nr) (Hne : cv_queue cv ≠ sq).
#[local] Set Default Proof Using "All".

Notation cq := (cv_queue cv).
Notation qs := [cq; sq].
Notation view := (view nc nr qs).

Lemma cv_range q : q ∈ qs → 3 * nc ≤ q < nr.
Proof. rewrite !elem_of_cons, elem_of_nil. naive_solver. Qed.

Lemma cq_in : cq ∈ qs.
Proof. by left. Qed.

Lemma sq_in : sq ∈ qs.
Proof. right. by left. Qed.

(** *** The operations on the two queues *)

Definition post_woken (m : semaphore_s) (f : Z → list Z) : option Z :=
  if s32 (sem_count m + 1) <=? 0 then head (f sq) else None.

Definition post_queues (m : semaphore_s) (f : Z → list Z) : Z → list Z :=
  if s32 (sem_count m + 1) <=? 0 then upd_ring f sq (tail (f sq)) else f.

Lemma post_view f s c t m :
  view f s → may_call c t s = true → sem_queue m = sq →
  runs s (sem_post_cs t m) (λ m' s',
    owner m' = post_woken m f ∧ sem_queue m' = sq ∧ view (post_queues m f) s').
Proof.
  intros Hv Hm Hq. unfold sem_post_cs, post_woken, post_queues. cbn zeta.
  apply runs_bind. cbn [sem_queue set_sem_count]. rewrite Hq.
  destruct (_ <=? 0); [|by do 2 apply runs_ret].
  destruct (may_call_inv c t s Hm) as (_ & th & _ & Eth & _).
  eapply runs_mono; [eapply (view_wakeup_one nc nr Hnc Hnr _ cv_range);
    [exact Hv|eauto|apply sq_in]|].
  intros u s' (-> & _ & Hk & Hv'). apply runs_ret. by split_and!.
Qed.

Lemma wait_view f s c t m :
  view f s → 0 ≤ c < nc → may_call c t s = true → sem_queue m = sq →
  runs s (sem_wait_cs t m) (λ r s', owner r.1 = owner m ∧ sem_queue r.1 = sq ∧
    ∃ l, view (upd_ring f sq l) s' ∧ ∀ u, u ≠ t → u ∈ l → u ∈ f sq).
Proof.
  intros Hv Hc Hm Hq. unfold sem_wait_cs. cbn zeta. destruct (_ >=? 0).
  - apply runs_ret. split_and!; try done. exists (f sq). split; [|done].
    apply (view_ext nc nr Hnc Hnr qs cv_range f); [done|]. intros q _. unfold upd_ring.
    by destruct (Z.eqb_spec q sq) as [->|].
  - apply runs_bind. cbn [sem_queue set_sem_count]. rewrite Hq.
    eapply runs_mono; [eapply (view_wait_on nc nr Hnc Hnr _ cv_range);
      [exact Hv|exact Hc|exact Hm|apply sq_in]|].
    intros [] s' Hv'. apply runs_ret. split_and!; try done. exists (f sq ++ [t]). split; [done|].
    intros u Hu [Hin|Hin%list_elem_of_singleton]%elem_of_app; done.
Qed.

Lemma signal_view f s t :
  view f s → is_Some (threads s !! t) →
  runs s (cv_signal t cv) (λ r s', r = 0 ∧ view (upd_ring f cq (tail (f cq))) s' ∧
    ∀ u, head (f cq) = Some u → ∃ th, threads s' !! u = Some th ∧ state th = S_READY).
Proof.
  intros Hv Ht. unfold cv_signal. apply runs_bind.
  destruct (view_wakeup_one nc nr Hnc Hnr _ cv_range f s t cq Hv Ht cq_in)
    as (s' & r & E & -> & _ & _ & Hv').
  exists s', (head (f cq)). split; [done|]. apply runs_ret. split; [done|]. split; [done|].
  intros u Hu. rewrite Hu in E. exact (view_woken nc nr Hnc Hnr _ cv_range f s t cq s' u Hv Ht cq_in E).
Qed.

Lemma broadcast_view f s t :
  view f s → is_Some (threads s !! t) →
  runs s (cv_broadcast t cv) (λ r s', r = 0 ∧ view (upd_ring f cq []) s' ∧
    ∀ u, u ∈ f cq → ∃ th, threads s' !! u = Some th ∧ state th = S_READY).
Proof.
  intros Hv Ht. unfold cv_broadcast. apply runs_bind.
  destruct (view_wakeup_all nc nr Hnc Hnr _ cv_range f s t cq Hv Ht cq_in) as (s' & n & E & _ & Hv').
  exists s', n. split; [done|]. apply runs_ret. split; [done|]. split; [done|].
  intros u Hu. exact (view_all_woken nc nr Hnc Hnr _ cv_range f s t cq s' n u Hv Ht cq_in E Hu).
Qed.

(** *** The invariant *)

Record cinv (f : Z → list Z) (x : csys) : Prop := {
  ci_view : view f (cker x);
  ci_sq : sem_queue (mtx x) = sq;
  ci_hist : f cq = replay (hist x);
  ci_lock : ∀ t p, cpcs x !! t = Some p → locked p = true → cvlock x = Some t;
  ci_off : ∀ t p, cpcs x !! t = Some p → calling p = true → t ∉ f sq;
  ci_owner : ∀ t, cpcs x !! t = Some CEnter → owner (mtx x) ≠ Some t
}.

(** A step of [t] that leaves the queue of the condition variable as it is. *)
Lemma cinv_step f x t p p' f' s m lk :
  cinv f x → cpcs x !! t = Some p → view f' s → sem_queue m = sq → f' cq = f cq →
  (∀ u, u ≠ t → u ∈ f' sq → u ∈ f sq) →
  (locked p' = true → lk = Some t) → (∀ u, u ≠ t → cvlock x = Some u → lk = Some u) →
  (calling p' = true → t ∉ f' sq) → (p' = CEnter → owner m ≠ Some t) →
  (∀ u, u ≠ t → cpcs x !! u = Some CEnter → owner m ≠ Some u) →
  cinv f' (cv_at t p' (cv_lk lk (cv_mtx m (cv_ker s x)))).
Proof.
  intros [H1 H2 H3 H4 H5 H6] Hp Hv Hq Hc Hs Hl Hl' Hf Ho Ho'.
  split; cbn [cker mtx cpcs cvlock hist cv_at cv_lk cv_mtx cv_ker]; try done.
  - congruence.
  - intros u q [[<- <-]|[Hn Hu]]%lookup_insert_Some Hk; [auto|]. apply Hl'; [done|]. by eapply H4.
  - intros u q [[<- <-]|[Hn Hu]]%lookup_insert_Some Hk; [auto|]. intros Hin.
    by eapply H5; [exact Hu|done|apply Hs].
  - intros u [[<- E]|[Hn Hu]]%lookup_insert_Some; [auto|]. by apply Ho'.
Qed.

(** The history goes on. *)
Lemma cinv_log f x t p e f' s lk p' :
  cinv f x → cpcs x !! t = Some p → view f' s → f' cq = replay1 (f cq) e → f' sq = f sq →
  calling p' = false → (∀ u, u ≠ t → cvlock x = Some u → lk = Some u) →
  cinv f' (cv_at t p' (cv_log e (cv_lk lk (cv_ker s x)))).
Proof.
  intros [H1 H2 H3 H4 H5 H6] Hp Hv Hc Hs Hp' Hl.
  split; cbn [cker mtx cpcs cvlock hist cv_at cv_lk cv_log cv_ker]; try done.
  - unfold replay. rewrite foldl_app. cbn. rewrite Hc. by f_equal.
  - intros u q [[<- <-]|[Hn Hu]]%lookup_insert_Some Hk; [by destruct p'|]. apply Hl; [done|]. by eapply H4.
  - intros u q [[<- <-]|[Hn Hu]]%lookup_insert_Some Hk; [by destruct p'|]. rewrite Hs. by eapply H5.
  - intros u [[<- ->]|[Hn Hu]]%lookup_insert_Some; [done|]. by apply H6.
Qed.

Lemma sq_upd f l : upd_ring f sq l cq = f cq ∧ upd_ring f sq l sq = l.
Proof. split; [by apply upd_ring_ne|apply upd_ring_eq]. Qed.

Lemma cq_upd f l : upd_ring f cq l sq = f sq ∧ upd_ring f cq l cq = l.
Proof. split; [by apply upd_ring_ne, not_eq_sym|apply upd_ring_eq]. Qed.

Lemma post_queues_spec m f :
  post_queues m f cq = f cq ∧ (∀ u, u ∈ post_queues m f sq → u ∈ f sq) ∧
  (∀ u, post_woken m f = Some u → u ∈ f sq).
Proof.
  unfold post_queues, post_woken. destruct (_ <=? 0); [|done].
  destruct (sq_upd f (tail (f sq))) as [-> ->]. split_and!; [done| |].
  - intros u. destruct (f sq); [done|]. by right.
  - intros u. destruct (f sq); [done|]. intros [= ->]. by left.
Qed.

(** The call of a thread that is outside. *)
Lemma outside_next f x c t call e :
  cinv f x → 0 ≤ c < nc → cpcs x !! t = Some (CRet e) → cv_may c t call x = true →
  ∃ x' f', cv_next cv t call x = Some x' ∧ cinv f' x'.
Proof.
  intros Hi Hc Ep Hm. unfold cv_may in Hm. rewrite Ep in Hm. apply andb_true_iff in Hm as [Hm Hl].
  pose proof (may_call_inv c t _ Hm) as (_ & th & _ & Eth & _).
  pose proof (ci_view _ _ Hi) as Hv. pose proof (ci_sq _ _ Hi) as Hq.
  pose proof (view_off nc nr Hnc Hnr _ cv_range f _ c t sq Hv Hm sq_in) as Hoff.
  pose proof (ci_owner _ _ Hi) as Hown. pose proof (ci_off _ _ Hi) as Hcal.
  unfold cv_next. rewrite Ep. cbn [mbind option_bind]. destruct call.
  - eexists _, f. split; [done|]. destruct (_ || _);
      eapply (cinv_step f x t _ _ f (cker x) (mtx x) (cvlock x) Hi Ep); step_easy.
  - destruct (signal_view f (cker x) t Hv ltac:(eauto)) as (s' & r & -> & -> & Hv' & _).
    eexists _, _. split; [done|]. destruct (cq_upd f (tail (f cq))).
    eapply (cinv_log f x t _ Signal _ s' (cvlock x) (CRet 0) Hi Ep Hv'); step_easy.
  - destruct (broadcast_view f (cker x) t Hv ltac:(eauto)) as (s' & r & -> & -> & Hv' & _).
    eexists _, _. split; [done|]. destruct (cq_upd f []).
    eapply (cinv_log f x t _ Broadcast _ s' (cvlock x) (CRet 0) Hi Ep Hv'); step_easy.
  - destruct (wait_view f (cker x) c t (mtx x) Hv Hc Hm Hq) as (s' & [m b] & -> & Ho & Hq' & l & Hv' & Hl').
    cbn [fst] in Ho, Hq'. eexists _, _. split; [done|]. destruct (sq_upd f l) as [E1 E2].
    eapply (cinv_step f x t _ (CRet 0) _ s' m (cvlock x) Hi Ep Hv'); step_easy.
    + by rewrite E2.
    + intros u _ Hu. rewrite Ho. by apply Hown.
  - eexists _, f. split; [done|].
    eapply (cinv_step f x t _ (CRet 0) f (cker x) (sem_wait_end t (mtx x)) (cvlock x) Hi Ep); step_easy.
    intros u Hu _. cbn. congruence.
  - destruct (post_view f (cker x) c t (mtx x) Hv Hm Hq) as (s' & m & -> & Ho & Hq' & Hv').
    destruct (post_queues_spec (mtx x) f) as (E1 & E2 & E3). eexists _, _. split; [done|].
    eapply (cinv_step f x t _ (CRet 0) _ s' m (cvlock x) Hi Ep Hv'); step_easy.
    intros u _ Hu. rewrite Ho. intros Hw%E3. by apply (Hcal u _ Hu).
  - unfold sem_trywait_cs. destruct (_ >? 0); eexists _, f; (split; [done|]).
    + eapply (cinv_step f x t _ (CRet 0) f (cker x) _ (cvlock x) Hi Ep); step_easy.
      intros u Hu _. cbn. congruence.
    + eapply (cinv_step f x t _ (CRet EAGAIN) f (cker x) (mtx x) (cvlock x) Hi Ep); step_easy.
Qed.

(** The steps of [cv_wait]. *)
Lemma inside_next f x c t call p :
  cinv f x → 0 ≤ c < nc → cpcs x !! t = Some p → (∀ e, p ≠ CRet e) → cv_may c t call x = true →
  ∃ x' f', cv_next cv t call x = Some x' ∧ cinv f' x'.
Proof.
  intros Hi Hc Ep Hp Hm. unfold cv_may in Hm. rewrite Ep in Hm.
  pose proof (ci_view _ _ Hi) as Hv. pose proof (ci_sq _ _ Hi) as Hq.
  pose proof (ci_owner _ _ Hi) as Hown. pose proof (ci_off _ _ Hi) as Hcal.
  pose proof (ci_lock _ _ Hi t p Ep) as Hlk.
  unfold cv_next. rewrite Ep. cbn [mbind option_bind]. destruct p; cbn in Hlk.
  - by destruct (Hp err).
  - apply andb_true_iff in Hm as [Hm Hn%bool_decide_eq_true]. eexists _, f. split; [done|].
    eapply (cinv_step f x t _ CCheck f (cker x) (mtx x) (Some t) Hi Ep); step_easy.
  - eexists _, f. split; [done|]. specialize (Hlk eq_refl). destruct (sem_post_refused t (mtx x)).
    + eapply (cinv_step f x t _ (CRet EINVAL) f (cker x) (mtx x) None Hi Ep); step_easy.
    + eapply (cinv_step f x t _ CPost f (cker x) (mtx x) (cvlock x) Hi Ep); step_easy.
  - destruct (post_view f (cker x) c t (mtx x) Hv Hm Hq) as (s' & m & -> & Ho & Hq' & Hv').
    destruct (post_queues_spec (mtx x) f) as (E1 & E2 & E3). eexists _, _. split; [done|].
    eapply (cinv_step f x t _ CEnter _ s' m (cvlock x) Hi Ep Hv'); step_easy.
    + intros _ Hin%E2. by eapply Hcal.
    + intros _. rewrite Ho. intros Hw%E3. by apply (Hcal t _ Ep).
    + intros u _ Hu. rewrite Ho. intros Hw%E3. by apply (Hcal u _ Hu).
  - destruct (view_wait_on nc nr Hnc Hnr _ cv_range f (cker x) c t cq Hv Hc Hm cq_in)
      as (s' & [] & -> & Hv'). specialize (Hlk eq_refl).
    eexists _, _. split; [done|]. destruct (cq_upd f (f cq ++ [t])).
    eapply (cinv_log f x t _ (Entered t) _ s' None CSleep Hi Ep Hv'); step_easy.
  - destruct (view_sleep nc nr Hnc Hnr _ cv_range f (cker x) c t Hv Hc Hm) as (s' & [] & -> & Hv').
    eexists _, f. split; [done|].
    eapply (cinv_step f x t _ CAsleep f s' (mtx x) (cvlock x) Hi Ep Hv'); step_easy.
  - eexists _, f. split; [done|].
    eapply (cinv_step f x t _ (CRet 0) f (cker x) (mtx x) (cvlock x) Hi Ep); step_easy.
Qed.

Lemma cv_next_ok f x c t call :
  cinv f x → 0 ≤ c < nc → cv_may c t call x = true →
  ∃ x' f', cv_next cv t call x = Some x' ∧ cinv f' x'.
Proof.
  intros Hi Hc Hm. pose proof Hm as Hm'. unfold cv_may in Hm'.
  destruct (cpcs x !! t) as [p|] eqn:Ep; [|done]. clear Hm'.
  destruct p; [by eapply outside_next|by eapply inside_next..].
Qed.

Lemma cv_step_inv f x x' : cinv f x → cv_step x x' → ∃ f', cinv f' x'.
Proof.
  intros Hi Hst. revert Hi. destruct Hst as [c op y s Hc Hm E|c t call y y' Hc Hm E]; intros Hi.
  - unfold cv_may_kop in Hm. apply andb_true_iff in Hm as [Hm _].
    apply andb_true_iff in Hm as [He Ho%bool_decide_eq_true]. rewrite (ci_sq _ _ Hi) in Ho.
    destruct (view_kop nc nr Hnc Hnr _ cv_range f c op (cker y) (ci_view _ _ Hi) Hc He)
      as (s' & [] & E' & Hv').
    { intros q. rewrite !elem_of_cons, elem_of_nil. naive_solver. }
    assert (s' = s) as -> by congruence. exists f. destruct Hi. by split.
  - destruct (cv_next_ok f y c t call Hi Hc Hm) as (x' & f' & E' & Hi').
    exists f'. congruence.
Qed.

Lemma cv_reach x0 x :
  cv_initial x0 → sem_queue (mtx x0) = sq → rtc cv_step x0 x → ∃ f, cinv f x.
Proof.
  intros Hi Eq Hr. refine (rtc_ind_r (R := cv_step) (λ x, ∃ f, cinv f x) x0 _ _ x Hr).
  - exists (λ _, []). destruct Hi as [H1 H2 H3 H4 H5 H6 H7]. split; try done.
    + by apply (view_initial nc nr Hnc Hnr _ cv_range).
    + by rewrite H7.
    + intros t p ->%H5. done.
    + intros t p Hp _. by apply not_elem_of_nil.
    + intros t Hp%H5. done.
  - intros y z _ Hst [f Hf]. by eapply cv_step_inv.
Qed.

(** While a thread has the lock of the condition variable nobody signals it. *)
Lemma locked_no_signal f x x' t p :
  cinv f x → cpcs x !! t = Some p → locked p = true → cv_step x x' →
  hist x' = hist x ∨ hist x' = hist x ++ [Entered t].
Proof.
  intros Hi Ep Hp Hst. pose proof (ci_lock _ _ Hi t p Ep Hp) as Hlk. revert Hi Ep Hlk.
  destruct Hst as [c op y s Hc Hm E|c u call y y' Hc Hm E]; [by left|]. intros Hi Ep Hlk.
  unfold cv_may in Hm. unfold cv_next in E. destruct (cpcs y !! u) as [q|] eqn:Eq; [|done].
  cbn [mbind option_bind] in E. rewrite Hlk in Hm.
  destruct q; cbn in Hm.
  - apply andb_true_iff in Hm as [_ Hm]. destruct call; try done; left.
    + by injection E as <-.
    + destruct (sem_wait_cs _ _ _) as [[s [m b]]|]; [|done]. by injection E as <-.
    + by injection E as <-.
    + destruct (sem_post_cs _ _ _) as [[s m]|]; [|done]. by injection E as <-.
    + destruct (sem_trywait_cs _ _) as [er m]. by injection E as <-.
  - by rewrite andb_false_r in Hm.
  - left. injection E as <-. by destruct (sem_post_refused _ _).
  - left. destruct (sem_post_cs _ _ _) as [[s m]|]; [|done]. by injection E as <-.
  - destruct (wait_on _ _ _ _) as [[s []]|]; [|done]. injection E as <-. right. cbn.
    pose proof (ci_lock _ _ Hi u CEnter Eq eq_refl). congruence.
  - left. destruct (sched_sleep _ _) as [[s []]|]; [|done]. by injection E as <-.
  - left. by injection E as <-.
Qed.

(** A signal or a broadcast of a thread that may call makes the threads it wakes ready. *)
Lemma signal_ready f x c t e :
  cinv f x → 0 ≤ c < nc → cpcs x !! t = Some (CRet e) → may_call c t (cker x) = true →
  cvlock x = None →
  (∃ x', cv_next cv t CvSignal x = Some x' ∧ ∀ u, head (f cq) = Some u →
     ∃ th, threads (cker x') !! u = Some th ∧ state th = S_READY) ∧
  (∃ x', cv_next cv t CvBroadcast x = Some x' ∧ ∀ u, u ∈ f cq →
     ∃ th, threads (cker x') !! u = Some th ∧ state th = S_READY).
Proof.
  intros Hi Hc Ep Hm _. pose proof (may_call_inv c t _ Hm) as (_ & th & _ & Eth & _).
  pose proof (ci_view _ _ Hi) as Hv. unfold cv_next. rewrite Ep. cbn [mbind option_bind]. split.
  - destruct (signal_view f (cker x) t Hv ltac:(eauto)) as (s' & r & -> & -> & _ & Hr).
    eexists. split; [done|exact Hr].
  - destruct (broadcast_view f (cker x) t Hv ltac:(eauto)) as (s' & r & -> & -> & _ & Hr).
    eexists. split; [done|exact Hr].
Qed.
End proofs.

Lemma replay_snoc h e : replay (h ++ [e]) = replay1 (replay h) e.
Proof. unfold replay. by rewrite foldl_app. Qed.

(** A thread that entered with [k] threads before it is at place [k - n] after [n] signals. *)
Lemma replay_place h t h' :
  Broadcast ∉ h' → (signals h' ≤ length (replay h))%nat →
  replay (h ++ Entered t :: h') !! (length (replay h) - signals h')%nat = Some t.
Proof.
  induction h' as [|e h' IH] using rev_ind; intros Hb Hs.
  - rewrite replay_snoc. cbn. rewrite Nat.sub_0_r. by apply list_lookup_middle.
  - apply not_elem_of_app in Hb as [Hb He]. unfold signals in *.
    rewrite filter_app, length_app in Hs |- *.
    assert (h ++ Entered t :: h' ++ [e] = (h ++ Entered t :: h') ++ [e]) as -> by (by rewrite <- app_assoc).
    rewrite replay_snoc.
    destruct e as [u| |].
    + rewrite filter_cons_False in Hs |- * by done. cbn in *. rewrite Nat.add_0_r in *. cbn [replay1].
      apply lookup_app_l_Some, IH; [done|lia].
    + rewrite filter_cons_True in Hs |- * by done. cbn in *. cbn [replay1]. rewrite lookup_tail.
      replace (S _) with (length (replay h) - length (filter (λ e, e = Signal) h'))%nat by lia.
      apply IH; [done|lia].
    + by destruct He; left.
Qed.

(** C30. No wake-up of a condition variable is lost.  Any number of threads on any number of
    processors wait on it, signal it and use its mutex, and do anything else with the scheduler in
    between.  The queue is the one that the history gives: a thread that waits enters at its end,
    a signal takes its first thread out and a broadcast all of them; so a thread that entered with
    [k] threads before it is at place [k - n] after [n] signals, and the signal that follows the
    [k]-th one wakes it.  The threads that are woken up are ready.  From the moment a thread in
    [cv_wait] starts to release the mutex until it is on the queue, it has the lock of the
    condition variable and nobody signals: the next event is its entry; and when it is about to
    enter, it no longer owns the mutex.  No step fails.  As in [sched_safe], a thread is not
    preempted between [wait_on] and [sched_sleep] ([preempted_waiter_corrupts]). *)
Theorem cv_no_lost_wakeup x0 x :
  0 < nc → 3 * nc ≤ nr → cv_initial x0 → rtc cv_step x0 x →
  let l := replay (hist x) in
  waiters nr (cker x) (cv_queue cv) l ∧
  (∀ h t h', hist x = h ++ Entered t :: h' → Broadcast ∉ h' →
     (signals h' ≤ length (replay h))%nat → l !! (length (replay h) - signals h')%nat = Some t) ∧
  (∀ t p, cpcs x !! t = Some p → locked p = true → cvlock x = Some t ∧
     ∀ x', cv_step x x' → hist x' = hist x ∨ hist x' = hist x ++ [Entered t]) ∧
  (∀ t, cpcs x !! t = Some CEnter → owner (mtx x) ≠ Some t) ∧
  (∀ c t call, 0 ≤ c < nc → cv_may c t call x = true → is_Some (cv_next cv t call x)) ∧
  (∀ c t e, 0 ≤ c < nc → cpcs x !! t = Some (CRet e) → may_call c t (cker x) = true →
     cvlock x = None →
     (∃ x', cv_next cv t CvSignal x = Some x' ∧ ∀ u, head l = Some u →
        ∃ th, threads (cker x') !! u = Some th ∧ state th = S_READY) ∧
     (∃ x', cv_next cv t CvBroadcast x = Some x' ∧ ∀ u, u ∈ l →
        ∃ th, threads (cker x') !! u = Some th ∧ state th = S_READY)).
Proof.
  intros Hnc Hnr Hi Hr. pose proof Hi as [_ Hcq Hsq Hne _ _ _].
  destruct (cv_reach Hnc Hnr _ Hcq Hsq Hne x0 x Hi eq_refl Hr) as [f Hf].
  cbn zeta. rewrite <- (ci_hist _ _ _ Hf). split_and!.
  - apply (view_waiters nc nr Hnc Hnr _ (cv_range Hnc Hnr _ Hcq Hsq Hne) f _ _ (ci_view _ _ _ Hf)).
    by left.
  - intros h t h' Eh Hb Hs. rewrite (ci_hist _ _ _ Hf), Eh. by apply replay_place.
  - intros t p Ep Hp. split; [by eapply (ci_lock _ _ _ Hf)|]. intros x'.
    exact (locked_no_signal Hnc Hnr _ Hcq Hsq Hne f x x' t p Hf Ep Hp).
  - apply (ci_owner _ _ _ Hf).
  - intros c t call Hc Hm.
    destruct (cv_next_ok Hnc Hnr _ Hcq Hsq Hne f x c t call Hf Hc Hm) as (x' & _ & E & _). eauto.
  - intros c t e Hc Ep Hm Hl. exact (signal_ready Hnc Hnr _ Hcq Hsq Hne f x c t e Hf Hc Ep Hm Hl).
Qed.
End sys.

(** ** Examples *)

(** Executions given by a list of steps; each is checked to be possible. *)
Inductive cact := CKop (c : Z) (op : kop) | Cv (c t : Z) (call : ccall).

Fixpoint cv_exec (nc nr : Z) (cv : cv_s) (l : list cact) (x : csys) : option csys :=
  match l with
  | [] => Some x
  | CKop c op :: l =>
      if (0 <=? c) && (c <? nc) && cv_may_kop nc nr cv c op x
      then '(s, _) ← do_op c op (cker x); cv_exec nc nr cv l (cv_ker s x) else None
  | Cv c t call :: l =>
      if (0 <=? c) && (c <? nc) && cv_may c t call x
      then x' ← cv_next cv t call x; cv_exec nc nr cv l x' else None
  end.

Lemma cv_exec_rtc nc nr cv l x x' : cv_exec nc nr cv l x = Some x' → rtc (cv_step nc nr cv) x x'.
Proof.
  revert x. induction l as [|[c op|c t call] l IH]; intros x E; [by injection E as ->| |];
    cbn in E; destruct ((0 <=? c) && (c <? nc)) eqn:Ec; try done; cbn in E.
  - destruct (cv_may_kop nc nr cv c op x) eqn:Em; [|done].
    destruct (do_op c op (cker x)) as [[s []]|] eqn:Ed; [|done]. cbn in E.
    eapply rtc_l; [|by apply IH]. eapply cv_step_kop; [|done|done]. lia.
  - destruct (cv_may c t call x) eqn:Em; [|done].
    destruct (cv_next cv t call x) as [x1|] eqn:Ed; [|done]. cbn in E.
    eapply rtc_l; [|by apply IH]. eapply cv_step_call; [|done|done]. lia.
Qed.

(** The machine [boot] with a free mutex on the queue 6 and a condition variable on the queue 7. *)
Definition ex_cv : cv_s := {| cv_queue := 7 |}.

Definition cv_boot : csys :=
  {| cker := boot;
     mtx := {| value := 1; sem_count := 1; scope := SEM_SCOPE_SYS; owner := None; sem_queue := 6 |};
     cpcs := {[2 := CRet 0; 3 := CRet 0]}; cvlock := None; hist := [] |}.

Lemma cv_boot_initial : cv_initial 2 8 ex_cv cv_boot.
Proof.
  split; try done; [apply boot_initial|]. intros t p Ht. cbn in Ht.
  apply lookup_insert_Some in Ht as [[_ <-]|[_ Ht]]; [done|].
  by apply lookup_singleton_Some in Ht as [_ <-].
Qed.

(** Thread 2 takes the mutex and waits on the condition variable; thread 3, on the other processor,
    takes the mutex in the meantime. *)
Definition cv_run : list cact :=
  [CKop 0 (Create 2); CKop 1 (Create 3); CKop 0 Yield; CKop 1 Yield; CKop 0 EnterKernel;
   Cv 0 2 MWait; Cv 0 2 MSet; Cv 0 2 CvWait; Cv 0 2 CvWait; Cv 0 2 CvWait; Cv 0 2 CvWait;
   Cv 1 3 MWait; Cv 1 3 MSet; Cv 0 2 CvWait; Cv 0 2 CvWait].

Lemma cv_run_facts :
  (λ x, (hist x, cpcs x !! 2, cpcs x !! 3, may_call 1 3 (cker x), cvlock x, owner (mtx x)))
    <$> cv_exec 2 8 ex_cv cv_run cv_boot =
  Some ([Entered 2], Some CAsleep, Some (CRet 0), true, None, Some 3).
Proof. vm_compute. reflexivity. Qed.

Lemma cv_no_lost_wakeup_witness :
  ∃ x, cv_exec 2 8 ex_cv cv_run cv_boot = Some x ∧ owner (mtx x) = Some 3 ∧
    waiters 8 (cker x) 7 [2] ∧
    ∃ x' th, cv_next ex_cv 3 CvSignal x = Some x' ∧ threads (cker x') !! 2 = Some th ∧
      state th = S_READY.
Proof.
  pose proof cv_run_facts as Hf.
  destruct (cv_exec 2 8 ex_cv cv_run cv_boot) as [x|] eqn:E; [|discriminate Hf].
  cbn [fmap option_fmap option_map] in Hf. injection Hf as Hh H2 H3 Hm Hl Ho.
  pose proof (cv_exec_rtc _ _ _ _ _ _ E) as Hr. clear E.
  destruct (cv_no_lost_wakeup 2 8 ex_cv cv_boot x ltac:(lia) ltac:(lia) cv_boot_initial Hr)
    as (Hw & _ & _ & _ & _ & Hs).
  rewrite Hh in Hw, Hs.
  destruct (Hs 1 3 0 ltac:(lia) H3 Hm Hl) as [(x' & E' & Hu) _].
  destruct (Hu 2 eq_refl) as (th & Ht & Hst).
  exists x. refine (conj eq_refl (conj Ho (conj Hw _))). exists x', th.
  exact (conj E' (conj Ht Hst)).
Defined.
