(* ===== verification/RwSys.v ===== *)
(** * Reader-writer locks under concurrency

    Threads that run on several processors and use one reader-writer lock (rwlock.c), on the
    scheduler of [Sched]: every critical section and every call of the scheduler is one step,
    and between them the processors do anything else the scheduler offers. *)

From stdpp Require Import relations.
From S2P Require Import Prelude Clist Bits Sched SchedSpec SchedSys WaitView Sync.

Open Scope Z_scope.

Inductive rcall := RdLock | WrLock | TryRdLock | TryWrLock.

(** The place of a thread in the functions of rwlock.c; the flag says that it is a writer. *)
Inductive rpc :=
  | RIdle (err : Z)       (* without the lock; the last call returned [err] *)
  | RHold (wr : bool)     (* with the lock *)
  | RSleep (wr : bool)    (* in a lock function, sched_sleep is next *)
  | RAsleep (wr : bool).  (* in sched_sleep *)

#[global] Instance rpc_eq_dec : EqDecision rpc.
Proof. solve_decision. Defined.

Record rsys := { rker : kernel; rwl : rwlock_s; rpcs : gmap Z rpc }.

Definition rw_at (t : Z) (p : rpc) (m : rwlock_s) (s : kernel) (x : rsys) : rsys :=
  {| rker := s; rwl := m; rpcs := <[t := p]> (rpcs x) |}.

Definition rw_ker (s : kernel) (x : rsys) : rsys :=
  {| rker := s; rwl := rwl x; rpcs := rpcs x |}.

Definition got_or_sleeps (wr asleep : bool) : rpc := if asleep then RSleep wr else RHold wr.

Definition got_or_error (wr : bool) (err : Z) : rpc := if err =? 0 then RHold wr else RIdle err.

(** The next step of thread [t]; a thread without the lock makes the call [c], a thread with the
    lock releases it. *)
Definition rw_next (t : Z) (c : rcall) (x : rsys) : option rsys :=
  p ← rpcs x !! t;
  match p with
  | RIdle _ =>
      match c with
      | RdLock =>
          '(s, (m, asleep)) ← rwlock_rdlock t (rwl x) (rker x);
          Some (rw_at t (got_or_sleeps false asleep) m s x)
      | WrLock =>
          '(s, (m, asleep)) ← rwlock_wrlock t (rwl x) (rker x);
          Some (rw_at t (got_or_sleeps true asleep) m s x)
      | TryRdLock =>
          '(s, (err, m)) ← rwlock_tryrdlock (rwl x) (rker x);
          Some (rw_at t (got_or_error false err) m s x)
      | TryWrLock =>
          let '(err, m) := rwlock_trywrlock (rwl x) in
          Some (rw_at t (got_or_error true err) m (rker x) x)
      end
  | RHold _ =>
      '(s, (err, m)) ← rwlock_unlock t (rwl x) (rker x);
      Some (rw_at t (RIdle err) m s x)
  | RSleep wr =>
      '(s, _) ← sched_sleep t (rker x);
      Some (rw_at t (RAsleep wr) (rwl x) s x)
  | RAsleep wr => Some (rw_at t (RHold wr) (rwl x) (rker x) x)
  end.

(** The same step on the lists [lr] of the waiting readers and [lw] of the waiting writers, in
    the place of the scheduler. *)
Definition rw_spec (t : Z) (c : rcall) (p : rpc) (n : Z) (lr lw : list Z) :
    rpc * Z * list Z * list Z :=
  match p with
  | RIdle _ =>
      match c with
      | RdLock =>
          if (0 <=? n) && bool_decide (lw = []) then (RHold false, s32 (n + 1), lr, lw)
          else (RSleep false, n, lr ++ [t], lw)
      | WrLock =>
          if n =? 0 then (RHold true, s32 (n - 1), lr, lw)
          else (RSleep true, n, lr, lw ++ [t])
      | TryRdLock =>
          if (0 <=? n) && bool_decide (lw = []) then (RHold false, s32 (n + 1), lr, lw)
          else (RIdle EBUSY, n, lr, lw)
      | TryWrLock =>
          if n =? 0 then (RHold true, s32 (n - 1), lr, lw) else (RIdle EBUSY, n, lr, lw)
      end
  | RHold _ =>
      if n =? 0 then (RIdle EPERM, n, lr, lw)
      else if 1 <? n then (RIdle 0, n - 1, lr, lw)
      else match lw with
           | [] => (RIdle 0, s32 (u32 (Z.of_nat (length lr))), [], [])
           | _ :: lw => (RIdle 0, -1, lr, lw)
           end
  | RSleep wr => (RAsleep wr, n, lr, lw)
  | RAsleep wr => (RHold wr, n, lr, lw)
  end.

Section sys.
Context (nc nr : Z).

Definition rw_may (c t : Z) (x : rsys) : bool :=
  match rpcs x !! t with
  | Some (RSleep _) => may_sleep c t (rker x)
  | Some _ => may_call c t (rker x)
  | None => false
  end.

(** The other operations do not touch the queues of the lock, and a thread that is about to
    sleep on them sleeps as the lock functions say. *)
Definition rw_may_kop (c : Z) (op : kop) (x : rsys) : bool :=
  enabled nc nr c op (rker x) &&
  bool_decide (op_queue op ≠ Some (rd_queue (rwl x)) ∧ op_queue op ≠ Some (wr_queue (rwl x))) &&
  match op, cpus (rker x) !! c with
  | Sleep, Some cp =>
      match rpcs x !! current cp with Some (RSleep _) => false | _ => true end
  | _, _ => true
  end.

Inductive rw_step : rsys → rsys → Prop :=
  | rw_step_kop c op x s :
      0 ≤ c < nc → rw_may_kop c op x = true → do_op c op (rker x) = Some (s, tt) →
      rw_step x (rw_ker s x)
  | rw_step_call c t call x x' :
      0 ≤ c < nc → rw_may c t x = true → rw_next t call x = Some x' → rw_step x x'.

(** The start: the machine of [SchedSys.initial], a lock as [rwlock_init] leaves it, and threads
    that have not used it. *)
Record rw_initial (x : rsys) : Prop := {
  ri_ker : initial nc nr (rker x);
  ri_count : rw_count (rwl x) = 0;
  ri_queues : 3 * nc ≤ rd_queue (rwl x) < nr ∧ 3 * nc ≤ wr_queue (rwl x) < nr ∧
              rd_queue (rwl x) ≠ wr_queue (rwl x);
  ri_pcs : ∀ t p, rpcs x !! t = Some p → p = RIdle 0;
  ri_size : Z.of_nat (size (rpcs x)) < 2 ^ 31
}.
End sys.

(** Thread [t] has the lock: it has returned from the lock function, or it was taken out of the
    queue [l] on which it went to sleep. *)
Definition holds (m : gmap Z rpc) (l : list Z) (wr : bool) (t : Z) : Prop :=
  m !! t = Some (RHold wr) ∨
  (m !! t = Some (RSleep wr) ∨ m !! t = Some (RAsleep wr)) ∧ t ∉ l.

(** ** The invariant *)

(** [R] are the readers that have the lock and [w] is the writer that has it. *)
Record rinv (m : gmap Z rpc) (n : Z) (lr lw : list Z) (R : gset Z) (w : option Z) : Prop := {
  r_size : Z.of_nat (size m) < 2 ^ 31;
  r_R : ∀ t, t ∈ R ↔ holds m lr false t;
  r_w : ∀ t, w = Some t ↔ holds m lw true t;
  r_n : n = if w then -1 else Z.of_nat (size R);
  r_excl : ∀ t, w = Some t → R = ∅;
  r_lr : ∀ t, t ∈ lr → m !! t = Some (RSleep false) ∨ m !! t = Some (RAsleep false);
  r_lw : ∀ t, t ∈ lw → m !! t = Some (RSleep true) ∨ m !! t = Some (RAsleep true);
  r_free : w = None → R = ∅ → lr = [] ∧ lw = [];
  r_pref : w = None → lw = [] → lr = [];
  r_err : ∀ t err, m !! t = Some (RIdle err) → err = 0 ∨ err = EBUSY
}.

Lemma holds_other m l wr t p u : u ≠ t → holds (<[t := p]> m) l wr u ↔ holds m l wr u.
Proof. intros Hne. unfold holds. by rewrite lookup_insert_ne. Qed.

Lemma holds_self m l wr t p :
  holds (<[t := p]> m) l wr t ↔ p = RHold wr ∨ (p = RSleep wr ∨ p = RAsleep wr) ∧ t ∉ l.
Proof. unfold holds. rewrite lookup_insert_eq. naive_solver. Qed.

Lemma holds_list m l l' wr u : (u ∈ l ↔ u ∈ l') → holds m l wr u ↔ holds m l' wr u.
Proof. unfold holds. tauto. Qed.

Lemma holds_some m l wr t : holds m l wr t → is_Some (m !! t).
Proof. intros [E|[[E|E] _]]; eauto. Qed.

Lemma asleep_insert (m : gmap Z rpc) (l : list Z) wr t p :
  t ∉ l ∨ p = RSleep wr ∨ p = RAsleep wr →
  (∀ u, u ∈ l → m !! u = Some (RSleep wr) ∨ m !! u = Some (RAsleep wr)) →
  ∀ u, u ∈ l → <[t := p]> m !! u = Some (RSleep wr) ∨ <[t := p]> m !! u = Some (RAsleep wr).
Proof.
  intros Ht Hm u Hu. destruct (decide (u = t)) as [->|Hne].
  - rewrite lookup_insert_eq. naive_solver.
  - rewrite lookup_insert_ne by done. auto.
Qed.

Lemma err_insert (m : gmap Z rpc) t p :
  (∀ err, p = RIdle err → err = 0 ∨ err = EBUSY) →
  (∀ t err, m !! t = Some (RIdle err) → err = 0 ∨ err = EBUSY) →
  ∀ u err, <[t := p]> m !! u = Some (RIdle err) → err = 0 ∨ err = EBUSY.
Proof. intros Hp Hm u err. rewrite lookup_insert_Some. intros [[_ Hu]|[_ Hu]]; eauto. Qed.

Lemma size_R m lr (R : gset Z) n :
  (∀ t, t ∈ R ↔ holds m lr false t) → Z.of_nat (size m) < n → Z.of_nat (size R) < n.
Proof.
  intros HR Hn. assert (size R ≤ size m)%nat; [|lia].
  rewrite <- (size_dom (D := gset Z)). apply subseteq_size. intros t Ht.
  apply elem_of_dom. eapply holds_some. by apply HR.
Qed.

(** A step of [t] that changes neither who has the lock nor the queues. *)
Lemma rinv_move m n lr lw R w t p p' :
  rinv m n lr lw R w → m !! t = Some p →
  (∀ wr l, holds (<[t := p']> m) l wr t ↔ holds m l wr t) →
  (t ∈ lr → p' = RSleep false ∨ p' = RAsleep false) →
  (t ∈ lw → p' = RSleep true ∨ p' = RAsleep true) →
  (∀ err, p' = RIdle err → err = 0 ∨ err = EBUSY) →
  rinv (<[t := p']> m) n lr lw R w.
Proof.
  intros [H1 H2 H3 H4 H5 H6 H7 H8 H9 H10] Et Hh Hr Hw He.
  assert (∀ u wr l, holds (<[t := p']> m) l wr u ↔ holds m l wr u) as Hall.
  { intros u wr l. destruct (decide (u = t)) as [->|Hne]; [apply Hh|by apply holds_other]. }
  split; try done.
  - by rewrite map_size_insert_Some by eauto.
  - intros u. by rewrite Hall.
  - intros u. by rewrite Hall.
  - apply asleep_insert; [|done]. destruct (decide (t ∈ lr)); auto.
  - apply asleep_insert; [|done]. destruct (decide (t ∈ lw)); auto.
  - by apply err_insert.
Qed.

(** [t] becomes a reader. *)
Lemma rinv_read m n lr lw R w t err :
  rinv m n lr lw R w → m !! t = Some (RIdle err) → 0 ≤ n → lw = [] → t ∉ lr →
  rinv (<[t := RHold false]> m) (s32 (n + 1)) lr lw (R ∪ {[t]}) w.
Proof.
  intros [H1 H2 H3 H4 H5 H6 H7 H8 H9 H10] Et Hn Hl Htr.
  destruct w as [w|]; [lia|]. subst n.
  assert (¬ holds m lr false t ∧ ¬ holds m lw true t) as [Hf Ht]
    by (unfold holds; rewrite Et; split; intros [?|[[?|?] _]]; done).
  assert (t ∉ R) as HtR by (by rewrite H2).
  assert (∀ u, u ∈ R ∪ {[t]} ↔ holds (<[t := RHold false]> m) lr false u) as HR'.
  { intros u. destruct (decide (u = t)) as [->|Hne].
    - rewrite holds_self. set_solver.
    - rewrite holds_other by done. rewrite <- H2. set_solver. }
  assert (size (<[t := RHold false]> m) = size m) as Hs by (apply map_size_insert_Some; eauto).
  assert (Z.of_nat (size (R ∪ {[t]})) = Z.of_nat (size R) + 1) as Hsz
    by (rewrite size_union, size_singleton by set_solver; lia).
  pose proof (size_R _ _ _ _ HR' ltac:(rewrite Hs; exact H1)) as Hlt.
  split; try done.
  - by rewrite Hs.
  - intros u. destruct (decide (u = t)) as [->|Hne].
    + rewrite holds_self. naive_solver.
    + by rewrite holds_other.
  - rewrite s32_small by lia. lia.
  - apply asleep_insert; auto.
  - apply asleep_insert; [|done]. left. rewrite Hl. apply not_elem_of_nil.
  - set_solver.
  - by apply err_insert.
Qed.

(** [t] becomes the writer. *)
Lemma rinv_write m n lr lw R w t err :
  rinv m n lr lw R w → m !! t = Some (RIdle err) → n = 0 →
  rinv (<[t := RHold true]> m) (s32 (n - 1)) lr lw R (Some t).
Proof.
  intros [H1 H2 H3 H4 H5 H6 H7 H8 H9 H10] Et ->.
  destruct w as [w|]; [done|].
  assert (R = ∅) as -> by (apply leibniz_equiv, size_empty_inv; lia).
  destruct (H8 eq_refl eq_refl) as [-> ->].
  assert (∀ u, ¬ holds m [] false u ∧ ¬ holds m [] true u) as Hno.
  { intros u. rewrite <- H2, <- H3. set_solver. }
  split; try done.
  - by rewrite map_size_insert_Some by eauto.
  - intros u. destruct (decide (u = t)) as [->|Hne].
    + rewrite holds_self. set_solver.
    + rewrite holds_other by done. pose proof (Hno u). set_solver.
  - intros u. destruct (decide (u = t)) as [->|Hne].
    + rewrite holds_self. naive_solver.
    + rewrite holds_other by done. pose proof (Hno u). naive_solver.
  - set_solver.
  - set_solver.
  - by apply err_insert.
Qed.

(** [t] goes to the queue of the readers or of the writers. *)
Lemma rinv_sleep (wr : bool) m n lr lw R w t err :
  rinv m n lr lw R w → m !! t = Some (RIdle err) → t ∉ lr → t ∉ lw →
  (if wr then n ≠ 0 else n < 0 ∨ lw ≠ []) →
  rinv (<[t := RSleep wr]> m) n (if wr then lr else lr ++ [t]) (if wr then lw ++ [t] else lw) R w.
Proof.
  intros [H1 H2 H3 H4 H5 H6 H7 H8 H9 H10] Et Hr Hw Hn.
  assert (∀ u l wr', holds (<[t := RSleep wr]> m) (if bool_decide (wr = wr') then l ++ [t] else l) wr' u
    ↔ holds m l wr' u) as Hall.
  { intros u l wr'. destruct (decide (u = t)) as [->|Hne].
    - rewrite holds_self. unfold holds. rewrite Et. case_bool_decide; set_solver.
    - rewrite holds_other by done. apply holds_list. case_bool_decide; set_solver. }
  assert (∀ l wr', (∀ u, u ∈ l → m !! u = Some (RSleep wr') ∨ m !! u = Some (RAsleep wr')) →
    t ∉ l → ∀ u, u ∈ (if bool_decide (wr = wr') then l ++ [t] else l) →
    <[t := RSleep wr]> m !! u = Some (RSleep wr') ∨
    <[t := RSleep wr]> m !! u = Some (RAsleep wr')) as Hasl.
  { intros l wr' Hl Ht u Hu. destruct (decide (u = t)) as [->|Hne].
    - rewrite lookup_insert_eq. case_bool_decide; [subst; auto|done].
    - rewrite lookup_insert_ne by done. apply Hl. case_bool_decide; set_solver. }
  assert (w = None → R = ∅ → n = 0) as H0 by (intros -> ->; done).
  pose proof (λ u, Hall u lr false) as Ar. pose proof (λ u, Hall u lw true) as Aw.
  pose proof (Hasl lr false H6 Hr) as Br. pose proof (Hasl lw true H7 Hw) as Bw.
  destruct wr; cbn in *; split; try done;
    (try by rewrite map_size_insert_Some by eauto); (try (intros u; by rewrite ?Ar, ?Aw));
    try (by apply err_insert).
  - intros E1 E2. by destruct Hn; auto.
  - intros E1 E2. by destruct lw.
  - intros E1 E2. destruct (H8 E1 E2). pose proof (H0 E1 E2). destruct Hn; [lia|done].
  - intros -> ->. destruct Hn; [lia|done].
Qed.

(** The lock is released by its last holder: it goes to the first waiting writer, or to all the
    waiting readers. *)
Lemma rinv_pass m n lr lw R w t wr :
  rinv m n lr lw R w → m !! t = Some (RHold wr) → t ∉ lr → t ∉ lw → NoDup lr → NoDup lw →
  n ≤ 1 →
  match lw with
  | [] => rinv (<[t := RIdle 0]> m) (s32 (u32 (Z.of_nat (length lr)))) [] []
            (list_to_set lr) None
  | u :: lw => rinv (<[t := RIdle 0]> m) (-1) lr lw ∅ (Some u)
  end.
Proof.
  intros [H1 H2 H3 H4 H5 H6 H7 H8 H9 H10] Et Hr Hw Nr Nw Hn.
  assert (∀ u, u ≠ t → u ∉ R ∧ w ≠ Some u) as Honly.
  { intros u Hne. destruct wr.
    - assert (w = Some t) as -> by (apply H3; by left). rewrite (H5 t) by done.
      split; [set_solver|congruence].
    - assert (t ∈ R) as HtR by (apply H2; by left). destruct w as [w|].
      { rewrite (H5 w) in HtR by done. set_solver. }
      split; [|done]. intros Hu. assert (size ({[t; u]} : gset Z) ≤ size R)%nat as Hs
        by (apply subseteq_size; set_solver).
      rewrite size_union, !size_singleton in Hs by set_solver. lia. }
  assert (∀ l wr' u, u ≠ t → u ∉ l → ¬ holds m l wr' u → ¬ holds m [] wr' u) as Hdrop.
  { intros l wr' u Hne Hu Hh Hh'. apply Hh. apply (holds_list m l []); [set_solver|done]. }
  assert (size (<[t := RIdle 0]> m) = size m) as Hs by (apply map_size_insert_Some; eauto).
  assert (∀ err, RIdle 0 = RIdle err → err = 0 ∨ err = EBUSY) as He by naive_solver.
  assert (length lr ≤ size m)%nat as Hle.
  { apply nodup_size; [done|]. intros u [E|E]%H6; eauto. }
  destruct lw as [|v lw].
  - split; try done.
    + by rewrite Hs.
    + intros u. rewrite elem_of_list_to_set. destruct (decide (u = t)) as [->|Hne].
      { rewrite holds_self. naive_solver. }
      rewrite holds_other by done. destruct (Honly u Hne) as [HuR _]. rewrite H2 in HuR.
      unfold holds in *. destruct (decide (u ∈ lr)) as [Hin|Hin].
      * pose proof (H6 u Hin). pose proof (not_elem_of_nil u). tauto.
      * tauto.
    + intros u. destruct (decide (u = t)) as [->|Hne].
      { rewrite holds_self. naive_solver. }
      rewrite holds_other by done. destruct (Honly u Hne) as [_ Hu]. rewrite H3 in Hu. naive_solver.
    + rewrite (u32_small (Z.of_nat (length lr))) by (unfold wsize; lia).
      rewrite s32_small, size_list_to_set by (done || lia). done.
    + set_solver.
    + set_solver.
    + by apply err_insert.
  - apply NoDup_cons in Nw as [Hv Nw]. split; try done.
    + by rewrite Hs.
    + intros u. destruct (decide (u = t)) as [->|Hne].
      { rewrite holds_self. set_solver. }
      rewrite holds_other by done. rewrite <- H2. destruct (Honly u Hne). set_solver.
    + intros u. destruct (decide (u = t)) as [->|Hne].
      { rewrite holds_self. set_solver. }
      rewrite holds_other by done. destruct (Honly u Hne) as [_ Hu]. rewrite H3 in Hu.
      unfold holds in *. destruct (decide (u = v)) as [->|Huv].
      * pose proof (H7 v ltac:(left)). tauto.
      * rewrite elem_of_cons in Hu. split; [congruence|]. intros Hh. destruct Hu. tauto.
    + apply asleep_insert; auto.
    + apply asleep_insert; [left; set_solver|]. intros u Hu. apply H7. by right.
    + by apply err_insert.
Qed.

(** A reader releases the lock and others keep it. *)
Lemma rinv_leave m n lr lw R w t wr :
  rinv m n lr lw R w → m !! t = Some (RHold wr) → t ∉ lr → t ∉ lw → 1 < n →
  rinv (<[t := RIdle 0]> m) (n - 1) lr lw (R ∖ {[t]}) w.
Proof.
  intros [H1 H2 H3 H4 H5 H6 H7 H8 H9 H10] Et Hr Hw Hn. destruct w as [w|]; [lia|].
  assert (wr = false) as ->.
  { destruct wr; [|done]. assert (None = Some t); [|done]. apply H3. by left. }
  assert (t ∈ R) as HtR by (apply H2; by left).
  assert (size (R ∖ {[t]}) = size R - 1)%nat as Hsz.
  { rewrite size_difference, size_singleton by set_solver. done. }
  split; try done.
  - by rewrite map_size_insert_Some by eauto.
  - intros u. destruct (decide (u = t)) as [->|Hne].
    + rewrite holds_self. set_solver.
    + rewrite holds_other by done. rewrite <- H2. set_solver.
  - intros u. destruct (decide (u = t)) as [->|Hne].
    + rewrite holds_self. naive_solver.
    + by rewrite holds_other.
  - lia.
  - apply asleep_insert; auto.
  - apply asleep_insert; auto.
  - intros _ E. rewrite E, size_empty in Hsz. lia.
  - apply err_insert; [naive_solver|done].
Qed.

Lemma rinv_spec m n lr lw R w t c p p' n' lr' lw' :
  rinv m n lr lw R w → m !! t = Some p → NoDup lr → NoDup lw →
  ((∀ wr, p ≠ RSleep wr) → t ∉ lr ∧ t ∉ lw) → rw_spec t c p n lr lw = (p', n', lr', lw') →
  ∃ R' w', rinv (<[t := p']> m) n' lr' lw' R' w'.
Proof.
  intros Hi Et Nr Nw Hl Es. destruct p as [err|wr|wr|wr]; cbn in Es.
  - destruct (Hl ltac:(done)) as [Hr Hw].
    assert (rinv (<[t := RIdle EBUSY]> m) n lr lw R w) as Hb.
    { eapply rinv_move; try done; [|naive_solver]. intros wr l. rewrite holds_self. unfold holds.
      rewrite Et. naive_solver. }
    destruct c; cbn in Es.
    + destruct ((0 <=? n) && bool_decide (lw = [])) eqn:E; simplify_eq.
      * apply andb_true_iff in E as [E1 E2%bool_decide_eq_true].
        eexists _, _. eapply rinv_read; try done. lia.
      * eexists _, _. eapply (rinv_sleep false); try done.
        apply andb_false_iff in E as [E|E%bool_decide_eq_false]; [left; lia|by right].
    + destruct (Z.eqb_spec n 0); simplify_eq; eexists _, _;
        [by eapply rinv_write|by eapply (rinv_sleep true)].
    + destruct ((0 <=? n) && bool_decide (lw = [])) eqn:E; simplify_eq; [|eauto].
      apply andb_true_iff in E as [E1 E2%bool_decide_eq_true].
      eexists _, _. eapply rinv_read; try done. lia.
    + destruct (Z.eqb_spec n 0); simplify_eq; [|eauto]. eexists _, _. by eapply rinv_write.
  - destruct (Hl ltac:(done)) as [Hr Hw]. pose proof (r_n _ _ _ _ _ _ Hi) as Hn.
    destruct (Z.eqb_spec n 0) as [->|Hn0].
    { exfalso. destruct w; [done|]. destruct wr.
      - assert (None = Some t); [|done]. apply (r_w _ _ _ _ _ _ Hi). by left.
      - assert (t ∈ R) as HtR by (apply (r_R _ _ _ _ _ _ Hi); by left).
        assert (R = ∅) as -> by (apply leibniz_equiv, size_empty_inv; lia). set_solver. }
    destruct (Z.ltb_spec 1 n); simplify_eq; [eexists _, _; by eapply rinv_leave|].
    pose proof (rinv_pass _ _ _ _ _ _ _ _ Hi Et Hr Hw Nr Nw ltac:(lia)) as Hp.
    destruct lw; simplify_eq; eauto.
  - simplify_eq. exists R, w. eapply rinv_move; try done.
    + intros wr' l. rewrite holds_self. unfold holds. rewrite Et. naive_solver.
    + intros Hin. destruct (r_lr _ _ _ _ _ _ Hi t Hin) as [E|E]; rewrite Et in E; naive_solver.
    + intros Hin. destruct (r_lw _ _ _ _ _ _ Hi t Hin) as [E|E]; rewrite Et in E; naive_solver.
  - simplify_eq. destruct (Hl ltac:(done)) as [Hr Hw]. exists R, w.
    destruct Hi as [H1 H2 H3 H4 H5 H6 H7 H8 H9 H10].
    assert (∀ u wr' l, (wr' = wr → t ∉ l) → holds (<[t := RHold wr]> m) l wr' u ↔ holds m l wr' u)
      as Hall.
    { intros u wr' l Hnl. destruct (decide (u = t)) as [->|Hne]; [|by apply holds_other].
      rewrite holds_self. unfold holds. rewrite Et. naive_solver. }
    split; try done.
    + by rewrite map_size_insert_Some by eauto.
    + intros u. by rewrite Hall.
    + intros u. by rewrite Hall.
    + apply asleep_insert; auto.
    + apply asleep_insert; auto.
    + by apply err_insert.
Qed.

(** While a writer waits, nobody becomes a reader. *)
Lemma rw_spec_pref m lr lw n t c p p' n' lr' lw' u :
  m !! t = Some p → ((∀ wr, p ≠ RSleep wr) → t ∉ lr ∧ t ∉ lw) →
  rw_spec t c p n lr lw = (p', n', lr', lw') → lw ≠ [] →
  holds (<[t := p']> m) lr' false u → holds m lr false u.
Proof.
  intros Et Hl Es Hw Hh. unfold rw_spec in Es. rewrite bool_decide_eq_false_2, andb_false_r in Es
    by done.
  assert (∀ l, u ≠ t → holds (<[t := p']> m) l false u → (u ∈ lr ↔ u ∈ l) → holds m lr false u)
    as Hoth.
  { intros l Hne Hh' Hin. rewrite holds_other in Hh' by done. by eapply holds_list. }
  destruct (decide (u = t)) as [->|Hne].
  - apply holds_self in Hh. unfold holds. rewrite Et.
    destruct p as [err|wr|wr|wr]; [destruct c|..]; repeat case_match; simplify_eq;
      destruct Hh as [?|[[?|?] Hin]]; simplify_eq; try set_solver; auto.
  - apply (Hoth lr' Hne Hh). clear Hh Hoth. destruct p; [destruct c|..]; repeat case_match; simplify_eq; try done.
    rewrite elem_of_app, list_elem_of_singleton. tauto.
Qed.

Section proofs.
Context (nc nr : Z) (Hnc : 0 < nc) (Hnr : 3 * nc ≤ nr).
Context (qr qw : Z) (Hqr : 3 * nc ≤ qr < nr) (Hqw : 3 * nc ≤ qw < nr) (Hqq : qr ≠ qw).
#[local] Set Default Proof Using "All".

Lemma qs_range q : q ∈ [qr; qw] → 3 * nc ≤ q < nr.
Proof. rewrite !elem_of_cons, elem_of_nil. naive_solver. Qed.

Lemma qr_in : qr ∈ [qr; qw].
Proof. set_solver. Qed.

Lemma qw_in : qw ∈ [qr; qw].
Proof. set_solver. Qed.

Definition on_queues (lr lw : list Z) (q : Z) : list Z := if q =? qr then lr else lw.

(** The scheduler is in a good state and [lr] and [lw] are on the two queues. *)
Definition G2 (lr lw : list Z) (s : kernel) : Prop := view nc nr [qr; qw] (on_queues lr lw) s.

Lemma on_qr lr lw : on_queues lr lw qr = lr.
Proof. unfold on_queues. by rewrite Z.eqb_refl. Qed.

Lemma on_qw lr lw : on_queues lr lw qw = lw.
Proof. unfold on_queues. by rewrite (proj2 (Z.eqb_neq qw qr)). Qed.

Lemma G2_updr lr lw l s : view nc nr [qr; qw] (upd_ring (on_queues lr lw) qr l) s → G2 l lw s.
Proof.
  intros Hv. eapply (view_ext nc nr Hnc Hnr _ qs_range); [exact Hv|]. intros q _.
  unfold upd_ring, on_queues. by destruct (q =? qr).
Qed.

Lemma G2_updw lr lw l s : view nc nr [qr; qw] (upd_ring (on_queues lr lw) qw l) s → G2 lr l s.
Proof.
  intros Hv. eapply (view_ext nc nr Hnc Hnr _ qs_range); [exact Hv|]. intros q Hq.
  unfold upd_ring, on_queues. rewrite !elem_of_cons, elem_of_nil in Hq.
  destruct (Z.eqb_spec q qw), (Z.eqb_spec q qr); try done; [congruence|].
  by destruct Hq as [?|[?|?]].
Qed.

Lemma G2_off lr lw s c t : G2 lr lw s → may_call c t s = true → t ∉ lr ∧ t ∉ lw.
Proof.
  intros HG Hm. pose proof (view_off nc nr Hnc Hnr _ qs_range _ _ _ _ qr HG Hm qr_in) as H1.
  pose proof (view_off nc nr Hnc Hnr _ qs_range _ _ _ _ qw HG Hm qw_in) as H2.
  by rewrite on_qr in H1; rewrite on_qw in H2.
Qed.

Lemma G2_nodup lr lw s : G2 lr lw s → NoDup lr ∧ NoDup lw.
Proof.
  intros HG. pose proof (view_nodup nc nr Hnc Hnr _ qs_range _ _ qr HG qr_in) as H1.
  pose proof (view_nodup nc nr Hnc Hnr _ qs_range _ _ qw HG qw_in) as H2.
  by rewrite on_qr in H1; rewrite on_qw in H2.
Qed.

Lemma G2_waiters lr lw s : G2 lr lw s → waiters nr s qr lr ∧ waiters nr s qw lw.
Proof.
  intros HG. pose proof (view_waiters nc nr Hnc Hnr _ qs_range _ _ qr HG qr_in) as H1.
  pose proof (view_waiters nc nr Hnc Hnr _ qs_range _ _ qw HG qw_in) as H2.
  by rewrite on_qr in H1; rewrite on_qw in H2.
Qed.

Lemma G2_wait_rd lr lw s c t :
  G2 lr lw s → 0 ≤ c < nc → may_call c t s = true →
  runs s (wait_on t qr WAIT_LAST) (λ _ s', G2 (lr ++ [t]) lw s').
Proof.
  intros HG Hc Hm. eapply runs_mono;
    [eapply (view_wait_on nc nr Hnc Hnr _ qs_range); [exact HG|done|done|apply qr_in]|].
  intros [] s' Hv%G2_updr. by rewrite on_qr in Hv.
Qed.

Lemma G2_wait_wr lr lw s c t :
  G2 lr lw s → 0 ≤ c < nc → may_call c t s = true →
  runs s (wait_on t qw WAIT_LAST) (λ _ s', G2 lr (lw ++ [t]) s').
Proof.
  intros HG Hc Hm. eapply runs_mono;
    [eapply (view_wait_on nc nr Hnc Hnr _ qs_range); [exact HG|done|done|apply qw_in]|].
  intros [] s' Hv%G2_updw. by rewrite on_qw in Hv.
Qed.

Lemma G2_may_read lr lw s n :
  G2 lr lw s →
  runs s (if n >=? 0 then wait_queue_isEmpty qw else mret false)
    (λ b s', b = (0 <=? n) && bool_decide (lw = []) ∧ s' = s).
Proof.
  intros HG. rewrite Z.geb_leb. destruct (0 <=? n); [|by apply runs_ret].
  eapply (view_empty nc nr Hnc Hnr _ qs_range); [exact HG|apply qw_in|]. by rewrite on_qw.
Qed.

(** The functions that do not release the lock. *)
Lemma rdlock_ok lr lw s c t m :
  G2 lr lw s → 0 ≤ c < nc → may_call c t s = true → rd_queue m = qr → wr_queue m = qw →
  runs s (rwlock_rdlock t m) (λ r s',
    let ok := (0 <=? rw_count m) && bool_decide (lw = []) in
    r = (if ok then set_rw_count (s32 (rw_count m + 1)) m else m, negb ok) ∧
    G2 (if ok then lr else lr ++ [t]) lw s').
Proof.
  intros HG Hc Hm E1 E2. unfold rwlock_rdlock. rewrite E1, E2. apply runs_bind.
  eapply runs_mono; [by eapply G2_may_read|]. intros b s' [-> ->].
  destruct (_ && _); [by apply runs_ret|]. apply runs_bind.
  eapply runs_mono; [by eapply G2_wait_rd|]. intros [] s' HG'. by apply runs_ret.
Qed.

Lemma wrlock_ok lr lw s c t m :
  G2 lr lw s → 0 ≤ c < nc → may_call c t s = true → wr_queue m = qw →
  runs s (rwlock_wrlock t m) (λ r s',
    let ok := rw_count m =? 0 in
    r = (if ok then set_rw_count (s32 (rw_count m - 1)) m else m, negb ok) ∧
    G2 lr (if ok then lw else lw ++ [t]) s').
Proof.
  intros HG Hc Hm E. unfold rwlock_wrlock. rewrite E.
  destruct (rw_count m =? 0); [by apply runs_ret|]. apply runs_bind.
  eapply runs_mono; [by eapply G2_wait_wr|]. intros [] s' HG'. by apply runs_ret.
Qed.

Lemma tryrdlock_ok lr lw s m :
  G2 lr lw s → wr_queue m = qw →
  runs s (rwlock_tryrdlock m) (λ r s',
    r = (if (0 <=? rw_count m) && bool_decide (lw = [])
         then (0, set_rw_count (s32 (rw_count m + 1)) m) else (EBUSY, m)) ∧ s' = s).
Proof.
  intros HG E. unfold rwlock_tryrdlock. rewrite E. apply runs_bind.
  eapply runs_mono; [by eapply G2_may_read|]. intros b s' [-> ->].
  destruct (_ && _); by apply runs_ret.
Qed.

Lemma unlock_ok lr lw s t m :
  G2 lr lw s → is_Some (threads s !! t) → rd_queue m = qr → wr_queue m = qw →
  runs s (rwlock_unlock t m) (λ r s', ∃ err n' lr' lw',
    rw_spec t RdLock (RHold false) (rw_count m) lr lw = (RIdle err, n', lr', lw') ∧
    r = (err, set_rw_count n' m) ∧ G2 lr' lw' s').
Proof.
  intros HG Ht E1 E2. unfold rwlock_unlock, rw_spec. rewrite Z.gtb_ltb.
  destruct (Z.eqb_spec (rw_count m) 0) as [E0|_].
  { apply runs_ret. eexists _, _, _, _. split; [done|]. split; [|done].
    f_equal. by destruct m. }
  destruct (1 <? rw_count m); [apply runs_ret; by eexists _, _, _, _|].
  rewrite E1, E2. apply runs_bind. eapply runs_mono;
    [eapply (view_wakeup_one nc nr Hnc Hnr _ qs_range); [exact HG|done|apply qw_in]|].
  intros u s' (-> & Hsame & _ & Hv%G2_updw). rewrite on_qw in *.
  destruct lw as [|v lw]; [|apply runs_ret; by eexists _, _, _, _].
  apply runs_bind. eapply runs_mono;
    [eapply (view_wakeup_all nc nr Hnc Hnr _ qs_range); [exact Hv| |apply qr_in]|].
  { by rewrite (Hsame eq_refl). }
  intros n s2 [-> Hv2%G2_updr]. rewrite on_qr in *. apply runs_ret. by eexists _, _, _, _.
Qed.

(** The steps of the lock are those of [rw_spec]. *)
Lemma rw_next_ok x c t call lr lw :
  G2 lr lw (rker x) → rd_queue (rwl x) = qr → wr_queue (rwl x) = qw → 0 ≤ c < nc →
  rw_may c t x = true →
  ∃ p s' p' n' lr' lw', rpcs x !! t = Some p ∧
    ((∀ wr, p ≠ RSleep wr) → t ∉ lr ∧ t ∉ lw) ∧
    rw_spec t call p (rw_count (rwl x)) lr lw = (p', n', lr', lw') ∧
    rw_next t call x = Some (rw_at t p' (set_rw_count n' (rwl x)) s' x) ∧ G2 lr' lw' s'.
Proof.
  intros HG E1 E2 Hc Hm. unfold rw_may in Hm.
  destruct (rpcs x !! t) as [p|] eqn:Ep; [|done]. exists p.
  assert ((∀ wr, p ≠ RSleep wr) → may_call c t (rker x) = true) as Hst.
  { intros Hp. destruct p; try done. by destruct (Hp wr). }
  assert ((∀ wr, p ≠ RSleep wr) → t ∉ lr ∧ t ∉ lw) as Hl.
  { intros Hp%Hst. by eapply G2_off. }
  assert (set_rw_count (rw_count (rwl x)) (rwl x) = rwl x) as Eid by (by destruct (rwl x)).
  unfold rw_next. rewrite Ep. cbn [mbind option_bind].
  destruct p as [err|wr|wr|wr]; [specialize (Hst ltac:(done))..| |].
  - destruct call; cbn [rw_spec].
    + destruct (rdlock_ok lr lw (rker x) c t (rwl x)) as (s' & r & -> & -> & HG'); try done.
      exists s'. destruct (_ && _); eexists _, _, _, _; (split; [done|]); (split; [done|]);
        (split; [done|]); rewrite ?Eid; done.
    + destruct (wrlock_ok lr lw (rker x) c t (rwl x)) as (s' & r & -> & -> & HG'); try done.
      exists s'. destruct (_ =? _); eexists _, _, _, _; (split; [done|]); (split; [done|]);
        (split; [done|]); rewrite ?Eid; done.
    + destruct (tryrdlock_ok lr lw (rker x) (rwl x)) as (s' & r & -> & -> & ->); try done.
      exists (rker x). destruct (_ && _); eexists _, _, _, _; (split; [done|]); (split; [done|]);
        (split; [done|]); rewrite ?Eid; done.
    + exists (rker x). unfold rwlock_trywrlock.
      destruct (_ =? _); eexists _, _, _, _; (split; [done|]); (split; [done|]);
        (split; [done|]); cbn; rewrite ?Eid; done.
  - destruct (may_call_inv c t (rker x) Hst) as (_ & th & _ & Eth & _).
    destruct (unlock_ok lr lw (rker x) t (rwl x))
      as (s' & r & -> & e & n' & lr' & lw' & Es & -> & HG'); try done.
    exists s'. eexists _, _, _, _. split; [done|]. split; [done|]. split; [exact Es|]. done.
  - destruct (view_sleep nc nr Hnc Hnr _ qs_range _ (rker x) c t HG Hc Hm) as (s' & [] & -> & HG').
    exists s'. eexists _, _, _, _. split; [done|]. split; [done|]. split; [done|].
    by rewrite Eid.
  - exists (rker x). eexists _, _, _, _. split; [done|]. split; [done|]. split; [done|].
    by rewrite Eid.
Qed.

(** What holds along an execution. *)
Definition rw_good (x : rsys) : Prop :=
  rd_queue (rwl x) = qr ∧ wr_queue (rwl x) = qw ∧
  ∃ lr lw R w, G2 lr lw (rker x) ∧ rinv (rpcs x) (rw_count (rwl x)) lr lw R w.

Lemma rw_good_step x x' : rw_good x → rw_step nc nr x x' → rw_good x'.
Proof.
  intros (E1 & E2 & lr & lw & R & w & HG & Hi) Hst.
  destruct Hst as [c op x s Hc Hm E|c t call x x' Hc Hm E].
  - apply andb_true_iff in Hm as [[Hm [Ho1 Ho2]%bool_decide_eq_true]%andb_true_iff _].
    destruct (view_kop nc nr Hnc Hnr _ qs_range _ c op (rker x) HG Hc Hm) as (s' & [] & E' & HG').
    { intros q. rewrite !elem_of_cons, elem_of_nil. intros [->|[->|[]]]; congruence. }
    assert (s = s') as -> by congruence. split; [done|]. split; [done|]. eauto 10.
  - destruct (rw_next_ok x c t call lr lw HG E1 E2 Hc Hm)
      as (p & s' & p' & n' & lr' & lw' & Ep & Hl & Es & E' & HG').
    assert (x' = rw_at t p' (set_rw_count n' (rwl x)) s' x) as -> by congruence.
    destruct (G2_nodup _ _ _ HG) as [Nr Nw].
    destruct (rinv_spec _ _ _ _ _ _ _ _ _ _ _ _ _ Hi Ep Nr Nw Hl Es) as (R' & w' & Hi').
    split; [done|]. split; [done|]. eauto 10.
Qed.

Lemma rw_good_rtc x x' : rw_good x → rtc (rw_step nc nr) x x' → rw_good x'.
Proof. intros Hg Hr. induction Hr; eauto using rw_good_step. Qed.

Lemma rw_good_initial x :
  rw_initial nc nr x → rd_queue (rwl x) = qr → wr_queue (rwl x) = qw → rw_good x.
Proof.
  intros [H1 H2 H3 H4 H5] E1 E2. split; [done|]. split; [done|]. exists [], [], ∅, None.
  assert (∀ wr t, ¬ holds (rpcs x) [] wr t) as Hno.
  { intros wr t [E|[[E|E] _]]; apply H4 in E; done. }
  split.
  - eapply (view_ext nc nr Hnc Hnr _ qs_range);
      [by apply (view_initial nc nr Hnc Hnr _ qs_range)|]. intros q _. unfold on_queues.
    by destruct (q =? qr).
  - split; try done.
    + intros t. pose proof (Hno false t). set_solver.
    + intros t. pose proof (Hno true t). naive_solver.
    + set_solver.
    + set_solver.
    + intros t err E. apply H4 in E as [= ->]. by left.
Qed.
End proofs.

(** C12. A reader-writer lock that any number of threads use on any number of processors, whatever
    else they do with the scheduler.  The writer that has the lock has it alone; a thread waits
    only while another one has the lock, and a reader waits only behind a writer, so no wake-up
    is lost; while a writer waits nobody becomes a reader; a thread that has the lock never fails
    to release it; [rwlock_destroy] accepts the lock only when nobody has it; and no step
    fails.  There are fewer than 2^31 threads, so that the count does not wrap around; and, as in
    [sched_safe], a thread is not preempted between [wait_on] and [sched_sleep], which the code does
    not exclude ([preempted_waiter_corrupts]). *)
Theorem rwlock_correct nc nr x0 x :
  0 < nc → 3 * nc ≤ nr → rw_initial nc nr x0 → rtc (rw_step nc nr) x0 x →
  ∃ lr lw, waiters nr (rker x) (rd_queue (rwl x)) lr ∧ waiters nr (rker x) (wr_queue (rwl x)) lw ∧
    (∀ t, holds (rpcs x) lw true t →
       (∀ u, holds (rpcs x) lw true u → u = t) ∧ ∀ u, ¬ holds (rpcs x) lr false u) ∧
    (lr ≠ [] ∨ lw ≠ [] → ∃ t, holds (rpcs x) lw true t ∨ holds (rpcs x) lr false t) ∧
    (lr ≠ [] → lw ≠ [] ∨ ∃ t, holds (rpcs x) lw true t) ∧
    (rwlock_destroy (rwl x) = 0 →
       ∀ t, ¬ holds (rpcs x) lw true t ∧ ¬ holds (rpcs x) lr false t) ∧
    (∀ t err, rpcs x !! t = Some (RIdle err) → err = 0 ∨ err = EBUSY) ∧
    (∀ c t call, 0 ≤ c < nc → rw_may c t x = true → is_Some (rw_next t call x)) ∧
    (∀ c t call x', 0 ≤ c < nc → rw_may c t x = true → rw_next t call x = Some x' →
       ∃ lr', waiters nr (rker x') (rd_queue (rwl x')) lr' ∧
         (lw ≠ [] → ∀ u, holds (rpcs x') lr' false u → holds (rpcs x) lr false u)).
Proof.
  intros Hnc Hnr Hi Hr. destruct (ri_queues _ _ _ Hi) as (Hqr & Hqw & Hqq).
  destruct (rw_good_rtc nc nr Hnc Hnr _ _ Hqr Hqw Hqq x0 x) as (E1 & E2 & lr & lw & R & w & HG & Hin);
    [by apply rw_good_initial|done|].
  rewrite <- E1, <- E2 in *. clear E1 E2.
  destruct (G2_waiters nc nr Hnc Hnr _ _ Hqr Hqw Hqq _ _ _ HG) as [W1 W2].
  exists lr, lw. split; [done|]. split; [done|].
  pose proof Hin as [H1 H2 H3 H4 H5 H6 H7 H8 H9 H10].
  assert (∀ t, ¬ holds (rpcs x) lr false t ↔ t ∉ R) as HnR by (intros t; by rewrite H2).
  split; [|split; [|split; [|split; [|split; [|split]]]]].
  - intros t Ht. apply H3 in Ht. split; [intros u Hu%H3; congruence|]. intros u.
    apply HnR. rewrite (H5 t Ht). set_solver.
  - intros Hne. destruct w as [w|]; [exists w; left; by apply H3|].
    destruct (decide (R = ∅)) as [E|E].
    + destruct (H8 eq_refl E) as [-> ->]. by destruct Hne.
    + apply set_choose_L in E as [t Ht]. exists t. right. by apply H2.
  - intros Hne. destruct w as [w|]; [right; exists w; by apply H3|]. left. intros E.
    by apply Hne, H9.
  - unfold rwlock_destroy. destruct (Z.eqb_spec (rw_count (rwl x)) 0) as [E|E]; [|done].
    intros _ t. rewrite HnR, <- H3. destruct w as [w|]; [by rewrite E in H4|].
    assert (R = ∅) as -> by (apply leibniz_equiv, size_empty_inv; lia). done.
  - done.
  - intros c t call Hc Hm.
    destruct (rw_next_ok nc nr Hnc Hnr _ _ Hqr Hqw Hqq x c t call lr lw)
      as (p & s' & p' & n' & lr' & lw' & _ & _ & _ & E & _); try done.
  - intros c t call x' Hc Hm E.
    destruct (rw_next_ok nc nr Hnc Hnr _ _ Hqr Hqw Hqq x c t call lr lw)
      as (p & s' & p' & n' & lr' & lw' & Ep & Hl & Es & E' & HG'); try done.
    assert (x' = rw_at t p' (set_rw_count n' (rwl x)) s' x) as -> by congruence.
    exists lr'. split; [by apply (G2_waiters nc nr Hnc Hnr _ _ Hqr Hqw Hqq _ _ _ HG')|].
    intros Hw u. by eapply rw_spec_pref.
Qed.

(** Executions given by a list of steps; each is checked to be possible. *)
Inductive revent := RKop (c : Z) (op : kop) | RCall (c t : Z) (call : rcall).

Fixpoint rw_exec (nc nr : Z) (l : list revent) (x : rsys) : option rsys :=
  match l with
  | [] => Some x
  | RKop c op :: l =>
      if (0 <=? c) && (c <? nc) && rw_may_kop nc nr c op x
      then '(s, _) ← do_op c op (rker x); rw_exec nc nr l (rw_ker s x) else None
  | RCall c t call :: l =>
      if (0 <=? c) && (c <? nc) && rw_may c t x
      then x' ← rw_next t call x; rw_exec nc nr l x' else None
  end.

Lemma rw_exec_rtc nc nr l x x' : rw_exec nc nr l x = Some x' → rtc (rw_step nc nr) x x'.
Proof.
  revert x. induction l as [|[c op|c t call] l IH]; intros x E; [by injection E as ->| |];
    cbn in E; destruct ((0 <=? c) && (c <? nc)) eqn:Ec; try done; cbn in E.
  - destruct (rw_may_kop nc nr c op x) eqn:Em; [|done].
    destruct (do_op c op (rker x)) as [[s []]|] eqn:Ed; [|done]. cbn in E.
    eapply rtc_l; [|by apply IH]. eapply rw_step_kop; [|done|done]. lia.
  - destruct (rw_may c t x) eqn:Em; [|done].
    destruct (rw_next t call x) as [x1|] eqn:Ed; [|done]. cbn in E.
    eapply rtc_l; [|by apply IH]. eapply rw_step_call; [|done|done]. lia.
Qed.

(** The machine [boot] with a free lock on the queues 6 and 7. *)
Definition rw_boot : rsys :=
  {| rker := boot; rwl := {| rw_count := 0; rd_queue := 6; wr_queue := 7 |};
     rpcs := {[1 := RIdle 0; 2 := RIdle 0; 3 := RIdle 0]} |}.

Lemma rw_boot_initial : rw_initial 2 8 rw_boot.
Proof.
  split; try done; [apply boot_initial|]. intros t p Ht. cbn in Ht.
  repeat (apply lookup_insert_Some in Ht as [[_ <-]|[_ Ht]]; [done|]).
  by apply lookup_singleton_Some in Ht as [_ <-].
Qed.

(** Thread 2 reads; thread 3, on the other processor, waits to write. *)
Definition rw_contention : list revent :=
  [RKop 0 (Create 2); RKop 1 (Create 3); RKop 0 Yield; RKop 1 Yield; RKop 0 EnterKernel;
   RCall 0 2 RdLock; RCall 1 3 WrLock; RCall 1 3 WrLock].

Lemma rw_contention_facts :
  (λ x, (rpcs x !! 2, rpcs x !! 3, rw_count (rwl x), info_queue <$> threads (rker x) !! 3))
    <$> rw_exec 2 8 rw_contention rw_boot =
  Some (Some (RHold false), Some (RAsleep true), 1, Some (Some 7)).
Proof. vm_compute. reflexivity. Qed.

Lemma rwlock_correct_witness :
  ∃ x lr lw, rw_exec 2 8 rw_contention rw_boot = Some x ∧
    waiters 8 (rker x) (rd_queue (rwl x)) lr ∧ waiters 8 (rker x) (wr_queue (rwl x)) lw ∧
    holds (rpcs x) lr false 2 ∧ ¬ holds (rpcs x) lw true 3 ∧ 3 ∈ lw.
Proof.
  pose proof rw_contention_facts as Hf.
  destruct (rw_exec 2 8 rw_contention rw_boot) as [x|] eqn:E; [|discriminate Hf].
  cbn [fmap option_fmap option_map] in Hf. injection Hf as H2 H3 _ _.
  pose proof (rw_exec_rtc _ _ _ _ _ E) as Hr. clear E.
  destruct (rwlock_correct 2 8 rw_boot x ltac:(lia) ltac:(lia) rw_boot_initial Hr)
    as (lr & lw & W1 & W2 & Hex & _).
  assert (holds (rpcs x) lr false 2) as Hh by (left; exact H2).
  assert (¬ holds (rpcs x) lw true 3) as Hn.
  { intros Hw. destruct (Hex 3 Hw) as [_ Hno]. exact (Hno 2 Hh). }
  exists x, lr, lw.
  refine (conj eq_refl (conj W1 (conj W2 (conj Hh (conj Hn _))))).
  destruct (decide (3 ∈ lw)) as [Hin|Hin]; [exact Hin|].
  destruct Hn. right. exact (conj (or_intror H3) Hin).
Defined.
